(* ===== verification/_CoqProject ===== *)
-Q . S2P
Prelude.v
StateTypes.v
Float.v
Codec.v
Keccak.v
Merkle.v
Abi.v
Decoder.v
Substrate.v
SlotPolicy.v
Validate.v
Patch.v
SeedDerivation.v
PerPatch.v
JsSort.v
CanonicalJson.v
WorkUnits.v
Difficulty.v
Reducer.v
VerifyEpoch.v
LiveEpoch.v
Replay.v
EvalHarness.v
WorkerPool.v
EvalWorker.v
Upgrade.v
EpochFrontier.v
CorpusRoot.v
CorpusDelta.v
HiddenPack.v
FirstStage.v
Metrics.v
QueryIntent.v
CandidatePool.v
QueryRanking.v
Benchmark.v
SafeInteger.v
EvalReport.v
PatchNotice.v
DedupStore.v
ProductionEvaluator.v
Eligibility.v
MultiplierCap.v
FundingTx.v
Coordinator.v
CoordinatorWatch.v
CoordinatorSubmit.v
EvaluatorArtifact.v
RemoteScorer.v
