(* ===== verification/Prelude.v ===== *)
(** * CoreTex verification

    CoreTex keeps a shared memory substrate of 1024 256-bit words. Miners
    submit patches of one to four words; a patch is decoded, checked against
    the Merkle root of the state it was built on, applied, scored against
    hidden query packs, and credited. Validators replay an epoch from the
    patch bytes and must reach the same roots. This library models the
    TypeScript core of that system (packages/coretex/src) as executable
    functions and proves the properties that make replay, commitment and
    crediting sound.

    ** Files and what they model

    - [Prelude]: this file. Exceptions ([outcome]), byte arrays, JavaScript's
      32-bit operators, [Map] and [Set], hexadecimal strings, big-endian
      digits and bit fields, with the lemmas and tactics all files share.
    - [StateTypes] (state/types.ts): state, patches, error codes, word ranges.
    - [Float]: IEEE binary64 and binary32 as JavaScript uses them.
    - [Codec] (state/codec.ts): [pack]/[unpack], bit-field access.
    - [Keccak] (state/keccak256.ts): the half-word implementation ([Code]) and
      a 64-bit reference ([Spec]); the class [Hasher] is what every other
      file assumes of the hash, [keccak_hasher] is the instance.
    - [Merkle] (state/merkle.ts): tree construction and incremental update.
    - [Decoder], [Substrate] (substrate/retrieval-decoder.ts,
      substrate/structural-validity.ts): region decoders, composite decode,
      lens-diversity gate, encoders.
    - [SlotPolicy] (substrate/slot-policy.ts): the slot ring.
    - [Validate] (state/validate.ts): reserved bits and policy regions.
    - [Patch] (state/patch.ts): wire codec, patch-type rules, [applyPatch].
    - [SeedDerivation] (eval/seed-derivation.ts): evaluation seeds, patch
      hashes, dedup keys.
    - [JsSort]: [Array.prototype.sort] and string order; the class
      [CmpPreorder] is what a comparator promises to the sort.
    - [CanonicalJson] (canonical/json.ts): the serializer behind hashes and
      signatures, on a type of JavaScript values.
    - [WorkUnits], [Difficulty] (rewards/): policy validation, credited units,
      screener threshold, qualification, difficulty controller.
    - [Reducer], [LiveEpoch] (reducer/accept-core.ts, reducer/reducer.ts,
      reducer/live-epoch.ts): the accept step, the batch and the live lane.
    - [EvalHarness] (eval/index.ts): the single-patch harness and its report.
    - [PerPatch] (coordinator/per-patch-evaluator.ts,
      eval/live-eval-admission.ts, replay/per-patch.ts): admission, dual-pack
      evaluation under a future block hash, and receipt verification.
    - [Abi]: event logs and the ABI words in them. [Replay]
      (replay/coretex-registry.ts, replay/launch-recovery-pin.ts): paging,
      decoding and replaying the registry's log. [VerifyEpoch]
      (verify-epoch/index.ts): rebuilding a finalized epoch from its events.
    - [WorkerPool], [EvalWorker] (workers/pool.ts, workers/worker.ts): the
      pool as a state machine over submit, answer, crash and close events,
      and the handler each worker runs.
    - [Upgrade] (upgrade/index.ts): translation payloads and resets.
    - [EpochFrontier] (coordinator/epoch-frontier.ts): the rotation of hidden
      queries through reserve, active window and retirement.
    - [CorpusRoot] (eval/retrieval-corpus.ts): events, splits, and the corpus
      root kept as a forest of perfect trees.
    - [CorpusDelta] (corpus/delta.ts, corpus/admission.ts,
      corpus/epoch-rotation.ts): deltas, admission, frontier pruning.
    - [HiddenPack] (eval/hidden-query-pack.ts): deriving the query pack of an
      epoch from its seed, the overlay of active queries, verification.
    - [FirstStage] (eval/public-corpus-index.ts, and the owner-scoped search
      of eval/retrieval-benchmark.ts): the index of public documents and the
      dense, lexical and hybrid search over it.
    - [Metrics] (eval/ir-metrics.ts, eval/relation-qrels.ts): ranking metrics,
      hops over relation edges, aliases of relation answers.
    - [QueryIntent] (eval/retrieval-benchmark.ts): what the wording and the
      public metadata of a query say, with the regular expressions as values.
    - [CandidatePool], [QueryRanking] (eval/retrieval-benchmark.ts,
      eval/memory-ir-render.ts): the scoring of one query,
      [scoreSubstrateAgainstQuery]: the pool a decoded substrate makes of the
      first stage, then bonuses, the cap, what the reranker reads, the policy
      nudges and the final order.
    - [Benchmark] (eval/retrieval-benchmark.ts, rewards/baseline.ts): the
      composite score of a pack, the acceptance of a patch, the baseline.
    - [Coordinator], [CoordinatorWatch], [CoordinatorSubmit]
      (coordinator/coretex-coordinator-core.ts): the coordinator's record of
      fields and its operations; following the chain through reorgs; and the
      path of a submission to a signed receipt.
    - [SafeInteger]: safe integers as doubles, shared by the files below.
    - [DedupStore], [ProductionEvaluator] (coordinator/production-evaluator.ts):
      the evaluation store, as a class with its documented laws and the
      in-memory instance; and [scorePatch], from a submitted patch to a
      credited result, as the list of what it does to its surroundings.
    - [EvalReport] (replay/eval-report-artifact.ts), [PatchNotice]
      (coordinator/patch-received-notice.ts): published reports and notices,
      and what an auditor checks of them.
    - [EvaluatorArtifact]: the evaluator's result on its way to the auditors
      and to the coordinator.
    - [RemoteScorer] (coordinator/remote-scorer-verify.ts,
      scorer-server-cli.ts): a job on the keyless scorer, and what the
      coordinator checks of the answer.
    - [Eligibility], [MultiplierCap], [FundingTx] (reducer/): the credit
      ledger, the bonus leaves, the funding call and claim proofs.

    ** How the parts interact

    A patch flows decodePatch -> applyPatch (validate, substrate decoder,
    Merkle root) -> accept step -> reducer or live epoch, which call the
    work-unit policy and maintain the Merkle cache; the ledger turns the
    outcomes into credits and the funding call. Seeds and dedup keys bind the
    evaluation to the same bytes. The worker pool runs the harness, which uses
    the same Merkle cache and reserved-bit scan as [applyPatch]. What the two
    lanes publish comes back through the log: [Replay] re-applies the live
    lane's advances, [VerifyEpoch] re-runs the batch reducer on the accepted
    events, [PerPatch] re-derives the seeds and scores of a receipt. The
    coordinator signs for patches that apply to its confirmed state, which it
    rebuilds from the same log with [decodePatch] and [applyPatch]. The corpus
    side is separate: deltas update events and their root, the frontier
    decides which of the hidden queries are active, pruning reconciles the two,
    and [HiddenPack] draws the queries a seed is scored on from the corpus and
    overlays those the frontier has activated. [Benchmark] decodes the state
    with [decodeSubstrate], scores each query of a pack through a scorer, reads
    the rankings with [Metrics], and applies the patch with [applyPatch] before
    it scores again; the program's scorer is [QueryRanking] over
    [CandidatePool], which start from [FirstStage] and [QueryIntent] and ask the
    reranker, a parameter. [ProductionEvaluator] runs [PerPatch] with the
    scorer of [Benchmark] under its evaluation store and hands its result to
    [CoordinatorSubmit], whose evaluator is otherwise a parameter. Functions keep the source's names and
    argument order; a loop is a Fixpoint or a fold over the same data; an
    exception is [Throws]; a discriminated result is an inductive type.

    ** What the theorems show

    - Commitment: the hash is Keccak-256 ([Keccak]); the incremental Merkle
      tree equals the rebuilt one and roots bind states ([Merkle]); seeds,
      dedup keys, patch-set roots and claim proofs bind what they hash.
      Binding theorems name the two hashed byte strings that would collide.
    - Wire format: packing, patches and substrate records round-trip (a patch
      up to the width of its words, which the encoder does not check), and the
      patch wire form is canonical.
    - State machine: [applyPatch] refines an abstract specification, each
      error code has its cause, reachable states satisfy the invariant.
    - Epochs: both lanes always return on wire patches, their output accounts
      for every candidate, and the batch lane is independent of arrival order.
    - Validation: the advances of a live epoch replay to its root, the events
      of a batch epoch verify to its root, in any order of the log; what
      replay and verification accept is what they are meant to accept; pages
      cover the requested blocks.
    - Receipts: seeds are fixed before scoring, an accepted receipt cleared
      both packs, receipts replay, and a receipt that replays is bound. The
      evaluator draws a seed once per patch, charges no miner past its cap and
      credits a patch once; what it credits the coordinator accepts and
      rewrites to the same bytes, and its artifact verifies for an auditor.
    - Coordinator: boot and every tick end with what the canonical log says,
      after a reorg too; signing means parity with the registry; a signed
      advance is one the watcher accepts, and then it is confirmed; receipts
      of a miner chain; an invariant of the confirmed state and the pending
      receipts holds after any sequence of operations.
    - Evaluation: the harness agrees with [applyPatch], a worker's cache is
      invisible to its clients, the pool loses and repeats no request and
      drains, canonical JSON determines the document.
    - Corpus: a delta that was built applies exactly when its additions have
      distinct ids, incremental and rebuilt roots
      agree, the frontier conserves queries through rotation, restart and
      pruning; admission is a partition within its caps.
    - Packs: a derived pack has exactly its size, distinct eligible queries and
      every quota, and the overlay keeps all of it; the selection of active
      queries ends and leaves no room unused; a published pack verifies.
    - Scoring: a patch is accepted exactly when it applies and passes every
      gate, and then the composite rose; heap selection equals sorting, and
      posting-list scores equal direct ones; the hop search decides
      reachability; aliases are idempotent; subjects are grounded. A query
      ranks each document of its pool once, all of them from the first stage or
      the corpus, sorted by the final score; the first stage is never lost and
      what the substrate adds is bounded; the reranker's cap holds; labels do
      not move a ranking; a substrate without records changes nothing.
    - Upgrades: payloads round-trip and apply as a chain of patches.
    - Rewards: thresholds and difficulty stay in their windows, units are
      monotone, nothing is credited twice, bonuses respect their caps.

    ** Bounds and fuel

    Bigints are [Z]; uint256 words, bytes and 32-bit operators carry their
    width explicitly. JavaScript numbers used as indices are [Z] or [nat];
    those used as reals are IEEE doubles. Loops that are not structural take
    fuel equal to a length that bounds their iterations (the level length for
    both Merkle trees, the index width for LEB128, one round per id for the
    reserve order, the payload length for upgrade segments, 31 doublings and
    one block per missing leaf for corpus padding, one round per block for log
    pages, the length of the heap for sifting, the hop budget for the graph
    searches) and the theorems show that
    the loop finishes within it. Strings are lists of 8-bit characters, so
    code-unit order and byte order agree.

    ** Not modelled

    The neural models: the reranker is a parameter, embeddings are data. The
    caches around the corpus indexes and the first stage are the functions they
    cache; telemetry, timings and full dumps of a scoring are left out. The
    evaluation store is called synchronously: evaluations that interleave at an
    await are not modelled. The job queue, tokens and boot of the scorer host; HTTP,
    status reports and storage of the coordinator; file and network access of the validator,
    the Solidity contracts and the Python package. Marginal evaluators, the
    collation of [localeCompare], the tier lookup, sha256, [Math.pow], [Math.log], the
    chain client, the receipt signer, the clock and the printing of numbers are parameters. *)
From stdpp Require Export base list list_numbers option numbers strings sets.
From Stdlib Require Export ZArith Lia.
From Stdlib Require Import Ascii.

#[global] Open Scope Z_scope.
#[export] Set Default Goal Selector "!".

(** ** Exceptions: a JavaScript call either returns a value or throws. *)
Inductive js_error :=
  | TypeError (tag : string)
  | RangeError (tag : string)
  | GenericError (tag : string).

Inductive outcome (A : Type) :=
  | Returns (a : A)
  | Throws (e : js_error).
Arguments Returns {A} _.
Arguments Throws {A} _.

#[export] Instance outcome_ret : MRet outcome := fun A a => Returns a.
#[export] Instance outcome_bind : MBind outcome := fun A B f m =>
  match m with Returns a => f a | Throws e => Throws e end.

(** [throw_if c e] is the guard [if (c) throw e]. *)
Definition throw_if (c : bool) (e : js_error) : outcome unit :=
  if c then Throws e else Returns tt.

Declare Scope coretex_scope.
Delimit Scope coretex_scope with coretex.
(** [if (c) throw e; k] *)
Notation "'throw_when' c 'with' e ;; k" :=
  (mbind (M:=outcome) (fun _ : unit => k) (throw_if c e))
  (at level 100, c at level 99, e at level 99, k at level 200, right associativity,
   format "'throw_when'  c  'with'  e ;; '//' k") : coretex_scope.
#[global] Open Scope coretex_scope.

Lemma bind_Returns {A B} (m : outcome A) (f : A -> outcome B) b :
  m ≫= f = Returns b <-> exists a, m = Returns a /\ f a = Returns b.
Proof. destruct m; naive_solver. Qed.

Lemma Returns_inj {A} (a b : A) : Returns a = Returns b -> a = b.
Proof. congruence. Qed.

Lemma throw_when_Returns {A} (c : bool) e (k : outcome A) a : (throw_when c with e ;; k) = Returns a <-> c = false /\ k = Returns a.
Proof. destruct c; cbn; intuition congruence. Qed.

Lemma throw_if_Returns c e u : throw_if c e = Returns u <-> c = false.
Proof. destruct c, u; naive_solver. Qed.

(** ** Bytes: a [Uint8Array] is a list of integers in [0, 256). *)
Abbreviation bytes := (list Z).
Definition byte_ok (b : Z) : Prop := 0 <= b < 256.
Abbreviation bytes_ok := (Forall byte_ok).

#[export] Instance byte_ok_dec b : Decision (byte_ok b).
Proof. unfold byte_ok. apply _. Defined.

(** ** JavaScript number and bigint operations. *)
Definition asUintN (n v : Z) : Z := v mod 2 ^ n.
Definition ToUint32 (v : Z) : Z := v mod 2 ^ 32.
Definition ToInt32 (v : Z) : Z :=
  let u := ToUint32 v in if u <? 2 ^ 31 then u else u - 2 ^ 32.

(** [l[i]] for an array: [undefined] (None) outside the range. *)
Definition js_get {A} (l : list A) (i : Z) : option A :=
  if 0 <=? i then l !! Z.to_nat i else None.

(** [ws[i] ?? 0n] *)
Definition get0 (l : list Z) (i : Z) : Z := default 0 (js_get l i).

(** [a[i] = v] on an array read through [?? 0n]: the array is extended,
    with holes that read as [0n], when [i] is past its end. *)
Definition js_set (l : list Z) (i : Z) (v : Z) : list Z :=
  if i <? 0 then l
  else let n := Z.to_nat i in
       if (n <? length l)%nat then <[n := v]> l
       else l ++ replicate (n - length l) 0 ++ [v].

(** [new Uint8Array(n)] *)
Definition zeros (n : nat) : bytes := replicate n 0.

(** [out.set(src, off)] on a [Uint8Array] that is long enough. *)
Definition u8_set (out : bytes) (off : nat) (src : bytes) : bytes :=
  take off out ++ src ++ drop (off + length src) out.

(** [data.slice(off, off + n)] / [data.subarray(off, off + n)] *)
Definition u8_slice (data : bytes) (off n : nat) : bytes := take n (drop off data).

Fixpoint list_Zeqb (a b : list Z) : bool :=
  match a, b with
  | [], [] => true
  | x :: a', y :: b' => (x =? y) && list_Zeqb a' b'
  | _, _ => false
  end.

Lemma list_Zeqb_spec a b : list_Zeqb a b = true <-> a = b.
Proof.
  revert b; induction a as [|x a IH]; intros [|y b]; simpl; try naive_solver.
  rewrite andb_true_iff, Z.eqb_eq, IH. naive_solver.
Qed.

Lemma list_Zeqb_refl a : list_Zeqb a a = true.
Proof. by apply list_Zeqb_spec. Qed.

(** Writing into a zeroed tail, and reading back. *)
Lemma u8_set_app pre n bs : (length bs <= n)%nat ->
  u8_set (pre ++ zeros n) (length pre) bs = (pre ++ bs) ++ zeros (n - length bs).
Proof.
  intros. unfold u8_set, zeros. rewrite take_app_length, drop_app, drop_ge by lia.
  replace (length pre + length bs - length pre)%nat with (length bs) by lia.
  rewrite drop_replicate, <- app_assoc. done.
Qed.

Lemma u8_slice_app pre mid post off n : off = length pre -> n = length mid -> u8_slice (pre ++ mid ++ post) off n = mid.
Proof. intros -> ->. unfold u8_slice. by rewrite drop_app_length, take_app_length. Qed.

Lemma u8_slice_split data off n : (off + n <= length data)%nat ->
  data = take off data ++ u8_slice data off n ++ drop (off + n) data.
Proof. intros. unfold u8_slice. rewrite <- drop_drop, take_drop, take_drop. done. Qed.

(** ** Tactics *)
(** [inv_outcome] takes apart hypotheses saying that a monadic computation returned. *)
Ltac inv_outcome :=
  repeat match goal with
  | H : mbind _ _ = Returns _ |- _ => apply bind_Returns in H as (? & ? & H)
  | H : throw_if _ _ = Returns _ |- _ => apply throw_if_Returns in H
  | H : Returns _ = Returns _ |- _ => injection H as H
  | H : mret _ = Returns _ |- _ => unfold mret, outcome_ret in H
  | H : Throws _ = Returns _ |- _ => discriminate H
  end.

(** [bool_hyps] turns boolean comparisons into propositions for [lia]. *)
Ltac bool_hyps :=
  repeat match goal with
  | H : (_ && _) = true |- _ => apply andb_true_iff in H as [? H]
  | H : (_ || _) = false |- _ => apply orb_false_iff in H as [? H]
  | H : (_ && _) = false |- _ => apply andb_false_iff in H
  | H : (_ || _) = true |- _ => apply orb_true_iff in H
  | H : negb _ = true |- _ => apply negb_true_iff in H
  | H : negb _ = false |- _ => apply negb_false_iff in H
  | H : (_ =? _) = true |- _ => apply Z.eqb_eq in H
  | H : (_ =? _) = false |- _ => apply Z.eqb_neq in H
  | H : (_ <? _) = true |- _ => apply Z.ltb_lt in H
  | H : (_ <? _) = false |- _ => apply Z.ltb_ge in H
  | H : (_ <=? _) = true |- _ => apply Z.leb_le in H
  | H : (_ <=? _) = false |- _ => apply Z.leb_gt in H
  | H : (_ >? _) = true |- _ => rewrite Z.gtb_ltb in H
  | H : (_ >? _) = false |- _ => rewrite Z.gtb_ltb in H
  | H : (_ >=? _) = true |- _ => rewrite Z.geb_leb in H
  | H : (_ >=? _) = false |- _ => rewrite Z.geb_leb in H
  end.

(** ** Big-endian digit expansion, the reference for every byte codec. *)
Fixpoint be_bytes (n : nat) (v : Z) : bytes :=
  match n with
  | O => []
  | S n' => be_bytes n' (v / 256) ++ [v mod 256]
  end.

Definition be_value (l : bytes) : Z := fold_left (fun acc b => acc * 256 + b) l 0.

Lemma length_be_bytes n v : length (be_bytes n v) = n.
Proof. revert v; induction n as [|n IH]; intros; simpl; [done|]. rewrite length_app, IH; simpl; lia. Qed.

Lemma be_bytes_ok n v : bytes_ok (be_bytes n v).
Proof.
  revert v; induction n as [|n IH]; intros; simpl; [constructor|].
  apply Forall_app; split; [apply IH|]. constructor; [|constructor].
  unfold byte_ok. apply Z.mod_pos_bound; lia.
Qed.

Lemma be_value_snoc l b : be_value (l ++ [b]) = be_value l * 256 + b.
Proof. unfold be_value. by rewrite fold_left_app. Qed.

Lemma pow256_S n : 256 ^ Z.of_nat (S n) = 256 * 256 ^ Z.of_nat n.
Proof. rewrite Nat2Z.inj_succ, Z.pow_succ_r by lia. done. Qed.

Lemma pow256_pos n : 0 < 256 ^ Z.of_nat n.
Proof. apply Z.pow_pos_nonneg; lia. Qed.

Lemma be_value_be_bytes n v : be_value (be_bytes n v) = v mod 256 ^ Z.of_nat n.
Proof.
  revert v; induction n as [|n IH]; intros v; simpl be_bytes.
  - simpl. by rewrite Z.mod_1_r.
  - rewrite be_value_snoc, IH, pow256_S.
    pose proof (pow256_pos n). rewrite Z.rem_mul_r by lia. lia.
Qed.

Lemma be_value_bound l : bytes_ok l -> 0 <= be_value l < 256 ^ Z.of_nat (length l).
Proof.
  induction l as [|b l IH] using rev_ind; intros Hl; [vm_compute; intuition congruence|].
  apply Forall_app in Hl as [Hl Hb]. inversion_clear Hb.
  rewrite be_value_snoc, length_app, Nat.add_1_r, pow256_S.
  unfold byte_ok in *. specialize (IH Hl). lia.
Qed.

Lemma be_bytes_be_value l : bytes_ok l -> be_bytes (length l) (be_value l) = l.
Proof.
  induction l as [|b l IH] using rev_ind; intros Hl; [done|].
  apply Forall_app in Hl as [Hl Hb]. inversion_clear Hb as [|? ? Hb' _].
  rewrite be_value_snoc, length_app, Nat.add_1_r; simpl. unfold byte_ok in Hb'.
  rewrite (Z.add_comm _ b), Z.div_add, Z.div_small, Z.add_0_l by lia.
  rewrite Z.mod_add, Z.mod_small by lia. by rewrite IH.
Qed.

Lemma be_bytes_inj n v w :
  0 <= v < 256 ^ Z.of_nat n -> 0 <= w < 256 ^ Z.of_nat n ->
  be_bytes n v = be_bytes n w -> v = w.
Proof.
  intros Hv Hw E. apply (f_equal be_value) in E.
  rewrite !be_value_be_bytes, !Z.mod_small in E by done. done.
Qed.

#[global] Arguments be_bytes : simpl never.

(** ** Bit-level facts shared by the codecs. *)
Lemma land_ff v : Z.land v 0xff = v mod 256.
Proof. change 0xff with (Z.ones 8). by rewrite Z.land_ones by lia. Qed.

Lemma shiftr_8 v : Z.shiftr v 8 = v / 256.
Proof. by rewrite Z.shiftr_div_pow2 by lia. Qed.

(** [(acc << n) | b] appends the [n]-bit digit [b]. *)
Lemma lor_shiftl_add a b n : 0 <= n -> 0 <= b < 2 ^ n -> Z.lor (Z.shiftl a n) b = a * 2 ^ n + b.
Proof.
  intros Hn Hb. rewrite Z.shiftl_mul_pow2 by lia.
  assert (Hd : Z.land (a * 2 ^ n) b = 0).
  { apply Z.bits_inj'; intros i Hi. rewrite Z.land_spec, Z.bits_0, Z.mul_pow2_bits by lia.
    destruct (Z.lt_ge_cases i n); [by rewrite Z.testbit_neg_r by lia|].
    rewrite <- (Z.mod_small b (2 ^ n)) by lia. rewrite Z.mod_pow2_bits_high by lia.
    apply andb_false_r. }
  by rewrite Z.add_nocarry_lxor, Z.lxor_lor by done.
Qed.

Lemma lor_bound a b n : 0 <= n -> 0 <= a < 2 ^ n -> 0 <= b < 2 ^ n -> 0 <= Z.lor a b < 2 ^ n.
Proof.
  intros Hn Ha Hb. rewrite <- (Z.mod_small a (2 ^ n)), <- (Z.mod_small b (2 ^ n)) by done.
  rewrite <- !Z.land_ones, <- Z.land_lor_distr_l, Z.land_ones by lia.
  apply Z.mod_pos_bound. lia.
Qed.

(** ** Field extraction from a packed word: [(w >> s) & (2^n - 1)]. *)
Definition bitfield (w s n : Z) : Z := Z.land (Z.shiftr w s) (Z.ones n).

Lemma bitfield_alt w s n : 0 <= s -> 0 <= n -> bitfield w s n = (w / 2 ^ s) mod 2 ^ n.
Proof. intros. unfold bitfield. by rewrite Z.land_ones, Z.shiftr_div_pow2 by lia. Qed.

Lemma bitfield_bound w s n : 0 <= s -> 0 <= n -> 0 <= bitfield w s n < 2 ^ n.
Proof. intros. rewrite bitfield_alt by lia. apply Z.mod_pos_bound, Z.pow_pos_nonneg; lia. Qed.

Lemma bitfield_lor a b s n : bitfield (Z.lor a b) s n = Z.lor (bitfield a s n) (bitfield b s n).
Proof. unfold bitfield. by rewrite Z.shiftr_lor, Z.land_lor_distr_l. Qed.

Lemma bitfield_shiftl_eq v s n : 0 <= s -> 0 <= n -> 0 <= v < 2 ^ n ->
  bitfield (Z.shiftl v s) s n = v.
Proof.
  intros. unfold bitfield. rewrite Z.shiftr_shiftl_l, Z.sub_diag, Z.shiftl_0_r, Z.land_ones by lia.
  by apply Z.mod_small.
Qed.

Lemma bitfield_shiftl_above v k s n : 0 <= s -> 0 <= n -> s + n <= k ->
  bitfield (Z.shiftl v k) s n = 0.
Proof.
  intros. unfold bitfield. rewrite Z.shiftr_shiftl_l, Z.land_ones, Z.shiftl_mul_pow2 by lia.
  replace (k - s) with ((k - s - n) + n) by lia. rewrite Z.pow_add_r by lia.
  rewrite Z.mul_assoc. apply Z.mod_mul. lia.
Qed.

Lemma bitfield_shiftl_below v k m s n : 0 <= k -> 0 <= m -> 0 <= n -> 0 <= v < 2 ^ m -> k + m <= s ->
  bitfield (Z.shiftl v k) s n = 0.
Proof.
  intros. rewrite bitfield_alt by lia. rewrite Z.shiftl_mul_pow2 by lia.
  rewrite Z.div_small; [apply Z.mod_0_l; lia|].
  assert (2 ^ (k + m) <= 2 ^ s) by (apply Z.pow_le_mono_r; lia).
  rewrite Z.pow_add_r in * by lia. pose proof (Z.pow_pos_nonneg 2 k). nia.
Qed.

Lemma bitfield_0 s n : bitfield 0 s n = 0.
Proof. unfold bitfield. by rewrite Z.shiftr_0_l, Z.land_0_l. Qed.

(** Splitting a word at bit [s]. *)
Lemma bitfield_split w s n : 0 <= s -> 0 <= n ->
  bitfield w 0 (s + n) = Z.lor (Z.shiftl (bitfield w s n) s) (bitfield w 0 s).
Proof.
  intros. pose proof (bitfield_bound w 0 s ltac:(lia) ltac:(lia)).
  rewrite lor_shiftl_add by lia. rewrite !bitfield_alt by lia.
  change (2 ^ 0) with 1. rewrite Z.div_1_r, Z.pow_add_r by lia.
  rewrite Z.rem_mul_r by (apply Z.pow_nonzero || apply Z.pow_pos_nonneg; lia). lia.
Qed.

Lemma bitfield_full w n : 0 <= n -> 0 <= w < 2 ^ n -> bitfield w 0 n = w.
Proof. intros. rewrite bitfield_alt by lia. change (2 ^ 0) with 1. rewrite Z.div_1_r. by apply Z.mod_small. Qed.

(** A value below the field contributes nothing to it. *)
Lemma bitfield_small v s n : 0 <= s -> 0 <= n -> 0 <= v < 2 ^ s -> bitfield v s n = 0.
Proof. intros. rewrite bitfield_alt by lia. by rewrite Z.div_small, Z.mod_0_l by lia. Qed.

Lemma shiftr_zero v n : 0 <= n -> Z.shiftr v n = 0 <-> 0 <= v < 2 ^ n.
Proof.
  intros. rewrite Z.shiftr_div_pow2 by lia. pose proof (Z.pow_pos_nonneg 2 n).
  split; [|intros; by apply Z.div_small]. intros E.
  pose proof (Z.div_mod v (2 ^ n)). pose proof (Z.mod_pos_bound v (2 ^ n)). lia.
Qed.

(** The top field of a word and the rest, for reassembling it. *)
Lemma bitfield_split_word w m s : 0 <= s <= m ->
  bitfield w 0 m = Z.lor (Z.shiftl (bitfield w s (m - s)) s) (bitfield w 0 s).
Proof. intros. rewrite <- bitfield_split by lia. f_equal; lia. Qed.

(** [bf] evaluates the fields of a word built with [Z.lor] and [Z.shiftl],
    given the bounds of its components. *)
Ltac bf_step :=
  match goal with
  | |- context [bitfield (Z.lor ?a ?b) ?s ?n] => rewrite (bitfield_lor a b s n)
  | |- context [bitfield 0 ?s ?n] => rewrite (bitfield_0 s n)
  | |- context [bitfield (Z.shiftl ?v ?k) ?s ?n] =>
      first [ unify k s; rewrite (bitfield_shiftl_eq v k n) by lia
            | rewrite (bitfield_shiftl_above v k s n) by lia
            | let m := eval vm_compute in (s - k) in
              rewrite (bitfield_shiftl_below v k m s n) by lia ]
  | |- context [bitfield ?v ?s ?n] =>
      first [ unify s 0; rewrite (bitfield_full v n) by lia
            | rewrite (bitfield_small v s n) by lia ]
  end.
Ltac bf := repeat bf_step; rewrite ?Z.lor_0_l, ?Z.lor_0_r.

(** ** JavaScript's 32-bit integer operators. Operands are converted with
    [ToInt32]; all results but those of [>>>] are signed. *)
Definition js_or (a b : Z) : Z := Z.lor (ToInt32 a) (ToInt32 b).
Definition js_and (a b : Z) : Z := Z.land (ToInt32 a) (ToInt32 b).
Definition js_xor (a b : Z) : Z := Z.lxor (ToInt32 a) (ToInt32 b).
Definition js_not (a : Z) : Z := Z.lnot (ToInt32 a).
Definition js_shl (a n : Z) : Z := ToInt32 (Z.shiftl (ToInt32 a) n).
Definition js_shru (a n : Z) : Z := Z.shiftr (ToUint32 a) n.

Lemma ToUint32_ToInt32 v : ToUint32 (ToInt32 v) = ToUint32 v.
Proof.
  unfold ToInt32, ToUint32. destruct (_ <? _); [by apply Z.mod_mod|].
  rewrite Zminus_mod, Z.mod_same, Z.sub_0_r, !Z.mod_mod; lia.
Qed.

Lemma ToUint32_land v : ToUint32 v = Z.land v (Z.ones 32).
Proof. unfold ToUint32. by rewrite Z.land_ones. Qed.

Lemma ToUint32_bound v : 0 <= ToUint32 v < 2 ^ 32.
Proof. apply Z.mod_pos_bound. lia. Qed.

Lemma ToUint32_small v : 0 <= v < 2 ^ 32 -> ToUint32 v = v.
Proof. apply Z.mod_small. Qed.

Lemma ToUint32_idemp v : ToUint32 (ToUint32 v) = ToUint32 v.
Proof. apply ToUint32_small, ToUint32_bound. Qed.

Lemma ToUint32_or a b : ToUint32 (js_or a b) = Z.lor (ToUint32 a) (ToUint32 b).
Proof.
  rewrite <- (ToUint32_ToInt32 a), <- (ToUint32_ToInt32 b), !ToUint32_land. unfold js_or.
  by rewrite Z.land_lor_distr_l.
Qed.

Lemma ToUint32_xor a b : ToUint32 (js_xor a b) = Z.lxor (ToUint32 a) (ToUint32 b).
Proof.
  rewrite <- (ToUint32_ToInt32 a), <- (ToUint32_ToInt32 b), !ToUint32_land. unfold js_xor.
  apply Z.bits_inj'; intros i Hi. rewrite ?Z.land_spec, ?Z.lxor_spec, ?Z.land_spec.
  destruct (Z.testbit (Z.ones 32) i); by rewrite ?andb_true_r, ?andb_false_r.
Qed.

Lemma ToUint32_and a b : ToUint32 (js_and a b) = Z.land (ToUint32 a) (ToUint32 b).
Proof.
  rewrite <- (ToUint32_ToInt32 a), <- (ToUint32_ToInt32 b), !ToUint32_land. unfold js_and.
  apply Z.bits_inj'; intros i Hi. rewrite !Z.land_spec.
  destruct (Z.testbit (Z.ones 32) i); by rewrite ?andb_true_r, ?andb_false_r.
Qed.

Lemma ToUint32_not a : ToUint32 (js_not a) = Z.lxor (ToUint32 a) (Z.ones 32).
Proof.
  rewrite <- (ToUint32_ToInt32 a), !ToUint32_land. unfold js_not.
  apply Z.bits_inj'; intros i Hi. rewrite Z.land_spec, Z.lxor_spec, Z.land_spec, Z.lnot_spec by lia.
  destruct (Z.testbit (ToInt32 a) i), (Z.testbit (Z.ones 32) i); done.
Qed.

Lemma ToUint32_shl a n : 0 <= n -> ToUint32 (js_shl a n) = ToUint32 (Z.shiftl (ToUint32 a) n).
Proof.
  intros. unfold js_shl. rewrite ToUint32_ToInt32. rewrite <- (ToUint32_ToInt32 a).
  unfold ToUint32 at 1 2. rewrite !Z.shiftl_mul_pow2 by lia. unfold ToUint32.
  by rewrite Z.mul_mod_idemp_l by lia.
Qed.

#[global] Opaque js_or js_and js_xor js_not js_shl js_shru.

(** On small non-negative operands the operators are the integer ones. *)
Lemma ToInt32_small v : 0 <= v < 2 ^ 31 -> ToInt32 v = v.
Proof. intros. unfold ToInt32. rewrite ToUint32_small by lia. destruct (Z.ltb_spec v (2 ^ 31)); lia. Qed.

Lemma js_and_small a b : 0 <= a < 2 ^ 31 -> 0 <= b < 2 ^ 31 -> js_and a b = Z.land a b.
Proof. intros. Transparent js_and. unfold js_and. Opaque js_and. by rewrite !ToInt32_small. Qed.

Lemma js_or_small a b : 0 <= a < 2 ^ 31 -> 0 <= b < 2 ^ 31 -> js_or a b = Z.lor a b.
Proof. intros. Transparent js_or. unfold js_or. Opaque js_or. by rewrite !ToInt32_small. Qed.

Lemma js_shl_small a n : 0 <= n -> 0 <= a -> a * 2 ^ n < 2 ^ 31 -> js_shl a n = a * 2 ^ n.
Proof.
  intros. pose proof (Z.pow_pos_nonneg 2 n). assert (a <= a * 2 ^ n) by nia.
  Transparent js_shl. unfold js_shl. Opaque js_shl.
  rewrite (ToInt32_small a), Z.shiftl_mul_pow2, ToInt32_small by lia. done.
Qed.

Lemma js_shru_small a n : 0 <= n -> 0 <= a < 2 ^ 32 -> js_shru a n = a / 2 ^ n.
Proof. intros. Transparent js_shru. unfold js_shru. Opaque js_shru. by rewrite ToUint32_small, Z.shiftr_div_pow2 by lia. Qed.

Lemma js_shru_0 a : js_shru a 0 = ToUint32 a.
Proof. Transparent js_shru. unfold js_shru. Opaque js_shru. by rewrite Z.shiftr_0_r. Qed.

(** A value below [2^n] has no bit at or above position [n]. *)
Lemma testbit_small v n i : 0 <= n -> 0 <= v < 2 ^ n -> n <= i -> Z.testbit v i = false.
Proof.
  intros. rewrite <- (Z.mod_small v (2 ^ n)) by lia. by apply Z.mod_pow2_bits_high.
Qed.

Lemma map_inj_on {A B} (P : A -> Prop) (f : A -> B) l1 l2 :
  (forall a b, P a -> P b -> f a = f b -> a = b) ->
  Forall P l1 -> Forall P l2 -> map f l1 = map f l2 -> l1 = l2.
Proof.
  intros Hf H1. revert l2. induction H1 as [|a l1 Ha _ IH]; intros [|b l2] H2 E; try discriminate E; [done|].
  injection E as E1 E2. inversion_clear H2. f_equal; auto.
Qed.

Lemma mapM_Returns {A B} (f : A -> outcome B) l k : mapM f l = Returns k <-> Forall2 (fun a b => f a = Returns b) l k.
Proof.
  revert k. induction l as [|a l IH]; intros k; cbn [mapM].
  - split; [intros [= <-]; constructor|]. intros H. by apply Forall2_nil_inv_l in H as ->.
  - split.
    + intros H. apply bind_Returns in H as (b & Hb & H). apply bind_Returns in H as (k' & Hk & [= <-]).
      constructor; [done|]. by apply IH.
    + intros (b & k' & Hb & Hk & ->)%Forall2_cons_inv_l. rewrite Hb. cbn [mbind outcome_bind]. apply IH in Hk. by rewrite Hk.
Qed.

Lemma mapM_app {A B} (f : A -> outcome B) l k bs cs : mapM f l = Returns bs -> mapM f k = Returns cs -> mapM f (l ++ k) = Returns (bs ++ cs).
Proof.
  revert bs. induction l as [|x l IH]; intros bs H1 H2; [by injection H1 as <-|]. cbn [mapM app] in *.
  apply bind_Returns in H1 as (b & -> & H1). apply bind_Returns in H1 as (bs' & H1 & [= <-]). cbn [mbind outcome_bind]. by rewrite (IH bs').
Qed.

(** A function that does not throw on a list does not throw on its rearrangements. *)
Lemma mapM_perm {A B} (f : A -> outcome B) l l' bs : l ≡ₚ l' -> mapM f l = Returns bs -> exists bs', mapM f l' = Returns bs' /\ bs ≡ₚ bs'.
Proof.
  intros Hp. revert bs. induction Hp as [|x l l' _ IH|x y l|l1 l2 l3 _ IH1 _ IH2]; intros bs H.
  - exists bs. done.
  - cbn [mapM] in H. apply bind_Returns in H as (b & Hb & H). apply bind_Returns in H as (bs0 & H0 & [= <-]).
    destruct (IH bs0 H0) as (bs' & H' & P). exists (b :: bs'). cbn [mapM]. rewrite Hb. cbn [mbind outcome_bind]. rewrite H'. by rewrite P.
  - cbn [mapM] in H. apply bind_Returns in H as (b & Hb & H). apply bind_Returns in H as (bs0 & H0 & [= <-]).
    apply bind_Returns in H0 as (c & Hc & H0). apply bind_Returns in H0 as (bs1 & H1 & [= <-]). exists (c :: b :: bs1).
    cbn [mapM]. rewrite Hc. cbn [mbind outcome_bind]. rewrite Hb. cbn [mbind outcome_bind]. rewrite H1. split; [done|apply Permutation_swap].
  - destruct (IH1 bs H) as (b2 & H2 & P2). destruct (IH2 b2 H2) as (b3 & H3 & P3). exists b3. by rewrite P2.
Qed.

Lemma filter_keeps {A} (P : A -> Prop) `{forall x, Decision (P x)} (l : list A) : (forall x, x ∈ l -> P x) -> filter P l = l.
Proof.
  induction l as [|x l IH]; intros Hp; [done|]. rewrite filter_cons_True by (apply Hp; by left). f_equal. apply IH.
  intros y Hy. apply Hp. by right.
Qed.

(** ** JavaScript [Map] and [Set]: insertion-ordered, a second [set] of a
    key keeps its position. *)
Section JsMap.
Context {K V : Type} `{EqDecision K}.

Fixpoint jsmap_get (k : K) (m : list (K * V)) : option V :=
  match m with
  | [] => None
  | (k', v) :: m' => if decide (k = k') then Some v else jsmap_get k m'
  end.

Fixpoint jsmap_set (k : K) (v : V) (m : list (K * V)) : list (K * V) :=
  match m with
  | [] => [(k, v)]
  | (k', v') :: m' => if decide (k = k') then (k, v) :: m' else (k', v') :: jsmap_set k v m'
  end.

(** [map.delete(k)] *)
Definition jsmap_delete (k : K) (m : list (K * V)) : list (K * V) := filter (fun e => e.1 <> k) m.

Lemma jsmap_get_set k k' v m :
  jsmap_get k (jsmap_set k' v m) = if decide (k = k') then Some v else jsmap_get k m.
Proof.
  induction m as [|[k1 v1] m IH]; simpl; [done|].
  repeat (case_decide; simpl; subst); try congruence.
Qed.

Lemma jsmap_set_keys k v m :
  (jsmap_set k v m).*1 = if decide (k ∈ m.*1) then m.*1 else m.*1 ++ [k].
Proof.
  induction m as [|[k1 v1] m IH]; [by rewrite decide_False by apply not_elem_of_nil|]. csimpl.
  destruct (decide (k = k1)) as [->|Hne]; csimpl.
  - by rewrite decide_True by set_solver.
  - rewrite IH. destruct (decide (k ∈ m.*1)).
    + by rewrite decide_True by set_solver.
    + by rewrite decide_False by set_solver.
Qed.

Lemma jsmap_set_NoDup k v m : NoDup m.*1 -> NoDup (jsmap_set k v m).*1.
Proof.
  intros H. rewrite jsmap_set_keys. case_decide; [done|].
  apply NoDup_app; split; [done|]. split; [set_solver|]. apply NoDup_singleton.
Qed.

Lemma jsmap_get_elem k v m : NoDup m.*1 -> (k, v) ∈ m <-> jsmap_get k m = Some v.
Proof.
  induction m as [|[k1 v1] m IH]; csimpl; intros Hnd; [split; [intros H; by apply not_elem_of_nil in H|done]|].
  apply NoDup_cons in Hnd as [Hni Hnd]. rewrite elem_of_cons, IH by done. case_decide as E.
  - subst k1. split; [intros [?|Hg]; [by simplify_eq|]|by left; simplify_eq].
    exfalso. apply Hni. apply IH in Hg; [|done]. apply list_elem_of_fmap. by exists (k, v).
  - split; [intros [?|?]; [congruence|done]|by right].
Qed.

(** A present key splits the map; setting it keeps its position, deleting it closes the gap. *)
Lemma jsmap_get_split k v m : jsmap_get k m = Some v ->
  exists a b, m = a ++ (k, v) :: b /\ k ∉ a.*1 /\ forall v', jsmap_set k v' m = a ++ (k, v') :: b.
Proof.
  induction m as [|[k1 v1] m IH]; cbn [jsmap_get]; [done|]. case_decide as E; [intros [= ->]; subst k1|].
  - exists [], m. split; [done|]. split; [apply not_elem_of_nil|]. intros v'. cbn [jsmap_set app]. by rewrite decide_True.
  - intros (a & b & -> & Hni & Hset)%IH. exists ((k1, v1) :: a), b. split; [done|]. split; [csimpl; set_solver|].
    intros v'. cbn [jsmap_set app]. by rewrite decide_False, Hset.
Qed.

Lemma jsmap_delete_absent k m : k ∉ m.*1 -> jsmap_delete k m = m.
Proof.
  induction m as [|[k1 v1] m IH]; csimpl; intros Hni; [done|]. unfold jsmap_delete in *.
  rewrite filter_cons_True by set_solver. f_equal. apply IH. set_solver.
Qed.

Lemma jsmap_delete_split k v a b : NoDup (a ++ (k, v) :: b).*1 -> jsmap_delete k (a ++ (k, v) :: b) = a ++ b.
Proof.
  rewrite fmap_app. csimpl. intros (Ha & Hd & Hb)%NoDup_app. apply NoDup_cons in Hb as [Hkb Hb].
  unfold jsmap_delete. rewrite filter_app, filter_cons_False by (cbn; tauto).
  f_equal; apply jsmap_delete_absent; [|done]. intros H. apply (Hd k H). set_solver.
Qed.

Lemma jsmap_get_delete k k' m : jsmap_get k (jsmap_delete k' m) = if decide (k = k') then None else jsmap_get k m.
Proof.
  induction m as [|[k1 v1] m IH]; [by case_decide|]. unfold jsmap_delete in *. destruct (decide (k1 = k')) as [->|Hne].
  - rewrite filter_cons_False by (cbn; tauto). rewrite IH. cbn [jsmap_get]. by repeat case_decide.
  - rewrite filter_cons_True by done. cbn [jsmap_get]. rewrite IH. repeat case_decide; congruence.
Qed.

Lemma jsmap_get_None k m : jsmap_get k m = None <-> k ∉ m.*1.
Proof.
  induction m as [|[k1 v1] m IH]; csimpl; [split; [intros _; apply not_elem_of_nil|done]|].
  rewrite not_elem_of_cons, <- IH. case_decide; naive_solver.
Qed.
Lemma jsmap_set_Forall (P : K * V -> Prop) k v m : Forall P m -> P (k, v) -> Forall P (jsmap_set k v m).
Proof.
  intros Hm Hk. induction Hm as [|[k1 v1] m H1 Hm IH]; cbn [jsmap_set]; [by constructor|]. case_decide; by constructor.
Qed.

Lemma jsmap_set_fresh k v m : k ∉ m.*1 -> jsmap_set k v m = m ++ [(k, v)].
Proof.
  induction m as [|[k1 v1] m IH]; csimpl; intros H; [done|]. rewrite decide_False by set_solver. f_equal. apply IH. set_solver.
Qed.

(** [new Map(entries)] on distinct keys keeps the entries. *)
Lemma jsmap_of_entries m acc : NoDup (acc ++ m).*1 -> fold_left (fun m e => jsmap_set e.1 e.2 m) m acc = acc ++ m.
Proof.
  revert acc. induction m as [|[k v] m IH]; intros acc H; cbn [fold_left fst snd]; [by rewrite app_nil_r|].
  rewrite jsmap_set_fresh; [rewrite IH; [by rewrite <- app_assoc|by rewrite <- app_assoc]|].
  rewrite fmap_app in H. csimpl in H. apply NoDup_app in H as (_ & Hd & _). intros Hin. apply (Hd k Hin). by left.
Qed.
End JsMap.

Lemma jsmap_get_map {K V W} `{EqDecision K} (f : V -> W) (k : K) (m : list (K * V)) : jsmap_get k (map (fun e => (e.1, f e.2)) m) = f <$> jsmap_get k m.
Proof. induction m as [|[k' v] m IH]; [done|]. cbn [map fst snd jsmap_get]. by case_decide. Qed.

(** [set.add(x)] *)
Definition jsset_add {A} `{EqDecision A} (x : A) (s : list A) : list A :=
  if decide (x ∈ s) then s else s ++ [x].

Lemma elem_of_jsset_add {A} `{EqDecision A} (x y : A) s : y ∈ jsset_add x s <-> y = x \/ y ∈ s.
Proof. unfold jsset_add. case_decide; set_solver. Qed.

Lemma jsset_add_NoDup {A} `{EqDecision A} (x : A) s : NoDup s -> NoDup (jsset_add x s).
Proof.
  intros H. unfold jsset_add. case_decide; [done|].
  apply NoDup_app; split; [done|]. split; [set_solver|]. apply NoDup_singleton.
Qed.

Lemma jsset_of_elems {A} `{EqDecision A} (l acc : list A) : NoDup (acc ++ l) -> fold_left (fun s x => jsset_add x s) l acc = acc ++ l.
Proof.
  revert acc. induction l as [|x l IH]; intros acc H; cbn [fold_left]; [by rewrite app_nil_r|].
  unfold jsset_add at 2. rewrite decide_False; [rewrite IH; [by rewrite <- app_assoc|by rewrite <- app_assoc]|].
  apply NoDup_app in H as (_ & Hd & _). intros Hin. apply (Hd x Hin). by left.
Qed.

(** ** Hexadecimal strings. *)
Definition hex_digit (v : Z) : ascii :=
  match v with
  | 0 => "0" | 1 => "1" | 2 => "2" | 3 => "3" | 4 => "4" | 5 => "5" | 6 => "6" | 7 => "7"
  | 8 => "8" | 9 => "9" | 10 => "a" | 11 => "b" | 12 => "c" | 13 => "d" | 14 => "e" | _ => "f"
  end%char.

Definition hex_value (c : ascii) : option Z :=
  let n := Z.of_nat (Ascii.nat_of_ascii c) in
  if (48 <=? n) && (n <=? 57) then Some (n - 48)
  else if (97 <=? n) && (n <=? 102) then Some (n - 87)
  else if (65 <=? n) && (n <=? 70) then Some (n - 55)
  else None.

Definition is_js_space (c : ascii) : bool :=
  let n := Z.of_nat (Ascii.nat_of_ascii c) in
  ((9 <=? n) && (n <=? 13)) || (n =? 32) || (n =? 160).

(** [parseInt(s, 16)] for the two-character string [c1 c2]; [None] is [NaN]. *)
Definition parseInt16 (c1 c2 : ascii) : option Z :=
  if is_js_space c1 then hex_value c2
  else if Ascii.eqb c1 "-"%char then (fun d => - d) <$> hex_value c2
  else if Ascii.eqb c1 "+"%char then hex_value c2
  else if Ascii.eqb c1 "0"%char && (Ascii.eqb c2 "x"%char || Ascii.eqb c2 "X"%char) then None
  else match hex_value c1 with
       | None => None
       | Some d1 => match hex_value c2 with Some d2 => Some (16 * d1 + d2) | None => Some d1 end
       end.

(** [b.toString(16).padStart(2, '0')] for a byte. *)
Definition byte_hex (b : Z) : list ascii := [hex_digit (b / 16); hex_digit (b mod 16)].

Definition bytesToBareHex (bs : bytes) : string := String.string_of_list_ascii (bs ≫= byte_hex).
Definition bytesToHex (bs : bytes) : string := String.append "0x" (bytesToBareHex bs).

(** [s.startsWith('0x') ? s.slice(2) : s] *)
Definition strip_0x (s : string) : string :=
  match s with
  | String "0" (String "x" s') => s'
  | _ => s
  end.

(** The characters of [s] two at a time; [None] for an odd length. *)
Fixpoint hex_pairs (l : list ascii) : option (list (ascii * ascii)) :=
  match l with
  | [] => Some []
  | [_] => None
  | a :: b :: l' => cons (a, b) <$> hex_pairs l'
  end.

Definition hexToBytes (hex : string) : outcome bytes :=
  match hex_pairs (String.list_ascii_of_string (strip_0x hex)) with
  | None => Throws (RangeError "hexToBytes: odd-length hex string")
  | Some ps => Returns (map (fun '(a, b) => default 0 (parseInt16 a b) mod 256) ps)
  end.

Lemma parseInt16_byte_hex b : byte_ok b ->
  parseInt16 (hex_digit (b / 16)) (hex_digit (b mod 16)) = Some b.
Proof.
  intros Hb. assert (H : forallb (fun b => bool_decide
    (parseInt16 (hex_digit (b / 16)) (hex_digit (b mod 16)) = Some b)) (seqZ 0 256) = true)
    by (vm_compute; reflexivity).
  rewrite forallb_forall in H. specialize (H b). rewrite bool_decide_eq_true in H. apply H.
  apply list_elem_of_In, elem_of_seqZ. unfold byte_ok in Hb. lia.
Qed.

Lemma hexToBytes_bytesToHex bs : bytes_ok bs -> hexToBytes (bytesToHex bs) = Returns bs.
Proof.
  intros Hok. unfold hexToBytes, bytesToHex, bytesToBareHex.
  change (strip_0x (String.append "0x" ?s)) with s.
  rewrite String.list_ascii_of_string_of_list_ascii.
  assert (E : hex_pairs (bs ≫= byte_hex) = Some (map (fun b => (hex_digit (b / 16), hex_digit (b mod 16))) bs)).
  { clear Hok. induction bs as [|b bs IH]; [done|].
    rewrite bind_cons. cbn [byte_hex app hex_pairs map]. by rewrite IH. }
  rewrite E. f_equal. rewrite map_map. clear E. induction Hok as [|b bs Hb Hok IH]; [done|].
  cbn [map]. rewrite parseInt16_byte_hex, IH by done. cbn [from_option id]. unfold byte_ok in Hb.
  by rewrite Z.mod_small by lia.
Qed.

(** [s.toLowerCase()] on ASCII strings. *)
Definition lower_ascii (c : ascii) : ascii :=
  let n := Ascii.nat_of_ascii c in
  if (65 <=? n)%nat && (n <=? 90)%nat then Ascii.ascii_of_nat (n + 32) else c.

Fixpoint toLowerCase (s : string) : string :=
  match s with
  | EmptyString => EmptyString
  | String c s' => String (lower_ascii c) (toLowerCase s')
  end.

(** [s.includes(t)] *)
Fixpoint includes (t s : string) : bool :=
  String.prefix t s || match s with String _ s' => includes t s' | EmptyString => false end.

(** [arr.join(sep)] *)
Fixpoint join_with (sep : string) (l : list string) : string :=
  match l with
  | [] => EmptyString
  | [x] => x
  | x :: l' => (x +:+ sep +:+ join_with sep l')%string
  end.

Lemma lower_ascii_idem c : lower_ascii (lower_ascii c) = lower_ascii c.
Proof. destruct c as [[] [] [] [] [] [] [] []]; reflexivity. Qed.

Lemma toLowerCase_idem s : toLowerCase (toLowerCase s) = toLowerCase s.
Proof. induction s as [|c s IH]; simpl; [done|]. by rewrite lower_ascii_idem, IH. Qed.

Lemma lower_hex_digit v : lower_ascii (hex_digit v) = hex_digit v.
Proof.
  unfold hex_digit. destruct v as [|p|p]; [reflexivity| |reflexivity].
  do 4 (try (destruct p; try reflexivity)).
Qed.

Lemma toLowerCase_append s t : toLowerCase (s +:+ t)%string = (toLowerCase s +:+ toLowerCase t)%string.
Proof. induction s as [|c s IH]; [done|]. exact (f_equal (String (lower_ascii c)) IH). Qed.

Lemma toLowerCase_hex bs : toLowerCase (bytesToHex bs) = bytesToHex bs.
Proof.
  unfold bytesToHex. rewrite toLowerCase_append. f_equal. unfold bytesToBareHex. induction bs as [|b bs IH]; [done|].
  rewrite bind_cons. unfold byte_hex at 1 3. cbn [app String.string_of_list_ascii toLowerCase]. by rewrite !lower_hex_digit, IH.
Qed.

(** ** Automation shared by the files: the side conditions about lengths and
    byte ranges that every codec and hash argument raises. *)
Create HintDb coretex.
#[export] Hint Resolve be_bytes_ok toLowerCase_idem lower_ascii_idem jsset_add_NoDup jsmap_set_NoDup : coretex.
#[export] Hint Rewrite length_be_bytes be_value_be_bytes @elem_of_jsset_add toLowerCase_idem : coretex.
