(* ===== verification/StateTypes.v ===== *)
(** * Core types of the CoreTex state (packages/coretex/src/state/types.ts)

    A state is an array of uint256 words held as bigints; here a list of [Z].
    The word layout (the [RANGES] constants), the patch-type codes with the
    table of the word range each one may write, the decoded [Patch] and the
    stable rejection codes E01..E05 are the source's. Fields declared
    [number] that only ever hold integers (counts and word indices) are [Z]. *)
From S2P Require Import Prelude.

Record CortexState := mkState { words : list Z }.

(** Stable patch error codes. *)
Inductive PatchErrorCode := E01 | E02 | E03 | E04 | E05.

#[export] Instance PatchErrorCode_eq_dec : EqDecision PatchErrorCode.
Proof. solve_decision. Defined.

Definition ERROR_NAMES (c : PatchErrorCode) : string :=
  match c with
  | E01 => "WRONG_PARENT_ROOT"
  | E02 => "WRONG_TYPE_FIELD"
  | E03 => "OVER_BUDGET"
  | E04 => "RESERVED_BIT_SET"
  | E05 => "NOOP_PATCH"
  end%string.

(** Families of r5 policy atoms; they name the three policy regions in messages. *)
Inductive PolicyAtomFamily := evidence_bundle | conflict_lifecycle | abstention.

#[export] Instance PolicyAtomFamily_eq_dec : EqDecision PolicyAtomFamily.
Proof. solve_decision. Defined.

(** The message carried by a rejection, kept structured: the plain
    ["E0x: NAME"] form, and the two forms built by [validatePolicyRegions]. *)
Inductive PatchMessage :=
  | MsgCode (name : string)
  | MsgInvalidAtoms (failures : Z) (fam : PolicyAtomFamily)
  | MsgReservedPolicyWords (n : Z)
  | MsgReservedBits.

Record PatchError := mkPatchError { code : PatchErrorCode; message : PatchMessage }.

Inductive PatchResult :=
  | PatchSuccess (state : CortexState)
  | PatchFailure (err : PatchError).

Module PATCH_TYPE.
Definition KEY_UPDATE : Z := 0x01.
Definition SLOT_REPLACE : Z := 0x02.
Definition TEMPORAL_UPDATE : Z := 0x03.
Definition RELATION_UPDATE : Z := 0x04.
Definition CODEBOOK_UPDATE : Z := 0x05.
Definition HEADER_UPDATE : Z := 0x06.
Definition POLICY_UPDATE : Z := 0x07.
Definition MIXED : Z := 0xFF.
(** [Object.entries(PATCH_TYPE)], in declaration order. *)
Definition entries : list (string * Z) :=
  [("KEY_UPDATE"%string, KEY_UPDATE); ("SLOT_REPLACE"%string, SLOT_REPLACE);
   ("TEMPORAL_UPDATE"%string, TEMPORAL_UPDATE); ("RELATION_UPDATE"%string, RELATION_UPDATE);
   ("CODEBOOK_UPDATE"%string, CODEBOOK_UPDATE); ("HEADER_UPDATE"%string, HEADER_UPDATE);
   ("POLICY_UPDATE"%string, POLICY_UPDATE); ("MIXED"%string, MIXED)].
End PATCH_TYPE.

(** A decoded patch. *)
Record Patch := mkPatch {
  patchType : Z;
  wordCount : Z;
  scoreDelta : Z;
  parentStateRoot : bytes;
  indices : list Z;
  newWords : list Z
}.

Module RANGES.
Definition HEADER_START : Z := 0.
Definition HEADER_END : Z := 31.
Definition MEMORY_INDEX_START : Z := 32.
Definition MEMORY_INDEX_END : Z := 383.
Definition RETRIEVAL_KEYS_START : Z := 384.
Definition RETRIEVAL_KEYS_END : Z := 671.
Definition RELATIONS_START : Z := 672.
Definition RELATIONS_END : Z := 799.
Definition TEMPORAL_START : Z := 800.
Definition TEMPORAL_END : Z := 895.
Definition CODEBOOK_START : Z := 896.
Definition CODEBOOK_END : Z := 991.
Definition RESERVED_START : Z := 992.
Definition RESERVED_END : Z := 1023.
Definition WORD_COUNT : Z := 1024.
Definition POLICY_EVIDENCE_START : Z := 384.
Definition POLICY_EVIDENCE_END : Z := 511.
Definition POLICY_CONFLICT_START : Z := 512.
Definition POLICY_CONFLICT_END : Z := 639.
Definition POLICY_ABSTENTION_START : Z := 640.
Definition POLICY_ABSTENTION_END : Z := 671.
Definition POLICY_RESERVED_START : Z := 896.
Definition POLICY_RESERVED_END : Z := 991.
End RANGES.

(** One row of [PATCH_TYPE_RANGE_TABLE]. *)
Record PatchTypeRow := mkRow { row_name : string; typeByte : Z; row_start : Z; row_end : Z }.

Definition PATCH_TYPE_RANGE_TABLE : list PatchTypeRow :=
  [ mkRow "KEY_UPDATE" PATCH_TYPE.KEY_UPDATE RANGES.RETRIEVAL_KEYS_START RANGES.RETRIEVAL_KEYS_END;
    mkRow "SLOT_REPLACE" PATCH_TYPE.SLOT_REPLACE RANGES.MEMORY_INDEX_START RANGES.MEMORY_INDEX_END;
    mkRow "TEMPORAL_UPDATE" PATCH_TYPE.TEMPORAL_UPDATE RANGES.TEMPORAL_START RANGES.TEMPORAL_END;
    mkRow "RELATION_UPDATE" PATCH_TYPE.RELATION_UPDATE RANGES.RELATIONS_START RANGES.RELATIONS_END;
    mkRow "CODEBOOK_UPDATE" PATCH_TYPE.CODEBOOK_UPDATE RANGES.CODEBOOK_START RANGES.CODEBOOK_END;
    mkRow "HEADER_UPDATE" PATCH_TYPE.HEADER_UPDATE RANGES.HEADER_START RANGES.HEADER_END;
    mkRow "POLICY_UPDATE" PATCH_TYPE.POLICY_UPDATE RANGES.POLICY_EVIDENCE_START RANGES.POLICY_ABSTENTION_END ].

(** [RANGES.WORD_COUNT] as an array length. *)
Definition WORD_COUNT_NAT : nat := Z.to_nat RANGES.WORD_COUNT.

Lemma WORD_COUNT_NAT_Z : Z.of_nat WORD_COUNT_NAT = 1024.
Proof. unfold WORD_COUNT_NAT. by rewrite Z2Nat.id. Qed.

(** A well-formed state: 1024 words, each an unsigned 256-bit integer. *)
Definition uint256 (w : Z) : Prop := 0 <= w < 2 ^ 256.
Definition state_ok (s : CortexState) : Prop :=
  length (words s) = WORD_COUNT_NAT /\ Forall uint256 (words s).

#[export] Instance uint256_dec w : Decision (uint256 w).
Proof. unfold uint256. apply _. Defined.
#[export] Instance state_ok_dec s : Decision (state_ok s).
Proof. unfold state_ok. apply _. Defined.

(** [state.words[i] ?? 0n] *)
Definition word_at (s : CortexState) (i : Z) : Z := get0 (words s) i.

(** The all-zero state. *)
Definition zero_state : CortexState := mkState (replicate WORD_COUNT_NAT 0).

Lemma zero_state_ok : state_ok zero_state.
Proof. split; [apply length_replicate|]. apply Forall_replicate. unfold uint256; lia. Qed.
