(* ===== verification/Float.v ===== *)
(** * JavaScript numbers as IEEE 754 doubles

    A [number] that is not known to be an integer is a [spec_float] of the
    Standard Library's executable IEEE specification, at 53 bits of
    precision; [Float32Array] elements and [DataView.getFloat32] values are
    the 24-bit format. Everything computes, rounding included. *)
From Stdlib Require Export SpecFloat.
From S2P Require Import Prelude.

Definition prec : Z := 53.
Definition emax : Z := 1024.

Abbreviation number := spec_float.

Definition dadd (x y : number) : number := SFadd prec emax x y.
Definition dsub (x y : number) : number := SFsub prec emax x y.
Definition dmul (x y : number) : number := SFmul prec emax x y.
Definition ddiv (x y : number) : number := SFdiv prec emax x y.
Definition dsqrt (x : number) : number := SFsqrt prec emax x.

(** Comparisons are false when an operand is NaN. *)
Definition dlt (x y : number) : bool := SFltb x y.
Definition dle (x y : number) : bool := SFleb x y.
Definition deq (x y : number) : bool := SFeqb x y.

(** The double nearest to [m * 2^e]. *)
Definition of_dyadic (m e : Z) : number := binary_normalize prec emax m e false.
(** The double nearest to an integer: [Number(n)]. *)
Definition of_Z (n : Z) : number := of_dyadic n 0.
(** The double nearest to [n / d], as a decimal literal denotes it. *)
Definition of_frac (n d : Z) : number := ddiv (of_Z n) (of_Z d).

Definition is_finite (x : number) : bool :=
  match x with S754_finite _ _ _ | S754_zero _ => true | _ => false end.
Definition is_NaN (x : number) : bool :=
  match x with S754_nan => true | _ => false end.

(** [floor (m * 2^e)] *)
Definition floor_dyadic (m e : Z) : Z := if 0 <=? e then m * 2 ^ e else m / 2 ^ (- e).

(** [Math.floor] and [Math.round] (halves round up) as integers; [None] when
    the number is not finite. *)
Definition math_floor (x : number) : option Z :=
  match x with
  | S754_zero _ => Some 0
  | S754_finite s m e => Some (floor_dyadic (cond_Zopp s (Zpos m)) e)
  | _ => None
  end.
Definition math_round (x : number) : option Z :=
  match x with
  | S754_zero _ => Some 0
  | S754_finite s m e => Some (floor_dyadic (2 * cond_Zopp s (Zpos m) + (if 0 <=? e then 0 else 2 ^ (- e))) (e - 1))
  | _ => None
  end.

(** [Number.isInteger(x)] *)
Definition is_integer (x : number) : bool :=
  match math_floor x with Some v => deq (of_Z v) x | None => false end.

(** [BigInt(Math.round(x))] throws a RangeError on a non-finite number. *)
Definition bigint_round (x : number) : outcome Z :=
  match math_round x with Some v => Returns v | None => Throws (RangeError "not an integer") end.

(** [Math.max(x, y)] and [Math.min(x, y)] on numbers that are not both zero. *)
Definition math_max (x y : number) : number :=
  if is_NaN x || is_NaN y then S754_nan else if dlt x y then y else x.
Definition math_min (x y : number) : number :=
  if is_NaN x || is_NaN y then S754_nan else if dlt y x then y else x.

(** The value of the single-precision bit pattern [b], as a double. *)
Definition float32_of_bits (b : Z) : number :=
  let s := Z.testbit b 31 in
  let ex := Z.land (Z.shiftr b 23) 0xff in
  let ma := Z.land b 0x7fffff in
  if ex =? 255 then (if ma =? 0 then S754_infinity s else S754_nan)
  else if (ex =? 0) && (ma =? 0) then S754_zero s
  else if ex =? 0 then binary_normalize prec emax (cond_Zopp s ma) (-149) s
  else binary_normalize prec emax (cond_Zopp s (ma + 2 ^ 23)) (ex - 150) s.

(** Rounding a double to single precision, as a [Float32Array] store does. *)
Definition round_float32 (x : number) : number :=
  match x with
  | S754_finite s m e =>
    match binary_normalize 24 128 (cond_Zopp s (Zpos m)) e s with
    | S754_finite s' m' e' => binary_normalize prec emax (cond_Zopp s' (Zpos m')) e' s'
    | y => y
    end
  | _ => x
  end.

(** The single-precision bit pattern a [setFloat32] writes. *)
Definition bits_of_float32 (x : number) : Z :=
  let sign s := if s : bool then 2 ^ 31 else 0 in
  match x with
  | S754_zero s => sign s
  | S754_infinity s => sign s + 255 * 2 ^ 23
  | S754_nan => 0x7fc00000
  | S754_finite s m e =>
    match binary_normalize 24 128 (cond_Zopp s (Zpos m)) e s with
    | S754_finite s' m' e' =>
      if Zpos m' <? 2 ^ 23 then sign s' + Zpos m'
      else sign s' + (e' + 150) * 2 ^ 23 + (Zpos m' - 2 ^ 23)
    | S754_infinity s' => sign s' + 255 * 2 ^ 23
    | S754_zero s' => sign s'
    | S754_nan => 0x7fc00000
    end
  end.

(** The sign of [x - y] as a comparator returns it: -1, 0 or 1; NaN counts as 0. *)
Definition sub_sign (x y : number) : Z := if dlt x y then -1 else if dlt y x then 1 else 0.
Definition number_sign (x : number) : Z := if dlt x (S754_zero false) then -1 else if dlt (S754_zero false) x then 1 else 0.

(** The order of numbers is the lexicographic order of three integers. *)
Definition order_key (x : number) : Z * Z * Z :=
  match x with
  | S754_infinity s => (cond_Zopp s 2, 0, 0)
  | S754_finite s m e => (cond_Zopp s 1, cond_Zopp s e, cond_Zopp s (Zpos m))
  | _ => (0, 0, 0)
  end.
Definition key_lt (a b : Z * Z * Z) : Prop :=
  a.1.1 < b.1.1 \/ a.1.1 = b.1.1 /\ (a.1.2 < b.1.2 \/ a.1.2 = b.1.2 /\ a.2 < b.2).

(** ** Facts *)
Lemma nan_dlt x : dlt x S754_nan = false /\ dlt S754_nan x = false.
Proof. by destruct x. Qed.

Lemma nan_dadd x : dadd x S754_nan = S754_nan /\ dadd S754_nan x = S754_nan.
Proof. by destruct x. Qed.

Example one_half : of_frac 1 2 = of_dyadic 1 (-1).
Proof. reflexivity. Qed.
Example round_half : math_round (of_frac 5 2) = Some 3 /\ math_round (of_frac (-5) 2) = Some (-2)
  /\ math_round (of_frac 12345 10) = Some 1235 /\ math_floor (of_frac (-7) 2) = Some (-4).
Proof. repeat split; reflexivity. Qed.
Example float32_one : float32_of_bits 0x3f800000 = of_Z 1 /\ bits_of_float32 (of_Z 1) = 0x3f800000
  /\ bits_of_float32 (of_frac 1 10) = 0x3dcccccd.
Proof. repeat split; reflexivity. Qed.

(** ** The order of numbers *)
Lemma dlt_key x y : is_NaN x = false -> is_NaN y = false -> dlt x y = true <-> key_lt (order_key x) (order_key y).
Proof.
  intros Hx Hy. unfold dlt, SFltb, key_lt.
  destruct x as [sx|sx| |sx mx ex], y as [sy|sy| |sy my ey]; try done; destruct sx, sy; cbn; try (split; [done|lia]); try (split; [lia|done]);
    destruct (Z.compare_spec ex ey); try (split; [done|lia]); try (split; [lia|done]); change (Pos.compare_cont Eq mx my) with (Pos.compare mx my);
    destruct (Pos.compare_spec mx my); cbn; (split; [first [done|lia]|first [done|lia]]).
Qed.

Lemma deq_key x y : is_NaN x = false -> is_NaN y = false -> deq x y = true <-> order_key x = order_key y.
Proof.
  intros Hx Hy. unfold deq, SFeqb.
  destruct x as [sx|sx| |sx mx ex], y as [sy|sy| |sy my ey]; try done; destruct sx, sy; cbn; try done;
    destruct (Z.compare_spec ex ey); try (split; [done|intros [=]; lia]); change (Pos.compare_cont Eq mx my) with (Pos.compare mx my);
    destruct (Pos.compare_spec mx my); cbn; subst; try (split; [done|intros [=]; lia]); done.
Qed.

Lemma deq_sym x y : deq x y = deq y x.
Proof.
  unfold deq, SFeqb. destruct x as [[]|[]| |[] mx ex], y as [[]|[]| |[] my ey]; try done; cbn; rewrite (Z.compare_antisym ex ey);
    destruct (Z.compare ex ey); cbn; try done; change (Pos.compare_cont Eq ?a ?b) with (Pos.compare a b); rewrite (Pos.compare_antisym mx my); by destruct (Pos.compare mx my).
Qed.

(** ** The difference of two doubles has the sign of their comparison *)
Lemma digits2_bound m : 2 ^ (Zpos (digits2_pos m) - 1) <= Zpos m < 2 ^ Zpos (digits2_pos m).
Proof.
  induction m as [m IH|m IH|]; cbn [digits2_pos]; [| |done]; rewrite Pos2Z.inj_succ; replace (Z.succ (Zpos (digits2_pos m)) - 1) with (Z.succ (Zpos (digits2_pos m) - 1)) by lia;
    rewrite !Z.pow_succ_r by lia; lia.
Qed.

Lemma iter_xO m p : Zpos (Pos.iter xO m p) = Zpos m * 2 ^ Zpos p.
Proof.
  induction p as [|p IH] using Pos.peano_ind; [cbn; lia|]. rewrite Pos.iter_succ, Pos2Z.inj_succ, Z.pow_succ_r by lia.
  change (Z.pos (Pos.iter xO m p)~0) with (2 * Zpos (Pos.iter xO m p)). rewrite IH. lia.
Qed.

Lemma shl_align_spec m e ez : ez <= e -> Zpos (shl_align m e ez).1 = Zpos m * 2 ^ (e - ez) /\ (shl_align m e ez).2 = ez.
Proof.
  intros H. unfold shl_align. destruct (ez - e) as [|p|p] eqn:E; cbn [fst snd]; [|lia|].
  - replace (e - ez) with 0 by lia. lia.
  - rewrite iter_xO. replace (e - ez) with (Zpos p) by lia. done.
Qed.

Lemma shr_1_half mrs : 0 <= shr_m mrs -> shr_m (shr_1 mrs) = shr_m mrs / 2.
Proof.
  destruct mrs as [[|[p|p|]|p] r s]; cbn; intros H; try done.
  - change (Z.pos p~1) with (2 * Zpos p + 1). rewrite Z.add_comm, Z.mul_comm, Z.div_add by lia. done.
  - change (Z.pos p~0) with (2 * Zpos p). by rewrite Z.mul_comm, Z.div_mul.
Qed.

Lemma shr_iter p mrs : 0 <= shr_m mrs -> shr_m (SpecFloat.iter_pos shr_1 p mrs) = shr_m mrs / 2 ^ Zpos p.
Proof.
  revert mrs. induction p as [p IH|p IH|]; intros mrs H; cbn [SpecFloat.iter_pos].
  - assert (H1 : 0 <= shr_m (shr_1 mrs)) by (rewrite shr_1_half by done; apply Z.div_pos; lia).
    assert (H2 : 0 <= shr_m (SpecFloat.iter_pos shr_1 p (shr_1 mrs))) by (rewrite IH by done; apply Z.div_pos; lia).
    rewrite IH, IH, shr_1_half by done. rewrite !Z.div_div by lia. f_equal. rewrite <- Z.pow_add_r, <- (Z.pow_add_r 2 1) by lia. f_equal. lia.
  - assert (H2 : 0 <= shr_m (SpecFloat.iter_pos shr_1 p mrs)) by (rewrite IH by done; apply Z.div_pos; lia).
    rewrite IH, IH by done. rewrite Z.div_div by lia. f_equal. rewrite <- Z.pow_add_r by lia. f_equal. lia.
  - by apply shr_1_half.
Qed.

(** Rounding keeps a mantissa that stands at a representable exponent positive. *)
Lemma shr_fexp_pos m e l : -1074 <= e -> 0 < shr_m (shr_fexp prec emax (Zpos m) e l).1 /\ -1074 <= (shr_fexp prec emax (Zpos m) e l).2.
Proof.
  intros He. pose proof (digits2_bound m) as [Hm _]. assert (Hr : shr_m (shr_record_of_loc (Zpos m) l) = Zpos m) by (by destruct l as [|[]]).
  unfold shr_fexp, shr. destruct (_ - e) as [|p|p] eqn:E; cbn [fst snd]; [rewrite Hr; lia| |rewrite Hr; lia].
  rewrite shr_iter by (rewrite Hr; lia). rewrite Hr. split; [|lia]. apply Z.div_str_pos. split; [lia|].
  unfold fexp, emin, prec, emax, Zdigits2 in E. etransitivity; [|exact Hm]. apply Z.pow_le_mono_r; lia.
Qed.

Lemma number_sign_round s m e : -1074 <= e -> number_sign (binary_round prec emax s m e) = cond_Zopp s 1.
Proof.
  intros He. unfold binary_round. destruct (shl_align m e _) as [mz ez] eqn:E.
  assert (Hez : -1074 <= ez).
  { unfold shl_align in E. destruct (_ - e); injection E as <- <-; [done..|]. unfold fexp, emin, prec, emax. lia. }
  unfold binary_round_aux. destruct (shr_fexp_pos mz ez loc_Exact Hez) as [H1 H2]. destruct (shr_fexp prec emax (Zpos mz) ez loc_Exact) as [mrs e1]. cbn [fst snd] in *.
  set (mx := round_nearest_even _ _). assert (Hmx : 0 < mx) by (unfold mx, round_nearest_even; destruct (loc_of_shr_record mrs) as [|[]]; try destruct (Z.even _); lia).
  destruct mx as [|px|px]; [lia| |lia]. destruct (shr_fexp_pos px e1 loc_Exact H2) as [H3 _]. destruct (shr_fexp prec emax (Zpos px) e1 loc_Exact) as [mrs2 e2]. cbn [fst snd] in *.
  destruct (shr_m mrs2); [lia| |lia]. by destruct (_ <=? _), s.
Qed.

Lemma number_sign_normalize m e : -1074 <= e -> number_sign (binary_normalize prec emax m e false) = Z.sgn m.
Proof. intros He. destruct m; cbn [binary_normalize]; [done|by rewrite number_sign_round..]. Qed.

Lemma bounded_spec m e : bounded prec emax m e = true -> -1074 <= e /\ Zpos m < 2 ^ 53 /\ (-1074 < e -> 2 ^ 52 <= Zpos m).
Proof.
  unfold bounded, canonical_mantissa. intros [H _]%andb_true_iff. apply Z.eqb_eq in H. unfold fexp, emin, prec, emax in H. pose proof (digits2_bound m) as [H1 H2].
  split; [lia|]. split; [eapply Z.lt_le_trans; [exact H2|]; apply Z.pow_le_mono_r; lia|]. intros He. etransitivity; [|exact H1]. apply Z.pow_le_mono_r; lia.
Qed.

(** The lexicographic order of two doubles is the order of their values. *)
Lemma bounded_lt m1 e1 m2 e2 ez : bounded prec emax m1 e1 = true -> bounded prec emax m2 e2 = true -> ez <= e1 -> ez <= e2 ->
  e1 < e2 \/ e1 = e2 /\ Zpos m1 < Zpos m2 -> Zpos m1 * 2 ^ (e1 - ez) < Zpos m2 * 2 ^ (e2 - ez).
Proof.
  intros (A1 & A2 & _)%bounded_spec (B1 & B2 & B3)%bounded_spec H1 H2 [H|[-> H]]; [|nia].
  assert (Hp : 2 ^ (e2 - ez) = 2 ^ (e2 - e1) * 2 ^ (e1 - ez)) by (rewrite <- Z.pow_add_r by lia; f_equal; lia).
  assert (H2p : 2 ^ 1 <= 2 ^ (e2 - e1)) by (apply Z.pow_le_mono_r; lia). specialize (B3 ltac:(lia)). rewrite Hp. assert (0 < 2 ^ (e1 - ez)) by lia. nia.
Qed.

Lemma bounded_sgn m1 e1 m2 e2 : bounded prec emax m1 e1 = true -> bounded prec emax m2 e2 = true ->
  Z.sgn (Zpos m1 * 2 ^ (e1 - Z.min e1 e2) - Zpos m2 * 2 ^ (e2 - Z.min e1 e2)) =
  match Z.compare e1 e2 with Lt => -1 | Gt => 1 | Eq => match Pos.compare m1 m2 with Lt => -1 | Gt => 1 | Eq => 0 end end.
Proof.
  intros H1 H2. pose proof (bounded_lt m1 e1 m2 e2 (Z.min e1 e2) H1 H2) as L1. pose proof (bounded_lt m2 e2 m1 e1 (Z.min e1 e2) H2 H1) as L2.
  destruct (Z.compare_spec e1 e2) as [->|H|H]; [|lia..]. destruct (Pos.compare_spec m1 m2) as [->|H|H]; [|lia..]. by rewrite Z.sub_diag.
Qed.

(** Between two doubles that are not equal, [x - y < 0] exactly when [x < y], and [0 < x - y] when [y < x]. *)
Lemma sub_sign_dsub x y : valid_binary prec emax x = true -> valid_binary prec emax y = true -> deq x y = false -> sub_sign x y = number_sign (dsub x y).
Proof.
  intros Hx Hy. destruct x as [sx|sx| |sx mx ex], y as [sy|sy| |sy my ey]; try (destruct sx); try (destruct sy); try done.
  all: cbn [valid_binary] in Hx, Hy; intros _; unfold dsub, SFsub; cbv zeta; pose proof (bounded_sgn _ _ _ _ Hx Hy) as S;
    apply bounded_spec in Hx as (X & _), Hy as (Y & _); rewrite number_sign_normalize by lia;
    destruct (shl_align_spec mx ex (Z.min ex ey) ltac:(lia)) as [-> _]; destruct (shl_align_spec my ey (Z.min ex ey) ltac:(lia)) as [-> _];
    cbn [cond_Zopp]; unfold sub_sign, dlt, SFltb; cbn [SFcompare]; change (Pos.compare_cont Eq ?a ?b) with (Pos.compare a b).
  2,3: assert (0 < 2 ^ (ex - Z.min ex ey)) by lia; assert (0 < 2 ^ (ey - Z.min ex ey)) by lia; nia.
  - replace (_ - _) with (- (Zpos mx * 2 ^ (ex - Z.min ex ey) - Zpos my * 2 ^ (ey - Z.min ex ey))) by lia. rewrite Z.sgn_opp, S, (Z.compare_antisym ex ey), (Pos.compare_antisym mx my).
    destruct (Z.compare ex ey); cbn; try done. by destruct (Pos.compare mx my).
  - rewrite S, (Z.compare_antisym ex ey), (Pos.compare_antisym mx my). destruct (Z.compare ex ey); cbn; try done. by destruct (Pos.compare mx my).
Qed.
