(* ===== verification/Codec.v ===== *)
(** * Pack / unpack (packages/coretex/src/state/codec.ts)

    [pack] writes 1024 words of 32 big-endian bytes into one buffer,
    [unpack] reads them back; [getField]/[setField] read and write bit
    fields. The loops are the source's, on an explicit buffer; they are
    related to the big-endian digit expansion [be_bytes]/[be_value], and
    packing round-trips in both directions. *)
From S2P Require Import Prelude StateTypes.

Definition PACKED_SIZE : Z := 32768.
Definition PACKED_SIZE_NAT : nat := Z.to_nat PACKED_SIZE.

Lemma PACKED_SIZE_words : PACKED_SIZE_NAT = (32 * WORD_COUNT_NAT)%nat.
Proof. unfold PACKED_SIZE_NAT, PACKED_SIZE, WORD_COUNT_NAT, RANGES.WORD_COUNT. lia. Qed.

(** The loop of [writeBigEndian32], from byte [n - 1] of the field down to byte 0. *)
Fixpoint write_be_loop (n : nat) (out : bytes) (offset : nat) (v : Z) : bytes :=
  match n with
  | O => out
  | S b => write_be_loop b (<[(offset + b)%nat := Z.land v 0xff]> out) offset (Z.shiftr v 8)
  end.

Definition writeBigEndian32 (out : bytes) (offset : nat) (value : Z) : bytes :=
  write_be_loop 32 out offset (asUintN 256 value).

Definition readBigEndian32 (bs : bytes) (offset : nat) : Z :=
  fold_left (fun result b =>
      Z.lor (Z.shiftl result 8) (default 0 (bs !! (offset + b)%nat)))
    (seq 0 32) 0.

Definition pack (state : CortexState) : outcome bytes :=
  _ ← throw_if (negb (Z.of_nat (length (words state)) =? RANGES.WORD_COUNT))
        (TypeError "pack: expected 1024 words");
  Returns (fold_left (fun out i =>
      writeBigEndian32 out (i * 32) (default 0 (words state !! i)))
    (seq 0 WORD_COUNT_NAT) (zeros PACKED_SIZE_NAT)).

Definition unpack (bs : bytes) : outcome CortexState :=
  _ ← throw_if (negb (Z.of_nat (length bs) =? PACKED_SIZE))
        (RangeError "unpack: expected 32768 bytes");
  Returns (mkState (map (fun i => readBigEndian32 bs (i * 32)) (seq 0 WORD_COUNT_NAT))).

(** Bit-field helpers; [bitsHi]/[bitsLo] are bit positions. *)
Definition getField (word : Z) (bitsHi bitsLo : Z) : Z :=
  let width := bitsHi - bitsLo + 1 in
  let mask := Z.shiftl 1 width - 1 in
  Z.land (Z.shiftr word bitsLo) mask.

Definition setField (word : Z) (bitsHi bitsLo value : Z) : Z :=
  let width := bitsHi - bitsLo + 1 in
  let mask := Z.shiftl 1 width - 1 in
  let shift := bitsLo in
  Z.lor (Z.land word (Z.lnot (Z.shiftl mask shift)))
        (Z.shiftl (Z.land value mask) shift).

(** ** The byte loops compute the digit expansion. *)
Lemma write_be_loop_spec n out offset v :
  (offset + n <= length out)%nat ->
  write_be_loop n out offset v = u8_set out offset (be_bytes n v).
Proof.
  revert out v; induction n as [|n IH]; intros out v Hlen; simpl.
  - unfold u8_set, be_bytes; simpl. by rewrite Nat.add_0_r, take_drop.
  - rewrite IH by (rewrite length_insert; lia). unfold u8_set.
    change (be_bytes (S n) v) with (be_bytes n (v / 256) ++ [v mod 256]).
    rewrite length_app, !length_be_bytes; simpl.
    rewrite land_ff, shiftr_8, take_insert_ge, <- app_assoc by lia. do 2 f_equal.
    rewrite drop_insert_ge, Nat.sub_diag by lia.
    destruct (drop (offset + n) out) as [|x tl] eqn:E.
    { apply (f_equal length) in E. rewrite length_drop in E; simpl in E; lia. }
    simpl. f_equal. replace (offset + (n + 1))%nat with ((offset + n) + 1)%nat by lia.
    by rewrite <- drop_drop, E.
Qed.

Lemma asUintN_be_bytes v : be_bytes 32 (asUintN 256 v) = be_bytes 32 v.
Proof.
  rewrite <- (be_bytes_be_value (be_bytes 32 v)) by apply be_bytes_ok.
  rewrite length_be_bytes, be_value_be_bytes. done.
Qed.

Lemma writeBigEndian32_spec out offset v :
  (offset + 32 <= length out)%nat ->
  writeBigEndian32 out offset v = u8_set out offset (be_bytes 32 v).
Proof. intros. unfold writeBigEndian32. by rewrite write_be_loop_spec, asUintN_be_bytes. Qed.

Lemma read_be_fold bs offset n acc :
  bytes_ok bs -> (offset + n <= length bs)%nat ->
  fold_left (fun result b => Z.lor (Z.shiftl result 8) (default 0 (bs !! (offset + b)%nat)))
    (seq 0 n) acc
  = fold_left (fun acc b => acc * 256 + b) (u8_slice bs offset n) acc.
Proof.
  intros Hok. induction n as [|n IH]; intros Hlen; [done|].
  rewrite seq_S, fold_left_app; simpl. rewrite IH by lia. unfold u8_slice.
  destruct (lookup_lt_is_Some_2 bs (offset + n)) as [x Hx]; [lia|].
  rewrite Hx; simpl.
  rewrite (take_S_r _ _ x) by (by rewrite lookup_drop).
  rewrite fold_left_app; simpl.
  apply lor_shiftl_add; [lia|]. by eapply (Forall_lookup_1 byte_ok).
Qed.

Lemma readBigEndian32_spec bs offset :
  bytes_ok bs -> (offset + 32 <= length bs)%nat ->
  readBigEndian32 bs offset = be_value (u8_slice bs offset 32).
Proof. intros. by apply read_be_fold. Qed.

(** The reference packing: the words' 32-byte expansions, concatenated. *)
Definition pack_spec (ws : list Z) : bytes := ws ≫= be_bytes 32.

Lemma pack_spec_cons w ws : pack_spec (w :: ws) = be_bytes 32 w ++ pack_spec ws.
Proof. done. Qed.

Lemma length_pack_spec ws : length (pack_spec ws) = (32 * length ws)%nat.
Proof.
  induction ws as [|w ws IH]; [done|].
  rewrite pack_spec_cons, length_app, length_be_bytes, IH. simpl. lia.
Qed.

Lemma pack_spec_app a b : pack_spec (a ++ b) = pack_spec a ++ pack_spec b.
Proof. unfold pack_spec. by rewrite bind_app. Qed.

Lemma pack_spec_ok ws : bytes_ok (pack_spec ws).
Proof.
  induction ws as [|w ws IH]; [constructor|].
  rewrite pack_spec_cons. apply Forall_app; split; [apply be_bytes_ok | exact IH].
Qed.

Lemma pack_loop ws (k : nat) :
  (k <= length ws)%nat ->
  fold_left (fun out i => writeBigEndian32 out (i * 32) (default 0 (ws !! i)))
    (seq 0 k) (zeros (32 * length ws))
  = pack_spec (take k ws) ++ zeros (32 * (length ws - k)).
Proof.
  induction k as [|k IH]; intros Hk.
  - simpl. by rewrite Nat.sub_0_r.
  - rewrite seq_S, fold_left_app, IH by lia; simpl.
    destruct (lookup_lt_is_Some_2 ws k) as [w Hw]; [lia|]. rewrite Hw; simpl.
    assert (Hl : length (pack_spec (take k ws)) = (k * 32)%nat)
      by (rewrite length_pack_spec, length_take; lia).
    rewrite writeBigEndian32_spec
      by (rewrite length_app, Hl; unfold zeros; rewrite length_replicate; lia).
    unfold u8_set. rewrite length_be_bytes.
    rewrite take_app_le, take_ge by lia. rewrite drop_app_ge by lia.
    rewrite Hl, (take_S_r _ _ w), pack_spec_app by done.
    rewrite <- app_assoc. f_equal. change (pack_spec [w]) with (be_bytes 32 w ++ []).
    rewrite app_nil_r. f_equal. unfold zeros. rewrite drop_replicate. f_equal. lia.
Qed.

Lemma pack_returns s :
  length (words s) = WORD_COUNT_NAT -> pack s = Returns (pack_spec (words s)).
Proof.
  intros Hl. unfold pack.
  pose proof PACKED_SIZE_words as E. rewrite <- Hl in E.
  assert (G : negb (Z.of_nat (length (words s)) =? RANGES.WORD_COUNT) = false)
    by (by rewrite Hl, WORD_COUNT_NAT_Z).
  rewrite E, G, <- Hl, pack_loop by lia. cbn [throw_if mbind outcome_bind].
  rewrite Nat.sub_diag, Nat.mul_0_r, take_ge by lia. unfold zeros, replicate. by rewrite app_nil_r.
Qed.

Lemma pack_spec_slice ws i w :
  ws !! i = Some w -> u8_slice (pack_spec ws) (i * 32) 32 = be_bytes 32 w.
Proof.
  intros Hi. unfold u8_slice.
  rewrite <- (take_drop_middle ws i w Hi), pack_spec_app.
  assert (length (pack_spec (take i ws)) = (i * 32)%nat) as Hl.
  { rewrite length_pack_spec, length_take. apply lookup_lt_Some in Hi. lia. }
  rewrite drop_app_ge, Hl, Nat.sub_diag by lia. change (drop 0 ?l) with l.
  rewrite pack_spec_cons, take_app_le, take_ge; rewrite ?length_be_bytes; done.
Qed.

Lemma uint256_be w : uint256 w -> 0 <= w < 256 ^ Z.of_nat 32.
Proof. done. Qed.

(** Unpacking what the reference packing produced. *)
Lemma unpack_pack_spec ws :
  length ws = WORD_COUNT_NAT -> Forall uint256 ws ->
  unpack (pack_spec ws) = Returns (mkState ws).
Proof.
  intros Hl Hok. unfold unpack.
  assert (G : negb (Z.of_nat (length (pack_spec ws)) =? PACKED_SIZE) = false)
    by (rewrite length_pack_spec, Hl, <- PACKED_SIZE_words; unfold PACKED_SIZE_NAT; by rewrite Z2Nat.id).
  rewrite G. cbn [throw_if mbind outcome_bind].
  apply (f_equal Returns), (f_equal mkState). apply list_eq; intros i. rewrite list_lookup_fmap.
  destruct (decide (i < WORD_COUNT_NAT)%nat) as [Hi|Hi].
  - rewrite lookup_seq_lt by done; simpl.
    destruct (lookup_lt_is_Some_2 ws i) as [w Hw]; [lia|]. rewrite Hw. f_equal.
    rewrite readBigEndian32_spec; [|apply pack_spec_ok|].
    + rewrite (pack_spec_slice ws i w Hw), be_value_be_bytes. apply Z.mod_small.
      apply uint256_be. by eapply (Forall_lookup_1 uint256).
    + rewrite length_pack_spec. lia.
  - rewrite (lookup_ge_None_2 ws) by lia.
    rewrite (lookup_ge_None_2 (seq 0 WORD_COUNT_NAT)) by (rewrite length_seq; lia). done.
Qed.

(** A byte string of 32 * n bytes is the packing of the words it reads as. *)
Lemma pack_spec_of_bytes n bs :
  bytes_ok bs -> length bs = (32 * n)%nat ->
  pack_spec (map (fun i => be_value (u8_slice bs (i * 32) 32)) (seq 0 n)) = bs.
Proof.
  revert bs; induction n as [|n IH]; intros bs Hok Hl.
  - by destruct bs.
  - rewrite seq_S, map_app, pack_spec_app; simpl map.
    transitivity (take (32 * n) bs ++ drop (32 * n) bs); [|apply take_drop]. f_equal.
    + rewrite <- (IH (take (32 * n) bs)) by (try apply Forall_take; rewrite ?length_take; auto; lia).
      f_equal. apply map_ext_in. intros i Hi%in_seq. f_equal. unfold u8_slice.
      rewrite skipn_firstn_comm, take_take. f_equal. lia.
    + rewrite pack_spec_cons. change (pack_spec []) with (@nil Z). rewrite app_nil_r. unfold u8_slice.
      rewrite (Nat.mul_comm n 32), (take_ge (drop _ _)) by (rewrite length_drop; lia).
      transitivity (be_bytes (length (drop (32 * n) bs)) (be_value (drop (32 * n) bs)));
        [|by apply be_bytes_be_value, Forall_drop].
      f_equal. rewrite length_drop. lia.
Qed.

Lemma readBigEndian32_uint256 bs off :
  bytes_ok bs -> (off + 32 <= length bs)%nat -> uint256 (readBigEndian32 bs off).
Proof.
  intros Hok Hl. rewrite readBigEndian32_spec by done.
  pose proof (be_value_bound (u8_slice bs off 32)) as Hb. unfold u8_slice in *.
  rewrite length_take, length_drop in Hb. replace (_ `min` _)%nat with 32%nat in Hb by lia.
  apply Hb. by apply Forall_take, Forall_drop.
Qed.

(** ** Properties *)

(** Packing a well-formed state (1024 uint256 words) yields bytes from
    which [unpack] recovers exactly that state. *)
Theorem unpack_pack (s : CortexState) :
  state_ok s -> pack s ≫= unpack = Returns s.
Proof.
  intros [Hl Hok]. rewrite pack_returns by done. simpl. rewrite unpack_pack_spec by done.
  by destruct s.
Qed.

(** [unpack_pack] at the all-zero state. *)
Lemma unpack_pack_witness : state_ok zero_state /\ pack zero_state ≫= unpack = Returns zero_state.
Proof. split; [apply zero_state_ok|]. apply (unpack_pack zero_state), zero_state_ok. Defined.

Lemma unpack_ok bs s : bytes_ok bs -> unpack bs = Returns s -> state_ok s.
Proof.
  intros Hok. unfold unpack. destruct (Z.eqb_spec (Z.of_nat (length bs)) PACKED_SIZE) as [Hl|]; [|done].
  cbn [negb throw_if mbind outcome_bind]. intros E. apply Returns_inj in E as <-.
  assert (Hn : length bs = (32 * WORD_COUNT_NAT)%nat) by (rewrite <- PACKED_SIZE_words; unfold PACKED_SIZE_NAT; lia).
  split; cbn [words]; [by rewrite length_map, length_seq|].
  apply Forall_fmap, Forall_seq; intros i Hi; simpl. apply readBigEndian32_uint256; [done|lia].
Qed.

(** Every buffer of 32768 bytes unpacks to a well-formed state, and
    packing that state gives the buffer back. *)
Theorem pack_unpack (bs : bytes) :
  bytes_ok bs -> Z.of_nat (length bs) = PACKED_SIZE ->
  exists s, unpack bs = Returns s /\ state_ok s /\ pack s = Returns bs.
Proof.
  intros Hok Hl. destruct (unpack bs) as [s|e] eqn:E; [|by unfold unpack in E; rewrite Hl in E].
  exists s. split; [done|]. pose proof (unpack_ok bs s Hok E) as Hs. split; [done|]. destruct Hs as [Hw _].
  unfold unpack in E. rewrite Hl in E. cbn [Z.eqb PACKED_SIZE negb throw_if mbind outcome_bind] in E. apply Returns_inj in E as <-.
  assert (Hn : length bs = (32 * WORD_COUNT_NAT)%nat) by (rewrite <- PACKED_SIZE_words; unfold PACKED_SIZE_NAT; lia).
  rewrite pack_returns by done. apply (f_equal Returns). cbn [words].
  transitivity (pack_spec (map (λ i, be_value (u8_slice bs (i * 32) 32)) (seq 0 WORD_COUNT_NAT)));
    [|by apply pack_spec_of_bytes].
  apply (f_equal pack_spec), map_ext_in. intros i Hi%in_seq. apply readBigEndian32_spec; [done|lia].
Qed.

Lemma pack_unpack_witness :
  exists s, unpack (zeros PACKED_SIZE_NAT) = Returns s /\ state_ok s
            /\ pack s = Returns (zeros PACKED_SIZE_NAT).
Proof.
  apply (pack_unpack (zeros PACKED_SIZE_NAT)).
  - apply Forall_replicate. unfold byte_ok; lia.
  - unfold zeros. rewrite length_replicate. unfold PACKED_SIZE_NAT. by rewrite Z2Nat.id.
Defined.

Lemma mask_ones w : Z.shiftl 1 w - 1 = Z.ones w.
Proof. unfold Z.ones. lia. Qed.

Lemma getField_bitfield w hi lo : getField w hi lo = bitfield w lo (hi - lo + 1).
Proof. unfold getField, bitfield. by rewrite mask_ones. Qed.

Lemma testbit_setField w hi lo v i :
  0 <= lo <= hi -> 0 <= i ->
  Z.testbit (setField w hi lo v) i =
    if (lo <=? i) && (i <=? hi) then Z.testbit v (i - lo) else Z.testbit w i.
Proof.
  intros Hb Hi. unfold setField. rewrite mask_ones.
  rewrite Z.lor_spec, Z.land_spec, Z.lnot_spec by lia.
  destruct (Z.leb_spec lo i); cbn [andb].
  - rewrite !Z.shiftl_spec, Z.land_spec by lia.
    destruct (Z.leb_spec i hi); [rewrite Z.ones_spec_low by lia|rewrite Z.ones_spec_high by lia];
      destruct (Z.testbit w i), (Z.testbit v (i - lo)); done.
  - rewrite !Z.shiftl_spec_low by lia. destruct (Z.testbit w i); done.
Qed.

(** [setField] writes exactly its field: reading it back gives the value
    truncated to the field's width, and every disjoint field is unchanged. *)
Theorem getField_setField (w hi lo v hi' lo' : Z) :
  0 <= lo <= hi -> 0 <= lo' <= hi' ->
  getField (setField w hi lo v) hi lo = v mod 2 ^ (hi - lo + 1) /\
  (hi' < lo \/ hi < lo' -> getField (setField w hi lo v) hi' lo' = getField w hi' lo').
Proof.
  intros H1 H2. rewrite !getField_bitfield. unfold bitfield. split.
  - rewrite <- Z.land_ones by lia. apply Z.bits_inj'; intros i Hi.
    rewrite !Z.land_spec, Z.shiftr_spec, testbit_setField by lia.
    destruct (Z.ltb_spec i (hi - lo + 1)).
    + rewrite (proj2 (Z.leb_le lo (i + lo))), (proj2 (Z.leb_le (i + lo) hi)) by lia.
      cbn [andb]. do 2 f_equal. lia.
    + rewrite !Z.ones_spec_high, !andb_false_r by lia. done.
  - intros Hdis. apply Z.bits_inj'; intros i Hi.
    rewrite !Z.land_spec, !Z.shiftr_spec, testbit_setField by lia.
    destruct (Z.ltb_spec i (hi' - lo' + 1)); [|by rewrite !Z.ones_spec_high, !andb_false_r by lia].
    destruct (Z.leb_spec lo (i + lo')), (Z.leb_spec (i + lo') hi); cbn [andb]; try done. lia.
Qed.

Lemma getField_setField_witness :
  getField (setField 0 15 8 0x1ff) 15 8 = 0x1ff mod 2 ^ (15 - 8 + 1) /\
  (31 < 8 \/ 15 < 16 -> getField (setField 0 15 8 0x1ff) 31 16 = getField 0 31 16).
Proof. apply (getField_setField 0 15 8 0x1ff 31 16); lia. Defined.
