(* ===== verification/Keccak.v ===== *)
(** * Keccak-256 (packages/coretex/src/state/keccak256.ts)

    The source keeps each 64-bit lane as two 32-bit halves in two
    [Uint32Array]s and computes with JavaScript's signed 32-bit operators.
    [Module Code] transcribes it. [Module Spec] is Keccak[c=512] with the
    0x01 padding over 64-bit lanes, with the rotation offsets and round
    constants computed from their definitions (the (t+1)(t+2)/2 walk and
    the LFSR) instead of tables. The main result is that the two agree on
    every input, hence that the tables, the half-word rotations and the
    padding of the source are right. *)
From S2P Require Import Prelude.

(** [a[i]!] on a [Uint32Array] (all uses are in range). *)
Definition u32 (a : list Z) (i : nat) : Z := default 0 (a !! i).

Module Code.

Definition RC : list (Z * Z) :=
  [ (0x00000000, 0x00000001); (0x00000000, 0x00008082);
    (0x80000000, 0x0000808A); (0x80000000, 0x80008000);
    (0x00000000, 0x0000808B); (0x00000000, 0x80000001);
    (0x80000000, 0x80008081); (0x80000000, 0x00008009);
    (0x00000000, 0x0000008A); (0x00000000, 0x00000088);
    (0x00000000, 0x80008009); (0x00000000, 0x8000000A);
    (0x00000000, 0x8000808B); (0x80000000, 0x0000008B);
    (0x80000000, 0x00008089); (0x80000000, 0x00008003);
    (0x80000000, 0x00008002); (0x80000000, 0x00000080);
    (0x00000000, 0x0000800A); (0x80000000, 0x8000000A);
    (0x80000000, 0x80008081); (0x80000000, 0x00008080);
    (0x00000000, 0x80000001); (0x80000000, 0x80008008) ].

Definition RHO : list Z :=
  [ 0;  1; 62; 28; 27;
    36; 44;  6; 55; 20;
    3;  10; 43; 25; 39;
    41; 45; 15; 21;  8;
    18;  2; 61; 56; 14 ].

Definition PI : list nat :=
  [ 0; 10; 20; 5; 15;
    16; 1; 11; 21; 6;
    7; 17; 2; 12; 22;
    23; 8; 18; 3; 13;
    14; 24; 9; 19; 4 ]%nat.

Definition rot64 (hi lo n : Z) : Z * Z :=
  let n := Z.rem (Z.rem n 64 + 64) 64 in
  if n =? 0 then (hi, lo)
  else if n =? 32 then (lo, hi)
  else if n <? 32 then
    (ToUint32 (js_or (js_shl hi n) (js_shru lo (32 - n))),
     ToUint32 (js_or (js_shl lo n) (js_shru hi (32 - n))))
  else
    let n := n - 32 in
    (ToUint32 (js_or (js_shl lo n) (js_shru hi (32 - n))),
     ToUint32 (js_or (js_shl hi n) (js_shru lo (32 - n)))).

(** The permutation state: the two [Uint32Array(25)]s. *)
Record KState := mkK { stateHi : list Z; stateLo : list Z }.

(** Theta: column parities, then every lane of column [x] is xored with [d]. *)
Definition column (st : list Z) (x : nat) : Z :=
  ToUint32 (fold_left (fun h y => js_xor h (u32 st (x + 5 * y))) (seq 0 5) 0).

Definition theta_d (BC_hi BC_lo : list Z) (x : nat) : Z * Z :=
  let '(th, tl) := rot64 (u32 BC_hi ((x + 1) mod 5)) (u32 BC_lo ((x + 1) mod 5)) 1 in
  (js_xor (u32 BC_hi ((x + 4) mod 5)) th, js_xor (u32 BC_lo ((x + 4) mod 5)) tl).

Definition theta (s : KState) : KState :=
  let BC_hi := map (column (stateHi s)) (seq 0 5) in
  let BC_lo := map (column (stateLo s)) (seq 0 5) in
  let D := map (theta_d BC_hi BC_lo) (seq 0 5) in
  let d x := default (0, 0) (D !! x) in
  mkK (map (fun idx => ToUint32 (js_xor (u32 (stateHi s) idx) (fst (d (idx mod 5)%nat)))) (seq 0 25))
      (map (fun idx => ToUint32 (js_xor (u32 (stateLo s) idx) (snd (d (idx mod 5)%nat)))) (seq 0 25)).

(** Rho and Pi combined: lane [i] rotated by [RHO[i]] moves to [PI[i]]. *)
Definition rhopi (s : KState) : KState :=
  fold_left (fun tmp i =>
      let '(rh, rl) := rot64 (u32 (stateHi s) i) (u32 (stateLo s) i) (u32 RHO i) in
      let j := default 0%nat (PI !! i) in
      mkK (<[j := rh]> (stateHi tmp)) (<[j := rl]> (stateLo tmp)))
    (seq 0 25) (mkK (zeros 25) (zeros 25)).

Definition chi_lane (tmp : list Z) (i : nat) : Z :=
  let x := (i mod 5)%nat in
  let y := (i / 5)%nat in
  ToUint32 (js_xor (u32 tmp i)
    (js_and (js_not (u32 tmp ((x + 1) mod 5 + 5 * y))) (u32 tmp ((x + 2) mod 5 + 5 * y)))).

Definition chi (tmp : KState) : KState :=
  mkK (map (chi_lane (stateHi tmp)) (seq 0 25)) (map (chi_lane (stateLo tmp)) (seq 0 25)).

Definition iota (round : nat) (s : KState) : KState :=
  let '(rh, rl) := default (0, 0) (RC !! round) in
  mkK (<[0%nat := ToUint32 (js_xor (u32 (stateHi s) 0) rh)]> (stateHi s))
      (<[0%nat := ToUint32 (js_xor (u32 (stateLo s) 0) rl)]> (stateLo s)).

Definition keccakF1600 (s : KState) : KState :=
  fold_left (fun s round => iota round (chi (rhopi (theta s)))) (seq 0 24) s.

(** Four bytes little-endian, or-ed together as in [absorbBlock]. *)
Definition le32 (data : bytes) (base : nat) : Z :=
  fold_left (fun acc b => js_or acc (js_shl (default 0 (data !! (base + b)%nat)) (Z.of_nat b * 8)))
    (seq 0 4) 0.

Definition absorbBlock (s : KState) (data : bytes) (offset rate : nat) : KState :=
  fold_left (fun s i =>
      let base := (offset + i * 8)%nat in
      let lo := le32 data base in
      let hi := le32 data (base + 4) in
      mkK (<[i := ToUint32 (js_xor (u32 (stateHi s) i) (ToUint32 hi))]> (stateHi s))
          (<[i := ToUint32 (js_xor (u32 (stateLo s) i) (ToUint32 lo))]> (stateLo s)))
    (seq 0 (rate / 8)) s.

Definition rate : nat := 136.

(** The absorb loop [while (offset + rate <= data.length)]; at most
    [length data / rate] iterations run, so [length data] is enough fuel. *)
Fixpoint absorb_loop (fuel : nat) (s : KState) (data : bytes) (offset : nat) : KState * nat :=
  match fuel with
  | O => (s, offset)
  | S fuel =>
    if (offset + rate <=? length data)%nat
    then absorb_loop fuel (keccakF1600 (absorbBlock s data offset rate)) data (offset + rate)
    else (s, offset)
  end.

(** The padded last block. *)
Definition last_block (data : bytes) (offset : nat) : bytes :=
  let last := u8_set (zeros rate) 0 (drop offset data) in
  let last := <[(length data - offset)%nat := 0x01]> last in
  <[(rate - 1)%nat := Z.land (Z.lor (default 0 (last !! (rate - 1)%nat)) 0x80) 0xff]> last.

Definition squeeze_lane (s : KState) (lane : nat) : bytes :=
  let lo := u32 (stateLo s) lane in
  let hi := u32 (stateHi s) lane in
  [ js_and lo 0xff; js_and (js_shru lo 8) 0xff; js_and (js_shru lo 16) 0xff; js_and (js_shru lo 24) 0xff;
    js_and hi 0xff; js_and (js_shru hi 8) 0xff; js_and (js_shru hi 16) 0xff; js_and (js_shru hi 24) 0xff ].

Definition keccak256 (data : bytes) : bytes :=
  let s0 := mkK (zeros 25) (zeros 25) in
  let '(s, offset) := absorb_loop (length data) s0 data 0 in
  let last := last_block data offset in
  let s := keccakF1600 (absorbBlock s last 0 rate) in
  seq 0 4 ≫= squeeze_lane s.

End Code.

(** ** The reference permutation and sponge on 64-bit lanes. *)
Module Spec.

Definition rotl64 (v n : Z) : Z := Z.lor (Z.shiftl v n mod 2 ^ 64) (Z.shiftr v (64 - n)).

(** The rotation offsets: starting at (1,0), the [t]-th lane of the walk
    (x,y) -> (y, 2x+3y) is rotated by (t+1)(t+2)/2. *)
Fixpoint rho_walk (n : nat) (t : Z) (x y : nat) : list ((nat * nat) * Z) :=
  match n with
  | O => []
  | S n' => ((x, y), ((t + 1) * (t + 2) / 2) mod 64) :: rho_walk n' (t + 1) y ((2 * x + 3 * y) mod 5)%nat
  end.

Definition rho_offset (x y : nat) : Z :=
  match list_find (fun p => fst p = (x, y)) (rho_walk 24 0 1 0) with
  | Some (_, (_, r)) => r
  | None => 0
  end.

(** The round constants, from the degree-8 LFSR x^8 + x^6 + x^5 + x^4 + 1. *)
Definition lfsr_step (r : Z) : Z :=
  let r2 := Z.shiftl r 1 in
  if Z.testbit r2 8 then Z.lxor (Z.land r2 0xff) 0x71 else r2.

Definition rc_bit (t : nat) : bool := Z.testbit (Nat.iter t lfsr_step 1) 0.

Definition round_constant (round : nat) : Z :=
  fold_left (fun acc j => if rc_bit (7 * round + j) then Z.setbit acc (2 ^ Z.of_nat j - 1) else acc)
    (seq 0 7) 0.

Definition fips_theta (a : list Z) : list Z :=
  let C x := fold_left (fun h y => Z.lxor h (u32 a (x + 5 * y))) (seq 0 5) 0 in
  let D x := Z.lxor (C ((x + 4) mod 5)%nat) (rotl64 (C ((x + 1) mod 5)%nat) 1) in
  map (fun i => Z.lxor (u32 a i) (D (i mod 5)%nat)) (seq 0 25).

Definition fips_rho_pi (a : list Z) : list Z :=
  fold_left (fun b i =>
      let x := (i mod 5)%nat in
      let y := (i / 5)%nat in
      <[(y + 5 * ((2 * x + 3 * y) mod 5))%nat := rotl64 (u32 a i) (rho_offset x y)]> b)
    (seq 0 25) (zeros 25).

Definition fips_chi (b : list Z) : list Z :=
  map (fun i =>
      let x := (i mod 5)%nat in
      let y := (i / 5)%nat in
      Z.lxor (u32 b i)
        (Z.land (Z.lxor (u32 b ((x + 1) mod 5 + 5 * y)) (Z.ones 64)) (u32 b ((x + 2) mod 5 + 5 * y))))
    (seq 0 25).

Definition fips_iota (round : nat) (a : list Z) : list Z :=
  <[0%nat := Z.lxor (u32 a 0) (round_constant round)]> a.

Definition keccak_f (a : list Z) : list Z :=
  fold_left (fun a round => fips_iota round (fips_chi (fips_rho_pi (fips_theta a)))) (seq 0 24) a.

(** Little-endian lanes. *)
Fixpoint le_value (l : bytes) : Z :=
  match l with [] => 0 | b :: l' => b + 256 * le_value l' end.
Fixpoint le_bytes (n : nat) (v : Z) : bytes :=
  match n with O => [] | S n' => v mod 256 :: le_bytes n' (v / 256) end.

(** Absorb one 136-byte block: 17 lanes are xored in. *)
Definition absorb (a : list Z) (block : bytes) : list Z :=
  fold_left (fun a i => <[i := Z.lxor (u32 a i) (le_value (u8_slice block (i * 8) 8))]> a)
    (seq 0 17) a.

(** pad10*1 with the Keccak domain byte 0x01. *)
Definition pad (len : nat) : bytes :=
  let q := (136 - len mod 136)%nat in
  if (q =? 1)%nat then [0x81] else 0x01 :: zeros (q - 2) ++ [0x80].

Definition blocks (data : bytes) : list bytes :=
  map (fun k => u8_slice data (k * 136) 136) (seq 0 (length data / 136)).

Definition fips_keccak256 (data : bytes) : bytes :=
  let s := fold_left (fun a block => keccak_f (absorb a block))
             (blocks (data ++ pad (length data))) (zeros 25) in
  take 4 s ≫= le_bytes 8.

End Spec.

(** ** Half-words and lanes. *)
Definition lane (h l : Z) : Z := h * 2 ^ 32 + l.
Definition u32ok (v : Z) : Prop := 0 <= v < 2 ^ 32.

Lemma testbit_lane h l i : u32ok l -> 0 <= i ->
  Z.testbit (lane h l) i = if i <? 32 then Z.testbit l i else Z.testbit h (i - 32).
Proof.
  intros Hl Hi. unfold lane. rewrite <- lor_shiftl_add by (unfold u32ok in Hl; lia).
  rewrite Z.lor_spec, Z.shiftl_spec by lia. destruct (Z.ltb_spec i 32).
  - by rewrite (Z.testbit_neg_r h) by lia.
  - by rewrite (testbit_small l 32), orb_false_r by (done || lia).
Qed.

Lemma lane_ext v h l : u32ok l ->
  (forall i, 0 <= i -> Z.testbit v i = if i <? 32 then Z.testbit l i else Z.testbit h (i - 32)) ->
  lane h l = v.
Proof. intros Hl H. apply Z.bits_inj'; intros i Hi. by rewrite testbit_lane, H. Qed.

Lemma u32ok_lor a b : u32ok a -> u32ok b -> u32ok (Z.lor a b).
Proof. unfold u32ok. intros. apply lor_bound; lia. Qed.

Lemma u32ok_lxor a b : u32ok a -> u32ok b -> u32ok (Z.lxor a b).
Proof.
  intros Ha Hb. rewrite <- (ToUint32_small a), <- (ToUint32_small b) by done.
  rewrite <- ToUint32_xor. apply ToUint32_bound.
Qed.

Lemma u32ok_land a b : u32ok a -> u32ok b -> u32ok (Z.land a b).
Proof.
  intros Ha Hb. rewrite <- (ToUint32_small a), <- (ToUint32_small b) by done.
  rewrite <- ToUint32_and. apply ToUint32_bound.
Qed.

Lemma lane_xor a b c d : u32ok c -> u32ok d ->
  lane (Z.lxor a b) (Z.lxor c d) = Z.lxor (lane a c) (lane b d).
Proof.
  intros Hc Hd. apply lane_ext; [by apply u32ok_lxor|]. intros i Hi.
  rewrite Z.lxor_spec, !testbit_lane by done. destruct (i <? 32); by rewrite Z.lxor_spec.
Qed.

Lemma lane_and a b c d : u32ok c -> u32ok d ->
  lane (Z.land a b) (Z.land c d) = Z.land (lane a c) (lane b d).
Proof.
  intros Hc Hd. apply lane_ext; [by apply u32ok_land|]. intros i Hi.
  rewrite Z.land_spec, !testbit_lane by done. destruct (i <? 32); by rewrite Z.land_spec.
Qed.

Lemma lane_ones : lane (Z.ones 32) (Z.ones 32) = Z.ones 64.
Proof. done. Qed.

Lemma u32ok_ones : u32ok (Z.ones 32).
Proof. split; [vm_compute; discriminate|reflexivity]. Qed.
#[local] Hint Resolve u32ok_ones : core.

Lemma lane_bound h l : u32ok h -> u32ok l -> 0 <= lane h l < 2 ^ 64.
Proof. unfold u32ok, lane. lia. Qed.

Lemma lane_inj h l h' l' : u32ok l -> u32ok l' -> lane h l = lane h' l' -> h = h' /\ l = l'.
Proof. unfold u32ok, lane. lia. Qed.

(** A bit of the 64-bit rotation. *)
Lemma testbit_rotl64 v n i : 0 <= v < 2 ^ 64 -> 0 <= n < 64 -> 0 <= i < 64 ->
  Z.testbit (Spec.rotl64 v n) i = Z.testbit v ((i - n) mod 64).
Proof.
  intros Hv Hn Hi. unfold Spec.rotl64.
  rewrite Z.lor_spec, Z.mod_pow2_bits_low, Z.shiftr_spec, Z.shiftl_spec by lia.
  destruct (Z.le_gt_cases n i).
  - rewrite (testbit_small v 64 (i + (64 - n))), orb_false_r, Z.mod_small by lia. done.
  - rewrite (Z.testbit_neg_r _ (i - n)) by lia. cbn [orb].
    f_equal. apply Zmod_unique with (-1); lia.
Qed.

Lemma rotl64_bound v n : 0 <= v < 2 ^ 64 -> 0 <= n < 64 -> 0 <= Spec.rotl64 v n < 2 ^ 64.
Proof.
  intros Hv Hn. unfold Spec.rotl64.
  assert (0 <= Z.shiftl v n mod 2 ^ 64 < 2 ^ 64) by (apply Z.mod_pos_bound; lia).
  assert (0 <= Z.shiftr v (64 - n) < 2 ^ 64).
  { rewrite Z.shiftr_div_pow2 by lia. assert (1 <= 2 ^ (64 - n)) by (pose proof (Z.pow_pos_nonneg 2 (64 - n)); lia).
    split; [apply Z.div_pos; lia|]. apply Z.le_lt_trans with v; [apply Z.div_le_upper_bound; nia|lia]. }
  apply lor_bound; lia.
Qed.

(** [(hi << n) | (lo >>> (32 - n))] on 32-bit halves, bit by bit. *)
Lemma testbit_funnel hi lo n i : u32ok hi -> u32ok lo -> 0 < n < 32 -> 0 <= i < 32 ->
  Z.testbit (ToUint32 (js_or (js_shl hi n) (js_shru lo (32 - n)))) i =
    if i <? n then Z.testbit lo (i + 32 - n) else Z.testbit hi (i - n).
Proof.
  intros Hhi Hlo Hn Hi.
  rewrite ToUint32_or, ToUint32_shl, (ToUint32_small hi) by (done || lia).
  Local Transparent js_shru. unfold js_shru. Local Opaque js_shru.
  rewrite (ToUint32_small lo) by done.
  rewrite Z.lor_spec, !ToUint32_land, !Z.land_spec, Z.ones_spec_low, !andb_true_r by lia.
  rewrite Z.shiftl_spec, Z.shiftr_spec by lia.
  destruct (Z.ltb_spec i n).
  - rewrite (Z.testbit_neg_r _ (i - n)) by lia. cbn [orb]. f_equal. lia.
  - rewrite (testbit_small lo 32 (i + (32 - n))) by (done || lia). by rewrite orb_false_r.
Qed.

Lemma u32ok_ToUint32 v : u32ok (ToUint32 v).
Proof. apply ToUint32_bound. Qed.
#[local] Hint Resolve u32ok_ToUint32 : core.

(** The half-word rotation is the 64-bit rotation. *)
Lemma rot64_spec hi lo n : u32ok hi -> u32ok lo -> 0 <= n < 64 ->
  let '(h, l) := Code.rot64 hi lo n in
  u32ok h /\ u32ok l /\ lane h l = Spec.rotl64 (lane hi lo) n.
Proof.
  intros Hhi Hlo Hn. pose proof (lane_bound hi lo Hhi Hlo) as HL.
  assert (Hr : forall h l, u32ok h -> u32ok l ->
     (forall i, 0 <= i < 32 -> Z.testbit l i = Z.testbit (lane hi lo) ((i - n) mod 64)) ->
     (forall i, 0 <= i < 32 -> Z.testbit h i = Z.testbit (lane hi lo) ((i + 32 - n) mod 64)) ->
     lane h l = Spec.rotl64 (lane hi lo) n).
  { intros h l Hh Hl H1 H2. apply lane_ext; [done|]. intros i Hi.
    destruct (Z.lt_ge_cases i 64).
    - rewrite testbit_rotl64 by lia. destruct (Z.ltb_spec i 32); [by rewrite H1 by lia|].
      rewrite H2 by lia. do 2 f_equal. lia.
    - pose proof (rotl64_bound (lane hi lo) n HL Hn).
      rewrite (testbit_small (Spec.rotl64 _ _) 64) by lia.
      rewrite (proj2 (Z.ltb_ge i 32)), (testbit_small h 32) by (done || lia). done. }
  unfold Code.rot64.
  replace (Z.rem (Z.rem n 64 + 64) 64) with n
    by (rewrite !Z.rem_mod_nonneg by (rewrite ?Z.rem_small; lia); rewrite (Z.mod_small n) by lia;
        apply Zmod_unique with 1; lia).
  destruct (Z.eqb_spec n 0) as [->|]; [|destruct (Z.eqb_spec n 32) as [->|]; [|destruct (Z.ltb_spec n 32)]].
  all: split; [auto|split; [auto|apply Hr; auto; intros i Hi]].
  all: rewrite testbit_lane by (done || (apply Z.mod_pos_bound; lia)).
  1,2: rewrite Z.mod_small by lia; destruct (Z.ltb_spec (i + 32 - 0) 32), (Z.ltb_spec (i - 0) 32); try lia; f_equal; lia.
  1: replace ((i - 32) mod 64) with (i + 32) by (apply Zmod_unique with (-1); lia);
     rewrite (proj2 (Z.ltb_ge _ _)) by lia; f_equal; lia.
  1: rewrite Z.mod_small, (proj2 (Z.ltb_lt _ _)) by lia; f_equal; lia.
  all: rewrite testbit_funnel by (done || lia).
  all: match goal with |- (if ?a <? ?b then _ else _) = _ => destruct (Z.ltb_spec a b) end.
  all: match goal with
       | |- context [?x mod 64] =>
           first [ replace (x mod 64) with x by (symmetry; apply Z.mod_small; lia)
                 | replace (x mod 64) with (x + 64) by (apply Zmod_unique with (-1); lia) ] end.
  all: match goal with |- context [?a <? 32] => destruct (Z.ltb_spec a 32); try lia end.
  all: f_equal; lia.
Qed.

(** ** The permutation on halves refines the permutation on lanes. *)
Definition join (s : Code.KState) : list Z := zip_with lane (Code.stateHi s) (Code.stateLo s).

Record kok (s : Code.KState) : Prop := {
  kok_hi_len : length (Code.stateHi s) = 25%nat;
  kok_lo_len : length (Code.stateLo s) = 25%nat;
  kok_hi : Forall u32ok (Code.stateHi s);
  kok_lo : Forall u32ok (Code.stateLo s)
}.

Lemma u32_ok a i : Forall u32ok a -> u32ok (u32 a i).
Proof.
  intros Ha. unfold u32. destruct (a !! i) as [v|] eqn:E; simpl.
  - by eapply (Forall_lookup_1 u32ok).
  - unfold u32ok; lia.
Qed.
#[local] Hint Resolve u32_ok kok_hi kok_lo : core.

Lemma u32_join s i : kok s -> (i < 25)%nat ->
  u32 (join s) i = lane (u32 (Code.stateHi s) i) (u32 (Code.stateLo s) i).
Proof.
  intros [H1 H2 _ _] Hi. unfold join, u32. rewrite lookup_zip_with.
  destruct (lookup_lt_is_Some_2 (Code.stateHi s) i) as [h ->]; [lia|].
  by destruct (lookup_lt_is_Some_2 (Code.stateLo s) i) as [l ->]; [lia|].
Qed.

Lemma join_map f g n :
  join (Code.mkK (map f (seq 0 n)) (map g (seq 0 n))) = map (fun i => lane (f i) (g i)) (seq 0 n).
Proof.
  unfold join; simpl. generalize (seq 0 n). intros l. induction l as [|x l IH]; simpl; congruence.
Qed.

Lemma kok_map f g :
  (forall i, (i < 25)%nat -> u32ok (f i) /\ u32ok (g i)) ->
  kok (Code.mkK (map f (seq 0 25)) (map g (seq 0 25))).
Proof.
  intros H. constructor; cbn [Code.stateHi Code.stateLo]; rewrite ?length_map, ?length_seq; try done;
    apply Forall_fmap, Forall_seq; intros i Hi; simpl; apply H; lia.
Qed.

(** Writing lane [j] of both arrays. *)
Lemma kok_insert s j h l : kok s -> u32ok h -> u32ok l ->
  kok (Code.mkK (<[j := h]> (Code.stateHi s)) (<[j := l]> (Code.stateLo s))).
Proof.
  intros [H1 H2 H3 H4] Hh Hl. constructor; cbn [Code.stateHi Code.stateLo]; rewrite ?length_insert; try done;
    by apply Forall_insert.
Qed.

Lemma join_insert s j h l :
  join (Code.mkK (<[j := h]> (Code.stateHi s)) (<[j := l]> (Code.stateLo s)))
  = <[j := lane h l]> (join s).
Proof. unfold join; cbn [Code.stateHi Code.stateLo]. by rewrite insert_zip_with. Qed.

Lemma kok_zeros : kok (Code.mkK (zeros 25) (zeros 25)).
Proof.
  constructor; cbn [Code.stateHi Code.stateLo]; try done; apply Forall_replicate; unfold u32ok; lia.
Qed.

Lemma column_fold s x ys h l : kok s -> Forall (fun y => x + 5 * y < 25)%nat ys ->
  lane (ToUint32 (fold_left (fun h y => js_xor h (u32 (Code.stateHi s) (x + 5 * y))) ys h))
       (ToUint32 (fold_left (fun h y => js_xor h (u32 (Code.stateLo s) (x + 5 * y))) ys l))
  = fold_left (fun h y => Z.lxor h (u32 (join s) (x + 5 * y))) ys (lane (ToUint32 h) (ToUint32 l)).
Proof.
  intros Hs Hys. revert h l. induction Hys as [|y ys Hy _ IH]; intros h l; [done|].
  simpl. rewrite IH, !ToUint32_xor, lane_xor, u32_join by auto.
  do 2 f_equal. by rewrite !ToUint32_small by (apply u32_ok; auto).
Qed.

Lemma lookup_map_seq {A} (f : nat -> A) n i : (i < n)%nat -> map f (seq 0 n) !! i = Some (f i).
Proof. intros. change (map f) with (fmap (M:=list) f). rewrite list_lookup_fmap, lookup_seq_lt by done. done. Qed.

Lemma column_spec s x : kok s -> (x < 5)%nat ->
  lane (Code.column (Code.stateHi s) x) (Code.column (Code.stateLo s) x)
  = fold_left (fun h y => Z.lxor h (u32 (join s) (x + 5 * y))) (seq 0 5) 0.
Proof.
  intros Hs Hx. unfold Code.column. rewrite column_fold; [done|done|].
  apply Forall_seq. intros; lia.
Qed.

Lemma theta_d_spec s x : kok s -> (x < 5)%nat ->
  let BC_hi := map (Code.column (Code.stateHi s)) (seq 0 5) in
  let BC_lo := map (Code.column (Code.stateLo s)) (seq 0 5) in
  let C x := fold_left (fun h y => Z.lxor h (u32 (join s) (x + 5 * y))) (seq 0 5) 0 in
  lane (ToUint32 (fst (Code.theta_d BC_hi BC_lo x))) (ToUint32 (snd (Code.theta_d BC_hi BC_lo x)))
  = Z.lxor (C ((x + 4) mod 5)%nat) (Spec.rotl64 (C ((x + 1) mod 5)%nat) 1).
Proof.
  intros Hs Hx BC_hi BC_lo C. unfold Code.theta_d.
  assert (HC : forall x, (x < 5)%nat -> u32 BC_hi x = Code.column (Code.stateHi s) x
                                     /\ u32 BC_lo x = Code.column (Code.stateLo s) x).
  { intros z Hz. unfold u32, BC_hi, BC_lo. by rewrite !lookup_map_seq. }
  assert (H1 : ((x + 1) mod 5 < 5)%nat) by (apply Nat.mod_upper_bound; lia).
  assert (H4 : ((x + 4) mod 5 < 5)%nat) by (apply Nat.mod_upper_bound; lia).
  destruct (HC _ H1) as [-> ->], (HC _ H4) as [-> ->].
  pose proof (rot64_spec (Code.column (Code.stateHi s) ((x + 1) mod 5))
                         (Code.column (Code.stateLo s) ((x + 1) mod 5)) 1) as R.
  destruct (Code.rot64 _ _ 1) as [th tl]; cbn [fst snd]. destruct R as (R1 & R2 & R3);
    [unfold Code.column; auto..|lia|].
  rewrite !ToUint32_xor, lane_xor by auto.
  rewrite (ToUint32_small th), (ToUint32_small tl), R3 by done.
  rewrite !(ToUint32_small (Code.column _ _)) by (unfold Code.column; apply ToUint32_bound).
  by rewrite !column_spec.
Qed.

Lemma theta_refines s : kok s -> kok (Code.theta s) /\ join (Code.theta s) = Spec.fips_theta (join s).
Proof.
  intros Hs. unfold Code.theta, Spec.fips_theta. split.
  - apply kok_map. auto.
  - rewrite join_map. apply map_ext_in. intros i Hi%in_seq.
    rewrite lookup_map_seq by (apply Nat.mod_upper_bound; lia). cbn [from_option id].
    rewrite !ToUint32_xor, lane_xor, theta_d_spec by (auto; apply Nat.mod_upper_bound; lia).
    rewrite u32_join by (done || lia). by rewrite !ToUint32_small by (apply u32_ok; auto).
Qed.

(** The offset and target tables of the source are the computed ones. *)
Lemma tables_ok i : (i < 25)%nat ->
  u32 Code.RHO i = Spec.rho_offset (i mod 5) (i / 5) /\ 0 <= u32 Code.RHO i < 64 /\
  default 0%nat (Code.PI !! i) = (i / 5 + 5 * ((2 * (i mod 5) + 3 * (i / 5)) mod 5))%nat.
Proof.
  intros Hi.
  assert (H : forallb (fun i => (u32 Code.RHO i =? Spec.rho_offset (i mod 5) (i / 5))
      && (0 <=? u32 Code.RHO i) && (u32 Code.RHO i <? 64)
      && (default 0%nat (Code.PI !! i) =? (i / 5 + 5 * ((2 * (i mod 5) + 3 * (i / 5)) mod 5)))%nat)
      (seq 0 25) = true) by (vm_compute; reflexivity).
  rewrite forallb_forall in H. specialize (H i). rewrite in_seq in H. specialize (H ltac:(lia)).
  apply andb_true_iff in H as [H H2%Nat.eqb_eq]. bool_hyps. auto.
Qed.

Lemma round_constants_ok r : (r < 24)%nat ->
  let '(h, l) := default (0, 0) (Code.RC !! r) in
  u32ok h /\ u32ok l /\ lane h l = Spec.round_constant r.
Proof.
  intros Hr.
  assert (H : forallb (fun r => let '(h, l) := default (0, 0) (Code.RC !! r) in
       (0 <=? h) && (h <? 2 ^ 32) && (0 <=? l) && (l <? 2 ^ 32) && (lane h l =? Spec.round_constant r))
      (seq 0 24) = true) by (vm_compute; reflexivity).
  rewrite forallb_forall in H. specialize (H r). rewrite in_seq in H. specialize (H ltac:(lia)).
  destruct (default _ _) as [h l]. unfold u32ok. bool_hyps. auto.
Qed.

Lemma rhopi_fold s ids tmp : kok s -> Forall (fun i => i < 25)%nat ids -> kok tmp ->
  let r := fold_left (fun tmp i =>
      let '(rh, rl) := Code.rot64 (u32 (Code.stateHi s) i) (u32 (Code.stateLo s) i) (u32 Code.RHO i) in
      let j := default 0%nat (Code.PI !! i) in
      Code.mkK (<[j := rh]> (Code.stateHi tmp)) (<[j := rl]> (Code.stateLo tmp))) ids tmp in
  kok r /\ join r = fold_left (fun b i =>
      <[(i / 5 + 5 * ((2 * (i mod 5) + 3 * (i / 5)) mod 5))%nat
        := Spec.rotl64 (u32 (join s) i) (Spec.rho_offset (i mod 5) (i / 5))]> b) ids (join tmp).
Proof.
  intros Hs His. revert tmp. induction His as [|i ids Hi _ IH]; intros tmp Ht; [done|].
  cbn [fold_left]. destruct (tables_ok i Hi) as (T1 & T2 & T3). rewrite T3, <- T1.
  pose proof (rot64_spec (u32 (Code.stateHi s) i) (u32 (Code.stateLo s) i) (u32 Code.RHO i)) as R.
  destruct (Code.rot64 _ _ _) as [rh rl]. destruct R as (R1 & R2 & R3); [auto..|].
  rewrite u32_join, <- R3, <- join_insert by done. apply IH. by apply kok_insert.
Qed.

Lemma rhopi_refines s : kok s -> kok (Code.rhopi s) /\ join (Code.rhopi s) = Spec.fips_rho_pi (join s).
Proof.
  intros Hs. apply (rhopi_fold s (seq 0 25) (Code.mkK (zeros 25) (zeros 25))); [done| |apply kok_zeros].
  apply Forall_seq; lia.
Qed.

Lemma chi_refines s : kok s -> kok (Code.chi s) /\ join (Code.chi s) = Spec.fips_chi (join s).
Proof.
  intros Hs. unfold Code.chi, Spec.fips_chi. split; [apply kok_map; unfold Code.chi_lane; auto|].
  rewrite join_map. apply map_ext_in. intros i Hi%in_seq. unfold Code.chi_lane.
  assert (Hb : forall k, ((i mod 5 + k) mod 5 + 5 * (i / 5) < 25)%nat).
  { intros k. pose proof (Nat.mod_upper_bound (i mod 5 + k) 5).
    pose proof (Nat.Div0.div_lt_upper_bound i 5 5). lia. }
  rewrite !ToUint32_xor, !ToUint32_and, !ToUint32_not, !(ToUint32_small (u32 _ _)) by (apply u32_ok; auto).
  rewrite lane_xor, lane_and, lane_xor, lane_ones, !u32_join; auto using u32ok_lxor, u32ok_land.
  all: repeat (apply u32ok_lxor || apply u32ok_land || apply u32_ok); auto; lia.
Qed.

Lemma iota_refines r s : kok s -> (r < 24)%nat ->
  kok (Code.iota r s) /\ join (Code.iota r s) = Spec.fips_iota r (join s).
Proof.
  intros Hs Hr. unfold Code.iota, Spec.fips_iota. pose proof (round_constants_ok r Hr) as R.
  destruct (default _ _) as [rh rl]. destruct R as (R1 & R2 & <-). split; [by apply kok_insert|].
  rewrite join_insert, u32_join, !ToUint32_xor, !(ToUint32_small (u32 _ _)) by (done || lia || (apply u32_ok; auto)).
  rewrite (ToUint32_small rh), (ToUint32_small rl) by done. by rewrite lane_xor by auto.
Qed.

Lemma keccakF_refines s : kok s ->
  kok (Code.keccakF1600 s) /\ join (Code.keccakF1600 s) = Spec.keccak_f (join s).
Proof.
  unfold Code.keccakF1600, Spec.keccak_f.
  assert (H : Forall (fun r => r < 24)%nat (seq 0 24)) by (apply Forall_seq; lia).
  revert s. induction H as [|r rs Hr _ IH]; intros s Hs; [done|]. cbn [fold_left].
  destruct (theta_refines s Hs) as [K1 <-]. destruct (rhopi_refines _ K1) as [K2 <-].
  destruct (chi_refines _ K2) as [K3 <-]. destruct (iota_refines r _ K3 Hr) as [K4 <-]. by apply IH.
Qed.

(** ** Absorbing. *)
Lemma slice_S data b n : (b < length data)%nat ->
  u8_slice data b (S n) = default 0 (data !! b) :: u8_slice data (b + 1) n.
Proof.
  intros Hb. rewrite Nat.add_1_r. unfold u8_slice. destruct (lookup_lt_is_Some_2 data b Hb) as [x Hx].
  rewrite (drop_S data x b Hx), Hx. done.
Qed.

Lemma slice_0 data b : u8_slice data b 0 = [].
Proof. done. Qed.

Lemma get_byte_ok data i : bytes_ok data -> byte_ok (default 0 (data !! i)).
Proof.
  intros H. destruct (data !! i) eqn:E; simpl; [by eapply (Forall_lookup_1 byte_ok)|unfold byte_ok; lia].
Qed.

Lemma shl_byte d k : byte_ok d -> 0 <= k <= 24 -> ToUint32 (js_shl d k) = Z.shiftl d k.
Proof.
  intros Hd Hk. unfold byte_ok in Hd. rewrite ToUint32_shl, (ToUint32_small d) by lia.
  apply ToUint32_small. rewrite Z.shiftl_mul_pow2 by lia.
  assert (2 ^ k <= 2 ^ 24) by (apply Z.pow_le_mono_r; lia). pose proof (Z.pow_pos_nonneg 2 k). nia.
Qed.

Lemma le32_spec data base : bytes_ok data -> (base + 4 <= length data)%nat ->
  ToUint32 (Code.le32 data base) = Spec.le_value (u8_slice data base 4).
Proof.
  intros Hok Hl. rewrite !slice_S, slice_0 by lia. cbn [Spec.le_value].
  unfold Code.le32. cbn [seq fold_left].
  replace (base + 0)%nat with base by lia. rewrite <- !Nat.add_assoc. cbn [Nat.add].
  pose proof (get_byte_ok data base Hok) as B0. pose proof (get_byte_ok data (base + 1) Hok) as B1.
  pose proof (get_byte_ok data (base + 2) Hok) as B2. pose proof (get_byte_ok data (base + 3) Hok) as B3.
  revert B0 B1 B2 B3. generalize (default 0 (data !! base)) (default 0 (data !! (base + 1)%nat))
    (default 0 (data !! (base + 2)%nat)) (default 0 (data !! (base + 3)%nat)). intros d0 d1 d2 d3 B0 B1 B2 B3.
  rewrite !ToUint32_or, !shl_byte by (done || lia). unfold byte_ok in *.
  change (ToUint32 0) with 0. rewrite Z.lor_0_l.
  change (Z.of_nat 0 * 8) with 0. change (Z.of_nat 1 * 8) with 8.
  change (Z.of_nat 2 * 8) with 16. change (Z.of_nat 3 * 8) with 24. rewrite Z.shiftl_0_r.
  rewrite (Z.lor_comm d0), (lor_shiftl_add d1 d0) by lia.
  set (x := d1 * 2 ^ 8 + d0). assert (0 <= x < 2 ^ 16) by lia.
  rewrite (Z.lor_comm x), (lor_shiftl_add d2 x) by lia.
  set (y := d2 * 2 ^ 16 + x). assert (0 <= y < 2 ^ 24) by lia.
  rewrite (Z.lor_comm y), (lor_shiftl_add d3 y) by lia. lia.
Qed.

Lemma le_value_app a b : Spec.le_value (a ++ b) = Spec.le_value a + 256 ^ Z.of_nat (length a) * Spec.le_value b.
Proof.
  induction a as [|x a IH]; cbn [app Spec.le_value length]; [lia|].
  rewrite IH, pow256_S. lia.
Qed.

Lemma slice_split data b n m :
  u8_slice data b (n + m) = u8_slice data b n ++ u8_slice data (b + n) m.
Proof. unfold u8_slice. by rewrite <- take_take_drop, drop_drop. Qed.

Lemma lane_le data base : bytes_ok data -> (base + 8 <= length data)%nat ->
  lane (ToUint32 (Code.le32 data (base + 4))) (ToUint32 (Code.le32 data base))
  = Spec.le_value (u8_slice data base 8).
Proof.
  intros Hok Hl. rewrite !le32_spec by (done || lia).
  change 8%nat with (4 + 4)%nat. rewrite slice_split, le_value_app.
  replace (length (u8_slice data base 4)) with 4%nat
    by (unfold u8_slice; rewrite length_take, length_drop; lia).
  unfold lane. lia.
Qed.

Lemma absorb_fold data offset ids s : kok s -> bytes_ok data ->
  Forall (fun i => i < 25 /\ offset + i * 8 + 8 <= length data)%nat ids ->
  let r := fold_left (fun s i =>
      let base := (offset + i * 8)%nat in
      let lo := Code.le32 data base in
      let hi := Code.le32 data (base + 4) in
      Code.mkK (<[i := ToUint32 (js_xor (u32 (Code.stateHi s) i) (ToUint32 hi))]> (Code.stateHi s))
          (<[i := ToUint32 (js_xor (u32 (Code.stateLo s) i) (ToUint32 lo))]> (Code.stateLo s))) ids s in
  kok r /\ join r = fold_left (fun a i =>
      <[i := Z.lxor (u32 a i) (Spec.le_value (u8_slice data (offset + i * 8) 8))]> a) ids (join s).
Proof.
  intros Hs Hok Hids. revert s Hs. induction Hids as [|i ids [Hi Hb] _ IH]; intros s Hs; [done|].
  cbn [fold_left].
  match goal with |- context [fold_left _ ids (Code.mkK ?h ?l)] => set (s1 := Code.mkK h l) end.
  assert (E : join s1 = <[i := Z.lxor (u32 (join s) i)
      (Spec.le_value (u8_slice data (offset + i * 8) 8))]> (join s)).
  { unfold s1. rewrite join_insert, u32_join, <- lane_le by (done || lia).
    rewrite !ToUint32_xor, !ToUint32_idemp, !(ToUint32_small (u32 _ i)) by (apply u32_ok; auto).
    by rewrite lane_xor by auto. }
  rewrite <- E. apply IH. by apply kok_insert.
Qed.

Lemma absorb_refines s data offset : kok s -> bytes_ok data -> (offset + 136 <= length data)%nat ->
  kok (Code.absorbBlock s data offset Code.rate) /\
  join (Code.absorbBlock s data offset Code.rate) = Spec.absorb (join s) (u8_slice data offset 136).
Proof.
  intros Hs Hok Hl. destruct (absorb_fold data offset (seq 0 17) s Hs Hok) as [K1 K2].
  { apply Forall_seq. intros; lia. }
  split; [exact K1|]. etransitivity; [exact K2|]. unfold Spec.absorb.
  assert (H : Forall (fun i => i < 17)%nat (seq 0 17)) by (apply Forall_seq; lia).
  clear K1 K2. generalize (join s). induction H as [|i ids Hi _ IH]; intros a; [done|].
  cbn [fold_left]. rewrite IH. do 3 f_equal. unfold u8_slice.
  rewrite skipn_firstn_comm, take_take, drop_drop. do 2 f_equal. lia.
Qed.

Definition step_block (a : list Z) (block : bytes) : list Z := Spec.keccak_f (Spec.absorb a block).

(** The loop absorbs every full block, whatever fuel beyond their number it gets. *)
Lemma absorb_loop_spec data : bytes_ok data -> forall n fuel s off,
  kok s -> (off <= length data)%nat -> ((length data - off) / 136 = n)%nat -> (n <= fuel)%nat ->
  let '(s', off') := Code.absorb_loop fuel s data off in
  kok s' /\ off' = (off + n * 136)%nat /\
  join s' = fold_left step_block (map (fun k => u8_slice data (off + k * 136) 136) (seq 0 n)) (join s).
Proof.
  intros Hok n. induction n as [|n IH]; intros fuel s off Hs Hoff Hn Hf.
  - apply Nat.div_small_iff in Hn; [|lia].
    destruct fuel as [|fuel]; cbn [Code.absorb_loop]; [|unfold Code.rate; destruct (Nat.leb_spec (off + 136) (length data)); [lia|]];
      (split; [done|split; [lia|done]]).
  - destruct fuel as [|fuel]; [lia|]. cbn [Code.absorb_loop].
    assert (Hge : (off + 136 <= length data)%nat).
    { destruct (Nat.le_gt_cases (off + 136) (length data)) as [|Hlt]; [done|].
      rewrite Nat.div_small in Hn by lia. done. }
    unfold Code.rate at 1. rewrite (proj2 (Nat.leb_le _ _)) by exact Hge.
    destruct (absorb_refines s data off Hs Hok Hge) as [K1 K2].
    destruct (keccakF_refines _ K1) as [K3 K4].
    specialize (IH fuel _ (off + Code.rate)%nat K3).
    destruct (Code.absorb_loop _ _ _ _) as [s' off']. destruct IH as (I1 & I2 & I3); [exact Hge| |lia|].
    { replace (length data - off)%nat with (1 * 136 + (length data - (off + Code.rate)))%nat in Hn by (unfold Code.rate; lia).
      rewrite Nat.div_add_l in Hn by lia. lia. }
    split; [done|split; [unfold Code.rate in I2; lia|]].
    rewrite I3, K4, K2. cbn [seq map fold_left]. rewrite Nat.mul_0_l, Nat.add_0_r. unfold step_block at 2.
    f_equal. rewrite <- seq_shift, map_map. apply map_ext. intros k. f_equal. unfold Code.rate. lia.
Qed.

(** ** Padding and squeezing. *)
Lemma insert_app_0 {A} (a b : list A) x y : <[length a := y]> (a ++ x :: b) = a ++ y :: b.
Proof. rewrite insert_app_r_alt by lia. by rewrite Nat.sub_diag. Qed.

Lemma last_block_spec data off : (off <= length data)%nat -> (length data - off < 136)%nat ->
  (off mod 136 = 0)%nat ->
  Code.last_block data off = drop off data ++ Spec.pad (length data).
Proof.
  intros H1 H2 H3. unfold Code.last_block, Code.rate.
  set (rest := drop off data).
  assert (Hr : length rest = (length data - off)%nat) by (unfold rest; apply length_drop).
  assert (Hm : (length data mod 136 = length rest)%nat).
  { rewrite Hr. rewrite <- (Nat.sub_add off (length data)) at 1 by lia.
    rewrite Nat.Div0.add_mod, H3, Nat.add_0_r, Nat.Div0.mod_mod. apply Nat.mod_small. lia. }
  unfold Spec.pad. rewrite Hm, <- Hr. unfold u8_set. change (take 0 ?l) with (@nil Z). cbn [app].
  rewrite Nat.add_0_l. unfold zeros. rewrite drop_replicate.
  replace (136 - length rest)%nat with (S (135 - length rest)) by lia. cbn [replicate].
  rewrite insert_app_0. destruct (Nat.eqb_spec (S (135 - length rest)) 1) as [He|He].
  - replace (135 - length rest)%nat with 0%nat by lia. cbn [replicate].
    replace (136 - 1)%nat with (length rest) by lia. rewrite list_lookup_middle by done.
    by rewrite insert_app_0.
  - replace (S (135 - length rest) - 2)%nat with (134 - length rest)%nat by lia.
    replace (135 - length rest)%nat with (134 - length rest + 1)%nat by lia.
    rewrite replicate_add. change (replicate 1 0) with [0].
    change (?a :: ?b ++ [0]) with ((a :: b) ++ [0]). rewrite app_assoc.
    replace (136 - 1)%nat with (length (rest ++ 0x01 :: replicate (134 - length rest) 0))
      by (rewrite length_app; cbn [length]; rewrite length_replicate; lia).
    rewrite list_lookup_middle, insert_app_0 by done. rewrite <- app_assoc. done.
Qed.

Lemma length_pad n : (length (Spec.pad n) = 136 - n mod 136)%nat.
Proof.
  unfold Spec.pad. pose proof (Nat.mod_upper_bound n 136).
  destruct (Nat.eqb_spec (136 - n mod 136) 1) as [E|E]; [by rewrite E|].
  cbn [length]. rewrite length_app. unfold zeros. rewrite length_replicate. cbn [length]. lia.
Qed.

Lemma pad_ok n : bytes_ok (Spec.pad n).
Proof.
  unfold Spec.pad. destruct (Nat.eqb _ 1); [repeat constructor; done|].
  constructor; [done|]. apply Forall_app; split; [apply Forall_replicate; done|]. by constructor.
Qed.

Lemma blocks_pad data :
  Spec.blocks (data ++ Spec.pad (length data))
  = map (fun k => u8_slice data (k * 136) 136) (seq 0 (length data / 136))
    ++ [drop (length data / 136 * 136) data ++ Spec.pad (length data)].
Proof.
  unfold Spec.blocks. set (n := (length data / 136)%nat).
  pose proof (Nat.div_mod_eq (length data) 136) as Hd. fold n in Hd.
  pose proof (Nat.mod_upper_bound (length data) 136) as Hu.
  rewrite length_app, length_pad.
  replace (length data + (136 - length data mod 136))%nat with ((n + 1) * 136)%nat by lia.
  rewrite Nat.div_mul, Nat.add_1_r, seq_S, map_app by lia. f_equal.
  - apply map_ext_in. intros k Hk%in_seq. unfold u8_slice.
    rewrite drop_app_le, take_app_le by (rewrite ?length_drop; lia). done.
  - cbn [map Nat.add]. unfold u8_slice. rewrite drop_app_le by lia.
    rewrite take_ge; [done|]. rewrite length_app, length_drop, length_pad. lia.
Qed.

Lemma js_and_ff a : js_and a 0xff = a mod 256.
Proof.
  Local Transparent js_and. unfold js_and. Local Opaque js_and.
  change (ToInt32 255) with 0xff. rewrite land_ff, <- (Z.mod_mod (ToInt32 a)) by lia.
  unfold ToInt32, ToUint32. destruct (_ <? _).
  - rewrite Z.mod_mod by lia. symmetry. rewrite <- Znumtheory.Zmod_div_mod; try lia. by exists (2 ^ 24).
  - rewrite Z.mod_mod, Zminus_mod by lia. change (2 ^ 32 mod 256) with 0. rewrite Z.sub_0_r, Z.mod_mod by lia.
    rewrite <- Znumtheory.Zmod_div_mod; try lia. by exists (2 ^ 24).
Qed.

Lemma js_shru_div a n : u32ok a -> 0 <= n -> js_shru a n = a / 2 ^ n.
Proof.
  intros. Local Transparent js_shru. unfold js_shru. Local Opaque js_shru.
  by rewrite ToUint32_small, Z.shiftr_div_pow2.
Qed.

Lemma lane_low_byte h l a b : 0 < a -> 0 < b -> a * (256 * b) = 2 ^ 32 ->
  (lane h l / a) mod 256 = (l / a) mod 256.
Proof.
  intros Ha Hb E. unfold lane. rewrite <- E.
  replace (h * (a * (256 * b)) + l) with (l + (h * (256 * b)) * a) by ring.
  rewrite Z.div_add by lia. replace (h * (256 * b)) with ((h * b) * 256) by ring.
  by rewrite Z.mod_add.
Qed.

Lemma lane_high_part h l a : u32ok l -> 0 < a -> lane h l / (256 * 256 * 256 * 256 * a) = h / a.
Proof.
  intros Hl Ha. unfold lane, u32ok in *. rewrite <- Z.div_div by lia.
  change (256 * 256 * 256 * 256) with (2 ^ 32). rewrite Z.div_add_l, (Z.div_small l), Z.add_0_r by lia. done.
Qed.

Lemma squeeze_lane_spec s i : kok s -> (i < 25)%nat ->
  Code.squeeze_lane s i = Spec.le_bytes 8 (u32 (join s) i).
Proof.
  intros Hs Hi. rewrite u32_join by done. unfold Code.squeeze_lane.
  assert (Hh : u32ok (u32 (Code.stateHi s) i)) by auto. assert (Hl : u32ok (u32 (Code.stateLo s) i)) by auto.
  rewrite !js_and_ff, !js_shru_div by (done || lia). cbn [Spec.le_bytes].
  revert Hh Hl. generalize (u32 (Code.stateHi s) i) (u32 (Code.stateLo s) i). intros h l Hh Hl.
  unfold u32ok in *. rewrite !Z.div_div by lia.
  repeat (apply (f_equal2 (@cons Z))); try done.
  - rewrite <- (Z.div_1_r (lane h l)), (lane_low_byte h l 1 (2 ^ 24)), Z.div_1_r by lia. done.
  - by rewrite (lane_low_byte h l 256 (2 ^ 16)).
  - by rewrite (lane_low_byte h l (256 * 256) (2 ^ 8)).
  - by rewrite (lane_low_byte h l (256 * 256 * 256) 1).
  - rewrite <- (Z.mul_1_r (256 * 256 * 256 * 256)), lane_high_part, Z.div_1_r by (done || lia). done.
  - by rewrite lane_high_part.
  - rewrite <- (Z.mul_assoc _ 256 256), lane_high_part by (done || lia). done.
  - rewrite <- (Z.mul_assoc _ 256 256), <- (Z.mul_assoc _ 256 (256 * 256)), lane_high_part by (done || lia). done.
Qed.

(** C2. The source's Keccak-256, on half-word arrays with its tables, is
    Keccak[c=512] with 0x01 padding over 64-bit lanes, on every byte string. *)
Theorem keccak256_refines (data : bytes) :
  bytes_ok data -> Code.keccak256 data = Spec.fips_keccak256 data.
Proof.
  intros Hok. unfold Code.keccak256, Spec.fips_keccak256.
  pose proof (absorb_loop_spec data Hok (length data / 136) (length data)
    (Code.mkK (zeros 25) (zeros 25)) 0 kok_zeros) as L.
  destruct (Code.absorb_loop _ _ _ _) as [s off].
  destruct L as (L1 & -> & L3); [lia|by rewrite Nat.sub_0_r|apply Nat.Div0.div_le_upper_bound; lia|].
  rewrite Nat.add_0_l.
  assert (Hm : (length data / 136 * 136 <= length data)%nat) by (pose proof (Nat.div_mod_eq (length data) 136); lia).
  assert (Hlt : (length data - length data / 136 * 136 < 136)%nat).
  { pose proof (Nat.div_mod_eq (length data) 136). pose proof (Nat.mod_upper_bound (length data) 136). lia. }
  rewrite last_block_spec by (done || apply Nat.Div0.mod_mul).
  set (lastb := drop _ data ++ _).
  assert (Hb : length lastb = 136%nat).
  { unfold lastb. rewrite length_app, length_drop, length_pad.
    pose proof (Nat.div_mod_eq (length data) 136). pose proof (Nat.mod_upper_bound (length data) 136). lia. }
  assert (Hbok : bytes_ok lastb) by (apply Forall_app; split; [by apply Forall_drop|apply pad_ok]).
  destruct (absorb_refines s lastb 0 L1 Hbok ltac:(lia)) as [K1 K2].
  destruct (keccakF_refines _ K1) as [K3 K4]. revert K3 K4.
  generalize (Code.keccakF1600 (Code.absorbBlock s lastb 0 Code.rate)). intros sf K3 K4.
  rewrite blocks_pad, fold_left_app. fold lastb. cbn [fold_left].
  unfold step_block in L3. change (join (Code.mkK (zeros 25) (zeros 25))) with (zeros 25) in L3.
  cbn [Nat.add] in L3. rewrite <- L3.
  replace (u8_slice lastb 0 136) with lastb in K2 by (unfold u8_slice; rewrite drop_0, take_ge by lia; done).
  rewrite <- K2, <- K4.
  assert (Hj : length (join sf) = 25%nat).
  { unfold join. rewrite length_zip_with, (kok_hi_len _ K3), (kok_lo_len _ K3). done. }
  destruct (join sf) as [|a [|b [|c [|d tl]]]] eqn:E; try discriminate Hj.
  cbn [seq mbind list_bind take]. rewrite !squeeze_lane_spec, E by (exact K3 || lia). done.
Qed.

Lemma keccak256_refines_witness :
  Code.keccak256 [99; 111; 114; 101] = Spec.fips_keccak256 [99; 111; 114; 101].
Proof. apply (keccak256_refines [99; 111; 114; 101]). repeat (constructor; [done|]). constructor. Defined.

(** Keccak-256 of the empty string. *)
Example keccak256_empty :
  Code.keccak256 [] =
  [0xc5; 0xd2; 0x46; 0x01; 0x86; 0xf7; 0x23; 0x3c; 0x92; 0x7e; 0x7d; 0xb2; 0xdc; 0xc7; 0x03; 0xc0;
   0xe5; 0x00; 0xb6; 0x53; 0xca; 0x82; 0x27; 0x3b; 0x7b; 0xfa; 0xd8; 0x04; 0x5d; 0x85; 0xa4; 0x70].
Proof. vm_compute. reflexivity. Qed.

(** ** What the rest of the program relies on: a hash to 32 bytes. *)
Class Hasher := {
  keccak256 : bytes -> bytes;
  length_keccak256 data : length (keccak256 data) = 32%nat;
  keccak256_ok data : bytes_ok (keccak256 data)
}.

Lemma Code_keccak256_length data : length (Code.keccak256 data) = 32%nat.
Proof. unfold Code.keccak256. by destruct (Code.absorb_loop _ _ _ _). Qed.

Lemma squeeze_lane_ok s i : bytes_ok (Code.squeeze_lane s i).
Proof.
  unfold Code.squeeze_lane. rewrite !js_and_ff.
  repeat (constructor; [apply Z.mod_pos_bound; lia|]). constructor.
Qed.

Lemma Code_keccak256_ok data : bytes_ok (Code.keccak256 data).
Proof.
  unfold Code.keccak256. destruct (Code.absorb_loop _ _ _ _). cbn [seq mbind list_bind].
  repeat (apply Forall_app; split; [apply squeeze_lane_ok|]). constructor.
Qed.

#[export] Instance keccak_hasher : Hasher := {|
  keccak256 := Code.keccak256;
  length_keccak256 := Code_keccak256_length;
  keccak256_ok := Code_keccak256_ok
|}.
