(* ===== verification/Merkle.v ===== *)
(** * Merkleization of the state (packages/coretex/src/state/merkle.ts)

    [buildMerkleCache] hashes the 1024 words into leaves and pairs them up
    to the root, keeping every level; [updateMerkleCache] recomputes only
    the paths above changed words. Both are stated over the [Hasher]
    interface, so they hold for any hash to 32 bytes; [keccak_hasher] is the
    production one. Shown here: the incremental update builds the same cache
    as a rebuild from the updated words, and the root binds the words up to
    a hash collision between two of the inputs actually hashed. *)
From S2P Require Import Prelude StateTypes Codec Keccak.

Record MerkleTreeCache := mkCache { levels : list (list bytes); root : bytes }.

Record MerkleWordUpdate := mkUpdate { upd_index : Z; upd_word : Z }.

Section WithHasher.
Context {HK : Hasher}.

(** [level[i]!] *)
Definition node (level : list bytes) (i : nat) : bytes := default [] (level !! i).

(** [writeBigEndian32(wordBuf, 0, word); keccak256(wordBuf)] *)
Definition leaf_hash (word : Z) : bytes := keccak256 (writeBigEndian32 (zeros 32) 0 word).

(** [pairBuf.set(left, 0); pairBuf.set(right, 32)] *)
Definition pair_buf (left right : bytes) : bytes := u8_set (u8_set (zeros 64) 0 left) 32 right.

Definition next_level (level : list bytes) : list bytes :=
  map (fun i => keccak256 (pair_buf (node level (i * 2)) (node level (i * 2 + 1))))
    (seq 0 (length level / 2)).

(** The loop [while (level.length > 1)]; the level halves, so its length is fuel. *)
Fixpoint build_loop (fuel : nat) (level : list bytes) (acc : list (list bytes))
  : list bytes * list (list bytes) :=
  match fuel with
  | O => (level, acc)
  | S fuel =>
    if (1 <? length level)%nat
    then let level' := next_level level in build_loop fuel level' (acc ++ [level'])
    else (level, acc)
  end.

Definition buildMerkleCache (state : CortexState) : outcome MerkleTreeCache :=
  _ ← throw_if (negb (Z.of_nat (length (words state)) =? RANGES.WORD_COUNT))
        (TypeError "buildMerkleCache: expected 1024 words");
  let level0 := map leaf_hash (words state) in
  let '(level, lvls) := build_loop (length level0) level0 [level0] in
  Returns (mkCache lvls (node level 0)).

Definition merkleizeState (state : CortexState) : outcome bytes :=
  c ← buildMerkleCache state; Returns (root c).

(** The loop over [updates]: range check, last write per index wins. *)
Fixpoint dedupe (updates : list MerkleWordUpdate) (m : list (nat * Z)) : outcome (list (nat * Z)) :=
  match updates with
  | [] => Returns m
  | u :: rest =>
    if (upd_index u <? 0) || (upd_index u >=? RANGES.WORD_COUNT)
    then Throws (RangeError "updateMerkleCache: index out of range")
    else dedupe rest (jsmap_set (Z.to_nat (upd_index u)) (upd_word u) m)
  end.

Definition write_leaf (level0 : list bytes) (u : nat * Z) : list bytes :=
  <[u.1 := leaf_hash u.2]> level0.

(** [parents.add(childIndex >> 1)] for every dirty child. *)
Definition parents_of (dirty : list nat) : list nat :=
  fold_left (fun ps c => jsset_add (Nat.div2 c) ps) dirty [].

Definition refresh (current next : list bytes) (parents : list nat) : list bytes :=
  fold_left (fun nxt p => <[p := keccak256 (pair_buf (node current (p * 2)) (node current (p * 2 + 1)))]> nxt)
    parents next.

(** The loop over depths, from the changed [current] level up. *)
Fixpoint propagate (current : list bytes) (dirty : list nat) (above : list (list bytes))
  : list (list bytes) :=
  match above with
  | [] => [current]
  | next :: above' =>
    let parents := parents_of dirty in
    current :: propagate (refresh current next parents) parents above'
  end.

Definition updateMerkleCache (cache : MerkleTreeCache) (updates : list MerkleWordUpdate)
  : outcome MerkleTreeCache :=
  match levels cache with
  | level0 :: above =>
    if negb (length (levels cache) =? 11)%nat || negb (Z.of_nat (length level0) =? RANGES.WORD_COUNT)
    then Throws (TypeError "updateMerkleCache: invalid cache shape")
    else match updates with
         | [] => Returns cache
         | _ =>
           deduped ← dedupe updates [];
           let level0' := fold_left write_leaf deduped level0 in
           let dirty := fold_left (fun s u => jsset_add u.1 s) deduped [] in
           let lvls := propagate level0' dirty above in
           Returns (mkCache lvls (node (default [] (last lvls)) 0))
         end
  | [] => Throws (TypeError "updateMerkleCache: invalid cache shape")
  end.

(** ** The tree as iterated pairing. *)
Fixpoint tree (n : nat) (level : list bytes) : list (list bytes) :=
  match n with
  | O => [level]
  | S n' => level :: tree n' (next_level level)
  end.

Lemma tree_cons n l : tree n l = l :: tail (tree n l).
Proof. destruct n; reflexivity. Qed.

Lemma length_next_level l : length (next_level l) = (length l / 2)%nat.
Proof. unfold next_level. by rewrite length_map, length_seq. Qed.

Lemma build_loop_tree n fuel level acc : length level = (2 ^ n)%nat -> (n <= fuel)%nat ->
  build_loop fuel level (acc ++ [level])
  = (default [] (last (tree n level)), acc ++ tree n level).
Proof.
  revert fuel level acc; induction n as [|n IH]; intros fuel level acc Hl Hf.
  - destruct fuel; cbn [build_loop tree]; [done|]. by rewrite Hl.
  - destruct fuel as [|fuel]; [lia|]. cbn [build_loop].
    assert (Hp : (2 ^ n <> 0)%nat) by (apply Nat.pow_nonzero; lia).
    rewrite Hl, (proj2 (Nat.ltb_lt _ _)) by (cbn [Nat.pow]; lia).
    rewrite (IH fuel (next_level level) (acc ++ [level])), <- app_assoc; [|rewrite length_next_level, Hl; cbn [Nat.pow]; rewrite Nat.mul_comm; apply Nat.div_mul; lia|lia].
    cbn [tree app]. f_equal. by destruct (tree n (next_level level)) eqn:E; [destruct n|].
Qed.

Definition leaves (s : CortexState) : list bytes := map leaf_hash (words s).

Definition cache_of (s : CortexState) : MerkleTreeCache :=
  mkCache (tree 10 (leaves s)) (node (default [] (last (tree 10 (leaves s)))) 0).

Lemma pow2_10 : WORD_COUNT_NAT = (2 ^ 10)%nat.
Proof. unfold WORD_COUNT_NAT, RANGES.WORD_COUNT. change (2 ^ 10)%nat with (Z.to_nat 1024). done. Qed.

Lemma buildMerkleCache_returns s :
  length (words s) = WORD_COUNT_NAT -> buildMerkleCache s = Returns (cache_of s).
Proof.
  intros Hl. unfold buildMerkleCache.
  rewrite Hl, WORD_COUNT_NAT_Z. cbn [Z.eqb RANGES.WORD_COUNT Pos.eqb negb throw_if mbind outcome_bind].
  fold (leaves s).
  assert (Hl' : length (leaves s) = (2 ^ 10)%nat) by (unfold leaves; by rewrite length_map, Hl, pow2_10).
  pose proof (build_loop_tree 10 (length (leaves s)) (leaves s) [] Hl') as B.
  cbn [app] in B. rewrite B; [done|]. rewrite Hl', <- pow2_10. unfold WORD_COUNT_NAT, RANGES.WORD_COUNT. lia.
Qed.

Lemma buildMerkleCache_inv s c : buildMerkleCache s = Returns c ->
  length (words s) = WORD_COUNT_NAT /\ c = cache_of s.
Proof.
  intros H. assert (Hl : length (words s) = WORD_COUNT_NAT).
  { unfold buildMerkleCache in H. inv_outcome. bool_hyps. unfold WORD_COUNT_NAT. lia. }
  split; [done|]. rewrite buildMerkleCache_returns in H by done. by inv_outcome.
Qed.

Lemma merkleizeState_returns s :
  length (words s) = WORD_COUNT_NAT -> merkleizeState s = Returns (root (cache_of s)).
Proof. intros. unfold merkleizeState. by rewrite buildMerkleCache_returns. Qed.

(** ** Incremental update. *)

(** [next_level] read at one position. *)
Lemma next_level_lookup l p : (p < length l / 2)%nat ->
  next_level l !! p = Some (keccak256 (pair_buf (node l (p * 2)) (node l (p * 2 + 1)))).
Proof. intros. unfold next_level. by rewrite lookup_map_seq. Qed.

Lemma refresh_lookup cur nxt ps p :
  refresh cur nxt ps !! p =
    if decide (p ∈ ps /\ (p < length nxt)%nat)
    then Some (keccak256 (pair_buf (node cur (p * 2)) (node cur (p * 2 + 1)))) else nxt !! p.
Proof.
  unfold refresh. revert nxt. induction ps as [|q ps IH]; intros nxt; cbn [fold_left].
  - rewrite decide_False; [done|]. set_solver.
  - rewrite IH, length_insert. destruct (decide (p ∈ ps /\ _)) as [[H1 H2]|Hn].
    + rewrite decide_True by set_solver. done.
    + rewrite list_lookup_insert. destruct (decide (q = p /\ _)) as [[-> Hq]|Hn'].
      * rewrite decide_True by set_solver. done.
      * rewrite decide_False; [done|]. set_solver.
Qed.

Lemma elem_of_parents dirty p : p ∈ parents_of dirty <-> exists c, c ∈ dirty /\ p = Nat.div2 c.
Proof.
  unfold parents_of. enough (forall ps, p ∈ fold_left (fun ps c => jsset_add (Nat.div2 c) ps) dirty ps
    <-> p ∈ ps \/ exists c, c ∈ dirty /\ p = Nat.div2 c) as H by (rewrite H; set_solver).
  induction dirty as [|c dirty IH]; intros ps; cbn [fold_left]; [set_solver|].
  rewrite IH, elem_of_jsset_add. set_solver.
Qed.

(** Refreshing the parents of the changed nodes restores the next level. *)
Lemma refresh_next_level old cur dirty :
  length cur = length old ->
  (forall i, i ∉ dirty -> cur !! i = old !! i) ->
  refresh cur (next_level old) (parents_of dirty) = next_level cur.
Proof.
  intros Hl Hd. apply list_eq. intros p. rewrite refresh_lookup, length_next_level.
  destruct (decide (p < length old / 2)%nat) as [Hp|Hp].
  - rewrite (next_level_lookup cur) by (by rewrite Hl).
    destruct (decide (p ∈ parents_of dirty)) as [Hin|Hin].
    + by rewrite decide_True by done.
    + rewrite decide_False, next_level_lookup by tauto.
      rewrite elem_of_parents in Hin.
      assert (Hc : forall c, Nat.div2 c = p -> node cur c = node old c).
      { intros c Hc. unfold node. rewrite Hd; [done|]. intros Hcd. apply Hin. by exists c. }
      rewrite !Hc; [done| |]; [replace (p * 2 + 1)%nat with (S (2 * p)) by lia; apply Nat.div2_succ_double|replace (p * 2)%nat with (2 * p)%nat by lia; apply Nat.div2_double].
  - rewrite decide_False by tauto.
    rewrite (lookup_ge_None_2 (next_level old)), (lookup_ge_None_2 (next_level cur))
      by (rewrite length_next_level, ?Hl; lia). done.
Qed.

Lemma refresh_changed old cur dirty i :
  length cur = length old ->
  (forall i, i ∉ dirty -> cur !! i = old !! i) ->
  i ∉ parents_of dirty -> next_level cur !! i = next_level old !! i.
Proof.
  intros Hl Hd Hi. rewrite <- (refresh_next_level old cur dirty) by done.
  rewrite refresh_lookup, decide_False by tauto. done.
Qed.

Lemma propagate_tree n old cur dirty :
  length cur = length old ->
  (forall i, i ∉ dirty -> cur !! i = old !! i) ->
  propagate cur dirty (tail (tree n old)) = tree n cur.
Proof.
  revert old cur dirty; induction n as [|n IH]; intros old cur dirty Hl Hd; [done|].
  cbn [tree tail]. rewrite (tree_cons n (next_level old)). cbn [propagate]. rewrite refresh_next_level by done. f_equal. apply IH.
  - by rewrite !length_next_level, Hl.
  - intros i Hi. by eapply refresh_changed.
Qed.

(** The state after the updates, in order. *)
Definition apply_updates (ups : list MerkleWordUpdate) (ws : list Z) : list Z :=
  fold_left (fun ws u => <[Z.to_nat (upd_index u) := upd_word u]> ws) ups ws.

Definition update_in_range (u : MerkleWordUpdate) : Prop := 0 <= upd_index u < RANGES.WORD_COUNT.

Lemma dedupe_returns ups m : Forall update_in_range ups ->
  dedupe ups m = Returns (fold_left (fun m u => jsmap_set (Z.to_nat (upd_index u)) (upd_word u) m) ups m).
Proof.
  intros H. revert m. induction H as [|u ups Hu _ IH]; intros m; [done|]. cbn [dedupe fold_left].
  unfold update_in_range, RANGES.WORD_COUNT in *.
  rewrite (proj2 (Z.ltb_ge _ _)), Z.geb_leb, (proj2 (Z.leb_gt _ _)) by lia. apply IH.
Qed.

Definition dedup_map (ups : list MerkleWordUpdate) (m : list (nat * Z)) : list (nat * Z) :=
  fold_left (fun m u => jsmap_set (Z.to_nat (upd_index u)) (upd_word u) m) ups m.

Lemma dedup_map_NoDup ups m : NoDup m.*1 -> NoDup (dedup_map ups m).*1.
Proof. revert m. induction ups as [|u ups IH]; intros m H; [done|]. apply IH, jsmap_set_NoDup, H. Qed.

(** Writing the entries of a key-unique map into a list. *)
Lemma write_entries {A} (f : Z -> A) (m : list (nat * Z)) (l : list A) i : NoDup m.*1 ->
  fold_left (fun l u => <[u.1 := f u.2]> l) m l !! i =
    match jsmap_get i m with
    | Some w => if decide (i < length l)%nat then Some (f w) else None
    | None => l !! i
    end.
Proof.
  revert l. induction m as [|[k w] m IH]; intros l Hnd; [done|]. cbn [fold_left fst snd jsmap_get].
  csimpl in Hnd. apply NoDup_cons in Hnd as [Hni Hnd]. rewrite IH, length_insert by done.
  destruct (decide (i = k)) as [E|E].
  - subst k. destruct (jsmap_get i m) as [w'|] eqn:G.
    + exfalso. apply Hni. apply jsmap_get_elem in G; [|done]. apply list_elem_of_fmap. by exists (i, w').
    + case_decide; [by rewrite list_lookup_insert_eq|]. rewrite list_insert_ge by lia. apply lookup_ge_None_2. lia.
  - destruct (jsmap_get i m); [done|]. by rewrite list_lookup_insert_ne by done.
Qed.

Lemma apply_updates_lookup ups ws m i : NoDup m.*1 ->
  match jsmap_get i (dedup_map ups m) with
  | Some w => if decide (i < length ws)%nat then Some w else None
  | None => ws !! i
  end = apply_updates ups (fold_left (fun l u => <[u.1 := u.2]> l) m ws) !! i.
Proof.
  revert m. induction ups as [|u ups IH]; intros m Hm.
  - symmetry. apply (write_entries (fun w => w)), Hm.
  - cbn [dedup_map fold_left apply_updates]. unfold dedup_map in IH.
    rewrite IH by (by apply jsmap_set_NoDup). unfold apply_updates. do 2 f_equal.
    apply list_eq. intros j.
    rewrite (write_entries (fun w => w)) by (by apply jsmap_set_NoDup).
    rewrite jsmap_get_set. rewrite list_lookup_insert, (write_entries (fun w => w)) by done.
    assert (Hlen : length (fold_left (λ (l : list Z) (u0 : nat * Z), <[u0.1:=u0.2]> l) m ws) = length ws).
    { clear. revert ws. induction m as [|x m IHm]; intros ws; [done|]. cbn [fold_left]. by rewrite IHm, length_insert. }
    rewrite Hlen. destruct (decide (j = Z.to_nat (upd_index u))) as [->|Hne].
    + destruct (decide (Z.to_nat (upd_index u) < length ws)%nat).
      * by rewrite decide_True by done.
      * rewrite decide_False by tauto. destruct (jsmap_get _ m); [done|]. symmetry. apply lookup_ge_None_2. lia.
    + rewrite decide_False by naive_solver. done.
Qed.

Lemma dedup_lookup ups ws i :
  match jsmap_get i (dedup_map ups []) with
  | Some w => if decide (i < length ws)%nat then Some w else None
  | None => ws !! i
  end = apply_updates ups ws !! i.
Proof. apply (apply_updates_lookup ups ws []). constructor. Qed.

Lemma length_apply_updates ups ws : length (apply_updates ups ws) = length ws.
Proof.
  unfold apply_updates. revert ws. induction ups as [|u ups IH]; intros ws; [done|].
  cbn [fold_left]. by rewrite IH, length_insert.
Qed.

(** The rewritten leaf level is the leaf level of the updated words. *)
Lemma write_leaves ups s :
  fold_left write_leaf (dedup_map ups []) (leaves s) = leaves (mkState (apply_updates ups (words s))).
Proof.
  apply list_eq. intros i. unfold write_leaf, leaves. cbn [words].
  rewrite (write_entries leaf_hash) by (apply dedup_map_NoDup; constructor).
  change (map leaf_hash) with (fmap (M:=list) leaf_hash).
  rewrite !list_lookup_fmap, <- dedup_lookup, length_fmap.
  destruct (jsmap_get i _); [|done]. by case_decide.
Qed.

Lemma elem_of_dirty (m : list (nat * Z)) i :
  i ∈ fold_left (fun s u => jsset_add u.1 s) m [] <-> i ∈ m.*1.
Proof.
  enough (forall ds, i ∈ fold_left (fun s (u : nat * Z) => jsset_add u.1 s) m ds <-> i ∈ ds \/ i ∈ m.*1) as H
    by (rewrite H; set_solver).
  induction m as [|[k w] m IH]; intros ds; csimpl; [set_solver|].
  rewrite IH, elem_of_jsset_add. set_solver.
Qed.

Lemma updateMerkleCache_cache_of s ups :
  length (words s) = WORD_COUNT_NAT -> Forall update_in_range ups ->
  updateMerkleCache (cache_of s) ups = Returns (cache_of (mkState (apply_updates ups (words s)))).
Proof.
  intros Hl Hr. unfold updateMerkleCache, cache_of at 1. cbn [levels tree].
  rewrite (proj2 (Z.eqb_eq _ _)) by (unfold leaves; rewrite length_map, Hl, WORD_COUNT_NAT_Z; done).
  cbn [length Nat.eqb negb orb].
  destruct ups as [|u ups']; [by destruct s|]. set (ups := u :: ups') in *.
  rewrite dedupe_returns by done. fold (dedup_map ups []). cbn [mbind outcome_bind].
  rewrite write_leaves. set (s' := mkState _).
  change (next_level (leaves s) :: ?t) with (tail (tree 10 (leaves s))).
  rewrite propagate_tree; [done| |].
  - unfold leaves, s'; cbn [words]. by rewrite !length_map, length_apply_updates.
  - intros i Hi. rewrite elem_of_dirty in Hi.
    unfold leaves, s'; cbn [words]. change (map leaf_hash) with (fmap (M:=list) leaf_hash).
    rewrite !list_lookup_fmap, <- dedup_lookup.
    destruct (jsmap_get i _) as [w|] eqn:G; [|done]. exfalso. apply Hi.
    apply jsmap_get_elem in G; [|apply dedup_map_NoDup; constructor].
    apply list_elem_of_fmap. by exists (i, w).
Qed.

(** C3. The incremental Merkle update computes exactly the cache (all eleven
    levels and the root) that a full rebuild from the updated words computes,
    for any sequence of in-range updates, repeated indices included. *)
Theorem updateMerkleCache_correct (s : CortexState) (ups : list MerkleWordUpdate) :
  length (words s) = WORD_COUNT_NAT -> Forall update_in_range ups ->
  (c ← buildMerkleCache s; updateMerkleCache c ups)
  = buildMerkleCache (mkState (apply_updates ups (words s))).
Proof.
  intros Hl Hr. rewrite !buildMerkleCache_returns by (cbn [words]; by rewrite ?length_apply_updates).
  cbn [mbind outcome_bind]. by apply updateMerkleCache_cache_of.
Qed.

(** ** The root commits to the words. *)

(** Everything that is hashed to build one level from the one below. *)
Definition level_inputs (l : list bytes) : list bytes :=
  map (fun i => pair_buf (node l (i * 2)) (node l (i * 2 + 1))) (seq 0 (length l / 2)).

Fixpoint tree_inputs (n : nat) (level : list bytes) : list bytes :=
  match n with
  | O => []
  | S n' => level_inputs level ++ tree_inputs n' (next_level level)
  end.

(** Every byte string the merkleization of [s] hashes. *)
Definition hash_inputs (s : CortexState) : list bytes :=
  map (fun w => writeBigEndian32 (zeros 32) 0 w) (words s) ++ tree_inputs 10 (leaves s).

Definition collides (xs ys : list bytes) : Prop :=
  exists x y, x ∈ xs /\ y ∈ ys /\ x <> y /\ keccak256 x = keccak256 y.

(** Hashing two input lists pointwise to the same list: equal, or a collision. *)
Lemma map_hash_eq (xs ys : list bytes) :
  map keccak256 xs = map keccak256 ys -> xs = ys \/ collides xs ys.
Proof.
  revert ys; induction xs as [|x xs IH]; intros [|y ys] H; try discriminate H; [by left|].
  cbn [map] in H. injection H as H1 H2.
  destruct (decide (x = y)) as [->|Hne]; [|right; exists x, y; set_solver].
  destruct (IH ys H2) as [->|(a & b & ? & ? & ? & ?)]; [by left|]. right. exists a, b. set_solver.
Qed.

Lemma next_level_inputs l : next_level l = map keccak256 (level_inputs l).
Proof. unfold next_level, level_inputs. by rewrite map_map. Qed.

Definition level_ok (n : nat) (l : list bytes) : Prop :=
  length l = (2 ^ n)%nat /\ Forall (fun b => length b = 32%nat) l.

Lemma pair_buf_app a b : length a = 32%nat -> length b = 32%nat -> pair_buf a b = a ++ b.
Proof.
  intros Ha Hb. unfold pair_buf, u8_set. rewrite Ha, Hb.
  change (take 0 ?l) with (@nil Z). cbn [app Nat.add].
  rewrite take_app_le, take_ge by lia. rewrite drop_ge; [by rewrite app_nil_r|].
  rewrite length_app, Ha. unfold zeros. rewrite length_drop, length_replicate. lia.
Qed.

Lemma node_length n l i : level_ok n l -> (i < 2 ^ n)%nat -> length (node l i) = 32%nat.
Proof.
  intros [Hl Hf] Hi. unfold node. destruct (lookup_lt_is_Some_2 l i) as [b Hb]; [lia|].
  rewrite Hb. cbn [from_option id]. by eapply (Forall_lookup_1 (fun b => length b = 32%nat)).
Qed.

Lemma level_inputs_inj n l l' : level_ok (S n) l -> level_ok (S n) l' ->
  level_inputs l = level_inputs l' -> l = l'.
Proof.
  intros H H' E. pose proof H as [Hl _]. pose proof H' as [Hl' _].
  assert (Hh : (2 ^ S n / 2 = 2 ^ n)%nat) by (cbn [Nat.pow]; rewrite Nat.mul_comm; apply Nat.div_mul; lia).
  assert (Hn : forall i, (i < 2 ^ n)%nat ->
      node l (i * 2) = node l' (i * 2) /\ node l (i * 2 + 1) = node l' (i * 2 + 1)).
  { intros i Hi. apply (f_equal (lookup i)) in E. unfold level_inputs in E.
    rewrite Hl, Hl', Hh, !lookup_map_seq in E by done. injection E as E.
    assert (i * 2 + 1 < 2 ^ S n)%nat by (cbn [Nat.pow]; lia).
    rewrite !pair_buf_app in E by (eapply node_length; eauto; lia).
    apply app_inj_1 in E; [done|]. by rewrite !(node_length (S n)) by (done || lia). }
  apply list_eq. intros i. destruct (decide (i < 2 ^ S n)%nat) as [Hi|Hi].
  - assert (En : node l i = node l' i).
    { assert (Hd : (i / 2 < 2 ^ n)%nat) by (apply Nat.Div0.div_lt_upper_bound; cbn [Nat.pow] in Hi; lia).
      pose proof (Nat.div_mod_eq i 2) as Hm. pose proof (Nat.mod_upper_bound i 2).
      destruct (Hn (i / 2)%nat Hd) as [N0 N1].
      destruct (Nat.eq_dec (i mod 2) 0); [replace i with (i / 2 * 2)%nat by lia|replace i with (i / 2 * 2 + 1)%nat by lia]; done. }
    unfold node in En.
    destruct (lookup_lt_is_Some_2 l i) as [b Hb]; [lia|]. destruct (lookup_lt_is_Some_2 l' i) as [b' Hb']; [lia|].
    rewrite Hb, Hb' in *. cbn in En. congruence.
  - rewrite !lookup_ge_None_2 by lia. done.
Qed.

Lemma next_level_ok n l : level_ok (S n) l -> level_ok n (next_level l).
Proof.
  intros [Hl _]. split.
  - rewrite length_next_level, Hl. cbn [Nat.pow]. rewrite Nat.mul_comm. apply Nat.div_mul. lia.
  - unfold next_level. apply Forall_fmap, Forall_seq. intros; apply length_keccak256.
Qed.

Lemma collides_app_l xs ys xs' ys' : collides xs ys -> collides (xs ++ xs') (ys ++ ys').
Proof. intros (a & b & ? & ? & ? & ?). exists a, b. rewrite !elem_of_app. tauto. Qed.

Lemma collides_app_r xs ys xs' ys' : collides xs ys -> collides (xs' ++ xs) (ys' ++ ys).
Proof. intros (a & b & ? & ? & ? & ?). exists a, b. rewrite !elem_of_app. tauto. Qed.

Lemma tree_binding n l l' : level_ok n l -> level_ok n l' ->
  node (default [] (last (tree n l))) 0 = node (default [] (last (tree n l'))) 0 ->
  l = l' \/ collides (tree_inputs n l) (tree_inputs n l').
Proof.
  revert l l'; induction n as [|n IH]; intros l l' H H' E.
  - left. destruct H as [Hl _], H' as [Hl' _]. destruct l as [|a [|]], l' as [|b [|]]; try discriminate.
    cbn in E. congruence.
  - cbn [tree] in E.
    assert (El : forall x, last (x :: tree n (next_level x)) = last (tree n (next_level x)))
      by (intros x; destruct n; reflexivity).
    rewrite !El in E. apply IH in E; [|by apply next_level_ok..].
    cbn [tree_inputs]. destruct E as [E|C].
    + rewrite !next_level_inputs in E. apply map_hash_eq in E as [E|C].
      * left. by eapply level_inputs_inj.
      * right. by apply collides_app_l.
    + right. by apply collides_app_r.
Qed.

Lemma leaves_ok s : length (words s) = WORD_COUNT_NAT -> level_ok 10 (leaves s).
Proof.
  intros Hl. split; [unfold leaves; by rewrite length_map, Hl, pow2_10|].
  apply Forall_fmap, Forall_true. intros; apply length_keccak256.
Qed.

Lemma leaf_bytes_inj a b : uint256 a -> uint256 b ->
  writeBigEndian32 (zeros 32) 0 a = writeBigEndian32 (zeros 32) 0 b -> a = b.
Proof.
  intros Ha Hb. assert (Hz : length (zeros 32) = 32%nat) by done. revert Hz. generalize (zeros 32). intros z Hz.
  rewrite !writeBigEndian32_spec by lia. unfold u8_set. rewrite !length_be_bytes, drop_ge by lia.
  change (take 0 z) with (@nil Z). cbn [app]. rewrite !app_nil_r. by apply be_bytes_inj; apply uint256_be.
Qed.

(** Every node is a digest. *)
Lemma tree_bytes_ok n l : Forall bytes_ok l -> Forall bytes_ok (default [] (last (tree n l))).
Proof.
  revert l. induction n as [|n IH]; intros l H; [done|]. cbn [tree]. rewrite (tree_cons n (next_level l)), last_cons_cons, <- tree_cons.
  apply IH. unfold next_level. apply Forall_forall. intros x (i & -> & _)%list_elem_of_fmap. apply keccak256_ok.
Qed.

Lemma root_bytes_ok s : bytes_ok (root (cache_of s)).
Proof.
  unfold cache_of. cbn [root]. assert (H : Forall bytes_ok (default [] (last (tree 10 (leaves s))))).
  { apply tree_bytes_ok. unfold leaves. apply Forall_forall. intros x (w & -> & _)%list_elem_of_fmap. apply keccak256_ok. }
  revert H. generalize (default [] (last (tree 10 (leaves s)))). intros l H. unfold node. destruct l as [|b l]; [constructor|].
  by apply Forall_cons in H as [? _].
Qed.

Lemma root_length s : length (words s) = WORD_COUNT_NAT -> length (root (cache_of s)) = 32%nat.
Proof.
  intros Hl. pose proof (leaves_ok s Hl) as H0. unfold cache_of. cbn [root]. revert H0. generalize (leaves s).
  assert (H : forall n l, level_ok n l -> level_ok 0 (default [] (last (tree n l)))).
  { induction n as [|n IH]; intros l Hn; [exact Hn|]. cbn [tree]. rewrite (tree_cons n (next_level l)), last_cons_cons, <- tree_cons.
    apply IH. by apply next_level_ok. }
  intros l Hn. apply (node_length 0); [by apply H|cbn; lia].
Qed.

Lemma cache_root_binding s1 s2 : state_ok s1 -> state_ok s2 -> root (cache_of s1) = root (cache_of s2) ->
  s1 = s2 \/ collides (hash_inputs s1) (hash_inputs s2).
Proof.
  intros [L1 O1] [L2 O2] E.
  apply (tree_binding 10) in E; [|by apply leaves_ok..].
  destruct E as [E|C]; [|right; by apply collides_app_r].
  unfold leaves, leaf_hash in E. rewrite <- !(map_map (writeBigEndian32 (zeros 32) 0)) in E.
  apply map_hash_eq in E as [E|C]; [|right; by apply collides_app_l].
  left. apply (map_inj_on uint256) in E; [|apply leaf_bytes_inj|done..].
  destruct s1, s2. simpl in E. by subst.
Qed.

(** C33. The state root commits to the state: two well-formed states with the
    same root are equal, unless the hash collides on two of the very byte
    strings hashed while merkleizing them. *)
Theorem merkle_root_binding (s1 s2 : CortexState) :
  state_ok s1 -> state_ok s2 -> merkleizeState s1 = merkleizeState s2 ->
  s1 = s2 \/ collides (hash_inputs s1) (hash_inputs s2).
Proof.
  intros H1 H2 E. rewrite !merkleizeState_returns in E by (apply H1 || apply H2). apply Returns_inj in E. by apply cache_root_binding.
Qed.

End WithHasher.

Lemma updateMerkleCache_correct_witness :
  (c ← buildMerkleCache zero_state; updateMerkleCache c [mkUpdate 5 7; mkUpdate 5 9])
  = buildMerkleCache (mkState (apply_updates [mkUpdate 5 7; mkUpdate 5 9] (words zero_state))).
Proof.
  apply (updateMerkleCache_correct zero_state).
  - apply zero_state_ok.
  - repeat constructor; done.
Defined.

(** A degenerate hash, under which distinct states share their root. *)
Definition const_hasher : Hasher.
Proof.
  refine {| keccak256 := fun _ => zeros 32 |}; intros _.
  - reflexivity.
  - apply Forall_replicate. done.
Defined.

(** A hash that tells inputs of different lengths apart. *)
Definition length_hasher : Hasher.
Proof.
  refine {| keccak256 := fun x => be_bytes 32 (Z.of_nat (length x)) |}; intros data.
  - apply length_be_bytes.
  - apply be_bytes_ok.
Defined.

Lemma const_hasher_root s1 s2 : length (words s1) = length (words s2) ->
  merkleizeState (HK:=const_hasher) s1 = merkleizeState (HK:=const_hasher) s2.
Proof.
  intros Hl. unfold merkleizeState, buildMerkleCache. rewrite Hl.
  replace (map (leaf_hash (HK:=const_hasher)) (words s1)) with (map (leaf_hash (HK:=const_hasher)) (words s2)); [done|].
  change (map ?f) with (fmap (M:=list) f). by rewrite !(const_fmap _ _ (zeros 32)), Hl.
Qed.

Lemma merkle_root_binding_witness :
  let s := mkState (<[5%nat := 1]> (words zero_state)) in
  zero_state = s \/ collides (HK:=const_hasher) (hash_inputs (HK:=const_hasher) zero_state)
                                               (hash_inputs (HK:=const_hasher) s).
Proof.
  apply (merkle_root_binding (HK:=const_hasher) zero_state (mkState (<[5%nat := 1]> (words zero_state)))).
  - apply zero_state_ok.
  - destruct zero_state_ok as [H1 H2]. split; cbn [words]; [by rewrite length_insert|].
    apply Forall_insert; [done|]. unfold uint256; lia.
  - apply const_hasher_root. cbn [words]. by rewrite length_insert.
Defined.
