(* ===== verification/Abi.v ===== *)
(** * Event logs (shared by replay/coretex-registry.ts, replay/v4.ts, verify-epoch/index.ts)

    The readers the three decoders have in common: [BigInt] of a topic,
    32-byte words and [subarray] of log data, addresses out of topics. The
    encoder is the contract ABI the decoders expect; theorems in the other
    files are about logs it produces. *)
From Stdlib Require Import Ascii Bool.
From S2P Require Import Prelude StateTypes Codec Keccak Merkle.

Record RpcLog := mkLog {
  address : option string;
  topics : list string;
  data : string;
  blockNumber : option string;
  transactionHash : option string;
  logIndex : option string
}.

(** ** [BigInt(s)] *)
Fixpoint drop_space (l : list ascii) : list ascii :=
  match l with
  | c :: l' => if is_js_space c then drop_space l' else l
  | [] => []
  end.
Definition trim (l : list ascii) : list ascii := rev (drop_space (rev (drop_space l))).

(** A non-empty run of digits of the base, the whole of the text. *)
Fixpoint digits_acc (base acc : Z) (l : list ascii) : option Z :=
  match l with
  | [] => Some acc
  | c :: l' => match hex_value c with
    | Some d => if d <? base then digits_acc base (acc * base + d) l' else None
    | None => None
    end
  end.
Definition digits (base : Z) (l : list ascii) : option Z := match l with [] => None | _ => digits_acc base 0 l end.

Definition StringToBigInt (l : list ascii) : option Z :=
  match l with
  | [] => Some 0
  | "0" :: "x" :: l' | "0" :: "X" :: l' => digits 16 l'
  | "0" :: "o" :: l' | "0" :: "O" :: l' => digits 8 l'
  | "0" :: "b" :: l' | "0" :: "B" :: l' => digits 2 l'
  | "-" :: l' => Z.opp <$> digits 10 l'
  | "+" :: l' => digits 10 l'
  | _ => digits 10 l
  end%char.

Definition js_BigInt (s : string) : outcome Z :=
  match StringToBigInt (trim (String.list_ascii_of_string s)) with
  | Some v => Returns v
  | None => Throws (GenericError "SyntaxError")
  end.

(** [BigInt(topic ?? '0x0')] *)
Definition topicBig (t : option string) : outcome Z := js_BigInt (default "0x0"%string t).

(** [s.slice(-n)] *)
Definition slice_last (n : nat) (s : string) : string := let k := String.length s in String.substring (k - n) n s.

(** The last 40 characters, lower case. *)
Definition topicAddr (t : option string) : string :=
  String.append "0x" (toLowerCase (slice_last 40 (strip_0x (default (bytesToHex (zeros 32)) t)))).

(** ** Words of the data *)
(** [data[i] ?? 0] *)
Definition u8_at (d : bytes) (i : Z) : Z :=
  if (0 <=? i) && (i <? Z.of_nat (length d)) then default 0 (d !! Z.to_nat i) else 0.

(** The 32-byte big-endian word at a byte offset; bytes past the end read as 0. *)
Definition readWord (d : bytes) (offset : Z) : Z :=
  fold_left (fun value j => Z.lor (Z.shiftl value 8) (u8_at d (offset + Z.of_nat j))) (seq 0 32) 0.

(** [data.subarray(start, start + len)], which clamps to the end; [start] and [len] are not negative. *)
Definition subarray (d : bytes) (start len : Z) : bytes :=
  let n := Z.of_nat (length d) in
  take (Z.to_nat (Z.min len n)) (drop (Z.to_nat (Z.min start n)) d).

(** [(a ?? '').toLowerCase() === b.toLowerCase()] *)
Definition eqHex (a : option string) (b : string) : bool := String.eqb (toLowerCase (default ""%string a)) (toLowerCase b).

(** ** The contract side *)
(** A dynamic [bytes] argument: its length and its bytes padded to words. *)
Definition abi_bytes (bs : bytes) : bytes := be_bytes 32 (Z.of_nat (length bs)) ++ bs ++ zeros ((32 - length bs mod 32) mod 32).
Definition abi_topic (v : Z) : string := bytesToHex (be_bytes 32 v).
Definition abi_word_ok (w : bytes) : Prop := length w = 32%nat /\ bytes_ok w.

(** ** Facts *)
Lemma eqHex_refl s : eqHex (Some s) s = true.
Proof. apply String.eqb_refl. Qed.

Lemma eqHex_spec a b : eqHex (Some a) b = true <-> toLowerCase a = toLowerCase b.
Proof. apply String.eqb_eq. Qed.

Lemma hex_value_digit v : 0 <= v < 16 -> hex_value (hex_digit v) = Some v.
Proof.
  intros Hv. assert (v = 0 \/ v = 1 \/ v = 2 \/ v = 3 \/ v = 4 \/ v = 5 \/ v = 6 \/ v = 7 \/ v = 8 \/ v = 9 \/ v = 10 \/ v = 11
    \/ v = 12 \/ v = 13 \/ v = 14 \/ v = 15) as H by lia. repeat destruct H as [->|H]; try subst; reflexivity.
Qed.

Lemma digits_acc_hex acc bs : bytes_ok bs -> digits_acc 16 acc (bs ≫= byte_hex) = Some (acc * 256 ^ Z.of_nat (length bs) + be_value bs).
Proof.
  intros H. revert acc. induction H as [|b bs Hb _ IH]; intros acc; [cbn; f_equal; lia|].
  unfold byte_ok in Hb. rewrite bind_cons. unfold byte_hex at 1. cbn [app digits_acc].
  rewrite !hex_value_digit by (first [apply Z.mod_pos_bound; lia|split; [apply Z.div_pos; lia|apply Z.div_lt_upper_bound; lia]]).
  rewrite (proj2 (Z.ltb_lt (b / 16) 16)) by (apply Z.div_lt_upper_bound; lia). rewrite (proj2 (Z.ltb_lt (b mod 16) 16)) by (apply Z.mod_pos_bound; lia).
  rewrite IH. cbn [length]. rewrite Nat2Z.inj_succ, Z.pow_succ_r by lia. f_equal.
  replace (be_value (b :: bs)) with (b * 256 ^ Z.of_nat (length bs) + be_value bs).
  - pose proof (Z.div_mod b 16 ltac:(lia)). nia.
  - clear. induction bs as [|x bs IHb] using rev_ind; [cbn; lia|].
    change (b :: bs ++ [x]) with ((b :: bs) ++ [x]). rewrite !be_value_snoc, <- IHb, length_app. cbn [length].
    rewrite Nat2Z.inj_add, Z.pow_add_r by lia. change (256 ^ Z.of_nat 1) with 256. lia.
Qed.

Lemma drop_space_head c l : is_js_space c = false -> drop_space (c :: l) = c :: l.
Proof. intros H. cbn. by rewrite H. Qed.

Lemma hex_digit_not_space v : is_js_space (hex_digit v) = false.
Proof. unfold hex_digit. destruct v as [|p|p]; [reflexivity| |reflexivity]. do 4 (try (destruct p; try reflexivity)). Qed.

Lemma trim_hex bs : trim ("0"%char :: "x"%char :: (bs ≫= byte_hex)) = "0"%char :: "x"%char :: (bs ≫= byte_hex).
Proof.
  unfold trim. rewrite drop_space_head by done. rewrite <- (rev_involutive ("0"%char :: _)) at 2. f_equal.
  destruct bs as [|b bs _] using rev_ind; [reflexivity|]. rewrite bind_app. cbn [mbind list_bind]. rewrite app_nil_r. unfold byte_hex at 2 4.
  cbn [rev]. rewrite rev_app_distr. cbn [rev app]. apply drop_space_head, hex_digit_not_space.
Qed.

Lemma js_BigInt_hex bs : bytes_ok bs -> bs <> [] -> js_BigInt (bytesToHex bs) = Returns (be_value bs).
Proof.
  intros Hok Hn. unfold js_BigInt, bytesToHex, bytesToBareHex. change (String.list_ascii_of_string (String.append "0x" ?t)) with ("0"%char :: "x"%char :: String.list_ascii_of_string t).
  rewrite String.list_ascii_of_string_of_list_ascii, trim_hex. cbn [StringToBigInt].
  unfold digits. destruct bs as [|b bs]; [done|]. destruct ((b :: bs) ≫= byte_hex) eqn:E; [by rewrite bind_cons in E|].
  rewrite <- E, digits_acc_hex by done. done.
Qed.

Lemma topicBig_abi v : 0 <= v < 2 ^ 256 -> topicBig (Some (abi_topic v)) = Returns v.
Proof.
  intros Hv. unfold topicBig, abi_topic. cbn [default from_option id]. rewrite js_BigInt_hex; [|apply be_bytes_ok|done].
  rewrite be_value_be_bytes. by rewrite Z.mod_small.
Qed.

Lemma u8_at_app_r pre d i : 0 <= i -> u8_at (pre ++ d) (Z.of_nat (length pre) + i) = u8_at d i.
Proof.
  intros Hi. unfold u8_at. rewrite length_app. rewrite (proj2 (Z.leb_le 0 _)), (proj2 (Z.leb_le 0 _)) by lia. cbn [andb].
  replace (Z.of_nat (length pre) + i <? Z.of_nat (length pre + length d)) with (i <? Z.of_nat (length d)) by (apply eq_true_iff_eq; rewrite !Z.ltb_lt; lia).
  destruct (i <? _); [|done]. rewrite lookup_app_r by lia. do 2 f_equal. lia.
Qed.

Lemma u8_at_app_l d post i : 0 <= i < Z.of_nat (length d) -> u8_at (d ++ post) i = default 0 (d !! Z.to_nat i).
Proof.
  intros Hi. unfold u8_at. rewrite length_app. rewrite (proj2 (Z.leb_le 0 _)), (proj2 (Z.ltb_lt _ _)) by lia. cbn [andb].
  by rewrite lookup_app_l by lia.
Qed.

Lemma readWord_app pre w post : length w = 32%nat -> bytes_ok w -> readWord (pre ++ w ++ post) (Z.of_nat (length pre)) = be_value w.
Proof.
  intros Hl Hok. unfold readWord.
  assert (H : forall n, (n <= 32)%nat ->
    fold_left (fun value j => Z.lor (Z.shiftl value 8) (u8_at (pre ++ w ++ post) (Z.of_nat (length pre) + Z.of_nat j))) (seq 0 n) 0 = be_value (take n w)).
  { intros n. induction n as [|n IH]; intros Hn; [done|]. rewrite seq_S, fold_left_app, IH by lia. cbn [fold_left Nat.add].
    rewrite u8_at_app_r, u8_at_app_l by lia. rewrite Nat2Z.id. destruct (lookup_lt_is_Some_2 w n ltac:(lia)) as [b Hb].
    rewrite Hb, (take_S_r _ _ _ Hb), be_value_snoc. cbn [default from_option id]. 
    apply lor_shiftl_add; [lia|]. exact (Forall_lookup_1 _ _ _ _ Hok Hb). }
  rewrite (H 32%nat) by lia. by rewrite take_ge by lia.
Qed.

Lemma subarray_app pre mid post : subarray (pre ++ mid ++ post) (Z.of_nat (length pre)) (Z.of_nat (length mid)) = mid.
Proof.
  unfold subarray. rewrite !length_app. rewrite !Z.min_l by lia. rewrite !Nat2Z.id. by rewrite drop_app_length, take_app_length.
Qed.

(** The [i]-th word of a sequence of 32-byte words. *)
Lemma word_split (ws : list bytes) i w rest : Forall (fun w => length w = 32%nat) ws -> ws !! i = Some w ->
  exists pre post, concat ws ++ rest = pre ++ w ++ post /\ length pre = (32 * i)%nat.
Proof.
  intros Hf Hi. exists (concat (take i ws)), (concat (drop (S i) ws) ++ rest). split.
  - rewrite <- (take_drop_middle ws i w Hi) at 1. rewrite concat_app. cbn [concat]. by rewrite <- !app_assoc.
  - assert (Ht : Forall (fun w => length w = 32%nat) (take i ws)) by by apply Forall_take.
    pose proof (lookup_lt_Some _ _ _ Hi) as Hlt. replace i with (length (take i ws)) at 2 by (rewrite length_take; lia).
    clear -Ht. induction Ht as [|x l Hx _ IH]; [done|]. cbn [concat]. rewrite length_app, Hx, IH. cbn [length]. lia.
Qed.

Lemma word_subarray ws i w rest : Forall (fun w => length w = 32%nat) ws -> ws !! i = Some w ->
  subarray (concat ws ++ rest) (32 * Z.of_nat i) 32 = w.
Proof.
  intros Hf Hi. destruct (word_split ws i w rest Hf Hi) as (pre & post & -> & Hl). pose proof (Forall_lookup_1 _ _ _ _ Hf Hi) as Hw. cbn in Hw.
  replace (32 * Z.of_nat i) with (Z.of_nat (length pre)) by lia. replace 32 with (Z.of_nat (length w)) by lia. apply subarray_app.
Qed.

Lemma word_read ws i w rest : Forall abi_word_ok ws -> ws !! i = Some w -> readWord (concat ws ++ rest) (32 * Z.of_nat i) = be_value w.
Proof.
  intros Hf Hi. pose proof (Forall_lookup_1 _ _ _ _ Hf Hi) as [Hw Hok].
  destruct (word_split ws i w rest) as (pre & post & -> & Hl); [by eapply Forall_impl; [exact Hf|intros ? []]|done|].
  replace (32 * Z.of_nat i) with (Z.of_nat (length pre)) by lia. by apply readWord_app.
Qed.

Lemma abi_word_be v : abi_word_ok (be_bytes 32 v).
Proof. split; [apply length_be_bytes|apply be_bytes_ok]. Qed.

Lemma length_concat_words (ws : list bytes) : Forall (fun w => length w = 32%nat) ws -> length (concat ws) = (32 * length ws)%nat.
Proof. induction 1 as [|w ws Hw _ IH]; [done|]. cbn [concat length]. rewrite length_app, Hw, IH. lia. Qed.

(** A dynamic argument placed after the head words is read back by its offset. *)
Lemma abi_bytes_read ws bs rest : Forall abi_word_ok ws -> Z.of_nat (length bs) < 2 ^ 256 ->
  let d := concat ws ++ abi_bytes bs ++ rest in let off := 32 * Z.of_nat (length ws) in
  subarray d (off + 32) (readWord d off) = bs.
Proof.
  intros Hf Hlen d off. unfold d, off, abi_bytes. assert (Hc : length (concat ws) = (32 * length ws)%nat).
  { apply length_concat_words. eapply Forall_impl; [exact Hf|by intros ? []]. }
  rewrite <- !app_assoc. replace (32 * Z.of_nat (length ws)) with (Z.of_nat (length (concat ws))) by lia.
  rewrite readWord_app, be_value_be_bytes, Z.mod_small by (first [apply length_be_bytes|apply be_bytes_ok|lia]).
  rewrite app_assoc. replace (Z.of_nat (length (concat ws)) + 32) with (Z.of_nat (length (concat ws ++ be_bytes 32 (Z.of_nat (length bs)))))
    by (rewrite length_app, length_be_bytes; lia). apply subarray_app.
Qed.

Lemma strip_0x_hex bs : strip_0x (bytesToHex bs) = bytesToBareHex bs.
Proof. reflexivity. Qed.

Lemma length_bareHex bs : String.length (bytesToBareHex bs) = (2 * length bs)%nat.
Proof.
  unfold bytesToBareHex. induction bs as [|b bs IH]; [done|]. rewrite bind_cons. cbn [byte_hex app String.string_of_list_ascii String.length length].
  rewrite IH. lia.
Qed.

Lemma substring_skip (n m : nat) (s t : string) : String.length s = n -> String.substring n m (String.append s t) = String.substring 0 m t.
Proof. intros <-. induction s as [|c s IH]; [done|]. exact IH. Qed.

Lemma substring_whole s : String.substring 0 (String.length s) s = s.
Proof. induction s as [|c s IH]; [done|]. cbn [String.length String.substring]. by rewrite IH. Qed.

Lemma bareHex_app a b : bytesToBareHex (a ++ b) = String.append (bytesToBareHex a) (bytesToBareHex b).
Proof. unfold bytesToBareHex. induction a as [|x a IH]; [done|]. cbn [app]. rewrite !bind_cons. cbn [byte_hex app String.string_of_list_ascii String.append]. by rewrite IH. Qed.

(** An address topic: twelve zero bytes and the twenty of the address. *)
Lemma topicAddr_abi addr : length addr = 20%nat -> topicAddr (Some (bytesToHex (zeros 12 ++ addr))) = bytesToHex addr.
Proof.
  intros Hl. unfold topicAddr, slice_last. cbn [default from_option id]. rewrite strip_0x_hex, length_bareHex, length_app, Hl.
  rewrite bareHex_app, substring_skip by reflexivity. replace 40%nat with (String.length (bytesToBareHex addr)) by (rewrite length_bareHex; lia).
  rewrite substring_whole. change (String.append "0x" (toLowerCase ?s)) with (toLowerCase (bytesToHex addr)). apply toLowerCase_hex.
Qed.

Lemma abi_data_ok head rest : Forall abi_word_ok head -> bytes_ok rest -> bytes_ok (concat head ++ rest).
Proof. intros Hh Hr. apply Forall_app. split; [|done]. apply Forall_concat. eapply Forall_impl; [exact Hh|by intros ? []]. Qed.

Lemma abi_bytes_ok bs : bytes_ok bs -> bytes_ok (abi_bytes bs).
Proof. intros H. unfold abi_bytes. apply Forall_app. split; [apply be_bytes_ok|]. apply Forall_app. split; [done|]. apply Forall_replicate. unfold byte_ok. lia. Qed.
