(* ===== verification/Decoder.v ===== *)
(** * Substrate decoder (packages/coretex/src/substrate/retrieval-decoder.ts)

    Each region of the 1024 words decodes to typed records: MemoryIndex
    slots, RetrievalKey slots (r4), Relation edges and category lenses,
    Temporal records, Codebook entries (r4) and the three families of
    PolicyAtoms (r5). Per word the source either skips an empty word, counts
    a failure, or yields a record; [word_result] names the three outcomes
    (and the MemoryIndex case of an inactive entry), and the region loops
    thread the [attempts]/[failures] counters as the source does. *)
From S2P Require Import Prelude StateTypes Float Codec Keccak Merkle.

Inductive RelationEdgeType :=
  | supports | supersedes | coreference_of | causes | derived_from | co_occurs_with.

Inductive SubstrateFamily := near_collision | temporal | long_horizon | multi_hop_relation.

Record MemoryIndexSlot := mkSlot {
  slotIndex : Z;
  recordId : Z;
  family : SubstrateFamily;
  domainBits : Z;
  valid : bool;
  revoked : bool;
  protected : bool;
  policyAnchor : bool;
  retrievalSlot : Z;
  expiryEpoch : Z
}.

Record RetrievalKeySlot := mkKey {
  key_slotIndex : Z;
  modelIdHash : string;
  l2Norm : number;
  versionTag : Z;
  quantizedBytes : bytes
}.

Record RelationEdge := mkEdge {
  edge_entryIndex : Z;
  weight : Z;
  edgeType : RelationEdgeType;
  sourceSlot : Z;
  targetSlot : Z
}.

Record RelationCategoryLens := mkLens {
  lens_entryIndex : Z;
  lens_weight : Z;
  lens_edgeType : RelationEdgeType
}.

Record TemporalRecord := mkTemporal {
  recordIndex : Z;
  memorySlot : Z;
  supersededBy : Z;
  validFromEpoch : Z;
  validUntilEpoch : Z;
  currentStaleFlag : bool
}.

Inductive CodeType := int8_scale_zero | pq.

Record CodebookEntry := mkCode {
  code_entryIndex : Z;
  cb_code : Z;
  codeType : CodeType;
  cb_valid : bool;
  payload : Z;
  payloadCont : Z
}.

Inductive PolicyAction := include | boost | suppress | bundle | abstain.
Inductive PolicyScope := entity | owner | relation_path | temporal_chain | conflict_set | aspect.

Record PolicyAtom := mkAtom {
  atomIndex : Z;
  atom_family : PolicyAtomFamily;
  selector : Z;
  evidenceFeature : Z;
  action : PolicyAction;
  scope : PolicyScope;
  atom_targetSlot : Z;
  budget : Z;
  flags : Z;
  atom_validFrom : Z;
  atom_expiry : Z
}.

#[export] Instance RelationEdgeType_eq_dec : EqDecision RelationEdgeType.
Proof. solve_decision. Defined.
#[export] Instance SubstrateFamily_eq_dec : EqDecision SubstrateFamily.
Proof. solve_decision. Defined.
#[export] Instance PolicyAction_eq_dec : EqDecision PolicyAction.
Proof. solve_decision. Defined.
#[export] Instance PolicyScope_eq_dec : EqDecision PolicyScope.
Proof. solve_decision. Defined.
#[export] Instance PolicyAtom_eq_dec : EqDecision PolicyAtom.
Proof. solve_decision. Defined.

(** [Object.values(POLICY_SELECTOR)] and [Object.values(POLICY_EVIDENCE_FEATURE)] *)
Definition VALID_SELECTOR : list Z := [0x1; 0x2; 0x3; 0x4].
Definition VALID_EVIDENCE_FEATURE : list Z := [0x1; 0x2; 0x3; 0x4; 0x5; 0x6; 0x7].

Definition POLICY_TARGET_NONE : Z := 0xffff.
Definition POLICY_ANCHOR_SLOT_LIMIT : Z := 256.

(** ** Enumerations by their wire bits. *)
Definition FAMILY_BY_BITS (b : Z) : option SubstrateFamily :=
  match b with
  | 0x0 => Some near_collision | 0x1 => Some temporal
  | 0x2 => Some long_horizon | 0x3 => Some multi_hop_relation
  | _ => None
  end.

Definition RELATION_TYPE_BY_BITS (b : Z) : option RelationEdgeType :=
  match b with
  | 0x1 => Some supports | 0x2 => Some supersedes | 0x3 => Some coreference_of
  | 0x4 => Some causes | 0x5 => Some derived_from | 0x6 => Some co_occurs_with
  | _ => None
  end.

Definition CODE_TYPE_BY_BITS (b : Z) : option CodeType :=
  match b with 0x1 => Some int8_scale_zero | 0x2 => Some pq | _ => None end.

Definition POLICY_ACTION_BY_BITS (b : Z) : option PolicyAction :=
  match b with
  | 0x1 => Some include | 0x2 => Some boost | 0x3 => Some suppress
  | 0x4 => Some bundle | 0x5 => Some abstain
  | _ => None
  end.

Definition POLICY_ACTION_TO_BITS (a : PolicyAction) : Z :=
  match a with include => 0x1 | boost => 0x2 | suppress => 0x3 | bundle => 0x4 | abstain => 0x5 end.

Definition POLICY_SCOPE_BY_BITS (b : Z) : option PolicyScope :=
  match b with
  | 0x1 => Some entity | 0x2 => Some owner | 0x3 => Some relation_path
  | 0x4 => Some temporal_chain | 0x5 => Some conflict_set | 0x6 => Some aspect
  | _ => None
  end.

Definition POLICY_SCOPE_TO_BITS (s : PolicyScope) : Z :=
  match s with
  | entity => 0x1 | owner => 0x2 | relation_path => 0x3
  | temporal_chain => 0x4 | conflict_set => 0x5 | aspect => 0x6
  end.

Definition familyToBits (f : SubstrateFamily) : Z :=
  match f with near_collision => 0x0 | temporal => 0x1 | long_horizon => 0x2 | multi_hop_relation => 0x3 end.

Definition relationTypeToBits (t : RelationEdgeType) : Z :=
  match t with
  | supports => 0x1 | supersedes => 0x2 | coreference_of => 0x3
  | causes => 0x4 | derived_from => 0x5 | co_occurs_with => 0x6
  end.

(** ** Bit helpers. *)
Definition MASK_4 : Z := Z.shiftl 1 4 - 1.
Definition MASK_8 : Z := Z.shiftl 1 8 - 1.
Definition MASK_16 : Z := Z.shiftl 1 16 - 1.
Definition MASK_112 : Z := Z.shiftl 1 112 - 1.
Definition MASK_40 : Z := Z.shiftl 1 40 - 1.
Definition MASK_60 : Z := Z.shiftl 1 60 - 1.
Definition MASK_96 : Z := Z.shiftl 1 96 - 1.
Definition MASK_128 : Z := Z.shiftl 1 128 - 1.
Definition MASK_152 : Z := Z.shiftl 1 152 - 1.
Definition MASK_208 : Z := Z.shiftl 1 208 - 1.

Definition field (word shift mask : Z) : Z := Z.land (Z.shiftr word shift) mask.

Definition nthByte (word : Z) (byteOffset : nat) : Z :=
  let shift := (31 - Z.of_nat byteOffset) * 8 in
  Z.land (Z.shiftr word shift) 0xff.

Definition wordsToBytes (ws : list Z) (startWord wordCount : Z) : bytes :=
  seqZ 0 wordCount ≫= (fun w => map (nthByte (get0 ws (startWord + w))) (seq 0 32)).

Definition readFloat32BE (bs : bytes) (offset : nat) : number :=
  float32_of_bits (be_value (u8_slice bs offset 4)).

(** ** Region geometry. *)
Definition MEMORY_INDEX_SLOT_COUNT : Z := 352.
Definition MEMORY_INDEX_WORDS_PER_SLOT : Z := 1.
Definition RETRIEVAL_KEY_SLOT_COUNT : Z := 36.
Definition RETRIEVAL_KEY_WORDS_PER_SLOT : Z := 8.
Definition RETRIEVAL_KEY_BYTES_PER_SLOT : Z := RETRIEVAL_KEY_WORDS_PER_SLOT * 32.
Definition RELATIONS_ENTRY_COUNT : Z := 128.
Definition TEMPORAL_WORDS_PER_RECORD : Z := 1.
Definition TEMPORAL_RECORD_COUNT : Z :=
  (RANGES.TEMPORAL_END - RANGES.TEMPORAL_START + 1) / TEMPORAL_WORDS_PER_RECORD.
Definition CODEBOOK_ENTRY_COUNT : Z := 48.
Definition CODEBOOK_WORDS_PER_ENTRY : Z := 2.

(** ** Region loops. *)

(** What one iteration of a region loop does. *)
Inductive word_result (A : Type) :=
  | WEmpty          (* nothing there: no attempt *)
  | WFail           (* attempts++, failures++ *)
  | WInactive       (* attempts++ only: an entry without its valid flag *)
  | WOk (a : A).    (* attempts++ and a record *)
Arguments WEmpty {A}.
Arguments WFail {A}.
Arguments WInactive {A}.
Arguments WOk {A} _.

(** A region decoded into slots ([null] where there is no record). *)
Record region (A : Type) := mkRegion { items : list A; attempts : Z; failures : Z }.
Arguments mkRegion {A} _ _ _.
Arguments items {A} _.
Arguments attempts {A} _.
Arguments failures {A} _.

(** The loops of the slotted regions: one push (a record or [null]) per index. *)
Definition slot_loop {A} (f : Z -> word_result A) (count : Z) : region (option A) :=
  fold_left (fun acc s =>
      match f s with
      | WEmpty => mkRegion (items acc ++ [None]) (attempts acc) (failures acc)
      | WFail => mkRegion (items acc ++ [None]) (attempts acc + 1) (failures acc + 1)
      | WInactive => mkRegion (items acc ++ [None]) (attempts acc + 1) (failures acc)
      | WOk a => mkRegion (items acc ++ [Some a]) (attempts acc + 1) (failures acc)
      end)
    (seqZ 0 count) (mkRegion [] 0 0).

(** The loops of the sparse regions: a push per record only. *)
Definition sparse_loop {A} (f : Z -> word_result A) (count : Z) : region A :=
  fold_left (fun acc s =>
      match f s with
      | WEmpty => acc
      | WFail => mkRegion (items acc) (attempts acc + 1) (failures acc + 1)
      | WInactive => mkRegion (items acc) (attempts acc + 1) (failures acc)
      | WOk a => mkRegion (items acc ++ [a]) (attempts acc + 1) (failures acc)
      end)
    (seqZ 0 count) (mkRegion [] 0 0).

(** [memoryIndex] slot [s], from its word. *)
Definition memory_slot (s w0 : Z) : word_result MemoryIndexSlot :=
  if w0 =? 0 then WEmpty
  else
    let recordId := field w0 128 MASK_128 in
    if recordId =? 0 then WFail
    else match FAMILY_BY_BITS (field w0 124 0xf) with
    | None => WFail
    | Some family =>
      let domainBits := field w0 64 MASK_60 in
      let flags := field w0 48 MASK_16 in
      let valid := negb (Z.land flags 0x0001 =? 0) in
      let revoked := negb (Z.land flags 0x0002 =? 0) in
      let isProtected := negb (Z.land flags 0x0004 =? 0) in
      let policyAnchor := negb (Z.land flags 0x0008 =? 0) in
      let retrievalSlot := field w0 40 MASK_8 in
      if RETRIEVAL_KEY_SLOT_COUNT <=? retrievalSlot then WFail
      else
        let expiryEpoch := field w0 0 MASK_40 in
        if negb valid then WInactive
        else WOk (mkSlot s recordId family domainBits valid revoked isProtected policyAnchor
                    retrievalSlot expiryEpoch)
    end.

(** A slot's words past the first must be zero; with one word per slot the
    source's inner loop over the padding runs zero times. *)
Definition decodeMemoryIndex (state : CortexState) : region (option MemoryIndexSlot) :=
  slot_loop (fun s =>
      let base := RANGES.MEMORY_INDEX_START + s * MEMORY_INDEX_WORDS_PER_SLOT in
      let w0 := word_at state base in
      let nonZeroPayload := existsb (fun off => negb (word_at state (base + off) =? 0))
                              (seqZ 1 (MEMORY_INDEX_WORDS_PER_SLOT - 1)) in
      if w0 =? 0 then WEmpty
      else if nonZeroPayload then WFail
      else memory_slot s w0)
    MEMORY_INDEX_SLOT_COUNT.

Inductive Quantization := int8 | bf16.
Record RetrievalKeyLayout := mkLayout { dim : nat; headerBytes : Z; quantization : Quantization }.

Record DecoderOptions := mkOpts {
  policyAtomsMode : bool;
  opt_biEncoderModelIdHash : option string;
  retrievalKeyHeaderBytes : option Z;
  lensDiversityFloor : option number;
  retrievalKeyLayout : option RetrievalKeyLayout
}.

Definition default_opts : DecoderOptions := mkOpts false None None None None.

Definition decodeRetrievalKeys (state : CortexState) (opts : DecoderOptions)
  : region (option RetrievalKeySlot) :=
  let headerBytes := default 9 (retrievalKeyHeaderBytes opts) in
  let expectedHash := toLowerCase <$> opt_biEncoderModelIdHash opts in
  slot_loop (fun s =>
      let base := RANGES.RETRIEVAL_KEYS_START + s * RETRIEVAL_KEY_WORDS_PER_SLOT in
      let any := existsb (fun off => negb (word_at state (base + off) =? 0))
                   (seqZ 0 RETRIEVAL_KEY_WORDS_PER_SLOT) in
      if negb any then WEmpty
      else
        let slotBytes := wordsToBytes (words state) base RETRIEVAL_KEY_WORDS_PER_SLOT in
        let versionTag := default 0 (slotBytes !! 0%nat) in
        if negb (versionTag =? 0x01) then WFail
        else
          let modelIdHash := bytesToHex (u8_slice slotBytes 1 4) in
          if match expectedHash with
             | Some h => negb (String.eqb (toLowerCase modelIdHash) h)
             | None => false
             end then WFail
          else
            let l2Norm := readFloat32BE slotBytes 5 in
            if negb (is_finite l2Norm) || dle l2Norm (of_Z 0) then WFail
            else if (headerBytes <? 9) || (RETRIEVAL_KEY_BYTES_PER_SLOT <? headerBytes) then WFail
            else
              let badHeader := existsb (fun i => negb (get0 slotBytes i =? 0)) (seqZ 9 (headerBytes - 9)) in
              if badHeader then WFail
              else WOk (mkKey s modelIdHash l2Norm versionTag (drop (Z.to_nat headerBytes) slotBytes)))
    RETRIEVAL_KEY_SLOT_COUNT.

(** One Relations word: an anchor-to-anchor edge or a category lens. *)
Inductive RelationEntry :=
  | Edge (e : RelationEdge)
  | Lens (l : RelationCategoryLens).

Definition relation_word (i word : Z) : word_result RelationEntry :=
  if word =? 0 then WEmpty
  else
    let weight := field word 240 MASK_16 in
    if weight =? 0 then WFail
    else match RELATION_TYPE_BY_BITS (field word 224 MASK_16) with
    | None => WFail
    | Some edgeType =>
      let reservedField208 := field word 208 MASK_16 in
      let isCategoryLens := Z.shiftr reservedField208 15 =? 1 in
      let remainingReserved208 := Z.land reservedField208 0x7FFF in
      if negb (remainingReserved208 =? 0) then WFail
      else if negb (field word 192 MASK_16 =? 0) then WFail
      else if isCategoryLens then
        if negb (field word 96 MASK_96 =? 0) || negb (field word 0 MASK_96 =? 0) then WFail
        else WOk (Lens (mkLens i weight edgeType))
      else
        let sourceField := field word 96 MASK_96 in
        let targetField := field word 0 MASK_96 in
        if negb (Z.shiftr sourceField 8 =? 0) then WFail
        else if negb (Z.shiftr targetField 8 =? 0) then WFail
        else
          let sourceSlot := Z.land sourceField MASK_8 in
          let targetSlot := Z.land targetField MASK_8 in
          if (MEMORY_INDEX_SLOT_COUNT <=? sourceSlot) || (MEMORY_INDEX_SLOT_COUNT <=? targetSlot) then WFail
          else WOk (Edge (mkEdge i weight edgeType sourceSlot targetSlot))
    end.

Record DecodedRelations := mkRels {
  edges : list RelationEdge;
  rel_categoryLenses : list RelationCategoryLens;
  rel_attempts : Z;
  rel_failures : Z
}.

Definition decodeRelations (state : CortexState) : DecodedRelations :=
  let r := sparse_loop (fun i => relation_word i (word_at state (RANGES.RELATIONS_START + i)))
             RELATIONS_ENTRY_COUNT in
  mkRels (omap (fun x => match x with Edge e => Some e | Lens _ => None end) (items r))
         (omap (fun x => match x with Lens l => Some l | Edge _ => None end) (items r))
         (attempts r) (failures r).

Definition temporal_word (r w0 : Z) : word_result TemporalRecord :=
  if w0 =? 0 then WEmpty
  else
    let memorySlot := field w0 248 MASK_8 in
    let supersededBy := field w0 240 MASK_8 in
    let validFromEpoch := field w0 200 MASK_40 in
    let validUntilEpoch := field w0 160 MASK_40 in
    let flags := field w0 152 MASK_8 in
    if negb (field w0 0 MASK_152 =? 0) then WFail
    else if MEMORY_INDEX_SLOT_COUNT <=? memorySlot then WFail
    else if validUntilEpoch <? validFromEpoch then WFail
    else
      let currentStaleFlag := negb (Z.land flags 0x01 =? 0) in
      WOk (mkTemporal r memorySlot supersededBy validFromEpoch validUntilEpoch currentStaleFlag).

Definition decodeTemporal (state : CortexState) : region TemporalRecord :=
  sparse_loop (fun r =>
      let base := RANGES.TEMPORAL_START + r * TEMPORAL_WORDS_PER_RECORD in
      let w0 := word_at state base in
      let nonZeroPayload := existsb (fun off => negb (word_at state (base + off) =? 0))
                              (seqZ 1 (TEMPORAL_WORDS_PER_RECORD - 1)) in
      if w0 =? 0 then WEmpty
      else if nonZeroPayload then WFail
      else temporal_word r w0)
    TEMPORAL_RECORD_COUNT.

Definition codebook_words (i w0 w1 : Z) : word_result CodebookEntry :=
  if (w0 =? 0) && (w1 =? 0) then WEmpty
  else
    let code := field w0 240 MASK_16 in
    let flags := field w0 208 MASK_16 in
    match CODE_TYPE_BY_BITS (field w0 224 MASK_16) with
    | None => WFail
    | Some codeType =>
      if code =? 0 then WFail
      else
        let valid := negb (Z.land flags 0x0001 =? 0) in
        if negb valid then WFail
        else WOk (mkCode i code codeType valid (field w0 0 MASK_208) w1)
    end.

Definition decodeCodebook (state : CortexState) : region (option CodebookEntry) :=
  slot_loop (fun i =>
      let base := RANGES.CODEBOOK_START + i * CODEBOOK_WORDS_PER_ENTRY in
      codebook_words i (word_at state base) (word_at state (base + 1)))
    CODEBOOK_ENTRY_COUNT.

(** ** r5 PolicyAtoms. *)
Record PolicyRegionSpec := mkRegionSpec { reg_start : Z; reg_count : Z; allowed : list PolicyAction }.

Definition POLICY_REGIONS (fam : PolicyAtomFamily) : PolicyRegionSpec :=
  match fam with
  | evidence_bundle => mkRegionSpec RANGES.POLICY_EVIDENCE_START
      (RANGES.POLICY_EVIDENCE_END - RANGES.POLICY_EVIDENCE_START + 1) [include; boost; suppress; bundle]
  | conflict_lifecycle => mkRegionSpec RANGES.POLICY_CONFLICT_START
      (RANGES.POLICY_CONFLICT_END - RANGES.POLICY_CONFLICT_START + 1) [boost; suppress]
  | abstention => mkRegionSpec RANGES.POLICY_ABSTENTION_START
      (RANGES.POLICY_ABSTENTION_END - RANGES.POLICY_ABSTENTION_START + 1) [abstain]
  end.

Definition policy_word (fam : PolicyAtomFamily) (k w0 : Z) : word_result PolicyAtom :=
  if w0 =? 0 then WEmpty
  else
    let reg := POLICY_REGIONS fam in
    let selector := field w0 248 MASK_8 in
    let evidenceFeature := field w0 240 MASK_8 in
    let action := POLICY_ACTION_BY_BITS (field w0 236 MASK_4) in
    let scope := POLICY_SCOPE_BY_BITS (field w0 232 MASK_4) in
    let targetSlot := field w0 216 MASK_16 in
    let budget := field w0 200 MASK_16 in
    let flags := field w0 192 MASK_8 in
    let validFromEpoch := field w0 152 MASK_40 in
    let expiryEpoch := field w0 112 MASK_40 in
    if negb (field w0 0 MASK_112 =? 0) then WFail
    else match action, scope with
    | Some action, Some scope =>
      if negb (bool_decide (action ∈ allowed reg)) then WFail
      else if negb (bool_decide (selector ∈ VALID_SELECTOR))
              || negb (bool_decide (evidenceFeature ∈ VALID_EVIDENCE_FEATURE)) then WFail
      else if (if decide (action = abstain)
               then negb (targetSlot =? POLICY_TARGET_NONE) && (POLICY_ANCHOR_SLOT_LIMIT <=? targetSlot)
               else (targetSlot =? POLICY_TARGET_NONE) || (POLICY_ANCHOR_SLOT_LIMIT <=? targetSlot))
      then WFail
      else if (0 <? validFromEpoch) && (0 <? expiryEpoch) && (expiryEpoch <? validFromEpoch) then WFail
      else WOk (mkAtom k fam selector evidenceFeature action scope targetSlot budget flags
                  validFromEpoch expiryEpoch)
    | _, _ => WFail
    end.

Definition decodePolicyAtomRegion (state : CortexState) (fam : PolicyAtomFamily) : region PolicyAtom :=
  let reg := POLICY_REGIONS fam in
  sparse_loop (fun k => policy_word fam k (word_at state (reg_start reg + k))) (reg_count reg).

Definition policyReservedNonZeroWords (state : CortexState) : Z :=
  fold_left (fun n w => if negb (word_at state w =? 0) then n + 1 else n)
    (seqZ RANGES.POLICY_RESERVED_START (RANGES.POLICY_RESERVED_END - RANGES.POLICY_RESERVED_START + 1)) 0.

Definition encodePolicyAtom (atom : PolicyAtom) : outcome Z :=
  _ ← throw_if ((selector atom <=? 0) || (0xff <? selector atom)) (GenericError "encodePolicyAtom: selector out of range");
  _ ← throw_if ((evidenceFeature atom <=? 0) || (0xff <? evidenceFeature atom))
        (GenericError "encodePolicyAtom: evidenceFeature out of range");
  let actionBits := POLICY_ACTION_TO_BITS (action atom) in
  let scopeBits := POLICY_SCOPE_TO_BITS (scope atom) in
  _ ← throw_if (actionBits =? 0) (GenericError "encodePolicyAtom: bad action");
  _ ← throw_if (scopeBits =? 0) (GenericError "encodePolicyAtom: bad scope");
  _ ← throw_if (negb (atom_targetSlot atom =? POLICY_TARGET_NONE)
                && ((atom_targetSlot atom <? 0) || (POLICY_ANCHOR_SLOT_LIMIT <=? atom_targetSlot atom)))
        (GenericError "encodePolicyAtom: targetSlot out of range (0..255 or POLICY_TARGET_NONE)");
  _ ← throw_if ((budget atom <? 0) || (0xffff <? budget atom)) (GenericError "encodePolicyAtom: budget out of range");
  _ ← throw_if ((flags atom <? 0) || (0xff <? flags atom)) (GenericError "encodePolicyAtom: flags out of range");
  _ ← throw_if (negb (Z.shiftr (atom_validFrom atom) 40 =? 0) || negb (Z.shiftr (atom_expiry atom) 40 =? 0))
        (GenericError "encodePolicyAtom: epoch exceeds 40 bits");
  Returns
    (Z.lor (Z.lor (Z.lor (Z.lor (Z.lor (Z.lor (Z.lor (Z.lor
      (Z.shiftl (selector atom) 248)
      (Z.shiftl (evidenceFeature atom) 240))
      (Z.shiftl actionBits 236))
      (Z.shiftl scopeBits 232))
      (Z.shiftl (atom_targetSlot atom) 216))
      (Z.shiftl (budget atom) 200))
      (Z.shiftl (flags atom) 192))
      (Z.shiftl (atom_validFrom atom) 152))
      (Z.shiftl (atom_expiry atom) 112)).
