(* ===== verification/Substrate.v ===== *)
(** * Composite decode and encoders (packages/coretex/src/substrate/retrieval-decoder.ts,
    packages/coretex/src/substrate/structural-validity.ts)

    [decodeSubstrate] runs the region decoders of [Decoder] under the r4/r5
    gate, drops temporal records and relation edges whose cross-region
    conditions fail, and totals the counters; [structuralValidity] turns the
    counters into a score. The encoders are the inverse side used by patch
    builders. Theorems: the counters are consistent, the r4/r5 gate admits
    one interpretation only, the decode depends only on words 32..991, and
    every kind of record round-trips. *)
From S2P Require Import Prelude StateTypes Float Codec Keccak Merkle Decoder.

(** ** Lens diversity. *)
Record LensDiversityCheck := mkLensCheck { ok : bool; meanPairwiseCosine : option number }.

Definition dequantizeKeyVector (bs : bytes) (layout : RetrievalKeyLayout) : list number :=
  let out := replicate (dim layout) (of_Z 0) in
  match quantization layout with
  | int8 =>
    if (length bs <? 4 + dim layout)%nat then out
    else
      let scale := readFloat32BE bs 0 in
      map (fun i =>
          let raw := default 0 (bs !! (4 + i)%nat) in
          let signed := if raw <? 128 then raw else raw - 256 in
          round_float32 (dmul (of_Z signed) scale))
        (seq 0 (dim layout))
  | bf16 =>
    if (length bs <? dim layout * 2)%nat then out
    else map (fun i =>
          let hi := default 0 (bs !! (i * 2)%nat) in
          let lo := default 0 (bs !! (i * 2 + 1)%nat) in
          float32_of_bits (ToUint32 (js_or (js_shl hi 24) (js_shl lo 16))))
        (seq 0 (dim layout))
  end.

Definition cosineSim (a b : list number) : number :=
  let '(dot, na, nb) := fold_left (fun '(dot, na, nb) '(x, y) =>
      (dadd dot (dmul x y), dadd na (dmul x x), dadd nb (dmul y y)))
    (zip a b) (of_Z 0, of_Z 0, of_Z 0) in
  if dle na (of_Z 0) || dle nb (of_Z 0) then of_Z 0
  else ddiv dot (dmul (dsqrt na) (dsqrt nb)).

(** The pairs [(vecs[i], vecs[j])], [i < j], in the order of the two loops. *)
Fixpoint pairs_of {A} (l : list A) : list (A * A) :=
  match l with
  | [] => []
  | x :: l' => map (pair x) l' ++ pairs_of l'
  end.

Definition checkLensDiversity (retrievalKeys : list (option RetrievalKeySlot))
    (lensDiversityFloor : number) (layout : RetrievalKeyLayout) : LensDiversityCheck :=
  let active := omap id retrievalKeys in
  if (length active <? 2)%nat then mkLensCheck true None
  else
    let vecs := map (fun k => dequantizeKeyVector (quantizedBytes k) layout) active in
    let '(sum, pairs) := fold_left (fun '(sum, pairs) '(x, y) => (dadd sum (cosineSim x y), pairs + 1))
                           (pairs_of vecs) (of_Z 0, 0) in
    let mean := if 0 <? pairs then ddiv sum (of_Z pairs) else of_Z 0 in
    if dlt lensDiversityFloor mean then mkLensCheck false (Some mean)
    else mkLensCheck true (Some mean).

(** ** Composite decode. *)
Definition relationEdgeValid (edge : RelationEdge) (memoryIndex : list (option MemoryIndexSlot)) : bool :=
  match mjoin (js_get memoryIndex (sourceSlot edge)), mjoin (js_get memoryIndex (targetSlot edge)) with
  | Some src, Some tgt =>
    if negb (valid src) || negb (valid tgt) then false
    else if (domainBits src =? 0) || (domainBits tgt =? 0) then false
    else negb (Z.land (domainBits src) (domainBits tgt) =? 0)
  | _, _ => false
  end.

Record DecodedSubstrate := mkDecoded {
  memoryIndex : list (option MemoryIndexSlot);
  retrievalKeys : list (option RetrievalKeySlot);
  relations : list RelationEdge;
  categoryLenses : list RelationCategoryLens;
  dec_temporal : list TemporalRecord;
  codebook : list (option CodebookEntry);
  decodedSlots : Z;
  decodeFailures : Z;
  decodeAttempts : Z;
  lensDiversityCheck : option LensDiversityCheck;
  relationsDroppedByDomainPredicate : Z;
  evidenceBundleAtoms : list PolicyAtom;
  conflictLifecycleAtoms : list PolicyAtom;
  abstentionAtoms : list PolicyAtom;
  dec_policyReservedNonZeroWords : Z
}.

(** The cross-region check of a temporal record against the memory index. *)
Definition temporal_valid (slots : list (option MemoryIndexSlot)) (t : TemporalRecord) : bool :=
  match mjoin (js_get slots (memorySlot t)) with
  | None => false
  | Some slot => negb (currentStaleFlag t && negb (revoked slot))
  end.

(** A filtering loop with a counter of the items seen and of those dropped. *)
Definition filter_loop {A} (p : A -> bool) (l : list A) : region A :=
  fold_left (fun acc t =>
      if p t then mkRegion (items acc ++ [t]) (attempts acc + 1) (failures acc)
      else mkRegion (items acc) (attempts acc + 1) (failures acc + 1))
    l (mkRegion [] 0 0).

Definition empty_region {A} : region A := mkRegion [] 0 0.

Definition decodeSubstrate (state : CortexState) (opts : DecoderOptions) : DecodedSubstrate :=
  let policyMode := policyAtomsMode opts in
  let memory := decodeMemoryIndex state in
  let rels := decodeRelations state in
  let temporal := decodeTemporal state in
  let keys := if policyMode then empty_region else decodeRetrievalKeys state opts in
  let codebook := if policyMode then empty_region else decodeCodebook state in
  let eb := if policyMode then decodePolicyAtomRegion state evidence_bundle else empty_region in
  let cl := if policyMode then decodePolicyAtomRegion state conflict_lifecycle else empty_region in
  let ab := if policyMode then decodePolicyAtomRegion state abstention else empty_region in
  let policyReservedNonZero := if policyMode then policyReservedNonZeroWords state else 0 in
  let policyAttempts := attempts eb + attempts cl + attempts ab + policyReservedNonZero in
  let policyFailures := failures eb + failures cl + failures ab + policyReservedNonZero in
  let cross := filter_loop (temporal_valid (items memory)) (items temporal) in
  let filtered := filter_loop (fun e => relationEdgeValid e (items memory)) (edges rels) in
  let decodeAttempts := attempts memory + attempts keys + rel_attempts rels + attempts temporal
                        + attempts codebook + attempts cross + policyAttempts in
  let decodeFailures := failures memory + failures keys + rel_failures rels + failures temporal
                        + failures codebook + failures cross + policyFailures in
  let lensCheck := match lensDiversityFloor opts, retrievalKeyLayout opts with
    | Some floor, Some layout => Some (checkLensDiversity (items keys) floor layout)
    | _, _ => None
    end in
  mkDecoded (items memory) (items keys) (items filtered) (rel_categoryLenses rels) (items cross)
    (items codebook) (decodeAttempts - decodeFailures) decodeFailures decodeAttempts lensCheck
    (failures filtered) (items eb) (items cl) (items ab) policyReservedNonZero.

(** [Math.max(0, 1 - failures / attempts)], 0 on a lens collapse, 1 when nothing was decoded. *)
Definition structuralValidity (decoded : DecodedSubstrate) : number :=
  if match lensDiversityCheck decoded with Some c => negb (ok c) | None => false end then of_Z 0
  else if decodeAttempts decoded <=? 0 then of_Z 1
  else math_max (of_Z 0) (dsub (of_Z 1) (ddiv (of_Z (decodeFailures decoded)) (of_Z (decodeAttempts decoded)))).

(** ** Encoders. *)
Definition encodeMemoryIndexSlot (slot : MemoryIndexSlot) : outcome (list Z) :=
  _ ← throw_if (negb (Z.shiftr (recordId slot) 128 =? 0)) (GenericError "encodeMemoryIndexSlot: recordId exceeds 128 bits");
  _ ← throw_if (negb (Z.shiftr (domainBits slot) 60 =? 0)) (GenericError "encodeMemoryIndexSlot: domainBits exceeds 60 bits");
  let familyDomain := Z.lor (Z.shiftl (familyToBits (family slot)) 60) (domainBits slot) in
  let flags := Z.lor (Z.lor (Z.lor (if valid slot then 0x0001 else 0) (if revoked slot then 0x0002 else 0))
                 (if protected slot then 0x0004 else 0)) (if policyAnchor slot then 0x0008 else 0) in
  _ ← throw_if ((retrievalSlot slot <? 0) || (RETRIEVAL_KEY_SLOT_COUNT <=? retrievalSlot slot))
        (GenericError "encodeMemoryIndexSlot: retrievalSlot out of range");
  _ ← throw_if (negb (Z.shiftr (expiryEpoch slot) 40 =? 0)) (GenericError "encodeMemoryIndexSlot: expiryEpoch exceeds 40 bits");
  let w0 := Z.lor (Z.lor (Z.lor (Z.lor
      (Z.shiftl (recordId slot) 128)
      (Z.shiftl familyDomain 64))
      (Z.shiftl flags 48))
      (Z.shiftl (retrievalSlot slot) 40))
      (expiryEpoch slot) in
  Returns [w0; 0; 0; 0; 0; 0; 0; 0].

(** [out[1 + i] = parseInt(hashHex.slice(2i, 2i + 2), 16)]: an unparsable pair stores 0. *)
Definition encodeRetrievalKeySlot (slot : RetrievalKeySlot) (opt_headerBytes : option Z) : outcome (list Z) :=
  let headerBytes := default 9 opt_headerBytes in
  let out := zeros (Z.to_nat RETRIEVAL_KEY_BYTES_PER_SLOT) in
  let out := <[0%nat := Z.land (versionTag slot) 0xff]> out in
  let hashHex := String.list_ascii_of_string (strip_0x (modelIdHash slot)) in
  _ ← throw_if (negb (length hashHex =? 8)%nat) (GenericError "encodeRetrievalKeySlot: modelIdHash must be 4 bytes");
  let hash := map (fun '(a, b) => default 0 (parseInt16 a b) mod 256) (default [] (hex_pairs hashHex)) in
  let out := u8_set out 1 hash in
  let out := u8_set out 5 (be_bytes 4 (bits_of_float32 (l2Norm slot))) in
  _ ← throw_if (RETRIEVAL_KEY_BYTES_PER_SLOT - headerBytes <? Z.of_nat (length (quantizedBytes slot)))
        (GenericError "encodeRetrievalKeySlot: quantizedBytes too long for layout");
  _ ← throw_if (headerBytes <? 0) (RangeError "offset is out of bounds");
  let out := u8_set out (Z.to_nat headerBytes) (quantizedBytes slot) in
  Returns (map (fun w => fold_left (fun val b => Z.lor (Z.shiftl val 8) (default 0 (out !! (w * 32 + b)%nat)))
                   (seq 0 32) 0)
             (seq 0 (Z.to_nat RETRIEVAL_KEY_WORDS_PER_SLOT))).

Definition encodeRelationEdge (edge : RelationEdge) : outcome Z :=
  _ ← throw_if ((weight edge <=? 0) || (0xffff <? weight edge)) (GenericError "encodeRelationEdge: weight out of range");
  _ ← throw_if ((sourceSlot edge <? 0) || (MEMORY_INDEX_SLOT_COUNT <=? sourceSlot edge))
        (GenericError "encodeRelationEdge: sourceSlot out of range");
  _ ← throw_if ((targetSlot edge <? 0) || (MEMORY_INDEX_SLOT_COUNT <=? targetSlot edge))
        (GenericError "encodeRelationEdge: targetSlot out of range");
  let edgeBits := relationTypeToBits (edgeType edge) in
  Returns (Z.lor (Z.lor (Z.lor
    (Z.shiftl (weight edge) 240)
    (Z.shiftl edgeBits 224))
    (Z.shiftl (sourceSlot edge) 96))
    (targetSlot edge)).

Definition encodeRelationCategoryLens (lens : RelationCategoryLens) : outcome Z :=
  _ ← throw_if ((lens_weight lens <=? 0) || (0xffff <? lens_weight lens))
        (GenericError "encodeRelationCategoryLens: weight out of range");
  let edgeBits := relationTypeToBits (lens_edgeType lens) in
  let modeBit := Z.shiftl 1 223 in
  Returns (Z.lor (Z.lor
    (Z.shiftl (lens_weight lens) 240)
    (Z.shiftl edgeBits 224))
    modeBit).

Definition encodeTemporalRecord (rec : TemporalRecord) : outcome (list Z) :=
  _ ← throw_if ((memorySlot rec <? 0) || (MEMORY_INDEX_SLOT_COUNT <=? memorySlot rec))
        (GenericError "encodeTemporalRecord: memorySlot out of range");
  _ ← throw_if ((supersededBy rec <? 0) || (0xff <? supersededBy rec))
        (GenericError "encodeTemporalRecord: supersededBy out of range");
  _ ← throw_if (validUntilEpoch rec <? validFromEpoch rec)
        (GenericError "encodeTemporalRecord: validFromEpoch > validUntilEpoch");
  _ ← throw_if (negb (Z.shiftr (validFromEpoch rec) 40 =? 0) || negb (Z.shiftr (validUntilEpoch rec) 40 =? 0))
        (GenericError "encodeTemporalRecord: epoch exceeds 40 bits");
  let flags := if currentStaleFlag rec then 0x01 else 0 in
  let w0 := Z.lor (Z.lor (Z.lor (Z.lor
      (Z.shiftl (memorySlot rec) 248)
      (Z.shiftl (supersededBy rec) 240))
      (Z.shiftl (validFromEpoch rec) 200))
      (Z.shiftl (validUntilEpoch rec) 160))
      (Z.shiftl flags 152) in
  let out := replicate (Z.to_nat TEMPORAL_WORDS_PER_RECORD) 0 in
  Returns (<[0%nat := w0]> out).

Definition encodeCodebookEntry (entry : CodebookEntry) : outcome (list Z) :=
  _ ← throw_if ((cb_code entry <=? 0) || (0xffff <? cb_code entry)) (GenericError "encodeCodebookEntry: code out of range");
  let codeTypeBits := match codeType entry with int8_scale_zero => 0x1 | pq => 0x2 end in
  let flags := if cb_valid entry then 0x0001 else 0 in
  _ ← throw_if (negb (Z.shiftr (payload entry) 208 =? 0)) (GenericError "encodeCodebookEntry: payload exceeds 208 bits");
  let w0 := Z.lor (Z.lor (Z.lor
      (Z.shiftl (cb_code entry) 240)
      (Z.shiftl codeTypeBits 224))
      (Z.shiftl flags 208))
      (payload entry) in
  Returns [w0; payloadCont entry].

(** [new TextEncoder().encode(s)] on an ASCII string. *)
Definition text_encode (s : string) : bytes :=
  map (fun c => Z.of_nat (Ascii.nat_of_ascii c)) (String.list_ascii_of_string s).

Definition biEncoderModelIdHash `{Hasher} (modelId revision mode : string) : string :=
  let input := (modelId +:+ "|" +:+ revision +:+ "|" +:+ mode)%string in
  bytesToHex (take 4 (keccak256 (text_encode input))).

(** ** Round trips. *)

(** Field reads with the source's masks are [bitfield]s. *)
Lemma field_4 w s : field w s MASK_4 = bitfield w s 4.
Proof. reflexivity. Qed.
Lemma field_8 w s : field w s MASK_8 = bitfield w s 8.
Proof. reflexivity. Qed.
Lemma field_16 w s : field w s MASK_16 = bitfield w s 16.
Proof. reflexivity. Qed.
Lemma field_40 w s : field w s MASK_40 = bitfield w s 40.
Proof. reflexivity. Qed.
Lemma field_60 w s : field w s MASK_60 = bitfield w s 60.
Proof. reflexivity. Qed.
Lemma field_96 w s : field w s MASK_96 = bitfield w s 96.
Proof. reflexivity. Qed.
Lemma field_112 w s : field w s MASK_112 = bitfield w s 112.
Proof. reflexivity. Qed.
Lemma field_128 w s : field w s MASK_128 = bitfield w s 128.
Proof. reflexivity. Qed.
Lemma field_152 w s : field w s MASK_152 = bitfield w s 152.
Proof. reflexivity. Qed.
Lemma field_208 w s : field w s MASK_208 = bitfield w s 208.
Proof. reflexivity. Qed.
Lemma field_0xf w s : field w s 0xf = bitfield w s 4.
Proof. reflexivity. Qed.
Lemma land_MASK_8 w : Z.land w MASK_8 = bitfield w 0 8.
Proof. unfold bitfield. by rewrite Z.shiftr_0_r. Qed.

Ltac mask_ones :=
  rewrite ?field_4, ?field_8, ?field_16, ?field_40, ?field_60, ?field_96, ?field_112, ?field_128, ?field_152, ?field_208,
    ?field_0xf in *.

(** The guards of the encoders, as bounds. *)
Ltac enc_hyps :=
  inv_outcome; bool_hyps;
  repeat match goal with
  | H : Z.shiftr _ _ = 0 |- _ => apply shiftr_zero in H; [|lia]
  end.

Lemma FAMILY_BY_BITS_familyToBits f : FAMILY_BY_BITS (familyToBits f) = Some f.
Proof. by destruct f. Qed.
Lemma RELATION_TYPE_roundtrip t : RELATION_TYPE_BY_BITS (relationTypeToBits t) = Some t.
Proof. by destruct t. Qed.
Lemma familyToBits_bound f : 0 <= familyToBits f < 2 ^ 4.
Proof. destruct f; simpl; lia. Qed.
Lemma relationTypeToBits_bound t : 0 < relationTypeToBits t < 2 ^ 16.
Proof. destruct t; simpl; lia. Qed.
Lemma POLICY_ACTION_roundtrip a : POLICY_ACTION_BY_BITS (POLICY_ACTION_TO_BITS a) = Some a.
Proof. by destruct a. Qed.
Lemma POLICY_SCOPE_roundtrip a : POLICY_SCOPE_BY_BITS (POLICY_SCOPE_TO_BITS a) = Some a.
Proof. by destruct a. Qed.
Lemma POLICY_ACTION_bits b a : POLICY_ACTION_BY_BITS b = Some a -> POLICY_ACTION_TO_BITS a = b.
Proof. unfold POLICY_ACTION_BY_BITS. repeat case_match; naive_solver. Qed.
Lemma POLICY_SCOPE_bits b a : POLICY_SCOPE_BY_BITS b = Some a -> POLICY_SCOPE_TO_BITS a = b.
Proof. unfold POLICY_SCOPE_BY_BITS. repeat case_match; naive_solver. Qed.
Lemma POLICY_ACTION_bound a : 0 < POLICY_ACTION_TO_BITS a < 2 ^ 4.
Proof. destruct a; simpl; lia. Qed.
Lemma POLICY_SCOPE_bound a : 0 < POLICY_SCOPE_TO_BITS a < 2 ^ 4.
Proof. destruct a; simpl; lia. Qed.

(** A word with a nonzero field is nonzero. *)
Lemma bitfield_nonzero w s n : bitfield w s n <> 0 -> (w =? 0) = false.
Proof. intros H. apply Z.eqb_neq. intros ->. by rewrite bitfield_0 in H. Qed.

(** The flag word of a memory slot. *)
Definition slot_flags (slot : MemoryIndexSlot) : Z :=
  Z.lor (Z.lor (Z.lor (if valid slot then 0x0001 else 0) (if revoked slot then 0x0002 else 0))
    (if protected slot then 0x0004 else 0)) (if policyAnchor slot then 0x0008 else 0).

Lemma slot_flags_spec slot :
  0 <= slot_flags slot < 2 ^ 16
  /\ negb (Z.land (slot_flags slot) 0x0001 =? 0) = valid slot
  /\ negb (Z.land (slot_flags slot) 0x0002 =? 0) = revoked slot
  /\ negb (Z.land (slot_flags slot) 0x0004 =? 0) = protected slot
  /\ negb (Z.land (slot_flags slot) 0x0008 =? 0) = policyAnchor slot.
Proof. unfold slot_flags. destruct (valid slot), (revoked slot), (protected slot), (policyAnchor slot); (split; [vm_compute; intuition congruence|repeat split; reflexivity]). Qed.

(** Every MemoryIndex slot the encoder accepts, if it names a record and has
    its valid flag, decodes back to itself from the first encoded word. *)
Theorem memoryIndex_roundtrip (slot : MemoryIndexSlot) (ws : list Z) :
  encodeMemoryIndexSlot slot = Returns ws -> recordId slot <> 0 -> valid slot = true ->
  exists w0, ws = [w0; 0; 0; 0; 0; 0; 0; 0] /\ uint256 w0 /\ memory_slot (slotIndex slot) w0 = WOk slot.
Proof.
  intros H Hid Hv. unfold encodeMemoryIndexSlot in H. fold (slot_flags slot) in H. enc_hyps. subst ws.
  eexists. split; [reflexivity|].
  destruct (slot_flags_spec slot) as (Hf & Hf1 & Hf2 & Hf3 & Hf4).
  pose proof (familyToBits_bound (family slot)). unfold RETRIEVAL_KEY_SLOT_COUNT in *.
  rewrite Z.shiftl_lor, Z.shiftl_shiftl by lia. change (60 + 64) with 124.
  match goal with |- uint256 ?w /\ _ => set (w0 := w) end.
  assert (Hr : bitfield w0 128 128 = recordId slot) by (unfold w0; bf; lia).
  assert (Hfam : bitfield w0 124 4 = familyToBits (family slot)) by (unfold w0; bf; lia).
  assert (Hd : bitfield w0 64 60 = domainBits slot) by (unfold w0; bf; lia).
  assert (Hfl : bitfield w0 48 16 = slot_flags slot) by (unfold w0; bf; lia).
  assert (Hrs : bitfield w0 40 8 = retrievalSlot slot) by (unfold w0; bf; lia).
  assert (He : bitfield w0 0 40 = expiryEpoch slot) by (unfold w0; bf; lia).
  split.
  - unfold w0, uint256. repeat apply lor_bound; rewrite ?Z.shiftl_mul_pow2 by lia; lia.
  - unfold memory_slot. mask_ones. rewrite (bitfield_nonzero w0 128 128), Hr, Hfam, Hd, Hfl, Hrs, He by lia.
    rewrite FAMILY_BY_BITS_familyToBits, Hf1, Hf2, Hf3, Hf4, Hv.
    destruct (Z.eqb_spec (recordId slot) 0); [lia|]. unfold RETRIEVAL_KEY_SLOT_COUNT.
    destruct (Z.leb_spec 36 (retrievalSlot slot)); [lia|]. destruct slot; simpl in *. congruence.
Qed.

(** The word of a relation edge, field by field. *)
Lemma edge_word_fields wt ty src tgt :
  0 < wt < 2 ^ 16 -> 0 < ty < 2 ^ 16 -> 0 <= src < 2 ^ 16 -> 0 <= tgt < 2 ^ 16 ->
  let w := Z.lor (Z.lor (Z.lor (Z.shiftl wt 240) (Z.shiftl ty 224)) (Z.shiftl src 96)) tgt in
  bitfield w 240 16 = wt /\ bitfield w 224 16 = ty /\ bitfield w 208 16 = 0 /\ bitfield w 192 16 = 0
  /\ bitfield w 96 96 = src /\ bitfield w 0 96 = tgt /\ uint256 w.
Proof.
  intros ???? w. subst w. repeat split; try (bf; lia).
  1: apply Z.lor_nonneg; split; [|lia]; repeat (apply Z.lor_nonneg; split); apply Z.shiftl_nonneg; lia.
  repeat apply lor_bound; rewrite ?Z.shiftl_mul_pow2 by lia; lia.
Qed.

(** Every relation edge the encoder accepts decodes back to itself when its
    endpoints fit the 8-bit slot fields. *)
Theorem relationEdge_roundtrip (edge : RelationEdge) (w : Z) :
  encodeRelationEdge edge = Returns w -> sourceSlot edge < 256 -> targetSlot edge < 256 ->
  uint256 w /\ relation_word (edge_entryIndex edge) w = WOk (Edge edge).
Proof.
  intros H Hs Ht. unfold encodeRelationEdge in H. enc_hyps. subst w.
  pose proof (relationTypeToBits_bound (edgeType edge)).
  edestruct (edge_word_fields (weight edge) (relationTypeToBits (edgeType edge)) (sourceSlot edge) (targetSlot edge))
    as (F1 & F2 & F3 & F4 & F5 & F6 & F7); [lia..|].
  split; [done|]. unfold relation_word. mask_ones. rewrite (bitfield_nonzero _ 240 16) by (rewrite F1; lia).
  rewrite F1, F2, F3, F4, F5, F6, RELATION_TYPE_roundtrip.
  destruct (Z.eqb_spec (weight edge) 0); [lia|].
  rewrite !(proj2 (shiftr_zero _ 8 ltac:(lia))) by lia.
  change (Z.shiftr 0 15 =? 1) with false. cbn.
  rewrite !land_MASK_8, !bitfield_full by lia. unfold MEMORY_INDEX_SLOT_COUNT.
  destruct (Z.leb_spec 352 (sourceSlot edge)), (Z.leb_spec 352 (targetSlot edge)); try lia. by destruct edge.
Qed.

(** The encoder also accepts endpoints 256..351 (slots that exist in the
    MemoryIndex), and the decoder counts every such word as a failure. *)
Theorem relationEdge_high_slot_lost (edge : RelationEdge) (w i : Z) :
  encodeRelationEdge edge = Returns w -> 256 <= sourceSlot edge \/ 256 <= targetSlot edge ->
  relation_word i w = WFail.
Proof.
  intros H Hhi. unfold encodeRelationEdge in H. enc_hyps. subst w. unfold MEMORY_INDEX_SLOT_COUNT in *.
  pose proof (relationTypeToBits_bound (edgeType edge)).
  edestruct (edge_word_fields (weight edge) (relationTypeToBits (edgeType edge)) (sourceSlot edge) (targetSlot edge))
    as (F1 & F2 & F3 & F4 & F5 & F6 & F7); [lia..|].
  unfold relation_word. mask_ones. rewrite (bitfield_nonzero _ 240 16) by (rewrite F1; lia).
  rewrite F1, F2, F3, F4, F5, F6, RELATION_TYPE_roundtrip.
  destruct (Z.eqb_spec (weight edge) 0); [done|].
  change (Z.shiftr 0 15 =? 1) with false. cbn.
  destruct (Z.eqb_spec (Z.shiftr (sourceSlot edge) 8) 0) as [E|E]; [|done].
  destruct (Z.eqb_spec (Z.shiftr (targetSlot edge) 8) 0) as [E'|E']; [|done].
  apply shiftr_zero in E, E'; lia.
Qed.

(** Every category lens the encoder accepts decodes back to itself. *)
Theorem categoryLens_roundtrip (lens : RelationCategoryLens) (w : Z) :
  encodeRelationCategoryLens lens = Returns w ->
  uint256 w /\ relation_word (lens_entryIndex lens) w = WOk (Lens lens).
Proof.
  intros H. unfold encodeRelationCategoryLens in H. enc_hyps.
  change (Z.shiftl 1 223) with (Z.shiftl 0x8000 208) in H. subst w.
  pose proof (relationTypeToBits_bound (lens_edgeType lens)).
  match goal with |- uint256 ?x /\ _ => set (w := x) end.
  assert (F1 : bitfield w 240 16 = lens_weight lens) by (unfold w; bf; lia).
  assert (F2 : bitfield w 224 16 = relationTypeToBits (lens_edgeType lens)) by (unfold w; bf; lia).
  assert (F3 : bitfield w 208 16 = 0x8000) by (unfold w; bf; lia).
  assert (F4 : bitfield w 192 16 = 0) by (unfold w; bf; lia).
  assert (F5 : bitfield w 96 96 = 0) by (unfold w; bf; lia).
  assert (F6 : bitfield w 0 96 = 0) by (unfold w; bf; lia).
  split.
  { unfold uint256, w. repeat apply lor_bound; rewrite ?Z.shiftl_mul_pow2 by lia; lia. }
  unfold relation_word. mask_ones. rewrite (bitfield_nonzero _ 240 16) by (rewrite F1; lia).
  rewrite F1, F2, F3, F4, F5, F6, RELATION_TYPE_roundtrip.
  destruct (Z.eqb_spec (lens_weight lens) 0); [lia|]. by destruct lens.
Qed.

(** The word of a temporal record, field by field; [slot] may exceed its 8 bits. *)
Lemma temporal_word_fields slot sup vf vu fl :
  0 <= slot -> 0 <= sup < 2 ^ 8 -> 0 <= vf < 2 ^ 40 -> 0 <= vu < 2 ^ 40 -> 0 <= fl < 2 ^ 8 ->
  let w := Z.lor (Z.lor (Z.lor (Z.lor (Z.shiftl slot 248) (Z.shiftl sup 240)) (Z.shiftl vf 200))
             (Z.shiftl vu 160)) (Z.shiftl fl 152) in
  Z.shiftr w 248 = slot /\ bitfield w 240 8 = sup /\ bitfield w 200 40 = vf /\ bitfield w 160 40 = vu
  /\ bitfield w 152 8 = fl /\ bitfield w 0 152 = 0.
Proof.
  intros ????? w. subst w. split; [|repeat split; bf; lia].
  rewrite !Z.shiftr_lor, Z.shiftr_shiftl_l, Z.sub_diag, Z.shiftl_0_r by lia.
  rewrite !(proj2 (shiftr_zero _ 248 ltac:(lia))) by (rewrite Z.shiftl_mul_pow2 by lia; lia).
  by rewrite !Z.lor_0_r.
Qed.

Lemma stale_flag (b : bool) : negb (Z.land (if b then 0x01 else 0) 0x01 =? 0) = b.
Proof. by destruct b. Qed.

(** Every temporal record the encoder accepts decodes back to itself when its
    memory slot fits its 8 bits (and its word is not all zero). *)
Theorem temporal_roundtrip (rec : TemporalRecord) (ws : list Z) :
  encodeTemporalRecord rec = Returns ws -> memorySlot rec < 256 -> ws <> [0] ->
  exists w0, ws = [w0] /\ uint256 w0 /\ temporal_word (recordIndex rec) w0 = WOk rec.
Proof.
  intros H Hm Hnz. unfold encodeTemporalRecord in H. enc_hyps. unfold MEMORY_INDEX_SLOT_COUNT in *.
  set (fl := if currentStaleFlag rec then 1 else 0) in *.
  assert (Hfl : 0 <= fl < 2 ^ 8) by (unfold fl; destruct (currentStaleFlag rec); lia).
  edestruct (temporal_word_fields (memorySlot rec) (supersededBy rec) (validFromEpoch rec)
     (validUntilEpoch rec) fl) as (F1 & F2 & F3 & F4 & F5 & F6); [lia..|].
  cbv beta zeta in *. set (w0 := Z.lor _ _) in *. exists w0.
  split; [by subst ws|]. assert (ws = [w0]) as -> by (by subst ws).
  split.
  { unfold uint256, w0. repeat apply lor_bound; rewrite ?Z.shiftl_mul_pow2 by lia; lia. }
  unfold temporal_word. mask_ones.
  assert (F1' : bitfield w0 248 8 = memorySlot rec).
  { unfold bitfield. rewrite F1, Z.land_ones by lia. by apply Z.mod_small. }
  rewrite F1', F2, F3, F4, F5, F6. destruct (Z.eqb_spec w0 0); [congruence|].
  cbn. unfold MEMORY_INDEX_SLOT_COUNT.
  destruct (Z.leb_spec 352 (memorySlot rec)); [lia|].
  destruct (Z.ltb_spec (validUntilEpoch rec) (validFromEpoch rec)); [lia|].
  unfold fl. rewrite stale_flag. by destruct rec.
Qed.

(** A record for memory slot 256..351 passes the encoder but its word does
    not fit a uint256, and the word's low 256 bits name slot - 256. *)
Theorem temporal_high_slot_aliases (rec : TemporalRecord) (ws : list Z) :
  encodeTemporalRecord rec = Returns ws -> 256 <= memorySlot rec ->
  exists w0, ws = [w0] /\ 2 ^ 256 <= w0 /\ field (asUintN 256 w0) 248 MASK_8 = memorySlot rec - 256.
Proof.
  intros H Hm. unfold encodeTemporalRecord in H. enc_hyps. unfold MEMORY_INDEX_SLOT_COUNT in *.
  set (fl := if currentStaleFlag rec then 1 else 0) in *.
  assert (Hfl : 0 <= fl < 2 ^ 8) by (unfold fl; destruct (currentStaleFlag rec); lia).
  edestruct (temporal_word_fields (memorySlot rec) (supersededBy rec) (validFromEpoch rec)
     (validUntilEpoch rec) fl) as (F1 & _); [lia..|].
  cbv beta zeta in *. set (w0 := Z.lor _ _) in *. exists w0.
  split; [by subst ws|]. rewrite Z.shiftr_div_pow2 in F1 by lia.
  pose proof (Z.mod_pos_bound w0 (2 ^ 248) ltac:(lia)). pose proof (Z.div_mod w0 (2 ^ 248) ltac:(lia)).
  split; [lia|]. mask_ones. rewrite bitfield_alt by lia. unfold asUintN.
  replace ((w0 mod 2 ^ 256) / 2 ^ 248) with ((w0 / 2 ^ 248) mod 2 ^ 8).
  { rewrite F1, Z.mod_mod by lia. replace (memorySlot rec) with (memorySlot rec - 256 + 1 * 2 ^ 8) at 1 by lia.
    rewrite Z.mod_add by lia. apply Z.mod_small. lia. }
  change (2 ^ 256) with (2 ^ 248 * 2 ^ 8). rewrite Z.rem_mul_r by lia.
  rewrite (Z.mul_comm (2 ^ 248)), Z.div_add by lia. rewrite (Z.div_small (w0 mod 2 ^ 248)) by lia. lia.
Qed.

(** Every valid codebook entry the encoder accepts decodes back to itself. *)
Theorem codebook_roundtrip (entry : CodebookEntry) (ws : list Z) :
  encodeCodebookEntry entry = Returns ws -> cb_valid entry = true ->
  exists w0, ws = [w0; payloadCont entry] /\ uint256 w0
    /\ codebook_words (code_entryIndex entry) w0 (payloadCont entry) = WOk entry.
Proof.
  intros H Hv. unfold encodeCodebookEntry in H. enc_hyps. subst ws. eexists. split; [reflexivity|].
  rewrite Hv. cbv iota. set (ty := match codeType entry with int8_scale_zero => 1 | pq => 2 end).
  assert (Hty : 0 < ty < 2 ^ 16 /\ CODE_TYPE_BY_BITS ty = Some (codeType entry)).
  { unfold ty. destruct (codeType entry); split; [lia|done|lia|done]. }
  destruct Hty as [Hty Hty'].
  match goal with |- uint256 ?x /\ _ => set (w := x) end.
  assert (F1 : bitfield w 240 16 = cb_code entry) by (unfold w; bf; lia).
  assert (F2 : bitfield w 224 16 = ty) by (unfold w; bf; lia).
  assert (F3 : bitfield w 208 16 = 1) by (unfold w; bf; lia).
  assert (F4 : bitfield w 0 208 = payload entry) by (unfold w; bf; lia).
  split.
  { unfold uint256, w. repeat apply lor_bound; rewrite ?Z.shiftl_mul_pow2 by lia; lia. }
  unfold codebook_words. mask_ones. rewrite (bitfield_nonzero _ 240 16) by (rewrite F1; lia).
  rewrite F1, F2, F3, F4, Hty'. cbn. destruct (Z.eqb_spec (cb_code entry) 0); [lia|].
  destruct entry; simpl in *. congruence.
Qed.

(** *** PolicyAtoms: the decoder accepts exactly the encodings of the atoms of
    the grammar, one word per atom. *)

(** The grammar of an atom, independent of its encoding. *)
Definition atom_admissible (a : PolicyAtom) : bool :=
  bool_decide (action a ∈ allowed (POLICY_REGIONS (atom_family a)))
  && bool_decide (selector a ∈ VALID_SELECTOR)
  && bool_decide (evidenceFeature a ∈ VALID_EVIDENCE_FEATURE)
  && ((0 <=? atom_targetSlot a) && (atom_targetSlot a <? POLICY_ANCHOR_SLOT_LIMIT)
      || bool_decide (action a = abstain) && (atom_targetSlot a =? POLICY_TARGET_NONE))
  && ((atom_validFrom a =? 0) || (atom_expiry a =? 0) || (atom_validFrom a <=? atom_expiry a)).

Lemma VALID_SELECTOR_bound x : x ∈ VALID_SELECTOR -> 0 < x < 2 ^ 8.
Proof. unfold VALID_SELECTOR. set_unfold. lia. Qed.
Lemma VALID_EVIDENCE_FEATURE_bound x : x ∈ VALID_EVIDENCE_FEATURE -> 0 < x < 2 ^ 8.
Proof. unfold VALID_EVIDENCE_FEATURE. set_unfold. lia. Qed.

(** The target-slot condition of the decoder is that of the grammar. *)
Lemma target_rule (act : PolicyAction) (t : Z) : 0 <= t < 2 ^ 16 ->
  (if decide (act = abstain)
   then negb (t =? POLICY_TARGET_NONE) && (POLICY_ANCHOR_SLOT_LIMIT <=? t)
   else (t =? POLICY_TARGET_NONE) || (POLICY_ANCHOR_SLOT_LIMIT <=? t))
  = negb ((0 <=? t) && (t <? POLICY_ANCHOR_SLOT_LIMIT)
          || bool_decide (act = abstain) && (t =? POLICY_TARGET_NONE)).
Proof.
  intros. unfold POLICY_TARGET_NONE, POLICY_ANCHOR_SLOT_LIMIT.
  destruct (decide (act = abstain)) as [Ha|Ha];
    [rewrite bool_decide_true by done | rewrite bool_decide_false by done];
    destruct (Z.eqb_spec t 65535), (Z.leb_spec 256 t), (Z.leb_spec 0 t), (Z.ltb_spec t 256); cbn; try done; lia.
Qed.

(** The field layout of an atom's word, as one disjoint union. *)
Definition atom_word (sel ev act sc tgt bud fl vf ex : Z) : Z :=
  Z.lor (Z.lor (Z.lor (Z.lor (Z.lor (Z.lor (Z.lor (Z.lor
    (Z.shiftl sel 248) (Z.shiftl ev 240)) (Z.shiftl act 236)) (Z.shiftl sc 232)) (Z.shiftl tgt 216))
    (Z.shiftl bud 200)) (Z.shiftl fl 192)) (Z.shiftl vf 152)) (Z.shiftl ex 112).

Lemma atom_word_fields sel ev act sc tgt bud fl vf ex :
  0 <= sel < 2 ^ 8 -> 0 <= ev < 2 ^ 8 -> 0 <= act < 2 ^ 4 -> 0 <= sc < 2 ^ 4 -> 0 <= tgt < 2 ^ 16 ->
  0 <= bud < 2 ^ 16 -> 0 <= fl < 2 ^ 8 -> 0 <= vf < 2 ^ 40 -> 0 <= ex < 2 ^ 40 ->
  let w := atom_word sel ev act sc tgt bud fl vf ex in
  uint256 w /\ bitfield w 248 8 = sel /\ bitfield w 240 8 = ev /\ bitfield w 236 4 = act
  /\ bitfield w 232 4 = sc /\ bitfield w 216 16 = tgt /\ bitfield w 200 16 = bud /\ bitfield w 192 8 = fl
  /\ bitfield w 152 40 = vf /\ bitfield w 112 40 = ex /\ bitfield w 0 112 = 0.
Proof.
  intros ????????? w. subst w. unfold atom_word. split.
  { unfold uint256. repeat apply lor_bound; rewrite ?Z.shiftl_mul_pow2 by lia; lia. }
  repeat split; bf; lia.
Qed.

(** Reassembling a word with zero padding from its fields. *)
Lemma atom_word_of_fields w : uint256 w -> bitfield w 0 112 = 0 ->
  atom_word (bitfield w 248 8) (bitfield w 240 8) (bitfield w 236 4) (bitfield w 232 4) (bitfield w 216 16)
    (bitfield w 200 16) (bitfield w 192 8) (bitfield w 152 40) (bitfield w 112 40) = w.
Proof.
  intros Hw Hp. rewrite <- (bitfield_full w 256) at 10 by (lia || apply Hw). unfold atom_word.
  rewrite (bitfield_split_word w 256 248), (bitfield_split_word w 248 240), (bitfield_split_word w 240 236),
    (bitfield_split_word w 236 232), (bitfield_split_word w 232 216), (bitfield_split_word w 216 200),
    (bitfield_split_word w 200 192), (bitfield_split_word w 192 152), (bitfield_split_word w 152 112) by lia.
  rewrite Hp, Z.lor_0_r, !Z.lor_assoc. done.
Qed.

Lemma encodePolicyAtom_admissible a : atom_admissible a = true ->
  0 <= budget a < 2 ^ 16 -> 0 <= flags a < 2 ^ 8 -> 0 <= atom_validFrom a < 2 ^ 40 -> 0 <= atom_expiry a < 2 ^ 40 ->
  encodePolicyAtom a = Returns (atom_word (selector a) (evidenceFeature a) (POLICY_ACTION_TO_BITS (action a))
    (POLICY_SCOPE_TO_BITS (scope a)) (atom_targetSlot a) (budget a) (flags a) (atom_validFrom a) (atom_expiry a)).
Proof.
  unfold atom_admissible. rewrite !andb_true_iff, !bool_decide_eq_true.
  intros ((((Ha & Hs) & He) & Ht) & _) ????. apply VALID_SELECTOR_bound in Hs.
  apply VALID_EVIDENCE_FEATURE_bound in He. unfold encodePolicyAtom.
  destruct (Z.leb_spec (selector a) 0), (Z.ltb_spec 255 (selector a)); try lia.
  destruct (Z.leb_spec (evidenceFeature a) 0), (Z.ltb_spec 255 (evidenceFeature a)); try lia.
  pose proof (POLICY_ACTION_bound (action a)). pose proof (POLICY_SCOPE_bound (scope a)).
  destruct (Z.eqb_spec (POLICY_ACTION_TO_BITS (action a)) 0); [lia|].
  destruct (Z.eqb_spec (POLICY_SCOPE_TO_BITS (scope a)) 0); [lia|].
  destruct (Z.ltb_spec (budget a) 0), (Z.ltb_spec 65535 (budget a)); try lia.
  destruct (Z.ltb_spec (flags a) 0), (Z.ltb_spec 255 (flags a)); try lia.
  rewrite !(proj2 (shiftr_zero _ 40 ltac:(lia))) by lia.
  replace (negb (atom_targetSlot a =? POLICY_TARGET_NONE)
    && ((atom_targetSlot a <? 0) || (POLICY_ANCHOR_SLOT_LIMIT <=? atom_targetSlot a))) with false; [reflexivity|].
  symmetry. apply orb_true_iff in Ht as [Ht|Ht]; bool_hyps.
  - apply andb_false_iff; right. apply orb_false_iff. rewrite Z.ltb_ge, Z.leb_gt. lia.
  - apply andb_false_iff; left. apply negb_false_iff, Z.eqb_eq. done.
Qed.

Lemma encodePolicyAtom_bounds a w : encodePolicyAtom a = Returns w ->
  0 <= budget a < 2 ^ 16 /\ 0 <= flags a < 2 ^ 8 /\ 0 <= atom_validFrom a < 2 ^ 40 /\ 0 <= atom_expiry a < 2 ^ 40.
Proof. intros H. unfold encodePolicyAtom in H. enc_hyps. lia. Qed.

(** A decoded word is the encoding of its atom, and the atom is in the grammar. *)
Lemma policy_word_sound fam k w a : uint256 w -> policy_word fam k w = WOk a ->
  encodePolicyAtom a = Returns w /\ atom_family a = fam /\ atomIndex a = k /\ atom_admissible a = true.
Proof.
  intros Hw H. unfold policy_word in H. mask_ones.
  destruct (w =? 0); [done|]. destruct (bitfield w 0 112 =? 0) eqn:Hp; [|done]. cbn [negb] in H.
  destruct (POLICY_ACTION_BY_BITS _) as [act|] eqn:Hact; [|done].
  destruct (POLICY_SCOPE_BY_BITS _) as [sc|] eqn:Hsc; [|done].
  rewrite target_rule in H by (apply (bitfield_bound w 216 16); lia).
  destruct (bool_decide (act ∈ _)) eqn:Hall; [|done]. cbn [negb] in H.
  destruct (bool_decide (_ ∈ VALID_SELECTOR)) eqn:Hsel; [|done].
  destruct (bool_decide (_ ∈ VALID_EVIDENCE_FEATURE)) eqn:Hev; [|done]. cbn [negb orb] in H.
  destruct (_ && _ || _) eqn:Htgt in H; [|done]. cbn [negb] in H.
  destruct (_ && _ && _) eqn:Hep in H; [done|].
  injection H as <-. apply Z.eqb_eq in Hp.
  assert (Hadm : atom_admissible (mkAtom k fam (bitfield w 248 8) (bitfield w 240 8) act sc (bitfield w 216 16)
    (bitfield w 200 16) (bitfield w 192 8) (bitfield w 152 40) (bitfield w 112 40)) = true).
  { unfold atom_admissible. cbn [action selector evidenceFeature atom_family atom_targetSlot atom_validFrom atom_expiry].
    rewrite Hall, Hsel, Hev, Htgt. cbn [andb].
    pose proof (bitfield_bound w 152 40). pose proof (bitfield_bound w 112 40).
    rewrite !orb_true_iff, !Z.eqb_eq, Z.leb_le. rewrite !andb_false_iff, !Z.ltb_ge in Hep. lia. }
  split; [|done]. rewrite encodePolicyAtom_admissible by (done || apply bitfield_bound; lia). simpl.
  rewrite (POLICY_ACTION_bits _ _ Hact), (POLICY_SCOPE_bits _ _ Hsc), atom_word_of_fields by done. done.
Qed.

(** The encoding of an atom of the grammar decodes to the atom. *)
Lemma policy_word_complete a w : atom_admissible a = true -> encodePolicyAtom a = Returns w ->
  uint256 w /\ policy_word (atom_family a) (atomIndex a) w = WOk a.
Proof.
  intros Hadm Henc. destruct (encodePolicyAtom_bounds a w Henc) as (Hb & Hf & Hvf & Hex).
  rewrite encodePolicyAtom_admissible in Henc by done. injection Henc as <-.
  unfold atom_admissible in Hadm. rewrite !andb_true_iff, !bool_decide_eq_true in Hadm.
  destruct Hadm as ((((Ha & Hs) & He) & Ht) & Hep).
  assert (Htgt : 0 <= atom_targetSlot a < 2 ^ 16).
  { unfold POLICY_ANCHOR_SLOT_LIMIT, POLICY_TARGET_NONE in Ht. apply orb_true_iff in Ht as [Ht|Ht]; bool_hyps; lia. }
  pose proof (VALID_SELECTOR_bound _ Hs). pose proof (VALID_EVIDENCE_FEATURE_bound _ He).
  pose proof (POLICY_ACTION_bound (action a)). pose proof (POLICY_SCOPE_bound (scope a)).
  edestruct (atom_word_fields (selector a) (evidenceFeature a) (POLICY_ACTION_TO_BITS (action a))
    (POLICY_SCOPE_TO_BITS (scope a)) (atom_targetSlot a) (budget a) (flags a) (atom_validFrom a) (atom_expiry a))
    as (Hw & F1 & F2 & F3 & F4 & F5 & F6 & F7 & F8 & F9 & F10); [lia..|].
  cbv zeta in *. set (w := atom_word _ _ _ _ _ _ _ _ _) in *. clearbody w. split; [done|].
  unfold policy_word. mask_ones. rewrite (bitfield_nonzero w 248 8) by (rewrite F1; lia).
  rewrite F1, F2, F3, F4, F5, F6, F7, F8, F9, F10, POLICY_ACTION_roundtrip, POLICY_SCOPE_roundtrip.
  rewrite target_rule, Ht, !bool_decide_true by done. cbn [negb orb Z.eqb].
  destruct (_ && _ && _) eqn:E; [|by destruct a].
  exfalso. rewrite !orb_true_iff, !Z.eqb_eq, Z.leb_le in Hep. bool_hyps. lia.
Qed.

(** The decoder of a policy word accepts exactly the canonical encodings of
    grammatical atoms: there is no second spelling of an atom, and no word
    outside the grammar is accepted. *)
Theorem policyAtom_decode_iff_encode (fam : PolicyAtomFamily) (k w : Z) (a : PolicyAtom) :
  uint256 w ->
  (policy_word fam k w = WOk a <->
   encodePolicyAtom a = Returns w /\ atom_family a = fam /\ atomIndex a = k /\ atom_admissible a = true).
Proof.
  intros Hw. split; [by apply policy_word_sound|].
  intros (He & <- & <- & Ha). by apply policy_word_complete.
Qed.

(** ** Counters and filters of the composite decode. *)
Definition region_ok {A} (n : Z) (r : region A) : Prop := 0 <= failures r <= attempts r /\ attempts r <= n.

Lemma fold_left_seqZ_ind {A} (P : Z -> A -> Prop) (f : A -> Z -> A) (a0 : A) n :
  0 <= n -> P 0 a0 -> (forall i a, 0 <= i < n -> P i a -> P (i + 1) (f a i)) -> P n (fold_left f (seqZ 0 n) a0).
Proof.
  intros Hn H0 Hs. assert (Hk : forall k, 0 <= k <= n -> P k (fold_left f (seqZ 0 k) a0)).
  { intros k Hk. destruct Hk as [Hk Hkn]. revert Hkn. pattern k. apply natlike_ind; [done| |done].
    intros x Hx IH ?. unfold Z.succ. rewrite seqZ_app, fold_left_app by lia. change (seqZ (0 + x) 1) with [0 + x].
    cbn [fold_left]. rewrite Z.add_0_l. apply Hs; [lia|]. apply IH; lia. }
  apply Hk. lia.
Qed.

Lemma slot_loop_ok {A} (f : Z -> word_result A) n : 0 <= n ->
  region_ok n (slot_loop f n) /\ Z.of_nat (length (items (slot_loop f n))) = n.
Proof.
  intros Hn. unfold slot_loop.
  apply (fold_left_seqZ_ind (fun k r => region_ok k r /\ Z.of_nat (length (items r)) = k)); [done| |].
  - split; [split; simpl; lia|done].
  - intros i r Hi [[Hf Ha] Hl]. unfold region_ok.
    destruct (f i); simpl; rewrite length_app; simpl; lia.
Qed.

Lemma sparse_loop_ok {A} (f : Z -> word_result A) n : 0 <= n -> region_ok n (sparse_loop f n)
  /\ Z.of_nat (length (items (sparse_loop f n))) <= attempts (sparse_loop f n) - failures (sparse_loop f n).
Proof.
  intros Hn. unfold sparse_loop.
  apply (fold_left_seqZ_ind (fun k r => region_ok k r /\ Z.of_nat (length (items r)) <= attempts r - failures r));
    [done|split; [split; simpl; lia|done]|].
  intros i r Hi [[Hf Ha] Hl]. unfold region_ok. destruct (f i); simpl; rewrite ?length_app; simpl; lia.
Qed.

Lemma filter_loop_spec {A} (p : A -> bool) l :
  filter_loop p l = mkRegion (filter p l) (Z.of_nat (length l)) (Z.of_nat (length l) - Z.of_nat (length (filter p l))).
Proof.
  unfold filter_loop. assert (H : forall acc, fold_left (fun acc t =>
      if p t then mkRegion (items acc ++ [t]) (attempts acc + 1) (failures acc)
      else mkRegion (items acc) (attempts acc + 1) (failures acc + 1)) l acc
    = mkRegion (items acc ++ filter p l) (attempts acc + Z.of_nat (length l))
        (failures acc + (Z.of_nat (length l) - Z.of_nat (length (filter p l))))).
  { induction l as [|x l IH]; intros [its a f]; cbn [fold_left length].
    - rewrite filter_nil, app_nil_r; simpl. f_equal; lia.
    - rewrite IH, filter_cons. destruct (p x); cbn [items attempts failures].
      + rewrite decide_True by done. rewrite <- app_assoc. simpl. f_equal; lia.
      + rewrite decide_False by (intros []). f_equal; lia. }
  rewrite H. simpl. f_equal; lia.
Qed.

Lemma filter_le {A} (p : A -> bool) (l : list A) : (length (filter p l) <= length l)%nat.
Proof. apply length_filter. Qed.

Lemma policyReserved_bound s : 0 <= policyReservedNonZeroWords s <= 96.
Proof.
  unfold policyReservedNonZeroWords. set (l := seqZ _ _).
  assert (Hl : length l = 96%nat) by reflexivity. change 96 with (Z.of_nat 96). rewrite <- Hl. clear Hl. clearbody l.
  assert (H : forall n, n <= fold_left (fun n w => if negb (word_at s w =? 0) then n + 1 else n) l n
              <= n + Z.of_nat (length l)).
  { induction l as [|x l IH]; intros n; cbn [fold_left length]; [lia|].
    destruct (negb _); [specialize (IH (n + 1))|specialize (IH n)]; lia. }
  specialize (H 0). lia.
Qed.

Lemma empty_region_ok {A} n : 0 <= n -> region_ok n (@empty_region A).
Proof. split; simpl; lia. Qed.

Lemma decodeMemoryIndex_ok s : region_ok 352 (decodeMemoryIndex s) /\ Z.of_nat (length (items (decodeMemoryIndex s))) = 352.
Proof. unfold decodeMemoryIndex, MEMORY_INDEX_SLOT_COUNT. apply slot_loop_ok. lia. Qed.
Lemma decodeRetrievalKeys_ok s opts : region_ok 36 (decodeRetrievalKeys s opts).
Proof. unfold decodeRetrievalKeys, RETRIEVAL_KEY_SLOT_COUNT. apply slot_loop_ok. lia. Qed.
Lemma decodeCodebook_ok s : region_ok 48 (decodeCodebook s).
Proof. unfold decodeCodebook, CODEBOOK_ENTRY_COUNT. apply slot_loop_ok. lia. Qed.
Lemma decodeTemporal_ok s : region_ok 96 (decodeTemporal s)
  /\ Z.of_nat (length (items (decodeTemporal s))) <= attempts (decodeTemporal s) - failures (decodeTemporal s).
Proof. unfold decodeTemporal. change TEMPORAL_RECORD_COUNT with 96. apply sparse_loop_ok. lia. Qed.
Lemma decodeRelations_ok s :
  0 <= rel_failures (decodeRelations s) <= rel_attempts (decodeRelations s) /\ rel_attempts (decodeRelations s) <= 128.
Proof.
  unfold decodeRelations, RELATIONS_ENTRY_COUNT. cbn [rel_failures rel_attempts]. apply (proj1 (sparse_loop_ok _ 128 ltac:(lia))).
Qed.
Lemma decodePolicyAtomRegion_ok s fam : region_ok 128 (decodePolicyAtomRegion s fam).
Proof.
  unfold decodePolicyAtomRegion. set (n := reg_count _).
  assert (Hn : 0 <= n <= 128) by (unfold n; destruct fam; vm_compute; intuition congruence).
  destruct (sparse_loop_ok (fun k => policy_word fam k (word_at s (reg_start (POLICY_REGIONS fam) + k))) n) as [H _]; [lia|].
  unfold region_ok in *. lia.
Qed.

Lemma temporal_valid_spec slots t : temporal_valid slots t = true ->
  exists slot, js_get slots (memorySlot t) = Some (Some slot) /\ (currentStaleFlag t = true -> revoked slot = true).
Proof.
  unfold temporal_valid. destruct (js_get _ _) as [[slot|]|]; cbn; [|done..].
  intros H. exists slot. split; [done|]. intros E. rewrite E in H. by destruct (revoked slot).
Qed.

Lemma relationEdgeValid_spec e slots : relationEdgeValid e slots = true ->
  exists src tgt, js_get slots (sourceSlot e) = Some (Some src) /\ js_get slots (targetSlot e) = Some (Some tgt)
    /\ valid src = true /\ valid tgt = true /\ Z.land (domainBits src) (domainBits tgt) <> 0.
Proof.
  unfold relationEdgeValid. destruct (js_get slots (sourceSlot e)) as [[src|]|]; cbn; [|done..].
  destruct (js_get slots (targetSlot e)) as [[tgt|]|]; cbn; [|done..]. intros H. exists src, tgt.
  destruct (valid src), (valid tgt); cbn in H; try done. destruct (_ || _); [done|].
  apply negb_true_iff, Z.eqb_neq in H. done.
Qed.

Lemma decodeSubstrate_consistent (s : CortexState) (opts : DecoderOptions) :
  let d := decodeSubstrate s opts in
  0 <= decodeFailures d <= decodeAttempts d
  /\ decodeAttempts d <= 1152 /\ decodedSlots d = decodeAttempts d - decodeFailures d
  /\ Z.of_nat (length (memoryIndex d)) = 352
  /\ (policyAtomsMode opts = true -> retrievalKeys d = [] /\ codebook d = [])
  /\ (policyAtomsMode opts = false ->
        evidenceBundleAtoms d = [] /\ conflictLifecycleAtoms d = [] /\ abstentionAtoms d = [])
  /\ (forall t, t ∈ dec_temporal d -> exists slot, js_get (memoryIndex d) (memorySlot t) = Some (Some slot)
        /\ (currentStaleFlag t = true -> revoked slot = true))
  /\ (forall e, e ∈ relations d -> exists src tgt,
        js_get (memoryIndex d) (sourceSlot e) = Some (Some src)
        /\ js_get (memoryIndex d) (targetSlot e) = Some (Some tgt)
        /\ valid src = true /\ valid tgt = true /\ Z.land (domainBits src) (domainBits tgt) <> 0).
Proof.
  intros d. subst d. unfold decodeSubstrate. rewrite !filter_loop_spec.
  cbn [memoryIndex retrievalKeys relations dec_temporal codebook decodedSlots decodeFailures decodeAttempts
    evidenceBundleAtoms conflictLifecycleAtoms abstentionAtoms items attempts failures].
  pose proof (decodeMemoryIndex_ok s) as [Hm Hml]. pose proof (decodeRelations_ok s) as Hr.
  pose proof (decodeTemporal_ok s) as [Ht Htl]. pose proof (decodeRetrievalKeys_ok s opts) as Hk.
  pose proof (decodeCodebook_ok s) as Hc. pose proof (decodePolicyAtomRegion_ok s) as Hp.
  pose proof (policyReserved_bound s) as Hres.
  pose proof (filter_le (temporal_valid (items (decodeMemoryIndex s))) (items (decodeTemporal s))) as Hf.
  generalize dependent (decodeMemoryIndex s). generalize dependent (decodeRelations s).
  generalize dependent (decodeTemporal s). generalize dependent (decodeRetrievalKeys s opts).
  generalize dependent (decodeCodebook s). generalize dependent (policyReservedNonZeroWords s).
  pose proof (Hp evidence_bundle) as He. pose proof (Hp conflict_lifecycle) as Hcl. pose proof (Hp abstention) as Hab. clear Hp.
  generalize dependent (decodePolicyAtomRegion s evidence_bundle).
  generalize dependent (decodePolicyAtomRegion s conflict_lifecycle).
  generalize dependent (decodePolicyAtomRegion s abstention).
  intros ab Hab cl Hcl eb He res Hres cb Hc keys Hk temp Ht Htl rels Hr mem Hm Hml Hf.
  unfold region_ok in *.
  split; [destruct (policyAtomsMode opts); simpl; lia|]. split; [destruct (policyAtomsMode opts); simpl; lia|].
  split; [done|]. split; [done|]. split; [by intros ->|]. split; [by intros ->|]. split.
  - intros t [Hv _]%list_elem_of_filter. apply temporal_valid_spec. by apply Is_true_true.
  - intros e [Hv _]%list_elem_of_filter. apply relationEdgeValid_spec. by apply Is_true_true.
Qed.

(** C40. The counters of every decode are consistent and bounded by the number of
    words, the r4/r5 gate interprets the reclaimed words one way only, every
    surviving temporal record names a live slot (and a stale one is
    revoked), and every surviving edge joins two live slots that share a
    domain bit. *)
Theorem decodeSubstrate_invariant (s : CortexState) (opts : DecoderOptions) :
  let d := decodeSubstrate s opts in
  0 <= decodeFailures d <= decodeAttempts d
  /\ decodeAttempts d <= 1152 /\ decodedSlots d = decodeAttempts d - decodeFailures d
  /\ Z.of_nat (length (memoryIndex d)) = 352
  /\ (policyAtomsMode opts = true -> retrievalKeys d = [] /\ codebook d = [])
  /\ (policyAtomsMode opts = false ->
        evidenceBundleAtoms d = [] /\ conflictLifecycleAtoms d = [] /\ abstentionAtoms d = [])
  /\ (forall t, t ∈ dec_temporal d -> exists slot, js_get (memoryIndex d) (memorySlot t) = Some (Some slot)
        /\ (currentStaleFlag t = true -> revoked slot = true))
  /\ (forall e, e ∈ relations d -> exists src tgt,
        js_get (memoryIndex d) (sourceSlot e) = Some (Some src)
        /\ js_get (memoryIndex d) (targetSlot e) = Some (Some tgt)
        /\ valid src = true /\ valid tgt = true /\ Z.land (domainBits src) (domainBits tgt) <> 0).
Proof. apply decodeSubstrate_consistent. Qed.

(** ** The decode reads words 32..991 only. *)
Definition same_words (lo hi : Z) (s1 s2 : CortexState) : Prop :=
  forall i, lo <= i <= hi -> word_at s1 i = word_at s2 i.

Lemma fold_left_ext_on {A B} (f g : A -> B -> A) l a :
  (forall x b, b ∈ l -> f x b = g x b) -> fold_left f l a = fold_left g l a.
Proof.
  revert a. induction l as [|b l IH]; intros a H; cbn [fold_left]; [done|].
  rewrite H by apply list_elem_of_here. apply IH. intros x c Hc. apply H. by apply list_elem_of_further.
Qed.

Lemma slot_loop_ext {A} (f g : Z -> word_result A) n :
  (forall i, 0 <= i < n -> f i = g i) -> slot_loop f n = slot_loop g n.
Proof.
  intros H. apply fold_left_ext_on. intros x b Hb%elem_of_seqZ. by rewrite H by lia.
Qed.

Lemma sparse_loop_ext {A} (f g : Z -> word_result A) n :
  (forall i, 0 <= i < n -> f i = g i) -> sparse_loop f n = sparse_loop g n.
Proof.
  intros H. apply fold_left_ext_on. intros x b Hb%elem_of_seqZ. by rewrite H by lia.
Qed.

Lemma existsb_ext_on {A} (f g : A -> bool) l : (forall x, x ∈ l -> f x = g x) -> existsb f l = existsb g l.
Proof.
  induction l as [|x l IH]; intros H; cbn [existsb]; [done|].
  rewrite H by apply list_elem_of_here. rewrite IH; [done|]. intros y Hy. apply H. by apply list_elem_of_further.
Qed.

Lemma bind_ext_on {A B} (f g : A -> list B) l : (forall x, x ∈ l -> f x = g x) -> l ≫= f = l ≫= g.
Proof.
  induction l as [|x l IH]; intros H; [done|]. rewrite !bind_cons, IH by (intros; apply H; by apply list_elem_of_further).
  by rewrite H by apply list_elem_of_here.
Qed.

Lemma wordsToBytes_ext s1 s2 base n : (forall i, base <= i < base + n -> word_at s1 i = word_at s2 i) ->
  wordsToBytes (words s1) base n = wordsToBytes (words s2) base n.
Proof.
  intros H. unfold wordsToBytes. apply bind_ext_on. intros w Hw%elem_of_seqZ.
  unfold word_at in H. by rewrite H by lia.
Qed.

(** The header and the reserved tail never influence a decode: two states
    that agree on words 32..991 decode to the same substrate, under r4 and r5. *)
Theorem decodeSubstrate_reads (s1 s2 : CortexState) (opts : DecoderOptions) :
  same_words 32 991 s1 s2 -> decodeSubstrate s1 opts = decodeSubstrate s2 opts.
Proof.
  intros H. unfold same_words in H.
  assert (Hm : decodeMemoryIndex s1 = decodeMemoryIndex s2).
  { apply slot_loop_ext. unfold MEMORY_INDEX_SLOT_COUNT, RANGES.MEMORY_INDEX_START, MEMORY_INDEX_WORDS_PER_SLOT.
    intros i Hi. cbn [Z.sub seqZ existsb]. rewrite H by lia. done. }
  assert (Hr : decodeRelations s1 = decodeRelations s2).
  { unfold decodeRelations. erewrite sparse_loop_ext; [done|].
    unfold RELATIONS_ENTRY_COUNT, RANGES.RELATIONS_START. intros i Hi. cbv beta. rewrite H by lia. done. }
  assert (Ht : decodeTemporal s1 = decodeTemporal s2).
  { apply sparse_loop_ext. change TEMPORAL_RECORD_COUNT with 96.
    unfold RANGES.TEMPORAL_START, TEMPORAL_WORDS_PER_RECORD. intros i Hi. rewrite H by lia. done. }
  assert (Hk : decodeRetrievalKeys s1 opts = decodeRetrievalKeys s2 opts).
  { apply slot_loop_ext. unfold RETRIEVAL_KEY_SLOT_COUNT, RANGES.RETRIEVAL_KEYS_START, RETRIEVAL_KEY_WORDS_PER_SLOT.
    intros i Hi. rewrite (wordsToBytes_ext s1 s2) by (intros; apply H; lia).
    erewrite existsb_ext_on; [done|]. intros x Hx%elem_of_seqZ. cbv beta. by rewrite H by lia. }
  assert (Hc : decodeCodebook s1 = decodeCodebook s2).
  { apply slot_loop_ext. unfold CODEBOOK_ENTRY_COUNT, RANGES.CODEBOOK_START, CODEBOOK_WORDS_PER_ENTRY.
    intros i Hi. by rewrite !H by lia. }
  assert (Hp : forall fam, decodePolicyAtomRegion s1 fam = decodePolicyAtomRegion s2 fam).
  { intros fam. apply sparse_loop_ext. intros i Hi. rewrite H; [done|].
    destruct fam; cbn [POLICY_REGIONS reg_start reg_count] in *; unfold RANGES.POLICY_EVIDENCE_START,
      RANGES.POLICY_EVIDENCE_END, RANGES.POLICY_CONFLICT_START, RANGES.POLICY_CONFLICT_END,
      RANGES.POLICY_ABSTENTION_START, RANGES.POLICY_ABSTENTION_END in *; lia. }
  assert (Hn : policyReservedNonZeroWords s1 = policyReservedNonZeroWords s2).
  { apply fold_left_ext_on. unfold RANGES.POLICY_RESERVED_START, RANGES.POLICY_RESERVED_END.
    intros x b Hb%elem_of_seqZ. by rewrite H by lia. }
  unfold decodeSubstrate. by rewrite Hm, Hr, Ht, Hk, Hc, !Hp, Hn.
Qed.

(** ** The structural score. *)
Lemma of_Z_pos_small a : 1 <= a <= 1152 -> exists m e, of_Z a = S754_finite false m e.
Proof.
  intros Ha. assert (H : forallb (fun a => match of_Z a with S754_finite false _ _ => true | _ => false end)
    (seqZ 1 1152) = true) by (vm_compute; reflexivity).
  rewrite forallb_forall in H. specialize (H a). destruct (of_Z a) as [| | |[] m e]; try (discriminate H;
    apply list_elem_of_In, elem_of_seqZ; lia); by eauto.
Qed.

(** A decode without failures scores exactly 1 unless the lens floor rejects
    it, which scores exactly 0; no score is below 0. *)
Theorem structuralValidity_spec (s : CortexState) (opts : DecoderOptions) :
  let d := decodeSubstrate s opts in
  let collapsed := match lensDiversityCheck d with Some c => negb (ok c) | None => false end in
  (collapsed = true -> structuralValidity d = of_Z 0)
  /\ (collapsed = false -> decodeFailures d = 0 -> structuralValidity d = of_Z 1)
  /\ dlt (structuralValidity d) (of_Z 0) = false.
Proof.
  intros d collapsed. destruct (decodeSubstrate_consistent s opts) as (Hf & Ha & _). fold d in Hf, Ha.
  unfold structuralValidity. fold collapsed. split; [by intros ->|]. split.
  - intros -> Hz. rewrite Hz. destruct (Z.leb_spec (decodeAttempts d) 0); [done|].
    destruct (of_Z_pos_small (decodeAttempts d)) as (m & e & ->); [lia|]. reflexivity.
  - destruct collapsed; [done|]. destruct (decodeAttempts d <=? 0); [done|]. unfold math_max.
    generalize (dsub (of_Z 1) (ddiv (of_Z (decodeFailures d)) (of_Z (decodeAttempts d)))). intros x.
    destruct (_ || _) eqn:Hn; [done|]. destruct (dlt (of_Z 0) x) eqn:Hl; [|done].
    destruct x as [sx| [] | |[] mx ex]; done.
Qed.

(** A lens payload whose float is NaN defeats the diversity floor: two
    identical keys are admitted under every floor. *)
Definition nan_key (slot : Z) : RetrievalKeySlot := mkKey slot "0x00000000" (of_Z 1) 1 [0x7f; 0xc0; 0x3f; 0x80].

Theorem lensDiversity_nan_bypass (floor : number) :
  ok (checkLensDiversity [Some (nan_key 0); Some (nan_key 1)] floor (mkLayout 2 9 bf16)) = true.
Proof.
  unfold checkLensDiversity, nan_key. cbn [omap list_omap id length Nat.ltb Nat.leb].
  assert (E : cosineSim (dequantizeKeyVector [0x7f; 0xc0; 0x3f; 0x80] (mkLayout 2 9 bf16))
    (dequantizeKeyVector [0x7f; 0xc0; 0x3f; 0x80] (mkLayout 2 9 bf16)) = S754_nan) by (vm_compute; reflexivity).
  cbn [map pairs_of app fold_left quantizedBytes]. rewrite E.
  rewrite (proj1 (nan_dadd _)). cbn [Z.ltb Z.add Z.compare ddiv SFdiv]. by rewrite (proj1 (nan_dlt _)).
Qed.

(** ** Witnesses. *)
Definition slot_1 : MemoryIndexSlot := mkSlot 0 1 temporal 1 true false false true 3 9.
Definition edge_1 : RelationEdge := mkEdge 2 5 causes 0 1.
Definition edge_hi : RelationEdge := mkEdge 2 5 causes 300 1.
Definition lens_1 : RelationCategoryLens := mkLens 4 7 supports.
Definition temporal_1 : TemporalRecord := mkTemporal 3 1 2 10 20 true.
Definition temporal_hi : TemporalRecord := mkTemporal 3 256 2 10 20 true.
Definition code_1 : CodebookEntry := mkCode 1 2 pq true 3 4.
Definition atom_1 : PolicyAtom := mkAtom 0 evidence_bundle 1 2 bundle entity 5 3 0 0 0.

Lemma memoryIndex_roundtrip_witness : exists ws, encodeMemoryIndexSlot slot_1 = Returns ws
  /\ exists w0, ws = [w0; 0; 0; 0; 0; 0; 0; 0] /\ uint256 w0 /\ memory_slot (slotIndex slot_1) w0 = WOk slot_1.
Proof. eexists. split; [vm_compute; reflexivity|]. apply (memoryIndex_roundtrip slot_1); [vm_compute; reflexivity|done|done]. Defined.

Lemma relationEdge_roundtrip_witness : exists w, encodeRelationEdge edge_1 = Returns w
  /\ uint256 w /\ relation_word (edge_entryIndex edge_1) w = WOk (Edge edge_1).
Proof. eexists. split; [vm_compute; reflexivity|]. apply (relationEdge_roundtrip edge_1); [vm_compute; reflexivity|done|done]. Defined.

Lemma relationEdge_high_slot_lost_witness : exists w, encodeRelationEdge edge_hi = Returns w /\ relation_word 2 w = WFail.
Proof.
  eexists. split; [vm_compute; reflexivity|].
  apply (relationEdge_high_slot_lost edge_hi); [vm_compute; reflexivity|left; vm_compute; discriminate].
Defined.

Lemma categoryLens_roundtrip_witness : exists w, encodeRelationCategoryLens lens_1 = Returns w
  /\ uint256 w /\ relation_word (lens_entryIndex lens_1) w = WOk (Lens lens_1).
Proof. eexists. split; [vm_compute; reflexivity|]. apply (categoryLens_roundtrip lens_1); vm_compute; reflexivity. Defined.

Lemma temporal_roundtrip_witness : exists ws, encodeTemporalRecord temporal_1 = Returns ws
  /\ exists w0, ws = [w0] /\ uint256 w0 /\ temporal_word (recordIndex temporal_1) w0 = WOk temporal_1.
Proof. eexists. split; [vm_compute; reflexivity|]. apply (temporal_roundtrip temporal_1); [vm_compute; reflexivity|done|done]. Defined.

Lemma temporal_high_slot_aliases_witness : exists ws, encodeTemporalRecord temporal_hi = Returns ws
  /\ exists w0, ws = [w0] /\ 2 ^ 256 <= w0 /\ field (asUintN 256 w0) 248 MASK_8 = memorySlot temporal_hi - 256.
Proof.
  eexists. split; [vm_compute; reflexivity|].
  apply (temporal_high_slot_aliases temporal_hi); [vm_compute; reflexivity|vm_compute; discriminate].
Defined.

Lemma codebook_roundtrip_witness : exists ws, encodeCodebookEntry code_1 = Returns ws
  /\ exists w0, ws = [w0; payloadCont code_1] /\ uint256 w0
     /\ codebook_words (code_entryIndex code_1) w0 (payloadCont code_1) = WOk code_1.
Proof. eexists. split; [vm_compute; reflexivity|]. apply (codebook_roundtrip code_1); [vm_compute; reflexivity|done]. Defined.

Lemma policyAtom_decode_iff_encode_witness : exists w, encodePolicyAtom atom_1 = Returns w
  /\ policy_word evidence_bundle 0 w = WOk atom_1.
Proof.
  eexists. split; [vm_compute; reflexivity|].
  apply (policyAtom_decode_iff_encode evidence_bundle 0); [vm_compute; intuition congruence|].
  split; [vm_compute; reflexivity|]. done.
Defined.

(** A header write, invisible to the decode. *)
Lemma decodeSubstrate_reads_witness :
  decodeSubstrate (mkState (<[0%nat := 1]> (words zero_state))) default_opts = decodeSubstrate zero_state default_opts.
Proof.
  apply (decodeSubstrate_reads _ zero_state default_opts). intros i Hi.
  unfold word_at, get0, js_get. destruct (Z.leb_spec 0 i); [|lia]. cbn [words].
  rewrite list_lookup_insert_ne by lia. done.
Defined.
