(* ===== verification/SlotPolicy.v ===== *)
(** * Deterministic write cursor (packages/coretex/src/substrate/slot-policy.ts)

    Patch builders pick the next slot of a region in ring order, skipping
    protected slots. The ring search is total: it returns the first
    unprotected slot at or after the cursor, or throws exactly when every
    slot is protected. *)
From S2P Require Import Prelude StateTypes.

Inductive SubstrateSlotRegion := memory_index | retrieval_keys.

Record SelectedSubstrateSlot := mkSelected {
  sel_region : SubstrateSlotRegion;
  sel_slotIndex : Z;
  wordIndex : Z;
  capacity : Z;
  wrapped : bool
}.

Definition SUBSTRATE_SLOT_CAPACITY (r : SubstrateSlotRegion) : Z :=
  match r with memory_index => 352 | retrieval_keys => 36 end.
Definition SUBSTRATE_WORDS_PER_SLOT (r : SubstrateSlotRegion) : Z :=
  match r with memory_index => 1 | retrieval_keys => 8 end.

(** [Number.isSafeInteger] on an integer. *)
Definition isSafeInteger (n : Z) : bool := (- (2 ^ 53 - 1) <=? n) && (n <=? 2 ^ 53 - 1).

Definition wordIndexForSubstrateSlot (region : SubstrateSlotRegion) (slotIndex wordOffset : Z) : outcome Z :=
  let capacity := SUBSTRATE_SLOT_CAPACITY region in
  _ ← throw_if (negb (isSafeInteger slotIndex) || (slotIndex <? 0) || (capacity <=? slotIndex))
        (GenericError "slotIndex out of range");
  let wordsPerSlot := SUBSTRATE_WORDS_PER_SLOT region in
  _ ← throw_if (negb (isSafeInteger wordOffset) || (wordOffset <? 0) || (wordsPerSlot <=? wordOffset))
        (GenericError "wordOffset out of range");
  let start := match region with memory_index => RANGES.MEMORY_INDEX_START | retrieval_keys => RANGES.RETRIEVAL_KEYS_START end in
  Returns (start + slotIndex * wordsPerSlot + wordOffset).

Fixpoint normalize_loop (slots : list Z) (capacity : Z) (out : list Z) : outcome (list Z) :=
  match slots with
  | [] => Returns out
  | slot :: slots' =>
    _ ← throw_if (negb (isSafeInteger slot) || (slot <? 0) || (capacity <=? slot))
          (GenericError "protected slot out of range");
    normalize_loop slots' capacity (jsset_add slot out)
  end.

Definition normalizeProtectedSlots (slots : option (list Z)) (capacity : Z) : outcome (list Z) :=
  match slots with
  | None => Returns []
  | Some slots => normalize_loop slots capacity []
  end.

(** The [tries] loop, [tries] iterations left. *)
Fixpoint ring_loop (tries : nat) (region : SubstrateSlotRegion) (protectedSlots : list Z)
    (advanceIndex slotIndex : Z) : outcome SelectedSubstrateSlot :=
  let capacity := SUBSTRATE_SLOT_CAPACITY region in
  match tries with
  | O => Throws (GenericError "no writable slots remain")
  | S tries' =>
    if negb (bool_decide (slotIndex ∈ protectedSlots)) then
      wi ← wordIndexForSubstrateSlot region slotIndex 0;
      Returns (mkSelected region slotIndex wi capacity (capacity <=? advanceIndex))
    else ring_loop tries' region protectedSlots advanceIndex ((slotIndex + 1) mod capacity)
  end.

Definition selectSubstrateSlot (region : SubstrateSlotRegion) (advanceIndex : Z)
    (opt_protectedSlots : option (list Z)) : outcome SelectedSubstrateSlot :=
  let capacity := SUBSTRATE_SLOT_CAPACITY region in
  _ ← throw_if (negb (isSafeInteger advanceIndex) || (advanceIndex <? 0))
        (GenericError "advanceIndex must be a non-negative safe integer");
  protectedSlots ← normalizeProtectedSlots opt_protectedSlots capacity;
  ring_loop (Z.to_nat capacity) region protectedSlots advanceIndex (advanceIndex mod capacity).

(** ** Facts *)
Lemma capacity_pos r : 0 < SUBSTRATE_SLOT_CAPACITY r <= 352.
Proof. destruct r; simpl; lia. Qed.

Lemma isSafeInteger_small n : 0 <= n < 2 ^ 53 -> isSafeInteger n = true.
Proof. intros. unfold isSafeInteger. apply andb_true_iff. rewrite !Z.leb_le. lia. Qed.

Lemma wordIndex_in_range r i : 0 <= i < SUBSTRATE_SLOT_CAPACITY r ->
  exists wi, wordIndexForSubstrateSlot r i 0 = Returns wi
  /\ wi = match r with memory_index => 32 + i | retrieval_keys => 384 + 8 * i end.
Proof.
  intros Hi. pose proof (capacity_pos r). unfold wordIndexForSubstrateSlot.
  rewrite !isSafeInteger_small by lia.
  destruct (Z.ltb_spec i 0), (Z.leb_spec (SUBSTRATE_SLOT_CAPACITY r) i); try lia.
  destruct r; simpl; eexists; (split; [reflexivity|]); unfold RANGES.MEMORY_INDEX_START, RANGES.RETRIEVAL_KEYS_START; lia.
Qed.

Lemma normalize_loop_spec slots cap out : cap <= 2 ^ 53 ->
  Forall (fun s => 0 <= s < cap) slots ->
  exists set, normalize_loop slots cap out = Returns set /\ (forall s, s ∈ set <-> s ∈ slots \/ s ∈ out).
Proof.
  intros Hc Hs. revert out. induction Hs as [|x slots Hx Hs IH]; intros out; cbn [normalize_loop].
  - exists out. split; [done|]. set_solver.
  - rewrite isSafeInteger_small by lia.
    destruct (Z.ltb_spec x 0), (Z.leb_spec cap x); try lia. cbn.
    destruct (IH (jsset_add x out)) as (set & -> & Hset). exists set. split; [done|].
    intros s. rewrite Hset, elem_of_jsset_add. set_solver.
Qed.

(** The slots after [start] in ring order, and the search over them. *)
Lemma ring_loop_spec r prot adv n start : 0 <= start < SUBSTRATE_SLOT_CAPACITY r ->
  let cap := SUBSTRATE_SLOT_CAPACITY r in
  (exists k, 0 <= k < Z.of_nat n /\ (start + k) mod cap ∉ prot
     /\ (forall j, 0 <= j < k -> (start + j) mod cap ∈ prot)
     /\ exists wi, wordIndexForSubstrateSlot r ((start + k) mod cap) 0 = Returns wi
        /\ ring_loop n r prot adv start = Returns (mkSelected r ((start + k) mod cap) wi cap (cap <=? adv)))
  \/ ((forall j, 0 <= j < Z.of_nat n -> (start + j) mod cap ∈ prot)
      /\ ring_loop n r prot adv start = Throws (GenericError "no writable slots remain")).
Proof.
  intros Hs cap. pose proof (capacity_pos r) as Hc. fold cap in Hs, Hc. revert start Hs.
  induction n as [|n IH]; intros start Hs; [right; split; [lia|done]|].
  cbn [ring_loop]. fold cap. case_bool_decide as Hp; cbn [negb].
  - destruct (IH ((start + 1) mod cap)) as [(k & Hk & Hn & Hj & wi & Hwi & E)|[Hj E]]; [apply Z.mod_pos_bound; lia| |].
    + left. exists (k + 1). rewrite Z.add_mod_idemp_l in * by lia.
      replace (start + (k + 1)) with (start + 1 + k) by lia.
      split; [lia|]. split; [done|]. split; [|by eauto].
      intros j Hj'. destruct (decide (j = 0)) as [->|]; [by rewrite Z.add_0_r, Z.mod_small by lia|].
      specialize (Hj (j - 1)). rewrite Z.add_mod_idemp_l in Hj by lia.
      replace (start + 1 + (j - 1)) with (start + j) in Hj by lia. apply Hj. lia.
    + right. split; [|done]. intros j Hj'. destruct (decide (j = 0)) as [->|]; [by rewrite Z.add_0_r, Z.mod_small by lia|].
      specialize (Hj (j - 1)). rewrite Z.add_mod_idemp_l in Hj by lia.
      replace (start + 1 + (j - 1)) with (start + j) in Hj by lia. apply Hj. lia.
  - left. exists 0. rewrite Z.add_0_r, Z.mod_small by lia. split; [lia|]. split; [done|]. split; [lia|].
    destruct (wordIndex_in_range r start) as (wi & Hwi & _); [done|]. exists wi. rewrite Hwi. done.
Qed.

(** With protected slots in range, the cursor search always terminates with
    one of two answers: the first unprotected slot at or after
    [advanceIndex mod capacity] in ring order, with a word index inside the
    region; or an exception, exactly when every slot is protected. *)
Theorem selectSubstrateSlot_spec (r : SubstrateSlotRegion) (adv : Z) (prot : list Z) :
  0 <= adv < 2 ^ 53 -> Forall (fun s => 0 <= s < SUBSTRATE_SLOT_CAPACITY r) prot ->
  let cap := SUBSTRATE_SLOT_CAPACITY r in
  (exists k sel, selectSubstrateSlot r adv (Some prot) = Returns sel
     /\ 0 <= k < cap /\ sel_slotIndex sel = (adv + k) mod cap /\ sel_slotIndex sel ∉ prot
     /\ (forall j, 0 <= j < k -> (adv + j) mod cap ∈ prot)
     /\ wordIndex sel = match r with memory_index => 32 + sel_slotIndex sel | retrieval_keys => 384 + 8 * sel_slotIndex sel end)
  \/ ((forall s, 0 <= s < cap -> s ∈ prot)
      /\ selectSubstrateSlot r adv (Some prot) = Throws (GenericError "no writable slots remain")).
Proof.
  intros Ha Hp cap. pose proof (capacity_pos r) as Hc. fold cap in Hc.
  unfold selectSubstrateSlot. fold cap. rewrite isSafeInteger_small by lia.
  destruct (Z.ltb_spec adv 0); [lia|]. cbn [negb orb throw_if mbind outcome_bind normalizeProtectedSlots].
  destruct (normalize_loop_spec prot cap []) as (set & -> & Hset); [lia|done|]. cbn [mbind outcome_bind].
  assert (Hset' : forall s, s ∈ set <-> s ∈ prot) by set_solver. clear Hset.
  destruct (ring_loop_spec r set adv (Z.to_nat cap) (adv mod cap)) as [(k & Hk & Hn & Hj & wi & Hwi & E)|[Hj E]];
    [apply Z.mod_pos_bound; lia|left|right]; fold cap in Hj, E; rewrite E.
  - fold cap in Hn, Hwi. rewrite Z.add_mod_idemp_l in * by lia. exists k, (mkSelected r ((adv + k) mod cap) wi cap (cap <=? adv)).
    split; [done|]. split; [lia|]. split; [done|]. cbn [sel_slotIndex wordIndex]. split; [by rewrite <- Hset'|]. split.
    + intros j Hj'. apply Hset'. specialize (Hj j Hj'). by rewrite Z.add_mod_idemp_l in Hj by lia.
    + destruct (wordIndex_in_range r ((adv + k) mod cap)) as (wi' & Hwi' & ->); [apply Z.mod_pos_bound; lia|].
      rewrite Hwi in Hwi'. by injection Hwi'.
  - split; [|done]. intros s Hs. apply Hset'. specialize (Hj ((s - adv) mod cap)).
    rewrite <- Zplus_mod in Hj. replace (adv + (s - adv)) with s in Hj by lia.
    rewrite (Z.mod_small s) in Hj by lia. apply Hj. pose proof (Z.mod_pos_bound (s - adv) cap). lia.
Qed.

Lemma selectSubstrateSlot_spec_witness :
  let cap := SUBSTRATE_SLOT_CAPACITY retrieval_keys in
  (exists k sel, selectSubstrateSlot retrieval_keys 71 (Some [35; 0; 35]) = Returns sel
     /\ 0 <= k < cap /\ sel_slotIndex sel = (71 + k) mod cap /\ sel_slotIndex sel ∉ [35; 0; 35]
     /\ (forall j, 0 <= j < k -> (71 + j) mod cap ∈ [35; 0; 35])
     /\ wordIndex sel = 384 + 8 * sel_slotIndex sel)
  \/ ((forall s, 0 <= s < cap -> s ∈ [35; 0; 35])
      /\ selectSubstrateSlot retrieval_keys 71 (Some [35; 0; 35]) = Throws (GenericError "no writable slots remain")).
Proof. apply (selectSubstrateSlot_spec retrieval_keys 71 [35; 0; 35]); [lia|]. repeat constructor; simpl; lia. Defined.

Example select_skips_protected : selectSubstrateSlot retrieval_keys 71 (Some [35; 0; 35])
  = Returns (mkSelected retrieval_keys 1 392 36 true).
Proof. reflexivity. Qed.
