(* ===== verification/Validate.v ===== *)
(** * Reserved-bit enforcement (packages/coretex/src/state/validate.ts)

    [reservedMask] gives the must-be-zero bits of every word,
    [hasNonZeroReservedBits] scans a state against the precomputed masks and
    [validatePolicyRegions] enforces the r5 grammar on the reclaimed words.
    Both scans are related to declarative conditions on the words. *)
From S2P Require Import Prelude StateTypes Float Codec Keccak Merkle Decoder Substrate.

Definition UINT256_MAX : Z := Z.shiftl 1 256 - 1.

(** A mask covering bits [hiInclusive] down to [loInclusive]. *)
Definition flagsMask (hiInclusive loInclusive : Z) : Z :=
  if hiInclusive <? loInclusive then 0
  else let width := hiInclusive - loInclusive + 1 in Z.shiftl (Z.shiftl 1 width - 1) loInclusive.

Definition headerReservedMask (wordIdx : Z) : Z :=
  match wordIdx with
  | 0 => Z.lor (Z.shiftl 1 192 - 1) (flagsMask 207 193)
  | 1 => Z.shiftl 1 128 - 1
  | 2 | 3 | 4 | 5 | 6 => 0
  | 7 => 0
  | 8 => Z.shiftl 1 64 - 1
  | 9 | 10 => 0
  | _ => UINT256_MAX
  end.

Definition memoryIndexSlotReservedMask (slotWord : Z) : Z :=
  match slotWord with 0 => 0 | 1 => 0 | _ => 0 end.
Definition retrievalKeySlotReservedMask (slotWord : Z) : Z := 0.
Definition codebookSlotReservedMask (slotWord : Z) : Z := 0.

Definition in_range (i lo hi : Z) : bool := (lo <=? i) && (i <=? hi).

Definition reservedMask (wordIdx : Z) : Z :=
  if in_range wordIdx RANGES.RESERVED_START RANGES.RESERVED_END then UINT256_MAX
  else if in_range wordIdx RANGES.HEADER_START RANGES.HEADER_END then headerReservedMask wordIdx
  else if in_range wordIdx RANGES.MEMORY_INDEX_START RANGES.MEMORY_INDEX_END then memoryIndexSlotReservedMask 0
  else if in_range wordIdx RANGES.RETRIEVAL_KEYS_START RANGES.RETRIEVAL_KEYS_END then
    retrievalKeySlotReservedMask ((wordIdx - RANGES.RETRIEVAL_KEYS_START) mod 8)
  else if in_range wordIdx RANGES.RELATIONS_START RANGES.RELATIONS_END then 0
  else if in_range wordIdx RANGES.TEMPORAL_START RANGES.TEMPORAL_END then Z.shiftl 1 152 - 1
  else if in_range wordIdx RANGES.CODEBOOK_START RANGES.CODEBOOK_END then
    codebookSlotReservedMask ((wordIdx - RANGES.CODEBOOK_START) mod 2)
  else 0.

Definition RESERVED_MASKS : list Z := map reservedMask (seqZ 0 1024).

Definition hasNonZeroReservedBits (state : CortexState) : bool :=
  existsb (fun i =>
      let mask := get0 RESERVED_MASKS i in
      negb (mask =? 0) && negb (Z.land (word_at state i) mask =? 0))
    (seqZ 0 RANGES.WORD_COUNT).

Definition validateReservedBits (state : CortexState) : option PatchError :=
  if hasNonZeroReservedBits state then Some (mkPatchError E04 MsgReservedBits) else None.

Fixpoint policy_families_check (state : CortexState) (families : list PolicyAtomFamily) : option PatchError :=
  match families with
  | [] => None
  | fam :: families' =>
    let f := failures (decodePolicyAtomRegion state fam) in
    if 0 <? f then Some (mkPatchError E02 (MsgInvalidAtoms f fam))
    else policy_families_check state families'
  end.

Definition validatePolicyRegions (state : CortexState) : option PatchError :=
  match policy_families_check state [evidence_bundle; conflict_lifecycle; abstention] with
  | Some err => Some err
  | None =>
    let reservedNonZero := policyReservedNonZeroWords state in
    if 0 <? reservedNonZero then Some (mkPatchError E04 (MsgReservedPolicyWords reservedNonZero)) else None
  end.

(** ** The masks, declaratively. *)

(** The reserved bits of a word by the layout of the state. *)
Definition word_reserved_clean (i w : Z) : Prop :=
  (i = 0 -> bitfield w 0 192 = 0 /\ bitfield w 193 15 = 0)
  /\ (i = 1 -> bitfield w 0 128 = 0)
  /\ (i = 8 -> bitfield w 0 64 = 0)
  /\ (11 <= i <= 31 -> w = 0)
  /\ (800 <= i <= 895 -> bitfield w 0 152 = 0)
  /\ (992 <= i <= 1023 -> w = 0).

Lemma RESERVED_MASKS_get i : 0 <= i < 1024 -> get0 RESERVED_MASKS i = reservedMask i.
Proof.
  intros Hi. unfold get0, js_get, RESERVED_MASKS. destruct (Z.leb_spec 0 i); [|lia].
  rewrite list_lookup_fmap. rewrite lookup_seqZ_lt by lia. cbn. f_equal. lia.
Qed.

Lemma land_mask w n : 0 <= n -> Z.land w (Z.shiftl 1 n - 1) = bitfield w 0 n.
Proof. intros. unfold bitfield. by rewrite mask_ones, Z.shiftr_0_r. Qed.

Lemma land_max w : uint256 w -> Z.land w UINT256_MAX = w.
Proof. intros [? ?]. unfold UINT256_MAX. rewrite land_mask by lia. by apply bitfield_full. Qed.

(** [Z.land] against a mask placed at bit [s] reads the field there. *)
Lemma land_shifted_mask w n s : 0 <= n -> 0 <= s ->
  Z.land w (Z.shiftl (Z.shiftl 1 n - 1) s) = 0 <-> bitfield w s n = 0.
Proof.
  intros. rewrite mask_ones. unfold bitfield. split; intros E.
  - apply (f_equal (fun x => Z.shiftr x s)) in E. rewrite Z.shiftr_land, Z.shiftr_shiftl_l, Z.sub_diag in E by lia.
    by rewrite Z.shiftl_0_r, Z.shiftr_0_l in E.
  - apply (f_equal (fun x => Z.shiftl x s)) in E. rewrite Z.shiftl_0_l in E. rewrite <- E, Z.shiftl_land.
    apply Z.bits_inj'; intros i Hi. rewrite !Z.land_spec, !Z.shiftl_spec by lia.
    destruct (Z.lt_ge_cases (i - s) 0); [by rewrite !(Z.testbit_neg_r _ (i - s)), andb_false_r by lia|].
    rewrite Z.shiftr_spec by lia. f_equal. f_equal. lia.
Qed.

Lemma land_lor_zero w a b : Z.land w (Z.lor a b) = 0 <-> Z.land w a = 0 /\ Z.land w b = 0.
Proof. rewrite Z.land_lor_distr_r. apply Z.lor_eq_0_iff. Qed.

Lemma reservedMask_clean i w : 0 <= i < 1024 -> uint256 w ->
  Z.land w (reservedMask i) = 0 <-> word_reserved_clean i w.
Proof.
  intros Hi Hw. unfold word_reserved_clean, reservedMask, in_range.
  unfold RANGES.RESERVED_START, RANGES.RESERVED_END, RANGES.HEADER_START, RANGES.HEADER_END,
    RANGES.MEMORY_INDEX_START, RANGES.MEMORY_INDEX_END, RANGES.RETRIEVAL_KEYS_START, RANGES.RETRIEVAL_KEYS_END,
    RANGES.RELATIONS_START, RANGES.RELATIONS_END, RANGES.TEMPORAL_START, RANGES.TEMPORAL_END,
    RANGES.CODEBOOK_START, RANGES.CODEBOOK_END.
  destruct (Z.leb_spec 992 i), (Z.leb_spec i 1023); try lia; cbn [andb].
  { rewrite land_max by done. intuition lia. }
  destruct (Z.leb_spec 0 i), (Z.leb_spec i 31); try lia; cbn [andb].
  { assert (Hcase : i = 0 \/ i = 1 \/ i = 8 \/ (11 <= i <= 31) \/ (2 <= i <= 7) \/ i = 9 \/ i = 10) by lia.
    destruct Hcase as [->|[->|[->|[Hc|Hc]]]].
    - cbn [headerReservedMask]. rewrite land_lor_zero, land_mask by lia.
      change (flagsMask 207 193) with (Z.shiftl (Z.shiftl 1 15 - 1) 193). rewrite land_shifted_mask by lia. intuition lia.
    - cbn [headerReservedMask]. rewrite land_mask by lia. intuition lia.
    - cbn [headerReservedMask]. rewrite land_mask by lia. intuition lia.
    - replace (headerReservedMask i) with UINT256_MAX.
      { rewrite land_max by done. intuition lia. }
      assert (E : forallb (fun i => headerReservedMask i =? UINT256_MAX) (seqZ 11 21) = true) by reflexivity.
      rewrite forallb_forall in E. symmetry. apply Z.eqb_eq, E, list_elem_of_In, elem_of_seqZ. lia.
    - replace (headerReservedMask i) with 0; [rewrite Z.land_0_r; intuition lia|].
      assert (Hc' : i = 2 \/ i = 3 \/ i = 4 \/ i = 5 \/ i = 6 \/ i = 7 \/ i = 9 \/ i = 10) by lia.
      by repeat destruct Hc' as [->|Hc']; subst. }
  destruct (Z.leb_spec 32 i), (Z.leb_spec i 383); try lia; cbn [andb];
    [cbn [memoryIndexSlotReservedMask]; rewrite Z.land_0_r; intuition lia|].
  destruct (Z.leb_spec 384 i), (Z.leb_spec i 671); try lia; cbn [andb];
    [unfold retrievalKeySlotReservedMask; rewrite Z.land_0_r; intuition lia|].
  destruct (Z.leb_spec 672 i), (Z.leb_spec i 799); try lia; cbn [andb]; [rewrite Z.land_0_r; intuition lia|].
  destruct (Z.leb_spec 800 i), (Z.leb_spec i 895); try lia; cbn [andb]; [rewrite land_mask by lia; intuition lia|].
  destruct (Z.leb_spec 896 i), (Z.leb_spec i 991); try lia; cbn [andb].
  unfold codebookSlotReservedMask. rewrite Z.land_0_r; intuition lia.
Qed.

Lemma state_ok_word_at s i : state_ok s -> uint256 (word_at s i).
Proof.
  intros [_ Hw]. unfold word_at, get0, js_get. destruct (0 <=? i); [|vm_compute; intuition congruence].
  destruct (words s !! Z.to_nat i) eqn:E; [|vm_compute; intuition congruence].
  by eapply Forall_lookup_1 in E.
Qed.

Lemma reserved_scan (s : CortexState) :
  state_ok s ->
  (hasNonZeroReservedBits s = false <-> forall i, 0 <= i < 1024 -> word_reserved_clean i (word_at s i)).
Proof.
  intros Hs. rewrite <- not_true_iff_false. unfold hasNonZeroReservedBits. rewrite existsb_exists. split.
  - intros H i Hi. apply reservedMask_clean; [done|by apply state_ok_word_at|].
    destruct (decide (Z.land (word_at s i) (reservedMask i) = 0)) as [|Hne]; [done|].
    exfalso. apply H. exists i. split; [apply list_elem_of_In, elem_of_seqZ; unfold RANGES.WORD_COUNT; lia|].
    rewrite RESERVED_MASKS_get by done. apply andb_true_iff. rewrite !negb_true_iff, !Z.eqb_neq.
    split; [|done]. intros E. apply Hne. by rewrite E, Z.land_0_r.
  - intros H (i & Hi & E). apply list_elem_of_In, elem_of_seqZ in Hi. unfold RANGES.WORD_COUNT in Hi.
    rewrite RESERVED_MASKS_get in E by lia. apply andb_true_iff in E as [_ E]. apply negb_true_iff, Z.eqb_neq in E.
    apply E. apply reservedMask_clean; [lia|by apply state_ok_word_at|]. apply H. lia.
Qed.

(** A well-formed state passes the reserved-bit scan exactly when the
    reserved bits of the layout are zero: the flag bits 193..207 and the low
    192 bits of word 0, the low 128 of word 1, the low 64 of word 8, words
    11..31 and 992..1023 entirely, and the low 152 of each temporal word. *)
Theorem hasNonZeroReservedBits_spec (s : CortexState) :
  state_ok s ->
  (hasNonZeroReservedBits s = false <-> forall i, 0 <= i < 1024 -> word_reserved_clean i (word_at s i)).
Proof. apply reserved_scan. Qed.

Lemma hasNonZeroReservedBits_spec_witness :
  hasNonZeroReservedBits zero_state = false <-> forall i, 0 <= i < 1024 -> word_reserved_clean i (word_at zero_state i).
Proof. apply (hasNonZeroReservedBits_spec zero_state). apply zero_state_ok. Defined.

(** ** The policy regions. *)
Lemma sparse_failures {A} (f : Z -> word_result A) n : 0 <= n ->
  failures (sparse_loop f n) = 0 <-> (forall i, 0 <= i < n -> f i <> WFail).
Proof.
  intros Hn. enough (H : 0 <= failures (sparse_loop f n) /\ (failures (sparse_loop f n) = 0 <-> forall i, 0 <= i < n -> f i <> WFail))
    by apply H.
  apply (fold_left_seqZ_ind (fun k r => 0 <= failures r /\ (failures r = 0 <-> forall i, 0 <= i < k -> f i <> WFail)));
    [done|simpl; split; [lia|intuition lia]|].
  intros i r Hi [Hf IH]. destruct (f i) eqn:E; cbn [failures]; (split; [lia|]).
  all: split; intros H; [intros j Hj; destruct (decide (j = i)) as [->|]; [rewrite E; first [done|lia]|apply IH; lia]|].
  all: first [apply IH; intros; apply H; lia | destruct (H i); [lia|done]].
Qed.

Lemma reg_count_nonneg fam : 0 <= reg_count (POLICY_REGIONS fam).
Proof. destruct fam; vm_compute; discriminate. Qed.

Lemma policy_region_failures s fam : failures (decodePolicyAtomRegion s fam) = 0 <->
  (forall k, 0 <= k < reg_count (POLICY_REGIONS fam) ->
     policy_word fam k (word_at s (reg_start (POLICY_REGIONS fam) + k)) <> WFail).
Proof. unfold decodePolicyAtomRegion. apply sparse_failures, reg_count_nonneg. Qed.

(** The r5 conditions on the reclaimed words: every word of a policy region
    is empty or an atom of the grammar, and words 896..991 are zero. *)
Definition policy_clean (s : CortexState) : Prop :=
  (forall fam k, 0 <= k < reg_count (POLICY_REGIONS fam) ->
     policy_word fam k (word_at s (reg_start (POLICY_REGIONS fam) + k)) <> WFail)
  /\ (forall i, 896 <= i <= 991 -> word_at s i = 0).

Lemma policy_families_check_None s fams :
  policy_families_check s fams = None <-> forall fam, fam ∈ fams -> failures (decodePolicyAtomRegion s fam) = 0.
Proof.
  induction fams as [|fam fams IH]; cbn [policy_families_check]; [set_solver|].
  pose proof (decodePolicyAtomRegion_ok s fam) as [Hok _].
  destruct (Z.ltb_spec 0 (failures (decodePolicyAtomRegion s fam))).
  - split; [done|]. intros H'. exfalso. rewrite (H' fam (list_elem_of_here _ _)) in *. lia.
  - rewrite IH. split.
    + intros H' fam' [->|Hin]%elem_of_cons; [lia|auto].
    + intros H' fam' Hin. apply H'. by apply list_elem_of_further.
Qed.

Lemma policyReserved_zero s : policyReservedNonZeroWords s <= 0 <-> forall i, 896 <= i <= 991 -> word_at s i = 0.
Proof.
  unfold policyReservedNonZeroWords. set (l := seqZ _ _).
  assert (Hl : forall i, i ∈ l <-> 896 <= i <= 991).
  { intros i. unfold l. rewrite elem_of_seqZ. unfold RANGES.POLICY_RESERVED_START, RANGES.POLICY_RESERVED_END. lia. }
  assert (H : forall n, n <= fold_left (fun n w => if negb (word_at s w =? 0) then n + 1 else n) l n
    /\ (fold_left (fun n w => if negb (word_at s w =? 0) then n + 1 else n) l n <= n
        <-> forall i, i ∈ l -> word_at s i = 0)).
  { clear Hl. clearbody l. induction l as [|x l IH]; intros n; cbn [fold_left]; [split; [lia|set_solver]|].
    destruct (Z.eqb_spec (word_at s x) 0) as [E|E]; cbn [negb].
    - destruct (IH n) as [H1 H2]. split; [done|]. rewrite H2. set_solver.
    - destruct (IH (n + 1)) as [H1 H2]. split; [lia|]. split; [lia|]. intros H'. exfalso. apply E, H'. set_solver. }
  clearbody l. destruct (H 0) as [_ ->]. split; intros H' i Hi; apply H'; by apply Hl.
Qed.

Lemma policy_scan (s : CortexState) :
  validatePolicyRegions s = None <-> policy_clean s.
Proof.
  unfold validatePolicyRegions, policy_clean. rewrite <- policyReserved_zero.
  assert (Hf : policy_families_check s [evidence_bundle; conflict_lifecycle; abstention] = None <->
    (forall fam k, 0 <= k < reg_count (POLICY_REGIONS fam) ->
     policy_word fam k (word_at s (reg_start (POLICY_REGIONS fam) + k)) <> WFail)).
  { rewrite policy_families_check_None. split; intros H fam.
    - apply policy_region_failures, H. destruct fam; set_solver.
    - intros _. apply policy_region_failures, H. }
  rewrite <- Hf. clear Hf. generalize (policyReservedNonZeroWords s) as n.
  generalize (policy_families_check s [evidence_bundle; conflict_lifecycle; abstention]) as c. intros [e|] n.
  - split; [done|]. intros [? _]. done.
  - destruct (Z.ltb_spec 0 n); split; [done|lia|done|done].
Qed.

(** [validatePolicyRegions] returns null exactly on states whose reclaimed
    words are all empty or grammatical atoms and whose words 896..991 are zero. *)
Theorem validatePolicyRegions_spec (s : CortexState) :
  validatePolicyRegions s = None <-> policy_clean s.
Proof. apply policy_scan. Qed.
