(* ===== verification/Patch.v ===== *)
(** * Patches (packages/coretex/src/state/patch.ts)

    The wire codec ([encodePatch]/[decodePatch] with its LEB128 word
    indices) and the two apply paths: [applyPatch] checks the parent root,
    [applyPatchOntoCurrent] is the reducer's. Reads of [patch.indices[i]]
    past the end are [undefined], as in the source: every comparison with
    [undefined] is false and the write it guards touches no word. *)
From S2P Require Import Prelude StateTypes Float Codec Keccak Merkle Decoder Substrate Validate.

Definition MAX_WIRE_SCORE_DELTA : Z := Z.shiftl 1 63 - 1.

(** ** LEB128 *)

(** The do-while of [encodeLEB128]. [n >>>= 7] leaves at most 25 bits, so
    five iterations reach 0 from any number ([leb_loop_fuel] below). *)
Fixpoint leb_loop (fuel : nat) (n : Z) : bytes :=
  match fuel with
  | O => []
  | S fuel' =>
    let b := js_and n 0x7f in
    let n' := js_shru n 7 in
    let b := if negb (n' =? 0) then js_or b 0x80 else b in
    (b mod 256) :: (if negb (n' =? 0) then leb_loop fuel' n' else [])
  end.

Definition encodeLEB128 (n : Z) : outcome bytes :=
  _ ← throw_if (n <? 0) (RangeError "encodeLEB128: negative value");
  Returns (leb_loop 5 n).

(** Returns [{ value, bytesRead }]. *)
Definition decodeLEB128 (data : bytes) (offset : nat) : outcome (Z * nat) :=
  _ ← throw_if (length data <=? offset)%nat (RangeError "decodeLEB128: unexpected end of data");
  let first := default 0 (data !! offset) in
  let value := js_and first 0x7f in
  if js_and first 0x80 =? 0 then Returns (value, 1%nat)
  else
    _ ← throw_if (length data <=? offset + 1)%nat (RangeError "decodeLEB128: unexpected end of data");
    let second := default 0 (data !! (offset + 1)%nat) in
    _ ← throw_if (negb (js_and second 0x80 =? 0)) (RangeError "decodeLEB128: varint too long");
    let value := js_or value (js_shl (js_and second 0x7f) 7) in
    _ ← throw_if (value <? 128) (RangeError "decodeLEB128: non-canonical word index");
    _ ← throw_if (RANGES.WORD_COUNT <=? value) (RangeError "decodeLEB128: word index out of range");
    Returns (value, 2%nat).

(** ** Patch types *)
Inductive PatchTypeReason :=
  | OutsideRange (idx : Z)
  | IndexReserved (idx : Z)
  | DuplicateIndex (idx : Z)
  | UnknownType (patchType : Z)
  | CannotTarget (patchType idx : Z).

Definition patchTypeRange (patchType : Z) : option (Z * Z) :=
  row ← find (fun r => typeByte r =? patchType) PATCH_TYPE_RANGE_TABLE;
  Some (row_start row, row_end row).

(** The first loop of [validatePatchType], with its [seen] set. *)
Fixpoint index_loop (indices : list Z) (seen : list Z) : option PatchTypeReason :=
  match indices with
  | [] => None
  | idx :: indices' =>
    if (idx <? 0) || (RANGES.WORD_COUNT <=? idx) then Some (OutsideRange idx)
    else if (RANGES.RESERVED_START <=? idx) && (idx <=? RANGES.RESERVED_END) then Some (IndexReserved idx)
    else if bool_decide (idx ∈ seen) then Some (DuplicateIndex idx)
    else index_loop indices' (jsset_add idx seen)
  end.

Fixpoint range_loop (patchType start end_ : Z) (indices : list Z) : option PatchTypeReason :=
  match indices with
  | [] => None
  | idx :: indices' =>
    if (idx <? start) || (end_ <? idx) then Some (CannotTarget patchType idx)
    else range_loop patchType start end_ indices'
  end.

(** [None] is [{ ok: true }]. *)
Definition validatePatchType (patchType : Z) (indices : list Z) : option PatchTypeReason :=
  match index_loop indices [] with
  | Some r => Some r
  | None =>
    if patchType =? PATCH_TYPE.MIXED then None
    else match patchTypeRange patchType with
    | None => Some (UnknownType patchType)
    | Some (start, end_) => range_loop patchType start end_ indices
    end
  end.

(** ** Wire encode/decode *)

(** A write cursor over the output buffer: [out.set(bs, offset); offset += bs.length]. *)
Definition put (bs : bytes) (c : bytes * nat) : bytes * nat :=
  (u8_set c.1 c.2 bs, (c.2 + length bs)%nat).

(** The loop [encodedIndices = patch.indices.map(encodeLEB128)]. *)
Fixpoint encode_indices (indices : list Z) : outcome (list bytes) :=
  match indices with
  | [] => Returns []
  | idx :: indices' => b ← encodeLEB128 idx; bs ← encode_indices indices'; Returns (b :: bs)
  end.

(** The big-endian bytes of a uint32, [(v >>> 24) & 0xff] and so on. *)
Definition u32_bytes (v : Z) : bytes :=
  [js_and (js_shru v 24) 0xff; js_and (js_shru v 16) 0xff; js_and (js_shru v 8) 0xff; js_and v 0xff].

(** One iteration of the word loop: the encoded index, then the 32-byte word. *)
Definition emit_word (encodedIndices : list bytes) (newWords : list Z) (c : bytes * nat) (i : nat) : bytes * nat :=
  let c := put (default [] (encodedIndices !! i)) c in
  (writeBigEndian32 c.1 c.2 (get0 newWords (Z.of_nat i)), (c.2 + 32)%nat).

Definition encodePatch (patch : Patch) : outcome bytes :=
  _ ← throw_if ((wordCount patch <? 1) || (4 <? wordCount patch)) (RangeError "encodePatch: wordCount must be 1-4");
  _ ← throw_if (negb (Z.of_nat (length (indices patch)) =? wordCount patch)
                || negb (Z.of_nat (length (newWords patch)) =? wordCount patch))
        (RangeError "encodePatch: indices/newWords length mismatch with wordCount");
  _ ← throw_if (bool_decide (is_Some (validatePatchType (patchType patch) (indices patch))))
        (RangeError "encodePatch: bad patch type");
  encodedIndices ← encode_indices (indices patch);
  let indexBytes := fold_left (fun sum arr => (sum + length arr)%nat) encodedIndices 0%nat in
  let totalSize := (42 + indexBytes + Z.to_nat (wordCount patch) * 32)%nat in
  let c := (zeros totalSize, 0%nat) in
  let c := put [Z.land (patchType patch) 0xff] c in
  let c := put [wordCount patch mod 256] c in
  _ ← throw_if ((scoreDelta patch <? 0) || (MAX_WIRE_SCORE_DELTA <? scoreDelta patch))
        (RangeError "encodePatch: scoreDelta outside non-negative int64 range");
  let sdUnsigned := scoreDelta patch in
  let sdHi := js_shru (Z.shiftr sdUnsigned 32) 0 in
  let sdLo := js_shru (Z.land sdUnsigned 0xffffffff) 0 in
  let c := put (u32_bytes sdHi) c in
  let c := put (u32_bytes sdLo) c in
  _ ← throw_if (negb (length (parentStateRoot patch) =? 32)%nat) (RangeError "encodePatch: parentStateRoot must be 32 bytes");
  let c := put (parentStateRoot patch) c in
  let c := fold_left (emit_word encodedIndices (newWords patch)) (seq 0 (Z.to_nat (wordCount patch))) c in
  Returns c.1.

(** [((d[o] << 24) | (d[o+1] << 16) | (d[o+2] << 8) | d[o+3]) >>> 0] *)
Definition read_u32 (data : bytes) (offset : nat) : Z :=
  let at_ k := default 0 (data !! (offset + k)%nat) in
  js_shru (js_or (js_or (js_or (js_shl (at_ 0%nat) 24) (js_shl (at_ 1%nat) 16)) (js_shl (at_ 2%nat) 8)) (at_ 3%nat)) 0.

(** The word loop of [decodePatch], [n] iterations left: the final offset,
    the indices and the words, in order. *)
Fixpoint decode_words (n : nat) (data : bytes) (offset : nat) : outcome (nat * list Z * list Z) :=
  match n with
  | O => Returns (offset, [], [])
  | S n' =>
    r ← decodeLEB128 data offset;
    let idx := r.1 in
    let offset := (offset + r.2)%nat in
    _ ← throw_if (length data <? offset + 32)%nat (RangeError "decodePatch: truncated at newWord");
    let newWord := readBigEndian32 data offset in
    rest ← decode_words n' data (offset + 32)%nat;
    Returns (rest.1.1, idx :: rest.1.2, newWord :: rest.2)
  end.

Definition decodePatch (data : bytes) : outcome Patch :=
  _ ← throw_if (length data <? 42)%nat (RangeError "decodePatch: too short");
  let patchType := default 0 (data !! 0%nat) in
  let wordCount := default 0 (data !! 1%nat) in
  _ ← throw_if ((wordCount <? 1) || (4 <? wordCount)) (RangeError "decodePatch: invalid wordCount");
  let sdHi := read_u32 data 2 in
  let sdLo := read_u32 data 6 in
  let scoreDelta := Z.lor (Z.shiftl sdHi 32) sdLo in
  _ ← throw_if (MAX_WIRE_SCORE_DELTA <? scoreDelta) (RangeError "decodePatch: scoreDelta outside non-negative int64 range");
  let parentStateRoot := u8_slice data 10 32 in
  r ← decode_words (Z.to_nat wordCount) data 42;
  let '(offset, indices, newWords) := r in
  _ ← throw_if (negb (offset =? length data)%nat) (RangeError "decodePatch: trailing bytes");
  _ ← throw_if (bool_decide (is_Some (validatePatchType patchType indices))) (RangeError "decodePatch: bad patch type");
  Returns (mkPatch patchType wordCount scoreDelta parentStateRoot indices newWords).

(** ** Applying a patch *)
Definition patchError (code : PatchErrorCode) : PatchError := mkPatchError code (MsgCode (ERROR_NAMES code)).

Definition bytesEqual (a b : bytes) : bool :=
  if negb (length a =? length b)%nat then false else list_Zeqb a b.

Definition patchMatchesEpochParent (patch : Patch) (epochParentRoot : bytes) : bool :=
  bytesEqual (parentStateRoot patch) epochParentRoot.

(** [patch.indices[i]!] and a comparison on it; [undefined] compares false. *)
Definition idx_test (patch : Patch) (test : Z -> bool) (i : Z) : bool :=
  match js_get (indices patch) i with Some idx => test idx | None => false end.

(** [(state.words[patch.indices[i]!] ?? 0n) !== (patch.newWords[i] ?? 0n)] *)
Definition word_differs (state : CortexState) (patch : Patch) (i : Z) : bool :=
  negb (match js_get (indices patch) i with Some idx => word_at state idx | None => 0 end
        =? get0 (newWords patch) i).

Definition patchTouchesHeader (patch : Patch) : bool :=
  existsb (idx_test patch (fun idx => (RANGES.HEADER_START <=? idx) && (idx <=? RANGES.HEADER_END)))
    (seqZ 0 (wordCount patch)).

Definition isPolicyMixedCompanionIndex (idx : Z) : bool :=
  ((RANGES.MEMORY_INDEX_START <=? idx) && (idx <=? RANGES.MEMORY_INDEX_END))
  || ((RANGES.RELATIONS_START <=? idx) && (idx <=? RANGES.RELATIONS_END))
  || ((RANGES.TEMPORAL_START <=? idx) && (idx <=? RANGES.TEMPORAL_END)).

Definition isPolicyIndex (idx : Z) : bool :=
  (RANGES.POLICY_EVIDENCE_START <=? idx) && (idx <=? RANGES.POLICY_ABSTENTION_END).

Definition policyWriteIsCanonical (patch : Patch) : bool :=
  let '(touchesPolicy, touchesCompanion) := fold_left (fun '(tp, tc) i =>
      if idx_test patch isPolicyIndex i then (true, tc)
      else if idx_test patch isPolicyMixedCompanionIndex i then (tp, true)
      else (tp, tc))
    (seqZ 0 (wordCount patch)) (false, false) in
  if negb touchesPolicy then true
  else if patchType patch =? PATCH_TYPE.POLICY_UPDATE then true
  else if patchType patch =? PATCH_TYPE.MIXED then touchesCompanion
  else false.

Definition policyWriteIsCanonicalForState (state : CortexState) (patch : Patch) : bool :=
  if negb (policyWriteIsCanonical patch) then false
  else
    let '(touchesPolicy, changedCompanion) := fold_left (fun '(tp, cc) i =>
        (tp || idx_test patch isPolicyIndex i,
         cc || (idx_test patch isPolicyMixedCompanionIndex i && word_differs state patch i)))
      (seqZ 0 (wordCount patch)) (false, false) in
    if negb touchesPolicy || negb (patchType patch =? PATCH_TYPE.MIXED) then true
    else changedCompanion.

(** The no-op scan. *)
Definition any_change (state : CortexState) (patch : Patch) : bool :=
  existsb (word_differs state patch) (seqZ 0 (wordCount patch)).

(** The write loop over the copy of the words; [None] is the early E02. *)
Fixpoint write_loop (patch : Patch) (ks : list Z) (ws : list Z) : option (list Z) :=
  match ks with
  | [] => Some ws
  | i :: ks' =>
    match js_get (indices patch) i with
    | None => write_loop patch ks' ws
    | Some idx =>
      if (RANGES.RESERVED_START <=? idx) && (idx <=? RANGES.RESERVED_END) then None
      else if (idx <? 0) || (RANGES.WORD_COUNT <=? idx) then None
      else write_loop patch ks' (js_set ws idx (get0 (newWords patch) i))
    end
  end.

(** The common tail of the two apply paths: no-op check, writes, result checks. *)
Definition apply_words (state : CortexState) (patch : Patch) (policyAtomsMode : bool) : PatchResult :=
  if negb (any_change state patch) then PatchFailure (patchError E05)
  else match write_loop patch (seqZ 0 (wordCount patch)) (words state) with
  | None => PatchFailure (patchError E02)
  | Some ws =>
    let resultState := mkState ws in
    if hasNonZeroReservedBits resultState then PatchFailure (patchError E04)
    else match (if policyAtomsMode then validatePolicyRegions resultState else None) with
    | Some policyErr => PatchFailure policyErr
    | None => PatchSuccess resultState
    end
  end.

Definition over_budget (patch : Patch) : bool := (wordCount patch <? 1) || (4 <? wordCount patch).

Section Apply.
Context `{Hasher}.

Definition applyPatch (state : CortexState) (patch : Patch) (policyAtomsMode : bool) : outcome PatchResult :=
  if over_budget patch then Returns (PatchFailure (patchError E03))
  else
    currentRoot ← merkleizeState state;
    if negb (bytesEqual (parentStateRoot patch) currentRoot) then Returns (PatchFailure (patchError E01))
    else if bool_decide (is_Some (validatePatchType (patchType patch) (indices patch)))
    then Returns (PatchFailure (patchError E02))
    else if policyAtomsMode && negb (policyWriteIsCanonicalForState state patch) then Returns (PatchFailure (patchError E02))
    else if policyAtomsMode && patchTouchesHeader patch then Returns (PatchFailure (patchError E02))
    else Returns (apply_words state patch policyAtomsMode).
End Apply.

Definition applyPatchOntoCurrent (current : CortexState) (patch : Patch) (policyAtomsMode : bool) : PatchResult :=
  if over_budget patch then PatchFailure (patchError E03)
  else if bool_decide (is_Some (validatePatchType (patchType patch) (indices patch))) then PatchFailure (patchError E02)
  else if policyAtomsMode && patchTouchesHeader patch then PatchFailure (patchError E02)
  else if policyAtomsMode && negb (policyWriteIsCanonicalForState current patch) then PatchFailure (patchError E02)
  else apply_words current patch policyAtomsMode.

(** ** The advertised patch types *)
Record AllowedPatchType := mkAllowed { allowed_name : string; allowed_byte : Z; wordIndexRange : Z * Z }.

Definition R5_PIPELINE : string := "coretex-retrieval-v2-policy-r5".

Definition buildAllowedPatchTypes (pipelineVersion : option string) : list AllowedPatchType :=
  let r5 := bool_decide (pipelineVersion = Some R5_PIPELINE) in
  let r5Suppressed := [PATCH_TYPE.KEY_UPDATE; PATCH_TYPE.CODEBOOK_UPDATE; PATCH_TYPE.HEADER_UPDATE] in
  fold_left (fun out '(name, byte) =>
      if r5 && bool_decide (byte ∈ r5Suppressed) then out
      else if byte =? PATCH_TYPE.MIXED then
        out ++ [mkAllowed name byte (if r5 then RANGES.MEMORY_INDEX_START else 0, RANGES.CODEBOOK_END)]
      else match patchTypeRange byte with
      | Some r => out ++ [mkAllowed name byte r]
      | None => out
      end)
    PATCH_TYPE.entries [].

(** ** LEB128 facts. *)

Lemma leb_loop_S fuel n : leb_loop (S fuel) n =
  (if negb (js_shru n 7 =? 0) then js_or (js_and n 0x7f) 0x80 else js_and n 0x7f) mod 256
  :: (if negb (js_shru n 7 =? 0) then leb_loop fuel (js_shru n 7) else []).
Proof. reflexivity. Qed.

(** Five iterations always suffice: more fuel changes nothing. *)
Lemma leb_loop_fuel n extra : leb_loop (5 + extra) n = leb_loop 5 n.
Proof.
  assert (Hstep : forall k fuel m, 0 <= m < 2 ^ (7 * Z.of_nat (S k)) -> m < 2 ^ 32 -> (k <= fuel)%nat ->
    leb_loop (S fuel) m = leb_loop (S k) m).
  { induction k as [|k IH]; intros fuel m Hm H32 Hf; rewrite !leb_loop_S, (js_shru_small m 7) by lia.
    - rewrite Z.div_small by lia. done.
    - destruct fuel as [|fuel]; [lia|]. destruct (m / 2 ^ 7 =? 0) eqn:E; [done|]. cbn [negb].
      rewrite (IH fuel (m / 2 ^ 7)); [done| |apply Z.div_lt_upper_bound; lia|lia].
      split; [apply Z.div_pos; lia|]. apply Z.div_lt_upper_bound; [lia|].
      rewrite <- Z.pow_add_r by lia. eapply Z.lt_le_trans; [apply Hm|]. apply Z.pow_le_mono_r; lia. }
  change (5 + extra)%nat with (S (4 + extra)). rewrite (leb_loop_S (4 + extra)), (leb_loop_S 4).
  assert (Hb : 0 <= js_shru n 7 < 2 ^ 25).
  { replace (js_shru n 7) with (ToUint32 n / 2 ^ 7).
    - pose proof (ToUint32_bound n). split; [apply Z.div_pos; lia|]. apply Z.div_lt_upper_bound; lia.
    - Transparent js_shru. unfold js_shru. Opaque js_shru. by rewrite Z.shiftr_div_pow2. }
  destruct (js_shru n 7 =? 0); [done|]. cbn [negb]. f_equal.
  change (4 + extra)%nat with (S (3 + extra)). apply Hstep; [|lia|lia].
  split; [lia|]. eapply Z.lt_le_trans; [apply Hb|]. apply Z.pow_le_mono_r; lia.
Qed.

(** The encoding of a word index. *)
Definition leb (v : Z) : bytes := if v <? 128 then [v] else [v mod 128 + 128; v / 128].

Lemma encodeLEB128_index v : 0 <= v < 1024 -> encodeLEB128 v = Returns (leb v).
Proof.
  intros Hv. unfold encodeLEB128. destruct (Z.ltb_spec v 0); [lia|]. cbn. f_equal.
  assert (H' : forallb (fun v => bool_decide (leb_loop 5 v = leb v)) (seqZ 0 1024) = true) by (vm_compute; reflexivity).
  rewrite forallb_forall in H'. specialize (H' v). rewrite bool_decide_eq_true in H'.
  apply H', list_elem_of_In, elem_of_seqZ. lia.
Qed.

Lemma leb_length v : length (leb v) = if v <? 128 then 1%nat else 2%nat.
Proof. unfold leb. by destruct (v <? 128). Qed.

Lemma leb_ok v : 0 <= v < 1024 -> bytes_ok (leb v).
Proof.
  intros. unfold leb. pose proof (Z.mod_pos_bound v 128). pose proof (Z.div_pos v 128).
  assert (v / 128 < 8) by (apply Z.div_lt_upper_bound; lia).
  destruct (Z.ltb_spec v 128); repeat constructor; unfold byte_ok; lia.
Qed.

Lemma and_7f b : byte_ok b -> js_and b 0x7f = b mod 128.
Proof. intros Hb. unfold byte_ok in Hb. rewrite js_and_small by lia. change 0x7f with (Z.ones 7). by rewrite Z.land_ones. Qed.

Lemma and_80 b : byte_ok b -> (js_and b 0x80 =? 0) = (b <? 128).
Proof.
  intros Hb. assert (H' : forallb (fun b => Bool.eqb (js_and b 0x80 =? 0) (b <? 128)) (seqZ 0 256) = true)
    by (vm_compute; reflexivity).
  rewrite forallb_forall in H'. apply eqb_prop, H', list_elem_of_In, elem_of_seqZ. unfold byte_ok in Hb. lia.
Qed.

Lemma or_high a b : 0 <= a < 128 -> 0 <= b < 128 -> js_or a (js_shl b 7) = b * 128 + a.
Proof.
  intros. rewrite (js_shl_small b 7), js_or_small by lia. rewrite Z.lor_comm.
  rewrite <- Z.shiftl_mul_pow2 by lia. rewrite lor_shiftl_add by lia. done.
Qed.

Lemma decodeLEB128_leb pre v post : 0 <= v < 1024 -> bytes_ok post ->
  decodeLEB128 (pre ++ leb v ++ post) (length pre) = Returns (v, length (leb v)).
Proof.
  intros Hv Hp. unfold decodeLEB128. rewrite !length_app, leb_length. unfold leb.
  pose proof (Z.mod_pos_bound v 128). pose proof (Z.div_pos v 128). pose proof (Z.div_mod v 128).
  assert (v / 128 < 8) by (apply Z.div_lt_upper_bound; lia).
  destruct (Z.ltb_spec v 128) as [Hs|Hs]; rewrite (proj2 (Nat.leb_gt _ (length pre))) by lia;
    cbn [throw_if mbind outcome_bind]; rewrite lookup_app_r by lia; rewrite Nat.sub_diag; cbn [app lookup list_lookup default from_option id].
  - rewrite and_80, and_7f by (unfold byte_ok; lia). destruct (Z.ltb_spec v 128); [|lia]. by rewrite Z.mod_small by lia.
  - rewrite and_80, (and_7f (v mod 128 + 128)) by (unfold byte_ok; lia). destruct (Z.ltb_spec (v mod 128 + 128) 128); [lia|].
    destruct (Nat.leb_spec (length pre + (2 + length post)) (length pre + 1)); [lia|]. cbn [throw_if mbind outcome_bind].
    rewrite lookup_app_r by lia. replace (length pre + 1 - length pre)%nat with 1%nat by lia. cbn [lookup list_lookup default from_option id].
    rewrite and_80, (and_7f (v / 128)) by (unfold byte_ok; lia). destruct (Z.ltb_spec (v / 128) 128); [|lia]. cbn [negb throw_if mbind outcome_bind].
    replace ((v mod 128 + 128) mod 128) with (v mod 128) by (rewrite <- (Z.mul_1_l 128) at 3; rewrite Z.mod_add, Z.mod_mod by lia; done).
    rewrite (Z.mod_small (v / 128)), or_high by lia. unfold RANGES.WORD_COUNT.
    replace (v / 128 * 128 + v mod 128) with v by lia.
    destruct (Z.ltb_spec v 128), (Z.leb_spec 1024 v); try lia. done.
Qed.

Lemma decodeLEB128_inv data off v k : bytes_ok data -> decodeLEB128 data off = Returns (v, k) ->
  0 <= v < 1024 /\ k = length (leb v) /\ (off + k <= length data)%nat /\ u8_slice data off k = leb v.
Proof.
  intros Hok Hd. unfold decodeLEB128 in Hd. apply bind_Returns in Hd as (? & Hoff & Hd). apply throw_if_Returns, Nat.leb_gt in Hoff.
  destruct (lookup_lt_is_Some_2 data off) as [b Hb]; [lia|]. rewrite Hb in Hd. cbn [default from_option id] in Hd.
  assert (Hbok : byte_ok b) by (by eapply (Forall_lookup_1 byte_ok)). rewrite and_80, and_7f in Hd by done.
  unfold u8_slice, leb. unfold byte_ok in Hbok. destruct (Z.ltb_spec b 128).
  - injection Hd as <- <-. rewrite Z.mod_small by lia. destruct (Z.ltb_spec b 128); [|lia].
    split; [lia|]. split; [done|]. split; [lia|]. rewrite (drop_S _ b) by done. done.
  - apply bind_Returns in Hd as (? & Hoff' & Hd). apply throw_if_Returns, Nat.leb_gt in Hoff'.
    destruct (lookup_lt_is_Some_2 data (off + 1)) as [c Hc]; [lia|]. rewrite Hc in Hd. cbn [default from_option id] in Hd.
    assert (Hcok : byte_ok c) by (by eapply (Forall_lookup_1 byte_ok)). rewrite and_80, and_7f in Hd by done. unfold byte_ok in Hcok.
    apply bind_Returns in Hd as (? & Hlong & Hd). apply throw_if_Returns, negb_false_iff, Z.ltb_lt in Hlong.
    pose proof (Z.mod_pos_bound b 128). rewrite (Z.mod_small c), or_high in Hd by lia.
    unfold RANGES.WORD_COUNT in Hd. inv_outcome. bool_hyps. subst. simplify_eq/=. bool_hyps.
    replace (b mod 128) with (b - 128) in * by (rewrite (Zmod_unique b 128 1 (b - 128)); lia).
    destruct (Z.ltb_spec (c * 128 + (b - 128)) 128); [lia|].
    split; [lia|]. split; [done|]. split; [lia|]. rewrite (drop_S _ b) by done. rewrite Nat.add_1_r in Hc.
    rewrite (drop_S _ c) by done. cbn [take]. f_equal; [|f_equal].
    + rewrite (Z.add_comm (c * 128)), Z.mod_add, Z.mod_small by lia. lia.
    + rewrite (Z.add_comm (c * 128)), Z.div_add, Z.div_small by lia. lia.
Qed.

(** ** The index checks of [validatePatchType]. *)
Definition index_ok (idx : Z) : Prop := 0 <= idx < RANGES.RESERVED_START.

Lemma index_loop_None idxs seen : index_loop idxs seen = None <->
  Forall index_ok idxs /\ NoDup idxs /\ (forall x, x ∈ idxs -> x ∉ seen).
Proof.
  revert seen. induction idxs as [|x idxs IH]; intros seen; cbn [index_loop].
  { split; [|done]. intros _. repeat split; [constructor|constructor|set_solver]. }
  unfold index_ok, RANGES.WORD_COUNT, RANGES.RESERVED_START, RANGES.RESERVED_END in *.
  rewrite Forall_cons, NoDup_cons.
  destruct ((x <? 0) || (1024 <=? x)) eqn:E1.
  { split; [done|]. intros ([? _] & _). exfalso. bool_hyps. destruct E1; bool_hyps; lia. }
  destruct ((992 <=? x) && (x <=? 1023)) eqn:E2.
  { split; [done|]. intros ([? _] & _). exfalso. bool_hyps. lia. }
  case_bool_decide as E3.
  { split; [done|]. intros (_ & _ & Hs). exfalso. apply (Hs x); set_solver. }
  rewrite IH. bool_hyps. setoid_rewrite elem_of_jsset_add. split.
  - intros (Hf & Hnd & Hs). destruct E2; bool_hyps; split; [split; [lia|done]|split; [split; [|done]|]| lia|]; set_solver.
  - intros ([? Hf] & [Hni Hnd] & Hs). split; [done|]. split; [done|]. set_solver.
Qed.

Lemma validatePatchType_indices pt idxs : validatePatchType pt idxs = None -> Forall index_ok idxs /\ NoDup idxs.
Proof.
  unfold validatePatchType. destruct (index_loop idxs []) eqn:E; [done|]. intros _.
  apply index_loop_None in E. intuition.
Qed.

(** ** The wire format as one concatenation. *)
Fixpoint wire_words (idxs ws : list Z) : bytes :=
  match idxs, ws with
  | i :: idxs', w :: ws' => leb i ++ be_bytes 32 w ++ wire_words idxs' ws'
  | _, _ => []
  end.

Definition patch_wire (p : Patch) : bytes :=
  [patchType p] ++ [wordCount p] ++ be_bytes 8 (scoreDelta p) ++ parentStateRoot p
  ++ wire_words (indices p) (newWords p).

(** The patches that have a wire form. *)
Definition wire_ok (p : Patch) : Prop :=
  1 <= wordCount p <= 4
  /\ Z.of_nat (length (indices p)) = wordCount p /\ Z.of_nat (length (newWords p)) = wordCount p
  /\ validatePatchType (patchType p) (indices p) = None
  /\ 0 <= scoreDelta p <= MAX_WIRE_SCORE_DELTA
  /\ length (parentStateRoot p) = 32%nat /\ bytes_ok (parentStateRoot p)
  /\ Forall uint256 (newWords p).

#[export] Instance PatchTypeReason_None_dec (r : option PatchTypeReason) : Decision (r = None).
Proof. destruct r; [by right|by left]. Defined.

#[export] Instance wire_ok_dec p : Decision (wire_ok p).
Proof. unfold wire_ok. apply _. Defined.

Lemma u32_bytes_spec v : 0 <= v < 2 ^ 32 -> u32_bytes v = be_bytes 4 v.
Proof.
  intros Hv. unfold u32_bytes. rewrite !(js_shru_small v) by lia.
  assert (Hd : forall n, 0 <= n -> 0 <= v / 2 ^ n < 2 ^ 32).
  { intros n Hn. pose proof (Z.pow_pos_nonneg 2 n). split; [apply Z.div_pos; lia|].
    apply Z.div_lt_upper_bound; [lia|]. nia. }
  assert (Hand : forall x, 0 <= x < 2 ^ 32 -> js_and x 0xff = x mod 256).
  { intros x Hx. rewrite <- (ToUint32_small (js_and x 0xff)).
    - rewrite ToUint32_and, !ToUint32_small by lia. apply land_ff.
    - Transparent js_and. unfold js_and. Opaque js_and. rewrite (ToInt32_small 255) by lia. rewrite land_ff.
      pose proof (Z.mod_pos_bound (ToInt32 x) 256). lia. }
  rewrite !Hand by (apply Hd; lia) || lia. cbv [be_bytes app]. rewrite !Z.div_div by lia. done.
Qed.

Lemma read_u32_spec data off : bytes_ok data -> (off + 4 <= length data)%nat ->
  read_u32 data off = be_value (u8_slice data off 4).
Proof.
  intros Hok Hl. unfold read_u32. rewrite js_shru_0, !ToUint32_or, !ToUint32_shl by lia.
  assert (Hb : forall k, byte_ok (default 0 (data !! (off + k)%nat))).
  { intros k. destruct (data !! (off + k)%nat) eqn:E; [by eapply (Forall_lookup_1 byte_ok)|unfold byte_ok; simpl; lia]. }
  unfold byte_ok in Hb. rewrite !(ToUint32_small (default _ _)) by (pose proof (Hb 0%nat); pose proof (Hb 1%nat);
    pose proof (Hb 2%nat); pose proof (Hb 3%nat); lia).
  rewrite !Z.shiftl_mul_pow2, !ToUint32_small by (lia || (pose proof (Hb 0%nat); pose proof (Hb 1%nat); pose proof (Hb 2%nat); lia)).
  replace (u8_slice data off 4) with (map (fun k => default 0 (data !! (off + k)%nat)) (seq 0 4)).
  - cbn [map seq]. unfold be_value. cbn [fold_left].
    set (b0 := default 0 (data !! (off + 0)%nat)). set (b1 := default 0 (data !! (off + 1)%nat)).
    set (b2 := default 0 (data !! (off + 2)%nat)). set (b3 := default 0 (data !! (off + 3)%nat)).
    pose proof (Hb 0%nat) as B0; pose proof (Hb 1%nat) as B1; pose proof (Hb 2%nat) as B2; pose proof (Hb 3%nat) as B3.
    fold b0 in B0. fold b1 in B1. fold b2 in B2. fold b3 in B3.
    rewrite <- (Z.shiftl_mul_pow2 b0 24), lor_shiftl_add by lia.
    replace (b0 * 2 ^ 24 + b1 * 2 ^ 16) with (Z.shiftl (b0 * 2 ^ 8 + b1) 16) by (rewrite Z.shiftl_mul_pow2; lia).
    rewrite lor_shiftl_add by lia.
    replace ((b0 * 2 ^ 8 + b1) * 2 ^ 16 + b2 * 2 ^ 8) with (Z.shiftl ((b0 * 2 ^ 8 + b1) * 2 ^ 8 + b2) 8)
      by (rewrite Z.shiftl_mul_pow2; lia).
    rewrite lor_shiftl_add by lia. lia.
  - unfold u8_slice. apply list_eq. intros i. destruct (decide (i < 4)%nat).
    + rewrite list_lookup_fmap, lookup_seq_lt, lookup_take_lt, lookup_drop by lia. cbn.
      destruct (lookup_lt_is_Some_2 data (off + i)) as [x Hx]; [lia|]. by rewrite Hx.
    + rewrite lookup_ge_None_2 by (rewrite length_map, length_seq; lia).
      by rewrite lookup_take_ge by lia.
Qed.

(** Two 32-bit halves of the score. *)
Lemma be_bytes_8 v : 0 <= v < 2 ^ 64 -> be_bytes 8 v = be_bytes 4 (v / 2 ^ 32) ++ be_bytes 4 (v mod 2 ^ 32).
Proof.
  intros Hv. pose proof (Z.mod_pos_bound v (2 ^ 32)). pose proof (Z.div_mod v (2 ^ 32)).
  assert (0 <= v / 2 ^ 32 < 2 ^ 32) by (split; [apply Z.div_pos; lia|apply Z.div_lt_upper_bound; lia]).
  transitivity (be_bytes (length (be_bytes 4 (v / 2 ^ 32) ++ be_bytes 4 (v mod 2 ^ 32)))
    (be_value (be_bytes 4 (v / 2 ^ 32) ++ be_bytes 4 (v mod 2 ^ 32))));
    [|apply be_bytes_be_value, Forall_app; split; apply be_bytes_ok].
  rewrite length_app, !length_be_bytes. f_equal. unfold be_value. rewrite fold_left_app.
  assert (Hacc : forall l a, fold_left (fun acc b => acc * 256 + b) l a = a * 256 ^ Z.of_nat (length l) + be_value l).
  { induction l as [|b l IH] using rev_ind; intros a; [change (be_value []) with 0; simpl; lia|]. rewrite fold_left_app. cbn [fold_left].
    rewrite IH, be_value_snoc, length_app, Nat.add_1_r, pow256_S. lia. }
  rewrite Hacc, length_be_bytes. change (fold_left _ ?l 0) with (be_value l).
  rewrite !be_value_be_bytes. change (256 ^ Z.of_nat 4) with (2 ^ 32). rewrite !(Z.mod_small (v / _)), Z.mod_mod by lia. lia.
Qed.

(** ** The encoder writes [patch_wire]. *)
Lemma encode_indices_spec idxs : Forall index_ok idxs -> encode_indices idxs = Returns (map leb idxs).
Proof.
  induction 1 as [|i idxs Hi Hf IH]; [done|]. cbn [encode_indices map]. unfold index_ok, RANGES.RESERVED_START in Hi.
  rewrite encodeLEB128_index by lia. cbn. by rewrite IH.
Qed.

Lemma put_app pre n bs : (length bs <= n)%nat ->
  put bs (pre ++ zeros n, length pre) = ((pre ++ bs) ++ zeros (n - length bs), length (pre ++ bs)).
Proof. intros. unfold put. cbn [fst snd]. by rewrite u8_set_app, length_app. Qed.

(** One record of the wire: the [j]-th encoded index and word. *)
Definition wire_piece (eis : list bytes) (nw : list Z) (j : nat) : bytes :=
  default [] (eis !! j) ++ be_bytes 32 (get0 nw (Z.of_nat j)).

Lemma encode_loop eis nw js pre n :
  (length (concat (map (wire_piece eis nw) js)) <= n)%nat ->
  fold_left (emit_word eis nw) js (pre ++ zeros n, length pre)
  = ((pre ++ concat (map (wire_piece eis nw) js)) ++ zeros (n - length (concat (map (wire_piece eis nw) js))),
     length (pre ++ concat (map (wire_piece eis nw) js))).
Proof.
  revert pre n. induction js as [|j js IH]; intros pre n Hn; cbn [fold_left map concat].
  { by rewrite app_nil_r, Nat.sub_0_r. }
  cbn [map concat] in Hn. rewrite length_app in Hn. unfold wire_piece in Hn at 1. rewrite length_app, length_be_bytes in Hn.
  unfold emit_word at 2. rewrite put_app by lia. cbn [fst snd]. rewrite writeBigEndian32_spec by (rewrite !length_app; unfold zeros; rewrite length_replicate; lia).
  rewrite u8_set_app by (rewrite length_be_bytes; lia).
  assert (Hp : length (wire_piece eis nw j) = (length (default [] (eis !! j)) + 32)%nat)
    by (unfold wire_piece; by rewrite length_app, length_be_bytes).
  replace (length (pre ++ default [] (eis !! j)) + 32)%nat with (length (pre ++ wire_piece eis nw j))
    by (rewrite !length_app; lia).
  rewrite <- (app_assoc pre). fold (wire_piece eis nw j). rewrite length_be_bytes, <- Nat.sub_add_distr, <- Hp, IH by lia.
  by rewrite <- !app_assoc, <- Nat.sub_add_distr, (length_app (wire_piece eis nw j)).
Qed.

Lemma concat_wire_pieces idxs nw : length idxs = length nw ->
  concat (map (wire_piece (map leb idxs) nw) (seq 0 (length nw))) = wire_words idxs nw.
Proof.
  revert nw. induction idxs as [|i idxs IH]; intros [|w nw] Hl; try discriminate; [done|].
  cbn [length seq map concat wire_words]. rewrite <- (IH nw) by (simpl in Hl; lia).
  unfold wire_piece at 1. rewrite <- app_assoc. cbn [lookup list_lookup default from_option id get0 js_get].
  f_equal. unfold get0, js_get. cbn. f_equal.
  rewrite <- fmap_S_seq, map_map. f_equal. apply map_ext. intros j. unfold wire_piece, get0, js_get. cbn [lookup list_lookup map].
  destruct (Z.leb_spec 0 (Z.of_nat (S j))), (Z.leb_spec 0 (Z.of_nat j)); try lia. rewrite !Nat2Z.id. done.
Qed.

Lemma length_wire_words idxs nw : length idxs = length nw ->
  length (wire_words idxs nw) = (fold_left (fun sum arr => (sum + length arr)%nat) (map leb idxs) 0 + length nw * 32)%nat.
Proof.
  assert (Hacc : forall (l : list bytes) a, fold_left (fun sum arr => (sum + length arr)%nat) l a
    = (a + fold_left (fun sum arr => (sum + length arr)%nat) l 0)%nat).
  { induction l as [|x l IH]; intros a; cbn [fold_left]; [lia|]. rewrite IH, (IH (0 + length x)%nat). lia. }
  revert nw. induction idxs as [|i idxs IH]; intros [|w nw] Hl; try discriminate; [done|].
  cbn [wire_words map fold_left]. rewrite !length_app, length_be_bytes, IH, (Hacc _ (0 + _)%nat) by (simpl in Hl; lia). simpl length. lia.
Qed.

Lemma patchType_byte pt idxs : validatePatchType pt idxs = None -> idxs <> [] -> byte_ok pt.
Proof.
  unfold validatePatchType. destruct (index_loop _ _); [done|].
  destruct (Z.eqb_spec pt PATCH_TYPE.MIXED) as [->|]; [by intros; vm_compute; intuition congruence|].
  unfold patchTypeRange. destruct (find _ _) as [row|] eqn:E; [|done]. intros _ _.
  apply find_some in E as [Hin Heq]. apply Z.eqb_eq in Heq. subst pt.
  repeat (destruct Hin as [<-|Hin]; [vm_compute; intuition congruence|]). destruct Hin.
Qed.

(** What [encodePatch] requires of a patch: its words and the bytes of its root may be any. *)
Definition encodable (p : Patch) : Prop :=
  1 <= wordCount p <= 4 /\ Z.of_nat (length (indices p)) = wordCount p /\ Z.of_nat (length (newWords p)) = wordCount p
  /\ validatePatchType (patchType p) (indices p) = None /\ 0 <= scoreDelta p <= MAX_WIRE_SCORE_DELTA
  /\ length (parentStateRoot p) = 32%nat.

Lemma encodePatch_encodable p : encodable p -> encodePatch p = Returns (patch_wire p).
Proof.
  intros (Hwc & Hli & Hlw & Hv & Hsd & Hlr). unfold encodePatch.
  destruct (validatePatchType_indices _ _ Hv) as [Hidx _].
  assert (Hne : indices p <> []) by (intros E; rewrite E in Hli; simpl in Hli; lia).
  pose proof (patchType_byte _ _ Hv Hne) as Hpt. unfold byte_ok in Hpt.
  destruct (Z.ltb_spec (wordCount p) 1), (Z.ltb_spec 4 (wordCount p)); try lia.
  rewrite Hli, Hlw, Z.eqb_refl, Hv. cbn [negb orb throw_if mbind outcome_bind].
  rewrite bool_decide_false by (intros [? ?]; done). cbn [throw_if mbind outcome_bind].
  rewrite encode_indices_spec by done. cbn [mbind outcome_bind].
  destruct (Z.ltb_spec (scoreDelta p) 0), (Z.ltb_spec MAX_WIRE_SCORE_DELTA (scoreDelta p)); try lia.
  cbn [orb throw_if mbind outcome_bind]. rewrite Hlr, Nat.eqb_refl. cbn [negb throw_if mbind outcome_bind].
  assert (Hsd' : 0 <= scoreDelta p < 2 ^ 63) by (unfold MAX_WIRE_SCORE_DELTA in Hsd; change (Z.shiftl 1 63) with (2 ^ 63) in Hsd; lia).
  pose proof (Z.mod_pos_bound (scoreDelta p) (2 ^ 32)).
  assert (0 <= scoreDelta p / 2 ^ 32 < 2 ^ 32) by (split; [apply Z.div_pos; lia|apply Z.div_lt_upper_bound; lia]).
  rewrite !js_shru_0. change 0xffffffff with (Z.ones 32). rewrite Z.land_ones, Z.shiftr_div_pow2, !ToUint32_small, !u32_bytes_spec by lia.
  rewrite land_ff, !(Z.mod_small _ 256) by lia.
  assert (Hsz : exists n, (42 + fold_left (fun sum arr => (sum + length arr)%nat) (map leb (indices p)) 0 + Z.to_nat (wordCount p) * 32 = n)%nat
     /\ n = (42 + length (wire_words (indices p) (newWords p)))%nat).
  { eexists. split; [reflexivity|]. rewrite length_wire_words by lia. lia. }
  destruct Hsz as (n & -> & Hn). f_equal.
  assert (Hstart : forall m, (zeros m, 0%nat) = ([] ++ zeros m, length (@nil Z))) by done. rewrite Hstart.
  rewrite !put_app by (rewrite ?length_be_bytes; simpl; lia). rewrite <- Hlw, Nat2Z.id.
  rewrite encode_loop by (rewrite concat_wire_pieces, ?length_be_bytes by lia; simpl; lia).
  rewrite concat_wire_pieces by lia. cbn [fst]. rewrite !length_be_bytes, Hlr.
  replace (_ - length (wire_words _ _))%nat with 0%nat by (simpl; lia). change (zeros 0) with (@nil Z).
  rewrite app_nil_r. unfold patch_wire. rewrite be_bytes_8, Hlw by lia. by rewrite !app_nil_l, <- !app_assoc.
Qed.

Lemma encodePatch_wire p : wire_ok p -> encodePatch p = Returns (patch_wire p).
Proof. unfold wire_ok. intros H. apply encodePatch_encodable. unfold encodable. tauto. Qed.

Lemma encodePatch_inv p bs : encodePatch p = Returns bs -> encodable p.
Proof.
  intros H. unfold encodePatch in H. inv_outcome. bool_hyps.
  repeat match goal with H : bool_decide _ = false |- _ => apply bool_decide_eq_false in H
    | H : (_ =? _)%nat = true |- _ => apply Nat.eqb_eq in H end.
  split; [lia|]. split; [done|]. split; [done|]. split; [by apply eq_None_not_Some|]. split; [lia|done].
Qed.

(** ** The decoder reads [patch_wire], and nothing else. *)
Lemma wire_words_ok idxs nw : Forall index_ok idxs -> bytes_ok (wire_words idxs nw).
Proof.
  intros H. revert nw. induction H as [|i idxs Hi H IH]; intros [|w nw]; cbn [wire_words]; try constructor.
  unfold index_ok, RANGES.RESERVED_START in Hi.
  apply Forall_app; split; [apply leb_ok; lia|]. apply Forall_app; split; [apply be_bytes_ok|apply IH].
Qed.

Lemma decode_words_wire pre idxs nw : length idxs = length nw -> bytes_ok pre ->
  Forall index_ok idxs -> Forall uint256 nw ->
  decode_words (length nw) (pre ++ wire_words idxs nw) (length pre)
  = Returns (length (pre ++ wire_words idxs nw), idxs, nw).
Proof.
  intros Hl Hp Hi Hw. revert pre nw Hl Hp Hw.
  induction Hi as [|i idxs Hi His IH]; intros pre [|w nw] Hl Hp Hw; try discriminate.
  { cbn. by rewrite app_nil_r. }
  inversion_clear Hw as [|? ? Hw' Hws]. cbn [length decode_words wire_words].
  pose proof Hi as Hi'. unfold index_ok, RANGES.RESERVED_START in Hi'.
  assert (Hrest : bytes_ok (be_bytes 32 w ++ wire_words idxs nw)) by (apply Forall_app; split; [apply be_bytes_ok|by apply wire_words_ok]).
  rewrite decodeLEB128_leb by (lia || done). cbn [mbind outcome_bind fst snd].
  rewrite (proj2 (Nat.ltb_ge _ _)) by (rewrite !length_app, length_be_bytes; lia). cbn [throw_if mbind outcome_bind].
  rewrite (app_assoc pre). rewrite <- length_app.
  rewrite readBigEndian32_spec; [|rewrite !Forall_app; repeat split; [done|apply leb_ok; lia|apply be_bytes_ok|by apply wire_words_ok]
    |rewrite !length_app, length_be_bytes; lia].
  rewrite (u8_slice_app _ (be_bytes 32 w)) by (done || by rewrite length_be_bytes). rewrite be_value_be_bytes, Z.mod_small by (by apply uint256_be).
  rewrite (app_assoc (pre ++ leb i)). replace (length (pre ++ leb i) + 32)%nat with (length ((pre ++ leb i) ++ be_bytes 32 w))
    by (rewrite (length_app (pre ++ leb i)), length_be_bytes; lia).
  rewrite IH; [done|by simpl in Hl; lia| |done].
  rewrite !Forall_app; repeat split; [done|apply leb_ok; lia|apply be_bytes_ok].
Qed.

Lemma decode_words_inv n data off off' idxs nw : bytes_ok data ->
  decode_words n data off = Returns (off', idxs, nw) ->
  length idxs = n /\ length nw = n /\ Forall (fun i => 0 <= i < 1024) idxs /\ Forall uint256 nw
  /\ (off <= length data -> off' <= length data /\ drop off data = wire_words idxs nw ++ drop off' data)%nat.
Proof.
  intros Hok. revert off off' idxs nw. induction n as [|n IH]; intros off off' idxs nw Hd; cbn [decode_words] in Hd.
  { injection Hd as <- <- <-. repeat split; [constructor|constructor|done]. }
  apply bind_Returns in Hd as ([i k] & Hleb & Hd). apply (decodeLEB128_inv _ _ _ _ Hok) in Hleb as (Hi & -> & Hk & Hsl).
  cbn [fst snd] in Hd. apply bind_Returns in Hd as (? & Ht & Hd). apply throw_if_Returns, Nat.ltb_ge in Ht.
  apply bind_Returns in Hd as ([[o is_] ws] & Hrec & Hd). injection Hd as <- <- <-.
  apply IH in Hrec as (H1 & H2 & H3 & H4 & H5). cbn [length fst snd].
  split; [by f_equal|]. split; [by f_equal|]. split; [by constructor|].
  split; [constructor; [apply readBigEndian32_uint256; [done|lia]|done]|].
  intros Hoff. destruct H5 as [H5 H6]; [lia|]. split; [done|]. cbn [wire_words fst snd].
  assert (E1 : drop off data = leb i ++ drop (off + length (leb i)) data).
  { rewrite <- drop_drop. rewrite <- Hsl at 1. unfold u8_slice. by rewrite take_drop. }
  rewrite E1, <- !app_assoc. f_equal. rewrite <- H6.
  rewrite readBigEndian32_spec by (done || lia).
  assert (E2 : be_bytes 32 (be_value (u8_slice data (off + length (leb i)) 32)) = u8_slice data (off + length (leb i)) 32).
  { assert (L : length (u8_slice data (off + length (leb i)) 32) = 32%nat)
      by (unfold u8_slice; rewrite length_take, length_drop; lia).
    rewrite <- L at 1. apply be_bytes_be_value. unfold u8_slice. by apply Forall_take, Forall_drop. }
  rewrite E2. unfold u8_slice. rewrite <- (drop_drop data 32 (off + length (leb i))). by rewrite take_drop.
Qed.

Lemma patch_wire_bytes_ok p : wire_ok p -> bytes_ok (patch_wire p).
Proof.
  intros (Hwc & Hli & _ & Hv & _ & _ & Hr & _). unfold patch_wire. destruct (validatePatchType_indices _ _ Hv) as [Hidx _].
  assert (Hne : indices p <> []) by (intros E; rewrite E in Hli; simpl in Hli; lia). pose proof (patchType_byte _ _ Hv Hne) as Hpt.
  rewrite !Forall_app. repeat split; [|..|apply be_bytes_ok|done|by apply wire_words_ok]; repeat constructor; unfold byte_ok in *; lia.
Qed.

Lemma length_patch_wire p : wire_ok p -> (42 <= length (patch_wire p) <= 178)%nat.
Proof.
  intros (Hwc & Hli & Hlw & _ & _ & Hlr & _). unfold patch_wire. rewrite !length_app, length_be_bytes, Hlr.
  assert (H : forall idxs nw, (length (wire_words idxs nw) <= 34 * length nw)%nat).
  { intros idxs. induction idxs as [|i idxs IH]; intros [|w nw]; cbn [wire_words length]; try lia.
    rewrite !length_app, length_be_bytes, leb_length. specialize (IH nw). destruct (i <? 128); lia. }
  specialize (H (indices p) (newWords p)). cbn [length]. lia.
Qed.

Lemma decodePatch_wire p : wire_ok p -> decodePatch (patch_wire p) = Returns p.
Proof.
  intros (Hwc & Hli & Hlw & Hv & Hsd & Hlr & Hrok & Hwok). unfold patch_wire.
  destruct (validatePatchType_indices _ _ Hv) as [Hidx _].
  assert (Hne : indices p <> []) by (intros E; rewrite E in Hli; simpl in Hli; lia).
  pose proof (patchType_byte _ _ Hv Hne) as Hpt.
  assert (Hsd' : 0 <= scoreDelta p < 2 ^ 63) by (unfold MAX_WIRE_SCORE_DELTA in Hsd; change (Z.shiftl 1 63) with (2 ^ 63) in Hsd; lia).
  set (body := wire_words (indices p) (newWords p)). set (pre := [patchType p] ++ [wordCount p] ++ be_bytes 8 (scoreDelta p) ++ parentStateRoot p).
  assert (Hpre : length pre = 42%nat) by (unfold pre; rewrite !length_app, length_be_bytes, Hlr; done).
  assert (Hpok : bytes_ok pre).
  { unfold pre. rewrite !Forall_app. repeat split; [|..|apply be_bytes_ok|done]; repeat constructor; unfold byte_ok in *; lia. }
  assert (Hbok : bytes_ok body) by (by apply wire_words_ok).
  replace ([patchType p] ++ [wordCount p] ++ be_bytes 8 (scoreDelta p) ++ parentStateRoot p ++ body) with (pre ++ body)
    by (unfold pre; by rewrite <- !app_assoc).
  assert (Hall : bytes_ok (pre ++ body)) by (by apply Forall_app).
  unfold decodePatch. rewrite (proj2 (Nat.ltb_ge _ _)) by (rewrite length_app; lia). cbn [throw_if mbind outcome_bind].
  rewrite !read_u32_spec by (done || rewrite length_app; lia).
  pose proof (Z.mod_pos_bound (scoreDelta p) (2 ^ 32)). pose proof (Z.div_mod (scoreDelta p) (2 ^ 32)).
  assert (0 <= scoreDelta p / 2 ^ 32 < 2 ^ 32) by (split; [apply Z.div_pos; lia|apply Z.div_lt_upper_bound; lia]).
  assert (E1 : u8_slice (pre ++ body) 2 4 = be_bytes 4 (scoreDelta p / 2 ^ 32)).
  { unfold pre. rewrite be_bytes_8, <- !app_assoc by lia. rewrite (app_assoc [_] [_]).
    apply u8_slice_app; by rewrite ?length_app, ?length_be_bytes. }
  assert (E2 : u8_slice (pre ++ body) 6 4 = be_bytes 4 (scoreDelta p mod 2 ^ 32)).
  { unfold pre. rewrite be_bytes_8, <- !app_assoc by lia. rewrite (app_assoc [_] [_]), (app_assoc (_ ++ _) (be_bytes 4 _)).
    apply u8_slice_app; by rewrite ?length_app, ?length_be_bytes. }
  assert (E3 : u8_slice (pre ++ body) 10 32 = parentStateRoot p).
  { unfold pre. rewrite <- !app_assoc by lia. rewrite (app_assoc [_] [_]), (app_assoc (_ ++ _) (be_bytes 8 _)).
    apply u8_slice_app; by rewrite ?length_app, ?length_be_bytes, ?Hlr. }
  assert (E4 : (pre ++ body) !! 0%nat = Some (patchType p)) by done.
  assert (E5 : (pre ++ body) !! 1%nat = Some (wordCount p)) by done.
  clearbody pre. rewrite E4, E5. cbn [default from_option id].
  destruct (Z.ltb_spec (wordCount p) 1), (Z.ltb_spec 4 (wordCount p)); try lia. cbn [orb throw_if mbind outcome_bind].
  rewrite E1, E2, E3, !be_value_be_bytes, !(Z.mod_small _ (256 ^ Z.of_nat 4)) by (change (256 ^ Z.of_nat 4) with (2 ^ 32); lia).
  rewrite lor_shiftl_add by lia. replace (scoreDelta p / 2 ^ 32 * 2 ^ 32 + scoreDelta p mod 2 ^ 32) with (scoreDelta p) by lia.
  destruct (Z.ltb_spec MAX_WIRE_SCORE_DELTA (scoreDelta p)); [lia|]. cbn [throw_if mbind outcome_bind].
  rewrite <- Hpre. replace (Z.to_nat (wordCount p)) with (length (newWords p)) by lia. unfold body.
  rewrite decode_words_wire by (done || lia). cbn [mbind outcome_bind]. rewrite Nat.eqb_refl, Hv. cbn [negb throw_if mbind outcome_bind].
  rewrite bool_decide_false by (intros [? ?]; done). cbn. by destruct p.
Qed.

Lemma drop_cut data (off n : nat) : u8_slice data off n ++ drop (off + n) data = drop off data.
Proof. unfold u8_slice. by rewrite <- drop_drop, take_drop. Qed.

Lemma decodePatch_inv data p : bytes_ok data -> decodePatch data = Returns p -> wire_ok p /\ data = patch_wire p.
Proof.
  intros Hok Hd. unfold decodePatch in Hd. apply bind_Returns in Hd as (? & Hl & Hd). apply throw_if_Returns, Nat.ltb_ge in Hl.
  apply bind_Returns in Hd as (? & Hwc & Hd). apply throw_if_Returns in Hwc.
  apply bind_Returns in Hd as (? & Hsd & Hd). apply throw_if_Returns, Z.ltb_ge in Hsd.
  apply bind_Returns in Hd as ([[off idxs] nw] & Hw & Hd).
  apply bind_Returns in Hd as (? & Ht & Hd). apply throw_if_Returns, negb_false_iff, Nat.eqb_eq in Ht.
  apply bind_Returns in Hd as (? & Hv & Hd). apply throw_if_Returns, bool_decide_eq_false in Hv. injection Hd as <-.
  apply decode_words_inv in Hw as (L1 & L2 & Hi & Hu & Hdrop); [|done]. destruct Hdrop as [_ Hdrop]; [lia|].
  rewrite Ht, (drop_ge data (length data)), app_nil_r in Hdrop by lia.
  destruct (lookup_lt_is_Some_2 data 0) as [b0 H0]; [lia|]. destruct (lookup_lt_is_Some_2 data 1) as [b1 H1]; [lia|].
  rewrite H0, H1 in *. cbn [default from_option id] in *. apply orb_false_iff in Hwc as [Hwc1 Hwc2].
  apply Z.ltb_ge in Hwc1, Hwc2. rewrite !read_u32_spec in * by (done || lia).
  assert (Hsl : forall o n, bytes_ok (u8_slice data o n)) by (intros; unfold u8_slice; by apply Forall_take, Forall_drop).
  assert (Hln : forall o n, (o + n <= length data)%nat -> length (u8_slice data o n) = n)
    by (intros; unfold u8_slice; rewrite length_take, length_drop; lia).
  pose proof (be_value_bound _ (Hsl 2%nat 4%nat)) as B2. pose proof (be_value_bound _ (Hsl 6%nat 4%nat)) as B6.
  rewrite Hln in B2, B6 by lia. change (256 ^ Z.of_nat 4) with (2 ^ 32) in *. rewrite lor_shiftl_add in * by lia.
  set (hi := be_value (u8_slice data 2 4)) in *. set (lo := be_value (u8_slice data 6 4)) in *.
  split.
  - unfold wire_ok. cbn [wordCount indices newWords patchType scoreDelta parentStateRoot].
    split; [lia|]. split; [lia|]. split; [lia|]. split; [by apply eq_None_not_Some|]. split; [lia|].
    split; [apply Hln; lia|]. split; [apply Hsl|done].
  - unfold patch_wire. cbn [wordCount indices newWords patchType scoreDelta parentStateRoot]. rewrite <- Hdrop.
    unfold MAX_WIRE_SCORE_DELTA in Hsd. change (Z.shiftl 1 63) with (2 ^ 63) in Hsd.
    rewrite be_bytes_8 by lia. replace ((hi * 2 ^ 32 + lo) / 2 ^ 32) with hi by (rewrite Z.add_comm, Z.div_add, Z.div_small; lia).
    replace ((hi * 2 ^ 32 + lo) mod 2 ^ 32) with lo by (rewrite Z.add_comm, Z.mod_add, Z.mod_small; lia).
    assert (R : forall o n, (o + n <= length data)%nat -> be_bytes n (be_value (u8_slice data o n)) = u8_slice data o n).
    { intros o n Hon. rewrite <- (Hln o n) at 1 by done. apply be_bytes_be_value, Hsl. }
    unfold hi, lo. rewrite !R by lia. rewrite <- !app_assoc.
    change 42%nat with (10 + 32)%nat. rewrite (drop_cut data 10 32).
    change 10%nat with (6 + 4)%nat. rewrite (drop_cut data 6 4).
    change 6%nat with (2 + 4)%nat. rewrite (drop_cut data 2 4).
    destruct data as [|d0 [|d1 data]]; [done..|]. injection H0 as ->. injection H1 as ->. done.
Qed.

(** The patch with its words taken modulo [2^256]. *)
Definition truncated (p : Patch) : Patch :=
  mkPatch (patchType p) (wordCount p) (scoreDelta p) (parentStateRoot p) (indices p) (map (asUintN 256) (newWords p)).

Lemma wire_words_truncated idxs nw : wire_words idxs (map (asUintN 256) nw) = wire_words idxs nw.
Proof.
  revert nw. induction idxs as [|i idxs IH]; intros [|w nw]; try done. cbn [map wire_words]. rewrite IH. by rewrite asUintN_be_bytes.
Qed.

Lemma truncated_wire_ok p : encodable p -> bytes_ok (parentStateRoot p) -> wire_ok (truncated p).
Proof.
  intros (H1 & H2 & H3 & H4 & H5 & H6) Hr. unfold wire_ok, truncated. cbn [wordCount indices newWords patchType scoreDelta parentStateRoot]. rewrite length_map.
  split_and!; try done; try lia. apply Forall_fmap, Forall_forall. intros w _. apply Z.mod_pos_bound. lia.
Qed.

Lemma truncated_id p : Forall uint256 (newWords p) <-> truncated p = p.
Proof.
  destruct p as [t c d r i nw]. unfold truncated. cbn [wordCount indices newWords patchType scoreDelta parentStateRoot]. split.
  - intros H. f_equal. induction H as [|w nw Hw _ IH]; [done|]. cbn [map]. rewrite IH. f_equal. apply Z.mod_small, Hw.
  - intros [= E]. rewrite <- E. apply Forall_fmap, Forall_forall. intros w _. apply Z.mod_pos_bound. lia.
Qed.

(** C34. The wire codec round-trips: a patch that [encodePatch] accepts, its root an array of bytes, decodes back with
    its words reduced modulo [2^256] and nothing else changed; so to itself exactly when every word is a uint256. *)
Theorem decodePatch_encodePatch (p : Patch) (bs : bytes) :
  encodePatch p = Returns bs -> bytes_ok (parentStateRoot p) ->
  decodePatch bs = Returns (truncated p) /\ (decodePatch bs = Returns p <-> Forall uint256 (newWords p)).
Proof.
  intros H Hr. pose proof (encodePatch_inv p bs H) as He. rewrite encodePatch_encodable in H by done. apply Returns_inj in H as <-.
  assert (E : decodePatch (patch_wire p) = Returns (truncated p)).
  { rewrite <- (decodePatch_wire (truncated p)) by by apply truncated_wire_ok. f_equal. unfold patch_wire, truncated. cbn [patchType wordCount scoreDelta parentStateRoot indices newWords].
    by rewrite wire_words_truncated. }
  split; [exact E|]. rewrite E, truncated_id. split; [apply Returns_inj|by intros ->].
Qed.

Definition patch_1 : Patch :=
  mkPatch PATCH_TYPE.MIXED 2 7 (replicate 32 171) [33; 800] [2 ^ 255 + 5; 2 ^ 200].

Lemma patch_1_wire_ok : wire_ok patch_1.
Proof. apply (bool_decide_unpack _). vm_compute. reflexivity. Qed.

(** A patch with a word too wide is accepted, and decodes to another. *)
Definition patch_wide : Patch := mkPatch PATCH_TYPE.MIXED 1 7 (replicate 32 171) [33] [2 ^ 256 + 5].
Lemma decodePatch_encodePatch_witness : decodePatch (patch_wire patch_1) = Returns patch_1
  /\ exists bs, encodePatch patch_wide = Returns bs /\ decodePatch bs = Returns (mkPatch PATCH_TYPE.MIXED 1 7 (replicate 32 171) [33] [5]) /\ decodePatch bs <> Returns patch_wide.
Proof.
  split; [apply (decodePatch_encodePatch patch_1); [apply encodePatch_wire, patch_1_wire_ok|apply patch_1_wire_ok..]|].
  exists (patch_wire patch_wide). assert (E : encodePatch patch_wide = Returns (patch_wire patch_wide)) by (vm_compute; reflexivity).
  destruct (decodePatch_encodePatch patch_wide _ E) as [H1 H2]; [apply patch_1_wire_ok|]. split; [exact E|]. split; [exact H1|].
  rewrite H2. intros H. apply Forall_singleton in H as [_ H]. revert H. vm_compute. discriminate.
Defined.

(** The wire form is canonical: the decoder accepts only the encoder's
    output, so no two byte strings decode to the same patch. *)
Theorem encodePatch_decodePatch (data : bytes) (p : Patch) :
  bytes_ok data -> decodePatch data = Returns p -> wire_ok p /\ encodePatch p = Returns data.
Proof.
  intros Hok Hd. destruct (decodePatch_inv data p Hok Hd) as [Hw ->]. split; [done|]. by apply encodePatch_wire.
Qed.

Lemma encodePatch_decodePatch_witness : wire_ok patch_1 /\ encodePatch patch_1 = Returns (patch_wire patch_1).
Proof.
  apply (encodePatch_decodePatch (patch_wire patch_1)); [|apply decodePatch_wire, patch_1_wire_ok].
  apply (bool_decide_unpack _). vm_compute. reflexivity.
Defined.

(** ** What the apply paths compute. *)

(** The state after writing every word of the patch. *)
Definition write_words (idxs nw ws : list Z) : list Z :=
  fold_left (fun ws '(i, w) => <[Z.to_nat i := w]> ws) (zip idxs nw) ws.
Definition patched (s : CortexState) (p : Patch) : CortexState :=
  mkState (write_words (indices p) (newWords p) (words s)).

(** Patches whose three lengths agree and whose indices are distinct and writable. *)
Definition shape_ok (p : Patch) : Prop :=
  Z.of_nat (length (indices p)) = wordCount p /\ Z.of_nat (length (newWords p)) = wordCount p
  /\ Forall index_ok (indices p) /\ NoDup (indices p).

Lemma wire_ok_shape p : wire_ok p -> shape_ok p.
Proof.
  intros (_ & H1 & H2 & H3 & _). destruct (validatePatchType_indices _ _ H3). done.
Qed.

Lemma length_write_words idxs nw ws : length (write_words idxs nw ws) = length ws.
Proof.
  unfold write_words. revert ws. induction (zip idxs nw) as [|[i w] l IH]; intros ws; cbn [fold_left]; [done|].
  by rewrite IH, length_insert.
Qed.

Lemma js_get_app_r {A} (l1 l2 : list A) k : js_get (l1 ++ l2) (Z.of_nat (length l1) + Z.of_nat k) = l2 !! k.
Proof.
  unfold js_get. destruct (Z.leb_spec 0 (Z.of_nat (length l1) + Z.of_nat k)); [|lia].
  rewrite lookup_app_r by lia. f_equal. lia.
Qed.

Lemma js_set_insert ws idx v : 0 <= idx < Z.of_nat (length ws) -> js_set ws idx v = <[Z.to_nat idx := v]> ws.
Proof.
  intros H. unfold js_set. destruct (Z.ltb_spec idx 0); [lia|].
  rewrite (proj2 (Nat.ltb_lt _ _)) by lia. done.
Qed.

Lemma seqZ_S k n : seqZ k (Z.of_nat (S n)) = k :: seqZ (k + 1) (Z.of_nat n).
Proof. rewrite seqZ_cons by lia. f_equal. f_equal; lia. Qed.

Lemma write_loop_spec p ws : shape_ok p -> length ws = WORD_COUNT_NAT ->
  write_loop p (seqZ 0 (wordCount p)) ws = Some (write_words (indices p) (newWords p) ws).
Proof.
  intros (Hli & Hlw & Hidx & _) Hlen. rewrite <- Hli.
  assert (H : forall pi pw idxs nw ws, indices p = pi ++ idxs -> newWords p = pw ++ nw -> length pi = length pw ->
    length idxs = length nw -> Forall index_ok idxs -> length ws = WORD_COUNT_NAT ->
    write_loop p (seqZ (Z.of_nat (length pi)) (Z.of_nat (length idxs))) ws = Some (write_words idxs nw ws)).
  { clear ws Hlen. intros pi pw idxs. revert pi pw. induction idxs as [|i idxs IH]; intros pi pw [|w nw] ws Ei Ew Hp Hl Hf Hlen;
      try discriminate; [done|]. inversion_clear Hf as [|? ? Hi Hf']. cbn [length]. rewrite seqZ_S. cbn [write_loop].
    replace (Z.of_nat (length pi)) with (Z.of_nat (length pi) + Z.of_nat 0) at 1 by lia.
    rewrite Ei, (js_get_app_r pi (i :: idxs) 0). cbn [lookup list_lookup].
    unfold index_ok, RANGES.RESERVED_START in Hi. unfold RANGES.RESERVED_START, RANGES.RESERVED_END, RANGES.WORD_COUNT.
    destruct (Z.leb_spec 992 i), (Z.ltb_spec i 0), (Z.leb_spec 1024 i); try lia. cbn [andb orb].
    unfold get0. replace (Z.of_nat (length pi)) with (Z.of_nat (length pw) + Z.of_nat 0) at 2 by lia.
    rewrite Ew, (js_get_app_r pw (w :: nw) 0). cbn [lookup list_lookup default from_option id].
    pose proof WORD_COUNT_NAT_Z. rewrite js_set_insert by lia.
    replace (Z.of_nat (length pi) + 1) with (Z.of_nat (length (pi ++ [i]))) by (rewrite length_app; simpl; lia).
    apply (IH (pi ++ [i]) (pw ++ [w])); [by rewrite Ei, <- app_assoc|by rewrite Ew, <- app_assoc
      |rewrite !length_app; simpl; lia|simpl in Hl; lia|done|by rewrite length_insert]. }
  apply (H [] [] (indices p) (newWords p)); try done. lia.
Qed.

Lemma write_words_lookup idxs nw ws (j : nat) : NoDup idxs -> length idxs = length nw -> Forall index_ok idxs ->
  length ws = WORD_COUNT_NAT ->
  (forall k w, idxs !! k = Some (Z.of_nat j) -> nw !! k = Some w -> write_words idxs nw ws !! j = Some w)
  /\ (Z.of_nat j ∉ idxs -> write_words idxs nw ws !! j = ws !! j).
Proof.
  revert nw ws. induction idxs as [|i idxs IH]; intros [|v nw] ws Hnd Hl Hf Hlen; try discriminate; [done|].
  apply NoDup_cons in Hnd as [Hni Hnd]. inversion_clear Hf as [|? ? Hi Hf'].
  unfold index_ok, RANGES.RESERVED_START in Hi. pose proof WORD_COUNT_NAT_Z.
  unfold write_words. cbn [zip zip_with fold_left].
  fold (write_words idxs nw (<[Z.to_nat i := v]> ws)).
  destruct (IH nw (<[Z.to_nat i := v]> ws)) as [IH1 IH2]; [done|simpl in Hl; lia|done|by rewrite length_insert|].
  split.
  - intros [|k] w Hk Hw; cbn in Hk, Hw; [|by eapply IH1].
    injection Hk as ->. injection Hw as ->. rewrite IH2 by done. rewrite Nat2Z.id. apply list_lookup_insert_eq. lia.
  - intros Hn. rewrite IH2 by set_solver. apply list_lookup_insert_ne. intros <-. apply Hn.
    rewrite Z2Nat.id by lia. apply list_elem_of_here.
Qed.

Lemma word_at_nat s (j : nat) : word_at s (Z.of_nat j) = default 0 (words s !! j).
Proof. unfold word_at, get0, js_get. destruct (Z.leb_spec 0 (Z.of_nat j)); [|lia]. by rewrite Nat2Z.id. Qed.

(** The patched state, word by word. *)
Lemma patched_written s p k i w : shape_ok p -> length (words s) = WORD_COUNT_NAT ->
  indices p !! k = Some i -> newWords p !! k = Some w -> word_at (patched s p) i = w.
Proof.
  intros (Hli & Hlw & Hf & Hnd) Hlen Hi Hw. assert (Hi' : index_ok i) by (by eapply Forall_lookup_1 in Hf).
  unfold index_ok in Hi'. rewrite <- (Z2Nat.id i) by lia. rewrite word_at_nat. unfold patched; cbn [words].
  rewrite (proj1 (write_words_lookup (indices p) (newWords p) (words s) (Z.to_nat i) Hnd ltac:(lia) Hf Hlen) k w); [done| |done].
  by rewrite Z2Nat.id by lia.
Qed.

Lemma patched_other s p j : shape_ok p -> length (words s) = WORD_COUNT_NAT -> j ∉ indices p ->
  word_at (patched s p) j = word_at s j.
Proof.
  intros (Hli & Hlw & Hf & Hnd) Hlen Hj. unfold word_at, get0, js_get. destruct (Z.leb_spec 0 j); [|done].
  unfold patched; cbn [words].
  rewrite (proj2 (write_words_lookup (indices p) (newWords p) (words s) (Z.to_nat j) Hnd ltac:(lia) Hf Hlen)); [done|].
  by rewrite Z2Nat.id.
Qed.

Lemma patched_ok s p : state_ok s -> Forall uint256 (newWords p) -> state_ok (patched s p).
Proof.
  intros [Hl Hw] Hn. split; [by unfold patched; cbn; rewrite length_write_words|]. unfold patched; cbn [words].
  unfold write_words. assert (Hz : Forall (fun q => uint256 q.2) (zip (indices p) (newWords p))).
  { revert Hn. generalize (indices p). induction (newWords p) as [|w nw IH]; intros [|i l] H; try constructor; inversion_clear H; simpl; auto. }
  clear Hn Hl. revert Hw. generalize (words s). induction Hz as [|[i w] l Hq Hz IH]; intros ws Hw; cbn [fold_left]; [done|].
  apply IH. by apply Forall_insert.
Qed.

(** Tests over the first [wordCount] indices are tests over the index list. *)
Lemma existsb_idx_test p f : shape_ok p ->
  existsb (idx_test p f) (seqZ 0 (wordCount p)) = true <-> exists i, i ∈ indices p /\ f i = true.
Proof.
  intros (Hli & _). rewrite existsb_exists. split.
  - intros (k & _ & Hk). unfold idx_test in Hk. destruct (js_get (indices p) k) as [i|] eqn:E; [|done].
    exists i. split; [|done]. unfold js_get in E. destruct (0 <=? k); [|done]. by eapply list_elem_of_lookup_2.
  - intros (i & Hi & Hf). apply list_elem_of_lookup_1 in Hi as [k Hk]. exists (Z.of_nat k).
    split; [apply list_elem_of_In, elem_of_seqZ; apply lookup_lt_Some in Hk; lia|].
    unfold idx_test, js_get. destruct (Z.leb_spec 0 (Z.of_nat k)); [|lia]. by rewrite Nat2Z.id, Hk.
Qed.

(** A word at a written index differs from the patch's exactly when patching changes it. *)
Lemma word_differs_spec s p (k : nat) i w : shape_ok p -> length (words s) = WORD_COUNT_NAT ->
  indices p !! k = Some i -> newWords p !! k = Some w ->
  word_differs s p (Z.of_nat k) = negb (word_at s i =? word_at (patched s p) i).
Proof.
  intros Hs Hl Hi Hw. rewrite (patched_written s p k i w) by done. unfold word_differs, get0, js_get.
  destruct (Z.leb_spec 0 (Z.of_nat k)); [|lia]. by rewrite Nat2Z.id, Hi, Hw.
Qed.

(** Reading a position of the patch: its index and word. *)
Lemma shape_position p k : shape_ok p -> 0 <= k < wordCount p ->
  exists i w, indices p !! Z.to_nat k = Some i /\ newWords p !! Z.to_nat k = Some w.
Proof.
  intros (Hli & Hlw & _) Hk. destruct (lookup_lt_is_Some_2 (indices p) (Z.to_nat k)) as [i Hi]; [lia|].
  destruct (lookup_lt_is_Some_2 (newWords p) (Z.to_nat k)) as [w Hw]; [lia|]. eauto.
Qed.

Lemma existsb_differs s p f : shape_ok p -> length (words s) = WORD_COUNT_NAT ->
  existsb (fun k => idx_test p f k && word_differs s p k) (seqZ 0 (wordCount p)) = true <->
  exists i, i ∈ indices p /\ f i = true /\ word_at (patched s p) i <> word_at s i.
Proof.
  intros Hs Hl. rewrite existsb_exists. split.
  - intros (k & Hk & E). apply list_elem_of_In, elem_of_seqZ in Hk.
    destruct (shape_position p k) as (i & w & Hi & Hw); [done|lia|].
    apply andb_true_iff in E as [E1 E2]. rewrite <- (Z2Nat.id k), (word_differs_spec s p _ i w) in E2 by (done || lia).
    exists i. split; [by eapply list_elem_of_lookup_2|]. unfold idx_test, js_get in E1.
    destruct (Z.leb_spec 0 k); [|lia]. rewrite Hi in E1. split; [done|]. apply negb_true_iff, Z.eqb_neq in E2. congruence.
  - intros (i & Hin & Hf & Hne). apply list_elem_of_lookup_1 in Hin as [k Hi].
    pose proof (lookup_lt_Some _ _ _ Hi). destruct Hs as (Hli & Hlw & Hs').
    destruct (lookup_lt_is_Some_2 (newWords p) k) as [w Hw]; [lia|]. exists (Z.of_nat k).
    split; [apply list_elem_of_In, elem_of_seqZ; lia|]. rewrite (word_differs_spec s p k i w) by done.
    apply andb_true_iff. split; [|apply negb_true_iff, Z.eqb_neq; congruence].
    unfold idx_test, js_get. destruct (Z.leb_spec 0 (Z.of_nat k)); [|lia]. by rewrite Nat2Z.id, Hi.
Qed.

(** ** The abstract specification of an accepted patch. *)

(** r5: policy words are written by POLICY_UPDATE, or by a MIXED patch that
    changes an anchor, relation or temporal word as well. *)
Definition policy_write_rule (s : CortexState) (p : Patch) : Prop :=
  (exists i, i ∈ indices p /\ isPolicyIndex i = true) ->
  patchType p = PATCH_TYPE.POLICY_UPDATE
  \/ patchType p = PATCH_TYPE.MIXED
     /\ exists i, i ∈ indices p /\ isPolicyMixedCompanionIndex i = true /\ word_at (patched s p) i <> word_at s i.

Record accepts (s : CortexState) (p : Patch) (r5 : bool) (s' : CortexState) : Prop := {
  acc_result : s' = patched s p;
  acc_change : s' <> s;
  acc_reserved : forall i, 0 <= i < 1024 -> word_reserved_clean i (word_at s' i);
  acc_header : r5 = true -> forall i, i ∈ indices p -> 32 <= i;
  acc_policy_write : r5 = true -> policy_write_rule s p;
  acc_policy : r5 = true -> policy_clean s'
}.

Lemma companion_not_policy i : isPolicyMixedCompanionIndex i = true -> isPolicyIndex i = false.
Proof.
  unfold isPolicyMixedCompanionIndex, isPolicyIndex, RANGES.MEMORY_INDEX_START, RANGES.MEMORY_INDEX_END, RANGES.RELATIONS_START,
    RANGES.RELATIONS_END, RANGES.TEMPORAL_START, RANGES.TEMPORAL_END, RANGES.POLICY_EVIDENCE_START, RANGES.POLICY_ABSTENTION_END.
  rewrite !orb_true_iff, !andb_true_iff, andb_false_iff, !Z.leb_le, !Z.leb_gt. lia.
Qed.

(** The two flag loops, as existential tests. *)
Lemma flags_fold {A} (f g : A -> bool) l a b :
  fold_left (fun '(x, y) i => (x || f i, y || g i)) l (a, b) = (a || existsb f l, b || existsb g l).
Proof.
  revert a b. induction l as [|i l IH]; intros a b; cbn [fold_left existsb]; [by rewrite !orb_false_r|].
  by rewrite IH, <- !orb_assoc.
Qed.

Lemma flags_fold_else {A} (f g : A -> bool) l a b : (forall i, g i = true -> f i = false) ->
  fold_left (fun '(x, y) i => if f i then (true, y) else if g i then (x, true) else (x, y)) l (a, b)
  = (a || existsb f l, b || existsb g l).
Proof.
  intros Hd. revert a b. induction l as [|i l IH]; intros a b; cbn [fold_left existsb]; [by rewrite !orb_false_r|].
  destruct (f i) eqn:Ef, (g i) eqn:Eg; try (apply Hd in Eg; congruence); rewrite IH; by destruct a, b.
Qed.

Lemma policyWriteIsCanonicalForState_spec s p : shape_ok p -> length (words s) = WORD_COUNT_NAT ->
  policyWriteIsCanonicalForState s p = true <-> policy_write_rule s p.
Proof.
  intros Hs Hl. unfold policyWriteIsCanonicalForState, policyWriteIsCanonical, policy_write_rule.
  rewrite flags_fold, flags_fold_else; [|intros k Hk; unfold idx_test in *; destruct (js_get _ _); [by apply companion_not_policy|done]].
  rewrite !orb_false_l.
  pose proof (existsb_idx_test p isPolicyIndex Hs) as HP.
  pose proof (existsb_idx_test p isPolicyMixedCompanionIndex Hs) as HC.
  pose proof (existsb_differs s p isPolicyMixedCompanionIndex Hs Hl) as HD.
  destruct (existsb (idx_test p isPolicyIndex) _); cbn [negb orb].
  2: { split; [|done]. intros _ Hex. apply HP in Hex. done. }
  assert (Hex : exists i, i ∈ indices p /\ isPolicyIndex i = true) by (by apply HP). clear HP.
  destruct (Z.eqb_spec (patchType p) PATCH_TYPE.POLICY_UPDATE) as [E|E].
  { cbn [negb]. rewrite E. cbn. intuition. }
  destruct (Z.eqb_spec (patchType p) PATCH_TYPE.MIXED) as [E'|E']; cbn [negb].
  2: { split; [done|]. intros H. specialize (H Hex). exfalso. intuition. }
  destruct (existsb (idx_test p isPolicyMixedCompanionIndex) _); cbn [negb].
  - rewrite HD. split; [by auto|]. intros H. destruct (H Hex) as [?|[_ ?]]; [contradiction|done].
  - split; [done|]. intros H. destruct (H Hex) as [?|[_ (i & Hi & Hc & _)]]; [contradiction|].
    exfalso. discriminate (proj2 HC). eauto.
Qed.

Lemma patchTouchesHeader_spec p : shape_ok p ->
  patchTouchesHeader p = false <-> forall i, i ∈ indices p -> 32 <= i.
Proof.
  intros Hs. unfold patchTouchesHeader. rewrite <- not_true_iff_false, existsb_idx_test by done.
  destruct Hs as (_ & _ & Hf & _). rewrite Forall_forall in Hf. unfold RANGES.HEADER_START, RANGES.HEADER_END. split.
  - intros H i Hi. specialize (Hf i Hi). unfold index_ok in Hf. destruct (Z.le_gt_cases 32 i); [done|]. exfalso. apply H.
    exists i. split; [done|]. apply andb_true_iff. rewrite !Z.leb_le. lia.
  - intros H (i & Hi & E). specialize (H i Hi). apply andb_true_iff in E as [_ E]. apply Z.leb_le in E. lia.
Qed.

Lemma state_ext s1 s2 : length (words s1) = length (words s2) -> (forall i, 0 <= i -> word_at s1 i = word_at s2 i) -> s1 = s2.
Proof.
  intros Hl H. destruct s1 as [w1], s2 as [w2]. cbn in *. f_equal. apply list_eq_same_length with (length w1); [done|done|].
  intros j x y Hj Hx Hy. specialize (H (Z.of_nat j) ltac:(lia)). rewrite !word_at_nat in H. cbn in H. rewrite Hx, Hy in H. done.
Qed.

Lemma any_change_spec s p : shape_ok p -> length (words s) = WORD_COUNT_NAT ->
  any_change s p = true <-> patched s p <> s.
Proof.
  intros Hs Hl. pose proof (existsb_differs s p (fun _ => true) Hs Hl) as HD.
  assert (E : any_change s p = existsb (fun k => idx_test p (fun _ => true) k && word_differs s p k) (seqZ 0 (wordCount p))).
  { apply existsb_ext_on. intros k Hk%elem_of_seqZ. destruct (shape_position p k Hs ltac:(lia)) as (i & w & Hi & _).
    unfold idx_test, js_get. destruct (Z.leb_spec 0 k); [|lia]. by rewrite Hi. }
  rewrite E, HD. split.
  - intros (i & _ & _ & Hne) Heq. apply Hne. by rewrite Heq.
  - intros Hne. destruct (decide (Forall (fun i => word_at (patched s p) i = word_at s i) (indices p))) as [Hall|Hall].
    + exfalso. apply Hne. apply state_ext; [unfold patched; cbn; apply length_write_words|]. intros i Hi.
      destruct (decide (i ∈ indices p)) as [Hin|Hni]; [|by apply patched_other].
      rewrite Forall_forall in Hall. by apply Hall.
    + apply not_Forall_Exists in Hall; [|apply _]. apply Exists_exists in Hall as (i & Hi & Hd). exists i. done.
Qed.

(** The reducer's apply path implements the specification. *)
Lemma applyPatchOntoCurrent_accepts s p r5 s' : state_ok s -> wire_ok p ->
  applyPatchOntoCurrent s p r5 = PatchSuccess s' <-> accepts s p r5 s'.
Proof.
  intros Hs Hp. pose proof (wire_ok_shape p Hp) as Hsh. destruct Hp as (Hwc & _ & _ & Hv & _ & _ & _ & Hu).
  pose proof (patched_ok s p Hs Hu) as Hok. destruct Hs as [Hl Hw].
  unfold applyPatchOntoCurrent, apply_words, over_budget.
  destruct (Z.ltb_spec (wordCount p) 1), (Z.ltb_spec 4 (wordCount p)); try lia. cbn [orb].
  rewrite Hv, bool_decide_false by (intros [? ?]; done). rewrite write_loop_spec by done. fold (patched s p).
  pose proof (patchTouchesHeader_spec p Hsh) as HH. pose proof (policyWriteIsCanonicalForState_spec s p Hsh Hl) as HC.
  pose proof (any_change_spec s p Hsh Hl) as HA. pose proof (reserved_scan (patched s p) Hok) as HR.
  pose proof (policy_scan (patched s p)) as HV. change (mkState (write_words (indices p) (newWords p) (words s))) with (patched s p).
  split.
  - intros E. destruct (r5 && patchTouchesHeader p) eqn:E1; [done|]. destruct (r5 && negb _) eqn:E2 in E; [done|].
    destruct (any_change s p); [|done]. cbn [negb] in E. destruct (hasNonZeroReservedBits (patched s p)); [done|].
    assert (s' = patched s p /\ (r5 = true -> validatePolicyRegions (patched s p) = None)) as [-> HV'].
    { destruct r5; [destruct (validatePolicyRegions (patched s p)); [done|]|]; injection E as <-; done. }
    constructor; [done|by apply HA|by apply HR|intros ->..].
    + by apply HH.
    + apply HC. by destruct (policyWriteIsCanonicalForState s p).
    + apply HV. by apply HV'.
  - intros [-> Hch Hres Hhd Hpw Hpc].
    assert (r5 && patchTouchesHeader p = false) as -> by (destruct r5; [by apply HH, Hhd|done]).
    assert (r5 && negb (policyWriteIsCanonicalForState s p) = false) as ->
      by (destruct r5; [cbn; apply negb_false_iff; by apply HC, Hpw|done]).
    rewrite (proj2 HA) by done. rewrite (proj2 HR) by done. cbn [negb].
    destruct r5; [rewrite (proj2 HV) by (by apply Hpc)|]; done.
Qed.

Section ApplyTheorems.
Context {HK : Hasher}.

(** [applyPatch] is the parent-root check followed by [applyPatchOntoCurrent]
    (the guards the two paths order differently raise the same error). *)
Lemma applyPatch_onto s p r5 : length (words s) = WORD_COUNT_NAT ->
  applyPatch s p r5 = Returns (
    if over_budget p then PatchFailure (patchError E03)
    else if negb (bytesEqual (parentStateRoot p) (root (cache_of s))) then PatchFailure (patchError E01)
    else applyPatchOntoCurrent s p r5).
Proof.
  intros Hl. unfold applyPatch. destruct (over_budget p) eqn:E; [done|].
  rewrite merkleizeState_returns by done. unfold mbind, outcome_bind.
  destruct (negb (bytesEqual _ _)); [done|]. unfold applyPatchOntoCurrent. rewrite E.
  destruct (bool_decide _); [done|]. destruct (r5 && negb _), (r5 && patchTouchesHeader p); done.
Qed.

Lemma bytesEqual_spec a b : bytesEqual a b = true <-> a = b.
Proof.
  unfold bytesEqual. destruct (Nat.eqb_spec (length a) (length b)) as [E|E]; cbn [negb]; [apply list_Zeqb_spec|].
  split; [done|]. by intros ->.
Qed.

Lemma applyPatch_accepts (s s' : CortexState) (p : Patch) (r5 : bool) :
  state_ok s -> wire_ok p ->
  (applyPatch s p r5 = Returns (PatchSuccess s')
   <-> merkleizeState s = Returns (parentStateRoot p) /\ accepts s p r5 s').
Proof.
  intros Hs Hp. destruct Hs as [Hl Hw]. rewrite applyPatch_onto, merkleizeState_returns by done.
  rewrite <- applyPatchOntoCurrent_accepts by done. destruct Hp as [Hwc _]. unfold over_budget.
  destruct (Z.ltb_spec (wordCount p) 1), (Z.ltb_spec 4 (wordCount p)); try lia. cbn [orb].
  destruct (bytesEqual (parentStateRoot p) (root (cache_of s))) eqn:E; cbn [negb].
  - apply bytesEqual_spec in E as <-. split; [intros E; apply Returns_inj in E; done|]. by intros [_ ->].
  - split; [done|]. intros [E' _]. apply Returns_inj in E'. rewrite <- E', (proj2 (bytesEqual_spec _ _)) in E; done.
Qed.

Lemma applyPatch_state_ok s p r5 s' : state_ok s -> wire_ok p -> applyPatch s p r5 = Returns (PatchSuccess s') -> state_ok s'.
Proof. intros Hs Hp H. apply applyPatch_accepts in H as [_ [-> _ _ _ _ _]]; [|done..]. apply patched_ok; [done|apply Hp]. Qed.

(** C1. A wire patch is accepted by [applyPatch] on a well-formed state exactly
    when its parent root is the state's Merkle root and the abstract
    specification [accepts] holds: the result is the parent with exactly the
    listed words replaced, it differs from the parent, its reserved bits are
    zero and, under r5, the header is untouched, policy words are written
    canonically and the policy regions are clean. *)
Theorem applyPatch_refines_spec (s s' : CortexState) (p : Patch) (r5 : bool) :
  state_ok s -> wire_ok p ->
  (applyPatch s p r5 = Returns (PatchSuccess s')
   <-> merkleizeState s = Returns (parentStateRoot p) /\ accepts s p r5 s').
Proof. apply applyPatch_accepts. Qed.

(** What an error of [validatePolicyRegions] says. *)
Lemma policy_families_check_code s fams e : policy_families_check s fams = Some e -> code e = E02.
Proof. induction fams; cbn [policy_families_check]; [done|]. destruct (0 <? _); [by intros [= <-]|done]. Qed.

Lemma policyRegions_error_code s e : validatePolicyRegions s = Some e ->
  code e = E02 \/ code e = E04 /\ ~ (forall i, 896 <= i <= 991 -> word_at s i = 0).
Proof.
  unfold validatePolicyRegions. destruct (policy_families_check _ _) eqn:E.
  - intros [= <-]. left. by eapply policy_families_check_code.
  - rewrite <- policyReserved_zero. generalize (policyReservedNonZeroWords s). intros n.
    destruct (Z.ltb_spec 0 n); [|done]. intros [= <-]. right. split; [done|lia].
Qed.

Lemma not_all_zero s lo hi : ~ (forall i, lo <= i <= hi -> word_at s i = 0) -> exists i, lo <= i <= hi /\ word_at s i <> 0.
Proof.
  intros H. destruct (decide (Forall (fun i => word_at s i = 0) (seqZ lo (hi - lo + 1)))) as [Ha|Ha].
  - exfalso. apply H. intros i Hi. rewrite Forall_forall in Ha. apply Ha, elem_of_seqZ. lia.
  - apply not_Forall_Exists in Ha; [|apply _]. apply Exists_exists in Ha as (i & Hi%elem_of_seqZ & Hne). exists i. split; [lia|done].
Qed.

(** C36. Every rejection names its reason: E01 a wrong parent root, E05 a patch
    that changes nothing, E04 a reserved bit (or, under r5, a reserved policy
    word) set in the result, E02 an r5 violation (header write,
    non-canonical policy write or invalid atom); E03 and exceptions do not
    occur for wire patches on well-formed states. *)
Theorem applyPatch_rejects (s : CortexState) (p : Patch) (r5 : bool) :
  state_ok s -> wire_ok p ->
  exists r, applyPatch s p r5 = Returns r /\
  (forall e, r = PatchFailure e ->
   match code e with
   | E01 => merkleizeState s <> Returns (parentStateRoot p)
   | E02 => r5 = true /\ ((exists i, i ∈ indices p /\ i < 32) \/ ~ policy_write_rule s p \/ ~ policy_clean (patched s p))
   | E03 => False
   | E04 => (exists i, 0 <= i < 1024 /\ ~ word_reserved_clean i (word_at (patched s p) i))
            \/ r5 = true /\ exists i, 896 <= i <= 991 /\ word_at (patched s p) i <> 0
   | E05 => patched s p = s
   end).
Proof.
  intros Hs Hp. pose proof (wire_ok_shape p Hp) as Hsh. destruct Hp as (Hwc & _ & _ & Hv & _ & _ & _ & Hu).
  pose proof (patched_ok s p Hs Hu) as Hok. destruct Hs as [Hl Hw].
  rewrite applyPatch_onto by done. eexists. split; [reflexivity|]. intros e.
  rewrite merkleizeState_returns by done. unfold applyPatchOntoCurrent, apply_words.
  assert (over_budget p = false) as -> by (unfold over_budget; apply orb_false_iff; rewrite !Z.ltb_ge; lia).
  destruct (bytesEqual _ _) eqn:Eb; cbn [negb].
  2: { intros [= <-]. cbn [code patchError]. intros E. apply Returns_inj in E. rewrite E, (proj2 (bytesEqual_spec _ _)) in Eb; done. }
  rewrite Hv, bool_decide_false by (intros [? ?]; done). rewrite write_loop_spec by done.
  change (mkState (write_words (indices p) (newWords p) (words s))) with (patched s p).
  destruct (r5 && patchTouchesHeader p) eqn:E1.
  { intros [= <-]. cbn [code patchError]. apply andb_true_iff in E1 as [-> E1]. split; [done|]. left.
    unfold patchTouchesHeader in E1. apply existsb_idx_test in E1 as (i & Hi & Ht); [|done]. exists i. split; [done|].
    apply andb_true_iff in Ht as [_ Ht]. apply Z.leb_le in Ht. unfold RANGES.HEADER_END in Ht. lia. }
  destruct (r5 && negb _) eqn:E2.
  { intros [= <-]. cbn [code patchError]. apply andb_true_iff in E2 as [-> E2]. split; [done|]. right; left.
    rewrite <- policyWriteIsCanonicalForState_spec by done. apply negb_true_iff in E2. congruence. }
  destruct (any_change s p) eqn:E3; cbn [negb].
  2: { intros [= <-]. cbn [code patchError].
       destruct (decide (words (patched s p) = words s)) as [Heq|Hne]; [destruct s, (patched _ p); cbn in Heq; by subst|].
       exfalso. assert (any_change s p = true) by (apply any_change_spec; [done|done|congruence]). congruence. }
  destruct (hasNonZeroReservedBits (patched s p)) eqn:E4.
  { intros [= <-]. cbn [code patchError]. left. apply existsb_exists in E4 as (i & Hi & E). apply list_elem_of_In, elem_of_seqZ in Hi.
    unfold RANGES.WORD_COUNT in Hi. exists i. split; [lia|]. rewrite RESERVED_MASKS_get in E by lia.
    rewrite <- reservedMask_clean by (lia || by apply state_ok_word_at). apply andb_true_iff in E as [_ E].
    by apply negb_true_iff, Z.eqb_neq in E. }
  destruct r5; [|done]. destruct (validatePolicyRegions (patched s p)) eqn:E5; [|done]. intros [= ->].
  pose proof (policy_scan (patched s p)) as HV. rewrite E5 in HV.
  destruct (policyRegions_error_code _ _ E5) as [->|[-> Hnz]].
  - split; [done|]. right; right. intros Hc. discriminate (proj2 HV Hc).
  - right. split; [done|]. by apply not_all_zero.
Qed.

(** The states reachable from [s0] by applying wire patches. *)
Inductive reach (r5 : bool) (s0 : CortexState) : CortexState -> Prop :=
  | reach_refl : reach r5 s0 s0
  | reach_step s p s' : reach r5 s0 s -> wire_ok p -> applyPatch s p r5 = Returns (PatchSuccess s') -> reach r5 s0 s'.

(** C6. From a clean state, every reachable state is well-formed with clean
    reserved bits; under r5 its policy regions are clean and its header is
    the initial one. *)
Theorem reach_invariant (r5 : bool) (s0 s : CortexState) :
  state_ok s0 -> hasNonZeroReservedBits s0 = false -> (r5 = true -> validatePolicyRegions s0 = None) ->
  reach r5 s0 s ->
  state_ok s /\ hasNonZeroReservedBits s = false
  /\ (r5 = true -> validatePolicyRegions s = None /\ forall i, 0 <= i < 32 -> word_at s i = word_at s0 i).
Proof.
  intros H0 Hr0 Hp0 Hr. induction Hr as [|s p s' Hr (Hs & Hres & Hpol) Hp Happ].
  { split; [done|]. split; [done|]. intros E. split; [by apply Hp0|done]. }
  apply applyPatch_accepts in Happ as [_ [-> _ Hclean Hhd _ Hpc]]; [|done|done].
  assert (Hok : state_ok (patched s p)) by (apply patched_ok; [done|apply Hp]).
  split; [done|]. split; [by apply reserved_scan|]. intros E. split; [by apply policy_scan, Hpc|].
  intros i Hi. destruct (Hpol E) as [_ Hhdr]. rewrite <- Hhdr by done. apply patched_other; [by apply wire_ok_shape|apply Hs|].
  intros Hin. specialize (Hhd E i Hin). lia.
Qed.
End ApplyTheorems.

(** ** The advertised grammar. *)
Definition advertised (pipelineVersion : option string) (p : Patch) : Prop :=
  exists a, a ∈ buildAllowedPatchTypes pipelineVersion /\ allowed_byte a = patchType p
  /\ Forall (fun i => (wordIndexRange a).1 <= i <= (wordIndexRange a).2) (indices p).

Lemma range_loop_None pt lo hi idxs : range_loop pt lo hi idxs = None <-> Forall (fun i => lo <= i <= hi) idxs.
Proof.
  induction idxs as [|i idxs IH]; cbn [range_loop]; [split; [constructor|done]|]. rewrite Forall_cons.
  destruct (Z.ltb_spec i lo), (Z.ltb_spec hi i); cbn [orb]; rewrite ?IH; intuition (lia || done).
Qed.

Lemma validatePatchType_range pt idxs : validatePatchType pt idxs = None -> pt <> PATCH_TYPE.MIXED ->
  exists row, row ∈ PATCH_TYPE_RANGE_TABLE /\ typeByte row = pt /\ patchTypeRange pt = Some (row_start row, row_end row)
  /\ Forall (fun i => row_start row <= i <= row_end row) idxs.
Proof.
  unfold validatePatchType. destruct (index_loop _ _); [done|]. destruct (Z.eqb_spec pt PATCH_TYPE.MIXED); [done|]. intros H _.
  unfold patchTypeRange in *. destruct (find _ _) as [row|] eqn:E; [|done]. pose proof (find_some _ _ E) as [Hin Heq].
  apply Z.eqb_eq in Heq. exists row. split; [by apply list_elem_of_In|]. split; [done|]. split; [done|].
  cbn in H. by apply range_loop_None in H.
Qed.

Lemma r5_allowed : buildAllowedPatchTypes (Some R5_PIPELINE) =
  [ mkAllowed "SLOT_REPLACE" PATCH_TYPE.SLOT_REPLACE (32, 383);
    mkAllowed "TEMPORAL_UPDATE" PATCH_TYPE.TEMPORAL_UPDATE (800, 895);
    mkAllowed "RELATION_UPDATE" PATCH_TYPE.RELATION_UPDATE (672, 799);
    mkAllowed "POLICY_UPDATE" PATCH_TYPE.POLICY_UPDATE (384, 671);
    mkAllowed "MIXED" PATCH_TYPE.MIXED (32, 991) ].
Proof. reflexivity. Qed.

(** Under r5, from a state with clean policy regions, every patch the state
    machine accepts has an advertised type and touches only that type's
    advertised words: what [buildAllowedPatchTypes] suppresses is unminable. *)
Theorem accepted_is_advertised {HK : Hasher} (s s' : CortexState) (p : Patch) :
  state_ok s -> policy_clean s -> wire_ok p -> applyPatch s p true = Returns (PatchSuccess s') ->
  advertised (Some R5_PIPELINE) p.
Proof.
  intros Hs Hpc Hp Happ. apply applyPatch_accepts in Happ as [_ [-> Hch _ Hhd Hpw Hpc']]; [|done|done].
  specialize (Hhd eq_refl). specialize (Hpw eq_refl). specialize (Hpc' eq_refl).
  pose proof (wire_ok_shape p Hp) as Hsh. destruct Hp as (Hwc & Hli & _ & Hv & _).
  destruct (validatePatchType_indices _ _ Hv) as [Hidx _].
  assert (Hne : exists i, i ∈ indices p).
  { destruct (indices p) as [|i l] eqn:E; [simpl in Hli; lia|]. exists i. apply list_elem_of_here. }
  unfold advertised. destruct (decide (patchType p = PATCH_TYPE.MIXED)) as [->|Hm].
  { exists (mkAllowed "MIXED" PATCH_TYPE.MIXED (32, 991)). split; [|split; [done|]].
    - rewrite r5_allowed. set_solver.
    - apply Forall_forall. intros i Hi. rewrite Forall_forall in Hidx. specialize (Hidx i Hi). specialize (Hhd i Hi).
      unfold index_ok, RANGES.RESERVED_START in Hidx. cbn. lia. }
  destruct (validatePatchType_range _ _ Hv Hm) as (row & Hrow & Hty & _ & Hr).
  assert (Hsome : forall P : Z -> Prop, Forall P (indices p) -> exists i, i ∈ indices p /\ P i).
  { intros P HP. destruct Hne as [i Hi]. exists i. split; [done|]. rewrite Forall_forall in HP. auto. }
  assert (Hadv : mkAllowed (row_name row) (typeByte row) (row_start row, row_end row) ∈ buildAllowedPatchTypes (Some R5_PIPELINE)
    -> advertised (Some R5_PIPELINE) p).
  { intros Hin. eexists. split; [exact Hin|]. split; [done|]. exact Hr. }
  rewrite r5_allowed in Hadv.
  apply list_elem_of_In in Hrow. destruct Hrow as [<-|[<-|[<-|[<-|[<-|[<-|[<-|[]]]]]]]]; cbn [row_name typeByte row_start row_end] in *.
  2-4, 7: apply Hadv; set_solver.
  - (* KEY_UPDATE writes policy words *)
    exfalso. destruct Hpw as [E|[E _]]; [|rewrite <- Hty in E; discriminate E..].
    destruct (Hsome _ Hr) as (i & Hi & Hb). exists i. split; [done|]. unfold isPolicyIndex. apply andb_true_iff. by rewrite !Z.leb_le.
  - (* CODEBOOK_UPDATE can only write zeros over zeros *)
    exfalso. apply Hch. apply state_ext; [unfold patched; cbn; apply length_write_words|]. intros i Hi.
    destruct (decide (i ∈ indices p)) as [Hin|Hni]; [|apply patched_other; [done|apply Hs|done]].
    rewrite Forall_forall in Hr. specialize (Hr i Hin). unfold RANGES.CODEBOOK_START, RANGES.CODEBOOK_END in Hr.
    by rewrite (proj2 Hpc), (proj2 Hpc') by done.
  - (* HEADER_UPDATE touches the header *)
    exfalso. destruct (Hsome _ Hr) as (i & Hi & Hb). specialize (Hhd i Hi). unfold RANGES.HEADER_END in Hb. lia.
Qed.

(** ** Witnesses: a MemoryIndex write on the all-zero state. *)
Definition patch_w : Patch := mkPatch PATCH_TYPE.SLOT_REPLACE 1 0 (zeros 32) [32] [5].

Lemma patch_w_wire_ok : wire_ok patch_w.
Proof. apply (bool_decide_unpack _). vm_compute. reflexivity. Qed.

Lemma const_hasher_zero : merkleizeState (HK:=const_hasher) zero_state = Returns (zeros 32).
Proof. vm_compute. reflexivity. Qed.

Lemma patch_w_applies : applyPatch (H:=const_hasher) zero_state patch_w true
  = Returns (PatchSuccess (patched zero_state patch_w)).
Proof. vm_compute. reflexivity. Qed.

Lemma applyPatch_refines_spec_witness :
  merkleizeState (HK:=const_hasher) zero_state = Returns (zeros 32)
  /\ accepts zero_state patch_w true (patched zero_state patch_w).
Proof.
  apply (applyPatch_refines_spec (HK:=const_hasher) zero_state (patched zero_state patch_w) patch_w true);
    [apply zero_state_ok|apply patch_w_wire_ok|apply patch_w_applies].
Defined.

(** The same patch resubmitted is a no-op. *)
Lemma applyPatch_rejects_witness : exists r, applyPatch (H:=const_hasher) (patched zero_state patch_w) patch_w true = Returns r
  /\ (forall e, r = PatchFailure e -> code e = E05 -> patched (patched zero_state patch_w) patch_w = patched zero_state patch_w).
Proof.
  destruct (applyPatch_rejects (HK:=const_hasher) (patched zero_state patch_w) patch_w true) as (r & Hr & He);
    [apply patched_ok; [apply zero_state_ok|apply patch_w_wire_ok]|apply patch_w_wire_ok|].
  exists r. split; [done|]. intros e Ee Hc. specialize (He e Ee). by rewrite Hc in He.
Defined.

Lemma zero_state_clean : hasNonZeroReservedBits zero_state = false /\ validatePolicyRegions zero_state = None.
Proof. split; vm_compute; reflexivity. Qed.

Lemma reach_invariant_witness : let s := patched zero_state patch_w in
  state_ok s /\ hasNonZeroReservedBits s = false
  /\ (true = true -> validatePolicyRegions s = None /\ forall i, 0 <= i < 32 -> word_at s i = word_at zero_state i).
Proof.
  apply (reach_invariant (HK:=const_hasher) true zero_state (patched zero_state patch_w));
    [apply zero_state_ok|apply zero_state_clean|intros _; apply zero_state_clean|].
  eapply reach_step; [apply reach_refl|apply patch_w_wire_ok|apply patch_w_applies].
Defined.

Lemma accepted_is_advertised_witness : advertised (Some R5_PIPELINE) patch_w.
Proof.
  apply (accepted_is_advertised (HK:=const_hasher) zero_state (patched zero_state patch_w) patch_w);
    [apply zero_state_ok|apply policy_scan, zero_state_clean|apply patch_w_wire_ok|apply patch_w_applies].
Defined.
