(* ===== verification/SeedDerivation.v ===== *)
(** * Eval seeds, patch hashes and dedup keys (packages/coretex/src/eval/seed-derivation.ts)

    Every identifier is the hex of a keccak digest of a domain prefix and
    fixed-width fields. Theorems, against the [Hasher] interface: equal
    seeds have equal fields or exhibit a collision, gate and confirm seeds
    never coincide without a collision, the semantic patch hash ignores
    exactly the score field, and the dedup key binds root and bytes. *)
From Stdlib Require Import Ascii.
From S2P Require Import Prelude StateTypes Float Codec Keccak Merkle Decoder Substrate Validate Patch.

Definition EVAL_SEED_GATE_DOMAIN_PREFIX : string := "coretex-eval-v1-gate".
Definition EVAL_SEED_CONFIRM_DOMAIN_PREFIX : string := "coretex-eval-v1-confirm".
Definition DEDUP_KEY_DOMAIN_PREFIX : string := "coretex-dedup-key-v1".
Definition PATCH_HASH_DOMAIN_PREFIX : string := "coretex-patch-hash-v1".

Record EvalSeedInput := mkSeedInput {
  epochSecret : string;
  blockhash : string;
  epochId : Z;
  patchHash : string;
  parentRoot : string;
  corpusRoot : string;
  bundleHash : string
}.

(** [concatU8(...parts)]: one buffer, filled at a running offset. *)
Definition concatU8 (parts : list bytes) : bytes :=
  let total := fold_left (fun n p => (n + length p)%nat) parts 0%nat in
  fst (fold_left (fun c p => put p c) parts (zeros total, 0%nat)).

Definition u64BE (v : Z) : bytes := write_be_loop 8 (zeros 8) 0 v.

(** [hex.startsWith('0x') || hex.startsWith('0X') ? hex.slice(2) : hex] *)
Definition clean_hex (s : string) : string :=
  match s with
  | String "0" (String "x" s') => s'
  | String "0" (String "X" s') => s'
  | _ => s
  end.

(** This module's [hexToBytes]: it also throws on an unparsable pair. *)
Definition hexToBytes_strict (hex : string) : outcome bytes :=
  match hex_pairs (String.list_ascii_of_string (clean_hex hex)) with
  | None => Throws (GenericError "hexToBytes: odd length")
  | Some ps =>
    match mapM (fun '(a, b) => parseInt16 a b) ps with
    | None => Throws (GenericError "hexToBytes: invalid hex")
    | Some vs => Returns (map (fun v => v mod 256) vs)
    end
  end.

Definition is_hex_char (c : ascii) : bool := match hex_value c with Some _ => true | None => false end.

Definition assertBytes32Hex (value : string) : outcome unit :=
  let clean := String.list_ascii_of_string (clean_hex value) in
  _ ← throw_if (negb (length clean =? 64)%nat) (GenericError "must be 32 bytes hex");
  throw_if (negb (forallb is_hex_char clean)) (GenericError "non-hex characters").

Definition zero_digits (n : nat) : string := String.string_of_list_ascii (replicate n "0"%char).

(** [/^0x?0{64}$/i.test(s)] *)
Definition is_zero_blockhash (s : string) : bool :=
  String.eqb s (String.append "0x" (zero_digits 64)) || String.eqb s (String.append "0X" (zero_digits 64))
  || String.eqb s (String.append "0" (zero_digits 64)).

Section WithHasher.
Context {HK : Hasher}.

Definition deriveEvalSeedWithPrefix (prefix : string) (input : EvalSeedInput) : outcome string :=
  _ ← assertBytes32Hex (epochSecret input);
  _ ← assertBytes32Hex (blockhash input);
  _ ← assertBytes32Hex (patchHash input);
  _ ← assertBytes32Hex (parentRoot input);
  _ ← assertBytes32Hex (corpusRoot input);
  _ ← assertBytes32Hex (bundleHash input);
  _ ← throw_if (is_zero_blockhash (blockhash input)) (GenericError "deriveEvalSeed: blockhash is zero");
  es ← hexToBytes_strict (epochSecret input);
  bh ← hexToBytes_strict (blockhash input);
  ph ← hexToBytes_strict (patchHash input);
  pr ← hexToBytes_strict (parentRoot input);
  cr ← hexToBytes_strict (corpusRoot input);
  bu ← hexToBytes_strict (bundleHash input);
  let buf := concatU8 [text_encode prefix; es; bh; u64BE (epochId input); ph; pr; cr; bu] in
  Returns (bytesToHex (keccak256 buf)).

Definition deriveGateEvalSeed (input : EvalSeedInput) : outcome string :=
  deriveEvalSeedWithPrefix EVAL_SEED_GATE_DOMAIN_PREFIX input.
Definition deriveConfirmEvalSeed (input : EvalSeedInput) : outcome string :=
  deriveEvalSeedWithPrefix EVAL_SEED_CONFIRM_DOMAIN_PREFIX input.

Definition computePatchHash (normalizedPatchBytes : bytes) : string :=
  let buf := concatU8 [text_encode PATCH_HASH_DOMAIN_PREFIX; normalizedPatchBytes] in
  bytesToHex (keccak256 buf).

Definition SCORE_DELTA_WIRE_OFFSET : nat := 2.
Definition SCORE_DELTA_WIRE_BYTES : nat := 8.

(** [norm.fill(0, 2, 10)] *)
Definition zero_score (bs : bytes) : bytes := u8_set bs SCORE_DELTA_WIRE_OFFSET (zeros SCORE_DELTA_WIRE_BYTES).

Definition semanticPatchHash (compactPatchBytes : bytes) : outcome string :=
  _ ← throw_if (length compactPatchBytes <? SCORE_DELTA_WIRE_OFFSET + SCORE_DELTA_WIRE_BYTES)%nat
        (GenericError "semanticPatchHash: compact patch shorter than the fixed header");
  Returns (computePatchHash (zero_score compactPatchBytes)).

Definition computeDedupKey (parentRoot : string) (normalizedPatchBytes : bytes) : outcome string :=
  _ ← assertBytes32Hex parentRoot;
  pr ← hexToBytes_strict parentRoot;
  let buf := concatU8 [text_encode DEDUP_KEY_DOMAIN_PREFIX; pr; normalizedPatchBytes] in
  Returns (bytesToHex (keccak256 buf)).

(** ** Facts *)

(** The buffer is the concatenation of its parts. *)
Lemma concatU8_concat parts : concatU8 parts = concat parts.
Proof.
  unfold concatU8. assert (Hsum : forall l (a : nat), fold_left (fun n (p : bytes) => (n + length p)%nat) l a = (a + length (concat l))%nat).
  { induction l as [|p l IH]; intros a; cbn [fold_left concat]; [simpl; lia|]. rewrite IH, length_app. lia. }
  rewrite Hsum. cbn [Nat.add].
  assert (Hloop : forall l pre n, (length (concat l) <= n)%nat ->
    fold_left (fun c p => put p c) l (pre ++ zeros n, length pre)
    = ((pre ++ concat l) ++ zeros (n - length (concat l)), length (pre ++ concat l))).
  { induction l as [|p l IH]; intros pre n Hn; cbn [fold_left concat]; [by rewrite app_nil_r, Nat.sub_0_r|].
    cbn [concat] in Hn. rewrite length_app in Hn. rewrite put_app, IH by lia.
    rewrite <- Nat.sub_add_distr, <- (length_app p), <- (app_assoc pre). done. }
  pose proof (Hloop parts [] (length (concat parts)) ltac:(lia)) as E. cbn [app length] in E. rewrite E.
  cbn [fst]. rewrite Nat.sub_diag. change (zeros 0) with (@nil Z). by rewrite app_nil_r.
Qed.

Lemma u64BE_spec v : u64BE v = be_bytes 8 v.
Proof. unfold u64BE. rewrite write_be_loop_spec by (cbn; lia). unfold u8_set. rewrite length_be_bytes. cbn [take drop zeros replicate Nat.add]. by rewrite app_nil_r. Qed.

Lemma bytesToHex_inj a b : bytes_ok a -> bytes_ok b -> bytesToHex a = bytesToHex b -> a = b.
Proof.
  intros Ha Hb E. apply (f_equal hexToBytes) in E. rewrite !hexToBytes_bytesToHex in E by done. by apply Returns_inj in E.
Qed.

(** Two distinct byte strings with the same digest. *)
Definition collision (x y : bytes) : Prop := x <> y /\ keccak256 x = keccak256 y.

Lemma hash_hex_eq x y : bytesToHex (keccak256 x) = bytesToHex (keccak256 y) -> x = y \/ collision x y.
Proof.
  intros E. apply bytesToHex_inj in E; [|apply keccak256_ok..]. destruct (decide (x = y)); [by left|by right].
Qed.

Lemma hex_pairs_length l ps : hex_pairs l = Some ps -> length l = (2 * length ps)%nat.
Proof.
  revert ps. induction l as [l IH] using (well_founded_induction (well_founded_ltof _ (@length ascii))). intros ps E.
  destruct l as [|a [|b l]]; cbn in E; [by injection E as <-|done|].
  destruct (hex_pairs l) as [ps'|] eqn:E'; [|done]. cbn in E. injection E as <-.
  apply IH in E'; [cbn; lia|unfold ltof; cbn; lia].
Qed.

(** A checked field is 32 bytes. *)
Lemma bytes32_length s bs : assertBytes32Hex s = Returns tt -> hexToBytes_strict s = Returns bs -> length bs = 32%nat.
Proof.
  intros Ha Hb. unfold assertBytes32Hex in Ha. apply bind_Returns in Ha as (? & Hl & _).
  apply throw_if_Returns, negb_false_iff, Nat.eqb_eq in Hl. unfold hexToBytes_strict in Hb.
  destruct (hex_pairs _) as [ps|] eqn:E; [|done]. apply hex_pairs_length in E.
  destruct (mapM _ ps) as [vs|] eqn:Em; [|done]. injection Hb as <-. apply length_mapM in Em. rewrite length_map. lia.
Qed.

(** The decoded fields of a seed input, as hashed. *)
Record seed_fields := mkFields { f_es : bytes; f_bh : bytes; f_ep : bytes; f_ph : bytes; f_pr : bytes; f_cr : bytes; f_bu : bytes }.
Definition fields_bytes (f : seed_fields) : bytes := f_es f ++ f_bh f ++ f_ep f ++ f_ph f ++ f_pr f ++ f_cr f ++ f_bu f.

Definition input_fields (i : EvalSeedInput) (f : seed_fields) : Prop :=
  hexToBytes_strict (epochSecret i) = Returns (f_es f) /\ hexToBytes_strict (blockhash i) = Returns (f_bh f)
  /\ f_ep f = be_bytes 8 (epochId i) /\ hexToBytes_strict (patchHash i) = Returns (f_ph f)
  /\ hexToBytes_strict (parentRoot i) = Returns (f_pr f) /\ hexToBytes_strict (corpusRoot i) = Returns (f_cr f)
  /\ hexToBytes_strict (bundleHash i) = Returns (f_bu f).

Definition widths (f : seed_fields) : Prop :=
  length (f_es f) = 32%nat /\ length (f_bh f) = 32%nat /\ length (f_ep f) = 8%nat /\ length (f_ph f) = 32%nat
  /\ length (f_pr f) = 32%nat /\ length (f_cr f) = 32%nat /\ length (f_bu f) = 32%nat.

(** The buffer [deriveEvalSeedWithPrefix] hashes. *)
Definition seed_preimage (prefix : string) (f : seed_fields) : bytes := text_encode prefix ++ fields_bytes f.

Lemma derive_inv prefix i s : deriveEvalSeedWithPrefix prefix i = Returns s ->
  exists f, input_fields i f /\ widths f /\ s = bytesToHex (keccak256 (seed_preimage prefix f)).
Proof.
  intros H. unfold deriveEvalSeedWithPrefix in H.
  apply bind_Returns in H as ([] & A1 & H). apply bind_Returns in H as ([] & A2 & H). apply bind_Returns in H as ([] & A3 & H).
  apply bind_Returns in H as ([] & A4 & H). apply bind_Returns in H as ([] & A5 & H). apply bind_Returns in H as ([] & A6 & H).
  apply bind_Returns in H as ([] & _ & H).
  apply bind_Returns in H as (es & B1 & H). apply bind_Returns in H as (bh & B2 & H). apply bind_Returns in H as (ph & B3 & H).
  apply bind_Returns in H as (pr & B4 & H). apply bind_Returns in H as (cr & B5 & H). apply bind_Returns in H as (bu & B6 & H).
  apply Returns_inj in H as <-. exists (mkFields es bh (be_bytes 8 (epochId i)) ph pr cr bu).
  split; [done|]. split.
  - unfold widths. cbn [f_es f_bh f_ep f_ph f_pr f_cr f_bu]. rewrite length_be_bytes.
    repeat split; eauto using bytes32_length.
  - rewrite concatU8_concat, u64BE_spec. unfold fields_bytes. cbn [concat f_es f_bh f_ep f_ph f_pr f_cr f_bu]. by rewrite app_nil_r.
Qed.

Lemma fields_bytes_inj f g : widths f -> widths g -> fields_bytes f = fields_bytes g -> f = g.
Proof.
  intros (F1 & F2 & F3 & F4 & F5 & F6 & F7) (G1 & G2 & G3 & G4 & G5 & G6 & G7) E. unfold fields_bytes in E.
  repeat (apply app_inj_1 in E as [? E]; [|congruence]). destruct f, g; cbn in *. by subst.
Qed.

(** Two inputs with the same seed have the same fields, or their buffers collide. *)
Lemma derive_fields prefix i j s : deriveEvalSeedWithPrefix prefix i = Returns s -> deriveEvalSeedWithPrefix prefix j = Returns s ->
  exists f g, input_fields i f /\ input_fields j g /\ (f = g \/ collision (seed_preimage prefix f) (seed_preimage prefix g)).
Proof.
  intros Hi Hj. apply derive_inv in Hi as (f & If & Wf & ->). apply derive_inv in Hj as (g & Ig & Wg & E).
  exists f, g. split; [done|]. split; [done|]. apply hash_hex_eq in E as [E|C]; [|by right]. left.
  apply app_inv_head in E. by apply fields_bytes_inj in E.
Qed.

(** Equal seeds (of the same pack) come from equal decoded fields and equal
    epochs modulo 2^64, or the two hashed buffers are a keccak collision. *)
Theorem evalSeed_binding (prefix : string) (i j : EvalSeedInput) (s : string) :
  deriveEvalSeedWithPrefix prefix i = Returns s -> deriveEvalSeedWithPrefix prefix j = Returns s ->
  exists f g, input_fields i f /\ input_fields j g
  /\ ((f = g /\ epochId i mod 2 ^ 64 = epochId j mod 2 ^ 64) \/ collision (seed_preimage prefix f) (seed_preimage prefix g)).
Proof.
  intros Hi Hj. destruct (derive_fields _ _ _ _ Hi Hj) as (f & g & If & Ig & [<-|C]); exists f; [|exists g; auto].
  exists f. split; [done|]. split; [done|]. left. split; [done|]. destruct If as (_ & _ & E1 & _). destruct Ig as (_ & _ & E2 & _).
  rewrite E1 in E2. apply (f_equal be_value) in E2. by rewrite !be_value_be_bytes in E2.
Qed.

(** The gate and the confirm seed are domain-separated: when they coincide,
    for any two inputs, the two hashed buffers are a keccak collision. *)
Theorem gate_confirm_separated (i j : EvalSeedInput) (s : string) :
  deriveGateEvalSeed i = Returns s -> deriveConfirmEvalSeed j = Returns s ->
  exists f g, input_fields i f /\ input_fields j g
  /\ collision (seed_preimage EVAL_SEED_GATE_DOMAIN_PREFIX f) (seed_preimage EVAL_SEED_CONFIRM_DOMAIN_PREFIX g).
Proof.
  intros Hi Hj. apply derive_inv in Hi as (f & If & Wf & ->). apply derive_inv in Hj as (g & Ig & Wg & E).
  exists f, g. split; [done|]. split; [done|]. apply hash_hex_eq in E as [E|C]; [|done]. exfalso. unfold seed_preimage in E. apply (f_equal length) in E.
  destruct Wf as (F1 & F2 & F3 & F4 & F5 & F6 & F7). destruct Wg as (G1 & G2 & G3 & G4 & G5 & G6 & G7).
  unfold fields_bytes in E. rewrite !length_app, F1, F2, F3, F4, F5, F6, F7, G1, G2, G3, G4, G5, G6, G7 in E. vm_compute in E. discriminate E.
Qed.

(** ** The semantic hash. *)
Definition with_scoreDelta (p : Patch) (d : Z) : Patch :=
  mkPatch (patchType p) (wordCount p) d (parentStateRoot p) (indices p) (newWords p).

(** The buffer [computePatchHash] hashes. *)
Definition patchHash_preimage (bs : bytes) : bytes := text_encode PATCH_HASH_DOMAIN_PREFIX ++ bs.

Lemma computePatchHash_preimage bs : computePatchHash bs = bytesToHex (keccak256 (patchHash_preimage bs)).
Proof. unfold computePatchHash. rewrite concatU8_concat. cbn [concat]. by rewrite app_nil_r. Qed.

Lemma zero_score_wire p : wire_ok p ->
  zero_score (patch_wire p) = patchType p :: wordCount p :: zeros 8 ++ parentStateRoot p ++ wire_words (indices p) (newWords p).
Proof.
  intros _. unfold zero_score, u8_set, patch_wire, SCORE_DELTA_WIRE_OFFSET, SCORE_DELTA_WIRE_BYTES.
  reflexivity.
Qed.

(** The semantic hash of a wire patch does not depend on its score field,
    and two wire patches with the same semantic hash differ at most in their
    score, or the two score-free buffers are a collision. *)
Theorem semanticPatchHash_spec (p q : Patch) :
  wire_ok p -> wire_ok q ->
  exists hp hq, semanticPatchHash (patch_wire p) = Returns hp /\ semanticPatchHash (patch_wire q) = Returns hq
  /\ (q = with_scoreDelta p (scoreDelta q) -> hp = hq)
  /\ (hp = hq -> q = with_scoreDelta p (scoreDelta q) \/ collision (patchHash_preimage (zero_score (patch_wire p))) (patchHash_preimage (zero_score (patch_wire q)))).
Proof.
  intros Hp Hq. assert (Hlen : forall r, wire_ok r -> (length (patch_wire r) <? 10)%nat = false).
  { intros r _. unfold patch_wire. rewrite !length_app, length_be_bytes. apply Nat.ltb_ge. cbn [length]. lia. }
  unfold semanticPatchHash. change (SCORE_DELTA_WIRE_OFFSET + SCORE_DELTA_WIRE_BYTES)%nat with 10%nat.
  rewrite !Hlen by done. cbn [throw_if mbind outcome_bind]. eexists _, _. split; [done|]. split; [done|].
  rewrite !zero_score_wire by done. split; [by intros ->|]. intros E.
  rewrite !computePatchHash_preimage in E. apply hash_hex_eq in E as [E|C]; [|by right]. left. apply app_inv_head in E.
  injection E as E1 E2 E. apply app_inj_1 in E as [E3 E]; [|by rewrite (proj1 (proj2 (proj2 (proj2 (proj2 (proj2 Hp)))))), (proj1 (proj2 (proj2 (proj2 (proj2 (proj2 Hq))))))].
  assert (E4 : decodePatch (patch_wire (with_scoreDelta p (scoreDelta q))) = decodePatch (patch_wire q)).
  { unfold patch_wire. cbn. rewrite E1, E2, E3, E. done. }
  rewrite !decodePatch_wire in E4; [by apply Returns_inj in E4|done|].
  destruct Hp as (P1 & P2 & P3 & P4 & P5 & P6 & P7 & P8). destruct Hq as (_ & _ & _ & _ & Q5 & _).
  unfold wire_ok, with_scoreDelta. cbn. done.
Qed.

(** Equal dedup keys mean the same parent root and the same bytes, or the
    two hashed buffers are a collision. *)
Theorem dedupKey_binding (r1 r2 : string) (b1 b2 : bytes) (k : string) :
  computeDedupKey r1 b1 = Returns k -> computeDedupKey r2 b2 = Returns k ->
  exists p1 p2, hexToBytes_strict r1 = Returns p1 /\ hexToBytes_strict r2 = Returns p2
  /\ ((p1 = p2 /\ b1 = b2)
      \/ collision (text_encode DEDUP_KEY_DOMAIN_PREFIX ++ p1 ++ b1) (text_encode DEDUP_KEY_DOMAIN_PREFIX ++ p2 ++ b2)).
Proof.
  intros H1 H2. unfold computeDedupKey in *.
  apply bind_Returns in H1 as ([] & A1 & H1). apply bind_Returns in H1 as (p1 & B1 & H1). apply Returns_inj in H1 as <-.
  apply bind_Returns in H2 as ([] & A2 & H2). apply bind_Returns in H2 as (p2 & B2 & H2). apply Returns_inj in H2.
  exists p1, p2. split; [done|]. split; [done|]. symmetry in H2. rewrite !concatU8_concat in H2. cbn [concat] in H2.
  rewrite !app_nil_r in H2. apply hash_hex_eq in H2 as [E|C]; [|by right]. left. apply app_inv_head in E.
  apply app_inj_1 in E as [-> ->]; [done|]. rewrite (bytes32_length _ _ A1 B1), (bytes32_length _ _ A2 B2). done.
Qed.

(** The zero-blockhash guard recognises only prefixed strings: the bare
    64-digit zero hash, which passes the format check, yields a seed. *)
Theorem zero_blockhash_unprefixed (i : EvalSeedInput) (prefix : string) :
  blockhash i = zero_digits 64 ->
  Forall (fun s => exists bs, assertBytes32Hex s = Returns tt /\ hexToBytes_strict s = Returns bs)
    [epochSecret i; patchHash i; parentRoot i; corpusRoot i; bundleHash i] ->
  (exists s, deriveEvalSeedWithPrefix prefix i = Returns s) /\ hexToBytes_strict (blockhash i) = Returns (zeros 32).
Proof.
  intros Hb Hf. inversion_clear Hf as [|? ? (e & E1 & E2) Hf0]. inversion_clear Hf0 as [|? ? (p & P1 & P2) Hf1].
  inversion_clear Hf1 as [|? ? (q & Q1 & Q2) Hf2]. inversion_clear Hf2 as [|? ? (c & C1 & C2) Hf3].
  inversion_clear Hf3 as [|? ? (b & B1 & B2) _]. unfold deriveEvalSeedWithPrefix.
  assert (Z1 : assertBytes32Hex (blockhash i) = Returns tt) by (rewrite Hb; vm_compute; reflexivity).
  assert (Z2 : hexToBytes_strict (blockhash i) = Returns (zeros 32)) by (rewrite Hb; vm_compute; reflexivity).
  assert (Z3 : is_zero_blockhash (blockhash i) = false) by (rewrite Hb; vm_compute; reflexivity).
  rewrite E1, Z1, P1, Q1, C1, B1, Z3, E2, Z2, P2, Q2, C2, B2. cbn [mbind outcome_bind throw_if]. eauto.
Qed.
End WithHasher.

(** ** Witnesses *)
Definition hex64 (d : ascii) : string := String.append "0x" (String.string_of_list_ascii (replicate 64 d)).
Definition seed_in : EvalSeedInput :=
  mkSeedInput (hex64 "a") (hex64 "1") 7 (hex64 "b") (hex64 "C") (hex64 "3") (hex64 "4").

Lemma evalSeed_binding_witness : exists f g, input_fields seed_in f /\ input_fields seed_in g
  /\ ((f = g /\ 7 mod 2 ^ 64 = 7 mod 2 ^ 64)
      \/ collision (HK:=const_hasher) (seed_preimage EVAL_SEED_GATE_DOMAIN_PREFIX f) (seed_preimage EVAL_SEED_GATE_DOMAIN_PREFIX g)).
Proof.
  apply (evalSeed_binding (HK:=const_hasher) EVAL_SEED_GATE_DOMAIN_PREFIX seed_in seed_in (bytesToHex (zeros 32)));
    vm_compute; reflexivity.
Defined.

Lemma gate_confirm_separated_witness : exists f g, input_fields seed_in f /\ input_fields seed_in g
  /\ collision (HK:=const_hasher) (seed_preimage EVAL_SEED_GATE_DOMAIN_PREFIX f) (seed_preimage EVAL_SEED_CONFIRM_DOMAIN_PREFIX g).
Proof.
  apply (gate_confirm_separated (HK:=const_hasher) seed_in seed_in (bytesToHex (zeros 32))); vm_compute; reflexivity.
Defined.

Lemma semanticPatchHash_spec_witness : exists hp hq,
  semanticPatchHash (HK:=keccak_hasher) (patch_wire patch_1) = Returns hp
  /\ semanticPatchHash (HK:=keccak_hasher) (patch_wire (with_scoreDelta patch_1 99)) = Returns hq /\ hp = hq.
Proof.
  destruct (semanticPatchHash_spec (HK:=keccak_hasher) patch_1 (with_scoreDelta patch_1 99)) as (hp & hq & H1 & H2 & H3 & _);
    [apply patch_1_wire_ok|apply (bool_decide_unpack _); vm_compute; reflexivity|].
  exists hp, hq. split; [done|]. split; [done|]. apply H3. reflexivity.
Defined.

Lemma dedupKey_binding_witness : exists p1 p2, hexToBytes_strict (hex64 "a") = Returns p1 /\ hexToBytes_strict (hex64 "A") = Returns p2
  /\ ((p1 = p2 /\ [1; 2] = [1; 2])
      \/ collision (HK:=const_hasher) (text_encode DEDUP_KEY_DOMAIN_PREFIX ++ p1 ++ [1; 2]) (text_encode DEDUP_KEY_DOMAIN_PREFIX ++ p2 ++ [1; 2])).
Proof.
  apply (dedupKey_binding (HK:=const_hasher) (hex64 "a") (hex64 "A") [1; 2] [1; 2] (bytesToHex (zeros 32))); vm_compute; reflexivity.
Defined.

Definition seed_zero : EvalSeedInput :=
  mkSeedInput (hex64 "a") (zero_digits 64) 7 (hex64 "b") (hex64 "C") (hex64 "3") (hex64 "4").

Lemma zero_blockhash_unprefixed_witness :
  (exists s, deriveEvalSeedWithPrefix (HK:=const_hasher) EVAL_SEED_GATE_DOMAIN_PREFIX seed_zero = Returns s)
  /\ hexToBytes_strict (blockhash seed_zero) = Returns (zeros 32).
Proof.
  apply (zero_blockhash_unprefixed (HK:=const_hasher) seed_zero EVAL_SEED_GATE_DOMAIN_PREFIX); [reflexivity|].
  repeat constructor; eexists; split; vm_compute; reflexivity.
Defined.
