(* ===== verification/PerPatch.v ===== *)
(** * Per-patch evaluation and its replay
      (packages/coretex/src/coordinator/per-patch-evaluator.ts,
       eval/live-eval-admission.ts, replay/per-patch.ts)

    The coordinator admits a patch, binds it to the hash of a future block,
    derives two seeds from it and scores the patch on both packs; a watcher
    checks the receipt against the chain and the patch bytes. The chain, the
    scorer and the host's durable record are parameters; what the evaluation
    asks of them, in order, is the trace of a small writer monad.

    Theorems: an accepted receipt cleared both packs on seeds that were fixed
    before any score was seen; receipts of fully scored evaluations replay;
    a receipt that replays is bound to its patch and parent. *)
From Stdlib Require Import Ascii SpecFloat.
From S2P Require Import Prelude StateTypes Float Codec Keccak Merkle Decoder Substrate Validate Patch SeedDerivation.

(** ** Admission *)
Inductive LiveEvalAdmissionRejectReason := malformed_input | structurally_invalid | duplicate_key_collapsed | per_miner_cap_reached.
Inductive LiveEvalAdmissionDecision := Admit | Reject (reason : LiveEvalAdmissionRejectReason).

Record LiveEvalAdmissionInput := mkAdmissionInput {
  ai_minerAddress : string;
  ai_patchHash : string;
  ai_dedupKey : string;
  dedupedKeysThisEpoch : list string;
  minerAdmissionsThisEpoch : number;
  ai_perMinerCap : number;
  ai_structurallyValid : bool
}.

(** [/^0x[0-9a-fA-F]{n}$/.test(s)] *)
Definition hex_re (n : nat) (s : string) : bool :=
  match s with
  | String "0" (String "x" s') => (String.length s' =? n)%nat && forallb is_hex_char (String.list_ascii_of_string s')
  | _ => false
  end.
Definition ADDR_RE : string -> bool := hex_re 40.
Definition BYTES32_RE : string -> bool := hex_re 64.

(** [clean_hex] is [replace(/^0x/i, '')]. *)
Definition liveEvalAdmissionDecision (input : LiveEvalAdmissionInput) : LiveEvalAdmissionDecision :=
  if negb (ADDR_RE (ai_minerAddress input)) then Reject malformed_input
  else if negb (BYTES32_RE (ai_patchHash input)) then Reject malformed_input
  else if negb (BYTES32_RE (ai_dedupKey input)) then Reject malformed_input
  else if negb (is_integer (minerAdmissionsThisEpoch input)) || dlt (minerAdmissionsThisEpoch input) (of_Z 0) then Reject malformed_input
  else if negb (is_integer (ai_perMinerCap input)) || dlt (ai_perMinerCap input) (of_Z 1) then Reject malformed_input
  else if negb (ai_structurallyValid input) then Reject structurally_invalid
  else let dedupKeyLower := String.append "0x" (toLowerCase (clean_hex (ai_dedupKey input))) in
  if bool_decide (dedupKeyLower ∈ dedupedKeysThisEpoch input) then Reject duplicate_key_collapsed
  else if dle (ai_perMinerCap input) (minerAdmissionsThisEpoch input) then Reject per_miner_cap_reached
  else Admit.

(** ** Evaluation *)
Record PerPatchRequest := mkRequest {
  normalizedPatchBytes : bytes;
  rq_parentRoot : string;
  rq_minerAddress : string;
  rq_epochId : Z;
  rq_structurallyValid : bool
}.

Record PerPatchScoreResult := mkScore { scorePpm : number; sr_accepted : bool; sr_rejectionReason : option string }.
Inductive pack := gate | confirm.

Record PerPatchSeedContext := mkSeedContext { receivedAtBlock : Z; targetBlock : Z; sc_blockhash : string }.

(** What the host answers: the chain head, the hash of a block once it exists, the durable record of a drawn
    context, and the scorer. *)
Record BaseRpcClient := mkRpc {
  getLatestBlockNumber : outcome Z;
  waitForBlock : Z -> number -> outcome string;
  getBlockHash : Z -> outcome string
}.
Abbreviation PerPatchScorer := (bytes -> string -> string -> pack -> outcome PerPatchScoreResult).

Inductive PerPatchRejection :=
  | r_cached | r_structurally_invalid | r_duplicate_key_collapsed | r_per_miner_cap_reached
  | r_gate_below_threshold | r_confirm_below_threshold | r_gate_acceptance_floor | r_confirm_acceptance_floor
  | r_admit_malformed_input.

Record PerPatchReceipt := mkReceipt {
  rc_patchHash : string;
  rc_dedupKey : string;
  rc_parentRoot : string;
  rc_minerAddress : string;
  rc_epochId : Z;
  rc_context : PerPatchSeedContext;
  gateSeed : string;
  confirmSeed : string;
  gateScorePpm : number;
  confirmScorePpm : number;
  rc_accepted : bool;
  rc_rejectionReason : option PerPatchRejection;
  innerRejectionReason : option string
}.

Record PerPatchEvaluatorDeps := mkDeps {
  rpcClient : BaseRpcClient;
  scorer : PerPatchScorer;
  targetBlockOffset : Z;
  thresholdPpm : number;
  perMinerCap : number;
  d_epochSecret : option string;
  d_corpusRoot : string;
  d_bundleHash : string;
  dedupCache : list (string * PerPatchReceipt);
  minerAdmissions : list (string * number);
  waitTimeoutMs : option number;
  seedContext : option PerPatchSeedContext;
  onSeedDerived : option (PerPatchSeedContext -> outcome unit);
  injectedSeeds : option (string * string)
}.

(** What an evaluation asks of its host. *)
Inductive effect := ReadHead | WaitBlock (n : Z) | RecordSeed (ctx : PerPatchSeedContext) | Score (which : pack) (seed : string).

Definition prog (A : Type) : Type := (list effect * outcome A)%type.
#[export] Instance prog_ret : MRet prog := fun A a => ([], Returns a).
#[export] Instance prog_bind : MBind prog := fun A B f m =>
  match m.2 with
  | Returns a => (m.1 ++ (f a).1, (f a).2)
  | Throws e => (m.1, Throws e)
  end.
Definition lift {A} (m : outcome A) : prog A := ([], m).
Definition ask {A} (e : effect) (m : outcome A) : prog A := ([e], m).

Section WithHasher.
Context {HK : Hasher}.

Definition mapAdmissionReason (reason : LiveEvalAdmissionRejectReason) : PerPatchRejection :=
  match reason with
  | structurally_invalid => r_structurally_invalid
  | duplicate_key_collapsed => r_duplicate_key_collapsed
  | per_miner_cap_reached => r_per_miner_cap_reached
  | malformed_input => r_admit_malformed_input
  end.

Definition ZERO32 : string := bytesToHex (zeros 32).

(** Step 4 and 5: the pinned context, or the hash of a block [targetBlockOffset] past the head. *)
Definition draw_context (deps : PerPatchEvaluatorDeps) : prog PerPatchSeedContext :=
  match seedContext deps with
  | Some ctx => mret ctx
  | None =>
    received ← ask ReadHead (getLatestBlockNumber (rpcClient deps));
    let target := received + targetBlockOffset deps in
    bh ← ask (WaitBlock target) (waitForBlock (rpcClient deps) target (default (of_Z 120000) (waitTimeoutMs deps)));
    mret (mkSeedContext received target bh)
  end.

Definition record_context (deps : PerPatchEvaluatorDeps) (ctx : PerPatchSeedContext) : prog unit :=
  match onSeedDerived deps with
  | Some hook => ask (RecordSeed ctx) (hook ctx)
  | None => mret tt
  end.

Definition seed_input (secret : string) (ctx : PerPatchSeedContext) (epoch : Z) (patchHash parentRoot corpusRoot bundleHash : string) : EvalSeedInput :=
  mkSeedInput secret (sc_blockhash ctx) epoch patchHash parentRoot corpusRoot bundleHash.

(** Step 6: injected seeds, or the two derived from the same block hash. *)
Definition derive_seeds (request : PerPatchRequest) (deps : PerPatchEvaluatorDeps) (patchHash : string) (ctx : PerPatchSeedContext) : outcome (string * string) :=
  match injectedSeeds deps with
  | Some (g, c) =>
    throw_when match seedContext deps with Some _ => false | None => true end with GenericError "injectedSeeds require a pinned seedContext" ;;
    throw_when negb (BYTES32_RE g) with GenericError "injectedSeeds.gateSeed must be bytes32" ;;
    throw_when negb (BYTES32_RE c) with GenericError "injectedSeeds.confirmSeed must be bytes32" ;;
    Returns (toLowerCase g, toLowerCase c)
  | None =>
    match d_epochSecret deps with
    | None | Some EmptyString => Throws (GenericError "epochSecret is required when no injectedSeeds are supplied")
    | Some secret =>
      let i := seed_input secret ctx (rq_epochId request) patchHash (rq_parentRoot request) (d_corpusRoot deps) (d_bundleHash deps) in
      g ← deriveGateEvalSeed i;
      c ← deriveConfirmEvalSeed i;
      Returns (g, c)
    end
  end.

(** [score >= threshold && accepted] *)
Definition pack_pass (deps : PerPatchEvaluatorDeps) (r : PerPatchScoreResult) : bool := dle (thresholdPpm deps) (scorePpm r) && sr_accepted r.
(** The scorer's reason travels only with a failed floor, and only when it is not empty. *)
Definition inner_reason (r : PerPatchScoreResult) : option string :=
  if sr_accepted r then None else match sr_rejectionReason r with Some EmptyString => None | o => o end.

Definition runPerPatchEvaluation (request : PerPatchRequest) (deps : PerPatchEvaluatorDeps) : prog PerPatchReceipt :=
  let patchHash := computePatchHash (normalizedPatchBytes request) in
  dedupKey ← lift (computeDedupKey (rq_parentRoot request) (normalizedPatchBytes request));
  match jsmap_get dedupKey (dedupCache deps) with
  | Some c =>
    mret (mkReceipt (rc_patchHash c) (rc_dedupKey c) (rc_parentRoot c) (rc_minerAddress c) (rc_epochId c) (rc_context c)
      (gateSeed c) (confirmSeed c) (gateScorePpm c) (confirmScorePpm c) (rc_accepted c) (Some r_cached) None)
  | None =>
    let minerAddress := toLowerCase (rq_minerAddress request) in
    match liveEvalAdmissionDecision (mkAdmissionInput minerAddress patchHash dedupKey ((dedupCache deps).*1)
            (default (of_Z 0) (jsmap_get minerAddress (minerAdmissions deps))) (perMinerCap deps) (rq_structurallyValid request)) with
    | Reject reason =>
      mret (mkReceipt patchHash dedupKey (rq_parentRoot request) minerAddress (rq_epochId request) (mkSeedContext 0 0 ZERO32)
        ZERO32 ZERO32 (of_Z 0) (of_Z 0) false (Some (mapAdmissionReason reason)) None)
    | Admit =>
      ctx ← draw_context deps;
      _ ← record_context deps ctx;
      seeds ← lift (derive_seeds request deps patchHash ctx);
      g ← ask (Score gate seeds.1) (scorer deps (normalizedPatchBytes request) (rq_parentRoot request) seeds.1 gate);
      if negb (pack_pass deps g) then
        mret (mkReceipt patchHash dedupKey (rq_parentRoot request) minerAddress (rq_epochId request) ctx seeds.1 seeds.2 (scorePpm g) (of_Z 0)
          false (Some (if sr_accepted g then r_gate_below_threshold else r_gate_acceptance_floor)) (inner_reason g))
      else
        c ← ask (Score confirm seeds.2) (scorer deps (normalizedPatchBytes request) (rq_parentRoot request) seeds.2 confirm);
        let confirmPass := pack_pass deps c in
        mret (mkReceipt patchHash dedupKey (rq_parentRoot request) minerAddress (rq_epochId request) ctx seeds.1 seeds.2 (scorePpm g) (scorePpm c)
          confirmPass
          (if confirmPass then None else Some (if sr_accepted c then r_confirm_below_threshold else r_confirm_acceptance_floor))
          (if confirmPass then None else inner_reason c))
    end
  end.

(** ** The dual-pack proof *)
(** This module's [hexToBytes]: both the alphabet and the parity are checked. *)
Definition hexToBytes_checked (hex : string) : outcome bytes :=
  let clean := String.list_ascii_of_string (clean_hex hex) in
  throw_when negb (forallb is_hex_char clean) || negb (Nat.even (length clean)) with GenericError "hexToBytes: malformed hex" ;;
  match hex_pairs clean with
  | Some ps => Returns (map (fun '(a, b) => default 0 (parseInt16 a b)) ps)
  | None => Throws (GenericError "hexToBytes: malformed hex")
  end.

Definition seedCommit (seed : string) : outcome string :=
  bs ← hexToBytes_checked seed; Returns (toLowerCase (bytesToHex (keccak256 bs))).

Record PackProof := mkPackProof { pp_seedCommit : string; pp_accepted : bool; pp_scorePpm : number }.
Record PerPatchDualPackEvaluationProof := mkProof {
  pf_epochId : Z;
  pf_context : PerPatchSeedContext;
  pf_targetBlockOffset : Z;
  pf_patchHash : string;
  pf_parentStateRoot : string;
  pf_corpusRoot : string;
  pf_coreVersionHash : string;
  pf_hiddenSeedCommit : string;
  pf_epochSecretCommit : string;
  pf_gate : PackProof;
  pf_confirm : PackProof
}.

Definition dualPackProofFromPerPatchReceipt (receipt : PerPatchReceipt) (corpusRoot coreVersionHash hiddenSeedCommit : string) (offset : Z)
  : outcome PerPatchDualPackEvaluationProof :=
  throw_when negb (rc_accepted receipt) with GenericError "dualPackProofFromPerPatchReceipt: receipt was not accepted" ;;
  let ctx := rc_context receipt in
  g ← seedCommit (gateSeed receipt);
  c ← seedCommit (confirmSeed receipt);
  Returns (mkProof (rc_epochId receipt) (mkSeedContext (receivedAtBlock ctx) (targetBlock ctx) (toLowerCase (sc_blockhash ctx))) offset
    (toLowerCase (rc_patchHash receipt)) (toLowerCase (rc_parentRoot receipt)) (toLowerCase corpusRoot) (toLowerCase coreVersionHash)
    (toLowerCase hiddenSeedCommit) (toLowerCase hiddenSeedCommit)
    (mkPackProof g true (gateScorePpm receipt)) (mkPackProof c true (confirmScorePpm receipt))).

(** ** Replay *)
Record PerPatchVerificationDeps := mkVerifyDeps {
  v_rpcClient : BaseRpcClient;
  replayTolerancePpm : number;
  v_scorer : PerPatchScorer;
  v_epochSecret : string;
  v_corpusRoot : string;
  v_bundleHash : string;
  v_patchBytes : bytes
}.

Inductive PerPatchVerificationFailureCode :=
  | BLOCKHASH_MISMATCH | GATE_SEED_MISMATCH | CONFIRM_SEED_MISMATCH | PATCH_HASH_MISMATCH | DEDUP_KEY_MISMATCH
  | GATE_SCORE_BEYOND_TOLERANCE | CONFIRM_SCORE_BEYOND_TOLERANCE | RPC_ERROR.
Inductive PerPatchVerificationResult :=
  | Verified (gateDeltaPpm confirmDeltaPpm : number)
  | NotVerified (code : PerPatchVerificationFailureCode).

Definition hexEq (a b : string) : bool := String.eqb (toLowerCase a) (toLowerCase b).
(** [Math.abs(a - b)] *)
Definition score_delta (a b : number) : number := SFabs (dsub a b).

Definition verifyPerPatchReceipt (receipt : PerPatchReceipt) (deps : PerPatchVerificationDeps) : outcome PerPatchVerificationResult :=
  if negb (hexEq (computePatchHash (v_patchBytes deps)) (rc_patchHash receipt)) then Returns (NotVerified PATCH_HASH_MISMATCH)
  else
  replayDedupKey ← computeDedupKey (rc_parentRoot receipt) (v_patchBytes deps);
  if negb (hexEq replayDedupKey (rc_dedupKey receipt)) then Returns (NotVerified DEDUP_KEY_MISMATCH)
  else if receivedAtBlock (rc_context receipt) =? 0 then Returns (Verified (of_Z 0) (of_Z 0))
  else match getBlockHash (v_rpcClient deps) (targetBlock (rc_context receipt)) with
  | Throws _ => Returns (NotVerified RPC_ERROR)
  | Returns chainBlockhash =>
    if negb (hexEq chainBlockhash (sc_blockhash (rc_context receipt))) then Returns (NotVerified BLOCKHASH_MISMATCH)
    else
    let i := seed_input (v_epochSecret deps) (rc_context receipt) (rc_epochId receipt) (rc_patchHash receipt) (rc_parentRoot receipt)
               (v_corpusRoot deps) (v_bundleHash deps) in
    replayGateSeed ← deriveGateEvalSeed i;
    if negb (hexEq replayGateSeed (gateSeed receipt)) then Returns (NotVerified GATE_SEED_MISMATCH)
    else
    replayConfirmSeed ← deriveConfirmEvalSeed i;
    if negb (hexEq replayConfirmSeed (confirmSeed receipt)) then Returns (NotVerified CONFIRM_SEED_MISMATCH)
    else
    gateReplay ← v_scorer deps (v_patchBytes deps) (rc_parentRoot receipt) (gateSeed receipt) gate;
    let gateDelta := score_delta (scorePpm gateReplay) (gateScorePpm receipt) in
    if dlt (replayTolerancePpm deps) gateDelta then Returns (NotVerified GATE_SCORE_BEYOND_TOLERANCE)
    else
    confirmReplay ← v_scorer deps (v_patchBytes deps) (rc_parentRoot receipt) (confirmSeed receipt) confirm;
    let confirmDelta := score_delta (scorePpm confirmReplay) (confirmScorePpm receipt) in
    if dlt (replayTolerancePpm deps) confirmDelta then Returns (NotVerified CONFIRM_SCORE_BEYOND_TOLERANCE)
    else Returns (Verified gateDelta confirmDelta)
  end.
End WithHasher.

(** ** Facts about the monad *)
Lemma prog_Returns {A B} (m : prog A) (f : A -> prog B) t b :
  m ≫= f = (t, Returns b) <-> exists t1 a t2, m = (t1, Returns a) /\ f a = (t2, Returns b) /\ t = t1 ++ t2.
Proof.
  unfold mbind, prog_bind. destruct m as [t1 [a|e]]; cbn [fst snd].
  - destruct (f a) as [t2 o] eqn:E; cbn [fst snd]. split; [intros [= <- ->]; eauto 10|].
    intros (? & ? & ? & [= <- <-] & E' & ->). rewrite E in E'. by injection E' as -> ->.
  - split; [done|]. by intros (? & ? & ? & ? & _).
Qed.

Lemma ask_Returns {A} e (m : outcome A) t a : ask e m = (t, Returns a) <-> t = [e] /\ m = Returns a.
Proof. unfold ask. split; [by intros [= <- ->]|by intros [-> ->]]. Qed.

Lemma lift_Returns {A} (m : outcome A) t a : lift m = (t, Returns a) <-> t = [] /\ m = Returns a.
Proof. unfold lift. split; [by intros [= <- ->]|by intros [-> ->]]. Qed.

Lemma mret_Returns {A} (a b : A) (t : list effect) : mret (M:=prog) a = (t, Returns b) <-> t = [] /\ a = b.
Proof. unfold mret, prog_ret. split; [by intros [= <- ->]|by intros [-> ->]]. Qed.

Lemma lift_bind {A B} (m : outcome A) (f : A -> prog B) :
  lift m ≫= f = match m with Returns a => f a | Throws e => ([], Throws e) end.
Proof. unfold lift, mbind, prog_bind. cbn [fst snd]. destruct m as [a|e]; [|done]. by destruct (f a). Qed.

Lemma ask_bind {A B} e (m : outcome A) (f : A -> prog B) :
  ask e m ≫= f = match m with Returns a => (e :: (f a).1, (f a).2) | Throws x => ([e], Throws x) end.
Proof. unfold ask, mbind, prog_bind. cbn [fst snd]. by destruct m. Qed.

Lemma hexEq_refl s : hexEq s s = true.
Proof. apply String.eqb_refl. Qed.

#[local] Arguments lift : simpl never.
#[local] Arguments ask : simpl never.
#[local] Arguments prog_bind : simpl never.

Section Theorems.
Context {HK : Hasher}.

Definition decision (rq : PerPatchRequest) (deps : PerPatchEvaluatorDeps) (dk : string) : LiveEvalAdmissionDecision :=
  let minerAddress := toLowerCase (rq_minerAddress rq) in
  liveEvalAdmissionDecision (mkAdmissionInput minerAddress (computePatchHash (normalizedPatchBytes rq)) dk ((dedupCache deps).*1)
    (default (of_Z 0) (jsmap_get minerAddress (minerAdmissions deps))) (perMinerCap deps) (rq_structurallyValid rq)).

(** The context came from the caller, or is the hash of the block [targetBlockOffset] past the head. *)
Definition drawn (deps : PerPatchEvaluatorDeps) (ctx : PerPatchSeedContext) : Prop :=
  match seedContext deps with
  | Some c => ctx = c
  | None => getLatestBlockNumber (rpcClient deps) = Returns (receivedAtBlock ctx)
    /\ targetBlock ctx = receivedAtBlock ctx + targetBlockOffset deps
    /\ waitForBlock (rpcClient deps) (targetBlock ctx) (default (of_Z 120000) (waitTimeoutMs deps)) = Returns (sc_blockhash ctx)
  end.

Definition draw_trace (deps : PerPatchEvaluatorDeps) (ctx : PerPatchSeedContext) : list effect :=
  match seedContext deps with Some _ => [] | None => [ReadHead; WaitBlock (targetBlock ctx)] end
  ++ match onSeedDerived deps with Some _ => [RecordSeed ctx] | None => [] end.

Lemma draw_inv deps t ctx : draw_context deps = (t, Returns ctx) ->
  drawn deps ctx /\ t = match seedContext deps with Some _ => [] | None => [ReadHead; WaitBlock (targetBlock ctx)] end.
Proof.
  unfold draw_context, drawn. destruct (seedContext deps) as [c|]; intros H.
  - apply mret_Returns in H as [-> ->]. done.
  - apply prog_Returns in H as (? & received & ? & H1 & H & ->). apply ask_Returns in H1 as [-> H1].
    apply prog_Returns in H as (? & bh & ? & H2 & H & ->). apply ask_Returns in H2 as [-> H2].
    apply mret_Returns in H as [-> <-]. done.
Qed.

(** A fresh, admitted evaluation that returns: the context was drawn and recorded, the seeds derived from it, then scored. *)
Lemma run_scored rq deps t r dk :
  runPerPatchEvaluation rq deps = (t, Returns r) ->
  computeDedupKey (rq_parentRoot rq) (normalizedPatchBytes rq) = Returns dk ->
  jsmap_get dk (dedupCache deps) = None -> decision rq deps dk = Admit ->
  exists ctx g, rc_context r = ctx /\ drawn deps ctx
  /\ derive_seeds rq deps (computePatchHash (normalizedPatchBytes rq)) ctx = Returns (gateSeed r, confirmSeed r)
  /\ scorer deps (normalizedPatchBytes rq) (rq_parentRoot rq) (gateSeed r) gate = Returns g
  /\ gateScorePpm r = scorePpm g
  /\ rc_patchHash r = computePatchHash (normalizedPatchBytes rq) /\ rc_dedupKey r = dk /\ rc_parentRoot r = rq_parentRoot rq
  /\ rc_minerAddress r = toLowerCase (rq_minerAddress rq) /\ rc_epochId r = rq_epochId rq
  /\ if pack_pass deps g
     then exists c, scorer deps (normalizedPatchBytes rq) (rq_parentRoot rq) (confirmSeed r) confirm = Returns c
       /\ confirmScorePpm r = scorePpm c /\ rc_accepted r = pack_pass deps c
       /\ rc_rejectionReason r = (if pack_pass deps c then None
            else Some (if sr_accepted c then r_confirm_below_threshold else r_confirm_acceptance_floor))
       /\ t = draw_trace deps ctx ++ [Score gate (gateSeed r); Score confirm (confirmSeed r)]
     else rc_accepted r = false /\ confirmScorePpm r = of_Z 0 /\ t = draw_trace deps ctx ++ [Score gate (gateSeed r)]
       /\ rc_rejectionReason r = Some (if sr_accepted g then r_gate_below_threshold else r_gate_acceptance_floor).
Proof.
  intros H Hdk Hc Hd. unfold decision in Hd. unfold runPerPatchEvaluation in H. apply prog_Returns in H as (? & dk' & t0 & H0 & H & ->).
  apply lift_Returns in H0 as [-> H0]. rewrite Hdk in H0. apply Returns_inj in H0 as <-. rewrite Hc, Hd in H.
  apply prog_Returns in H as (t1 & ctx & t2 & H1 & H & ->). apply draw_inv in H1 as [Hdraw ->].
  apply prog_Returns in H as (t3 & [] & t4 & H2 & H & ->).
  apply prog_Returns in H as (t5 & [gs cs] & t6 & H3 & H & ->). apply lift_Returns in H3 as [-> H3]. cbn [fst snd] in H.
  apply prog_Returns in H as (t7 & g & t8 & H4 & H & ->). apply ask_Returns in H4 as [-> H4].
  assert (Ht : (match seedContext deps with Some _ => [] | None => [ReadHead; WaitBlock (targetBlock ctx)] end) ++ t3 = draw_trace deps ctx).
  { unfold draw_trace. f_equal. unfold record_context in H2. destruct (onSeedDerived deps); [apply ask_Returns in H2 as [-> _]|apply mret_Returns in H2 as [-> _]]; done. }
  exists ctx, g. destruct (pack_pass deps g) eqn:Eg; cbn [negb] in H.
  - apply prog_Returns in H as (t9 & c & t10 & H5 & H & ->). apply ask_Returns in H5 as [-> H5]. apply mret_Returns in H as [-> <-].
    cbn. do 10 (split; [done|]). exists c. split; [done|]. split; [done|]. split; [done|]. split; [done|]. by rewrite app_assoc, Ht.
  - apply mret_Returns in H as [-> <-]. cbn. do 10 (split; [done|]). split; [done|]. split; [done|]. split; [|done]. by rewrite app_assoc, Ht.
Qed.

Lemma admit_inv i : liveEvalAdmissionDecision i = Admit ->
  ADDR_RE (ai_minerAddress i) = true /\ ai_structurallyValid i = true /\ dle (ai_perMinerCap i) (minerAdmissionsThisEpoch i) = false
  /\ is_integer (minerAdmissionsThisEpoch i) = true /\ is_integer (ai_perMinerCap i) = true.
Proof.
  unfold liveEvalAdmissionDecision. destruct (ADDR_RE _); [|done]. destruct (BYTES32_RE _); [|done]. destruct (BYTES32_RE _); [|done].
  cbn [negb]. destruct (is_integer (minerAdmissionsThisEpoch i)); [|done]. cbn [negb orb]. destruct (dlt (minerAdmissionsThisEpoch i) (of_Z 0)); [done|].
  destruct (is_integer (ai_perMinerCap i)); [|done]. cbn [negb orb]. destruct (dlt (ai_perMinerCap i) (of_Z 1)); [done|]. destruct (ai_structurallyValid i); [|done]. cbn [negb].
  case_bool_decide; [done|]. destruct (dle _ _); done.
Qed.

(** What a returned receipt is: the cached one, a refusal that asked the host for nothing, or a scored evaluation. *)
Lemma run_cases rq deps t r : runPerPatchEvaluation rq deps = (t, Returns r) ->
  exists dk, computeDedupKey (rq_parentRoot rq) (normalizedPatchBytes rq) = Returns dk
  /\ match jsmap_get dk (dedupCache deps) with
     | Some c => t = [] /\ rc_rejectionReason r = Some r_cached
     | None => match decision rq deps dk with
       | Reject reason => t = [] /\ r = mkReceipt (computePatchHash (normalizedPatchBytes rq)) dk (rq_parentRoot rq) (toLowerCase (rq_minerAddress rq))
           (rq_epochId rq) (mkSeedContext 0 0 ZERO32) ZERO32 ZERO32 (of_Z 0) (of_Z 0) false (Some (mapAdmissionReason reason)) None
       | Admit => True
       end
     end.
Proof.
  intros H. unfold runPerPatchEvaluation in H. apply prog_Returns in H as (? & dk & t0 & H0 & H & ->). apply lift_Returns in H0 as [-> H0].
  exists dk. split; [done|]. unfold decision. destruct (jsmap_get dk (dedupCache deps)) as [c|].
  { apply mret_Returns in H as [-> <-]. done. }
  destruct (liveEvalAdmissionDecision _); [done|]. apply mret_Returns in H as [-> <-]. done.
Qed.

(** A fresh receipt is accepted only for a structurally valid patch of a miner below its cap, after both packs
    were scored, gate first, on the two seeds derived from one drawn context, and each reached the threshold with
    the scorer's own acceptance. *)
Theorem accepted_receipt_sound (rq : PerPatchRequest) (deps : PerPatchEvaluatorDeps) (t : list effect) (r : PerPatchReceipt) :
  runPerPatchEvaluation rq deps = (t, Returns r) -> rc_accepted r = true -> rc_rejectionReason r <> Some r_cached ->
  exists g c, rq_structurallyValid rq = true
  /\ dle (perMinerCap deps) (default (of_Z 0) (jsmap_get (toLowerCase (rq_minerAddress rq)) (minerAdmissions deps))) = false
  /\ drawn deps (rc_context r)
  /\ derive_seeds rq deps (computePatchHash (normalizedPatchBytes rq)) (rc_context r) = Returns (gateSeed r, confirmSeed r)
  /\ t = draw_trace deps (rc_context r) ++ [Score gate (gateSeed r); Score confirm (confirmSeed r)]
  /\ scorer deps (normalizedPatchBytes rq) (rq_parentRoot rq) (gateSeed r) gate = Returns g
  /\ scorer deps (normalizedPatchBytes rq) (rq_parentRoot rq) (confirmSeed r) confirm = Returns c
  /\ gateScorePpm r = scorePpm g /\ confirmScorePpm r = scorePpm c
  /\ Forall (fun p => dle (thresholdPpm deps) (scorePpm p) = true /\ sr_accepted p = true) [g; c]
  /\ rc_patchHash r = computePatchHash (normalizedPatchBytes rq) /\ rc_parentRoot r = rq_parentRoot rq /\ rc_rejectionReason r = None.
Proof.
  intros H Hacc Hnc. destruct (run_cases _ _ _ _ H) as (dk & Hdk & Hcase).
  destruct (jsmap_get dk (dedupCache deps)) eqn:Hc; [by destruct Hcase|].
  destruct (decision rq deps dk) eqn:Hd; [|destruct Hcase as [_ ->]; done].
  destruct (run_scored _ _ _ _ _ H Hdk Hc Hd) as (ctx & g & <- & Hdr & Hs & Hg & Eg & Ep & _ & Epr & _ & _ & Hpass).
  destruct (pack_pass deps g) eqn:Pg; [|destruct Hpass as [E _]; congruence].
  destruct Hpass as (c & Hsc & Ec & Ea & Er & Et). rewrite Hacc in Ea. symmetry in Ea. rewrite Ea in Er.
  apply andb_true_iff in Pg, Ea. apply admit_inv in Hd as (_ & Hv & Hcap & _).
  exists g, c. repeat (split; [done|]). split; [|done]. constructor; [done|]. constructor; [done|]. constructor.
Qed.

Definition is_score (e : effect) : bool := match e with Score _ _ => true | _ => false end.

Lemma draw_no_score deps : forallb (fun e => negb (is_score e)) (draw_context deps).1 = true.
Proof.
  unfold draw_context. destruct (seedContext deps); [done|]. unfold mbind, prog_bind, ask. cbn [fst snd].
  destruct (getLatestBlockNumber _); cbn [fst snd]; [|done]. destruct (waitForBlock _ _ _); done.
Qed.

Lemma cons_inv {A} (x y : A) l k : x :: l = y :: k -> x = y /\ l = k.
Proof. by intros [= -> ->]. Qed.

Lemma score_after (l1 l2 pre post : list effect) e : forallb (fun e => negb (is_score e)) l1 = true -> is_score e = true ->
  l1 ++ l2 = pre ++ e :: post -> exists pre', pre = l1 ++ pre' /\ l2 = pre' ++ e :: post.
Proof.
  intros H1 He. revert pre. induction l1 as [|x l1 IH]; intros pre E; [by exists pre|]. cbn [forallb] in H1. apply andb_true_iff in H1 as [Hx H1].
  destruct pre as [|y pre]; cbn [app] in E; injection E as -> E.
  - by rewrite He in Hx.
  - destruct (IH H1 pre E) as (pre' & -> & E2). by exists pre'.
Qed.

(** C32. Nothing is scored before the context behind its seed is durable: when the host records contexts, every score
    request comes after a recorded one, on a seed derived from it, and the confirm pack after the gate pack; this
    holds for evaluations that fail half way too. *)
Theorem seeds_fixed_before_scoring (rq : PerPatchRequest) (deps : PerPatchEvaluatorDeps) (hook : PerPatchSeedContext -> outcome unit)
    (t pre post : list effect) (o : outcome PerPatchReceipt) (which : pack) (s : string) :
  runPerPatchEvaluation rq deps = (t, o) -> onSeedDerived deps = Some hook -> t = pre ++ Score which s :: post ->
  exists ctx g c, RecordSeed ctx ∈ pre /\ drawn deps ctx /\ hook ctx = Returns tt
  /\ derive_seeds rq deps (computePatchHash (normalizedPatchBytes rq)) ctx = Returns (g, c)
  /\ match which with gate => s = g | confirm => s = c /\ Score gate g ∈ pre end.
Proof.
  intros H Hh ->. unfold runPerPatchEvaluation in H. cbv zeta in H. rewrite lift_bind in H.
  destruct (computeDedupKey _ _) as [dk|e]; [|by destruct pre].
  destruct (jsmap_get dk (dedupCache deps)); [by destruct pre|]. destruct (liveEvalAdmissionDecision _); [|by destruct pre].
  pose proof (draw_no_score deps) as Hns. destruct (draw_context deps) as [t1 o1] eqn:E1. unfold mbind at 1, prog_bind at 1 in H. cbn [fst snd] in H, Hns.
  destruct o1 as [ctx|e]; [|injection H as -> _; rewrite forallb_app in Hns; cbn in Hns; by rewrite andb_false_r in Hns].
  apply draw_inv in E1 as [Hdr _]. unfold record_context in H. rewrite Hh, ask_bind in H. apply (f_equal fst) in H.
  apply score_after in H as (pre' & -> & H); [|done..]. destruct (hook ctx) as [[]|e] eqn:Eh; cbn [fst] in H; [|by destruct pre' as [|? [|]]].
  destruct pre' as [|? pre']; [done|]. apply cons_inv in H as [<- H]. rewrite lift_bind in H.
  destruct (derive_seeds _ _ _ _) as [[g c]|e] eqn:Es; [|by destruct pre']. cbn [fst snd] in H. rewrite ask_bind in H.
  exists ctx, g, c. split; [set_solver|]. do 3 (split; [done|]).
  destruct pre' as [|? pre'].
  { destruct (scorer _ _ _ _ _); injection H as <- <- _; done. }
  destruct (scorer deps _ _ g gate) as [gr|err]; [|by destruct pre']. cbn [fst] in H. apply cons_inv in H as [<- H].
  destruct (negb (pack_pass deps gr)); [by destruct pre'|]. rewrite ask_bind in H.
  destruct pre' as [|? pre']; [|destruct (scorer _ _ _ _ _); by destruct pre']. destruct (scorer _ _ _ _ _); injection H as <- <- _; split; [done|set_solver|done|set_solver].
Qed.

(** ** Replay *)
Lemma verify_inv r v a b : verifyPerPatchReceipt r v = Returns (Verified a b) ->
  exists dk, hexEq (computePatchHash (v_patchBytes v)) (rc_patchHash r) = true
  /\ computeDedupKey (rc_parentRoot r) (v_patchBytes v) = Returns dk /\ hexEq dk (rc_dedupKey r) = true
  /\ (receivedAtBlock (rc_context r) <> 0 ->
      exists bh gs cs g c, getBlockHash (v_rpcClient v) (targetBlock (rc_context r)) = Returns bh /\ hexEq bh (sc_blockhash (rc_context r)) = true
      /\ let i := seed_input (v_epochSecret v) (rc_context r) (rc_epochId r) (rc_patchHash r) (rc_parentRoot r) (v_corpusRoot v) (v_bundleHash v) in
      deriveGateEvalSeed i = Returns gs /\ hexEq gs (gateSeed r) = true /\ deriveConfirmEvalSeed i = Returns cs /\ hexEq cs (confirmSeed r) = true
      /\ v_scorer v (v_patchBytes v) (rc_parentRoot r) (gateSeed r) gate = Returns g
      /\ v_scorer v (v_patchBytes v) (rc_parentRoot r) (confirmSeed r) confirm = Returns c
      /\ dlt (replayTolerancePpm v) (score_delta (scorePpm g) (gateScorePpm r)) = false
      /\ dlt (replayTolerancePpm v) (score_delta (scorePpm c) (confirmScorePpm r)) = false).
Proof.
  unfold verifyPerPatchReceipt. intros H. destruct (hexEq (computePatchHash _) _) eqn:E1; [|done]. cbn [negb] in H.
  apply bind_Returns in H as (dk & Hdk & H). exists dk. destruct (hexEq dk _) eqn:E2; [|done]. cbn [negb] in H.
  do 3 (split; [done|]). intros Hr. destruct (Z.eqb_spec (receivedAtBlock (rc_context r)) 0) as [|_]; [done|].
  destruct (getBlockHash _ _) as [bh|]; [|done]. exists bh. destruct (hexEq bh _) eqn:E3; [|done]. cbn [negb] in H.
  apply bind_Returns in H as (gs & Hgs & H). exists gs. destruct (hexEq gs _) eqn:E4; [|done]. cbn [negb] in H.
  apply bind_Returns in H as (cs & Hcs & H). exists cs. destruct (hexEq cs _) eqn:E5; [|done]. cbn [negb] in H.
  apply bind_Returns in H as (g & Hg & H). exists g. destruct (dlt _ (score_delta (scorePpm g) _)) eqn:E6; [done|].
  apply bind_Returns in H as (c & Hc & H). exists c. destruct (dlt _ (score_delta (scorePpm c) _)) eqn:E7; [done|].
  cbv zeta. done.
Qed.

Lemma hexEq_hashes x y s : hexEq (bytesToHex (keccak256 x)) s = true -> hexEq (bytesToHex (keccak256 y)) s = true ->
  bytesToHex (keccak256 x) = bytesToHex (keccak256 y).
Proof. unfold hexEq. intros E1%String.eqb_eq E2%String.eqb_eq. rewrite !toLowerCase_hex in *. congruence. Qed.

Lemma derive_lower prefix i s : deriveEvalSeedWithPrefix prefix i = Returns s -> toLowerCase s = s.
Proof. intros H. apply derive_inv in H as (f & _ & _ & ->). apply toLowerCase_hex. Qed.

(** A receipt that replays under two watchers is bound to its evaluation: the patch bytes are the same, and for a
    scored one both chains give the block hash it names and the secrets, corpora and bundles revealed are the same,
    or the hash collides on two of the buffers compared. *)
Theorem verified_receipt_binds (r : PerPatchReceipt) (v1 v2 : PerPatchVerificationDeps) (a1 b1 a2 b2 : number) :
  verifyPerPatchReceipt r v1 = Returns (Verified a1 b1) -> verifyPerPatchReceipt r v2 = Returns (Verified a2 b2) ->
  (v_patchBytes v1 = v_patchBytes v2 \/ collision (patchHash_preimage (v_patchBytes v1)) (patchHash_preimage (v_patchBytes v2)))
  /\ (receivedAtBlock (rc_context r) <> 0 ->
      (exists h1 h2, getBlockHash (v_rpcClient v1) (targetBlock (rc_context r)) = Returns h1
         /\ getBlockHash (v_rpcClient v2) (targetBlock (rc_context r)) = Returns h2 /\ toLowerCase h1 = toLowerCase h2)
      /\ exists f1 f2, hexToBytes_strict (v_epochSecret v1) = Returns (f_es f1) /\ hexToBytes_strict (v_epochSecret v2) = Returns (f_es f2)
         /\ hexToBytes_strict (v_corpusRoot v1) = Returns (f_cr f1) /\ hexToBytes_strict (v_corpusRoot v2) = Returns (f_cr f2)
         /\ hexToBytes_strict (v_bundleHash v1) = Returns (f_bu f1) /\ hexToBytes_strict (v_bundleHash v2) = Returns (f_bu f2)
         /\ (f1 = f2 \/ collision (seed_preimage EVAL_SEED_GATE_DOMAIN_PREFIX f1) (seed_preimage EVAL_SEED_GATE_DOMAIN_PREFIX f2))).
Proof.
  intros H1 H2. apply verify_inv in H1 as (dk1 & P1 & _ & _ & R1). apply verify_inv in H2 as (dk2 & P2 & _ & _ & R2). split.
  - rewrite !computePatchHash_preimage in *. pose proof (hexEq_hashes _ _ _ P1 P2) as E. apply hash_hex_eq in E as [E|C]; [|by right].
    left. by apply app_inv_head in E.
  - intros Hr. destruct (R1 Hr) as (h1 & g1 & _ & _ & _ & Hh1 & Eh1 & Hg1 & Eg1 & _). destruct (R2 Hr) as (h2 & g2 & _ & _ & _ & Hh2 & Eh2 & Hg2 & Eg2 & _).
    split.
    + exists h1, h2. unfold hexEq in *. apply String.eqb_eq in Eh1, Eh2. split; [done|]. split; [done|]. congruence.
    + unfold hexEq in Eg1, Eg2. apply String.eqb_eq in Eg1, Eg2. rewrite (derive_lower _ _ _ Hg1) in Eg1. rewrite (derive_lower _ _ _ Hg2) in Eg2.
      rewrite Eg1 in Hg1. rewrite Eg2 in Hg2. destruct (derive_fields _ _ _ _ Hg1 Hg2) as (f1 & f2 & I1 & I2 & E).
      exists f1, f2. destruct I1 as (A1 & _ & _ & _ & _ & A2 & A3). destruct I2 as (B1 & _ & _ & _ & _ & B2 & B3). done.
Qed.

(** The watcher has what the coordinator had, and a chain and a scorer that agree within the tolerance. *)
Record honest_watcher (rq : PerPatchRequest) (deps : PerPatchEvaluatorDeps) (r : PerPatchReceipt) (v : PerPatchVerificationDeps) : Prop := {
  hw_secret : d_epochSecret deps = Some (v_epochSecret v);
  hw_corpus : v_corpusRoot v = d_corpusRoot deps;
  hw_bundle : v_bundleHash v = d_bundleHash deps;
  hw_patch : v_patchBytes v = normalizedPatchBytes rq;
  hw_chain : receivedAtBlock (rc_context r) <> 0 ->
    exists h, getBlockHash (v_rpcClient v) (targetBlock (rc_context r)) = Returns h /\ hexEq h (sc_blockhash (rc_context r)) = true;
  hw_scorer : forall seed which s, scorer deps (normalizedPatchBytes rq) (rq_parentRoot rq) seed which = Returns s ->
    exists s', v_scorer v (normalizedPatchBytes rq) (rq_parentRoot rq) seed which = Returns s'
    /\ dlt (replayTolerancePpm v) (score_delta (scorePpm s') (scorePpm s)) = false
}.

(** The reasons of a receipt whose confirm pack was never scored. *)
Definition gate_rejected (r : PerPatchReceipt) : Prop :=
  rc_rejectionReason r = Some r_gate_below_threshold \/ rc_rejectionReason r = Some r_gate_acceptance_floor.

(** C12. Evaluation and replay agree: a fresh receipt whose seeds the coordinator derived itself, refused at admission or
    scored on both packs, verifies for every watcher with the same inputs, a chain that has the block and a scorer
    that agrees within the tolerance. *)
Theorem receipt_replays (rq : PerPatchRequest) (deps : PerPatchEvaluatorDeps) (t : list effect) (r : PerPatchReceipt) (v : PerPatchVerificationDeps) :
  runPerPatchEvaluation rq deps = (t, Returns r) -> injectedSeeds deps = None -> rc_rejectionReason r <> Some r_cached -> ~ gate_rejected r ->
  honest_watcher rq deps r v -> exists a b, verifyPerPatchReceipt r v = Returns (Verified a b).
Proof.
  intros H Hi Hnc Hng Hw. destruct (run_cases _ _ _ _ H) as (dk & Hdk & Hcase).
  destruct (jsmap_get dk (dedupCache deps)) eqn:Hc; [by destruct Hcase|].
  destruct (decision rq deps dk) eqn:Hd.
  2:{ destruct Hcase as [_ ->]. unfold verifyPerPatchReceipt. cbn [rc_patchHash rc_parentRoot rc_dedupKey rc_context receivedAtBlock].
      rewrite (hw_patch _ _ _ _ Hw), hexEq_refl, Hdk. cbn [negb mbind outcome_bind]. rewrite hexEq_refl. eauto. }
  destruct (run_scored _ _ _ _ _ H Hdk Hc Hd) as (ctx & g & <- & Hdr & Hs & Hg & Eg & Ep & Ek & Epr & _ & Ee & Hpass).
  destruct (pack_pass deps g) eqn:Pg.
  2:{ destruct Hpass as (_ & _ & _ & E). exfalso. apply Hng. unfold gate_rejected. rewrite E. destruct (sr_accepted g); auto. }
  destruct Hpass as (c & Hsc & Ec & _). unfold derive_seeds in Hs. rewrite Hi, (hw_secret _ _ _ _ Hw) in Hs.
  destruct (hw_scorer _ _ _ _ Hw _ _ _ Hg) as (g' & Hg' & Dg). destruct (hw_scorer _ _ _ _ Hw _ _ _ Hsc) as (c' & Hc' & Dc).
  unfold verifyPerPatchReceipt. rewrite Ep, Ek, Epr, Ee, (hw_patch _ _ _ _ Hw), hexEq_refl, Hdk. cbn [negb mbind outcome_bind]. rewrite hexEq_refl. cbn [negb].
  destruct (Z.eqb_spec (receivedAtBlock (rc_context r)) 0) as [|Hr]; [eauto|].
  destruct (hw_chain _ _ _ _ Hw Hr) as (h & -> & ->). cbn [negb].
  rewrite (hw_corpus _ _ _ _ Hw), (hw_bundle _ _ _ _ Hw).
  destruct (v_epochSecret v) as [|x secret] eqn:Ev; [done|]. apply bind_Returns in Hs as (gs & -> & Hs). apply bind_Returns in Hs as (cs & -> & [= -> ->]).
  cbn [mbind outcome_bind]. rewrite !hexEq_refl. cbn [negb]. rewrite Hg'. cbn [mbind outcome_bind]. rewrite Eg, Dg, Hc'. cbn [mbind outcome_bind]. rewrite Ec, Dc. eauto.
Qed.

(** A gate failure is returned with confirm score 0, but the watcher scores the confirm pack all the same and compares
    it with 0: such a receipt fails replay whenever the confirm pack scores outside the tolerance. *)
Lemma gate_rejected_fails_replay rq deps t r v c' :
  runPerPatchEvaluation rq deps = (t, Returns r) -> injectedSeeds deps = None -> gate_rejected r -> honest_watcher rq deps r v ->
  receivedAtBlock (rc_context r) <> 0 ->
  v_scorer v (normalizedPatchBytes rq) (rq_parentRoot rq) (confirmSeed r) confirm = Returns c' ->
  dlt (replayTolerancePpm v) (score_delta (scorePpm c') (of_Z 0)) = true ->
  verifyPerPatchReceipt r v = Returns (NotVerified CONFIRM_SCORE_BEYOND_TOLERANCE).
Proof.
  intros H Hi Hg Hw Hr Hc' Hd'. destruct (run_cases _ _ _ _ H) as (dk & Hdk & Hcase). unfold gate_rejected in Hg.
  destruct (jsmap_get dk (dedupCache deps)) eqn:Hc; [destruct Hcase as [_ E]; rewrite E in Hg; naive_solver|].
  destruct (decision rq deps dk) as [|reason] eqn:Hd; [|destruct Hcase as [_ ->]; done].
  destruct (run_scored _ _ _ _ _ H Hdk Hc Hd) as (ctx & g & <- & Hdr & Hs & Hgs & Eg & Ep & Ek & Epr & _ & Ee & Hpass).
  destruct (pack_pass deps g) eqn:Pg.
  { destruct Hpass as (c & _ & _ & _ & E & _). rewrite E in Hg. destruct (pack_pass deps c), (sr_accepted c); naive_solver. }
  destruct Hpass as (_ & Ec & _). unfold derive_seeds in Hs. rewrite Hi, (hw_secret _ _ _ _ Hw) in Hs.
  destruct (hw_scorer _ _ _ _ Hw _ _ _ Hgs) as (g' & Hg' & Dg).
  unfold verifyPerPatchReceipt. rewrite Ep, Ek, Epr, Ee, (hw_patch _ _ _ _ Hw), hexEq_refl, Hdk. cbn [negb mbind outcome_bind]. rewrite hexEq_refl. cbn [negb].
  destruct (Z.eqb_spec (receivedAtBlock (rc_context r)) 0) as [|_]; [done|].
  destruct (hw_chain _ _ _ _ Hw Hr) as (h & -> & ->). cbn [negb]. rewrite (hw_corpus _ _ _ _ Hw), (hw_bundle _ _ _ _ Hw).
  destruct (v_epochSecret v) as [|x secret] eqn:Ev; [done|]. apply bind_Returns in Hs as (gs & -> & Hs). apply bind_Returns in Hs as (cs & -> & [= -> ->]).
  cbn [mbind outcome_bind]. rewrite !hexEq_refl. cbn [negb]. rewrite Hg'. cbn [mbind outcome_bind]. rewrite Eg, Dg, Hc'. cbn [mbind outcome_bind]. by rewrite Ec, Hd'.
Qed.
End Theorems.

(** ** Witnesses *)
Definition score_w : PerPatchScorer := fun _ _ _ _ => Returns (mkScore (of_Z 5000) true None).
Definition rpc_w : BaseRpcClient := mkRpc (Returns 100) (fun _ _ => Returns (hex64 "1")) (fun _ => Returns (hex64 "1")).
Definition request_w : PerPatchRequest :=
  mkRequest [7; 1] (hex64 "C") (String.append "0x" (String.string_of_list_ascii (replicate 40 "A"%char))) 12 true.
Definition deps_w : PerPatchEvaluatorDeps :=
  mkDeps rpc_w score_w 15 (of_Z 2500) (of_Z 3) (Some (hex64 "a")) (hex64 "3") (hex64 "4") [] [] None None (Some (fun _ => Returns tt)) None.
Definition receipt_w : PerPatchReceipt :=
  mkReceipt (bytesToHex (zeros 32)) (bytesToHex (zeros 32)) (hex64 "C") (String.append "0x" (String.string_of_list_ascii (replicate 40 "a"%char))) 12
    (mkSeedContext 100 115 (hex64 "1")) (bytesToHex (zeros 32)) (bytesToHex (zeros 32)) (of_Z 5000) (of_Z 5000) true None None.
Definition trace_w : list effect :=
  [ReadHead; WaitBlock 115; RecordSeed (mkSeedContext 100 115 (hex64 "1")); Score gate (bytesToHex (zeros 32)); Score confirm (bytesToHex (zeros 32))].
Definition watcher_w : PerPatchVerificationDeps := mkVerifyDeps rpc_w (of_Z 10) score_w (hex64 "a") (hex64 "3") (hex64 "4") [7; 1].

Lemma run_w : runPerPatchEvaluation (HK:=const_hasher) request_w deps_w = (trace_w, Returns receipt_w).
Proof. vm_compute. reflexivity. Qed.

Lemma accepted_receipt_sound_witness : exists g c, drawn deps_w (mkSeedContext 100 115 (hex64 "1"))
  /\ Forall (fun p => dle (thresholdPpm deps_w) (scorePpm p) = true /\ sr_accepted p = true) [g; c].
Proof.
  destruct (accepted_receipt_sound (HK:=const_hasher) request_w deps_w trace_w receipt_w run_w) as (g & c & _ & _ & Hd & _ & _ & _ & _ & _ & _ & Hp & _);
    [reflexivity|discriminate|]. exists g, c. split; [exact Hd|exact Hp].
Defined.

Lemma seeds_fixed_before_scoring_witness : exists ctx g c, RecordSeed ctx ∈ take 4 trace_w
  /\ derive_seeds (HK:=const_hasher) request_w deps_w (bytesToHex (zeros 32)) ctx = Returns (g, c) /\ Score gate g ∈ take 4 trace_w.
Proof.
  destruct (seeds_fixed_before_scoring (HK:=const_hasher) request_w deps_w (fun _ => Returns tt) trace_w (take 4 trace_w) [] (Returns receipt_w) confirm (bytesToHex (zeros 32)) run_w)
    as (ctx & g & c & H1 & _ & _ & H4 & _ & H6); [reflexivity|reflexivity|]. exists ctx, g, c. split; [exact H1|]. split; [exact H4|exact H6].
Defined.

Lemma verified_receipt_binds_witness : verifyPerPatchReceipt (HK:=const_hasher) receipt_w watcher_w = Returns (Verified (of_Z 0) (of_Z 0))
  /\ exists h1 h2, getBlockHash rpc_w 115 = Returns h1 /\ getBlockHash rpc_w 115 = Returns h2 /\ toLowerCase h1 = toLowerCase h2.
Proof.
  assert (E : verifyPerPatchReceipt (HK:=const_hasher) receipt_w watcher_w = Returns (Verified (of_Z 0) (of_Z 0))) by (vm_compute; reflexivity).
  split; [exact E|]. destruct (verified_receipt_binds (HK:=const_hasher) receipt_w watcher_w watcher_w _ _ _ _ E E) as [_ H].
  destruct H as [H _]; [discriminate|exact H].
Defined.

Lemma watcher_w_honest : honest_watcher request_w deps_w receipt_w watcher_w.
Proof. constructor; [reflexivity..| |]; [by exists (hex64 "1")|]. intros seed which s [= <-]. eexists. split; [reflexivity|]. vm_compute. reflexivity. Qed.

Lemma receipt_replays_witness : exists a b, verifyPerPatchReceipt (HK:=const_hasher) receipt_w watcher_w = Returns (Verified a b).
Proof.
  apply (receipt_replays (HK:=const_hasher) request_w deps_w trace_w receipt_w watcher_w run_w); [reflexivity|discriminate| |exact watcher_w_honest].
  intros [E|E]; discriminate E.
Defined.

(** The same coordinator with a threshold the gate pack misses: the receipt it issues does not replay. *)
Definition strict_deps_w : PerPatchEvaluatorDeps :=
  mkDeps rpc_w score_w 15 (of_Z 9000) (of_Z 3) (Some (hex64 "a")) (hex64 "3") (hex64 "4") [] [] None None None None.
Lemma gate_rejection_refuted : exists t r, runPerPatchEvaluation (HK:=const_hasher) request_w strict_deps_w = (t, Returns r) /\ rc_accepted r = false
  /\ verifyPerPatchReceipt (HK:=const_hasher) r watcher_w = Returns (NotVerified CONFIRM_SCORE_BEYOND_TOLERANCE).
Proof. do 2 eexists. split; [reflexivity|]. split; vm_compute; reflexivity. Qed.
