(* ===== verification/JsSort.v ===== *)
(** * Array sorting and string order (shared by the reducer and the bonus lane)

    [Array.prototype.sort] is a stable sort (ECMAScript 2019); for a
    comparator that is a total preorder all stable sorts agree, so the
    stable insertion sort below is the function the engines compute. The
    class [CmpPreorder] is what a comparator promises to the sort. *)
From Stdlib Require Import Ascii Sorted.
From stdpp Require Import sorting.
From S2P Require Import Prelude.
#[local] Open Scope Z_scope.

(** String order by character codes, as [<] compares ASCII strings. *)
Fixpoint chars_lt (a b : list ascii) : bool :=
  match a, b with
  | _, [] => false
  | [], _ :: _ => true
  | x :: a', y :: b' =>
    if (Ascii.nat_of_ascii x <? Ascii.nat_of_ascii y)%nat then true
    else if (Ascii.nat_of_ascii x =? Ascii.nat_of_ascii y)%nat then chars_lt a' b'
    else false
  end.
Definition string_lt (a b : string) : bool := chars_lt (String.list_ascii_of_string a) (String.list_ascii_of_string b).

(** [a < b ? -1 : a > b ? 1 : 0] *)
Definition string_cmp (a b : string) : Z := if string_lt a b then -1 else if string_lt b a then 1 else 0.

(** [arr.slice().sort(cmp)] *)
Fixpoint sort_insert {T} (cmp : T -> T -> Z) (x : T) (l : list T) : list T :=
  match l with
  | [] => [x]
  | y :: l' => if cmp x y <=? 0 then x :: l else y :: sort_insert cmp x l'
  end.
Definition stableSort {T} (arr : list T) (cmp : T -> T -> Z) : list T := foldr (sort_insert cmp) [] arr.

Class CmpPreorder {T} (cmp : T -> T -> Z) := {
  cmp_total a b : cmp a b <= 0 \/ cmp b a <= 0;
  cmp_trans a b c : cmp a b <= 0 -> cmp b c <= 0 -> cmp a c <= 0
}.

(** ** String order facts *)
Lemma chars_lt_irrefl a : chars_lt a a = false.
Proof. induction a as [|x a IH]; cbn [chars_lt]; [done|]. by rewrite Nat.ltb_irrefl, Nat.eqb_refl. Qed.

Lemma chars_lt_trans a b c : chars_lt a b = true -> chars_lt b c = true -> chars_lt a c = true.
Proof.
  revert b c. induction a as [|x a IH]; intros [|y b] [|z c]; cbn [chars_lt]; try done.
  repeat match goal with |- context [(?m <? ?n)%nat] => destruct (Nat.ltb_spec m n)
    | |- context [(?m =? ?n)%nat] => destruct (Nat.eqb_spec m n) end; try lia; try done. apply IH.
Qed.

Lemma chars_lt_total a b : chars_lt a b = false -> chars_lt b a = false -> a = b.
Proof.
  revert b. induction a as [|x a IH]; intros [|y b]; cbn [chars_lt]; try done.
  repeat match goal with |- context [(?m <? ?n)%nat] => destruct (Nat.ltb_spec m n)
    | |- context [(?m =? ?n)%nat] => destruct (Nat.eqb_spec m n) end; try lia; try done.
  intros H1 H2. rewrite (IH b) by done. f_equal. rewrite <- (Ascii.ascii_nat_embedding x), <- (Ascii.ascii_nat_embedding y). by f_equal.
Qed.

Lemma string_lt_total a b : string_lt a b = false -> string_lt b a = false -> a = b.
Proof.
  intros H1 H2. rewrite <- (String.string_of_list_ascii_of_string a), <- (String.string_of_list_ascii_of_string b).
  f_equal. by apply chars_lt_total.
Qed.

Lemma string_lt_asym a b : string_lt a b = true -> string_lt b a = false.
Proof.
  intros H1. destruct (string_lt b a) eqn:H2; [|done]. pose proof (chars_lt_trans _ _ _ H1 H2) as C.
  by rewrite chars_lt_irrefl in C.
Qed.

Lemma string_cmp_le a b : string_cmp a b <= 0 <-> string_lt b a = false.
Proof.
  unfold string_cmp. destruct (string_lt a b) eqn:E1; [rewrite (string_lt_asym _ _ E1); intuition lia|].
  destruct (string_lt b a); intuition (congruence || lia).
Qed.

Lemma string_cmp_antisym a b : string_cmp a b <= 0 -> string_cmp b a <= 0 -> a = b.
Proof. rewrite !string_cmp_le. intros. by apply string_lt_total. Qed.

#[export] Instance string_cmp_preorder : CmpPreorder string_cmp.
Proof.
  constructor.
  - intros a b. rewrite !string_cmp_le. destruct (string_lt b a) eqn:E; [right; by apply string_lt_asym|by left].
  - intros a b c. rewrite !string_cmp_le. intros H1 H2. destruct (string_lt c a) eqn:E; [exfalso|done].
    destruct (string_lt a b) eqn:E1.
    + pose proof (chars_lt_trans _ _ _ E E1) as C. unfold string_lt in H2. congruence.
    + pose proof (string_lt_total _ _ E1 H1) as Eq. congruence.
Qed.

(** ** Sorting facts *)
Lemma sort_insert_perm {T} (cmp : T -> T -> Z) x l : sort_insert cmp x l ≡ₚ x :: l.
Proof.
  induction l as [|y l IH]; cbn; [done|]. destruct (_ <=? _); [done|]. rewrite IH. apply Permutation_swap.
Qed.

Lemma stableSort_perm {T} (l : list T) cmp : stableSort l cmp ≡ₚ l.
Proof. induction l as [|x l IH]; cbn; [done|]. by rewrite sort_insert_perm, IH. Qed.

Abbreviation cmp_le cmp := (fun a b => cmp a b <= 0).

(** Whatever the comparator returns on ties, a sort by it is sorted for a transitive relation it decides. *)
Lemma stableSort_sorted_by {T} (cmp : T -> T -> Z) (le : T -> T -> Prop) (l : list T) :
  (forall a b c, le a b -> le b c -> le a c) -> (forall a b, cmp a b <= 0 -> le a b) -> (forall a b, 0 < cmp a b -> le b a) ->
  StronglySorted le (stableSort l cmp).
Proof.
  intros Ht Hle Hgt'. induction l as [|x l IH]; cbn [stableSort foldr]; [constructor|].
  change (foldr (sort_insert cmp) [] l) with (stableSort l cmp).
  induction IH as [|y m IH IH' Hy]; cbn [sort_insert]; [repeat constructor|].
  destruct (Z.leb_spec (cmp x y) 0) as [Hxy|Hgt].
  - constructor; [by constructor|]. constructor; [by apply Hle|].
    eapply Forall_impl; [exact Hy|]. intros z Hz. by eapply Ht; [apply Hle|].
  - constructor; [done|]. rewrite sort_insert_perm. constructor; [by apply Hgt'|done].
Qed.

Lemma stableSort_sorted {T} (cmp : T -> T -> Z) `{!CmpPreorder cmp} (l : list T) :
  StronglySorted (cmp_le cmp) (stableSort l cmp).
Proof.
  apply stableSort_sorted_by; [by apply cmp_trans|done|]. intros a b H. destruct (cmp_total a b); [lia|done].
Qed.

Lemma StronglySorted_sublist {T} (R : T -> T -> Prop) (l k : list T) : l `sublist_of` k -> StronglySorted R k -> StronglySorted R l.
Proof.
  induction 1 as [|x l k Hs IH|x l k Hs IH]; intros Hk; [done| |]; apply StronglySorted_cons in Hk as [Hx Hk]; [|by apply IH].
  apply StronglySorted_cons. split; [|by apply IH]. apply Forall_forall. intros y Hy. rewrite Forall_forall in Hx. apply Hx. by eapply elem_of_sublist.
Qed.

Lemma stableSort_id {T} (cmp : T -> T -> Z) (l : list T) : StronglySorted (cmp_le cmp) l -> stableSort l cmp = l.
Proof.
  induction 1 as [|x l _ IH Hx]; [done|]. change (stableSort (x :: l) cmp) with (sort_insert cmp x (stableSort l cmp)). rewrite IH.
  destruct l as [|y l]; [done|]. cbn [sort_insert]. apply Forall_cons in Hx as [Hxy _]. by rewrite (proj2 (Z.leb_le _ _)).
Qed.

(** Where equal priority means equal elements, the sorted array depends
    only on the multiset. *)
Lemma stableSort_unique {T} (cmp : T -> T -> Z) `{!CmpPreorder cmp} (l1 l2 : list T) : l1 ≡ₚ l2 ->
  (forall a b, a ∈ l1 -> b ∈ l1 -> cmp a b <= 0 -> cmp b a <= 0 -> a = b) ->
  stableSort l1 cmp = stableSort l2 cmp.
Proof.
  intros Hp Ha. apply (StronglySorted_unique_strong (cmp_le cmp)); [|by apply stableSort_sorted..|by rewrite !stableSort_perm].
  intros a b Ia Ib. rewrite stableSort_perm in Ia. rewrite stableSort_perm, <- Hp in Ib. by apply Ha.
Qed.

Lemma sublist_map {A B} (f : A -> B) (l k : list A) : l `sublist_of` k -> map f l `sublist_of` map f k.
Proof. induction 1; cbn [map]; by constructor. Qed.
