(* ===== verification/CanonicalJson.v ===== *)
(** * Canonical JSON (packages/coretex/src/canonical/json.ts)

    The serializer behind every hashed or signed document. JavaScript values
    are [jsval]; strings are ASCII. [Number::toString] is a parameter: only
    its alphabet matters here. [json] is the document a text stands for, and
    [normalize] what the serializer makes of a value (bigints and byte arrays
    are strings, maps are objects, undefined members are absent, keys are
    sorted). Theorems: the text determines the normalized document, so two
    values hash alike only if they normalize alike, and the order in which
    an object's members were inserted does not matter. *)
From Stdlib Require Import Ascii.
From stdpp Require Import pretty.
From S2P Require Import Prelude Float JsSort.
#[local] Open Scope Z_scope.

Abbreviation chars := (list ascii).
Abbreviation text s := (String.list_ascii_of_string s).

Inductive jsval :=
  | JUndefined
  | JNull
  | JBool (b : bool)
  | JNumber (n : number)
  | JString (s : string)
  | JBigInt (v : Z)
  | JBytes (bs : bytes)
  | JMap (entries : list (string * jsval))
  | JArray (elems : list jsval)
  | JObject (fields : list (string * jsval))
  | JUnsupported.

Inductive numbers_policy := finite | safe_integer.

Definition dquote : ascii := "034"%char.

(** [JSON.stringify] of one character of a string. *)
Definition escape_char (c : ascii) : chars :=
  let n := Ascii.nat_of_ascii c in
  if (n =? 34)%nat then ["\"%char; dquote]
  else if (n =? 92)%nat then ["\"; "\"]%char
  else if (n =? 8)%nat then ["\"; "b"]%char
  else if (n =? 9)%nat then ["\"; "t"]%char
  else if (n =? 10)%nat then ["\"; "n"]%char
  else if (n =? 12)%nat then ["\"; "f"]%char
  else if (n =? 13)%nat then ["\"; "r"]%char
  else if (n <? 32)%nat then ["\"; "u"; "0"; "0"; hex_digit (Z.of_nat n / 16); hex_digit (Z.of_nat n mod 16)]%char
  else [c].

(** [JSON.stringify(s)] *)
Definition quote (s : string) : chars := dquote :: (text s ≫= escape_char) ++ [dquote].

(** [parts.join(',')] *)
Fixpoint join_comma (parts : list chars) : chars :=
  match parts with
  | [] => []
  | [p] => p
  | p :: rest => p ++ ","%char :: join_comma rest
  end.

(** [Number.isSafeInteger(n)] *)
Definition is_safe_integer (n : number) : bool :=
  match math_floor n with
  | Some v => deq (of_Z v) n && (Z.abs v <? 2 ^ 53)
  | None => false
  end.

(** The members of an object in key order, the undefined ones skipped; the
    thunks are forced in that order. *)
Fixpoint members {A} (fields : list (string * option (outcome A))) : outcome (list (string * A)) :=
  match fields with
  | [] => Returns []
  | (_, None) :: rest => members rest
  | (key, Some v) :: rest => a ← v; l ← members rest; Returns ((key, a) :: l)
  end.

(** [Object.keys(obj).sort()] *)
Definition sort_fields {A} (fields : list (string * A)) : list (string * A) :=
  stableSort fields (fun x y => string_cmp x.1 y.1).

(** [for (const [k, v] of value) obj[String(k)] = v]; assigning to [__proto__] makes no member. *)
Definition map_to_object {A} (entries : list (string * A)) : list (string * A) :=
  fold_left (fun obj e => if String.eqb e.1 "__proto__" then obj else jsmap_set e.1 e.2 obj) entries [].

Definition is_undefined (v : jsval) : bool := match v with JUndefined => true | _ => false end.

Section Serialize.
(** [String(n)] for a finite number. *)
Context (NumberToString : number -> string) (numbers : numbers_policy).

Definition check_number (n : number) : outcome string :=
  throw_when negb (is_finite n) with TypeError "canonicalJson: non-finite number" ;;
  throw_when match numbers with safe_integer => negb (is_safe_integer n) | finite => false end
    with TypeError "canonicalJson: numbers must be safe integers" ;;
  Returns (NumberToString n).

Fixpoint serialize (value : jsval) : outcome chars :=
  match value with
  | JNull => Returns (text "null")
  | JBool b => Returns (text (if b then "true" else "false"))
  | JNumber n => s ← check_number n; Returns (text s)
  | JString s => Returns (quote s)
  | JBigInt v => Returns (quote (pretty v))
  | JBytes bs => Returns (quote (bytesToBareHex bs))
  | JMap entries =>
    let obj := map_to_object (map (fun e => (e.1, if is_undefined e.2 then None else Some (serialize e.2))) entries) in
    parts ← members (sort_fields obj);
    Returns ("{"%char :: join_comma (map (fun p => quote p.1 ++ ":"%char :: p.2) parts) ++ ["}"%char])
  | JArray elems =>
    parts ← mapM (fun v => if is_undefined v then Returns (text "null") else serialize v) elems;
    Returns ("["%char :: join_comma parts ++ ["]"%char])
  | JObject fields =>
    let obj := map (fun e => (e.1, if is_undefined e.2 then None else Some (serialize e.2))) fields in
    parts ← members (sort_fields obj);
    Returns ("{"%char :: join_comma (map (fun p => quote p.1 ++ ":"%char :: p.2) parts) ++ ["}"%char])
  | JUndefined | JUnsupported => Throws (TypeError "canonicalJson: unsupported")
  end.

Definition canonicalJson (value : jsval) : outcome string :=
  throw_when is_undefined value with TypeError "canonicalJson: top-level undefined is not serializable" ;;
  s ← serialize value;
  Returns (String.string_of_list_ascii s).
End Serialize.

(** ** The document a text stands for *)
Inductive json :=
  | Null
  | Bool (b : bool)
  | Num (s : string)
  | Str (s : string)
  | Arr (elems : list json)
  | Obj (members : list (string * json)).

Fixpoint print (j : json) : chars :=
  match j with
  | Null => text "null"
  | Bool b => text (if b then "true" else "false")
  | Num s => text s
  | Str s => quote s
  | Arr l => "["%char :: join_comma (map print l) ++ ["]"%char]
  | Obj l => "{"%char :: join_comma (map (fun p => quote p.1 ++ ":"%char :: print p.2) l) ++ ["}"%char]
  end.

Section Normalize.
Context (NumberToString : number -> string) (numbers : numbers_policy).

(** What a value is serialized as. *)
Fixpoint normalize (value : jsval) : outcome json :=
  match value with
  | JNull => Returns Null
  | JBool b => Returns (Bool b)
  | JNumber n => s ← check_number NumberToString numbers n; Returns (Num s)
  | JString s => Returns (Str s)
  | JBigInt v => Returns (Str (pretty v))
  | JBytes bs => Returns (Str (bytesToBareHex bs))
  | JMap entries =>
    l ← members (sort_fields (map_to_object (map (fun e => (e.1, if is_undefined e.2 then None else Some (normalize e.2))) entries)));
    Returns (Obj l)
  | JArray elems => l ← mapM (fun v => if is_undefined v then Returns Null else normalize v) elems; Returns (Arr l)
  | JObject fields =>
    l ← members (sort_fields (map (fun e => (e.1, if is_undefined e.2 then None else Some (normalize e.2))) fields));
    Returns (Obj l)
  | JUndefined | JUnsupported => Throws (TypeError "canonicalJson: unsupported")
  end.
End Normalize.

(** The alphabet of a printed number. *)
Definition number_char (c : ascii) : bool :=
  let n := Ascii.nat_of_ascii c in
  ((48 <=? n) && (n <=? 57) || (n =? 43) || (n =? 45) || (n =? 46) || (n =? 101))%nat.
Definition number_text (s : string) : Prop := text s <> [] /\ Forall (fun c => number_char c = true) (text s).

(** ** Induction through lists and members *)
Section JsonInd.
Context (P : json -> Prop) (HNull : P Null) (HBool : forall b, P (Bool b)) (HNum : forall s, P (Num s)) (HStr : forall s, P (Str s))
  (HArr : forall l, Forall P l -> P (Arr l)) (HObj : forall l, Forall (fun p => P p.2) l -> P (Obj l)).

Fixpoint json_nested (j : json) : P j :=
  match j with
  | Null => HNull | Bool b => HBool b | Num s => HNum s | Str s => HStr s
  | Arr l => HArr l ((fix go l : Forall P l := match l with [] => Forall_nil_2 _ | x :: l' => Forall_cons_2 _ _ _ (json_nested x) (go l') end) l)
  | Obj l => HObj l ((fix go l : Forall (fun p => P p.2) l := match l with [] => Forall_nil_2 _ | x :: l' => Forall_cons_2 _ _ _ (json_nested x.2) (go l') end) l)
  end.
End JsonInd.

Section JsvalInd.
Context (P : jsval -> Prop) (HU : P JUndefined) (HN : P JNull) (HB : forall b, P (JBool b)) (HNum : forall n, P (JNumber n))
  (HS : forall s, P (JString s)) (HI : forall v, P (JBigInt v)) (HBy : forall bs, P (JBytes bs))
  (HM : forall l, Forall (fun e => P e.2) l -> P (JMap l)) (HA : forall l, Forall P l -> P (JArray l))
  (HO : forall l, Forall (fun e => P e.2) l -> P (JObject l)) (HX : P JUnsupported).

Fixpoint jsval_nested (v : jsval) : P v :=
  match v with
  | JUndefined => HU | JNull => HN | JBool b => HB b | JNumber n => HNum n | JString s => HS s | JBigInt v => HI v | JBytes bs => HBy bs
  | JMap l => HM l ((fix go l : Forall (fun e => P e.2) l := match l with [] => Forall_nil_2 _ | x :: l' => Forall_cons_2 _ _ _ (jsval_nested x.2) (go l') end) l)
  | JArray l => HA l ((fix go l : Forall P l := match l with [] => Forall_nil_2 _ | x :: l' => Forall_cons_2 _ _ _ (jsval_nested x) (go l') end) l)
  | JObject l => HO l ((fix go l : Forall (fun e => P e.2) l := match l with [] => Forall_nil_2 _ | x :: l' => Forall_cons_2 _ _ _ (jsval_nested x.2) (go l') end) l)
  | JUnsupported => HX
  end.
End JsvalInd.

(** ** The serializer prints the normalized document *)
Definition map_snd {A B} (f : A -> B) (l : list (string * A)) : list (string * B) := map (fun e => (e.1, f e.2)) l.

Lemma sort_fields_map {A B} (f : A -> B) l : sort_fields (map_snd f l) = map_snd f (sort_fields l).
Proof.
  unfold sort_fields, stableSort. induction l as [|x l IH]; [done|]. cbn [map_snd map foldr]. fold (map_snd f l). rewrite IH.
  generalize (foldr (sort_insert (fun x y => string_cmp x.1 y.1)) [] l) as m. intros m.
  induction m as [|y m IHm]; [done|]. cbn [map_snd map sort_insert fst]. destruct (_ <=? 0); [done|]. cbn [map]. f_equal. exact IHm.
Qed.

Lemma jsmap_set_map {A B} (f : A -> B) k v m : jsmap_set k (f v) (map_snd f m) = map_snd f (jsmap_set k v m).
Proof.
  induction m as [|[k' v'] m IH]; [done|]. cbn [map_snd map jsmap_set fst snd]. destruct (decide (k = k')); [done|].
  cbn [map fst snd]. f_equal. exact IH.
Qed.

Lemma map_to_object_map {A B} (f : A -> B) l : map_to_object (map_snd f l) = map_snd f (map_to_object l).
Proof.
  unfold map_to_object. change (@nil (string * B)) with (map_snd f []). generalize (@nil (string * A)) as m.
  induction l as [|x l IH]; intros m; [done|]. cbn [map_snd map fold_left fst snd].
  destruct (String.eqb x.1 "__proto__"); [|rewrite jsmap_set_map]; apply IH.
Qed.

Lemma map_to_object_Forall {A} (P : string * A -> Prop) l : Forall P l -> Forall P (map_to_object l).
Proof.
  unfold map_to_object. assert (G : Forall P []) by constructor. revert G. generalize (@nil (string * A)) as m.
  intros m Hm Hl. revert m Hm. induction Hl as [|[k v] l Hk _ IH]; intros m Hm; cbn [fold_left fst snd]; [done|].
  apply IH. destruct (String.eqb k "__proto__"); [done|]. by apply jsmap_set_Forall.
Qed.

Lemma members_map {A B} (f : A -> B) l :
  members (map_snd (option_map (fun m => a ← m; Returns (f a))) l) = (l' ← members l; Returns (map_snd f l')).
Proof.
  induction l as [|[k [m|]] l IH]; cbn [map_snd map members fst snd option_map]; [done| |exact IH].
  destruct m as [a|e]; cbn [mbind outcome_bind]; [|done]. unfold map_snd in IH. rewrite IH. by destruct (members l).
Qed.

Lemma mapM_map {A B C} (f : B -> C) (g : A -> outcome B) (h : A -> outcome C) l :
  Forall (fun a => h a = (b ← g a; Returns (f b))) l -> mapM h l = (bs ← mapM g l; Returns (map f bs)).
Proof.
  induction 1 as [|a l Ha _ IH]; [done|]. cbn [mapM]. rewrite Ha, IH. destruct (g a); cbn [mbind outcome_bind]; [|done].
  by destruct (mapM g l).
Qed.

Section Factor.
Context (NS : number -> string) (pol : numbers_policy).

Definition thunk {A} (f : jsval -> outcome A) (v : jsval) : option (outcome A) := if is_undefined v then None else Some (f v).

Lemma thunks_factor l : Forall (fun e => serialize NS pol e.2 = (j ← normalize NS pol e.2; Returns (print j))) l ->
  map (fun e => (e.1, thunk (serialize NS pol) e.2)) l
  = map_snd (option_map (fun m => j ← m; Returns (print j))) (map (fun e => (e.1, thunk (normalize NS pol) e.2)) l).
Proof.
  induction 1 as [|e l He _ IH]; [done|]. unfold map_snd in *. cbn [map fst snd]. f_equal; [|exact IH].
  unfold thunk. destruct (is_undefined e.2); [done|]. cbn [option_map]. by rewrite He.
Qed.

Lemma print_members l : map (fun p => quote p.1 ++ ":"%char :: p.2) (map_snd print l) = map (fun p => quote p.1 ++ ":"%char :: print p.2) l.
Proof. unfold map_snd. by rewrite map_map. Qed.

Lemma serialize_normalize v : serialize NS pol v = (j ← normalize NS pol v; Returns (print j)).
Proof.
  induction v as [| |b|n|s|v|bs|l IH|l IH|l IH|] using jsval_nested; try done.
  - cbn [serialize normalize]. by destruct (check_number NS pol n).
  - cbn [serialize normalize]. change (fun e : string * jsval => (e.1, if is_undefined e.2 then None else Some (serialize NS pol e.2))) with (fun e : string * jsval => (e.1, thunk (serialize NS pol) e.2)).
    rewrite thunks_factor, map_to_object_map, sort_fields_map, members_map by done. unfold thunk.
    destruct (members _) as [l'|e]; cbn [mbind outcome_bind]; [|done]. by rewrite print_members.
  - cbn [serialize normalize]. rewrite (mapM_map print (fun v => if is_undefined v then Returns Null else normalize NS pol v)).
    + by destruct (mapM _ l).
    + eapply Forall_impl; [exact IH|]. intros v Hv. cbn beta. by destruct (is_undefined v).
  - cbn [serialize normalize]. change (fun e : string * jsval => (e.1, if is_undefined e.2 then None else Some (serialize NS pol e.2))) with (fun e : string * jsval => (e.1, thunk (serialize NS pol) e.2)).
    rewrite thunks_factor, sort_fields_map, members_map by done. unfold thunk.
    destruct (members _) as [l'|e]; cbn [mbind outcome_bind]; [|done]. by rewrite print_members.
Qed.
End Factor.

(** ** Reading a text back *)
Definition delim_char (c : ascii) : bool := bool_decide (c ∈ [","; "]"; "}"; ":"]%char).
Definition delim (r : chars) : Prop := match r with [] => True | c :: _ => delim_char c = true end.
Definition starts (l : chars) : Prop := match l with [] => False | c :: _ => delim_char c = false end.

(** One string character off a text: [None] at the closing quote. *)
Definition unescape (l : chars) : option (option ascii * chars) :=
  match l with
  | [] => None
  | c :: r =>
    if Ascii.eqb c dquote then Some (None, r)
    else if negb (Ascii.eqb c "\"%char) then Some (Some c, r)
    else match r with
    | [] => None
    | d :: r' =>
      if Ascii.eqb d "u"%char then
        match r' with
        | _ :: _ :: h :: l :: r'' =>
          Some (Some (Ascii.ascii_of_nat (Z.to_nat (16 * default 0 (hex_value h) + default 0 (hex_value l)))), r'')
        | _ => None
        end
      else Some (Some (if Ascii.eqb d "b"%char then "008"%char else if Ascii.eqb d "t"%char then "009"%char
             else if Ascii.eqb d "n"%char then "010"%char else if Ascii.eqb d "f"%char then "012"%char
             else if Ascii.eqb d "r"%char then "013"%char else d), r')
    end
  end.

Lemma unescape_escape c r : unescape (escape_char c ++ r) = Some (Some c, r).
Proof. destruct c as [[] [] [] [] [] [] [] []]; reflexivity. Qed.

Lemma quote_inj s t r1 r2 : quote s ++ r1 = quote t ++ r2 -> s = t /\ r1 = r2.
Proof.
  unfold quote. cbn [app]. intros [= E]. rewrite <- !app_assoc in E. cbn [app] in E.
  assert (G : text s = text t /\ r1 = r2).
  { revert E. generalize (text s) (text t). intros a. induction a as [|c a IH]; intros [|d b] E.
    - cbn in E. injection E as E. done.
    - rewrite bind_cons, <- app_assoc in E. apply (f_equal unescape) in E. rewrite unescape_escape in E. discriminate E.
    - rewrite bind_cons, <- app_assoc in E. apply (f_equal unescape) in E. rewrite unescape_escape in E. discriminate E.
    - rewrite !bind_cons, <- !app_assoc in E. apply (f_equal unescape) in E. rewrite !unescape_escape in E.
      injection E as -> E. apply IH in E as [-> ->]. done. }
  destruct G as [G ->]. split; [|done].
  rewrite <- (String.string_of_list_ascii_of_string s), <- (String.string_of_list_ascii_of_string t). by rewrite G.
Qed.

(** The tail of a joined list: each part after a comma, then the closer. *)
Definition rest_of (e : ascii) (r : chars) (parts : list chars) : chars := foldr (fun p acc => ","%char :: p ++ acc) (e :: r) parts.

Lemma join_rest p parts e r : join_comma (p :: parts) ++ e :: r = p ++ rest_of e r parts.
Proof.
  revert p. induction parts as [|q parts IH]; intros p; [done|]. change (join_comma (p :: q :: parts)) with (p ++ ","%char :: join_comma (q :: parts)).
  rewrite <- app_assoc. cbn [app rest_of foldr]. by rewrite IH.
Qed.

Lemma rest_of_delim e r parts : delim_char e = true -> delim (rest_of e r parts).
Proof. intros He. by destruct parts. Qed.

Section JoinInj.
Context {A : Type} (pr : A -> chars) (Q : A -> Prop) (e : ascii) (He : delim_char e = true) (Hc : e <> ","%char).

Definition cancels (x : A) : Prop := forall y r1 r2, Q y -> delim r1 -> delim r2 -> pr x ++ r1 = pr y ++ r2 -> x = y /\ r1 = r2.

Lemma rest_inj l1 l2 r1 r2 : Forall cancels l1 -> Forall Q l2 ->
  rest_of e r1 (map pr l1) = rest_of e r2 (map pr l2) -> l1 = l2 /\ r1 = r2.
Proof.
  intros H1. revert l2. induction H1 as [|x l1 Hx _ IH]; intros [|y l2] H2 E; cbn [map rest_of foldr] in E.
  - by injection E as <-.
  - injection E as E _. done.
  - injection E as E _. done.
  - injection E as E. inversion_clear H2. apply Hx in E as [-> E]; [|done|by apply rest_of_delim..].
    by apply IH in E as [-> ->].
Qed.

Lemma join_inj l1 l2 r1 r2 : Forall cancels l1 -> Forall Q l2 -> Forall (fun x => starts (pr x)) l1 -> Forall (fun x => starts (pr x)) l2 ->
  join_comma (map pr l1) ++ e :: r1 = join_comma (map pr l2) ++ e :: r2 -> l1 = l2 /\ r1 = r2.
Proof.
  intros H1 H2 S1 S2 E. destruct l1 as [|x l1], l2 as [|y l2]; cbn [map] in E; rewrite ?join_rest in E.
  - by injection E as <-.
  - exfalso. inversion_clear S2 as [|? ? Sy _]. destruct (pr y) as [|c p]; [done|]. cbn in E, Sy. injection E as <- _. congruence.
  - exfalso. inversion_clear S1 as [|? ? Sx _]. destruct (pr x) as [|c p]; [done|]. cbn in E, Sx. injection E as -> _. congruence.
  - inversion_clear H1 as [|? ? Hx H1']. inversion_clear H2 as [|? ? Hy H2'].
    apply Hx in E as [-> E]; [|done|by apply rest_of_delim..]. by apply rest_inj in E as [-> ->].
Qed.
End JoinInj.

Fixpoint json_ok (j : json) : Prop :=
  match j with
  | Num s => number_text s
  | Arr l => foldr (fun x acc => json_ok x /\ acc) True l
  | Obj l => foldr (fun p acc => json_ok p.2 /\ acc) True l
  | _ => True
  end.

Lemma arr_ok l : json_ok (Arr l) <-> Forall json_ok l.
Proof. cbn [json_ok]. induction l as [|x l IH]; cbn [foldr]; [split; [constructor|done]|]. by rewrite Forall_cons, IH. Qed.

Lemma obj_ok l : json_ok (Obj l) <-> Forall (fun p => json_ok p.2) l.
Proof. cbn [json_ok]. induction l as [|x l IH]; cbn [foldr]; [split; [constructor|done]|]. by rewrite Forall_cons, IH. Qed.

Lemma number_not_delim c : number_char c = true -> delim_char c = false.
Proof. destruct c as [[] [] [] [] [] [] [] []]; vm_compute; congruence. Qed.

Lemma print_starts j : json_ok j -> starts (print j).
Proof.
  destruct j as [|[]|s|s|l|l]; intros Hj; try done. cbn [print]. destruct Hj as [Hne Hf].
  destruct (text s) as [|c r]; [done|]. inversion_clear Hf. by apply number_not_delim.
Qed.

Lemma number_inj a b r1 r2 : Forall (fun c => number_char c = true) a -> Forall (fun c => number_char c = true) b ->
  delim r1 -> delim r2 -> a ++ r1 = b ++ r2 -> a = b /\ r1 = r2.
Proof.
  intros Ha. revert b. induction Ha as [|c a Hc _ IH]; intros [|d b] Hb D1 D2 E; cbn [app] in E.
  - done.
  - exfalso. subst r1. inversion_clear Hb as [|? ? Hd _]. apply number_not_delim in Hd. cbn in D1. congruence.
  - exfalso. subst r2. apply number_not_delim in Hc. cbn in D2. congruence.
  - injection E as -> E. inversion_clear Hb. destruct (IH b) as [-> ->]; done.
Qed.

Lemma num_head s c r r' : number_text s -> text s ++ r = c :: r' -> number_char c = true.
Proof. intros [Hne Hf] E. destruct (text s) as [|d l]; [done|]. cbn in E. injection E as -> _. by inversion Hf. Qed.

(** Printed documents are uniquely readable. *)
Lemma print_inj v : json_ok v -> cancels print json_ok v.
Proof.
  induction v as [|b|s|s|l IH|l IH] using json_nested; intros Hv w r1 r2 Hw D1 D2 E;
    destruct w as [|b'|s'|s'|l'|l']; cbn [print] in E;
    try (destruct b); try (destruct b'); try discriminate E;
    try (apply num_head in E; [discriminate E|done]);
    try (symmetry in E; apply num_head in E; [discriminate E|done]);
    try (by injection E as E).
  - destruct Hv as [_ Hv], Hw as [_ Hw]. apply number_inj in E as [E ->]; [|done..]. split; [|done]. f_equal.
    rewrite <- (String.string_of_list_ascii_of_string s), <- (String.string_of_list_ascii_of_string s'). by rewrite E.
  - apply quote_inj in E as [-> ->]. done.
  - apply arr_ok in Hv, Hw. cbn [app] in E. injection E as E. rewrite <- !app_assoc in E. cbn [app] in E.
    apply (join_inj print json_ok) in E as [-> ->]; try done.
    + rewrite Forall_forall in *. intros x Hx. by apply IH, Hv.
    + eapply Forall_impl; [exact Hv|]. apply print_starts.
    + eapply Forall_impl; [exact Hw|]. apply print_starts.
  - apply obj_ok in Hv, Hw. cbn [app] in E. injection E as E. rewrite <- !app_assoc in E. cbn [app] in E.
    apply (join_inj (fun p => quote p.1 ++ ":"%char :: print p.2) (fun p => json_ok p.2)) in E as [-> ->]; try done.
    + rewrite Forall_forall in *. intros [k x] Hx [k' y] r r' Hy Dr Dr' E'. cbn [fst snd] in *. rewrite <- !app_assoc in E'. cbn [app] in E'.
      apply quote_inj in E' as [-> E']. injection E' as E'. pose proof (IH (k', x) Hx (Hv (k', x) Hx)) as Hc. cbn [snd] in Hc.
      apply Hc in E' as [-> ->]; done.
    + by apply Forall_true.
    + by apply Forall_true.
Qed.

(** ** Properties *)
Section Canonical.
(** Documented behaviour of [Number::toString]: a finite number prints as a
    non-empty text of digits, signs, a point and an exponent. *)
Context (NS : number -> string) (HNS : forall n, is_finite n = true -> number_text (NS n)).

Lemma members_ok l ms : Forall (fun f => forall m, f.2 = Some m -> forall j, m = Returns j -> json_ok j) l ->
  members l = Returns ms -> Forall (fun p => json_ok p.2) ms.
Proof.
  intros H. revert ms. induction H as [|[k [m|]] l Hf _ IH]; intros ms E; cbn [members] in E; [by injection E as <-| |by apply IH].
  apply bind_Returns in E as (a & Ea & E). apply bind_Returns in E as (l' & El & [= <-]). constructor; [by eapply Hf|by apply IH].
Qed.

Lemma normalize_ok pol v j : normalize NS pol v = Returns j -> json_ok j.
Proof.
  revert j. induction v as [| |b|n|s|v|bs|l IH|l IH|l IH|] using jsval_nested; intros j E; cbn [normalize] in E; try (by injection E as <-); try done.
  - apply bind_Returns in E as (s & Es & [= <-]). unfold check_number in Es. apply bind_Returns in Es as (u & Hf & Es).
    apply throw_if_Returns, negb_false_iff in Hf. apply bind_Returns in Es as (u' & _ & [= <-]). by apply HNS.
  - apply bind_Returns in E as (ms & E & [= <-]). apply obj_ok. eapply members_ok; [|exact E]. unfold sort_fields. rewrite stableSort_perm.
    apply map_to_object_Forall, Forall_map. eapply Forall_impl; [exact IH|]. intros e He m Hm. cbn [snd] in Hm.
    destruct (is_undefined e.2); [done|]. injection Hm as <-. apply He.
  - apply bind_Returns in E as (js & E & [= <-]). apply arr_ok. revert js E. induction IH as [|x l Hx _ IHl]; intros js E; cbn [mapM] in E.
    + by injection E as <-.
    + apply bind_Returns in E as (a & Ea & E). apply bind_Returns in E as (js' & Ej & [= <-]). constructor; [|by apply IHl].
      destruct (is_undefined x); [by injection Ea as <-|by apply Hx].
  - apply bind_Returns in E as (ms & E & [= <-]). apply obj_ok. eapply members_ok; [|exact E]. unfold sort_fields. rewrite stableSort_perm.
    apply Forall_map. eapply Forall_impl; [exact IH|]. intros e He m Hm. cbn [snd] in Hm. destruct (is_undefined e.2); [done|]. injection Hm as <-. apply He.
Qed.

(** C39. The text determines the document: two values with the same canonical
    JSON, under any two number policies, normalize to the same document, so
    a hash of the text commits to it; and values that normalize alike have
    the same text. *)
Theorem canonicalJson_injective (pol pol' : numbers_policy) (v w : jsval) (s t : string) :
  canonicalJson NS pol v = Returns s -> canonicalJson NS pol' w = Returns t ->
  exists j k, normalize NS pol v = Returns j /\ normalize NS pol' w = Returns k /\ (s = t <-> j = k).
Proof.
  unfold canonicalJson. intros Hs Ht. apply bind_Returns in Hs as (u1 & _ & Hs). apply bind_Returns in Ht as (u2 & _ & Ht).
  rewrite serialize_normalize in Hs, Ht.
  destruct (normalize NS pol v) as [j|] eqn:Ej; [|done]. destruct (normalize NS pol' w) as [k|] eqn:Ek; [|done].
  cbn [mbind outcome_bind] in Hs, Ht. injection Hs as <-. injection Ht as <-. exists j, k. split; [done|]. split; [done|].
  split; [|by intros ->]. intros E. apply (f_equal String.list_ascii_of_string) in E. rewrite !String.list_ascii_of_string_of_list_ascii in E.
  apply normalize_ok in Ej, Ek. apply (print_inj j Ej k [] []); [done..|]. by rewrite !app_nil_r.
Qed.

(** Insertion order is immaterial: an object whose members are listed in
    another order has the same canonical JSON, or fails the same way. *)
Theorem canonicalJson_key_order (pol : numbers_policy) (f1 f2 : list (string * jsval)) :
  f1 ≡ₚ f2 -> NoDup f1.*1 -> canonicalJson NS pol (JObject f1) = canonicalJson NS pol (JObject f2).
Proof.
  intros Hp Hnd. unfold canonicalJson. cbn [is_undefined throw_if mbind outcome_bind serialize].
  set (g := fun e : string * jsval => (e.1, if is_undefined e.2 then None else Some (serialize NS pol e.2))).
  assert (E : sort_fields (map g f1) = sort_fields (map g f2)); [|by rewrite E].
  unfold sort_fields. apply stableSort_unique.
  - constructor; [intros a b; apply cmp_total|intros a b c; apply cmp_trans].
  - by rewrite Hp.
  - intros a b Ha Hb H1 H2. pose proof (string_cmp_antisym _ _ H1 H2) as Ek.
    apply list_elem_of_fmap in Ha as ([k x] & -> & Ha). apply list_elem_of_fmap in Hb as ([k' y] & -> & Hb). cbn in Ek. subst k'.
    apply jsmap_get_elem in Ha, Hb; [|done..]. congruence.
Qed.
End Canonical.

(** ** Witnesses *)
(** A printer for integral doubles, enough for the example documents. *)
Definition int_printer (n : number) : string := match math_floor n with Some (Zpos p) => pretty (Npos p) | _ => "0" end.

Lemma digit_number_char n : (n < 10)%N -> number_char (pretty_N_char n) = true.
Proof. intros H. unfold pretty_N_char. destruct n as [|p]; [reflexivity|]. do 4 (destruct p; try reflexivity; try lia). Qed.

Lemma pretty_N_go_chars x s : Forall (fun c => number_char c = true) (text s) -> text s <> [] \/ (0 < x)%N ->
  text (pretty_N_go x s) <> [] /\ Forall (fun c => number_char c = true) (text (pretty_N_go x s)).
Proof.
  revert s. induction (N.lt_wf_0 x) as [x _ IH]. intros s Hs Hne. destruct (decide (0 < x)%N) as [Hx|Hx].
  - rewrite pretty_N_go_step by done. apply IH; [apply N.div_lt; lia| |left; done].
    cbn. constructor; [apply digit_number_char, N.mod_lt; lia|done].
  - assert (x = 0%N) as -> by lia. rewrite pretty_N_go_0. destruct Hne; [done|lia].
Qed.

Lemma int_printer_ok n : is_finite n = true -> number_text (int_printer n).
Proof.
  intros _. unfold int_printer. destruct (math_floor n) as [[|p|p]|]; try (split; [done|repeat constructor]).
  unfold pretty, pretty_N. rewrite decide_False by done. apply pretty_N_go_chars; [constructor|right; lia].
Qed.

(** A work-policy like document, with its members in two orders. *)
Definition doc_1 : jsval :=
  JObject [("version", JNumber (of_Z 3)); ("lane", JNumber (of_Z 2)); ("note", JUndefined);
           ("tiers", JArray [JBigInt 25; JString "25"; JUndefined])]%string.
Definition doc_2 : jsval :=
  JMap [("lane", JNumber (of_Z 2)); ("tiers", JArray [JString "25"; JBigInt 25; JNull]); ("version", JNumber (of_Z 3))]%string.

Example canonical_doc : canonicalJson int_printer safe_integer doc_1 = canonicalJson int_printer finite doc_2.
Proof. vm_compute. reflexivity. Qed.

Lemma canonicalJson_injective_witness : exists j k,
  normalize int_printer safe_integer doc_1 = Returns j /\ normalize int_printer finite doc_2 = Returns k /\ j = k.
Proof.
  destruct (canonicalJson int_printer safe_integer doc_1) as [s|e] eqn:E1; [|vm_compute in E1; discriminate E1].
  destruct (canonicalJson_injective int_printer int_printer_ok safe_integer finite doc_1 doc_2 s s E1) as (j & k & H1 & H2 & H3).
  - rewrite <- E1. vm_compute. reflexivity.
  - exists j, k. split; [exact H1|]. split; [exact H2|]. apply H3. reflexivity.
Defined.

Lemma canonicalJson_key_order_witness :
  canonicalJson int_printer finite (JObject [("b", JNull); ("a", JBool true)]%string)
  = canonicalJson int_printer finite (JObject [("a", JBool true); ("b", JNull)]%string).
Proof.
  apply canonicalJson_key_order; [apply Permutation_swap|]. apply (bool_decide_unpack _). vm_compute. exact I.
Defined.

(** A map entry under [__proto__] leaves no trace in the text. *)
Lemma proto_entry_lost : canonicalJson int_printer finite (JMap [("__proto__", JBytes [1]); ("a", JBytes [2])]%string)
  = canonicalJson int_printer finite (JMap [("a", JBytes [2])]%string).
Proof. vm_compute. reflexivity. Qed.
