(* ===== verification/WorkUnits.v ===== *)
(** * Work-credit policy (packages/coretex/src/rewards/work-units.ts)

    The work units a receipt earns, the screener threshold controller and
    the qualification gate, over the policy's numeric fields as the source
    accepts them (bigint, number or decimal string). Theorems: the policy
    check implies sane tiers, the units of an advance are those of its tier
    and monotone in the counter, the threshold stays in its band and reacts
    monotonically to noise and probes, and qualification implies the
    threshold was met. *)
From Stdlib Require Import Ascii.
From S2P Require Import Prelude SlotPolicy.

(** [string | bigint | number]; a number is an integer or not a safe integer at all. *)
Inductive Numeric :=
  | NBig (v : Z)
  | NNum (v : Z)
  | NNotInteger
  | NStr (s : string).

Definition WORK_BPS_DIVISOR : Z := 10000.
Definition LANE_CORETEX : Z := 2.
Definition OUTCOME_CORETEX_SCREENER_PASS : Z := 1.
Definition OUTCOME_CORETEX_STATE_ADVANCE : Z := 2.
Definition CORTEX_RULES_VERSION : Z := 0xC0.

Record StateAdvanceWorkTier := mkTier {
  minQualifiedScreenerPassesSinceLastStateAdvance : Numeric;
  tier_workUnitsBps : Numeric
}.

Record Calibration := mkCalibration {
  scoreScalePpm : Numeric;
  minDeltaPpm : Numeric;
  remainingHeadroomBps : Numeric;
  noiseFloorMultiplierBps : Numeric;
  plateauEasingMaxBps : Numeric;
  stateAdvanceThresholdFloorBps : option Numeric;
  antiGamingProbeMultiplierBps : Numeric;
  maxAntiGamingPenaltyBps : Numeric;
  maxThresholdPpm : Numeric
}.

Record ScreenerPassPolicy := mkScreener {
  sp_outcome : Z;
  sp_minLocalModelDeltaPpm : Numeric;
  maxRelevantNearCollisionPpm : Numeric;
  sp_workUnitsBps : Numeric;
  calibration : Calibration
}.

Record StateAdvancePolicy := mkAdvance {
  sa_outcome : Z;
  minDeterministicDeltaPpm : Numeric;
  sa_minLocalModelDeltaPpm : Numeric;
  requireLiveStateAdvance : bool;
  tiers : list StateAdvanceWorkTier
}.

(** The fields the functions read ([antiGaming] and [difficultyCounter] are declarative only). *)
Record CoreTexWorkPolicy := mkPolicy {
  policy_name : string;
  version : Z;
  rulesVersion : Z;
  lane : Z;
  bpsDivisor : Numeric;
  screenerPass : ScreenerPassPolicy;
  stateAdvance : StateAdvancePolicy
}.

Definition DEFAULT_CORETEX_WORK_POLICY : CoreTexWorkPolicy :=
  mkPolicy "botcoin-coretex-work-policy" 3 CORTEX_RULES_VERSION LANE_CORETEX (NStr "10000")
    (mkScreener OUTCOME_CORETEX_SCREENER_PASS (NStr "0") (NStr "250000") (NStr "10000")
      (mkCalibration (NStr "1000000") (NStr "50") (NStr "5") (NStr "20000") (NStr "5000") (Some (NStr "5000"))
         (NStr "20000") (NStr "50000") (NStr "150000")))
    (mkAdvance OUTCOME_CORETEX_STATE_ADVANCE (NStr "1") (NStr "0") true
      [mkTier (NStr "0") (NStr "30000"); mkTier (NStr "25") (NStr "40000"); mkTier (NStr "100") (NStr "60000");
       mkTier (NStr "250") (NStr "90000"); mkTier (NStr "500") (NStr "120000")]).

(** ** Numeric conversion *)
Definition digit_value (c : ascii) : option Z :=
  let n := Z.of_nat (Ascii.nat_of_ascii c) in
  if (48 <=? n) && (n <=? 57) then Some (n - 48) else None.

(** A decimal string without leading zeros, as the source's pattern requires, and its [BigInt]. *)
Definition parse_decimal (s : string) : option Z :=
  match String.list_ascii_of_string s with
  | [] => None
  | c :: cs =>
    ds ← mapM digit_value (c :: cs);
    if Ascii.eqb c "0"%char && negb (length cs =? 0)%nat then None
    else Some (fold_left (fun acc d => acc * 10 + d) ds 0)
  end.

Definition toBigInt (value : Numeric) : outcome Z :=
  match value with
  | NBig v => _ ← throw_if (v <? 0) (RangeError "must be non-negative"); Returns v
  | NNum v => _ ← throw_if (negb (isSafeInteger v) || (v <? 0)) (RangeError "must be a non-negative safe integer"); Returns v
  | NNotInteger => Throws (RangeError "must be a non-negative safe integer")
  | NStr s => match parse_decimal s with
              | Some v => Returns v
              | None => Throws (RangeError "must be a non-negative decimal string")
              end
  end.

(** The same with an optional minus sign. *)
Definition toSignedBigInt (value : Numeric) : outcome Z :=
  match value with
  | NBig v => Returns v
  | NNum v => _ ← throw_if (negb (isSafeInteger v)) (RangeError "must be a safe integer"); Returns v
  | NNotInteger => Throws (RangeError "must be a safe integer")
  | NStr s =>
    let r := match s with
             | String "-" s' => Z.opp <$> parse_decimal s'
             | _ => parse_decimal s
             end in
    match r with Some v => Returns v | None => Throws (RangeError "must be a signed decimal string") end
  end.

Definition bmin (a b : Z) : Z := if a <? b then a else b.
Definition bmax (a b : Z) : Z := if b <? a then a else b.
Definition clamp (value lo hi : Z) : Z := bmin (bmax value lo) hi.
Definition ceilDiv (numerator denominator : Z) : outcome Z :=
  _ ← throw_if (denominator <=? 0) (RangeError "ceilDiv denominator must be positive");
  Returns (Z.quot (numerator + denominator - 1) denominator).

(** [value ?? 0n] for an optional field *)
Definition or0 (v : option Numeric) : Numeric := default (NBig 0) v.

(** ** The policy check *)
Fixpoint check_tiers (tiers : list StateAdvanceWorkTier) (prevMin prevBps : Z) : outcome unit :=
  match tiers with
  | [] => Returns tt
  | tier :: tiers' =>
    min ← toBigInt (minQualifiedScreenerPassesSinceLastStateAdvance tier);
    bps ← toBigInt (tier_workUnitsBps tier);
    _ ← throw_if (min <=? prevMin) (RangeError "stateAdvance.tiers must have strictly increasing min counts");
    _ ← throw_if (bps <? 3 * WORK_BPS_DIVISOR) (RangeError "state advance must be at least 3x");
    _ ← throw_if (bps <? prevBps) (RangeError "stateAdvance.tiers bps must be nondecreasing");
    check_tiers tiers' min bps
  end.

Definition assertValidCoreTexWorkPolicy (policy : CoreTexWorkPolicy) : outcome unit :=
  _ ← throw_if (String.eqb (policy_name policy) "") (RangeError "policy.name is required");
  _ ← throw_if (version policy <=? 0) (RangeError "policy.version must be positive");
  _ ← throw_if (negb (rulesVersion policy =? CORTEX_RULES_VERSION)) (RangeError "policy.rulesVersion must be 0xC0");
  _ ← throw_if (negb (lane policy =? LANE_CORETEX)) (RangeError "policy.lane must be CoreTex");
  div ← toBigInt (bpsDivisor policy);
  _ ← throw_if (negb (div =? WORK_BPS_DIVISOR)) (RangeError "policy.bpsDivisor must be 10000");
  _ ← throw_if (negb (sp_outcome (screenerPass policy) =? OUTCOME_CORETEX_SCREENER_PASS))
        (RangeError "policy.screenerPass.outcome must be 1");
  let calibration := calibration (screenerPass policy) in
  scoreScale ← toBigInt (scoreScalePpm calibration);
  minDelta ← toBigInt (minDeltaPpm calibration);
  maxThreshold ← toBigInt (maxThresholdPpm calibration);
  plateau ← toBigInt (plateauEasingMaxBps calibration);
  floorBps ← toBigInt (or0 (stateAdvanceThresholdFloorBps calibration));
  maxPenalty ← toBigInt (maxAntiGamingPenaltyBps calibration);
  _ ← throw_if (negb (scoreScale =? 1000000)) (RangeError "scoreScalePpm must be 1000000");
  _ ← throw_if (minDelta <? 10) (RangeError "screener minimum delta is too low");
  _ ← throw_if (maxThreshold <? minDelta) (RangeError "screener max threshold must be >= min delta");
  headroom ← toBigInt (remainingHeadroomBps calibration);
  _ ← throw_if (headroom =? 0) (RangeError "remainingHeadroomBps must be positive");
  noise ← toBigInt (noiseFloorMultiplierBps calibration);
  _ ← throw_if (noise <? WORK_BPS_DIVISOR) (RangeError "noiseFloorMultiplierBps must be at least 1x");
  _ ← throw_if (WORK_BPS_DIVISOR <? plateau) (RangeError "plateauEasingMaxBps must be <= 10000");
  _ ← throw_if (WORK_BPS_DIVISOR <? floorBps) (RangeError "stateAdvanceThresholdFloorBps must be <= 10000");
  probe ← toBigInt (antiGamingProbeMultiplierBps calibration);
  _ ← throw_if (probe =? 0) (RangeError "antiGamingProbeMultiplierBps must be positive");
  _ ← throw_if (10 * WORK_BPS_DIVISOR <? maxPenalty) (RangeError "maxAntiGamingPenaltyBps must be <= 100000");
  _ ← throw_if (negb (sa_outcome (stateAdvance policy) =? OUTCOME_CORETEX_STATE_ADVANCE))
        (RangeError "policy.stateAdvance.outcome must be 2");
  screenerBps ← toBigInt (sp_workUnitsBps (screenerPass policy));
  _ ← throw_if (negb (screenerBps =? WORK_BPS_DIVISOR)) (RangeError "screener pass must stay exactly 1x");
  _ ← throw_if (length (tiers (stateAdvance policy)) =? 0)%nat (RangeError "stateAdvance.tiers must not be empty");
  _ ← check_tiers (tiers (stateAdvance policy)) (-1) 0;
  match tiers (stateAdvance policy) with
  | [] => Throws (TypeError "tiers[0] is undefined")
  | t0 :: _ =>
    min0 ← toBigInt (minQualifiedScreenerPassesSinceLastStateAdvance t0);
    throw_if (negb (min0 =? 0)) (RangeError "first stateAdvance tier must start at 0")
  end.

(** ** Work units *)
Fixpoint select_tier (tiers : list StateAdvanceWorkTier) (count selected : Z) : outcome Z :=
  match tiers with
  | [] => Returns selected
  | tier :: tiers' =>
    min ← toBigInt (minQualifiedScreenerPassesSinceLastStateAdvance tier);
    if min <=? count then
      bps ← toBigInt (tier_workUnitsBps tier);
      select_tier tiers' count bps
    else select_tier tiers' count selected
  end.

Definition computeCoreTexWorkUnitsBps (out : Z) (passes : option Numeric) (opt_policy : option CoreTexWorkPolicy)
  : outcome Z :=
  let policy := default DEFAULT_CORETEX_WORK_POLICY opt_policy in
  _ ← assertValidCoreTexWorkPolicy policy;
  if out =? sp_outcome (screenerPass policy) then toBigInt (sp_workUnitsBps (screenerPass policy))
  else
    _ ← throw_if (negb (out =? sa_outcome (stateAdvance policy))) (RangeError "unknown CoreTex outcome");
    count ← toBigInt (or0 passes);
    match tiers (stateAdvance policy) with
    | [] => Throws (TypeError "tiers[0] is undefined")
    | t0 :: _ =>
      selected ← toBigInt (tier_workUnitsBps t0);
      select_tier (tiers (stateAdvance policy)) count selected
    end.

(** ** The screener threshold *)
Record ThresholdInput := mkThresholdInput {
  baselineScorePpm : option Numeric;
  recentNoiseFloorPpm : option Numeric;
  recentScreenerPasses : option Numeric;
  recentStateAdvances : option Numeric;
  targetStateAdvances : option Numeric;
  recentProbePassRatePpm : option Numeric;
  stateAdvanceThresholdPpm : option Numeric
}.

Definition computeCoreTexScreenerThresholdPpm (input : ThresholdInput) (opt_policy : option CoreTexWorkPolicy) : outcome Z :=
  let policy := default DEFAULT_CORETEX_WORK_POLICY opt_policy in
  _ ← assertValidCoreTexWorkPolicy policy;
  let calibration := calibration (screenerPass policy) in
  scale ← toBigInt (scoreScalePpm calibration);
  baseline0 ← toBigInt (or0 (baselineScorePpm input));
  let baseline := clamp baseline0 0 scale in
  let remaining := scale - baseline in
  minDelta ← toBigInt (minDeltaPpm calibration);
  headroomBps ← toBigInt (remainingHeadroomBps calibration);
  let headroomDelta := Z.quot (remaining * headroomBps) WORK_BPS_DIVISOR in
  noise ← toBigInt (or0 (recentNoiseFloorPpm input));
  noiseMul ← toBigInt (noiseFloorMultiplierBps calibration);
  let noiseDelta := Z.quot (noise * noiseMul) WORK_BPS_DIVISOR in
  stateAdvanceFloorBps ← toBigInt (or0 (stateAdvanceThresholdFloorBps calibration));
  _ ← throw_if ((0 <? stateAdvanceFloorBps) && bool_decide (stateAdvanceThresholdPpm input = None))
        (RangeError "stateAdvanceThresholdPpm is required when stateAdvanceThresholdFloorBps is enabled");
  stateAdvanceThreshold ← toBigInt (or0 (stateAdvanceThresholdPpm input));
  _ ← throw_if ((0 <? stateAdvanceFloorBps) && (stateAdvanceThreshold <=? 0))
        (RangeError "stateAdvanceThresholdPpm must be positive when stateAdvanceThresholdFloorBps is enabled");
  stateAdvanceFloorDelta ←
    (if (0 <? stateAdvanceThreshold) && (0 <? stateAdvanceFloorBps)
     then ceilDiv (stateAdvanceThreshold * stateAdvanceFloorBps) WORK_BPS_DIVISOR
     else Returns 0);
  plateauMax ← toBigInt (plateauEasingMaxBps calibration);
  target ← toBigInt (or0 (targetStateAdvances input));
  adjustedHeadroomDelta ←
    (if 0 <? target then
       recent0 ← toBigInt (or0 (recentStateAdvances input));
       let recent := bmin recent0 target in
       passes ← toBigInt (or0 (recentScreenerPasses input));
       let gap := target - recent in
       let supportedGap := bmin passes gap in
       let easingBps := bmin plateauMax (Z.quot (plateauMax * supportedGap) target) in
       Returns (Z.quot (headroomDelta * (WORK_BPS_DIVISOR - easingBps)) WORK_BPS_DIVISOR)
     else Returns headroomDelta);
  probe0 ← toBigInt (or0 (recentProbePassRatePpm input));
  let probePassRate := clamp probe0 0 scale in
  maxPenalty ← toBigInt (maxAntiGamingPenaltyBps calibration);
  probeMul ← toBigInt (antiGamingProbeMultiplierBps calibration);
  let antiGamingPenaltyBps := bmin maxPenalty (Z.quot (probePassRate * probeMul) scale) in
  maxThreshold ← toBigInt (maxThresholdPpm calibration);
  let rawThreshold := bmax (bmax minDelta stateAdvanceFloorDelta) (bmax adjustedHeadroomDelta noiseDelta) in
  let penalizedThreshold := Z.quot (rawThreshold * (WORK_BPS_DIVISOR + antiGamingPenaltyBps)) WORK_BPS_DIVISOR in
  let dynamicCeiling := if 0 <? stateAdvanceThreshold then bmin maxThreshold stateAdvanceThreshold else maxThreshold in
  Returns (bmin penalizedThreshold dynamicCeiling).

(** ** Qualification *)
Inductive QualificationReason :=
  | OK | W01_UNKNOWN_OUTCOME | W02_STALE_PARENT | W03_DETERMINISTIC_DELTA_TOO_LOW
  | W04_LOCAL_MODEL_REGRESSION | W05_RELEVANT_NEAR_COLLISION | W06_STATE_NOT_ADVANCED.

Record CoreTexWorkQualification := mkQual {
  qualified : bool;
  reason : QualificationReason;
  q_workUnitsBps : Z;
  requiredDeterministicDeltaPpm : Z
}.

Record QualificationInput := mkQualInput {
  q_outcome : Z;
  q_passes : option Numeric;
  deterministicDeltaPpm : Numeric;
  q_threshold : ThresholdInput;
  localModelDeltaPpm : option Numeric;
  relevantNearCollisionPpm : option Numeric;
  parentMatchesLiveRoot : bool;
  liveStateAdvanced : bool
}.

Definition evaluateCoreTexWorkQualification (input : QualificationInput) (opt_policy : option CoreTexWorkPolicy)
  : outcome CoreTexWorkQualification :=
  let policy := default DEFAULT_CORETEX_WORK_POLICY opt_policy in
  _ ← assertValidCoreTexWorkPolicy policy;
  if negb (q_outcome input =? sp_outcome (screenerPass policy)) && negb (q_outcome input =? sa_outcome (stateAdvance policy))
  then Returns (mkQual false W01_UNKNOWN_OUTCOME 0 0)
  else if negb (parentMatchesLiveRoot input) then Returns (mkQual false W02_STALE_PARENT 0 0)
  else
    deterministicDelta ← toSignedBigInt (deterministicDeltaPpm input);
    localModelDelta ← toSignedBigInt (or0 (localModelDeltaPpm input));
    let isStateAdvance := q_outcome input =? sa_outcome (stateAdvance policy) in
    screenerThreshold ← computeCoreTexScreenerThresholdPpm (q_threshold input) (Some policy);
    stateAdvanceThreshold ←
      (match stateAdvanceThresholdPpm (q_threshold input) with Some v => toBigInt v | None => Returns 0 end);
    minDeterministic ←
      (if isStateAdvance then
         m ← toBigInt (minDeterministicDeltaPpm (stateAdvance policy));
         Returns (bmax (bmax m screenerThreshold) stateAdvanceThreshold)
       else Returns screenerThreshold);
    minLocal ← toBigInt (if isStateAdvance then sa_minLocalModelDeltaPpm (stateAdvance policy)
                         else sp_minLocalModelDeltaPpm (screenerPass policy));
    if deterministicDelta <? minDeterministic then Returns (mkQual false W03_DETERMINISTIC_DELTA_TOO_LOW 0 minDeterministic)
    else if localModelDelta <? minLocal then Returns (mkQual false W04_LOCAL_MODEL_REGRESSION 0 minDeterministic)
    else
      collides ←
        (match relevantNearCollisionPpm input with
         | Some nc =>
           maxCollision ← toBigInt (maxRelevantNearCollisionPpm (screenerPass policy));
           v ← toBigInt nc;
           Returns (maxCollision <? v)
         | None => Returns false
         end);
      if collides : bool then Returns (mkQual false W05_RELEVANT_NEAR_COLLISION 0 minDeterministic)
      else if isStateAdvance && requireLiveStateAdvance (stateAdvance policy) && negb (liveStateAdvanced input)
      then Returns (mkQual false W06_STATE_NOT_ADVANCED 0 minDeterministic)
      else
        units ← computeCoreTexWorkUnitsBps (q_outcome input) (q_passes input) (Some policy);
        Returns (mkQual true OK units minDeterministic).

(** ** Facts *)
Lemma bmin_spec a b : bmin a b = Z.min a b.
Proof. unfold bmin. destruct (Z.ltb_spec a b); lia. Qed.
Lemma bmax_spec a b : bmax a b = Z.max a b.
Proof. unfold bmax. destruct (Z.ltb_spec b a); lia. Qed.

Lemma digit_value_nonneg c d : digit_value c = Some d -> 0 <= d.
Proof. unfold digit_value. case_match; [|done]. bool_hyps. intros [= <-]. lia. Qed.

Lemma parse_decimal_nonneg s v : parse_decimal s = Some v -> 0 <= v.
Proof.
  unfold parse_decimal. destruct (String.list_ascii_of_string s) as [|c cs]; [done|]. cbn [mbind option_bind].
  destruct (mapM digit_value (c :: cs)) as [ds|] eqn:E; [|done]. cbn. case_match; [done|]. intros [= <-].
  assert (Hds : Forall (fun d => 0 <= d) ds).
  { apply mapM_Some in E. clear -E. generalize dependent (c :: cs); clear; intros l E; induction E as [|c d cs ds Hd E IH]; constructor; [by eapply digit_value_nonneg|done]. }
  assert (Hf : forall a, 0 <= a -> 0 <= fold_left (fun acc d => acc * 10 + d) ds a).
  { clear -Hds. induction Hds as [|d ds Hd Hds IH]; intros a Ha; cbn; [done|]. apply IH. lia. }
  apply Hf. lia.
Qed.

Lemma toBigInt_nonneg n v : toBigInt n = Returns v -> 0 <= v.
Proof.
  destruct n as [z|z| |s]; cbn; intros H.
  - inv_outcome. bool_hyps. lia.
  - inv_outcome. bool_hyps. lia.
  - done.
  - destruct (parse_decimal s) eqn:E; [|done]. injection H as <-. by eapply parse_decimal_nonneg.
Qed.

Lemma toBigInt_big v : 0 <= v -> toBigInt (NBig v) = Returns v.
Proof. intros. cbn. destruct (Z.ltb_spec v 0); [lia|done]. Qed.

(** The tiers of a policy, parsed, and the chain of checks they passed. *)
Definition parses_tier (t : StateAdvanceWorkTier) (mb : Z * Z) : Prop :=
  toBigInt (minQualifiedScreenerPassesSinceLastStateAdvance t) = Returns mb.1
  /\ toBigInt (tier_workUnitsBps t) = Returns mb.2.

Fixpoint tiers_chain (prevMin prevBps : Z) (ts : list (Z * Z)) : Prop :=
  match ts with
  | [] => True
  | (m, b) :: ts' => prevMin < m /\ 30000 <= b /\ prevBps <= b /\ tiers_chain m b ts'
  end.

Lemma check_tiers_inv l pm pb : check_tiers l pm pb = Returns tt ->
  exists ts, Forall2 parses_tier l ts /\ tiers_chain pm pb ts.
Proof.
  revert pm pb. induction l as [|t l IH]; intros pm pb H; cbn [check_tiers] in H; [exists []; by split; [constructor|]|].
  apply bind_Returns in H as (m & Hm & H). apply bind_Returns in H as (b & Hb & H).
  apply bind_Returns in H as (? & H1 & H). apply bind_Returns in H as (? & H2 & H). apply bind_Returns in H as (? & H3 & H).
  apply throw_if_Returns in H1, H2, H3. bool_hyps. apply IH in H as (ts & Hf & Hc).
  exists ((m, b) :: ts). split; [by constructor|]. unfold WORK_BPS_DIVISOR in *. cbn. repeat split; [lia|lia|lia|done].
Qed.

(** The parsed values a valid policy works with. *)
Record parsed_policy := mkParsed {
  v_minDelta : Z; v_maxThreshold : Z; v_plateau : Z; v_floor : Z; v_maxPenalty : Z;
  v_headroom : Z; v_noise : Z; v_probe : Z; v_tiers : list (Z * Z)
}.

Record policy_values (p : CoreTexWorkPolicy) (v : parsed_policy) : Prop := {
  pv_sp_outcome : sp_outcome (screenerPass p) = 1;
  pv_sa_outcome : sa_outcome (stateAdvance p) = 2;
  pv_sp_units : toBigInt (sp_workUnitsBps (screenerPass p)) = Returns 10000;
  pv_scale : toBigInt (scoreScalePpm (calibration (screenerPass p))) = Returns 1000000;
  pv_minDelta : toBigInt (minDeltaPpm (calibration (screenerPass p))) = Returns (v_minDelta v);
  pv_maxThreshold : toBigInt (maxThresholdPpm (calibration (screenerPass p))) = Returns (v_maxThreshold v);
  pv_plateau : toBigInt (plateauEasingMaxBps (calibration (screenerPass p))) = Returns (v_plateau v);
  pv_floor : toBigInt (or0 (stateAdvanceThresholdFloorBps (calibration (screenerPass p)))) = Returns (v_floor v);
  pv_maxPenalty : toBigInt (maxAntiGamingPenaltyBps (calibration (screenerPass p))) = Returns (v_maxPenalty v);
  pv_headroom : toBigInt (remainingHeadroomBps (calibration (screenerPass p))) = Returns (v_headroom v);
  pv_noise : toBigInt (noiseFloorMultiplierBps (calibration (screenerPass p))) = Returns (v_noise v);
  pv_probe : toBigInt (antiGamingProbeMultiplierBps (calibration (screenerPass p))) = Returns (v_probe v);
  pv_tiers : Forall2 parses_tier (tiers (stateAdvance p)) (v_tiers v);
  pv_bounds : 10 <= v_minDelta v <= v_maxThreshold v /\ 0 <= v_plateau v <= 10000 /\ 0 <= v_floor v <= 10000
    /\ 0 <= v_maxPenalty v <= 100000 /\ 0 < v_headroom v /\ 10000 <= v_noise v /\ 0 < v_probe v;
  pv_chain : tiers_chain (-1) 0 (v_tiers v);
  pv_first : exists b ts, v_tiers v = (0, b) :: ts
}.

Lemma valid_policy_values p : assertValidCoreTexWorkPolicy p = Returns tt -> exists v, policy_values p v.
Proof.
  intros H. unfold assertValidCoreTexWorkPolicy in H.
  repeat match type of H with
  | mbind _ (throw_if _ _) = _ => let G := fresh "G" in apply bind_Returns in H as (? & G & H); apply throw_if_Returns in G
  | mbind _ (toBigInt ?n) = _ => let G := fresh "N" in let v := fresh "v" in apply bind_Returns in H as (v & G & H)
  | mbind _ (check_tiers _ _ _) = _ => apply bind_Returns in H as ([] & HT & H)
  end.
  apply check_tiers_inv in HT as (ts & HT & HC).
  repeat match goal with G : negb (_ =? _) = false |- _ => apply negb_false_iff, Z.eqb_eq in G end. bool_hyps.
  unfold WORK_BPS_DIVISOR, OUTCOME_CORETEX_SCREENER_PASS, OUTCOME_CORETEX_STATE_ADVANCE in *. subst.
  repeat match goal with N : toBigInt _ = Returns _ |- _ =>
    let F := fresh "P" in pose proof (toBigInt_nonneg _ _ N) as F; revert N end. intros.
  destruct (tiers (stateAdvance p)) as [|t0 l] eqn:Et; [done|]. inversion HT as [|? [m0 b0] ? ts' Ht0 HT' E1 E2]; subst.
  apply bind_Returns in H as (min0 & Hm0 & H). apply throw_if_Returns, negb_false_iff, Z.eqb_eq in H. subst min0.
  destruct Ht0 as [Ht0 _]. cbn in Ht0. rewrite Hm0 in Ht0. apply Returns_inj in Ht0. subst m0.
  eexists (mkParsed _ _ _ _ _ _ _ _ ((0, b0) :: ts')). constructor; cbn [v_minDelta v_maxThreshold v_plateau v_floor v_maxPenalty v_headroom v_noise v_probe v_tiers];
    try eassumption; [by rewrite Et|lia|eauto].
Qed.

(** ** Units of a state advance. *)
Fixpoint select (ts : list (Z * Z)) (count sel : Z) : Z :=
  match ts with
  | [] => sel
  | (m, b) :: ts' => select ts' count (if m <=? count then b else sel)
  end.

Lemma select_tier_select l ts count sel : Forall2 parses_tier l ts ->
  select_tier l count sel = Returns (select ts count sel).
Proof.
  intros H. revert sel. induction H as [|t [m b] l ts [Hm Hb] H IH]; intros sel; [done|]. cbn [select_tier select].
  cbn in Hm, Hb. rewrite Hm. cbn [mbind outcome_bind]. destruct (m <=? count); [rewrite Hb; cbn|]; apply IH.
Qed.

Lemma tiers_chain_lt ts pm pb x y : tiers_chain pm pb ts -> (x, y) ∈ ts -> pm < x.
Proof.
  revert pm pb. induction ts as [|[m b] ts IH]; intros pm pb Hc Hi; [set_solver|]. destruct Hc as (? & _ & _ & Hc).
  apply elem_of_cons in Hi as [[= -> ->]|Hi]; [done|]. specialize (IH _ _ Hc Hi). lia.
Qed.

(** The selected tier: the last one whose minimum is at most the count. *)
Lemma select_chain ts pm pb count : tiers_chain pm pb ts -> pm <= count ->
  (select ts count pb = pb /\ (forall m b, (m, b) ∈ ts -> count < m))
  \/ exists m, (m, select ts count pb) ∈ ts /\ m <= count /\ (forall m' b', (m', b') ∈ ts -> m' <= count -> m' <= m).
Proof.
  revert pm pb. induction ts as [|[m b] ts IH]; intros pm pb Hc Hp; [left; set_solver|].
  cbn in Hc. destruct Hc as (Hm & Hb & Hpb & Hc). cbn [select]. destruct (Z.leb_spec m count) as [Hle|Hgt].
  - right. destruct (IH m b Hc Hle) as [[E Hn]|(m' & Hin & Hle' & Hmax)].
    + exists m. rewrite E. split; [set_solver|]. split; [done|]. intros m' b' [[= -> ->]|Hin]%elem_of_cons Hm'; [lia|].
      apply Hn in Hin. lia.
    + exists m'. split; [set_solver|]. split; [done|]. intros m1 b1 [[= -> ->]|Hin1]%elem_of_cons Hm1; [|by eapply Hmax].
      pose proof (tiers_chain_lt _ _ _ _ _ Hc Hin). lia.
  - left. assert (Habove : forall ts pm pb, tiers_chain pm pb ts -> count < pm -> forall s, select ts count s = s /\ (forall x y, (x, y) ∈ ts -> count < x)).
    { clear. induction ts as [|[m b] ts IH]; intros pm pb Hc Hlt s; [split; [done|set_solver]|]. destruct Hc as (? & _ & _ & Hc).
      cbn [select]. destruct (Z.leb_spec m count); [lia|]. destruct (IH m b Hc ltac:(lia) s) as [-> Hn]. split; [done|].
      intros x y [[= -> ->]|Hi]%elem_of_cons; [lia|by eapply Hn]. }
    destruct (Habove _ _ _ Hc Hgt pb) as [-> Hn]. split; [done|]. intros x y [[= -> ->]|Hi]%elem_of_cons; [lia|by eapply Hn].
Qed.

Lemma select_mono ts pm pb sel sel' count count' : tiers_chain pm pb ts -> count <= count' ->
  sel <= sel' -> sel <= pb -> sel' <= pb -> select ts count sel <= select ts count' sel'.
Proof.
  revert pm pb sel sel'. induction ts as [|[m b] ts IH]; intros pm pb sel sel' Hc Hle Hs Hb1 Hb2; [done|].
  destruct Hc as (Hm & H3 & Hpb & Hc). cbn [select]. apply (IH m b); try done; repeat case_match; bool_hyps; try lia.
Qed.

Lemma select_ge ts pm pb sel count : tiers_chain pm pb ts -> 30000 <= sel -> 30000 <= select ts count sel.
Proof.
  revert pm pb sel. induction ts as [|[m b] ts IH]; intros pm pb sel Hc Hs; [done|]. destruct Hc as (? & ? & ? & Hc).
  cbn [select]. eapply IH; [done|]. by case_match.
Qed.

Lemma computeUnits_advance p v c : policy_values p v -> assertValidCoreTexWorkPolicy p = Returns tt -> 0 <= c ->
  exists b ts, v_tiers v = (0, b) :: ts
  /\ computeCoreTexWorkUnitsBps OUTCOME_CORETEX_STATE_ADVANCE (Some (NBig c)) (Some p) = Returns (select (v_tiers v) c b).
Proof.
  intros Hv Ha Hc. destruct Hv as [Ho1 Ho2 _ _ _ _ _ _ _ _ _ _ Ht _ _ (b & ts & E)]. exists b, ts. split; [done|].
  unfold computeCoreTexWorkUnitsBps. cbn [default from_option id or0]. rewrite Ha, Ho1, Ho2. cbn [mbind outcome_bind OUTCOME_CORETEX_STATE_ADVANCE Z.eqb Pos.eqb negb throw_if].
  rewrite toBigInt_big by done. cbn [mbind outcome_bind]. rewrite E in Ht |- *.
  destruct (tiers (stateAdvance p)) as [|t l]; [by inversion Ht|]. inversion Ht as [|? ? ? ? Ht0 Htl]; subst.
  rewrite (proj2 Ht0). cbn [mbind outcome_bind snd]. by apply select_tier_select.
Qed.

Lemma advance_units_tiers (p : CoreTexWorkPolicy) (c c' : Z) :
  assertValidCoreTexWorkPolicy p = Returns tt -> 0 <= c <= c' ->
  exists u u', computeCoreTexWorkUnitsBps OUTCOME_CORETEX_STATE_ADVANCE (Some (NBig c)) (Some p) = Returns u
  /\ computeCoreTexWorkUnitsBps OUTCOME_CORETEX_STATE_ADVANCE (Some (NBig c')) (Some p) = Returns u'
  /\ 30000 <= u <= u'
  /\ exists ts m, Forall2 parses_tier (tiers (stateAdvance p)) ts /\ (m, u) ∈ ts /\ m <= c
     /\ (forall m' b', (m', b') ∈ ts -> m' <= c -> m' <= m).
Proof.
  intros Ha Hc. destruct (valid_policy_values p Ha) as (v & Hv).
  destruct (computeUnits_advance p v c Hv Ha ltac:(lia)) as (b & ts & E & H1).
  destruct (computeUnits_advance p v c' Hv Ha ltac:(lia)) as (b' & ts' & E' & H2). rewrite E in E'. injection E' as <- <-.
  pose proof (pv_chain p v Hv) as Hch. pose proof (pv_tiers p v Hv) as Ht. rewrite E in *.
  destruct Hch as (_ & Hb & _ & Hch).
  eexists _, _. split; [exact H1|]. split; [exact H2|]. cbn [select].
  destruct (Z.leb_spec 0 c), (Z.leb_spec 0 c'); try lia.
  split; [split; [by eapply select_ge|by eapply (select_mono ts 0 b); try done; lia]|].
  exists ((0, b) :: ts). destruct (select_chain ts 0 b c Hch ltac:(lia)) as [[Es Hn]|(m & Hin & Hm & Hmax)].
  - exists 0. rewrite Es. split; [done|]. split; [set_solver|]. split; [lia|].
    intros m' b' [[= -> ->]|Hin]%elem_of_cons Hm'; [lia|]. apply Hn in Hin. lia.
  - exists m. split; [done|]. split; [set_solver|]. split; [done|].
    intros m' b' [[= -> ->]|Hin']%elem_of_cons Hm'; [|by eapply Hmax].
    pose proof (tiers_chain_lt _ _ _ _ _ Hch Hin). lia.
Qed.

(** Under a valid policy a state advance always earns the units of the last
    tier its counter reaches: at least 3x, and never less for a larger
    counter. *)
Theorem advance_units (p : CoreTexWorkPolicy) (c c' : Z) :
  assertValidCoreTexWorkPolicy p = Returns tt -> 0 <= c <= c' ->
  exists u u', computeCoreTexWorkUnitsBps OUTCOME_CORETEX_STATE_ADVANCE (Some (NBig c)) (Some p) = Returns u
  /\ computeCoreTexWorkUnitsBps OUTCOME_CORETEX_STATE_ADVANCE (Some (NBig c')) (Some p) = Returns u'
  /\ 30000 <= u <= u'
  /\ exists ts m, Forall2 parses_tier (tiers (stateAdvance p)) ts /\ (m, u) ∈ ts /\ m <= c
     /\ (forall m' b', (m', b') ∈ ts -> m' <= c -> m' <= m).
Proof. apply advance_units_tiers. Qed.

(** ** The screener threshold. *)

(** The threshold as a function of parsed values. *)
Definition headroom_delta (v : parsed_policy) (baseline : Z) : Z := (1000000 - Z.min baseline 1000000) * v_headroom v / 10000.
Definition floor_delta (v : parsed_policy) (sat : Z) : Z :=
  if (0 <? sat) && (0 <? v_floor v) then (sat * v_floor v + 9999) / 10000 else 0.
Definition eased_headroom (v : parsed_policy) (baseline passes advances target : Z) : Z :=
  if 0 <? target then
    headroom_delta v baseline
      * (10000 - Z.min (v_plateau v) (v_plateau v * Z.min passes (target - Z.min advances target) / target)) / 10000
  else headroom_delta v baseline.
Definition raw_threshold (v : parsed_policy) (baseline noise passes advances target sat : Z) : Z :=
  Z.max (Z.max (v_minDelta v) (floor_delta v sat))
        (Z.max (eased_headroom v baseline passes advances target) (noise * v_noise v / 10000)).
Definition penalty (v : parsed_policy) (probe : Z) : Z := Z.min (v_maxPenalty v) (Z.min probe 1000000 * v_probe v / 1000000).
Definition threshold (v : parsed_policy) (baseline noise passes advances target probe sat : Z) : Z :=
  Z.min (raw_threshold v baseline noise passes advances target sat * (10000 + penalty v probe) / 10000)
        (Z.min (v_maxThreshold v) sat).

Definition big_input (baseline noise passes advances target probe sat : Z) : ThresholdInput :=
  mkThresholdInput (Some (NBig baseline)) (Some (NBig noise)) (Some (NBig passes)) (Some (NBig advances))
    (Some (NBig target)) (Some (NBig probe)) (Some (NBig sat)).

Lemma quot_div a b : 0 <= a -> 0 < b -> Z.quot a b = a / b.
Proof. intros. by apply Z.quot_div_nonneg. Qed.

Lemma bounds_nonneg v p baseline : policy_values p v -> 0 <= baseline -> 0 <= headroom_delta v baseline.
Proof. intros Hv Hb. pose proof (pv_bounds p v Hv). unfold headroom_delta. apply Z.div_pos; [|lia]. apply Z.mul_nonneg_nonneg; lia. Qed.

Lemma penalty_bound v p probe : policy_values p v -> 0 <= probe -> 0 <= penalty v probe.
Proof. intros Hv Hb. pose proof (pv_bounds p v Hv). unfold penalty. apply Z.min_glb; [lia|]. apply Z.div_pos; [|lia]. apply Z.mul_nonneg_nonneg; lia. Qed.

Lemma raw_threshold_bound v p b n ps ad t sat : policy_values p v ->
  v_minDelta v <= raw_threshold v b n ps ad t sat /\ floor_delta v sat <= raw_threshold v b n ps ad t sat.
Proof. intros Hv. unfold raw_threshold. lia. Qed.

Lemma easing_range v p ps ad t : policy_values p v -> 0 <= ps -> 0 <= ad -> 0 < t ->
  0 <= Z.min (v_plateau v) (v_plateau v * Z.min ps (t - Z.min ad t) / t) <= 10000.
Proof.
  intros Hv ???. pose proof (pv_bounds p v Hv). split; [|lia]. apply Z.min_glb; [lia|]. apply Z.div_pos; [|lia].
  apply Z.mul_nonneg_nonneg; lia.
Qed.

Lemma compute_threshold p v b n ps ad t pr sat : policy_values p v -> assertValidCoreTexWorkPolicy p = Returns tt ->
  0 <= b -> 0 <= n -> 0 <= ps -> 0 <= ad -> 0 <= t -> 0 <= pr -> 0 < sat ->
  computeCoreTexScreenerThresholdPpm (big_input b n ps ad t pr sat) (Some p) = Returns (threshold v b n ps ad t pr sat).
Proof.
  intros Hv Ha Hb Hn Hps Had Ht Hpr Hsat. pose proof (pv_bounds p v Hv) as Bd.
  pose proof (bounds_nonneg v p b Hv Hb) as Hhd. pose proof (penalty_bound v p pr Hv Hpr) as Hpen.
  unfold computeCoreTexScreenerThresholdPpm, big_input, threshold. cbn [baselineScorePpm recentNoiseFloorPpm recentScreenerPasses recentStateAdvances
    targetStateAdvances recentProbePassRatePpm stateAdvanceThresholdPpm default from_option id or0].
  rewrite Ha. cbn [mbind outcome_bind].
  rewrite (pv_scale p v Hv), (pv_minDelta p v Hv), (pv_headroom p v Hv), (pv_noise p v Hv), (pv_floor p v Hv),
    (pv_plateau p v Hv), (pv_maxPenalty p v Hv), (pv_probe p v Hv), (pv_maxThreshold p v Hv).
  rewrite !toBigInt_big by lia. cbn [mbind outcome_bind]. rewrite bool_decide_false by done. rewrite andb_false_r. cbn [throw_if mbind outcome_bind].
  destruct (Z.leb_spec sat 0); [lia|]. rewrite andb_false_r. cbn [throw_if mbind outcome_bind].
  unfold clamp, WORK_BPS_DIVISOR. rewrite !bmin_spec, !bmax_spec, (Z.max_l b 0), (Z.max_l pr 0) by lia.
  assert (Hfl : (if (0 <? sat) && (0 <? v_floor v) then ceilDiv (sat * v_floor v) 10000 else Returns 0) = Returns (floor_delta v sat)).
  { unfold floor_delta, ceilDiv. destruct (_ && _); [|done]. cbn. rewrite quot_div by nia. f_equal. f_equal. lia. }
  rewrite Hfl. cbn [mbind outcome_bind]. rewrite (quot_div (_ * v_headroom v)) by nia. fold (headroom_delta v b).
  rewrite (quot_div (n * v_noise v)), (quot_div (_ * v_probe v)) by nia. fold (penalty v pr).
  destruct (Z.ltb_spec 0 sat); [|lia].
  pose proof (raw_threshold_bound v p b n ps ad t sat Hv) as HR.
  assert (Hq : forall r, r = raw_threshold v b n ps ad t sat ->
    Z.quot (r * (10000 + penalty v pr)) 10000 = raw_threshold v b n ps ad t sat * (10000 + penalty v pr) / 10000).
  { intros r ->. apply quot_div; [|lia]. apply Z.mul_nonneg_nonneg; lia. }
  unfold raw_threshold, eased_headroom in Hq |- *. destruct (Z.ltb_spec 0 t); cbn [mbind outcome_bind]; rewrite !bmin_spec, !bmax_spec.
  - pose proof (easing_range v p ps ad t Hv Hps Had ltac:(lia)). rewrite (quot_div (v_plateau v * _)) by nia.
    rewrite (quot_div (headroom_delta v b * _)) by (lia || apply Z.mul_nonneg_nonneg; lia). by rewrite Hq.
  - by rewrite Hq.
Qed.

(** The screener threshold always exists for a positive advance threshold,
    never exceeds that threshold nor the policy maximum, and is at least the
    policy minimum and the configured fraction of the advance threshold,
    unless that ceiling is lower. *)
Theorem screener_threshold_band (p : CoreTexWorkPolicy) (b n ps ad t pr sat : Z) :
  assertValidCoreTexWorkPolicy p = Returns tt ->
  0 <= b -> 0 <= n -> 0 <= ps -> 0 <= ad -> 0 <= t -> 0 <= pr -> 0 < sat ->
  exists v th, policy_values p v
  /\ computeCoreTexScreenerThresholdPpm (big_input b n ps ad t pr sat) (Some p) = Returns th
  /\ 0 < th <= sat /\ th <= v_maxThreshold v
  /\ Z.min (Z.max (v_minDelta v) (floor_delta v sat)) (Z.min (v_maxThreshold v) sat) <= th.
Proof.
  intros Ha Hb Hn Hps Had Ht Hpr Hsat. destruct (valid_policy_values p Ha) as (v & Hv). exists v.
  eexists. split; [done|]. split; [by apply compute_threshold|]. unfold threshold.
  pose proof (pv_bounds p v Hv) as Bd. pose proof (penalty_bound v p pr Hv Hpr).
  pose proof (raw_threshold_bound v p b n ps ad t sat Hv) as [R1 R2].
  assert (raw_threshold v b n ps ad t sat <= raw_threshold v b n ps ad t sat * (10000 + penalty v pr) / 10000).
  { apply Z.div_le_lower_bound; [lia|]. nia. }
  lia.
Qed.

(** More noise or more probe passes never lower the threshold. *)
Theorem screener_threshold_monotone (p : CoreTexWorkPolicy) (b n n' ps ad t pr pr' sat th th' : Z) :
  assertValidCoreTexWorkPolicy p = Returns tt ->
  0 <= b -> 0 <= n <= n' -> 0 <= ps -> 0 <= ad -> 0 <= t -> 0 <= pr <= pr' -> 0 < sat ->
  computeCoreTexScreenerThresholdPpm (big_input b n ps ad t pr sat) (Some p) = Returns th ->
  computeCoreTexScreenerThresholdPpm (big_input b n' ps ad t pr' sat) (Some p) = Returns th' ->
  th <= th'.
Proof.
  intros Ha Hb Hn Hps Had Ht Hpr Hsat H1 H2. destruct (valid_policy_values p Ha) as (v & Hv).
  rewrite (compute_threshold p v) in H1, H2 by (done || lia). apply Returns_inj in H1 as <-, H2 as <-. unfold threshold.
  pose proof (pv_bounds p v Hv) as Bd. pose proof (penalty_bound v p pr Hv ltac:(lia)).
  pose proof (raw_threshold_bound v p b n ps ad t sat Hv) as [R1 R2].
  assert (penalty v pr <= penalty v pr').
  { unfold penalty. apply Z.min_le_compat_l. apply Z.div_le_mono; [lia|]. apply Z.mul_le_mono_nonneg_r; lia. }
  assert (raw_threshold v b n ps ad t sat <= raw_threshold v b n' ps ad t sat).
  { unfold raw_threshold. apply Z.max_le_compat_l, Z.max_le_compat_l. apply Z.div_le_mono; [lia|]. nia. }
  apply Z.min_le_compat_r. apply Z.div_le_mono; [lia|]. nia.
Qed.

(** ** Qualification. *)

(** A qualified receipt met every gate: live parent, delta at least the
    required one (for an advance, also at least the advance threshold), no
    model regression, and its units are the computed ones; an unqualified
    one earns nothing. *)
Theorem qualification_sound (p : CoreTexWorkPolicy) (input : QualificationInput) (q : CoreTexWorkQualification) :
  evaluateCoreTexWorkQualification input (Some p) = Returns q ->
  (qualified q = false -> q_workUnitsBps q = 0)
  /\ (qualified q = true ->
      parentMatchesLiveRoot input = true
      /\ (exists d, toSignedBigInt (deterministicDeltaPpm input) = Returns d /\ requiredDeterministicDeltaPpm q <= d)
      /\ computeCoreTexWorkUnitsBps (q_outcome input) (q_passes input) (Some p) = Returns (q_workUnitsBps q)
      /\ (exists th, computeCoreTexScreenerThresholdPpm (q_threshold input) (Some p) = Returns th
           /\ th <= requiredDeterministicDeltaPpm q)
      /\ (q_outcome input = OUTCOME_CORETEX_STATE_ADVANCE ->
           (forall n sat, stateAdvanceThresholdPpm (q_threshold input) = Some n -> toBigInt n = Returns sat ->
              sat <= requiredDeterministicDeltaPpm q)
           /\ (requireLiveStateAdvance (stateAdvance p) = true -> liveStateAdvanced input = true))).
Proof.
  intros H. unfold evaluateCoreTexWorkQualification in H. cbn [default from_option id] in H.
  apply bind_Returns in H as ([] & Ha & H). destruct (valid_policy_values p Ha) as (v & Hv).
  rewrite (pv_sp_outcome p v Hv), (pv_sa_outcome p v Hv) in H.
  destruct (_ && _) in H; [injection H as <-; by split|].
  destruct (parentMatchesLiveRoot input); cbn [negb] in H; [|injection H as <-; by split].
  apply bind_Returns in H as (d & Hd & H). apply bind_Returns in H as (lm & Hlm & H).
  apply bind_Returns in H as (th & Hth & H). apply bind_Returns in H as (sat & Hsat & H).
  apply bind_Returns in H as (md & Hmd & H). apply bind_Returns in H as (ml & Hml & H).
  destruct (Z.ltb_spec d md); [injection H as <-; by split|]. destruct (lm <? ml); [injection H as <-; by split|].
  apply bind_Returns in H as (col & Hcol & H). destruct col; [injection H as <-; by split|].
  destruct (_ && negb _) eqn:Hlive in H; [injection H as <-; by split|].
  apply bind_Returns in H as (u & Hu & H). injection H as <-. cbn. split; [done|]. intros _.
  split; [done|]. split; [eauto|]. split; [done|].
  destruct (Z.eqb_spec (q_outcome input) 2) as [E|E].
  - apply bind_Returns in Hmd as (m & Hm & Hmd). injection Hmd as <-. rewrite !bmax_spec in *. split; [exists th; split; [done|lia]|].
    intros _. split.
    + intros n' sat' En Hn. rewrite En, Hn in Hsat. injection Hsat as ->. lia.
    + intros Er. rewrite Er in Hlive. cbn in Hlive. by apply negb_false_iff in Hlive.
  - injection Hmd as <-. split; [exists th; split; [done|lia]|]. intros E'. contradiction.
Qed.

(** ** Witnesses. *)
Lemma default_policy_valid : assertValidCoreTexWorkPolicy DEFAULT_CORETEX_WORK_POLICY = Returns tt.
Proof. vm_compute. reflexivity. Qed.

Lemma advance_units_witness :
  exists u u', computeCoreTexWorkUnitsBps OUTCOME_CORETEX_STATE_ADVANCE (Some (NBig 99)) (Some DEFAULT_CORETEX_WORK_POLICY) = Returns u
  /\ computeCoreTexWorkUnitsBps OUTCOME_CORETEX_STATE_ADVANCE (Some (NBig 100)) (Some DEFAULT_CORETEX_WORK_POLICY) = Returns u'
  /\ 30000 <= u <= u'
  /\ exists ts m, Forall2 parses_tier (tiers (stateAdvance DEFAULT_CORETEX_WORK_POLICY)) ts /\ (m, u) ∈ ts /\ m <= 99
     /\ (forall m' b', (m', b') ∈ ts -> m' <= 99 -> m' <= m).
Proof. apply (advance_units DEFAULT_CORETEX_WORK_POLICY 99 100); [vm_compute; reflexivity|lia]. Defined.

Lemma screener_threshold_band_witness :
  exists v th, policy_values DEFAULT_CORETEX_WORK_POLICY v
  /\ computeCoreTexScreenerThresholdPpm (big_input 500000 10 3 1 4 100 2000) (Some DEFAULT_CORETEX_WORK_POLICY) = Returns th
  /\ 0 < th <= 2000 /\ th <= v_maxThreshold v
  /\ Z.min (Z.max (v_minDelta v) (floor_delta v 2000)) (Z.min (v_maxThreshold v) 2000) <= th.
Proof. apply (screener_threshold_band DEFAULT_CORETEX_WORK_POLICY 500000 10 3 1 4 100 2000); [vm_compute; reflexivity|lia..]. Defined.

Lemma screener_threshold_monotone_witness : exists th th',
  computeCoreTexScreenerThresholdPpm (big_input 500000 10 3 1 4 0 2000) (Some DEFAULT_CORETEX_WORK_POLICY) = Returns th
  /\ computeCoreTexScreenerThresholdPpm (big_input 500000 900 3 1 4 1000 2000) (Some DEFAULT_CORETEX_WORK_POLICY) = Returns th'
  /\ th <= th'.
Proof.
  eexists _, _. split; [vm_compute; reflexivity|]. split; [vm_compute; reflexivity|].
  apply (screener_threshold_monotone DEFAULT_CORETEX_WORK_POLICY 500000 10 900 3 1 4 0 1000 2000);
    [vm_compute; reflexivity|lia..|vm_compute; reflexivity|vm_compute; reflexivity].
Defined.

Definition qual_in : QualificationInput :=
  mkQualInput 2 (Some (NNum 30)) (NNum 5000) (big_input 500000 10 3 1 4 0 2000) None None true true.

Lemma qualification_sound_witness : exists q, evaluateCoreTexWorkQualification qual_in (Some DEFAULT_CORETEX_WORK_POLICY) = Returns q
  /\ qualified q = true /\ q_workUnitsBps q = 40000
  /\ computeCoreTexWorkUnitsBps 2 (Some (NNum 30)) (Some DEFAULT_CORETEX_WORK_POLICY) = Returns (q_workUnitsBps q).
Proof.
  eexists. split; [vm_compute; reflexivity|]. split; [reflexivity|]. split; [reflexivity|].
  apply (qualification_sound DEFAULT_CORETEX_WORK_POLICY qual_in); [vm_compute; reflexivity|reflexivity].
Defined.

(** A probe pass rate below 50 ppm leaves the default threshold unchanged. *)
Theorem small_probe_rate_ignored :
  computeCoreTexScreenerThresholdPpm (big_input 0 0 0 0 0 49 2000) None
  = computeCoreTexScreenerThresholdPpm (big_input 0 0 0 0 0 0 2000) None.
Proof. vm_compute. reflexivity. Qed.

(** The minimum delta is not a floor: a small advance threshold lowers the
    screener threshold below [minDeltaPpm]. *)
Theorem threshold_below_minDelta : computeCoreTexScreenerThresholdPpm (big_input 0 0 0 0 0 0 5) None = Returns 5.
Proof. vm_compute. reflexivity. Qed.
