(* ===== verification/Difficulty.v ===== *)
(** * Difficulty controller (packages/coretex/src/rewards/difficulty.ts)

    The next epoch's [minImprovementPpm] from the epoch's observations, with
    the source's double arithmetic ([Float]) and its BigInt conversion,
    which throws on a non-finite product. Theorems: the result is always in
    the effective clamp window, the branch taken is determined by the
    observations and only over-target epochs ramp up, and grace freezes the
    threshold. *)
From S2P Require Import Prelude Float.

Definition MIN_IMPROVEMENT_PPM : Z := 500.
Definition MAX_IMPROVEMENT_PPM : Z := 150000.

Record DifficultyInputs := mkInputs {
  current : Z;
  observedAdvances : number;
  targetAdvances : number;
  qualityAttempts : number;
  qualityHighThreshold : option number;
  rampUpMaxRatio : option number;
  decayRatio : option number;
  underTargetRecoveryRatio : option number;
  majorDeltaActive : bool;
  minClampPpm : option Z;
  maxClampPpm : option Z
}.

Inductive DifficultyReason :=
  | ramp_up | decay | no_change | small_drift_up | small_drift_down | under_target_recovery | major_delta_grace.

#[export] Instance DifficultyReason_eq_dec : EqDecision DifficultyReason.
Proof. solve_decision. Defined.

Record DifficultyOutput := mkOutput { next : Z; diff_reason : DifficultyReason; ratioApplied : number; clamped : bool }.

Definition clampPpm (value min max : Z) : Z :=
  if value <? min then min else if max <? value then max else value.

(** The effective clamp window. *)
Definition min_clamp (inputs : DifficultyInputs) : Z :=
  match minClampPpm inputs with Some m => if 0 <? m then m else MIN_IMPROVEMENT_PPM | None => MIN_IMPROVEMENT_PPM end.
Definition max_clamp (inputs : DifficultyInputs) : Z :=
  match maxClampPpm inputs with
  | Some m => if min_clamp inputs <? m then m else MAX_IMPROVEMENT_PPM
  | None => MAX_IMPROVEMENT_PPM
  end.

(** The branch of the controller: ratio and reason. *)
Definition select_ratio (inputs : DifficultyInputs) : number * DifficultyReason :=
  let observed := observedAdvances inputs in
  let target := targetAdvances inputs in
  let quality := qualityAttempts inputs in
  let rampMax := default (of_frac 15 10) (rampUpMaxRatio inputs) in
  let decayR := default (of_frac 85 100) (decayRatio inputs) in
  let recovery := default (of_frac 95 100) (underTargetRecoveryRatio inputs) in
  let high := default (dmul (of_Z 4) target) (qualityHighThreshold inputs) in
  if dle target (of_Z 0) then (of_Z 1, no_change)
  else if dlt target observed then
    let raw := ddiv observed target in
    (math_min (math_max raw (of_Z 1)) rampMax, ramp_up)
  else if deq observed (of_Z 0) && dle high quality then (decayR, decay)
  else if deq observed (of_Z 0) && deq quality (of_Z 0) then (of_frac 95 100, small_drift_down)
  else if dlt observed target && dlt (of_Z 0) quality then (recovery, under_target_recovery)
  else (of_Z 1, no_change).

Definition nextMinImprovementPpm (inputs : DifficultyInputs) : outcome DifficultyOutput :=
  let minClamp := min_clamp inputs in
  let maxClamp := max_clamp inputs in
  if majorDeltaActive inputs then
    Returns (mkOutput (clampPpm (current inputs) minClamp maxClamp) major_delta_grace (of_Z 1) false)
  else
    let '(ratio, reason) := select_ratio inputs in
    unclamped ← bigint_round (dmul (of_Z (current inputs)) ratio);
    let next := clampPpm unclamped minClamp maxClamp in
    let clamped := (unclamped <? minClamp) || (maxClamp <? unclamped) in
    Returns (mkOutput next reason ratio clamped).

Record DifficultyHistogramEntry := mkEntry { h_epoch : number; h_current : Z; h_next : Z; h_reason : DifficultyReason }.
Record DifficultyHistogram := mkHistogram {
  byEpoch : list DifficultyHistogramEntry; rampUps : Z; decays : Z; clampHits : Z }.

Fixpoint histogram_loop (snapshots : list (number * DifficultyInputs)) (acc : DifficultyHistogram) : outcome DifficultyHistogram :=
  match snapshots with
  | [] => Returns acc
  | (epoch, inputs) :: rest =>
    output ← nextMinImprovementPpm inputs;
    histogram_loop rest (mkHistogram
      (byEpoch acc ++ [mkEntry epoch (current inputs) (next output) (diff_reason output)])
      (if decide (diff_reason output = ramp_up) then rampUps acc + 1 else rampUps acc)
      (if decide (diff_reason output = decay) then decays acc + 1 else decays acc)
      (if clamped output then clampHits acc + 1 else clampHits acc))
  end.

Definition difficultyHistogram (snapshots : list (number * DifficultyInputs)) : outcome DifficultyHistogram :=
  histogram_loop snapshots (mkHistogram [] 0 0 0).

(** ** Facts *)
Lemma clampPpm_range v lo hi : lo <= hi -> lo <= clampPpm v lo hi <= hi.
Proof. intros. unfold clampPpm. destruct (Z.ltb_spec v lo); [lia|]. destruct (Z.ltb_spec hi v); lia. Qed.

Lemma clampPpm_in v lo hi : lo <= v <= hi -> clampPpm v lo hi = v.
Proof. intros. unfold clampPpm. destruct (Z.ltb_spec v lo); [lia|]. destruct (Z.ltb_spec hi v); lia. Qed.

(** With the pinned window, every result is within 500..150000; the
    [clamped] flag (outside grace) says exactly whether rounding left the
    window; grace returns the current threshold unchanged when it is within
    the window; and the difficulty is raised only by an over-target epoch. *)
Theorem difficulty_window (i : DifficultyInputs) (o : DifficultyOutput) :
  minClampPpm i = None -> maxClampPpm i = None -> nextMinImprovementPpm i = Returns o ->
  500 <= next o <= 150000
  /\ (majorDeltaActive i = true -> diff_reason o = major_delta_grace /\ (500 <= current i <= 150000 -> next o = current i))
  /\ (majorDeltaActive i = false -> exists u, bigint_round (dmul (of_Z (current i)) (ratioApplied o)) = Returns u
        /\ (clamped o = false <-> 500 <= u <= 150000) /\ (clamped o = false -> next o = u))
  /\ (diff_reason o = ramp_up <->
        majorDeltaActive i = false /\ dle (targetAdvances i) (of_Z 0) = false
        /\ dlt (targetAdvances i) (observedAdvances i) = true).
Proof.
  intros Hmin Hmax H. unfold nextMinImprovementPpm, min_clamp, max_clamp in H. rewrite Hmin, Hmax in H.
  unfold MIN_IMPROVEMENT_PPM, MAX_IMPROVEMENT_PPM in H. destruct (majorDeltaActive i).
  { injection H as <-. cbn. split; [apply clampPpm_range; lia|]. split; [intros _; split; [done|apply clampPpm_in]|].
    split; [done|]. split; [done|]. intros [? _]. done. }
  destruct (select_ratio i) as [r rs] eqn:Er. apply bind_Returns in H as (u & Hu & H). injection H as <-. cbn [next diff_reason ratioApplied clamped].
  split; [apply clampPpm_range; lia|]. split; [done|]. split.
  - intros _. exists u. split; [done|]. rewrite orb_false_iff, !Z.ltb_ge. split; [lia|]. intros ?. apply clampPpm_in. lia.
  - unfold select_ratio in Er. destruct (dle (targetAdvances i) (of_Z 0)); [injection Er as <- <-; naive_solver|].
    destruct (dlt (targetAdvances i) (observedAdvances i)); [injection Er as <- <-; naive_solver|].
    split; [|intros (_ & _ & ?); done]. intros ->. repeat case_match; discriminate Er.
Qed.

Definition inputs_1 : DifficultyInputs :=
  mkInputs 2000 (of_Z 8) (of_Z 4) (of_Z 20) None None None None false None None.

Lemma difficulty_window_witness : exists o, nextMinImprovementPpm inputs_1 = Returns o /\ next o = 3000
  /\ 500 <= next o <= 150000 /\ diff_reason o = ramp_up.
Proof.
  eexists. split; [vm_compute; reflexivity|]. split; [reflexivity|].
  destruct (difficulty_window inputs_1 (mkOutput 3000 ramp_up (of_frac 15 10) false)) as (H & _ & _ & Hr);
    [reflexivity|reflexivity|vm_compute; reflexivity|].
  split; [exact H|]. apply Hr. repeat split; vm_compute; reflexivity.
Defined.

(** Decay, drift and recovery, on their default ratios. *)
Example decay_example : next <$> (match nextMinImprovementPpm (mkInputs 2000 (of_Z 0) (of_Z 4) (of_Z 20) None None None None false None None)
  with Returns o => Some o | _ => None end) = Some 1700.
Proof. vm_compute. reflexivity. Qed.
Example recovery_example : next <$> (match nextMinImprovementPpm (mkInputs 2000 (of_Z 1) (of_Z 4) (of_Z 3) None None None None false None None)
  with Returns o => Some o | _ => None end) = Some 1900.
Proof. vm_compute. reflexivity. Qed.

(** Under grace a threshold outside the window moves to its edge while
    [clamped] stays false. *)
Theorem grace_clamps_silently (i : DifficultyInputs) :
  minClampPpm i = None -> maxClampPpm i = None -> majorDeltaActive i = true -> current i < 500 ->
  exists o, nextMinImprovementPpm i = Returns o /\ next o = 500 /\ next o <> current i /\ clamped o = false.
Proof.
  intros Hmin Hmax Hg Hc. unfold nextMinImprovementPpm, min_clamp, max_clamp. rewrite Hg, Hmin, Hmax.
  eexists. split; [reflexivity|]. cbn. unfold clampPpm, MIN_IMPROVEMENT_PPM.
  destruct (Z.ltb_spec (current i) 500); [|lia]. split; [done|]. split; [lia|done].
Qed.
