(* ===== verification/Reducer.v ===== *)
(** * Epoch reducer (packages/coretex/src/reducer/accept-core.ts, packages/coretex/src/reducer/reducer.ts)

    [evaluateAndApplyOntoCurrent] is the accept step shared by the batch
    and the live lane; [reduce] drops wrong parents, orders the patches by
    (-scoreDelta, +wordCount, +patchHash) with a stable sort and applies
    them greedily, skipping overlapping targets. Theorems: the output
    partitions the input, accepted targets are disjoint so every accepted
    write survives in the new state, the roots are those of the new state,
    and the selection does not depend on the arrival order. *)
From S2P Require Import Prelude JsSort StateTypes Float Codec Keccak Merkle Decoder Substrate Validate Patch SeedDerivation.
#[local] Open Scope Z_scope.

(** ** Accept step *)
Abbreviation MarginalEvaluator := (CortexState -> Patch -> Z).

Record AcceptStepCodes (C : Type) := mkCodes { notImprovement : C; wrongParent : C; reservedBit : C; invalidTarget : C }.
Arguments mkCodes {C} _ _ _ _.
Arguments notImprovement {C} _.
Arguments wrongParent {C} _.
Arguments reservedBit {C} _.
Arguments invalidTarget {C} _.

Inductive AcceptStepResult (C : Type) :=
  | StepOk (state : CortexState) (marginalGain : Z)
  | StepRejected (reason : C).
Arguments StepOk {C} _ _.
Arguments StepRejected {C} _.

Definition evaluateAndApplyOntoCurrent {C} (current : CortexState) (patch : Patch) (marginalEvaluator : MarginalEvaluator)
    (threshold : Z) (strictImprovement policyAtomsMode : bool) (codes : AcceptStepCodes C) : AcceptStepResult C :=
  let marginalGain := marginalEvaluator current patch in
  let improves := if strictImprovement then threshold <? marginalGain else threshold <=? marginalGain in
  if negb improves then StepRejected (notImprovement codes)
  else match applyPatchOntoCurrent current patch policyAtomsMode with
  | PatchFailure e =>
    StepRejected (match code e with
      | E01 => wrongParent codes
      | E04 => reservedBit codes
      | E05 => notImprovement codes
      | _ => invalidTarget codes
      end)
  | PatchSuccess state => StepOk state marginalGain
  end.

(** ** Reducer data *)
Inductive RejectionCode :=
  | R01_TARGET_OVERLAP | R02_SEMANTIC_CONFLICT | R03_WRONG_PARENT_ROOT | R04_INVALID_TARGET | R05_RESERVED_BIT_SET.

Record ReducerInputPatch := mkItem {
  item_patch : Patch;
  patchBytes : bytes;
  item_scoreDelta : Z;
  marginalEvaluator : MarginalEvaluator
}.

Record AcceptedPatch := mkAccepted {
  acc_patch : Patch;
  acc_patchBytes : bytes;
  marginalGain : Z;
  acceptanceIndex : Z
}.

Record RejectedPatch := mkRejected { rej_patch : Patch; rej_patchBytes : bytes; rej_reason : RejectionCode }.

Record ReducerOutput := mkReducerOutput {
  newState : CortexState;
  patchSetRoot : bytes;
  patchSetRootHex : string;
  newStateRoot : bytes;
  newStateRootHex : string;
  accepted : list AcceptedPatch;
  rejected : list RejectedPatch
}.

Definition stubMarginalEvaluator (_currentState : CortexState) (patch : Patch) : Z := scoreDelta patch.

Section WithHasher.
Context {HK : Hasher}.

Definition comparePatchPriority (a b : ReducerInputPatch) : Z :=
  if negb (item_scoreDelta b =? item_scoreDelta a) then
    (if item_scoreDelta a <? item_scoreDelta b then 1 else -1)
  else if negb (wordCount (item_patch a) =? wordCount (item_patch b)) then
    wordCount (item_patch a) - wordCount (item_patch b)
  else
    let aHash := computePatchHash (patchBytes a) in
    let bHash := computePatchHash (patchBytes b) in
    if string_lt aHash bHash then -1 else if string_lt bHash aHash then 1 else 0.

(** [leafBuf.set(leaf, i * 32)] per accepted patch. *)
Definition computePatchSetRoot (accepted : list AcceptedPatch) : bytes :=
  if (length accepted =? 0)%nat then keccak256 []
  else
    let leafBuf := fold_left (fun buf '(i, a) => u8_set buf (i * 32) (keccak256 (acc_patchBytes a)))
                     (imap pair accepted) (zeros (length accepted * 32)) in
    keccak256 leafBuf.

Definition BATCH_CODES : AcceptStepCodes RejectionCode :=
  mkCodes R02_SEMANTIC_CONFLICT R03_WRONG_PARENT_ROOT R05_RESERVED_BIT_SET R04_INVALID_TARGET.

(** The variables of the greedy loop. *)
Record greedy := mkGreedy {
  g_current : CortexState;
  g_accepted : list AcceptedPatch;
  g_targets : list Z;
  g_rejected : list RejectedPatch
}.

Definition greedy_reject (g : greedy) (item : ReducerInputPatch) (reason : RejectionCode) : greedy :=
  mkGreedy (g_current g) (g_accepted g) (g_targets g)
    (g_rejected g ++ [mkRejected (item_patch item) (patchBytes item) reason]).

Definition greedy_step (threshold : Z) (policyAtomsMode : bool) (g : greedy) (item : ReducerInputPatch) : greedy :=
  let overlaps := existsb (fun i => bool_decide (i ∈ g_targets g)) (indices (item_patch item)) in
  if overlaps then greedy_reject g item R01_TARGET_OVERLAP
  else match evaluateAndApplyOntoCurrent (g_current g) (item_patch item) (marginalEvaluator item) threshold false
               policyAtomsMode BATCH_CODES with
  | StepRejected reason => greedy_reject g item reason
  | StepOk state gain =>
    mkGreedy state
      (g_accepted g ++ [mkAccepted (item_patch item) (patchBytes item) gain (Z.of_nat (length (g_accepted g)))])
      (fold_left (fun s idx => jsset_add idx s) (indices (item_patch item)) (g_targets g))
      (g_rejected g)
  end.

(** The pre-pass: eligible items, and rejections of wrong parents. *)
Fixpoint prepass (epochParentRoot : bytes) (patches : list ReducerInputPatch)
    (eligible : list ReducerInputPatch) (rejectedSet : list RejectedPatch) : list ReducerInputPatch * list RejectedPatch :=
  match patches with
  | [] => (eligible, rejectedSet)
  | item :: patches' =>
    if negb (patchMatchesEpochParent (item_patch item) epochParentRoot) then
      prepass epochParentRoot patches' eligible
        (rejectedSet ++ [mkRejected (item_patch item) (patchBytes item) R03_WRONG_PARENT_ROOT])
    else prepass epochParentRoot patches' (eligible ++ [item]) rejectedSet
  end.

Definition reduce (parentState : CortexState) (patches : list ReducerInputPatch) (threshold : Z) (policyAtomsMode : bool)
  : outcome ReducerOutput :=
  epochParentRoot ← merkleizeState parentState;
  let '(eligible, rejectedSet) := prepass epochParentRoot patches [] [] in
  let ordered := stableSort eligible comparePatchPriority in
  let g := fold_left (greedy_step threshold policyAtomsMode) ordered (mkGreedy parentState [] [] rejectedSet) in
  let patchSetRoot := computePatchSetRoot (g_accepted g) in
  newStateRoot ← merkleizeState (g_current g);
  Returns (mkReducerOutput (g_current g) patchSetRoot (bytesToHex patchSetRoot) newStateRoot (bytesToHex newStateRoot)
    (g_accepted g) (g_rejected g)).

Definition makeReducerInput (patch : Patch) (opt_patchBytes : option bytes) : outcome ReducerInputPatch :=
  bs ← (match opt_patchBytes with Some bs => Returns bs | None => encodePatch patch end);
  Returns (mkItem patch bs (scoreDelta patch) stubMarginalEvaluator).
End WithHasher.

(** ** The priority order *)
Section Order.
Context {HK : Hasher}.

(** The priority: a goes before (or with) b. *)
Definition before (a b : ReducerInputPatch) : Prop :=
  item_scoreDelta b < item_scoreDelta a
  \/ item_scoreDelta b = item_scoreDelta a
     /\ (wordCount (item_patch a) < wordCount (item_patch b)
         \/ wordCount (item_patch a) = wordCount (item_patch b)
            /\ string_lt (computePatchHash (patchBytes b)) (computePatchHash (patchBytes a)) = false).

Lemma compare_before a b : comparePatchPriority a b <= 0 <-> before a b.
Proof.
  unfold comparePatchPriority, before. destruct (Z.eqb_spec (item_scoreDelta b) (item_scoreDelta a)) as [E|E]; cbn [negb].
  - destruct (Z.eqb_spec (wordCount (item_patch a)) (wordCount (item_patch b))) as [E'|E']; cbn [negb]; [|lia].
    fold (string_cmp (computePatchHash (patchBytes a)) (computePatchHash (patchBytes b))). rewrite string_cmp_le.
    split; [intros; right; auto|]. intros [?|[_ [?|[_ ?]]]]; [lia|lia|done].
  - destruct (Z.ltb_spec (item_scoreDelta a) (item_scoreDelta b)); split; try lia.
Qed.

Lemma before_total a b : before a b \/ before b a.
Proof.
  unfold before. destruct (Z.lt_trichotomy (item_scoreDelta a) (item_scoreDelta b)) as [?|[?|?]]; [tauto| |tauto].
  destruct (Z.lt_trichotomy (wordCount (item_patch a)) (wordCount (item_patch b))) as [?|[?|?]]; [left; lia| |right; lia].
  destruct (string_lt (computePatchHash (patchBytes b)) (computePatchHash (patchBytes a))) eqn:E1; [|left; right; auto].
  right; right. split; [done|]. right. split; [done|].
  by apply string_lt_asym.
Qed.

Lemma before_trans a b c : before a b -> before b c -> before a c.
Proof.
  unfold before. intros [H1|[H1 [H1'|[H1' H1'']]]] [H2|[H2 [H2'|[H2' H2'']]]]; try lia.
  right. split; [lia|]. right. split; [lia|].
  rewrite <- string_cmp_le in *. by eapply cmp_trans.
Qed.

#[export] Instance comparePatchPriority_preorder : CmpPreorder comparePatchPriority.
Proof.
  constructor.
  - intros a b. rewrite !compare_before. apply before_total.
  - intros a b c. rewrite !compare_before. apply before_trans.
Qed.

(** Two items of equal priority have the same score, size and patch hash. *)
Lemma before_antisym a b : before a b -> before b a ->
  item_scoreDelta a = item_scoreDelta b /\ wordCount (item_patch a) = wordCount (item_patch b)
  /\ computePatchHash (patchBytes a) = computePatchHash (patchBytes b).
Proof.
  unfold before. intros H1 H2. split; [lia|]. split; [lia|].
  destruct H1 as [?|[? [?|[? H1]]]]; [lia|lia|]. destruct H2 as [?|[? [?|[? H2]]]]; [lia|lia|].
  by apply string_lt_total.
Qed.
End Order.

(** ** The greedy loop *)
Section ReduceTheorems.
Context {HK : Hasher}.

Definition item_wire_ok (i : ReducerInputPatch) : Prop := wire_ok (item_patch i).

(** The (patch, bytes) pairs of items, accepted and rejected entries. *)
Definition item_key (i : ReducerInputPatch) : Patch * bytes := (item_patch i, patchBytes i).
Definition acc_key (a : AcceptedPatch) : Patch * bytes := (acc_patch a, acc_patchBytes a).
Definition rej_key (r : RejectedPatch) : Patch * bytes := (rej_patch r, rej_patchBytes r).

Lemma elem_of_targets (idxs ts : list Z) i : i ∈ fold_left (fun s idx => jsset_add idx s) idxs ts <-> i ∈ idxs \/ i ∈ ts.
Proof.
  revert ts. induction idxs as [|x idxs IH]; intros ts; cbn [fold_left]; [set_solver|].
  rewrite IH, elem_of_jsset_add. set_solver.
Qed.

(** What the accept step gives on success. *)
Lemma accept_step_ok {C} s p ev th strict r5 (codes : AcceptStepCodes C) s' gain :
  state_ok s -> wire_ok p -> evaluateAndApplyOntoCurrent s p ev th strict r5 codes = StepOk s' gain ->
  accepts s p r5 s' /\ gain = ev s p /\ (if strict then th < gain else th <= gain).
Proof.
  intros Hs Hp H. unfold evaluateAndApplyOntoCurrent in H.
  destruct (applyPatchOntoCurrent s p r5) eqn:E; [|by destruct (negb _)].
  apply applyPatchOntoCurrent_accepts in E; [|done..].
  destruct strict; [destruct (Z.ltb_spec th (ev s p))|destruct (Z.leb_spec th (ev s p))]; cbn in H; try done;
    injection H as <- <-; done.
Qed.

(** The invariant of the loop, relative to the parent state: where the
    words come from and which entries have been produced. *)
Record greedy_inv (parent : CortexState) (th : Z) (seen : list ReducerInputPatch) (pre : list RejectedPatch) (g : greedy) : Prop := {
  gi_state : state_ok (g_current g);
  gi_targets : forall i, i ∈ g_targets g <-> exists a, a ∈ g_accepted g /\ i ∈ indices (acc_patch a);
  gi_written : forall a k i w, a ∈ g_accepted g -> indices (acc_patch a) !! k = Some i ->
    newWords (acc_patch a) !! k = Some w -> word_at (g_current g) i = w;
  gi_other : forall i, i ∉ g_targets g -> word_at (g_current g) i = word_at parent i;
  gi_index : forall k a, g_accepted g !! k = Some a -> acceptanceIndex a = Z.of_nat k /\ th <= marginalGain a;
  gi_disjoint : forall j k a b, g_accepted g !! j = Some a -> g_accepted g !! k = Some b -> j <> k ->
    forall i, i ∈ indices (acc_patch a) -> i ∉ indices (acc_patch b);
  gi_partition : map acc_key (g_accepted g) ++ map rej_key (g_rejected g) ≡ₚ map item_key seen ++ map rej_key pre
}.

Lemma greedy_reject_inv parent th seen pre g item reason : greedy_inv parent th seen pre g ->
  greedy_inv parent th (seen ++ [item]) pre (greedy_reject g item reason).
Proof.
  intros [H1 H2 H3 H4 H5 H6 H7]. constructor; cbn [greedy_reject g_current g_accepted g_targets g_rejected]; try done.
  rewrite !map_app. cbn [map]. change (rej_key (mkRejected (item_patch item) (patchBytes item) reason)) with (item_key item).
  rewrite app_assoc, H7. solve_Permutation.
Qed.

Lemma not_overlaps g item : existsb (fun i => bool_decide (i ∈ g_targets g)) (indices (item_patch item)) = false ->
  forall i, i ∈ indices (item_patch item) -> i ∉ g_targets g.
Proof.
  intros H i Hi Ht. apply not_true_iff_false in H. apply H. apply existsb_exists. exists i.
  split; [by apply list_elem_of_In|]. by apply bool_decide_eq_true.
Qed.

Lemma greedy_step_inv parent th r5 seen pre g item : item_wire_ok item ->
  greedy_inv parent th seen pre g -> greedy_inv parent th (seen ++ [item]) pre (greedy_step th r5 g item).
Proof.
  intros Hw Hg. unfold greedy_step. destruct (existsb _ _) eqn:Ho; [by apply greedy_reject_inv|].
  pose proof (not_overlaps g item Ho) as Hno. destruct (evaluateAndApplyOntoCurrent _ _ _ _ _ _ _) as [s' gain|] eqn:E;
    [|by apply greedy_reject_inv].
  destruct Hg as [H1 H2 H3 H4 H5 H6 H7]. apply accept_step_ok in E as ([-> _ _ _ _ _] & _ & Hth); [|done|done].
  pose proof (wire_ok_shape _ Hw) as Hsh. pose proof (proj1 H1) as Hl.
  assert (Hu : Forall uint256 (newWords (item_patch item))) by apply Hw.
  constructor; cbn [g_current g_accepted g_targets g_rejected].
  - by apply patched_ok.
  - intros i. rewrite elem_of_targets, H2. split.
    + intros [Hi|(a & Ha & Hi)]; [eexists; split; [apply elem_of_app; right; by apply list_elem_of_singleton|done]|].
      exists a. split; [apply elem_of_app; by left|done].
    + intros (a & [Ha|Ha%list_elem_of_singleton]%elem_of_app & Hi); [right; eauto|subst a; by left].
  - intros a k i w [Ha|Ha%list_elem_of_singleton]%elem_of_app Hi Hwd.
    + rewrite patched_other; [by eapply H3|done|done|]. intros Hin. apply (Hno i Hin). apply H2. exists a. split; [done|].
      by eapply list_elem_of_lookup_2.
    + subst a. by eapply patched_written.
  - intros i Hi. rewrite elem_of_targets in Hi. rewrite patched_other by (done || tauto). apply H4. tauto.
  - intros k a Ha. apply lookup_app_Some in Ha as [Ha|[Hk Ha]]; [by apply H5|].
    apply list_lookup_singleton_Some in Ha as [Hk' <-]. cbn. split; [f_equal; lia|done].
  - intros j k a b Ha Hb Hjk i Hi Hib.
    assert (Hold : forall x n, g_accepted g !! n = Some x -> i ∈ indices (acc_patch x) -> i ∉ indices (item_patch item)).
    { intros x n Hx Hix Hin. apply (Hno i Hin), H2. exists x. split; [by eapply list_elem_of_lookup_2|done]. }
    apply lookup_app_Some in Ha as [Ha|[Hj Ha]]; apply lookup_app_Some in Hb as [Hb|[Hk Hb]].
    + by eapply (H6 j k).
    + apply list_lookup_singleton_Some in Hb as [_ <-]. by eapply Hold.
    + apply list_lookup_singleton_Some in Ha as [_ <-]. by eapply Hold.
    + apply list_lookup_singleton_Some in Ha as [? _]. apply list_lookup_singleton_Some in Hb as [? _]. lia.
  - rewrite !map_app. cbn [map]. change (acc_key (mkAccepted (item_patch item) (patchBytes item) gain _)) with (item_key item).
    rewrite <- app_assoc. etransitivity; [|]. 2: { rewrite <- app_assoc. apply Permutation_app_head. apply Permutation_app_comm. }
    rewrite (Permutation_app_comm [item_key item]), !app_assoc, H7. done.
Qed.

Lemma greedy_fold_inv parent th r5 items seen pre g : Forall item_wire_ok items ->
  greedy_inv parent th seen pre g -> greedy_inv parent th (seen ++ items) pre (fold_left (greedy_step th r5) items g).
Proof.
  intros Hf. revert seen g. induction Hf as [|item items Hw Hf IH]; intros seen g Hg; cbn [fold_left]; [by rewrite app_nil_r|].
  rewrite cons_middle, app_assoc. apply IH. by apply greedy_step_inv.
Qed.

Lemma prepass_spec root patches el rj : prepass root patches el rj =
  (el ++ filter (fun i => patchMatchesEpochParent (item_patch i) root = true) patches,
   rj ++ map (fun i => mkRejected (item_patch i) (patchBytes i) R03_WRONG_PARENT_ROOT)
           (filter (fun i => patchMatchesEpochParent (item_patch i) root = false) patches)).
Proof.
  revert el rj. induction patches as [|i l IH]; intros el rj; cbn [prepass]; [by rewrite !filter_nil, !app_nil_r|].
  rewrite !filter_cons. destruct (patchMatchesEpochParent (item_patch i) root) eqn:E; cbn [negb]; rewrite IH.
  - rewrite decide_True, decide_False by done. by rewrite <- app_assoc.
  - rewrite decide_False, decide_True by done. cbn [map]. by rewrite <- (app_assoc rj).
Qed.

Lemma filter_bool_perm {A} (f : A -> bool) l : filter (fun x => f x = true) l ++ filter (fun x => f x = false) l ≡ₚ l.
Proof.
  induction l as [|x l IH]; [done|]. rewrite !filter_cons. destruct (f x) eqn:E.
  - rewrite decide_True, decide_False by (done || congruence). cbn. by rewrite IH.
  - rewrite decide_False, decide_True by (done || congruence). by rewrite <- Permutation_middle, IH.
Qed.

(** The candidates of an epoch and the rejections of its pre-pass. *)
Definition eligible_of (parent : CortexState) (patches : list ReducerInputPatch) : list ReducerInputPatch :=
  filter (fun i => patchMatchesEpochParent (item_patch i) (root (cache_of parent)) = true) patches.
Definition prerejected (parent : CortexState) (patches : list ReducerInputPatch) : list RejectedPatch :=
  map (fun i => mkRejected (item_patch i) (patchBytes i) R03_WRONG_PARENT_ROOT)
    (filter (fun i => patchMatchesEpochParent (item_patch i) (root (cache_of parent)) = false) patches).

#[local] Instance eligible_of_proper parent : Proper ((≡ₚ) ==> (≡ₚ)) (eligible_of parent).
Proof. intros l1 l2 H. unfold eligible_of. by rewrite H. Qed.
#[local] Instance prerejected_proper parent : Proper ((≡ₚ) ==> (≡ₚ)) (prerejected parent).
Proof. intros l1 l2 H. unfold prerejected. by rewrite H. Qed.

(** The final variables of the greedy loop. *)
Definition greedy_run (parent : CortexState) (patches : list ReducerInputPatch) (th : Z) (r5 : bool) : greedy :=
  fold_left (greedy_step th r5) (stableSort (eligible_of parent patches) comparePatchPriority)
    (mkGreedy parent [] [] (prerejected parent patches)).

Lemma greedy_run_inv parent patches th r5 : state_ok parent -> Forall item_wire_ok patches ->
  greedy_inv parent th (stableSort (eligible_of parent patches) comparePatchPriority) (prerejected parent patches)
    (greedy_run parent patches th r5).
Proof.
  intros Hs Hw. unfold greedy_run.
  change (stableSort (eligible_of parent patches) comparePatchPriority) with ([] ++ stableSort (eligible_of parent patches) comparePatchPriority) at 1.
  apply greedy_fold_inv.
  - rewrite stableSort_perm. apply Forall_forall. intros x [_ Hx]%list_elem_of_filter. rewrite Forall_forall in Hw. auto.
  - constructor; cbn [g_current g_accepted g_targets g_rejected]; [done| | |done|done|done|done].
    + intros i. split; [intros H; by apply not_elem_of_nil in H|]. intros (a & H & _). by apply not_elem_of_nil in H.
    + intros a k i w H. by apply not_elem_of_nil in H.
Qed.

Lemma reduce_run parent patches th r5 : state_ok parent -> Forall item_wire_ok patches ->
  reduce parent patches th r5 =
  let g := greedy_run parent patches th r5 in
  Returns (mkReducerOutput (g_current g) (computePatchSetRoot (g_accepted g))
       (bytesToHex (computePatchSetRoot (g_accepted g))) (root (cache_of (g_current g)))
       (bytesToHex (root (cache_of (g_current g)))) (g_accepted g) (g_rejected g)).
Proof.
  intros Hs Hw. pose proof (greedy_run_inv parent patches th r5 Hs Hw) as Hg.
  unfold reduce. rewrite merkleizeState_returns by apply Hs. unfold mbind, outcome_bind. rewrite prepass_spec.
  cbn [app]. fold (eligible_of parent patches) (prerejected parent patches) (greedy_run parent patches th r5).
  rewrite merkleizeState_returns by apply (gi_state _ _ _ _ _ Hg). done.
Qed.

(** C5. The batch reducer on wire patches: it always returns; its output lists
    partition the input; the accepted patches have pairwise disjoint
    targets, meet the threshold, and are numbered in order; in the new state
    every accepted write is in place and every other word is the parent's;
    the reported root is the new state's Merkle root. *)
Theorem reduce_sound (parent : CortexState) (patches : list ReducerInputPatch) (th : Z) (r5 : bool) :
  state_ok parent -> Forall item_wire_ok patches ->
  exists o, reduce parent patches th r5 = Returns o
  /\ map acc_key (accepted o) ++ map rej_key (rejected o) ≡ₚ map item_key patches
  /\ (forall k a, accepted o !! k = Some a -> acceptanceIndex a = Z.of_nat k /\ th <= marginalGain a)
  /\ (forall j k a b, accepted o !! j = Some a -> accepted o !! k = Some b -> j <> k ->
       forall i, i ∈ indices (acc_patch a) -> i ∉ indices (acc_patch b))
  /\ state_ok (newState o)
  /\ (forall a k i w, a ∈ accepted o -> indices (acc_patch a) !! k = Some i -> newWords (acc_patch a) !! k = Some w ->
       word_at (newState o) i = w)
  /\ (forall i, (forall a, a ∈ accepted o -> i ∉ indices (acc_patch a)) -> word_at (newState o) i = word_at parent i)
  /\ merkleizeState (newState o) = Returns (newStateRoot o).
Proof.
  intros Hs Hw. rewrite reduce_run by done. pose proof (greedy_run_inv parent patches th r5 Hs Hw) as Hg. eexists. split; [reflexivity|].
  destruct Hg as [H1 H2 H3 H4 H5 H6 H7]. cbn [accepted rejected newState newStateRoot].
  split. { rewrite H7. unfold eligible_of, prerejected. rewrite stableSort_perm, map_map. rewrite <- map_app. by rewrite filter_bool_perm. }
  split; [done|]. split; [done|]. split; [done|]. split; [done|]. split.
  - intros i Hi. apply H4. rewrite H2. intros (a & Ha & Hin). by eapply Hi.
  - apply merkleizeState_returns, H1.
Qed.

(** ** Order independence *)
Lemma greedy_fold_rejected th r5 items c a t r :
  fold_left (greedy_step th r5) items (mkGreedy c a t r)
  = let g := fold_left (greedy_step th r5) items (mkGreedy c a t []) in
    mkGreedy (g_current g) (g_accepted g) (g_targets g) (r ++ g_rejected g).
Proof.
  revert c a t r. induction items as [|i items IH]; intros c a t r; cbn [fold_left]; [by rewrite app_nil_r|].
  assert (E : forall r, greedy_step th r5 (mkGreedy c a t r) i
    = let g := greedy_step th r5 (mkGreedy c a t []) i in mkGreedy (g_current g) (g_accepted g) (g_targets g) (r ++ g_rejected g)).
  { intros r'. unfold greedy_step, greedy_reject. cbn [g_current g_accepted g_targets g_rejected].
    destruct (existsb _ _); [done|]. destruct (evaluateAndApplyOntoCurrent _ _ _ _ _ _ _); cbn; [by rewrite app_nil_r|done]. }
  rewrite E. cbv zeta. rewrite IH. destruct (greedy_step th r5 (mkGreedy c a t []) i) as [c1 a1 t1 r1].
  cbn [g_current g_accepted g_targets g_rejected]. rewrite (IH c1 a1 t1 r1). cbn. by rewrite app_assoc.
Qed.

(** When no two distinct candidates tie on (score, size, patch hash), the
    accepted patches, the new state and both roots do not depend on the
    order in which the candidates arrived; the rejections are the same up to
    order. *)
Theorem reduce_order_independent (parent : CortexState) (l1 l2 : list ReducerInputPatch) (th : Z) (r5 : bool) :
  state_ok parent -> Forall item_wire_ok l1 -> l1 ≡ₚ l2 ->
  (forall a b, a ∈ l1 -> b ∈ l1 -> item_scoreDelta a = item_scoreDelta b ->
     wordCount (item_patch a) = wordCount (item_patch b) ->
     computePatchHash (patchBytes a) = computePatchHash (patchBytes b) -> a = b) ->
  exists o1 o2, reduce parent l1 th r5 = Returns o1 /\ reduce parent l2 th r5 = Returns o2
  /\ accepted o1 = accepted o2 /\ newState o1 = newState o2 /\ newStateRoot o1 = newStateRoot o2
  /\ patchSetRoot o1 = patchSetRoot o2 /\ rejected o1 ≡ₚ rejected o2.
Proof.
  intros Hs Hw Hp Hd. assert (Hw2 : Forall item_wire_ok l2) by (by rewrite <- Hp).
  rewrite !reduce_run by done.
  assert (Hsort : stableSort (eligible_of parent l1) comparePatchPriority = stableSort (eligible_of parent l2) comparePatchPriority).
  { apply stableSort_unique; [apply _|by rewrite Hp|].
    intros a b Ha Hb H1%compare_before H2%compare_before.
    apply list_elem_of_filter in Ha as [_ Ha]. apply list_elem_of_filter in Hb as [_ Hb].
    destruct (before_antisym a b H1 H2) as (? & ? & ?). by apply Hd. }
  eexists _, _. split; [reflexivity|]. split; [reflexivity|]. cbn [accepted newState newStateRoot patchSetRoot rejected].
  unfold greedy_run. rewrite Hsort, !(greedy_fold_rejected _ _ _ _ _ _ (prerejected _ _)). cbn [g_current g_accepted g_rejected].
  repeat split. apply Permutation_app_tail. by rewrite Hp.
Qed.

(** The patch-set root commits to the accepted bytes in order. *)
Lemma computePatchSetRoot_spec acc : computePatchSetRoot acc = keccak256 (concat (map (fun a => keccak256 (acc_patchBytes a)) acc)).
Proof.
  unfold computePatchSetRoot. destruct acc as [|a0 acc0]; [done|]. cbn [length Nat.eqb]. f_equal.
  assert (H : forall l pre n, (32 * length l = n)%nat -> forall k, length pre = (k * 32)%nat ->
    fold_left (fun buf '(i, a) => u8_set buf (i * 32) (keccak256 (acc_patchBytes a))) (imap (fun i a => ((k + i)%nat, a)) l) (pre ++ zeros n)
    = pre ++ concat (map (fun a => keccak256 (acc_patchBytes a)) l)).
  { induction l as [|a l IH]; intros pre n Hn k Hk; cbn [imap map concat fold_left].
    - cbn in Hn. subst n. done.
    - rewrite Nat.add_0_r, <- Hk, u8_set_app by (rewrite length_keccak256; cbn in Hn; lia).
      rewrite length_keccak256. rewrite (imap_ext _ (fun i a => ((S k + i)%nat, a))) by (intros; cbn; f_equal; lia).
      rewrite IH; [by rewrite <- app_assoc|cbn in Hn; lia|]. rewrite length_app, length_keccak256, Hk. lia. }
  specialize (H (a0 :: acc0) [] (length (a0 :: acc0) * 32)%nat ltac:(lia) 0%nat eq_refl). cbn [app] in H. exact H.
Qed.

(** The byte strings hashed for a patch-set root: the leaf buffer and the patches. *)
Definition patchSet_inputs (acc : list AcceptedPatch) : list bytes :=
  concat (map (fun a => keccak256 (acc_patchBytes a)) acc) :: map acc_patchBytes acc.

Lemma leaf_buffer_inj a1 a2 :
  concat (map (fun a => keccak256 (acc_patchBytes a)) a1) = concat (map (fun a => keccak256 (acc_patchBytes a)) a2) ->
  map keccak256 (map acc_patchBytes a1) = map keccak256 (map acc_patchBytes a2).
Proof.
  revert a2. induction a1 as [|x a1 IH]; intros [|y a2] E; [done| | |]; cbn [map concat] in *.
  1-2: apply (f_equal length) in E; rewrite length_app, length_keccak256 in E; cbn in E; lia.
  apply app_inj_1 in E as [-> E]; [|by rewrite !length_keccak256]. f_equal. by apply IH.
Qed.

(** Two accepted sets with the same root are the same byte strings in the
    same order, or the hash collides on two of the byte strings hashed. *)
Theorem patchSetRoot_binding (a1 a2 : list AcceptedPatch) :
  computePatchSetRoot a1 = computePatchSetRoot a2 ->
  map acc_patchBytes a1 = map acc_patchBytes a2 \/ collides (patchSet_inputs a1) (patchSet_inputs a2).
Proof.
  intros E. rewrite !computePatchSetRoot_spec in E. unfold patchSet_inputs.
  set (buf := fun a => concat (map (fun a => keccak256 (acc_patchBytes a)) a)) in *.
  change (keccak256 (buf a1) = keccak256 (buf a2)) in E. destruct (decide (buf a1 = buf a2)) as [Ec|Ec].
  - destruct (map_hash_eq _ _ (leaf_buffer_inj a1 a2 Ec)) as [Ec'|(x & y & H1 & H2 & H3 & H4)]; [left; exact Ec'|right].
    exists x, y. rewrite !elem_of_cons. auto.
  - right. exists (buf a1), (buf a2). rewrite !elem_of_cons. auto.
Qed.
End ReduceTheorems.

(** ** Witnesses: two non-overlapping candidates. *)
Definition patch_w2 : Patch := mkPatch PATCH_TYPE.SLOT_REPLACE 2 5 (zeros 32) [33; 34] [6; 7].
Definition item_1 : ReducerInputPatch := mkItem patch_w (patch_wire patch_w) 0 stubMarginalEvaluator.
Definition item_2 : ReducerInputPatch := mkItem patch_w2 (patch_wire patch_w2) 5 stubMarginalEvaluator.

Lemma items_ok : Forall item_wire_ok [item_1; item_2].
Proof. constructor; [apply patch_w_wire_ok|]. constructor; [|constructor]. apply (bool_decide_unpack _). vm_compute. reflexivity. Qed.

Lemma reduce_sound_witness : exists o, reduce (HK:=const_hasher) zero_state [item_1; item_2] 0 true = Returns o
  /\ map acc_key (accepted o) ++ map rej_key (rejected o) ≡ₚ map item_key [item_1; item_2]
  /\ merkleizeState (HK:=const_hasher) (newState o) = Returns (newStateRoot o).
Proof.
  destruct (reduce_sound (HK:=const_hasher) zero_state [item_1; item_2] 0 true) as (o & H1 & H2 & _ & _ & _ & _ & _ & H8);
    [apply zero_state_ok|apply items_ok|]. exists o. exact (conj H1 (conj H2 H8)).
Defined.

Example reduce_accepts_both :
  match reduce (HK:=const_hasher) zero_state [item_1; item_2] 0 true with
  | Returns o => map acc_patch (accepted o) = [patch_w2; patch_w] /\ rejected o = []
                 /\ map (word_at (newState o)) [32; 33; 34; 35] = [5; 6; 7; 0]
  | Throws _ => False
  end.
Proof. vm_compute. repeat split. Qed.

Lemma reduce_order_independent_witness :
  exists o1 o2, reduce (HK:=const_hasher) zero_state [item_1; item_2] 0 true = Returns o1
  /\ reduce (HK:=const_hasher) zero_state [item_2; item_1] 0 true = Returns o2
  /\ accepted o1 = accepted o2 /\ newState o1 = newState o2 /\ newStateRoot o1 = newStateRoot o2
  /\ patchSetRoot o1 = patchSetRoot o2 /\ rejected o1 ≡ₚ rejected o2.
Proof.
  apply (reduce_order_independent (HK:=const_hasher) zero_state [item_1; item_2] [item_2; item_1] 0 true);
    [apply zero_state_ok|apply items_ok|apply Permutation_swap|].
  intros a b Ha Hb E _ _. apply list_elem_of_In in Ha, Hb. cbn in Ha, Hb.
  destruct Ha as [<-|[<-|[]]], Hb as [<-|[<-|[]]]; try reflexivity; discriminate E.
Defined.

Definition acc_1 : AcceptedPatch := mkAccepted patch_w (patch_wire patch_w) 0 0.

Lemma patchSetRoot_binding_witness : map acc_patchBytes [acc_1] = map acc_patchBytes [acc_1]
  \/ collides (HK:=keccak_hasher) (patchSet_inputs (HK:=keccak_hasher) [acc_1]) (patchSet_inputs (HK:=keccak_hasher) [acc_1]).
Proof. apply (patchSetRoot_binding (HK:=keccak_hasher) [acc_1] [acc_1]). reflexivity. Defined.
