(* ===== verification/VerifyEpoch.v ===== *)
(** * Epoch verification (packages/coretex/src/verify-epoch/index.ts)

    [verifyEpoch] rebuilds a finalized epoch from chain data alone: a snapshot
    (or the genesis state), the accepted-patch events and the finalized event.
    [runReducer] keeps the events bound to the parent root and to their patch
    hash, orders them and applies them greedily; the three log decoders read
    the events.

    Two identical patches compare as 1 both ways round, so the comparator is
    not consistent there; the engine's order of the two is immaterial, because
    the records that the loop uses are the same ([verifyEpoch_perm]).

    Theorems: what a matching verification means; the events the batch
    reducer's epoch puts on the chain verify to its root, in any order and
    among any forged events; the arrival order is immaterial. *)
From Stdlib Require Import Ascii Sorted.
From stdpp Require Import sorting.
From S2P Require Import Prelude JsSort StateTypes Float Codec Keccak Merkle Decoder Substrate Validate Patch SeedDerivation Abi Reducer.
#[local] Open Scope Z_scope.

(** ** Chain events *)
Record PatchAcceptedEvent := mkPatchAccepted {
  pa_epoch : Z;
  miner : string;
  pa_parentStateRoot : string;
  pa_patchHash : string;
  evalReportHash : string;
  compactPatchBytes : bytes
}.

Record EpochFinalizedEvent := mkEpochFinalized {
  ef_epoch : Z;
  ef_parentStateRoot : string;
  ef_patchSetRoot : string;
  ef_newStateRoot : string;
  coreVersionHash : string;
  experienceCorpusRoot : string
}.

Record StateSnapshotEvent := mkStateSnapshot { ss_epoch : Z; ss_stateRoot : string; fullStateBytes : bytes }.

Definition hexEq (a b : string) : bool := String.eqb (toLowerCase a) (toLowerCase b).

(** ** Log decoders *)
Definition readSlice32 (data : bytes) (offset : Z) : bytes := subarray data offset 32.

(** [Number(...)] of an offset or length above 2^53 rounds, but every such value is past the end of the data, where the
    reads are clamped. *)
Definition readBigEndian32From (data : bytes) (offset : Z) : Z := readWord data offset.

Definition decodeAddress (padded : string) : string := String.append "0x" (toLowerCase (slice_last 40 (strip_0x padded))).

(** [data.startsWith('0x') ? data : '0x' + data] *)
Definition with_0x (s : string) : string := match s with String "0" (String "x" _) => s | _ => String.append "0x" s end.

Definition decodePatchAcceptedLog (topics : list string) (data : string) : outcome PatchAcceptedEvent :=
  epoch ← topicBig (topics !! 1%nat);
  let miner := decodeAddress (default (bytesToHex (zeros 32)) (topics !! 2%nat)) in
  dataBytes ← hexToBytes (with_0x data);
  let parentStateRoot := bytesToHex (readSlice32 dataBytes 0) in
  let patchHash := bytesToHex (readSlice32 dataBytes 32) in
  let evalReportHash := bytesToHex (readSlice32 dataBytes 64) in
  let dynamicOffset := readBigEndian32From dataBytes 96 in
  let byteLen := readBigEndian32From dataBytes dynamicOffset in
  let compactPatchBytes := subarray dataBytes (dynamicOffset + 32) byteLen in
  Returns (mkPatchAccepted epoch miner parentStateRoot patchHash evalReportHash compactPatchBytes).

Definition decodeEpochFinalizedLog (topics : list string) (data : string) : outcome EpochFinalizedEvent :=
  epoch ← topicBig (topics !! 1%nat);
  dataBytes ← hexToBytes (with_0x data);
  Returns (mkEpochFinalized epoch (bytesToHex (readSlice32 dataBytes 0)) (bytesToHex (readSlice32 dataBytes 32))
    (bytesToHex (readSlice32 dataBytes 64)) (bytesToHex (readSlice32 dataBytes 96)) (bytesToHex (readSlice32 dataBytes 128))).

Definition decodeStateSnapshotLog (topics : list string) (data : string) : outcome StateSnapshotEvent :=
  epoch ← topicBig (topics !! 1%nat);
  dataBytes ← hexToBytes (with_0x data);
  let stateRoot := bytesToHex (readSlice32 dataBytes 0) in
  let dynamicOffset := readBigEndian32From dataBytes 32 in
  let byteLen := readBigEndian32From dataBytes dynamicOffset in
  Returns (mkStateSnapshot epoch stateRoot (subarray dataBytes (dynamicOffset + 32) byteLen)).

(** ** Results *)
Inductive VerifyEpochCode := NO_FINALIZED_EVENT | NO_SNAPSHOT_OR_GENESIS | SNAPSHOT_DECODE_ERROR.
Inductive VerifySource := snapshot | genesis.

Record VerifyEpochSuccess := mkSuccess {
  ve_epoch : Z;
  reproducedStateRoot : string;
  expectedStateRoot : string;
  ve_match : bool;
  patchesProcessed : Z;
  acceptedPatchHashes : list string;
  source : VerifySource
}.

(** The message of an error is its code, the epoch and the exception of the snapshot decode. *)
Inductive VerifyEpochResult :=
  | VerifyEpochOk (v : VerifyEpochSuccess)
  | VerifyEpochError (code : VerifyEpochCode) (epoch : Z) (cause : option js_error).

Record VerifyEpochInput := mkInput {
  in_epoch : Z;
  finalizedEvent : option EpochFinalizedEvent;
  patchEvents : list PatchAcceptedEvent;
  snapshotEvent : option StateSnapshotEvent;
  genesisState : option CortexState;
  in_policyAtomsMode : option bool
}.

(** ** The reducer *)
(** The records the reducer sorts. *)
Record Decoded := mkDecoded { d_ev : PatchAcceptedEvent; d_patch : Patch; computedPatchHash : string }.

(** The variables of the apply loop. *)
Record run := mkRun { usedIndices : list Z; currentState : CortexState; acceptedHashes : list string }.

Section WithHasher.
Context {HK : Hasher}.

(** The filter of the pre-pass. *)
Definition eligible_event (parentRoot : string) (p : PatchAcceptedEvent) : bool :=
  if negb (hexEq (pa_parentStateRoot p) parentRoot) then false
  else match decodePatch (compactPatchBytes p) with
  | Throws _ => false
  | Returns patch =>
    if negb (hexEq (bytesToHex (parentStateRoot patch)) parentRoot) then false
    else hexEq (pa_patchHash p) (computePatchHash (compactPatchBytes p))
  end.

Definition decode_event (ev : PatchAcceptedEvent) : outcome Decoded :=
  patch ← decodePatch (compactPatchBytes ev);
  Returns (mkDecoded ev patch (computePatchHash (compactPatchBytes ev))).

Definition decoded_cmp (a b : Decoded) : Z :=
  if scoreDelta (d_patch b) <? scoreDelta (d_patch a) then -1
  else if scoreDelta (d_patch a) <? scoreDelta (d_patch b) then 1
  else if negb (wordCount (d_patch a) =? wordCount (d_patch b)) then wordCount (d_patch a) - wordCount (d_patch b)
  else if string_lt (computedPatchHash a) (computedPatchHash b) then -1 else 1.

Definition run_step (policyAtomsMode : bool) (r : run) (patch : Patch) (hash : string) : run :=
  if existsb (fun i => bool_decide (i ∈ usedIndices r)) (indices patch) then r
  else match applyPatchOntoCurrent (currentState r) patch policyAtomsMode with
  | PatchFailure _ => r
  | PatchSuccess state =>
    mkRun (fold_left (fun s i => jsset_add i s) (indices patch) (usedIndices r)) state (acceptedHashes r ++ [hash])
  end.

Definition runReducer (parentState : CortexState) (patches : list PatchAcceptedEvent) (policyAtomsMode : bool)
  : outcome (CortexState * list string) :=
  root ← merkleizeState parentState;
  let parentRoot := bytesToHex root in
  let eligible := List.filter (eligible_event parentRoot) patches in
  decoded ← mapM decode_event eligible;
  let sorted := stableSort decoded decoded_cmp in
  let r := fold_left (fun r d => run_step policyAtomsMode r (d_patch d) (computedPatchHash d)) sorted (mkRun [] parentState []) in
  Returns (currentState r, acceptedHashes r).

Definition verify_from (input : VerifyEpochInput) (fin : EpochFinalizedEvent) (startState : CortexState) (source : VerifySource)
  : outcome VerifyEpochResult :=
  r ← runReducer startState (patchEvents input) (bool_decide (in_policyAtomsMode input = Some true));
  root ← merkleizeState r.1;
  let reproduced := toLowerCase (bytesToHex root) in
  let expected := toLowerCase (ef_newStateRoot fin) in
  Returns (VerifyEpochOk (mkSuccess (in_epoch input) reproduced expected (String.eqb reproduced expected)
    (Z.of_nat (length (patchEvents input))) r.2 source)).

Definition verifyEpoch (input : VerifyEpochInput) : outcome VerifyEpochResult :=
  match finalizedEvent input with
  | None => Returns (VerifyEpochError NO_FINALIZED_EVENT (in_epoch input) None)
  | Some fin =>
    match snapshotEvent input with
    | Some ev =>
      match unpack (fullStateBytes ev) with
      | Returns startState => verify_from input fin startState snapshot
      | Throws err => Returns (VerifyEpochError SNAPSHOT_DECODE_ERROR (in_epoch input) (Some err))
      end
    | None =>
      match genesisState input with
      | Some startState => verify_from input fin startState genesis
      | None => Returns (VerifyEpochError NO_SNAPSHOT_OR_GENESIS (in_epoch input) None)
      end
    end
  end.
End WithHasher.

(** ** Specification *)
Section Spec.
Context {HK : Hasher}.

(** A sequence of accepted patches. *)
Inductive applied (r5 : bool) : CortexState -> list Patch -> CortexState -> Prop :=
  | applied_nil s : applied r5 s [] s
  | applied_cons s p s1 ps s2 : accepts s p r5 s1 -> applied r5 s1 ps s2 -> applied r5 s (p :: ps) s2.

Definition disjoint_targets (p q : Patch) : Prop := forall i, i ∈ indices p -> i ∉ indices q.

(** The reducer's order on a patch and its hash: higher score, then fewer words, then smaller hash. *)
Definition key_le (a b : Patch * string) : Prop :=
  scoreDelta b.1 < scoreDelta a.1
  \/ scoreDelta b.1 = scoreDelta a.1
     /\ (wordCount a.1 < wordCount b.1 \/ wordCount a.1 = wordCount b.1 /\ string_lt b.2 a.2 = false).

(** The state a verification starts from. *)
Definition starts (input : VerifyEpochInput) (parent : CortexState) : Prop :=
  match snapshotEvent input with
  | Some e => bytes_ok (fullStateBytes e) /\ unpack (fullStateBytes e) = Returns parent
  | None => genesisState input = Some parent /\ state_ok parent
  end.

(** An event whose bytes are this patch, built on [parent] and carrying its hash. *)
Record bound_event (parent : CortexState) (ev : PatchAcceptedEvent) (p : Patch) : Prop := {
  be_wire : wire_ok p;
  be_bytes_of : compactPatchBytes ev = patch_wire p;
  be_parent : merkleizeState parent = Returns (parentStateRoot p);
  be_event_parent : toLowerCase (pa_parentStateRoot ev) = bytesToHex (parentStateRoot p);
  be_hash : toLowerCase (pa_patchHash ev) = computePatchHash (patch_wire p)
}.

Definition r5_of (input : VerifyEpochInput) : bool := bool_decide (in_policyAtomsMode input = Some true).
End Spec.

Section Lemmas.
Context {HK : Hasher}.

Lemma key_le_trans a b c : key_le a b -> key_le b c -> key_le a c.
Proof.
  unfold key_le. intros [H1|[H1 [H1'|[H1' H1'']]]] [H2|[H2 [H2'|[H2' H2'']]]]; try lia.
  right. split; [lia|]. right. split; [lia|]. rewrite <- string_cmp_le in *. by eapply cmp_trans.
Qed.

Lemma key_le_antisym a b : key_le a b -> key_le b a -> a.2 = b.2.
Proof.
  unfold key_le. intros [?|[? [?|[? H1]]]] [?|[? [?|[? H2]]]]; try lia. by apply string_lt_total.
Qed.

Definition key (d : Decoded) : Patch * string := (d_patch d, computedPatchHash d).

Lemma decoded_cmp_le a b : decoded_cmp a b <= 0 -> key_le (key a) (key b).
Proof.
  unfold decoded_cmp, key_le, key. cbn [fst snd].
  destruct (Z.ltb_spec (scoreDelta (d_patch b)) (scoreDelta (d_patch a))); [lia|].
  destruct (Z.ltb_spec (scoreDelta (d_patch a)) (scoreDelta (d_patch b))); [lia|].
  destruct (Z.eqb_spec (wordCount (d_patch a)) (wordCount (d_patch b))); cbn [negb]; [|lia].
  destruct (string_lt _ _) eqn:E; [|lia]. intros _. right. split; [lia|]. right. split; [done|]. by apply string_lt_asym.
Qed.

Lemma decoded_cmp_gt a b : 0 < decoded_cmp a b -> key_le (key b) (key a).
Proof.
  unfold decoded_cmp, key_le, key. cbn [fst snd].
  destruct (Z.ltb_spec (scoreDelta (d_patch b)) (scoreDelta (d_patch a))); [lia|].
  destruct (Z.ltb_spec (scoreDelta (d_patch a)) (scoreDelta (d_patch b))); [lia|].
  destruct (Z.eqb_spec (wordCount (d_patch a)) (wordCount (d_patch b))); cbn [negb]; [|lia].
  destruct (string_lt _ _) eqn:E; [lia|]. intros _. right. split; [lia|]. right. done.
Qed.

Lemma sorted_keys ds : StronglySorted key_le (map key (stableSort ds decoded_cmp)).
Proof.
  apply (StronglySorted_fmap key (fun a b => key_le (key a) (key b)) key_le); [done|].
  apply stableSort_sorted_by; [intros a b c; by apply key_le_trans|apply decoded_cmp_le|apply decoded_cmp_gt].
Qed.

(** Sorting two rearrangements of the same keys gives the same keys, when equal hashes mean equal keys. *)
Lemma sorted_keys_unique ks ds : StronglySorted key_le ks -> map key ds ≡ₚ ks ->
  (forall a b, a ∈ ks -> b ∈ ks -> a.2 = b.2 -> a = b) -> map key (stableSort ds decoded_cmp) = ks.
Proof.
  intros Hk Hp Hu. apply (StronglySorted_unique_strong key_le); [|apply sorted_keys|done|].
  - intros a b Ha Hb Hab Hba. apply Hu; [|done|by apply key_le_antisym]. rewrite <- Hp. 
    change (map key) with (fmap (M:=list) key) in *. by rewrite stableSort_perm in Ha.
  - rewrite <- Hp. change (map key) with (fmap (M:=list) key). by rewrite stableSort_perm.
Qed.

(** ** The apply loop *)
Definition run_all (r5 : bool) (r : run) (ks : list (Patch * string)) : run := fold_left (fun r k => run_step r5 r k.1 k.2) ks r.

Lemma run_all_keys r5 r ds : fold_left (fun r d => run_step r5 r (d_patch d) (computedPatchHash d)) ds r = run_all r5 r (map key ds).
Proof. revert r. induction ds as [|d ds IH]; intros r; [done|]. apply IH. Qed.

Lemma not_used r p : existsb (fun i => bool_decide (i ∈ usedIndices r)) (indices p) = false -> forall i, i ∈ indices p -> i ∉ usedIndices r.
Proof.
  intros H i Hi Ht. apply not_true_iff_false in H. apply H, existsb_exists. exists i. split; [by apply list_elem_of_In|]. by apply bool_decide_eq_true.
Qed.

Lemma run_all_spec {T} (f : T -> Patch * string) r5 ds r : state_ok (currentState r) -> Forall (fun d => wire_ok (f d).1) ds ->
  exists acc, acc `sublist_of` ds
  /\ acceptedHashes (run_all r5 r (map f ds)) = acceptedHashes r ++ map (fun d => (f d).2) acc
  /\ applied r5 (currentState r) (map (fun d => (f d).1) acc) (currentState (run_all r5 r (map f ds)))
  /\ StronglySorted disjoint_targets (map (fun d => (f d).1) acc)
  /\ (forall d i, d ∈ acc -> i ∈ indices (f d).1 -> i ∉ usedIndices r)
  /\ state_ok (currentState (run_all r5 r (map f ds))).
Proof.
  intros Hs Hw. revert r Hs. induction Hw as [|d ds Hd Hw IH]; intros r Hs.
  { exists []. split; [done|]. split; [by rewrite app_nil_r|]. split; [constructor|]. split; [constructor|]. split; [|done]. intros d i H. by apply not_elem_of_nil in H. }
  unfold run_all. cbn [map fold_left]. fold (run_all r5 (run_step r5 r (f d).1 (f d).2) (map f ds)).
  assert (Hskip : run_step r5 r (f d).1 (f d).2 = r -> exists acc, acc `sublist_of` d :: ds
    /\ acceptedHashes (run_all r5 (run_step r5 r (f d).1 (f d).2) (map f ds)) = acceptedHashes r ++ map (fun d => (f d).2) acc
    /\ applied r5 (currentState r) (map (fun d => (f d).1) acc) (currentState (run_all r5 (run_step r5 r (f d).1 (f d).2) (map f ds)))
    /\ StronglySorted disjoint_targets (map (fun d => (f d).1) acc)
    /\ (forall d i, d ∈ acc -> i ∈ indices (f d).1 -> i ∉ usedIndices r)
    /\ state_ok (currentState (run_all r5 (run_step r5 r (f d).1 (f d).2) (map f ds)))).
  { intros ->. destruct (IH r Hs) as (acc & H1 & H2 & H3 & H4 & H5 & H6). exists acc. split; [by constructor|]. done. }
  unfold run_step in *. destruct (existsb _ _) eqn:Eo; [by apply Hskip|]. pose proof (not_used _ _ Eo) as Hno.
  destruct (applyPatchOntoCurrent _ _ _) as [s1|e] eqn:Ea; [clear Hskip|by apply Hskip].
  apply applyPatchOntoCurrent_accepts in Ea; [|done..].
  assert (Hs1 : state_ok s1) by (rewrite (acc_result _ _ _ _ Ea); apply patched_ok; [done|apply Hd]).
  match goal with |- context [run_all r5 ?x _] => destruct (IH x Hs1) as (acc & H1 & H2 & H3 & H4 & H5 & H6) end.
  cbn [acceptedHashes currentState usedIndices] in *.
  assert (Hout : forall a, a ∈ acc -> disjoint_targets (f d).1 (f a).1 /\ forall i, i ∈ indices (f a).1 -> i ∉ usedIndices r).
  { intros a Ha. split; intros i Hi; [intros Hi'|]; [apply (H5 a i Ha Hi')|intros Hu; apply (H5 a i Ha Hi)]; rewrite elem_of_targets; tauto. }
  exists (d :: acc). split; [by constructor|]. split; [by rewrite H2, <- app_assoc|]. split; [by econstructor|]. split; [|split; [|done]].
  - cbn [map]. apply StronglySorted_cons. split; [|done]. apply Forall_forall. intros p (a & -> & Ha)%list_elem_of_fmap. by apply Hout.
  - intros a i [->|Ha]%elem_of_cons Hi; [by apply Hno|by apply (Hout a Ha)].
Qed.

(** ** The pre-pass *)
Lemma hexEq_hex a bs : hexEq a (bytesToHex bs) = true <-> toLowerCase a = bytesToHex bs.
Proof. unfold hexEq. by rewrite toLowerCase_hex, String.eqb_eq. Qed.

Lemma eligible_event_spec parent ev : state_ok parent -> bytes_ok (compactPatchBytes ev) ->
  eligible_event (bytesToHex (root (cache_of parent))) ev = true <-> exists p, bound_event parent ev p.
Proof.
  intros [Hl _] Hb. unfold eligible_event, computePatchHash. split.
  - destruct (hexEq (pa_parentStateRoot ev) _) eqn:E1; [|done]. cbn [negb]. destruct (decodePatch _) as [p|] eqn:Ed; [|done].
    destruct (decodePatch_inv _ _ Hb Ed) as [Hw Hbs].
    destruct (hexEq (bytesToHex (parentStateRoot p)) _) eqn:E2; [|done]. cbn [negb]. intros E3.
    apply hexEq_hex in E1, E2, E3. rewrite toLowerCase_hex in E2. apply bytesToHex_inj in E2; [|apply Hw|apply root_bytes_ok].
    exists p. split; [exact Hw|exact Hbs|rewrite merkleizeState_returns; [apply (f_equal Returns); exact (eq_sym E2)|exact Hl]|exact (eq_trans E1 (f_equal bytesToHex (eq_sym E2)))|]. unfold computePatchHash. rewrite E3, Hbs. reflexivity.
  - intros (p & [Hw Hbs Hp Hev Hh]). rewrite merkleizeState_returns in Hp by done. apply Returns_inj in Hp. rewrite Hbs, Hp, decodePatch_wire by done.
    rewrite (proj2 (hexEq_hex (pa_parentStateRoot ev) _) Hev), (proj2 (hexEq_hex (bytesToHex _) _)) by apply toLowerCase_hex. cbn [negb].
    apply hexEq_hex. exact Hh.
Qed.

Definition decoded_of (ev : PatchAcceptedEvent) (p : Patch) : Decoded := mkDecoded ev p (computePatchHash (patch_wire p)).

Lemma bound_decodes parent ev p : bound_event parent ev p -> decode_event ev = Returns (decoded_of ev p).
Proof. intros [Hw Hb _ _ _]. unfold decode_event. by rewrite Hb, decodePatch_wire by done. Qed.

Definition bound_decoded (parent : CortexState) (d : Decoded) : Prop := bound_event parent (d_ev d) (d_patch d) /\ d = decoded_of (d_ev d) (d_patch d).

Definition eligible_events (parent : CortexState) (evs : list PatchAcceptedEvent) : list PatchAcceptedEvent :=
  List.filter (eligible_event (bytesToHex (root (cache_of parent)))) evs.

Lemma decode_eligible parent evs : state_ok parent -> Forall (fun e => bytes_ok (compactPatchBytes e)) evs ->
  exists ds, mapM decode_event (eligible_events parent evs) = Returns ds /\ map d_ev ds = eligible_events parent evs
  /\ Forall (bound_decoded parent) ds.
Proof.
  intros Hs Hb. unfold eligible_events. induction Hb as [|ev evs Hb _ IH]; [by exists []|]. cbn [List.filter].
  destruct (eligible_event _ ev) eqn:E; [|done]. destruct IH as (ds & H1 & H2 & H3).
  apply eligible_event_spec in E as (p & Hp); [|done|done]. exists (decoded_of ev p :: ds). cbn [mapM map].
  rewrite (bound_decodes parent ev p Hp). cbn [mbind outcome_bind]. rewrite H1. split; [done|]. rewrite H2. split; [done|]. by constructor.
Qed.

Lemma runReducer_run parent evs r5 ds : state_ok parent -> mapM decode_event (eligible_events parent evs) = Returns ds ->
  runReducer parent evs r5 = let r := run_all r5 (mkRun [] parent []) (map key (stableSort ds decoded_cmp)) in Returns (currentState r, acceptedHashes r).
Proof.
  intros [Hl _] Hd. unfold runReducer. rewrite merkleizeState_returns by done. cbn [mbind outcome_bind]. fold (eligible_events parent evs).
  rewrite Hd. cbn [mbind outcome_bind]. by rewrite run_all_keys.
Qed.

(** ** The reducer's result does not depend on the order of the events. *)
Lemma bound_key parent d : bound_decoded parent d -> key d = (d_patch d, computePatchHash (compactPatchBytes (d_ev d))).
Proof. intros [[_ Hb _ _ _] ->]. unfold key, decoded_of. cbn [d_patch computedPatchHash d_ev]. by rewrite Hb. Qed.

(** Events that agree in hash agree in bytes. *)
Definition no_hash_clash (evs : list PatchAcceptedEvent) : Prop := forall a b, a ∈ evs -> b ∈ evs ->
  computePatchHash (compactPatchBytes a) = computePatchHash (compactPatchBytes b) -> compactPatchBytes a = compactPatchBytes b.

Lemma bound_keys_clash parent evs ds : Forall (bound_decoded parent) ds -> map d_ev ds = eligible_events parent evs -> no_hash_clash evs ->
  forall a b, a ∈ map key ds -> b ∈ map key ds -> a.2 = b.2 -> a = b.
Proof.
  intros Hb He Hn a b (x & -> & Hx)%list_elem_of_fmap (y & -> & Hy)%list_elem_of_fmap E. rewrite Forall_forall in Hb.
  pose proof (Hb x Hx) as Bx. pose proof (Hb y Hy) as By. rewrite (bound_key _ _ Bx), (bound_key _ _ By) in *. cbn [snd] in E.
  assert (Hin : forall d, d ∈ ds -> d_ev d ∈ evs).
  { intros d Hd. assert (Hd' : d_ev d ∈ eligible_events parent evs) by (rewrite <- He; by apply (list_elem_of_fmap_2 d_ev)).
    apply list_elem_of_In in Hd'. unfold eligible_events in Hd'. apply filter_In in Hd' as [Hd' _]. by apply list_elem_of_In. }
  pose proof (Hn _ _ (Hin x Hx) (Hin y Hy) E) as Eb. destruct Bx as [[Wx Bx _ _ _] _], By as [[Wy By _ _ _] _]. f_equal; [|by rewrite Eb].
  rewrite Bx, By in Eb. pose proof (decodePatch_wire _ Wx) as Ex. rewrite Eb, decodePatch_wire in Ex by done. by injection Ex.
Qed.

Lemma filter_permutation {A} (f : A -> bool) l k : l ≡ₚ k -> List.filter f l ≡ₚ List.filter f k.
Proof.
  induction 1 as [|x l k _ IH|x y l|l1 l2 l3 _ IH1 _ IH2]; cbn [List.filter]; [done| | |by rewrite IH1].
  - destruct (f x); by rewrite IH.
  - destruct (f x), (f y); (apply Permutation_swap || done).
Qed.

Lemma runReducer_perm parent evs evs' r5 : state_ok parent -> Forall (fun e => bytes_ok (compactPatchBytes e)) evs -> evs ≡ₚ evs' -> no_hash_clash evs ->
  runReducer parent evs r5 = runReducer parent evs' r5.
Proof.
  intros Hs Hb Hp Hn. destruct (decode_eligible parent evs Hs Hb) as (ds & Hd & He & Hbd).
  destruct (mapM_perm _ _ (eligible_events parent evs') _ (filter_permutation _ _ _ Hp) Hd) as (ds' & Hd' & P).
  rewrite (runReducer_run _ _ _ ds), (runReducer_run _ _ _ ds') by done. cbv zeta.
  rewrite (sorted_keys_unique (map key (stableSort ds decoded_cmp)) ds'); [done|apply sorted_keys| |].
  - change (map key) with (fmap (M:=list) key). by rewrite stableSort_perm, P.
  - intros a b. change (map key) with (fmap (M:=list) key). rewrite stableSort_perm. by apply (bound_keys_clash parent evs).
Qed.

(** The same verification on other events. *)
Definition with_events (i : VerifyEpochInput) (evs : list PatchAcceptedEvent) : VerifyEpochInput :=
  mkInput (in_epoch i) (finalizedEvent i) evs (snapshotEvent i) (genesisState i) (in_policyAtomsMode i).

Lemma starts_ok input parent : starts input parent -> state_ok parent.
Proof. unfold starts. destruct (snapshotEvent input); [intros [H1 H2]; by eapply unpack_ok|tauto]. Qed.

Lemma verifyEpoch_starts input fin parent : finalizedEvent input = Some fin -> starts input parent ->
  verifyEpoch input = verify_from input fin parent (if snapshotEvent input then snapshot else genesis).
Proof.
  intros Hf Hst. unfold verifyEpoch. rewrite Hf. unfold starts in Hst. destruct (snapshotEvent input); [destruct Hst as [_ ->]|destruct Hst as [-> _]]; done.
Qed.
End Lemmas.

Section VerifyTheorems.
Context {HK : Hasher}.

(** Verification of a finalized epoch from a readable snapshot or genesis state always answers. The patches it accepts
    come from events of the input whose bytes, parent root and patch hash are bound to each other and to the parent state;
    each is accepted in turn on the state the previous ones left, their targets are pairwise disjoint, and they stand in
    the reducer's priority order. The answer is a match exactly when the finalized root is the Merkle root of the state
    they lead to. *)
Theorem verifyEpoch_sound (input : VerifyEpochInput) (fin : EpochFinalizedEvent) (parent : CortexState) :
  finalizedEvent input = Some fin -> starts input parent -> Forall (fun e => bytes_ok (compactPatchBytes e)) (patchEvents input) ->
  exists v eps s', verifyEpoch input = Returns (VerifyEpochOk v)
  /\ applied (r5_of input) parent (map snd eps) s'
  /\ Forall (fun ep => ep.1 ∈ patchEvents input /\ bound_event parent ep.1 ep.2) eps
  /\ StronglySorted disjoint_targets (map snd eps)
  /\ StronglySorted key_le (map (fun ep => (ep.2, computePatchHash (patch_wire ep.2))) eps)
  /\ acceptedPatchHashes v = map (fun ep => computePatchHash (patch_wire ep.2)) eps
  /\ (exists rt, merkleizeState s' = Returns rt /\ reproducedStateRoot v = bytesToHex rt
      /\ (ve_match v = true <-> toLowerCase (ef_newStateRoot fin) = bytesToHex rt)).
Proof.
  intros Hf Hst Hb. pose proof (starts_ok _ _ Hst) as Hs. destruct (decode_eligible parent _ Hs Hb) as (ds & Hd & He & Hbd).
  assert (Hbs : Forall (bound_decoded parent) (stableSort ds decoded_cmp)) by by rewrite stableSort_perm.
  destruct (run_all_spec key (r5_of input) (stableSort ds decoded_cmp) (mkRun [] parent []) Hs) as (acc & A1 & A2 & A3 & A4 & _ & A6).
  { eapply Forall_impl; [exact Hbs|]. intros d [[Hw _ _ _ _] _]. exact Hw. }
  set (r := run_all _ _ _) in *. rewrite (verifyEpoch_starts input fin parent Hf Hst).
  unfold verify_from. fold (r5_of input). rewrite (runReducer_run _ _ _ ds Hs Hd). cbv zeta. fold r. cbn [mbind outcome_bind fst snd].
  rewrite merkleizeState_returns by apply A6. cbn [mbind outcome_bind]. rewrite toLowerCase_hex.
  assert (Hacc : forall d, d ∈ acc -> bound_decoded parent d) by (intros d Hin; rewrite Forall_forall in Hbs; apply Hbs; by eapply elem_of_sublist).
  assert (Hh : forall d, d ∈ acc -> computedPatchHash d = computePatchHash (patch_wire (d_patch d))) by (intros d Hin; by destruct (Hacc d Hin) as [_ ->]).
  eexists _, (map (fun d => (d_ev d, d_patch d)) acc), (currentState r). split; [reflexivity|]. rewrite !map_map. cbn [fst snd].
  split; [exact A3|]. split; [|split; [exact A4|split; [|split]]].
  - apply Forall_fmap, Forall_forall. intros d Hin. cbn. split; [|by apply Hacc]. assert (H : d_ev d ∈ map d_ev ds).
    { apply (list_elem_of_fmap_2 d_ev). rewrite <- (stableSort_perm ds decoded_cmp). by eapply elem_of_sublist. }
    rewrite He in H. apply list_elem_of_In in H. unfold eligible_events in H. apply filter_In in H as [H _]. by apply list_elem_of_In.
  - apply (StronglySorted_sublist _ _ (map key (stableSort ds decoded_cmp))); [|apply sorted_keys].
    rewrite (map_ext_in _ key); [by apply sublist_map|]. intros d Hin%list_elem_of_In. unfold key. by rewrite Hh.
  - cbn [acceptedPatchHashes]. rewrite A2. cbn [app acceptedHashes]. apply map_ext_in. intros d Hin%list_elem_of_In. by apply Hh.
  - eexists. split; [by apply merkleizeState_returns, A6|]. cbn [reproducedStateRoot ve_match]. split; [done|]. by rewrite String.eqb_eq.
Qed.

(** The order in which the events arrive is immaterial, duplicates included, when no two patches collide in hash. *)
Theorem verifyEpoch_perm (input : VerifyEpochInput) (evs : list PatchAcceptedEvent) (parent : CortexState) (fin : EpochFinalizedEvent) :
  finalizedEvent input = Some fin -> starts input parent -> Forall (fun e => bytes_ok (compactPatchBytes e)) (patchEvents input) ->
  no_hash_clash (patchEvents input) -> patchEvents input ≡ₚ evs ->
  verifyEpoch (with_events input evs) = verifyEpoch input.
Proof.
  intros Hf Hst Hb Hn Hp. pose proof (starts_ok _ _ Hst) as Hs.
  rewrite (verifyEpoch_starts input fin parent), (verifyEpoch_starts (with_events input evs) fin parent) by done.
  unfold verify_from. cbn [with_events patchEvents in_policyAtomsMode in_epoch snapshotEvent].
  by rewrite (runReducer_perm parent _ _ _ Hs Hb Hp Hn), (Permutation_length Hp).
Qed.
End VerifyTheorems.

(** ** From the batch reducer to the chain and back *)
Section EndToEnd.
Context {HK : Hasher}.

(** What the contract emits: indexed arguments as topics, the rest ABI-encoded; [sig] is the event's topic. *)
Definition accepted_log (sig : string) (epoch : Z) (addr report parentRoot patchHash patchBytes : bytes) : list string * string :=
  ([sig; abi_topic epoch; bytesToHex (zeros 12 ++ addr)],
   bytesToHex (concat [parentRoot; patchHash; report; be_bytes 32 128] ++ abi_bytes patchBytes)).
Definition epoch_finalized_log (sig : string) (epoch : Z) (words : list bytes) : list string * string :=
  ([sig; abi_topic epoch], bytesToHex (concat words)).
Definition snapshot_log (sig : string) (epoch : Z) (stateRoot stateBytes : bytes) : list string * string :=
  ([sig; abi_topic epoch], bytesToHex (concat [stateRoot; be_bytes 32 64] ++ abi_bytes stateBytes)).

Lemma slice_of ws (k : nat) off w rest : off = 32 * Z.of_nat k -> Forall abi_word_ok ws -> ws !! k = Some w -> readSlice32 (concat ws ++ rest) off = w.
Proof. intros -> Hf Hi. apply word_subarray; [eapply Forall_impl; [exact Hf|by intros ? []]|done]. Qed.

Lemma decode_accepted_log sig epoch addr report pr ph bs : 0 <= epoch < 2 ^ 64 -> length addr = 20%nat ->
  Forall abi_word_ok [pr; ph; report] -> bytes_ok bs -> Z.of_nat (length bs) < 2 ^ 256 ->
  let l := accepted_log sig epoch addr report pr ph bs in
  decodePatchAcceptedLog l.1 l.2 = Returns (mkPatchAccepted epoch (bytesToHex addr) (bytesToHex pr) (bytesToHex ph) (bytesToHex report) bs).
Proof.
  intros He Ha Hw Hb Hl l. unfold l, accepted_log, decodePatchAcceptedLog. cbn [fst snd lookup list_lookup]. rewrite topicBig_abi by lia. cbn [mbind outcome_bind].
  set (ws := [pr; ph; report; be_bytes 32 128]).
  assert (Hws : Forall abi_word_ok ws) by (change ws with ([pr; ph; report] ++ [be_bytes 32 128]); apply Forall_app; split; [done|]; apply Forall_singleton, abi_word_be).
  change (with_0x (bytesToHex ?b)) with (bytesToHex b). rewrite hexToBytes_bytesToHex by (apply abi_data_ok; [done|by apply abi_bytes_ok]). cbn [mbind outcome_bind].
  rewrite (slice_of ws 0 0 pr), (slice_of ws 1 32 ph), (slice_of ws 2 64 report) by done. unfold readBigEndian32From.
  change 96 with (32 * Z.of_nat 3). rewrite (word_read ws 3 (be_bytes 32 128)) by done. rewrite be_value_be_bytes, Z.mod_small by lia.
  change (decodeAddress (default ?z (Some ?t))) with (topicAddr (Some t)). rewrite topicAddr_abi by done.
  pose proof (abi_bytes_read ws bs [] Hws Hl) as E. cbv zeta in E. rewrite app_nil_r in E. change (32 * Z.of_nat (length ws)) with 128 in E. by rewrite E.
Qed.

Lemma decode_epoch_finalized_log sig epoch w0 w1 w2 w3 w4 : 0 <= epoch < 2 ^ 64 -> Forall abi_word_ok [w0; w1; w2; w3; w4] ->
  let l := epoch_finalized_log sig epoch [w0; w1; w2; w3; w4] in
  decodeEpochFinalizedLog l.1 l.2 = Returns (mkEpochFinalized epoch (bytesToHex w0) (bytesToHex w1) (bytesToHex w2) (bytesToHex w3) (bytesToHex w4)).
Proof.
  intros He Hw l. unfold l, epoch_finalized_log, decodeEpochFinalizedLog. cbn [fst snd lookup list_lookup]. rewrite topicBig_abi by lia. cbn [mbind outcome_bind].
  set (ws := [w0; w1; w2; w3; w4]). rewrite <- (app_nil_r (concat ws)).
  change (with_0x (bytesToHex ?b)) with (bytesToHex b). rewrite hexToBytes_bytesToHex by (apply abi_data_ok; [done|constructor]). cbn [mbind outcome_bind].
  by rewrite (slice_of ws 0 0 w0), (slice_of ws 1 32 w1), (slice_of ws 2 64 w2), (slice_of ws 3 96 w3), (slice_of ws 4 128 w4).
Qed.

Lemma decode_snapshot_log sig epoch sr bs : 0 <= epoch < 2 ^ 64 -> abi_word_ok sr -> bytes_ok bs -> Z.of_nat (length bs) < 2 ^ 256 ->
  let l := snapshot_log sig epoch sr bs in decodeStateSnapshotLog l.1 l.2 = Returns (mkStateSnapshot epoch (bytesToHex sr) bs).
Proof.
  intros He Hw Hb Hl l. unfold l, snapshot_log, decodeStateSnapshotLog. cbn [fst snd lookup list_lookup]. rewrite topicBig_abi by lia. cbn [mbind outcome_bind].
  set (ws := [sr; be_bytes 32 64]). assert (Hws : Forall abi_word_ok ws) by (constructor; [done|]; apply Forall_singleton, abi_word_be).
  change (with_0x (bytesToHex ?b)) with (bytesToHex b). rewrite hexToBytes_bytesToHex by (apply abi_data_ok; [done|by apply abi_bytes_ok]). cbn [mbind outcome_bind].
  rewrite (slice_of ws 0 0 sr) by done. unfold readBigEndian32From.
  change 32 with (32 * Z.of_nat 1) at 1 3. rewrite (word_read ws 1 (be_bytes 32 64)) by done. rewrite be_value_be_bytes, Z.mod_small by lia.
  pose proof (abi_bytes_read ws bs [] Hws Hl) as E. cbv zeta in E. rewrite app_nil_r in E. change (32 * Z.of_nat (length ws)) with 64 in E. by rewrite E.
Qed.

(** Reducer inputs as [makeReducerInput] makes them from wire patches. *)
Record batch_item (i : ReducerInputPatch) : Prop := {
  bi_wire : wire_ok (item_patch i);
  bi_bytes : patchBytes i = patch_wire (item_patch i);
  bi_score : item_scoreDelta i = scoreDelta (item_patch i)
}.

Definition acc_hash (a : AcceptedPatch) : string := computePatchHash (acc_patchBytes a).
Definition acc_rank (a : AcceptedPatch) : Patch * string := (acc_patch a, acc_hash a).
Definition item_rank (i : ReducerInputPatch) : Patch * string := (item_patch i, computePatchHash (patchBytes i)).

(** The batch loop is the verifier's loop on the entries it accepts. *)
Lemma greedy_run_all th r5 items g hs : exists acc, g_accepted (fold_left (greedy_step th r5) items g) = g_accepted g ++ acc
  /\ map acc_key acc `sublist_of` map item_key items
  /\ run_all r5 (mkRun (g_targets g) (g_current g) hs) (map acc_rank acc)
     = let g' := fold_left (greedy_step th r5) items g in mkRun (g_targets g') (g_current g') (hs ++ map acc_hash acc).
Proof.
  revert g hs. induction items as [|i items IH]; intros g hs; [exists []; cbn; by rewrite !app_nil_r|]. cbn [fold_left].
  unfold greedy_step at 2 4 6. destruct (existsb _ _) eqn:Eo.
  { destruct (IH (greedy_reject g i R01_TARGET_OVERLAP) hs) as (acc & H1 & H2 & H3). exists acc. split; [exact H1|]. split; [by constructor|exact H3]. }
  unfold evaluateAndApplyOntoCurrent. destruct (negb _).
  { destruct (IH (greedy_reject g i R02_SEMANTIC_CONFLICT) hs) as (acc & H1 & H2 & H3). exists acc. split; [exact H1|]. split; [by constructor|exact H3]. }
  destruct (applyPatchOntoCurrent _ _ _) as [s1|e] eqn:Ea.
  - match goal with |- context [fold_left (greedy_step th r5) items ?x] => set (g1 := x) end.
    destruct (IH g1 (hs ++ [computePatchHash (patchBytes i)])) as (acc & H1 & H2 & H3).
    match goal with g1 := mkGreedy _ (_ ++ [?a]) _ _ |- _ => exists (a :: acc) end. split; [rewrite H1; unfold g1; cbn [g_accepted]; by rewrite <- app_assoc|].
    split; [cbn [map]; by apply sublist_skip|]. unfold run_all in *. cbn [map fold_left acc_rank fst snd acc_patch acc_patchBytes acc_hash].
    unfold run_step at 2. cbn [usedIndices currentState acceptedHashes]. rewrite Eo, Ea. unfold g1 in H3. cbn [g_targets g_current] in H3.
    unfold acc_hash at 1. cbn [acc_patchBytes]. rewrite H3. cbv zeta. by rewrite <- app_assoc.
  - match goal with |- context [greedy_reject g i ?c] => destruct (IH (greedy_reject g i c) hs) as (acc & H1 & H2 & H3) end.
    exists acc. split; [exact H1|]. split; [by constructor|exact H3].
Qed.

Lemma items_sorted parent items : Forall batch_item items ->
  StronglySorted key_le (map item_rank (stableSort (eligible_of parent items) comparePatchPriority)).
Proof.
  intros Hb. set (l := stableSort _ _). assert (Hl : Forall batch_item l).
  { unfold l. rewrite stableSort_perm. apply Forall_forall. intros x [_ Hx]%list_elem_of_filter. rewrite Forall_forall in Hb. auto. }
  assert (Hs : StronglySorted (cmp_le comparePatchPriority) l) by (apply stableSort_sorted, _).
  clearbody l. induction Hs as [|x l Hs IH Hx]; [constructor|]. apply Forall_cons in Hl as [Bx Hl]. cbn [map]. apply StronglySorted_cons. split; [|by apply IH].
  apply Forall_forall. intros k (y & -> & Hy)%list_elem_of_fmap. rewrite Forall_forall in Hx, Hl. specialize (Hx y Hy). apply compare_before in Hx.
  unfold before in Hx. rewrite (bi_score _ Bx), (bi_score _ (Hl y Hy)) in Hx. exact Hx.
Qed.

(** An accepted patch with the miner and the evaluation report hash it is logged with; its log entry and its event. *)
Record Publication := mkPublication { pub_patch : AcceptedPatch; pub_miner : bytes; pub_report : bytes }.
Definition publication_ok (p : Publication) : Prop := length (pub_miner p) = 20%nat /\ abi_word_ok (pub_report p).
Definition batch_log (sig : string) (epoch : Z) (parentRoot : bytes) (p : Publication) : list string * string :=
  let bs := acc_patchBytes (pub_patch p) in accepted_log sig epoch (pub_miner p) (pub_report p) parentRoot (keccak256 (patchHash_preimage bs)) bs.
Definition batch_event (epoch : Z) (parentRoot : bytes) (p : Publication) : PatchAcceptedEvent :=
  mkPatchAccepted epoch (bytesToHex (pub_miner p)) (bytesToHex parentRoot) (acc_hash (pub_patch p)) (bytesToHex (pub_report p)) (acc_patchBytes (pub_patch p)).

(** The entries [reduce] accepts: where they come from. *)
Lemma accepted_entry parent items th r5 a : state_ok parent -> Forall batch_item items ->
  a ∈ g_accepted (greedy_run parent items th r5) ->
  exists i, i ∈ items /\ acc_key a = item_key i /\ wire_ok (acc_patch a) /\ acc_patchBytes a = patch_wire (acc_patch a) /\ parentStateRoot (acc_patch a) = root (cache_of parent).
Proof.
  intros Hs Hb Ha. destruct (greedy_run_all th r5 (stableSort (eligible_of parent items) comparePatchPriority)
    (mkGreedy parent [] [] (prerejected parent items)) []) as (acc & H1 & H2 & _). fold (greedy_run parent items th r5) in H1. cbn [g_accepted app] in H1.
  rewrite H1 in Ha. assert (Hk : acc_key a ∈ map item_key (stableSort (eligible_of parent items) comparePatchPriority)).
  { eapply elem_of_sublist; [|exact H2]. by apply (list_elem_of_fmap_2 acc_key). }
  apply list_elem_of_fmap in Hk as (i & Hk & Hi). rewrite stableSort_perm in Hi. apply list_elem_of_filter in Hi as [Hm Hi].
  exists i. split; [done|]. split; [done|]. rewrite Forall_forall in Hb. destruct (Hb i Hi) as [Hw Hbs _].
  unfold acc_key, item_key in Hk. injection Hk as -> ->. split; [done|]. split; [done|]. by apply bytesEqual_spec in Hm.
Qed.

(** No two of the accepted patches collide in hash. *)
Definition accepted_no_clash (acc : list AcceptedPatch) : Prop := forall a b, a ∈ acc -> b ∈ acc -> acc_hash a = acc_hash b -> acc_patchBytes a = acc_patchBytes b.

Lemma ranks_unique parent items th r5 : state_ok parent -> Forall batch_item items ->
  let acc := g_accepted (greedy_run parent items th r5) in accepted_no_clash acc ->
  forall a b, a ∈ map acc_rank acc -> b ∈ map acc_rank acc -> a.2 = b.2 -> a = b.
Proof.
  intros Hs Hb acc Hn a b (x & -> & Hx)%list_elem_of_fmap (y & -> & Hy)%list_elem_of_fmap E.
  destruct (accepted_entry _ _ _ _ _ Hs Hb Hx) as (i & Hi & Ki & Wx & Bx & _). destruct (accepted_entry _ _ _ _ _ Hs Hb Hy) as (j & Hj & Kj & Wy & By & _).
  pose proof (Hn _ _ Hx Hy E) as Eb. unfold acc_rank, acc_hash in *. cbn [snd] in E. f_equal; [|done].
  pose proof (decodePatch_wire _ Wx) as Ex. rewrite <- Bx, Eb, By, decodePatch_wire in Ex by done. by apply Returns_inj in Ex.
Qed.

Lemma batch_event_bound parent items th r5 epoch p : state_ok parent -> Forall batch_item items ->
  pub_patch p ∈ g_accepted (greedy_run parent items th r5) ->
  bound_event parent (batch_event epoch (root (cache_of parent)) p) (acc_patch (pub_patch p)).
Proof.
  intros Hs Hb Ha. destruct (accepted_entry _ _ _ _ _ Hs Hb Ha) as (i & _ & _ & Hw & Hbs & Hp). destruct Hs as [Hl _]. constructor; unfold batch_event, acc_hash; cbn [compactPatchBytes pa_parentStateRoot pa_patchHash].
  - exact Hw.
  - exact Hbs.
  - rewrite merkleizeState_returns by done. apply (f_equal Returns). exact (eq_sym Hp).
  - rewrite toLowerCase_hex. apply (f_equal bytesToHex). exact (eq_sym Hp).
  - rewrite Hbs. unfold computePatchHash. apply toLowerCase_hex.
Qed.

(** The verifier's reducer on the published events, in any order and among ineligible ones, is the batch reducer. *)
Lemma runReducer_batch parent items th r5 epoch pubs all forged : state_ok parent -> Forall batch_item items ->
  map pub_patch pubs = g_accepted (greedy_run parent items th r5) -> accepted_no_clash (map pub_patch pubs) ->
  all ≡ₚ map (batch_event epoch (root (cache_of parent))) pubs ++ forged ->
  Forall (fun e => eligible_event (bytesToHex (root (cache_of parent))) e = false) forged ->
  runReducer parent all r5 = Returns (g_current (greedy_run parent items th r5), map acc_hash (g_accepted (greedy_run parent items th r5))).
Proof.
  intros Hs Hb Hpubs Hn Hall Hforged. rewrite Hpubs in Hn. set (ev := batch_event epoch (root (cache_of parent))) in *.
  assert (Hin : forall p, p ∈ pubs -> pub_patch p ∈ g_accepted (greedy_run parent items th r5)) by (intros p Hp; rewrite <- Hpubs; by apply (list_elem_of_fmap_2 pub_patch)).
  assert (Hbd : forall p, p ∈ pubs -> bound_event parent (ev p) (acc_patch (pub_patch p))) by (intros p Hp; apply (batch_event_bound parent items th r5); auto).
  assert (He : eligible_events parent (map ev pubs ++ forged) = map ev pubs).
  { unfold eligible_events. rewrite List.filter_app. rewrite forallb_filter_id.
    - replace (List.filter _ forged) with (@nil PatchAcceptedEvent); [by rewrite app_nil_r|]. clear -Hforged.
      induction Hforged as [|e l E _ IH]; [done|]. cbn [List.filter]. by rewrite E.
    - apply forallb_forall. intros e He%list_elem_of_In. apply list_elem_of_fmap in He as (a & -> & Ha).
      apply (eligible_event_spec parent); [done| |exists (acc_patch (pub_patch a)); by apply Hbd].
      destruct (Hbd a Ha) as [Hw Hbs _ _ _]. rewrite Hbs. by apply patch_wire_bytes_ok. }
  assert (Hd : mapM decode_event (map ev pubs) = Returns (map (fun p => decoded_of (ev p) (acc_patch (pub_patch p))) pubs)).
  { apply mapM_Returns, Forall2_fmap, Forall_Forall2_diag, Forall_forall. intros a Ha. by apply (bound_decodes parent), Hbd. }
  rewrite <- He in Hd. destruct (mapM_perm _ _ (eligible_events parent all) _ (filter_permutation _ _ _ (Permutation_sym Hall)) Hd) as (ds & Hds & Pds).
  rewrite (runReducer_run parent all r5 ds Hs Hds). cbv zeta. set (acc := g_accepted (greedy_run parent items th r5)) in *.
  assert (Hacc : g_accepted (greedy_run parent items th r5) = acc) by reflexivity.
  destruct (greedy_run_all th r5 (stableSort (eligible_of parent items) comparePatchPriority) (mkGreedy parent [] [] (prerejected parent items)) [])
    as (acc' & H1 & H2 & H3). fold (greedy_run parent items th r5) in H1, H3. cbn [g_accepted g_targets g_current app] in H1, H3. rewrite Hacc in H1. subst acc'.
  rewrite (sorted_keys_unique (map acc_rank acc) ds).
  - rewrite H3. reflexivity.
  - apply (StronglySorted_sublist _ _ (map item_rank (stableSort (eligible_of parent items) comparePatchPriority))); [|by apply items_sorted].
    apply (sublist_map (fun k : Patch * bytes => (k.1, computePatchHash k.2))) in H2. rewrite !map_map in H2. exact H2.
  - rewrite <- Pds, <- Hpubs. rewrite !map_map. erewrite map_ext_in; [done|]. intros p Hp%list_elem_of_In. unfold key, decoded_of, acc_rank, acc_hash. cbn.
    by destruct (accepted_entry _ _ _ _ _ Hs Hb (Hin p Hp)) as (_ & _ & _ & _ & -> & _).
  - by apply (ranks_unique parent items th r5).
Qed.

(** C11. An epoch closed by the batch reducer on wire patches verifies from chain data: when the contract logs the
    accepted patches, each with its own miner and evaluation report, the snapshot of the parent state and the finalized
    roots, and no two accepted patches collide in hash, then decoding the logs, in any order and among any events not bound
    to the parent, reproduces the reducer's new state root, accepts the same patches in the same order, and matches. *)
Theorem batch_epoch_verifies (parent : CortexState) (items : list ReducerInputPatch) (th : Z) (r5 : bool) (o : ReducerOutput) (stateBytes : bytes)
    (sig : string) (epoch : Z) (pubs : list Publication) (core corpus parentRoot : bytes) (logs : list (list string * string)) :
  state_ok parent -> Forall batch_item items ->
  reduce parent items th r5 = Returns o -> pack parent = Returns stateBytes -> merkleizeState parent = Returns parentRoot ->
  0 <= epoch < 2 ^ 64 -> Forall abi_word_ok [core; corpus] ->
  map pub_patch pubs = accepted o -> Forall publication_ok pubs -> accepted_no_clash (accepted o) ->
  logs ≡ₚ map (batch_log sig epoch parentRoot) pubs ->
  exists evs fin snap,
    mapM (fun l => decodePatchAcceptedLog l.1 l.2) logs = Returns evs
    /\ (let l := epoch_finalized_log sig epoch [parentRoot; patchSetRoot o; newStateRoot o; core; corpus] in decodeEpochFinalizedLog l.1 l.2 = Returns fin)
    /\ (let l := snapshot_log sig epoch parentRoot stateBytes in decodeStateSnapshotLog l.1 l.2 = Returns snap)
    /\ forall all forged, all ≡ₚ evs ++ forged -> Forall (fun e => eligible_event (bytesToHex parentRoot) e = false) forged ->
       verifyEpoch (mkInput epoch (Some fin) all (Some snap) None (Some r5))
       = Returns (VerifyEpochOk (mkSuccess epoch (newStateRootHex o) (newStateRootHex o) true (Z.of_nat (length all)) (map acc_hash (accepted o)) snapshot)).
Proof.
  intros Hs Hb Hred Hpack Hroot He Hw Hpubs Hok Hn Hlogs. assert (Hwire : Forall item_wire_ok items) by (eapply Forall_impl; [exact Hb|by intros i []]).
  pose proof (proj1 Hs) as Hl. rewrite reduce_run in Hred by done. cbv zeta in Hred. apply Returns_inj in Hred as <-.
  rewrite pack_returns in Hpack by done. apply Returns_inj in Hpack as <-.
  rewrite merkleizeState_returns in Hroot by done. apply Returns_inj in Hroot as <-.
  pose proof (gi_state _ _ _ _ _ (greedy_run_inv parent items th r5 Hs Hwire)) as Hs'. cbn [accepted patchSetRoot newStateRoot newStateRootHex] in *.
  rewrite <- Hpubs in Hn. set (s' := g_current (greedy_run parent items th r5)) in *.
  apply Forall_cons in Hw as [Hcore Hw]. apply Forall_cons in Hw as [Hcorpus _].
  assert (Hpr : forall s, state_ok s -> abi_word_ok (root (cache_of s))) by (intros s [L _]; split; [by apply root_length|apply root_bytes_ok]).
  assert (Hk : forall bs, abi_word_ok (keccak256 bs)) by (intros bs; split; [apply length_keccak256|apply keccak256_ok]).
  assert (Hdec : mapM (fun l => decodePatchAcceptedLog l.1 l.2) (map (batch_log sig epoch (root (cache_of parent))) pubs)
    = Returns (map (batch_event epoch (root (cache_of parent))) pubs)).
  { apply mapM_Returns, Forall2_fmap, Forall_Forall2_diag, Forall_forall. intros p Hin. assert (Ha : pub_patch p ∈ g_accepted (greedy_run parent items th r5)) by (rewrite <- Hpubs; by apply (list_elem_of_fmap_2 pub_patch)).
    destruct (accepted_entry _ _ _ _ _ Hs Hb Ha) as (_ & _ & _ & Hwa & Hba & _). rewrite Forall_forall in Hok. destruct (Hok p Hin) as [Hminer Hrep].
    unfold batch_log. cbv zeta. rewrite decode_accepted_log.
    - unfold batch_event, acc_hash. by rewrite computePatchHash_preimage.
    - done.
    - done.
    - apply Forall_cons; split; [by apply Hpr|]. apply Forall_cons; split; [apply Hk|by apply Forall_singleton].
    - rewrite Hba. by apply patch_wire_bytes_ok.
    - rewrite Hba. pose proof (length_patch_wire _ Hwa). lia. }
  destruct (mapM_perm _ _ _ _ (Permutation_sym Hlogs) Hdec) as (evs & Hevs & Pevs).
  eexists evs, _, _. split; [exact Hevs|]. split; [|split].
  - apply decode_epoch_finalized_log; [done|]. repeat (apply Forall_cons; split; [try first [by apply Hpr|exact Hcore|exact Hcorpus]|]).
    + unfold computePatchSetRoot. destruct (_ =? _)%nat; apply Hk.
    + apply Forall_nil_2.
  - apply decode_snapshot_log; [done|by apply Hpr|apply pack_spec_ok|]. rewrite length_pack_spec, Hl. by vm_compute.
  - intros all forged Hall Hforged. unfold verifyEpoch. cbn [finalizedEvent snapshotEvent fullStateBytes]. rewrite unpack_pack_spec by apply Hs.
    unfold verify_from. cbn [patchEvents in_policyAtomsMode in_epoch ef_newStateRoot].
    rewrite <- Pevs in Hall. replace (bool_decide (Some r5 = Some true)) with r5 by (by destruct r5).
    replace (mkState (words parent)) with parent by by destruct parent.
    rewrite (runReducer_batch parent items th r5 epoch pubs all forged Hs Hb Hpubs Hn Hall Hforged). cbn [mbind outcome_bind fst snd].
    rewrite merkleizeState_returns by apply Hs'. cbn [mbind outcome_bind]. rewrite !toLowerCase_hex, String.eqb_refl. reflexivity.
Qed.
End EndToEnd.

(** ** Witnesses: two patches on the all-zero state, under a hash that tells their lengths apart. *)
Definition ve_patch_1 : Patch := mkPatch PATCH_TYPE.SLOT_REPLACE 1 0 (be_bytes 32 64) [32] [5].
Definition ve_patch_2 : Patch := mkPatch PATCH_TYPE.SLOT_REPLACE 2 5 (be_bytes 32 64) [33; 34] [6; 7].
Definition ve_item (p : Patch) : ReducerInputPatch := mkItem p (patch_wire p) (scoreDelta p) stubMarginalEvaluator.
Definition ve_items : list ReducerInputPatch := [ve_item ve_patch_1; ve_item ve_patch_2].
Definition ve_event (p : Patch) : PatchAcceptedEvent :=
  mkPatchAccepted 7 "0x00" (bytesToHex (be_bytes 32 64)) (computePatchHash (HK:=length_hasher) (patch_wire p)) "0x00" (patch_wire p).
Definition ve_input : VerifyEpochInput :=
  mkInput 7 (Some (mkEpochFinalized 7 "" "" (bytesToHex (be_bytes 32 64)) "" "")) [ve_event ve_patch_1; ve_event ve_patch_2] None (Some zero_state) (Some true).

Lemma ve_items_ok : Forall batch_item ve_items.
Proof.
  assert (H : forall p, bool_decide (wire_ok p) = true -> batch_item (ve_item p)) by (intros p Hp; apply bool_decide_eq_true in Hp; by constructor).
  apply Forall_cons; split; [apply H; vm_compute; reflexivity|]. apply Forall_cons; split; [apply H; vm_compute; reflexivity|]. apply Forall_nil_2.
Qed.

Lemma ve_starts : starts ve_input zero_state.
Proof. split; [exact eq_refl|apply zero_state_ok]. Qed.

Lemma ve_bytes : Forall (fun e => bytes_ok (compactPatchBytes e)) (patchEvents ve_input).
Proof.
  apply Forall_cons; split; [apply patch_wire_bytes_ok, (bool_decide_unpack _); vm_compute; reflexivity|].
  apply Forall_cons; split; [apply patch_wire_bytes_ok, (bool_decide_unpack _); vm_compute; reflexivity|]. apply Forall_nil_2.
Qed.

Lemma verifyEpoch_sound_witness : exists v (eps : list (PatchAcceptedEvent * Patch)) s', verifyEpoch (HK:=length_hasher) ve_input = Returns (VerifyEpochOk v)
  /\ applied true zero_state (map snd eps) s' /\ ve_match v = true.
Proof.
  destruct (verifyEpoch_sound (HK:=length_hasher) ve_input _ zero_state eq_refl ve_starts ve_bytes) as (v & eps & s' & H1 & H2 & _ & _ & _ & _ & _).
  exists v, eps, s'. split; [exact H1|]. split; [exact H2|].
  assert (E : match verifyEpoch (HK:=length_hasher) ve_input with Returns (VerifyEpochOk v) => ve_match v = true | _ => False end) by (vm_compute; reflexivity).
  rewrite H1 in E. exact E.
Defined.

Lemma verifyEpoch_perm_witness : verifyEpoch (HK:=length_hasher) (with_events ve_input [ve_event ve_patch_2; ve_event ve_patch_1]) = verifyEpoch (HK:=length_hasher) ve_input.
Proof.
  apply (verifyEpoch_perm (HK:=length_hasher) ve_input [ve_event ve_patch_2; ve_event ve_patch_1] zero_state _ eq_refl ve_starts ve_bytes); [|apply Permutation_swap].
  intros a b Ha Hb E. apply list_elem_of_In in Ha, Hb. destruct Ha as [<-|[<-|[]]], Hb as [<-|[<-|[]]]; try reflexivity; vm_compute in E; discriminate E.
Defined.

(** The epoch of the two patches, of two miners, logged out of order with one event of another epoch. *)
Definition ve_publication (k : Z) (a : AcceptedPatch) : Publication := mkPublication a (zeros 19 ++ [k]) (zeros 31 ++ [k]).
Definition ve_publications (acc : list AcceptedPatch) : list Publication := imap (fun k a => ve_publication (Z.of_nat k) a) acc.

Lemma batch_epoch_verifies_witness : exists o evs fin snap,
  reduce (HK:=length_hasher) zero_state ve_items 0 true = Returns o /\ length (accepted o) = 2%nat
  /\ verifyEpoch (HK:=length_hasher) (mkInput 7 (Some fin) (mkPatchAccepted 6 "" "" "" "" [] :: evs) (Some snap) None (Some true))
     = Returns (VerifyEpochOk (mkSuccess 7 (newStateRootHex o) (newStateRootHex o) true (Z.of_nat (S (length evs))) (map (acc_hash (HK:=length_hasher)) (accepted o)) snapshot)).
Proof.
  assert (Hr : exists o a b, reduce (HK:=length_hasher) zero_state ve_items 0 true = Returns o /\ accepted o = [a; b] /\ acc_hash (HK:=length_hasher) a <> acc_hash (HK:=length_hasher) b).
  { assert (E : match reduce (HK:=length_hasher) zero_state ve_items 0 true with
      | Returns o => match accepted o with [a; b] => negb (String.eqb (acc_hash (HK:=length_hasher) a) (acc_hash (HK:=length_hasher) b)) = true | _ => False end
      | Throws _ => False end) by (vm_compute; reflexivity).
    destruct (reduce (HK:=length_hasher) zero_state ve_items 0 true) as [o|]; [exists o|destruct E]. destruct (accepted o) as [|a [|b [|]]]; try (exfalso; exact E). exists a, b.
    split; [reflexivity|]. split; [reflexivity|]. intros Hab. rewrite Hab, String.eqb_refl in E. discriminate E. }
  destruct Hr as (o & a & b & Hr & Ho & Hab). exists o.
  assert (Hz : forall k, 0 <= k < 2 -> abi_word_ok (zeros 31 ++ [k])).
  { intros k Hk. split; [reflexivity|]. apply Forall_app; split; [apply Forall_replicate|apply Forall_singleton]; unfold byte_ok; lia. }
  destruct (batch_epoch_verifies (HK:=length_hasher) zero_state ve_items 0 true o (pack_spec (words zero_state)) "0x00" 7 (ve_publications (accepted o)) (zeros 32) (zeros 32) (be_bytes 32 64)
    (reverse (map (batch_log (HK:=length_hasher) "0x00" 7 (be_bytes 32 64)) (ve_publications (accepted o))))) as (evs & fin & snap & _ & _ & _ & H).
  - apply zero_state_ok.
  - apply ve_items_ok.
  - exact Hr.
  - apply pack_returns, zero_state_ok.
  - vm_compute. reflexivity.
  - lia.
  - repeat (apply Forall_cons; split; [apply (Hz 0); lia|]). apply Forall_nil_2.
  - rewrite Ho. reflexivity.
  - rewrite Ho. apply Forall_cons; split; [split; [reflexivity|apply (Hz 0); lia]|]. apply Forall_singleton. split; [reflexivity|apply (Hz 1); lia].
  - rewrite Ho. intros x y Hx Hy E. apply list_elem_of_In in Hx, Hy. destruct Hx as [<-|[<-|[]]], Hy as [<-|[<-|[]]]; try reflexivity; [destruct (Hab E)|destruct (Hab (eq_sym E))].
  - apply reverse_Permutation.
  - exists evs, fin, snap. split; [exact Hr|]. split; [rewrite Ho; reflexivity|].
    apply (H (mkPatchAccepted 6 "" "" "" "" [] :: evs) [mkPatchAccepted 6 "" "" "" "" []]).
    + apply Permutation_cons_append.
    + apply Forall_singleton. reflexivity.
Defined.
