(* ===== verification/LiveEpoch.v ===== *)
(** * Live epoch (packages/coretex/src/reducer/live-epoch.ts)

    Verified improvements are applied in arrival order onto the live state;
    the Merkle tree is maintained incrementally. Theorems: on wire patches
    the loop always returns, the cached root is the Merkle root of the live
    state after every step, the advances form a chain of roots from the
    parent to the new state, each strictly improves, and the credited units
    never decrease along the epoch. *)
From S2P Require Import Prelude StateTypes Float Codec Keccak Merkle Decoder Substrate SlotPolicy Validate Patch SeedDerivation WorkUnits Reducer.

Inductive LiveRejectionCode :=
  | Batch (c : RejectionCode)
  | L01_NOT_IMPROVEMENT.

Record LiveEpochInputPatch := mkLiveItem {
  miner : string;
  live_patch : Patch;
  live_patchBytes : bytes;
  live_scoreDelta : Z;
  live_evaluator : MarginalEvaluator
}.

Record StateAdvance := mkStateAdvance {
  adv_miner : string;
  adv_patch : Patch;
  adv_patchBytes : bytes;
  adv_patchHash : string;
  adv_parentStateRoot : string;
  adv_newStateRoot : string;
  adv_marginalGain : Z;
  workUnitsBps : Z;
  creditUnits : Z;
  advanceIndex : Z
}.

Record LiveRejectedPatch := mkLiveRejected {
  lr_miner : string; lr_patch : Patch; lr_patchBytes : bytes; lr_reason : LiveRejectionCode }.

Record LiveEpochOutput := mkLiveOutput {
  live_newState : CortexState;
  live_patchSetRoot : bytes;
  live_patchSetRootHex : string;
  live_newStateRoot : bytes;
  live_newStateRootHex : string;
  advances : list StateAdvance;
  live_rejected : list LiveRejectedPatch
}.

Record LiveEpochRewardOptions := mkRewardOptions {
  qualifiedScreenerPasses : option Numeric;
  workPolicy : option CoreTexWorkPolicy;
  live_policyAtomsMode : bool
}.

Definition LIVE_CODES : AcceptStepCodes LiveRejectionCode :=
  mkCodes L01_NOT_IMPROVEMENT (Batch R03_WRONG_PARENT_ROOT) (Batch R05_RESERVED_BIT_SET) (Batch R04_INVALID_TARGET).

(** This module's [toBigInt]: a bigint passes unchecked. *)
Definition live_toBigInt (value : Numeric) : outcome Z :=
  match value with
  | NBig v => Returns v
  | _ => toBigInt value
  end.

Section WithHasher.
Context {HK : Hasher}.

(** The loop variables. *)
Record live := mkLive {
  l_current : CortexState;
  l_merkle : MerkleTreeCache;
  l_advances : list StateAdvance;
  l_rejected : list LiveRejectedPatch
}.

Definition live_reject (l : live) (item : LiveEpochInputPatch) (reason : LiveRejectionCode) : live :=
  mkLive (l_current l) (l_merkle l) (l_advances l)
    (l_rejected l ++ [mkLiveRejected (miner item) (live_patch item) (live_patchBytes item) reason]).

(** [item.patch.indices.map((index, i) => ({ index, word: item.patch.newWords[i] ?? 0n }))] *)
Definition merkle_updates (patch : Patch) : list MerkleWordUpdate :=
  imap (fun i index => mkUpdate index (get0 (newWords patch) (Z.of_nat i))) (indices patch).

Definition live_step (threshold : Z) (opts : LiveEpochRewardOptions) (l : live) (item : LiveEpochInputPatch) : outcome live :=
  let parentRootBytes := root (l_merkle l) in
  let parentRootHex := bytesToHex parentRootBytes in
  if negb (bytesEqual (parentStateRoot (live_patch item)) parentRootBytes)
  then Returns (live_reject l item (Batch R03_WRONG_PARENT_ROOT))
  else match evaluateAndApplyOntoCurrent (l_current l) (live_patch item) (live_evaluator item) threshold true
               (live_policyAtomsMode opts) LIVE_CODES with
  | StepRejected reason => Returns (live_reject l item reason)
  | StepOk state gain =>
    currentMerkle ← updateMerkleCache (l_merkle l) (merkle_updates (live_patch item));
    let newStateRootHex := bytesToHex (root currentMerkle) in
    passes ← live_toBigInt (or0 (qualifiedScreenerPasses opts));
    let count := passes + Z.of_nat (length (l_advances l)) in
    workUnits ← computeCoreTexWorkUnitsBps OUTCOME_CORETEX_STATE_ADVANCE (Some (NBig count)) (workPolicy opts);
    Returns (mkLive state currentMerkle
      (l_advances l ++ [mkStateAdvance (toLowerCase (miner item)) (live_patch item) (live_patchBytes item)
         (computePatchHash (live_patchBytes item)) parentRootHex newStateRootHex gain workUnits workUnits
         (Z.of_nat (length (l_advances l)))])
      (l_rejected l))
  end.

Fixpoint live_loop (threshold : Z) (opts : LiveEpochRewardOptions) (patches : list LiveEpochInputPatch) (l : live) : outcome live :=
  match patches with
  | [] => Returns l
  | item :: patches' => l' ← live_step threshold opts l item; live_loop threshold opts patches' l'
  end.

Definition advanceEpochState (parentState : CortexState) (patches : list LiveEpochInputPatch) (threshold : Z)
    (rewardOptions : LiveEpochRewardOptions) : outcome LiveEpochOutput :=
  merkle ← buildMerkleCache parentState;
  l ← live_loop threshold rewardOptions patches (mkLive parentState merkle [] []);
  let acceptedForRoot := map (fun a => mkAccepted (adv_patch a) (adv_patchBytes a) (adv_marginalGain a) (advanceIndex a)) (l_advances l) in
  let patchSetRoot := computePatchSetRoot acceptedForRoot in
  let newStateRoot := root (l_merkle l) in
  Returns (mkLiveOutput (l_current l) patchSetRoot (bytesToHex patchSetRoot) newStateRoot (bytesToHex newStateRoot)
    (l_advances l) (l_rejected l)).

Definition makeLiveEpochInput (m : string) (patch : Patch) (opt_patchBytes : option bytes) (ev : MarginalEvaluator)
  : outcome LiveEpochInputPatch :=
  bs ← (match opt_patchBytes with Some bs => Returns bs | None => encodePatch patch end);
  Returns (mkLiveItem (toLowerCase m) patch bs (scoreDelta patch) ev).
End WithHasher.

Section LiveTheorems.
Context {HK : Hasher}.

Definition live_wire_ok (i : LiveEpochInputPatch) : Prop := wire_ok (live_patch i).

(** The incremental tree follows the patched state. *)
Lemma merkle_updates_words p ws : length (indices p) = length (newWords p) ->
  apply_updates (merkle_updates p) ws = write_words (indices p) (newWords p) ws.
Proof.
  unfold merkle_updates, apply_updates, write_words. generalize (indices p) as idxs, (newWords p) as nw. intros idxs nw Hl.
  assert (H : forall pre idxs nw (ws : list Z), length idxs = length nw ->
    fold_left (fun ws u => <[Z.to_nat (upd_index u) := upd_word u]> ws)
      (imap (fun i index => mkUpdate index (get0 (pre ++ nw) (Z.of_nat (length pre + i)))) idxs) ws
    = fold_left (fun ws '(i, w) => <[Z.to_nat i := w]> ws) (zip idxs nw) ws).
  { clear. intros pre idxs. revert pre. induction idxs as [|i idxs IH]; intros pre [|w nw] ws Hl; try discriminate; [done|].
    cbn [imap zip zip_with fold_left upd_index upd_word]. assert (G : get0 (pre ++ w :: nw) (Z.of_nat (length pre + 0)) = w).
    { unfold get0. by rewrite Nat2Z.inj_add, (js_get_app_r pre (w :: nw) 0). }
    rewrite G.
    rewrite (imap_ext _ (fun i index => mkUpdate index (get0 ((pre ++ [w]) ++ nw) (Z.of_nat (length (pre ++ [w]) + i))))).
    - apply IH. by injection Hl.
    - intros j x _. cbn. rewrite <- app_assoc. f_equal. f_equal. rewrite length_app. cbn. lia. }
  exact (H [] idxs nw ws Hl).
Qed.

Lemma update_patched s p : state_ok s -> wire_ok p ->
  updateMerkleCache (cache_of s) (merkle_updates p) = Returns (cache_of (patched s p)).
Proof.
  intros Hs Hp. destruct (wire_ok_shape p Hp) as (H1 & H2 & Hf & _).
  rewrite updateMerkleCache_cache_of; [|apply Hs|].
  - rewrite merkle_updates_words by lia. done.
  - unfold merkle_updates. apply Forall_forall. intros u Hu. apply elem_of_lookup_imap in Hu as (k & i & -> & Hi).
    eapply Forall_lookup_1 in Hf; [|exact Hi]. unfold index_ok, RANGES.RESERVED_START in Hf. unfold update_in_range, RANGES.WORD_COUNT. cbn. lia.
Qed.

(** The advances link the root [r] to the root [r']. *)
Fixpoint root_chain (r : string) (advs : list StateAdvance) (r' : string) : Prop :=
  match advs with
  | [] => r = r'
  | a :: advs' => adv_parentStateRoot a = r /\ root_chain (adv_newStateRoot a) advs' r'
  end.

Lemma root_chain_snoc r advs r' a : root_chain r advs r' -> adv_parentStateRoot a = r' ->
  root_chain r (advs ++ [a]) (adv_newStateRoot a).
Proof.
  revert r. induction advs as [|b advs IH]; intros r H E; cbn in *; [by subst|]. destruct H as [? H]. split; [done|]. by apply IH.
Qed.

Record live_inv (parent : CortexState) (th q : Z) (opts : LiveEpochRewardOptions) (seen : list LiveEpochInputPatch) (l : live) : Prop := {
  li_state : state_ok (l_current l);
  li_merkle : l_merkle l = cache_of (l_current l);
  li_replay : l_current l = fold_left patched (map adv_patch (l_advances l)) parent;
  li_chain : root_chain (bytesToHex (root (cache_of parent))) (l_advances l) (bytesToHex (root (cache_of (l_current l))));
  li_adv : forall k a, l_advances l !! k = Some a -> advanceIndex a = Z.of_nat k /\ th < adv_marginalGain a
    /\ creditUnits a = workUnitsBps a
    /\ computeCoreTexWorkUnitsBps OUTCOME_CORETEX_STATE_ADVANCE (Some (NBig (q + Z.of_nat k))) (workPolicy opts) = Returns (workUnitsBps a);
  li_count : (length (l_advances l) + length (l_rejected l) = length seen)%nat
}.

Lemma units_default c opt : computeCoreTexWorkUnitsBps OUTCOME_CORETEX_STATE_ADVANCE (Some (NBig c)) opt
  = computeCoreTexWorkUnitsBps OUTCOME_CORETEX_STATE_ADVANCE (Some (NBig c)) (Some (default DEFAULT_CORETEX_WORK_POLICY opt)).
Proof. by destruct opt. Qed.

Lemma live_reject_inv parent th q opts seen l item reason : live_inv parent th q opts seen l ->
  live_inv parent th q opts (seen ++ [item]) (live_reject l item reason).
Proof.
  intros [H1 H2 H3 H4 H5 H6]. constructor; cbn [live_reject l_current l_merkle l_advances l_rejected]; try done.
  rewrite !length_app. cbn. lia.
Qed.

Lemma live_step_inv parent th q opts seen l item :
  assertValidCoreTexWorkPolicy (default DEFAULT_CORETEX_WORK_POLICY (workPolicy opts)) = Returns tt ->
  live_toBigInt (or0 (qualifiedScreenerPasses opts)) = Returns q -> 0 <= q ->
  live_wire_ok item -> live_inv parent th q opts seen l ->
  exists l', live_step th opts l item = Returns l' /\ live_inv parent th q opts (seen ++ [item]) l'.
Proof.
  intros Hpol Hq Hq0 Hw Hl. pose proof Hl as [H1 H2 H3 H4 H5 H6]. unfold live_step. rewrite H2.
  destruct (bytesEqual _ _) eqn:Eb; cbn [negb]; [|eexists; split; [reflexivity|by apply live_reject_inv]].
  destruct (evaluateAndApplyOntoCurrent _ _ _ _ _ _ _) as [s' gain|reason] eqn:E; [|eexists; split; [reflexivity|by apply live_reject_inv]].
  apply accept_step_ok in E as ([-> _ _ _ _ _] & _ & Hth); [|done|done].
  rewrite update_patched by done. cbn [mbind outcome_bind]. rewrite Hq. cbn [mbind outcome_bind].
  destruct (advance_units_tiers (default DEFAULT_CORETEX_WORK_POLICY (workPolicy opts)) (q + Z.of_nat (length (l_advances l)))
     (q + Z.of_nat (length (l_advances l))) Hpol ltac:(lia)) as (u & u' & Hu & _).
  rewrite units_default, Hu. cbn [mbind outcome_bind]. eexists. split; [reflexivity|].
  constructor; cbn [l_current l_merkle l_advances l_rejected].
  - apply patched_ok; [done|apply Hw].
  - done.
  - rewrite map_app, fold_left_app, <- H3. done.
  - exact (root_chain_snoc _ _ _ (mkStateAdvance _ _ _ _ _ (bytesToHex (root (cache_of (patched (l_current l) (live_patch item))))) _ _ _ _) H4 eq_refl).
  - intros k a Ha. apply lookup_app_Some in Ha as [Ha|[Hk Ha]]; [by apply H5|].
    apply list_lookup_singleton_Some in Ha as [Hk' <-]. cbn [advanceIndex adv_marginalGain creditUnits workUnitsBps].
    assert (k = length (l_advances l)) as -> by lia. rewrite units_default, Hu. done.
  - rewrite !length_app. cbn. lia.
Qed.

Lemma live_loop_inv parent th q opts items seen l :
  assertValidCoreTexWorkPolicy (default DEFAULT_CORETEX_WORK_POLICY (workPolicy opts)) = Returns tt ->
  live_toBigInt (or0 (qualifiedScreenerPasses opts)) = Returns q -> 0 <= q ->
  Forall live_wire_ok items -> live_inv parent th q opts seen l ->
  exists l', live_loop th opts items l = Returns l' /\ live_inv parent th q opts (seen ++ items) l'.
Proof.
  intros Hpol Hq Hq0 Hf. revert seen l. induction Hf as [|item items Hw Hf IH]; intros seen l Hl; cbn [live_loop].
  { exists l. by rewrite app_nil_r. }
  destruct (live_step_inv parent th q opts seen l item Hpol Hq Hq0 Hw Hl) as (l' & -> & Hl'). cbn [mbind outcome_bind].
  rewrite cons_middle, app_assoc. by apply IH.
Qed.

(** C4. The live lane on wire patches, under a valid policy: it always returns;
    the reported root is the Merkle root of the new state; the new state is
    the parent with the advances' patches applied in order; the advances
    link the parent's root to the new one, strictly improve, are numbered in
    order, and the units credited never decrease; every candidate is either
    an advance or a rejection. *)
Theorem advanceEpochState_sound (parent : CortexState) (items : list LiveEpochInputPatch) (th q : Z) (opts : LiveEpochRewardOptions) :
  state_ok parent -> Forall live_wire_ok items ->
  assertValidCoreTexWorkPolicy (default DEFAULT_CORETEX_WORK_POLICY (workPolicy opts)) = Returns tt ->
  live_toBigInt (or0 (qualifiedScreenerPasses opts)) = Returns q -> 0 <= q ->
  exists o, advanceEpochState parent items th opts = Returns o
  /\ state_ok (live_newState o) /\ merkleizeState (live_newState o) = Returns (live_newStateRoot o)
  /\ live_newState o = fold_left patched (map adv_patch (advances o)) parent
  /\ (exists r0, merkleizeState parent = Returns r0 /\ root_chain (bytesToHex r0) (advances o) (live_newStateRootHex o))
  /\ (forall k a, advances o !! k = Some a -> advanceIndex a = Z.of_nat k /\ th < adv_marginalGain a /\ 30000 <= workUnitsBps a)
  /\ (forall j k a b, (j <= k)%nat -> advances o !! j = Some a -> advances o !! k = Some b -> workUnitsBps a <= workUnitsBps b)
  /\ (length (advances o) + length (live_rejected o) = length items)%nat.
Proof.
  intros Hs Hf Hpol Hq Hq0. unfold advanceEpochState. rewrite buildMerkleCache_returns by apply Hs. unfold mbind at 1, outcome_bind at 1.
  destruct (live_loop_inv parent th q opts items [] (mkLive parent (cache_of parent) [] []) Hpol Hq Hq0 Hf) as (l & -> & Hl).
  { constructor; cbn [l_current l_merkle l_advances l_rejected]; [exact Hs|exact eq_refl|exact eq_refl|exact eq_refl|intros k a H; by rewrite lookup_nil in H|exact eq_refl]. }
  unfold mbind, outcome_bind. eexists. split; [reflexivity|]. destruct Hl as [H1 H2 H3 H4 H5 H6].
  cbn [live_newState live_newStateRoot live_newStateRootHex advances live_rejected]. rewrite H2. split; [done|].
  split; [apply merkleizeState_returns, H1|]. split; [done|]. split; [exists (root (cache_of parent)); split; [apply merkleizeState_returns, Hs|done]|].
  assert (Hmono : forall j k a b, (j <= k)%nat -> l_advances l !! j = Some a -> l_advances l !! k = Some b ->
    30000 <= workUnitsBps a <= workUnitsBps b).
  { intros j k a b Hjk Ha Hb. apply H5 in Ha as (_ & _ & _ & Ha). apply H5 in Hb as (_ & _ & _ & Hb). rewrite units_default in Ha, Hb.
    destruct (advance_units_tiers _ (q + Z.of_nat j) (q + Z.of_nat k) Hpol ltac:(lia)) as (u & u' & Hu & Hu' & Hle & _).
    rewrite Hu in Ha. rewrite Hu' in Hb. apply Returns_inj in Ha as <-, Hb as <-. done. }
  split; [|split; [intros j k a b Hjk Ha Hb; by apply (Hmono j k a b)|done]].
  intros k a Ha. destruct (H5 k a Ha) as (? & ? & _). split; [done|]. split; [done|]. by apply (Hmono k k a a).
Qed.
End LiveTheorems.

(** ** Witness: two chained improvements under the constant hash. *)
Definition live_1 : LiveEpochInputPatch := mkLiveItem "0xAB" patch_w (patch_wire patch_w) 0 (fun _ _ => 7).
Definition live_2 : LiveEpochInputPatch := mkLiveItem "0xCD" patch_w2 (patch_wire patch_w2) 5 (fun _ _ => 9).
Definition live_opts : LiveEpochRewardOptions := mkRewardOptions (Some (NNum 24)) None true.

Lemma live_items_ok : Forall live_wire_ok [live_1; live_2].
Proof. pose proof items_ok as H. inversion_clear H as [|? ? H1 H2]. inversion_clear H2 as [|? ? H2' _]. by repeat constructor. Qed.

Lemma advanceEpochState_sound_witness : exists o, advanceEpochState (HK:=const_hasher) zero_state [live_1; live_2] 0 live_opts = Returns o
  /\ merkleizeState (HK:=const_hasher) (live_newState o) = Returns (live_newStateRoot o)
  /\ live_newState o = fold_left patched (map adv_patch (advances o)) zero_state.
Proof.
  destruct (advanceEpochState_sound (HK:=const_hasher) zero_state [live_1; live_2] 0 24 live_opts) as (o & H1 & _ & H2 & H3 & _);
    [apply zero_state_ok|apply live_items_ok|vm_compute; reflexivity|vm_compute; reflexivity|lia|].
  exists o. exact (conj H1 (conj H2 H3)).
Defined.

Example live_units : match advanceEpochState (HK:=const_hasher) zero_state [live_1; live_2] 0 live_opts with
  | Returns o => map workUnitsBps (advances o) = [30000; 40000]
  | Throws _ => False
  end.
Proof. vm_compute. reflexivity. Qed.
