(* ===== verification/Replay.v ===== *)
(** * Replay of the registry's log (packages/coretex/src/replay:
      coretex-registry.ts, launch-recovery-pin.ts)

    A validator decodes the state advances from the chain's event log, sorts
    them by epoch and index, and re-applies the patches: every advance must
    continue the previous root, carry the pins of its epoch, hash to its patch
    hash and reproduce its new root. Paging the log and the recovery pins are
    here too; fetching is a parameter.

    Theorems: replay accepts exactly the logs that describe a chain of
    accepted patches with consecutive indices; the order in which the log
    arrives is immaterial; pages cover the range; and the live lane's
    advances, put on the chain as the contract encodes them, replay to the
    live state. *)
From Stdlib Require Import Ascii Sorted.
From stdpp Require Import sorting.
From S2P Require Import Prelude StateTypes Float Codec Keccak Merkle Decoder Substrate SlotPolicy Validate Patch SeedDerivation JsSort WorkUnits Reducer LiveEpoch Abi.
#[local] Open Scope Z_scope.

Definition SIG_STATE_ADVANCED : string :=
  "CoreTexStateAdvanced(uint64,uint64,address,bytes32,bytes32,bytes32,bytes32,bytes32,bytes32,bytes32,uint256,uint16,bytes)".
Definition SIG_EPOCH_FINALIZED : string :=
  "CoreTexEpochFinalized(uint64,bytes32,bytes32,bytes32,bytes32,bytes32,bytes32,bytes32,bytes32)".

Record CoreTexStateAdvancedEvent := mkAdvanced {
  sa_epoch : Z;
  transitionIndex : Z;
  sa_miner : string;
  sa_parentStateRoot : string;
  sa_newStateRoot : string;
  sa_patchHash : string;
  sa_evalReportHash : string;
  sa_coreVersionHash : string;
  sa_corpusRoot : string;
  sa_activeFrontierRoot : string;
  improvementCredits : Z;
  sa_wordCount : number;
  compactPatchBytes : bytes
}.

Record CoreTexEpochFinalizedEvent := mkFinalized {
  fi_epoch : Z;
  fi_parentStateRoot : string;
  finalStateRoot : string;
  fi_coreVersionHash : string;
  fi_corpusRoot : string;
  fi_activeFrontierRoot : string;
  fi_patchSetRoot : string;
  fi_scoreRoot : string;
  fi_baselineManifestHash : string
}.

(** [word(data, i)] and [wordNum(data, i)] *)
Definition word (d : bytes) (i : Z) : string := bytesToHex (subarray d (i * 32) 32).
Definition wordNum (d : bytes) (i : Z) : Z := readWord d (i * 32).

(** ** Paging *)
Definition CORETEX_DEFAULT_LOG_CHUNK_BLOCKS : Z := 9500.
Definition CORETEX_DEFAULT_CONFIRMATION_DEPTH : Z := 15.

(** [for (let start = from; start <= to; start += chunkBlocks)]; [eth_getLogs] of one page is a parameter. *)
Fixpoint page_loop (fuel : nat) (getLogs : Z -> Z -> outcome (list RpcLog)) (start to chunk : Z) (out : list RpcLog) : option (outcome (list RpcLog)) :=
  if start <=? to then
    match fuel with
    | O => None
    | S fuel' =>
      let last := if start + chunk - 1 <? to then start + chunk - 1 else to in
      match getLogs start last with
      | Returns page => page_loop fuel' getLogs (start + chunk) to chunk (out ++ page)
      | Throws e => Some (Throws e)
      end
    end
  else Some (Returns out).

Definition coretexRangeLogs (getLogs : Z -> Z -> outcome (list RpcLog)) (head : outcome Z) (fromBlock toBlock : string)
    (chunkBlocks confirmationDepth latestBlock : option Z) : option (outcome (list RpcLog)) :=
  let chunk := default CORETEX_DEFAULT_LOG_CHUNK_BLOCKS chunkBlocks in
  let depth := default CORETEX_DEFAULT_CONFIRMATION_DEPTH confirmationDepth in
  if chunk <=? 0 then Some (Throws (GenericError "coretexRangeLogs: chunkBlocks must be positive"))
  else if depth <? 0 then Some (Throws (GenericError "coretexRangeLogs: confirmationDepth must be non-negative"))
  else match (latest ← match latestBlock with Some l => Returns l | None => head end;
              from ← js_BigInt fromBlock; requestedTo ← js_BigInt toBlock; Returns (latest - depth, from, requestedTo)) with
  | Throws e => Some (Throws e)
  | Returns (confirmedHead, from, requestedTo) =>
    let to := if requestedTo <? confirmedHead then requestedTo else confirmedHead in
    page_loop (Z.to_nat (to - from + 1)) getLogs from to chunk []
  end.

Section WithHasher.
Context {HK : Hasher}.

Definition eventTopic (sig : string) : string := bytesToHex (keccak256 (text_encode sig)).
Definition TOPIC_STATE_ADVANCED : string := eventTopic SIG_STATE_ADVANCED.
Definition TOPIC_EPOCH_FINALIZED : string := eventTopic SIG_EPOCH_FINALIZED.

(** ** Decoding *)
Definition decodeCoreTexStateAdvanced (log : RpcLog) : outcome (option CoreTexStateAdvancedEvent) :=
  if negb (eqHex (topics log !! 0%nat) TOPIC_STATE_ADVANCED) then Returns None
  else
    d ← hexToBytes (data log);
    let off := wordNum d 9 in
    let len := readWord d off in
    let start := off + 32 in
    epoch ← topicBig (topics log !! 1%nat);
    index ← topicBig (topics log !! 2%nat);
    Returns (Some (mkAdvanced epoch index (topicAddr (topics log !! 3%nat))
      (word d 0) (word d 1) (word d 2) (word d 3) (word d 4) (word d 5) (word d 6) (wordNum d 7) (of_Z (wordNum d 8))
      (subarray d start len))).

Definition decodeCoreTexEpochFinalized (log : RpcLog) : outcome (option CoreTexEpochFinalizedEvent) :=
  if negb (eqHex (topics log !! 0%nat) TOPIC_EPOCH_FINALIZED) then Returns None
  else
    d ← hexToBytes (data log);
    epoch ← topicBig (topics log !! 1%nat);
    Returns (Some (mkFinalized epoch (word d 0) (word d 1) (word d 2) (word d 3) (word d 4) (word d 5) (word d 6) (word d 7))).

(** ** Replay *)
Inductive CoreTexReplayCode :=
  | STATE_PARENT_MISMATCH | PATCH_HASH_MISMATCH | APPLY_FAILED | NEW_ROOT_MISMATCH | CORE_VERSION_MISMATCH | OUT_OF_ORDER
  | CORPUS_ROOT_MISMATCH | ACTIVE_FRONTIER_ROOT_MISMATCH | BASELINE_MANIFEST_HASH_MISMATCH
  | HIDDEN_SEED_COMMIT_MISMATCH | FINAL_ROOT_MISMATCH | NO_PATCH_BYTES.
Inductive CoreTexReplayResult :=
  | ReplayOk (transitions : Z) (reproducedFinalRoot : string) (onChainFinalRoot : option string)
  | ReplayFail (code : CoreTexReplayCode) (transitions : Z).

Record ResolvedEpochPins := mkPins {
  pin_coreVersionHash : option string;
  pin_corpusRoot : option string;
  pin_activeFrontierRoot : option string;
  pin_baselineManifestHash : option string
}.

Record ReplayOptions := mkReplayOptions {
  expectedBundleHash : option string;
  expectedCorpusRoot : option string;
  expectedActiveFrontierRoot : option string;
  expectedBaselineManifestHash : option string;
  expectedHiddenSeedCommit : option string;
  expectedPinsForEpoch : option (Z -> option ResolvedEpochPins);
  ro_policyAtomsMode : bool
}.

(** [if (s)] of an optional string *)
Definition truthy (s : option string) : option string := match s with Some EmptyString => None | o => o end.

Definition resolveEpochPins (opts : ReplayOptions) (epoch : Z) : ResolvedEpochPins :=
  match match expectedPinsForEpoch opts with Some f => f epoch | None => None end with
  | Some perEpoch => perEpoch
  | None => mkPins (truthy (expectedBundleHash opts)) (truthy (expectedCorpusRoot opts))
      (truthy (expectedActiveFrontierRoot opts)) (truthy (expectedBaselineManifestHash opts))
  end.

(** [pin && !eqHex(value, pin)] *)
Definition pin_mismatch (value : string) (pin : option string) : bool :=
  match truthy pin with Some p => negb (eqHex (Some value) p) | None => false end.

Definition cmpBig (a b : Z) : Z := if a <? b then -1 else if b <? a then 1 else 0.
(** [x || y] of two comparisons *)
Definition or_else (x y : Z) : Z := if x =? 0 then y else x.
Definition advance_cmp (a b : CoreTexStateAdvancedEvent) : Z :=
  or_else (cmpBig (sa_epoch a) (sa_epoch b)) (cmpBig (transitionIndex a) (transitionIndex b)).
Definition finalized_cmp (a b : CoreTexEpochFinalizedEvent) : Z := cmpBig (fi_epoch a) (fi_epoch b).

(** The loop variables. *)
Record replay_state := mkReplay {
  rs_state : CortexState;
  rs_root : string;
  rs_transitions : Z;
  expectedIdxByEpoch : list (Z * Z)
}.

Definition check_advance_pins (pins : ResolvedEpochPins) (adv : CoreTexStateAdvancedEvent) : option CoreTexReplayCode :=
  if pin_mismatch (sa_coreVersionHash adv) (pin_coreVersionHash pins) then Some CORE_VERSION_MISMATCH
  else if pin_mismatch (sa_corpusRoot adv) (pin_corpusRoot pins) then Some CORPUS_ROOT_MISMATCH
  else if pin_mismatch (sa_activeFrontierRoot adv) (pin_activeFrontierRoot pins) then Some ACTIVE_FRONTIER_ROOT_MISMATCH
  else None.

(** One advance: the next loop state, or the result replay stops with. *)
Definition replay_advance (opts : ReplayOptions) (s : replay_state) (adv : CoreTexStateAdvancedEvent) : outcome (replay_state + CoreTexReplayResult) :=
  let expectedIdx := default 0 (jsmap_get (sa_epoch adv) (expectedIdxByEpoch s)) in
  let fail code := Returns (inr (ReplayFail code (transitionIndex adv))) in
  if negb (transitionIndex adv =? expectedIdx) then Returns (inr (ReplayFail OUT_OF_ORDER (rs_transitions s)))
  else
  let idx := jsmap_set (sa_epoch adv) (expectedIdx + 1) (expectedIdxByEpoch s) in
  match check_advance_pins (resolveEpochPins opts (sa_epoch adv)) adv with
  | Some code => fail code
  | None =>
    if negb (eqHex (Some (sa_parentStateRoot adv)) (rs_root s)) then fail STATE_PARENT_MISMATCH
    else if (length (compactPatchBytes adv) =? 0)%nat then fail NO_PATCH_BYTES
    else if negb (eqHex (Some (computePatchHash (compactPatchBytes adv))) (sa_patchHash adv)) then fail PATCH_HASH_MISMATCH
    else
    patch ← decodePatch (compactPatchBytes adv);
    res ← applyPatch (rs_state s) patch (ro_policyAtomsMode opts);
    match res with
    | PatchFailure _ => fail APPLY_FAILED
    | PatchSuccess state' =>
      newRootBytes ← merkleizeState state';
      let newRoot := bytesToHex newRootBytes in
      if negb (eqHex (Some newRoot) (sa_newStateRoot adv)) then fail NEW_ROOT_MISMATCH
      else Returns (inl (mkReplay state' newRoot (rs_transitions s + 1) idx))
    end
  end.

Fixpoint replay_loop (opts : ReplayOptions) (advances : list CoreTexStateAdvancedEvent) (s : replay_state) : outcome (replay_state + CoreTexReplayResult) :=
  match advances with
  | [] => Returns (inl s)
  | adv :: rest =>
    r ← replay_advance opts s adv;
    match r with
    | inl s' => replay_loop opts rest s'
    | inr result => Returns (inr result)
    end
  end.

Definition checkFinalizedPins (finalized : CoreTexEpochFinalizedEvent) (pins : ResolvedEpochPins) : option CoreTexReplayCode :=
  if pin_mismatch (fi_coreVersionHash finalized) (pin_coreVersionHash pins) then Some CORE_VERSION_MISMATCH
  else if pin_mismatch (fi_corpusRoot finalized) (pin_corpusRoot pins) then Some CORPUS_ROOT_MISMATCH
  else if pin_mismatch (fi_activeFrontierRoot finalized) (pin_activeFrontierRoot pins) then Some ACTIVE_FRONTIER_ROOT_MISMATCH
  else if pin_mismatch (fi_baselineManifestHash finalized) (pin_baselineManifestHash pins) then Some BASELINE_MANIFEST_HASH_MISMATCH
  else None.

(** [.filter((v) => v !== null)] *)
Definition somes {A} (l : list (option A)) : list A := omap id l.

Definition replayCoreTexFromLogs (parentState : CortexState) (logs : list RpcLog) (opts : ReplayOptions) : outcome CoreTexReplayResult :=
  decoded ← mapM decodeCoreTexStateAdvanced logs;
  let advances := stableSort (somes decoded) advance_cmp in
  decodedF ← mapM decodeCoreTexEpochFinalized logs;
  let finalized := last (stableSort (somes decodedF) finalized_cmp) in
  rootBytes ← merkleizeState parentState;
  r ← replay_loop opts advances (mkReplay parentState (bytesToHex rootBytes) 0 []);
  let n := Z.of_nat (length advances) in
  match r with
  | inr result => Returns result
  | inl s =>
    match finalized with
    | None => Returns (ReplayOk n (rs_root s) None)
    | Some f =>
      match checkFinalizedPins f (resolveEpochPins opts (fi_epoch f)) with
      | Some code => Returns (ReplayFail code n)
      | None =>
        if negb (eqHex (Some (finalStateRoot f)) (rs_root s)) then Returns (ReplayFail FINAL_ROOT_MISMATCH n)
        else Returns (ReplayOk n (rs_root s) (Some (finalStateRoot f)))
      end
    end
  end.

(** ** Recovery pins *)
Record LaunchRecoveryPin := mkRecoveryPin {
  chainId : Z;
  pin_epochId : Z;
  pin_parentStateRoot : string;
  pin_fromBlock : Z;
  attainedAtBlock : Z;
  attainedAtTx : string;
  attainedAtTransitionIndex : Z;
  rp_corpusRoot : string;
  rp_coreVersionHash : string;
  rp_activeFrontierRoot : string;
  bootstrapMiner : string;
  baselineParentScorePpm : Z;
  parentStatePackedHex : string;
  note : string
}.

(** [PINS.get(pinKey(chainId, epochId))], in the table the release ships *)
Definition resolveLaunchRecoveryPin (pins : list LaunchRecoveryPin) (chain epoch : Z) : option LaunchRecoveryPin :=
  last (filter (fun p => chainId p = chain /\ pin_epochId p = epoch) pins).

Definition launchRecoveryParentState (pin : LaunchRecoveryPin) : outcome CortexState :=
  bs ← hexToBytes (parentStatePackedHex pin);
  state ← unpack bs;
  r ← merkleizeState state;
  throw_when negb (String.eqb (toLowerCase (bytesToHex r)) (toLowerCase (pin_parentStateRoot pin)))
    with GenericError "launch-recovery-pin: packed substrate merkles to another root" ;;
  Returns state.

Definition launchRecoveryDisabledFromEnv (fullHistoryFlag : bool) (envFullHistory : option string) : bool :=
  if fullHistoryFlag then true
  else let v := toLowerCase (default ""%string envFullHistory) in
  String.eqb v "1" || String.eqb v "true" || String.eqb v "yes".
End WithHasher.

(** ** What replay accepts *)
Section Theorems.
Context {HK : Hasher}.

(** A pin that is set is the value's, up to case. *)
Definition pinned (value : string) (pin : option string) : Prop :=
  match truthy pin with Some p => toLowerCase value = toLowerCase p | None => True end.
Definition advance_pinned (pins : ResolvedEpochPins) (adv : CoreTexStateAdvancedEvent) : Prop :=
  pinned (sa_coreVersionHash adv) (pin_coreVersionHash pins) /\ pinned (sa_corpusRoot adv) (pin_corpusRoot pins)
  /\ pinned (sa_activeFrontierRoot adv) (pin_activeFrontierRoot pins).

(** The log entry [adv] is a correct account of a step from [s] to [s']. *)
Record advance_ok (opts : ReplayOptions) (s : CortexState) (adv : CoreTexStateAdvancedEvent) (s' : CortexState) : Prop := {
  ao_pins : advance_pinned (resolveEpochPins opts (sa_epoch adv)) adv;
  ao_parent : exists r, merkleizeState s = Returns r /\ toLowerCase (sa_parentStateRoot adv) = bytesToHex r;
  ao_bytes : compactPatchBytes adv <> [];
  ao_hash : computePatchHash (compactPatchBytes adv) = toLowerCase (sa_patchHash adv);
  ao_apply : exists p, decodePatch (compactPatchBytes adv) = Returns p /\ applyPatch s p (ro_policyAtomsMode opts) = Returns (PatchSuccess s');
  ao_new : exists r', merkleizeState s' = Returns r' /\ toLowerCase (sa_newStateRoot adv) = bytesToHex r'
}.

Inductive account (opts : ReplayOptions) : CortexState -> list CoreTexStateAdvancedEvent -> CortexState -> Prop :=
  | account_nil s : account opts s [] s
  | account_cons s adv s' advs s'' : advance_ok opts s adv s' -> account opts s' advs s'' -> account opts s (adv :: advs) s''.

(** How many of [l] belong to the epoch. *)
Definition epoch_count (e : Z) (l : list CoreTexStateAdvancedEvent) : Z := Z.of_nat (length (filter (fun a => sa_epoch a = e) l)).
(** Each advance carries the number of its predecessors in its epoch. *)
Definition indexed (l : list CoreTexStateAdvancedEvent) : Prop :=
  forall k a, l !! k = Some a -> transitionIndex a = epoch_count (sa_epoch a) (take k l).

Lemma pin_mismatch_spec v pin : pin_mismatch v pin = false <-> pinned v pin.
Proof. unfold pin_mismatch, pinned. destruct (truthy pin); [|done]. rewrite negb_false_iff. apply eqHex_spec. Qed.

Lemma check_advance_pins_spec pins adv : check_advance_pins pins adv = None <-> advance_pinned pins adv.
Proof.
  unfold check_advance_pins, advance_pinned. rewrite <- !pin_mismatch_spec.
  destruct (pin_mismatch _ _), (pin_mismatch _ _), (pin_mismatch _ _); naive_solver.
Qed.

Lemma merkle_hex s r : merkleizeState s = Returns r -> toLowerCase (bytesToHex r) = bytesToHex r.
Proof. intros _. apply toLowerCase_hex. Qed.

(** One step of the loop goes on exactly when the entry is next in its epoch and correct. *)
Lemma replay_advance_ok opts s adv s2 r : merkleizeState (rs_state s) = Returns r -> rs_root s = bytesToHex r ->
  replay_advance opts s adv = Returns (inl s2) <->
  transitionIndex adv = default 0 (jsmap_get (sa_epoch adv) (expectedIdxByEpoch s)) /\ advance_ok opts (rs_state s) adv (rs_state s2)
  /\ (exists r', merkleizeState (rs_state s2) = Returns r' /\ rs_root s2 = bytesToHex r')
  /\ rs_transitions s2 = rs_transitions s + 1
  /\ expectedIdxByEpoch s2 = jsmap_set (sa_epoch adv) (transitionIndex adv + 1) (expectedIdxByEpoch s).
Proof.
  intros Hr Hroot. unfold replay_advance. destruct (Z.eqb_spec (transitionIndex adv) (default 0 (jsmap_get (sa_epoch adv) (expectedIdxByEpoch s)))) as [Ei|Ei]; cbn [negb];
    [|split; [done|intros (? & _); done]]. rewrite <- Ei.
  destruct (check_advance_pins _ _) as [code|] eqn:Ep.
  { split; [done|]. intros (_ & [Hp _ _ _ _ _] & _). apply check_advance_pins_spec in Hp. congruence. }
  apply check_advance_pins_spec in Ep. rewrite Hroot.
  destruct (eqHex _ (bytesToHex r)) eqn:E1; cbn [negb].
  2:{ split; [done|]. intros (_ & [_ (r2 & Hr2 & E) _ _ _ _] & _). rewrite Hr in Hr2. apply Returns_inj in Hr2 as <-.
      assert (eqHex (Some (sa_parentStateRoot adv)) (bytesToHex r) = true) by (apply eqHex_spec; by rewrite toLowerCase_hex). congruence. }
  apply eqHex_spec in E1. rewrite toLowerCase_hex in E1.
  destruct (Nat.eqb_spec (length (compactPatchBytes adv)) 0) as [En|En].
  { split; [done|]. intros (_ & [_ _ Hn _ _ _] & _). by apply nil_length_inv in En. }
  destruct (eqHex _ (sa_patchHash adv)) eqn:E2; cbn [negb].
  2:{ split; [done|]. intros (_ & [_ _ _ Hh _ _] & _).
      assert (eqHex (Some (computePatchHash (compactPatchBytes adv))) (sa_patchHash adv) = true).
      { apply eqHex_spec. rewrite computePatchHash_preimage in *. by rewrite toLowerCase_hex. } congruence. }
  apply eqHex_spec in E2. rewrite computePatchHash_preimage, toLowerCase_hex, <- computePatchHash_preimage in E2.
  split.
  - intros H. apply bind_Returns in H as (p & Hp & H). apply bind_Returns in H as (res & Hres & H). destruct res as [s'|]; [|done].
    apply bind_Returns in H as (r' & Hr' & H). destruct (eqHex (Some (bytesToHex r')) _) eqn:E3; [|done]. cbn [negb] in H. injection H as <-.
    apply eqHex_spec in E3. rewrite toLowerCase_hex in E3. cbn. split; [done|]. split; [|by eauto].
    constructor; try done; [by exists r|by intros E; rewrite E in En|by exists p|by exists r'].
  - intros (_ & [_ _ _ _ (p & Hp & Ha) (r' & Hr' & E3)] & (r2 & Hr2 & E4) & E5 & E6). rewrite Hr' in Hr2. apply Returns_inj in Hr2 as <-.
    rewrite Hp. cbn [mbind outcome_bind]. rewrite Ha. cbn [mbind outcome_bind]. rewrite Hr'. cbn [mbind outcome_bind].
    assert (eqHex (Some (bytesToHex r')) (sa_newStateRoot adv) = true) as -> by (apply eqHex_spec; by rewrite toLowerCase_hex). cbn [negb].
    destruct s2; cbn in *. by subst.
Qed.

(** The table of expected indices counts the advances seen, per epoch. *)
Definition counts (idx : list (Z * Z)) (seen : list CoreTexStateAdvancedEvent) : Prop := forall e, default 0 (jsmap_get e idx) = epoch_count e seen.

Lemma counts_snoc idx seen adv : counts idx seen -> transitionIndex adv = epoch_count (sa_epoch adv) seen ->
  counts (jsmap_set (sa_epoch adv) (transitionIndex adv + 1) idx) (seen ++ [adv]).
Proof.
  intros H E e. rewrite jsmap_get_set. unfold epoch_count in *. rewrite filter_app, length_app, filter_cons, filter_nil.
  case_decide as Ee; [subst e|].
  - rewrite decide_True by done. cbn. rewrite E. lia.
  - rewrite decide_False by congruence. cbn. rewrite Nat.add_0_r. apply H.
Qed.

Lemma replay_loop_ok opts advs seen s s2 r : merkleizeState (rs_state s) = Returns r -> rs_root s = bytesToHex r -> counts (expectedIdxByEpoch s) seen ->
  (exists s3, replay_loop opts advs s = Returns (inl s3) /\ rs_state s3 = s2) <->
  account opts (rs_state s) advs s2 /\ (forall k a, advs !! k = Some a -> transitionIndex a = epoch_count (sa_epoch a) (seen ++ take k advs)).
Proof.
  revert seen s r. induction advs as [|adv advs IH]; intros seen s r Hr Hroot Hc; cbn [replay_loop].
  { split; [intros (s3 & [= <-] & <-); split; [constructor|by intros k a; rewrite lookup_nil]|].
    intros [H _]. inversion H. subst. eauto. }
  split.
  - intros (s3 & H & E). apply bind_Returns in H as (res & Hres & H). destruct res as [s'|]; [|done].
    apply (replay_advance_ok opts s adv s' r) in Hres as (Ei & Hok & (r' & Hr' & Eroot) & _ & Eidx); [|done..].
    rewrite Hc in Ei. pose proof (counts_snoc _ _ _ Hc Ei) as Hc'. rewrite <- Eidx in Hc'.
    destruct (proj1 (IH (seen ++ [adv]) s' r' Hr' Eroot Hc')) as [Hacc Hidx]; [by exists s3|].
    split; [by econstructor|]. intros [|k] a Hk; cbn in Hk; [injection Hk as <-; by rewrite app_nil_r|].
    cbn [take]. rewrite cons_middle, app_assoc. by apply Hidx.
  - intros [Hacc Hidx]. inversion Hacc as [|? ? s' ? ? Hok Hacc' E1 E2]; subst.
    pose proof (Hidx 0%nat adv eq_refl) as Ei. cbn [take] in Ei. rewrite app_nil_r in Ei.
    destruct (ao_new _ _ _ _ Hok) as (r' & Hr' & _).
    assert (Hstep : replay_advance opts s adv = Returns (inl (mkReplay s' (bytesToHex r') (rs_transitions s + 1)
      (jsmap_set (sa_epoch adv) (transitionIndex adv + 1) (expectedIdxByEpoch s))))).
    { apply (replay_advance_ok opts s adv _ r Hr Hroot). cbn. rewrite Hc. eauto 10. }
    unfold mbind, outcome_bind. rewrite Hstep. apply (IH (seen ++ [adv]) _ r'); [done..|by apply counts_snoc|].
    split; [done|]. intros k a Hk. rewrite <- app_assoc. exact (Hidx (S k) a Hk).
Qed.

Lemma replay_loop_root opts advs s s3 r : merkleizeState (rs_state s) = Returns r -> rs_root s = bytesToHex r ->
  replay_loop opts advs s = Returns (inl s3) -> exists r', merkleizeState (rs_state s3) = Returns r' /\ rs_root s3 = bytesToHex r'.
Proof.
  revert s r. induction advs as [|adv advs IH]; intros s r Hr Hroot H; cbn [replay_loop] in H; [injection H as <-; eauto|].
  apply bind_Returns in H as ([s'|] & Hres & H); [|done]. apply (replay_advance_ok opts s adv s' r) in Hres as (_ & _ & (r' & Hr' & E) & _); [|done..]. by eapply IH.
Qed.

(** The loop stops early with failures only. *)
Lemma replay_advance_stops opts s adv n rt fin : replay_advance opts s adv <> Returns (inr (ReplayOk n rt fin)).
Proof.
  intros E. unfold replay_advance in E. cbv zeta in E. repeat (case_match; try discriminate E). apply bind_Returns in E as (p & _ & E). apply bind_Returns in E as ([s'|] & _ & E); [|done].
  apply bind_Returns in E as (r & _ & E). cbv beta in E. case_match; discriminate E.
Qed.

Lemma replay_loop_stops opts advs s n rt fin : replay_loop opts advs s <> Returns (inr (ReplayOk n rt fin)).
Proof.
  revert s. induction advs as [|a l IH]; intros s H; [done|]. cbn [replay_loop] in H. apply bind_Returns in H as ([s'|res] & Ha & H); [by eapply IH|].
  injection H as ->. by apply replay_advance_stops in Ha.
Qed.

Definition finalized_pinned (pins : ResolvedEpochPins) (f : CoreTexEpochFinalizedEvent) : Prop :=
  pinned (fi_coreVersionHash f) (pin_coreVersionHash pins) /\ pinned (fi_corpusRoot f) (pin_corpusRoot pins)
  /\ pinned (fi_activeFrontierRoot f) (pin_activeFrontierRoot pins) /\ pinned (fi_baselineManifestHash f) (pin_baselineManifestHash pins).

Lemma checkFinalizedPins_spec f pins : checkFinalizedPins f pins = None <-> finalized_pinned pins f.
Proof.
  unfold checkFinalizedPins, finalized_pinned. rewrite <- !pin_mismatch_spec.
  destruct (pin_mismatch _ _), (pin_mismatch _ _), (pin_mismatch _ _), (pin_mismatch _ _); naive_solver.
Qed.

(** What a log says once decoded and sorted. *)
Definition advances_of (ds : list (option CoreTexStateAdvancedEvent)) : list CoreTexStateAdvancedEvent := stableSort (somes ds) advance_cmp.
Definition final_of (fs : list (option CoreTexEpochFinalizedEvent)) : option CoreTexEpochFinalizedEvent := last (stableSort (somes fs) finalized_cmp).

(** The log is a correct account of the steps from [parent] to a state with this root. *)
Definition accounts_for (opts : ReplayOptions) (parent : CortexState) (advs : list CoreTexStateAdvancedEvent)
    (final : option CoreTexEpochFinalizedEvent) (root : string) : Prop :=
  exists s' r, account opts parent advs s' /\ indexed advs /\ merkleizeState s' = Returns r /\ root = bytesToHex r
  /\ forall f, final = Some f -> finalized_pinned (resolveEpochPins opts (fi_epoch f)) f /\ toLowerCase (finalStateRoot f) = root.

Lemma replay_ok_spec parent logs opts ds fs n rt fin :
  state_ok parent -> mapM decodeCoreTexStateAdvanced logs = Returns ds -> mapM decodeCoreTexEpochFinalized logs = Returns fs ->
  replayCoreTexFromLogs parent logs opts = Returns (ReplayOk n rt fin) <->
  n = Z.of_nat (length (advances_of ds)) /\ fin = finalStateRoot <$> final_of fs /\ accounts_for opts parent (advances_of ds) (final_of fs) rt.
Proof.
  intros Hok Hds Hfs. unfold replayCoreTexFromLogs. rewrite Hds, Hfs. cbn [mbind outcome_bind]. fold (advances_of ds) (final_of fs).
  assert (Hm := merkleizeState_returns parent (proj1 Hok)). rewrite Hm. cbn [mbind outcome_bind].
  set (s0 := mkReplay parent (bytesToHex (root (cache_of parent))) 0 []).
  assert (Hc : counts (expectedIdxByEpoch s0) []) by (intros e; reflexivity).
  pose proof (fun s2 => replay_loop_ok opts (advances_of ds) [] s0 s2 _ Hm eq_refl Hc) as Hloop.
  assert (Hroot := fun s3 => replay_loop_root opts (advances_of ds) s0 s3 _ Hm eq_refl).
  split.
  - intros H. apply bind_Returns in H as ([s3|res] & Hl & H).
    2:{ injection H as ->. by apply replay_loop_stops in Hl. }
    destruct (Hroot s3 Hl) as (r' & Hr' & Er). destruct (proj1 (Hloop (rs_state s3)) (ex_intro _ s3 (conj Hl eq_refl))) as [Hacc Hidx].
    unfold accounts_for. destruct (final_of fs) as [f|].
    + destruct (checkFinalizedPins f _) eqn:Ep; [done|]. apply checkFinalizedPins_spec in Ep.
      destruct (eqHex _ _) eqn:E; [|done]. injection H as <- <- <-. apply eqHex_spec in E. split; [done|]. split; [done|].
      exists (rs_state s3), r'. do 4 (split; [done|]). intros f' [= <-]. split; [done|]. by rewrite E, Er, toLowerCase_hex.
    + injection H as <- <- <-. split; [done|]. split; [done|]. exists (rs_state s3), r'. do 4 (split; [done|]). done.
  - intros (-> & -> & s' & r & Hacc & Hidx & Hr & -> & Hfin).
    destruct (proj2 (Hloop s') (conj Hacc Hidx)) as (s3 & Hl & <-). destruct (Hroot s3 Hl) as (r' & Hr' & Er). rewrite Hr in Hr'. apply Returns_inj in Hr' as <-.
    rewrite Hl. cbn [mbind outcome_bind]. destruct (final_of fs) as [f|]; cbn [fmap option_fmap option_map].
    + destruct (Hfin f eq_refl) as [Hp Ef]. rewrite (proj2 (checkFinalizedPins_spec _ _) Hp), Er.
      assert (eqHex (Some (finalStateRoot f)) (bytesToHex r) = true) as -> by (apply eqHex_spec; by rewrite toLowerCase_hex). done.
    + by rewrite Er.
Qed.

(** Replay accepts a log exactly when, sorted, its advances are numbered from 0 within each epoch, carry the pins of
    their epoch, and are a correct account of a chain of accepted patches from the given state, the last finalization
    (if any) naming the root reached; it then reports their number and that root. *)
Theorem replay_accepts_iff (parent : CortexState) (logs : list RpcLog) (opts : ReplayOptions)
    (ds : list (option CoreTexStateAdvancedEvent)) (fs : list (option CoreTexEpochFinalizedEvent)) (n : Z) (rt : string) (fin : option string) :
  state_ok parent -> mapM decodeCoreTexStateAdvanced logs = Returns ds -> mapM decodeCoreTexEpochFinalized logs = Returns fs ->
  replayCoreTexFromLogs parent logs opts = Returns (ReplayOk n rt fin) <->
  n = Z.of_nat (length (advances_of ds)) /\ fin = finalStateRoot <$> final_of fs /\ accounts_for opts parent (advances_of ds) (final_of fs) rt.
Proof. apply replay_ok_spec. Qed.

(** ** Arrival order *)
Lemma cmpBig_spec a b : cmpBig a b <= 0 <-> a <= b.
Proof. unfold cmpBig. destruct (Z.ltb_spec a b); [lia|]. destruct (Z.ltb_spec b a); lia. Qed.

Lemma advance_cmp_le a b : advance_cmp a b <= 0 <-> sa_epoch a < sa_epoch b \/ (sa_epoch a = sa_epoch b /\ transitionIndex a <= transitionIndex b).
Proof.
  unfold advance_cmp, or_else, cmpBig. destruct (Z.ltb_spec (sa_epoch a) (sa_epoch b)); [cbn; lia|]. destruct (Z.ltb_spec (sa_epoch b) (sa_epoch a)); [cbn; lia|].
  cbn. destruct (Z.ltb_spec (transitionIndex a) (transitionIndex b)); [lia|]. destruct (Z.ltb_spec (transitionIndex b) (transitionIndex a)); lia.
Qed.

#[export] Instance advance_cmp_preorder : CmpPreorder advance_cmp.
Proof. split; intros *; rewrite !advance_cmp_le; lia. Qed.
#[export] Instance finalized_cmp_preorder : CmpPreorder finalized_cmp.
Proof. split; intros *; unfold finalized_cmp; rewrite !cmpBig_spec; lia. Qed.

(** In an indexed list no two advances share epoch and index. *)
Lemma indexed_distinct l a b : indexed l -> a ∈ l -> b ∈ l -> sa_epoch a = sa_epoch b -> transitionIndex a = transitionIndex b -> a = b.
Proof.
  intros Hidx Ha Hb Ee Ei. apply list_elem_of_lookup in Ha as (i & Hi). apply list_elem_of_lookup in Hb as (j & Hj).
  assert (Hlt : forall i j a b, (i < j)%nat -> l !! i = Some a -> l !! j = Some b -> sa_epoch a = sa_epoch b -> transitionIndex a < transitionIndex b).
  { clear -Hidx. intros i j a b Hij Hi Hj Ee. rewrite (Hidx _ _ Hi), (Hidx _ _ Hj), Ee. unfold epoch_count.
    replace (take j l) with (take i l ++ a :: take (j - i - 1) (drop (S i) l)).
    - rewrite filter_app, length_app, filter_cons_True by done. cbn [length]. lia.
    - rewrite <- (take_drop_middle l i a Hi) at 3. rewrite take_app_ge by (rewrite length_take; lia).
      rewrite length_take, Nat.min_l by (apply lookup_lt_Some in Hi; lia). destruct (j - i)%nat as [|k] eqn:E; [lia|]. replace (S k - 1)%nat with k by lia. done. }
  destruct (Nat.lt_trichotomy i j) as [H|[->|H]]; [|congruence|].
  - pose proof (Hlt _ _ _ _ H Hi Hj Ee). lia.
  - pose proof (Hlt _ _ _ _ H Hj Hi (eq_sym Ee)). lia.
Qed.

Lemma somes_perm {A} (l l' : list (option A)) : l ≡ₚ l' -> somes l ≡ₚ somes l'.
Proof. intros H. unfold somes. by apply omap_Permutation. Qed.

Lemma replay_perm parent logs logs' opts fs n rt fin :
  state_ok parent -> logs ≡ₚ logs' -> mapM decodeCoreTexEpochFinalized logs = Returns fs -> NoDup (map fi_epoch (somes fs)) ->
  replayCoreTexFromLogs parent logs opts = Returns (ReplayOk n rt fin) ->
  replayCoreTexFromLogs parent logs' opts = Returns (ReplayOk n rt fin).
Proof.
  intros Hok Hp Hfs Hnd H. destruct (mapM decodeCoreTexStateAdvanced logs) as [ds|e] eqn:Hds; [|by unfold replayCoreTexFromLogs in H; rewrite Hds in H].
  destruct (proj1 (replay_ok_spec parent logs opts ds fs n rt fin Hok Hds Hfs) H) as (-> & -> & Hacc).
  destruct (mapM_perm _ _ _ _ Hp Hds) as (ds' & Hds' & Pd). destruct (mapM_perm _ _ _ _ Hp Hfs) as (fs' & Hfs' & Pf).
  assert (Ea : advances_of ds = advances_of ds').
  { unfold advances_of. destruct Hacc as (s' & r & _ & Hidx & _). apply stableSort_unique; [apply _|by apply somes_perm|].
    intros a b Ha Hb. rewrite !advance_cmp_le. intros Hab Hba. eapply indexed_distinct; [exact Hidx|..]; unfold advances_of; rewrite ?stableSort_perm; try done; lia. }
  assert (Ef : final_of fs = final_of fs').
  { unfold final_of. f_equal. apply stableSort_unique; [apply _|by apply somes_perm|]. intros a b Ha Hb. unfold finalized_cmp. rewrite !cmpBig_spec. intros Hab Hba.
    apply list_elem_of_lookup in Ha as (i & Hi). apply list_elem_of_lookup in Hb as (j & Hj).
    assert (i = j) as ->; [|congruence]. apply (NoDup_lookup (map fi_epoch (somes fs)) i j (fi_epoch a) Hnd); change (map fi_epoch) with (fmap (M:=list) fi_epoch); rewrite list_lookup_fmap.
    - by rewrite Hi.
    - rewrite Hj. cbn. f_equal. lia. }
  apply (replay_ok_spec _ _ _ ds' fs'); [done..|]. rewrite <- Ea, <- Ef. done.
Qed.

(** The order in which the log entries arrive is immaterial: a log that replays, replays with the same result in any
    order, when no epoch is finalized twice. *)
Theorem replay_order_independent (parent : CortexState) (logs logs' : list RpcLog) (opts : ReplayOptions)
    (fs : list (option CoreTexEpochFinalizedEvent)) (n : Z) (rt : string) (fin : option string) :
  state_ok parent -> logs ≡ₚ logs' -> mapM decodeCoreTexEpochFinalized logs = Returns fs -> NoDup (map fi_epoch (somes fs)) ->
  replayCoreTexFromLogs parent logs opts = Returns (ReplayOk n rt fin) ->
  replayCoreTexFromLogs parent logs' opts = Returns (ReplayOk n rt fin).
Proof. apply replay_perm. Qed.

(** ** Paging *)
(** A provider that answers a block range with the logs of its blocks, in order. *)
Definition serves (getLogs : Z -> Z -> outcome (list RpcLog)) (block : Z -> list RpcLog) : Prop :=
  forall a b, a <= b -> getLogs a b = Returns (seqZ a (b - a + 1) ≫= block).

Lemma seqZ_split a b c : a <= b <= c -> seqZ a (c - a) = seqZ a (b - a) ++ seqZ b (c - b).
Proof. intros H. replace (c - a) with ((b - a) + (c - b)) by lia. rewrite seqZ_app by lia. do 2 f_equal. lia. Qed.

Lemma page_loop_spec getLogs block start to chunk out fuel : serves getLogs block -> 0 < chunk -> to - start + 1 <= Z.of_nat fuel ->
  page_loop fuel getLogs start to chunk out = Some (Returns (out ++ (seqZ start (to - start + 1) ≫= block))).
Proof.
  intros Hs Hc. revert start out. induction fuel as [|fuel IH]; intros start out Hf; cbn [page_loop]; destruct (Z.leb_spec start to) as [Hle|Hgt]; try lia.
  - rewrite seqZ_nil by lia. by rewrite app_nil_r.
  - set (e := if start + chunk - 1 <? to then start + chunk - 1 else to).
    assert (He : start <= e <= to /\ (e = start + chunk - 1 \/ (e = to /\ to < start + chunk))).
    { unfold e. destruct (Z.ltb_spec (start + chunk - 1) to); lia. }
    rewrite (Hs start e) by lia. rewrite IH by lia. rewrite <- app_assoc, <- bind_app. do 5 f_equal.
    destruct He as [He [Ee|[Ee Hlt]]].
    + replace (to - start + 1) with ((to + 1) - start) by lia. rewrite (seqZ_split start (start + chunk)) by lia. f_equal; f_equal; lia.
    + rewrite (seqZ_nil (start + chunk)) by lia. rewrite app_nil_r. f_equal. lia.
  - rewrite seqZ_nil by lia. by rewrite app_nil_r.
Qed.

(** Paging ends, and what it collects from a provider that serves every range is the log of exactly the requested
    blocks up to the confirmed head, each once and in order, whatever the page size. *)
Theorem coretexRangeLogs_complete (getLogs : Z -> Z -> outcome (list RpcLog)) (block : Z -> list RpcLog) (head : outcome Z)
    (fromBlock toBlock : string) (from to latest : Z) (chunk depth lb : option Z) :
  serves getLogs block -> js_BigInt fromBlock = Returns from -> js_BigInt toBlock = Returns to ->
  match lb with Some l => Returns l | None => head end = Returns latest ->
  0 < default CORETEX_DEFAULT_LOG_CHUNK_BLOCKS chunk -> 0 <= default CORETEX_DEFAULT_CONFIRMATION_DEPTH depth ->
  let last := Z.min to (latest - default CORETEX_DEFAULT_CONFIRMATION_DEPTH depth) in
  coretexRangeLogs getLogs head fromBlock toBlock chunk depth lb = Some (Returns (seqZ from (last - from + 1) ≫= block)).
Proof.
  intros Hs Hf Ht Hl Hc Hd last. unfold coretexRangeLogs. rewrite (proj2 (Z.leb_gt _ 0)), (proj2 (Z.ltb_ge _ 0)) by lia.
  rewrite Hl. cbn [mbind outcome_bind]. rewrite Hf. cbn [mbind outcome_bind]. rewrite Ht. cbn [mbind outcome_bind].
  match goal with |- page_loop _ _ _ ?t _ _ = _ => replace t with last end.
  - rewrite (page_loop_spec _ block) by (first [done|lia]). done.
  - unfold last. destruct (Z.ltb_spec to (latest - default CORETEX_DEFAULT_CONFIRMATION_DEPTH depth)); lia.
Qed.

(** ** What the contract writes *)
(** [emit CoreTexStateAdvanced(...)]: three indexed arguments and the ABI encoding of the rest. *)
Definition advance_log (epoch index : Z) (addr : bytes) (head : list bytes) (credits wordCount : Z) (patchBytes : bytes) : RpcLog :=
  mkLog None [TOPIC_STATE_ADVANCED; abi_topic epoch; abi_topic index; bytesToHex (zeros 12 ++ addr)]
    (bytesToHex (concat (head ++ [be_bytes 32 credits; be_bytes 32 wordCount; be_bytes 32 320]) ++ abi_bytes patchBytes)) None None None.

(** [emit CoreTexEpochFinalized(...)] *)
Definition finalized_log (epoch : Z) (head : list bytes) : RpcLog :=
  mkLog None [TOPIC_EPOCH_FINALIZED; abi_topic epoch] (bytesToHex (concat head)) None None None.

Lemma word_of ws (k : nat) i w rest : i = Z.of_nat k -> Forall abi_word_ok ws -> ws !! k = Some w -> word (concat ws ++ rest) i = bytesToHex w.
Proof.
  intros -> Hf Hi. unfold word. rewrite Z.mul_comm, (word_subarray ws k w rest); [done| |done]. eapply Forall_impl; [exact Hf|by intros ? []].
Qed.

Lemma wordNum_of ws (k : nat) i w rest : i = Z.of_nat k -> Forall abi_word_ok ws -> ws !! k = Some w -> wordNum (concat ws ++ rest) i = be_value w.
Proof. intros -> Hf Hi. unfold wordNum. rewrite Z.mul_comm. by apply word_read. Qed.

(** A state-advance entry as the contract emits it decodes to its arguments. *)
Lemma decode_advance_log epoch index addr w0 w1 w2 w3 w4 w5 w6 credits wordCount patchBytes :
  0 <= epoch < 2 ^ 64 -> 0 <= index < 2 ^ 64 -> length addr = 20%nat -> Forall abi_word_ok [w0; w1; w2; w3; w4; w5; w6] ->
  0 <= credits < 2 ^ 256 -> 0 <= wordCount < 2 ^ 16 -> bytes_ok patchBytes -> Z.of_nat (length patchBytes) < 2 ^ 256 ->
  decodeCoreTexStateAdvanced (advance_log epoch index addr [w0; w1; w2; w3; w4; w5; w6] credits wordCount patchBytes)
  = Returns (Some (mkAdvanced epoch index (bytesToHex addr) (bytesToHex w0) (bytesToHex w1) (bytesToHex w2) (bytesToHex w3)
      (bytesToHex w4) (bytesToHex w5) (bytesToHex w6) credits (of_Z wordCount) patchBytes)).
Proof.
  intros He Hi Ha Hw Hc Hwc Hb Hl. unfold decodeCoreTexStateAdvanced, advance_log. cbn [topics data lookup list_lookup].
  rewrite eqHex_refl. cbn [negb]. set (ws := [w0; w1; w2; w3; w4; w5; w6] ++ [be_bytes 32 credits; be_bytes 32 wordCount; be_bytes 32 320]).
  assert (Hws : Forall abi_word_ok ws) by (apply Forall_app; split; [done|]; repeat (apply Forall_cons; split; [apply abi_word_be|]); apply Forall_nil_2).
  rewrite hexToBytes_bytesToHex by (apply abi_data_ok; [done|by apply abi_bytes_ok]). cbn [mbind outcome_bind].
  rewrite !topicBig_abi by lia. cbn [mbind outcome_bind]. rewrite topicAddr_abi by done.
  rewrite (word_of ws 0 0 w0), (word_of ws 1 1 w1), (word_of ws 2 2 w2), (word_of ws 3 3 w3), (word_of ws 4 4 w4), (word_of ws 5 5 w5), (word_of ws 6 6 w6) by done.
  rewrite (wordNum_of ws 7 7 (be_bytes 32 credits)), (wordNum_of ws 8 8 (be_bytes 32 wordCount)), (wordNum_of ws 9 9 (be_bytes 32 320)) by done.
  rewrite !be_value_be_bytes, !Z.mod_small by lia. do 3 f_equal.
  pose proof (abi_bytes_read ws patchBytes [] Hws Hl) as E. cbv zeta in E. rewrite app_nil_r in E. exact E.
Qed.

Lemma decode_finalized_log epoch w0 w1 w2 w3 w4 w5 w6 w7 :
  0 <= epoch < 2 ^ 64 -> Forall abi_word_ok [w0; w1; w2; w3; w4; w5; w6; w7] ->
  decodeCoreTexEpochFinalized (finalized_log epoch [w0; w1; w2; w3; w4; w5; w6; w7])
  = Returns (Some (mkFinalized epoch (bytesToHex w0) (bytesToHex w1) (bytesToHex w2) (bytesToHex w3) (bytesToHex w4) (bytesToHex w5) (bytesToHex w6) (bytesToHex w7))).
Proof.
  intros He Hw. unfold decodeCoreTexEpochFinalized, finalized_log. cbn [topics data lookup list_lookup]. rewrite eqHex_refl. cbn [negb].
  set (ws := [w0; w1; w2; w3; w4; w5; w6; w7]). rewrite <- (app_nil_r (concat ws)).
  rewrite hexToBytes_bytesToHex by (apply abi_data_ok; [done|constructor]). cbn [mbind outcome_bind]. rewrite topicBig_abi by lia. cbn [mbind outcome_bind].
  by rewrite (word_of ws 0 0 w0), (word_of ws 1 1 w1), (word_of ws 2 2 w2), (word_of ws 3 3 w3), (word_of ws 4 4 w4), (word_of ws 5 5 w5), (word_of ws 6 6 w6), (word_of ws 7 7 w7).
Qed.

(** An entry of the other kind decodes to nothing, when the two topics differ. *)
Lemma decode_other_topic log : TOPIC_STATE_ADVANCED <> TOPIC_EPOCH_FINALIZED ->
  (topics log !! 0%nat = Some TOPIC_STATE_ADVANCED -> decodeCoreTexEpochFinalized log = Returns None)
  /\ (topics log !! 0%nat = Some TOPIC_EPOCH_FINALIZED -> decodeCoreTexStateAdvanced log = Returns None).
Proof.
  intros Hd. unfold decodeCoreTexEpochFinalized, decodeCoreTexStateAdvanced, TOPIC_STATE_ADVANCED, TOPIC_EPOCH_FINALIZED in *.
  assert (E : forall a b, eventTopic a <> eventTopic b -> eqHex (Some (eventTopic a)) (eventTopic b) = false).
  { intros a b Hn. apply not_true_iff_false. rewrite eqHex_spec. unfold eventTopic in *. by rewrite !toLowerCase_hex. }
  split; intros ->; by rewrite E by congruence.
Qed.

(** ** The live lane on the chain *)
(** Each advance is an accepted patch on the state the previous ones gave. *)
Record live_fact (r5 : bool) (s : CortexState) (a : StateAdvance) (s' : CortexState) : Prop := {
  lf_parent : adv_parentStateRoot a = bytesToHex (root (cache_of s));
  lf_wire : wire_ok (adv_patch a) /\ adv_patchBytes a = patch_wire (adv_patch a);
  lf_apply : applyPatch s (adv_patch a) r5 = Returns (PatchSuccess s');
  lf_hash : adv_patchHash a = computePatchHash (adv_patchBytes a);
  lf_new : adv_newStateRoot a = bytesToHex (root (cache_of s'));
  lf_ok : state_ok s /\ state_ok s'
}.
Inductive live_account (r5 : bool) : CortexState -> list StateAdvance -> CortexState -> Prop :=
  | live_account_nil s : live_account r5 s [] s
  | live_account_cons s a s' advs s'' : live_fact r5 s a s' -> live_account r5 s' advs s'' -> live_account r5 s (a :: advs) s''.

Lemma live_account_snoc r5 s advs s' a s'' : live_account r5 s advs s' -> live_fact r5 s' a s'' -> live_account r5 s (advs ++ [a]) s''.
Proof. induction 1 as [s|s b s1 advs s2 Hb _ IH]; intros Ha; cbn; (econstructor; [eassumption|]); [constructor|by apply IH]. Qed.

Definition live_bytes_ok (i : LiveEpochInputPatch) : Prop := live_wire_ok i /\ live_patchBytes i = patch_wire (live_patch i).

(** The invariant of the live loop, seen from the parent. *)
Record live_log_inv (r5 : bool) (parent : CortexState) (l : live) : Prop := {
  ll_account : live_account r5 parent (l_advances l) (l_current l);
  ll_merkle : l_merkle l = cache_of (l_current l);
  ll_state : state_ok (l_current l);
  ll_index : forall k a, l_advances l !! k = Some a -> advanceIndex a = Z.of_nat k
}.

Lemma live_step_log parent th opts l item l' : live_bytes_ok item -> live_log_inv (live_policyAtomsMode opts) parent l ->
  live_step th opts l item = Returns l' ->
  live_log_inv (live_policyAtomsMode opts) parent l' /\ (length (l_advances l') <= S (length (l_advances l)))%nat.
Proof.
  intros [Hw Hb] [Ha Hm Hs Hi] H. unfold live_step in H. rewrite Hm in H.
  destruct (bytesEqual _ _) eqn:Eb; cbn [negb] in H; [|injection H as <-; split; [by constructor|cbn; lia]].
  destruct (evaluateAndApplyOntoCurrent _ _ _ _ _ _ _) as [s' gain|reason] eqn:E; [|injection H as <-; split; [by constructor|cbn; lia]].
  apply accept_step_ok in E as (Hacc & _ & _); [|done|done]. pose proof (acc_result _ _ _ _ Hacc) as ->.
  rewrite update_patched in H by done. cbn [mbind outcome_bind] in H.
  apply bind_Returns in H as (passes & _ & H). apply bind_Returns in H as (units & _ & [= <-]).
  assert (Hok' : state_ok (patched (l_current l) (live_patch item))) by (apply patched_ok; [done|apply Hw]).
  cbn [l_current l_merkle l_advances l_rejected]. split; [|rewrite length_app; cbn [length]; lia]. constructor; cbn [l_current l_merkle l_advances l_rejected].
  - eapply live_account_snoc; [exact Ha|]. constructor; cbn [adv_patch adv_patchBytes adv_parentStateRoot adv_newStateRoot adv_patchHash];
      [exact eq_refl|exact (conj Hw Hb)| |exact eq_refl|exact eq_refl|exact (conj Hs Hok')]. apply applyPatch_accepts; [exact Hs|exact Hw|]. split; [|exact Hacc].
    apply bytesEqual_spec in Eb. rewrite Eb. apply merkleizeState_returns, Hs.
  - exact eq_refl.
  - exact Hok'.
  - intros k a Hk. apply lookup_app_Some in Hk as [Hk|[Hlt Hk]]; [by apply Hi|]. apply list_lookup_singleton_Some in Hk as [Hk <-]. cbn. lia.
Qed.

Lemma live_loop_log parent th opts items l l' : Forall live_bytes_ok items -> live_log_inv (live_policyAtomsMode opts) parent l ->
  live_loop th opts items l = Returns l' ->
  live_log_inv (live_policyAtomsMode opts) parent l' /\ (length (l_advances l') <= length (l_advances l) + length items)%nat.
Proof.
  intros Hf. revert l. induction Hf as [|item items Hi _ IH]; intros l Hl H; cbn [live_loop] in H; [injection H as <-; split; [done|cbn; lia]|].
  apply bind_Returns in H as (l1 & H1 & H). destruct (live_step_log _ _ _ _ _ _ Hi Hl H1) as [Hl1 Hn]. destruct (IH _ Hl1 H) as [? ?].
  split; [done|]. cbn. lia.
Qed.

(** The log entry of an advance: its roots, patch hash and bytes in the contract's encoding, under the pins of the epoch. *)
Definition published (opts : ReplayOptions) (epoch : Z) (a : StateAdvance) (log : RpcLog) : Prop :=
  exists addr pr nr ph report core corpus frontier credits wordCount,
  log = advance_log epoch (advanceIndex a) addr [pr; nr; ph; report; core; corpus; frontier] credits wordCount (adv_patchBytes a)
  /\ bytesToHex pr = adv_parentStateRoot a /\ bytesToHex nr = adv_newStateRoot a /\ bytesToHex ph = adv_patchHash a
  /\ length addr = 20%nat /\ Forall abi_word_ok [pr; nr; ph; report; core; corpus; frontier]
  /\ 0 <= credits < 2 ^ 256 /\ 0 <= wordCount < 2 ^ 16 /\ Z.of_nat (length (adv_patchBytes a)) < 2 ^ 256
  /\ (let pins := resolveEpochPins opts epoch in
      pinned (bytesToHex core) (pin_coreVersionHash pins) /\ pinned (bytesToHex corpus) (pin_corpusRoot pins)
      /\ pinned (bytesToHex frontier) (pin_activeFrontierRoot pins)).

(** The finalization entry of an epoch that ended in root [rt]. *)
Definition finalization (opts : ReplayOptions) (epoch : Z) (rt : string) (log : RpcLog) : Prop :=
  exists w0 nr core corpus frontier w5 w6 manifest,
  log = finalized_log epoch [w0; nr; core; corpus; frontier; w5; w6; manifest] /\ bytesToHex nr = rt
  /\ Forall abi_word_ok [w0; nr; core; corpus; frontier; w5; w6; manifest]
  /\ (let pins := resolveEpochPins opts epoch in
      pinned (bytesToHex core) (pin_coreVersionHash pins) /\ pinned (bytesToHex corpus) (pin_corpusRoot pins)
      /\ pinned (bytesToHex frontier) (pin_activeFrontierRoot pins) /\ pinned (bytesToHex manifest) (pin_baselineManifestHash pins)).

Lemma published_decodes opts epoch a log : 0 <= epoch < 2 ^ 64 -> 0 <= advanceIndex a < 2 ^ 64 -> bytes_ok (adv_patchBytes a) -> published opts epoch a log ->
  exists ev, decodeCoreTexStateAdvanced log = Returns (Some ev) /\ topics log !! 0%nat = Some TOPIC_STATE_ADVANCED
  /\ sa_epoch ev = epoch /\ transitionIndex ev = advanceIndex a /\ compactPatchBytes ev = adv_patchBytes a
  /\ sa_parentStateRoot ev = adv_parentStateRoot a /\ sa_newStateRoot ev = adv_newStateRoot a /\ sa_patchHash ev = adv_patchHash a
  /\ advance_pinned (resolveEpochPins opts epoch) ev.
Proof.
  intros He Hi Hb (addr & pr & nr & ph & report & core & corpus & frontier & credits & wc & -> & E1 & E2 & E3 & Ha & Hw & Hc & Hwc & Hl & Hp).
  eexists. rewrite decode_advance_log by done. split; [done|]. cbn [topics lookup list_lookup sa_epoch transitionIndex compactPatchBytes sa_parentStateRoot
    sa_newStateRoot sa_patchHash]. do 7 (split; [done|]). exact Hp.
Qed.

(** The events of a published run are an account of the same states. *)
Lemma published_account opts r5 epoch s advs s' evs : ro_policyAtomsMode opts = r5 -> live_account r5 s advs s' ->
  Forall2 (fun a ev => sa_epoch ev = epoch /\ compactPatchBytes ev = adv_patchBytes a
    /\ sa_parentStateRoot ev = adv_parentStateRoot a /\ sa_newStateRoot ev = adv_newStateRoot a /\ sa_patchHash ev = adv_patchHash a
    /\ advance_pinned (resolveEpochPins opts epoch) ev) advs evs ->
  account opts s evs s'.
Proof.
  intros Hm H. revert evs. induction H as [s|s a s1 advs s2 [F1 [F2 F2'] F3 F4 F5 [F6 F6']] _ IH]; intros evs Hf; inversion Hf as [|? ev ? evs' (E1 & E2 & E3 & E4 & E5 & E6) Hf']; subst; [constructor|].
  econstructor; [|by apply IH]. constructor.
  - done.
  - exists (root (cache_of s)). split; [apply merkleizeState_returns, F6|]. by rewrite E3, F1, toLowerCase_hex.
  - rewrite E2, F2'. unfold patch_wire. done.
  - rewrite E5, F4, E2. rewrite computePatchHash_preimage. by rewrite toLowerCase_hex.
  - exists (adv_patch a). split; [|done]. rewrite E2, F2'. by apply decodePatch_wire.
  - exists (root (cache_of s1)). split; [apply merkleizeState_returns, F6'|]. by rewrite E4, F5, toLowerCase_hex.
Qed.

Lemma account_sorted epoch evs : (forall k ev, evs !! k = Some ev -> sa_epoch ev = epoch /\ transitionIndex ev = Z.of_nat k) ->
  StronglySorted (cmp_le advance_cmp) evs /\ indexed evs.
Proof.
  intros H. split.
  - assert (G : forall base l, (forall k ev, l !! k = Some ev -> sa_epoch ev = epoch /\ transitionIndex ev = base + Z.of_nat k) -> StronglySorted (cmp_le advance_cmp) l).
    { clear. intros base l. revert base. induction l as [|x l IH]; intros base Hl; [constructor|]. constructor.
      - apply (IH (base + 1)). intros k ev Hk. destruct (Hl (S k) ev Hk) as [? ->]. split; [done|lia].
      - apply Forall_lookup. intros k ev Hk. apply advance_cmp_le. destruct (Hl 0%nat x eq_refl) as [-> ->]. destruct (Hl (S k) ev Hk) as [-> ->]. lia. }
    apply (G 0). intros k ev Hk. destruct (H k ev Hk) as [? ->]. split; [done|lia].
  - intros k ev Hk. destruct (H k ev Hk) as [E ->]. rewrite E. unfold epoch_count. rewrite filter_keeps.
    + rewrite length_take. apply lookup_lt_Some in Hk. lia.
    + intros b Hb. apply list_elem_of_lookup in Hb as (j & Hj). apply lookup_take_Some in Hj as [Hj _]. by destruct (H j b Hj).
Qed.

Lemma somes_somes {A} (l : list A) : somes (map Some l) = l.
Proof. unfold somes. induction l as [|x l IH]; [done|]. cbn. by f_equal. Qed.
Lemma somes_app {A} (l k : list (option A)) : somes (l ++ k) = somes l ++ somes k.
Proof. unfold somes. apply omap_app. Qed.
Lemma somes_none {A} n : somes (replicate n (@None A)) = [].
Proof. unfold somes. induction n; [done|]. exact IHn. Qed.

(** C10. End to end: the advances of a live epoch on wire patches, published in the contract's encoding under the expected
    pins, with or without the finalization, replay in whatever order they arrive to the live lane's final root. *)
Theorem live_epoch_replays (parent : CortexState) (items : list LiveEpochInputPatch) (th : Z) (lopts : LiveEpochRewardOptions) (o : LiveEpochOutput)
    (epoch : Z) (ropts : ReplayOptions) (advLogs finLogs logs : list RpcLog) :
  TOPIC_STATE_ADVANCED <> TOPIC_EPOCH_FINALIZED -> state_ok parent -> Forall live_bytes_ok items -> Z.of_nat (length items) < 2 ^ 64 -> 0 <= epoch < 2 ^ 64 ->
  advanceEpochState parent items th lopts = Returns o -> ro_policyAtomsMode ropts = live_policyAtomsMode lopts ->
  Forall2 (published ropts epoch) (advances o) advLogs -> (finLogs = [] \/ exists f, finLogs = [f] /\ finalization ropts epoch (live_newStateRootHex o) f) ->
  logs ≡ₚ advLogs ++ finLogs ->
  exists fin, replayCoreTexFromLogs parent logs ropts = Returns (ReplayOk (Z.of_nat (length (advances o))) (live_newStateRootHex o) fin).
Proof.
  intros Ht Hs Hf Hn He H Hmode Hpub Hfin Hperm.
  unfold advanceEpochState in H. rewrite buildMerkleCache_returns in H by apply Hs. cbn [mbind outcome_bind] in H.
  apply bind_Returns in H as (l & Hl & H).
  destruct (live_loop_log parent th lopts items (mkLive parent (cache_of parent) [] []) l Hf) as [[Hacc Hm Hok Hidx] Hlen];
    [constructor; cbn; try done; [constructor]|exact Hl|]. cbn [l_advances length Nat.add] in Hlen.
  injection H as <-. cbn [advances live_newStateRootHex] in *. rewrite Hm in Hfin |- *.
  (* the decoded advances *)
  assert (Hev : exists evs, mapM decodeCoreTexStateAdvanced advLogs = Returns (map Some evs)
    /\ mapM decodeCoreTexEpochFinalized advLogs = Returns (replicate (length advLogs) None)
    /\ Forall2 (fun a ev => transitionIndex ev = advanceIndex a /\ sa_epoch ev = epoch /\ compactPatchBytes ev = adv_patchBytes a
      /\ sa_parentStateRoot ev = adv_parentStateRoot a /\ sa_newStateRoot ev = adv_newStateRoot a /\ sa_patchHash ev = adv_patchHash a
      /\ advance_pinned (resolveEpochPins ropts epoch) ev) (l_advances l) evs).
  { assert (Hb : Forall (fun a => bytes_ok (adv_patchBytes a)) (l_advances l)).
    { clear -Hacc. induction Hacc as [|s a s1 advs s2 [_ [F2 F2'] _ _ _ _] _ IH]; constructor; [|done]. rewrite F2'. by apply patch_wire_bytes_ok. }
    assert (Hi : Forall (fun a => 0 <= advanceIndex a < 2 ^ 64) (l_advances l)).
    { apply Forall_lookup. intros k a Hk. rewrite (Hidx k a Hk). apply lookup_lt_Some in Hk. lia. }
    clear -Ht He Hpub Hb Hi. induction Hpub as [|a log advs advLogs Hp _ IH]; [by exists []|].
    apply Forall_cons in Hb as [Hb1 Hb]. apply Forall_cons in Hi as [Hi1 Hi]. destruct (IH Hb Hi) as (evs & E1 & E2 & E3).
    destruct (published_decodes _ _ _ _ He Hi1 Hb1 Hp) as (ev & D1 & D2 & D3 & D4 & D5 & D6 & D7 & D8 & D9).
    exists (ev :: evs). cbn [mapM map length replicate]. rewrite D1, (proj1 (decode_other_topic _ Ht) D2). cbn [mbind outcome_bind]. rewrite E1, E2.
    split; [done|]. split; [done|]. by constructor. }
  destruct Hev as (evs & E1 & E2 & E3).
  assert (Hlk : forall k ev, evs !! k = Some ev -> sa_epoch ev = epoch /\ transitionIndex ev = Z.of_nat k).
  { intros k ev Hk. destruct (Forall2_lookup_r _ _ _ _ _ E3 Hk) as (a & Ha & Ei & Ee & _). by rewrite Ei, (Hidx k a Ha). }
  destruct (account_sorted epoch evs Hlk) as [Hsort Hix].
  assert (Hacc' : account ropts parent evs (l_current l)).
  { eapply published_account; [exact Hmode|exact Hacc|]. eapply Forall2_impl; [exact E3|]. intros a ev (_ & ?). done. }
  pose proof (Forall2_length _ _ _ E3) as Hlen'.
  assert (Hroot : merkleizeState (l_current l) = Returns (root (cache_of (l_current l)))) by apply merkleizeState_returns, Hok.
  destruct Hfin as [->|(f & -> & w0 & nr & core & corpus & frontier & w5 & w6 & manifest & -> & Enr & Hw & Hpins)].
  - exists None. rewrite app_nil_r in Hperm. eapply replay_perm; [done|by symmetry|exact E2|by rewrite somes_none; constructor|].
    apply (replay_ok_spec _ _ _ _ _ _ _ _ Hs E1 E2). unfold advances_of, final_of. rewrite somes_somes, somes_none, stableSort_id by done.
    split; [by rewrite Hlen'|]. split; [done|]. exists (l_current l), (root (cache_of (l_current l))). split; [exact Hacc'|]. split; [exact Hix|]. split; [exact Hroot|]. split; [exact eq_refl|]. by intros f [=].
  - pose proof (decode_finalized_log epoch w0 nr core corpus frontier w5 w6 manifest He Hw) as Df.
    set (fe := mkFinalized _ _ _ _ _ _ _ _ _) in Df. exists (Some (finalStateRoot fe)).
    assert (M1 : mapM decodeCoreTexStateAdvanced (advLogs ++ [finalized_log epoch [w0; nr; core; corpus; frontier; w5; w6; manifest]]) = Returns (map Some evs ++ [None])).
    { apply mapM_app; [done|]. cbn [mapM]. by rewrite (proj2 (decode_other_topic _ Ht)). }
    assert (M2 : mapM decodeCoreTexEpochFinalized (advLogs ++ [finalized_log epoch [w0; nr; core; corpus; frontier; w5; w6; manifest]]) = Returns (replicate (length advLogs) None ++ [Some fe])).
    { apply mapM_app; [done|]. cbn [mapM]. by rewrite Df. }
    eapply replay_perm; [done|by symmetry|exact M2| |].
    { rewrite somes_app, somes_none. cbn. repeat constructor. set_solver. }
    apply (replay_ok_spec _ _ _ _ _ _ _ _ Hs M1 M2). unfold advances_of, final_of. rewrite !somes_app, somes_somes, somes_none. change (somes [None]) with (@nil CoreTexStateAdvancedEvent).
    rewrite app_nil_r, stableSort_id by done. change (last (stableSort ([] ++ somes [Some fe]) finalized_cmp)) with (Some fe).
    split; [by rewrite Hlen'|]. split; [done|]. exists (l_current l), (root (cache_of (l_current l))). split; [exact Hacc'|]. split; [exact Hix|]. split; [exact Hroot|]. split; [exact eq_refl|].
    intros f' [= <-]. split; [exact Hpins|]. cbn [finalStateRoot fe]. rewrite Enr. apply toLowerCase_hex.
Qed.

(** A recovery pin yields a well-formed state with exactly the pinned root. *)
Lemma launchRecoveryParentState_ok pin s : launchRecoveryParentState pin = Returns s ->
  state_ok s /\ exists r, merkleizeState s = Returns r /\ bytesToHex r = toLowerCase (pin_parentStateRoot pin).
Proof.
  intros H. unfold launchRecoveryParentState in H. apply bind_Returns in H as (bs & Hb & H). apply bind_Returns in H as (s1 & Hs & H).
  apply bind_Returns in H as (r & Hr & H). apply bind_Returns in H as (u & Ht & [= <-]). split.
  - apply (unpack_ok bs); [|exact Hs]. unfold hexToBytes in Hb. destruct (hex_pairs _) as [ps|]; [|done]. injection Hb as <-.
    apply Forall_forall. intros b (p & -> & _)%list_elem_of_fmap. destruct p. apply Z.mod_pos_bound. lia.
  - exists r. split; [exact Hr|]. apply throw_if_Returns, negb_false_iff, String.eqb_eq in Ht. by rewrite toLowerCase_hex in Ht.
Qed.
End Theorems.

(** The expected hidden-seed commit is accepted as an option and never looked at. *)
Lemma hidden_seed_commit_ignored {HK : Hasher} (parent : CortexState) (logs : list RpcLog) (a b c d : option string) (h h' : option string) f m :
  replayCoreTexFromLogs parent logs (mkReplayOptions a b c d h f m) = replayCoreTexFromLogs parent logs (mkReplayOptions a b c d h' f m).
Proof.
  unfold replayCoreTexFromLogs.
  assert (Hl : forall advs s, replay_loop (mkReplayOptions a b c d h f m) advs s = replay_loop (mkReplayOptions a b c d h' f m) advs s).
  { induction advs as [|adv advs IH]; intros s; [done|]. cbn [replay_loop]. change (replay_advance (mkReplayOptions a b c d h f m) s adv) with (replay_advance (mkReplayOptions a b c d h' f m) s adv).
    destruct (replay_advance _ _ _) as [[s'|]|]; [apply IH|done..]. }
  destruct (mapM decodeCoreTexStateAdvanced logs); [|done]. cbn [mbind outcome_bind]. destruct (mapM decodeCoreTexEpochFinalized logs); [|done]. cbn [mbind outcome_bind].
  destruct (merkleizeState parent); [|done]. cbn [mbind outcome_bind]. rewrite Hl. done.
Qed.

Definition replay_patch_1 : Patch := mkPatch PATCH_TYPE.SLOT_REPLACE 1 0 (be_bytes 32 64) [32] [5].
Definition replay_patch_2 : Patch := mkPatch PATCH_TYPE.SLOT_REPLACE 1 0 (be_bytes 32 64) [33] [6].
Definition replay_items : list LiveEpochInputPatch :=
  [mkLiveItem "0xAB" replay_patch_1 (patch_wire replay_patch_1) 0 (fun _ _ => 7); mkLiveItem "0xCD" replay_patch_2 (patch_wire replay_patch_2) 5 (fun _ _ => 9)].
Definition replay_opts : ReplayOptions := mkReplayOptions (Some (bytesToHex (be_bytes 32 4))) None None None None None true.

Definition log_w (i : Z) (p : Patch) : RpcLog :=
  advance_log (HK:=length_hasher) 7 i (zeros 20) [be_bytes 32 64; be_bytes 32 64; be_bytes 32 (21 + Z.of_nat (length (patch_wire p))); zeros 32; be_bytes 32 4; zeros 32; zeros 32] 0 1 (patch_wire p).
Definition logs_w : list RpcLog := [log_w 0 replay_patch_1; log_w 1 replay_patch_2].
Definition fin_w : RpcLog := finalized_log (HK:=length_hasher) 7 [zeros 32; be_bytes 32 64; be_bytes 32 4; zeros 32; zeros 32; zeros 32; zeros 32; zeros 32].

Lemma replay_items_ok : Forall live_bytes_ok replay_items.
Proof.
  assert (H : forall p, bool_decide (wire_ok p) = true -> wire_ok p) by (intros p H; by apply bool_decide_eq_true in H).
  apply Forall_cons; split; [split; [apply H; vm_compute; reflexivity|reflexivity]|].
  apply Forall_cons; split; [split; [apply H; vm_compute; reflexivity|reflexivity]|]. apply Forall_nil_2.
Qed.

Definition ok_w : CoreTexReplayResult := ReplayOk 2 (bytesToHex (be_bytes 32 64)) (Some (bytesToHex (be_bytes 32 64))).
Lemma replay_w : replayCoreTexFromLogs (HK:=length_hasher) zero_state (logs_w ++ [fin_w]) replay_opts = Returns ok_w.
Proof. vm_compute. reflexivity. Qed.
Lemma decode_w : exists ds fs, mapM (decodeCoreTexStateAdvanced (HK:=length_hasher)) (logs_w ++ [fin_w]) = Returns ds
  /\ mapM (decodeCoreTexEpochFinalized (HK:=length_hasher)) (logs_w ++ [fin_w]) = Returns fs /\ NoDup (map fi_epoch (somes fs)).
Proof.
  do 2 eexists. split; [vm_compute; reflexivity|]. split; [vm_compute; reflexivity|]. cbn. repeat constructor. set_solver.
Qed.

Lemma replay_accepts_iff_witness : exists ds fs, mapM (decodeCoreTexStateAdvanced (HK:=length_hasher)) (logs_w ++ [fin_w]) = Returns ds
  /\ accounts_for (HK:=length_hasher) replay_opts zero_state (advances_of ds) (final_of fs) (bytesToHex (be_bytes 32 64)).
Proof.
  destruct decode_w as (ds & fs & Hd & Hf & _). exists ds, fs. split; [exact Hd|].
  exact (proj2 (proj2 (proj1 (replay_accepts_iff (HK:=length_hasher) zero_state (logs_w ++ [fin_w]) replay_opts ds fs 2 _ _ zero_state_ok Hd Hf) replay_w))).
Defined.

Lemma replay_order_independent_witness :
  replayCoreTexFromLogs (HK:=length_hasher) zero_state [log_w 1 replay_patch_2; fin_w; log_w 0 replay_patch_1] replay_opts = Returns ok_w.
Proof.
  destruct decode_w as (ds & fs & Hd & Hf & Hn).
  apply (replay_order_independent (HK:=length_hasher) zero_state (logs_w ++ [fin_w]) [log_w 1 replay_patch_2; fin_w; log_w 0 replay_patch_1] replay_opts fs 2 _ _ zero_state_ok);
    [|exact Hf|exact Hn|exact replay_w].
  change (logs_w ++ [fin_w]) with ([log_w 0 replay_patch_1] ++ [log_w 1 replay_patch_2; fin_w]). apply Permutation_app_comm.
Defined.

Definition block_w (b : Z) : list RpcLog := [mkLog None [] (bytesToHex (be_bytes 4 b)) None None None].
Lemma coretexRangeLogs_complete_witness :
  coretexRangeLogs (fun a b => Returns (seqZ a (b - a + 1) ≫= block_w)) (Returns 120) "0x10" "200" (Some 40) (Some 15) None
  = Some (Returns (seqZ 16 90 ≫= block_w)).
Proof.
  apply (coretexRangeLogs_complete (fun a b => Returns (seqZ a (b - a + 1) ≫= block_w)) block_w (Returns 120) "0x10" "200" 16 200 120 (Some 40) (Some 15) None);
    [intros a b _; reflexivity|reflexivity|reflexivity|reflexivity|cbn; lia|cbn; lia].
Defined.

Lemma log_w_published : exists o, advanceEpochState (HK:=length_hasher) zero_state replay_items 0 live_opts = Returns o
  /\ Forall2 (published (HK:=length_hasher) replay_opts 7) (advances o) logs_w /\ live_newStateRootHex o = bytesToHex (be_bytes 32 64).
Proof.
  eexists. split; [vm_compute; reflexivity|]. split; [|vm_compute; reflexivity]. cbn [advances].
  assert (Hw : forall l, forallb (fun w => (length w =? 32)%nat && forallb (fun b => (0 <=? b) && (b <? 256)) w) l = true -> Forall abi_word_ok l).
  { intros l H. rewrite forallb_forall in H. apply Forall_forall. intros w Hin. apply list_elem_of_In in Hin. apply H, andb_true_iff in Hin as [H1 H2].
    split; [by apply Nat.eqb_eq|]. rewrite forallb_forall in H2. apply Forall_forall. intros b Hb. apply list_elem_of_In, H2, andb_true_iff in Hb. unfold byte_ok. lia. }
  constructor; [|constructor; [|constructor]]; do 10 eexists; (split; [reflexivity|]); (split; [vm_compute; reflexivity|]); (split; [vm_compute; reflexivity|]);
    (split; [vm_compute; reflexivity|]); (split; [reflexivity|]); (split; [apply Hw; vm_compute; reflexivity|]); repeat split; try lia; vm_compute; reflexivity.
Qed.

Lemma live_epoch_replays_witness : exists o fin, advanceEpochState (HK:=length_hasher) zero_state replay_items 0 live_opts = Returns o
  /\ replayCoreTexFromLogs (HK:=length_hasher) zero_state [fin_w; log_w 0 replay_patch_1; log_w 1 replay_patch_2] replay_opts
     = Returns (ReplayOk (Z.of_nat (length (advances o))) (live_newStateRootHex o) fin).
Proof.
  destruct log_w_published as (o & Ho & Hp & Er). exists o.
  destruct (live_epoch_replays (HK:=length_hasher) zero_state replay_items 0 live_opts o 7 replay_opts logs_w [fin_w] [fin_w; log_w 0 replay_patch_1; log_w 1 replay_patch_2])
    as (fin & H); [vm_compute; discriminate|exact zero_state_ok|exact replay_items_ok|reflexivity|lia|exact Ho|reflexivity|exact Hp| |exact (Permutation_app_comm [fin_w] logs_w)|].
  - right. exists fin_w. split; [reflexivity|]. exists (zeros 32), (be_bytes 32 64), (be_bytes 32 4), (zeros 32), (zeros 32), (zeros 32), (zeros 32), (zeros 32).
    split; [reflexivity|]. split; [symmetry; exact Er|]. split; [|vm_compute; tauto].
    repeat (apply Forall_cons_2; [split; [reflexivity|first [apply be_bytes_ok|apply Forall_replicate; unfold byte_ok; lia]]|]). apply Forall_nil_2.
  - exists fin. split; [exact Ho|exact H].
Defined.
