(* ===== verification/EvalHarness.v ===== *)
(** * Evaluation harness (packages/coretex/src/eval/index.ts)

    [evalPatch] scores a state before and after a patch and emits a report
    with a hash. The corpus loader and the clock are parameters. Theorems:
    on wire patches the harness accepts exactly what [applyPatch] accepts
    outside policy mode, with the same error codes and the Merkle root of the
    patched state; the policy-mode rules are not
    enforced here; and the report hash covers the clock. *)
From Stdlib Require Import Ascii.
From stdpp Require Import pretty.
From S2P Require Import Prelude StateTypes Float Codec Keccak Merkle Decoder Substrate SlotPolicy Validate Patch SeedDerivation JsSort CanonicalJson.
#[local] Open Scope Z_scope.

(** ** Loaders *)
Record CorpusLoader := mkLoader {
  corpusRoot : string;
  score : DecodedSubstrate -> bytes -> number;
  scoreState : option (CortexState -> bytes -> number)
}.

Definition StubCorpusLoader (root : string) : CorpusLoader := mkLoader root (fun _ _ => of_frac 1 2) None.

Definition clamp01 (value : number) : number := math_max (of_Z 0) (math_min (of_Z 1) value).

Definition scoreWithLoader (loader : CorpusLoader) (state : CortexState) (decoded : DecodedSubstrate) (shardId : bytes) : outcome Z :=
  let s := match scoreState loader with
           | Some f => f state shardId
           | None => score loader decoded shardId
           end in
  bigint_round (dmul (clamp01 s) (of_Z 1000000)).

(** ** Applying onto a cached parent *)
Definition code_text (c : PatchErrorCode) : string :=
  match c with E01 => "E01" | E02 => "E02" | E03 => "E03" | E04 => "E04" | E05 => "E05" end.

Inductive CachedApplyResult :=
  | CachedApplySuccess (state : CortexState) (updates : list MerkleWordUpdate)
  | CachedApplyError (code : PatchErrorCode) (message : string).

(** This module's [patchError]. *)
Definition eval_patchError (code : PatchErrorCode) : CachedApplyResult :=
  CachedApplyError code (code_text code +:+ ": " +:+ ERROR_NAMES code)%string.

(** The write loop: a missing index is refused. *)
Fixpoint cached_write_loop (patch : Patch) (ks : list Z) (ws : list Z) (updates : list MerkleWordUpdate)
  : option (list Z * list MerkleWordUpdate) :=
  match ks with
  | [] => Some (ws, updates)
  | i :: ks' =>
    match js_get (indices patch) i with
    | None => None
    | Some idx =>
      if (RANGES.RESERVED_START <=? idx) && (idx <=? RANGES.RESERVED_END) then None
      else if (idx <? 0) || (RANGES.WORD_COUNT <=? idx) then None
      else
        let word := get0 (newWords patch) i in
        cached_write_loop patch ks' (js_set ws idx word) (updates ++ [mkUpdate idx word])
    end
  end.

Definition applyPatchWithCachedParent (state : CortexState) (patch : Patch) (parentRoot : bytes) : CachedApplyResult :=
  if (wordCount patch <? 1) || (4 <? wordCount patch) then eval_patchError E03
  else if negb (bytesEqual (parentStateRoot patch) parentRoot) then eval_patchError E01
  else if negb (any_change state patch) then eval_patchError E05
  else match cached_write_loop patch (seqZ 0 (wordCount patch)) (words state) [] with
  | None => eval_patchError E02
  | Some (ws, updates) =>
    let resultState := mkState ws in
    if hasNonZeroReservedBits resultState then eval_patchError E04
    else CachedApplySuccess resultState updates
  end.

(** ** The report *)
Record ReportBody := mkBody {
  version : string;
  rep_parentStateRoot : string;
  rep_newStateRoot : option string;
  rep_patchHash : string;
  rep_accepted : bool;
  errorCode : option string;
  errorMessage : option string;
  baselineScore : Z;
  candidateScore : Z;
  rep_scoreDelta : Z;
  rep_corpusRoot : string;
  rep_shardId : string;
  evalTimestampMs : string;
  evalDurationUs : Z
}.
Record EvalReport := mkReport { body : ReportBody; reportHash : string }.

Section WithNumbers.
(** [String(n)] *)
Context (NumberToString : number -> string).

(** The frozen phase-3 serializer: bigints print as ["123n"], nothing is skipped. *)
Fixpoint canonicalValue (v : jsval) : outcome chars :=
  match v with
  | JNull => Returns (text "null")
  | JBool b => Returns (text (if b then "true" else "false"))
  | JNumber n => Returns (text (NumberToString n))
  | JString s => Returns (quote s)
  | JBigInt v => Returns (dquote :: text (pretty v) ++ ["n"%char; dquote])
  | JArray l => parts ← mapM canonicalValue l; Returns ("["%char :: join_comma parts ++ ["]"%char])
  | JObject fields =>
    parts ← members (sort_fields (map (fun e => (e.1, Some (canonicalValue e.2))) fields));
    Returns ("{"%char :: join_comma (map (fun p => quote p.1 ++ ":"%char :: p.2) parts) ++ ["}"%char])
  | JBytes bs =>
    parts ← members (sort_fields (imap (fun i b => (pretty i, Some (Returns (text (NumberToString (of_Z b)))))) bs));
    Returns ("{"%char :: join_comma (map (fun p => quote p.1 ++ ":"%char :: p.2) parts) ++ ["}"%char])
  | JMap _ => Returns (text "{}")
  | JUndefined | JUnsupported => Throws (TypeError "canonicalValue: unsupported type")
  end.

Definition opt_string (o : option string) : jsval := match o with Some s => JString s | None => JNull end.

(** The report object, its members in the order of the literal. *)
Definition report_value (r : ReportBody) : jsval :=
  JObject [("version", JString (version r)); ("parentStateRoot", JString (rep_parentStateRoot r));
    ("newStateRoot", opt_string (rep_newStateRoot r)); ("patchHash", JString (rep_patchHash r));
    ("accepted", JBool (rep_accepted r)); ("errorCode", opt_string (errorCode r)); ("errorMessage", opt_string (errorMessage r));
    ("baselineScore", JBigInt (baselineScore r)); ("candidateScore", JBigInt (candidateScore r));
    ("scoreDelta", JBigInt (rep_scoreDelta r)); ("corpusRoot", JString (rep_corpusRoot r)); ("shardId", JString (rep_shardId r));
    ("evalTimestampMs", JString (evalTimestampMs r)); ("evalDurationUs", JNumber (of_Z (evalDurationUs r)))]%string.

Definition report_text (r : ReportBody) : outcome string :=
  s ← canonicalValue (report_value r); Returns (String.string_of_list_ascii s).

Record EvalOptions := mkEvalOptions {
  opt_loader : option CorpusLoader;
  opt_shardId : option bytes;
  patchWireBytes : bytes;
  opt_policyAtomsMode : bool;
  merkleCache : option MerkleTreeCache
}.

(** The readings of the clock: [t0] and [t1] in nanoseconds, [now] in milliseconds. *)
Record Clock := mkClock { t0 : Z; t1 : Z; now : Z }.

Context {HK : Hasher}.

Definition evalPatch (clock : Clock) (state : CortexState) (patch : Patch) (opts : EvalOptions) : outcome EvalReport :=
  let loader := default (StubCorpusLoader (bytesToHex (zeros 32))) (opt_loader opts) in
  let shardId := default (zeros 32) (opt_shardId opts) in
  parentCache ← (match merkleCache opts with Some c => Returns c | None => buildMerkleCache state end);
  let parentRootBytes := root parentCache in
  let parentStateRoot := bytesToHex parentRootBytes in
  let patchHash := computePatchHash (patchWireBytes opts) in
  let decoderOptions := mkOpts (opt_policyAtomsMode opts) None None None None in
  baseline ← scoreWithLoader loader state (decodeSubstrate state decoderOptions) shardId;
  r ← (match applyPatchWithCachedParent state patch parentRootBytes with
       | CachedApplySuccess state' updates =>
         nextCache ← updateMerkleCache parentCache updates;
         candidate ← scoreWithLoader loader state' (decodeSubstrate state' decoderOptions) shardId;
         Returns (Some (bytesToHex (root nextCache)), candidate, true, None, None)
       | CachedApplyError code message => Returns (None, baseline, false, Some (code_text code), Some message)
       end);
  let '(newStateRoot, candidate, accepted, errorCode, errorMessage) := r in
  let reportWithoutHash := mkBody "coretex-eval-current" parentStateRoot newStateRoot patchHash accepted errorCode errorMessage
    baseline candidate (candidate - baseline) (corpusRoot loader) (bytesToHex shardId)
    (pretty (now clock)) (Z.quot (t1 clock - t0 clock) 1000) in
  canonBytes ← report_text reportWithoutHash;
  Returns (mkReport reportWithoutHash (bytesToHex (keccak256 (text_encode canonBytes)))).
End WithNumbers.

Lemma text_encode_inj s t : text_encode s = text_encode t -> s = t.
Proof.
  unfold text_encode. intros E. rewrite <- (String.string_of_list_ascii_of_string s), <- (String.string_of_list_ascii_of_string t). f_equal.
  revert E. generalize (text s) (text t). intros a. induction a as [|x a IH]; intros [|y b]; cbn [map]; try done. intros [= E1 E2].
  rewrite (IH b E2). f_equal. rewrite <- (Ascii.ascii_nat_embedding x), <- (Ascii.ascii_nat_embedding y). f_equal. lia.
Qed.

(** ** The cached apply path *)
Lemma apply_updates_app u1 u2 ws : apply_updates (u1 ++ u2) ws = apply_updates u2 (apply_updates u1 ws).
Proof. apply fold_left_app. Qed.

(** The loop writes what its updates say, and what [write_loop] writes. *)
Lemma cached_write_loop_spec p ks ws ups ws' ups' : length ws = WORD_COUNT_NAT ->
  cached_write_loop p ks ws ups = Some (ws', ups') ->
  write_loop p ks ws = Some ws' /\ exists new, ups' = ups ++ new /\ ws' = apply_updates new ws /\ Forall update_in_range new.
Proof.
  revert ws ups. induction ks as [|i ks IH]; intros ws ups Hl E; cbn [cached_write_loop write_loop] in *.
  { injection E as -> ->. split; [done|]. exists []. by rewrite app_nil_r. }
  destruct (js_get (indices p) i) as [idx|]; [|done]. destruct (_ && _); [done|].
  destruct ((idx <? 0) || (RANGES.WORD_COUNT <=? idx)) eqn:Er; [done|]. apply orb_false_iff in Er as [E1 E2].
  apply Z.ltb_ge in E1. apply Z.leb_gt in E2. pose proof WORD_COUNT_NAT_Z as HW. unfold RANGES.WORD_COUNT in *.
  rewrite js_set_insert in * by lia. apply IH in E as (Ew & new & -> & -> & Hr); [|by rewrite length_insert].
  split; [done|]. exists (mkUpdate idx (get0 (newWords p) i) :: new). split; [by rewrite <- app_assoc|]. split; [done|].
  constructor; [|done]. unfold update_in_range, RANGES.WORD_COUNT. cbn. lia.
Qed.

Lemma cached_write_loop_total p ks ws ups : (forall i, i ∈ ks -> is_Some (js_get (indices p) i)) -> length ws = WORD_COUNT_NAT ->
  is_Some (write_loop p ks ws) -> is_Some (cached_write_loop p ks ws ups).
Proof.
  revert ws ups. induction ks as [|i ks IH]; intros ws ups Hp Hl Hw; cbn [cached_write_loop write_loop] in *; [by eexists|].
  destruct (Hp i (list_elem_of_here _ _)) as [idx E]. rewrite E in *. destruct (_ && _); [done|].
  destruct ((idx <? 0) || (RANGES.WORD_COUNT <=? idx)) eqn:Er; [done|]. apply orb_false_iff in Er as [E1 E2].
  apply Z.ltb_ge in E1. apply Z.leb_gt in E2. pose proof WORD_COUNT_NAT_Z as HW. unfold RANGES.WORD_COUNT in *.
  apply IH; [intros j Hj; apply Hp; by apply list_elem_of_further| |done]. rewrite js_set_insert by lia. by rewrite length_insert.
Qed.

Section Theorems.
Context {HK : Hasher}.

(** The r4 result of [applyPatch], as the harness reports it. *)
Definition same_result (a : PatchResult) (c : CachedApplyResult) : Prop :=
  match a, c with
  | PatchSuccess s, CachedApplySuccess s' _ => s = s'
  | PatchFailure e, CachedApplyError c m => code e = c /\ message e = MsgCode (ERROR_NAMES c) /\ m = (code_text c +:+ ": " +:+ ERROR_NAMES c)%string
  | _, _ => False
  end.

Lemma applyCached_same s p : state_ok s -> wire_ok p ->
  exists a, applyPatch s p false = Returns a /\ same_result a (applyPatchWithCachedParent s p (root (cache_of s)))
  /\ forall s' ups, applyPatchWithCachedParent s p (root (cache_of s)) = CachedApplySuccess s' ups ->
     s' = patched s p /\ updateMerkleCache (cache_of s) ups = Returns (cache_of (patched s p)).
Proof.
  intros Hs Hp. destruct Hs as [Hl Hw]. rewrite applyPatch_onto by done. eexists. split; [reflexivity|].
  unfold applyPatchWithCachedParent, applyPatchOntoCurrent, apply_words. fold (over_budget p).
  destruct (over_budget p); [done|]. destruct (negb (bytesEqual _ _)); [done|].
  pose proof (wire_ok_shape p Hp) as Hsh. destruct Hp as (_ & _ & _ & Hv & _).
  rewrite Hv, bool_decide_false by (intros [? ?]; done). cbn [andb]. destruct (negb (any_change s p)); [done|].
  destruct (cached_write_loop_total p (seqZ 0 (wordCount p)) (words s) []) as [[ws ups] E]; [|done|by rewrite write_loop_spec|].
  { intros i Hi%elem_of_seqZ. destruct (shape_position p i Hsh ltac:(lia)) as (x & w & Hx & _). unfold js_get.
    destruct (Z.leb_spec 0 i); [|lia]. by rewrite Hx. }
  rewrite E. destruct (cached_write_loop_spec _ _ _ _ _ _ Hl E) as (Ew & new & -> & -> & Hr).
  rewrite Ew. cbn [app]. rewrite write_loop_spec in Ew by done. injection Ew as Ew.
  destruct (hasNonZeroReservedBits _); [done|]. split; [done|]. intros s' u [= <- <-]. unfold patched. rewrite Ew.
  split; [done|]. by rewrite updateMerkleCache_cache_of, <- Ew.
Qed.


Context (NumberToString : number -> string).

Definition opts_loader (opts : EvalOptions) : CorpusLoader := default (StubCorpusLoader (bytesToHex (zeros 32))) (opt_loader opts).
Definition opts_shard (opts : EvalOptions) : bytes := default (zeros 32) (opt_shardId opts).

(** The score the harness gives a state. *)
Definition state_score (opts : EvalOptions) (s : CortexState) : outcome Z :=
  scoreWithLoader (opts_loader opts) s (decodeSubstrate s (mkOpts (opt_policyAtomsMode opts) None None None None)) (opts_shard opts).

(** A cache passed in is the cache of the parent state. *)
Definition cache_honest (opts : EvalOptions) (s : CortexState) : Prop :=
  match merkleCache opts with Some c => c = cache_of s | None => True end.


(** The members of a report in the order the serializer prints them. *)
Lemma report_keys_sorted {A} (x1 x2 x3 x4 x5 x6 x7 x8 x9 x10 x11 x12 x13 x14 : A) :
  sort_fields [("version", x1); ("parentStateRoot", x2); ("newStateRoot", x3); ("patchHash", x4); ("accepted", x5);
    ("errorCode", x6); ("errorMessage", x7); ("baselineScore", x8); ("candidateScore", x9); ("scoreDelta", x10);
    ("corpusRoot", x11); ("shardId", x12); ("evalTimestampMs", x13); ("evalDurationUs", x14)]%string
  = [("accepted", x5); ("baselineScore", x8); ("candidateScore", x9); ("corpusRoot", x11); ("errorCode", x6); ("errorMessage", x7);
    ("evalDurationUs", x14); ("evalTimestampMs", x13); ("newStateRoot", x3); ("parentStateRoot", x2); ("patchHash", x4);
    ("scoreDelta", x10); ("shardId", x12); ("version", x1)]%string.
Proof. reflexivity. Qed.

Lemma canonicalValue_opt o : canonicalValue NumberToString (opt_string o) = Returns (match o with Some s => quote s | None => text "null" end).
Proof. by destruct o. Qed.

Definition with_time (r : ReportBody) (t : string) : ReportBody :=
  mkBody (version r) (rep_parentStateRoot r) (rep_newStateRoot r) (rep_patchHash r) (rep_accepted r) (errorCode r) (errorMessage r)
    (baselineScore r) (candidateScore r) (rep_scoreDelta r) (rep_corpusRoot r) (rep_shardId r) t (evalDurationUs r).

(** A member in the middle of a joined object. *)
Lemma rest_split e r l1 x l2 : rest_of e r (l1 ++ x :: l2) = (l1 ≫= cons ","%char) ++ ","%char :: x ++ rest_of e r l2.
Proof. induction l1 as [|p l1 IH]; [done|]. cbn [app]. unfold rest_of in *. cbn [foldr]. rewrite IH, bind_cons. by rewrite <- app_assoc. Qed.

Lemma app_split_at x (a b : chars) y c z d e : x :: a ++ b ++ y :: c ++ z :: d ++ e = (x :: a ++ b ++ y :: c ++ [z]) ++ d ++ e.
Proof. cbn [app]. by rewrite <- !app_assoc; cbn [app]; rewrite <- app_assoc. Qed.

(** The report serializes, whatever its fields; the timestamp is one quoted member of the text. *)
Lemma report_text_total r : exists pre post, forall t, report_text NumberToString (with_time r t) = Returns
  (String.string_of_list_ascii (pre ++ quote t ++ post)).
Proof.
  unfold report_text, report_value, with_time. cbn [canonicalValue map fst snd evalTimestampMs version rep_parentStateRoot rep_newStateRoot
    rep_patchHash rep_accepted errorCode errorMessage baselineScore candidateScore rep_scoreDelta rep_corpusRoot rep_shardId evalDurationUs].
  rewrite !canonicalValue_opt. do 2 eexists. intros t. rewrite report_keys_sorted.
  cbn [members mbind outcome_bind fst snd map]. apply f_equal, f_equal. rewrite join_rest.
  change (?p1 :: ?p2 :: ?p3 :: ?p4 :: ?p5 :: ?p6 :: ?x :: ?l) with ([p1; p2; p3; p4; p5; p6] ++ x :: l).
  rewrite rest_split, <- (app_assoc (quote "evalTimestampMs")). cbn [app].
  apply app_split_at.
Qed.

Lemma report_text_returns r : exists txt, report_text NumberToString r = Returns txt.
Proof. destruct (report_text_total r) as (pre & post & H). specialize (H (evalTimestampMs r)). destruct r. eauto. Qed.

(** What the harness does, with the score of both states. *)
Lemma evalPatch_eq clock s p opts b c : state_ok s -> wire_ok p -> cache_honest opts s ->
  state_score opts s = Returns b -> state_score opts (patched s p) = Returns c ->
  exists a txt, applyPatch s p false = Returns a /\
  let '(root', cand, ec, em) := match a with
    | PatchSuccess s' => (Some (bytesToHex (root (cache_of s'))), c, None, None)
    | PatchFailure e => (None, b, Some (code_text (code e)), Some (code_text (code e) +:+ ": " +:+ ERROR_NAMES (code e))%string) end in
  let r := mkBody "coretex-eval-current" (bytesToHex (root (cache_of s))) root' (computePatchHash (patchWireBytes opts))
    (match a with PatchSuccess _ => true | _ => false end) ec em b cand (cand - b) (corpusRoot (opts_loader opts))
    (bytesToHex (opts_shard opts)) (pretty (now clock)) (Z.quot (t1 clock - t0 clock) 1000) in
  report_text NumberToString r = Returns txt /\
  evalPatch NumberToString clock s p opts = Returns (mkReport r (bytesToHex (keccak256 (text_encode txt)))).
Proof.
  intros Hs Hp Hc Hb Hcand. destruct (applyCached_same s p Hs Hp) as (a & Ea & Hsame & Hupd).
  assert (Ec : (match merkleCache opts with Some c => Returns c | None => buildMerkleCache s end) = Returns (cache_of s)).
  { unfold cache_honest in Hc. destruct (merkleCache opts); [by subst|]. apply buildMerkleCache_returns. apply Hs. }
  unfold evalPatch. rewrite Ec. cbn [mbind outcome_bind]. fold (opts_loader opts) (opts_shard opts). fold (state_score opts s).
  rewrite Hb. cbn [mbind outcome_bind].
  destruct a as [s'|e], (applyPatchWithCachedParent s p (root (cache_of s))) as [s''|ec em] eqn:E; try done.
  - destruct (Hupd _ _ eq_refl) as [-> Hu]. cbn in Hsame. subst s'. rewrite Hu. cbn [mbind outcome_bind].
    fold (state_score opts (patched s p)). rewrite Hcand. cbn [mbind outcome_bind].
    exists (PatchSuccess (patched s p)). edestruct report_text_returns as [txt Ht]. exists txt.
    split; [done|]. split; [exact Ht|]. by rewrite Ht.
  - destruct Hsame as (<- & _ & ->). cbn [mbind outcome_bind].
    exists (PatchFailure e). edestruct report_text_returns as [txt Ht]. exists txt.
    split; [done|]. split; [exact Ht|]. by rewrite Ht.
Qed.

(** The harness's verdict on a wire patch is [applyPatch]'s verdict outside policy mode: it
    reports the Merkle root of the patched state and the difference of the two scores when
    the patch is accepted, and the error code and a zero difference when it is not. *)
Theorem evalPatch_sound (clock : Clock) (s : CortexState) (p : Patch) (opts : EvalOptions) (b c : Z) :
  state_ok s -> wire_ok p -> cache_honest opts s ->
  state_score opts s = Returns b -> state_score opts (patched s p) = Returns c ->
  exists r a, evalPatch NumberToString clock s p opts = Returns r /\ applyPatch s p false = Returns a
  /\ (rt ← merkleizeState s; Returns (bytesToHex rt)) = Returns (rep_parentStateRoot (body r))
  /\ baselineScore (body r) = b /\ rep_patchHash (body r) = computePatchHash (patchWireBytes opts)
  /\ match a with
     | PatchSuccess s' => rep_accepted (body r) = true /\ errorCode (body r) = None
         /\ (rt ← merkleizeState s'; Returns (Some (bytesToHex rt))) = Returns (rep_newStateRoot (body r))
         /\ candidateScore (body r) = c /\ rep_scoreDelta (body r) = c - b
     | PatchFailure e => rep_accepted (body r) = false /\ errorCode (body r) = Some (code_text (code e))
         /\ rep_newStateRoot (body r) = None /\ rep_scoreDelta (body r) = 0
     end.
Proof.
  intros Hs Hp Hc Hb Hcand. destruct (evalPatch_eq clock s p opts b c Hs Hp Hc Hb Hcand) as (a & txt & Ea & H).
  destruct a as [s'|e]; destruct H as [_ H]; eexists _, _; (split; [exact H|]); (split; [exact Ea|]); cbn [body];
    (rewrite merkleizeState_returns by apply Hs); repeat split; try done; [|cbn; lia].
  assert (Hs' : length (words s') = WORD_COUNT_NAT); [|by rewrite merkleizeState_returns].
  destruct (applyCached_same s p Hs Hp) as (a' & Ea' & Hsame & Hupd). rewrite Ea in Ea'. injection Ea' as <-.
  destruct (applyPatchWithCachedParent s p (root (cache_of s))) as [s2 ups|]; [|done]. cbn in Hsame. subst s2.
  destruct (Hupd _ _ eq_refl) as [-> _]. apply patched_ok; [done|]. apply Hp.
Qed.

(** The report hash is not a function of the evaluation: the same evaluation run at another
    millisecond hashes differently unless keccak collides on the two report texts. *)
Theorem reportHash_covers_clock (c1 c2 : Clock) (s : CortexState) (p : Patch) (opts : EvalOptions) (b c : Z) :
  state_ok s -> wire_ok p -> cache_honest opts s ->
  state_score opts s = Returns b -> state_score opts (patched s p) = Returns c ->
  t1 c1 - t0 c1 = t1 c2 - t0 c2 -> now c1 <> now c2 ->
  exists r1 r2 x1 x2, evalPatch NumberToString c1 s p opts = Returns r1 /\ evalPatch NumberToString c2 s p opts = Returns r2
  /\ report_text NumberToString (body r1) = Returns x1 /\ report_text NumberToString (body r2) = Returns x2
  /\ (reportHash r1 <> reportHash r2 \/ collision (text_encode x1) (text_encode x2)).
Proof.
  intros Hs Hp Hc Hb Hcand Hd Hn.
  destruct (evalPatch_eq c1 s p opts b c Hs Hp Hc Hb Hcand) as (a & x1 & Ea & H1).
  destruct (evalPatch_eq c2 s p opts b c Hs Hp Hc Hb Hcand) as (a' & x2 & Ea' & H2).
  rewrite Ea in Ea'. injection Ea' as <-. rewrite <- Hd in H2.
  destruct (match a with PatchSuccess s' => _ | _ => _ end) as [[[rt cand] ec] em]. destruct H1 as [T1 H1], H2 as [T2 H2].
  eexists _, _, x1, x2. split; [exact H1|]. split; [exact H2|]. split; [exact T1|]. split; [exact T2|]. cbn [reportHash].
  destruct (decide (text_encode x1 = text_encode x2)) as [E|E].
  2: { destruct (decide (keccak256 (text_encode x1) = keccak256 (text_encode x2))) as [K|K]; [by right|left].
       intros G. apply bytesToHex_inj in G; [done|apply keccak256_ok..]. }
  exfalso. apply Hn. apply text_encode_inj in E. subst x2.
  lazymatch type of T1 with report_text _ ?r = _ => destruct (report_text_total r) as (pre & post & H) end.
  pose proof (H (pretty (now c1))) as G1. pose proof (H (pretty (now c2))) as G2. unfold with_time in G1, G2. cbn [version rep_parentStateRoot rep_newStateRoot rep_patchHash rep_accepted errorCode errorMessage baselineScore candidateScore
    rep_scoreDelta rep_corpusRoot rep_shardId evalDurationUs] in G1, G2.
  rewrite T1 in G1. rewrite T2 in G2. rewrite G1 in G2. injection G2 as G2.
  apply (f_equal String.list_ascii_of_string) in G2. rewrite !String.list_ascii_of_string_of_list_ascii in G2.
  apply app_inv_head in G2. apply quote_inj in G2 as [G2 _]. by apply (inj pretty) in G2.
Qed.
End Theorems.

(** ** Witnesses *)
Definition stub_opts (mode : bool) : EvalOptions := mkEvalOptions None None (patch_wire patch_w) mode None.
Definition clock_0 : Clock := mkClock 0 5000000 1700000000000.
Definition clock_1 : Clock := mkClock 0 5000000 1700000000001.

Lemma stub_score mode s : state_score (stub_opts mode) s = Returns 500000.
Proof. reflexivity. Qed.

Lemma evalPatch_sound_witness : exists r, evalPatch int_printer (HK:=const_hasher) clock_0 zero_state patch_w (stub_opts false) = Returns r
  /\ baselineScore (body r) = 500000.
Proof.
  destruct (evalPatch_sound (HK:=const_hasher) int_printer clock_0 zero_state patch_w (stub_opts false) 500000 500000)
    as (r & a & Hr & _ & _ & Hb & _); [apply zero_state_ok|apply patch_w_wire_ok|exact I|apply stub_score..|].
  exists r. by split.
Defined.

Lemma reportHash_covers_clock_witness : exists r1 r2,
  evalPatch int_printer (HK:=const_hasher) clock_0 zero_state patch_w (stub_opts false) = Returns r1
  /\ evalPatch int_printer (HK:=const_hasher) clock_1 zero_state patch_w (stub_opts false) = Returns r2.
Proof.
  destruct (reportHash_covers_clock (HK:=const_hasher) int_printer clock_0 clock_1 zero_state patch_w (stub_opts false) 500000 500000)
    as (r1 & r2 & _ & _ & H1 & H2 & _); [apply zero_state_ok|apply patch_w_wire_ok|exact I|apply stub_score..|reflexivity|discriminate|].
  exists r1, r2. by split.
Defined.

(** A header write in policy mode: the harness accepts what [applyPatch] refuses with E02. *)
Definition patch_h : Patch := mkPatch PATCH_TYPE.HEADER_UPDATE 1 0 (zeros 32) [2] [5].

Lemma policy_mode_not_enforced :
  applyPatch (H:=const_hasher) zero_state patch_h true = Returns (PatchFailure (patchError E02))
  /\ exists r, evalPatch int_printer (HK:=const_hasher) clock_0 zero_state patch_h (stub_opts true) = Returns r /\ rep_accepted (body r) = true.
Proof.
  split; [vm_compute; reflexivity|].
  assert (Hw : wire_ok patch_h) by (apply (bool_decide_unpack _); vm_compute; reflexivity).
  destruct (evalPatch_eq (HK:=const_hasher) int_printer clock_0 zero_state patch_h (stub_opts true) 500000 500000)
    as (a & txt & Ha & H); [apply zero_state_ok|done|exact I|apply stub_score..|].
  assert (E : applyPatch (H:=const_hasher) zero_state patch_h false = Returns (PatchSuccess (patched zero_state patch_h)))
    by (vm_compute; reflexivity).
  rewrite E in Ha. injection Ha as <-. destruct H as [_ H]. eexists. split; [exact H|done].
Qed.
