(* ===== verification/WorkerPool.v ===== *)
(** * Worker pool (packages/coretex/src/workers/pool.ts)

    [WorkerPool] as a state machine: the fields of the class, plus the two
    effects that leave it (the messages posted to workers and the promises
    settled). A worker is an object identity, a promise is named by the
    request id it was created with. Events are a call of [eval], a message
    or an error from a worker, and [close].

    Theorems: on every reachable state each request is in exactly one place
    (queued, held by one worker, or settled once) and the queue is within its
    bound; while no worker crashes, answering workers settle every promise in
    as many answers as there are outstanding requests; a crash leaves the
    queue untouched, so a request queued behind a lone worker is stranded. *)
From stdpp Require Import relations.
From S2P Require Import Prelude StateTypes Float.
#[local] Open Scope Z_scope.

Definition defaultPoolSize (cpus : Z) : Z :=
  if cpus <=? 4 then 1 else Z.max 1 (Z.min 8 (cpus - 2)).

(** ** Messages *)
Record EvalWorkerRequest := mkReq {
  req_id : Z;
  stateBytes : bytes;
  req_patchWireBytes : bytes;
  req_shardId : bytes;
  req_corpusRoot : string
}.

(** [EvalWorkerResponse] and [EvalWorkerError] *)
Inductive EvalWorkerMessage :=
  | WorkerResponse (id : Z) (reportJson : string)
  | WorkerError (id : Z) (error : string).

Definition msg_id (msg : EvalWorkerMessage) : Z := match msg with WorkerResponse i _ | WorkerError i _ => i end.

(** How a promise settled. *)
Inductive settlement := Resolved (reportJson : string) | Rejected (reason : string).

Abbreviation worker := nat.
(** A [PendingEntry] is the pair of closures of the promise made for a request id. *)
Abbreviation entry := Z.

Record WorkerPool := mkPool {
  workers : list worker;
  idle : list worker;
  queue : list (EvalWorkerRequest * entry);
  pending : list (worker * list (Z * entry));
  maxQueueSize : option Z;
  nextId : Z;
  closed : bool;
  nextWorker : worker;
  posted : list (worker * EvalWorkerRequest);
  settled : list (entry * settlement)
}.

Definition set_idle (l : list worker) (s : WorkerPool) : WorkerPool :=
  mkPool (workers s) l (queue s) (pending s) (maxQueueSize s) (nextId s) (closed s) (nextWorker s) (posted s) (settled s).
Definition set_queue (q : list (EvalWorkerRequest * entry)) (s : WorkerPool) : WorkerPool :=
  mkPool (workers s) (idle s) q (pending s) (maxQueueSize s) (nextId s) (closed s) (nextWorker s) (posted s) (settled s).
Definition set_pending (p : list (worker * list (Z * entry))) (s : WorkerPool) : WorkerPool :=
  mkPool (workers s) (idle s) (queue s) p (maxQueueSize s) (nextId s) (closed s) (nextWorker s) (posted s) (settled s).
Definition set_workers (l : list worker) (s : WorkerPool) : WorkerPool :=
  mkPool l (idle s) (queue s) (pending s) (maxQueueSize s) (nextId s) (closed s) (nextWorker s) (posted s) (settled s).
Definition set_closed (s : WorkerPool) : WorkerPool :=
  mkPool (workers s) (idle s) (queue s) (pending s) (maxQueueSize s) (nextId s) true (nextWorker s) (posted s) (settled s).
Definition take_id (s : WorkerPool) : WorkerPool :=
  mkPool (workers s) (idle s) (queue s) (pending s) (maxQueueSize s) (nextId s + 1) (closed s) (nextWorker s) (posted s) (settled s).
Definition post (w : worker) (req : EvalWorkerRequest) (s : WorkerPool) : WorkerPool :=
  mkPool (workers s) (idle s) (queue s) (pending s) (maxQueueSize s) (nextId s) (closed s) (nextWorker s) (posted s ++ [(w, req)]) (settled s).
(** [entry.resolve(...)] and [entry.reject(...)] *)
Definition settle (e : entry) (r : settlement) (s : WorkerPool) : WorkerPool :=
  mkPool (workers s) (idle s) (queue s) (pending s) (maxQueueSize s) (nextId s) (closed s) (nextWorker s) (posted s) (settled s ++ [(e, r)]).

(** [arr.splice(arr.indexOf(x), 1)], nothing when [x] is absent. *)
Fixpoint remove_first (x : worker) (l : list worker) : list worker :=
  match l with
  | [] => []
  | y :: l' => if decide (y = x) then l' else y :: remove_first x l'
  end.

(** [arr.pop()] *)
Fixpoint pop {A} (l : list A) : option (A * list A) :=
  match l with
  | [] => None
  | [x] => Some (x, [])
  | x :: l' => match pop l' with Some (y, r) => Some (y, x :: r) | None => None end
  end.

Definition _spawnWorker (s : WorkerPool) : WorkerPool :=
  let w := nextWorker s in
  mkPool (workers s ++ [w]) (idle s ++ [w]) (queue s) (jsmap_set w [] (pending s)) (maxQueueSize s) (nextId s) (closed s)
    (S w) (posted s) (settled s).

(** The checks of the constructor on [options.maxQueueSize ?? Infinity]; [None] is Infinity. *)
Definition check_maxQueueSize (m : option number) : outcome (option Z) :=
  let m := default (S754_infinity false) m in
  throw_when negb (is_finite m) && negb (deq m (S754_infinity false)) with RangeError "WorkerPool: maxQueueSize must be finite or Infinity" ;;
  throw_when dlt m (of_Z 0) || match math_floor m with Some v => negb (deq (of_Z v) m) | None => false end
    with RangeError "WorkerPool: maxQueueSize must be a non-negative integer" ;;
  Returns (math_floor m).

Definition newWorkerPool (size : Z) (m : option number) : outcome WorkerPool :=
  maxQ ← check_maxQueueSize m;
  Returns (Nat.iter (Z.to_nat size) _spawnWorker (mkPool [] [] [] [] maxQ 0 false 0%nat [] [])).

(** A worker whose pending map is gone takes nothing. *)
Definition _dispatch (w : worker) (req : EvalWorkerRequest) (e : entry) (s : WorkerPool) : WorkerPool :=
  match jsmap_get w (pending s) with
  | None => s
  | Some pendingMap => post w req (set_pending (jsmap_set w (jsmap_set (req_id req) e pendingMap) (pending s)) s)
  end.

(** [eval]: the promise it returns, by name; [None] when it is already rejected because the pool is closed. *)
Definition eval (req : EvalWorkerRequest) (s : WorkerPool) : option entry * WorkerPool :=
  if closed s then (None, s)
  else
    let id := nextId s in
    let s := take_id s in
    let fullReq := mkReq id (stateBytes req) (req_patchWireBytes req) (req_shardId req) (req_corpusRoot req) in
    (Some id, match pop (idle s) with
    | Some (w, idle') => _dispatch w fullReq id (set_idle idle' s)
    | None =>
      if match maxQueueSize s with Some m => m <=? Z.of_nat (length (queue s)) | None => false end
      then settle id (Rejected "WorkerPool: queue is saturated") s
      else set_queue (queue s ++ [(fullReq, id)]) s
    end).

Definition _onMessage (w : worker) (msg : EvalWorkerMessage) (s : WorkerPool) : WorkerPool :=
  match jsmap_get w (pending s) with
  | None => s
  | Some pendingMap =>
    match jsmap_get (msg_id msg) pendingMap with
    | None => s
    | Some e =>
      let s := set_pending (jsmap_set w (jsmap_delete (msg_id msg) pendingMap) (pending s)) s in
      let s := settle e (match msg with WorkerResponse _ r => Resolved r | WorkerError _ err => Rejected err end) s in
      match queue s with
      | next :: rest => _dispatch w next.1 next.2 (set_queue rest s)
      | [] => set_idle (idle s ++ [w]) s
      end
    end
  end.

Definition _onWorkerError (w : worker) (err : string) (s : WorkerPool) : WorkerPool :=
  let s := match jsmap_get w (pending s) with
    | Some pendingMap =>
      let s := fold_left (fun s e => settle e.2 (Rejected err) s) pendingMap s in
      set_pending (jsmap_set w [] (pending s)) s
    | None => s
    end in
  if bool_decide (w ∈ workers s) then
    let s := set_workers (remove_first w (workers s)) s in
    let s := set_pending (jsmap_delete w (pending s)) s in
    let s := set_idle (remove_first w (idle s)) s in
    _spawnWorker s
  else s.

(** [close] rejects later calls; terminated workers send nothing more. *)
Definition close (s : WorkerPool) : WorkerPool := set_closed s.

Definition size (s : WorkerPool) : Z := Z.of_nat (length (workers s)).
Definition queueDepth (s : WorkerPool) : Z := Z.of_nat (length (queue s)).
Definition inFlight (s : WorkerPool) : Z := fold_left (fun total p => total + Z.of_nat (length p.2)) (pending s) 0.

(** ** Runs *)
Inductive event :=
  | ECall (req : EvalWorkerRequest)
  | EMessage (w : worker) (msg : EvalWorkerMessage)
  | ECrash (w : worker) (err : string)
  | EClose.

Definition step (ev : event) (s : WorkerPool) : WorkerPool :=
  match ev with
  | ECall req => (eval req s).2
  | EMessage w msg => _onMessage w msg s
  | ECrash w err => _onWorkerError w err s
  | EClose => close s
  end.

(** ** The invariant *)
Definition pending_ids (p : list (worker * list (Z * entry))) : list entry := p ≫= (fun e => e.2.*2).

(** [extra] are requests in hand between two places, [hole] a worker in hand: neither idle nor busy. *)
Record pool_inv (extra : list entry) (hole : list worker) (s : WorkerPool) : Prop := {
  inv_keys : (pending s).*1 = workers s;
  inv_nodup : NoDup (workers s);
  inv_fresh : Forall (fun w => (w < nextWorker s)%nat) (workers s);
  inv_free : NoDup (idle s ++ hole) /\ idle s ++ hole ⊆ workers s;
  inv_slot : forall w m, (w, m) ∈ pending s ->
    (w ∈ idle s ++ hole /\ m = []) \/ (w ∉ idle s ++ hole /\ exists i, m = [(i, i)]);
  inv_names : Forall (fun q => req_id q.1 = q.2) (queue s);
  inv_nextId : 0 <= nextId s;
  inv_ids : extra ++ (queue s).*2 ++ pending_ids (pending s) ++ (settled s).*1 ≡ₚ seqZ 0 (nextId s);
  inv_bound : match maxQueueSize s with Some m => Z.of_nat (length (queue s)) <= m | None => True end
}.

Lemma pop_spec {A} (l : list A) : match pop l with Some (x, l') => l = l' ++ [x] | None => l = [] end.
Proof.
  induction l as [|x [|y l] IH]; [done|done|]. cbn [pop] in *. destruct (match l with [] => _ | _ => _ end) as [[z r]|]; [by rewrite IH|done].
Qed.

Lemma remove_first_split x (a b : list worker) : x ∉ a -> remove_first x (a ++ x :: b) = a ++ b.
Proof. induction a as [|y a IH]; cbn [app remove_first]; intros H; [by rewrite decide_True|]. rewrite decide_False by set_solver. f_equal. apply IH. set_solver. Qed.

Lemma remove_first_absent x l : x ∉ l -> remove_first x l = l.
Proof. induction l as [|y l IH]; cbn [remove_first]; intros H; [done|]. rewrite decide_False by set_solver. f_equal. apply IH. set_solver. Qed.

Lemma remove_first_NoDup x l : NoDup l -> NoDup (remove_first x l) /\ forall y, y ∈ remove_first x l <-> y <> x /\ y ∈ l.
Proof.
  intros H. destruct (decide (x ∈ l)) as [Hin|Hni]; [|rewrite remove_first_absent by done; split; [done|set_solver]].
  apply list_elem_of_split in Hin as (a & b & ->). apply NoDup_app in H as (Ha & Hd & Hb). apply NoDup_cons in Hb as [Hx Hb].
  assert (x ∉ a) by (intros ?; by apply (Hd x); [|left]).
  rewrite remove_first_split by done. split; [apply NoDup_app; set_solver|]. set_solver.
Qed.

Lemma pending_ids_split a w m b : pending_ids (a ++ (w, m) :: b) = pending_ids a ++ m.*2 ++ pending_ids b.
Proof. unfold pending_ids. by rewrite bind_app, bind_cons. Qed.

Lemma inv_pending extra hole s w : pool_inv extra hole s -> w ∈ workers s -> exists m, jsmap_get w (pending s) = Some m.
Proof.
  intros H Hw. destruct (jsmap_get w (pending s)) eqn:E; [eauto|]. apply jsmap_get_None in E. by rewrite (inv_keys _ _ _ H) in E.
Qed.

(** Changing what one worker holds. *)
Lemma slot_update (extra extra' : list entry) (hole hole' : list worker) s s' w m m' :
  pool_inv extra hole s -> jsmap_get w (pending s) = Some m ->
  workers s' = workers s -> nextWorker s' = nextWorker s -> nextId s' = nextId s -> maxQueueSize s' = maxQueueSize s ->
  pending s' = jsmap_set w m' (pending s) ->
  NoDup (idle s' ++ hole') /\ idle s' ++ hole' ⊆ workers s ->
  (forall w', w' <> w -> w' ∈ idle s' ++ hole' <-> w' ∈ idle s ++ hole) ->
  (w ∈ idle s' ++ hole' /\ m' = [] \/ w ∉ idle s' ++ hole' /\ exists i, m' = [(i, i)]) ->
  (exists pre, queue s = pre ++ queue s') ->
  extra' ++ (queue s').*2 ++ m'.*2 ++ (settled s').*1 ≡ₚ extra ++ (queue s).*2 ++ m.*2 ++ (settled s).*1 ->
  pool_inv extra' hole' s'.
Proof.
  intros H E Ew Enw Eid Emax Ep Hfree Hother Hw [pre Hq] Hids. destruct (jsmap_get_split _ _ _ E) as (a & b & Es & Hni & Hset).
  rewrite Hset in Ep. destruct H as [Hk Hnd Hfr Hf Hs Hn Hz Hi Hb].
  assert (Hkb : w ∉ b.*1).
  { rewrite <- Hk, Es, fmap_app in Hnd. csimpl in Hnd. apply NoDup_app in Hnd as (_ & _ & Hnd). by apply NoDup_cons in Hnd as [? _]. }
  constructor.
  - rewrite Ep, Ew, <- Hk, Es. by rewrite !fmap_app.
  - by rewrite Ew.
  - by rewrite Ew, Enw.
  - by rewrite Ew.
  - intros w' v Hin. rewrite Ep in Hin. apply elem_of_app in Hin as [Hin|Hin]; [|apply elem_of_cons in Hin as [[= -> ->]|Hin]; [done|]].
    all: assert (Hne : w' <> w) by (intros ->; first [apply Hni, list_elem_of_fmap; by exists (w, v) | apply Hkb, list_elem_of_fmap; by exists (w, v)]).
    all: rewrite Hother by done; apply Hs; rewrite Es; set_solver.
  - rewrite Hq in Hn. by apply Forall_app in Hn as [_ ?].
  - by rewrite Eid.
  - rewrite Eid, <- Hi, Ep, Es, !pending_ids_split. rewrite !app_assoc in *. 
    transitivity (extra' ++ (queue s').*2 ++ m'.*2 ++ (settled s').*1 ++ pending_ids a ++ pending_ids b); [solve_Permutation|].
    rewrite !app_assoc. rewrite <- (app_assoc _ (pending_ids a)), Hids. solve_Permutation.
  - rewrite Emax. destruct (maxQueueSize s); [|done]. rewrite Hq, length_app in Hb. lia.
Qed.
Lemma dispatch_inv w req e s : pool_inv [e] [w] s -> req_id req = e -> pool_inv [] [] (_dispatch w req e s).
Proof.
  intros H Hr. destruct (inv_free _ _ _ H) as [Hnd Hsub].
  destruct (inv_pending _ _ _ w H) as [m E]; [apply Hsub; set_solver|]. unfold _dispatch. rewrite E, Hr.
  assert (m = []) as ->.
  { apply jsmap_get_elem in E; [|rewrite (inv_keys _ _ _ H); apply H]. destruct (inv_slot _ _ _ H _ _ E) as [[_ ?]|[Hni _]]; [done|].
    exfalso. apply Hni. set_solver. }
  apply NoDup_app in Hnd as (Hi & Hd & _).
  eapply (slot_update [e] [] [w] [] s _ w [] [(e, e)]); try done; cbn.
  - rewrite app_nil_r. split; [done|]. set_solver.
  - set_solver.
  - right. rewrite app_nil_r. split; [|by exists e]. intros Hin. apply (Hd _ Hin). by left.
  - by exists [].
  - solve_Permutation.
Qed.

Lemma seqZ_next n : 0 <= n -> seqZ 0 (n + 1) = seqZ 0 n ++ [n].
Proof. intros H. by rewrite seqZ_app by lia. Qed.

Lemma eval_inv req s : pool_inv [] [] s -> pool_inv [] [] (eval req s).2.
Proof.
  intros H. unfold eval. destruct (closed s); [done|]. cbn [snd idle take_id maxQueueSize queue]. destruct H as [Hk Hnd Hfr Hf Hs Hn Hz Hi Hb].
  assert (Hids : [nextId s] ++ (queue s).*2 ++ pending_ids (pending s) ++ (settled s).*1 ≡ₚ seqZ 0 (nextId s + 1)).
  { rewrite seqZ_next by done. rewrite <- Hi. cbn [app]. solve_Permutation. }
  pose proof (pop_spec (idle s)) as Hp. destruct (pop (idle s)) as [[w idle']|].
  - apply dispatch_inv; [|done]. rewrite Hp, app_nil_r in Hf, Hs. by constructor; cbn; [..|lia| |].
  - destruct (match maxQueueSize s with Some m => _ | None => _ end) eqn:E; constructor; try done; cbn; try lia.
    + rewrite fmap_app. rewrite <- Hids. cbn. solve_Permutation.
    + apply Forall_app. by split; [|constructor].
    + rewrite fmap_app. rewrite <- Hids. cbn. solve_Permutation.
    + destruct (maxQueueSize s); [|done]. rewrite length_app. cbn. lia.
Qed.

Lemma onMessage_inv w msg s : pool_inv [] [] s -> pool_inv [] [] (_onMessage w msg s).
Proof.
  intros H. unfold _onMessage. destruct (jsmap_get w (pending s)) as [m|] eqn:E; [|done].
  assert (Ei : (w, m) ∈ pending s) by (apply jsmap_get_elem; [rewrite (inv_keys _ _ _ H); apply H|done]).
  destruct (jsmap_get (msg_id msg) m) as [e|] eqn:Em; [|done].
  destruct (inv_slot _ _ _ H _ _ Ei) as [[_ ->]|[Hni [i ->]]]; [done|].
  cbn [jsmap_get] in Em. case_decide as Ed; [|done]. injection Em as <-. rewrite Ed.
  assert (Hdel : jsmap_delete i [(i, i)] = []) by (unfold jsmap_delete; rewrite filter_cons_False by (cbn; tauto); done).
  rewrite Hdel. destruct (inv_free _ _ _ H) as [Hnd Hsub]. rewrite app_nil_r in *.
  assert (Hw : w ∈ workers s) by (rewrite <- (inv_keys _ _ _ H); apply list_elem_of_fmap; by exists (w, [(i, i)])).
  assert (Hfree : NoDup (idle s ++ [w]) /\ idle s ++ [w] ⊆ workers s).
  { split; [|set_solver]. apply NoDup_app. split; [done|]. split; [set_solver|]. apply NoDup_singleton. }
  cbn [queue settle set_pending]. destruct (queue s) as [|[rq en] rest] eqn:Eq.
  - eapply (slot_update [] [] [] [] s _ w [(i, i)] []); try done; cbn; rewrite ?app_nil_r; try done; [set_solver|left; set_solver| |].
    + exists []. by rewrite Eq.
    + rewrite Eq, fmap_app. cbn. solve_Permutation.
  - cbn [fst snd]. pose proof (inv_names _ _ _ H) as Hn. rewrite Eq in Hn. apply Forall_cons in Hn as [Hn _].
    apply dispatch_inv; [|done].
    eapply (slot_update [] [en] [] [w] s _ w [(i, i)] []); try done; cbn; rewrite ?app_nil_r; try done; [set_solver|left; set_solver| |].
    + exists [(rq, en)]. by rewrite Eq.
    + rewrite Eq, fmap_app. cbn. solve_Permutation.
Qed.

Lemma spawn_inv s : pool_inv [] [] s -> pool_inv [] [] (_spawnWorker s).
Proof.
  intros H. destruct H as [Hk Hnd Hfr Hf Hs Hn Hz Hi Hb]. rewrite app_nil_r in *.
  assert (Hni : nextWorker s ∉ workers s) by (intros Hin; rewrite Forall_forall in Hfr; specialize (Hfr _ Hin); lia).
  assert (Hset : jsmap_set (nextWorker s) [] (pending s) = pending s ++ [(nextWorker s, [])]).
  { rewrite <- Hk in Hni. clear - Hni. induction (pending s) as [|[k v] l IH]; [done|]. csimpl in Hni. cbn [jsmap_set app].
    rewrite decide_False by set_solver. f_equal. apply IH. set_solver. }
  constructor; unfold _spawnWorker; cbn [workers idle queue pending maxQueueSize nextId closed nextWorker posted settled]; rewrite ?app_nil_r; try done.
  - rewrite Hset, fmap_app, Hk. done.
  - apply NoDup_app. split; [done|]. split; [set_solver|apply NoDup_singleton].
  - apply Forall_app. split; [|by repeat constructor]. eapply Forall_impl; [exact Hfr|]. cbn. lia.
  - split; [|set_solver]. apply NoDup_app. split; [apply Hf|]. split; [set_solver|apply NoDup_singleton].
  - intros w m. rewrite Hset, elem_of_app, list_elem_of_singleton. intros [Hin|[= -> ->]]; [|left; set_solver].
    assert (Hw : w ∈ workers s) by (rewrite <- Hk; apply list_elem_of_fmap; by exists (w, m)).
    destruct (Hs w m Hin) as [[? ?]|[? ?]]; [left; set_solver|right]. split; [|done]. rewrite elem_of_app, list_elem_of_singleton.
    intros [?| ->]; done.
  - rewrite Hset. unfold pending_ids. rewrite bind_app. cbn. by rewrite app_nil_r.
Qed.

Lemma settle_all (m : list (Z * entry)) err s : fold_left (fun s e => settle e.2 (Rejected err) s) m s
  = mkPool (workers s) (idle s) (queue s) (pending s) (maxQueueSize s) (nextId s) (closed s) (nextWorker s) (posted s)
      (settled s ++ map (fun e => (e.2, Rejected err)) m).
Proof.
  revert s. induction m as [|e m IH]; intros s; cbn [fold_left map]; [by destruct s; rewrite app_nil_r|].
  rewrite IH. cbn. by rewrite <- app_assoc.
Qed.

Lemma onWorkerError_inv w err s : pool_inv [] [] s -> pool_inv [] [] (_onWorkerError w err s).
Proof.
  intros H. pose proof (inv_keys _ _ _ H) as Hk. unfold _onWorkerError. destruct (jsmap_get w (pending s)) as [m|] eqn:E.
  2: { apply jsmap_get_None in E. rewrite Hk in E. by rewrite bool_decide_false. }
  rewrite settle_all. cbn [workers set_pending idle pending set_workers set_idle].
  destruct (jsmap_get_split _ _ _ E) as (a & b & Es & Hni & Hset). destruct H as [_ Hnd Hfr Hf Hs Hn Hz Hi Hb]. rewrite app_nil_r in *.
  assert (Hw : w ∈ workers s) by (rewrite <- Hk, Es, fmap_app; csimpl; set_solver).
  rewrite bool_decide_true by done. apply spawn_inv. rewrite Hset.
  assert (Hnd' : NoDup (a ++ (w, [] : list (Z * entry)) :: b).*1) by (rewrite <- Hk, Es in Hnd; by rewrite !fmap_app in *).
  rewrite jsmap_delete_split by done.
  assert (Ew : workers s = a.*1 ++ w :: b.*1) by (rewrite <- Hk, Es, fmap_app; done).
  rewrite Ew, remove_first_split by done. destruct (remove_first_NoDup w (idle s)) as [Hid1 Hid2]; [apply Hf|].
  assert (Hwb : w ∉ b.*1) by (rewrite Ew in Hnd; apply NoDup_app in Hnd as (_ & _ & Hx); by apply NoDup_cons in Hx as [? _]).
  constructor; cbn [workers idle queue pending maxQueueSize nextId closed nextWorker posted settled set_pending set_workers set_idle]; rewrite ?app_nil_r; try done.
  - by rewrite fmap_app.
  - rewrite Ew in Hnd. apply NoDup_app in Hnd as (Ha & Hd & Hx). apply NoDup_cons in Hx as [? ?]. apply NoDup_app. set_solver.
  - rewrite Ew in Hfr. apply Forall_app in Hfr as [? Hfr]. apply Forall_cons in Hfr as [_ ?]. by apply Forall_app.
  - split; [done|]. intros y Hy. apply Hid2 in Hy as [Hne Hy]. destruct Hf as [_ Hf]. specialize (Hf y Hy). rewrite Ew in Hf. set_solver.
  - intros w' v Hin. assert (Hne : w' <> w).
    { intros ->. apply elem_of_app in Hin as [Hin|Hin]; [apply Hni|apply Hwb]; apply list_elem_of_fmap; by exists (w, v). }
    rewrite Hid2. destruct (Hs w' v) as [[? ?]|[? ?]]; [rewrite Es; set_solver|left|right]; split; naive_solver.
  - rewrite <- Hi, Es, pending_ids_split, fmap_app. unfold pending_ids. rewrite bind_app.
    assert (Em : (map (fun e : Z * entry => (e.2, Rejected err)) m).*1 = m.*2); [|rewrite Em; solve_Permutation].
    clear. change (map ?f ?l) with (f <$> l). rewrite <- list_fmap_compose. done.
Qed.
Lemma check_maxQueueSize_nonneg m q : check_maxQueueSize m = Returns q -> match q with Some v => 0 <= v | None => True end.
Proof.
  unfold check_maxQueueSize. generalize (default (S754_infinity false) m). intros x.
  destruct (_ && _); [done|]. destruct (dlt x (of_Z 0)) eqn:Hlt; [done|]. cbn [orb]. destruct (match math_floor x with Some v => _ | None => _ end); [done|].
  intros H. apply Returns_inj in H as <-. destruct x as [?|[]| |[] p e]; try done.
  cbn. unfold floor_dyadic. destruct (Z.leb_spec 0 e); [lia|]. apply Z.div_pos; [lia|]. apply Z.pow_pos_nonneg; lia.
Qed.

Lemma step_inv ev s : pool_inv [] [] s -> pool_inv [] [] (step ev s).
Proof.
  intros H. destruct ev; cbn [step]; [by apply eval_inv|by apply onMessage_inv|by apply onWorkerError_inv|]. by destruct H; constructor.
Qed.

Lemma newPool_inv n m s : newWorkerPool n m = Returns s ->
  pool_inv [] [] s /\ length (workers s) = Z.to_nat n /\ idle s = workers s /\ queue s = [].
Proof.
  unfold newWorkerPool. destruct (check_maxQueueSize m) as [q|] eqn:E; [|done]. apply check_maxQueueSize_nonneg in E.
  cbn [mbind outcome_bind]. intros H. apply Returns_inj in H as <-. set (z := mkPool _ _ _ _ _ _ _ _ _ _).
  induction (Z.to_nat n) as [|k (IH1 & IH2 & IH3 & IH4)].
  - split; [|done]. constructor; cbn; try done; try (constructor; fail); [split; [constructor|set_solver]|by intros ? ? ?%elem_of_nil].
  - rewrite Nat.iter_succ. revert IH1 IH2 IH3 IH4. generalize (Nat.iter k _spawnWorker z). intros y IH1 IH2 IH3 IH4.
    split; [by apply spawn_inv|]. unfold _spawnWorker. cbn [workers idle queue]. rewrite length_app, IH2, IH3. split; [cbn; lia|done].
Qed.

Definition run (evs : list event) (s : WorkerPool) : WorkerPool := fold_left (fun s ev => step ev s) evs s.

Lemma run_preserves (P : WorkerPool -> Prop) evs s : (forall ev s, ev ∈ evs -> P s -> P (step ev s)) -> P s -> P (run evs s).
Proof.
  revert s. induction evs as [|ev evs IH]; intros s Hp Hs; [done|]. cbn [run fold_left]. apply IH; [|apply Hp; [by left|done]].
  intros e s' He. apply Hp. by right.
Qed.

(** Nothing but a crash changes the workers, and a crash replaces one. *)
Lemma dispatch_same w req e s : let s' := _dispatch w req e s in
  workers s' = workers s /\ idle s' = idle s /\ queue s' = queue s /\ maxQueueSize s' = maxQueueSize s /\ nextId s' = nextId s /\ settled s' = settled s.
Proof. unfold _dispatch. by destruct (jsmap_get _ _). Qed.

Lemma step_size ev s : pool_inv [] [] s -> length (workers (step ev s)) = length (workers s) /\ maxQueueSize (step ev s) = maxQueueSize s.
Proof.
  intros H. destruct ev as [req|w msg|w err|]; cbn [step]; [| | |done].
  - unfold eval. destruct (closed s); [done|]. cbn [snd]. destruct (pop _) as [[w i]|].
    + destruct (dispatch_same w (mkReq (nextId s) (stateBytes req) (req_patchWireBytes req) (req_shardId req) (req_corpusRoot req)) (nextId s)
        (set_idle i (take_id s))) as (-> & _ & _ & -> & _). done.
    + by destruct (match maxQueueSize _ with Some m => _ | None => _ end).
  - unfold _onMessage. destruct (jsmap_get w _) as [m|]; [|done]. destruct (jsmap_get (msg_id msg) m); [|done]. destruct (queue _) as [|[rq en] r]; [done|].
    cbn [fst snd]. edestruct (dispatch_same w rq en) as (-> & _ & _ & -> & _). done.
  - unfold _onWorkerError. destruct (jsmap_get w (pending s)) as [m|] eqn:E.
    2: { apply jsmap_get_None in E. rewrite (inv_keys _ _ _ H) in E. by rewrite bool_decide_false. }
    rewrite settle_all. cbn [workers set_pending]. case_bool_decide as Hw; [|done].
    unfold _spawnWorker. cbn [workers set_pending set_workers set_idle maxQueueSize]. split; [|done].
    apply list_elem_of_split in Hw as (a & b & Ew). pose proof (inv_nodup _ _ _ H) as Hnd. rewrite Ew in *.
    rewrite remove_first_split; [rewrite !length_app; cbn; lia|]. apply NoDup_app in Hnd as (_ & Hd & _). intros Ha. apply (Hd _ Ha). by left.
Qed.

(** Each worker is idle or holds one request. *)
Lemma inFlight_ids s : inFlight s = Z.of_nat (length (pending_ids (pending s))).
Proof.
  unfold inFlight. assert (G : forall t, fold_left (fun total p => total + Z.of_nat (length p.2)) (pending s) t = t + Z.of_nat (length (pending_ids (pending s)))); [|by rewrite G].
  induction (pending s) as [|[w m] l IH]; intros t; cbn [fold_left]; [unfold pending_ids; cbn; lia|].
  rewrite IH. unfold pending_ids. rewrite bind_cons, length_app, length_fmap. cbn [snd]. lia.
Qed.

Lemma slots_count s : pool_inv [] [] s -> inFlight s + Z.of_nat (length (idle s)) = size s.
Proof.
  intros H. rewrite inFlight_ids. unfold size. pose proof (inv_keys _ _ _ H) as Hk. destruct (inv_free _ _ _ H) as [Hnd Hsub].
  pose proof (inv_slot _ _ _ H) as Hs. pose proof (inv_nodup _ _ _ H) as Hw. rewrite app_nil_r in *.
  assert (Hp : idle s ≡ₚ filter (.∈ idle s) (workers s)).
  { apply NoDup_Permutation; [done|by apply NoDup_filter|]. intros x. rewrite list_elem_of_filter. set_solver. }
  assert (G : (length (pending_ids (pending s)) + length (filter (.∈ idle s) (workers s)))%nat = length (workers s)); [|apply Permutation_length in Hp; lia].
  rewrite <- Hk. clear Hk Hsub Hw Hp Hnd H. induction (pending s) as [|[w m] l IH]; [done|]. unfold pending_ids in *.
  rewrite bind_cons, fmap_cons, length_app, length_fmap, filter_cons. cbn [fst snd length].
  assert (IH' := IH ltac:(intros w' m' Hin; apply Hs; by right)).
  destruct (Hs w m ltac:(by left)) as [[Hi ->]|[Hi [i ->]]]; case_decide; try done; cbn; lia.
Qed.
(** No request waits while a worker is idle. *)
Definition no_stranded (s : WorkerPool) : Prop := queue s <> [] -> idle s = [].

Definition is_crash (ev : event) : bool := match ev with ECrash _ _ => true | _ => false end.

Lemma step_no_stranded ev s : is_crash ev = false -> no_stranded s -> no_stranded (step ev s).
Proof.
  intros Hc H. destruct ev as [req|w msg|w err|]; cbn [step]; [| |done..].
  - unfold eval. destruct (closed s); [done|]. cbn [snd]. pose proof (pop_spec (idle (take_id s))) as Hp. cbn [idle take_id] in Hp.
    destruct (pop _) as [[w i]|].
    + unfold no_stranded. edestruct (dispatch_same w) as (_ & -> & -> & _). cbn [idle queue set_idle take_id].
      intros Hq. specialize (H Hq). rewrite H in Hp. by destruct i.
    + destruct (match maxQueueSize _ with Some m => _ | None => _ end); by intros _.
  - unfold _onMessage. destruct (jsmap_get w _) as [m|]; [|done]. destruct (jsmap_get (msg_id msg) m) as [e|]; [|done]. cbn [queue settle set_pending].
    destruct (queue s) as [|[rq en] r] eqn:Eq; [by unfold no_stranded; cbn; rewrite Eq|]. unfold no_stranded.
    cbn [fst snd]. edestruct (dispatch_same w rq en) as (_ & -> & _). intros _. cbn. apply H. by rewrite Eq.
Qed.

(** A worker answers the request it holds. *)
Inductive answer : WorkerPool -> WorkerPool -> Prop :=
  | answer_one s w m msg : jsmap_get w (pending s) = Some m -> msg_id msg ∈ m.*1 -> answer s (_onMessage w msg s).

Definition outstanding (s : WorkerPool) : Z := queueDepth s + inFlight s.

Lemma outstanding_settled s : pool_inv [] [] s -> outstanding s + Z.of_nat (length (settled s)) = nextId s.
Proof.
  intros H. unfold outstanding, queueDepth. rewrite inFlight_ids. pose proof (inv_ids _ _ _ H) as Hi. apply Permutation_length in Hi.
  rewrite length_seqZ in Hi. cbn [app] in Hi. rewrite !length_app, !length_fmap in Hi. pose proof (inv_nextId _ _ _ H). lia.
Qed.

Lemma answer_settles s s' : pool_inv [] [] s -> answer s s' ->
  pool_inv [] [] s' /\ length (settled s') = S (length (settled s)) /\ nextId s' = nextId s /\ (no_stranded s -> no_stranded s').
Proof.
  intros H Ha. destruct Ha as [s w m msg Em Hin]. split; [by apply onMessage_inv|]. split; [|split].
  1,2: unfold _onMessage; rewrite Em; apply list_elem_of_fmap in Hin as ([i e] & Ei & Hin);
    (destruct (inv_slot _ _ _ H w m) as [[_ ->]|[_ [j ->]]]; [apply jsmap_get_elem; [rewrite (inv_keys _ _ _ H); apply H|done]|by apply elem_of_nil in Hin|]);
    apply list_elem_of_singleton in Hin as [= -> ->]; cbn [fst] in Ei; rewrite Ei; cbn [jsmap_get]; rewrite decide_True by done; cbn [queue settle set_pending];
    (destruct (queue s) as [|[rq en] r]; [|cbn [fst snd]; edestruct (dispatch_same w rq en) as (_ & _ & _ & _ & Hn & Hs); rewrite ?Hn, ?Hs]);
    cbn; rewrite ?length_app; cbn; lia.
  apply (step_no_stranded (EMessage w msg)). done.
Qed.

Lemma answer_progress s : pool_inv [] [] s -> no_stranded s -> workers s <> [] -> 0 < outstanding s -> exists s', answer s s'.
Proof.
  intros H Hn Hw Ho. assert (Hf : 0 < inFlight s).
  { pose proof (slots_count s H) as Hc. unfold outstanding, queueDepth in Ho. unfold size in Hc.
    destruct (decide (queue s = [])) as [E|E]; [rewrite E in Ho; cbn in Ho; lia|]. rewrite (Hn E) in Hc. cbn in Hc.
    destruct (workers s); [done|]. cbn in Hc. lia. }
  rewrite inFlight_ids in Hf. destruct (pending_ids (pending s)) as [|e l] eqn:E; [cbn in Hf; lia|].
  assert (He : e ∈ pending_ids (pending s)) by (rewrite E; by left). unfold pending_ids in He.
  apply list_elem_of_bind in He as ([w m] & He & Hp). apply list_elem_of_fmap in He as ([i j] & _ & Hi).
  exists (_onMessage w (WorkerResponse i "") s). apply (answer_one s w m).
  - apply jsmap_get_elem; [rewrite (inv_keys _ _ _ H); apply H|done].
  - apply list_elem_of_fmap. by exists (i, j).
Qed.

(** C28. Every request is in exactly one place on every reachable state, crashes and
    closing included: queued, held by one worker, or settled, and settled once. The pool
    keeps its size, each worker is idle or holds one request, and the queue keeps its bound. *)
Theorem pool_accounts_every_request (n : Z) (m : option number) (s0 : WorkerPool) (evs : list event) :
  newWorkerPool n m = Returns s0 ->
  let s := run evs s0 in
  (queue s).*2 ++ pending_ids (pending s) ++ (settled s).*1 ≡ₚ seqZ 0 (nextId s)
  /\ NoDup (settled s).*1
  /\ size s = Z.max 0 n /\ inFlight s + Z.of_nat (length (idle s)) = size s
  /\ (forall w held, (w, held) ∈ pending s -> (length held <= 1)%nat)
  /\ match maxQueueSize s0 with Some b => queueDepth s <= b | None => True end.
Proof.
  intros E. destruct (newPool_inv _ _ _ E) as (H0 & Hlen & _). cbv zeta.
  assert (H : pool_inv [] [] (run evs s0) /\ length (workers (run evs s0)) = length (workers s0) /\ maxQueueSize (run evs s0) = maxQueueSize s0).
  { apply run_preserves; [|done]. intros ev s _ (H & Hl & Hm). split; [by apply step_inv|]. destruct (step_size ev s H) as [-> ->]. done. }
  destruct H as (H & Hl & Hm). split; [apply (inv_ids _ _ _ H)|]. split.
  { pose proof (NoDup_seqZ 0 (nextId (run evs s0))) as Hn. rewrite <- (inv_ids _ _ _ H) in Hn. cbn [app] in Hn.
    apply NoDup_app in Hn as (_ & _ & Hn). by apply NoDup_app in Hn as (_ & _ & ?). }
  split; [unfold size; rewrite Hl, Hlen; lia|]. split; [by apply slots_count|]. split.
  - intros w held Hin. destruct (inv_slot _ _ _ H w held Hin) as [[_ ->]|[_ [i ->]]]; cbn; lia.
  - rewrite <- Hm. apply (inv_bound _ _ _ H).
Qed.

(** Without crashes the pool drains: answering workers settle one promise per answer,
    some worker can always answer while a request is outstanding, and so every run of answers
    ends, after exactly as many answers as there were outstanding requests, with every promise settled. *)
Theorem pool_drains (n : Z) (m : option number) (s0 : WorkerPool) (evs : list event) (k : nat) (s' : WorkerPool) :
  1 <= n -> newWorkerPool n m = Returns s0 -> Forall (fun ev => is_crash ev = false) evs ->
  nsteps answer k (run evs s0) s' ->
  Z.of_nat k + outstanding s' = outstanding (run evs s0)
  /\ ((exists s'', answer s' s'') \/ outstanding s' = 0 /\ (settled s').*1 ≡ₚ seqZ 0 (nextId (run evs s0))).
Proof.
  intros Hn E Hevs Hsteps. destruct (newPool_inv _ _ _ E) as (H0 & Hlen & _ & Hq0).
  set (ok s := pool_inv [] [] s /\ no_stranded s /\ workers s <> []).
  assert (H : ok (run evs s0)).
  { apply run_preserves.
    - intros ev s Hin (H & Hst & Hw). rewrite Forall_forall in Hevs. split; [by apply step_inv|]. split; [apply step_no_stranded; auto|].
      intros Hnil. destruct (step_size ev s H) as [Hl _]. rewrite Hnil in Hl. by destruct (workers s).
    - split; [done|]. split; [intros Hq; by rewrite Hq0 in Hq|]. intros Hnil. rewrite Hnil in Hlen. cbn in Hlen. lia. }
  assert (G : forall s, ok s -> nsteps answer k s s' -> ok s' /\ length (settled s') = (k + length (settled s))%nat /\ nextId s' = nextId s).
  { clear - Hn. induction k as [|k IH]; intros s Hs Hk; inversion Hk as [|? ? y ? Hy Hr]; subst; [done|]. destruct Hs as (H & Hst & Hw).
    destruct (answer_settles _ _ H Hy) as (H' & Hl & Hid & Hst'). assert (Hok : ok y).
    { split; [done|]. split; [by apply Hst'|]. destruct Hy as [s w m msg Em Hin]. destruct (step_size (EMessage w msg) s H) as [Hlw _]. cbn in Hlw.
      intros Hnil. rewrite Hnil in Hlw. by destruct (workers s). }
    destruct (IH y Hok Hr) as (? & ? & ?). split; [done|]. split; [lia|congruence]. }
  destruct (G _ H Hsteps) as (Hs' & Hl & Hid). destruct Hs' as (Hi' & Hst' & Hw').
  pose proof (outstanding_settled _ Hi') as O1. pose proof (outstanding_settled _ (proj1 H)) as O2. split; [lia|].
  destruct (decide (0 < outstanding s')) as [Ho|Ho]; [left; by apply answer_progress|right].
  assert (Hz : outstanding s' = 0) by (unfold outstanding, queueDepth in *; rewrite inFlight_ids in *; lia). split; [done|].
  rewrite <- Hid, <- (inv_ids _ _ _ Hi'). unfold outstanding, queueDepth in Hz. rewrite inFlight_ids in Hz.
  destruct (queue s'); [|cbn in Hz; lia]. destruct (pending_ids (pending s')); [done|cbn in Hz; lia].
Qed.

(** ** Crashes *)
Lemma crash_keeps_queue w err s : queue (_onWorkerError w err s) = queue s.
Proof. unfold _onWorkerError. destruct (jsmap_get w (pending s)); rewrite ?settle_all; by case_bool_decide. Qed.

Definition req_0 : EvalWorkerRequest := mkReq 0 [] [] [] "".
Definition pool_1 : WorkerPool := _spawnWorker (mkPool [] [] [] [] None 0 false 0%nat [] []).

(** A request queued behind a lone worker that crashes: its successor is idle, the request still
    queued, and no answer can come. *)
Lemma crash_strands_queue : newWorkerPool 1 None = Returns pool_1
  /\ let s := run [ECall req_0; ECall req_0; ECrash 0 "out of memory"] pool_1 in
     (queue s).*2 = [1] /\ idle s = [1%nat] /\ (settled s).*1 = [0] /\ forall s', ~ answer s s'.
Proof.
  split; [reflexivity|]. cbv zeta. split; [reflexivity|]. split; [reflexivity|]. split; [reflexivity|].
  intros s' Ha. inversion Ha as [s w held msg Hg Hin]; subst. vm_compute in Hg.
  destruct (Nat.eq_dec w 1) as [->|Hne]; [injection Hg as <-; by apply elem_of_nil in Hin|]. do 2 (destruct w as [|w]; try done).
Qed.

(** ** Witnesses: two workers, a queue of one. *)
Lemma pool_accounts_every_request_witness : exists s0, newWorkerPool 2 (Some (of_Z 1)) = Returns s0
  /\ let s := run [ECall req_0; ECall req_0; ECall req_0; ECall req_0; ECrash 0 "x"; EMessage 1 (WorkerResponse 0 "{}")] s0 in
     size s = 2 /\ (settled s).*1 = [3; 1; 0].
Proof.
  eexists. split; [reflexivity|]. cbv zeta. split; [|reflexivity].
  refine (proj1 (proj2 (proj2 (pool_accounts_every_request 2 (Some (of_Z 1)) _ _ eq_refl)))).
Defined.

Lemma pool_drains_witness : let s := run [ECall req_0; ECall req_0] pool_1 in
  outstanding (_onMessage 0 (WorkerResponse 0 "{}") s) = 1.
Proof.
  cbv zeta. assert (H : Z.of_nat 1 + outstanding (_onMessage 0 (WorkerResponse 0 "{}") (run [ECall req_0; ECall req_0] pool_1)) = 2); [|lia].
  refine (proj1 (pool_drains 1 None pool_1 [ECall req_0; ECall req_0] 1 _ _ eq_refl _ _)); [lia|by repeat constructor|].
  eapply nsteps_l; [|apply nsteps_O]. apply (answer_one _ 0%nat [(0, 0)]); [reflexivity|]. by left.
Defined.
