(* ===== verification/EvalWorker.v ===== *)
(** * Worker script (packages/coretex/src/workers/worker.ts)

    The message handler a pool worker runs: decode the patch, find the parent
    state in a 16-entry LRU cache keyed by its root, evaluate, reply. The
    cache outlives a message, so the handler is a state transformer on it.

    Theorems: on every run the cache holds at most 16 entries, each under the
    root of its own state and with that state's Merkle tree, so the reply to
    a request whose state bytes match its patch is the reply an empty cache
    gives, unless the hash collides; every request is answered under its id;
    and a hit does not look at the request's state bytes. *)
From Stdlib Require Import Ascii.
From stdpp Require Import pretty.
From S2P Require Import Prelude StateTypes Float Codec Keccak Merkle Decoder Substrate SlotPolicy Validate Patch SeedDerivation JsSort CanonicalJson EvalHarness WorkerPool.
#[local] Open Scope Z_scope.

Definition CACHE_CAPACITY : Z := 16.
Record CachedParent := mkParent { cp_state : CortexState; cp_merkleCache : MerkleTreeCache }.
Abbreviation parent_cache := (list (string * CachedParent)).

Definition cacheGet (key : string) (c : parent_cache) : option CachedParent * parent_cache :=
  match jsmap_get key c with
  | Some val => (Some val, jsmap_set key val (jsmap_delete key c))
  | None => (None, c)
  end.

Definition cacheSet (key : string) (val : CachedParent) (c : parent_cache) : parent_cache :=
  let c := if CACHE_CAPACITY <=? Z.of_nat (length c)
           then match c with (oldest, _) :: _ => jsmap_delete oldest c | [] => c end else c in
  jsmap_set key val c.

(** [err.message] *)
Definition err_message (e : js_error) : string := match e with TypeError t | RangeError t | GenericError t => t end.

Section Worker.
Context (NumberToString : number -> string) {HK : Hasher}.

(** A member of [JSON.stringify(report, replacer)]: bigints become ["123n"]. *)
Definition json_bigint (v : Z) : chars := quote (pretty v +:+ "n")%string.
Definition json_opt (o : option string) : chars := match o with Some s => quote s | None => text "null" end.

(** The report's own members in insertion order, the hash last. *)
Definition report_json (r : EvalReport) : string :=
  let b := body r in
  String.string_of_list_ascii ("{"%char :: join_comma (map (fun p : string * chars => quote p.1 ++ ":"%char :: p.2)
    [("version", quote (version b)); ("parentStateRoot", quote (rep_parentStateRoot b)); ("newStateRoot", json_opt (rep_newStateRoot b));
     ("patchHash", quote (rep_patchHash b)); ("accepted", text (if rep_accepted b then "true" else "false"));
     ("errorCode", json_opt (errorCode b)); ("errorMessage", json_opt (errorMessage b));
     ("baselineScore", json_bigint (baselineScore b)); ("candidateScore", json_bigint (candidateScore b));
     ("scoreDelta", json_bigint (rep_scoreDelta b)); ("corpusRoot", quote (rep_corpusRoot b)); ("shardId", quote (rep_shardId b));
     ("evalTimestampMs", quote (evalTimestampMs b)); ("evalDurationUs", text (NumberToString (of_Z (evalDurationUs b))));
     ("reportHash", quote (reportHash r))]%string) ++ ["}"%char]).

(** The lookup: a miss unpacks and merkleizes the state, and caches it only under its own root. *)
Definition find_parent (key : string) (stateBytes : bytes) (c : parent_cache) : outcome CachedParent * parent_cache :=
  match cacheGet key c with
  | (Some val, c') => (Returns val, c')
  | (None, c') =>
    match (state ← unpack stateBytes; mc ← buildMerkleCache state; Returns (mkParent state mc)) with
    | Throws e => (Throws e, c')
    | Returns val =>
      (Returns val, if String.eqb (toLowerCase (bytesToHex (root (cp_merkleCache val)))) key then cacheSet key val c' else c')
    end
  end.

Definition on_request (clock : Clock) (req : EvalWorkerRequest) (c : parent_cache) : EvalWorkerMessage * parent_cache :=
  let '(result, c') :=
    match decodePatch (req_patchWireBytes req) with
    | Throws e => (Throws e, c)
    | Returns patch =>
      let cacheKey := toLowerCase (bytesToHex (parentStateRoot patch)) in
      match find_parent cacheKey (stateBytes req) c with
      | (Throws e, c') => (Throws e, c')
      | (Returns cached, c') =>
        let loader := StubCorpusLoader (req_corpusRoot req) in
        (report ← evalPatch NumberToString clock (cp_state cached) patch
           (mkEvalOptions (Some loader) (Some (req_shardId req)) (req_patchWireBytes req) false (Some (cp_merkleCache cached)));
         Returns (report_json report), c')
      end
    end in
  (match result with
   | Returns reportJson => WorkerResponse (req_id req) reportJson
   | Throws e => WorkerError (req_id req) (err_message e)
   end, c').

(** ** The cache invariant *)
Definition entry_ok (e : string * CachedParent) : Prop :=
  state_ok (cp_state e.2) /\ cp_merkleCache e.2 = cache_of (cp_state e.2)
  /\ e.1 = toLowerCase (bytesToHex (root (cache_of (cp_state e.2)))).
Definition cache_ok (c : parent_cache) : Prop := NoDup c.*1 /\ Forall entry_ok c /\ Z.of_nat (length c) <= CACHE_CAPACITY.

Lemma cacheGet_ok key c : cache_ok c -> cache_ok (cacheGet key c).2 /\ (cacheGet key c).2 ≡ₚ c
  /\ forall v, (cacheGet key c).1 = Some v -> entry_ok (key, v).
Proof.
  intros (Hnd & Hall & Hlen). unfold cacheGet. destruct (jsmap_get key c) as [val|] eqn:E; [|by split].
  destruct (jsmap_get_split _ _ _ E) as (a & b & -> & Hni & _). rewrite jsmap_delete_split by done.
  assert (Hkb : key ∉ (a ++ b).*1).
  { rewrite fmap_app in *. csimpl in Hnd. apply NoDup_app in Hnd as (_ & _ & Hb). apply NoDup_cons in Hb as [? _]. set_solver. }
  rewrite jsmap_set_fresh by done. cbn [fst snd].
  assert (Hp : (a ++ b) ++ [(key, val)] ≡ₚ a ++ (key, val) :: b) by solve_Permutation.
  split; [|split; [done|]]; [repeat split; [by rewrite Hp|by rewrite Hp|by rewrite Hp]|].
  intros v [= <-]. rewrite Forall_forall in Hall. apply Hall. set_solver.
Qed.

Lemma cacheSet_ok key val c : cache_ok c -> key ∉ c.*1 -> entry_ok (key, val) -> cache_ok (cacheSet key val c).
Proof.
  intros (Hnd & Hall & Hlen) Hni He. unfold cacheSet. destruct (Z.leb_spec CACHE_CAPACITY (Z.of_nat (length c))) as [Hc|Hc].
  - destruct c as [|[k v] c]; [cbn in Hc; unfold CACHE_CAPACITY in Hc; lia|]. csimpl in *.
    apply NoDup_cons in Hnd as [Hk Hnd]. apply Forall_cons in Hall as [_ Hall].
    unfold jsmap_delete. rewrite filter_cons_False by (cbn; tauto). fold (jsmap_delete k c). rewrite jsmap_delete_absent by done.
    split; [by apply jsmap_set_NoDup|]. split; [by apply jsmap_set_Forall|]. rewrite jsmap_set_fresh by set_solver. rewrite length_app. cbn. lia.
  - split; [by apply jsmap_set_NoDup|]. split; [by apply jsmap_set_Forall|]. rewrite jsmap_set_fresh by done. rewrite length_app. cbn. lia.
Qed.

Lemma cacheGet_miss key c : (cacheGet key c).1 = None -> cacheGet key c = (None, c) /\ key ∉ c.*1.
Proof. unfold cacheGet. destruct (jsmap_get key c) eqn:E; [done|]. intros _. split; [done|]. by apply jsmap_get_None. Qed.

Lemma cacheGet_hit key v c : (cacheGet key c).1 = Some v -> jsmap_get key c = Some v.
Proof. unfold cacheGet. by destruct (jsmap_get key c). Qed.

(** What a miss computes does not depend on the cache. *)
Lemma find_parent_miss key bs c : cache_ok c -> bytes_ok bs -> (cacheGet key c).1 = None ->
  (find_parent key bs c).1 = (find_parent key bs []).1 /\ cache_ok (find_parent key bs c).2.
Proof.
  intros Hc Hb Hm. destruct (cacheGet_miss _ _ Hm) as [E Hni]. unfold find_parent. rewrite E. cbn [cacheGet jsmap_get].
  destruct (unpack bs) as [s|] eqn:Eu; [|done]. apply unpack_ok in Eu; [|done]. cbn [mbind outcome_bind].
  rewrite buildMerkleCache_returns by apply Eu. cbn [mbind outcome_bind fst snd cp_merkleCache]. split; [done|].
  destruct (String.eqb_spec (toLowerCase (bytesToHex (root (cache_of s)))) key) as [Ek|]; [|done]. by apply cacheSet_ok.
Qed.

Lemma find_parent_ok key bs c : cache_ok c -> bytes_ok bs -> cache_ok (find_parent key bs c).2.
Proof.
  intros Hc Hb. destruct (cacheGet key c) as [[v|] c'] eqn:E; [|apply find_parent_miss; [done..|by rewrite E]].
  unfold find_parent. rewrite E. cbn [snd]. replace c' with (cacheGet key c).2 by (by rewrite E). by apply cacheGet_ok.
Qed.

Definition request_ok (req : EvalWorkerRequest) : Prop := bytes_ok (stateBytes req) /\ bytes_ok (req_patchWireBytes req).

Lemma on_request_ok clock req c : cache_ok c -> request_ok req ->
  cache_ok (on_request clock req c).2 /\ msg_id (on_request clock req c).1 = req_id req.
Proof.
  intros Hc [Hb _]. unfold on_request. destruct (decodePatch _) as [p|]; [|done].
  pose proof (find_parent_ok (toLowerCase (bytesToHex (parentStateRoot p))) (stateBytes req) c Hc Hb) as H.
  destruct (find_parent _ _ _) as [[v|e] c']; cbn [snd] in H |- *; [|done]. split; [done|]. by destruct (mbind _ _).
Qed.

(** The cache matters only through the parent it finds. *)
Lemma on_request_fst clock req c c' p : decodePatch (req_patchWireBytes req) = Returns p ->
  let key := toLowerCase (bytesToHex (parentStateRoot p)) in
  (find_parent key (stateBytes req) c).1 = (find_parent key (stateBytes req) c').1 ->
  (on_request clock req c).1 = (on_request clock req c').1.
Proof.
  intros Hp key. unfold on_request. rewrite Hp. fold key.
  destruct (find_parent key (stateBytes req) c) as [o d], (find_parent key (stateBytes req) c') as [o' d'].
  cbn [fst]. intros ->. by destruct o'.
Qed.

Lemma find_parent_fresh key bs s : bytes_ok bs -> unpack bs = Returns s -> (find_parent key bs []).1 = Returns (mkParent s (cache_of s)).
Proof.
  intros Hb Hu. unfold find_parent. cbn [cacheGet jsmap_get]. rewrite Hu. cbn [mbind outcome_bind].
  rewrite buildMerkleCache_returns; [done|]. by apply (unpack_ok bs).
Qed.

(** The cache after a sequence of requests. *)
Definition serve (hist : list (Clock * EvalWorkerRequest)) : parent_cache :=
  fold_left (fun c r => (on_request r.1 r.2 c).2) hist [].

Lemma serve_ok hist : Forall (fun r => request_ok r.2) hist -> cache_ok (serve hist).
Proof.
  intros H. unfold serve. assert (H0 : cache_ok []) by (repeat split; [constructor|constructor|done]). revert H0. generalize ([] : parent_cache).
  induction H as [|[t r] hist Hr _ IH]; intros c Hc; [done|]. cbn [fold_left]. apply IH. by apply on_request_ok.
Qed.

(** Whatever a worker served before, it answers each request under its id from at most 16 cached
    parents, and a request whose state has the root its patch names gets the answer a fresh worker
    gives, unless the hash collides on what is hashed for that state and a cached one. *)
Theorem worker_cache_transparent (hist : list (Clock * EvalWorkerRequest)) (clock : Clock) (req : EvalWorkerRequest) (p : Patch) (s : CortexState) :
  Forall (fun r => request_ok r.2) hist -> request_ok req ->
  decodePatch (req_patchWireBytes req) = Returns p -> unpack (stateBytes req) = Returns s ->
  merkleizeState s = Returns (parentStateRoot p) ->
  let c := serve hist in
  Z.of_nat (length c) <= CACHE_CAPACITY
  /\ msg_id (on_request clock req c).1 = req_id req
  /\ ((on_request clock req c).1 = (on_request clock req []).1
      \/ exists v, v ∈ c.*2 /\ collides (hash_inputs s) (hash_inputs (cp_state v))).
Proof.
  intros Hh Hr Hp Hu Hm. cbv zeta. pose proof (serve_ok hist Hh) as Hc. revert Hc. generalize (serve hist). intros c Hc.
  split; [apply Hc|]. split; [by apply on_request_ok|]. pose proof (unpack_ok _ _ (proj1 Hr) Hu) as Hs.
  rewrite merkleizeState_returns in Hm by apply Hs. apply Returns_inj in Hm.
  set (key := toLowerCase (bytesToHex (parentStateRoot p))).
  destruct (cacheGet key c) as [[v|] c'] eqn:E.
  2: { destruct (find_parent_miss key (stateBytes req) c Hc (proj1 Hr)) as [H1 _]; [by rewrite E|]. left.
       by apply (on_request_fst _ _ _ _ p). }
  destruct (cacheGet_ok key c Hc) as (_ & _ & Hv). rewrite E in Hv. destruct (Hv v eq_refl) as (Hvs & Hvc & Hvk). cbn [fst snd] in *.
  assert (Hin : (key, v) ∈ c).
  { apply jsmap_get_elem; [apply Hc|]. apply cacheGet_hit. by rewrite E. }
  unfold key in Hvk. rewrite <- Hm, !toLowerCase_hex in Hvk. apply bytesToHex_inj in Hvk; [|apply root_bytes_ok..].
  destruct (cache_root_binding s (cp_state v) Hs Hvs Hvk) as [->|Hcol]; [left|right; exists v; split; [|done]; apply list_elem_of_fmap; by exists (key, v)].
  apply (on_request_fst _ _ _ _ p); [done|]. fold key. rewrite (find_parent_fresh _ _ (cp_state v)) by (done || apply Hr).
  unfold find_parent. rewrite E. cbn [fst]. rewrite <- Hvc. by destruct v.
Qed.

(** A hit answers for the cached state: the request's own state bytes are not read. *)
Lemma hit_ignores_state clock req bs c p : decodePatch (req_patchWireBytes req) = Returns p ->
  toLowerCase (bytesToHex (parentStateRoot p)) ∈ c.*1 ->
  on_request clock (mkReq (req_id req) bs (req_patchWireBytes req) (req_shardId req) (req_corpusRoot req)) c = on_request clock req c.
Proof.
  intros Hp Hin. unfold on_request. cbn [req_patchWireBytes stateBytes req_shardId req_corpusRoot req_id]. rewrite Hp.
  unfold find_parent, cacheGet. destruct (jsmap_get _ c) eqn:E; [done|]. by apply jsmap_get_None in E.
Qed.
End Worker.

(** ** Witness: a second request for the all-zero parent. *)
Definition req_w : EvalWorkerRequest := mkReq 7 (pack_spec (words zero_state)) (patch_wire patch_w) (zeros 32) "0x00".
Definition hist_w : list (Clock * EvalWorkerRequest) := [(clock_0, req_w)].

Lemma req_w_ok : request_ok req_w.
Proof. split; apply (bool_decide_unpack _); vm_compute; reflexivity. Qed.

Lemma worker_cache_transparent_witness :
  Z.of_nat (length (serve int_printer (HK:=const_hasher) hist_w)) <= CACHE_CAPACITY
  /\ msg_id (on_request int_printer (HK:=const_hasher) clock_1 req_w (serve int_printer (HK:=const_hasher) hist_w)).1 = 7.
Proof.
  destruct (worker_cache_transparent int_printer (HK:=const_hasher) hist_w clock_1 req_w patch_w zero_state) as (H1 & H2 & _).
  - apply Forall_singleton, req_w_ok.
  - apply req_w_ok.
  - vm_compute. reflexivity.
  - apply (unpack_pack_spec (words zero_state)); apply zero_state_ok.
  - apply const_hasher_zero.
  - split; [exact H1|exact H2].
Defined.
