(* ===== verification/Upgrade.v ===== *)
(** * Core version upgrades (packages/coretex/src/upgrade/index.ts)

    A state translation patch is a header and a sequence of length-prefixed
    patches applied one after the other; the alternative is an explicit
    reset. Theorems: the encoder's output parses back to the translation; a
    payload that parses is that encoding with at most one stray byte after
    it; applying succeeds exactly when the version hash matches and every
    patch is accepted on the state the previous ones gave. *)
From Stdlib Require Import Ascii.
From stdpp Require Import pretty.
From S2P Require Import Prelude StateTypes Codec Keccak Merkle Validate Patch SeedDerivation.
#[local] Open Scope Z_scope.

Definition UPGRADE_MAGIC : Z := 0xF0.
Definition RESET_EVENT_MARKER : string := "CORTEX_RESET".

Record StatTranslationPatch := mkTranslation {
  fromVersion : Z;
  toVersion : Z;
  fromCoreVersionHash : string;
  toCoreVersionHash : string;
  patches : list Patch
}.

Inductive UpgradeParseCode := BAD_MAGIC | TOO_SHORT | PATCH_DECODE_ERROR.
Inductive UpgradeParseResult :=
  | UpgradeParseSuccess (translation : StatTranslationPatch)
  | UpgradeParseError (code : UpgradeParseCode) (message : string).

(** ** Parsing *)
Definition byte_at (data : bytes) (i : nat) : Z := default 0 (data !! i).

(** The segment loop; [None] when the fuel runs out. *)
Fixpoint parse_segments (fuel : nat) (data : bytes) (offset : nat) (acc : list Patch) : option (list Patch + UpgradeParseCode * string) :=
  match fuel with
  | O => None
  | S fuel' =>
    if (offset <? length data)%nat then
      if (length data <? offset + 2)%nat then Some (inl acc)
      else
        let patchLen := Z.to_nat (Z.lor (Z.shiftl (byte_at data offset) 8) (byte_at data (offset + 1))) in
        let offset := (offset + 2)%nat in
        if (length data <? offset + patchLen)%nat then
          Some (inr (TOO_SHORT, "Patch segment truncated at offset " +:+ pretty offset +:+ ": need " +:+ pretty patchLen
                                +:+ " bytes, have " +:+ pretty (length data - offset)%nat)%string)
        else
          match decodePatch (u8_slice data offset patchLen) with
          | Throws e => Some (inr (PATCH_DECODE_ERROR, "Patch decode error at offset " +:+ pretty offset)%string)
          | Returns patch => parse_segments fuel' data (offset + patchLen) (acc ++ [patch])
          end
    else Some (inl acc)
  end.

Definition parseStatTranslationPatch (data : bytes) : option UpgradeParseResult :=
  if (length data <? 67)%nat then Some (UpgradeParseError TOO_SHORT ("Too short: " +:+ pretty (length data) +:+ " bytes (min 67)")%string)
  else if negb (byte_at data 0 =? UPGRADE_MAGIC) then Some (UpgradeParseError BAD_MAGIC "Expected upgrade magic 0xf0")
  else
    r ← parse_segments (length data) data 67 [];
    Some (match r with
      | inr (code, message) => UpgradeParseError code message
      | inl patches => UpgradeParseSuccess (mkTranslation (byte_at data 1) (byte_at data 2)
          (bytesToHex (u8_slice data 3 32)) (bytesToHex (u8_slice data 35 32)) patches)
      end).

(** ** Encoding *)

(** [out.set(src, off)] throws a RangeError when [src] does not fit. *)
Definition set_checked (out : bytes) (off : nat) (src : bytes) : outcome bytes :=
  throw_when (length out <? off + length src)%nat with RangeError "offset is out of bounds" ;;
  Returns (u8_set out off src).

(** One segment: the two length bytes and the patch. *)
Definition emit_segment (st : bytes * nat) (patchBytes : bytes) : bytes * nat :=
  let len := Z.of_nat (length patchBytes) in
  put patchBytes (put [Z.land len 0xff] (put [Z.land (Z.shiftr len 8) 0xff] st)).

Definition encodeStatTranslationPatch (t : StatTranslationPatch) : outcome bytes :=
  patchBuffers ← mapM encodePatch (patches t);
  let patchTotalSize := fold_left (fun sum b => (sum + 2 + length b)%nat) patchBuffers 0%nat in
  let out := zeros (67 + patchTotalSize) in
  let '(out, offset) := put [toVersion t mod 256] (put [fromVersion t mod 256] (put [UPGRADE_MAGIC] (out, 0%nat))) in
  fromHash ← hexToBytes (fromCoreVersionHash t);
  toHash ← hexToBytes (toCoreVersionHash t);
  out ← set_checked out offset fromHash;
  let offset := (offset + 32)%nat in
  out ← set_checked out offset toHash;
  let offset := (offset + 32)%nat in
  Returns (fold_left emit_segment patchBuffers (out, offset)).1.

(** ** Applying *)
Inductive UpgradeApplyCode := VERSION_HASH_MISMATCH | PATCH_APPLY_ERROR.
Inductive UpgradeApplyResult :=
  | UpgradeApplySuccess (state : CortexState) (newStateRoot : string) (patchesApplied : Z)
  | UpgradeApplyError (code : UpgradeApplyCode) (message : string).

Section WithHasher.
Context {HK : Hasher}.

(** The loop over the patches: the final state and count, or the position and code of the first refusal. *)
Fixpoint apply_patches (current : CortexState) (ps : list Patch) (applied : Z) : outcome (CortexState * Z + Z * PatchErrorCode) :=
  match ps with
  | [] => Returns (inl (current, applied))
  | p :: ps' =>
    r ← applyPatch current p false;
    match r with
    | PatchFailure e => Returns (inr (applied, code e))
    | PatchSuccess s => apply_patches s ps' (applied + 1)
    end
  end.

Definition applyStatTranslationPatch (state : CortexState) (t : StatTranslationPatch) (currentCoreVersionHash : option string)
  : outcome UpgradeApplyResult :=
  if match currentCoreVersionHash with
     | Some h => negb (String.eqb (toLowerCase h) (toLowerCase (fromCoreVersionHash t)))
     | None => false
     end
  then Returns (UpgradeApplyError VERSION_HASH_MISMATCH "fromCoreVersionHash mismatch")
  else
    r ← apply_patches state (patches t) 0;
    match r with
    | inr (i, c) => Returns (UpgradeApplyError PATCH_APPLY_ERROR ("Patch " +:+ pretty i +:+ " rejected")%string)
    | inl (current, applied) =>
      newRoot ← merkleizeState current;
      Returns (UpgradeApplySuccess current (bytesToHex newRoot) applied)
    end.

(** ** Reset *)
Record ResetEvent := mkReset {
  marker : string;
  reset_epoch : Z;
  oldCoreVersionHash : string;
  newCoreVersionHash : string;
  oldStateRoot : string;
  newGenesisStateRoot : string
}.

Definition executeReset (currentState newGenesisState : CortexState) (epoch : Z) (oldHash newHash : string) : outcome (ResetEvent * CortexState) :=
  oldRoot ← merkleizeState currentState;
  newRoot ← merkleizeState newGenesisState;
  Returns (mkReset RESET_EVENT_MARKER epoch oldHash newHash (bytesToHex oldRoot) (bytesToHex newRoot), newGenesisState).
End WithHasher.

(** ** The wire format as one concatenation *)
Definition segment (p : Patch) : bytes := be_bytes 2 (Z.of_nat (length (patch_wire p))) ++ patch_wire p.
Definition segments (ps : list Patch) : bytes := ps ≫= segment.
Definition translation_wire (fv tv : Z) (fh th : bytes) (ps : list Patch) : bytes := ([UPGRADE_MAGIC; fv; tv] ++ fh ++ th) ++ segments ps.

Lemma be_bytes_2 v : be_bytes 2 v = [(v / 256) mod 256; v mod 256].
Proof. reflexivity. Qed.

(** The length prefix reads back. *)
Lemma segment_length pre p post : wire_ok p -> let data := pre ++ segment p ++ post in
  Z.to_nat (Z.lor (Z.shiftl (byte_at data (length pre)) 8) (byte_at data (length pre + 1))) = length (patch_wire p).
Proof.
  intros Hp data. pose proof (length_patch_wire p Hp) as Hl. unfold data, segment, byte_at. rewrite be_bytes_2. cbn [app].
  rewrite lookup_app_r by lia. rewrite Nat.sub_diag. cbn [lookup list_lookup default from_option id].
  rewrite lookup_app_r by lia. replace (length pre + 1 - length pre)%nat with 1%nat by lia. cbn [lookup list_lookup default from_option id].
  set (n := Z.of_nat (length (patch_wire p))). assert (Hn : 0 <= n < 256) by (unfold n; lia).
  rewrite Z.div_small, Z.mod_small, Z.mod_small by lia. rewrite lor_shiftl_add by (lia || (change (2 ^ 8) with 256; lia)). unfold n. lia.
Qed.

Lemma length_segment p : length (segment p) = (2 + length (patch_wire p))%nat.
Proof. unfold segment. by rewrite length_app, length_be_bytes. Qed.

Lemma parse_segments_wire ps fuel pre tail acc : Forall wire_ok ps -> (length tail <= 1)%nat -> (length ps < fuel)%nat ->
  parse_segments fuel (pre ++ segments ps ++ tail) (length pre) acc = Some (inl (acc ++ ps)).
Proof.
  intros Hps Ht. revert fuel pre acc. induction Hps as [|p ps Hp Hps IH]; intros fuel pre acc Hf; (destruct fuel as [|fuel]; [cbn in Hf; lia|]); cbn [parse_segments].
  - unfold segments. cbn [mbind list_bind app]. rewrite length_app, app_nil_r. destruct (Nat.ltb_spec (length pre) (length pre + length tail)); [|done].
    by rewrite (proj2 (Nat.ltb_lt _ _)) by lia.
  - unfold segments. rewrite bind_cons. fold (segments ps). rewrite <- app_assoc. pose proof (segment_length pre p (segments ps ++ tail) Hp) as Hl. cbv zeta in Hl.
    rewrite Hl. pose proof (length_patch_wire p Hp). rewrite !length_app, length_segment.
    rewrite (proj2 (Nat.ltb_lt _ _)), !(proj2 (Nat.ltb_ge _ _)) by lia.
    assert (Es : u8_slice (pre ++ segment p ++ segments ps ++ tail) (length pre + 2) (length (patch_wire p)) = patch_wire p).
    { unfold segment. rewrite <- app_assoc, app_assoc. apply u8_slice_app; [by rewrite length_app, length_be_bytes|done]. }
    rewrite Es, decodePatch_wire by done.
    replace (length pre + 2 + length (patch_wire p))%nat with (length (pre ++ segment p)) by (rewrite length_app, length_segment; lia).
    rewrite app_assoc, IH by (cbn in Hf; lia). by rewrite <- app_assoc.
Qed.

Lemma byte_at_drop data off : (off + 2 <= length data)%nat -> drop off data = [byte_at data off; byte_at data (off + 1)] ++ drop (off + 2) data.
Proof.
  intros H. pose proof (lookup_drop data off 0) as L0. pose proof (lookup_drop data off 1) as L1. rewrite Nat.add_0_r in L0.
  rewrite <- drop_drop. unfold byte_at. rewrite <- L0, <- L1. pose proof (length_drop data off) as Hl.
  destruct (drop off data) as [|a [|b l]]; cbn in Hl; [lia..|]. done.
Qed.

Lemma byte_at_ok data i : bytes_ok data -> byte_ok (byte_at data i).
Proof. intros H. unfold byte_at. destruct (data !! i) eqn:E; cbn; [exact (Forall_lookup_1 byte_ok data i _ H E)|unfold byte_ok; lia]. Qed.

Lemma parse_segments_inv fuel data off acc r : bytes_ok data -> parse_segments fuel data off acc = Some (inl r) ->
  exists ps tail, r = acc ++ ps /\ Forall wire_ok ps /\ drop off data = segments ps ++ tail /\ (length tail <= 1)%nat.
Proof.
  intros Hok. revert off acc. induction fuel as [|fuel IH]; intros off acc; [done|]. cbn [parse_segments].
  destruct (Nat.ltb_spec off (length data)) as [H1|H1].
  2: { intros [= <-]. exists [], []. rewrite app_nil_r, drop_ge by done. split; [done|]. split; [done|]. split; [done|]. cbn. lia. }
  destruct (Nat.ltb_spec (length data) (off + 2)) as [H2|H2].
  { intros [= <-]. exists [], (drop off data). rewrite app_nil_r. split; [done|]. split; [done|]. split; [done|]. rewrite length_drop. lia. }
  pose proof (byte_at_ok data off Hok) as Ba. pose proof (byte_at_ok data (off + 1) Hok) as Bb. unfold byte_ok in Ba, Bb.
  rewrite lor_shiftl_add by (lia || (change (2 ^ 8) with 256; lia)). change (2 ^ 8) with 256.
  set (n := Z.to_nat _). destruct (Nat.ltb_spec (length data) (off + 2 + n)) as [H3|H3]; [done|].
  destruct (decodePatch _) as [p|] eqn:Ed; [|done]. apply decodePatch_inv in Ed as [Hp Es]; [|by apply Forall_take, Forall_drop].
  intros (ps & tail & -> & Hps & Hd & Ht)%IH. exists (p :: ps), tail. split; [by rewrite <- app_assoc|]. split; [by constructor|]. split; [|done].
  assert (Hn : length (patch_wire p) = n) by (rewrite <- Es; unfold u8_slice; rewrite length_take, length_drop; lia).
  unfold segments. rewrite bind_cons. fold (segments ps). rewrite <- app_assoc, <- Hd, byte_at_drop by lia. unfold segment. rewrite Hn, be_bytes_2, <- app_assoc.
  f_equal.
  - unfold n. rewrite Z2Nat.id by lia. rewrite (Z.mul_comm _ 256), Z.add_comm, Z.mul_comm, Z_mod_plus_full, Z.div_add by lia.
    rewrite (Z.div_small (byte_at data (off + 1))), Z.add_0_l, !Z.mod_small by lia. done.
  - rewrite <- Es. unfold u8_slice. replace (drop (off + 2 + n) data) with (drop n (drop (off + 2) data)) by (by rewrite drop_drop).
    by rewrite take_drop.
Qed.

(** Two bytes at least are consumed per round, so the payload's length is fuel enough. *)
Lemma parse_segments_total fuel data off acc : (length data < fuel + off)%nat -> (0 < fuel)%nat -> exists r, parse_segments fuel data off acc = Some r.
Proof.
  revert off acc. induction fuel as [|fuel IH]; intros off acc H H0; [lia|]. cbn [parse_segments].
  destruct (Nat.ltb_spec off (length data)); [|eauto]. destruct (Nat.ltb_spec (length data) (off + 2)); [eauto|].
  set (n := Z.to_nat _). destruct (Nat.ltb_spec (length data) (off + 2 + n)); [eauto|]. destruct (decodePatch _); [|eauto]. apply IH; lia.
Qed.

(** ** Parsing and encoding *)
Lemma header_bytes fv tv fh th rest : length fh = 32%nat -> length th = 32%nat ->
  let data := ([UPGRADE_MAGIC; fv; tv] ++ fh ++ th) ++ rest in
  byte_at data 0 = UPGRADE_MAGIC /\ byte_at data 1 = fv /\ byte_at data 2 = tv /\ u8_slice data 3 32 = fh /\ u8_slice data 35 32 = th.
Proof.
  intros H1 H2 data. split; [done|]. split; [done|]. split; [done|]. split.
  - unfold data. rewrite <- !app_assoc. by apply u8_slice_app.
  - unfold data. rewrite <- !app_assoc. rewrite app_assoc. apply u8_slice_app; [|done]. rewrite length_app. cbn. lia.
Qed.

Lemma length_header fv tv fh th : length fh = 32%nat -> length th = 32%nat -> length ([UPGRADE_MAGIC; fv; tv] ++ fh ++ th) = 67%nat.
Proof. intros H1 H2. rewrite !length_app. cbn. lia. Qed.

Lemma length_segments ps : (length ps <= length (segments ps))%nat.
Proof. unfold segments. induction ps as [|p ps IH]; [done|]. rewrite bind_cons, length_app, length_segment. cbn. lia. Qed.

Lemma parse_wire fv tv fh th ps tail : length fh = 32%nat -> length th = 32%nat -> Forall wire_ok ps -> (length tail <= 1)%nat ->
  parseStatTranslationPatch (translation_wire fv tv fh th ps ++ tail)
  = Some (UpgradeParseSuccess (mkTranslation fv tv (bytesToHex fh) (bytesToHex th) ps)).
Proof.
  intros H1 H2 Hps Ht. unfold translation_wire. rewrite <- app_assoc. unfold parseStatTranslationPatch.
  destruct (header_bytes fv tv fh th (segments ps ++ tail) H1 H2) as (-> & -> & -> & -> & ->).
  pose proof (length_header fv tv fh th H1 H2) as Hl. pose proof (length_segments ps). rewrite length_app, Hl, length_app.
  rewrite (proj2 (Nat.ltb_ge _ _)) by lia. rewrite Z.eqb_refl. cbn [negb]. rewrite <- Hl at 2.
  rewrite parse_segments_wire by (done || lia). done.
Qed.

(** ** The encoder writes that format *)
Lemma emit_segments ps pre n : Forall wire_ok ps -> (length (segments ps) <= n)%nat ->
  fold_left emit_segment (map patch_wire ps) (pre ++ zeros n, length pre)
  = ((pre ++ segments ps) ++ zeros (n - length (segments ps)), length (pre ++ segments ps)).
Proof.
  intros Hps. revert pre n. induction Hps as [|p ps Hp Hps IH]; intros pre n Hn; cbn [map fold_left].
  { unfold segments. cbn [mbind list_bind length]. by rewrite app_nil_r, Nat.sub_0_r. }
  unfold segments in *. rewrite bind_cons in *. rewrite length_app, length_segment in Hn. fold (segments ps) in *.
  unfold emit_segment at 2. pose proof (length_patch_wire p Hp) as Hl. rewrite !put_app by (rewrite ?length_app; cbn [length]; lia).
  assert (E : ((pre ++ [Z.land (Z.shiftr (Z.of_nat (length (patch_wire p))) 8) 0xff]) ++ [Z.land (Z.of_nat (length (patch_wire p))) 0xff]) ++ patch_wire p = pre ++ segment p).
  { unfold segment. rewrite be_bytes_2, !land_ff, Z.shiftr_div_pow2 by lia. rewrite <- !app_assoc. done. }
  rewrite E, IH by (cbn [length]; lia). rewrite <- (app_assoc pre). f_equal.
  f_equal. f_equal. rewrite length_app, length_segment. cbn [length]. lia.
Qed.

Lemma patch_total ps : fold_left (fun sum b => (sum + 2 + length b)%nat) (map patch_wire ps) 0%nat = length (segments ps).
Proof.
  assert (G : forall a, fold_left (fun sum b => (sum + 2 + length b)%nat) (map patch_wire ps) a = (a + length (segments ps))%nat); [|apply G].
  induction ps as [|p ps IH]; intros a; cbn [map fold_left]; [unfold segments; cbn; lia|]. rewrite IH. unfold segments. rewrite bind_cons, length_app, length_segment. lia.
Qed.

Lemma mapM_encode ps : Forall wire_ok ps -> mapM encodePatch ps = Returns (map patch_wire ps).
Proof. induction 1 as [|p ps Hp _ IH]; [done|]. cbn [mapM]. rewrite encodePatch_wire by done. cbn [mbind outcome_bind]. rewrite IH. done. Qed.

Lemma set_checked_app pre n src : (length src <= n)%nat ->
  set_checked (pre ++ zeros n) (length pre) src = Returns ((pre ++ src) ++ zeros (n - length src)).
Proof.
  intros H. unfold set_checked. rewrite (proj2 (Nat.ltb_ge _ _)) by (rewrite length_app; unfold zeros; rewrite length_replicate; lia).
  by rewrite u8_set_app.
Qed.

Lemma encode_wire fv tv fh th ps : byte_ok fv -> byte_ok tv -> bytes_ok fh -> bytes_ok th -> length fh = 32%nat -> length th = 32%nat -> Forall wire_ok ps ->
  encodeStatTranslationPatch (mkTranslation fv tv (bytesToHex fh) (bytesToHex th) ps) = Returns (translation_wire fv tv fh th ps).
Proof.
  intros Bf Bt Hf Ht Lf Lt Hps. unfold encodeStatTranslationPatch. cbn [patches fromVersion toVersion fromCoreVersionHash toCoreVersionHash].
  rewrite mapM_encode by done. cbn [mbind outcome_bind]. rewrite patch_total. set (n := length (segments ps)).
  unfold byte_ok in Bf, Bt. rewrite !Z.mod_small by lia. rewrite !hexToBytes_bytesToHex by done.
  change (zeros (67 + n), 0%nat) with ([] ++ zeros (67 + n), length (@nil Z)). rewrite !put_app by (cbn [length]; lia). cbn [app length mbind outcome_bind].
  replace (67 + n - 1 - 1 - 1)%nat with (32 + 32 + n)%nat by lia. pose proof (length_header fv tv fh th Lf Lt) as Hl.
  pose proof (set_checked_app [UPGRADE_MAGIC; fv; tv] (32 + 32 + n) fh ltac:(lia)) as E1.
  pose proof (set_checked_app ([UPGRADE_MAGIC; fv; tv] ++ fh) (32 + n) th ltac:(lia)) as E2.
  pose proof (emit_segments ps ([UPGRADE_MAGIC; fv; tv] ++ fh ++ th) n Hps ltac:(lia)) as E3.
  replace (32 + 32 + n - length fh)%nat with (32 + n)%nat in E1 by lia. replace (32 + n - length th)%nat with n in E2 by lia.
  rewrite <- app_assoc in E2. replace (length ([UPGRADE_MAGIC; fv; tv] ++ fh)) with 35%nat in E2 by (rewrite length_app, Lf; done).
  rewrite Hl, Nat.sub_diag in E3. cbn [app length] in E1, E2, E3.
  rewrite E1. cbn [mbind outcome_bind]. change (3 + 32)%nat with 35%nat. rewrite E2. cbn [mbind outcome_bind]. change (35 + 32)%nat with 67%nat.
  rewrite E3. cbn [fst zeros replicate].
  rewrite app_nil_r. done.
Qed.

(** The encoder and the parser agree: the encoding of a well-formed translation parses back to
    it, and a payload the parser accepts is that encoding followed by at most one stray byte. *)
Theorem translation_roundtrip (t : StatTranslationPatch) (fh th data : bytes) :
  byte_ok (fromVersion t) -> byte_ok (toVersion t) -> Forall wire_ok (patches t) ->
  bytes_ok fh -> length fh = 32%nat -> fromCoreVersionHash t = bytesToHex fh ->
  bytes_ok th -> length th = 32%nat -> toCoreVersionHash t = bytesToHex th -> bytes_ok data ->
  (exists out, encodeStatTranslationPatch t = Returns out /\ parseStatTranslationPatch out = Some (UpgradeParseSuccess t))
  /\ (parseStatTranslationPatch data = Some (UpgradeParseSuccess t) <->
      exists out tail, encodeStatTranslationPatch t = Returns out /\ data = out ++ tail /\ (length tail <= 1)%nat).
Proof.
  destruct t as [fv tv fs ts ps]. cbn [fromVersion toVersion patches fromCoreVersionHash toCoreVersionHash]. intros Bf Bt Hps Hf Lf -> Ht Lt -> Hd.
  pose proof (encode_wire fv tv fh th ps Bf Bt Hf Ht Lf Lt Hps) as He. rewrite He. split; [|split].
  - eexists. split; [done|]. rewrite <- (app_nil_r (translation_wire _ _ _ _ _)). apply parse_wire; cbn; auto; lia.
  - unfold parseStatTranslationPatch. destruct (Nat.ltb_spec (length data) 67) as [|Hl]; [done|].
    destruct (Z.eqb_spec (byte_at data 0) UPGRADE_MAGIC) as [Em|]; [|done]. cbn [negb].
    destruct (parse_segments (length data) data 67 []) as [[r|[c m]]|] eqn:Ep; [|done..]. cbn [mbind option_bind]. intros E.
    assert (Hr : r = ps /\ byte_at data 1 = fv /\ byte_at data 2 = tv /\ u8_slice data 3 32 = fh /\ u8_slice data 35 32 = th).
    { assert (E' : forall t1 t2, Some (UpgradeParseSuccess t1) = Some (UpgradeParseSuccess t2) -> t1 = t2) by congruence. apply E' in E.
      pose proof (f_equal fromVersion E) as E1. pose proof (f_equal toVersion E) as E2. pose proof (f_equal patches E) as E5.
      pose proof (f_equal fromCoreVersionHash E) as E3. pose proof (f_equal toCoreVersionHash E) as E4. cbn [fromVersion toVersion patches fromCoreVersionHash toCoreVersionHash] in *.
      apply bytesToHex_inj in E3; [|by apply Forall_take, Forall_drop|done]. apply bytesToHex_inj in E4; [|by apply Forall_take, Forall_drop|done]. done. }
    destruct Hr as (-> & H1 & H2 & H3 & H4). apply parse_segments_inv in Ep as (ps' & tail & Eps & _ & Hdrop & Htail); [|done]. cbn in Eps. subst ps'.
    exists (translation_wire fv tv fh th ps), tail. split; [done|]. split; [|done]. unfold translation_wire. rewrite <- app_assoc, <- Hdrop.
    rewrite <- (take_drop 67 data) at 1. f_equal. rewrite <- H1, <- H2, <- H3, <- H4, <- Em. clear - Hl. unfold u8_slice, byte_at.
    destruct data as [|b0 [|b1 [|b2 data]]]; cbn in Hl; [lia..|]. cbn [take drop lookup list_lookup default from_option id app]. do 3 f_equal.
    rewrite <- (take_drop 32 (take 64 data)), take_take, skipn_firstn_comm. done.
  - intros (out & tail & [= <-] & -> & Ht'). by apply parse_wire.
Qed.

(** Parsing ends on every payload: with the payload's length as fuel the segment loop always gives a verdict. *)
Theorem parse_total (data : bytes) : exists r, parseStatTranslationPatch data = Some r.
Proof.
  unfold parseStatTranslationPatch. destruct (Nat.ltb_spec (length data) 67); [eauto|]. destruct (negb _); [eauto|].
  destruct (parse_segments_total (length data) data 67 []) as [r ->]; [lia..|]. cbn. eauto.
Qed.

Section Apply.
Context {HK : Hasher}.

Lemma applyPatch_total s p : state_ok s -> exists a, applyPatch s p false = Returns a.
Proof. intros [Hl _]. rewrite applyPatch_onto by done. eauto. Qed.

(** Each patch is accepted on the state the previous ones gave. *)
Inductive chain : CortexState -> list Patch -> CortexState -> Prop :=
  | chain_nil s : chain s [] s
  | chain_cons s p s1 ps s' : applyPatch s p false = Returns (PatchSuccess s1) -> chain s1 ps s' -> chain s (p :: ps) s'.

(** The loop either goes through or stops at the first refusal. *)
Lemma apply_patches_spec ps s n : state_ok s -> Forall wire_ok ps -> exists r, apply_patches s ps n = Returns r /\
  match r with
  | inl (s', k) => chain s ps s' /\ state_ok s' /\ k = n + Z.of_nat (length ps)
  | inr (i, c) => exists pre p post s1 e, ps = pre ++ p :: post /\ chain s pre s1
                  /\ applyPatch s1 p false = Returns (PatchFailure e) /\ code e = c /\ i = n + Z.of_nat (length pre)
  end.
Proof.
  intros Hs Hps. revert s n Hs. induction Hps as [|p ps Hp Hps IH]; intros s n Hs; cbn [apply_patches].
  { eexists. split; [done|]. split; [constructor|]. split; [done|]. cbn. lia. }
  destruct (applyPatch_total s p Hs) as [a Ea]. rewrite Ea. cbn [mbind outcome_bind]. destruct a as [s1|e].
  - destruct (IH s1 (n + 1) (applyPatch_state_ok s p false s1 Hs Hp Ea)) as (r & -> & Hr). exists r. split; [done|]. destruct r as [[s' k]|[i c]].
    + destruct Hr as (Hc & Hs' & ->). split; [by econstructor|]. split; [done|]. cbn. lia.
    + destruct Hr as (pre & q & post & s2 & e & -> & Hc & He & Hcode & ->). exists (p :: pre), q, post, s2, e. split; [done|]. split; [by econstructor|].
      split; [done|]. split; [done|]. cbn. lia.
  - eexists. split; [done|]. exists [], p, ps, s, e. split; [done|]. split; [constructor|]. split; [done|]. split; [done|]. cbn. lia.
Qed.

(** The version check of an upgrade. *)
Definition version_matches (t : StatTranslationPatch) (h : option string) : Prop :=
  match h with Some h => toLowerCase h = toLowerCase (fromCoreVersionHash t) | None => True end.

(** An upgrade of a well-formed state always gives a verdict: success with the state the whole
    chain of patches leads to, its Merkle root and their number; a version error; or the first
    patch that is refused on the state the earlier ones gave. *)
Theorem upgrade_applies_chain (s : CortexState) (t : StatTranslationPatch) (h : option string) :
  state_ok s -> Forall wire_ok (patches t) ->
  exists r, applyStatTranslationPatch s t h = Returns r /\
  match r with
  | UpgradeApplySuccess s' rt n => version_matches t h /\ chain s (patches t) s' /\ state_ok s'
      /\ (x ← merkleizeState s'; Returns (bytesToHex x)) = Returns rt /\ n = Z.of_nat (length (patches t))
  | UpgradeApplyError VERSION_HASH_MISMATCH _ => ~ version_matches t h
  | UpgradeApplyError PATCH_APPLY_ERROR _ => version_matches t h /\ exists pre p post s1 e, patches t = pre ++ p :: post
      /\ chain s pre s1 /\ applyPatch s1 p false = Returns (PatchFailure e)
  end.
Proof.
  intros Hs Hps. unfold applyStatTranslationPatch. set (b := match h with Some _ => _ | None => _ end).
  assert (Hb : b = false <-> version_matches t h).
  { unfold b, version_matches. destruct h as [h|]; [|done]. destruct (String.eqb_spec (toLowerCase h) (toLowerCase (fromCoreVersionHash t))); done. }
  destruct b; [eexists; split; [done|]; intros H; apply Hb in H; done|].
  destruct (apply_patches_spec (patches t) s 0 Hs Hps) as (r & -> & Hr). cbn [mbind outcome_bind]. destruct r as [[s' k]|[i c]].
  - destruct Hr as (Hc & Hs' & ->). rewrite merkleizeState_returns by apply Hs'. cbn [mbind outcome_bind]. eexists. split; [done|].
    split; [by apply Hb|]. split; [done|]. split; [done|]. split; [|lia]. by rewrite merkleizeState_returns by apply Hs'.
  - destruct Hr as (pre & p & post & s1 & e & Hp & Hc & He & _ & _). eexists. split; [done|]. split; [by apply Hb|]. exists pre, p, post, s1, e. done.
Qed.
End Apply.

(** ** Witnesses *)
Definition translation_w : StatTranslationPatch := mkTranslation 4 5 (bytesToHex (zeros 32)) (bytesToHex (replicate 32 7)) [patch_w].

Lemma translation_w_wire : Forall wire_ok (patches translation_w).
Proof. apply Forall_singleton, patch_w_wire_ok. Qed.

(** A stray byte after the last segment is accepted. *)
Lemma translation_roundtrip_witness :
  parseStatTranslationPatch (translation_wire 4 5 (zeros 32) (replicate 32 7) [patch_w] ++ [9]) = Some (UpgradeParseSuccess translation_w).
Proof.
  assert (Hf : bytes_ok (zeros 32)) by (apply (bool_decide_unpack _); vm_compute; reflexivity).
  assert (Ht : bytes_ok (replicate 32 7)) by (apply (bool_decide_unpack _); vm_compute; reflexivity).
  assert (Hd : bytes_ok (translation_wire 4 5 (zeros 32) (replicate 32 7) [patch_w] ++ [9])) by (apply (bool_decide_unpack _); vm_compute; reflexivity).
  assert (B4 : byte_ok 4) by (unfold byte_ok; lia). assert (B5 : byte_ok 5) by (unfold byte_ok; lia).
  apply (translation_roundtrip translation_w (zeros 32) (replicate 32 7) _ B4 B5 translation_w_wire Hf eq_refl eq_refl Ht eq_refl eq_refl Hd).
  exists (translation_wire 4 5 (zeros 32) (replicate 32 7) [patch_w]), [9]. split; [|split; [reflexivity|cbn; lia]].
  apply encode_wire; [exact B4|exact B5|exact Hf|exact Ht|reflexivity|reflexivity|exact translation_w_wire].
Defined.

Lemma upgrade_applies_chain_witness : exists r, applyStatTranslationPatch (HK:=const_hasher) zero_state translation_w None = Returns r.
Proof.
  destruct (upgrade_applies_chain (HK:=const_hasher) zero_state translation_w None zero_state_ok translation_w_wire) as (r & Hr & _).
  exists r. exact Hr.
Defined.
