(* ===== verification/EpochFrontier.v ===== *)
(** * Epoch frontier (packages/coretex/src/coordinator/epoch-frontier.ts)

    The rotating window of active hidden-evaluation queries. A frontier is
    the record of the closure's variables; [stepEpoch], [addReserveIds] and
    [exportState] are its operations. SHA-256 and [Math.pow] are parameters,
    unit counts (windows, churn rates, ages) are integers, accept averages
    are doubles; a churn rate that is NaN is [None].

    Theorems: on every run each query is in exactly one of the active set,
    the retired set and the reserve, and the counters count them; the
    interleaving loop ends and orders exactly the given ids, whatever order
    they came in; a step retires no query younger than one it keeps, retires
    at most the root-delta cap, and keeps the window full while the reserve
    lasts; a frontier restored from its exported state behaves the same. *)
From Stdlib Require Import Sorted.
From stdpp Require Import sorting.
From S2P Require Import Prelude Float JsSort.
#[local] Open Scope Z_scope.

Inductive EpochFrontierMode := off | C0 | C1 | C2 | C3 | C4.

Record EpochFrontierRuntimeState := mkRuntime {
  st_schemaVersion : string;
  st_order : list string;
  st_reservePtr : nat;
  st_active : list (string * Z);
  st_retired : list string;
  st_cumulativeActivated : Z;
  st_cumulativeRetired : Z;
  st_initialized : bool;
  st_injectedSinceLastStep : Z;
  st_ewmaAccepts : option number
}.

(** An absent field is [None]; [maxAge] of Infinity is [None]. *)
Record EpochFrontierParams := mkParams {
  evalHiddenIds : list string;
  familyOf : string -> option string;
  p_mode : option EpochFrontierMode;
  activeWindow : option Z;
  p_churnRate : option Z;
  maxAge : option Z;
  p_lowAdvancesThreshold : option number;
  lowAdvancesBumpRate : option Z;
  p_seed : option string;
  p_minChurn : option Z;
  p_maxChurn : option Z;
  p_targetAccepts : option number;
  p_headroomLowWatermark : option number;
  p_headroomHighWatermark : option number;
  p_ewmaHalfLife : option number;
  p_expectedYieldPerUnit : option number;
  p_maxRootDeltaPerEpoch : option Z;
  initialState : option EpochFrontierRuntimeState
}.

(** The destructuring defaults. *)
Definition mode (p : EpochFrontierParams) : EpochFrontierMode := default off (p_mode p).
Definition churnRate (p : EpochFrontierParams) : Z := default 4 (p_churnRate p).
Definition lowAdvancesThreshold (p : EpochFrontierParams) : number := default (of_Z 1) (p_lowAdvancesThreshold p).
Definition seed (p : EpochFrontierParams) : string := default "frontier"%string (p_seed p).
Definition minChurn (p : EpochFrontierParams) : Z := default 2 (p_minChurn p).
Definition maxChurn (p : EpochFrontierParams) : Z := default 12 (p_maxChurn p).
Definition targetAccepts (p : EpochFrontierParams) : number := default (of_Z 2) (p_targetAccepts p).
Definition headroomLowWatermark (p : EpochFrontierParams) : number := default (of_Z 1) (p_headroomLowWatermark p).
Definition headroomHighWatermark (p : EpochFrontierParams) : number := default (of_Z 3) (p_headroomHighWatermark p).
Definition ewmaHalfLife (p : EpochFrontierParams) : number := default (of_Z 3) (p_ewmaHalfLife p).
Definition expectedYieldPerUnit (p : EpochFrontierParams) : number := default (of_frac 17 100) (p_expectedYieldPerUnit p).
Definition maxRootDeltaPerEpoch (p : EpochFrontierParams) : Z := default 24 (p_maxRootDeltaPerEpoch p).

(** The variables of the closure. *)
Record EpochFrontier := mkFrontier {
  groups : list (string * list string);
  famNames : list string;
  order : list string;
  orderIdx : list (string * Z);
  K : Z;
  reservePtr : nat;
  active : list (string * Z);
  retired : list string;
  cumulativeActivated : Z;
  cumulativeRetired : Z;
  initialized : bool;
  injectedSinceLastStep : Z;
  ewmaAccepts : option number
}.

Record EpochFrontierSnapshot := mkSnapshot {
  snap_epochId : Z;
  activationSeed : string;
  activeEvalHiddenCount : Z;
  snap_activated : Z;
  snap_retired : Z;
  snap_churnRate : option Z;
  reserveRemaining : Z;
  snap_cumulativeActivated : Z;
  snap_cumulativeRetired : Z;
  activeIds : list string;
  activeRoot : string;
  reserveRoot : string;
  retiredRoot : string
}.

(** Setters for the variables the operations assign. *)
Definition set_active (a : list (string * Z)) (f : EpochFrontier) : EpochFrontier :=
  mkFrontier (groups f) (famNames f) (order f) (orderIdx f) (K f) (reservePtr f) a (retired f)
    (cumulativeActivated f) (cumulativeRetired f) (initialized f) (injectedSinceLastStep f) (ewmaAccepts f).
Definition set_ptr (n : nat) (f : EpochFrontier) : EpochFrontier :=
  mkFrontier (groups f) (famNames f) (order f) (orderIdx f) (K f) n (active f) (retired f)
    (cumulativeActivated f) (cumulativeRetired f) (initialized f) (injectedSinceLastStep f) (ewmaAccepts f).
Definition set_initialized (f : EpochFrontier) : EpochFrontier :=
  mkFrontier (groups f) (famNames f) (order f) (orderIdx f) (K f) (reservePtr f) (active f) (retired f)
    (cumulativeActivated f) (cumulativeRetired f) true (injectedSinceLastStep f) (ewmaAccepts f).
Definition set_injected (n : Z) (f : EpochFrontier) : EpochFrontier :=
  mkFrontier (groups f) (famNames f) (order f) (orderIdx f) (K f) (reservePtr f) (active f) (retired f)
    (cumulativeActivated f) (cumulativeRetired f) (initialized f) n (ewmaAccepts f).
Definition set_ewma (e : option number) (f : EpochFrontier) : EpochFrontier :=
  mkFrontier (groups f) (famNames f) (order f) (orderIdx f) (K f) (reservePtr f) (active f) (retired f)
    (cumulativeActivated f) (cumulativeRetired f) (initialized f) (injectedSinceLastStep f) e.
(** [active.set(id, epoch); cumulativeActivated++] *)
Definition activate (id : string) (epoch : Z) (f : EpochFrontier) : EpochFrontier :=
  mkFrontier (groups f) (famNames f) (order f) (orderIdx f) (K f) (reservePtr f) (jsmap_set id epoch (active f)) (retired f)
    (cumulativeActivated f + 1) (cumulativeRetired f) (initialized f) (injectedSinceLastStep f) (ewmaAccepts f).
(** [active.delete(id); retired.add(id); cumulativeRetired++] *)
Definition retire (id : string) (f : EpochFrontier) : EpochFrontier :=
  mkFrontier (groups f) (famNames f) (order f) (orderIdx f) (K f) (reservePtr f) (jsmap_delete id (active f)) (jsset_add id (retired f))
    (cumulativeActivated f) (cumulativeRetired f + 1) (initialized f) (injectedSinceLastStep f) (ewmaAccepts f).

Section Frontier.
Context (sha256_hex : string -> string) (math_pow : number -> number -> number).

(** [parseInt(hex, 16)] of a string of hex digits *)
Definition parse_hex (s : string) : Z :=
  fold_left (fun acc c => 16 * acc + default 0 (hex_value c)) (String.list_ascii_of_string s) 0.

Definition h12 (s : string) : Z := parse_hex (String.substring 0 12 (sha256_hex s)).
Definition rootHash (ids : list string) : string := ("0x" +:+ sha256_hex (join_with "|" (stableSort ids string_cmp)))%string.

(** ** The reserve order *)
Definition group_ids (ids : list string) (fam : string -> option string) : list (string * list string) :=
  fold_left (fun groups id =>
    let f := default "unknown"%string (fam id) in
    let groups := match jsmap_get f groups with Some _ => groups | None => jsmap_set f [] groups end in
    jsmap_set f (default [] (jsmap_get f groups) ++ [id]) groups) ids [].

(** [(h12(`${seed}:${a}`) - h12(`${seed}:${b}`)) || (a < b ? -1 : 1)] *)
Definition seed_cmp (seed : string) (a b : string) : Z :=
  let d := h12 (seed +:+ ":" +:+ a)%string - h12 (seed +:+ ":" +:+ b)%string in
  if d =? 0 then (if string_lt a b then -1 else 1) else d.

Definition sort_groups (seed : string) (groups : list (string * list string)) : list (string * list string) :=
  map (fun g => (g.1, stableSort g.2 (seed_cmp seed))) groups.

(** One round of the interleaving: the [i]-th id of every family that has one. *)
Definition interleave_round (groups : list (string * list string)) (fams : list string) (i : nat) : list string :=
  omap (fun f => jsmap_get f groups ≫= (fun arr => arr !! i)) fams.

(** [for (let i = 0; ; i++)], which stops after a round that pushes nothing; [None] when the fuel runs out first. *)
Fixpoint interleave_loop (fuel : nat) (groups : list (string * list string)) (fams : list string) (i : nat) (acc : list string)
  : option (list string) :=
  match fuel with
  | O => None
  | S fuel' =>
    match interleave_round groups fams i with
    | [] => Some acc
    | pushed => interleave_loop fuel' groups fams (S i) (acc ++ pushed)
    end
  end.

(** Groups, family names and the interleaved order of some ids. *)
Definition reserve_order (seed : string) (ids : list string) (fam : string -> option string)
  : option (list (string * list string) * list string * list string) :=
  let groups := sort_groups seed (group_ids ids fam) in
  let names := stableSort groups.*1 string_cmp in
  o ← interleave_loop (S (length ids)) groups names 0 [];
  Some (groups, names, o).

(** [new Map(order.map((id, i) => [id, i]))] *)
Definition index_map (order : list string) : list (string * Z) :=
  fold_left (fun m e => jsmap_set e.2 (Z.of_nat e.1) m) (imap pair order) [].

Definition SCHEMA : string := "coretex.epoch-frontier-state.v1".

(** The checks on a restored state. *)
Definition check_initial (known : list string) (st : EpochFrontierRuntimeState) : outcome unit :=
  throw_when negb (String.eqb (st_schemaVersion st) SCHEMA) with GenericError "makeEpochFrontier: unsupported initialState schema" ;;
  throw_when existsb (fun id => negb (bool_decide (id ∈ known))) (st_order st)
    with GenericError "makeEpochFrontier: initialState order contains unknown id" ;;
  throw_when existsb (fun e => negb (bool_decide (e.1 ∈ known))) (st_active st)
    with GenericError "makeEpochFrontier: initialState active contains unknown id" ;;
  throw_when existsb (fun id => negb (bool_decide (id ∈ known))) (st_retired st)
    with GenericError "makeEpochFrontier: initialState retired contains unknown id" ;;
  Returns tt.

Definition makeEpochFrontier (p : EpochFrontierParams) : outcome EpochFrontier :=
  match reserve_order (seed p) (evalHiddenIds p) (familyOf p) with
  | None => Throws (GenericError "interleave: out of fuel")
  | Some (groups, famNames, order0) =>
    order ← (match initialState p with
             | None => Returns order0
             | Some st => _ ← check_initial (evalHiddenIds p) st; Returns (st_order st)
             end);
    let n := Z.of_nat (length order) in
    let K := Z.min (default n (activeWindow p)) n in
    Returns (match initialState p with
      | None => mkFrontier groups famNames order (index_map order) K 0 [] [] 0 0 false 0 None
      | Some st => mkFrontier groups famNames order (index_map order) K (st_reservePtr st)
          (fold_left (fun m e => jsmap_set e.1 e.2 m) (st_active st) [])
          (fold_left (fun s id => jsset_add id s) (st_retired st) [])
          (st_cumulativeActivated st) (st_cumulativeRetired st) (st_initialized st) (st_injectedSinceLastStep st) (st_ewmaAccepts st)
      end)
  end.

(** ** Rotation *)

(** The loop of [activateNext] over what is left of the order. *)
Fixpoint activate_loop (n epoch : Z) (rest : list string) (a : Z) (f : EpochFrontier) : Z * EpochFrontier :=
  match rest with
  | [] => (a, f)
  | id :: rest' =>
    if a <? n then
      let f := set_ptr (S (reservePtr f)) f in
      if bool_decide (id ∉ (active f).*1) && bool_decide (id ∉ retired f)
      then activate_loop n epoch rest' (a + 1) (activate id epoch f)
      else activate_loop n epoch rest' a f
    else (a, f)
  end.
Definition activateNext (n epoch : Z) (f : EpochFrontier) : Z * EpochFrontier :=
  activate_loop n epoch (drop (reservePtr f) (order f)) 0 f.

(** Oldest activation first, then reserve order; an id with no position compares as NaN, which sorts as equal. *)
Definition age_cmp (idx : list (string * Z)) (x y : string * Z) : Z :=
  let d := x.2 - y.2 in
  if d =? 0 then match jsmap_get x.1 idx, jsmap_get y.1 idx with Some i, Some j => i - j | _, _ => 0 end else d.

Definition retireOldest (n : option Z) (f : EpochFrontier) : Z * EpochFrontier :=
  let sorted := stableSort (active f) (age_cmp (orderIdx f)) in
  let chosen := take (Z.to_nat (default 0 n)) sorted in
  (Z.of_nat (length chosen), fold_left (fun f e => retire e.1 f) chosen f).

Definition snapshot (p : EpochFrontierParams) (epoch activated ret : Z) (rate : option Z) (f : EpochFrontier) : EpochFrontierSnapshot :=
  mkSnapshot epoch (seed p) (Z.of_nat (length (active f))) activated ret rate
    (Z.of_nat (length (order f)) - Z.of_nat (reservePtr f)) (cumulativeActivated f) (cumulativeRetired f) (active f).*1
    (rootHash (active f).*1) (rootHash (drop (reservePtr f) (order f))) (rootHash (retired f)).

Definition ewmaAlpha (p : EpochFrontierParams) : number :=
  dsub (of_Z 1) (math_pow (of_frac 1 2) (ddiv (of_Z 1) (math_max (of_frac 1 2) (ewmaHalfLife p)))).

(** [Math.min(maxChurn, Math.max(minChurn, Math.ceil(x)))]; [None] is NaN. *)
Definition clamp_churn (p : EpochFrontierParams) (x : number) : option Z :=
  match x with
  | S754_nan => None
  | S754_infinity neg => Some (if neg then Z.min (maxChurn p) (minChurn p) else maxChurn p)
  | S754_zero _ => Some (Z.min (maxChurn p) (Z.max (minChurn p) 0))
  | S754_finite s m e => Some (Z.min (maxChurn p) (Z.max (minChurn p) (- floor_dyadic (- cond_Zopp s (Zpos m)) e)))
  end.

(** The rate before the caps, from the updated average. *)
Definition base_rate (p : EpochFrontierParams) (f : EpochFrontier) (prevHonestAccepts prevQualityAttempts : option number) : option Z :=
  match mode p with
  | C1 => Some (churnRate p)
  | C2 => Some (match prevHonestAccepts with
                | Some h => if dlt h (lowAdvancesThreshold p) then default (churnRate p * 2) (lowAdvancesBumpRate p) else churnRate p
                | None => churnRate p
                end)
  | C4 => Some (minChurn p)
  | m =>
    if match m, prevQualityAttempts with C3, Some q => deq q (of_Z 0) | _, _ => false end then
      Some (if 0 <? injectedSinceLastStep f then Z.min (maxChurn p) (Z.max (minChurn p) (injectedSinceLastStep f)) else 0)
    else
      let recent := default (targetAccepts p) (ewmaAccepts f) in
      let deficit := dsub (targetAccepts p) recent in
      if dle recent (headroomLowWatermark p) then
        clamp_churn p (ddiv (math_max (of_Z 0) deficit) (math_max (of_frac 1 1000000) (expectedYieldPerUnit p)))
      else if dle (headroomHighWatermark p) recent then Some 0
      else Some (minChurn p)
  end.

(** The injection floor and the two caps. *)
Definition capped_rate (p : EpochFrontierParams) (f : EpochFrontier) (rate : option Z) : option Z :=
  r ← rate;
  let r := match mode p with
           | C3 => if 0 <? injectedSinceLastStep f
                   then Z.max r (Z.min (maxChurn p) (Z.max (minChurn p) (injectedSinceLastStep f))) else r
           | _ => r end in
  let r := Z.min r (maxRootDeltaPerEpoch p) in
  Some (Z.min r (Z.max 0 (Z.of_nat (length (order f)) - Z.of_nat (reservePtr f)))).

(** [if (Number.isFinite(maxAge))]: retire what has reached its age. *)
Definition retire_aged (p : EpochFrontierParams) (epoch : Z) (f : EpochFrontier) : Z * EpochFrontier :=
  match maxAge p with
  | None => (0, f)
  | Some m =>
    let aged := (filter (fun e => m <= epoch - e.2) (active f)).*1 in
    (Z.of_nat (length aged), fold_left (fun f id => retire id f) aged f)
  end.

Definition update_ewma (p : EpochFrontierParams) (prevHonestAccepts : option number) (f : EpochFrontier) : EpochFrontier :=
  match prevHonestAccepts with
  | None => f
  | Some h => set_ewma (Some (match ewmaAccepts f with
      | None => h
      | Some e => dadd (dmul (ewmaAlpha p) h) (dmul (dsub (of_Z 1) (ewmaAlpha p)) e)
      end)) f
  end.

Definition stepEpoch (p : EpochFrontierParams) (epoch : Z) (prevHonestAccepts prevQualityAttempts : option number) (f : EpochFrontier)
  : EpochFrontierSnapshot * EpochFrontier :=
  if negb (initialized f) then
    let '(a, f) := activateNext (K f) epoch (set_initialized f) in
    let f := set_injected 0 f in
    (snapshot p epoch a 0 (Some 0) f, f)
  else
    let '(ret, f) := retire_aged p epoch f in
    match mode p with
    | off | C0 =>
      let '(a, f) := activateNext ret epoch f in
      let f := set_injected 0 f in
      (snapshot p epoch a ret (Some 0) f, f)
    | _ =>
      let f := update_ewma p prevHonestAccepts f in
      let rate := capped_rate p f (base_rate p f prevHonestAccepts prevQualityAttempts) in
      let '(r, f) := retireOldest rate f in
      let ret := ret + r in
      let '(a, f) := activateNext ret epoch f in
      let f := set_injected 0 f in
      (snapshot p epoch a ret rate f, f)
    end.

(** ** New reserve ids *)
Definition addReserveIds (p : EpochFrontierParams) (newIds : list string) (familyOfFn : string -> option string) (f : EpochFrontier)
  : outcome (Z * EpochFrontier) :=
  let unseen := filter (fun id => id ∉ (active f).*1 /\ id ∉ retired f /\ id ∉ (orderIdx f).*1) newIds in
  if bool_decide (unseen = []) then Returns (0, f)
  else match reserve_order (seed p) unseen familyOfFn with
  | None => Throws (GenericError "interleave: out of fuel")
  | Some (newByFam, newFamNames, segment) =>
    let order' := take (reservePtr f) (order f) ++ segment ++ drop (reservePtr f) (order f) in
    let famNames' := stableSort (fold_left (fun l n => if bool_decide (n ∈ l) then l else l ++ [n]) newFamNames (famNames f)) string_cmp in
    let groups' := fold_left (fun g e => jsmap_set e.1 (default [] (jsmap_get e.1 g) ++ e.2) g) newByFam (groups f) in
    Returns (Z.of_nat (length unseen),
      mkFrontier groups' famNames' order' (index_map order') (K f) (reservePtr f) (active f) (retired f)
        (cumulativeActivated f) (cumulativeRetired f) (initialized f)
        (injectedSinceLastStep f + Z.of_nat (length unseen)) (ewmaAccepts f))
  end.

Definition exportState (f : EpochFrontier) : EpochFrontierRuntimeState :=
  mkRuntime SCHEMA (order f) (reservePtr f) (active f) (retired f) (cumulativeActivated f) (cumulativeRetired f)
    (initialized f) (injectedSinceLastStep f) (ewmaAccepts f).

(** ** The launch frontier *)
Record CorpusEventLike := mkCorpusEvent { ce_id : string; ce_split : option string; ce_logicalFamily : option string; ce_family : option string }.

(** The signed profile's block; [None] when churn is absent. *)
Definition launch_params (fp : EpochFrontierParams) (events : list CorpusEventLike) : EpochFrontierParams :=
  let evalHidden := filter (fun e => ce_split e = Some "eval_hidden"%string) events in
  let famById := fold_left (fun m e =>
    jsmap_set (ce_id e) (match ce_logicalFamily e with Some l => l | None => default "unknown"%string (ce_family e) end) m) evalHidden [] in
  mkParams (map ce_id evalHidden) (fun id => Some (default "unknown"%string (jsmap_get id famById)))
    (p_mode fp) (activeWindow fp) None (maxAge fp) None None (p_seed fp) (p_minChurn fp) (p_maxChurn fp) (p_targetAccepts fp)
    (p_headroomLowWatermark fp) (p_headroomHighWatermark fp) (p_ewmaHalfLife fp) (p_expectedYieldPerUnit fp) (p_maxRootDeltaPerEpoch fp) None.

Definition makeLaunchFrontier (fp : option EpochFrontierParams) (events : list CorpusEventLike) : outcome (option EpochFrontier) :=
  match fp with
  | None => Returns None
  | Some fp =>
    match p_mode fp with
    | Some off => Returns None
    | _ => f ← makeEpochFrontier (launch_params fp events); Returns (Some f)
    end
  end.

Definition DEFAULT_EPOCH_FRONTIER_PROFILE : EpochFrontierParams :=
  mkParams [] (fun _ => None) (Some C3) (Some 96) None None None None (Some "frontier"%string) (Some 2) (Some 12) (Some (of_Z 2))
    (Some (of_Z 1)) (Some (of_Z 3)) (Some (of_Z 3)) (Some (of_frac 17 100)) (Some 24) None.
(** ** The reserve order is a permutation of the ids *)
Definition arrays (groups : list (string * list string)) (fams : list string) : list (list string) :=
  map (fun f => default [] (jsmap_get f groups)) fams.

Lemma round_arrays groups fams i : interleave_round groups fams i = omap (fun arr => arr !! i) (arrays groups fams).
Proof.
  induction fams as [|f fams IH]; [done|]. unfold interleave_round, arrays in *. cbn [map omap list_omap]. rewrite IH.
  by destruct (jsmap_get f groups).
Qed.

Lemma round_step {A} (arrs : list (list A)) i :
  concat (map (drop i) arrs) ≡ₚ omap (fun arr => arr !! i) arrs ++ concat (map (drop (S i)) arrs).
Proof.
  induction arrs as [|arr arrs IH]; [done|]. cbn [map concat omap list_omap]. rewrite IH. destruct (arr !! i) as [x|] eqn:E.
  - rewrite (drop_S arr x i E). cbn [app]. constructor. solve_Permutation.
  - apply lookup_ge_None in E. rewrite !drop_ge by lia. done.
Qed.

Lemma interleave_loop_total fuel groups fams i acc : (length (concat (map (drop i) (arrays groups fams))) < fuel)%nat ->
  exists o, interleave_loop fuel groups fams i acc = Some o /\ o ≡ₚ acc ++ concat (map (drop i) (arrays groups fams)).
Proof.
  revert i acc. induction fuel as [|fuel IH]; intros i acc Hf; [lia|]. cbn [interleave_loop]. rewrite round_arrays.
  pose proof (round_step (arrays groups fams) i) as Hr. pose proof (Permutation_length Hr) as Hl. rewrite length_app in Hl.
  destruct (omap _ (arrays groups fams)) as [|x pushed] eqn:E.
  - exists acc. split; [done|]. assert (Hz : concat (map (drop i) (arrays groups fams)) = []); [|by rewrite Hz, app_nil_r].
    rewrite <- E in Hr. clear - E. revert E. induction (arrays groups fams) as [|arr arrs IH]; [done|]. cbn [omap list_omap map concat].
    destruct (arr !! i) eqn:Ea; [done|]. intros H. rewrite IH by done. apply lookup_ge_None in Ea. by rewrite drop_ge.
  - destruct (IH (S i) (acc ++ x :: pushed)) as (o & -> & Ho); [cbn in Hl; lia|]. exists o. split; [done|]. rewrite Ho, Hr. solve_Permutation.
Qed.

(** What a family's array holds. *)
Definition fam_of (fam : string -> option string) (id : string) : string := default "unknown"%string (fam id).

Lemma group_step (f id : string) (groups : list (string * list string)) :
  let groups1 := match jsmap_get f groups with Some _ => groups | None => jsmap_set f [] groups end in
  jsmap_set f (default [] (jsmap_get f groups1) ++ [id]) groups1 = jsmap_set f (default [] (jsmap_get f groups) ++ [id]) groups.
Proof.
  destruct (jsmap_get f groups) as [arr|] eqn:E; cbv zeta; [by rewrite E|]. rewrite jsmap_get_set, decide_True by done. cbn [default].
  revert E. induction groups as [|[k v] groups IH]; cbn [jsmap_get jsmap_set]; [by rewrite decide_True|].
  case_decide; [done|]. intros E. cbn [jsmap_set]. rewrite decide_False by done. f_equal. by apply IH.
Qed.

Lemma group_ids_fold ids fam : group_ids ids fam =
  fold_left (fun groups id => jsmap_set (fam_of fam id) (default [] (jsmap_get (fam_of fam id) groups) ++ [id]) groups) ids [].
Proof.
  unfold group_ids. generalize ([] : list (string * list string)). induction ids as [|id ids IH]; intros g; [done|]. cbn [fold_left].
  rewrite <- IH. f_equal. apply group_step.
Qed.

Definition family_ids (fam : string -> option string) (f : string) (ids : list string) : list string := filter (fun id => fam_of fam id = f) ids.

Lemma group_ids_spec ids fam : let g := group_ids ids fam in
  NoDup g.*1 /\ (forall f, default [] (jsmap_get f g) = family_ids fam f ids) /\ concat g.*2 ≡ₚ ids
  /\ forall f, f ∈ g.*1 <-> exists id, id ∈ ids /\ fam_of fam id = f.
Proof.
  cbv zeta. rewrite group_ids_fold. induction ids as [|id ids IH] using rev_ind.
  { split; [constructor|]. split; [done|]. split; [done|]. intros f. cbn. split; [by intros ?%elem_of_nil|intros (? & ?%elem_of_nil & _); done]. }
  rewrite fold_left_app. cbn [fold_left]. set (g := fold_left _ ids []) in *. destruct IH as (Hnd & Hget & Hc & Hk).
  split; [by apply jsmap_set_NoDup|]. split; [|split].
  - intros f. rewrite jsmap_get_set. unfold family_ids. rewrite filter_app. case_decide as E.
    + subst f. cbn [default]. rewrite Hget, filter_cons_True by done. done.
    + rewrite filter_cons_False by congruence. rewrite filter_nil, app_nil_r. apply Hget.
  - rewrite <- Hc. destruct (jsmap_get (fam_of fam id) g) as [arr|] eqn:E.
    + destruct (jsmap_get_split _ _ _ E) as (a & b & Eg & _ & Hset). rewrite Hset. cbn [default]. rewrite Eg, !fmap_app, !concat_app. csimpl.
      solve_Permutation.
    + apply jsmap_get_None in E. cbn [default app]. rewrite (jsmap_set_fresh _ _ _ E), fmap_app, concat_app. done.
  - intros f. rewrite jsmap_set_keys. case_decide as Hin; rewrite ?elem_of_app, ?list_elem_of_singleton, Hk.
    + setoid_rewrite elem_of_app. setoid_rewrite list_elem_of_singleton. split; [naive_solver|].
      intros (x & [Hx| ->] & <-); [eauto|]. by apply Hk.
    + setoid_rewrite elem_of_app. setoid_rewrite list_elem_of_singleton. naive_solver.
Qed.

Lemma arrays_keys (g : list (string * list string)) : NoDup g.*1 -> arrays g g.*1 = g.*2.
Proof.
  intros Hnd. unfold arrays. change (map ?f ?l) with (f <$> l). rewrite <- list_fmap_compose. apply list_fmap_ext.
  intros i [k v] Hi. cbn. apply list_elem_of_lookup_2 in Hi. apply jsmap_get_elem in Hi; [|done]. by rewrite Hi.
Qed.

Lemma sort_groups_keys s g : (sort_groups s g).*1 = g.*1.
Proof. unfold sort_groups. change (map ?f ?l) with (f <$> l). rewrite <- list_fmap_compose. by apply list_fmap_ext. Qed.

Lemma sort_groups_get s g f : jsmap_get f (sort_groups s g) = (fun arr => stableSort arr (seed_cmp s)) <$> jsmap_get f g.
Proof. induction g as [|[k v] g IH]; [done|]. cbn [sort_groups map jsmap_get fst snd]. by case_decide. Qed.

Lemma sort_groups_concat s g : concat (sort_groups s g).*2 ≡ₚ concat g.*2.
Proof. induction g as [|[k v] g IH]; [done|]. unfold sort_groups in *. csimpl. by rewrite stableSort_perm, IH. Qed.

Lemma map_drop_0 {A} (l : list (list A)) : map (drop 0) l = l.
Proof. induction l as [|x l IH]; [done|]. cbn [map]. by rewrite IH, drop_0. Qed.

Lemma reserve_order_perm s ids fam : exists g names o, reserve_order s ids fam = Some (g, names, o) /\ o ≡ₚ ids.
Proof.
  unfold reserve_order. destruct (group_ids_spec ids fam) as (Hnd & _ & Hc & _).
  set (g := sort_groups s (group_ids ids fam)). set (names := stableSort g.*1 string_cmp).
  assert (Ha : concat (arrays g names) ≡ₚ ids).
  { assert (Hp : arrays g names ≡ₚ g.*2).
    { unfold names, arrays. rewrite stableSort_perm. fold (arrays g g.*1). rewrite arrays_keys; [done|]. unfold g. by rewrite sort_groups_keys. }
    rewrite Hp. unfold g. by rewrite sort_groups_concat. }
  destruct (interleave_loop_total (S (length ids)) g names 0 []) as (o & -> & Ho).
  { rewrite map_drop_0, Ha. lia. }
  rewrite map_drop_0, Ha in Ho. eexists _, _, _. split; [done|]. done.
Qed.

(** ** The order depends only on the set of ids *)

(** The comparator on distinct ids, made reflexive. *)
Definition seed_le (s : string) (a b : string) : Z := if decide (a = b) then 0 else seed_cmp s a b.

#[local] Instance seed_le_preorder s : CmpPreorder (seed_le s).
Proof.
  unfold seed_le, seed_cmp. constructor.
  - intros a b. repeat case_decide; try lia. destruct (Z.eqb_spec (h12 (s +:+ ":" +:+ a) - h12 (s +:+ ":" +:+ b)) 0), (Z.eqb_spec (h12 (s +:+ ":" +:+ b) - h12 (s +:+ ":" +:+ a)) 0); try lia.
    destruct (string_lt a b) eqn:E1; [lia|]. destruct (string_lt b a) eqn:E2; [lia|]. by apply string_lt_total in E1.
  - intros a b c. destruct (decide (a = b)) as [->|Hab]; [done|]. destruct (decide (b = c)) as [->|Hbc]; [by rewrite decide_False|].
    destruct (decide (a = c)) as [->|Hac]; [lia|].
    generalize (h12 (s +:+ ":" +:+ a)) (h12 (s +:+ ":" +:+ b)) (h12 (s +:+ ":" +:+ c)). intros x y z.
    destruct (Z.eqb_spec (x - y) 0), (Z.eqb_spec (y - z) 0), (Z.eqb_spec (x - z) 0); try lia.
    destruct (string_lt a b) eqn:E1, (string_lt b c) eqn:E2; try lia. unfold string_lt in *. by rewrite (chars_lt_trans _ _ _ E1 E2).
Qed.

Lemma seed_le_antisym s a b : seed_le s a b <= 0 -> seed_le s b a <= 0 -> a = b.
Proof.
  unfold seed_le, seed_cmp. destruct (decide (a = b)) as [|Hab]; [done|]. rewrite decide_False by done.
  generalize (h12 (s +:+ ":" +:+ a)) (h12 (s +:+ ":" +:+ b)). intros x y.
  destruct (Z.eqb_spec (x - y) 0), (Z.eqb_spec (y - x) 0); try lia. destruct (string_lt a b) eqn:E1, (string_lt b a) eqn:E2; try lia.
  apply string_lt_asym in E1. congruence.
Qed.

Lemma sort_insert_ext {T} (c1 c2 : T -> T -> Z) x l : (forall y, y ∈ l -> c1 x y = c2 x y) -> sort_insert c1 x l = sort_insert c2 x l.
Proof.
  induction l as [|y l IH]; intros H; [done|]. cbn [sort_insert]. rewrite H by (by left). destruct (_ <=? _); [done|]. f_equal. apply IH.
  intros z Hz. apply H. by right.
Qed.

Lemma seed_sort_le s l : NoDup l -> stableSort l (seed_cmp s) = stableSort l (seed_le s).
Proof.
  induction 1 as [|x l Hx Hl IH]; [done|]. cbn [stableSort foldr]. fold (stableSort l (seed_cmp s)) (stableSort l (seed_le s)). rewrite IH.
  apply sort_insert_ext. intros y Hy. rewrite stableSort_perm in Hy. unfold seed_le. rewrite decide_False by congruence. done.
Qed.

Lemma seed_sort_unique s l1 l2 : NoDup l1 -> l1 ≡ₚ l2 -> stableSort l1 (seed_cmp s) = stableSort l2 (seed_cmp s).
Proof.
  intros H1 Hp. rewrite !seed_sort_le by (by rewrite <- ?Hp). apply stableSort_unique; [apply _|done|]. intros a b _ _. apply seed_le_antisym.
Qed.

Lemma interleave_loop_ext fuel g1 g2 fams i acc : (forall f, f ∈ fams -> jsmap_get f g1 = jsmap_get f g2) ->
  interleave_loop fuel g1 fams i acc = interleave_loop fuel g2 fams i acc.
Proof.
  intros H. revert i acc. induction fuel as [|fuel IH]; intros i acc; [done|]. cbn [interleave_loop].
  assert (E : interleave_round g1 fams i = interleave_round g2 fams i).
  { unfold interleave_round. clear IH. induction fams as [|f fams IHf]; [done|]. cbn [omap list_omap]. rewrite H by (by left).
    rewrite IHf; [done|]. intros f' Hf'. apply H. by right. }
  rewrite E. by destruct (interleave_round g2 fams i).
Qed.

(** Two group tables of permuted ids agree, families sorted. *)
Lemma groups_perm s ids1 ids2 fam : NoDup ids1 -> ids1 ≡ₚ ids2 ->
  let g1 := sort_groups s (group_ids ids1 fam) in let g2 := sort_groups s (group_ids ids2 fam) in
  stableSort g1.*1 string_cmp = stableSort g2.*1 string_cmp /\ forall f, f ∈ g1.*1 -> jsmap_get f g1 = jsmap_get f g2.
Proof.
  intros Hnd Hp. cbv zeta. rewrite !sort_groups_keys. destruct (group_ids_spec ids1 fam) as (N1 & G1 & _ & K1), (group_ids_spec ids2 fam) as (N2 & G2 & _ & K2).
  assert (Hk : (group_ids ids1 fam).*1 ≡ₚ (group_ids ids2 fam).*1).
  { apply NoDup_Permutation; [done..|]. intros f. rewrite K1, K2. by setoid_rewrite Hp. }
  split; [apply stableSort_unique; [apply _|done|]; intros a b _ _; apply string_cmp_antisym|].
  intros f Hf. rewrite !sort_groups_get.
  assert (Hf2 : f ∈ (group_ids ids2 fam).*1) by (by rewrite <- Hk).
  specialize (G1 f). specialize (G2 f).
  destruct (jsmap_get f (group_ids ids1 fam)) as [a1|] eqn:E1; [|by apply jsmap_get_None in E1].
  destruct (jsmap_get f (group_ids ids2 fam)) as [a2|] eqn:E2; [|by apply jsmap_get_None in E2].
  cbn in *. subst a1 a2. f_equal. apply seed_sort_unique; [by apply NoDup_filter|]. unfold family_ids. by rewrite Hp.
Qed.

Lemma reserve_order_set s ids1 ids2 fam : NoDup ids1 -> ids1 ≡ₚ ids2 ->
  (fun r => r.2) <$> reserve_order s ids1 fam = (fun r => r.2) <$> reserve_order s ids2 fam.
Proof.
  intros Hnd Hp. destruct (groups_perm s ids1 ids2 fam Hnd Hp) as [Hn Hg]. unfold reserve_order. rewrite (Permutation_length Hp), Hn.
  rewrite (interleave_loop_ext _ _ (sort_groups s (group_ids ids2 fam))); [by destruct (interleave_loop _ _ _ _ _)|].
  intros f Hf. apply Hg. by rewrite <- Hn, stableSort_perm in Hf.
Qed.

(** ** Rotation *)
Record frontier_ok (f : EpochFrontier) : Prop := {
  ok_order : NoDup (order f);
  ok_index : orderIdx f = index_map (order f);
  ok_ptr : (reservePtr f <= length (order f))%nat;
  ok_split : (active f).*1 ++ retired f ≡ₚ take (reservePtr f) (order f);
  ok_activated : cumulativeActivated f = Z.of_nat (length (active f)) + Z.of_nat (length (retired f));
  ok_retired : cumulativeRetired f = Z.of_nat (length (retired f))
}.

(** The ids still in reserve. *)
Definition reserve (f : EpochFrontier) : list string := drop (reservePtr f) (order f).

Lemma ok_partition f : frontier_ok f -> (active f).*1 ++ retired f ++ reserve f ≡ₚ order f.
Proof. intros H. rewrite app_assoc, (ok_split _ H). unfold reserve. by rewrite take_drop. Qed.

Lemma ok_nodup f : frontier_ok f -> NoDup (active f).*1 /\ NoDup (retired f) /\ NoDup (reserve f)
  /\ (forall x, x ∈ (active f).*1 -> x ∉ retired f /\ x ∉ reserve f) /\ (forall x, x ∈ retired f -> x ∉ reserve f).
Proof.
  intros H. pose proof (ok_order _ H) as Hn. rewrite <- (ok_partition f H) in Hn. apply NoDup_app in Hn as (H1 & H2 & Hn).
  apply NoDup_app in Hn as (H3 & H4 & H5). split; [done|]. split; [done|]. split; [done|]. split; [|done]. intros x Hx.
  specialize (H2 x Hx). set_solver.
Qed.

Definition with_rotation (f : EpochFrontier) (ptr : nat) (act : list (string * Z)) (ret : list string) (ca cr : Z) : EpochFrontier :=
  mkFrontier (groups f) (famNames f) (order f) (orderIdx f) (K f) ptr act ret ca cr (initialized f) (injectedSinceLastStep f) (ewmaAccepts f).

Lemma activate_loop_eq n epoch rest a f : NoDup rest -> (forall x, x ∈ rest -> x ∉ (active f).*1 /\ x ∉ retired f) ->
  let d := Nat.min (Z.to_nat (n - a)) (length rest) in
  activate_loop n epoch rest a f = (a + Z.of_nat d,
    with_rotation f (reservePtr f + d) (active f ++ map (fun id => (id, epoch)) (take d rest)) (retired f)
      (cumulativeActivated f + Z.of_nat d) (cumulativeRetired f)).
Proof.
  revert a f. induction rest as [|id rest IH]; intros a f Hnd Hfresh; cbn [activate_loop].
  { rewrite Nat.min_0_r. cbn. destruct f. unfold with_rotation. cbn. by rewrite app_nil_r, Nat.add_0_r, !Z.add_0_r. }
  destruct (Z.ltb_spec a n) as [Hlt|Hge].
  2: { replace (Z.to_nat (n - a)) with 0%nat by lia. cbn. destruct f. unfold with_rotation. cbn. by rewrite app_nil_r, Nat.add_0_r, !Z.add_0_r. }
  apply NoDup_cons in Hnd as [Hni Hnd]. destruct (Hfresh id ltac:(by left)) as [Ha Hr].
  cbn [active retired set_ptr]. rewrite !bool_decide_true by done. cbn [andb]. rewrite IH; [|done|].
  - assert (E : Nat.min (Z.to_nat (n - a)) (length (id :: rest)) = S (Nat.min (Z.to_nat (n - (a + 1))) (length rest))) by (cbn [length]; lia).
    rewrite E. cbv zeta. cbn [take map]. f_equal; [lia|]. unfold with_rotation, activate, set_ptr.
    cbn [groups famNames order orderIdx K reservePtr active retired cumulativeActivated cumulativeRetired initialized injectedSinceLastStep ewmaAccepts].
    rewrite (jsmap_set_fresh _ _ _ Ha), <- app_assoc. cbn [app]. f_equal; lia.
  - intros x Hx. cbn [active retired activate set_ptr]. rewrite (jsmap_set_fresh _ _ _ Ha), fmap_app. destruct (Hfresh x ltac:(by right)).
    split; [|done]. csimpl. set_solver.
Qed.

Lemma activateNext_eq n epoch f : frontier_ok f ->
  let d := Nat.min (Z.to_nat n) (length (reserve f)) in
  activateNext n epoch f = (Z.of_nat d,
    with_rotation f (reservePtr f + d) (active f ++ map (fun id => (id, epoch)) (take d (reserve f))) (retired f)
      (cumulativeActivated f + Z.of_nat d) (cumulativeRetired f)).
Proof.
  intros H. destruct (ok_nodup f H) as (_ & _ & Hn & Ha & Hr). unfold activateNext. fold (reserve f). cbv zeta.
  rewrite activate_loop_eq; [by rewrite Z.sub_0_r|done|]. intros x Hx. split; intros Hx'; [by apply (Ha x Hx')|by apply (Hr x Hx')].
Qed.

Lemma activateNext_ok n epoch f : frontier_ok f -> frontier_ok (activateNext n epoch f).2.
Proof.
  intros H. rewrite activateNext_eq by done. cbn [snd]. set (d := Nat.min _ _). unfold with_rotation. destruct H as [H1 H2 H3 H4 H5 H6].
  assert (Hd : (d <= length (reserve f))%nat) by lia. unfold reserve in *. rewrite length_drop in Hd.
  constructor; cbn [order orderIdx reservePtr active retired cumulativeActivated cumulativeRetired]; try done; [lia| |].
  - rewrite <- take_take_drop, <- H4, fmap_app.
    assert (E : (map (fun id => (id, epoch)) (take d (drop (reservePtr f) (order f)))).*1 = take d (drop (reservePtr f) (order f))).
    { change (map ?g ?l) with (g <$> l). rewrite <- list_fmap_compose. apply list_fmap_id. }
    rewrite E. solve_Permutation.
  - rewrite length_app, length_map, length_take, length_drop. lia.
Qed.

(** Retiring some active ids. *)
Definition retire_all (ids : list string) (f : EpochFrontier) : EpochFrontier :=
  with_rotation f (reservePtr f) (filter (fun e => e.1 ∉ ids) (active f)) (retired f ++ ids) (cumulativeActivated f) (cumulativeRetired f + Z.of_nat (length ids)).

Lemma retire_fold ids f : NoDup ids -> (forall x, x ∈ ids -> x ∉ retired f) ->
  fold_left (fun f id => retire id f) ids f = retire_all ids f.
Proof.
  revert f. induction ids as [|id ids IH]; intros f Hnd Hr; cbn [fold_left].
  { unfold retire_all, with_rotation. cbn. destruct f; cbn. rewrite app_nil_r, Z.add_0_r. f_equal. symmetry. apply filter_keeps.
    intros x _. apply not_elem_of_nil. }
  apply NoDup_cons in Hnd as [Hni Hnd]. rewrite IH; [|done|].
  - unfold retire_all, with_rotation, retire. cbn [groups famNames order orderIdx K reservePtr active retired cumulativeActivated cumulativeRetired initialized injectedSinceLastStep ewmaAccepts length].
    unfold jsset_add. rewrite decide_False by (apply Hr; by left). rewrite <- app_assoc. cbn [app]. f_equal; [|lia].
    unfold jsmap_delete. rewrite list_filter_filter. apply list_filter_iff. intros [k v]. cbn. set_solver.
  - intros x Hx. cbn [retired retire]. rewrite elem_of_jsset_add. intros [->|Hin]; [done|]. by apply (Hr x); [right|].
Qed.

Lemma filter_keys_perm (ids : list string) (m : list (string * Z)) : NoDup m.*1 -> NoDup ids -> ids ⊆ m.*1 ->
  (filter (fun e => e.1 ∉ ids) m).*1 ++ ids ≡ₚ m.*1.
Proof.
  intros Hm Hi Hsub. assert (E : (filter (fun e => e.1 ∉ ids) m).*1 = filter (.∉ ids) m.*1).
  { clear. induction m as [|[k v] m IH]; [done|]. csimpl. rewrite !filter_cons. cbn. case_decide; csimpl; by rewrite IH. }
  rewrite E. apply NoDup_Permutation; [|done|].
  - apply NoDup_app. split; [by apply NoDup_filter|]. split; [|done]. intros x Hx%list_elem_of_filter. tauto.
  - intros x. rewrite elem_of_app, list_elem_of_filter. destruct (decide (x ∈ ids)); set_solver.
Qed.

Lemma retire_all_ok ids f : frontier_ok f -> NoDup ids -> ids ⊆ (active f).*1 -> frontier_ok (retire_all ids f).
Proof.
  intros H Hi Hsub. destruct (ok_nodup f H) as (Ha & _). pose proof (filter_keys_perm ids (active f) Ha Hi Hsub) as Hp.
  destruct H as [H1 H2 H3 H4 H5 H6]. unfold retire_all, with_rotation. constructor; cbn [order orderIdx reservePtr active retired cumulativeActivated cumulativeRetired]; try done.
  - rewrite <- H4, <- Hp. solve_Permutation.
  - apply Permutation_length in Hp. rewrite length_app, !length_fmap in Hp. rewrite length_app. lia.
  - rewrite length_app. lia.
Qed.

(** The two retirements of a step. *)
Definition aged_ids (p : EpochFrontierParams) (epoch : Z) (f : EpochFrontier) : list string :=
  match maxAge p with None => [] | Some m => (filter (fun e => m <= epoch - e.2) (active f)).*1 end.
Definition oldest_ids (n : option Z) (f : EpochFrontier) : list string :=
  (take (Z.to_nat (default 0 n)) (stableSort (active f) (age_cmp (orderIdx f)))).*1.

Lemma aged_ids_ok p epoch f : frontier_ok f -> NoDup (aged_ids p epoch f) /\ aged_ids p epoch f ⊆ (active f).*1.
Proof.
  intros H. destruct (ok_nodup f H) as (Ha & _). unfold aged_ids. destruct (maxAge p) as [m|]; [|split; [constructor|set_solver]].
  assert (Hs : (filter (fun e => m <= epoch - e.2) (active f)).*1 `sublist_of` (active f).*1) by apply fmap_sublist, sublist_filter.
  split; [by eapply sublist_NoDup|]. intros x Hx. by eapply elem_of_sublist.
Qed.

Lemma oldest_ids_ok n f : frontier_ok f -> NoDup (oldest_ids n f) /\ oldest_ids n f ⊆ (active f).*1.
Proof.
  intros H. destruct (ok_nodup f H) as (Ha & _). unfold oldest_ids. set (k := Z.to_nat _).
  assert (Hp : (stableSort (active f) (age_cmp (orderIdx f))).*1 ≡ₚ (active f).*1) by (by rewrite stableSort_perm).
  assert (Hs : (take k (stableSort (active f) (age_cmp (orderIdx f)))).*1 `sublist_of` (stableSort (active f) (age_cmp (orderIdx f))).*1)
    by apply fmap_sublist, sublist_take.
  split; [eapply sublist_NoDup; [|exact Hs]; by rewrite Hp|]. intros x Hx. rewrite <- Hp. by eapply elem_of_sublist.
Qed.

Lemma retire_aged_eq p epoch f : frontier_ok f ->
  retire_aged p epoch f = (Z.of_nat (length (aged_ids p epoch f)), retire_all (aged_ids p epoch f) f).
Proof.
  intros H. destruct (aged_ids_ok p epoch f H) as [Hn Hs]. destruct (ok_nodup f H) as (_ & _ & _ & Hd & _).
  rewrite <- retire_fold; [|done|intros x Hx; apply Hd, Hs, Hx]. unfold retire_aged, aged_ids. by destruct (maxAge p).
Qed.

Lemma retireOldest_eq n f : frontier_ok f -> retireOldest n f = (Z.of_nat (length (oldest_ids n f)), retire_all (oldest_ids n f) f).
Proof.
  intros H. destruct (oldest_ids_ok n f H) as [Hn Hs]. destruct (ok_nodup f H) as (_ & _ & _ & Hd & _).
  rewrite <- retire_fold; [|done|intros x Hx; apply Hd, Hs, Hx]. unfold retireOldest, oldest_ids. rewrite length_fmap. f_equal.
  generalize (take (Z.to_nat (default 0 n)) (stableSort (active f) (age_cmp (orderIdx f)))). intros l. clear. revert f.
  induction l as [|e l IH]; intros f; [done|]. csimpl. apply IH.
Qed.

Lemma index_map_keys (l : list string) : NoDup l -> (index_map l).*1 = l.
Proof.
  unfold index_map. induction l as [|x l IH] using rev_ind; intros H; [done|]. apply NoDup_app in H as (Hl & Hd & _).
  rewrite imap_app, fold_left_app. cbn [imap fold_left fst snd]. rewrite jsmap_set_fresh; [by rewrite fmap_app, IH|].
  rewrite IH by done. intros Hx. apply (Hd x Hx). by left.
Qed.

(** A sort whose comparator decides by a key first is sorted by the key. *)
Lemma stableSort_key {T} (key : T -> Z) (cmp : T -> T -> Z) (l : list T) :
  (forall x y, cmp x y <= 0 -> key x <= key y) -> (forall x y, 0 < cmp x y -> key y <= key x) ->
  StronglySorted (fun x y => key x <= key y) (stableSort l cmp).
Proof.
  intros Hle Hgt. induction l as [|x l IH]; cbn [stableSort foldr]; [constructor|].
  fold (stableSort l cmp). induction IH as [|y m IH IH' Hy]; cbn [sort_insert]; [repeat constructor|].
  destruct (Z.leb_spec (cmp x y) 0) as [H|H].
  - constructor; [by constructor|]. specialize (Hle x y H). constructor; [done|]. eapply Forall_impl; [exact Hy|]. cbn. lia.
  - constructor; [done|]. rewrite sort_insert_perm. constructor; [by apply Hgt|done].
Qed.

Lemma age_sorted idx l : StronglySorted (fun x y => x.2 <= y.2) (stableSort l (age_cmp idx)).
Proof.
  apply (stableSort_key (fun x => x.2)); intros x y; unfold age_cmp; destruct (Z.eqb_spec (x.2 - y.2) 0); lia.
Qed.

Lemma sorted_take_drop {T} (key : T -> Z) k (l : list T) x y : StronglySorted (fun x y => key x <= key y) l ->
  x ∈ take k l -> y ∈ drop k l -> key x <= key y.
Proof.
  intros Hs. revert k. induction Hs as [|z l Hs IH Hz]; intros k; [rewrite take_nil; by intros ?%elem_of_nil|].
  destruct k as [|k]; cbn [take drop]; [by intros ?%elem_of_nil|]. rewrite elem_of_cons. intros [->|Hx] Hy; [|by eapply IH].
  rewrite Forall_forall in Hz. apply Hz. by eapply elem_of_sublist, sublist_drop.
Qed.

(** What is retired by rank is no younger than what stays. *)
Lemma oldest_ids_oldest n f x ax y ay : frontier_ok f -> (x, ax) ∈ active f -> (y, ay) ∈ active f ->
  x ∈ oldest_ids n f -> y ∉ oldest_ids n f -> ax <= ay.
Proof.
  intros H Hx Hy Ix Iy. destruct (ok_nodup f H) as (Hn & _). unfold oldest_ids in *. set (k := Z.to_nat _) in *.
  set (sorted := stableSort (active f) (age_cmp (orderIdx f))) in *.
  assert (Hs : forall e, e ∈ active f -> e ∈ take k sorted \/ e ∈ drop k sorted).
  { intros e He. rewrite <- elem_of_app, take_drop. unfold sorted. by rewrite stableSort_perm. }
  apply list_elem_of_fmap in Ix as ([x' ax'] & -> & Ix). cbn [fst] in *.
  assert (ax' = ax) as ->.
  { assert (Hx' : (x', ax') ∈ active f) by (rewrite <- (stableSort_perm (active f) (age_cmp (orderIdx f))); by eapply elem_of_sublist, sublist_take).
    apply jsmap_get_elem in Hx, Hx'; [|done..]. congruence. }
  destruct (Hs _ Hy) as [Ht|Hd]; [exfalso; apply Iy, list_elem_of_fmap; by exists (y, ay)|].
  exact (sorted_take_drop (fun e => e.2) k sorted (x', ax) (y, ay) (age_sorted _ _) Ix Hd).
Qed.

Lemma length_oldest n f : Z.of_nat (length (oldest_ids n f)) <= Z.max 0 (default 0 n).
Proof. unfold oldest_ids. rewrite length_fmap, length_take. lia. Qed.

Lemma retire_all_app l1 l2 f : retire_all l2 (retire_all l1 f) = retire_all (l1 ++ l2) f.
Proof.
  unfold retire_all, with_rotation. cbn [groups famNames order orderIdx K reservePtr active retired cumulativeActivated cumulativeRetired initialized injectedSinceLastStep ewmaAccepts].
  rewrite list_filter_filter, <- app_assoc, length_app. f_equal; [|lia]. apply list_filter_iff. intros [k v]. cbn. set_solver.
Qed.

(** The queries a step retires and the rate it reports. *)
Definition step_rate (p : EpochFrontierParams) (epoch : Z) (h q : option number) (f : EpochFrontier) : option Z :=
  let f2 := update_ewma p h (retire_all (aged_ids p epoch f) f) in
  match mode p with off | C0 => Some 0 | _ => capped_rate p f2 (base_rate p f2 h q) end.
Definition step_ids (p : EpochFrontierParams) (epoch : Z) (h q : option number) (f : EpochFrontier) : list string :=
  let f1 := retire_all (aged_ids p epoch f) f in
  aged_ids p epoch f ++ match mode p with off | C0 => [] | _ => oldest_ids (step_rate p epoch h q f) f1 end.
Definition rotate (ret : list string) (epoch : Z) (e : option number) (f : EpochFrontier) : EpochFrontier :=
  let d := Nat.min (length ret) (length (reserve f)) in
  mkFrontier (groups f) (famNames f) (order f) (orderIdx f) (K f) (reservePtr f + d)
    (filter (fun e => e.1 ∉ ret) (active f) ++ map (fun id => (id, epoch)) (take d (reserve f))) (retired f ++ ret)
    (cumulativeActivated f + Z.of_nat d) (cumulativeRetired f + Z.of_nat (length ret)) (initialized f) 0 e.

Definition step_ewma (p : EpochFrontierParams) (h : option number) (f : EpochFrontier) : option number :=
  match mode p with off | C0 => ewmaAccepts f | _ => ewmaAccepts (update_ewma p h f) end.

Lemma activate_retired n ids epoch f : frontier_ok (retire_all ids f) -> n = Z.of_nat (length ids) ->
  (fun r => (r.1, set_injected 0 r.2)) (activateNext n epoch (retire_all ids f))
  = (Z.of_nat (Nat.min (length ids) (length (reserve f))), rotate ids epoch (ewmaAccepts f) f).
Proof. intros H ->. rewrite activateNext_eq by done. cbv zeta. rewrite Nat2Z.id. reflexivity. Qed.

Lemma ewma_ok p h f : frontier_ok f -> frontier_ok (update_ewma p h f).
Proof. intros H. unfold update_ewma. destruct h; [|done]. by destruct H. Qed.

Lemma ewma_retire p h ids f : update_ewma p h (retire_all ids f) = retire_all ids (update_ewma p h f).
Proof. unfold update_ewma. by destruct h. Qed.

Lemma step_ids_ok p epoch h q f : frontier_ok f -> NoDup (step_ids p epoch h q f) /\ step_ids p epoch h q f ⊆ (active f).*1.
Proof.
  intros H. destruct (aged_ids_ok p epoch f H) as [Hn Hs]. pose proof (retire_all_ok _ f H Hn Hs) as H1. unfold step_ids.
  destruct (oldest_ids_ok (step_rate p epoch h q f) _ H1) as [On Os].
  assert (Hsub : (active (retire_all (aged_ids p epoch f) f)).*1 ⊆ (active f).*1).
  { intros x. unfold retire_all, with_rotation. cbn [active]. rewrite !list_elem_of_fmap. intros (e & -> & He%list_elem_of_filter). exists e. tauto. }
  assert (Hdis : forall x, x ∈ aged_ids p epoch f -> x ∉ (active (retire_all (aged_ids p epoch f) f)).*1).
  { intros x Hx. unfold retire_all, with_rotation. cbn [active]. intros (e & -> & He%list_elem_of_filter)%list_elem_of_fmap. tauto. }
  destruct (mode p); rewrite ?app_nil_r; try done; (split; [apply NoDup_app; split; [done|]; split; [|done]; intros x Hx Ho; by apply (Hdis x Hx), Os|set_solver]).
Qed.

Lemma stepEpoch_eq p epoch h q f : frontier_ok f -> initialized f = true ->
  let ids := step_ids p epoch h q f in let f' := rotate ids epoch (step_ewma p h f) f in
  stepEpoch p epoch h q f
  = (snapshot p epoch (Z.of_nat (Nat.min (length ids) (length (reserve f)))) (Z.of_nat (length ids)) (step_rate p epoch h q f) f', f').
Proof.
  intros H Hi. cbv zeta. unfold stepEpoch. rewrite Hi. cbn [negb]. rewrite retire_aged_eq by done.
  destruct (aged_ids_ok p epoch f H) as [Hn Hs]. pose proof (retire_all_ok _ f H Hn Hs) as H1.
  destruct (step_ids_ok p epoch h q f H) as [Sn Ss]. pose proof (retire_all_ok _ f H Sn Ss) as HS.
  unfold step_ids, step_rate, step_ewma in *. set (f1 := retire_all (aged_ids p epoch f) f) in *. set (f2 := update_ewma p h f1) in *.
  assert (H2 : frontier_ok f2) by (by apply ewma_ok).
  assert (Ea : forall n, oldest_ids n f2 = oldest_ids n f1) by (intros n; unfold f2, update_ewma; by destruct h).
  assert (Ef : forall l, retire_all l f2 = retire_all (aged_ids p epoch f ++ l) (update_ewma p h f))
    by (intros l; unfold f2, f1; by rewrite ewma_retire, retire_all_app).
  destruct (mode p) eqn:Em; cbn [negb].
  1,2: rewrite app_nil_r in *; pose proof (activate_retired _ _ epoch f HS eq_refl) as HA;
    destruct (activateNext _ _ _) as [a f']; pose proof (f_equal fst HA) as HA1; pose proof (f_equal snd HA) as HA2; cbn [fst snd] in HA1, HA2; rewrite HA1, HA2; reflexivity.
  all: rewrite (retireOldest_eq _ f2 H2), Ea, Ef;
    set (ids := aged_ids p epoch f ++ _) in *;
    pose proof (activate_retired (Z.of_nat (length ids)) ids epoch (update_ewma p h f)) as HA;
    (rewrite <- ewma_retire in HA at 1; specialize (HA (ewma_ok p h _ HS) eq_refl));
    replace (_ + _) with (Z.of_nat (length ids)) by (unfold ids; rewrite length_app; lia);
    destruct (activateNext _ _ _) as [a f']; pose proof (f_equal fst HA) as HA1; pose proof (f_equal snd HA) as HA2; cbn [fst snd] in HA1, HA2; rewrite HA1, HA2;
    unfold update_ewma; by destruct h.
Qed.

(** ** Runs *)
Inductive reach (p : EpochFrontierParams) : EpochFrontier -> Prop :=
  | reach_make f : initialState p = None -> makeEpochFrontier p = Returns f -> reach p f
  | reach_step_epoch f epoch h q : reach p f -> reach p (stepEpoch p epoch h q f).2
  | reach_add f ids fam n f' : reach p f -> NoDup ids -> addReserveIds p ids fam f = Returns (n, f') -> reach p f'.

Lemma make_ok p f : initialState p = None -> NoDup (evalHiddenIds p) -> makeEpochFrontier p = Returns f ->
  frontier_ok f /\ initialized f = false /\ order f ≡ₚ evalHiddenIds p /\ reserve f = order f /\ active f = [].
Proof.
  intros Hst Hnd. unfold makeEpochFrontier. rewrite Hst. destruct (reserve_order_perm (seed p) (evalHiddenIds p) (familyOf p)) as (g & names & o & -> & Ho).
  cbn [mbind outcome_bind]. intros E. apply Returns_inj in E as <-. split; [|done]. constructor; cbn; try done; [by rewrite Ho|lia].
Qed.

Lemma rotate_ok ids epoch e f : frontier_ok f -> NoDup ids -> ids ⊆ (active f).*1 -> frontier_ok (rotate ids epoch e f).
Proof.
  intros H Hn Hs. pose proof (activateNext_ok (Z.of_nat (length ids)) epoch _ (retire_all_ok ids f H Hn Hs)) as H'.
  pose proof (activate_retired _ ids epoch f (retire_all_ok ids f H Hn Hs) eq_refl) as HA.
  assert (E : rotate ids epoch e f = set_ewma e (set_injected 0 (activateNext (Z.of_nat (length ids)) epoch (retire_all ids f)).2)).
  { pose proof (f_equal snd HA) as HA2. cbn [snd] in HA2. rewrite HA2. reflexivity. }
  rewrite E. destruct H'. by constructor.
Qed.

Lemma first_step_eq p epoch h q f : frontier_ok f -> initialized f = false ->
  (stepEpoch p epoch h q f).2 = set_injected 0 (activateNext (K f) epoch (set_initialized f)).2.
Proof. intros H Hi. unfold stepEpoch. rewrite Hi. cbn [negb]. by destruct (activateNext _ _ _). Qed.

Lemma stepEpoch_ok p epoch h q f : frontier_ok f -> frontier_ok (stepEpoch p epoch h q f).2.
Proof.
  intros H. destruct (initialized f) eqn:Hi.
  - rewrite stepEpoch_eq by done. cbn [snd]. destruct (step_ids_ok p epoch h q f H). by apply rotate_ok.
  - rewrite first_step_eq by done. assert (H' : frontier_ok (set_initialized f)) by (destruct H; by constructor).
    pose proof (activateNext_ok (K f) epoch _ H') as H2. destruct H2. by constructor.
Qed.

Lemma addReserveIds_ok p ids fam f n f' : frontier_ok f -> NoDup ids -> addReserveIds p ids fam f = Returns (n, f') ->
  frontier_ok f' /\ exists new, n = Z.of_nat (length new) /\ reserve f' ≡ₚ new ++ reserve f /\ (forall id, id ∈ new <-> id ∈ ids /\ id ∉ order f)
  /\ (new = [] \/ exists seg, seg ≡ₚ new /\ reserve f' = seg ++ reserve f)
  /\ active f' = active f /\ retired f' = retired f /\ initialized f' = initialized f.
Proof.
  intros H Hids. unfold addReserveIds.
  assert (Hu : forall id, (id ∉ (active f).*1 /\ id ∉ retired f /\ id ∉ (orderIdx f).*1) <-> id ∉ order f).
  { intros id. rewrite (ok_index _ H), index_map_keys by apply H. split; [tauto|]. intros Hni.
    pose proof (ok_partition f H) as Hp. assert (Ho : forall l, l ⊆ order f -> id ∉ l) by set_solver. split; [|split]; [| |done]; apply Ho; rewrite <- Hp; set_solver. }
  set (unseen := filter _ ids).
  assert (Hun : forall id, id ∈ unseen <-> id ∈ ids /\ id ∉ order f) by (intros id; unfold unseen; rewrite list_elem_of_filter, Hu; tauto).
  case_bool_decide as He.
  { intros E. apply Returns_inj in E as [= <- <-]. split; [done|]. exists []. split; [done|]. split; [done|]. split; [by rewrite <- He|]. tauto. }
  destruct (reserve_order_perm (seed p) unseen fam) as (g & names & o & -> & Ho). intros E. apply Returns_inj in E as [= <- <-].
  destruct H as [H1 H2 H3 H4 H5 H6].
  assert (Et : take (reservePtr f) (take (reservePtr f) (order f) ++ o ++ drop (reservePtr f) (order f)) = take (reservePtr f) (order f)).
  { rewrite take_app_le by (rewrite length_take; lia). rewrite take_take. by rewrite Nat.min_id. }
  assert (Ed : drop (reservePtr f) (take (reservePtr f) (order f) ++ o ++ drop (reservePtr f) (order f)) = o ++ drop (reservePtr f) (order f)).
  { rewrite drop_app_ge by (rewrite length_take; lia). rewrite length_take. replace (reservePtr f - _)%nat with 0%nat by lia. by rewrite drop_0. }
  split.
  - constructor; cbn [order orderIdx reservePtr active retired cumulativeActivated cumulativeRetired]; try done; [| |by rewrite Et].
    + assert (Hp : take (reservePtr f) (order f) ++ o ++ drop (reservePtr f) (order f) ≡ₚ unseen ++ order f).
      { rewrite <- (take_drop (reservePtr f) (order f)) at 3. rewrite Ho. solve_Permutation. }
      rewrite Hp. apply NoDup_app. split; [by apply NoDup_filter|]. split; [|done]. intros x Hx. apply Hun in Hx. tauto.
    + rewrite !length_app, length_take, length_drop. lia.
  - exists unseen. unfold reserve. cbn [order reservePtr active retired initialized]. rewrite Ed. split; [done|]. split; [by rewrite Ho|].
    split; [done|]. split; [right; by exists o|done].
Qed.

Lemma reach_ok p f : NoDup (evalHiddenIds p) -> reach p f -> frontier_ok f.
Proof.
  intros Hnd. induction 1 as [f Hi Hm|f epoch h q _ IH|f ids fam n f' _ IH Hids Ha].
  - by eapply make_ok.
  - by apply stepEpoch_ok.
  - by eapply addReserveIds_ok.
Qed.

(** C29. On every run of epochs and injections each query is in exactly one of the active set, the
    retired set and the reserve, none is lost or added, and the cumulative counters count the
    activations and retirements. *)
Theorem frontier_conserves_queries (p : EpochFrontierParams) (f : EpochFrontier) :
  NoDup (evalHiddenIds p) -> reach p f ->
  NoDup (order f) /\ (active f).*1 ++ retired f ++ reserve f ≡ₚ order f
  /\ evalHiddenIds p ⊆ order f
  /\ cumulativeActivated f = Z.of_nat (length (active f)) + Z.of_nat (length (retired f))
  /\ cumulativeRetired f = Z.of_nat (length (retired f))
  /\ Z.of_nat (reservePtr f) = cumulativeActivated f.
Proof.
  intros Hnd Hr. pose proof (reach_ok p f Hnd Hr) as H. split; [apply H|]. split; [by apply ok_partition|]. split; [|split; [apply H|split; [apply H|]]].
  - clear H. induction Hr as [f Hi Hm|f epoch h q Hr IH|f ids fam n f' Hr IH Hids Ha].
    + destruct (make_ok p f Hi Hnd Hm) as (_ & _ & Ho & _). intros x Hx. by rewrite Ho.
    + pose proof (reach_ok p f Hnd Hr) as H. destruct (initialized f) eqn:Ei; [by rewrite stepEpoch_eq|].
      rewrite first_step_eq, activateNext_eq; [done|..|done|done]. destruct H; by constructor.
    + pose proof (reach_ok p f Hnd Hr) as H. destruct (addReserveIds_ok _ _ _ _ _ _ H Hids Ha) as (H' & new & _ & Hres & _ & _ & Ea & Er & _).
      pose proof (ok_partition f H) as P1. pose proof (ok_partition f' H') as P2. rewrite Ea, Er, Hres in P2.
      intros x Hx. apply IH in Hx. rewrite <- P1 in Hx. rewrite <- P2. set_solver.
  - pose proof (ok_split _ H) as Hs. apply Permutation_length in Hs. rewrite length_app, length_fmap, length_take in Hs.
    pose proof (ok_ptr _ H). rewrite (ok_activated _ H). lia.
Qed.

(** The interleaving loop ends within one round per id and pushes each id once, and the order it
    gives is the same however the corpus lists the ids. *)
Theorem reserve_order_total (s : string) (ids : list string) (fam : string -> option string) :
  NoDup ids ->
  exists g names o, reserve_order s ids fam = Some (g, names, o) /\ o ≡ₚ ids
  /\ forall ids', ids' ≡ₚ ids -> exists g' names', reserve_order s ids' fam = Some (g', names', o).
Proof.
  intros Hnd. destruct (reserve_order_perm s ids fam) as (g & names & o & E & Ho). exists g, names, o. split; [done|]. split; [done|].
  intros ids' Hp. pose proof (reserve_order_set s ids ids' fam Hnd (Permutation_sym Hp)) as He. rewrite E in He.
  destruct (reserve_order s ids' fam) as [[[g' n'] o']|]; [|done]. cbn in He. injection He as <-. eauto.
Qed.

Lemma capped_rate_le p f r n : capped_rate p f r = Some n -> n <= maxRootDeltaPerEpoch p /\ n <= Z.of_nat (length (order f) - reservePtr f).
Proof.
  unfold capped_rate. destruct r as [r|]; [|done]. cbn [mbind option_bind]. intros [= <-]. split; lia.
Qed.

Lemma step_ids_length p epoch h q f : maxAge p = None ->
  Z.of_nat (length (step_ids p epoch h q f)) <= Z.max 0 (maxRootDeltaPerEpoch p) /\ (length (step_ids p epoch h q f) <= length (reserve f))%nat.
Proof.
  intros Hm. unfold step_ids, step_rate. unfold aged_ids. rewrite Hm. cbn [app].
  set (f2 := update_ewma p h _). unfold reserve. rewrite length_drop.
  assert (E : (length (order f2) - reservePtr f2 = length (order f) - reservePtr f)%nat) by (unfold f2, update_ewma; by destruct h).
  destruct (mode p); cbn [length]; try lia;
  (destruct (capped_rate p f2 _) as [n|] eqn:En; [apply capped_rate_le in En as [E1 E2]|]);
  lazymatch goal with |- context [oldest_ids ?k ?g] => pose proof (length_oldest k g) as Hl end; cbn [default from_option id] in Hl; lia.
Qed.

(** A step after the first retires some active queries and activates the next of the reserve in
    their place, as many while the reserve lasts. With no age limit, as in the launch profile, the
    window keeps its size, at most the root-delta cap is retired, and none younger than one kept. *)
Theorem stepEpoch_rotates (p : EpochFrontierParams) (epoch : Z) (h q : option number) (f : EpochFrontier) :
  NoDup (evalHiddenIds p) -> reach p f -> initialized f = true ->
  let '(snap, f') := stepEpoch p epoch h q f in
  exists gone fresh, NoDup gone /\ gone ⊆ (active f).*1
  /\ active f' = filter (fun e => e.1 ∉ gone) (active f) ++ map (fun id => (id, epoch)) fresh
  /\ retired f' = retired f ++ gone /\ fresh ++ reserve f' = reserve f
  /\ length fresh = Nat.min (length gone) (length (reserve f))
  /\ snap_retired snap = Z.of_nat (length gone) /\ snap_activated snap = Z.of_nat (length fresh)
  /\ (maxAge p = None ->
      length (active f') = length (active f)
      /\ Z.of_nat (length gone) <= Z.max 0 (maxRootDeltaPerEpoch p)
      /\ forall x ax y ay, (x, ax) ∈ active f -> (y, ay) ∈ active f -> x ∈ gone -> y ∉ gone -> ax <= ay).
Proof.
  intros Hnd Hr Hi. pose proof (reach_ok p f Hnd Hr) as H. rewrite stepEpoch_eq by done. set (ids := step_ids p epoch h q f).
  destruct (step_ids_ok p epoch h q f H) as [Sn Ss]. fold ids in Sn, Ss. exists ids, (take (Nat.min (length ids) (length (reserve f))) (reserve f)).
  split; [done|]. split; [done|]. split; [done|]. split; [done|].
  split; [unfold reserve; cbn [rotate reservePtr order]; rewrite <- drop_drop; apply take_drop|]. split; [rewrite length_take; lia|].
  split; [done|]. split; [cbn; rewrite length_take; lia|]. intros Hm. destruct (step_ids_length p epoch h q f Hm) as [L1 L2]. fold ids in L1, L2.
  split; [|split; [done|]].
  - destruct (ok_nodup f H) as (Ha & _). pose proof (Permutation_length (filter_keys_perm ids (active f) Ha Sn Ss)) as Hp.
    rewrite length_app, !length_fmap in Hp. cbn [rotate active]. rewrite length_app, length_map, length_take. lia.
  - intros x ax y ay Hx Hy Ix Iy. unfold ids, step_ids, aged_ids in Ix, Iy. rewrite Hm in Ix, Iy. cbn [app] in Ix, Iy.
    assert (Ef : retire_all [] f = f) by (rewrite <- retire_fold by (constructor || by intros ? ?%elem_of_nil); done). rewrite Ef in Ix, Iy.
    destruct (mode p); try (by apply elem_of_nil in Ix); by eapply oldest_ids_oldest.
Qed.

(** ** Restoring *)

(** The same rotation state under other bookkeeping of families. *)
Definition with_meta (g : list (string * list string)) (names : list string) (k : Z) (f : EpochFrontier) : EpochFrontier :=
  mkFrontier g names (order f) (orderIdx f) k (reservePtr f) (active f) (retired f)
    (cumulativeActivated f) (cumulativeRetired f) (initialized f) (injectedSinceLastStep f) (ewmaAccepts f).

(** The parameters of a restart: other ids may be known, the exported state is the initial one. *)
Definition restarted (p : EpochFrontierParams) (ids : list string) (st : EpochFrontierRuntimeState) : EpochFrontierParams :=
  mkParams ids (familyOf p) (p_mode p) (activeWindow p) (p_churnRate p) (maxAge p) (p_lowAdvancesThreshold p) (lowAdvancesBumpRate p)
    (p_seed p) (p_minChurn p) (p_maxChurn p) (p_targetAccepts p) (p_headroomLowWatermark p) (p_headroomHighWatermark p) (p_ewmaHalfLife p)
    (p_expectedYieldPerUnit p) (p_maxRootDeltaPerEpoch p) (Some st).

Lemma meta_ok g names k f : frontier_ok f -> frontier_ok (with_meta g names k f).
Proof. intros H. destruct H. by constructor. Qed.

Lemma stepEpoch_meta p ids st epoch h q f g names k : frontier_ok f -> initialized f = true ->
  stepEpoch (restarted p ids st) epoch h q (with_meta g names k f)
  = ((stepEpoch p epoch h q f).1, with_meta g names k (stepEpoch p epoch h q f).2).
Proof.
  intros H Hi. rewrite !stepEpoch_eq by (done || by apply meta_ok). cbn [fst snd].
  assert (E1 : step_rate (restarted p ids st) epoch h q (with_meta g names k f) = step_rate p epoch h q f).
  { unfold step_rate. change (mode (restarted p ids st)) with (mode p). destruct (mode p) eqn:Em; try done;
    unfold capped_rate, base_rate; change (mode (restarted p ids st)) with (mode p); rewrite Em; unfold update_ewma; destruct h; reflexivity. }
  assert (E2 : step_ids (restarted p ids st) epoch h q (with_meta g names k f) = step_ids p epoch h q f).
  { unfold step_ids. rewrite E1. reflexivity. }
  assert (E3 : step_ewma (restarted p ids st) h (with_meta g names k f) = step_ewma p h f).
  { unfold step_ewma. change (mode (restarted p ids st)) with (mode p). destruct (mode p); try done; unfold update_ewma; by destruct h. }
  rewrite E1, E2, E3. reflexivity.
Qed.

Lemma existsb_known {A} (key : A -> string) (known : list string) (l : list A) : (forall x, x ∈ l -> key x ∈ known) ->
  existsb (fun x => negb (bool_decide (key x ∈ known))) l = false.
Proof.
  induction l as [|x l IH]; intros H; [done|]. cbn [existsb]. rewrite bool_decide_true by (apply H; by left). cbn. apply IH.
  intros y Hy. apply H. by right.
Qed.

(** A state whose ids are all known restores as it is. *)
Lemma restore_state p ids st : st_schemaVersion st = SCHEMA -> st_order st ⊆ ids -> (st_active st).*1 ⊆ ids -> st_retired st ⊆ ids ->
  NoDup (st_active st).*1 -> NoDup (st_retired st) ->
  exists g names k, makeEpochFrontier (restarted p ids st) = Returns (mkFrontier g names (st_order st) (index_map (st_order st)) k (st_reservePtr st)
    (st_active st) (st_retired st) (st_cumulativeActivated st) (st_cumulativeRetired st) (st_initialized st) (st_injectedSinceLastStep st) (st_ewmaAccepts st)).
Proof.
  intros Hv Ho Ha Hr Na Nr. unfold makeEpochFrontier. change (seed (restarted p ids st)) with (seed p).
  cbn [evalHiddenIds familyOf restarted initialState activeWindow].
  destruct (reserve_order_perm (seed p) ids (familyOf p)) as (g & names & o & -> & _).
  unfold check_initial. rewrite Hv, String.eqb_refl. cbn [negb].
  rewrite (existsb_known (fun x => x) ids (st_order st)) by (intros x Hx; exact (Ho x Hx)).
  rewrite (existsb_known (fun e : string * Z => e.1) ids (st_active st)) by (intros e He; apply Ha, list_elem_of_fmap; by exists e).
  rewrite (existsb_known (fun x => x) ids (st_retired st)) by (intros x Hx; exact (Hr x Hx)). cbn [mbind outcome_bind throw_if].
  eexists g, names, _. f_equal. rewrite (jsmap_of_entries (st_active st) []) by done. by rewrite (jsset_of_elems (st_retired st) []).
Qed.

Lemma restore_eq p ids f : frontier_ok f -> order f ⊆ ids -> exists g names k,
  makeEpochFrontier (restarted p ids (exportState f)) = Returns (with_meta g names k f).
Proof.
  intros H Hk. destruct (ok_nodup f H) as (Ha & Hr & _). pose proof (ok_partition f H) as Hp.
  destruct (restore_state p ids (exportState f)) as (g & names & k & E); try done.
  - intros x Hx. apply Hk. rewrite <- Hp. cbn in Hx. set_solver.
  - intros x Hx. apply Hk. rewrite <- Hp. cbn in Hx. set_solver.
  - exists g, names, k. rewrite E. unfold with_meta. cbn. by rewrite (ok_index _ H).
Qed.

(** Epoch inputs, and the snapshots a frontier takes of them. *)
Definition epoch_input : Type := Z * option number * option number.
Fixpoint snapshots (p : EpochFrontierParams) (ins : list epoch_input) (f : EpochFrontier) : list EpochFrontierSnapshot :=
  match ins with
  | [] => []
  | (epoch, h, q) :: ins' => (stepEpoch p epoch h q f).1 :: snapshots p ins' (stepEpoch p epoch h q f).2
  end.

(** A coordinator that exports its frontier and restarts from the export takes the same
    snapshots, roots included, as one that never stopped, as long as the restarted corpus still
    knows every id. *)
Theorem restore_continues (p : EpochFrontierParams) (ids : list string) (f : EpochFrontier) (ins : list epoch_input) :
  NoDup (evalHiddenIds p) -> reach p f -> initialized f = true -> order f ⊆ ids ->
  exists f', makeEpochFrontier (restarted p ids (exportState f)) = Returns f'
  /\ exportState f' = exportState f
  /\ snapshots (restarted p ids (exportState f)) ins f' = snapshots p ins f.
Proof.
  intros Hnd Hr Hi Hk. pose proof (reach_ok p f Hnd Hr) as H. destruct (restore_eq p ids f H Hk) as (g & names & k & E).
  exists (with_meta g names k f). split; [done|]. split; [done|]. generalize (exportState f) as st. intros st. clear E Hk Hr.
  revert f H Hi. induction ins as [|[[epoch h] q] ins IH]; intros f H Hi; [done|]. cbn [snapshots]. rewrite stepEpoch_meta by done. cbn [fst snd].
  f_equal. apply IH; [by apply stepEpoch_ok|]. by rewrite stepEpoch_eq.
Qed.
End Frontier.

(** ** Witnesses: five queries in two families, a window of two. *)
Definition sha_len (s : string) : string := if (String.length s =? 10)%nat then "00ff" else "0a".
Definition pow_half (x y : number) : number := of_frac 1 2.
Definition fam_w (id : string) : option string := if string_lt id "c" then Some "alpha"%string else Some "beta"%string.
Definition params_w : EpochFrontierParams :=
  mkParams ["a"; "b"; "c"; "d"; "e"]%string fam_w (Some C3) (Some 2) None None None None None (Some 1) (Some 1) None None None None None (Some 1) None.
Definition frontier_w : EpochFrontier :=
  mkFrontier [("alpha", ["a"; "b"]); ("beta", ["c"; "d"; "e"])]%string ["alpha"; "beta"]%string ["a"; "c"; "b"; "d"; "e"]%string
    [("a", 0); ("c", 1); ("b", 2); ("d", 3); ("e", 4)]%string 2 0 [] [] 0 0 false 0 None.

Lemma make_w : makeEpochFrontier sha_len params_w = Returns frontier_w.
Proof. vm_compute. reflexivity. Qed.
Lemma params_w_nodup : NoDup (evalHiddenIds params_w).
Proof. apply (bool_decide_unpack _). reflexivity. Qed.
Lemma reach_w : reach sha_len pow_half params_w frontier_w.
Proof. apply reach_make; [reflexivity|exact make_w]. Qed.

Definition frontier_w1 : EpochFrontier := (stepEpoch sha_len pow_half params_w 0 None None frontier_w).2.
Lemma reach_w1 : reach sha_len pow_half params_w frontier_w1.
Proof. apply reach_step_epoch, reach_w. Qed.

Lemma init_w1 : initialized frontier_w1 = true.
Proof. vm_compute. reflexivity. Qed.
Lemma known_w1 : order frontier_w1 ⊆ evalHiddenIds params_w.
Proof. intros x. revert x. apply Forall_forall. apply (bool_decide_unpack _). vm_compute. reflexivity. Qed.

Lemma frontier_conserves_queries_witness : (active frontier_w1).*1 = ["a"; "c"]%string
  /\ (active frontier_w1).*1 ++ retired frontier_w1 ++ reserve frontier_w1 ≡ₚ order frontier_w1.
Proof.
  split; [reflexivity|].
  exact (proj1 (proj2 (frontier_conserves_queries sha_len pow_half params_w frontier_w1 params_w_nodup reach_w1))).
Defined.

Lemma reserve_order_total_witness : exists g names,
  reserve_order sha_len "frontier" ["e"; "a"; "d"; "b"; "c"]%string fam_w = Some (g, names, ["a"; "c"; "b"; "d"; "e"]%string).
Proof.
  destruct (reserve_order_total sha_len "frontier" ["a"; "b"; "c"; "d"; "e"]%string fam_w params_w_nodup) as (g & names & o & E & _ & Hp).
  assert (Ho : o = ["a"; "c"; "b"; "d"; "e"]%string) by (vm_compute in E; congruence). subst o. apply Hp.
  apply (bool_decide_unpack _). vm_compute. reflexivity.
Defined.

(** No accepts: the window's oldest is replaced by the next of the reserve. *)
Lemma stepEpoch_rotates_witness :
  let f' := (stepEpoch sha_len pow_half params_w 1 (Some (of_Z 0)) (Some (of_Z 3)) frontier_w1).2 in
  active f' = [("c", 0); ("b", 1)]%string /\ length (active f') = length (active frontier_w1).
Proof.
  cbv zeta. split; [vm_compute; reflexivity|].
  pose proof (stepEpoch_rotates sha_len pow_half params_w 1 (Some (of_Z 0)) (Some (of_Z 3)) frontier_w1 params_w_nodup reach_w1 init_w1) as H.
  destruct (stepEpoch _ _ _ _ _ _ _) as [snap f']. destruct H as (gone & fresh & _ & _ & _ & _ & _ & _ & _ & _ & H). exact (proj1 (H eq_refl)).
Defined.

Lemma restore_continues_witness : exists f', makeEpochFrontier sha_len (restarted params_w (evalHiddenIds params_w) (exportState frontier_w1)) = Returns f'
  /\ exportState f' = exportState frontier_w1.
Proof.
  destruct (restore_continues sha_len pow_half params_w (evalHiddenIds params_w) frontier_w1 [] params_w_nodup reach_w1 init_w1 known_w1)
    as (f' & E1 & E2 & _). exists f'. split; [exact E1|exact E2].
Defined.
