(* ===== verification/CorpusRoot.v ===== *)
(** * Corpus roots (packages/coretex/src/eval/retrieval-corpus.ts)

    A corpus is committed to by a Merkle root over its events sorted by id.
    The root is kept as a forest of perfect subtrees, so appending at the end
    of the id order costs a carry chain instead of a rebuild; zero leaves pad
    it to a power of two. Also here: the event record and its split rule.

    Theorems: the root the forest reduces to is the root of the padded
    perfect tree, and the reduction never fails; an incremental update of the
    cache is the cache built from the updated events; records land in their
    split by hash bucket, memory documents always in the visible one. *)
From Stdlib Require Import Ascii Sorted.
From stdpp Require Import sorting.
From S2P Require Import Prelude Float Codec Keccak Merkle JsSort CanonicalJson Substrate.
#[local] Open Scope Z_scope.

(** ** Events *)
Inductive CorpusSplit := train_visible | calibration | eval_hidden | canary.
#[export] Instance CorpusSplit_eq_dec : EqDecision CorpusSplit.
Proof. solve_decision. Defined.
Definition split_name (s : CorpusSplit) : string :=
  match s with train_visible => "train_visible" | calibration => "calibration" | eval_hidden => "eval_hidden" | canary => "canary" end.

Record TruthDocument := mkTruth { td_id : string; td_text : string; isCurrent : bool; td_aspectTags : option (list string) }.
Record QrelEntry := mkQrel { documentId : string; relevance : number }.
Record HardNegativeRecord := mkNegative { hn_id : string; hn_text : string; category : option string; hn_aspectTags : option (list string) }.
Record RetrievalKeyLayout := mkLayout { dim : Z; quantization : string; headerBytes : Z }.
Record EmbeddingPayload := mkEmbedding {
  modelId : string;
  revision : string;
  layout : RetrievalKeyLayout;
  query : bytes;
  perTruth : list (string * bytes);
  perNegative : list (string * bytes)
}.

(** The required members; [ev_more] are the optional ones an event carries. *)
Record ProductionCorpusEvent := mkEvent {
  ev_id : string;
  family : string;
  domain : string;
  split : CorpusSplit;
  queryText : string;
  truthDocuments : list TruthDocument;
  hardNegatives : list HardNegativeRecord;
  qrels : list QrelEntry;
  protected : bool;
  sourceHash : string;
  provenance_more : list (string * jsval);
  embeddings : EmbeddingPayload;
  ev_more : list (string * jsval)
}.

Definition opt_member (k : string) (o : option jsval) : list (string * jsval) := match o with Some v => [(k, v)] | None => [] end.
Definition tags_value (l : list string) : jsval := JArray (map JString l).

Definition truth_value (d : TruthDocument) : jsval :=
  JObject ([("id", JString (td_id d)); ("text", JString (td_text d)); ("isCurrent", JBool (isCurrent d))]%string
    ++ opt_member "aspectTags" (tags_value <$> td_aspectTags d)).
Definition negative_value (d : HardNegativeRecord) : jsval :=
  JObject ([("id", JString (hn_id d)); ("text", JString (hn_text d))]%string
    ++ opt_member "category" (JString <$> category d) ++ opt_member "aspectTags" (tags_value <$> hn_aspectTags d)).
Definition qrel_value (q : QrelEntry) : jsval :=
  JObject [("documentId", JString (documentId q)); ("relevance", JNumber (relevance q))]%string.
Definition layout_value (l : RetrievalKeyLayout) : jsval :=
  JObject [("dim", JNumber (of_Z (dim l))); ("quantization", JString (quantization l)); ("headerBytes", JNumber (of_Z (headerBytes l)))]%string.
Definition embedding_value (e : EmbeddingPayload) : jsval :=
  JObject [("modelId", JString (modelId e)); ("revision", JString (revision e)); ("layout", layout_value (layout e));
    ("query", JBytes (query e)); ("perTruth", JMap (map (fun p => (p.1, JBytes p.2)) (perTruth e)));
    ("perNegative", JMap (map (fun p => (p.1, JBytes p.2)) (perNegative e)))]%string.
Definition event_value (e : ProductionCorpusEvent) : jsval :=
  JObject ([("id", JString (ev_id e)); ("family", JString (family e)); ("domain", JString (domain e)); ("split", JString (split_name (split e)));
    ("queryText", JString (queryText e)); ("truthDocuments", JArray (map truth_value (truthDocuments e)));
    ("hardNegatives", JArray (map negative_value (hardNegatives e))); ("qrels", JArray (map qrel_value (qrels e)));
    ("protected", JBool (protected e)); ("provenance", JObject (("sourceHash", JString (sourceHash e)) :: provenance_more e));
    ("embeddings", embedding_value (embeddings e))]%string ++ ev_more e).

(** [0.0, 0.2, 0.4, 0.6, 0.8, 1.0] *)
Definition VALID_GRADED_RELEVANCE : list number :=
  [of_Z 0; of_frac 2 10; of_frac 4 10; of_frac 6 10; of_frac 8 10; of_Z 1].
Definition assertGradedRelevance (value : number) : outcome number :=
  throw_when negb (existsb (deq value) VALID_GRADED_RELEVANCE) with RangeError "relevance is off the GradedRelevance scale" ;;
  Returns value.

(** ** Splits *)
Record SplitRatios := mkRatios { trainVisiblePct : Z; calibrationPct : Z; evalHiddenPct : Z; canaryPct : Z }.
Definition DEFAULT_SPLIT_RATIOS : SplitRatios := mkRatios 70 10 15 5.

(** [s.startsWith(p)] *)
Definition startsWith (p s : string) : bool := String.prefix p s.

(** The digits after [zz_e], then [_mem_]: [/^zz_e\d+_mem_/.test(id)] *)
Fixpoint skip_digits (s : string) : string :=
  match s with
  | String c s' => if (48 <=? Z.of_nat (Ascii.nat_of_ascii c)) && (Z.of_nat (Ascii.nat_of_ascii c) <=? 57) then skip_digits s' else s
  | EmptyString => EmptyString
  end.
Definition epoch_mem_id (id : string) : bool :=
  startsWith "zz_e" id &&
  let rest := String.substring 4 (String.length id - 4) id in
  negb (String.eqb (skip_digits rest) rest) && startsWith "_mem_" (skip_digits rest).

Definition isMemoryDocumentEventId (id : string) : bool := startsWith "mem_" id || startsWith "zz_mem_" id || epoch_mem_id id.

Section WithHasher.
Context {HK : Hasher}.

Definition split_bucket (id : string) (corpusEpoch : Z) : Z :=
  let digest := keccak256 (text_encode id ++ be_bytes 8 corpusEpoch) in
  let h := fold_left (fun h i => Z.lor (Z.shiftl h 8) (default 0 (digest !! i))) (seq 0 8) 0 in
  h mod 100.

Definition splitForRecord (id : string) (corpusEpoch : Z) (ratios : SplitRatios) : outcome CorpusSplit :=
  let total := trainVisiblePct ratios + calibrationPct ratios + evalHiddenPct ratios + canaryPct ratios in
  throw_when negb (total =? 100) with GenericError "SplitRatios must sum to 100" ;;
  let bucket := split_bucket id corpusEpoch in
  Returns (if bucket <? trainVisiblePct ratios then train_visible
    else if bucket <? trainVisiblePct ratios + calibrationPct ratios then calibration
    else if bucket <? trainVisiblePct ratios + calibrationPct ratios + evalHiddenPct ratios then eval_hidden
    else canary).

Definition expectedSplitForRecord (id : string) (corpusEpoch : Z) (ratios : SplitRatios) : outcome CorpusSplit :=
  if isMemoryDocumentEventId id then Returns train_visible else splitForRecord id corpusEpoch ratios.

(** ** The forest *)
Inductive CorpusRootTreeNode := mkNode (size : Z) (nroot : bytes) (children : option (CorpusRootTreeNode * CorpusRootTreeNode)).
Definition size (n : CorpusRootTreeNode) : Z := match n with mkNode s _ _ => s end.
Definition nroot (n : CorpusRootTreeNode) : bytes := match n with mkNode _ r _ => r end.

Definition combineRoots (left right : bytes) : bytes := keccak256 (u8_set (u8_set (zeros 64) 0 left) 32 right).

Definition combineNodes (left right : CorpusRootTreeNode) : outcome CorpusRootTreeNode :=
  throw_when negb (size left =? size right) with GenericError "combineNodes: size mismatch" ;;
  Returns (mkNode (size left + size right) (combineRoots (nroot left) (nroot right)) (Some (left, right))).

(** The carry loop, on the forest read from its last tree. *)
Fixpoint carry_loop (rforest : list CorpusRootTreeNode) (carry : CorpusRootTreeNode) : outcome (list CorpusRootTreeNode) :=
  match rforest with
  | t :: rest => if size t =? size carry then c ← combineNodes t carry; carry_loop rest c else Returns (carry :: t :: rest)
  | [] => Returns [carry]
  end.
Definition appendNodeToForest (forest : list CorpusRootTreeNode) (node : CorpusRootTreeNode) : outcome (list CorpusRootTreeNode) :=
  r ← carry_loop (rev forest) node; Returns (rev r).

Record CorpusRootLeaf := mkLeaf { leaf_id : string; leaf_hash : bytes }.

Definition append_leaves (forest : list CorpusRootTreeNode) (leaves : list CorpusRootLeaf) : outcome (list CorpusRootTreeNode) :=
  fold_left (fun acc leaf => f ← acc; appendNodeToForest f (mkNode 1 (leaf_hash leaf) None)) leaves (Returns forest).
Definition buildForestFromLeaves (leaves : list CorpusRootLeaf) : outcome (list CorpusRootTreeNode) := append_leaves [] leaves.

(** The recursion halves [size]; the memo table only caches its values. [None] when the fuel runs out. *)
Fixpoint zeroNode_rec (fuel : nat) (sz : Z) : option CorpusRootTreeNode :=
  match fuel with
  | O => None
  | S fuel' =>
    if sz =? 1 then Some (mkNode sz (zeros 32) None)
    else child ← zeroNode_rec fuel' (sz / 2);
         Some (mkNode sz (combineRoots (nroot child) (nroot child)) (Some (child, child)))
  end.
Definition zeroNode (sz : Z) : option CorpusRootTreeNode := zeroNode_rec (Z.to_nat sz) sz.

Fixpoint aligned_loop (fuel : nat) (position remaining sz : Z) : option Z :=
  match fuel with
  | O => None
  | S fuel' =>
    if (sz * 2 <=? remaining) && (position mod (sz * 2) =? 0) then aligned_loop fuel' position remaining (sz * 2) else Some sz
  end.
Definition largestAlignedBlock (position remaining : Z) : option Z := aligned_loop (Z.to_nat remaining) position remaining 1.

(** [while (target < eventCount) target <<= 1], on 32-bit integers. *)
Fixpoint target_loop (fuel : nat) (target eventCount : Z) : option Z :=
  match fuel with
  | O => None
  | S fuel' => if target <? eventCount then target_loop fuel' (js_shl target 1) eventCount else Some target
  end.

Definition out_of_fuel : js_error := GenericError "out of fuel".
Definition of_fuel {A} (o : option A) : outcome A := match o with Some a => Returns a | None => Throws out_of_fuel end.

Fixpoint pad_loop (fuel : nat) (work : list CorpusRootTreeNode) (position remaining : Z) : outcome (list CorpusRootTreeNode) :=
  if 0 <? remaining then
    match fuel with
    | O => Throws out_of_fuel
    | S fuel' =>
      sz ← of_fuel (largestAlignedBlock position remaining);
      z ← of_fuel (zeroNode sz);
      work ← appendNodeToForest work z;
      pad_loop fuel' work (position + sz) (remaining - sz)
    end
  else Returns work.

Definition rootFromForest (forest : list CorpusRootTreeNode) (eventCount : Z) : outcome string :=
  if eventCount =? 0 then Returns (bytesToHex (zeros 32))
  else
    target ← of_fuel (target_loop 31 1 eventCount);
    work ← pad_loop (Z.to_nat (target - eventCount)) forest eventCount (target - eventCount);
    match work with
    | [t] => Returns (bytesToHex (nroot t))
    | _ => Throws (GenericError "rootFromForest: forest did not reduce to one root")
    end.

(** ** The leaf cache *)
Record CorpusRootLeafCache := mkLeafCache {
  lc_eventCount : Z;
  lc_root : string;
  lc_leaves : list CorpusRootLeaf;
  lc_forest : list CorpusRootTreeNode
}.

Definition leaf_cmp (a b : CorpusRootLeaf) : Z := string_cmp (leaf_id a) (leaf_id b).

Definition cache_with (leaves : list CorpusRootLeaf) (forest : list CorpusRootTreeNode) : outcome CorpusRootLeafCache :=
  let n := Z.of_nat (length leaves) in
  r ← rootFromForest forest n;
  Returns (mkLeafCache n r leaves forest).

Definition buildCorpusRootLeafCacheFromLeaves (inputLeaves : list CorpusRootLeaf) : outcome CorpusRootLeafCache :=
  let leaves := stableSort inputLeaves leaf_cmp in
  forest ← buildForestFromLeaves leaves;
  cache_with leaves forest.

Context (NumberToString : number -> string).

Definition computeCorpusEventLeafHash (event : ProductionCorpusEvent) : outcome bytes :=
  s ← canonicalJson NumberToString finite (event_value event); Returns (keccak256 (text_encode s)).

Definition event_leaf (event : ProductionCorpusEvent) : outcome CorpusRootLeaf :=
  h ← computeCorpusEventLeafHash event; Returns (mkLeaf (ev_id event) h).

Definition buildCorpusRootLeafCache (events : list ProductionCorpusEvent) : outcome CorpusRootLeafCache :=
  leaves ← mapM event_leaf (stableSort events (fun a b => string_cmp (ev_id a) (ev_id b)));
  buildCorpusRootLeafCacheFromLeaves leaves.

Definition computeCorpusRoot (events : list ProductionCorpusEvent) : outcome string :=
  c ← buildCorpusRootLeafCache events; Returns (lc_root c).

(** The merge of what stays with the additions, in id order; the cached leaves that are replaced are skipped. *)
Definition merge_leaves (replaced : string -> bool) : list CorpusRootLeaf -> list CorpusRootLeaf -> list CorpusRootLeaf :=
  fix outer (old : list CorpusRootLeaf) : list CorpusRootLeaf -> list CorpusRootLeaf :=
    fix inner (added : list CorpusRootLeaf) : list CorpusRootLeaf :=
      match old with
      | [] => added
      | o :: old' =>
        if replaced (leaf_id o) then outer old' added
        else match added with
        | [] => filter (fun l => replaced (leaf_id l) = false) old
        | a :: added' => if leaf_cmp o a <=? 0 then o :: outer old' added else a :: inner added'
        end
      end.

Definition updateCorpusRootLeafCache (cache : CorpusRootLeafCache) (additions : list ProductionCorpusEvent) (removals : list string)
  : outcome CorpusRootLeafCache :=
  if bool_decide (additions = []) && bool_decide (removals = []) then Returns cache
  else
    let replacedIds := removals ++ map ev_id additions in
    hashed ← mapM event_leaf additions;
    let added := stableSort hashed leaf_cmp in
    let isTailAppend := bool_decide (removals = []) &&
      match last (lc_leaves cache) with
      | None => true
      | Some m => forallb (fun l => string_cmp (leaf_id m) (leaf_id l) <? 0) added
      end in
    if isTailAppend then
      forest ← append_leaves (lc_forest cache) added;
      cache_with (lc_leaves cache ++ added) forest
    else buildCorpusRootLeafCacheFromLeaves (merge_leaves (fun id => bool_decide (id ∈ replacedIds)) (lc_leaves cache) added).
End WithHasher.

(** ** The padded perfect tree *)
Section Tree.
Context {HK : Hasher}.

(** The root of a perfect tree of height [k] over [2^k] leaf hashes. *)
Fixpoint proot (k : nat) (l : list bytes) : bytes :=
  match k with
  | O => default [] (head l)
  | S k' => combineRoots (proot k' (take (2 ^ k') l)) (proot k' (drop (2 ^ k') l))
  end.

Lemma proot_app k l1 l2 : length l1 = (2 ^ k)%nat -> proot (S k) (l1 ++ l2) = combineRoots (proot k l1) (proot k l2).
Proof. intros H. cbn [proot]. rewrite take_app_length', drop_app_length' by done. done. Qed.

(** A forest, read from its last tree, over some leaf hashes: perfect subtrees of increasing size. *)
Inductive rep : list CorpusRootTreeNode -> list bytes -> Prop :=
  | rep_nil : rep [] []
  | rep_cons t rest k l1 l2 : rep rest l1 -> size t = 2 ^ Z.of_nat k -> length l2 = (2 ^ k)%nat -> nroot t = proot k l2 ->
      (match rest with [] => True | u :: _ => size t < size u end) -> rep (t :: rest) (l1 ++ l2).

Lemma pow2_nat k : Z.of_nat (2 ^ k) = 2 ^ Z.of_nat k.
Proof. by rewrite Nat2Z.inj_pow. Qed.

Lemma pow2_lt a b : 2 ^ Z.of_nat a < 2 ^ Z.of_nat b -> (a < b)%nat.
Proof. intros H. apply Z.pow_lt_mono_r_iff in H; lia. Qed.

Lemma pow2_le a b : (a <= b)%nat -> 2 ^ Z.of_nat a <= 2 ^ Z.of_nat b.
Proof. intros H. apply Z.pow_le_mono_r; lia. Qed.

Lemma pow2_S k : 2 ^ Z.of_nat (S k) = 2 * 2 ^ Z.of_nat k.
Proof. rewrite Nat2Z.inj_succ, Z.pow_succ_r by lia. done. Qed.

Lemma rep_head rest l : rep rest l -> match rest with [] => True | u :: _ => exists k, size u = 2 ^ Z.of_nat k end.
Proof. destruct 1; [done|eauto]. Qed.

(** A carry goes in as long as it is no larger than the last tree. *)
Lemma carry_loop_rep rest l1 k c l2 : rep rest l1 -> size c = 2 ^ Z.of_nat k -> length l2 = (2 ^ k)%nat -> nroot c = proot k l2 ->
  (match rest with [] => True | u :: _ => size c <= size u end) -> exists r, carry_loop rest c = Returns r /\ rep r (l1 ++ l2).
Proof.
  intros H. revert k c l2. induction H as [|t rest k' la lb H IH Hs Hl Hr Hlt]; intros k c l2 Hc Hl2 Hrc Hle; cbn [carry_loop].
  { eexists. split; [done|]. apply (rep_cons c [] k [] l2); [constructor|done..]. }
  destruct (Z.eqb_spec (size t) (size c)) as [E|Hne].
  - assert (k' = k) as -> by (rewrite Hs, Hc in E; apply Z.pow_inj_r in E; lia).
    unfold combineNodes. rewrite E, Z.eqb_refl. cbn [negb mbind outcome_bind]. rewrite <- app_assoc. apply (IH (S k)).
    + cbn [size]. rewrite Hc, pow2_S. lia.
    + rewrite length_app, Hl, Hl2. cbn. lia.
    + cbn [nroot]. rewrite proot_app by done. by rewrite Hr, Hrc.
    + destruct rest as [|u rest]; [done|]. cbn [size]. destruct (rep_head _ _ H) as [j Hj]. rewrite Hj, Hs in Hlt. apply pow2_lt in Hlt.
      rewrite Hj, Hc. pose proof (pow2_le (S k) j ltac:(lia)) as Hp. rewrite pow2_S in Hp. lia.
  - eexists. split; [done|]. apply (rep_cons c (t :: rest) k (la ++ lb) l2); [by econstructor|done..|]. lia.
Qed.

Lemma append_rep forest l k c l2 : rep (rev forest) l -> size c = 2 ^ Z.of_nat k -> length l2 = (2 ^ k)%nat -> nroot c = proot k l2 ->
  (match rev forest with [] => True | u :: _ => size c <= size u end) ->
  exists f', appendNodeToForest forest c = Returns f' /\ rep (rev f') (l ++ l2).
Proof.
  intros H Hs Hl Hr Hle. unfold appendNodeToForest. destruct (carry_loop_rep _ _ k c l2 H Hs Hl Hr Hle) as (r & -> & Hrep).
  eexists. split; [done|]. by rewrite rev_involutive.
Qed.

Lemma append_leaves_rep leaves forest l : rep (rev forest) l ->
  exists f', append_leaves forest leaves = Returns f' /\ rep (rev f') (l ++ map leaf_hash leaves).
Proof.
  revert forest l. induction leaves as [|x leaves IH]; intros forest l H; [exists forest; by rewrite app_nil_r|]. cbn [append_leaves fold_left map mbind outcome_bind].
  destruct (append_rep forest l 0 (mkNode 1 (leaf_hash x) None) [leaf_hash x] H) as (f1 & E & H1); [done..| |].
  { destruct (rev forest) as [|u rf]; [done|]. destruct (rep_head _ _ H) as [j ->]. cbn [size]. pose proof (Z.pow_pos_nonneg 2 (Z.of_nat j)). lia. }
  rewrite E. destruct (IH f1 _ H1) as (f' & E' & H'). exists f'. split; [exact E'|]. by rewrite <- app_assoc in H'.
Qed.

(** The last tree's size is the largest power of two dividing the number of leaves. *)
Lemma rep_odd t rest l k : rep (t :: rest) l -> size t = 2 ^ Z.of_nat k -> exists m, Z.of_nat (length l) = 2 ^ Z.of_nat k * (2 * m + 1).
Proof.
  intros H. remember (t :: rest) as f eqn:Ef. revert t rest k Ef. induction H as [|t rest k' l1 l2 H IH Hs Hl Hr Hlt]; intros t0 rest0 k [= -> ->] Hk.
  assert (k' = k) as -> by (rewrite Hs in Hk; apply Z.pow_inj_r in Hk; lia). rewrite length_app, Nat2Z.inj_add, Hl, pow2_nat.
  destruct rest0 as [|u rest0]; [inversion H; subst; exists 0; cbn; lia|]. destruct (rep_head _ _ H) as [j Hj].
  destruct (IH u rest0 j eq_refl Hj) as [m Hm]. rewrite Hj, Hs in Hlt. apply pow2_lt in Hlt. rewrite Hm.
  replace (Z.of_nat j) with (Z.of_nat k + 1 + (Z.of_nat j - Z.of_nat k - 1)) by lia. rewrite !Z.pow_add_r by lia.
  exists (2 ^ (Z.of_nat j - Z.of_nat k - 1) * (2 * m + 1)). change (2 ^ 1) with 2. lia.
Qed.

Lemma pow2_odd_divides j k m : (2 ^ Z.of_nat j | 2 ^ Z.of_nat k * (2 * m + 1)) -> (j <= k)%nat.
Proof.
  intros [q Hq]. destruct (Nat.le_gt_cases j k) as [|Hgt]; [done|]. exfalso.
  replace (Z.of_nat j) with (Z.of_nat k + 1 + (Z.of_nat j - Z.of_nat k - 1)) in Hq by lia. rewrite !Z.pow_add_r in Hq by lia. change (2 ^ 1) with 2 in Hq.
  assert (Hp : 0 < 2 ^ Z.of_nat k) by (apply Z.pow_pos_nonneg; lia).
  assert (E : 2 * m + 1 = 2 * (q * 2 ^ (Z.of_nat j - Z.of_nat k - 1))) by (apply (Z.mul_reg_l _ _ (2 ^ Z.of_nat k)); lia). lia.
Qed.

(** A forest over [2^h] leaves is one tree. *)
Lemma rep_perfect f l h : rep f l -> length l = (2 ^ h)%nat -> exists t, f = [t] /\ nroot t = proot h l.
Proof.
  intros H Hl. destruct H as [|t rest k l1 l2 H Hs Hl2 Hr Hlt]; [cbn in Hl; pose proof (Nat.pow_nonzero 2 h); lia|].
  assert (Hrep : rep (t :: rest) (l1 ++ l2)) by (by econstructor). destruct (rep_odd _ _ _ k Hrep Hs) as [m Hm]. rewrite Hl, pow2_nat in Hm.
  assert (Hhk : (h <= k)%nat) by (apply (pow2_odd_divides h k m); exists 1; lia).
  assert (k = h) as ->. { rewrite length_app in Hl. assert (2 ^ k <= 2 ^ h)%nat by lia. apply Nat.pow_le_mono_r_iff in H0; lia. }
  rewrite length_app in Hl. destruct l1 as [|x l1]; [|cbn in Hl; lia]. inversion H as [|u rest' k' la lb ? ? Hlb ? ? Ea Eb]; subst; [by exists t|].
  apply (f_equal length) in Eb. rewrite length_app in Eb. cbn in Eb. pose proof (Nat.pow_nonzero 2 k'). lia.
Qed.

Lemma aligned_loop_spec fuel position remaining i : (2 ^ Z.of_nat i | position) -> 2 ^ Z.of_nat i <= remaining -> remaining < Z.of_nat fuel + 2 ^ Z.of_nat i ->
  exists j, aligned_loop fuel position remaining (2 ^ Z.of_nat i) = Some (2 ^ Z.of_nat j) /\ (2 ^ Z.of_nat j | position) /\ 2 ^ Z.of_nat j <= remaining.
Proof.
  revert i. induction fuel as [|fuel IH]; intros i Hd Hle Hf; [lia|]. cbn [aligned_loop]. rewrite Z.mul_comm, <- pow2_S.
  assert (Hp : 0 < 2 ^ Z.of_nat i) by (apply Z.pow_pos_nonneg; lia).
  destruct (Z.leb_spec (2 ^ Z.of_nat (S i)) remaining), (Z.eqb_spec (position mod 2 ^ Z.of_nat (S i)) 0); cbn [andb]; [|by exists i..].
  apply IH; [apply Z.mod_divide; [rewrite pow2_S; lia|done]|done|]. rewrite pow2_S in *. lia.
Qed.

Lemma largestAlignedBlock_spec position remaining : 0 < remaining -> exists j,
  largestAlignedBlock position remaining = Some (2 ^ Z.of_nat j) /\ (2 ^ Z.of_nat j | position) /\ 2 ^ Z.of_nat j <= remaining.
Proof.
  intros H. unfold largestAlignedBlock. apply (aligned_loop_spec _ position remaining 0); [apply Z.divide_1_l|cbn; lia|]. rewrite Z2Nat.id by lia. cbn. lia.
Qed.

Definition zero_leaves (n : nat) : list bytes := replicate n (zeros 32).

Lemma zeroNode_rec_spec j fuel : (j < fuel)%nat -> exists z, zeroNode_rec fuel (2 ^ Z.of_nat j) = Some z
  /\ size z = 2 ^ Z.of_nat j /\ nroot z = proot j (zero_leaves (2 ^ j)).
Proof.
  revert fuel. induction j as [|j IH]; intros [|fuel] Hf; try lia; cbn [zeroNode_rec].
  { by eexists. }
  assert (Hp : 0 < 2 ^ Z.of_nat j) by (apply Z.pow_pos_nonneg; lia).
  rewrite pow2_S. destruct (Z.eqb_spec (2 * 2 ^ Z.of_nat j) 1); [lia|]. rewrite Z.mul_comm, Z.div_mul by lia.
  destruct (IH fuel ltac:(lia)) as (z & -> & Hs & Hr). cbn [mbind option_bind]. eexists. split; [done|]. cbn [size nroot]. split; [lia|].
  unfold zero_leaves. replace (2 ^ S j)%nat with (2 ^ j + 2 ^ j)%nat by (cbn; lia). rewrite replicate_add, proot_app by apply length_replicate. by rewrite Hr.
Qed.

Lemma zeroNode_spec j : exists z, zeroNode (2 ^ Z.of_nat j) = Some z /\ size z = 2 ^ Z.of_nat j /\ nroot z = proot j (zero_leaves (2 ^ j)).
Proof. apply zeroNode_rec_spec. rewrite <- pow2_nat, Nat2Z.id. apply Nat.pow_gt_lin_r. lia. Qed.

(** Padding to a power of two fills the forest up with zero leaves. *)
Lemma pad_loop_spec fuel work l remaining : rep (rev work) l -> l <> [] -> 0 <= remaining <= Z.of_nat fuel ->
  exists f', pad_loop fuel work (Z.of_nat (length l)) remaining = Returns f' /\ rep (rev f') (l ++ zero_leaves (Z.to_nat remaining)).
Proof.
  revert work l remaining. induction fuel as [|fuel IH]; intros work l remaining Hrep Hl Hr; cbn [pad_loop].
  { destruct (Z.ltb_spec 0 remaining); [lia|]. exists work. replace (Z.to_nat remaining) with 0%nat by lia. by rewrite app_nil_r. }
  destruct (Z.ltb_spec 0 remaining); [|exists work; replace (Z.to_nat remaining) with 0%nat by lia; by rewrite app_nil_r].
  destruct (largestAlignedBlock_spec (Z.of_nat (length l)) remaining) as (j & -> & Hd & Hj); [done|]. cbn [of_fuel mbind outcome_bind].
  destruct (zeroNode_spec j) as (z & -> & Hs & Hz). cbn [of_fuel mbind outcome_bind].
  destruct (append_rep work l j z (zero_leaves (2 ^ j)) Hrep Hs (length_replicate _ _) Hz) as (f1 & -> & H1).
  { destruct (rev work) as [|u rw]; [done|]. destruct (rep_head _ _ Hrep) as [k Hk]. destruct (rep_odd _ _ _ k Hrep Hk) as [m Hm]. rewrite Hm in Hd.
    apply pow2_odd_divides in Hd. rewrite Hs, Hk. by apply pow2_le. }
  cbn [mbind outcome_bind]. pose proof (pow2_nat j) as Hpj. pose proof (Nat.pow_nonzero 2 j) as Hnz.
  destruct (IH f1 (l ++ zero_leaves (2 ^ j)) (remaining - 2 ^ Z.of_nat j) H1) as (f' & E & H'); [destruct l; done|lia|].
  rewrite length_app in E. unfold zero_leaves in E at 1. rewrite length_replicate, Nat2Z.inj_add, Hpj in E. rewrite E. exists f'. split; [done|].
  rewrite <- app_assoc in H'. unfold zero_leaves in *. rewrite <- replicate_add in H'.
  replace (2 ^ j + Z.to_nat (remaining - 2 ^ Z.of_nat j))%nat with (Z.to_nat remaining) in H' by lia. done.
Qed.

(** The least power of two that holds [n] leaves. *)
Definition height (n : Z) : nat := Z.to_nat (Z.log2_up n).

Lemma height_spec n : 1 <= n -> n <= 2 ^ Z.of_nat (height n) /\ (height n = 0%nat \/ 2 ^ Z.of_nat (height n - 1) < n).
Proof.
  intros H. unfold height. pose proof (Z.log2_up_nonneg n). rewrite Z2Nat.id by done. destruct (Z.eq_dec n 1) as [->|]; [by cbn; auto|].
  pose proof (Z.log2_up_spec n ltac:(lia)) as [H1 H2]. split; [done|]. right. rewrite Nat2Z.inj_sub, Z2Nat.id by (pose proof (Z.log2_up_pos n); lia).
  rewrite <- Z.sub_1_r in H1. done.
Qed.

Lemma shl_pow2 i : (i < 30)%nat -> js_shl (2 ^ Z.of_nat i) 1 = 2 ^ Z.of_nat (S i).
Proof. intros H. do 30 (destruct i as [|i]; [reflexivity|]). lia. Qed.

Lemma target_loop_spec fuel i n : 1 <= n -> (i <= height n)%nat -> (height n <= 30)%nat -> (height n < fuel + i)%nat ->
  target_loop fuel (2 ^ Z.of_nat i) n = Some (2 ^ Z.of_nat (height n)).
Proof.
  intros Hn. revert i. induction fuel as [|fuel IH]; intros i Hi Hh Hf; [lia|]. cbn [target_loop]. destruct (height_spec n Hn) as [Hle Hlt].
  destruct (Z.ltb_spec (2 ^ Z.of_nat i) n) as [Hin|Hin].
  - destruct (decide (i = height n)) as [->|]; [lia|]. rewrite shl_pow2 by lia. apply IH; lia.
  - destruct (decide (i = height n)) as [->|]; [done|]. exfalso. destruct Hlt as [|Hlt]; [lia|].
    pose proof (pow2_le i (height n - 1) ltac:(lia)). lia.
Qed.

Lemma height_bound n : 1 <= n <= 2 ^ 30 -> (height n <= 30)%nat.
Proof. intros H. unfold height. pose proof (Z.log2_up_le_mono n (2 ^ 30) ltac:(lia)) as Hm. rewrite Z.log2_up_pow2 in Hm by lia. lia. Qed.

(** The leaf hashes padded with zero leaves to the next power of two. *)
Definition padded (hs : list bytes) : list bytes :=
  hs ++ zero_leaves (2 ^ height (Z.of_nat (length hs)) - length hs).

Definition padded_root (hs : list bytes) : bytes :=
  match hs with [] => zeros 32 | _ => proot (height (Z.of_nat (length hs))) (padded hs) end.

Lemma rootFromForest_spec forest hs : rep (rev forest) hs -> Z.of_nat (length hs) <= 2 ^ 30 ->
  rootFromForest forest (Z.of_nat (length hs)) = Returns (bytesToHex (padded_root hs)).
Proof.
  intros Hrep Hn. unfold rootFromForest. destruct (decide (hs = [])) as [->|Hne]; [done|].
  assert (Hpos : 1 <= Z.of_nat (length hs)) by (destruct hs; [done|cbn; lia]). destruct (Z.eqb_spec (Z.of_nat (length hs)) 0) as [|_]; [lia|].
  set (n := Z.of_nat (length hs)) in *. change 1 with (2 ^ Z.of_nat 0) at 1. pose proof (height_bound n ltac:(lia)) as Hh.
  rewrite target_loop_spec by (lia || done). cbn [of_fuel mbind outcome_bind].
  destruct (height_spec n Hpos) as [Hle _]. pose proof (pow2_nat (height n)) as Hpn.
  destruct (pad_loop_spec (Z.to_nat (2 ^ Z.of_nat (height n) - n)) forest hs (2 ^ Z.of_nat (height n) - n) Hrep Hne) as (f' & E & H'); [lia|].
  fold n in E. rewrite E. cbn [mbind outcome_bind].
  assert (Hp : hs ++ zero_leaves (Z.to_nat (2 ^ Z.of_nat (height n) - n)) = padded hs).
  { unfold padded. fold n. f_equal. f_equal. unfold n in *. lia. }
  rewrite Hp in H'. destruct (rep_perfect _ _ (height n) H') as (t & Ef & Ht).
  { unfold padded, zero_leaves. rewrite length_app, length_replicate. fold n. unfold n in *. lia. }
  assert (Ef' : f' = [t]) by (rewrite <- (rev_involutive f'), Ef; done). rewrite Ef', Ht. unfold padded_root. by destruct hs.
Qed.

(** The forest of perfect subtrees reduces to one root on every corpus of up to 2^30 events, and
    that root is the root of the perfect tree over the leaf hashes in id order, padded with zero leaves. *)
Theorem corpus_root_is_padded_tree (leaves : list CorpusRootLeaf) :
  Z.of_nat (length leaves) <= 2 ^ 30 ->
  exists c, buildCorpusRootLeafCacheFromLeaves leaves = Returns c
  /\ lc_leaves c = stableSort leaves leaf_cmp
  /\ lc_root c = bytesToHex (padded_root (map leaf_hash (lc_leaves c))).
Proof.
  intros Hn. unfold buildCorpusRootLeafCacheFromLeaves. set (sorted := stableSort leaves leaf_cmp).
  destruct (append_leaves_rep sorted [] [] rep_nil) as (f & E & Hrep). unfold buildForestFromLeaves. rewrite E. cbn [mbind outcome_bind app] in *.
  unfold cache_with. assert (Hl : length (map leaf_hash sorted) = length sorted) by apply length_map.
  assert (Hs : length sorted = length leaves) by (apply Permutation_length, stableSort_perm).
  pose proof (rootFromForest_spec f _ Hrep) as Hr. rewrite Hl in Hr. rewrite Hr by lia. cbn [mbind outcome_bind]. eexists. split; [done|]. done.
Qed.

(** ** Incremental updates *)
Context (NumberToString : number -> string).

Definition leaf_of (e : ProductionCorpusEvent) : CorpusRootLeaf :=
  match event_leaf NumberToString e with Returns l => l | Throws _ => mkLeaf (ev_id e) [] end.
Definition serializable (e : ProductionCorpusEvent) : Prop := event_leaf NumberToString e = Returns (leaf_of e).

Lemma leaf_of_id e : leaf_id (leaf_of e) = ev_id e.
Proof.
  unfold leaf_of. destruct (event_leaf NumberToString e) as [l|] eqn:E; [|done]. unfold event_leaf in E.
  apply bind_Returns in E as (h & _ & E). by apply Returns_inj in E as <-.
Qed.

Lemma mapM_leaves l : mapM (event_leaf NumberToString) l = Returns (map leaf_of l) <-> Forall serializable l.
Proof.
  induction l as [|e l IH]; [done|]. rewrite Forall_cons, <- IH. unfold serializable, leaf_of at 2. cbn [mapM map].
  destruct (event_leaf NumberToString e) as [h|] eqn:E; cbn [mbind outcome_bind]; [|split; [done|intros [? _]; done]].
  destruct (mapM _ l) as [hs|]; cbn [mbind outcome_bind]; [|split; [done|intros [_ ?]; done]].
  unfold leaf_of at 1. rewrite E. split; [intros H; apply Returns_inj in H; injection H as ->; done|]. intros [_ H]. apply Returns_inj in H as ->. done.
Qed.

Lemma mapM_returns l hs : mapM (event_leaf NumberToString) l = Returns hs -> Forall serializable l /\ hs = map leaf_of l.
Proof.
  revert hs. induction l as [|e l IH]; intros hs; cbn [mapM].
  { intros H. apply Returns_inj in H as <-. by split. }
  destruct (event_leaf NumberToString e) as [h|] eqn:E; [|done]. cbn [mbind outcome_bind]. destruct (mapM _ l) as [hs'|] eqn:E2; [|done].
  cbn [mbind outcome_bind]. intros H. apply Returns_inj in H as <-. destruct (IH hs' eq_refl) as [H1 ->].
  assert (Hh : leaf_of e = h) by (unfold leaf_of; by rewrite E). split; [constructor; [unfold serializable; by rewrite Hh|done]|]. cbn. by rewrite Hh.
Qed.

#[local] Instance leaf_cmp_preorder : CmpPreorder leaf_cmp.
Proof. constructor; intros; unfold leaf_cmp in *; [apply cmp_total|by eapply cmp_trans]. Qed.
#[local] Instance event_cmp_preorder : CmpPreorder (fun a b : ProductionCorpusEvent => string_cmp (ev_id a) (ev_id b)).
Proof. constructor; intros; cbn in *; [apply (cmp_total (ev_id a))|by eapply (cmp_trans (ev_id a) (ev_id b))]. Qed.

(** Distinct ids leave the sort no choice. *)
Lemma leaf_ids_antisym (l : list CorpusRootLeaf) a b : NoDup (map leaf_id l) -> a ∈ l -> b ∈ l -> leaf_cmp a b <= 0 -> leaf_cmp b a <= 0 -> a = b.
Proof.
  intros Hnd Ha Hb H1 H2. pose proof (string_cmp_antisym _ _ H1 H2) as E. apply list_elem_of_lookup in Ha as [i Hi]. apply list_elem_of_lookup in Hb as [j Hj].
  assert (i = j) as ->; [|congruence]. eapply (NoDup_lookup (map leaf_id l)); [done| |].
  - change (map leaf_id l) with (leaf_id <$> l). rewrite list_lookup_fmap, Hi. reflexivity.
  - change (map leaf_id l) with (leaf_id <$> l). rewrite list_lookup_fmap, Hj. cbn. by rewrite E.
Qed.

Lemma from_leaves_perm l1 l2 : l1 ≡ₚ l2 -> NoDup (map leaf_id l1) -> buildCorpusRootLeafCacheFromLeaves l1 = buildCorpusRootLeafCacheFromLeaves l2.
Proof.
  intros Hp Hnd. unfold buildCorpusRootLeafCacheFromLeaves. rewrite (stableSort_unique leaf_cmp l1 l2 Hp); [done|]. intros a b Ha Hb. by apply (leaf_ids_antisym l1).
Qed.

Lemma ids_leaves l : map leaf_id (map leaf_of l) = map ev_id l.
Proof. rewrite map_map. apply map_ext. apply leaf_of_id. Qed.

(** Building is hashing every event and sorting. *)
Lemma build_returns E : Forall serializable E -> NoDup (map ev_id E) -> buildCorpusRootLeafCache NumberToString E = buildCorpusRootLeafCacheFromLeaves (map leaf_of E).
Proof.
  intros Hs Hnd. unfold buildCorpusRootLeafCache. set (sorted := stableSort E _). assert (Hp : sorted ≡ₚ E) by apply stableSort_perm.
  rewrite (proj2 (mapM_leaves sorted)) by (by rewrite Hp). cbn [mbind outcome_bind]. apply from_leaves_perm; [by rewrite Hp|]. rewrite ids_leaves. by rewrite Hp.
Qed.

Lemma build_inv E c : buildCorpusRootLeafCache NumberToString E = Returns c -> Forall serializable E.
Proof.
  unfold buildCorpusRootLeafCache. intros H. apply bind_Returns in H as (hs & H & _). apply mapM_returns in H as [H _]. by rewrite stableSort_perm in H.
Qed.

Lemma from_leaves_inv l c : buildCorpusRootLeafCacheFromLeaves l = Returns c ->
  lc_leaves c = stableSort l leaf_cmp /\ buildForestFromLeaves (lc_leaves c) = Returns (lc_forest c) /\ cache_with (lc_leaves c) (lc_forest c) = Returns c.
Proof.
  unfold buildCorpusRootLeafCacheFromLeaves. intros H. apply bind_Returns in H as (f & Hf & H).
  assert (Hc : lc_leaves c = stableSort l leaf_cmp /\ lc_forest c = f).
  { unfold cache_with in H. apply bind_Returns in H as (r & _ & H). by apply Returns_inj in H as <-. }
  destruct Hc as [-> ->]. done.
Qed.

Lemma merge_leaves_cons replaced o old a added : merge_leaves replaced (o :: old) (a :: added)
  = if replaced (leaf_id o) then merge_leaves replaced old (a :: added)
    else if leaf_cmp o a <=? 0 then o :: merge_leaves replaced old (a :: added) else a :: merge_leaves replaced (o :: old) added.
Proof. reflexivity. Qed.
Lemma merge_leaves_rest replaced o old : merge_leaves replaced (o :: old) []
  = if replaced (leaf_id o) then merge_leaves replaced old [] else filter (fun l => replaced (leaf_id l) = false) (o :: old).
Proof. reflexivity. Qed.

Lemma merge_leaves_perm replaced old added : merge_leaves replaced old added ≡ₚ filter (fun l => replaced (leaf_id l) = false) old ++ added.
Proof.
  revert added. induction old as [|o old IH]; intros added; [by destruct added|]. induction added as [|a added IHa].
  - rewrite merge_leaves_rest. destruct (replaced (leaf_id o)) eqn:E; [|by rewrite app_nil_r]. rewrite IH, filter_cons_False by (by rewrite E). done.
  - rewrite merge_leaves_cons. destruct (replaced (leaf_id o)) eqn:E; [rewrite IH, filter_cons_False by (by rewrite E); done|].
    destruct (_ <=? _); [rewrite IH, filter_cons_True by done; done|]. rewrite IHa. rewrite filter_cons_True by done. solve_Permutation.
Qed.

Lemma append_leaves_app l1 l2 f f1 : append_leaves f l1 = Returns f1 -> append_leaves f (l1 ++ l2) = append_leaves f1 l2.
Proof. unfold append_leaves. intros H. by rewrite fold_left_app, H. Qed.

Lemma sorted_app {A} (R : A -> A -> Prop) l1 l2 : StronglySorted R l1 -> StronglySorted R l2 -> (forall x y, x ∈ l1 -> y ∈ l2 -> R x y) -> StronglySorted R (l1 ++ l2).
Proof.
  induction 1 as [|x l1 H IH Hx]; intros H2 Hc; [done|]. cbn [app]. constructor.
  - apply IH; [done|]. intros a b Ha Hb. apply Hc; [by right|done].
  - apply Forall_app. split; [done|]. apply Forall_forall. intros y Hy. apply Hc; [by left|done].
Qed.

Lemma sorted_last {A} (R : A -> A -> Prop) l m x : StronglySorted R l -> last l = Some m -> x ∈ l -> x = m \/ R x m.
Proof.
  induction 1 as [|y l H IH Hy]; intros Hl Hx; [done|]. destruct l as [|z l]; [injection Hl as ->; apply list_elem_of_singleton in Hx; by left|].
  rewrite last_cons_cons in Hl. apply elem_of_cons in Hx as [->|Hx]; [|by apply IH]. right. rewrite Forall_forall in Hy. apply Hy.
  by apply last_Some_elem_of.
Qed.

(** The events after an update: the additions replace events of the same id. *)
Definition updated_events (E A : list ProductionCorpusEvent) (R : list string) : list ProductionCorpusEvent :=
  filter (fun e => ev_id e ∉ R ++ map ev_id A) E ++ A.

Lemma updated_nodup E A R : NoDup (map ev_id E) -> NoDup (map ev_id A) -> NoDup (map ev_id (updated_events E A R)).
Proof.
  intros H1 H2. unfold updated_events. rewrite map_app. apply NoDup_app. split; [|split; [|done]].
  - change (map ev_id) with (fmap (M:=list) ev_id) in *. eapply sublist_NoDup; [exact H1|]. apply fmap_sublist, sublist_filter.
  - intros x. rewrite list_elem_of_fmap. intros (e & -> & He%list_elem_of_filter). set_solver.
Qed.

Lemma filter_leaves (ids : list string) l : filter (fun x => leaf_id x ∉ ids) (map leaf_of l) = map leaf_of (filter (fun e => ev_id e ∉ ids) l).
Proof.
  induction l as [|e l IH]; [done|]. cbn [map]. rewrite !filter_cons. destruct (decide (ev_id e ∉ ids)) as [H|H].
  - rewrite decide_True by (by rewrite leaf_of_id). cbn [map]. by rewrite IH.
  - rewrite decide_False by (by rewrite leaf_of_id). by rewrite IH.
Qed.

Lemma update_merge E A R c : NoDup (map ev_id E) -> NoDup (map ev_id A) -> lc_leaves c ≡ₚ map leaf_of E ->
  buildCorpusRootLeafCacheFromLeaves (merge_leaves (fun id => bool_decide (id ∈ R ++ map ev_id A)) (lc_leaves c) (stableSort (map leaf_of A) leaf_cmp))
  = buildCorpusRootLeafCacheFromLeaves (map leaf_of (updated_events E A R)).
Proof.
  intros HE HA Hc. symmetry. apply from_leaves_perm; [|rewrite ids_leaves; by apply updated_nodup].
  rewrite merge_leaves_perm, stableSort_perm, Hc. unfold updated_events. rewrite map_app. apply Permutation_app; [|done].
  rewrite <- filter_leaves. apply reflexive_eq, list_filter_iff.
  intros l. symmetry. apply bool_decide_eq_false.
Qed.

Lemma update_tail E A c : NoDup (map ev_id E) -> NoDup (map ev_id A) -> buildCorpusRootLeafCacheFromLeaves (map leaf_of E) = Returns c ->
  (match last (lc_leaves c) with
   | None => True
   | Some m => Forall (fun l => string_cmp (leaf_id m) (leaf_id l) < 0) (stableSort (map leaf_of A) leaf_cmp)
   end) ->
  (f ← append_leaves (lc_forest c) (stableSort (map leaf_of A) leaf_cmp); cache_with (lc_leaves c ++ stableSort (map leaf_of A) leaf_cmp) f)
  = buildCorpusRootLeafCacheFromLeaves (map leaf_of (updated_events E A [])).
Proof.
  intros HE HA Hc Hlast. destruct (from_leaves_inv _ _ Hc) as (Hl & Hf & _). set (added := stableSort (map leaf_of A) leaf_cmp) in *.
  rewrite <- (append_leaves_app (lc_leaves c) added [] _ Hf).
  assert (Hlt : forall x y, x ∈ lc_leaves c -> y ∈ added -> string_cmp (leaf_id x) (leaf_id y) < 0).
  { intros x y Hx Hy. destruct (last (lc_leaves c)) as [m|] eqn:Em; [|apply last_None in Em; rewrite Em in Hx; by apply elem_of_nil in Hx].
    rewrite Forall_forall in Hlast. specialize (Hlast y Hy). destruct (sorted_last (cmp_le leaf_cmp) (lc_leaves c) m x) as [->|Hxm]; [rewrite Hl; exact (stableSort_sorted leaf_cmp _)|done..|].
    unfold leaf_cmp in Hxm. pose proof (cmp_trans (leaf_id x) (leaf_id m) (leaf_id y) Hxm ltac:(lia)) as Hle.
    unfold string_cmp in *. destruct (string_lt (leaf_id x) (leaf_id y)) eqn:E1; [lia|]. destruct (string_lt (leaf_id y) (leaf_id x)) eqn:E2; [lia|].
    pose proof (string_lt_total _ _ E1 E2) as Ee. rewrite Ee in Hxm. destruct (string_lt (leaf_id m) (leaf_id y)) eqn:E3; [|destruct (string_lt (leaf_id y) (leaf_id m)); lia].
    rewrite (string_lt_asym _ _ E3) in Hxm. destruct (string_lt (leaf_id y) (leaf_id m)); lia. }
  assert (HF : updated_events E A [] = E ++ A).
  { unfold updated_events. f_equal. cbn [app]. apply filter_keeps. intros e He Hin. apply list_elem_of_fmap in Hin as (a & Ea & Ha).
    specialize (Hlt (leaf_of e) (leaf_of a)). rewrite !leaf_of_id, Ea in Hlt. unfold string_cmp, string_lt in Hlt. rewrite chars_lt_irrefl in Hlt.
    assert (0 < 0); [|lia]. apply Hlt; [rewrite Hl, stableSort_perm|unfold added; rewrite stableSort_perm]; apply list_elem_of_fmap; eauto. }
  rewrite HF. unfold buildCorpusRootLeafCacheFromLeaves, buildForestFromLeaves.
  assert (Es : stableSort (map leaf_of (E ++ A)) leaf_cmp = lc_leaves c ++ added); [|by rewrite Es].
  assert (Hperm : lc_leaves c ++ added ≡ₚ map leaf_of (E ++ A)) by (unfold added; rewrite Hl, !stableSort_perm, map_app; done).
  apply (StronglySorted_unique_strong (cmp_le leaf_cmp)).
  - intros a b Ha Hb. apply (leaf_ids_antisym (map leaf_of (E ++ A))); [|by rewrite stableSort_perm in Ha|by rewrite <- Hperm].
    rewrite ids_leaves, <- HF. by apply updated_nodup.
  - exact (stableSort_sorted leaf_cmp _).
  - apply sorted_app; [rewrite Hl; exact (stableSort_sorted leaf_cmp _)|exact (stableSort_sorted leaf_cmp _)|]. intros x y Hx Hy. specialize (Hlt x y Hx Hy). unfold leaf_cmp. lia.
  - by rewrite stableSort_perm, Hperm.
Qed.

Lemma update_cache_correct E A R c : NoDup (map ev_id E) -> NoDup (map ev_id A) -> Forall serializable A ->
  buildCorpusRootLeafCache NumberToString E = Returns c ->
  updateCorpusRootLeafCache NumberToString c A R = buildCorpusRootLeafCache NumberToString (updated_events E A R).
Proof.
  intros HE HA HsA Hb. pose proof (build_inv _ _ Hb) as HsE. assert (Hb' := Hb). rewrite build_returns in Hb' by done.
  assert (HU : buildCorpusRootLeafCache NumberToString (updated_events E A R) = buildCorpusRootLeafCacheFromLeaves (map leaf_of (updated_events E A R))).
  { apply build_returns; [|by apply updated_nodup]. apply Forall_app. split; [|done]. rewrite Forall_forall in HsE. apply Forall_forall.
    intros e He%list_elem_of_filter. apply HsE. tauto. }
  destruct (from_leaves_inv _ _ Hb') as (Hl & _ & _). assert (Hlp : lc_leaves c ≡ₚ map leaf_of E) by (rewrite Hl; apply stableSort_perm).
  unfold updateCorpusRootLeafCache. destruct (bool_decide (A = []) && bool_decide (R = [])) eqn:E0.
  { apply andb_true_iff in E0 as [EA ER]. apply bool_decide_eq_true in EA, ER. subst A R. unfold updated_events. cbn [map app]. rewrite app_nil_r.
    rewrite filter_keeps; [done|]. intros e _. apply not_elem_of_nil. }
  rewrite (proj2 (mapM_leaves A)) by done. cbn [mbind outcome_bind]. rewrite HU.
  destruct (bool_decide (R = []) && _) eqn:Et; [|by apply update_merge]. apply andb_true_iff in Et as [ER Et]. apply bool_decide_eq_true in ER. subst R.
  apply update_tail; [done..|]. destruct (last (lc_leaves c)); [|done]. apply Forall_forall. intros l Hl'. rewrite forallb_forall in Et.
  apply Z.ltb_lt, Et. by apply list_elem_of_In.
Qed.

(** C27. The incremental update of a leaf cache is the cache of the updated corpus, built from scratch:
    same leaves, same forest, same root, on the append path and on the merge path. *)
Theorem updateCorpusRootLeafCache_correct (E A : list ProductionCorpusEvent) (R : list string) (c : CorpusRootLeafCache) :
  NoDup (map ev_id E) -> NoDup (map ev_id A) -> Forall serializable A ->
  buildCorpusRootLeafCache NumberToString E = Returns c ->
  updateCorpusRootLeafCache NumberToString c A R = buildCorpusRootLeafCache NumberToString (updated_events E A R).
Proof. apply update_cache_correct. Qed.
End Tree.

(** Records land in one split at any epoch, memory documents in the visible one. *)
Lemma expectedSplit_default {HK : Hasher} id epoch : exists s, expectedSplitForRecord id epoch DEFAULT_SPLIT_RATIOS = Returns s
  /\ (isMemoryDocumentEventId id = true -> s = train_visible).
Proof. unfold expectedSplitForRecord. destruct (isMemoryDocumentEventId id); eexists; (split; [reflexivity|]); done. Qed.

Example memory_ids : isMemoryDocumentEventId "zz_e12_mem_7" = true /\ isMemoryDocumentEventId "zz_e_mem_7" = false
  /\ isMemoryDocumentEventId "mem_1" = true /\ isMemoryDocumentEventId "q_mem_1" = false.
Proof. repeat split; reflexivity. Qed.

(** ** Witnesses: three leaves, and an event replaced. *)
Definition leaves_w : list CorpusRootLeaf := [mkLeaf "b" (zeros 32); mkLeaf "a" (replicate 32 1); mkLeaf "c" (replicate 32 2)].

Lemma corpus_root_is_padded_tree_witness : exists c, buildCorpusRootLeafCacheFromLeaves (HK:=const_hasher) leaves_w = Returns c
  /\ map leaf_id (lc_leaves c) = ["a"; "b"; "c"]%string.
Proof.
  destruct (corpus_root_is_padded_tree (HK:=const_hasher) leaves_w) as (c & E & El & _); [cbn; lia|]. exists c. split; [exact E|]. rewrite El. reflexivity.
Defined.

Definition event_of (id : string) : ProductionCorpusEvent :=
  mkEvent id "temporal" "d" train_visible "q" [] [] [] false "0xab" [] (mkEmbedding "m" "r" (mkLayout 2 "int8" 4) [1; 2] [] []) [].
Definition built_w : CorpusRootLeafCache :=
  match buildCorpusRootLeafCache (HK:=const_hasher) int_printer [event_of "b"; event_of "a"] with Returns c => c | Throws _ => mkLeafCache 0 "" [] [] end.
Lemma built_w_eq : buildCorpusRootLeafCache (HK:=const_hasher) int_printer [event_of "b"; event_of "a"] = Returns built_w.
Proof. vm_compute. reflexivity. Qed.

Lemma updateCorpusRootLeafCache_correct_witness :
  updateCorpusRootLeafCache (HK:=const_hasher) int_printer built_w [event_of "a"] ["b"%string]
  = buildCorpusRootLeafCache (HK:=const_hasher) int_printer (updated_events [event_of "b"; event_of "a"] [event_of "a"] ["b"%string]).
Proof.
  apply (updateCorpusRootLeafCache_correct (HK:=const_hasher) int_printer).
  - apply (bool_decide_unpack _). reflexivity.
  - apply NoDup_singleton.
  - apply Forall_singleton. vm_compute. reflexivity.
  - exact built_w_eq.
Defined.
