(* ===== verification/CorpusDelta.v ===== *)
(** * Corpus deltas, admission and frontier pruning
      (packages/coretex/src/corpus: delta.ts, admission.ts, epoch-rotation.ts)

    A delta adds and removes events and carries the corpus root before and
    after. Theorems: a delta built from a well-formed corpus applies to it
    and gives the updated corpus, whose root is again the root of its
    events, with or without leaf caches on either side; the admission batch
    is a partition of the candidates within the caps, in order; pruning the
    ids that left the corpus from an exported frontier leaves a state that
    restores, with the same split of what remains. *)
From Stdlib Require Import Ascii Sorted.
From stdpp Require Import sorting.
From S2P Require Import Prelude Float Codec Keccak Merkle JsSort CanonicalJson Substrate CorpusRoot EpochFrontier.
#[local] Open Scope Z_scope.

Record LabelingProvenance := mkProvenance { lp_modelId : string; lp_revision : string; lp_runtime : string; lp_batchHash : string }.

Record ProductionCorpus := mkCorpus {
  events : list ProductionCorpusEvent;
  byId : list (string * ProductionCorpusEvent);
  corpusRootCache : option CorpusRootLeafCache;
  entities : option (list jsval);
  corpusRoot : string;
  corpusEpoch : Z;
  biEncoderRevision : string;
  biEncoderModelId : string;
  biEncoderRetrievalKeyLayout : RetrievalKeyLayout;
  labelingModelRevision : string;
  labelingModelId : string
}.

Record CorpusDelta := mkDelta {
  schemaVersion : string;
  previousRoot : string;
  nextRoot : string;
  addedIds : list string;
  addedRecords : list ProductionCorpusEvent;
  removedIds : list string;
  labelingProvenance : LabelingProvenance;
  biEncoder : string * string * RetrievalKeyLayout;
  d_epoch : Z;
  d_corpusEpoch : Z;
  generatedAt : string
}.

Definition DELTA_SCHEMA : string := "coretex.corpus-delta.v1".

Section Delta.
Context {HK : Hasher} (NumberToString : number -> string).

(** [new Map(events.map((e) => [e.id, e]))] *)
Definition index_events (l : list ProductionCorpusEvent) : list (string * ProductionCorpusEvent) :=
  fold_left (fun m e => jsmap_set (ev_id e) e m) l [].

(** The per-record checks of both sides. *)
Fixpoint check_records (c : ProductionCorpus) (l : list ProductionCorpusEvent) : outcome unit :=
  match l with
  | [] => Returns tt
  | e :: l' =>
    expected ← expectedSplitForRecord (ev_id e) (corpusEpoch c) DEFAULT_SPLIT_RATIOS;
    throw_when bool_decide (split e <> expected) with GenericError "split assignment mismatch" ;;
    throw_when negb (String.eqb (modelId (embeddings e)) (biEncoderModelId c)) || negb (String.eqb (revision (embeddings e)) (biEncoderRevision c))
      with GenericError "embeddings bi-encoder mismatch" ;;
    check_records c l'
  end.
(** [applyCorpusDelta] checks the bi-encoder before the split. *)
Fixpoint check_added (c : ProductionCorpus) (l : list ProductionCorpusEvent) : outcome unit :=
  match l with
  | [] => Returns tt
  | e :: l' =>
    throw_when negb (String.eqb (modelId (embeddings e)) (biEncoderModelId c)) || negb (String.eqb (revision (embeddings e)) (biEncoderRevision c))
      with GenericError "embeddings bi-encoder mismatch" ;;
    expected ← expectedSplitForRecord (ev_id e) (corpusEpoch c) DEFAULT_SPLIT_RATIOS;
    throw_when bool_decide (expected <> split e) with GenericError "split assignment mismatch" ;;
    check_added c l'
  end.

Definition check_cache_root (c : ProductionCorpus) (cache : CorpusRootLeafCache) : bool :=
  String.eqb (toLowerCase (lc_root cache)) (toLowerCase (corpusRoot c)).

Definition buildCorpusDelta (previousCorpus : ProductionCorpus) (additions : list ProductionCorpusEvent) (removals : list string) (epoch : Z)
    (provenance : LabelingProvenance) (now : string) (previousRootCache : option CorpusRootLeafCache) : outcome CorpusDelta :=
  let remaining := if bool_decide (removals = []) then events previousCorpus
                   else filter (fun e => ev_id e ∉ removals) (events previousCorpus) in
  let remainingIds := if bool_decide (removals = []) then (byId previousCorpus).*1 else map ev_id remaining in
  let newAdditions := filter (fun e => ev_id e ∉ remainingIds) additions in
  _ ← check_records previousCorpus newAdditions;
  let rootCache := match previousRootCache with Some c => Some c | None => corpusRootCache previousCorpus end in
  nextRoot ← (match rootCache with
    | Some cache =>
      throw_when negb (check_cache_root previousCorpus cache) with GenericError "previousRootCache root does not match" ;;
      c' ← updateCorpusRootLeafCache NumberToString cache newAdditions removals;
      Returns (lc_root c')
    | None => computeCorpusRoot NumberToString (remaining ++ newAdditions)
    end);
  Returns (mkDelta DELTA_SCHEMA (corpusRoot previousCorpus) nextRoot (map ev_id newAdditions) newAdditions
    (filter (fun id => id ∈ (byId previousCorpus).*1) removals) provenance
    (biEncoderModelId previousCorpus, biEncoderRevision previousCorpus, biEncoderRetrievalKeyLayout previousCorpus)
    epoch (corpusEpoch previousCorpus) now).

Record ApplyCorpusDeltaOptions := mkApplyOptions { rootCache : option CorpusRootLeafCache; attachRootCache : bool; verifyRoot : bool }.

Definition applyCorpusDelta (corpus : ProductionCorpus) (delta : CorpusDelta) (options : ApplyCorpusDeltaOptions) : outcome ProductionCorpus :=
  throw_when negb (String.eqb (schemaVersion delta) DELTA_SCHEMA) with GenericError "unsupported schemaVersion" ;;
  throw_when negb (String.eqb (toLowerCase (previousRoot delta)) (toLowerCase (corpusRoot corpus))) with GenericError "hash continuity check failed" ;;
  throw_when negb (String.eqb (biEncoder delta).1.1 (biEncoderModelId corpus)) || negb (String.eqb (biEncoder delta).1.2 (biEncoderRevision corpus))
    with GenericError "bi-encoder pinning mismatch" ;;
  let addedRecordsById := index_events (addedRecords delta) in
  throw_when negb (length addedRecordsById =? length (addedRecords delta))%nat with GenericError "duplicate addedRecords id" ;;
  throw_when existsb (fun id => bool_decide (id ∉ addedRecordsById.*1)) (addedIds delta) with GenericError "addedId is missing from addedRecords" ;;
  throw_when existsb (fun e => bool_decide (ev_id e ∉ addedIds delta)) (addedRecords delta) with GenericError "addedRecord is not listed in addedIds" ;;
  let kept := filter (fun e => ev_id e ∉ removedIds delta /\ ev_id e ∉ addedIds delta) (events corpus) in
  let next := kept ++ addedRecords delta in
  _ ← check_added corpus (addedRecords delta);
  let rootCache := match rootCache options with Some c => Some c | None => corpusRootCache corpus end in
  nextRootCache ← (match rootCache with
    | Some cache =>
      throw_when negb (check_cache_root corpus cache) with GenericError "rootCache root does not match" ;;
      c' ← updateCorpusRootLeafCache NumberToString cache (addedRecords delta) (removedIds delta);
      throw_when negb (String.eqb (toLowerCase (lc_root c')) (toLowerCase (nextRoot delta))) with GenericError "cached nextRoot does not match" ;;
      Returns (Some c')
    | None =>
      if verifyRoot options then
        computed ← computeCorpusRoot NumberToString next;
        throw_when negb (String.eqb (toLowerCase computed) (toLowerCase (nextRoot delta))) with GenericError "computed nextRoot does not match" ;;
        Returns None
      else Returns None
    end);
  Returns (mkCorpus next (index_events next) (if attachRootCache options then nextRootCache else None) None
    (nextRoot delta) (corpusEpoch corpus) (biEncoderRevision corpus) (biEncoderModelId corpus) (biEncoderRetrievalKeyLayout corpus)
    (lp_revision (labelingProvenance delta)) (lp_modelId (labelingProvenance delta))).
End Delta.

(** ** Admission *)
Record AdmissionPolicy := mkPolicy {
  totalCap : Z;
  perDomainCap : Z;
  minHardNegativesPerRecord : Z;
  minTruthDocumentsPerRecord : Z;
  requireSourceProvenance : bool;
  minPositiveQrelEntries : Z;
  requiredBiEncoderModelId : string;
  requiredBiEncoderRevision : string
}.
Definition DEFAULT_ADMISSION_POLICY (modelId revision : string) : AdmissionPolicy := mkPolicy 10000 1500 2 1 true 1 modelId revision.

Inductive AdmissionRejectionReason :=
  | missing_source_provenance | insufficient_hard_negatives | insufficient_truth_documents | insufficient_positive_qrels
  | embedding_model_id_mismatch | embedding_revision_mismatch | per_domain_cap_exceeded | total_cap_exceeded.

Record AdmissionDecision := mkDecision {
  admitted : list ProductionCorpusEvent;
  rejected : list (ProductionCorpusEvent * AdmissionRejectionReason);
  perDomainCounts : list (string * option Z)
}.

(** [perDomainCounts] is a plain object, so a domain named like a member every object inherits reads that
    member, which is no number; assigning to [__proto__] makes no member at all. A count is [None] when it
    is not a number. *)
Definition OBJECT_PROTOTYPE : list string :=
  ["constructor"; "__defineGetter__"; "__defineSetter__"; "hasOwnProperty"; "__lookupGetter__"; "__lookupSetter__";
   "isPrototypeOf"; "propertyIsEnumerable"; "toString"; "valueOf"; "__proto__"; "toLocaleString"]%string.
Definition inherited (x : string) : bool := existsb (String.eqb x) OBJECT_PROTOTYPE.

(** [perDomainCounts[domain] ?? 0] *)
Definition count_of (x : string) (counts : list (string * option Z)) : option Z :=
  match jsmap_get x counts with Some c => c | None => if inherited x then None else Some 0 end.

(** [domainCount >= perDomainCap], false when the count is not a number. *)
Definition at_cap (cap : Z) (c : option Z) : bool := match c with Some n => cap <=? n | None => false end.

(** [perDomainCounts[domain] = domainCount + 1] *)
Definition set_count (x : string) (c : option Z) (counts : list (string * option Z)) : list (string * option Z) :=
  if String.eqb x "__proto__" then counts else jsmap_set x (option_map (Z.add 1) c) counts.

(** [s.trim() === ''] *)
Definition is_blank (s : string) : bool := forallb is_js_space (String.list_ascii_of_string s).

(** The shape rules, in the order they are tried. *)
Definition shape_reason (policy : AdmissionPolicy) (r : ProductionCorpusEvent) : option AdmissionRejectionReason :=
  let isAbstention := (length (truthDocuments r) =? 0)%nat in
  if requireSourceProvenance policy && is_blank (sourceHash r) then Some missing_source_provenance
  else if negb isAbstention && (Z.of_nat (length (truthDocuments r)) <? minTruthDocumentsPerRecord policy) then Some insufficient_truth_documents
  else if Z.of_nat (length (hardNegatives r)) <? minHardNegativesPerRecord policy then Some insufficient_hard_negatives
  else if negb isAbstention
       && (Z.of_nat (length (filter (fun q => dlt (of_Z 0) (relevance q) = true) (qrels r))) <? minPositiveQrelEntries policy) then Some insufficient_positive_qrels
  else if negb (String.eqb (modelId (embeddings r)) (requiredBiEncoderModelId policy)) then Some embedding_model_id_mismatch
  else if negb (String.eqb (revision (embeddings r)) (requiredBiEncoderRevision policy)) then Some embedding_revision_mismatch
  else None.

Definition admit_one (policy : AdmissionPolicy) (d : AdmissionDecision) (r : ProductionCorpusEvent) : AdmissionDecision :=
  let reject reason := mkDecision (admitted d) (rejected d ++ [(r, reason)]) (perDomainCounts d) in
  match shape_reason policy r with
  | Some reason => reject reason
  | None =>
    let domainCount := count_of (domain r) (perDomainCounts d) in
    if at_cap (perDomainCap policy) domainCount then reject per_domain_cap_exceeded
    else if totalCap policy <=? Z.of_nat (length (admitted d)) then reject total_cap_exceeded
    else mkDecision (admitted d ++ [r]) (rejected d) (set_count (domain r) domainCount (perDomainCounts d))
  end.

Definition admitCorpusBatch (candidates : list ProductionCorpusEvent) (policy : AdmissionPolicy) : AdmissionDecision :=
  fold_left (admit_one policy) candidates (mkDecision [] [] []).

(** ** Frontier pruning *)
Record PrunedEpochFrontierState := mkPruned {
  pr_state : EpochFrontierRuntimeState;
  prunedOrderIds : list string;
  prunedActiveIds : list string;
  prunedRetiredIds : list string
}.

Definition pruneEpochFrontierState (state : EpochFrontierRuntimeState) (isKnownId : string -> bool) : outcome PrunedEpochFrontierState :=
  throw_when negb (String.eqb (st_schemaVersion state) SCHEMA) with GenericError "pruneEpochFrontierState: unsupported schema" ;;
  let '(order, prunedOrder, ptr) := fold_left (fun '((order, pruned, ptr) : list string * list string * nat) '((idx, id) : nat * string) =>
    if isKnownId id then (order ++ [id], pruned, ptr)
    else (order, pruned ++ [id], if (idx <? st_reservePtr state)%nat then (ptr - 1)%nat else ptr))
    (imap pair (st_order state)) ([], [], st_reservePtr state) in
  Returns (mkPruned
    (mkRuntime (st_schemaVersion state) order ptr (filter (fun e => isKnownId e.1 = true) (st_active state))
      (filter (fun id => isKnownId id = true) (st_retired state)) (st_cumulativeActivated state) (st_cumulativeRetired state)
      (st_initialized state) (st_injectedSinceLastStep state) (st_ewmaAccepts state))
    prunedOrder
    (filter (fun e => isKnownId e.1 = false) (st_active state)).*1
    (filter (fun id => isKnownId id = false) (st_retired state))).

(** ** Deltas *)
Section DeltaTheorems.
Context {HK : Hasher} (NumberToString : number -> string).

Lemma index_events_eq (l : list ProductionCorpusEvent) : NoDup (map ev_id l) -> index_events l = map (fun e => (ev_id e, e)) l.
Proof.
  intros H. pose proof (jsmap_of_entries (map (fun e => (ev_id e, e)) l) []) as J. cbn [app] in J.
  rewrite <- J.
  - clear J. unfold index_events. generalize ([] : list (string * ProductionCorpusEvent)). induction l as [|e l IH]; intros acc; [done|]. cbn [map fold_left fst snd].
    apply IH. by apply NoDup_cons in H as [_ ?].
  - change (map (fun e => (ev_id e, e)) l) with ((fun e => (ev_id e, e)) <$> l). rewrite <- list_fmap_compose. exact H.
Qed.

Lemma index_events_keys (l : list ProductionCorpusEvent) : NoDup (map ev_id l) -> (index_events l).*1 = map ev_id l /\ length (index_events l) = length l.
Proof.
  intros H. rewrite index_events_eq by done. rewrite length_map. split; [|done].
  change (map (fun e => (ev_id e, e)) l) with ((fun e => (ev_id e, e)) <$> l). by rewrite <- list_fmap_compose.
Qed.

(** A well-formed corpus: distinct ids, its index, and the root of its events; a cache it carries is theirs. *)
Record corpus_ok (c : ProductionCorpus) : Prop := {
  co_ids : NoDup (map ev_id (events c));
  co_index : byId c = index_events (events c);
  co_root : computeCorpusRoot NumberToString (events c) = Returns (corpusRoot c);
  co_cache : forall k, corpusRootCache c = Some k -> buildCorpusRootLeafCache NumberToString (events c) = Returns k
}.
Definition cache_honest (c : ProductionCorpus) (o : option CorpusRootLeafCache) : Prop :=
  forall k, o = Some k -> buildCorpusRootLeafCache NumberToString (events c) = Returns k.

Lemma co_build c : corpus_ok c -> exists k, buildCorpusRootLeafCache NumberToString (events c) = Returns k /\ lc_root k = corpusRoot c.
Proof.
  intros H. pose proof (co_root c H) as Hr. unfold computeCorpusRoot in Hr. apply bind_Returns in Hr as (k & E & Hr). apply Returns_inj in Hr. eauto.
Qed.

Lemma check_cache_ok c k : corpus_ok c -> buildCorpusRootLeafCache NumberToString (events c) = Returns k -> check_cache_root c k = true.
Proof.
  intros H E. destruct (co_build c H) as (k' & E' & Hr). rewrite E in E'. apply Returns_inj in E' as ->. unfold check_cache_root. rewrite Hr. apply String.eqb_refl.
Qed.

Lemma check_records_added c l : check_records c l = Returns tt -> check_added c l = Returns tt.
Proof.
  induction l as [|e l IH]; [done|]. cbn [check_records check_added]. destruct (expectedSplitForRecord _ _ _) as [s|]; [|done]. cbn [mbind outcome_bind].
  destruct (bool_decide (split e <> s)) eqn:E1; [done|]. destruct (_ || _); [done|]. intros H.
  rewrite bool_decide_false; [by apply IH|]. apply bool_decide_eq_false in E1. intros Hn. by apply E1.
Qed.

(** The events a delta leads to. *)
Definition next_events (c : ProductionCorpus) (A : list ProductionCorpusEvent) (R : list string) : list ProductionCorpusEvent :=
  let remaining := filter (fun e => ev_id e ∉ R) (events c) in
  remaining ++ filter (fun e => ev_id e ∉ map ev_id remaining) A.

Lemma filter_ext_in {A} (P Q : A -> Prop) `{forall x, Decision (P x), forall x, Decision (Q x)} (l : list A) :
  (forall x, x ∈ l -> P x <-> Q x) -> filter P l = filter Q l.
Proof.
  induction l as [|x l IH]; intros Hpq; [done|]. assert (IH' := IH ltac:(intros y Hy; apply Hpq; by right)). specialize (Hpq x ltac:(by left)).
  rewrite !filter_cons. repeat case_decide; rewrite IH'; done || tauto.
Qed.

(** An index has as many entries as its list only when the ids are distinct. *)
Lemma index_events_length (l : list ProductionCorpusEvent) : length (index_events l) = length l -> NoDup (map ev_id l).
Proof.
  intros Hl. assert (H : NoDup (index_events l).*1 /\ (forall x, x ∈ (index_events l).*1 -> x ∈ map ev_id l)).
  { clear Hl. unfold index_events. induction l as [|e l IH] using rev_ind; [split; [apply NoDup_nil_2|done]|]. rewrite fold_left_app, map_app. cbn [fold_left map]. destruct IH as [H1 H2].
    split; [by apply jsmap_set_NoDup|]. intros x. rewrite jsmap_set_keys, elem_of_app, list_elem_of_singleton. case_decide; [intros Hx; left; by apply H2|].
    rewrite elem_of_app, list_elem_of_singleton. intros [Hx|Hx]; [left; by apply H2|by right]. }
  destruct H as [H1 H2]. assert (P : (index_events l).*1 ≡ₚ map ev_id l); [|by rewrite <- P].
  apply submseteq_length_Permutation; [by apply NoDup_submseteq|]. by rewrite length_map, length_fmap, Hl.
Qed.

(** A cache that updates has hashed the additions. *)
Lemma update_serializable k A R k' : updateCorpusRootLeafCache NumberToString k A R = Returns k' -> Forall (serializable NumberToString) A.
Proof.
  unfold updateCorpusRootLeafCache. destruct (bool_decide (A = []) && _) eqn:E; [apply andb_true_iff in E as [E%bool_decide_eq_true _]; subst; constructor|].
  intros H. apply bind_Returns in H as (hs & H & _). by apply mapM_returns in H as [H _].
Qed.

(** Dropping the removed ids, or those removed or replaced, leaves the same events. *)
Lemma updated_events_next c A R :
  let A' := filter (fun e => ev_id e ∉ map ev_id (filter (fun e => ev_id e ∉ R) (events c))) A in
  updated_events (events c) A' R = next_events c A R.
Proof.
  cbv zeta. unfold updated_events, next_events. f_equal. apply filter_ext_in. intros e He. rewrite elem_of_app. split; [tauto|].
  intros HR [HR'|HA']; [done|]. apply list_elem_of_fmap in HA' as (a & Ea & Ha%list_elem_of_filter). apply (proj1 Ha).
  rewrite <- Ea. apply list_elem_of_fmap. exists e. split; [done|]. by apply list_elem_of_filter.
Qed.

Lemma existsb_false {A} (f : A -> bool) (l : list A) : (forall x, x ∈ l -> f x = false) -> existsb f l = false.
Proof. induction l as [|x l IH]; intros Hf; [done|]. cbn [existsb]. rewrite Hf by (by left). apply IH. intros y Hy. apply Hf. by right. Qed.

Lemma build_delta_inv c A R epoch prov now cache d : corpus_ok c -> cache_honest c cache ->
  buildCorpusDelta NumberToString c A R epoch prov now cache = Returns d ->
  let A' := filter (fun e => ev_id e ∉ map ev_id (filter (fun e => ev_id e ∉ R) (events c))) A in
  schemaVersion d = DELTA_SCHEMA /\ previousRoot d = corpusRoot c /\ addedRecords d = A' /\ addedIds d = map ev_id A'
  /\ removedIds d = filter (fun id => id ∈ map ev_id (events c)) R /\ biEncoder d = (biEncoderModelId c, biEncoderRevision c, biEncoderRetrievalKeyLayout c)
  /\ check_records c A' = Returns tt /\ Forall (serializable NumberToString) A'
  /\ (NoDup (map ev_id A') -> computeCorpusRoot NumberToString (next_events c A R) = Returns (nextRoot d)).
Proof.
  intros H Hh. unfold buildCorpusDelta. pose proof (co_ids c H) as Hnd. destruct (index_events_keys (events c) Hnd) as [Hkeys _].
  rewrite <- (co_index c H) in Hkeys. rewrite Hkeys.
  assert (Er : (if bool_decide (R = []) then events c else filter (fun e => ev_id e ∉ R) (events c)) = filter (fun e => ev_id e ∉ R) (events c)).
  { case_bool_decide; [|done]. subst R. symmetry. apply filter_keeps. intros e _. apply not_elem_of_nil. }
  rewrite Er. set (rem := filter (fun e => ev_id e ∉ R) (events c)) in *.
  assert (Ei : (if bool_decide (R = []) then map ev_id (events c) else map ev_id rem) = map ev_id rem) by (rewrite <- Er; by case_bool_decide).
  rewrite Ei. cbv zeta. set (A' := filter (fun e => ev_id e ∉ map ev_id rem) A).
  destruct (check_records c A') as [[]|] eqn:Ec; [|done]. cbn [mbind outcome_bind]. intros E. apply bind_Returns in E as (r & Hr & E).
  apply Returns_inj in E as <-. cbn [schemaVersion previousRoot addedRecords addedIds removedIds biEncoder nextRoot]. do 7 (split; [done|]).
  destruct (match cache with Some c0 => Some c0 | None => corpusRootCache c end) as [k|] eqn:Ek.
  - assert (Hk : buildCorpusRootLeafCache NumberToString (events c) = Returns k) by (destruct cache; [by apply Hh|by apply (co_cache c H)]).
    rewrite (check_cache_ok c k H Hk) in Hr. cbn [negb throw_if] in Hr. change (mbind ?f (Returns tt)) with (f tt) in Hr. cbn beta in Hr. apply bind_Returns in Hr as (k' & Hu & Hr). apply Returns_inj in Hr as <-.
    pose proof (update_serializable _ _ _ _ Hu) as Hs. split; [exact Hs|]. intros HA. rewrite (update_cache_correct NumberToString (events c) A' R k Hnd HA Hs Hk) in Hu.
    pose proof (updated_events_next c A R) as Hn. cbv zeta in Hn. fold rem in Hn. fold A' in Hn. rewrite Hn in Hu. unfold computeCorpusRoot. by rewrite Hu.
  - change (next_events c A R) with (rem ++ A'). split; [|done]. unfold computeCorpusRoot in Hr. apply bind_Returns in Hr as (k & Hk & _).
    apply build_inv, Forall_app in Hk. apply Hk.
Qed.

(** C26. What becomes of a delta built from a well-formed corpus, whichever side carries a leaf cache. If the additions it
    keeps have distinct ids it applies: the result is the corpus without the removals and with the additions that were not
    there, its root is the one the delta announces and the root of its events, and it is well-formed again; its entity
    table is gone. If two of them share an id the builder has announced a root all the same and applying always throws. *)
Theorem delta_applies (c : ProductionCorpus) (A : list ProductionCorpusEvent) (R : list string) (epoch : Z) (prov : LabelingProvenance)
    (now : string) (cache : option CorpusRootLeafCache) (d : CorpusDelta) (opts : ApplyCorpusDeltaOptions) :
  corpus_ok c -> cache_honest c cache -> cache_honest c (rootCache opts) ->
  buildCorpusDelta NumberToString c A R epoch prov now cache = Returns d ->
  previousRoot d = corpusRoot c
  /\ (NoDup (addedIds d) -> exists c', applyCorpusDelta NumberToString c d opts = Returns c' /\ corpus_ok c'
      /\ events c' = next_events c A R /\ corpusRoot c' = nextRoot d /\ entities c' = None)
  /\ (~ NoDup (addedIds d) -> applyCorpusDelta NumberToString c d opts = Throws (GenericError "duplicate addedRecords id")).
Proof.
  intros H Hh Ho Hd. pose proof (build_delta_inv c A R epoch prov now cache d H Hh Hd) as Hi. cbv zeta in Hi.
  set (A' := filter (fun e => ev_id e ∉ map ev_id (filter (fun e => ev_id e ∉ R) (events c))) A) in *.
  destruct Hi as (E1 & E2 & E3 & E4 & E5 & E6 & Ec & HsA & Hroot). split; [done|]. rewrite E4. split; [intros HA'|intros HA'; unfold applyCorpusDelta; rewrite E1, E2, E3, E6, !String.eqb_refl].
  2: { cbn [negb fst snd orb]. rewrite ?String.eqb_refl. cbn [negb orb throw_if]. destruct (_ =? _)%nat eqn:El; [|done]. apply Nat.eqb_eq in El. by destruct HA'; apply index_events_length. }
  specialize (Hroot HA').
  destruct (index_events_keys A' HA') as [Hk Hl]. unfold applyCorpusDelta. rewrite E1, E2, E3, E4, E5, E6, !String.eqb_refl. cbn [negb fst snd orb].
  rewrite ?String.eqb_refl. cbn [negb orb throw_if]. rewrite Hl, Nat.eqb_refl, Hk. cbn [negb].
  rewrite (existsb_false (fun id => bool_decide (id ∉ map ev_id A')) (map ev_id A')) by (intros x Hx; apply bool_decide_eq_false; tauto).
  rewrite (existsb_false (fun e => bool_decide (ev_id e ∉ map ev_id A')) A') by (intros x Hx; apply bool_decide_eq_false; intros Hn; apply Hn, list_elem_of_fmap; eauto).
  cbn [throw_if]. repeat change (mbind ?f (Returns tt)) with (f tt). cbn beta.
  assert (En : filter (fun e => ev_id e ∉ filter (fun id => id ∈ map ev_id (events c)) R /\ ev_id e ∉ map ev_id A') (events c) ++ A' = next_events c A R).
  { pose proof (updated_events_next c A R) as Hn. cbv zeta in Hn. fold A' in Hn. rewrite <- Hn. unfold updated_events. f_equal. apply filter_ext_in.
    intros e He. rewrite elem_of_app, list_elem_of_filter. assert (ev_id e ∈ map ev_id (events c)) by (apply list_elem_of_fmap; eauto). tauto. }
  rewrite En, (check_records_added c A' Ec). change (mbind ?f (Returns tt)) with (f tt). cbn beta.
  assert (Hnd' : NoDup (map ev_id (next_events c A R))).
  { rewrite <- (updated_events_next c A R). apply updated_nodup; [apply H|done]. }
  assert (Hup : forall k, buildCorpusRootLeafCache NumberToString (events c) = Returns k ->
    updateCorpusRootLeafCache NumberToString k A' (filter (fun id => id ∈ map ev_id (events c)) R) = buildCorpusRootLeafCache NumberToString (next_events c A R)).
  { intros k Hkb. rewrite (update_cache_correct NumberToString (events c) A' _ k (co_ids c H) HA' HsA Hkb). unfold updated_events. rewrite <- En.
    f_equal. f_equal. apply filter_ext_in. intros e _. rewrite elem_of_app. tauto. }
  unfold computeCorpusRoot in Hroot. apply bind_Returns in Hroot as (kn & Hkn & Hroot). apply Returns_inj in Hroot.
  destruct (match rootCache opts with Some c0 => Some c0 | None => corpusRootCache c end) as [k|] eqn:Ek.
  - assert (Hkb : buildCorpusRootLeafCache NumberToString (events c) = Returns k) by (destruct (rootCache opts); [by apply Ho|by apply (co_cache c H)]).
    rewrite (check_cache_ok c k H Hkb), (Hup k Hkb), Hkn. cbn [negb throw_if mbind outcome_bind]. rewrite Hroot, String.eqb_refl. cbn [negb throw_if mbind outcome_bind].
    eexists. split; [done|]. cbn [events corpusRoot entities]. split; [|done]. constructor; cbn [events byId corpusRoot corpusRootCache]; try done.
    + unfold computeCorpusRoot. by rewrite Hkn, <- Hroot.
    + intros k2. destruct (attachRootCache opts); [|done]. intros [= <-]. done.
  - assert (Hc : (if verifyRoot opts then computed ← computeCorpusRoot NumberToString (next_events c A R);
        throw_when negb (String.eqb (toLowerCase computed) (toLowerCase (nextRoot d))) with GenericError "computed nextRoot does not match" ;; Returns None
        else Returns (@None CorpusRootLeafCache)) = Returns None).
    { destruct (verifyRoot opts); [|done]. unfold computeCorpusRoot. rewrite Hkn. cbn [mbind outcome_bind]. by rewrite Hroot, String.eqb_refl. }
    rewrite Hc. cbn [mbind outcome_bind]. eexists. split; [done|]. cbn [events corpusRoot entities]. split; [|done].
    constructor; cbn [events byId corpusRoot corpusRootCache]; try done; [unfold computeCorpusRoot; by rewrite Hkn, <- Hroot|]. by destruct (attachRootCache opts).
Qed.

(** The result carries no entity table, whatever the corpus had. *)
Lemma applyCorpusDelta_drops_entities c d opts c' : applyCorpusDelta NumberToString c d opts = Returns c' -> entities c' = None.
Proof.
  unfold applyCorpusDelta. intros E. repeat (apply bind_Returns in E as (? & _ & E)). by apply Returns_inj in E as <-.
Qed.
End DeltaTheorems.

(** ** Admission *)
Definition domain_count (d : string) (l : list ProductionCorpusEvent) : Z := Z.of_nat (length (filter (fun e => domain e = d) l)).

Definition admission_inv (policy : AdmissionPolicy) (cs : list ProductionCorpusEvent) (d : AdmissionDecision) : Prop :=
  admitted d ++ (rejected d).*1 ≡ₚ cs /\ admitted d `sublist_of` cs /\ (rejected d).*1 `sublist_of` cs
  /\ Forall (fun e => shape_reason policy e = None) (admitted d)
  /\ Z.of_nat (length (admitted d)) <= Z.max 0 (totalCap policy)
  /\ (forall x, count_of x (perDomainCounts d) = if inherited x then None else Some (domain_count x (admitted d)))
  /\ (forall x, inherited x = false -> domain_count x (admitted d) <= Z.max 0 (perDomainCap policy))
  /\ Forall (fun p => match p.2 with
       | per_domain_cap_exceeded => shape_reason policy p.1 = None /\ perDomainCap policy <= domain_count (domain p.1) (admitted d)
       | total_cap_exceeded => shape_reason policy p.1 = None /\ totalCap policy <= Z.of_nat (length (admitted d))
       | reason => shape_reason policy p.1 = Some reason
       end) (rejected d).

Lemma domain_count_app x l e : domain_count x (l ++ [e]) = domain_count x l + (if decide (domain e = x) then 1 else 0).
Proof. unfold domain_count. rewrite filter_app, length_app, filter_cons, filter_nil. case_decide; cbn; lia. Qed.

Lemma shape_reason_not_cap policy e r : shape_reason policy e = Some r -> r <> per_domain_cap_exceeded /\ r <> total_cap_exceeded.
Proof. unfold shape_reason. repeat (case_match; try done); intros [= <-]; done. Qed.

Lemma count_of_admit r m l x : (forall x, count_of x m = if inherited x then None else Some (domain_count x l)) ->
  count_of x (set_count (domain r) (count_of (domain r) m) m) = if inherited x then None else Some (domain_count x (l ++ [r])).
Proof.
  intros Hc. rewrite domain_count_app. unfold set_count. destruct (String.eqb_spec (domain r) "__proto__") as [E|E].
  { rewrite Hc. destruct (inherited x) eqn:Ex; [done|]. case_decide as Er; [|by rewrite Z.add_0_r]. rewrite <- Er, E in Ex. done. }
  pose proof (Hc x) as Hx. unfold count_of at 1. rewrite jsmap_get_set. case_decide as Er.
  - subst x. rewrite Hc. destruct (inherited (domain r)); [done|]. rewrite decide_True by done. cbn. f_equal. lia.
  - fold (count_of x m). rewrite Hx, decide_False by congruence. by rewrite Z.add_0_r.
Qed.

Lemma admit_one_inv policy cs d r : admission_inv policy cs d -> admission_inv policy (cs ++ [r]) (admit_one policy d r).
Proof.
  intros (Hp & Ha & Hr & Hs & Ht & Hc & Hd & Hrej).
  assert (Hreject : forall reason, (match reason with
       | per_domain_cap_exceeded => shape_reason policy r = None /\ perDomainCap policy <= domain_count (domain r) (admitted d)
       | total_cap_exceeded => shape_reason policy r = None /\ totalCap policy <= Z.of_nat (length (admitted d))
       | reason => shape_reason policy r = Some reason end) ->
    admission_inv policy (cs ++ [r]) (mkDecision (admitted d) (rejected d ++ [(r, reason)]) (perDomainCounts d))).
  { intros reason Hreason. unfold admission_inv. cbn [admitted rejected perDomainCounts]. rewrite fmap_app. cbn [fmap list_fmap fst].
    split; [rewrite <- Hp; solve_Permutation|]. split; [by apply sublist_inserts_r|]. split; [by apply sublist_app|].
    do 4 (split; [done|]). apply Forall_app. split; [done|]. apply Forall_singleton. destruct reason; exact Hreason. }
  unfold admit_one. destruct (shape_reason policy r) as [reason|] eqn:Es.
  { apply Hreject. destruct (shape_reason_not_cap _ _ _ Es). by destruct reason. }
  destruct (at_cap (perDomainCap policy) (count_of (domain r) (perDomainCounts d))) eqn:H1.
  { apply Hreject. split; [done|]. rewrite Hc in H1. destruct (inherited (domain r)); [done|]. by apply Z.leb_le in H1. }
  destruct (Z.leb_spec (totalCap policy) (Z.of_nat (length (admitted d)))) as [H2|H2]; [by apply Hreject|].
  unfold admission_inv. cbn [admitted rejected perDomainCounts]. split; [rewrite <- Hp; solve_Permutation|].
  split; [by apply sublist_app|]. split; [by apply sublist_inserts_r|]. split; [apply Forall_app; split; [done|by apply Forall_singleton]|].
  split; [rewrite length_app; cbn; lia|]. split; [|split].
  - intros x. by apply count_of_admit.
  - intros x Hx. rewrite domain_count_app. specialize (Hd x Hx). case_decide as E; [|lia]. subst x.
    rewrite Hc, Hx in H1. apply Z.leb_gt in H1. lia.
  - eapply Forall_impl; [exact Hrej|]. intros [e reason]. cbn [fst snd]. destruct reason; try done.
    + rewrite domain_count_app. intros [? ?]. split; [done|]. case_decide; lia.
    + rewrite length_app. intros [? ?]. split; [done|]. cbn. lia.
Qed.

Lemma admit_fold_inv policy cs pre d : admission_inv policy pre d -> admission_inv policy (pre ++ cs) (fold_left (admit_one policy) cs d).
Proof.
  revert pre d. induction cs as [|r cs IH]; intros pre d H; cbn [fold_left]; [by rewrite app_nil_r|].
  replace (pre ++ r :: cs) with ((pre ++ [r]) ++ cs) by (by rewrite <- app_assoc). apply IH. by apply admit_one_inv.
Qed.

(** Admission splits the candidates in order into admitted and rejected, none lost; what is admitted
    has the required shape and stays within both caps (the domain cap for domains that do not name an
    inherited member of objects), and each rejection names a rule that holds:
    a shape rule of that record, or a cap that is full. *)
Theorem admission_sound (candidates : list ProductionCorpusEvent) (policy : AdmissionPolicy) :
  admission_inv policy candidates (admitCorpusBatch candidates policy).
Proof.
  unfold admitCorpusBatch. assert (H0 : admission_inv policy [] (mkDecision [] [] [])).
  { unfold admission_inv. cbn [admitted rejected perDomainCounts]. split; [done|]. split; [apply sublist_nil_l|]. split; [apply sublist_nil_l|]. split; [constructor|].
    split; [cbn; lia|]. split; [done|]. split; [intros; unfold domain_count; cbn; lia|constructor]. }
  exact (admit_fold_inv policy candidates [] _ H0).
Qed.

(** ** Pruning *)
Lemma prune_fold (known : string -> bool) (ptr : nat) (l pre : list string) : 
  fold_left (fun '((order, pruned, n) : list string * list string * nat) '((idx, id) : nat * string) =>
    if known id then (order ++ [id], pruned, n) else (order, pruned ++ [id], if (idx <? ptr)%nat then (n - 1)%nat else n))
    (imap (fun i x => (length pre + i, x)%nat) l)
    (filter (fun id => known id = true) pre, filter (fun id => known id = false) pre, (ptr - length (filter (fun id => known id = false) (take ptr pre)))%nat)
  = (filter (fun id => known id = true) (pre ++ l), filter (fun id => known id = false) (pre ++ l),
     (ptr - length (filter (fun id => known id = false) (take ptr (pre ++ l))))%nat).
Proof.
  revert pre. induction l as [|x l IH]; intros pre; cbn [imap fold_left]; [by rewrite app_nil_r|].
  specialize (IH (pre ++ [x])). rewrite <- app_assoc in IH. cbn [app] in IH. rewrite <- IH. clear IH. f_equal.
  - apply imap_ext. intros i y _. rewrite length_app. cbn. f_equal. lia.
  - rewrite Nat.add_0_r, !filter_app, !filter_cons, !filter_nil. destruct (known x) eqn:E.
    + rewrite decide_True, decide_False, app_nil_r by done. f_equal. f_equal. rewrite take_app. rewrite filter_app, length_app.
      destruct (ptr - length pre)%nat; cbn [take]; [cbn; lia|]. rewrite filter_cons_False by (by rewrite E). destruct n; cbn; lia.
    + rewrite decide_False, decide_True, app_nil_r by done. f_equal. rewrite take_app, filter_app, length_app.
      destruct (Nat.ltb_spec (length pre) ptr) as [H|H].
      * destruct (ptr - length pre)%nat eqn:En; [lia|]. cbn [take]. rewrite filter_cons_True by done. rewrite take_nil, filter_nil. cbn. lia.
      * replace (ptr - length pre)%nat with 0%nat by lia. cbn. lia.
Qed.

Lemma filter_split_length {A} (P : A -> bool) (l : list A) :
  (length (filter (fun x => P x = true) l) + length (filter (fun x => P x = false) l))%nat = length l.
Proof. induction l as [|x l IH]; [done|]. rewrite !filter_cons. destruct (P x); repeat case_decide; cbn; try done; lia. Qed.

Section Prune.
Context (sha256_hex : string -> string) (math_pow : number -> number -> number).

(** Pruning the ids a corpus no longer has from an exported frontier gives a state that restores
    against any corpus that knows the rest: the surviving ids keep their order and their place, each in
    exactly one of the active set, the retired set and the reserve, and nothing unknown is left. *)
Theorem prune_restores (p : EpochFrontierParams) (f : EpochFrontier) (known : string -> bool) (ids : list string) :
  NoDup (evalHiddenIds p) -> reach sha256_hex math_pow p f -> (forall id, id ∈ order f -> known id = true -> id ∈ ids) ->
  exists pr f', pruneEpochFrontierState (exportState f) known = Returns pr
  /\ makeEpochFrontier sha256_hex (restarted p ids (pr_state pr)) = Returns f'
  /\ order f' = filter (fun id => known id = true) (order f) /\ NoDup (order f')
  /\ active f' = filter (fun e => known e.1 = true) (active f) /\ retired f' = filter (fun id => known id = true) (retired f)
  /\ reserve f' = filter (fun id => known id = true) (reserve f)
  /\ (active f').*1 ++ retired f' ++ reserve f' ≡ₚ order f'.
Proof.
  intros Hnd Hr Hids. pose proof (reach_ok sha256_hex math_pow p f Hnd Hr) as H. destruct (ok_nodup sha256_hex f H) as (Na & Nr & _ & _). pose proof (ok_partition f H) as Hp.
  unfold pruneEpochFrontierState. cbn [exportState st_schemaVersion st_order st_reservePtr st_active st_retired st_cumulativeActivated st_cumulativeRetired st_initialized
    st_injectedSinceLastStep st_ewmaAccepts]. rewrite String.eqb_refl. cbn [negb throw_if mbind outcome_bind].
  pose proof (prune_fold known (reservePtr f) (order f) []) as Hf. rewrite take_nil, !filter_nil in Hf. cbn [length app] in Hf. rewrite Nat.sub_0_r in Hf.
  change (imap (fun i x => ((0 + i)%nat, x)) (order f)) with (imap pair (order f)) in Hf. rewrite Hf. clear Hf.
  set (order' := filter (fun id => known id = true) (order f)). set (ptr' := (reservePtr f - _)%nat).
  assert (Eptr : ptr' = length (filter (fun id => known id = true) (take (reservePtr f) (order f)))).
  { unfold ptr'. pose proof (filter_split_length known (take (reservePtr f) (order f))) as Hl. rewrite length_take in Hl. pose proof (ok_ptr f H). lia. }
  assert (Eo : order' = filter (fun id => known id = true) (take (reservePtr f) (order f)) ++ filter (fun id => known id = true) (reserve f)).
  { unfold order', reserve. by rewrite <- filter_app, take_drop. }
  assert (Ekeys : (filter (fun e => known e.1 = true) (active f)).*1 = filter (fun id => known id = true) (active f).*1).
  { clear. induction (active f) as [|[k v] l IH]; [done|]. rewrite fmap_cons, !filter_cons. cbn [fst].
    destruct (decide (known k = true)); [rewrite fmap_cons|]; by rewrite IH. }
  assert (Hin : forall l, l ⊆ order f -> filter (fun id => known id = true) l ⊆ ids).
  { intros l Hl x Hx%list_elem_of_filter. apply Hids; [apply Hl|]; tauto. }
  eexists. edestruct (restore_state sha256_hex p ids) as (g & names & k & E); [..|eexists; split; [reflexivity|]; split; [exact E|]].
  1: done.
  1: cbn; by apply Hin.
  1: cbn; rewrite Ekeys; apply Hin; intros x Hx; rewrite <- Hp; set_solver.
  1: cbn; apply Hin; intros x Hx; rewrite <- Hp; set_solver.
  1: cbn; rewrite Ekeys; by apply NoDup_filter.
  1: cbn; by apply NoDup_filter.
  cbn [st_order st_active st_retired st_reservePtr order active retired]. unfold reserve at 1 2. cbn [order reservePtr st_reservePtr st_order].
  split; [done|]. split; [apply NoDup_filter, H|]. split; [done|]. split; [done|].
  assert (Ed : drop ptr' order' = filter (fun id => known id = true) (reserve f)) by (rewrite Eo, Eptr; apply drop_app_length).
  split; [exact Ed|]. 
  change ((filter (fun e => known e.1 = true) (active f)).*1 ++ filter (fun id => known id = true) (retired f) ++ drop ptr' order' ≡ₚ order').
  rewrite Ed, Ekeys. unfold order'. rewrite <- Hp. by rewrite !filter_app.
Qed.
End Prune.

(** ** Witnesses *)
Definition event_w (id dom : string) : ProductionCorpusEvent :=
  mkEvent id "temporal" dom train_visible "q" [mkTruth "t" "text" true None] [mkNegative "n1" "x" None None; mkNegative "n2" "y" None None]
    [mkQrel "t" (of_Z 1)] false "0xab" [] (mkEmbedding "m" "r" (mkLayout 2 "int8" 4) [1; 2] [("t"%string, [1; 2])] []) [].
Definition layout_w : RetrievalKeyLayout := mkLayout 2 "int8" 4.

Definition cache_w : CorpusRootLeafCache :=
  match buildCorpusRootLeafCache (HK:=const_hasher) int_printer [event_w "mem_a" "d"] with Returns c => c | Throws _ => mkLeafCache 0 "" [] [] end.
Definition corpus_w : ProductionCorpus :=
  mkCorpus [event_w "mem_a" "d"] [("mem_a"%string, event_w "mem_a" "d")] (Some cache_w) None (bytesToHex (zeros 32)) 1 "r" "m" layout_w "lr" "lm".
Definition prov_w : LabelingProvenance := mkProvenance "lm" "lr" "rt" "bh".
Definition delta_w : CorpusDelta := mkDelta DELTA_SCHEMA (bytesToHex (zeros 32)) (bytesToHex (zeros 32)) ["mem_b"%string] [event_w "mem_b" "d"] []
  prov_w ("m"%string, "r"%string, layout_w) 2 1 "now".

Lemma corpus_w_ok : corpus_ok (HK:=const_hasher) int_printer corpus_w.
Proof.
  constructor; [apply NoDup_singleton|reflexivity|vm_compute; reflexivity|]. intros k [= <-]. vm_compute. reflexivity.
Qed.

Lemma delta_applies_witness : (exists c', applyCorpusDelta (HK:=const_hasher) int_printer corpus_w delta_w (mkApplyOptions None true true) = Returns c'
    /\ map ev_id (events c') = ["mem_a"; "mem_b"]%string)
  /\ exists d, buildCorpusDelta (HK:=const_hasher) int_printer corpus_w [event_w "mem_b" "d"; event_w "mem_b" "d"] [] 2 prov_w "now" None = Returns d
    /\ applyCorpusDelta (HK:=const_hasher) int_printer corpus_w d (mkApplyOptions None true true) = Throws (GenericError "duplicate addedRecords id").
Proof.
  assert (Hd : buildCorpusDelta (HK:=const_hasher) int_printer corpus_w [event_w "mem_b" "d"] [] 2 prov_w "now" None = Returns delta_w) by (vm_compute; reflexivity).
  assert (H2 : exists d, buildCorpusDelta (HK:=const_hasher) int_printer corpus_w [event_w "mem_b" "d"; event_w "mem_b" "d"] [] 2 prov_w "now" None = Returns d /\ addedIds d = ["mem_b"; "mem_b"]%string)
    by (eexists; split; [vm_compute; reflexivity|reflexivity]).
  split.
  - destruct (delta_applies (HK:=const_hasher) int_printer corpus_w [event_w "mem_b" "d"] [] 2 prov_w "now" None delta_w (mkApplyOptions None true true))
      as (_ & Ha & _); [apply corpus_w_ok|by intros k|by intros k|exact Hd|]. destruct Ha as (c' & E & _ & He & _); [apply NoDup_singleton|].
    exists c'. split; [exact E|]. rewrite He. reflexivity.
  - destruct H2 as (d & Hd2 & Hids). exists d. split; [exact Hd2|].
    destruct (delta_applies (HK:=const_hasher) int_printer corpus_w [event_w "mem_b" "d"; event_w "mem_b" "d"] [] 2 prov_w "now" None d (mkApplyOptions None true true))
      as (_ & _ & Ht); [apply corpus_w_ok|by intros k|by intros k|exact Hd2|]. apply Ht. rewrite Hids. intros [Hn _]%NoDup_cons. apply Hn, list_elem_of_here.
Defined.

(** Two of three queries remain known. *)
Definition known_w (id : string) : bool := negb (String.eqb id "c").
Lemma prune_restores_witness : exists pr f', pruneEpochFrontierState (exportState frontier_w1) known_w = Returns pr
  /\ makeEpochFrontier sha_len (restarted params_w ["a"; "b"; "d"; "e"]%string (pr_state pr)) = Returns f' /\ (active f').*1 = ["a"]%string.
Proof.
  assert (Hk : forall id, id ∈ order frontier_w1 -> known_w id = true -> id ∈ ["a"; "b"; "d"; "e"]%string).
  { intros id Hid. revert id Hid. rewrite <- (Forall_forall (fun id => known_w id = true -> id ∈ ["a"; "b"; "d"; "e"]%string)).
    apply (bool_decide_unpack _). vm_compute. reflexivity. }
  destruct (prune_restores sha_len pow_half params_w frontier_w1 known_w ["a"; "b"; "d"; "e"]%string params_w_nodup reach_w1 Hk)
    as (pr & f' & E1 & E2 & _ & _ & E3 & _). exists pr, f'. split; [exact E1|]. split; [exact E2|]. rewrite E3. vm_compute. reflexivity.
Defined.

(** A domain named like an inherited member is never capped. *)
Lemma inherited_domain_uncapped :
  length (admitted (admitCorpusBatch (replicate 3 (event_w "mem_b" "constructor")) (mkPolicy 10 1 0 0 false 0 "m" "r"))) = 3%nat.
Proof. vm_compute. reflexivity. Qed.
