(* ===== verification/HiddenPack.v ===== *)
(** * Hidden query packs (eval/hidden-query-pack.ts)

    A pack is drawn from the hidden split: the events are sorted by id, each
    quota first reserves its events, then free slots are filled; every draw is
    an index taken from a keccak digest of the seed, the epoch and a counter.
    [admitActiveLiveEvalEvents] overlays the queries the frontier has activated
    without breaking the quotas, and [verifyQueryPack] recomputes a published
    pack. The loops of the draws run over their counter, the rounds of the
    overlay have one unit of fuel per candidate and one more.

    Optional members of an event are read from its JSON members; [band],
    [logicalFamily] and the depth annotations have the types the interface
    gives them. Counts and quotas are integers. The printing of numbers is a
    parameter.

    Theorems: a derived pack has exactly the size asked for, distinct eligible
    events and every quota ([deriveQueryPack_sound]); it does not depend on the
    order of the corpus; a published pack verifies exactly when it lists the
    ids of the recomputation; the overlay takes as many active queries as the
    limit allows and keeps size, distinctness and quotas. *)
From Stdlib Require Import Ascii.
From stdpp Require Import pretty.
From S2P Require Import Prelude JsSort StateTypes Float Codec Keccak Merkle Decoder Substrate SeedDerivation CanonicalJson CorpusRoot CorpusDelta.
#[local] Open Scope Z_scope.

Inductive HardnessBucket := easy | medium | hard.
Definition bucket_name (b : HardnessBucket) : string := match b with easy => "easy" | medium => "medium" | hard => "hard" end%string.

Record PackQuota := mkQuota { stratum : string; minCount : Z }.
Record HiddenPackProfile := mkPackProfile {
  packSize : Z;
  quotas : list PackQuota;
  hp_disabledFamilies : option (list string);
  hp_disabledSubstrateSurfaces : option (list string)
}.
Record QueryPack := mkPack { qp_epochId : Z; evalSeedHex : string; qp_corpusRoot : string; qp_events : list ProductionCorpusEvent }.
Record ActiveLiveEvalPackOptions := mkLiveOptions {
  activeIds : list string;
  limit : Z;
  familyPriority : option (list string);
  dedupePublicIntent : option bool;
  lo_profile : option HiddenPackProfile;
  lo_quotas : option (list PackQuota);
  lo_disabledFamilies : option (list string)
}.

(** ** Profiles *)
(** The flags of the evaluator profile that switch families off. *)
Record EvaluatorProfileFlags := mkFlags {
  hiddenPack : HiddenPackProfile;
  enableAspectConstraintAtoms : option bool;
  policyAspectIntentAdmission : option bool;
  pf_disabledSubstrateSurfaces : option (list string)
}.

Definition disabledHiddenEvalFamiliesFromProfile (profile : EvaluatorProfileFlags) : list string :=
  let disabled :=
    if bool_decide ("aspect_constraint"%string ∈ default [] (pf_disabledSubstrateSurfaces profile))
       || bool_decide (enableAspectConstraintAtoms profile = Some false) || bool_decide (policyAspectIntentAdmission profile = Some false)
    then jsset_add "aspect_constraint"%string [] else [] in
  stableSort disabled string_cmp.

Definition hiddenPackProfileFromEvaluatorProfile (profile : EvaluatorProfileFlags) : HiddenPackProfile :=
  let disabledFamilies := fold_left (fun s x => jsset_add x s)
    (default [] (hp_disabledFamilies (hiddenPack profile)) ++ disabledHiddenEvalFamiliesFromProfile profile) [] in
  mkPackProfile (packSize (hiddenPack profile)) (quotas (hiddenPack profile)) (Some (stableSort disabledFamilies string_cmp))
    (hp_disabledSubstrateSurfaces (hiddenPack profile)).

(** ** Strata *)
(** [event[k]] for an optional member. *)
Definition ev_member (k : string) (e : ProductionCorpusEvent) : jsval := default JUndefined (jsmap_get k (ev_more e)).
(** [a ?? b] *)
Definition coalesce (a b : jsval) : jsval := match a with JUndefined | JNull => b | _ => a end.

Definition familyOf (e : ProductionCorpusEvent) : string :=
  match coalesce (ev_member "logicalFamily" e) (JString (family e)) with JString s => s | _ => family e end.

Definition half : number := of_frac 5 10.
Definition hardnessBucketFor (event : ProductionCorpusEvent) : HardnessBucket :=
  let truthIds := map td_id (truthDocuments event) in
  let maxNeg := fold_left (fun maxNeg q =>
      if bool_decide (documentId q ∈ truthIds) then maxNeg
      else if dle half (relevance q) then maxNeg
      else if dlt maxNeg (relevance q) then relevance q else maxNeg) (qrels event) (of_Z 0) in
  if dle (of_frac 4 10) maxNeg then hard else if dle (of_frac 2 10) maxNeg then medium else easy.

Definition stratumOf (event : ProductionCorpusEvent) : string :=
  ("family=" +:+ family event +:+ ",bucket=" +:+ bucket_name (hardnessBucketFor event))%string.

(** The depth annotation under [k], 1 when it is missing; the loops only look at its integer part. *)
Definition depth_of (k : string) (e : ProductionCorpusEvent) : Z :=
  match coalesce (ev_member k e) (JNumber (of_Z 1)) with JNumber n => default 1 (math_floor n) | _ => 1 end.

Definition depth_strata (label fam : string) (depth : Z) : list string :=
  if 1 <? depth then
    map (fun d => label +:+ ">=" +:+ pretty d)%string (seqZ 2 (depth - 1))
    ++ map (fun d => "family=" +:+ fam +:+ "," +:+ label +:+ ">=" +:+ pretty d)%string (seqZ 2 (depth - 1))
  else [].

Definition strataOf (event : ProductionCorpusEvent) : list string :=
  let bucket := bucket_name (hardnessBucketFor event) in
  let fam := family event in
  ["family=" +:+ fam; "bucket=" +:+ bucket; "family=" +:+ fam +:+ ",bucket=" +:+ bucket]%string
  ++ match ev_member "band" event with
     | JString "" => []
     | JString band => ["band=" +:+ band; "family=" +:+ fam +:+ ",band=" +:+ band]%string
     | _ => []
     end
  ++ depth_strata "depth" fam (depth_of "causalDepth" event)
  ++ depth_strata "relationHop" fam (depth_of "relationHopDepth" event).

Definition eventSatisfiesStratum (event : ProductionCorpusEvent) (s : string) : bool := existsb (String.eqb s) (strataOf event).

(** How many events of a pack satisfy a stratum. *)
Definition satisfying (s : string) (pack : list ProductionCorpusEvent) : Z := Z.of_nat (length (filter (fun e => eventSatisfiesStratum e s = true) pack)).

Definition quotasSatisfied (evs : list ProductionCorpusEvent) (qs : list PackQuota) : bool :=
  forallb (fun q => minCount q <=? satisfying (stratum q) evs) qs.

Definition hiddenPackEventEligible (event : ProductionCorpusEvent) (profile : HiddenPackProfile) : bool :=
  match split event with
  | eval_hidden =>
    let disabled := default [] (hp_disabledFamilies profile) ++ default [] (hp_disabledSubstrateSurfaces profile) in
    bool_decide (familyOf event ∉ disabled)
  | _ => false
  end.

(** ** The derivation *)
Definition evalSeedBytes (hex : string) : outcome bytes :=
  let clean := strip_0x hex in
  throw_when negb (String.length clean =? 64)%nat with GenericError "evalSeed must be 32 bytes" ;;
  match hex_pairs (String.list_ascii_of_string clean) with
  | Some ps => Returns (map (fun '(a, b) => default 0 (parseInt16 a b) mod 256) ps)
  | None => Returns []
  end.

Section WithHasher.
Context {HK : Hasher}.

Definition digestU256 (parts : list bytes) : Z :=
  fold_left (fun v b => Z.lor (Z.shiftl v 8) b) (keccak256 (concatU8 parts)) 0.

Section Derive.
Context (seed epochBE : bytes) (sorted : list ProductionCorpusEvent) (size : Z).

(** One draw from the sorted events. *)
Definition draw (parts : list bytes) : option ProductionCorpusEvent :=
  sorted !! Z.to_nat (digestU256 ([seed; epochBE] ++ parts) mod Z.of_nat (length sorted)).

Definition draws := (list ProductionCorpusEvent * list string)%type.
Definition push (cand : ProductionCorpusEvent) (st : draws) : draws := (st.1 ++ [cand], jsset_add (ev_id cand) st.2).

(** The [while] of one quota, from counter [j] on. *)
Fixpoint reserve_loop (fuel : nat) (j : Z) (quota : PackQuota) (st : draws) : draws :=
  match fuel with
  | O => st
  | S fuel' =>
    if satisfying (stratum quota) st.1 <? minCount quota then
      match draw [text_encode ("quota:" +:+ stratum quota); u64BE j] with
      | None => st
      | Some cand =>
        if bool_decide (ev_id cand ∈ st.2) then reserve_loop fuel' (j + 1) quota st
        else if negb (eventSatisfiesStratum cand (stratum quota)) then reserve_loop fuel' (j + 1) quota st
        else if size <=? Z.of_nat (length st.1) then st
        else reserve_loop fuel' (j + 1) quota (push cand st)
      end
    else st
  end.

Fixpoint reserve_all (qs : list PackQuota) (st : draws) : outcome draws :=
  match qs with
  | [] => Returns st
  | quota :: qs' =>
    let st' := reserve_loop (length sorted * 8) 0 quota st in
    throw_when satisfying (stratum quota) st'.1 <? minCount quota with GenericError "deriveQueryPack: stratum cannot meet quota" ;;
    reserve_all qs' st'
  end.

(** The free draws, from counter [i] on. *)
Fixpoint fill_loop (fuel : nat) (i : Z) (st : draws) : draws :=
  match fuel with
  | O => st
  | S fuel' =>
    if Z.of_nat (length st.1) <? size then
      match draw [u64BE i] with
      | None => st
      | Some cand => if bool_decide (ev_id cand ∈ st.2) then fill_loop fuel' (i + 1) st else fill_loop fuel' (i + 1) (push cand st)
      end
    else st
  end.
End Derive.

Definition id_cmp (a b : ProductionCorpusEvent) : Z := string_cmp (ev_id a) (ev_id b).

(** The seed as the pack carries it. *)
Definition seed_text (hex : string) : string :=
  if startsWith "0x" (toLowerCase hex) then toLowerCase hex else ("0x" +:+ toLowerCase hex)%string.

Definition deriveQueryPack (epochId : Z) (hex : string) (corpus : ProductionCorpus) (profile : HiddenPackProfile) : outcome QueryPack :=
  seed ← evalSeedBytes hex;
  let epochBE := u64BE epochId in
  let sorted := stableSort (filter (fun e => hiddenPackEventEligible e profile = true) (events corpus)) id_cmp in
  throw_when (length sorted =? 0)%nat with GenericError "deriveQueryPack: corpus has no eval_hidden records" ;;
  st ← reserve_all seed epochBE sorted (packSize profile) (quotas profile) ([], []);
  let pack := (fill_loop seed epochBE sorted (packSize profile) (length sorted * 8) 0 st).1 in
  throw_when negb (Z.of_nat (length pack) =? packSize profile) with GenericError "deriveQueryPack: cannot fill exact packSize" ;;
  Returns (mkPack epochId (seed_text hex) (corpusRoot corpus) pack).
End WithHasher.

(** ** What a draw keeps *)
Section Drawn.
Context {HK : Hasher} (seed epochBE : bytes) (sorted : list ProductionCorpusEvent) (size : Z).
Implicit Types st : draws.

Record drawn_ok st : Prop := {
  dr_ids : st.2 = map ev_id st.1;
  dr_distinct : NoDup (map ev_id st.1);
  dr_from : st.1 ⊆ sorted;
  dr_size : Z.of_nat (length st.1) <= Z.max 0 size
}.

Lemma satisfying_app s a b : satisfying s (a ++ b) = satisfying s a + satisfying s b.
Proof. unfold satisfying. rewrite filter_app, length_app. lia. Qed.

Lemma satisfying_nonneg s a : 0 <= satisfying s a.
Proof. unfold satisfying. lia. Qed.

Lemma satisfying_prefix s a b : a `prefix_of` b -> satisfying s a <= satisfying s b.
Proof. intros [c ->]. rewrite satisfying_app. pose proof (satisfying_nonneg s c). lia. Qed.

Lemma satisfying_perm s a b : a ≡ₚ b -> satisfying s a = satisfying s b.
Proof. intros H. unfold satisfying. by rewrite H. Qed.

Lemma draw_sorted parts e : draw seed epochBE sorted parts = Some e -> e ∈ sorted.
Proof. apply list_elem_of_lookup_2. Qed.

Lemma push_ok st e : drawn_ok st -> e ∈ sorted -> ev_id e ∉ st.2 -> Z.of_nat (length st.1) < size -> drawn_ok (push e st).
Proof.
  intros [H1 H2 H3 H4] He Hn Hs. rewrite H1 in Hn. constructor; cbn [push fst snd].
  - rewrite map_app, H1. unfold jsset_add. cbn [map]. by rewrite decide_False.
  - rewrite map_app. apply NoDup_app. split; [done|]. split; [|apply NoDup_singleton]. intros x Hx ->%list_elem_of_singleton. done.
  - intros x [Hx| ->%list_elem_of_singleton]%elem_of_app; [by apply H3|done].
  - rewrite length_app. cbn [length]. lia.
Qed.

Lemma push_prefix e st : st.1 `prefix_of` (push e st).1.
Proof. by eexists. Qed.

Lemma reserve_loop_ok fuel j quota st : drawn_ok st ->
  drawn_ok (reserve_loop seed epochBE sorted size fuel j quota st) /\ st.1 `prefix_of` (reserve_loop seed epochBE sorted size fuel j quota st).1.
Proof.
  revert j st. induction fuel as [|fuel IH]; intros j st Hst; cbn [reserve_loop]; [done|]. destruct (_ <? _); [|done]. destruct (draw _ _ _ _) as [cand|] eqn:Ed; [|done].
  case_bool_decide as Hin; [by apply IH|]. destruct (negb _); [by apply IH|]. destruct (Z.leb_spec size (Z.of_nat (length st.1))); [done|].
  destruct (IH (j + 1) (push cand st)) as [H1 H2]; [apply push_ok; [done|by eapply draw_sorted|done|lia]|]. split; [done|]. by etransitivity; [apply push_prefix|].
Qed.

Lemma reserve_all_ok qs st st' : drawn_ok st -> reserve_all seed epochBE sorted size qs st = Returns st' ->
  drawn_ok st' /\ st.1 `prefix_of` st'.1 /\ quotasSatisfied st'.1 qs = true.
Proof.
  revert st. induction qs as [|q qs IH]; intros st Hst H; cbn [reserve_all] in H; [by apply Returns_inj in H as <-|].
  apply throw_when_Returns in H as [Hq H]. set (st1 := reserve_loop _ _ _ _ _ _ _ st) in *. destruct (reserve_loop_ok (length sorted * 8) 0 q st Hst) as [H1 P1].
  destruct (IH st1 H1 H) as (H2 & P2 & Hqs). split; [done|]. split; [by etransitivity|]. unfold quotasSatisfied in *. cbn [forallb]. rewrite Hqs, andb_true_r. apply Z.leb_le.
  apply Z.ltb_ge in Hq. etransitivity; [exact Hq|]. by apply satisfying_prefix.
Qed.

Lemma fill_loop_ok fuel i st : drawn_ok st -> drawn_ok (fill_loop seed epochBE sorted size fuel i st) /\ st.1 `prefix_of` (fill_loop seed epochBE sorted size fuel i st).1.
Proof.
  revert i st. induction fuel as [|fuel IH]; intros i st Hst; cbn [fill_loop]; [done|]. destruct (Z.ltb_spec (Z.of_nat (length st.1)) size); [|done].
  destruct (draw _ _ _ _) as [cand|] eqn:Ed; [|done]. case_bool_decide as Hin; [by apply IH|].
  destruct (IH (i + 1) (push cand st)) as [H1 H2]; [apply push_ok; [done|by eapply draw_sorted|done|lia]|]. split; [done|]. by etransitivity; [apply push_prefix|].
Qed.

Lemma drawn_nil : drawn_ok ([], []).
Proof. constructor; cbn; [done|constructor|set_solver|lia]. Qed.
End Drawn.

(** What a pack promises. *)
Record pack_ok (corpus : ProductionCorpus) (profile : HiddenPackProfile) (pack : list ProductionCorpusEvent) : Prop := {
  pk_size : Z.of_nat (length pack) = packSize profile;
  pk_distinct : NoDup (map ev_id pack);
  pk_eligible : Forall (fun e => e ∈ events corpus /\ hiddenPackEventEligible e profile = true) pack;
  pk_quotas : quotasSatisfied pack (quotas profile) = true
}.

Section Derived.
Context {HK : Hasher}.

Lemma derived_pack_ok epochId hex corpus profile pack : deriveQueryPack epochId hex corpus profile = Returns pack ->
  pack_ok corpus profile (qp_events pack) /\ qp_epochId pack = epochId /\ qp_corpusRoot pack = corpusRoot corpus.
Proof.
  unfold deriveQueryPack. intros H. apply bind_Returns in H as (seed & _ & H). cbv zeta in H. set (sorted := stableSort _ _) in *. apply throw_when_Returns in H as [_ H].
  apply bind_Returns in H as (st & Hr & H). apply throw_when_Returns in H as [Hs H]. apply Returns_inj in H as <-. cbn [qp_events qp_epochId qp_corpusRoot]. split; [|done].
  destruct (reserve_all_ok _ _ _ _ _ _ _ (drawn_nil sorted (packSize profile)) Hr) as (H1 & _ & Hq).
  destruct (fill_loop_ok seed (u64BE epochId) sorted (packSize profile) (length sorted * 8) 0 st H1) as [[_ H2 H3 _] P2]. constructor.
  - by destruct (Z.eqb_spec (Z.of_nat (length (fill_loop seed (u64BE epochId) sorted (packSize profile) (length sorted * 8) 0 st).1)) (packSize profile)).
  - done.
  - apply Forall_forall. intros e He. apply H3 in He. unfold sorted in He. rewrite stableSort_perm in He. by apply list_elem_of_filter in He as [? ?].
  - unfold quotasSatisfied in *. rewrite forallb_forall in Hq |- *. intros q Hin. apply Z.leb_le. etransitivity; [apply Z.leb_le, (Hq q Hin)|]. by apply satisfying_prefix.
Qed.

(** A derived pack has exactly the size asked for, distinct events of the corpus that are eligible for the profile, and every quota met. *)
Theorem deriveQueryPack_sound epochId hex corpus profile pack : deriveQueryPack epochId hex corpus profile = Returns pack ->
  pack_ok corpus profile (qp_events pack) /\ qp_epochId pack = epochId /\ qp_corpusRoot pack = corpusRoot corpus.
Proof. apply derived_pack_ok. Qed.

#[export] Instance id_cmp_preorder : CmpPreorder id_cmp.
Proof. constructor; intros *; unfold id_cmp; [apply cmp_total|apply cmp_trans]. Qed.

Lemma same_id (l : list ProductionCorpusEvent) a b : NoDup (map ev_id l) -> a ∈ l -> b ∈ l -> ev_id a = ev_id b -> a = b.
Proof.
  intros Hnd Ha Hb E. apply list_elem_of_lookup in Ha as [i Hi]. apply list_elem_of_lookup in Hb as [j Hj].
  assert (i = j) as ->; [|congruence]. eapply (NoDup_lookup _ i j (ev_id a)); [exact Hnd| |]; change (map ev_id l) with (ev_id <$> l); rewrite list_lookup_fmap; [by rewrite Hi|by rewrite Hj, E].
Qed.

Lemma sorted_unique (P : ProductionCorpusEvent -> Prop) `{!forall e, Decision (P e)} l1 l2 : l1 ≡ₚ l2 -> NoDup (map ev_id l1) ->
  stableSort (filter P l1) id_cmp = stableSort (filter P l2) id_cmp.
Proof.
  intros Hp Hnd. apply stableSort_unique; [apply _|by rewrite Hp|]. intros a b [_ Ha]%list_elem_of_filter [_ Hb]%list_elem_of_filter H1 H2.
  eapply same_id; [exact Hnd|done..|]. by apply string_cmp_antisym.
Qed.

(** The pack does not depend on the order the corpus lists its events in. *)
Theorem deriveQueryPack_order_independent epochId hex c1 c2 profile : events c1 ≡ₚ events c2 -> NoDup (map ev_id (events c1)) -> corpusRoot c1 = corpusRoot c2 ->
  deriveQueryPack epochId hex c1 profile = deriveQueryPack epochId hex c2 profile.
Proof. intros Hp Hnd Hr. unfold deriveQueryPack. by rewrite (sorted_unique _ _ _ Hp Hnd), Hr. Qed.
End Derived.

(** ** The live overlay *)
Definition decimal_value (s : string) : Z :=
  fold_left (fun v c => v * 10 + (Z.of_nat (Ascii.nat_of_ascii c) - 48)) (String.list_ascii_of_string s) 0.

(** [/^zz_e(\d+)_/], as a number; -1 when it does not match. *)
Definition liveEpochFromEventId (id : string) : number :=
  let rest := String.substring 4 (String.length id - 4) id in
  let rest' := skip_digits rest in
  let digits := String.substring 0 (String.length rest - String.length rest') rest in
  if startsWith "zz_e" id && negb (String.eqb digits "") && startsWith "_" rest' then of_Z (decimal_value digits) else of_Z (-1).

Section Live.
Context (NumberToString : number -> string).

Definition object_text (parts : list (string * chars)) : chars :=
  "{"%char :: join_comma (map (fun p => quote p.1 ++ ":"%char :: p.2) parts) ++ ["}"%char].

(** [JSON.stringify]: no text for a value that has none. *)
Fixpoint stringify (v : jsval) : outcome (option chars) :=
  match v with
  | JUndefined | JUnsupported => Returns None
  | JNull => Returns (Some (text "null"))
  | JBool b => Returns (Some (text (if b then "true" else "false")))
  | JNumber n => Returns (Some (text (if is_finite n then NumberToString n else "null")))
  | JString s => Returns (Some (quote s))
  | JBigInt _ => Throws (TypeError "Do not know how to serialize a BigInt")
  | JBytes bs => Returns (Some (object_text (imap (fun i b => (pretty (Z.of_nat i), text (NumberToString (of_Z b)))) bs)))
  | JMap _ => Returns (Some (object_text []))
  | JArray elems =>
    parts ← mapM (fun x => o ← stringify x; Returns (default (text "null") o)) elems;
    Returns (Some ("["%char :: join_comma parts ++ ["]"%char]))
  | JObject fields =>
    parts ← mapM (fun e => o ← stringify e.2; Returns (e.1, o)) fields;
    Returns (Some (object_text (omap (fun p => match p.2 with Some t => Some (p.1, t) | None => None end) parts)))
  end.

(** [v[k]] of a plain object. *)
Definition prop (k : string) (v : jsval) : jsval := match v with JObject fields => default JUndefined (jsmap_get k fields) | _ => JUndefined end.

Definition absent (v : jsval) : bool := match v with JUndefined | JNull => true | JString s => String.eqb s "" | _ => false end.

Definition stablePublicIntentKey (e : ProductionCorpusEvent) : outcome (option string) :=
  let pi := coalesce (ev_member "publicIntent" e) (JObject []) in
  let scope := coalesce (ev_member "scope" e) (JObject []) in
  let keys := [
    ("family", coalesce (ev_member "logicalFamily" e) (JString (family e)));
    ("epoch", JNumber (liveEpochFromEventId (ev_id e)));
    ("ownerEntityId", ev_member "ownerEntityId" e);
    ("subjectEntityId", coalesce (ev_member "subjectEntityId" e) (prop "subjectEntityId" pi));
    ("atom", prop "atom" pi);
    ("attribute", prop "attribute" pi);
    ("queryTime", prop "queryTime" pi);
    ("roleAlias", prop "roleAlias" pi);
    ("name", prop "name" pi);
    ("selector", prop "selector" pi);
    ("action", prop "action" pi);
    ("projectId", coalesce (prop "projectId" pi) (prop "projectId" scope));
    ("sessionId", coalesce (prop "sessionId" pi) (prop "sessionId" scope));
    ("topicId", coalesce (prop "topicId" pi) (prop "topicId" scope));
    ("taskId", coalesce (prop "taskId" pi) (prop "taskId" scope));
    ("userScopeId", coalesce (prop "userScopeId" pi) (prop "userScopeId" scope))]%string in
  let present := filter (fun e => absent e.2 = false) keys in
  if existsb (fun e => negb (String.eqb e.1 "family") && negb (String.eqb e.1 "epoch")) present then
    o ← stringify (JObject present); Returns (option_map String.string_of_list_ascii o)
  else Returns None.

Abbreviation rows := (list ProductionCorpusEvent).

(** Newest live epoch first, then by id. *)
Definition row_cmp (a b : ProductionCorpusEvent) : Z :=
  let ea := liveEpochFromEventId (ev_id a) in
  let eb := liveEpochFromEventId (ev_id b) in
  if negb (deq ea eb) then (if dlt eb ea then -1 else 1) else string_cmp (ev_id a) (ev_id b).

Definition family_cmp (priority : list (string * Z)) (a b : string) : Z :=
  let pa := default 999 (jsmap_get a priority) in
  let pb := default 999 (jsmap_get b priority) in
  if negb (pa =? pb) then pa - pb else string_cmp a b.

Section Options.
Context (opts : ActiveLiveEvalPackOptions).

Definition live_disabledFamilies : list string :=
  default [] (lo_profile opts ≫= hp_disabledFamilies) ++ default [] (lo_profile opts ≫= hp_disabledSubstrateSurfaces) ++ default [] (lo_disabledFamilies opts).

Definition isActiveLiveEval (e : ProductionCorpusEvent) : bool :=
  bool_decide (ev_id e ∈ activeIds opts)
  && match split e with eval_hidden => true | _ => false end
  && startsWith "zz_e" (ev_id e) && negb (includes "_mem_" (ev_id e))
  && bool_decide (familyOf e ∉ live_disabledFamilies).

(** The candidates, by family in the order they are met, each family sorted. *)
Definition group_one (existing : list string) (m : list (string * rows)) (e : ProductionCorpusEvent) : list (string * rows) :=
  if negb (isActiveLiveEval e) || bool_decide (ev_id e ∈ existing) then m
  else jsmap_set (familyOf e) (default [] (jsmap_get (familyOf e) m) ++ [e]) m.
Definition group_live (existing : list string) (evs : rows) : list (string * rows) := fold_left (group_one existing) evs [].
Definition sort_rows (m : list (string * rows)) : list (string * rows) := map (fun e => (e.1, stableSort e.2 row_cmp)) m.

Definition priority_of : list (string * Z) :=
  fold_left (fun m e => jsmap_set e.2 (Z.of_nat e.1) m) (imap pair (default [] (familyPriority opts))) [].

(** The variables of the two selection loops. *)
Record Selection := mkSelection {
  byFamily : list (string * rows);
  deferredByFamily : list (string * rows);
  usedPublicIntentKeys : list string;
  live : rows
}.

Definition dedupes : bool := match dedupePublicIntent opts with Some false => false | _ => true end.

(** The [while] of [takeUnique]: the row taken, the rows left, the rows deferred, the keys used. *)
Fixpoint unique_scan (l : rows) (used : list string) : outcome (option ProductionCorpusEvent * rows * rows * list string) :=
  match l with
  | [] => Returns (None, [], [], used)
  | next :: l' =>
    key ← (if dedupes then stablePublicIntentKey next else Returns None);
    match key with
    | None => Returns (Some next, l', [], used)
    | Some k =>
      if bool_decide (k ∈ used) then
        '(taken, rest, deferred, used') ← unique_scan l' used;
        Returns (taken, rest, next :: deferred, used')
      else Returns (Some next, l', [], jsset_add k used)
    end
  end.

Definition takeUnique (fam : string) (st : Selection) : outcome (option ProductionCorpusEvent * Selection) :=
  match jsmap_get fam (byFamily st) with
  | None => Returns (None, st)
  | Some l =>
    '(taken, rest, deferred, used) ← unique_scan l (usedPublicIntentKeys st);
    let d := match deferred with [] => deferredByFamily st | _ => jsmap_set fam (default [] (jsmap_get fam (deferredByFamily st)) ++ deferred) (deferredByFamily st) end in
    Returns (taken, mkSelection (jsmap_set fam rest (byFamily st)) d used (live st))
  end.

Definition takeDeferred (fam : string) (st : Selection) : outcome (option ProductionCorpusEvent * Selection) :=
  match jsmap_get fam (deferredByFamily st) with
  | Some (x :: l) => Returns (Some x, mkSelection (byFamily st) (jsmap_set fam l (deferredByFamily st)) (usedPublicIntentKeys st) (live st))
  | _ =>
    match jsmap_get fam (byFamily st) with
    | Some (x :: l) => Returns (Some x, mkSelection (jsmap_set fam l (byFamily st)) (deferredByFamily st) (usedPublicIntentKeys st) (live st))
    | _ => Returns (None, st)
    end
  end.

Definition push_live (e : ProductionCorpusEvent) (st : Selection) : Selection :=
  mkSelection (byFamily st) (deferredByFamily st) (usedPublicIntentKeys st) (live st ++ [e]).
Definition full (st : Selection) : bool := limit opts <=? Z.of_nat (length (live st)).

Section Phase.
Context (take_one : string -> Selection -> outcome (option ProductionCorpusEvent * Selection)).

(** One round over the families; the flag says that a row was taken. *)
Fixpoint one_round (fams : list string) (advanced : bool) (st : Selection) : outcome (bool * Selection) :=
  match fams with
  | [] => Returns (advanced, st)
  | fam :: fams' =>
    if full st then Returns (advanced, st)
    else
      '(taken, st') ← take_one fam st;
      match taken with
      | None => one_round fams' advanced st'
      | Some next => one_round fams' true (push_live next st')
      end
  end.

Fixpoint rounds (fuel : nat) (fams : list string) (st : Selection) : outcome Selection :=
  if full st then Returns st
  else match fuel with
  | O => Throws out_of_fuel
  | S fuel' =>
    '(advanced, st') ← one_round fams false st;
    if advanced : bool then rounds fuel' fams st' else Returns st'
  end.
End Phase.

Definition count_rows (m : list (string * rows)) : nat := length (concat (map snd m)).

Definition select_live (existing : list string) (evs : rows) : outcome rows :=
  let m := sort_rows (group_live existing evs) in
  let familyOrder := stableSort (map fst m) (family_cmp priority_of) in
  st ← rounds takeUnique (S (count_rows m)) familyOrder (mkSelection m [] [] []);
  st' ← rounds takeDeferred (S (count_rows m)) familyOrder st;
  Returns (live st').

(** ** Replacing base rows *)
(** The index to replace, the last one first. *)
Fixpoint find_slot (qs : list PackQuota) (maxEvents : Z) (candidate : ProductionCorpusEvent) (final : rows) (i : nat) : option nat :=
  match i with
  | O => None
  | S j =>
    match final !! j with
    | None => None
    | Some old =>
      if isActiveLiveEval old then find_slot qs maxEvents candidate final j
      else
        let trial := take (Z.to_nat maxEvents) (candidate :: take j final ++ drop (S j) final) in
        if quotasSatisfied trial qs then Some j else find_slot qs maxEvents candidate final j
    end
  end.

Definition overlay_one (qs : list PackQuota) (maxEvents : Z) (st : rows * list string) (candidate : ProductionCorpusEvent) : rows * list string :=
  let '(final, ids) := st in
  if bool_decide (ev_id candidate ∈ ids) then st
  else if Z.of_nat (length final) <? maxEvents then
    if quotasSatisfied (candidate :: final) qs then (candidate :: final, jsset_add (ev_id candidate) ids) else st
  else
    match find_slot qs maxEvents candidate final (length final) with
    | None => st
    | Some i =>
      let ids' := match final !! i with Some old => filter (fun x => x <> ev_id old) ids | None => ids end in
      (candidate :: take i final ++ drop (S i) final, jsset_add (ev_id candidate) ids')
    end.

Definition quotaSafeLiveOverlay (baseEvents liveEvents : rows) (maxEvents : Z) (qs : list PackQuota) : outcome rows :=
  throw_when negb (quotasSatisfied baseEvents qs) with GenericError "admitActiveLiveEvalEvents: base hidden pack does not satisfy quotas" ;;
  Returns (fold_left (overlay_one qs maxEvents) liveEvents (baseEvents, fold_left (fun s e => jsset_add (ev_id e) s) baseEvents [])).1.

Record LiveOverlay := mkOverlay { lv_pack : QueryPack; added : Z; liveEvalInPack : Z; familyCounts : list (string * option Z) }.

Definition with_final (pack : QueryPack) (evs : rows) : QueryPack := mkPack (qp_epochId pack) (evalSeedHex pack) (qp_corpusRoot pack) evs.

Definition admitActiveLiveEvalEvents (pack : QueryPack) (corpus : ProductionCorpus) : outcome LiveOverlay :=
  if limit opts <=? 0 then Returns (mkOverlay pack 0 0 [])
  else
    let existing := fold_left (fun s e => jsset_add (ev_id e) s) (qp_events pack) [] in
    live ← select_live existing (events corpus);
    let maxEvents := match qp_events pack with [] => limit opts | l => Z.of_nat (length l) end in
    let qs := match lo_quotas opts with Some qs => qs | None => default [] (quotas <$> lo_profile opts) end in
    finalEvents ← match qs with
      | [] => Returns (match live with [] => qp_events pack | _ => take (Z.to_nat maxEvents) (live ++ qp_events pack) end)
      | _ => quotaSafeLiveOverlay (qp_events pack) live maxEvents qs
      end;
    Returns (mkOverlay (with_final pack finalEvents)
      (Z.of_nat (length (filter (fun e => isActiveLiveEval e = true /\ ev_id e ∉ existing) finalEvents)))
      (Z.of_nat (length (filter (fun e => isActiveLiveEval e = true) finalEvents)))
      (fold_left (fun counts e => if isActiveLiveEval e then set_count (familyOf e) (count_of (familyOf e) counts) counts else counts) finalEvents [])).
End Options.

(** ** Verification *)
Inductive PackVerdict := PackOk | CorpusRootMismatch | DeriveFailed (e : js_error) | LengthMismatch | IdMismatch (i : nat).

Fixpoint compare_ids (i : nat) (recomputed published : rows) : PackVerdict :=
  match published, recomputed with
  | [], _ => PackOk
  | p :: published', r :: recomputed' => if String.eqb (ev_id r) (ev_id p) then compare_ids (S i) recomputed' published' else IdMismatch i
  | _ :: _, [] => IdMismatch i
  end.

Definition with_profile (o : ActiveLiveEvalPackOptions) (profile : HiddenPackProfile) : ActiveLiveEvalPackOptions :=
  mkLiveOptions (activeIds o) (limit o) (familyPriority o) (dedupePublicIntent o) (Some profile) (lo_quotas o) (lo_disabledFamilies o).

Section Verify.
Context {HK : Hasher}.

(** The pack anyone with the seed computes. *)
Definition recompute (epochId : Z) (hex : string) (corpus : ProductionCorpus) (profile : HiddenPackProfile) (activeLiveEval : option ActiveLiveEvalPackOptions) : outcome QueryPack :=
  base ← deriveQueryPack epochId hex corpus profile;
  match activeLiveEval with
  | None => Returns base
  | Some o => r ← admitActiveLiveEvalEvents (with_profile o profile) base corpus; Returns (lv_pack r)
  end.

Definition verifyQueryPack (pack : QueryPack) (corpus : ProductionCorpus) (profile : HiddenPackProfile) (activeLiveEval : option ActiveLiveEvalPackOptions) : PackVerdict :=
  if negb (String.eqb (toLowerCase (qp_corpusRoot pack)) (toLowerCase (corpusRoot corpus))) then CorpusRootMismatch
  else match recompute (qp_epochId pack) (evalSeedHex pack) corpus profile activeLiveEval with
  | Throws e => DeriveFailed e
  | Returns recomputed =>
    if negb (length (qp_events recomputed) =? length (qp_events pack))%nat then LengthMismatch
    else compare_ids 0 (qp_events recomputed) (qp_events pack)
  end.
End Verify.
End Live.

Record QuotaCoverage := mkCoverage { qc_stratum : string; qc_count : Z; qc_minCount : Z; satisfied : bool }.
Definition packQuotaCoverage (pack : QueryPack) (profile : HiddenPackProfile) : list QuotaCoverage :=
  map (fun q => let count := satisfying (stratum q) (qp_events pack) in mkCoverage (stratum q) count (minCount q) (minCount q <=? count)) (quotas profile).

Definition packFamilyCounts (pack : QueryPack) : list (string * option Z) :=
  fold_left (fun counts e => set_count (family e) (count_of (family e) counts) counts) (qp_events pack) [].

(** ** The overlay keeps the contract *)
Section Overlay.
Context (opts : ActiveLiveEvalPackOptions) (base : list ProductionCorpusEvent) (qs : list PackQuota) (maxEvents : Z).
Implicit Types final lives : list ProductionCorpusEvent.

Lemma quotas_more a b : (forall s, satisfying s a <= satisfying s b) -> quotasSatisfied a qs = true -> quotasSatisfied b qs = true.
Proof.
  intros H. unfold quotasSatisfied. rewrite !forallb_forall. intros Hq q Hin. apply Z.leb_le. etransitivity; [apply Z.leb_le, (Hq q Hin)|apply H].
Qed.

Record overlay_ok lives (st : list ProductionCorpusEvent * list string) : Prop := {
  ov_ids : forall x, x ∈ st.2 <-> x ∈ map ev_id st.1;
  ov_distinct : NoDup (map ev_id st.1);
  ov_from : forall e, e ∈ st.1 -> e ∈ base \/ e ∈ lives;
  ov_active : forall e, e ∈ base -> isActiveLiveEval opts e = true -> e ∈ st.1;
  ov_size : Z.of_nat (length base) <= Z.of_nat (length st.1) <= Z.max maxEvents (Z.of_nat (length base));
  ov_quotas : quotasSatisfied st.1 qs = true
}.

Lemma find_slot_spec cand final i j : find_slot opts qs maxEvents cand final i = Some j ->
  exists old, final !! j = Some old /\ isActiveLiveEval opts old = false /\ quotasSatisfied (cand :: take j final ++ drop (S j) final) qs = true.
Proof.
  induction i as [|i IH]; cbn [find_slot]; [done|]. destruct (final !! i) as [old|] eqn:E; [|done]. destruct (isActiveLiveEval opts old) eqn:Ea; [by apply IH|].
  destruct (quotasSatisfied (take _ _) qs) eqn:Hq; [|by apply IH]. intros [= <-]. exists old. split; [done|]. split; [done|]. eapply quotas_more; [|exact Hq]. intros s. apply satisfying_prefix, prefix_take.
Qed.

Lemma replaced_perm final j old : final !! j = Some old -> final ≡ₚ old :: take j final ++ drop (S j) final.
Proof. intros H. rewrite <- (take_drop_middle final j old H) at 1. by rewrite Permutation_middle. Qed.

Lemma map_perm (a b : list ProductionCorpusEvent) : a ≡ₚ b -> map ev_id a ≡ₚ map ev_id b.
Proof. apply Permutation_map. Qed.

Lemma overlay_one_ok lives st cand : overlay_ok lives st -> cand ∈ lives -> overlay_ok lives (overlay_one opts qs maxEvents st cand).
Proof.
  intros Hst Hin. destruct st as [final ids]. unfold overlay_one. case_bool_decide as Hid; [done|]. pose proof Hst as [H1 H2 H3 H4 H5 H6]. cbn [fst snd] in *.
  assert (Hn : ev_id cand ∉ map ev_id final) by (by rewrite <- H1). destruct (Z.ltb_spec (Z.of_nat (length final)) maxEvents) as [Hl|Hl].
  - destruct (quotasSatisfied (cand :: final) qs) eqn:Hq; [|done]. constructor; cbn [fst snd]; [| | | | |done].
    + intros x. rewrite elem_of_jsset_add, H1. cbn [map]. by rewrite elem_of_cons.
    + cbn [map]. by apply NoDup_cons.
    + intros e [-> |He]%elem_of_cons; [by right|by apply H3].
    + intros e He Ha. apply elem_of_cons. right. by apply H4.
    + cbn [length]. lia.
  - destruct (find_slot _ _ _ _ _ _) as [j|] eqn:Ef; [|done]. apply find_slot_spec in Ef as (old & Hj & Ha & Hq). rewrite Hj.
    pose proof (replaced_perm final j old Hj) as Hp. set (rest := take j final ++ drop (S j) final) in *.
    assert (Hd : NoDup (ev_id old :: map ev_id rest)) by (change (NoDup (map ev_id (old :: rest))); by rewrite <- (map_perm _ _ Hp)). apply NoDup_cons in Hd as [Hold Hd].
    assert (Hnr : ev_id cand ∉ map ev_id rest) by (intros Hx; apply Hn; rewrite (map_perm _ _ Hp); cbn [map]; by apply elem_of_cons; right). constructor; cbn [fst snd]; [| | | | |done].
    + intros x. rewrite elem_of_jsset_add, list_elem_of_filter, H1, (map_perm _ _ Hp). cbn [map]. rewrite !elem_of_cons. split; [naive_solver|]. intros [-> |Hx]; [by left|right].
      split; [by intros ->|by right].
    + cbn [map]. by apply NoDup_cons.
    + intros e [-> |He]%elem_of_cons; [by right|]. apply H3. rewrite Hp. apply elem_of_cons. by right.
    + intros e He Ha'. apply elem_of_cons. right. pose proof (H4 e He Ha') as Hf. rewrite Hp in Hf. apply elem_of_cons in Hf as [-> |Hf]; [congruence|done].
    + pose proof (Permutation_length Hp) as Hlen. cbn [length] in *. lia.
Qed.

Lemma overlay_fold_ok lives l st : overlay_ok lives st -> l ⊆ lives -> overlay_ok lives (fold_left (overlay_one opts qs maxEvents) l st).
Proof.
  revert st. induction l as [|x l IH]; intros st Hst Hl; cbn [fold_left]; [done|]. apply IH; [apply overlay_one_ok; [done|]|]; set_solver.
Qed.

Lemma id_set_spec (l : list ProductionCorpusEvent) acc x : x ∈ fold_left (fun s e => jsset_add (ev_id e) s) l acc <-> x ∈ acc \/ x ∈ map ev_id l.
Proof.
  revert acc. induction l as [|e l IH]; intros acc; cbn [fold_left map]; [set_solver|]. rewrite IH, elem_of_jsset_add, elem_of_cons. naive_solver.
Qed.

(** Quotas, distinctness, size and the active rows of the base survive the overlay. *)
Lemma quotaSafeLiveOverlay_ok lives : quotasSatisfied base qs = true -> NoDup (map ev_id base) ->
  exists final, quotaSafeLiveOverlay opts base lives maxEvents qs = Returns final /\ quotasSatisfied final qs = true /\ NoDup (map ev_id final)
    /\ (forall e, e ∈ final -> e ∈ base \/ e ∈ lives) /\ (forall e, e ∈ base -> isActiveLiveEval opts e = true -> e ∈ final)
    /\ Z.of_nat (length base) <= Z.of_nat (length final) <= Z.max maxEvents (Z.of_nat (length base)).
Proof.
  intros Hq Hnd. unfold quotaSafeLiveOverlay. rewrite Hq. cbn [negb throw_if mbind outcome_bind]. eexists. split; [reflexivity|].
  destruct (overlay_fold_ok lives lives (base, fold_left (fun s e => jsset_add (ev_id e) s) base [])) as [H1 H2 H3 H4 H5 H6]; [|done|]; [|exact (conj H6 (conj H2 (conj H3 (conj H4 H5))))].
  constructor; cbn [fst snd]; try done; [|by left|lia]. intros x. rewrite id_set_spec. set_solver.
Qed.
End Overlay.

(** ** The selection takes as many rows as the limit allows *)
(** Rows filed by family. *)
Definition rows_of (m : list (string * list ProductionCorpusEvent)) : list ProductionCorpusEvent := concat (map snd m).
Definition row_list (fam : string) (m : list (string * list ProductionCorpusEvent)) : list ProductionCorpusEvent := default [] (jsmap_get fam m).

Lemma rows_of_app a b : rows_of (a ++ b) = rows_of a ++ rows_of b.
Proof. unfold rows_of. by rewrite map_app, concat_app. Qed.

Lemma rows_of_set fam new m : rows_of (jsmap_set fam new m) ++ row_list fam m ≡ₚ rows_of m ++ new.
Proof.
  unfold row_list. destruct (jsmap_get fam m) as [l|] eqn:E; cbn [default].
  - apply jsmap_get_split in E as (a & b & -> & _ & Hset). rewrite Hset, !rows_of_app. unfold rows_of. cbn [map concat snd].
    rewrite <- !app_assoc. apply Permutation_app_head. rewrite (Permutation_app_comm new), (Permutation_app_comm l). rewrite <- !app_assoc.
    apply Permutation_app_head. apply Permutation_app_comm.
  - rewrite jsmap_set_fresh by (by apply jsmap_get_None). rewrite rows_of_app. change (rows_of [(fam, new)]) with (new ++ []). by rewrite !app_nil_r.
Qed.

Lemma row_list_set fam new fam' m : row_list fam (jsmap_set fam' new m) = if decide (fam = fam') then new else row_list fam m.
Proof. unfold row_list. rewrite jsmap_get_set. by case_decide. Qed.

Lemma rows_of_empty m : NoDup m.*1 -> (forall fam, fam ∈ m.*1 -> row_list fam m = []) -> rows_of m = [].
Proof.
  intros Hnd H. assert (Hall : Forall (fun e => e.2 = []) m).
  { apply Forall_forall. intros [fam l] Hin. pose proof Hin as Hg. apply jsmap_get_elem in Hg; [|done]. cbn [snd].
    specialize (H fam ltac:(by apply (list_elem_of_fmap_2 fst _ _ Hin))). unfold row_list in H. by rewrite Hg in H. }
  clear Hnd H. induction Hall as [|[fam l] m El _ IH]; [done|]. cbn [snd] in El. subst l. exact IH.
Qed.

Section Selecting.
Context (NumberToString : number -> string) (opts : ActiveLiveEvalPackOptions) (C : list ProductionCorpusEvent) (K : list string).

(** The intent keys of the rows can be computed. *)
Definition keys_print (l : list ProductionCorpusEvent) : Prop := Forall (fun e => exists k, stablePublicIntentKey NumberToString e = Returns k) l.
Context (Hprint : keys_print C) (Hpos : 0 < limit opts).

Definition stock (st : Selection) : list ProductionCorpusEvent := rows_of (byFamily st) ++ rows_of (deferredByFamily st).

Record sel_ok (st : Selection) : Prop := {
  se_rows : live st ++ stock st ≡ₚ C;
  se_families : (byFamily st).*1 = K;
  se_deferred : NoDup (deferredByFamily st).*1 /\ (deferredByFamily st).*1 ⊆ K;
  se_limit : Z.of_nat (length (live st)) <= limit opts
}.

(** What taking a row does: [pool fam] is what the phase can still take from a family. *)
Definition takes (pool : string -> Selection -> list ProductionCorpusEvent) (take_one : string -> Selection -> outcome (option ProductionCorpusEvent * Selection)) : Prop :=
  forall fam st, sel_ok st -> fam ∈ K -> exists r st', take_one fam st = Returns (r, st') /\ live st' = live st /\ option_list r ++ stock st' ≡ₚ stock st
    /\ (byFamily st').*1 = K /\ (NoDup (deferredByFamily st').*1 /\ (deferredByFamily st').*1 ⊆ K)
    /\ (r = None -> pool fam st' = [] /\ forall fam', fam' <> fam -> pool fam' st' = pool fam' st).

Lemma unique_scan_spec l used : keys_print l -> exists r rest deferred used', unique_scan NumberToString opts l used = Returns (r, rest, deferred, used')
  /\ option_list r ++ rest ++ deferred ≡ₚ l /\ (r = None -> rest = []).
Proof.
  intros Hl. revert used. induction Hl as [|e l [k Hk] Hl IH]; intros used; cbn [unique_scan]; [by exists None, [], [], used|].
  destruct (dedupes opts); cbn [mbind outcome_bind]; [rewrite Hk; cbn [mbind outcome_bind]|exists (Some e), l, [], used; cbn; rewrite app_nil_r; split; [reflexivity|split; [reflexivity|discriminate]]].
  destruct k as [k|]; [|exists (Some e), l, [], used; cbn; rewrite app_nil_r; split; [reflexivity|split; [reflexivity|discriminate]]]. destruct (bool_decide (k ∈ used)).
  - destruct (IH used) as (r & rest & deferred & used' & E & Hp & Hn). rewrite E. cbn [mbind outcome_bind]. exists r, rest, (e :: deferred), used'. split; [reflexivity|]. split; [|exact Hn].
    rewrite <- Hp. by rewrite <- !Permutation_middle.
  - exists (Some e), l, [], (jsset_add k used). cbn. rewrite app_nil_r. split; [reflexivity|split; [reflexivity|discriminate]].
Qed.

Lemma keys_print_rows st fam : sel_ok st -> keys_print (row_list fam (byFamily st)).
Proof.
  intros [Hr _ _ _]. unfold keys_print in *. rewrite <- Hr in Hprint. apply Forall_app in Hprint as [_ Hp]. apply Forall_app in Hp as [Hp _].
  unfold row_list. destruct (jsmap_get fam (byFamily st)) as [l|] eqn:E; [|constructor]. apply jsmap_get_split in E as (a & b & E & _). rewrite E, rows_of_app in Hp.
  apply Forall_app in Hp as [_ Hp]. by apply Forall_app in Hp as [Hp _].
Qed.

Lemma set_family_keys (m : list (string * list ProductionCorpusEvent)) fam l : m.*1 = K -> fam ∈ K -> (jsmap_set fam l m).*1 = K.
Proof. intros H Hin. rewrite jsmap_set_keys, H. by rewrite decide_True. Qed.

Lemma set_deferred_keys (m : list (string * list ProductionCorpusEvent)) fam l : NoDup m.*1 /\ m.*1 ⊆ K -> fam ∈ K -> NoDup (jsmap_set fam l m).*1 /\ (jsmap_set fam l m).*1 ⊆ K.
Proof. intros [H1 H2] Hin. split; [by apply jsmap_set_NoDup|]. rewrite jsmap_set_keys. case_decide; [done|]. set_solver. Qed.

Lemma takeUnique_takes : takes (fun fam st => row_list fam (byFamily st)) (takeUnique NumberToString opts).
Proof.
  intros fam st Hst Hfam. unfold takeUnique. destruct (unique_scan_spec (row_list fam (byFamily st)) (usedPublicIntentKeys st)) as (r & rest & deferred & used & E & Hp & Hn);
    [by apply keys_print_rows|]. destruct Hst as [Hr Hk Hd Hl].
  destruct (jsmap_get fam (byFamily st)) as [l|] eqn:Eg; [|apply jsmap_get_None in Eg; by rewrite Hk in Eg]. assert (El : row_list fam (byFamily st) = l) by (unfold row_list; by rewrite Eg).
  rewrite El in E, Hp. rewrite E. cbn [mbind outcome_bind]. eexists r, _. split; [reflexivity|]. cbn [live byFamily deferredByFamily]. split; [done|].
  pose proof (rows_of_set fam rest (byFamily st)) as S1. rewrite El in S1. split; [|split; [by apply set_family_keys|split]].
  - unfold stock. cbn [byFamily deferredByFamily]. set (d := match deferred with [] => _ | _ => _ end).
    assert (Hd' : rows_of d ≡ₚ rows_of (deferredByFamily st) ++ deferred).
    { subst d. destruct deferred as [|x deferred]; [by rewrite app_nil_r|]. pose proof (rows_of_set fam (row_list fam (deferredByFamily st) ++ x :: deferred) (deferredByFamily st)) as S2.
      apply (Permutation_app_inv_r (row_list fam (deferredByFamily st))). rewrite S2, <- app_assoc. apply Permutation_app_head, Permutation_app_comm. }
    rewrite Hd'. apply (Permutation_app_inv_r l). rewrite <- Hp at 2.
    transitivity (option_list r ++ (rows_of (jsmap_set fam rest (byFamily st)) ++ l) ++ rows_of (deferredByFamily st) ++ deferred); [solve_Permutation|].
    rewrite S1. solve_Permutation.
  - destruct deferred; [done|]. by apply set_deferred_keys.
  - intros ->. cbn [byFamily]. split; [rewrite row_list_set, decide_True by done; by apply Hn|]. intros fam' Hne. by rewrite row_list_set, decide_False.
Qed.

Lemma takeDeferred_takes : takes (fun fam st => row_list fam (deferredByFamily st) ++ row_list fam (byFamily st)) takeDeferred.
Proof.
  intros fam st [Hr Hk Hd Hl] Hfam. unfold takeDeferred. destruct (row_list fam (deferredByFamily st)) as [|x l] eqn:E1.
  - assert (Hm : forall (A : Type) (a : ProductionCorpusEvent -> list ProductionCorpusEvent -> A) (b : A), match jsmap_get fam (deferredByFamily st) with Some (x :: l) => a x l | _ => b end = b).
    { intros A a b. unfold row_list in E1. destruct (jsmap_get fam (deferredByFamily st)) as [[|x l]|]; done. }
    rewrite Hm. destruct (jsmap_get fam (byFamily st)) as [[|x l]|] eqn:E2; [| |apply jsmap_get_None in E2; by rewrite Hk in E2].
    + exists None, st. split; [reflexivity|]. split; [done|]. split; [done|]. split; [done|]. split; [done|]. intros _. split; [|done]. rewrite E1. unfold row_list. by rewrite E2.
    + eexists (Some x), _. split; [reflexivity|]. cbn [live byFamily deferredByFamily]. split; [done|]. split; [|split; [by apply set_family_keys|split; [done|discriminate]]].
      unfold stock. cbn [byFamily deferredByFamily option_list app]. pose proof (rows_of_set fam l (byFamily st)) as S. unfold row_list in S at 1. rewrite E2 in S. cbn in S.
      apply (Permutation_app_inv_r l). transitivity ((rows_of (jsmap_set fam l (byFamily st)) ++ x :: l) ++ rows_of (deferredByFamily st)); [solve_Permutation|]. rewrite S. solve_Permutation.
  - assert (E2 : jsmap_get fam (deferredByFamily st) = Some (x :: l)) by (unfold row_list in E1; destruct (jsmap_get fam (deferredByFamily st)); [cbn in E1; by rewrite E1|done]).
    rewrite E2. eexists (Some x), _. split; [reflexivity|]. cbn [live byFamily deferredByFamily]. split; [done|]. split; [|split; [done|split; [by apply set_deferred_keys|discriminate]]].
    unfold stock. cbn [byFamily deferredByFamily option_list app]. pose proof (rows_of_set fam l (deferredByFamily st)) as S. rewrite E1 in S.
    apply (Permutation_app_inv_r l). transitivity ((rows_of (jsmap_set fam l (deferredByFamily st)) ++ x :: l) ++ rows_of (byFamily st)); [solve_Permutation|]. rewrite S. solve_Permutation.
Qed.

Section Rounds.
Context (pool : string -> Selection -> list ProductionCorpusEvent) (take_one : string -> Selection -> outcome (option ProductionCorpusEvent * Selection)).
Context (Htake : takes pool take_one).

Lemma push_live_ok st st' e : sel_ok st -> live st' = live st -> e :: stock st' ≡ₚ stock st -> (byFamily st').*1 = K ->
  NoDup (deferredByFamily st').*1 /\ (deferredByFamily st').*1 ⊆ K -> full opts st = false -> sel_ok (push_live e st').
Proof.
  intros [Hr _ _ Hl] E1 E2 E3 E4 Hf. apply Z.leb_gt in Hf. constructor; cbn [push_live live byFamily deferredByFamily]; [|done|done|].
  - rewrite E1, <- Hr, <- E2, <- app_assoc. done.
  - rewrite E1, length_app. cbn [length]. lia.
Qed.

Lemma none_ok st st' : sel_ok st -> live st' = live st -> stock st' ≡ₚ stock st -> (byFamily st').*1 = K ->
  NoDup (deferredByFamily st').*1 /\ (deferredByFamily st').*1 ⊆ K -> sel_ok st'.
Proof. intros [Hr _ _ Hl] E1 E2 E3 E4. constructor; [by rewrite E1, E2|done|done|by rewrite E1]. Qed.

(** A round keeps the rows; if it took none, no pool of its families has any left. *)
Lemma one_round_spec fams adv st : sel_ok st -> fams ⊆ K -> exists adv' st', one_round opts take_one fams adv st = Returns (adv', st') /\ sel_ok st'
  /\ (length (stock st') <= length (stock st))%nat /\ (adv' = true -> adv = true \/ (length (stock st') < length (stock st))%nat)
  /\ (adv' = false -> adv = false /\ live st' = live st /\ (full opts st = false -> forall fam, fam ∈ fams -> pool fam st' = [])
        /\ forall fam, pool fam st = [] -> pool fam st' = []).
Proof.
  revert adv st. induction fams as [|fam fams IH]; intros adv st Hst Hf; cbn [one_round]; [exists adv, st; split; [reflexivity|]; split; [done|]; split; [lia|]; split; [by left|]|].
  { intros ->. repeat split; [set_solver|done]. }
  destruct (full opts st) eqn:Ef; [exists adv, st; split; [reflexivity|]; split; [done|]; split; [lia|]; split; [by left|]; intros ->; by repeat split|].
  destruct (Htake fam st Hst ltac:(set_solver)) as (r & st1 & E & H1 & H2 & H3 & H4 & H5). rewrite E. cbn [mbind outcome_bind]. destruct r as [e|].
  - cbn [option_list app] in H2. destruct (IH true (push_live e st1)) as (adv' & st' & E' & Hok & Hlen & Ht & Hn); [by eapply push_live_ok|set_solver|].
    exists adv', st'. split; [exact E'|]. split; [done|]. assert (Es : stock (push_live e st1) = stock st1) by reflexivity. rewrite Es in Hlen. pose proof (Permutation_length H2) as L. change (S (length (stock st1)) = length (stock st)) in L.
    split; [lia|]. split; [intros _; right; lia|]. intros Ha. by destruct (Hn Ha).
  - cbn [option_list app] in H2. destruct (H5 eq_refl) as [P1 P2]. assert (Ef' : full opts st1 = false) by (unfold full in *; by rewrite H1).
    destruct (IH adv st1) as (adv' & st' & E' & Hok & Hlen & Ht & Hn); [by eapply none_ok|set_solver|]. assert (L : length (stock st1) = length (stock st)) by (by rewrite H2).
    exists adv', st'. split; [exact E'|]. split; [done|]. split; [lia|]. split; [intros Ha; destruct (Ht Ha); [by left|right; lia]|].
    intros Ha. destruct (Hn Ha) as (Ha' & Hl & Hall & Hkeep). split; [done|]. split; [by rewrite Hl|]. split.
    + intros _ fam' [-> |Hin]%elem_of_cons; [by apply Hkeep|by apply Hall].
    + intros fam' Hp. apply Hkeep. destruct (decide (fam' = fam)) as [-> |]; [done|]. by rewrite P2.
Qed.

(** The rounds end: the selection is full, or every pool is empty. *)
Lemma rounds_spec fuel fams st : sel_ok st -> fams ⊆ K -> (length (stock st) < fuel)%nat -> exists st', rounds opts take_one fuel fams st = Returns st' /\ sel_ok st'
  /\ (length (stock st') <= length (stock st))%nat /\ (full opts st' = true \/ forall fam, fam ∈ fams -> pool fam st' = []).
Proof.
  revert st. induction fuel as [|fuel IH]; intros st Hst Hf Hl; [lia|]. cbn [rounds]. destruct (full opts st) eqn:Ef; [exists st; split; [reflexivity|]; split; [done|]; split; [lia|by left]|].
  destruct (one_round_spec fams false st Hst Hf) as (adv & st1 & E & Hok & Hlen & Ht & Hn). rewrite E. cbn [mbind outcome_bind]. destruct adv.
  - destruct (Ht eq_refl) as [|Hlt]; [done|]. destruct (IH st1 Hok Hf ltac:(lia)) as (st' & E' & Hok' & Hlen' & Hend). exists st'. split; [exact E'|]. split; [done|]. split; [lia|done].
  - destruct (Hn eq_refl) as (_ & _ & Hall & _). exists st1. split; [reflexivity|]. split; [done|]. split; [lia|right; by apply Hall].
Qed.
End Rounds.
End Selecting.

Section Filling.
Context (NumberToString : number -> string) (opts : ActiveLiveEvalPackOptions).

(** The active rows that are not in the pack yet. *)
Definition candidates (existing : list string) (evs : list ProductionCorpusEvent) : list ProductionCorpusEvent :=
  filter (fun e => isActiveLiveEval opts e = true /\ ev_id e ∉ existing) evs.

Lemma group_fold_spec existing evs m : NoDup m.*1 -> NoDup (fold_left (group_one opts existing) evs m).*1
  /\ rows_of (fold_left (group_one opts existing) evs m) ≡ₚ rows_of m ++ candidates existing evs.
Proof.
  revert m. induction evs as [|e evs IH]; intros m Hm; cbn [fold_left]; [split; [done|]; unfold candidates; by rewrite app_nil_r|].
  unfold candidates, group_one at 2 4. destruct (isActiveLiveEval opts e) eqn:Ea; cbn [negb orb].
  - case_bool_decide as Hx; [rewrite filter_cons_False by tauto; by apply IH|]. rewrite filter_cons_True by done. fold (row_list (familyOf e) m).
    destruct (IH (jsmap_set (familyOf e) (row_list (familyOf e) m ++ [e]) m)) as [I1 I2]; [by apply jsmap_set_NoDup|]. split; [exact I1|]. etransitivity; [exact I2|].
    pose proof (rows_of_set (familyOf e) (row_list (familyOf e) m ++ [e]) m) as S.
    assert (S' : rows_of (jsmap_set (familyOf e) (row_list (familyOf e) m ++ [e]) m) ≡ₚ rows_of m ++ [e])
      by (apply (Permutation_app_inv_r (row_list (familyOf e) m)); rewrite S; solve_Permutation).
    by rewrite S', <- app_assoc.
  - rewrite filter_cons_False by (intros [? ?]; congruence). by apply IH.
Qed.

Lemma group_live_spec existing evs : NoDup (group_live opts existing evs).*1 /\ rows_of (group_live opts existing evs) ≡ₚ candidates existing evs.
Proof. apply (group_fold_spec existing evs []), NoDup_nil_2. Qed.

Lemma sort_rows_keys m : (sort_rows m).*1 = m.*1.
Proof. unfold sort_rows. induction m as [|[f l] m IH]; [done|]. csimpl. by rewrite IH. Qed.

Lemma sort_rows_perm m : rows_of (sort_rows m) ≡ₚ rows_of m.
Proof.
  induction m as [|[f l] m IH]; [done|]. change (sort_rows ((f, l) :: m)) with ((f, stableSort l row_cmp) :: sort_rows m).
  unfold rows_of in *. cbn [map snd concat]. by rewrite stableSort_perm, IH.
Qed.

Lemma select_live_ok existing evs : keys_print NumberToString (candidates existing evs) -> 0 < limit opts ->
  exists l left, select_live NumberToString opts existing evs = Returns l /\ l ++ left ≡ₚ candidates existing evs
    /\ Z.of_nat (length l) <= limit opts /\ (left = [] \/ Z.of_nat (length l) = limit opts).
Proof.
  intros Hprint Hpos. destruct (group_live_spec existing evs) as [Hk Hrows]. unfold select_live. set (m := sort_rows (group_live opts existing evs)).
  assert (Hm : rows_of m ≡ₚ candidates existing evs) by (unfold m; by rewrite sort_rows_perm). assert (Hmk : NoDup m.*1) by (unfold m; by rewrite sort_rows_keys).
  set (order := stableSort _ _). assert (Ho : forall f, f ∈ order <-> f ∈ m.*1) by (intros f; unfold order; by rewrite stableSort_perm).
  set (st0 := mkSelection m [] [] []). assert (Hst0 : sel_ok opts (candidates existing evs) m.*1 st0).
  { constructor; cbn [st0 live byFamily deferredByFamily]; [|done|split; [constructor|set_solver]|cbn; lia]. unfold stock. cbn [byFamily deferredByFamily app]. change (rows_of []) with (@nil ProductionCorpusEvent).
    by rewrite app_nil_r. }
  assert (Hc : (length (stock st0) <= count_rows m)%nat) by (unfold stock, count_rows; cbn; rewrite app_nil_r; unfold rows_of; lia).
  destruct (rounds_spec NumberToString opts (candidates existing evs) m.*1 Hprint Hpos _ _ (takeUnique_takes NumberToString opts _ _ Hprint Hpos) (S (count_rows m)) order st0) as (st1 & E1 & Hst1 & Hl1 & _);
    [done|intros f; by rewrite Ho|lia|]. fold st0. rewrite E1. cbn [mbind outcome_bind].
  destruct (rounds_spec NumberToString opts (candidates existing evs) m.*1 Hprint Hpos _ _ (takeDeferred_takes NumberToString opts _ _ Hprint Hpos) (S (count_rows m)) order st1) as (st2 & E2 & Hst2 & Hl2 & Hend); [done|intros f; by rewrite Ho|lia|].
  rewrite E2. exists (live st2), (stock st2). destruct Hst2 as [R1 R2 [R3 R4] R5]. split; [reflexivity|]. split; [done|]. split; [done|].
  destruct Hend as [Hf|Hend]; [right; apply Z.leb_le in Hf; lia|left]. unfold stock. rewrite !rows_of_empty; [done|..]; [done| |by rewrite R2|]; intros f Hin;
    [assert (Hin' : f ∈ m.*1) by (by apply R4)|assert (Hin' : f ∈ m.*1) by (by rewrite <- R2)]; apply Ho, Hend in Hin'; by apply app_eq_nil in Hin' as [? ?].
Qed.

(** C14. The selection ends, and takes active rows that are not in the pack yet: all of them, or as many as the limit. *)
Theorem select_live_fills existing evs : keys_print NumberToString (candidates existing evs) -> 0 < limit opts ->
  exists l left, select_live NumberToString opts existing evs = Returns l /\ l ++ left ≡ₚ candidates existing evs
    /\ Z.of_nat (length l) <= limit opts /\ (left = [] \/ Z.of_nat (length l) = limit opts).
Proof. apply select_live_ok. Qed.
End Filling.

(** ** A published pack *)
Section Published.
Context {HK : Hasher} (NumberToString : number -> string).

Lemma map_ev_id_sub (a b l : list ProductionCorpusEvent) : a ++ b ≡ₚ l -> NoDup (map ev_id l) -> NoDup (map ev_id a).
Proof. intros Hp Hnd. rewrite <- (map_perm _ _ Hp), map_app in Hnd. by apply NoDup_app in Hnd as [? _]. Qed.

Lemma filter_ids_NoDup (P : ProductionCorpusEvent -> Prop) `{!forall e, Decision (P e)} l : NoDup (map ev_id l) -> NoDup (map ev_id (filter P l)).
Proof. intros Hn. eapply sublist_NoDup; [exact Hn|]. apply sublist_map, sublist_filter. Qed.

Lemma active_eligible o profile e : isActiveLiveEval (with_profile o profile) e = true -> hiddenPackEventEligible e profile = true.
Proof.
  unfold isActiveLiveEval, hiddenPackEventEligible, live_disabledFamilies. cbn [lo_profile with_profile mbind option_bind lo_disabledFamilies].
  rewrite !andb_true_iff, !bool_decide_eq_true. intros [[[[_ Hs] _] _] Hf]. destruct (split e); try done. apply bool_decide_eq_true. set_solver.
Qed.

(** The rows of a pack after the overlay: distinct, from the base or the active rows, as many as before. *)
Lemma admit_ok opts pack corpus : 0 < limit opts -> NoDup (map ev_id (events corpus)) -> NoDup (map ev_id (qp_events pack)) -> qp_events pack <> [] ->
  keys_print NumberToString (events corpus) ->
  let qs := match lo_quotas opts with Some qs => qs | None => default [] (quotas <$> lo_profile opts) end in quotasSatisfied (qp_events pack) qs = true ->
  exists r, admitActiveLiveEvalEvents NumberToString opts pack corpus = Returns r /\ qp_corpusRoot (lv_pack r) = qp_corpusRoot pack
    /\ NoDup (map ev_id (qp_events (lv_pack r))) /\ length (qp_events (lv_pack r)) = length (qp_events pack) /\ quotasSatisfied (qp_events (lv_pack r)) qs = true
    /\ (forall e, e ∈ qp_events (lv_pack r) -> e ∈ qp_events pack \/ e ∈ events corpus /\ isActiveLiveEval opts e = true)
    /\ (qs <> [] -> forall e, e ∈ qp_events pack -> isActiveLiveEval opts e = true -> e ∈ qp_events (lv_pack r)).
Proof.
  intros Hpos Hc Hp Hne Hk qs Hq. unfold admitActiveLiveEvalEvents. rewrite (proj2 (Z.leb_gt _ _)) by lia. cbv zeta. fold qs.
  set (existing := fold_left _ (qp_events pack) []). assert (Hex : forall x, x ∈ existing <-> x ∈ map ev_id (qp_events pack)) by (intros x; unfold existing; rewrite id_set_spec; set_solver).
  destruct (select_live_ok NumberToString opts existing (events corpus)) as (l & left & El & Hl & _); [|done|].
  { unfold keys_print, candidates in *. rewrite Forall_forall in Hk |- *. intros e He. apply list_elem_of_filter in He as [_ He]. by apply Hk. }
  rewrite El. cbn [mbind outcome_bind]. assert (Hlive : forall e, e ∈ l -> e ∈ events corpus /\ isActiveLiveEval opts e = true /\ ev_id e ∉ map ev_id (qp_events pack)).
  { intros e He. assert (He' : e ∈ candidates opts existing (events corpus)) by (rewrite <- Hl; apply elem_of_app; by left). apply list_elem_of_filter in He' as [[H1 H2] H3].
    split; [done|]. split; [done|]. by rewrite <- Hex. }
  assert (Hndl : NoDup (map ev_id l)) by (eapply map_ev_id_sub; [exact Hl|]; by apply filter_ids_NoDup).
  assert (Hmax : match qp_events pack with [] => limit opts | e :: l0 => Z.of_nat (length (e :: l0)) end = Z.of_nat (length (qp_events pack))) by (by destruct (qp_events pack)).
  rewrite Hmax. destruct qs as [|q qs'] eqn:Eqs.
  - eexists. split; [reflexivity|]. cbn [lv_pack with_final qp_events qp_corpusRoot]. split; [done|]. destruct l as [|x l]; [by repeat split; try by left|]. set (l' := x :: l) in *.
    assert (Hall : NoDup (map ev_id (l' ++ qp_events pack))).
    { rewrite map_app. apply NoDup_app. split; [done|]. split; [|done]. intros y Hy. apply list_elem_of_fmap in Hy as (e & -> & He). by apply Hlive. }
    split; [eapply sublist_NoDup; [exact Hall|]; apply sublist_map, sublist_take|]. split; [rewrite length_take, length_app; lia|]. split; [done|]. split; [|done].
    intros e He. apply elem_of_take in He as (i & He & _). apply list_elem_of_lookup_2, elem_of_app in He as [He|He]; [right|by left]. by destruct (Hlive e He) as (? & ? & _).
  - destruct (quotaSafeLiveOverlay_ok opts (qp_events pack) (q :: qs') (Z.of_nat (length (qp_events pack))) l Hq Hp) as (final & E & F1 & F2 & F3 & F4 & F5).
    rewrite E. cbn [outcome_bind]. eexists. split; [reflexivity|]. cbn [lv_pack with_final qp_events qp_corpusRoot]. split; [done|]. split; [done|]. split; [lia|]. split; [done|]. split; [|by intros _].
    intros e He. destruct (F3 e He) as [?|He']; [by left|right]. by destruct (Hlive e He') as (? & ? & _).
Qed.

(** C13. The overlay keeps the contract of the pack it is laid on. *)
Theorem recompute_contract epochId hex corpus profile o base : deriveQueryPack epochId hex corpus profile = Returns base -> 0 < packSize profile ->
  NoDup (map ev_id (events corpus)) -> lo_quotas o = None -> keys_print NumberToString (events corpus) ->
  exists pack, recompute NumberToString epochId hex corpus profile (Some o) = Returns pack /\ pack_ok corpus profile (qp_events pack)
    /\ (quotas profile <> [] -> forall e, e ∈ qp_events base -> isActiveLiveEval (with_profile o profile) e = true -> e ∈ qp_events pack).
Proof.
  intros Hd Hs Hc Hq Hk. unfold recompute. rewrite Hd. cbn [mbind outcome_bind]. destruct (derived_pack_ok _ _ _ _ _ Hd) as ([P1 P2 P3 P4] & _).
  destruct (Z.leb_spec (limit o) 0) as [Hl|Hl].
  { unfold admitActiveLiveEvalEvents. cbn [limit with_profile]. rewrite (proj2 (Z.leb_le _ _)) by done. cbn [outcome_bind lv_pack]. by exists base. }
  destruct (admit_ok (with_profile o profile) base corpus) as (r & E & _ & R2 & R3 & R4 & R5 & R6); [done|done|done|intros E; rewrite E in P1; cbn in P1; lia|done| |].
  { cbn [with_profile lo_quotas lo_profile]. rewrite Hq. exact P4. }
  cbn [with_profile lo_quotas lo_profile] in *. rewrite Hq in R4, R6. cbn [fmap option_fmap option_map default] in R4, R6. rewrite E. cbn [outcome_bind]. exists (lv_pack r). split; [done|].
  split; [|exact R6]. constructor; [by rewrite R3|done| |done]. apply Forall_forall. intros e He. rewrite Forall_forall in P3. destruct (R5 e He) as [?|[? ?]]; [by apply P3|].
  split; [done|]. by eapply active_eligible.
Qed.

Lemma compare_ids_spec i recomputed published : length recomputed = length published -> compare_ids i recomputed published = PackOk <-> map ev_id recomputed = map ev_id published.
Proof.
  revert i recomputed. induction published as [|p published IH]; intros i [|r recomputed] Hl; try done. cbn [compare_ids map]. destruct (String.eqb_spec (ev_id r) (ev_id p)) as [E|E].
  - rewrite IH by (cbn in Hl; lia). rewrite E. split; [by intros ->|by intros [= ->]].
  - split; [done|]. by intros [= ? _].
Qed.

(** A published pack verifies exactly when it is bound to the corpus root and lists the ids of the recomputation. *)
Theorem verifyQueryPack_iff pack corpus profile o : verifyQueryPack NumberToString pack corpus profile o = PackOk <->
  toLowerCase (qp_corpusRoot pack) = toLowerCase (corpusRoot corpus)
  /\ exists r, recompute NumberToString (qp_epochId pack) (evalSeedHex pack) corpus profile o = Returns r /\ map ev_id (qp_events r) = map ev_id (qp_events pack).
Proof.
  unfold verifyQueryPack. destruct (String.eqb_spec (toLowerCase (qp_corpusRoot pack)) (toLowerCase (corpusRoot corpus))) as [E|E]; cbn [negb]; [|by split; [|intros [? _]]].
  destruct (recompute _ _ _ _ _ _) as [r|e]; [|split; [done|by intros (_ & r & ? & _)]]. destruct (Nat.eqb_spec (length (qp_events r)) (length (qp_events pack))) as [El|El]; cbn [negb].
  - rewrite compare_ids_spec by done. split; [intros H; split; [done|by exists r]|]. by intros (_ & r' & <-%Returns_inj & ?).
  - split; [done|]. intros (_ & r' & <-%Returns_inj & Hm). apply (f_equal length) in Hm. by rewrite !length_map in Hm.
Qed.
End Published.

(** ** The seed of a published pack *)
Lemma hex_value_lower c : hex_value (lower_ascii c) = hex_value c.
Proof. destruct c as [[] [] [] [] [] [] [] []]; reflexivity. Qed.
Lemma js_space_lower c : is_js_space (lower_ascii c) = is_js_space c.
Proof. destruct c as [[] [] [] [] [] [] [] []]; reflexivity. Qed.
Lemma sign_lower c : (Ascii.eqb (lower_ascii c) "-" = Ascii.eqb c "-") /\ (Ascii.eqb (lower_ascii c) "+" = Ascii.eqb c "+") /\ (Ascii.eqb (lower_ascii c) "0" = Ascii.eqb c "0").
Proof. destruct c as [[] [] [] [] [] [] [] []]; by repeat split. Qed.
Lemma x_lower c : (Ascii.eqb (lower_ascii c) "x" || Ascii.eqb (lower_ascii c) "X") = (Ascii.eqb c "x" || Ascii.eqb c "X").
Proof. destruct c as [[] [] [] [] [] [] [] []]; reflexivity. Qed.

Lemma parseInt16_lower a b : parseInt16 (lower_ascii a) (lower_ascii b) = parseInt16 a b.
Proof. unfold parseInt16. destruct (sign_lower a) as (-> & -> & ->). by rewrite !hex_value_lower, js_space_lower, x_lower. Qed.

Lemma list_ascii_lower s : String.list_ascii_of_string (toLowerCase s) = map lower_ascii (String.list_ascii_of_string s).
Proof. induction s as [|c s IH]; [done|]. cbn. by rewrite IH. Qed.

Lemma length_lower s : String.length (toLowerCase s) = String.length s.
Proof. induction s as [|c s IH]; [done|]. cbn. by rewrite IH. Qed.

Lemma hex_pairs_lower l : hex_pairs (map lower_ascii l) = map (fun p => (lower_ascii p.1, lower_ascii p.2)) <$> hex_pairs l.
Proof.
  induction l as [l IH] using (induction_ltof1 _ (@length ascii)); unfold ltof in IH. destruct l as [|a [|b l]]; [done|done|]. cbn [map hex_pairs].
  rewrite (IH l) by (cbn; lia). by destruct (hex_pairs l).
Qed.

Lemma zero_x_lower a b s : toLowerCase (String a (String b s)) = String "0" (String "x" (toLowerCase s)) -> a = "0"%char /\ (b = "x"%char \/ b = "X"%char).
Proof.
  cbn [toLowerCase]. intros H. assert (Ha : lower_ascii a = "0"%char) by congruence. assert (Hb : lower_ascii b = "x"%char) by congruence. clear H. split.
  - destruct a as [[] [] [] [] [] [] [] []]; first [reflexivity|discriminate Ha].
  - destruct b as [[] [] [] [] [] [] [] []]; first [by left|by right|discriminate Hb].
Qed.

Lemma strip_seed_text hex : startsWith "0X" hex = false -> strip_0x (seed_text hex) = toLowerCase (strip_0x hex).
Proof.
  intros HX. unfold seed_text. destruct (startsWith "0x" (toLowerCase hex)) eqn:E.
  - unfold startsWith in E. apply String.prefix_correct in E. destruct hex as [|a [|b s]]; [done| |].
    { cbn in E. destruct (lower_ascii a); discriminate E. }
    assert (Hl : toLowerCase (String a (String b s)) = String "0" (String "x" (toLowerCase s))).
    { cbn [toLowerCase] in E |- *. cbn in E. injection E as -> ->. done. }
    destruct (zero_x_lower a b s Hl) as [-> [-> | ->]]; [done|]. revert HX. clear. unfold startsWith. cbn. by destruct s.
  - change (strip_0x ("0x" +:+ toLowerCase hex)%string) with (toLowerCase hex). f_equal. destruct hex as [|a [|b s]]; [done|by destruct a as [[] [] [] [] [] [] [] []]|].
    destruct (decide (a = "0"%char /\ b = "x"%char)) as [[-> ->]|Hn]; [revert E; clear; unfold startsWith; cbn; by destruct (toLowerCase s)|]. unfold strip_0x.
    destruct a as [[] [] [] [] [] [] [] []]; try done. destruct b as [[] [] [] [] [] [] [] []]; try done. by destruct Hn.
Qed.

Lemma evalSeedBytes_text hex : startsWith "0X" hex = false -> evalSeedBytes (seed_text hex) = evalSeedBytes hex.
Proof.
  intros HX. unfold evalSeedBytes. cbv zeta. rewrite strip_seed_text, length_lower, list_ascii_lower, hex_pairs_lower by done. destruct (hex_pairs _) as [ps|]; [|done].
  cbn [fmap option_fmap option_map]. rewrite map_map. assert (E : forall p : ascii * ascii, (let '(a, b) := (lower_ascii p.1, lower_ascii p.2) in default 0 (parseInt16 a b) mod 256) = (let '(a, b) := p in default 0 (parseInt16 a b) mod 256))
    by (intros [a b]; cbn [fst snd]; by rewrite parseInt16_lower).
  by rewrite (map_ext _ _ E).
Qed.

Lemma seed_text_idem hex : seed_text (seed_text hex) = seed_text hex.
Proof.
  assert (Hl : toLowerCase (seed_text hex) = seed_text hex /\ startsWith "0x" (seed_text hex) = true).
  { unfold seed_text. destruct (startsWith "0x" (toLowerCase hex)) eqn:E; [by rewrite toLowerCase_idem|]. rewrite toLowerCase_append, toLowerCase_idem. split; [reflexivity|]. unfold startsWith. cbn. by destruct (toLowerCase hex). }
  destruct Hl as [H1 H2]. unfold seed_text at 1. by rewrite H1, H2.
Qed.

Section Roundtrip.
Context {HK : Hasher} (NumberToString : number -> string).

Lemma derive_text epochId hex corpus profile : startsWith "0X" hex = false -> deriveQueryPack epochId (seed_text hex) corpus profile = deriveQueryPack epochId hex corpus profile.
Proof. intros HX. unfold deriveQueryPack. by rewrite evalSeedBytes_text, seed_text_idem. Qed.

Lemma derive_seed epochId hex corpus profile base : deriveQueryPack epochId hex corpus profile = Returns base -> evalSeedHex base = seed_text hex.
Proof.
  unfold deriveQueryPack. intros Hd. apply bind_Returns in Hd as (seed & _ & Hd). cbv zeta in Hd. apply throw_when_Returns in Hd as [_ Hd]. apply bind_Returns in Hd as (st & _ & Hd).
  apply throw_when_Returns in Hd as [_ Hd]. by apply Returns_inj in Hd as <-.
Qed.

Lemma admit_fields opts pack corpus r : admitActiveLiveEvalEvents NumberToString opts pack corpus = Returns r ->
  qp_epochId (lv_pack r) = qp_epochId pack /\ evalSeedHex (lv_pack r) = evalSeedHex pack /\ qp_corpusRoot (lv_pack r) = qp_corpusRoot pack.
Proof.
  unfold admitActiveLiveEvalEvents. destruct (_ <=? 0); [by intros <-%Returns_inj|]. cbv zeta. intros H. apply bind_Returns in H as (l & _ & H). apply bind_Returns in H as (final & _ & H).
  by apply Returns_inj in H as <-.
Qed.

(** The pack that the seed gives verifies when it is published. *)
Theorem published_pack_verifies epochId hex corpus profile o pack : recompute NumberToString epochId hex corpus profile o = Returns pack -> startsWith "0X" hex = false ->
  verifyQueryPack NumberToString pack corpus profile o = PackOk.
Proof.
  intros H HX. assert (Hf : qp_epochId pack = epochId /\ evalSeedHex pack = seed_text hex /\ qp_corpusRoot pack = corpusRoot corpus).
  { unfold recompute in H. apply bind_Returns in H as (base & Hd & H). pose proof (derived_pack_ok _ _ _ _ _ Hd) as (_ & E1 & E2). pose proof (derive_seed _ _ _ _ _ Hd) as E3.
    destruct o as [o|]; [|by apply Returns_inj in H as <-]. apply bind_Returns in H as (r & Ha & H). apply Returns_inj in H as <-. by destruct (admit_fields _ _ _ _ Ha) as (-> & -> & ->). }
  destruct Hf as (E1 & E2 & E3). apply verifyQueryPack_iff. rewrite E1, E2, E3. split; [done|]. exists pack. split; [|done].
  rewrite <- H. unfold recompute. by rewrite derive_text.
Qed.
End Roundtrip.

(** ** Witnesses *)
Definition layout_w : RetrievalKeyLayout := mkLayout 0 "int8" 0.
Definition query_w (id fam : string) (more : list (string * jsval)) : ProductionCorpusEvent :=
  CorpusRoot.mkEvent id fam "general" eval_hidden "q" [] [] [] false "0x00" [] (mkEmbedding "m" "r" layout_w [] [] []) more.
Definition intent_w (name : string) : list (string * jsval) := [("publicIntent", JObject [("name", JString name)])]%string.
Definition corpus_w : ProductionCorpus := mkCorpus
  [query_w "b" "long_horizon" []; query_w "zz_e3_q1" "temporal" (intent_w "ann"); query_w "a" "temporal" []; query_w "zz_e4_q2" "temporal" (intent_w "bob"); query_w "c" "temporal" [];
   query_w "zz_e5_q3" "temporal" (intent_w "eve")]
  [] None None "0xABCD" 5 "" "" layout_w "" "".
Definition profile_w : HiddenPackProfile := mkPackProfile 3 [mkQuota "family=temporal" 1; mkQuota "family=long_horizon,bucket=easy" 1] None None.
Definition live_w : ActiveLiveEvalPackOptions := mkLiveOptions ["zz_e3_q1"; "zz_e4_q2"; "zz_e5_q3"]%string 1 None None None None None.
Definition seed_w : string := bytesToHex (be_bytes 32 7).
Definition base_w : QueryPack := mkPack 5 (seed_text seed_w) "0xABCD" [query_w "zz_e3_q1" "temporal" (intent_w "ann"); query_w "b" "long_horizon" []; query_w "a" "temporal" []].

Lemma derived_w : deriveQueryPack (HK:=length_hasher) 5 seed_w corpus_w profile_w = Returns base_w.
Proof. vm_compute. reflexivity. Qed.

Lemma ids_w : NoDup (map ev_id (events corpus_w)).
Proof. apply NoDup_ListNoDup. repeat constructor; cbn; intuition congruence. Qed.

Lemma keys_w : keys_print int_printer (events corpus_w).
Proof. repeat constructor; eexists; vm_compute; reflexivity. Qed.

Lemma deriveQueryPack_sound_witness : pack_ok corpus_w profile_w (qp_events base_w).
Proof. exact (proj1 (deriveQueryPack_sound (HK:=length_hasher) 5 seed_w corpus_w profile_w base_w derived_w)). Defined.

Lemma deriveQueryPack_order_independent_witness :
  deriveQueryPack (HK:=length_hasher) 5 seed_w (mkCorpus (rev (events corpus_w)) [] None None "0xABCD" 5 "" "" layout_w "" "") profile_w = Returns base_w.
Proof.
  rewrite <- (deriveQueryPack_order_independent (HK:=length_hasher) 5 seed_w corpus_w _ profile_w); [exact derived_w|apply Permutation_rev|exact ids_w|reflexivity].
Defined.

Lemma recompute_contract_witness : exists pack, recompute (HK:=length_hasher) int_printer 5 seed_w corpus_w profile_w (Some live_w) = Returns pack /\ pack_ok corpus_w profile_w (qp_events pack).
Proof.
  destruct (recompute_contract (HK:=length_hasher) int_printer 5 seed_w corpus_w profile_w live_w base_w derived_w eq_refl ids_w eq_refl keys_w) as (pack & H1 & H2 & _).
  exists pack. split; [exact H1|exact H2].
Defined.

Lemma select_live_fills_witness : exists l, select_live int_printer live_w [] (events corpus_w) = Returns l /\ length l = 1%nat.
Proof.
  destruct (select_live_fills int_printer live_w [] (events corpus_w)) as (l & left & H1 & H2 & H3 & H4).
  - unfold keys_print, candidates. rewrite Forall_forall. intros e He. apply list_elem_of_filter in He as [_ He]. pose proof keys_w as Hk. unfold keys_print in Hk. rewrite Forall_forall in Hk. by apply Hk.
  - reflexivity.
  - exists l. split; [exact H1|]. apply Permutation_length in H2. rewrite length_app in H2. change (length (candidates live_w [] (events corpus_w))) with 3%nat in H2. cbn [limit live_w] in *.
    destruct H4 as [-> |H4]; cbn in H2; lia.
Defined.

Lemma published_pack_verifies_witness : verifyQueryPack (HK:=length_hasher) int_printer base_w corpus_w profile_w None = PackOk.
Proof. apply (published_pack_verifies (HK:=length_hasher) int_printer 5 seed_w corpus_w profile_w None base_w); [unfold recompute; rewrite derived_w; reflexivity|reflexivity]. Defined.
