(* ===== verification/FirstStage.v ===== *)
(** * First-stage retrieval (eval/public-corpus-index.ts)

    The index the scorer searches before it reranks: the public documents of
    a corpus with their dequantized embeddings and a lexical index. Dense
    retrieval keeps the best [k] documents in a binary heap, lexical retrieval
    sums BM25 terms over postings, hybrid retrieval adds the two normalized
    rankings. The owner-scoped variants of eval/retrieval-benchmark.ts score a
    set of documents directly.

    Arithmetic is IEEE, with the rounding of [Float32Array] stores. Logarithm
    and sha256 are parameters. A comparator that subtracts two scores is
    modelled by the sign of the difference ([sub_sign]).

    Theorems: the heap selects what a full sort selects; every mode returns at
    most [k] distinct documents of the index; the index depends on the public
    part of the corpus only; scoring by postings and scoring directly agree. *)
From Stdlib Require Import Ascii Sorted.
From stdpp Require Import sorting.
From S2P Require Import Prelude JsSort StateTypes Float Codec Keccak Merkle Decoder Substrate SeedDerivation CanonicalJson CorpusRoot CorpusDelta.
#[local] Open Scope Z_scope.

Record PublicCorpusDoc := mkDoc { pd_id : string; pd_eventId : string; pd_embedding : bytes; pd_text : string }.
Inductive FirstStageMode := mode_dense | mode_lexical | mode_hybrid.
Record FirstStageRetrievalOptions := mkRetrieval { rt_mode : option FirstStageMode; denseWeight : option number; lexicalWeight : option number }.
Record LexicalPosting := mkPosting { p_idx : nat; p_tf : Z }.
Record PublicCorpusIndex := mkIndex {
  ix_biEncoderModelId : string;
  ix_biEncoderRevision : string;
  ix_layout : RetrievalKeyLayout;
  docs : list PublicCorpusDoc;
  denseEmbeddings : list number;
  denseInvNorms : list number;
  lexicalPostings : list (string * list LexicalPosting);
  lexicalIdf : list (string * number);
  lexicalDocLengths : list number;
  lexicalAvgDocLength : number;
  indexHash : string
}.

(** ** Tokens *)
Definition is_word_char (c : ascii) : bool :=
  let n := Ascii.nat_of_ascii c in ((97 <=? n) && (n <=? 122) || (48 <=? n) && (n <=? 57))%nat.

(** [/[a-z0-9]+/g]: the maximal runs, the current one in reverse. *)
Fixpoint word_runs (cur l : list ascii) : list (list ascii) :=
  match l with
  | [] => match cur with [] => [] | _ => [rev cur] end
  | c :: l' =>
    if is_word_char c then word_runs (c :: cur) l'
    else match cur with [] => word_runs [] l' | _ => rev cur :: word_runs [] l' end
  end.

Definition publicTextTokens (t : string) : list string :=
  map String.string_of_list_ascii
    (filter (fun w => (1 < length w)%nat) (word_runs [] (String.list_ascii_of_string (toLowerCase t)))).

(** ** Building the index *)
Definition float0 : number := of_Z 0.
Definition float1 : number := of_Z 1.
(** [a[i]!] of a [Float32Array]: past the end it is undefined, which arithmetic reads as NaN. *)
Definition number_at (l : list number) (i : nat) : number := default S754_nan (l !! i).

(** [seen] after the documents of one event. *)
Definition see_doc (embs : list (string * bytes)) (eventId id txt : string) (seen : list (string * PublicCorpusDoc)) : list (string * PublicCorpusDoc) :=
  match jsmap_get id seen with
  | Some _ => seen
  | None =>
    match jsmap_get id embs with
    | None => seen
    | Some emb => jsmap_set id (mkDoc id eventId emb txt) seen
    end
  end.

Definition see_event (seen : list (string * PublicCorpusDoc)) (event : ProductionCorpusEvent) : list (string * PublicCorpusDoc) :=
  let seen' := fold_left (fun s t => see_doc (perTruth (embeddings event)) (ev_id event) (td_id t) (td_text t) s) (truthDocuments event) seen in
  fold_left (fun s n => see_doc (perNegative (embeddings event)) (ev_id event) (hn_id n) (hn_text n) s) (hardNegatives event) seen'.

Definition doc_cmp (a b : PublicCorpusDoc) : Z := string_cmp (pd_id a) (pd_id b).

(** The dequantized row of a document, before it is stored. *)
Definition row_values (bs : bytes) (dimension : nat) : list number :=
  let scale := readFloat32BE bs 0 in
  map (fun j =>
      match bs !! (4 + j)%nat with
      | Some b => dmul scale (of_Z (if 127 <? b then b - 256 else b))
      | None => S754_nan
      end) (seq 0 dimension).

Definition sum_squares (vs : list number) : number := fold_left (fun a v => dadd a (dmul v v)) vs float0.
(** [normSq > 0 ? 1 / Math.sqrt(normSq) : 0] *)
Definition inv_norm (normSq : number) : number := if dlt float0 normSq then ddiv float1 (dsqrt normSq) else float0.

Definition count_tokens (tokens : list string) : list (string * Z) :=
  fold_left (fun tf t => jsmap_set t (default 0 (jsmap_get t tf) + 1) tf) tokens [].

Definition add_postings (i : nat) (tf : list (string * Z)) (builders : list (string * list LexicalPosting)) : list (string * list LexicalPosting) :=
  fold_left (fun m e => jsmap_set e.1 (default [] (jsmap_get e.1 m) ++ [mkPosting i e.2]) m) tf builders.

(** The arrays the loop over the documents fills. *)
Record Building := mkBuilding {
  b_dense : list number;
  b_invNorms : list number;
  b_lengths : list number;
  b_lengthSum : Z;
  b_postings : list (string * list LexicalPosting)
}.

Definition index_doc (dimension i : nat) (d : PublicCorpusDoc) (b : Building) : outcome Building :=
  let bs := pd_embedding d in
  throw_when (length bs <? 4)%nat with RangeError "Offset is outside the bounds of the DataView" ;;
  let vs := row_values bs dimension in
  let tokens := publicTextTokens (pd_text d) in
  let len := Z.of_nat (length tokens) in
  Returns (mkBuilding (b_dense b ++ map round_float32 vs)
    (b_invNorms b ++ [round_float32 (inv_norm (sum_squares vs))])
    (b_lengths b ++ [round_float32 (of_Z len)])
    (b_lengthSum b + len)
    (add_postings i (count_tokens tokens) (b_postings b))).

Fixpoint index_docs (dimension i : nat) (l : list PublicCorpusDoc) (b : Building) : outcome Building :=
  match l with
  | [] => Returns b
  | d :: l' => b' ← index_doc dimension i d b; index_docs dimension (S i) l' b'
  end.

Section Index.
Context (math_log : number -> number) (sha256_hex : string -> string).

(** [Math.log(1 + (n - df + 0.5) / (df + 0.5))] *)
Definition bm25_idf (n df : Z) : number :=
  math_log (dadd float1 (ddiv (dadd (of_Z (n - df)) (of_frac 1 2)) (dadd (of_Z df) (of_frac 1 2)))).

Definition tab : string := String (Ascii.ascii_of_nat 9) "".
Definition newline : string := String (Ascii.ascii_of_nat 10) "".

Definition public_docs (evs : list ProductionCorpusEvent) : list PublicCorpusDoc :=
  stableSort (map snd (fold_left see_event evs [])) doc_cmp.

Definition buildPublicCorpusIndex (corpus : ProductionCorpus) : outcome PublicCorpusIndex :=
  let layout := biEncoderRetrievalKeyLayout corpus in
  match events corpus with
  | [] => Returns (mkIndex (biEncoderModelId corpus) (biEncoderRevision corpus) layout [] [] [] [] [] [] float0
                     ("0x" +:+ String.string_of_list_ascii (replicate 64 "0"%char))%string)
  | evs =>
    let ds := public_docs evs in
    let n := Z.of_nat (length ds) in
    throw_when n * dim layout <? 0 with RangeError "Invalid typed array length" ;;
    b ← index_docs (Z.to_nat (dim layout)) 0 ds (mkBuilding [] [] [] 0 []);
    let idf := map (fun e => (e.1, bm25_idf n (Z.of_nat (length e.2)))) (b_postings b) in
    let avg := if 0 <? n then ddiv (of_Z (b_lengthSum b)) (of_Z n) else float0 in
    let idsConcat := join_with newline (map (fun d => pd_id d +:+ tab +:+ sha256_hex (pd_text d))%string ds) in
    Returns (mkIndex (biEncoderModelId corpus) (biEncoderRevision corpus) layout ds (b_dense b) (b_invNorms b)
      (b_postings b) idf (b_lengths b) avg ("0x" +:+ sha256_hex idsConcat)%string)
  end.
End Index.

(** ** The heap *)
Definition swap {A} (i j : nat) (heap : list A) : list A :=
  match heap !! i, heap !! j with Some x, Some y => <[j := x]> (<[i := y]> heap) | _, _ => heap end.

Section Heap.
Context {A : Type} (compareMin : A -> A -> Z).

Fixpoint heapifyUp (fuel i : nat) (heap : list A) : list A :=
  match fuel with
  | O => heap
  | S fuel' =>
    if (0 <? i)%nat then
      let parent := Nat.div2 (i - 1) in
      match heap !! i, heap !! parent with
      | Some x, Some p => if compareMin x p <? 0 then heapifyUp fuel' parent (swap i parent heap) else heap
      | _, _ => heap
      end
    else heap
  end.

(** [left < n && compareMin(heap[left], heap[smallest]) < 0 ? left : smallest] *)
Definition smaller (heap : list A) (child smallest : nat) : nat :=
  match heap !! child, heap !! smallest with
  | Some x, Some y => if compareMin x y <? 0 then child else smallest
  | _, _ => smallest
  end.

Fixpoint heapifyDown (fuel i : nat) (heap : list A) : list A :=
  match fuel with
  | O => heap
  | S fuel' =>
    let smallest := smaller heap (2 * i + 2) (smaller heap (2 * i + 1) i) in
    if (smallest =? i)%nat then heap else heapifyDown fuel' smallest (swap i smallest heap)
  end.

(** One turn of the selection loop; [better] is its test against [heap[0]]. *)
Definition offer (better : A -> A -> bool) (k : Z) (heap : list A) (x : A) : list A :=
  if Z.of_nat (length heap) <? k then heapifyUp (length heap) (length heap) (heap ++ [x])
  else match heap with
  | root :: _ => if better x root then heapifyDown (length heap) 0 (<[0%nat := x]> heap) else heap
  | [] => heap
  end.
End Heap.

(** A scored document: the score and the position in [docs]. *)
Abbreviation scored := (number * nat)%type.

(** ** Dense retrieval *)
Section Search.
Context (index : PublicCorpusIndex).

Definition id_at (i : nat) : string := from_option pd_id "" (docs index !! i).

Definition compareMin (a b : scored) : Z :=
  if negb (deq a.1 b.1) then sub_sign a.1 b.1
  else if string_lt (id_at a.2) (id_at b.2) then 1 else if string_lt (id_at b.2) (id_at a.2) then -1 else 0.

Definition better (x root : scored) : bool := dlt root.1 x.1 || deq x.1 root.1 && string_lt (id_at x.2) (id_at root.2).

(** The order of every result: score down, id up. *)
Definition result_cmp (a b : scored) : Z :=
  if negb (deq b.1 a.1) then sub_sign b.1 a.1 else if string_lt (id_at a.2) (id_at b.2) then -1 else 1.

Definition cosine_at (queryVec : list number) (invQNorm : number) (i : nat) : number :=
  let dimension := Z.to_nat (dim (ix_layout index)) in
  let base := (i * dimension)%nat in
  let dot := fold_left (fun dot j => dadd dot (dmul (number_at queryVec j) (number_at (denseEmbeddings index) (base + j)))) (seq 0 dimension) float0 in
  dmul (dmul dot (number_at (denseInvNorms index) i)) invQNorm.

(** Every document with its score, in the order the loop meets them. *)
Definition dense_entries (queryVec : list number) : list scored :=
  let invQNorm := inv_norm (sum_squares queryVec) in
  map (fun i => (cosine_at queryVec invQNorm i, i)) (seq 0 (length (docs index))).

Definition denseFirstStageScored (queryVec : list number) (k : Z) : list scored :=
  if (k <=? 0) || (length (docs index) =? 0)%nat then []
  else stableSort (fold_left (offer compareMin better k) (dense_entries queryVec) []) result_cmp.

Definition docs_of (l : list scored) : list PublicCorpusDoc := omap (fun s => docs index !! s.2) l.

Definition firstStageCandidates (queryVec : list number) (k : Z) : list PublicCorpusDoc :=
  if (k <=? 0) || (length (docs index) =? 0)%nat then []
  else docs_of (stableSort (fold_left (offer compareMin better k) (dense_entries queryVec) []) result_cmp).

(** ** Lexical retrieval *)
Definition bm25_k1 : number := of_frac 12 10.
Definition bm25_b : number := of_frac 75 100.
(** [tf + k1 * (1 - b + b * dl / Math.max(1, avg))] *)
Definition bm25_denom (tf : Z) (dl avg : number) : number :=
  dadd (of_Z tf) (dmul bm25_k1 (dadd (dsub float1 bm25_b) (ddiv (dmul bm25_b dl) (math_max float1 avg)))).
(** [idf * (tf * (k1 + 1)) / denom] *)
Definition bm25_score (idf : number) (tf : Z) (denom : number) : number :=
  ddiv (dmul idf (dmul (of_Z tf) (dadd bm25_k1 float1))) denom.

Definition add_posting (idf : number) (scores : list (nat * number)) (p : LexicalPosting) : list (nat * number) :=
  let dl := default float0 (lexicalDocLengths index !! p_idx p) in
  let score := bm25_score idf (p_tf p) (bm25_denom (p_tf p) dl (lexicalAvgDocLength index)) in
  jsmap_set (p_idx p) (dadd (default float0 (jsmap_get (p_idx p) scores)) score) scores.

Definition add_token (scores : list (nat * number)) (token : string) : list (nat * number) :=
  match jsmap_get token (lexicalPostings index) with
  | None => scores
  | Some postings => fold_left (add_posting (default float0 (jsmap_get token (lexicalIdf index)))) postings scores
  end.

Definition query_tokens (queryText : string) : list string := fold_left (fun s t => jsset_add t s) (publicTextTokens queryText) [].
Definition lexical_scores (queryText : string) : list (nat * number) := fold_left add_token (query_tokens queryText) [].

(** [[...scores.entries()].sort(...).slice(0, k)] *)
Definition ranked (scores : list (nat * number)) (k : Z) : list scored :=
  take (Z.to_nat k) (stableSort (map (fun e => (e.2, e.1)) scores) result_cmp).

Definition lexicalFirstStageScored (queryText : string) (k : Z) : list scored :=
  if (k <=? 0) || (length (docs index) =? 0)%nat then [] else ranked (lexical_scores queryText) k.

Definition lexicalFirstStageCandidates (queryText : string) (k : Z) : list PublicCorpusDoc := docs_of (lexicalFirstStageScored queryText k).

(** ** Hybrid retrieval *)
Definition addNormalized (items : list scored) (weight : number) (scores : list (nat * number)) : list (nat * number) :=
  match items, last items with
  | first :: _, Some final =>
    if deq weight float0 then scores
    else
      let span := dsub first.1 final.1 in
      fold_left (fun m it =>
          let norm := if dlt float0 span then ddiv (dsub it.1 final.1) span else float1 in
          jsmap_set it.2 (dadd (default float0 (jsmap_get it.2 m)) (dmul weight norm)) m) items scores
  | _, _ => scores
  end.

Definition hybridFirstStageScored (queryText : string) (queryVec : list number) (k : Z) (opts : FirstStageRetrievalOptions) : list scored :=
  if (k <=? 0) || (length (docs index) =? 0)%nat then []
  else
    let scores := addNormalized (denseFirstStageScored queryVec k) (default float1 (denseWeight opts)) [] in
    ranked (addNormalized (lexicalFirstStageScored queryText k) (default float1 (lexicalWeight opts)) scores) k.

Definition retrieveFirstStageCandidates (queryText : string) (queryVec : list number) (k : Z) (opts : FirstStageRetrievalOptions) : list PublicCorpusDoc :=
  match default mode_dense (rt_mode opts) with
  | mode_dense => firstStageCandidates queryVec k
  | mode_lexical => lexicalFirstStageCandidates queryText k
  | mode_hybrid => docs_of (hybridFirstStageScored queryText queryVec k opts)
  end.
End Search.

(** ** Owner-scoped retrieval (eval/bi-encoder.ts, eval/retrieval-benchmark.ts) *)
Definition dequantize (bs : bytes) (layout : RetrievalKeyLayout) : outcome (list number) :=
  let dimension := Z.to_nat (dim layout) in
  throw_when dim layout <? 0 with RangeError "Invalid typed array length" ;;
  if String.eqb (quantization layout) "int8" then
    throw_when Z.of_nat (length bs) <? 4 + dim layout with GenericError "dequantize int8: bytes too short" ;;
    let scale := readFloat32BE bs 0 in
    Returns (map (fun i =>
        let raw := get0 bs (Z.of_nat (4 + i)) in
        let signed := if raw <? 128 then raw else raw - 256 in
        round_float32 (dmul (of_Z signed) scale)) (seq 0 dimension))
  else if String.eqb (quantization layout) "bf16" then
    throw_when Z.of_nat (length bs) <? dim layout * 2 with GenericError "dequantize bf16: bytes too short" ;;
    Returns (map (fun i =>
        let hi := get0 bs (Z.of_nat (i * 2)) in
        let lo := get0 bs (Z.of_nat (i * 2 + 1)) in
        float32_of_bits (ToUint32 (js_or (js_shl hi 24) (js_shl lo 16)))) (seq 0 dimension))
  else Throws (GenericError "dequantize: unknown quantization").

Definition cosineSimilarity (a b : list number) : outcome number :=
  throw_when negb (length a =? length b)%nat with GenericError "cosineSimilarity: dim mismatch" ;;
  let '(dot, na, nb) := fold_left (fun '(dot, na, nb) '(x, y) => (dadd dot (dmul x y), dadd na (dmul x x), dadd nb (dmul y y)))
    (zip a b) (float0, float0, float0) in
  Returns (if deq na float0 || deq nb float0 then float0 else ddiv dot (dmul (dsqrt na) (dsqrt nb))).

Section Scoped.
Context (math_log : number -> number).

(** [df] over the scope. *)
Definition token_frequencies (tokenized : list (PublicCorpusDoc * list string)) : list (string * Z) :=
  fold_left (fun df x => fold_left (fun df t => jsmap_set t (default 0 (jsmap_get t df) + 1) df) (fold_left (fun s t => jsset_add t s) x.2 []) df) tokenized [].

Definition scope_add (qt : string) (idf avgdl : number) (scores : list (string * number)) (x : PublicCorpusDoc * list string) : list (string * number) :=
  let tf := Z.of_nat (length (filter (fun t => t = qt) x.2)) in
  if tf =? 0 then scores
  else
    let denom := bm25_denom tf (of_Z (Z.of_nat (length x.2))) avgdl in
    jsmap_set (pd_id x.1) (dadd (default float0 (jsmap_get (pd_id x.1) scores)) (bm25_score idf tf denom)) scores.

Definition scopedLexicalScores (queryText : string) (scopeDocs : list PublicCorpusDoc) : list (string * number) :=
  match scopeDocs with
  | [] => []
  | _ =>
    let tokenized := map (fun d => (d, publicTextTokens (pd_text d))) scopeDocs in
    let total := fold_left (fun a x => a + Z.of_nat (length x.2)) tokenized 0 in
    let avgdl := ddiv (of_Z total) (of_Z (Z.of_nat (length tokenized))) in
    let df := token_frequencies tokenized in
    fold_left (fun scores qt =>
        let n := default 0 (jsmap_get qt df) in
        if n =? 0 then scores
        else fold_left (scope_add qt (bm25_idf math_log (Z.of_nat (length scopeDocs)) n) avgdl) tokenized scores)
      (query_tokens queryText) []
  end.

Definition min_of (l : list number) : number := fold_left (fun m v => if dlt v m then v else m) l (S754_infinity false).
Definition max_of (l : list number) : number := fold_left (fun m v => if dlt m v then v else m) l (S754_infinity true).
Definition bounds_of (l : list number) : number * number := match l with [] => (float0, float0) | _ => (min_of l, max_of l) end.

Definition scope_cmp (a b : PublicCorpusDoc * number) : Z :=
  if negb (deq b.2 a.2) then sub_sign b.2 a.2 else string_cmp (pd_id a.1) (pd_id b.1).

Definition dense_cosine (queryVec : list number) (layout : RetrievalKeyLayout) (d : PublicCorpusDoc) : outcome number :=
  v ← dequantize (pd_embedding d) layout; cosineSimilarity queryVec v.

(** The score of a document under each mode. *)
Definition scope_score (mode : FirstStageMode) (opts : FirstStageRetrievalOptions) (queryVec : list number) (layout : RetrievalKeyLayout)
    (denseById : list (string * number)) (lexicalScores : list (string * number)) (lexMin lexMax : number) (d : PublicCorpusDoc) : outcome number :=
  let rawLex := default float0 (jsmap_get (pd_id d) lexicalScores) in
  match mode with
  | mode_dense => dense_cosine queryVec layout d
  | mode_lexical => Returns rawLex
  | mode_hybrid =>
    let dense := default float0 (jsmap_get (pd_id d) denseById) in
    let lex := if dlt lexMin lexMax then ddiv (dsub rawLex lexMin) (dsub lexMax lexMin) else if dlt float0 rawLex then float1 else float0 in
    Returns (dadd (dmul (default float1 (denseWeight opts)) dense) (dmul (default float1 (lexicalWeight opts)) lex))
  end.

Definition scopedFirstStageCandidates (queryText : string) (queryVec : list number) (scopeDocs : list PublicCorpusDoc) (k : Z) (layout : RetrievalKeyLayout)
    (opts : FirstStageRetrievalOptions) : outcome (list PublicCorpusDoc) :=
  if (k <=? 0) || (length scopeDocs =? 0)%nat then Returns []
  else
    let mode := default mode_dense (rt_mode opts) in
    let lexicalScores := match mode with mode_dense => [] | _ => scopedLexicalScores queryText scopeDocs end in
    denseVals ← match mode with
      | mode_lexical => Returns []
      | _ => mapM (fun d => c ← dense_cosine queryVec layout d; Returns (pd_id d, c)) scopeDocs
      end;
    let '(denseMin, denseMax) := bounds_of (map snd denseVals) in
    let denseById := fold_left (fun m e => jsmap_set e.1 (if dlt denseMin denseMax then ddiv (dsub e.2 denseMin) (dsub denseMax denseMin) else float1) m) denseVals [] in
    let '(lexMin, lexMax) := bounds_of (map snd lexicalScores) in
    scored ← mapM (fun d => s ← scope_score mode opts queryVec layout denseById lexicalScores lexMin lexMax d; Returns (d, s)) scopeDocs;
    Returns (map fst (take (Z.to_nat k) (stableSort scored scope_cmp))).
End Scoped.

(** ** The heap keeps the best *)
Lemma swap_lookup {A} i j (h : list A) x y : i <> j -> h !! i = Some x -> h !! j = Some y ->
  forall n, swap i j h !! n = if decide (n = i) then Some y else if decide (n = j) then Some x else h !! n.
Proof.
  intros Hij Hi Hj n. unfold swap. rewrite Hi, Hj. pose proof (lookup_lt_Some _ _ _ Hi). pose proof (lookup_lt_Some _ _ _ Hj).
  destruct (decide (n = i)) as [->|Hni]; [rewrite list_lookup_insert_ne, list_lookup_insert_eq by done; done|].
  destruct (decide (n = j)) as [->|Hnj]; [by rewrite list_lookup_insert_eq by (by rewrite length_insert)|]. by rewrite !list_lookup_insert_ne.
Qed.

Lemma swap_perm {A} i j (h : list A) : swap i j h ≡ₚ h.
Proof.
  unfold swap. destruct (h !! i) as [x|] eqn:Hi; [|done]. destruct (h !! j) as [y|] eqn:Hj; [|done].
  by apply Permutation_insert_swap.
Qed.

Section HeapFacts.
Context {A : Type} (cmp : A -> A -> Z) (P : A -> Prop).
(** [le a b]: [a] may stand above [b]. *)
Definition above (a b : A) : Prop := 0 <= cmp b a.
Context (above_total : forall a b, cmp a b < 0 -> above a b) (above_trans : forall a b c, P b -> above a b -> above b c -> above a c).

Definition parent (j : nat) : nat := Nat.div2 (j - 1).

Definition heap_ok_but (Q : nat -> Prop) (h : list A) : Prop :=
  forall j x p, (0 < j)%nat -> ~ Q j -> h !! j = Some x -> h !! parent j = Some p -> above p x.
(** Everything below [i] may stand below the parent of [i]. *)
Definition bridged (i : nat) (h : list A) : Prop :=
  forall j x p, (0 < i)%nat -> (0 < j)%nat -> parent j = i -> h !! j = Some x -> h !! parent i = Some p -> above p x.
Definition heap_ok : list A -> Prop := heap_ok_but (fun _ => False).

Lemma parent_lt j : (0 < j)%nat -> (parent j < j)%nat.
Proof. intros H. unfold parent. rewrite Nat.div2_div. apply Nat.Div0.div_lt_upper_bound. lia. Qed.

Lemma parent_spec i j : (0 < j)%nat -> parent j = i <-> j = (2 * i + 1)%nat \/ j = (2 * i + 2)%nat.
Proof. intros H. unfold parent. rewrite Nat.div2_div. pose proof (Nat.div_mod_eq (j - 1) 2). pose proof (Nat.mod_upper_bound (j - 1) 2). lia. Qed.

Lemma heapifyUp_perm fuel i h : heapifyUp cmp fuel i h ≡ₚ h.
Proof.
  revert i h. induction fuel as [|fuel IH]; intros i h; cbn [heapifyUp]; [done|]. destruct (_ <? _)%nat; [|done]. cbv zeta.
  destruct (h !! i); [|done]. destruct (h !! _); [|done]. destruct (_ <? 0); [|done]. by rewrite IH, swap_perm.
Qed.

Lemma heapifyUp_ok fuel i h : Forall P h -> (i <= fuel)%nat -> heap_ok_but (fun j => j = i) h -> bridged i h -> heap_ok (heapifyUp cmp fuel i h).
Proof.
  revert i h. induction fuel as [|fuel IH]; intros i h HP Hf Hh Hb; cbn [heapifyUp].
  - intros j x p Hj _. apply Hh; lia.
  - destruct (Nat.ltb_spec 0 i) as [Hi|Hi]; [|intros j x p Hj _; apply Hh; lia]. cbv zeta. fold (parent i). pose proof (parent_lt i Hi) as Hlt.
    destruct (h !! i) as [x|] eqn:Ex; [|intros j y q Hj _ Ey; apply Hh; [lia| |done]; intros ->; congruence].
    destruct (h !! parent i) as [p|] eqn:Ep.
    2:{ apply lookup_ge_None in Ep. apply lookup_lt_Some in Ex. lia. }
    destruct (Z.ltb_spec (cmp x p) 0) as [Hc|Hc].
    + pose proof (above_total _ _ Hc) as Hxp. assert (Pp : P p) by (rewrite Forall_forall in HP; eapply HP, list_elem_of_lookup_2, Ep).
      assert (HL := fun n => swap_lookup i (parent i) h x p ltac:(lia) Ex Ep n). apply IH; [by rewrite swap_perm|lia| |].
      * intros j y q Hj Hji. rewrite !HL. destruct (decide (parent j = i)) as [E1|E1].
        { destruct (decide (j = i)) as [->|]; [lia|]. rewrite decide_False by lia. intros Ey [= <-]. by apply (Hb j). }
        destruct (decide (parent j = parent i)) as [E2|E2].
        { destruct (decide (j = i)) as [->|Hne]; [by intros [= <-] [= <-]|]. rewrite decide_False by lia. intros Ey [= <-].
          apply (above_trans x p y Pp Hxp), (Hh j); [lia|done|done|congruence]. }
        destruct (decide (j = i)) as [->|Hne]; [done|]. rewrite decide_False by lia. intros Ey Eq. by apply (Hh j).
      * intros j y q H0 Hj Ej. rewrite !HL. pose proof (parent_lt _ H0). rewrite (decide_False (P := parent (parent i) = i)), (decide_False (P := parent (parent i) = parent i)) by lia.
        intros Ey Eq. assert (Hq : above q p) by (apply (Hh (parent i)); [done|lia|done|done]).
        destruct (decide (j = i)) as [->|Hne]; [by injection Ey as <-|]. rewrite decide_False in Ey by (intros ->; pose proof (parent_lt _ Hj); lia).
        apply (above_trans q p y Pp Hq), (Hh j); [lia|done|done|congruence].
    + intros j y q Hj _ Ey Eq. destruct (decide (j = i)) as [->|Hne]; [|by apply (Hh j)]. unfold above. congruence.
Qed.

Lemma heapifyDown_perm fuel i h : heapifyDown cmp fuel i h ≡ₚ h.
Proof.
  revert i h. induction fuel as [|fuel IH]; intros i h; cbn [heapifyDown]; [done|]. cbv zeta. destruct (_ =? _)%nat; [done|]. by rewrite IH, swap_perm.
Qed.

(** The choice of the child: it is [i] or a child that stands above [i] and its sibling. *)
Lemma smallest_spec i h v : h !! i = Some v -> Forall P h ->
  let s := smaller cmp h (2 * i + 2) (smaller cmp h (2 * i + 1) i) in
  exists c, h !! s = Some c /\ (s = i \/ ((0 < s)%nat /\ parent s = i /\ above c v))
    /\ (forall j x, (0 < j)%nat -> parent j = i -> h !! j = Some x -> above c x).
Proof.
  intros Hv HP s. assert (PP : forall n x, h !! n = Some x -> P x) by (intros n x Hn; rewrite Forall_forall in HP; eapply HP, list_elem_of_lookup_2, Hn).
  assert (Hl : exists c1, h !! smaller cmp h (2 * i + 1) i = Some c1 /\ (smaller cmp h (2 * i + 1) i = i /\ c1 = v \/ smaller cmp h (2 * i + 1) i = (2 * i + 1)%nat /\ above c1 v)
    /\ (forall x, h !! (2 * i + 1)%nat = Some x -> above c1 x) /\ above c1 v).
  { assert (Hvv : above v v) by (unfold above; destruct (Z.ltb_spec (cmp v v) 0) as [H|H]; [by apply above_total in H|done]). unfold smaller.
    destruct (h !! (2 * i + 1)%nat) as [x|] eqn:Ex; [|exists v; repeat split; [done|by left|done|done]]. rewrite Hv. destruct (Z.ltb_spec (cmp x v) 0) as [H|H].
    - exists x. apply above_total in H. repeat split; [done|by right| |done]. intros y [= <-]. unfold above. destruct (Z.ltb_spec (cmp x x) 0) as [H'|]; [by apply above_total in H'|done].
    - exists v. repeat split; [done|by left| |done]. by intros y [= <-]. }
  destruct Hl as (c1 & E1 & H1 & H2 & H3). subst s. set (s1 := smaller cmp h (2 * i + 1) i) in *. assert (Es : smaller cmp h (2 * i + 2) s1 = match h !! (2 * i + 2)%nat with Some x => if cmp x c1 <? 0 then (2 * i + 2)%nat else s1 | None => s1 end)
    by (unfold smaller at 1; rewrite E1; by destruct (h !! _)). rewrite Es. clear Es.
  destruct (h !! (2 * i + 2)%nat) as [x|] eqn:Ex.
  - destruct (Z.ltb_spec (cmp x c1) 0) as [H|H].
    + apply above_total in H. pose proof (PP _ _ E1) as P1. exists x. split; [done|]. split.
      * right. split; [lia|]. split; [apply parent_spec; lia|]. by apply (above_trans x c1).
      * intros j y Hj Hp Ey. apply parent_spec in Hp; [|done]. destruct Hp as [-> | ->]; [by apply (above_trans x c1); [..|apply H2]|]. rewrite Ex in Ey. injection Ey as <-.
        unfold above. destruct (Z.ltb_spec (cmp x x) 0) as [H'|]; [by apply above_total in H'|done].
    + exists c1. split; [done|]. split.
      * destruct H1 as [[-> ->]|[-> ?]]; [by left|right]. split; [lia|]. split; [apply parent_spec; lia|done].
      * intros j y Hj Hp Ey. apply parent_spec in Hp; [|done]. destruct Hp as [-> | ->]; [by apply H2|]. rewrite Ex in Ey. injection Ey as <-. exact H.
  - exists c1. split; [done|]. split.
    + destruct H1 as [[-> ->]|[-> ?]]; [by left|right]. split; [lia|]. split; [apply parent_spec; lia|done].
    + intros j y Hj Hp Ey. apply parent_spec in Hp; [|done]. destruct Hp as [-> | ->]; [by apply H2|]. congruence.
Qed.

Lemma heapifyDown_ok fuel i h : Forall P h -> (i < length h)%nat -> (length h <= fuel + i)%nat -> heap_ok_but (fun j => parent j = i) h -> bridged i h ->
  heap_ok (heapifyDown cmp fuel i h).
Proof.
  revert i h. induction fuel as [|fuel IH]; intros i h HP Hi Hf Hh Hb; cbn [heapifyDown]; [lia|]. cbv zeta.
  destruct (lookup_lt_is_Some_2 h i Hi) as [v Hv]. destruct (smallest_spec i h v Hv HP) as (c & Hc & Hs & Hmin). set (s := smaller _ _ _ _) in *.
  destruct (Nat.eqb_spec s i) as [E|E].
  - rewrite E, Hv in Hc. injection Hc as <-. intros j x p Hj _ Ex Ep. destruct (decide (parent j = i)) as [E'|E']; [|by apply (Hh j)]. rewrite E', Hv in Ep. injection Ep as <-. by apply (Hmin j).
  - destruct Hs as [?|(Hs0 & Hps & Hcv)]; [done|]. assert (His : (i < s)%nat) by (rewrite <- Hps; by apply parent_lt). pose proof (lookup_lt_Some _ _ _ Hc) as Hsl.
    assert (HL := fun n => swap_lookup i s h v c ltac:(lia) Hv Hc n). assert (El : length (swap i s h) = length h) by (by rewrite (swap_perm i s h)).
    apply IH; [by rewrite swap_perm|by rewrite El|rewrite El; lia| |].
    + intros j x p Hj Hn. rewrite !HL. destruct (decide (parent j = i)) as [E1|E1].
      { intros Ex [= <-]. destruct (decide (j = i)) as [->|]; [pose proof (parent_lt i Hj); lia|]. destruct (decide (j = s)) as [->|]; [by injection Ex as <-|]. by apply (Hmin j). }
      rewrite (decide_False (P := parent j = s)) by done. intros Ex Ep. destruct (decide (j = i)) as [->|Hne].
      { injection Ex as <-. by apply (Hb s). }
      destruct (decide (j = s)) as [->|]; [done|]. by apply (Hh j).
    + intros j x p _ Hj Ej. rewrite !HL, Hps. pose proof (parent_lt j Hj). rewrite (decide_True (P := i = i)) by done. rewrite !decide_False by (intros ->; lia). intros Ex [= <-].
      apply (Hh j); [done|lia|done|congruence].
Qed.

Lemma heap_root h root l : heap_ok h -> Forall P h -> h = root :: l -> (forall x, P x -> above x x) -> forall x, x ∈ h -> above root x.
Proof.
  intros Hh HP -> Hr x [j Hj]%list_elem_of_lookup. revert x Hj. induction j as [j IH] using lt_wf_ind. intros x Hj.
  destruct j as [|j]; [injection Hj as <-; apply Hr; by apply Forall_cons in HP as [? _]|]. pose proof (parent_lt (S j) ltac:(lia)) as Hp.
  destruct (lookup_lt_is_Some_2 (root :: l) (parent (S j))) as [p Ep]; [apply lookup_lt_Some in Hj; lia|].
  apply (above_trans root p x); [rewrite Forall_forall in HP; eapply HP, list_elem_of_lookup_2, Ep|by apply (IH (parent (S j)))|]. apply (Hh (S j)); [lia|tauto|done|done].
Qed.
End HeapFacts.

(** [stableSort_sorted_by] when transitivity goes through elements of the array only. *)
Lemma stableSort_sorted_on {T} (P : T -> Prop) (cmp : T -> T -> Z) (le : T -> T -> Prop) (l : list T) : Forall P l ->
  (forall a b c, P b -> le a b -> le b c -> le a c) -> (forall a b, cmp a b <= 0 -> le a b) -> (forall a b, 0 < cmp a b -> le b a) ->
  StronglySorted le (stableSort l cmp).
Proof.
  intros HP Ht Hle Hgt'. induction HP as [|x l Hx HP IH]; cbn [stableSort foldr]; [constructor|].
  change (foldr (sort_insert cmp) [] l) with (stableSort l cmp). assert (HP' : Forall P (stableSort l cmp)) by (by rewrite stableSort_perm).
  induction IH as [|y m IH IH' Hy]; cbn [sort_insert]; [repeat constructor|]. apply Forall_cons in HP' as [Py HP'].
  destruct (Z.leb_spec (cmp x y) 0) as [Hxy|Hgt].
  - constructor; [by constructor|]. constructor; [by apply Hle|].
    eapply Forall_impl; [exact Hy|]. intros z Hz. by eapply Ht; [|apply Hle|].
  - constructor; [by apply IH'|]. rewrite sort_insert_perm. constructor; [by apply Hgt'|done].
Qed.

Section Select.
Context {A : Type} (cmp : A -> A -> Z) (better : A -> A -> bool) (P : A -> Prop) (k : Z).
Context (above_total : forall a b, cmp a b < 0 -> above cmp a b) (above_trans : forall a b c, P b -> above cmp a b -> above cmp b c -> above cmp a c).
Context (better_spec : forall x r, P x -> P r -> better x r = true <-> cmp r x < 0).

(** [heap] holds some of [seen], the rest is no better, and there is a rest only when the heap is full. *)
Record kept (seen heap : list A) : Prop := {
  kp_rest : exists rest, seen ≡ₚ heap ++ rest /\ (forall h r, h ∈ heap -> r ∈ rest -> above cmp r h) /\ (rest = [] \/ Z.of_nat (length heap) = k);
  kp_heap : heap_ok cmp heap;
  kp_size : Z.of_nat (length heap) <= k
}.

Lemma above_refl x : above cmp x x.
Proof. unfold above. destruct (Z.ltb_spec (cmp x x) 0) as [H|H]; [by apply above_total in H|done]. Qed.

Lemma offer_kept seen heap x : 0 < k -> Forall P seen -> P x -> kept seen heap -> kept (seen ++ [x]) (offer cmp better k heap x).
Proof.
  intros Hk HPs Px [(rest & Hp & Hr & Hfull) Hh Hs]. assert (HP : Forall P heap) by (rewrite Hp in HPs; by apply Forall_app in HPs as [? _]).
  unfold offer. destruct (Z.ltb_spec (Z.of_nat (length heap)) k) as [Hlt|Hge].
  - destruct Hfull as [->|?]; [|lia]. rewrite app_nil_r in Hp. assert (HPx : Forall P (heap ++ [x])) by (by apply Forall_app; split; [|repeat constructor]). constructor.
    + exists []. rewrite app_nil_r, (heapifyUp_perm cmp). split; [by rewrite Hp|]. split; [set_solver|by left].
    + apply (heapifyUp_ok cmp P above_total above_trans); [done|done| |].
      * intros j y p Hj Hne Ey Ep. pose proof (parent_lt j Hj). pose proof (lookup_lt_Some _ _ _ Ey) as Hl. rewrite length_app in Hl. cbn in Hl.
        rewrite lookup_app_l in Ey, Ep by lia. by apply (Hh j); [| tauto|..].
      * intros j y p Hi Hj Hpj Ey. apply lookup_lt_Some in Ey. rewrite length_app in Ey. cbn in Ey. pose proof (parent_lt j Hj). lia.
    + rewrite (heapifyUp_perm cmp), length_app. cbn. lia.
  - destruct heap as [|root l]; [cbn in *; lia|]. assert (Proot : P root) by (by apply Forall_cons in HP as [? _]).
    assert (Hmin := heap_root cmp P above_trans (root :: l) root l Hh HP eq_refl (fun x _ => above_refl x)).
    destruct (better x root) eqn:Eb.
    + apply better_spec in Eb; [|done..]. apply above_total in Eb. change (<[0%nat:=x]> (root :: l)) with (x :: l). constructor.
      * exists (root :: rest). rewrite (heapifyDown_perm cmp). split; [rewrite Hp; solve_Permutation|]. split; [|right; cbn in *; lia].
        intros h r Hin'. assert (Hin : h ∈ x :: l) by (revert Hin'; by rewrite (heapifyDown_perm cmp)). clear Hin'. intros [-> |Hrin]%elem_of_cons.
        -- apply elem_of_cons in Hin as [-> |Hin]; [done|]. apply Hmin. by right.
        -- apply elem_of_cons in Hin as [-> |Hin]; [apply (above_trans r root x); [done| |done]; apply Hr; [by left|done]|]. apply Hr; [by right|done].
      * apply (heapifyDown_ok cmp P above_total above_trans); [constructor; [done|by apply Forall_cons in HP as [_ ?]]|cbn; lia|cbn; lia| |].
        -- intros j y p Hj Hne Ey Ep. destruct j as [|j]; [lia|]. destruct (parent (S j)) as [|q] eqn:Eq; [done|]. apply (Hh (S j)); [lia|tauto|done|by rewrite Eq].
        -- intros j y p H0. lia.
      * rewrite (heapifyDown_perm cmp). cbn in *. lia.
    + assert (Hx : above cmp x root). { unfold above. destruct (Z.ltb_spec (cmp root x) 0) as [H|H]; [|done]. apply better_spec in H; [congruence|done..]. }
      constructor; [|done|cbn in *; lia]. exists (x :: rest). split; [rewrite Hp; solve_Permutation|]. split; [|right; cbn in *; lia].
      intros h r Hin [-> |Hrin]%elem_of_cons; [apply (above_trans x root h); [done..|by apply Hmin]|by apply Hr].
Qed.

Lemma select_kept l : 0 < k -> Forall P l -> kept l (fold_left (offer cmp better k) l []).
Proof.
  intros Hk. induction l as [|x l IH] using rev_ind; intros HP.
  - constructor; [exists []; split; [done|]; split; [set_solver|by left]| |cbn; lia]. intros j y p _ _. cbn [fold_left]. by rewrite lookup_nil.
  - apply Forall_app in HP as [HP Px]. rewrite fold_left_app. apply offer_kept; [done..| |by apply IH]. by apply Forall_cons in Px as [? _].
Qed.

Context (out_cmp : A -> A -> Z) (out_le : forall a b, out_cmp a b <= 0 -> above cmp b a) (out_gt : forall a b, 0 < out_cmp a b -> above cmp a b).

(** Sorting what the heap kept is the same as sorting everything and taking the first [k]. *)
Lemma select_is_sort l : 0 < k -> Forall P l -> (forall a b, a ∈ l -> b ∈ l -> above cmp a b -> above cmp b a -> a = b) ->
  stableSort (fold_left (offer cmp better k) l []) out_cmp = take (Z.to_nat k) (stableSort l out_cmp).
Proof.
  intros Hk HP Hanti. destruct (select_kept l Hk HP) as [(rest & Hp & Hr & Hfull) _ Hs]. set (heap := fold_left _ _ _) in *.
  assert (HPh : Forall P (heap ++ rest)) by (by rewrite <- Hp). apply Forall_app in HPh as [HPh HPr].
  assert (Hsort : forall m, Forall P m -> StronglySorted (fun a b => above cmp b a) (stableSort m out_cmp)).
  { intros m Hm. apply (stableSort_sorted_on P); [done| |done|done]. intros a b c Hb H1 H2. by apply (above_trans c b a). }
  assert (E : stableSort l out_cmp = stableSort heap out_cmp ++ stableSort rest out_cmp).
  { apply (StronglySorted_unique_strong (fun a b => above cmp b a)); [|by apply Hsort| |by rewrite !stableSort_perm].
    - intros a b Ha Hb Hab Hba. rewrite stableSort_perm in Ha. rewrite !stableSort_perm, <- Hp in Hb. by apply Hanti.
    - apply StronglySorted_app. split; [|split; by apply Hsort]. intros a b Ha Hb. rewrite stableSort_perm in Ha, Hb. by apply Hr. }
  rewrite E. assert (Hlen : length (stableSort heap out_cmp) = length heap) by (by rewrite stableSort_perm). destruct Hfull as [-> |Hk'].
  - cbn [stableSort foldr]. rewrite app_nil_r. symmetry. apply take_ge. lia.
  - rewrite take_app_length' by lia. done.
Qed.
End Select.

Lemma offer_length {A} (cmp : A -> A -> Z) better k heap x : Z.of_nat (length heap) <= k ->
  exists out, offer cmp better k heap x ++ out ≡ₚ heap ++ [x] /\ Z.of_nat (length (offer cmp better k heap x)) <= k.
Proof.
  intros Hs. unfold offer. destruct (Z.ltb_spec (Z.of_nat (length heap)) k).
  - exists []. rewrite app_nil_r, (heapifyUp_perm cmp), length_app. cbn. split; [done|lia].
  - destruct heap as [|root l]; [exists [x]; by split|]. destruct (better x root); [|by exists [x]]. exists [root]. rewrite !(heapifyDown_perm cmp). change (<[0%nat:=x]> (root :: l)) with (x :: l).
    split; [solve_Permutation|done].
Qed.

(** Whatever the comparisons say, the heap holds at most [k] of the offers. *)
Lemma select_sub {A} (cmp : A -> A -> Z) better k l : 0 <= k -> exists out, fold_left (offer cmp better k) l [] ++ out ≡ₚ l /\ Z.of_nat (length (fold_left (offer cmp better k) l [])) <= k.
Proof.
  intros Hk. induction l as [|x l IH] using rev_ind; [by exists []|]. destruct IH as (out & Hp & Hs). rewrite fold_left_app. cbn [fold_left].
  destruct (offer_length cmp better k _ x Hs) as (o & Hp' & Hs'). exists (o ++ out). split; [|done]. rewrite app_assoc, Hp'. etransitivity; [|by apply Permutation_app_tail, Hp]. solve_Permutation.
Qed.

(** ** The documents of an index *)
Definition doc_entry_ok (e : string * PublicCorpusDoc) : Prop := pd_id e.2 = e.1.

Lemma see_doc_ok embs ev id txt seen : NoDup seen.*1 -> Forall doc_entry_ok seen -> NoDup (see_doc embs ev id txt seen).*1 /\ Forall doc_entry_ok (see_doc embs ev id txt seen).
Proof.
  intros Hn Hf. unfold see_doc. destruct (jsmap_get id seen); [done|]. destruct (jsmap_get id embs); [|done]. split; [by apply jsmap_set_NoDup|]. by apply jsmap_set_Forall.
Qed.

Lemma fold_left_inv {A B} (I : A -> Prop) (f : A -> B -> A) (l : list B) a : (forall a b, I a -> I (f a b)) -> I a -> I (fold_left f l a).
Proof. intros Hf. revert a. induction l as [|b l IH]; intros a Ha; [done|]. cbn [fold_left]. by apply IH, Hf. Qed.

Lemma see_events_ok evs : NoDup (fold_left see_event evs []).*1 /\ Forall doc_entry_ok (fold_left see_event evs []).
Proof.
  apply (fold_left_inv (fun seen => NoDup seen.*1 /\ Forall doc_entry_ok seen)); [|by split; constructor]. intros seen e H. unfold see_event.
  apply (fold_left_inv (fun seen => NoDup seen.*1 /\ Forall doc_entry_ok seen)); [intros a b [? ?]; by apply see_doc_ok|].
  apply (fold_left_inv (fun seen => NoDup seen.*1 /\ Forall doc_entry_ok seen)); [intros a b [? ?]; by apply see_doc_ok|done].
Qed.

Lemma public_docs_ids evs : NoDup (map pd_id (public_docs evs)).
Proof.
  unfold public_docs. rewrite (Permutation_map pd_id (stableSort_perm _ doc_cmp)), map_map. destruct (see_events_ok evs) as [Hn Hf].
  replace (map (fun e => pd_id e.2) (fold_left see_event evs [])) with (fold_left see_event evs []).*1; [done|].
  apply map_ext_in. intros e He. rewrite Forall_forall in Hf. symmetry. apply Hf. by apply list_elem_of_In.
Qed.

#[export] Instance doc_cmp_preorder : CmpPreorder doc_cmp.
Proof. constructor; intros *; unfold doc_cmp; [apply cmp_total|apply cmp_trans]. Qed.

Section Indexed.
Context (math_log : number -> number) (sha256_hex : string -> string).

Lemma index_docs_spec dimension i l b b' : index_docs dimension i l b = Returns b' ->
  b_lengths b' = b_lengths b ++ map (fun d => round_float32 (of_Z (Z.of_nat (length (publicTextTokens (pd_text d)))))) l
  /\ b_lengthSum b' = b_lengthSum b + fold_right (fun d a => Z.of_nat (length (publicTextTokens (pd_text d))) + a) 0 l
  /\ b_postings b' = fold_left (fun m e => add_postings e.1 (count_tokens (publicTextTokens (pd_text e.2))) m) (zip (seq i (length l)) l) (b_postings b).
Proof.
  revert i b. induction l as [|d l IH]; intros i b H; cbn [index_docs] in H; [apply Returns_inj in H as <-; cbn; rewrite app_nil_r; repeat split; lia|].
  apply bind_Returns in H as (b1 & H1 & H). unfold index_doc in H1. apply throw_when_Returns in H1 as [_ H1]. apply Returns_inj in H1 as <-. apply IH in H as (E1 & E2 & E3).
  cbn [b_lengths b_lengthSum b_postings] in E1, E2, E3. rewrite E1, E2, E3. cbn [map fold_right length seq zip fold_left fst snd]. rewrite <- app_assoc. split; [done|]. split; [lia|done].
Qed.

Lemma build_docs corpus index : buildPublicCorpusIndex math_log sha256_hex corpus = Returns index -> docs index = public_docs (events corpus).
Proof.
  unfold buildPublicCorpusIndex. cbv zeta. destruct (events corpus) as [|e evs]; [by intros <-%Returns_inj|]. intros H. apply throw_when_Returns in H as [_ H].
  apply bind_Returns in H as (b & _ & H). by apply Returns_inj in H as <-.
Qed.

Lemma built_ids corpus index : buildPublicCorpusIndex math_log sha256_hex corpus = Returns index -> NoDup (map pd_id (docs index)).
Proof. intros H. rewrite (build_docs _ _ H). apply public_docs_ids. Qed.
End Indexed.

(** ** The order of the heap *)
Section Order.
Context (index : PublicCorpusIndex).
Abbreviation cmp := (compareMin index).

Definition scored_ok (s : scored) : Prop := is_NaN s.1 = false.

Lemma dlt_NaN x y : is_NaN x = true \/ is_NaN y = true -> dlt x y = false.
Proof. destruct x, y; intros [H|H]; done. Qed.
Lemma deq_NaN x y : is_NaN x = true \/ is_NaN y = true -> deq x y = false.
Proof. destruct x, y; intros [H|H]; done. Qed.

Lemma compareMin_NaN a b : is_NaN a.1 = true \/ is_NaN b.1 = true -> cmp a b = 0.
Proof. intros H. unfold compareMin, sub_sign. rewrite deq_NaN, (dlt_NaN a.1 b.1), (dlt_NaN b.1 a.1) by tauto. done. Qed.

Lemma sub_sign_key x y : is_NaN x = false -> is_NaN y = false ->
  sub_sign x y = -1 /\ key_lt (order_key x) (order_key y) \/ sub_sign x y = 1 /\ key_lt (order_key y) (order_key x) \/ sub_sign x y = 0 /\ order_key x = order_key y.
Proof.
  intros Hx Hy. unfold sub_sign. pose proof (dlt_key x y Hx Hy) as H1. pose proof (dlt_key y x Hy Hx) as H2.
  destruct (dlt x y); [left; split; [done|by apply H1]|]. destruct (dlt y x); [right; left; split; [done|by apply H2]|]. right. right. split; [done|].
  destruct (order_key x) as [[a b] c], (order_key y) as [[a' b'] c']. unfold key_lt in *. cbn in *. assert (a = a') by intuition lia. subst. assert (b = b') by intuition lia. subst.
  assert (c = c') by intuition lia. by subst.
Qed.

(** The order of the heap on scores that are numbers: by key, then by id, the greater first. *)
Lemma compareMin_spec a b : scored_ok a -> scored_ok b ->
  0 <= cmp a b <-> key_lt (order_key b.1) (order_key a.1) \/ order_key a.1 = order_key b.1 /\ string_cmp (id_at index a.2) (id_at index b.2) <= 0.
Proof.
  intros Ha Hb. unfold compareMin. pose proof (deq_key a.1 b.1 Ha Hb) as D. destruct (sub_sign_key a.1 b.1 Ha Hb) as [[E K]|[[E K]|[E K]]].
  - destruct (deq a.1 b.1); cbn [negb]; [destruct D as [D _]; specialize (D eq_refl); unfold key_lt in K; rewrite D in K; lia|]. rewrite E. split; [lia|].
    intros [H|[H _]]; unfold key_lt in *; [lia|rewrite H in K; lia].
  - destruct (deq a.1 b.1); cbn [negb]; [destruct D as [D _]; specialize (D eq_refl); unfold key_lt in K; rewrite D in K; lia|]. rewrite E. split; [by left|lia].
  - apply D in K as Hd. rewrite Hd. cbn [negb]. rewrite string_cmp_le. split.
    + intros H. right. split; [done|]. destruct (string_lt (id_at index a.2) (id_at index b.2)) eqn:E1; [by apply string_lt_asym|]. by destruct (string_lt (id_at index b.2) (id_at index a.2)).
    + intros [H|[_ H]]; [unfold key_lt in H; rewrite K in H; lia|]. rewrite H. by destruct (string_lt (id_at index a.2) _).
Qed.

Lemma above_total_min a b : cmp a b < 0 -> above cmp a b.
Proof.
  intros H. unfold above. destruct (is_NaN a.1) eqn:Ha; [rewrite compareMin_NaN in H by tauto; lia|]. destruct (is_NaN b.1) eqn:Hb; [rewrite compareMin_NaN in H by tauto; lia|].
  apply compareMin_spec; [done..|]. pose proof (compareMin_spec a b Ha Hb) as S. destruct (sub_sign_key a.1 b.1 Ha Hb) as [[_ K]|[[_ K]|[_ K]]]; [by left|exfalso; apply (Z.lt_irrefl 0); eapply Z.le_lt_trans; [apply S; by left|done]|].
  right. split; [done|]. destruct (cmp_total (cmp := string_cmp) (id_at index b.2) (id_at index a.2)) as [?|H']; [done|]. exfalso. apply (Z.lt_irrefl 0). eapply Z.le_lt_trans; [apply S; by right|done].
Qed.

Lemma above_trans_min a b c : scored_ok b -> above cmp a b -> above cmp b c -> above cmp a c.
Proof.
  intros Hb H1 H2. unfold above in *. destruct (is_NaN a.1) eqn:Ha; [rewrite compareMin_NaN by tauto; lia|]. destruct (is_NaN c.1) eqn:Hc; [rewrite compareMin_NaN by tauto; lia|].
  apply compareMin_spec; [done..|]. apply compareMin_spec in H1, H2; [|done..]. destruct H1 as [K1|[K1 S1]], H2 as [K2|[K2 S2]].
  - left. unfold key_lt in *. lia.
  - left. by rewrite K2.
  - left. by rewrite <- K1.
  - right. split; [congruence|]. by eapply cmp_trans.
Qed.

Lemma better_min x r : scored_ok x -> scored_ok r -> better index x r = true <-> cmp r x < 0.
Proof.
  intros Hx Hr. assert (E : cmp r x < 0 <-> ~ 0 <= cmp r x) by lia. rewrite E, compareMin_spec by done. unfold better. rewrite orb_true_iff, andb_true_iff, dlt_key, deq_key by done.
  destruct (sub_sign_key x.1 r.1 Hx Hr) as [[_ K]|[[_ K]|[_ K]]].
  - split; [intros [K'|[K' _]]; [unfold key_lt in *; lia|unfold key_lt in K; rewrite K' in K; lia]|tauto].
  - split; [|by left]. intros _ [K'|[K' _]]; unfold key_lt in *; [lia|rewrite K' in K; lia].
  - rewrite K, string_cmp_le. split; [intros [K'|[_ H]]; [unfold key_lt in K'; lia|]|intros H; right; split; [done|]].
    + intros [K'|[_ H']]; [unfold key_lt in K'; lia|congruence].
    + destruct (string_lt _ _); [done|]. exfalso. apply H. by right.
Qed.

Lemma sub_sign_opp x y : sub_sign y x = - sub_sign x y.
Proof.
  unfold sub_sign. destruct (is_NaN x) eqn:Hx; [rewrite !dlt_NaN by tauto; done|]. destruct (is_NaN y) eqn:Hy; [rewrite !dlt_NaN by tauto; done|].
  pose proof (dlt_key x y Hx Hy) as H1. pose proof (dlt_key y x Hy Hx) as H2. destruct (dlt x y), (dlt y x); try done. exfalso. destruct H1 as [H1 _], H2 as [H2 _]. specialize (H1 eq_refl). specialize (H2 eq_refl). unfold key_lt in *. lia.
Qed.

Lemma result_above a b : result_cmp index a b <= 0 -> above cmp b a.
Proof.
  unfold result_cmp, above, compareMin. rewrite (deq_sym a.1 b.1). destruct (deq b.1 a.1); cbn [negb]; [|rewrite (sub_sign_opp b.1 a.1); lia]. destruct (string_lt _ _); [lia|destruct (string_lt _ _); lia].
Qed.

Lemma result_not_above a b : 0 < result_cmp index a b -> above cmp a b.
Proof.
  unfold result_cmp, above, compareMin. destruct (deq b.1 a.1); cbn [negb]; [|lia]. destruct (string_lt (id_at index a.2) _); [done|]. destruct (string_lt _ _); lia.
Qed.

Lemma elem_dense_entries qv s : s ∈ dense_entries index qv <-> (s.2 < length (docs index))%nat /\ s.1 = cosine_at index qv (inv_norm (sum_squares qv)) s.2.
Proof.
  unfold dense_entries. rewrite list_elem_of_fmap. split; [intros (i & -> & Hi%elem_of_seq); cbn; split; [lia|done]|]. intros [H1 H2]. exists s.2. split; [by destruct s; cbn in *; subst|]. apply elem_of_seq. lia.
Qed.

Lemma id_at_inj i j : NoDup (map pd_id (docs index)) -> (i < length (docs index))%nat -> (j < length (docs index))%nat -> id_at index i = id_at index j -> i = j.
Proof.
  intros Hn Hi Hj. unfold id_at. destruct (lookup_lt_is_Some_2 _ _ Hi) as [a Ha], (lookup_lt_is_Some_2 _ _ Hj) as [b Hb]. rewrite Ha, Hb. cbn. intros E.
  apply (NoDup_lookup (map pd_id (docs index)) i j (pd_id a)); [done|..]; change (map pd_id (docs index)) with (pd_id <$> docs index); rewrite list_lookup_fmap; [by rewrite Ha|by rewrite Hb, E].
Qed.

Lemma dense_entries_antisym qv a b : NoDup (map pd_id (docs index)) -> Forall scored_ok (dense_entries index qv) -> a ∈ dense_entries index qv -> b ∈ dense_entries index qv ->
  above cmp a b -> above cmp b a -> a = b.
Proof.
  intros Hn HP Ha Hb H1 H2. rewrite Forall_forall in HP. apply compareMin_spec in H1, H2; [|by apply HP..]. apply elem_dense_entries in Ha as [La Ea], Hb as [Lb Eb].
  assert (E : a.2 = b.2). { apply id_at_inj; [done..|]. destruct H1 as [K1|[K1 S1]], H2 as [K2|[K2 S2]]; unfold key_lt in *; [lia|rewrite K2 in K1; lia|rewrite K1 in K2; lia|by apply string_cmp_antisym]. }
  destruct a, b. cbn in *. congruence.
Qed.
End Order.

Section Dense.
Context (math_log : number -> number) (sha256_hex : string -> string).

(** C23. On scores that are numbers the heap selects what sorting all the documents and keeping the first [k] selects, in the same order. *)
Theorem firstStage_is_sort corpus index queryVec k : buildPublicCorpusIndex math_log sha256_hex corpus = Returns index -> Forall scored_ok (dense_entries index queryVec) ->
  firstStageCandidates index queryVec k = docs_of index (take (Z.to_nat k) (stableSort (dense_entries index queryVec) (result_cmp index))).
Proof.
  intros Hb HP. apply built_ids in Hb. unfold firstStageCandidates. destruct (Z.leb_spec k 0) as [Hk|Hk]; cbn [orb]; [by rewrite (Z2Nat.nonpos k) by done|].
  destruct (Nat.eqb_spec (length (docs index)) 0) as [E|E]; [unfold dense_entries; rewrite E; cbn; by rewrite take_nil|].
  rewrite (select_is_sort (compareMin index) (better index) scored_ok k (above_total_min index) (above_trans_min index) (better_min index) (result_cmp index) (result_above index) (result_not_above index));
    [done..|]. intros a b. by apply dense_entries_antisym.
Qed.
End Dense.

(** ** Every mode returns distinct documents of the index *)
Section Bounds.
Context (index : PublicCorpusIndex).

Lemma elem_docs_of l d : d ∈ docs_of index l -> d ∈ docs index.
Proof. unfold docs_of. intros (s & _ & Hs)%list_elem_of_omap. by eapply list_elem_of_lookup_2. Qed.

Lemma docs_of_length l : (length (docs_of index l) <= length l)%nat.
Proof. unfold docs_of. induction l as [|s l IH]; [done|]. cbn. destruct (docs index !! s.2); cbn; lia. Qed.

Lemma docs_of_NoDup l : NoDup (map pd_id (docs index)) -> NoDup (map snd l) -> NoDup (map pd_id (docs_of index l)).
Proof.
  intros Hn. unfold docs_of. induction l as [|s l IH]; intros Hl; [constructor|]. cbn [map] in Hl. apply NoDup_cons in Hl as [Hs Hl]. csimpl. destruct (docs index !! s.2) as [d|] eqn:Ed; [|by apply IH].
  cbn [map]. apply NoDup_cons. split; [|by apply IH]. intros (d' & E & Hd')%list_elem_of_fmap. apply list_elem_of_omap in Hd' as (s' & Hs' & Ed'). apply Hs. apply list_elem_of_fmap. exists s'. split; [|done].
  apply (NoDup_lookup (map pd_id (docs index)) s.2 s'.2 (pd_id d)); [done|..]; change (map pd_id (docs index)) with (pd_id <$> docs index); rewrite list_lookup_fmap; [by rewrite Ed|by rewrite Ed', E].
Qed.

Lemma ranked_ok (scores : list (nat * number)) k : NoDup scores.*1 -> NoDup (map snd (ranked index scores k)) /\ (length (ranked index scores k) <= Z.to_nat k)%nat.
Proof.
  intros Hn. unfold ranked. split; [|rewrite length_take; lia]. eapply sublist_NoDup; cycle 1; [apply sublist_map, sublist_take|]. rewrite (Permutation_map snd (stableSort_perm _ (result_cmp index))), map_map. cbn [snd]. exact Hn.
Qed.

Lemma lexical_scores_NoDup q : NoDup (lexical_scores index q).*1.
Proof.
  unfold lexical_scores. apply (fold_left_inv (fun m => NoDup m.*1)); [|constructor]. intros m t Hm. unfold add_token. destruct (jsmap_get t _); [|done].
  apply (fold_left_inv (fun m => NoDup m.*1)); [|done]. intros m' q' Hm'. by apply jsmap_set_NoDup.
Qed.

Lemma addNormalized_NoDup items w scores : NoDup scores.*1 -> NoDup (addNormalized items w scores).*1.
Proof.
  intros Hn. unfold addNormalized. destruct items as [|x items]; [done|]. destruct (last _); [|done]. destruct (deq w float0); [done|].
  apply (fold_left_inv (fun m : list (nat * number) => NoDup m.*1)); [|done]. intros m' q0 Hm'. by apply jsmap_set_NoDup.
Qed.

Lemma heap_entries_ok qv k : 0 <= k -> let l := stableSort (fold_left (offer (compareMin index) (better index) k) (dense_entries index qv) []) (result_cmp index) in
  NoDup (map snd l) /\ (length l <= Z.to_nat k)%nat.
Proof.
  intros Hk l. destruct (select_sub (compareMin index) (better index) k (dense_entries index qv) Hk) as (out & Hp & Hs). unfold l. rewrite (Permutation_map snd (stableSort_perm _ (result_cmp index))).
  split; [|rewrite (stableSort_perm _ (result_cmp index)); lia]. assert (Hn : NoDup (map snd (dense_entries index qv))).
  { unfold dense_entries. rewrite map_map. cbn [snd]. rewrite map_id. apply NoDup_ListNoDup, seq_NoDup. }
  rewrite <- (Permutation_map snd Hp), map_app in Hn. by apply NoDup_app in Hn as [? _].
Qed.
End Bounds.

(** Every mode returns at most [k] documents of the index, each once, whatever the vectors hold. *)
Theorem retrieve_bounds math_log sha256_hex corpus index queryText queryVec k opts : buildPublicCorpusIndex math_log sha256_hex corpus = Returns index ->
  let found := retrieveFirstStageCandidates index queryText queryVec k opts in
  Z.of_nat (length found) <= Z.max 0 k /\ NoDup (map pd_id found) /\ found ⊆ docs index.
Proof.
  intros Hb. apply built_ids in Hb. assert (Hof : forall l, NoDup (map snd l) /\ (length l <= Z.to_nat k)%nat ->
    Z.of_nat (length (docs_of index l)) <= Z.max 0 k /\ NoDup (map pd_id (docs_of index l)) /\ docs_of index l ⊆ docs index).
  { intros l [H1 H2]. split; [pose proof (docs_of_length index l); lia|]. split; [by apply docs_of_NoDup|]. intros d. apply elem_docs_of. }
  assert (Hnil : NoDup (map snd ([] : list scored)) /\ (length ([] : list scored) <= Z.to_nat k)%nat) by (split; [constructor|cbn; lia]).
  intros found. unfold found, retrieveFirstStageCandidates. destruct (default mode_dense (rt_mode opts)).
  - unfold firstStageCandidates. destruct (Z.leb_spec k 0) as [|Hk]; cbn [orb]; [by apply (Hof [])|]. destruct (_ =? _)%nat; [by apply (Hof [])|]. apply Hof, heap_entries_ok. lia.
  - unfold lexicalFirstStageCandidates, lexicalFirstStageScored. destruct (_ || _); [by apply (Hof [])|]. apply Hof, ranked_ok, lexical_scores_NoDup.
  - unfold hybridFirstStageScored. destruct (_ || _); [by apply (Hof [])|]. apply Hof, ranked_ok, addNormalized_NoDup, addNormalized_NoDup. constructor.
Qed.

(** ** The index does not see the labels *)
(** What the index may depend on: texts, ids and embeddings, not which document is relevant, current or expected. *)
Definition public_part (e : ProductionCorpusEvent) :=
  (ev_id e, map (fun t => (td_id t, td_text t)) (truthDocuments e), map (fun n => (hn_id n, hn_text n)) (hardNegatives e), perTruth (embeddings e), perNegative (embeddings e)).

Lemma fold_left_map {A B C} (f : A -> C -> A) (g : B -> C) l a : fold_left (fun a b => f a (g b)) l a = fold_left f (map g l) a.
Proof. revert a. induction l as [|b l IH]; intros a; [done|]. apply IH. Qed.

Lemma see_event_public seen e1 e2 : public_part e1 = public_part e2 -> see_event seen e1 = see_event seen e2.
Proof.
  unfold public_part. intros [= E1 E2 E3 E4 E5]. unfold see_event.
  rewrite (fold_left_map (fun s n => see_doc (perNegative (embeddings e1)) (ev_id e1) n.1 n.2 s) (fun n => (hn_id n, hn_text n))).
  rewrite (fold_left_map (fun s n => see_doc (perNegative (embeddings e2)) (ev_id e2) n.1 n.2 s) (fun n => (hn_id n, hn_text n))).
  rewrite (fold_left_map (fun s t => see_doc (perTruth (embeddings e1)) (ev_id e1) t.1 t.2 s) (fun t => (td_id t, td_text t))).
  rewrite (fold_left_map (fun s t => see_doc (perTruth (embeddings e2)) (ev_id e2) t.1 t.2 s) (fun t => (td_id t, td_text t))).
  by rewrite E1, E2, E3, E4, E5.
Qed.

Lemma see_events_public l1 l2 seen : map public_part l1 = map public_part l2 -> fold_left see_event l1 seen = fold_left see_event l2 seen.
Proof.
  revert l2 seen. induction l1 as [|e1 l1 IH]; intros [|e2 l2] seen H; try done. cbn [map] in H. assert (H1 : public_part e1 = public_part e2) by congruence. assert (H2 : map public_part l1 = map public_part l2) by congruence.
  cbn [fold_left]. rewrite (see_event_public _ _ _ H1). by apply IH.
Qed.

(** Two corpora that differ in labels only (relevance, currency, split, family, annotations) have the same index, so the first stage answers the same. *)
Theorem index_ignores_labels math_log sha256_hex c1 c2 : map public_part (events c1) = map public_part (events c2) ->
  biEncoderModelId c1 = biEncoderModelId c2 -> biEncoderRevision c1 = biEncoderRevision c2 -> biEncoderRetrievalKeyLayout c1 = biEncoderRetrievalKeyLayout c2 ->
  buildPublicCorpusIndex math_log sha256_hex c1 = buildPublicCorpusIndex math_log sha256_hex c2.
Proof.
  intros He Hm Hr Hl. unfold buildPublicCorpusIndex, public_docs. rewrite Hm, Hr, Hl. destruct (events c1) as [|e1 l1], (events c2) as [|e2 l2]; try done. by rewrite (see_events_public _ _ [] He).
Qed.

(** ** The rows of the index *)
Lemma dmul_comm x y : dmul x y = dmul y x.
Proof. unfold dmul. destruct x as [sx|sx| |sx mx ex], y as [sy|sy| |sy my ey]; cbn [SFmul]; try done; rewrite ?(xorb_comm sx sy); try done. by rewrite (Pos.mul_comm mx my), (Z.add_comm ex ey). Qed.

(** For the int8 layout the index holds what [dequantize] gives. *)
Lemma int8_rows bs layout row : String.eqb (quantization layout) "int8" = true -> dequantize bs layout = Returns row -> map round_float32 (row_values bs (Z.to_nat (dim layout))) = row.
Proof.
  intros Hq H. unfold dequantize in H. apply throw_when_Returns in H as [Hd H]. rewrite Hq in H. apply throw_when_Returns in H as [Hlen H]. apply Returns_inj in H as <-.
  unfold row_values. rewrite map_map. apply map_ext_in. intros i Hi%in_seq. destruct (lookup_lt_is_Some_2 bs (4 + i)%nat) as [b Eb]; [lia|]. rewrite Eb. unfold get0, js_get. rewrite (proj2 (Z.leb_le _ _)), Nat2Z.id, Eb by lia. cbn [default from_option].
  assert (E : (if 127 <? b then b - 256 else b) = (if b <? 128 then b else b - 256)) by (destruct (Z.ltb_spec 127 b), (Z.ltb_spec b 128); lia).
  cbn. by rewrite dmul_comm, E.
Qed.

(** ** Scoring by postings is scoring directly *)
Definition tokens_of (d : PublicCorpusDoc) : list string := publicTextTokens (pd_text d).
Definition occurrences (t : string) (l : list string) : Z := Z.of_nat (length (filter (fun u => u = t) l)).
Definition posting_of (t : string) (e : nat * PublicCorpusDoc) : option LexicalPosting :=
  let c := occurrences t (tokens_of e.2) in if c =? 0 then None else Some (mkPosting e.1 c).
(** The postings of [t] over the documents [l], the first of which stands at [i]. *)
Definition postings_of (t : string) (i : nat) (l : list PublicCorpusDoc) : list LexicalPosting := omap (posting_of t) (zip (seq i (length l)) l).

Lemma occurrences_0 t l : occurrences t l = 0 <-> t ∉ l.
Proof.
  unfold occurrences. split.
  - intros H Hin. assert (Hf : t ∈ filter (fun u => u = t) l) by (by apply list_elem_of_filter). destruct (filter _ l); [by apply not_elem_of_nil in Hf|cbn in H; lia].
  - intros H. destruct (filter (fun u => u = t) l) as [|u k] eqn:E; [done|]. assert (Hu : u ∈ filter (fun u => u = t) l) by (rewrite E; by left). apply list_elem_of_filter in Hu as [-> Hu]. done.
Qed.

Lemma count_fold t toks tf : jsmap_get t (fold_left (fun tf t => jsmap_set t (default 0 (jsmap_get t tf) + 1) tf) toks tf) =
  if occurrences t toks =? 0 then jsmap_get t tf else Some (default 0 (jsmap_get t tf) + occurrences t toks).
Proof.
  revert tf. induction toks as [|u toks IH]; intros tf; [done|]. cbn [fold_left]. rewrite IH, jsmap_get_set. unfold occurrences. rewrite filter_cons.
  destruct (decide (t = u)) as [->|Hne].
  - rewrite decide_True by done. cbn [length default from_option id]. destruct (Z.eqb_spec (Z.of_nat (length (filter (fun u0 => u0 = u) toks))) 0) as [E|E].
    + rewrite (proj2 (Z.eqb_neq _ _)) by lia. f_equal. lia.
    + rewrite (proj2 (Z.eqb_neq _ _)) by lia. f_equal. lia.
  - by rewrite decide_False by congruence.
Qed.

Lemma count_tokens_get t toks : jsmap_get t (count_tokens toks) = if occurrences t toks =? 0 then None else Some (occurrences t toks).
Proof. unfold count_tokens. rewrite count_fold. by destruct (_ =? 0). Qed.

Lemma count_tokens_NoDup toks : NoDup (count_tokens toks).*1.
Proof. unfold count_tokens. apply (fold_left_inv (fun m : list (string * Z) => NoDup m.*1)); [|constructor]. intros m t Hm. by apply jsmap_set_NoDup. Qed.

Lemma add_postings_get t i tf m : NoDup tf.*1 ->
  jsmap_get t (add_postings i tf m) = match jsmap_get t tf with Some f => Some (default [] (jsmap_get t m) ++ [mkPosting i f]) | None => jsmap_get t m end.
Proof.
  unfold add_postings. revert m. induction tf as [|[u f] tf IH]; intros m Hn; [done|]. csimpl in Hn. apply NoDup_cons in Hn as [Hu Hn]. cbn [fold_left fst snd jsmap_get]. rewrite IH by done. rewrite jsmap_get_set.
  destruct (decide (t = u)) as [->|Hne]; [|done]. by rewrite (proj2 (jsmap_get_None u tf)).
Qed.

Lemma postings_fold t i l m :
  jsmap_get t (fold_left (fun m e => add_postings e.1 (count_tokens (publicTextTokens (pd_text e.2))) m) (zip (seq i (length l)) l) m) =
  match postings_of t i l with [] => jsmap_get t m | L => Some (default [] (jsmap_get t m) ++ L) end.
Proof.
  revert i m. induction l as [|d l IH]; intros i m; [done|]. cbn [length seq zip zip_with fold_left fst snd]. rewrite IH, add_postings_get by apply count_tokens_NoDup. rewrite count_tokens_get.
  change (postings_of t i (d :: l)) with (match posting_of t (i, d) with Some p => p :: postings_of t (S i) l | None => postings_of t (S i) l end).
  unfold posting_of. cbn [fst snd]. unfold tokens_of. destruct (occurrences t (publicTextTokens (pd_text d)) =? 0); [done|]. cbn [default from_option id]. destruct (postings_of t (S i) l); [done|]. by rewrite <- app_assoc.
Qed.

Lemma distinct_tokens (toks : list string) : NoDup (fold_left (fun s t => jsset_add t s) toks []) /\ forall t, t ∈ fold_left (fun s t => jsset_add t s) toks [] <-> t ∈ toks.
Proof.
  split; [apply (fold_left_inv (fun s : list string => NoDup s)); [intros s t Hs; by apply jsset_add_NoDup|constructor]|]. intros t.
  assert (H : forall s, t ∈ fold_left (fun s t => jsset_add t s) toks s <-> t ∈ toks \/ t ∈ s); [|rewrite H; set_solver].
  induction toks as [|u toks IH]; intros s; [set_solver|]. cbn [fold_left]. rewrite IH, elem_of_jsset_add. set_solver.
Qed.

Lemma occurrences_NoDup t l : NoDup l -> occurrences t l = if decide (t ∈ l) then 1 else 0.
Proof.
  intros Hn. destruct (decide (t ∈ l)) as [H|H]; [|by apply occurrences_0]. unfold occurrences. induction Hn as [|u l Hu Hn IH]; [by apply not_elem_of_nil in H|]. rewrite filter_cons.
  apply elem_of_cons in H as [<-|H].
  - rewrite decide_True by done. pose proof (proj2 (occurrences_0 t l) Hu) as E. unfold occurrences in E. cbn [length]. lia.
  - rewrite decide_False by (intros ->; done). by apply IH.
Qed.

(** The document frequency is the number of postings. *)
Lemma frequencies_get t i l : default 0 (jsmap_get t (token_frequencies (map (fun d => (d, tokens_of d)) l))) = Z.of_nat (length (postings_of t i l)).
Proof.
  unfold token_frequencies. assert (H : forall df, default 0 (jsmap_get t (fold_left (fun df x => fold_left (fun df t => jsmap_set t (default 0 (jsmap_get t df) + 1) df) (fold_left (fun s t => jsset_add t s) x.2 []) df)
    (map (fun d => (d, tokens_of d)) l) df)) = default 0 (jsmap_get t df) + Z.of_nat (length (postings_of t i l))); [|rewrite H; cbn; lia].
  revert i. induction l as [|d l IH]; intros i df; [cbn; lia|]. cbn [map fold_left snd]. rewrite (IH (S i)), count_fold. destruct (distinct_tokens (tokens_of d)) as [Hn Hel]. rewrite occurrences_NoDup by done.
  change (postings_of t i (d :: l)) with (match posting_of t (i, d) with Some p => p :: postings_of t (S i) l | None => postings_of t (S i) l end). unfold posting_of. cbn [fst snd].
  destruct (decide (t ∈ fold_left (fun s t => jsset_add t s) (tokens_of d) [])) as [Hin|Hin]; rewrite Hel in Hin.
  - rewrite (proj2 (Z.eqb_neq (occurrences t (tokens_of d)) 0)) by (by rewrite occurrences_0; intros ?). cbn [Z.eqb default from_option id length]. lia.
  - apply occurrences_0 in Hin. by rewrite Hin.
Qed.

Lemma jsmap_rename {K K' V} `{EqDecision K, EqDecision K'} (f : K -> K') (k : K) (v : V) m : (forall k', k' ∈ m.*1 -> f k' = f k -> k' = k) ->
  jsmap_get (f k) (map (fun e => (f e.1, e.2)) m) = jsmap_get k m /\ jsmap_set (f k) v (map (fun e => (f e.1, e.2)) m) = map (fun e => (f e.1, e.2)) (jsmap_set k v m).
Proof.
  induction m as [|[k' v'] m IH]; intros H; [done|]. destruct IH as [I1 I2]; [intros k'' Hin; apply H; by right|]. cbn [map fst snd jsmap_get jsmap_set].
  destruct (decide (k = k')) as [->|Hne]; [by rewrite !decide_True|]. rewrite !(decide_False (P := f k = f k')) by (intros E; apply Hne; symmetry; apply H; [by left|done]). rewrite I1, I2. done.
Qed.

Lemma match_nonempty {A B} (l : list A) (x y : B) : l <> [] -> match l with [] => x | _ => y end = y.
Proof. by destruct l. Qed.

Section Bm25.
Context (math_log : number -> number) (sha256_hex : string -> string) (corpus : ProductionCorpus) (index : PublicCorpusIndex).
Context (built : buildPublicCorpusIndex math_log sha256_hex corpus = Returns index) (some_docs : docs index <> []).

Definition doc_length (d : PublicCorpusDoc) : number := of_Z (Z.of_nat (length (tokens_of d))).
Definition average_length : number :=
  ddiv (of_Z (fold_right (fun d a => Z.of_nat (length (tokens_of d)) + a) 0 (docs index))) (of_Z (Z.of_nat (length (docs index)))).

(** What the loops of the build leave behind. *)
Lemma built_lexical :
  lexicalDocLengths index = map (fun d => round_float32 (doc_length d)) (docs index) /\ lexicalAvgDocLength index = average_length
  /\ (forall t, jsmap_get t (lexicalPostings index) = match postings_of t 0 (docs index) with [] => None | L => Some L end)
  /\ (forall t, jsmap_get t (lexicalIdf index) = (fun L => bm25_idf math_log (Z.of_nat (length (docs index))) (Z.of_nat (length L))) <$> jsmap_get t (lexicalPostings index)).
Proof using built some_docs.
  pose proof (build_docs _ _ _ _ built) as Hd. unfold average_length. rewrite Hd. rewrite Hd in some_docs. unfold buildPublicCorpusIndex in built. cbv zeta in built.
  destruct (events corpus) as [|e evs] eqn:Ev; [by destruct some_docs|]. set (ds := public_docs (e :: evs)) in *. apply throw_when_Returns in built as [_ H]. apply bind_Returns in H as (b & Hb & H). apply Returns_inj in H as <-.
  cbn [lexicalDocLengths lexicalAvgDocLength lexicalPostings lexicalIdf]. destruct (index_docs_spec _ _ _ _ _ Hb) as (E1 & E2 & E3). cbn [b_lengths b_lengthSum b_postings] in *. split; [exact E1|]. split; [|split].
  - destruct ds as [|d0 ds0] eqn:Eds; [done|]. rewrite (proj2 (Z.ltb_lt _ _)) by (cbn; lia). by rewrite E2.
  - intros t. rewrite E3, postings_fold. by destruct (postings_of t 0 ds).
  - intros t. apply (jsmap_get_map (fun L : list LexicalPosting => bm25_idf math_log (Z.of_nat (length ds)) (Z.of_nat (length L)))).
Qed.

(** The float32 array of lengths holds the lengths. *)
Context (exact_lengths : Forall (fun d => round_float32 (doc_length d) = doc_length d) (docs index)).

Abbreviation by_id := (map (fun e : nat * number => (id_at index e.1, e.2))).
Definition placed (scores : list (nat * number)) : Prop := Forall (fun i => (i < length (docs index))%nat) scores.*1.

Lemma add_posting_by_id t idf i d scores : docs index !! i = Some d -> placed scores ->
  by_id (match posting_of t (i, d) with Some p => add_posting index idf scores p | None => scores end) = scope_add t idf average_length (by_id scores) (d, tokens_of d)
  /\ placed (match posting_of t (i, d) with Some p => add_posting index idf scores p | None => scores end).
Proof using built some_docs exact_lengths.
  intros Hd Hp. destruct built_lexical as (H1 & H2 & _). unfold posting_of, scope_add. cbn [fst snd]. fold (occurrences t (tokens_of d)). destruct (_ =? 0); [done|].
  unfold add_posting. cbn [p_idx p_tf]. rewrite H1, H2. rewrite list_lookup_fmap, Hd. cbn [fmap option_fmap option_map default from_option id].
  rewrite Forall_forall in exact_lengths. rewrite (exact_lengths d) by (by eapply list_elem_of_lookup_2). fold (doc_length d). set (sc := bm25_score _ _ _).
  assert (Hid : id_at index i = pd_id d) by (unfold id_at; by rewrite Hd). assert (Hi : (i < length (docs index))%nat) by (by eapply lookup_lt_Some).
  destruct (jsmap_rename (id_at index) i (dadd (default float0 (jsmap_get i scores)) sc) scores) as [R1 R2].
  { intros j Hj E. unfold placed in Hp. rewrite Forall_forall in Hp. apply (id_at_inj index); [by eapply built_ids|by apply Hp|done|done]. }
  rewrite Hid in R1, R2. rewrite R1, <- R2. split; [done|]. unfold placed. rewrite jsmap_set_keys. case_decide; [done|]. apply Forall_app. by split; [|repeat constructor].
Qed.

Lemma postings_by_id t idf l i scores : (forall j d, l !! j = Some d -> docs index !! (i + j)%nat = Some d) -> placed scores ->
  by_id (fold_left (add_posting index idf) (postings_of t i l) scores) = fold_left (scope_add t idf average_length) (map (fun d => (d, tokens_of d)) l) (by_id scores)
  /\ placed (fold_left (add_posting index idf) (postings_of t i l) scores).
Proof using built some_docs exact_lengths.
  revert i scores. induction l as [|d l IH]; intros i scores Hl Hp; [done|].
  assert (Hd : docs index !! i = Some d) by (rewrite <- (Nat.add_0_r i); by apply Hl). destruct (add_posting_by_id t idf i d scores Hd Hp) as [A1 A2].
  change (postings_of t i (d :: l)) with (match posting_of t (i, d) with Some p => p :: postings_of t (S i) l | None => postings_of t (S i) l end).
  cbn [map fold_left]. rewrite <- A1. assert (Hl' : forall j d', l !! j = Some d' -> docs index !! (S i + j)%nat = Some d') by (intros j d' Hj; rewrite Nat.add_succ_comm; by apply Hl).
  destruct (posting_of t (i, d)); by apply IH.
Qed.

(** BM25 over the postings of the index is BM25 over its documents, term by term in the same order. *)
Lemma lexical_by_id queryText : scopedLexicalScores math_log queryText (docs index) = by_id (lexical_scores index queryText).
Proof using built some_docs exact_lengths.
  destruct built_lexical as (_ & _ & H3 & H4). unfold scopedLexicalScores, lexical_scores. rewrite match_nonempty by done. cbv zeta.
  set (tokenized := map (fun d => (d, publicTextTokens (pd_text d))) (docs index)). assert (Ht : length tokenized = length (docs index)) by apply length_map. rewrite Ht.
  assert (Havg : ddiv (of_Z (fold_left (fun a x => a + Z.of_nat (length x.2)) tokenized 0)) (of_Z (Z.of_nat (length (docs index)))) = average_length).
  { unfold average_length. do 2 f_equal. unfold tokenized. assert (Hs : forall l a, fold_left (fun (a : Z) (x : PublicCorpusDoc * list string) => a + Z.of_nat (length x.2)) (map (fun d => (d, publicTextTokens (pd_text d))) l) a
      = a + fold_right (fun d a => Z.of_nat (length (tokens_of d)) + a) 0 l); [|by rewrite Hs]. induction l as [|d l IH]; intros a; [cbn; lia|]. cbn [map fold_left fold_right snd]. rewrite IH. unfold tokens_of. lia. }
  rewrite Havg. enough (G : forall toks scores, placed scores ->
    fold_left (fun s qt => let n := default 0 (jsmap_get qt (token_frequencies tokenized)) in if n =? 0 then s else
      fold_left (scope_add qt (bm25_idf math_log (Z.of_nat (length (docs index))) n) average_length) tokenized s) toks (by_id scores)
    = by_id (fold_left (add_token index) toks scores)) by (apply (G _ []); by constructor).
  induction toks as [|t toks IH]; intros scores Hp; [done|]. cbn [fold_left]. cbv zeta. assert (Hf : default 0 (jsmap_get t (token_frequencies tokenized)) = Z.of_nat (length (postings_of t 0 (docs index)))) by apply frequencies_get. rewrite Hf. unfold add_token at 2. rewrite H4, H3.
  destruct (postings_of t 0 (docs index)) as [|p L] eqn:EL; [by apply IH|]. rewrite (proj2 (Z.eqb_neq _ _)) by (cbn; lia). cbn [fmap option_fmap option_map default from_option id]. rewrite <- EL.
  destruct (postings_by_id t (bm25_idf math_log (Z.of_nat (length (docs index))) (Z.of_nat (length (postings_of t 0 (docs index))))) (docs index) 0 scores) as [P1 P2]; [done|done|].
  change tokenized with (map (fun d => (d, tokens_of d)) (docs index)). rewrite <- P1. by apply IH.
Qed.
End Bm25.

(** C24. The two lexical scorers agree: the postings of the index give every one of its documents the score that scanning the documents gives,
    in the same order, when no document is too long for a float32 length. *)
Theorem scoped_lexical_agrees math_log sha256_hex corpus index queryText : buildPublicCorpusIndex math_log sha256_hex corpus = Returns index -> docs index <> [] ->
  Forall (fun d => round_float32 (doc_length d) = doc_length d) (docs index) ->
  scopedLexicalScores math_log queryText (docs index) = map (fun e => (id_at index e.1, e.2)) (lexical_scores index queryText).
Proof. intros H1 H2 H3. by apply (lexical_by_id math_log sha256_hex corpus). Qed.

(** ** Witnesses *)
Definition layout_1 (q : string) : RetrievalKeyLayout := mkLayout 1 q 4.
(** The one-dimensional int8 vector [b], at scale 1. *)
Definition scale_1 (b : Z) : bytes := [0x3f; 0x80; 0; 0; b].
Definition event_1 (id : string) (docs : list (string * string * bytes)) : ProductionCorpusEvent :=
  CorpusRoot.mkEvent id "temporal" "general" eval_hidden "q" (map (fun d => mkTruth d.1.1 d.1.2 true None) docs) [] [] false "0x00" []
    (mkEmbedding "m" "r" (layout_1 "int8") [] (map (fun d => (d.1.1, d.2)) docs) []) [].
Definition corpus_1 (q : string) (docs : list (string * string * bytes)) : ProductionCorpus := mkCorpus [event_1 "e" docs] [] None None "0x00" 0 "r" "m" (layout_1 q) "r" "m".
Definition docs_1 : list (string * string * bytes) := [("b", "the red fox", scale_1 5); ("a", "the fox ran", scale_1 3); ("c", "blue sky", scale_1 250)]%string.
Definition no_log (x : number) : number := x.
Definition no_sha (x : string) : string := x.
Definition index_1 : PublicCorpusIndex := match buildPublicCorpusIndex no_log no_sha (corpus_1 "int8" docs_1) with Returns i => i | Throws _ => mkIndex "" "" (layout_1 "") [] [] [] [] [] [] float0 "" end.
Lemma built_1 : buildPublicCorpusIndex no_log no_sha (corpus_1 "int8" docs_1) = Returns index_1.
Proof. reflexivity. Qed.

Lemma firstStage_is_sort_witness : firstStageCandidates index_1 [float1] 2 = docs_of index_1 (take 2 (stableSort (dense_entries index_1 [float1]) (result_cmp index_1)))
  /\ map pd_id (firstStageCandidates index_1 [float1] 2) = ["a"; "b"]%string.
Proof.
  split; [|vm_compute; reflexivity]. apply (firstStage_is_sort no_log no_sha (corpus_1 "int8" docs_1) index_1 [float1] 2 built_1).
  vm_compute. repeat constructor.
Defined.

Lemma retrieve_bounds_witness : Z.of_nat (length (retrieveFirstStageCandidates index_1 "fox" [float1] 2 (mkRetrieval (Some mode_hybrid) None None))) <= 2.
Proof. destruct (retrieve_bounds no_log no_sha (corpus_1 "int8" docs_1) index_1 "fox" [float1] 2 (mkRetrieval (Some mode_hybrid) None None) built_1) as [H _]. exact H. Defined.

Lemma index_ignores_labels_witness :
  let e := event_1 "e" docs_1 in
  let relabelled := CorpusRoot.mkEvent (ev_id e) "multi_hop_relation" (domain e) train_visible "other" (map (fun t => mkTruth (td_id t) (td_text t) false None) (truthDocuments e)) [] [mkQrel "a" float1] true "" [] (embeddings e) [] in
  buildPublicCorpusIndex no_log no_sha (corpus_1 "int8" docs_1) = buildPublicCorpusIndex no_log no_sha (mkCorpus [relabelled] [] None None "0x01" 7 "r" "m" (layout_1 "int8") "" "").
Proof. intros e relabelled. apply (index_ignores_labels no_log no_sha); reflexivity. Defined.

Lemma scoped_lexical_agrees_witness : scopedLexicalScores no_log "red fox" (docs index_1) = map (fun e => (id_at index_1 e.1, e.2)) (lexical_scores index_1 "red fox") /\ map fst (lexical_scores index_1 "red fox") = [1; 0]%nat.
Proof.
  split; [|vm_compute; reflexivity]. apply (scoped_lexical_agrees no_log no_sha (corpus_1 "int8" docs_1) index_1 "red fox" built_1); [discriminate|]. repeat constructor.
Defined.

(** A score that is not a number is never evicted: with one place, a document with a NaN scale keeps out a perfect match. *)
Example nan_score_stays : exists index, buildPublicCorpusIndex no_log no_sha (corpus_1 "int8" [("a", "x", [0x7f; 0xc0; 0; 0; 1]); ("b", "y", scale_1 5)]%string) = Returns index
  /\ map pd_id (firstStageCandidates index [float1] 1) = ["a"]%string.
Proof. eexists. split; [reflexivity|]. vm_compute. reflexivity. Qed.

(** The rows are read as int8 whatever the layout says: under a bf16 layout they are not what [dequantize] gives. *)
Example bf16_rows_misread : let bs := scale_1 5 in
  dequantize bs (layout_1 "bf16") = Returns [float1] /\ map round_float32 (row_values bs 1) = [of_Z 5].
Proof. split; vm_compute; reflexivity. Qed.
