(* ===== verification/Metrics.v ===== *)
(** * Ranking metrics and relation labels (eval/ir-metrics.ts, eval/relation-qrels.ts)

    The per-query metrics of the scorer on a ranked list, the search over the
    relation graph behind the multi-hop metric, and the aliasing of relation
    targets into the relevance labels of a query.

    [Math.pow] and [Math.log2] are parameters; sums and quotients are IEEE.
    Memory slots and cutoffs are integers. The loop over hops runs over the
    budget.

    Theorems: the multi-hop metric decides reachability within the hop budget;
    aliasing adds exactly the current truths of the relation targets, never
    lowers a label and, applied to its own result, changes nothing. *)
From Stdlib Require Import Ascii.
From stdpp Require Import pretty.
From S2P Require Import Prelude JsSort StateTypes Float Codec Keccak Merkle Decoder SeedDerivation CanonicalJson CorpusRoot.
#[local] Open Scope Z_scope.

Record RankedCandidate := mkRanked { rc_documentId : string; rc_relevance : number }.

Definition relevant (c : RankedCandidate) : bool := dlt (of_Z 0) (rc_relevance c).
(** The first [Math.min(k, ranked.length)] candidates. *)
Definition first_k (ranked : list RankedCandidate) (k : Z) : list RankedCandidate := take (Z.to_nat k) ranked.

Section Gain.
Context (math_pow : number -> number -> number) (math_log2 : number -> number).

Definition dcgAtK (ranked : list RankedCandidate) (k : Z) : number :=
  fold_left (fun dcg e =>
      let gain := dsub (math_pow (of_Z 2) (rc_relevance e.2)) (of_Z 1) in
      let discount := math_log2 (of_Z (Z.of_nat e.1 + 2)) in
      dadd dcg (ddiv gain discount)) (imap pair (first_k ranked k)) (of_Z 0).

Definition ndcgAtK (ranked : list RankedCandidate) (idealRels : list number) (k : Z) : number :=
  let dcg := dcgAtK ranked k in
  let ideal := stableSort idealRels (fun a b => sub_sign b a) in
  let idcg := dcgAtK (imap (fun i r => mkRanked ("ideal_" +:+ pretty (Z.of_nat i))%string r) ideal) k in
  if deq idcg (of_Z 0) then of_Z 0 else ddiv dcg idcg.
End Gain.

Fixpoint mrr_loop (i : Z) (l : list RankedCandidate) : number :=
  match l with
  | [] => of_Z 0
  | c :: l' => if relevant c then ddiv (of_Z 1) (of_Z (i + 1)) else mrr_loop (i + 1) l'
  end.
Definition mrrAtK (ranked : list RankedCandidate) (k : Z) : number := mrr_loop 0 (first_k ranked k).

Definition recallAtK (ranked : list RankedCandidate) (totalRelevant k : Z) : option number :=
  if totalRelevant <=? 0 then None
  else Some (ddiv (of_Z (Z.of_nat (length (filter (fun c => relevant c = true) (first_k ranked k))))) (of_Z totalRelevant)).

Definition temporalCurrentStaleHit (ranked : list RankedCandidate) (currentDocId : option string) (staleDocIds : list string) : option bool :=
  match currentDocId with
  | None => None
  | Some cur =>
    match ranked with
    | [] => Some false
    | first :: _ =>
      if negb (String.eqb (rc_documentId first) cur) then Some false
      else Some (negb (existsb (fun c => bool_decide (rc_documentId c ∈ staleDocIds)) (take 3 ranked)))
    end
  end.

(** The share of hits among the queries that count; the three accuracies are this. *)
Definition hit_rate (hits : list (option bool)) : number :=
  let '(counted, positive) := fold_left (fun '(counted, positive) h =>
      match h with None => (counted, positive) | Some b => (counted + 1, if b : bool then positive + 1 else positive) end) hits (0, 0) in
  if counted =? 0 then of_Z 0 else ddiv (of_Z positive) (of_Z counted).
Definition temporalCurrentStaleAccuracy : list (option bool) -> number := hit_rate.
Definition multiHopRelationRecallAtK : list (option bool) -> number := hit_rate.
Definition abstentionAccuracy : list (option bool) -> number := hit_rate.
Definition abstentionHit (top1Score abstentionThreshold : number) : bool := dlt top1Score abstentionThreshold.

(** ** Relation graph search *)
Definition anyOverlap (a b : list Z) : bool :=
  let '(small, large) := if (length a <=? length b)%nat then (a, b) else (b, a) in
  existsb (fun v => bool_decide (v ∈ large)) small.

Section Hops.
Context (answerMemorySlots : list Z) (relationGraph : list (Z * list Z)).

(** The loop over the neighbours: the visited slots, the new ones, and whether an answer was met. *)
Fixpoint visit_neighbours (neighbours visited next : list Z) : list Z * list Z * bool :=
  match neighbours with
  | [] => (visited, next, false)
  | n :: neighbours' =>
    if bool_decide (n ∈ visited) then visit_neighbours neighbours' visited next
    else
      let visited' := jsset_add n visited in
      let next' := next ++ [n] in
      if bool_decide (n ∈ answerMemorySlots) then (visited', next', true) else visit_neighbours neighbours' visited' next'
  end.

Fixpoint visit_frontier (frontier visited next : list Z) : list Z * list Z * bool :=
  match frontier with
  | [] => (visited, next, false)
  | slot :: frontier' =>
    match jsmap_get slot relationGraph with
    | None => visit_frontier frontier' visited next
    | Some neighbours =>
      let '(visited', next', found) := visit_neighbours neighbours visited next in
      if found : bool then (visited', next', true) else visit_frontier frontier' visited' next'
    end
  end.

Fixpoint hop_loop (budget : nat) (visited frontier : list Z) : bool :=
  match budget with
  | O => false
  | S budget' =>
    let '(visited', next, found) := visit_frontier frontier visited [] in
    if found : bool then true else match next with [] => false | _ => hop_loop budget' visited' next end
  end.

Definition multiHopRelationHit (candidateMemorySlots : list Z) (hopBudget : Z) : bool :=
  if (length answerMemorySlots =? 0)%nat then false
  else
    let visited := fold_left (fun s x => jsset_add x s) candidateMemorySlots [] in
    if anyOverlap visited answerMemorySlots then true else hop_loop (Z.to_nat hopBudget) visited visited.
End Hops.

(** ** Relation answer aliases *)
Fixpoint collapse_spaces (l : list ascii) : list ascii :=
  match l with
  | [] => []
  | c :: l' =>
    if is_js_space c then match l' with c' :: _ => if is_js_space c' then collapse_spaces l' else " "%char :: collapse_spaces l' | [] => [" "%char] end
    else c :: collapse_spaces l'
  end.
Fixpoint trim_start (l : list ascii) : list ascii := match l with c :: l' => if is_js_space c then trim_start l' else l | [] => [] end.
Definition js_trim (l : list ascii) : list ascii := rev (trim_start (rev (trim_start l))).

Definition canonicalAnswerText (t : string) : string :=
  String.string_of_list_ascii (js_trim (collapse_spaces (String.list_ascii_of_string (toLowerCase t)))).

Record RelationAnnotation := mkRelation { other_id : string; edgeType : string; label : option string }.
Record RelationAnswerAliasInput := mkAliasInput {
  al_family : string;
  al_truthDocuments : list TruthDocument;
  al_relations : option (list RelationAnnotation);
  relationTruthDocumentsByEventId : option (list (string * list TruthDocument))
}.
Record RelationAnswerAliasStats := mkAliasStats { candidateTruthDocs : Z; added : Z; upgraded : Z; duplicates : Z; fullCredit : Z; partialCredit : Z }.
Definition ZERO_ALIAS_STATS : RelationAnswerAliasStats := mkAliasStats 0 0 0 0 0 0.

(** The variables of the loop. *)
Record Aliasing := mkAliasing { al_out : list QrelEntry; al_byId : list (string * nat); al_stats : RelationAnswerAliasStats }.

Definition add_stats (a b : RelationAnswerAliasStats) : RelationAnswerAliasStats :=
  mkAliasStats (candidateTruthDocs a + candidateTruthDocs b) (added a + added b) (upgraded a + upgraded b) (duplicates a + duplicates b) (fullCredit a + fullCredit b) (partialCredit a + partialCredit b).

Definition upsert (id : string) (r : number) (s : Aliasing) : Aliasing :=
  match jsmap_get id (al_byId s) with
  | None => mkAliasing (al_out s ++ [mkQrel id r]) (jsmap_set id (length (al_out s)) (al_byId s)) (add_stats (al_stats s) (mkAliasStats 0 1 0 0 0 0))
  | Some i =>
    match al_out s !! i with
    | None => s
    | Some existing =>
      if dlt (relevance existing) r then mkAliasing (<[i := mkQrel id r]> (al_out s)) (al_byId s) (add_stats (al_stats s) (mkAliasStats 0 0 1 0 0 0))
      else mkAliasing (al_out s) (al_byId s) (add_stats (al_stats s) (mkAliasStats 0 0 0 1 0 0))
    end
  end.

Definition credit (answerTexts : list string) (d : TruthDocument) : bool := bool_decide (canonicalAnswerText (td_text d) ∈ answerTexts).
Definition full_relevance : number := of_Z 1.
Definition partial_relevance : number := of_frac 8 10.

Definition alias_one (answerTexts : list string) (s : Aliasing) (d : TruthDocument) : Aliasing :=
  if negb (isCurrent d) then s
  else
    let full := credit answerTexts d in
    let s' := mkAliasing (al_out s) (al_byId s) (add_stats (al_stats s) (mkAliasStats 1 0 0 0 (if full then 1 else 0) (if full then 0 else 1))) in
    upsert (td_id d) (if full then full_relevance else partial_relevance) s'.

Definition alias_relation (answerTexts : list string) (byEvent : list (string * list TruthDocument)) (s : Aliasing) (rel : RelationAnnotation) : Aliasing :=
  match jsmap_get (other_id rel) byEvent with None => s | Some truths => fold_left (alias_one answerTexts) truths s end.

Definition answer_texts (truths : list TruthDocument) : list string :=
  let texts l := filter (fun t => t <> EmptyString) (map (fun d => canonicalAnswerText (td_text d)) l) in
  let current := texts (filter (fun d => isCurrent d = true) truths) in
  fold_left (fun s x => jsset_add x s) (match current with [] => texts truths | _ => current end) [].

(** [byId]: the last position of every id. *)
Definition positions (qrels : list QrelEntry) : list (string * nat) := fold_left (fun m e => jsmap_set (documentId e.2) e.1 m) (imap pair qrels) [].

Definition addRelationAnswerAliasQrels (qrels : list QrelEntry) (input : RelationAnswerAliasInput) : list QrelEntry * RelationAnswerAliasStats :=
  match al_relations input, relationTruthDocumentsByEventId input with
  | Some (rel :: rels), Some byEvent =>
    if negb (String.eqb (al_family input) "multi_hop_relation") then (qrels, ZERO_ALIAS_STATS)
    else
      let s := fold_left (alias_relation (answer_texts (al_truthDocuments input)) byEvent) (rel :: rels) (mkAliasing qrels (positions qrels) ZERO_ALIAS_STATS) in
      (al_out s, al_stats s)
  | _, _ => (qrels, ZERO_ALIAS_STATS)
  end.

(** ** The search decides reachability *)
Section Reach.
Context (answers : list Z) (graph : list (Z * list Z)) (start : list Z).

(** What [n] hops along the edges lead to. *)
Inductive within : nat -> Z -> Prop :=
| within_start x : x ∈ start -> within 0 x
| within_hop n x y ns : within n x -> jsmap_get x graph = Some ns -> y ∈ ns -> within (S n) y.

Definition neighbour (x y : Z) : Prop := exists ns, jsmap_get x graph = Some ns /\ y ∈ ns.

(** [visited'] adds what the processed slots lead to, [next] lists the additions, and an answer among them is reported. *)
Record expanded (processed : Z -> Z -> Prop) (visited visited' next next' : list Z) (found : bool) : Prop := {
  ex_visited : forall y, y ∈ visited' -> y ∈ visited \/ exists x, processed x y;
  ex_keeps : visited ⊆ visited';
  ex_next : forall y, y ∈ next' <-> y ∈ next \/ y ∈ visited' /\ y ∉ visited;
  ex_found : found = true -> exists y, y ∈ visited' /\ y ∈ answers;
  ex_all : found = false -> (forall x y, processed x y -> y ∈ visited') /\ (forall y, y ∈ visited' -> y ∈ answers -> y ∈ visited)
}.

Lemma visit_neighbours_spec (slot : Z) ns visited next : exists visited' next' found, visit_neighbours answers ns visited next = (visited', next', found)
  /\ expanded (fun x y => x = slot /\ y ∈ ns) visited visited' next next' found.
Proof.
  revert visited next. induction ns as [|n ns IH]; intros visited next; cbn [visit_neighbours].
  - exists visited, next, false. split; [done|]. constructor; [tauto|done|set_solver|done|]. intros _. split; [set_solver|tauto].
  - case_bool_decide as Hn.
    + destruct (IH visited next) as (v & nx & f & E & [E1 E2 E3 E4 E5]). exists v, nx, f. split; [done|]. constructor; [| done|done|done|].
      * intros y Hy. destruct (E1 y Hy) as [?|(x & -> & ?)]; [by left|right; exists slot; split; [done|by right]].
      * intros Hf. destruct (E5 Hf) as [E5a E5b]. split; [|done]. intros x y [-> [-> |Hy]%elem_of_cons]; [by apply E2|by apply (E5a slot)].
    + case_bool_decide as Ha.
      * eexists _, _, _. split; [reflexivity|]. constructor.
        -- intros y [-> |Hy]%elem_of_jsset_add; [right; exists slot; split; [done|by left]|by left].
        -- intros y Hy. apply elem_of_jsset_add. by right.
        -- intros y. rewrite elem_of_jsset_add. set_solver.
        -- intros _. exists n. split; [apply elem_of_jsset_add; by left|done].
        -- done.
      * destruct (IH (jsset_add n visited) (next ++ [n])) as (v & nx & f & E & [E1 E2 E3 E4 E5]). exists v, nx, f. split; [done|]. constructor.
        -- intros y Hy. destruct (E1 y Hy) as [[-> |?]%elem_of_jsset_add|(x & -> & ?)]; [right; exists slot; split; [done|by left]|by left|right; exists slot; split; [done|by right]].
        -- intros y Hy. apply E2, elem_of_jsset_add. by right.
        -- intros y. rewrite E3, elem_of_app, list_elem_of_singleton, elem_of_jsset_add. assert (Hv : n ∈ v) by (apply E2, elem_of_jsset_add; by left). destruct (decide (y = n)) as [->|]; tauto.
        -- done.
        -- intros Hf. destruct (E5 Hf) as [E5a E5b]. split.
           ++ intros x y [-> [-> |Hy]%elem_of_cons]; [apply E2, elem_of_jsset_add; by left|by apply (E5a slot)].
           ++ intros y Hy Hya. destruct (proj1 (elem_of_jsset_add n y visited) (E5b y Hy Hya)) as [-> |?]; [done|done].
Qed.

Lemma visit_frontier_spec fr visited next : exists visited' next' found, visit_frontier answers graph fr visited next = (visited', next', found)
  /\ expanded (fun x y => x ∈ fr /\ neighbour x y) visited visited' next next' found.
Proof.
  revert visited next. induction fr as [|slot fr IH]; intros visited next; cbn [visit_frontier].
  - exists visited, next, false. split; [done|]. constructor; [tauto|done|set_solver|done|]. intros _. split; [set_solver|tauto].
  - destruct (jsmap_get slot graph) as [ns|] eqn:Eg.
    + destruct (visit_neighbours_spec slot ns visited next) as (v & nx & f & E & [E1 E2 E3 E4 E5]). rewrite E. destruct f.
      * exists v, nx, true. split; [done|]. constructor; [|done|done|done|done]. intros y Hy. destruct (E1 y Hy) as [?|(x & -> & ?)]; [by left|right; exists slot; split; [by left|by exists ns]].
      * destruct (E5 eq_refl) as [E5a E5b]. destruct (IH v nx) as (v2 & nx2 & f2 & F & [F1 F2 F3 F4 F5]). exists v2, nx2, f2. split; [done|]. constructor.
        -- intros y Hy. destruct (F1 y Hy) as [Hv|(x & Hx & Hxy)]; [|right; exists x; split; [by right|done]]. destruct (E1 y Hv) as [?|(x & -> & ?)]; [by left|right; exists slot; split; [by left|by exists ns]].
        -- by etransitivity.
        -- intros y. rewrite F3, E3. destruct (decide (y ∈ v)); set_solver.
        -- done.
        -- intros Hf. destruct (F5 Hf) as [F5a F5b]. split.
           ++ intros x y [[-> |Hx]%elem_of_cons (ns' & Hns & Hy)]; [apply F2, (E5a slot); split; [done|congruence]|apply (F5a x); split; [done|by exists ns']].
           ++ intros y Hy Hya. apply E5b; [by apply F5b|done].
    + destruct (IH visited next) as (v & nx & f & E & [E1 E2 E3 E4 E5]). exists v, nx, f. split; [done|]. constructor; [|done|done|done|].
      * intros y Hy. destruct (E1 y Hy) as [?|(x & Hx & ?)]; [by left|right; exists x; split; [by right|done]].
      * intros Hf. destruct (E5 Hf) as [E5a E5b]. split; [|done]. intros x y [[-> |Hx]%elem_of_cons (ns' & Hns & Hy)]; [congruence|]. apply (E5a x). split; [done|by exists ns'].
Qed.

(** After [n] levels: [visited] is what at most [n] hops reach, the edges out of it that leave it start in the frontier, no answer is in it. *)
Record level (n : nat) (visited frontier : list Z) : Prop := {
  lv_sound : forall y, y ∈ visited -> exists m, (m <= n)%nat /\ within m y;
  lv_start : start ⊆ visited;
  lv_closed : forall x y, x ∈ visited -> x ∉ frontier -> neighbour x y -> y ∈ visited;
  lv_depth : forall m y, (m <= n)%nat -> within m y -> y ∈ visited;
  lv_frontier : frontier ⊆ visited;
  lv_clean : forall y, y ∈ visited -> y ∉ answers
}.

Lemma closed_all n visited : level n visited [] -> forall m y, within m y -> y ∈ visited.
Proof.
  intros [_ Hs Hc _ _ _] m y. induction 1 as [x Hx|m x y ns _ IH Hg Hy]; [by apply Hs|]. apply (Hc x); [done|set_solver|by exists ns].
Qed.

Lemma hop_loop_spec budget n visited frontier : level n visited frontier ->
  hop_loop answers graph budget visited frontier = true <-> exists m y, (m <= n + budget)%nat /\ within m y /\ y ∈ answers.
Proof.
  revert n visited frontier. induction budget as [|budget IH]; intros n visited frontier Hl; cbn [hop_loop].
  - split; [done|]. intros (m & y & Hm & Hw & Ha). exfalso. apply (lv_clean _ _ _ Hl y); [|done]. apply (lv_depth _ _ _ Hl m); [lia|done].
  - destruct (visit_frontier_spec frontier visited []) as (v & nx & f & E & [E1 E2 E3 E4 E5]). rewrite E. pose proof Hl as [L1 L2 L3 L4 L5 L6].
    assert (Hsound : forall y, y ∈ v -> exists m, (m <= S n)%nat /\ within m y).
    { intros y Hy. destruct (E1 y Hy) as [Hv|(x & Hx & ns & Hg & Hin)]; [destruct (L1 y Hv) as (m & ? & ?); exists m; split; [lia|done]|].
      destruct (L1 x (L5 x Hx)) as (m & Hm & Hw). exists (S m). split; [lia|]. by eapply within_hop. }
    destruct f.
    + split; [|done]. intros _. destruct (E4 eq_refl) as (y & Hy & Ha). destruct (Hsound y Hy) as (m & Hm & Hw). exists m, y. split; [lia|done].
    + destruct (E5 eq_refl) as [E5a E5b]. assert (Hl' : level (S n) v nx).
      { constructor.
        - done.
        - by etransitivity.
        - intros x y Hx Hnx Hxy. destruct (decide (x ∈ visited)) as [Hv|Hv]; [|exfalso; apply Hnx, E3; by right]. destruct (decide (x ∈ frontier)) as [Hf|Hf]; [by apply (E5a x)|]. by apply E2, (L3 x).
        - intros m y Hm Hw. destruct Hw as [x Hx|m x y ns Hw Hg Hy]; [by apply E2, L2|]. assert (Hx : x ∈ visited) by (apply (L4 m); [lia|done]).
          destruct (decide (x ∈ frontier)) as [Hf|Hf]; [apply (E5a x); split; [done|by exists ns]|]. apply E2, (L3 x); [done|done|by exists ns].
        - intros y Hy. apply E3 in Hy as [Hy|[Hy _]]; [by apply not_elem_of_nil in Hy|done].
        - intros y Hy Ha. by apply (L6 y); [apply E5b|]. }
      destruct nx as [|z nx]; [|rewrite (IH (S n)) by done; by rewrite Nat.add_succ_comm]. split; [done|]. intros (m & y & _ & Hw & Ha). exfalso. apply (lv_clean _ _ _ Hl' y); [|done]. by apply (closed_all (S n) v Hl' m).
Qed.
End Reach.

Lemma anyOverlap_spec a b : anyOverlap a b = true <-> exists x, x ∈ a /\ x ∈ b.
Proof.
  unfold anyOverlap. destruct (length a <=? length b)%nat; rewrite existsb_exists; split.
  1,3: intros (x & Hx%list_elem_of_In & Hb%bool_decide_eq_true); exists x; tauto.
  1,2: intros (x & Ha & Hb); exists x; rewrite <- list_elem_of_In, bool_decide_eq_true; tauto.
Qed.

Lemma jsset_elem (x : Z) l : x ∈ fold_left (fun s x => jsset_add x s) l [] <-> x ∈ l.
Proof.
  assert (H : forall s, x ∈ fold_left (fun s x => jsset_add x s) l s <-> x ∈ l \/ x ∈ s); [|rewrite H; set_solver].
  induction l as [|y l IH]; intros s; [set_solver|]. cbn [fold_left]. rewrite IH, elem_of_jsset_add. set_solver.
Qed.

(** The multi-hop metric is reachability: a hit exactly when some answer slot is at most [hopBudget] hops along the relation edges from a candidate slot. *)
Theorem multiHopRelationHit_reaches answers graph candidates hopBudget :
  multiHopRelationHit answers graph candidates hopBudget = true <-> exists m y, (m <= Z.to_nat hopBudget)%nat /\ within graph candidates m y /\ y ∈ answers.
Proof.
  unfold multiHopRelationHit. destruct (Nat.eqb_spec (length answers) 0) as [E|E]; [apply nil_length_inv in E as ->; split; [done|]; intros (m & y & _ & _ & H); by apply not_elem_of_nil in H|].
  cbv zeta. set (visited := fold_left _ candidates []). assert (Hv : forall x, x ∈ visited <-> x ∈ candidates) by (intros x; apply jsset_elem).
  destruct (anyOverlap visited answers) eqn:Eo.
  - split; [|done]. intros _. apply anyOverlap_spec in Eo as (x & Hx & Ha). exists 0%nat, x. split; [lia|]. split; [by apply within_start, Hv|done].
  - rewrite (hop_loop_spec answers graph candidates _ 0); [done|]. constructor.
    + intros y Hy. exists 0%nat. split; [lia|]. by apply within_start, Hv.
    + intros y. apply Hv.
    + intros x y Hx Hn. done.
    + intros m y Hm Hw. replace m with 0%nat in Hw by lia. inversion Hw; subst. by apply Hv.
    + done.
    + intros y Hy Ha. assert (anyOverlap visited answers = true) by (apply anyOverlap_spec; by exists y). congruence.
Qed.

(** ** What aliasing does *)
Section Alias.
Context (texts : list string).

(** The label a relation target deserves. *)
Definition award (d : TruthDocument) : number := if credit texts d then full_relevance else partial_relevance.

Definition alias_targets (byEvent : list (string * list TruthDocument)) (rels : list RelationAnnotation) : list TruthDocument :=
  rels ≫= (fun rel => filter (fun d => isCurrent d = true) (default [] (jsmap_get (other_id rel) byEvent))).

Definition bump (d : TruthDocument) (s : Aliasing) : Aliasing :=
  mkAliasing (al_out s) (al_byId s) (add_stats (al_stats s) (mkAliasStats 1 0 0 0 (if credit texts d then 1 else 0) (if credit texts d then 0 else 1))).
Definition alias_target (s : Aliasing) (d : TruthDocument) : Aliasing := upsert (td_id d) (award d) (bump d s).

Lemma alias_fold byEvent rels s : fold_left (alias_relation texts byEvent) rels s = fold_left alias_target (alias_targets byEvent rels) s.
Proof.
  revert s. induction rels as [|rel rels IH]; intros s; [done|]. cbn [fold_left]. unfold alias_targets. rewrite bind_cons, fold_left_app, IH. f_equal. unfold alias_relation.
  destruct (jsmap_get (other_id rel) byEvent) as [truths|]; [|done]. cbn [default from_option id]. clear IH. revert s. induction truths as [|d truths IH]; intros s; [done|].
  cbn [fold_left]. rewrite filter_cons. unfold alias_one at 2. destruct (isCurrent d); cbn [negb]; [rewrite decide_True by done; cbn [fold_left]; apply IH|rewrite decide_False by done; apply IH].
Qed.

(** [byId] gives the last position of every id. *)
Definition positions_ok (byId : list (string * nat)) (out : list QrelEntry) : Prop :=
  forall id i, jsmap_get id byId = Some i <-> (exists q, out !! i = Some q /\ documentId q = id) /\ forall j q, (i < j)%nat -> out !! j = Some q -> documentId q <> id.

Lemma last_position (out : list QrelEntry) id : id ∈ map documentId out -> exists i, (exists q, out !! i = Some q /\ documentId q = id) /\ forall j q, (i < j)%nat -> out !! j = Some q -> documentId q <> id.
Proof.
  induction out as [|q out IH] using rev_ind; [set_solver|]. rewrite map_app, elem_of_app. intros H. destruct (decide (documentId q = id)) as [E|E].
  - exists (length out). split; [exists q; split; [apply list_lookup_middle; done|done]|]. intros j q' Hj Hq. apply lookup_lt_Some in Hq. rewrite length_app in Hq. cbn in Hq. lia.
  - destruct H as [H|H]; [|apply list_elem_of_singleton in H; congruence]. destruct (IH H) as (i & (q0 & H1 & H2) & H3). exists i. split; [exists q0; split; [by apply lookup_app_l_Some|done]|].
    intros j q' Hj Hq. apply lookup_app_Some in Hq as [Hq|[Hl Hq]]; [by apply (H3 j)|]. destruct (j - length out)%nat; [injection Hq as <-; done|done].
Qed.

Lemma positions_None byId out id : positions_ok byId out -> jsmap_get id byId = None <-> id ∉ map documentId out.
Proof.
  intros H. split.
  - intros Hn Hin. destruct (last_position out id Hin) as (i & Hi). apply H in Hi. congruence.
  - intros Hn. destruct (jsmap_get id byId) as [i|] eqn:E; [|done]. exfalso. apply H in E as [(q & Hq & <-) _]. apply Hn. apply list_elem_of_fmap. exists q. split; [done|]. by eapply list_elem_of_lookup_2.
Qed.

Lemma positions_snoc byId out q : positions_ok byId out -> positions_ok (jsmap_set (documentId q) (length out) byId) (out ++ [q]).
Proof.
  intros H id i. rewrite jsmap_get_set. destruct (decide (id = documentId q)) as [->|Hne].
  - split.
    + intros [= <-]. split; [exists q; split; [by apply list_lookup_middle|done]|]. intros j q' Hj Hq. apply lookup_lt_Some in Hq. rewrite length_app in Hq. cbn in Hq. lia.
    + intros [(q' & Hq & E) Hlast]. f_equal. destruct (decide (i < length out)%nat) as [Hi|Hi]; [exfalso; by apply (Hlast (length out) q Hi); [apply list_lookup_middle|]|].
      apply lookup_lt_Some in Hq. rewrite length_app in Hq. cbn in Hq. lia.
  - rewrite (H id i). split; intros [(q' & Hq & E) Hlast].
    + split; [exists q'; split; [by apply lookup_app_l_Some|done]|]. intros j q0 Hj Hq0. apply lookup_app_Some in Hq0 as [Hq0|[Hl Hq0]]; [by apply (Hlast j)|]. destruct (j - length out)%nat; [injection Hq0 as <-; congruence|done].
    + apply lookup_app_Some in Hq as [Hq|[Hl Hq]].
      * split; [by exists q'|]. intros j q0 Hj Hq0. apply (Hlast j); [done|by apply lookup_app_l_Some].
      * destruct (i - length out)%nat; [injection Hq as <-; congruence|done].
Qed.

Lemma positions_replace byId out i q : positions_ok byId out -> (exists q0, out !! i = Some q0 /\ documentId q0 = documentId q) -> positions_ok byId (<[i := q]> out).
Proof.
  intros H (q0 & Hi & E) id k. rewrite (H id k). assert (HL : forall j x, (exists q', <[i := q]> out !! j = Some q' /\ documentId q' = x) <-> (exists q', out !! j = Some q' /\ documentId q' = x)).
  { intros j x. destruct (decide (j = i)) as [->|Hne]; [|by rewrite list_lookup_insert_ne by congruence]. rewrite list_lookup_insert_eq by (by eapply lookup_lt_Some). rewrite Hi. split; intros (q' & [= <-] & <-); by eexists. }
  rewrite HL. split; intros [H1 H2]; (split; [done|]); intros j q' Hj Hq Hd.
  - destruct (proj1 (HL j id)) as (q1 & Hq1 & E1); [by exists q'|]. by apply (H2 j q1).
  - destruct (proj2 (HL j id)) as (q1 & Hq1 & E1); [by exists q'|]. by apply (H2 j q1).
Qed.

Lemma positions_positions out : positions_ok (positions out) out.
Proof.
  unfold positions. induction out as [|q out IH] using rev_ind; [intros id i; cbn; split; [done|intros [(q & Hq & _) _]; by rewrite lookup_nil in Hq]|].
  rewrite imap_app, fold_left_app. cbn [imap fold_left fst snd]. rewrite Nat.add_0_r. by apply positions_snoc.
Qed.

(** The label under which an id is looked up. *)
Definition label_of (s : Aliasing) (id : string) : option number := i ← jsmap_get id (al_byId s); relevance <$> al_out s !! i.

Definition raised (q q' : QrelEntry) : Prop := documentId q' = documentId q /\ (relevance q' = relevance q \/ dlt (relevance q) (relevance q') = true).

Lemma award_number d : is_NaN (award d) = false.
Proof. unfold award. by destruct (credit texts d). Qed.

(** [x < y] and not [x < a] leave not [y < a]. *)
Lemma dlt_keeps x y a : is_NaN a = false -> dlt x y = true -> dlt x a = false -> dlt y a = false.
Proof.
  intros Ha H1 H2. destruct (is_NaN x) eqn:Hx; [by destruct x|]. destruct (is_NaN y) eqn:Hy; [by destruct x, y|]. apply dlt_key in H1; [|done..].
  destruct (dlt y a) eqn:E; [|done]. apply dlt_key in E; [|done..]. assert (dlt x a = true); [|congruence]. apply dlt_key; [done..|]. unfold key_lt in *. lia.
Qed.

(** What holds after the targets [done_] have been entered. *)
Record alias_ok (qrels : list QrelEntry) (done_ : list TruthDocument) (s : Aliasing) : Prop := {
  ao_positions : positions_ok (al_byId s) (al_out s);
  ao_out : exists old new, al_out s = old ++ new /\ Forall2 raised qrels old /\ NoDup (map documentId new) /\ (forall q, q ∈ new -> documentId q ∉ map documentId qrels)
    /\ added (al_stats s) = Z.of_nat (length new);
  ao_from : forall q, q ∈ al_out s -> q ∈ qrels \/ exists d, d ∈ done_ /\ td_id d = documentId q /\ award d = relevance q;
  ao_label : forall d, d ∈ done_ -> exists e, label_of s (td_id d) = Some e /\ dlt e (award d) = false;
  ao_count : candidateTruthDocs (al_stats s) = Z.of_nat (length done_) /\ added (al_stats s) + upgraded (al_stats s) + duplicates (al_stats s) = Z.of_nat (length done_)
    /\ fullCredit (al_stats s) + partialCredit (al_stats s) = Z.of_nat (length done_)
}.

Lemma raised_ids old qrels : Forall2 raised qrels old -> map documentId old = map documentId qrels.
Proof. induction 1 as [|q q' l l' [H _] _ IH]; [done|]. cbn. by rewrite H, IH. Qed.

Lemma credit_sum d : (if credit texts d then 1 else 0) + (if credit texts d then 0 else 1) = 1.
Proof. by destruct (credit texts d). Qed.

Lemma label_found s id i e : jsmap_get id (al_byId s) = Some i -> relevance <$> al_out s !! i = Some e -> label_of s id = Some e.
Proof. intros H1 H2. unfold label_of. by rewrite H1. Qed.

Lemma dlt_irrefl a : dlt a a = false.
Proof. destruct (is_NaN a) eqn:E; [by destruct a|]. destruct (dlt a a) eqn:D; [|done]. apply dlt_key in D; [|done..]. unfold key_lt in D. lia. Qed.
Lemma dlt_trans x y z : dlt x y = true -> dlt y z = true -> dlt x z = true.
Proof.
  intros H1 H2. destruct (is_NaN x) eqn:Hx; [by destruct x|]. destruct (is_NaN y) eqn:Hy; [by destruct x, y|]. destruct (is_NaN z) eqn:Hz; [by destruct y, z|].
  apply dlt_key in H1, H2; [|done..]. apply dlt_key; [done..|]. unfold key_lt in *. lia.
Qed.

Lemma upsert_cases id r s : positions_ok (al_byId s) (al_out s) ->
  (id ∉ map documentId (al_out s) /\ jsmap_get id (al_byId s) = None /\ al_out (upsert id r s) = al_out s ++ [mkQrel id r] /\ al_byId (upsert id r s) = jsmap_set id (length (al_out s)) (al_byId s)
     /\ al_stats (upsert id r s) = add_stats (al_stats s) (mkAliasStats 0 1 0 0 0 0))
  \/ (exists i ex, jsmap_get id (al_byId s) = Some i /\ al_out s !! i = Some ex /\ documentId ex = id /\ al_byId (upsert id r s) = al_byId s /\
     (dlt (relevance ex) r = true /\ al_out (upsert id r s) = <[i := mkQrel id r]> (al_out s) /\ al_stats (upsert id r s) = add_stats (al_stats s) (mkAliasStats 0 0 1 0 0 0)
      \/ dlt (relevance ex) r = false /\ al_out (upsert id r s) = al_out s /\ al_stats (upsert id r s) = add_stats (al_stats s) (mkAliasStats 0 0 0 1 0 0))).
Proof.
  intros H. unfold upsert. destruct (jsmap_get id (al_byId s)) as [i|] eqn:E.
  - right. pose proof E as E'. apply H in E' as [(ex & Hi & Hd) _]. exists i, ex. rewrite Hi. split; [done|]. split; [done|]. split; [done|]. destruct (dlt (relevance ex) r); (split; [done|]); [by left|by right].
  - left. split; [by eapply positions_None|]. done.
Qed.

Lemma label_upsert id r s id' : positions_ok (al_byId s) (al_out s) ->
  label_of (upsert id r s) id' = if decide (id' = id) then Some (match label_of s id with Some e => if dlt e r then r else e | None => r end) else label_of s id'.
Proof.
  intros H. unfold label_of at 1. destruct (upsert_cases id r s H) as [(Hn & E & -> & -> & _)|(i & ex & E & Hi & Hd & -> & [(Hr & -> & _)|(Hr & -> & _)])].
  - rewrite jsmap_get_set. destruct (decide (id' = id)) as [->|Hne].
    + cbn [mbind option_bind]. rewrite list_lookup_middle by done. unfold label_of. by rewrite E.
    + unfold label_of. destruct (jsmap_get id' (al_byId s)) as [k|] eqn:Ek; [|done]. cbn [mbind option_bind]. pose proof (proj1 (H id' k) Ek) as [(q & Hq & _) _]. rewrite lookup_app_l; [done|]. by eapply lookup_lt_Some.
  - assert (El : label_of s id = Some (relevance ex)) by (eapply label_found; [exact E|by rewrite Hi]). destruct (decide (id' = id)) as [->|Hne].
    + rewrite E, El, Hr. cbn [mbind option_bind]. rewrite list_lookup_insert_eq; [done|]. by eapply lookup_lt_Some.
    + unfold label_of. destruct (jsmap_get id' (al_byId s)) as [k|] eqn:Ek; [|done]. cbn [mbind option_bind]. rewrite list_lookup_insert_ne; [done|]. intros ->. pose proof (proj1 (H id' k) Ek) as [(q & Hq & Hq') _]. congruence.
  - assert (El : label_of s id = Some (relevance ex)) by (eapply label_found; [exact E|by rewrite Hi]). destruct (decide (id' = id)) as [->|Hne]; [|done]. by rewrite El, Hr, E; cbn [mbind option_bind]; rewrite Hi.
Qed.

Lemma replace_out qrels old new i ex r : Forall2 raised qrels old -> (old ++ new) !! i = Some ex -> dlt (relevance ex) r = true ->
  exists old' new', <[i := mkQrel (documentId ex) r]> (old ++ new) = old' ++ new' /\ Forall2 raised qrels old' /\ map documentId new' = map documentId new.
Proof.
  intros Hr Hi Hd. destruct (decide (i < length old)%nat) as [Hl|Hl].
  - rewrite lookup_app_l in Hi by done. exists (<[i := mkQrel (documentId ex) r]> old), new. split; [by apply insert_app_l|]. split; [|done].
    assert (Hq : exists q, qrels !! i = Some q /\ raised q ex) by (apply Forall2_lookup_r with (i := i) (y := ex) in Hr; [|done]; destruct Hr as (q & ? & ?); by exists q). destruct Hq as (q & Hq & Hqe).
    rewrite <- (list_insert_id qrels i q Hq). apply Forall2_insert; [done|]. destruct Hqe as [E1 E2]. split; [done|]. right. cbn [relevance]. destruct E2 as [<-|E2]; [done|by eapply dlt_trans].
  - rewrite lookup_app_r in Hi by lia. exists old, (<[(i - length old)%nat := mkQrel (documentId ex) r]> new). split; [by rewrite insert_app_r_alt by lia|]. split; [done|].
    change (map documentId) with (fmap (M := list) documentId). rewrite list_fmap_insert. cbn [documentId]. apply list_insert_id. by rewrite list_lookup_fmap, Hi.
Qed.

Lemma alias_step qrels done_ s d : alias_ok qrels done_ s -> alias_ok qrels (done_ ++ [d]) (alias_target s d).
Proof.
  intros [H1 (old & new & Ho & Hr & Hn & Hf & Ha) H3 H4 (C1 & C2 & C3)]. unfold alias_target. set (s1 := bump d s). assert (Hp : positions_ok (al_byId s1) (al_out s1)) by done.
  assert (Hlen : Z.of_nat (length (done_ ++ [d])) = Z.of_nat (length done_) + 1) by (rewrite length_app; cbn; lia). pose proof (credit_sum d) as Hcs.
  assert (HL : forall d', d' ∈ done_ ++ [d] -> exists e, label_of (upsert (td_id d) (award d) s1) (td_id d') = Some e /\ dlt e (award d') = false).
  { intros d' Hin. rewrite label_upsert by done. change (label_of s1) with (label_of s). apply elem_of_app in Hin as [Hin|Hin%list_elem_of_singleton].
    - destruct (H4 d' Hin) as (e & He & Hd). destruct (decide (td_id d' = td_id d)) as [E|E]; [|by exists e]. rewrite E in He. rewrite He. eexists. split; [reflexivity|]. destruct (dlt e (award d)) eqn:D; [|done].
      eapply dlt_keeps; [apply award_number|exact D|done].
    - subst d'. rewrite decide_True by done. eexists. split; [reflexivity|]. destruct (label_of s (td_id d)) as [e|]; [|apply dlt_irrefl]. destruct (dlt e (award d)) eqn:D; [apply dlt_irrefl|done]. }
  destruct (upsert_cases (td_id d) (award d) s1 Hp) as [(Hnin & E & Eo & Eb & Es)|(i & ex & E & Hi & Hd & Eb & [(Hdr & Eo & Es)|(Hdr & Eo & Es)])]; change (al_out s1) with (al_out s) in *; change (al_byId s1) with (al_byId s) in *.
  - constructor; [| | |exact HL|].
    + rewrite Eo, Eb. apply (positions_snoc _ _ (mkQrel (td_id d) (award d))). exact H1.
    + exists old, (new ++ [mkQrel (td_id d) (award d)]). rewrite Eo, Ho, <- app_assoc. split; [done|]. split; [done|]. rewrite Ho, map_app, not_elem_of_app in Hnin. destruct Hnin as [N1 N2]. rewrite (raised_ids _ _ Hr) in N1. split; [|split].
      * rewrite map_app. apply NoDup_app. split; [done|]. split; [|apply NoDup_singleton]. intros x Hx ->%list_elem_of_singleton. done.
      * intros q [Hq| ->%list_elem_of_singleton]%elem_of_app; [by apply Hf|done].
      * rewrite Es, length_app. cbn. lia.
    + intros q. rewrite Eo. intros [Hq| ->%list_elem_of_singleton]%elem_of_app; [|right; exists d; split; [apply elem_of_app; right; by left|done]].
      destruct (H3 q Hq) as [?|(d' & ? & ?)]; [by left|right; exists d'; split; [apply elem_of_app; by left|done]].
    + rewrite Es, Hlen. cbn. lia.
  - constructor; [| | |exact HL|].
    + rewrite Eo, Eb. apply positions_replace; [done|]. exists ex. split; [done|]. by rewrite Hd.
    + rewrite Ho in Hi. destruct (replace_out qrels old new i ex (award d) Hr Hi Hdr) as (old' & new' & E1 & E2 & E3). exists old', new'. rewrite Eo, Ho. split; [by rewrite <- Hd|]. split; [done|]. rewrite E3. split; [done|]. split.
      * intros q Hq. assert (Hq' : documentId q ∈ map documentId new) by (rewrite <- E3; apply list_elem_of_fmap; by exists q). apply list_elem_of_fmap in Hq' as (q0 & -> & Hq0). by apply Hf.
      * rewrite Es. cbn. apply (f_equal length) in E3. rewrite !length_map in E3. lia.
    + intros q. rewrite Eo. intros [j [(_ & <- & _)|[_ Hq%list_elem_of_lookup_2]]%list_lookup_insert_Some]%list_elem_of_lookup; cycle 1.
      * destruct (H3 q Hq) as [?|(d' & ? & ?)]; [by left|right; exists d'; split; [apply elem_of_app; by left|done]].
      * right. exists d. split; [apply elem_of_app; right; by left|done].
    + rewrite Es, Hlen. cbn. lia.
  - constructor; [| | |exact HL|].
    + by rewrite Eo, Eb.
    + exists old, new. rewrite Eo, Es. split; [done|]. split; [done|]. split; [done|]. split; [done|]. cbn. lia.
    + intros q. rewrite Eo. intros Hq. destruct (H3 q Hq) as [?|(d' & ? & ?)]; [by left|right; exists d'; split; [apply elem_of_app; by left|done]].
    + rewrite Es, Hlen. cbn. lia.
Qed.

Lemma raised_refl qrels : Forall2 raised qrels qrels.
Proof. induction qrels as [|q l IH]; constructor; [split; [done|by left]|done]. Qed.

Definition alias_start (qrels : list QrelEntry) : Aliasing := mkAliasing qrels (positions qrels) ZERO_ALIAS_STATS.

Lemma alias_all qrels targets : alias_ok qrels targets (fold_left alias_target targets (alias_start qrels)).
Proof.
  induction targets as [|d targets IH] using rev_ind.
  - constructor; cbn; [apply positions_positions| |by left|set_solver|done]. exists qrels, []. rewrite app_nil_r. split; [done|]. split; [apply raised_refl|]. split; [constructor|]. split; [set_solver|done].
  - rewrite fold_left_app. cbn [fold_left]. by apply alias_step.
Qed.

(** Entering targets whose labels are already there changes nothing. *)
Lemma alias_again targets s0 s : positions_ok (al_byId s0) (al_out s0) -> positions_ok (al_byId s) (al_out s) -> al_out s = al_out s0 -> (forall d, d ∈ targets -> exists e, label_of s0 (td_id d) = Some e /\ dlt e (award d) = false) ->
  al_out (fold_left alias_target targets s) = al_out s0 /\ added (al_stats (fold_left alias_target targets s)) = added (al_stats s) /\ upgraded (al_stats (fold_left alias_target targets s)) = upgraded (al_stats s).
Proof.
  intros H0. revert s. induction targets as [|d targets IH]; intros s Hs Ho Ht; [done|]. cbn [fold_left]. destruct (Ht d) as (e & He & Hd); [by left|].
  unfold label_of in He. destruct (jsmap_get (td_id d) (al_byId s0)) as [i|] eqn:Ei; [|done]. cbn [mbind option_bind] in He. apply fmap_Some in He as (q & Hq & ->).
  assert (Ei' : jsmap_get (td_id d) (al_byId s) = Some i) by (apply Hs; rewrite Ho; by apply H0).
  assert (E : alias_target s d = mkAliasing (al_out s) (al_byId s) (add_stats (al_stats (bump d s)) (mkAliasStats 0 0 0 1 0 0))).
  { unfold alias_target, upsert. cbn [bump al_byId al_out]. by rewrite Ei', Ho, Hq, Hd. }
  rewrite E. destruct (IH (mkAliasing (al_out s) (al_byId s) (add_stats (al_stats (bump d s)) (mkAliasStats 0 0 0 1 0 0)))) as (I1 & I2 & I3); [done|done|intros d' Hd'; apply Ht; by right|].
  split; [done|]. split; [rewrite I2|rewrite I3]; cbn; lia.
Qed.
End Alias.

(** The targets of an input that aliasing applies to. *)
Definition alias_input_targets (input : RelationAnswerAliasInput) : list TruthDocument :=
  match al_relations input, relationTruthDocumentsByEventId input with
  | Some rels, Some byEvent => if String.eqb (al_family input) "multi_hop_relation" then alias_targets byEvent rels else []
  | _, _ => []
  end.

Lemma alias_run qrels input : addRelationAnswerAliasQrels qrels input =
  let s := fold_left (alias_target (answer_texts (al_truthDocuments input))) (alias_input_targets input) (alias_start qrels) in (al_out s, al_stats s).
Proof.
  unfold addRelationAnswerAliasQrels, alias_input_targets. destruct (al_relations input) as [[|rel rels]|]; [|destruct (relationTruthDocumentsByEventId input) as [byEvent|]; [|done]|done].
  - destruct (relationTruthDocumentsByEventId input); [|done]. by destruct (String.eqb _ _).
  - destruct (String.eqb _ _); cbn [negb]; [|done]. cbv zeta. by rewrite alias_fold.
Qed.

(** Aliasing enters the current truths of the relation targets, and only those: the given labels stay in place and only rise, new ones are distinct and new,
    every target ends with at least the label it deserves, the counters add up, and aliasing the result again changes nothing. *)
Theorem alias_contract qrels input : let texts := answer_texts (al_truthDocuments input) in let targets := alias_input_targets input in
  let '(out, st) := addRelationAnswerAliasQrels qrels input in
  (exists old new, out = old ++ new /\ Forall2 raised qrels old /\ NoDup (map documentId new) /\ (forall q, q ∈ new -> documentId q ∉ map documentId qrels) /\ added st = Z.of_nat (length new))
  /\ (forall d, d ∈ targets -> exists q, q ∈ out /\ documentId q = td_id d /\ dlt (relevance q) (award texts d) = false)
  /\ (forall q, q ∈ out -> q ∈ qrels \/ exists d, d ∈ targets /\ td_id d = documentId q /\ award texts d = relevance q)
  /\ candidateTruthDocs st = Z.of_nat (length targets) /\ added st + upgraded st + duplicates st = candidateTruthDocs st /\ fullCredit st + partialCredit st = candidateTruthDocs st
  /\ exists st', addRelationAnswerAliasQrels out input = (out, st') /\ added st' = 0 /\ upgraded st' = 0.
Proof.
  cbv zeta. rewrite alias_run. cbv zeta. destruct (alias_all (answer_texts (al_truthDocuments input)) qrels (alias_input_targets input)) as [H1 H2 H3 H4 (C1 & C2 & C3)].
  set (s := fold_left _ _ _) in *. split; [exact H2|]. split; [|split; [exact H3|split; [done|split; [lia|split; [lia|]]]]].
  - intros d Hd. destruct (H4 d Hd) as (e & He & Hde). unfold label_of in He. destruct (jsmap_get (td_id d) (al_byId s)) as [i|] eqn:Ei; [|done]. cbn [mbind option_bind] in He. apply fmap_Some in He as (q & Hq & ->).
    apply H1 in Ei as [(q' & Hq' & Hid) _]. rewrite Hq in Hq'. injection Hq' as <-. exists q. split; [by eapply list_elem_of_lookup_2|done].
  - rewrite alias_run. cbv zeta. destruct (alias_again (answer_texts (al_truthDocuments input)) (alias_input_targets input) s (alias_start (al_out s))) as (E1 & E2 & E3); [done|apply positions_positions|done|done|].
    rewrite E1. eexists. split; [reflexivity|]. by rewrite E2, E3.
Qed.
