(* ===== verification/QueryIntent.v ===== *)
(** * Reading queries (eval/retrieval-benchmark.ts)

    What the scorer reads off public text and metadata before it admits
    policy atoms: the intents a query's wording carries, its scope, its
    subjects and the motifs of memory events. None of it sees labels.

    The regular expressions of the source are values of [re], with their
    classes, repetitions over classes, alternatives and word boundaries; the
    matcher tries every way to match. Text is ASCII and lower case where the
    source lowers it. The per-corpus caches are the functions they cache; the
    cache of the aspect maps keeps those of the first generic ids it is given.

    Theorems: the matcher decides whether a match exists; subjects are never
    generic and never exceed the fan-out; a name matches exactly where it
    stands between boundaries; scope matching is agreement on every key the
    intent constrains. *)
From Stdlib Require Import Ascii.
From S2P Require Import Prelude JsSort StateTypes Float Codec Keccak Merkle Decoder Substrate SeedDerivation CanonicalJson CorpusRoot CorpusDelta HiddenPack FirstStage Metrics.
#[local] Open Scope Z_scope.

(** ** Members of events *)
Definition string_member (k : string) (e : ProductionCorpusEvent) : option string := match ev_member k e with JString s => Some s | _ => None end.
Definition strings_of (v : jsval) : list string := match v with JArray l => omap (fun x => match x with JString s => Some s | _ => None end) l | _ => [] end.
(** [event.entityIds ?? []] *)
Definition entityIds (e : ProductionCorpusEvent) : list string := strings_of (ev_member "entityIds" e).

Definition text_of (v : jsval) : string := match v with JString s => s | _ => "" end.
Definition relation_of (v : jsval) : RelationAnnotation :=
  mkRelation (text_of (prop "other_id" v)) (text_of (prop "edgeType" v)) (match prop "label" v with JString s => Some s | _ => None end).
Definition event_relations (e : ProductionCorpusEvent) : list RelationAnnotation := match ev_member "relations" e with JArray l => map relation_of l | _ => [] end.

(** ** Public scope *)
Definition PUBLIC_SCOPE_KEYS : list string := ["projectId"; "sessionId"; "topicId"; "taskId"; "userScopeId"]%string.

Definition publicScopeIntent (query : ProductionCorpusEvent) : option (list (string * string)) :=
  let raw := coalesce (ev_member "scope" query) (coalesce (ev_member "publicIntent" query) (JObject [])) in
  match omap (fun k => match prop k raw with JString "" => None | JString v => Some (k, v) | _ => None end) PUBLIC_SCOPE_KEYS with
  | [] => None
  | out => Some out
  end.

(** [k.replace(/Id$/, '')] *)
Definition drop_Id (k : string) : string :=
  let n := String.length k in
  if (2 <=? n)%nat && String.eqb (String.substring (n - 2) 2 k) "Id" then String.substring 0 (n - 2) k else k.

Definition scope_key (k : string) (scope : list (string * string)) : option string := jsmap_get k scope.

Definition scopeMatchPredicates (scope intent : option (list (string * string))) : list string :=
  match scope, intent with
  | Some s, Some i => omap (fun k => match scope_key k i with
      | Some v => if negb (String.eqb v "") && bool_decide (scope_key k s = Some v) then Some ("same_" +:+ drop_Id k)%string else None
      | None => None
      end) PUBLIC_SCOPE_KEYS
  | _, _ => []
  end.

(** The keys that the intent constrains. *)
Definition required_keys (intent : list (string * string)) : list (string * string) :=
  omap (fun k => match scope_key k intent with Some v => if String.eqb v "" then None else Some (k, v) | None => None end) PUBLIC_SCOPE_KEYS.

Definition scopeMatches (scope intent : option (list (string * string))) : bool :=
  match scope, intent with
  | Some s, Some i => forallb (fun e => bool_decide (scope_key e.1 s = Some e.2)) (required_keys i) && (0 <? length (required_keys i))%nat
  | _, _ => false
  end.

Definition scopeDiffers (scope intent : option (list (string * string))) : bool :=
  match scope, intent with
  | Some s, Some i => existsb (fun e => match scope_key e.1 s with Some v => negb (String.eqb v e.2) | None => false end) (required_keys i)
  | _, _ => false
  end.

Definition lowerList (xs : option (list string)) : list string := map toLowerCase (filter (fun x => x <> EmptyString) (default [] xs)).

(** ** Query subjects *)
Record RegistryEntity := mkEntity { re_id : string; names : list string; re_roleAliases : list string }.

Definition buildPolicyEntityRegistry (corpus : ProductionCorpus) : list RegistryEntity * list string :=
  let nonempty l := lowerList (Some l) in
  let registry := map (fun e => mkEntity (text_of (prop "id" e))
      (nonempty (strings_of (JArray [prop "canonicalName" e]) ++ strings_of (prop "aliases" e))) (nonempty (strings_of (prop "roleAliases" e)))) (default [] (entities corpus)) in
  let owners := fold_left (fun s ev => match string_member "ownerEntityId" ev with Some o => if String.eqb o "" then s else jsset_add o s | None => s end) (events corpus) [] in
  (registry, filter (fun id => id ∈ owners) (map re_id registry)).

Definition POLICY_MAX_SELECTOR_FANOUT : Z := 4.

(** A character that may stand next to a name: [[^a-z0-9]] with the case ignored. *)
Definition name_boundary (c : ascii) : bool := negb (is_word_char (lower_ascii c)).
(** The name, with the case ignored, and then a boundary or the end. *)
Fixpoint name_at (name l : list ascii) : bool :=
  match name, l with
  | [], [] => true
  | [], c :: _ => name_boundary c
  | a :: name', c :: l' => Ascii.eqb (lower_ascii a) (lower_ascii c) && name_at name' l'
  | _ :: _, [] => false
  end.
Fixpoint name_after_boundary (name l : list ascii) : bool :=
  match l with
  | [] => false
  | c :: l' => name_boundary c && name_at name l' || name_after_boundary name l'
  end.
Definition nameMatchesQuery (qtextLower name : string) : bool :=
  let n := String.list_ascii_of_string name in
  let q := String.list_ascii_of_string qtextLower in
  name_at n q || name_after_boundary n q.

Definition resolveQuerySubjects (queryText subjectEntityId : option string) (registry : option (list RegistryEntity)) (genericEntityIds : option (list string)) (maxFanout : Z) : list string :=
  let generic := default [] genericEntityIds in
  let explicit := match subjectEntityId with Some s => negb (String.eqb s "") && bool_decide (s ∉ generic) | None => false end in
  if explicit then [default EmptyString subjectEntityId]
  else
    let qt := toLowerCase (default EmptyString queryText) in
    let matched := map re_id (filter (fun ent => re_id ent ∉ generic /\ existsb (fun n => negb (String.eqb n "") && nameMatchesQuery qt n) (names ent) = true) (default [] registry)) in
    if (0 <? Z.of_nat (length matched)) && (Z.of_nat (length matched) <=? maxFanout) then fold_left (fun s id => jsset_add id s) matched [] else [].

Definition queryRoleAliasPredicates (query : ProductionCorpusEvent) (registry : option (list RegistryEntity)) : list string :=
  let explicit := match prop "roleAlias" (ev_member "publicIntent" query) with JString s => if String.eqb s "" then [] else [toLowerCase s] | _ => [] end in
  let q := toLowerCase (queryText query) in
  let out := fold_left (fun out ent => fold_left (fun out role =>
      if negb (String.eqb role "") && nameMatchesQuery q (toLowerCase role) then jsset_add (toLowerCase role) out else out) (re_roleAliases ent) out) (default [] registry) explicit in
  stableSort out string_cmp.

Definition eventRoleAliases (ev : ProductionCorpusEvent) (registry : option (list RegistryEntity)) : list string :=
  let roles := fold_left (fun s x => jsset_add x s) (lowerList (Some (strings_of (ev_member "roleAliases" ev)))) [] in
  let byEntity := fold_left (fun m e => jsmap_set (re_id e) e m) (default [] registry) [] in
  fold_left (fun roles id => match jsmap_get id byEntity with Some e => fold_left (fun s r => jsset_add (toLowerCase r) s) (re_roleAliases e) roles | None => roles end) (entityIds ev) roles.

(** ** Regular expressions *)
Inductive re :=
| Eps
| Chr (p : ascii -> bool)
| Many (p : ascii -> bool)
| Cat (r s : re)
| Alt (r s : re)
| WordB.

Definition is_w (c : ascii) : bool :=
  let n := Ascii.nat_of_ascii c in ((97 <=? n) && (n <=? 122) || (65 <=? n) && (n <=? 90) || (48 <=? n) && (n <=? 57) || (n =? 95))%nat.
Definition w_of (o : option ascii) : bool := match o with Some c => is_w c | None => false end.
(** [\b] between the previous character and the rest. *)
Definition at_boundary (prev : option ascii) (l : list ascii) : bool := xorb (w_of prev) (w_of (head l)).

Fixpoint many (p : ascii -> bool) (prev : option ascii) (l : list ascii) (k : option ascii -> list ascii -> bool) : bool :=
  k prev l || match l with c :: l' => p c && many p (Some c) l' k | [] => false end.

(** Does some match of [r] from here leave a rest that [k] accepts? *)
Fixpoint matches (r : re) (prev : option ascii) (l : list ascii) (k : option ascii -> list ascii -> bool) : bool :=
  match r with
  | Eps => k prev l
  | Chr p => match l with c :: l' => p c && k (Some c) l' | [] => false end
  | Many p => many p prev l k
  | Cat r s => matches r prev l (fun prev' l' => matches s prev' l' k)
  | Alt r s => matches r prev l k || matches s prev l k
  | WordB => at_boundary prev l && k prev l
  end.

Fixpoint test_from (r : re) (prev : option ascii) (l : list ascii) : bool :=
  matches r prev l (fun _ _ => true) || match l with c :: l' => test_from r (Some c) l' | [] => false end.
(** [/r/.test(s)] *)
Definition test (r : re) (s : string) : bool := test_from r None (String.list_ascii_of_string s).

Definition is_char (c d : ascii) : bool := Ascii.eqb c d.
Fixpoint lit_chars (l : list ascii) : re := match l with [] => Eps | [c] => Chr (is_char c) | c :: l' => Cat (Chr (is_char c)) (lit_chars l') end.
Definition lit (s : string) : re := lit_chars (String.list_ascii_of_string s).
Fixpoint alts (l : list string) : re := match l with [] => Eps | [s] => lit s | s :: l' => Alt (lit s) (alts l') end.
Definition opt (r : re) : re := Alt r Eps.
Definition cats (l : list re) : re := foldr Cat Eps l.
Definition some_of (p : ascii -> bool) : re := Cat (Chr p) (Many p).
(** [\b(?:...)\b] *)
Definition words (l : list string) : re := cats [WordB; alts l; WordB].
Definition any_but_newline (c : ascii) : bool := let n := Ascii.nat_of_ascii c in negb ((n =? 10) || (n =? 13))%nat.

(** ** Intents *)
Definition singleTokenRole : list string := ["pastry chef"; "chef"; "accountant"; "engineer"; "teacher"; "nurse"; "doctor"; "lawyer"; "attorney"; "illustrator"; "biologist"; "artist"; "writer"; "baker"; "barista"; "dentist"; "pilot"; "plumber"; "painter"; "architect"; "designer"; "analyst"; "scientist"; "professor"; "musician"; "photographer"; "electrician"; "carpenter"; "mechanic"; "chemist"; "surgeon"; "therapist"; "consultant"; "developer"; "programmer"; "administrator"; "technician"; "researcher"; "journalist"; "editor"; "director"; "founder"; "owner"; "clerk"; "cashier"; "waiter"; "waitress"; "bartender"; "farmer"; "gardener"; "tailor"; "jeweler"; "optician"; "veterinarian"; "pharmacist"; "librarian"; "translator"; "interpreter"]%string.
Definition multiTokenRole : list string := ["er nurse"; "tax attorney"; "data analyst"; "ux designer"; "civil engineer"; "physical therapist"; "product manager"; "graphic illustrator"; "marine biologist"; "software engineer"; "data scientist"; "systems engineer"; "operations manager"; "account manager"; "nurse practitioner"; "physician assistant"]%string.

(** The cues, in the order of the source, each with the edge type it adds. *)
Definition relation_cues : list (re * string) :=
  [ (words ["why"], "causes");
    (cats [WordB; lit "how"; WordB; Many (fun c => negb (is_char "?" c)); WordB; alts ["resolv"; "fix"; "address"; "mitigat"; "debug"; "patch"]], "causes");
    (words ["caused"; "because of"; "reason for"; "root cause"; "led to"; "due to"], "causes");
    (cats [WordB; Alt (alts ["depend"; "depends on"; "rely"; "relies on"; "built on"; "runs on"; "backed by"; "datastore"]) (cats [lit "use"; opt (lit "s"); WordB]); WordB], "supports");
    (words ["sibling"; "colleague"; "teammate"; "mentor"; "the job of"; "works with"; "reports to"], "supports");
    (cats [lit "'s"; some_of is_js_space; Alt (alts ["manager"; "partner"; "parent"; "spouse"; "friend"; "boss"; "assistant"; "roommate"]) (cats [lit "neighbo"; opt (lit "u"); lit "r"]); WordB], "supports");
    (cats [WordB; Alt (alts ["derived from"; "based on"; "forked from"; "comes from"; "adapted from"]) (cats [lit "originate"; opt (lit "s"); lit " from"]); WordB], "derived_from");
    (cats [WordB; lit "the "; alts singleTokenRole; WordB], "coreference_of");
    (cats [WordB; lit "the "; alts multiTokenRole; WordB], "coreference_of") ]%string.

Definition parseQueryRelationIntent (queryText : string) : list string :=
  let q := toLowerCase queryText in
  fold_left (fun types cue => if test cue.1 q then jsset_add cue.2 types else types) relation_cues [].

(** The captured aspect of [what (?:is|are) the ([a-z0-9 _-]+?) (?:detail|...)\b]: the shortest one at the leftmost place. *)
Definition aspect_char (c : ascii) : bool := is_word_char c || is_char " " c || is_char "_" c || is_char "-" c.
Definition aspect_tail : re := cats [lit " "; alts ["detail"; "note"; "setting"; "value"; "config"; "spec"]; WordB].

Fixpoint shortest_aspect (taken : list ascii) (prev : option ascii) (l : list ascii) : option (list ascii) :=
  if negb (length taken =? 0)%nat && matches aspect_tail prev l (fun _ _ => true) then Some (rev taken)
  else match l with c :: l' => if aspect_char c then shortest_aspect (c :: taken) (Some c) l' else None | [] => None end.

(** The rest behind a literal, with the last character. *)
Definition after_literal (s : string) (l : list ascii) : option (list ascii) :=
  let k := String.list_ascii_of_string s in if bool_decide (take (length k) l = k) then Some (drop (length k) l) else None.
Definition aspect_at (l : list ascii) : option (list ascii) :=
  match (match after_literal "what is the " l with Some r => Some r | None => after_literal "what are the " l end) with
  | Some r => shortest_aspect [] (Some " "%char) r
  | None => None
  end.
Fixpoint find_aspect (l : list ascii) : option (list ascii) :=
  match aspect_at l with Some a => Some a | None => match l with [] => None | _ :: l' => find_aspect l' end end.

Definition parseQueryAspectIntent (queryText : string) : option string :=
  match find_aspect (String.list_ascii_of_string (toLowerCase queryText)) with
  | None => None
  | Some m => match js_trim m with [] => None | a => Some (String.string_of_list_ascii a) end
  end.

Inductive LifecycleIntent := intent_supersedes | intent_coreference_of.
Definition lifecycle_cues : list (re * LifecycleIntent) :=
  [ (words ["replaced"; "superseded"; "supersedes"; "retired"], intent_supersedes);
    (cats [alts ["what"; "which"]; lit " "; opt (lit "is the "); alts ["new"; "current"]; lit " "; some_of (fun c => (97 <=? Ascii.nat_of_ascii c)%nat && (Ascii.nat_of_ascii c <=? 122)%nat || is_char " " c);
       lit " "; alts ["after"; "since"; "now that"]; lit " "; opt (lit "the "); alts ["old"; "previous"; "prior"]], intent_supersedes);
    (words ["canonical"; "alias"; "aliases"; "also known as"; "aka"], intent_coreference_of);
    (cats [words ["which name"; "what name"]; Many any_but_newline; words ["refer"; "same entity"; "same person"; "same project"]], intent_coreference_of);
    (words ["rename"; "renamed"; "formerly known as"; "previously known as"], intent_coreference_of) ]%string.

Definition parseQueryLifecycleIntent (queryText : string) : option LifecycleIntent :=
  let t := toLowerCase queryText in
  match filter (fun cue => test cue.1 t = true) lifecycle_cues with [] => None | cue :: _ => Some cue.2 end.

Definition isConflictCurrentLike (ev : ProductionCorpusEvent) : bool :=
  let t := toLowerCase (queryText ev +:+ " " +:+ join_with " " (map td_text (truthDocuments ev)))%string in
  if test (words ["previously"; "prior"; "once"; "formerly"; "old value"; "prior value"]%string) t then false
  else if test (words ["current"; "currently"; "now"; "as of"; "replacing"; "replaced"; "switched from"; "is now"; "current value"]%string) t then true
  else test (words ["runs"; "uses"; "stays"; "keeps"]%string) t && negb (test (words ["ran"; "was"]%string) t).

(** *** Motifs *)
Inductive ValidityRole := role_current | role_superseded.
(** A member that is a non-empty string. *)
Definition truthy_text (v : jsval) : bool := match v with JString s => negb (String.eqb s "") | _ => false end.

Definition temporalValidityRole (event : ProductionCorpusEvent) : ValidityRole :=
  let validity := ev_member "validity" event in
  if truthy_text (prop "validUntil" validity) || truthy_text (prop "supersededBy" validity) then role_superseded else role_current.

Definition nul : string := String (Ascii.ascii_of_nat 0) "".
Definition motif_key (a b : string) : string := (a +:+ nul +:+ b)%string.
Definition event_id_cmp (a b : ProductionCorpusEvent) : Z := string_cmp (ev_id a) (ev_id b).

Definition getOrBuildValidityMotifIndex (corpus : ProductionCorpus) : list (string * list ProductionCorpusEvent) :=
  let index := fold_left (fun index ev =>
      if negb (isMemoryDocumentEventId (ev_id ev)) then index
      else
        let validity := ev_member "validity" ev in
        match prop "subjectEntityId" validity, prop "attribute" validity with
        | JString subject, JString attribute =>
          if String.eqb subject "" || String.eqb attribute "" then index
          else
            let key := motif_key attribute subject in
            jsmap_set key (default [] (jsmap_get key index) ++ [ev]) index
        | _, _ => index
        end) (events corpus) [] in
  map (fun e => (e.1, stableSort e.2 event_id_cmp)) index.

(** [.replace(/[^a-z0-9]+/g, '_')] on lower-case text: runs of other characters become one underscore. *)
Fixpoint squash (l : list ascii) : list ascii :=
  match l with
  | [] => []
  | c :: l' =>
    if is_word_char c then c :: squash l'
    else match l' with
    | c' :: _ => if is_word_char c' then "_"%char :: squash l' else squash l'
    | [] => ["_"%char]
    end
  end.
Fixpoint drop_underscores (l : list ascii) : list ascii := match l with c :: l' => if Ascii.eqb c "_" then drop_underscores l' else l | [] => [] end.

Definition normalizeScopeClass (value : option string) : option string :=
  let s := rev (drop_underscores (rev (drop_underscores (squash (String.list_ascii_of_string (toLowerCase (default EmptyString value))))))) in
  match s with [] => None | _ => Some (String.string_of_list_ascii s) end.

(** The text of [/^for\s+([^,]+),/], between the spaces after [for] and the first comma. *)
Fixpoint before_comma (l : list ascii) : option (list ascii) :=
  match l with [] => None | c :: l' => if Ascii.eqb c "," then Some [] else cons c <$> before_comma l' end.
Definition for_clause (queryText : string) : option string :=
  match String.list_ascii_of_string (toLowerCase queryText) with
  | f :: o :: r :: sp :: rest =>
    if Ascii.eqb f "f" && Ascii.eqb o "o" && Ascii.eqb r "r" && is_js_space sp then
      t ← before_comma rest;
      match trim_start t with
      | [] => (fun c => String c "") <$> last t
      | t' => Some (String.string_of_list_ascii t')
      end
    else None
  | _ => None
  end.

Definition parseQueryConflictIntent (queryText : string) (entityNames : list string) : bool :=
  match for_clause queryText with
  | None => false
  | Some m => bool_decide (String.string_of_list_ascii (js_trim (String.list_ascii_of_string m)) ∉ entityNames)
  end.

Definition conflictScopeClassForQuery (queryText : string) : option string := normalizeScopeClass (for_clause queryText).

Definition endsWith (suffix s : string) : bool :=
  let n := String.length s in let k := String.length suffix in (k <=? n)%nat && String.eqb (String.substring (n - k) k s) suffix.

(** The values of the scope object. *)
Definition scope_values (ev : ProductionCorpusEvent) : list (option string) :=
  match ev_member "scope" ev with JObject fields => map (fun e => match e.2 with JString s => Some s | _ => None end) fields | _ => [] end.

Definition eventScopeMatchesClass (ev : ProductionCorpusEvent) (scopeClass : string) : bool :=
  existsb (fun v => match normalizeScopeClass v with
    | None => false
    | Some norm => String.eqb norm scopeClass || endsWith ("_" +:+ scopeClass)%string norm || includes ("_" +:+ scopeClass +:+ "_")%string norm
    end) (scope_values ev).

Definition eventCarriesConflictMotif (ev : ProductionCorpusEvent) : bool :=
  match prop "topicId" (ev_member "scope" ev) with JString s => String.eqb s "topic_lifecycle_conflict" | _ => false end
  || existsb (fun rel => bool_decide (label rel = Some "contradicts"%string)
       || String.eqb (edgeType rel) "co_occurs_with" && includes "contradict" (toLowerCase (default EmptyString (label rel)))) (event_relations ev).

(** [parts.slice(i).join('_')] for every [i]. *)
Fixpoint suffixes_after (l : list ascii) : list (list ascii) :=
  match l with [] => [] | c :: l' => if Ascii.eqb c "_" then l' :: suffixes_after l' else suffixes_after l' end.
Definition class_suffixes (norm : string) : list string :=
  let l := String.list_ascii_of_string norm in map String.string_of_list_ascii (l :: suffixes_after l).

Definition add_conflict (ev : ProductionCorpusEvent) (subject : string) (index : list (string * list ProductionCorpusEvent)) (suffix : string) : list (string * list ProductionCorpusEvent) :=
  if String.eqb suffix "" || String.eqb suffix "primary" || String.eqb suffix "lifecycle_conflict" || negb (eventScopeMatchesClass ev suffix) then index
  else
    let key := motif_key subject suffix in
    match jsmap_get key index with
    | Some list => if existsb (fun x => String.eqb (ev_id x) (ev_id ev)) list then index else jsmap_set key (list ++ [ev]) index
    | None => jsmap_set key [ev] index
    end.

Definition getOrBuildConflictMotifIndex (corpus : ProductionCorpus) : list (string * list ProductionCorpusEvent) :=
  let index := fold_left (fun index ev =>
      if negb (isMemoryDocumentEventId (ev_id ev)) || negb (eventCarriesConflictMotif ev) then index
      else
        let subjects := filter (fun id => id <> "e_universe"%string) (entityIds ev) in
        fold_left (fun index subject => fold_left (fun index v =>
            match normalizeScopeClass v with
            | None => index
            | Some norm => fold_left (add_conflict ev subject) (class_suffixes norm) index
            end) (scope_values ev) index) subjects index) (events corpus) [] in
  map (fun e => (e.1, stableSort e.2 event_id_cmp)) index.

(** The public aspect tags and the subject of every memory document. *)
Definition getPublicAspectMaps (corpus : ProductionCorpus) (genericEntityIds : option (list string)) : list (string * list string) * list (string * string) :=
  let generic := default [] genericEntityIds in
  fold_left (fun maps ev =>
    if negb (isMemoryDocumentEventId (ev_id ev)) then maps
    else
      let subj := head (filter (fun e => e ∉ generic) (entityIds ev)) in
      fold_left (fun '(aspectByDoc, subjectByDoc) td =>
        (match td_aspectTags td with
         | Some (t :: ts) => jsmap_set (td_id td) (fold_left (fun s x => jsset_add x s) (map toLowerCase (t :: ts)) []) aspectByDoc
         | _ => aspectByDoc
         end,
         match subj with Some s => if String.eqb s "" then subjectByDoc else jsmap_set (td_id td) s subjectByDoc | None => subjectByDoc end)) (truthDocuments ev) maps)
    (events corpus) ([], []).

(** ** The matcher finds a match when there is one *)
(** [run r p l p' l']: [r] matches at the start of [l], after the character [p], and leaves [l'], after [p']. *)
Inductive run : re -> option ascii -> list ascii -> option ascii -> list ascii -> Prop :=
| run_Eps p l : run Eps p l p l
| run_Chr (f : ascii -> bool) p c l : f c = true -> run (Chr f) p (c :: l) (Some c) l
| run_Many_stop (f : ascii -> bool) p l : run (Many f) p l p l
| run_Many_more (f : ascii -> bool) p c l p' l' : f c = true -> run (Many f) (Some c) l p' l' -> run (Many f) p (c :: l) p' l'
| run_Cat r s p l p1 l1 p2 l2 : run r p l p1 l1 -> run s p1 l1 p2 l2 -> run (Cat r s) p l p2 l2
| run_Alt_l r s p l p' l' : run r p l p' l' -> run (Alt r s) p l p' l'
| run_Alt_r r s p l p' l' : run s p l p' l' -> run (Alt r s) p l p' l'
| run_WordB p l : at_boundary p l = true -> run WordB p l p l.

Lemma many_spec f p l k : many f p l k = true <-> exists p' l', run (Many f) p l p' l' /\ k p' l' = true.
Proof.
  revert p. induction l as [|c l IH]; intros p; cbn [many]; rewrite orb_true_iff.
  - split; [intros [H|H]; [|done]; exists p, []; split; [constructor|done]|]. intros (p' & l' & H & Hk). left. by inversion H; subst.
  - rewrite andb_true_iff, IH. split.
    + intros [H|[Hc (p' & l' & H & Hk)]]; [exists p, (c :: l); split; [constructor|done]|]. exists p', l'. split; [by apply run_Many_more|done].
    + intros (p' & l' & H & Hk). inversion H; subst; [by left|right]. split; [done|]. by exists p', l'.
Qed.

Lemma matches_spec r p l k : matches r p l k = true <-> exists p' l', run r p l p' l' /\ k p' l' = true.
Proof.
  revert p l k. induction r as [|f|f|r IHr s IHs|r IHr s IHs|]; intros p l k; cbn [matches].
  - split; [intros H; exists p, l; split; [constructor|done]|]. intros (p' & l' & H & Hk). by inversion H; subst.
  - destruct l as [|c l]; [split; [done|]; intros (p' & l' & H & _); inversion H|]. rewrite andb_true_iff. split; [intros [H Hk]; exists (Some c), l; split; [by constructor|done]|].
    intros (p' & l' & H & Hk). by inversion H; subst.
  - apply many_spec.
  - rewrite IHr. setoid_rewrite IHs. split.
    + intros (p1 & l1 & H1 & p2 & l2 & H2 & Hk). exists p2, l2. split; [by eapply run_Cat|done].
    + intros (p2 & l2 & H & Hk). inversion H; subst. by eexists _, _; split; [eassumption|]; exists p2, l2.
  - rewrite orb_true_iff, IHr, IHs. split.
    + intros [(p' & l' & H & Hk)|(p' & l' & H & Hk)]; exists p', l'; (split; [|done]); [by apply run_Alt_l|by apply run_Alt_r].
    + intros (p' & l' & H & Hk). inversion H; subst; [left|right]; by exists p', l'.
  - rewrite andb_true_iff. split; [intros [H Hk]; exists p, l; split; [by constructor|done]|]. intros (p' & l' & H & Hk). by inversion H; subst.
Qed.

(** The character before the rest of a text. *)
Definition prev_of (p : option ascii) (pre : list ascii) : option ascii := match last pre with Some c => Some c | None => p end.

Lemma prev_of_cons p c pre : prev_of (Some c) pre = prev_of p (c :: pre).
Proof. unfold prev_of. rewrite last_cons. by destruct (last pre). Qed.

Lemma test_from_spec r p l : test_from r p l = true <-> exists pre suf p' l', l = pre ++ suf /\ run r (prev_of p pre) suf p' l'.
Proof.
  revert p. induction l as [|c l IH]; intros p; cbn [test_from]; rewrite orb_true_iff, matches_spec.
  - split.
    + intros [(p' & l' & H & _)|H]; [|done]. by exists [], [], p', l'.
    + intros (pre & suf & p' & l' & E & H). symmetry in E. apply app_eq_nil in E as [-> ->]. left. by exists p', l'.
  - rewrite IH. split.
    + intros [(p' & l' & H & _)|(pre & suf & p' & l' & -> & H)]; [by exists [], (c :: l), p', l'|]. exists (c :: pre), suf, p', l'. split; [done|]. by rewrite <- prev_of_cons.
    + intros (pre & suf & p' & l' & E & H). destruct pre as [|d pre]; [cbn in E; subst suf; left; by exists p', l'|]. injection E as -> ->. right. exists pre, suf, p', l'. split; [done|]. by rewrite (prev_of_cons p).
Qed.

(** A test succeeds exactly when the expression matches somewhere in the text. *)
Lemma test_spec r s : test r s = true <-> exists pre suf p' l', String.list_ascii_of_string s = pre ++ suf /\ run r (last pre) suf p' l'.
Proof. unfold test. rewrite test_from_spec. split; intros (pre & suf & p' & l' & E & H); exists pre, suf, p', l'; (split; [done|]); unfold prev_of in *; by destruct (last pre). Qed.

(** ** Names *)
(** [name] stands at the start of [l], before a boundary. *)
Definition stands_at (name l : list ascii) : Prop :=
  exists name' post, l = name' ++ post /\ map lower_ascii name' = map lower_ascii name /\ (post = [] \/ exists c post', post = c :: post' /\ name_boundary c = true).

Lemma name_at_spec name l : name_at name l = true <-> stands_at name l.
Proof.
  unfold stands_at. revert l. induction name as [|a name IH]; intros l; cbn [name_at].
  - destruct l as [|c l]; (split; [intros H|]); [by exists [], []; repeat split; left|done|exists [], (c :: l); repeat split; right; by exists c, l|].
    intros (name' & post & E & Hn & Hp). apply map_eq_nil in Hn as ->. cbn in E. subst post. destruct Hp as [?|(c' & post' & [= -> ->] & ?)]; done.
  - destruct l as [|c l].
    + split; [done|]. intros (name' & post & E & Hn & _). symmetry in E. by apply app_eq_nil in E as [-> _].
    + rewrite andb_true_iff, IH. split.
      * intros [Hc%Ascii.eqb_eq (name' & post & -> & Hn & Hp)]. exists (c :: name'), post. repeat split; [|done]. cbn. by rewrite Hc, Hn.
      * intros (name' & post & E & Hn & Hp). destruct name' as [|c' name']; [done|]. injection E as <- ->. cbn in Hn. injection Hn as Hc Hn. split; [by apply Ascii.eqb_eq|]. by exists name', post.
Qed.

Lemma name_after_boundary_spec name l : name_after_boundary name l = true <-> exists pre c l', l = pre ++ c :: l' /\ name_boundary c = true /\ stands_at name l'.
Proof.
  induction l as [|d l IH]; cbn [name_after_boundary]; [split; [done|]; by intros ([|] & c & l' & E & _)|]. rewrite orb_true_iff, andb_true_iff, name_at_spec, IH. split.
  - intros [[Hb Hs]|(pre & c & l' & -> & Hb & Hs)]; [by exists [], d, l|by exists (d :: pre), c, l'].
  - intros (pre & c & l' & E & Hb & Hs). destruct pre as [|d' pre]; injection E as -> ->; [by left|right]. by exists pre, c, l'.
Qed.

(** A name matches a query exactly where it stands, case aside, between boundaries or the ends of the text. *)
Theorem nameMatchesQuery_spec q name : nameMatchesQuery q name = true <->
  exists pre suf, String.list_ascii_of_string q = pre ++ suf /\ stands_at (String.list_ascii_of_string name) suf /\ (pre = [] \/ exists c, last pre = Some c /\ name_boundary c = true).
Proof.
  unfold nameMatchesQuery. rewrite orb_true_iff, name_at_spec, name_after_boundary_spec. split.
  - intros [H|(pre & c & l' & E & Hb & Hs)]; [exists [], (String.list_ascii_of_string q); repeat split; [done|by left]|].
    exists (pre ++ [c]), l'. rewrite <- app_assoc. repeat split; [done|done|]. right. exists c. by rewrite last_snoc.
  - intros (pre & suf & E & Hs & [->|(c & Hl & Hb)]); [left; by rewrite E|right]. apply last_Some in Hl as [pre' ->]. rewrite <- app_assoc in E. by exists pre', c, suf.
Qed.

(** ** Subjects *)
(** The registry entities that the text of a query names. *)
Definition named (queryText : option string) (registry : option (list RegistryEntity)) (generic : list string) : list string :=
  map re_id (filter (fun ent => re_id ent ∉ generic /\ existsb (fun n => negb (String.eqb n "") && nameMatchesQuery (toLowerCase (default EmptyString queryText)) n) (names ent) = true) (default [] registry)).

Lemma subject_set (l : list string) : NoDup (fold_left (fun s id => jsset_add id s) l []) /\ (forall x, x ∈ fold_left (fun s id => jsset_add id s) l [] <-> x ∈ l)
  /\ (length (fold_left (fun s id => jsset_add id s) l []) <= length l)%nat.
Proof.
  destruct (distinct_tokens l) as [H1 H2]. split; [done|]. split; [done|]. assert (H : forall s, (length (fold_left (fun (s : list string) id => jsset_add id s) l s) <= length l + length s)%nat); [|specialize (H []); cbn in H; lia].
  clear. induction l as [|x l IH]; intros s; [done|]. cbn [fold_left length]. specialize (IH (jsset_add x s)). unfold jsset_add in *. destruct (decide (x ∈ s)); [lia|]. rewrite length_app in IH. cbn in IH. lia.
Qed.

(** The subjects of a query are distinct, never generic, and at most as many as the fan-out; a public subject decides alone, otherwise they are exactly the entities the
    text names, and none when these are too many. *)
Theorem resolveQuerySubjects_grounded queryText subject registry generic maxFanout : let out := resolveQuerySubjects queryText subject registry generic maxFanout in
  NoDup out /\ (forall s, s ∈ out -> s ∉ default [] generic) /\ Z.of_nat (length out) <= Z.max 1 maxFanout
  /\ (forall s, subject = Some s -> s <> EmptyString -> s ∉ default [] generic -> out = [s])
  /\ ((forall s, subject = Some s -> s = EmptyString \/ s ∈ default [] generic) ->
      let m := named queryText registry (default [] generic) in
      (Z.of_nat (length m) <= maxFanout -> forall s, s ∈ out <-> s ∈ m) /\ (maxFanout < Z.of_nat (length m) -> out = [])).
Proof.
  intros out. unfold out, resolveQuerySubjects. cbv zeta. fold (named queryText registry (default [] generic)). set (m := named _ _ _).
  destruct (match subject with Some s => negb (String.eqb s "") && bool_decide (s ∉ default [] generic) | None => false end) eqn:E.
  - destruct subject as [s|]; [|done]. apply andb_true_iff in E as [E1%negb_true_iff%String.eqb_neq E2%bool_decide_eq_true]. cbn [default from_option id].
    split; [apply NoDup_singleton|]. split; [by intros s' ->%list_elem_of_singleton|]. split; [cbn; lia|]. split; [by intros s' [= <-]|]. intros H. destruct (H s eq_refl); done.
  - assert (Hnot : forall s, subject = Some s -> s <> EmptyString -> s ∉ default [] generic -> False).
    { intros s -> H1 H2. rewrite (proj2 (String.eqb_neq _ _) H1), bool_decide_eq_true_2 in E by done. done. }
    destruct (subject_set m) as (S1 & S2 & S3). assert (Hm : forall s, s ∈ m -> s ∉ default [] generic) by (intros s (e & -> & [[He _] _]%list_elem_of_filter)%list_elem_of_fmap; done).
    destruct ((0 <? Z.of_nat (length m)) && (Z.of_nat (length m) <=? maxFanout)) eqn:B.
    + apply andb_true_iff in B as [B1%Z.ltb_lt B2%Z.leb_le]. split; [done|]. split; [intros s Hs; by apply Hm, S2|]. split; [lia|]. split; [intros s Hs H1 H2; by destruct (Hnot s)|]. intros _. split; [intros _; exact S2|lia].
    + split; [constructor|]. split; [set_solver|]. split; [cbn; lia|]. split; [intros s Hs H1 H2; by destruct (Hnot s)|]. intros _. split; [|done]. intros Hle s. split; [set_solver|]. intros Hs.
      exfalso. apply andb_false_iff in B as [B%Z.ltb_ge|B%Z.leb_gt]; [|lia]. destruct m; [by apply not_elem_of_nil in Hs|cbn in B; lia].
Qed.

(** ** Scope *)
Lemma required_keys_elem intent e : e ∈ required_keys intent <-> e.1 ∈ PUBLIC_SCOPE_KEYS /\ scope_key e.1 intent = Some e.2 /\ e.2 <> EmptyString.
Proof.
  unfold required_keys. rewrite list_elem_of_omap. split.
  - intros (k & Hk & H). destruct (scope_key k intent) as [v|] eqn:Ev; [|done]. destruct (String.eqb_spec v ""); [done|]. by injection H as <-.
  - intros (H1 & H2 & H3). exists e.1. split; [done|]. rewrite H2. destruct (String.eqb_spec e.2 ""); [done|]. by destruct e.
Qed.

(** Scopes match when the intent constrains some key and the scope agrees on every constrained one; then they do not differ. *)
Theorem scopeMatches_spec scope intent : scopeMatches (Some scope) (Some intent) = true <->
  (exists e, e ∈ required_keys intent) /\ (forall e, e ∈ required_keys intent -> scope_key e.1 scope = Some e.2).
Proof.
  unfold scopeMatches. rewrite andb_true_iff, forallb_forall, Nat.ltb_lt. setoid_rewrite bool_decide_eq_true. split.
  - intros [H1 H2]. split; [destruct (required_keys intent) as [|e l]; [cbn in H2; lia|exists e; by left]|]. intros e He. by apply H1, list_elem_of_In.
  - intros [(e & He) H2]. split; [intros e' He'%list_elem_of_In; by apply H2|]. destruct (required_keys intent); [by apply not_elem_of_nil in He|cbn; lia].
Qed.

Lemma scopeMatches_not_differs scope intent : scopeMatches scope intent = true -> scopeDiffers scope intent = false.
Proof.
  destruct scope as [s|], intent as [i|]; try done. intros [_ H]%scopeMatches_spec. unfold scopeDiffers. apply not_true_is_false. rewrite existsb_exists. intros (e & He%list_elem_of_In & Hd).
  rewrite (H e He), String.eqb_refl in Hd. done.
Qed.
