(* ===== verification/CandidatePool.v ===== *)
(** * The candidates of a query (eval/retrieval-benchmark.ts)

    The first half of [scoreSubstrateAgainstQuery]: which documents a query is
    ranked over. Stage 1 searches the public index without the substrate;
    then the decoded substrate admits documents along anchors, relation
    edges, category lenses, temporal records and policy atoms. The pool is the
    source's [Map] from document ids to records, with the mechanisms that
    brought a document as its sources. The second half is [QueryRanking].

    Optional options are [option]s, options compared with [true] are booleans.
    Budgets, caps and slots are integers. The per-corpus caches are the
    functions they cache. A loop that leaves early on a budget is a recursion
    with the same test at the same place; the loops over hops run over the hop
    budget.

    Theorems: a pool holds documents of the corpus only, stage 1 is never
    lost, and each expansion keeps to its budget; a substrate without records
    adds nothing. *)
From Stdlib Require Import Ascii.
From stdpp Require Import pretty.
From S2P Require Import Prelude JsSort StateTypes Float Codec Keccak Merkle Decoder Substrate SeedDerivation CanonicalJson CorpusRoot CorpusDelta HiddenPack FirstStage Metrics QueryIntent.
#[local] Open Scope Z_scope.

(** ** Options *)
Record MemoryIR := mkIR {
  ir_lifecycle : option string;
  evidence_role : option string;
  relation_path : list string;
  conflict_state : option string;
  scope_match : option bool;
  has_public_evidence_path : bool;
  answer_density : option Z
}.

Record CompositeWeights := mkWeights { w_retrieval : number; w_temporal : number; w_relation_recall : number; w_abstention : number; w_structural_sanity : number }.

(** Stage 1 and the reranker's input. *)
Record StageOptions := mkStage {
  firstStageTopK : Z;
  firstStageMode : option FirstStageMode;
  firstStageDenseWeight : option number;
  firstStageLexicalWeight : option number;
  ownerScopeRestrict : bool;
  rerankerInputTopK : Z
}.

(** Routing over anchors, relations and category lenses; motif admission. *)
Record RoutingOptions := mkRouting {
  enableRawRoutingAnchors : option bool;
  enableRelationAnchorEdges : option bool;
  scopeRoutingAnchorsToQuerySubject : bool;
  relationHopBudget : Z;
  relationExpansionBudget : Z;
  opt_categoryLensExpansionBudget : option Z;
  traversal_forward : bool;
  categoryLensSeedTopK : option Z;
  categoryLensHopBudget : option Z;
  temporalMotifAdmission : bool;
  conflictMotifAdmission : bool;
  evidenceMotifAdmission : bool;
  opt_motifAdmissionMaxDocs : option Z;
  opt_motifAdmissionTopK : option Z
}.

Record BonusOptions := mkBonus {
  lensTopK : Z;
  lensWeight : number;
  anchorWeight : number;
  temporalCurrentBoost : number;
  temporalStaleSuppression : number;
  opt_categoryLensBonusEnabled : option bool;
  categoryLensBonusWeight : option number;
  categoryLensFinalBonusWeight : option number;
  categoryLensScoreInheritance : option number;
  categoryLensEvidenceBundle : bool;
  temporalOracleScopePerQuery : bool;
  evidencePolicyEnabled : bool;
  enableAspectConstraintAtoms : bool;
  policyAspectBoost : option number
}.

Record PolicyOptions := mkPolicy {
  enableEvidenceBundleAtoms : option bool;
  enableConflictLifecycleAtoms : option bool;
  enableAbstentionAtoms : option bool;
  enableValidityAtoms : option bool;
  enableEntityResolutionAtoms : bool;
  enableScopeAtoms : bool;
  policyMaxBudgetEvidence : option Z;
  policyMaxBudgetConflict : option Z;
  policyMaxBudgetEntity : option Z;
  policyMaxBudgetScope : option Z;
  policyEntityMaxDocs : option Z;
  policyScopeMaxDocs : option Z;
  policyScopeMaxSuppress : option Z;
  policyEvidenceAllowedActions : option (list string);
  policyConflictIntentAdmission : bool;
  policyAbstentionTop1Threshold : option number;
  policyAbstentionMarginThreshold : option number;
  policyEmitTraces : bool;
  policyQueryLocalTopK : option Z;
  policyQueryConditionedAdmission : bool;
  policyRelationTypedAdmission : bool;
  policyAspectIntentAdmission : bool
}.

Record RenderOptions := mkRender {
  memoryIR_F2 : bool;
  memoryIR_resolved : bool;
  memoryIR_full : bool;
  rerankerMemoryIRLookup : option (string -> string -> option MemoryIR)
}.

(** The members that scoring reads; the models are parameters. *)
Record ScoringOptions := mkScoring {
  so_weights : CompositeWeights;
  so_layout : Decoder.RetrievalKeyLayout;
  biEncoderHash : string;
  so_abstentionThreshold : number;
  rerankerTopK : Z;
  pipelineVersion : option string;
  so_policyAtomsMode : bool;
  so_lensDiversityFloor : option number;
  temporalStaleContrast : bool;
  so_stage : StageOptions;
  so_routing : RoutingOptions;
  so_bonus : BonusOptions;
  so_policy : PolicyOptions;
  so_render : RenderOptions;
  policyEntityRegistry : option (list RegistryEntity);
  policyGenericEntityIds : option (list string)
}.

Definition not_false (o : option bool) : bool := negb (bool_decide (o = Some false)).

(** The layout as the corpus writes it. *)
Definition layout_of (l : Decoder.RetrievalKeyLayout) : RetrievalKeyLayout :=
  mkLayout (Z.of_nat (Decoder.dim l)) (match Decoder.quantization l with int8 => "int8" | bf16 => "bf16" end) (Decoder.headerBytes l).

Definition edge_name (t : RelationEdgeType) : string :=
  match t with
  | supports => "supports" | supersedes => "supersedes" | coreference_of => "coreference_of"
  | causes => "causes" | derived_from => "derived_from" | co_occurs_with => "co_occurs_with"
  end.
Definition action_name (a : PolicyAction) : string :=
  match a with include => "include" | boost => "boost" | suppress => "suppress" | bundle => "bundle" | abstain => "abstain" end.

(** ** Public indexes of a corpus *)
(** Incoming [supports] edges of every event. *)
Definition getOrBuildSupportsInDegree (corpus : ProductionCorpus) : list (string * Z) :=
  fold_left (fun inDeg ev => fold_left (fun inDeg rel =>
      if String.eqb (edgeType rel) "supports" then jsmap_set (other_id rel) (default 0 (jsmap_get (other_id rel) inDeg) + 1) inDeg else inDeg) (event_relations ev) inDeg) (events corpus) [].

Definition by_doc_id (a b : PublicCorpusDoc) : Z := string_cmp (pd_id a) (pd_id b).

Definition scope_doc (event : ProductionCorpusEvent) (td : TruthDocument) (emb : bytes) (index : list (string * list PublicCorpusDoc)) (entId : string) : list (string * list PublicCorpusDoc) :=
  let arr := default [] (jsmap_get entId index) in
  if existsb (fun d => String.eqb (pd_id d) (td_id td)) arr then index
  else jsmap_set entId (arr ++ [mkDoc (td_id td) (ev_id event) emb (td_text td)]) index.

Definition getOrBuildEntityScopeIndex (corpus : ProductionCorpus) : list (string * list PublicCorpusDoc) :=
  let index := fold_left (fun index event => fold_left (fun index td =>
      match jsmap_get (td_id td) (perTruth (embeddings event)) with
      | None => index
      | Some emb => fold_left (scope_doc event td emb) (entityIds event) index
      end) (truthDocuments event) index) (events corpus) [] in
  map (fun e => (e.1, stableSort e.2 by_doc_id)) index.

Definition set_absent {V} (k : string) (v : V) (m : list (string * V)) : list (string * V) := match jsmap_get k m with Some _ => m | None => jsmap_set k v m end.

Definition getOrBuildDocTextIndex (corpus : ProductionCorpus) : list (string * string) :=
  fold_left (fun m event =>
    let m' := fold_left (fun m t => set_absent (td_id t) (td_text t) m) (truthDocuments event) m in
    fold_left (fun m n => set_absent (hn_id n) (hn_text n) m) (hardNegatives event) m') (events corpus) [].

Inductive Lifecycle := lc_current | lc_superseded | lc_none.
Definition getOrBuildLifecycleIndex (corpus : ProductionCorpus) : list (string * Lifecycle) :=
  let '(supSrc, supDst) := fold_left (fun acc e => fold_left (fun '(src, dst) r =>
      if String.eqb (edgeType r) "supersedes" then (jsset_add (ev_id e) src, jsset_add (other_id r) dst) else (src, dst)) (event_relations e) acc) (events corpus) ([], []) in
  fold_left (fun m e => jsmap_set (ev_id e)
      (if bool_decide (ev_id e ∈ supDst) then lc_superseded else if bool_decide (ev_id e ∈ supSrc) then lc_current else lc_none) m) (events corpus) [].

Definition corpusByCorpusId (corpus : ProductionCorpus) : list (string * ProductionCorpusEvent) := byId corpus.

Definition getOrBuildInverseRelationIndex (corpus : ProductionCorpus) : list (string * list (string * string)) :=
  fold_left (fun inverse ev => fold_left (fun inverse rel =>
      jsmap_set (other_id rel) (default [] (jsmap_get (other_id rel) inverse) ++ [(ev_id ev, edgeType rel)]) inverse) (event_relations ev) inverse) (events corpus) [].

Section Records.
Context {HK : Hasher}.

Definition stableRecordIdFor (id : string) : Z :=
  fold_left (fun v b => Z.lor (Z.shiftl v 8) b) (take 16 (keccak256 (text_encode ("coretex:record:" +:+ id)%string))) 0.

Definition getOrBuildRecordIdIndex (corpus : ProductionCorpus) : list (Z * ProductionCorpusEvent) :=
  fold_left (fun m e => jsmap_set (stableRecordIdFor (ev_id e)) e m) (events corpus) [].

Definition resolveCorpusDocsForRecordId (recordId : Z) (corpus : ProductionCorpus) : list (string * string) :=
  match jsmap_get recordId (getOrBuildRecordIdIndex corpus) with
  | None => []
  | Some event => map (fun d => (td_id d, td_text d)) (truthDocuments event) ++ map (fun n => (hn_id n, hn_text n)) (hardNegatives event)
  end.
End Records.

(** *** The candidate pool *)
Record PoolEntry := mkPoolEntry { pe_docId : string; pe_embedding : bytes; pe_text : string; pe_eventId : string; pe_memorySlot : option Z; isCurrentTruth : bool; isStaleTruth : bool; sources : list string }.
Abbreviation Pool := (list (string * PoolEntry)).
Record PoolState := mkPool { pool : Pool; categoryLensWeightByDocId : list (string * number); pool_added : Z }.

(** [record.sources.add(src)] on a record of the pool. *)
Definition addSource (src : string) (e : PoolEntry) : PoolEntry :=
  mkPoolEntry (pe_docId e) (pe_embedding e) (pe_text e) (pe_eventId e) (pe_memorySlot e) (isCurrentTruth e) (isStaleTruth e) (jsset_add src (sources e)).
(** A new record for a truth document; [labelled] copies its currency. *)
Definition new_record (ev : ProductionCorpusEvent) (td : TruthDocument) (emb : bytes) (slot : option Z) (labelled : bool) (src : string) : PoolEntry :=
  mkPoolEntry (td_id td) emb (td_text td) (ev_id ev) slot (labelled && isCurrent td) (labelled && negb (isCurrent td)) [src].

Inductive Admission := tagged | entered | absent_embedding.
(** A document already in the pool gets the source, another one enters when it has an embedding. *)
Definition admit_doc (ev : ProductionCorpusEvent) (slot : option Z) (labelled : bool) (src : string) (p : Pool) (td : TruthDocument) : Pool * Admission :=
  match jsmap_get (td_id td) p with
  | Some existing => (jsmap_set (td_id td) (addSource src existing) p, tagged)
  | None =>
    match jsmap_get (td_id td) (perTruth (embeddings ev)) with
    | None => (p, absent_embedding)
    | Some emb => (jsmap_set (td_id td) (new_record ev td emb slot labelled src) p, entered)
    end
  end.

Definition admit_all (slot : option Z) (labelled : bool) (src : string) (ev : ProductionCorpusEvent) (p : Pool) : Pool :=
  fold_left (fun p td => (admit_doc ev slot labelled src p td).1) (truthDocuments ev) p.

Definition add_truth_to_pool (event : ProductionCorpusEvent) (normWeight : number) (cap : Z) (s : PoolState) (td : TruthDocument) : PoolState :=
  match jsmap_get (td_id td) (pool s) with
  | Some existing =>
    let prev := default (of_Z 0) (jsmap_get (td_id td) (categoryLensWeightByDocId s)) in
    mkPool (jsmap_set (td_id td) (addSource "categoryLensBFS" existing) (pool s))
      (if dlt prev normWeight then jsmap_set (td_id td) normWeight (categoryLensWeightByDocId s) else categoryLensWeightByDocId s) (pool_added s)
  | None =>
    if cap <=? pool_added s then s
    else match jsmap_get (td_id td) (perTruth (embeddings event)) with
    | None => s
    | Some emb =>
      mkPool (jsmap_set (td_id td) (new_record event td emb None true "categoryLensBFS") (pool s))
        (jsmap_set (td_id td) normWeight (categoryLensWeightByDocId s)) (pool_added s + 1)
    end
  end.

Definition addEventTruthsToPool (event : ProductionCorpusEvent) (p : Pool) (weights : list (string * number)) (normWeight : number) (cap : Z) : PoolState :=
  fold_left (add_truth_to_pool event normWeight cap) (truthDocuments event) (mkPool p weights 0).


(** [addAtomEventDocs]: the documents of an event until [cap] are collected. *)
Fixpoint add_atom_docs (ev : ProductionCorpusEvent) (src : string) (cap : Z) (tds : list TruthDocument) (p : Pool) (added : list string) : Pool * list string :=
  match tds with
  | [] => (p, added)
  | td :: tds' =>
    if cap <=? Z.of_nat (length added) then (p, added)
    else let '(p', a) := admit_doc ev None false src p td in
      add_atom_docs ev src cap tds' p' (match a with absent_embedding => added | _ => added ++ [td_id td] end)
  end.
Definition addAtomEventDocs (ev : ProductionCorpusEvent) (src : string) (cap : Z) (p : Pool) : Pool * list string := add_atom_docs ev src cap (truthDocuments ev) p [].

(** The loops that admit the documents of eligible events until none is left of an allowance. *)
Record Scan := mkScan { scan_pool : Pool; scan_admitted : list (ProductionCorpusEvent * list string); remaining : Z }.
Definition scan_events (s : Scan) : list ProductionCorpusEvent := map fst (scan_admitted s).
(** The set of the documents admitted with the events that [p] picks. *)
Definition docs_with (p : ProductionCorpusEvent -> bool) (s : Scan) : list string :=
  fold_left (fun l d => jsset_add d l) (flat_map snd (filter (fun e => p e.1 = true) (scan_admitted s))) [].
Definition every_event (_ : ProductionCorpusEvent) : bool := true.
Definition scan_docs : Scan -> list string := docs_with every_event.

Fixpoint scan_events_loop (eligible : ProductionCorpusEvent -> bool) (src : string) (evs : list ProductionCorpusEvent) (s : Scan) : Scan :=
  match evs with
  | [] => s
  | ev :: evs' =>
    if remaining s <=? 0 then s
    else if negb (eligible ev) then scan_events_loop eligible src evs' s
    else
      let '(p, docs) := addAtomEventDocs ev src (remaining s) (scan_pool s) in
      scan_events_loop eligible src evs' (mkScan p (match docs with [] => scan_admitted s | _ => scan_admitted s ++ [(ev, docs)] end) (remaining s - Z.of_nat (length docs)))
  end.

Section Query.
Context {HK : Hasher} (math_log : number -> number) (sha256_hex : string -> string).
Context (o : ScoringOptions) (decoded : DecodedSubstrate) (query : ProductionCorpusEvent) (corpus : ProductionCorpus).

Definition corpusEventById (id : string) : option ProductionCorpusEvent := jsmap_get id (corpusByCorpusId corpus).
(** [query.publicIntent?.k] *)
Definition intent_member (k : string) : jsval := prop k (ev_member "publicIntent" query).
Definition intent_is (v : string) : bool := match intent_member "atom" with JString s => String.eqb s v | _ => false end.
Definition nonempty_text (v : jsval) : option string := match v with JString s => if String.eqb s "" then None else Some s | _ => None end.
Definition event_scope (ev : ProductionCorpusEvent) : option (list (string * string)) :=
  match ev_member "scope" ev with
  | JObject fields => Some (omap (fun e => match e.2 with JString s => Some (e.1, s) | _ => None end) fields)
  | _ => None
  end.

(** ** Stage 1 *)
Definition useOwnerScope : option string :=
  match ownerScopeRestrict (so_stage o), ev_member "ownerScoped" query with
  | true, JBool true => nonempty_text (ev_member "ownerEntityId" query)
  | _, _ => None
  end.

Definition stage1_options : FirstStageRetrievalOptions :=
  mkRetrieval (Some (default mode_dense (firstStageMode (so_stage o)))) (Some (default float1 (firstStageDenseWeight (so_stage o)))) (Some (default float1 (firstStageLexicalWeight (so_stage o)))).

Definition stage1Docs (queryVec : list number) (publicIndex : PublicCorpusIndex) : outcome (list PublicCorpusDoc) :=
  let k := firstStageTopK (so_stage o) in
  let pooled := Returns (retrieveFirstStageCandidates publicIndex (queryText query) queryVec k stage1_options) in
  match useOwnerScope with
  | None => pooled
  | Some ownerId =>
    let ownerScopeDocs := default [] (jsmap_get ownerId (getOrBuildEntityScopeIndex corpus)) in
    if (length (docs publicIndex) <=? length ownerScopeDocs)%nat then pooled
    else scopedFirstStageCandidates math_log (queryText query) queryVec ownerScopeDocs k (layout_of (so_layout o)) stage1_options
  end.

Definition stage1_record (d : PublicCorpusDoc) (txt : string) : PoolEntry := mkPoolEntry (pd_id d) (pd_embedding d) txt (pd_eventId d) None false false ["stage1"%string].
Definition stage1_pool (stage1 : list PublicCorpusDoc) : Pool :=
  let docTextById := getOrBuildDocTextIndex corpus in
  fold_left (fun p d => match jsmap_get (pd_id d) docTextById with
      | None | Some EmptyString => p
      | Some txt => jsmap_set (pd_id d) (stage1_record d txt) p
      end) stage1 [].

(** ** Anchors *)
Definition corpusByRecordId : list (Z * ProductionCorpusEvent) := getOrBuildRecordIdIndex corpus.
Definition live_slots : list (Z * MemoryIndexSlot) :=
  omap (fun e => match e.2 with Some slot => if revoked slot then None else Some (Z.of_nat e.1, slot) | None => None end) (imap pair (memoryIndex decoded)).
Definition anchorSlotToEvent : list (Z * ProductionCorpusEvent) :=
  omap (fun e => pair e.1 <$> jsmap_get (recordId e.2) corpusByRecordId) live_slots.
Definition policyAnchorSlots : list Z := map fst (filter (fun e => policyAnchor e.2 = true) live_slots).

Definition resolvedQuerySubjects : list string :=
  match policyEntityRegistry o with
  | None => []
  | Some reg => resolveQuerySubjects (Some (queryText query)) (string_member "subjectEntityId" query) (Some reg) (policyGenericEntityIds o) POLICY_MAX_SELECTOR_FANOUT
  end.
Definition about_subject (ids : list string) : bool := existsb (fun e => bool_decide (e ∈ resolvedQuerySubjects)) ids.
Definition routingAnchorAllowed (ev : ProductionCorpusEvent) : bool :=
  if negb (scopeRoutingAnchorsToQuerySubject (so_routing o)) then true else about_subject (entityIds ev).
Definition routingSlotToEvent : list (Z * ProductionCorpusEvent) :=
  if not_false (enableRawRoutingAnchors (so_routing o))
  then filter (fun e => e.1 ∉ policyAnchorSlots /\ routingAnchorAllowed e.2 = true) anchorSlotToEvent
  else [].
Definition relation_edges : list RelationEdge := if not_false (enableRelationAnchorEdges (so_routing o)) then relations decoded else [].
Definition evidenceActionAllowed (a : PolicyAction) : bool :=
  match policyEvidenceAllowedActions (so_policy o) with None => true | Some allowed => bool_decide (action_name a ∈ allowed) end.
Definition evidence_atoms : list PolicyAtom :=
  if not_false (enableEvidenceBundleAtoms (so_policy o)) then filter (fun a => evidenceActionAllowed (action a) = true) (evidenceBundleAtoms decoded) else [].
Definition conflict_atoms : list PolicyAtom := if not_false (enableConflictLifecycleAtoms (so_policy o)) then conflictLifecycleAtoms decoded else [].
Definition generic_ids : list string := default [] (policyGenericEntityIds o).
(** [(ev.entityIds ?? []).filter((e) => !generic.has(e)).some((e) => subjects.has(e))] *)
Definition anchors_subject (ev : ProductionCorpusEvent) : bool := about_subject (filter (fun e => e ∉ generic_ids) (entityIds ev)).

(** ** Entity-resolution and scope atoms *)
Definition atomQueryScope : option (list (string * string)) := publicScopeIntent query.
Definition atomHasScopeIntent : bool := intent_is "scope_atom" || negb (match ev_member "scope" query with JUndefined => true | _ => false end).
Definition atoms_enabled : bool :=
  so_policyAtomsMode o && (enableEntityResolutionAtoms (so_policy o) || enableScopeAtoms (so_policy o)) && bool_decide (is_Some (policyEntityRegistry o)).
Definition roleAliases : list string := queryRoleAliasPredicates query (policyEntityRegistry o).
Definition atomAnchorSlots : list Z :=
  filter (fun slot => 128 <= slot < 256 /\ bool_decide (Decoder.family <$> mjoin (js_get (memoryIndex decoded) slot) = Some multi_hop_relation) = true) policyAnchorSlots.
Definition anchor_events (slots : list Z) : list ProductionCorpusEvent := omap (fun s => jsmap_get s anchorSlotToEvent) slots.
Definition hasEntityResolutionIntent : bool :=
  intent_is "entity_resolution_atom" || bool_decide ("coreference_of"%string ∈ parseQueryRelationIntent (queryText query))
  || match parseQueryLifecycleIntent (queryText query) with Some intent_coreference_of => true | _ => false end.
Definition has_task (s : option (list (string * string))) : bool :=
  match s with Some l => match scope_key "taskId" l with Some v => negb (String.eqb v "") | None => false end | None => false end.

Definition entity_eligible (ev : ProductionCorpusEvent) : bool :=
  isMemoryDocumentEventId (ev_id ev) && anchors_subject ev
  && (bool_decide (roleAliases = []) || existsb (fun r => bool_decide (r ∈ eventRoleAliases ev (policyEntityRegistry o))) roleAliases)
  && match atomQueryScope with
     | None => true
     | Some _ => scopeMatches (event_scope ev) atomQueryScope && negb (has_task (event_scope ev) && negb (has_task atomQueryScope))
     end.
Definition scope_eligible (ev : ProductionCorpusEvent) : bool :=
  isMemoryDocumentEventId (ev_id ev) && anchors_subject ev && scopeMatches (event_scope ev) atomQueryScope.

Definition has_subject : bool := negb (bool_decide (resolvedQuerySubjects = [])).
Definition admit_entities (p : Pool) : Scan :=
  if atoms_enabled && enableEntityResolutionAtoms (so_policy o) && hasEntityResolutionIntent && has_subject then
    scan_events_loop entity_eligible "entityResolution" (anchor_events (filter (fun s => s < 192) atomAnchorSlots))
      (mkScan p [] (Z.max 0 (Z.min (default 4 (policyEntityMaxDocs (so_policy o))) 256)))
  else mkScan p [] 0.
Definition admit_scopes (p : Pool) : Scan :=
  if atoms_enabled && enableScopeAtoms (so_policy o) && atomHasScopeIntent && has_subject && bool_decide (is_Some atomQueryScope) then
    scan_events_loop scope_eligible "scopeAtom" (anchor_events (filter (fun s => 192 <= s) atomAnchorSlots))
      (mkScan p [] (Z.max 0 (Z.min (default 8 (policyScopeMaxDocs (so_policy o))) 256)))
  else mkScan p [] 0.

(** ** Query-conditioned policy admission *)
Definition POLICY_PUBLIC_EDGES : list string := ["supports"; "supersedes"; "coreference_of"; "causes"; "derived_from"; "co_occurs_with"]%string.
Definition SELECTOR_MISSING_EVIDENCE : Z := 0x3.
Definition SELECTOR_ANSWER_DENSITY : Z := 0x4.

Definition policyRelationTyped : bool := policyRelationTypedAdmission (so_policy o).
Definition lifecycleIntent : option LifecycleIntent := if policyRelationTyped then parseQueryLifecycleIntent (queryText query) else None.
Definition policyIntentTypes : list string :=
  let types := if policyRelationTyped then parseQueryRelationIntent (queryText query) else [] in
  match lifecycleIntent with
  | Some intent_supersedes => jsset_add "supersedes"%string types
  | Some intent_coreference_of => jsset_add "coreference_of"%string types
  | None => types
  end.
Definition edgeAdmissible (t : string) : bool := bool_decide (t ∈ POLICY_PUBLIC_EDGES) && (negb policyRelationTyped || bool_decide (t ∈ policyIntentTypes)).

Definition hasNoiseSuppressionIntent : bool :=
  intent_is "noise_suppression" || test (words ["retired draft"; "lexical noise"; "noise"; "distractor"]%string) (toLowerCase (queryText query)).
Definition noise_atom (a : PolicyAtom) : bool := (selector a =? SELECTOR_ANSWER_DENSITY) && bool_decide (action a = suppress).
Definition queryHasConflictIntent : bool :=
  negb (policyConflictIntentAdmission (so_policy o)) || parseQueryConflictIntent (queryText query) (flat_map names (default [] (policyEntityRegistry o))).

Record PolicyAdmit := mkPolicyAdmit { pa_pool : Pool; selectorMatchedAnchorEvents : list string }.

(** One atom of the evidence set or of the conflict set. *)
Definition admit_policy_atom (conflict : bool) (s : PolicyAdmit) (atom : PolicyAtom) : PolicyAdmit :=
  match jsmap_get (atom_targetSlot atom) anchorSlotToEvent with
  | None => s
  | Some eA =>
    let noiseSuppressAtom := noise_atom atom && hasNoiseSuppressionIntent in
    let anchorEdges := filter (fun rel => edgeAdmissible (edgeType rel) = true) (event_relations eA) in
    if negb (anchors_subject eA) then s
    else if negb conflict && policyRelationTyped && bool_decide (anchorEdges = []) && negb noiseSuppressAtom then s
    else
      let p := admit_all None true "policyAdmitted" eA (pa_pool s) in
      let p' := if negb conflict && negb noiseSuppressAtom
        then fold_left (fun p rel => match corpusEventById (other_id rel) with Some tgt => admit_all None true "policyAdmitted" tgt p | None => p end) anchorEdges p
        else p in
      mkPolicyAdmit p' (jsset_add (ev_id eA) (selectorMatchedAnchorEvents s))
  end.

Definition admit_policy (p : Pool) : PolicyAdmit :=
  let s := mkPolicyAdmit p [] in
  if so_policyAtomsMode o && policyQueryConditionedAdmission (so_policy o) && bool_decide (is_Some (policyEntityRegistry o)) then
    if has_subject && (negb policyRelationTyped || negb (bool_decide (policyIntentTypes = [])) || negb (bool_decide (conflict_atoms = []))
         || existsb noise_atom evidence_atoms && hasNoiseSuppressionIntent) then
      let s1 := fold_left (admit_policy_atom false) evidence_atoms s in
      if policyConflictIntentAdmission (so_policy o) && negb queryHasConflictIntent then s1
      else fold_left (admit_policy_atom true) conflict_atoms s1
    else s
  else s.

(** ** Anchors and relation edges *)
Definition admit_anchors (p : Pool) : Pool := fold_left (fun p e => admit_all (Some e.1) true "anchorMandatory" e.2 p) routingSlotToEvent p.

(** A pool with the number of documents an expansion has entered. *)
Record Expansion := mkExpansion { ex_pool : Pool; ex_added : Z }.

(** The documents of an event, until the budget is used up. *)
Fixpoint expand_docs (budget : Z) (slot : option Z) (labelled : bool) (ev : ProductionCorpusEvent) (tds : list TruthDocument) (s : Expansion) : Expansion :=
  match tds with
  | [] => s
  | td :: tds' =>
    let '(p, a) := admit_doc ev slot labelled "anchorBFS" (ex_pool s) td in
    match a with
    | entered =>
      let s' := mkExpansion p (ex_added s + 1) in
      if budget <=? ex_added s' then s' else expand_docs budget slot labelled ev tds' s'
    | _ => expand_docs budget slot labelled ev tds' (mkExpansion p (ex_added s))
    end
  end.

Definition relationBudget : Z := relationExpansionBudget (so_routing o).

(** Phase A, from anchor to anchor. *)
Record AnchorBfs := mkAnchorBfs { ab_expansion : Expansion; ab_visited : list Z; ab_next : list Z }.
Definition exhausted (s : AnchorBfs) : bool := relationBudget <=? ex_added (ab_expansion s).

Fixpoint visit_anchors (neighbors : list Z) (s : AnchorBfs) : AnchorBfs :=
  match neighbors with
  | [] => s
  | nbr :: neighbors' =>
    if bool_decide (nbr ∈ ab_visited s) then visit_anchors neighbors' s
    else
      let visited := jsset_add nbr (ab_visited s) in
      match jsmap_get nbr routingSlotToEvent with
      | None => visit_anchors neighbors' (mkAnchorBfs (ab_expansion s) visited (ab_next s))
      | Some ev =>
        let s' := mkAnchorBfs (expand_docs relationBudget (Some nbr) true ev (truthDocuments ev) (ab_expansion s)) visited (ab_next s ++ [nbr]) in
        if exhausted s' then s' else visit_anchors neighbors' s'
      end
  end.

Definition relAdj : list (Z * list Z) :=
  fold_left (fun g e => jsmap_set (sourceSlot e) (default [] (jsmap_get (sourceSlot e) g) ++ [targetSlot e]) g) relation_edges [].

Fixpoint anchor_level (frontier : list Z) (s : AnchorBfs) : AnchorBfs :=
  match frontier with
  | [] => s
  | slot :: frontier' =>
    let s' := visit_anchors (default [] (jsmap_get slot relAdj)) s in
    if exhausted s' then s' else anchor_level frontier' s'
  end.
Fixpoint anchor_hops (budget : nat) (frontier : list Z) (s : AnchorBfs) : AnchorBfs :=
  match budget with
  | O => s
  | S budget' =>
    if exhausted s then s
    else let s' := anchor_level frontier (mkAnchorBfs (ab_expansion s) (ab_visited s) []) in anchor_hops budget' (ab_next s') s'
  end.
Definition anchor_bfs (p : Pool) : Expansion :=
  let visited := map fst routingSlotToEvent in
  ab_expansion (anchor_hops (Z.to_nat (relationHopBudget (so_routing o))) visited (mkAnchorBfs (mkExpansion p 0) visited [])).

(** From an anchor along the corpus relations whose type the substrate names for its slot. *)
Definition relEdgeTypesBySlot : list (Z * list string) :=
  fold_left (fun g e => jsmap_set (sourceSlot e) (jsset_add (edge_name (Decoder.edgeType e)) (default [] (jsmap_get (sourceSlot e) g))) g) relation_edges [].

Fixpoint follow_relations (edgeTypes : list string) (rels : list RelationAnnotation) (s : Expansion) : Expansion :=
  match rels with
  | [] => s
  | rel :: rels' =>
    if relationBudget <=? ex_added s then s
    else follow_relations edgeTypes rels'
      (if bool_decide (edgeType rel ∈ edgeTypes) then
         match corpusEventById (other_id rel) with
         | Some tgt => expand_docs relationBudget None false tgt (truthDocuments tgt) s
         | None => s
         end
       else s)
  end.
Fixpoint follow_anchors (anchors : list (Z * ProductionCorpusEvent)) (s : Expansion) : Expansion :=
  match anchors with
  | [] => s
  | e :: anchors' =>
    if relationBudget <=? ex_added s then s
    else follow_anchors anchors' (match jsmap_get e.1 relEdgeTypesBySlot with Some edgeTypes => follow_relations edgeTypes (event_relations e.2) s | None => s end)
  end.
Definition expand_relations (s : Expansion) : Expansion :=
  if not_false (enableRelationAnchorEdges (so_routing o)) then follow_anchors routingSlotToEvent s else s.

(** A document of an anchor that no slot brought gets the anchor's slot and its currency. *)
Definition tag_doc (slot : Z) (p : Pool) (td : TruthDocument) : Pool :=
  match jsmap_get (td_id td) p with
  | Some e =>
    match pe_memorySlot e with
    | None => jsmap_set (td_id td) (mkPoolEntry (pe_docId e) (pe_embedding e) (pe_text e) (pe_eventId e) (Some slot) (isCurrent td) (negb (isCurrent td)) (sources e)) p
    | Some _ => p
    end
  | None => p
  end.
Definition tag_anchors (p : Pool) : Pool := fold_left (fun p e => fold_left (tag_doc e.1) (truthDocuments e.2) p) routingSlotToEvent p.

(** ** Category lenses *)
Definition categoryLensBudget : Z := default relationBudget (opt_categoryLensExpansionBudget (so_routing o)).

Definition lens_dropped (t : RelationEdgeType) : bool :=
  policyRelationTyped
  && match t with
     | supersedes => match lifecycleIntent with Some intent_supersedes => false | _ => true end
     | coreference_of => match lifecycleIntent with Some intent_coreference_of => false | _ => negb (bool_decide ("coreference_of"%string ∈ policyIntentTypes)) end
     | _ => false
     end.
Definition lensesByEdgeType : list (string * Z) :=
  fold_left (fun m lens =>
      let name := edge_name (lens_edgeType lens) in
      if lens_dropped (lens_edgeType lens) then m
      else match jsmap_get name m with
      | None => jsmap_set name (lens_weight lens) m
      | Some w => if w <? lens_weight lens then jsmap_set name (lens_weight lens) m else m
      end) (categoryLenses decoded) [].

Record LensBfs := mkLensBfs { lb_pool : Pool; lb_weights : list (string * number); lensPeerEvents : list (string * list string); visitedEventIds : list string; lb_next : list string; lb_added : Z }.

Definition addLensPeer (a b : string) (m : list (string * list string)) : list (string * list string) :=
  let m1 := jsmap_set a (jsset_add b (default [] (jsmap_get a m))) m in
  jsmap_set b (jsset_add a (default [] (jsmap_get b m1))) m1.

(** Along one edge to the event [tgt]. *)
Definition lens_edge (eventId tgtId : string) (tgt : ProductionCorpusEvent) (w : Z) (s : LensBfs) : LensBfs :=
  let added := addEventTruthsToPool tgt (lb_pool s) (lb_weights s) (ddiv (of_Z w) (of_Z 0xffff)) (categoryLensBudget - lb_added s) in
  let fresh := negb (bool_decide (tgtId ∈ visitedEventIds s)) in
  mkLensBfs (pool added) (categoryLensWeightByDocId added) (addLensPeer eventId tgtId (lensPeerEvents s))
    (if fresh then jsset_add tgtId (visitedEventIds s) else visitedEventIds s) (if fresh then lb_next s ++ [tgtId] else lb_next s) (lb_added s + pool_added added).

Fixpoint lens_edges (eventId : string) (edges : list (string * string)) (s : LensBfs) : LensBfs :=
  match edges with
  | [] => s
  | (t, tgtId) :: edges' =>
    match jsmap_get t lensesByEdgeType, corpusEventById tgtId with
    | Some w, Some tgt =>
      let s' := lens_edge eventId tgtId tgt w s in
      if categoryLensBudget <=? lb_added s' then s' else lens_edges eventId edges' s'
    | _, _ => lens_edges eventId edges' s
    end
  end.

Definition inverse_edges (eventId : string) : list (string * string) :=
  if traversal_forward (so_routing o) then []
  else map (fun e => (e.2, e.1)) (default [] (jsmap_get eventId (getOrBuildInverseRelationIndex corpus))).

Fixpoint lens_level (frontier : list string) (s : LensBfs) : LensBfs :=
  match frontier with
  | [] => s
  | eventId :: frontier' =>
    if categoryLensBudget <=? lb_added s then s
    else lens_level frontier'
      (match corpusEventById eventId with
       | None => s
       | Some source => lens_edges eventId (inverse_edges eventId) (lens_edges eventId (map (fun r => (edgeType r, other_id r)) (event_relations source)) s)
       end)
  end.
Fixpoint lens_hops (budget : nat) (frontier : list string) (s : LensBfs) : LensBfs :=
  match budget with
  | O => s
  | S budget' =>
    if categoryLensBudget <=? lb_added s then s
    else let s' := lens_level frontier (mkLensBfs (lb_pool s) (lb_weights s) (lensPeerEvents s) (visitedEventIds s) [] (lb_added s)) in lens_hops budget' (lb_next s') s'
  end.

Definition positive (n : option Z) : option Z := match n with Some v => if 0 <? v then Some v else None | None => None end.
Definition lens_bfs (stage1 : list PublicCorpusDoc) (p : Pool) : LensBfs :=
  let seeds := fold_left (fun s d => jsset_add (pd_eventId d) s)
    (match positive (categoryLensSeedTopK (so_routing o)) with Some k => take (Z.to_nat k) stage1 | None => stage1 end) [] in
  let s := mkLensBfs p [] [] seeds [] 0 in
  if bool_decide (lensesByEdgeType = []) || (categoryLensBudget <=? 0) then s
  else lens_hops (Z.to_nat (default (relationHopBudget (so_routing o)) (positive (categoryLensHopBudget (so_routing o))))) seeds s.

(** ** Temporal records *)
Definition validityAtomEnabled : bool := not_false (enableValidityAtoms (so_policy o)).
Definition isTemporalQuery : bool := String.eqb (family query) "temporal" || validityAtomEnabled && intent_is "validity_atom".

Definition slot_event (slot : Z) : option ProductionCorpusEvent :=
  s ← mjoin (js_get (memoryIndex decoded) slot); jsmap_get (recordId s) corpusByRecordId.

(** The events a temporal record marks: those to suppress and those to boost. *)
Definition mark_temporal (sets : list string * list string) (tr : TemporalRecord) : list string * list string :=
  match slot_event (memorySlot tr) with
  | None => sets
  | Some ev =>
    if currentStaleFlag tr then
      (jsset_add (ev_id ev) sets.1,
       if supersededBy tr =? 0xff then sets.2 else match slot_event (supersededBy tr) with Some cur => jsset_add (ev_id cur) sets.2 | None => sets.2 end)
    else (sets.1, jsset_add (ev_id ev) sets.2)
  end.
Definition temporal_sets : list string * list string := fold_left mark_temporal (dec_temporal decoded) ([], []).
Definition temporalSuppressEventIds : list string := temporal_sets.1.
Definition temporalBoostEventIds : list string := temporal_sets.2.

Definition validity_of (eventId : string) : jsval := match corpusEventById eventId with Some ev => ev_member "validity" ev | None => JUndefined end.
Definition has_validity (eventId : string) : bool := match validity_of eventId with JObject _ => true | _ => false end.
(** [intent?.subjectEntityId ?? query.subjectEntityId], when it is a non-empty string. *)
Definition intent_subject : option string := nonempty_text (coalesce (intent_member "subjectEntityId") (ev_member "subjectEntityId" query)).
Definition intent_attribute : option string := nonempty_text (intent_member "attribute").

Definition temporalRecordAppliesToQuery (eventId : string) : bool :=
  if negb (has_validity eventId) then isTemporalQuery
  else isTemporalQuery
    && match intent_subject, intent_attribute with
       | Some subject, Some attribute =>
         match prop "subjectEntityId" (validity_of eventId), prop "attribute" (validity_of eventId) with
         | JString s, JString a => String.eqb s subject && String.eqb a attribute
         | _, _ => false
         end
       | _, _ => false
       end.

Definition motifAdmissionMaxDocs : Z := Z.max 0 (Z.min (default 4 (opt_motifAdmissionMaxDocs (so_routing o))) 64).
Definition motifAdmissionTopK : Z := Z.max 1 (Z.min (default 16 (opt_motifAdmissionTopK (so_routing o))) 256).

Definition temporalMotifAttributes : list string :=
  omap (fun id => nonempty_text (prop "attribute" (validity_of id))) (temporalBoostEventIds ++ temporalSuppressEventIds).

Definition rank_then_id (first : ProductionCorpusEvent -> bool) (a b : ProductionCorpusEvent) : Z :=
  if Bool.eqb (first a) (first b) then string_cmp (ev_id a) (ev_id b) else if first a then -1 else 1.
Definition currently_valid (ev : ProductionCorpusEvent) : bool := match temporalValidityRole ev with role_current => true | role_superseded => false end.

Definition admit_temporal_motif (p : Pool) : Scan :=
  let s := mkScan p [] motifAdmissionMaxDocs in
  match temporalMotifAdmission (so_routing o) && isTemporalQuery && (0 <? motifAdmissionMaxDocs), intent_attribute, intent_subject with
  | true, Some attribute, Some subject =>
    if bool_decide (attribute ∈ temporalMotifAttributes) then
      scan_events_loop every_event "temporalMotif"
        (stableSort (default [] (jsmap_get (motif_key attribute subject) (getOrBuildValidityMotifIndex corpus))) (rank_then_id currently_valid)) s
    else s
  | _, _, _ => s
  end.
(** [temporalMotifRoleByEventId] *)
Definition motif_roles (s : Scan) : list (string * Lifecycle) :=
  fold_left (fun m ev => jsmap_set (ev_id ev) (if currently_valid ev then lc_current else lc_superseded) m) (scan_events s) [].

(** The events of the records that apply, by id. *)
Definition admit_validity_atoms (p : Pool) : Pool :=
  if validityAtomEnabled && intent_is "validity_atom" then
    scan_pool (scan_events_loop every_event "temporalRecord"
      (omap (fun id => if temporalRecordAppliesToQuery id then
           match corpusEventById id with
           | Some ev => if (match ev_member "validity" ev with JObject _ => true | _ => false end) && isMemoryDocumentEventId (ev_id ev) then Some ev else None
           | None => None
           end else None)
        (stableSort (temporalBoostEventIds ++ temporalSuppressEventIds) string_cmp))
      (mkScan p [] 4))
  else p.

Definition temporalLifecycleForQueryEvent (roles : list (string * Lifecycle)) (eventId : string) : Lifecycle :=
  if temporalRecordAppliesToQuery eventId && bool_decide (eventId ∈ temporalBoostEventIds) then lc_current
  else if temporalRecordAppliesToQuery eventId && bool_decide (eventId ∈ temporalSuppressEventIds) then lc_superseded
  else default lc_none (jsmap_get eventId roles).

(** ** Conflict and evidence motifs *)
Definition admit_conflict_motif (p : Pool) : Scan :=
  let s := mkScan p [] motifAdmissionMaxDocs in
  if so_policyAtomsMode o && conflictMotifAdmission (so_routing o) && not_false (enableConflictLifecycleAtoms (so_policy o)) && (0 <? motifAdmissionMaxDocs) && String.eqb (family query) "conflict_lifecycle" then
    let carried := existsb (fun atom => match jsmap_get (atom_targetSlot atom) anchorSlotToEvent with Some anchor => eventCarriesConflictMotif anchor | None => false end) (conflictLifecycleAtoms decoded) in
    match conflictScopeClassForQuery (queryText query), nonempty_text (coalesce (ev_member "subjectEntityId" query) (intent_member "subjectEntityId")) with
    | Some scopeClass, Some subject =>
      if carried then
        scan_events_loop every_event "conflictMotif"
          (stableSort (default [] (jsmap_get (motif_key subject scopeClass) (getOrBuildConflictMotifIndex corpus))) (rank_then_id isConflictCurrentLike)) s
      else s
    | _, _ => s
    end
  else s.
Definition conflictMotifDocIds (s : Scan) : list string := docs_with isConflictCurrentLike s.

Definition relationIntents : list string := parseQueryRelationIntent (queryText query).

Record MotifDocs := mkMotifDocs { md_pool : Pool; md_docs : list string; md_left : Z }.
Fixpoint follow_motif (rels : list RelationAnnotation) (s : MotifDocs) : MotifDocs :=
  match rels with
  | [] => s
  | rel :: rels' =>
    if md_left s <=? 0 then s
    else follow_motif rels'
      (if bool_decide (edgeType rel ∈ relationIntents) then
         match corpusEventById (other_id rel) with
         | Some target =>
           let '(p, docs) := addAtomEventDocs target "evidenceMotif" (md_left s) (md_pool s) in
           mkMotifDocs p (fold_left (fun l d => jsset_add d l) docs (md_docs s)) (md_left s - Z.of_nat (length docs))
         | None => s
         end
       else s)
  end.
Fixpoint motif_seeds (seeds : list string) (s : MotifDocs) : MotifDocs :=
  match seeds with
  | [] => s
  | id :: seeds' =>
    if md_left s <=? 0 then s
    else motif_seeds seeds' (match corpusEventById id with Some ev => follow_motif (event_relations ev) s | None => s end)
  end.
(** Is the atom allowed and anchored at an event with an edge the query asks for? *)
Definition motif_atom (atom : PolicyAtom) : bool :=
  evidenceActionAllowed (action atom)
  && match jsmap_get (atom_targetSlot atom) anchorSlotToEvent with
     | Some anchor => existsb (fun rel => bool_decide (edgeType rel ∈ relationIntents)) (event_relations anchor)
     | None => false
     end.
Definition admit_evidence_motif (stage1 : list PublicCorpusDoc) (p : Pool) : MotifDocs :=
  let s := mkMotifDocs p [] motifAdmissionMaxDocs in
  if so_policyAtomsMode o && evidenceMotifAdmission (so_routing o) && not_false (enableEvidenceBundleAtoms (so_policy o)) && (0 <? motifAdmissionMaxDocs) && negb (bool_decide (relationIntents = [])) then
    if existsb motif_atom (evidenceBundleAtoms decoded) then
      let seedEvents := fold_left (fun l d => jsset_add (pd_eventId d) l) (take (Z.to_nat motifAdmissionTopK) stage1) [] in
      motif_seeds (stableSort seedEvents string_cmp) s
    else s
  else s.

(** ** The pool *)
Record Candidates := mkCandidates {
  cd_pool : Pool;
  cd_stage1 : list PublicCorpusDoc;
  cd_entities : Scan;
  cd_scopes : Scan;
  cd_matched : list string;
  cd_lens : LensBfs;
  cd_roles : list (string * Lifecycle);
  cd_conflict : Scan;
  cd_evidence : MotifDocs
}.

Definition gather (stage1 : list PublicCorpusDoc) : Candidates :=
  let entities := admit_entities (stage1_pool stage1) in
  let scopes := admit_scopes (scan_pool entities) in
  let policy := admit_policy (scan_pool scopes) in
  let expanded := expand_relations (anchor_bfs (admit_anchors (pa_pool policy))) in
  let lens := lens_bfs stage1 (tag_anchors (ex_pool expanded)) in
  let motif := admit_temporal_motif (lb_pool lens) in
  let conflict := admit_conflict_motif (admit_validity_atoms (scan_pool motif)) in
  let evidence := admit_evidence_motif stage1 (scan_pool conflict) in
  mkCandidates (md_pool evidence) stage1 entities scopes (selectorMatchedAnchorEvents policy) lens (motif_roles motif) conflict evidence.
End Query.

(** * Growth of the pool *)
Lemma fold_left_in {A B} (I : A -> Prop) (f : A -> B -> A) (l : list B) a : (forall a b, b ∈ l -> I a -> I (f a b)) -> I a -> I (fold_left f l a).
Proof. revert a. induction l as [|b l IH]; intros a H Ha; [done|]. apply IH; [intros a' b' Hb; apply H; by right|]. apply H; [by left|done]. Qed.

Lemma jsmap_get_in {K V} `{EqDecision K} (k : K) (v : V) m : jsmap_get k m = Some v -> (k, v) ∈ m.
Proof. intros (a & b & -> & _)%jsmap_get_split. set_solver. Qed.

(** A document of an event of the corpus, with its stored embedding. *)
Definition truth_of (corpus : ProductionCorpus) (e : PoolEntry) : Prop :=
  exists ev td, ev ∈ events corpus /\ td ∈ truthDocuments ev /\ pe_docId e = td_id td /\ pe_text e = td_text td /\ pe_eventId e = ev_id ev
    /\ jsmap_get (td_id td) (perTruth (embeddings ev)) = Some (pe_embedding e).

(** The same document, perhaps by more routes. *)
Record same_doc (e e' : PoolEntry) : Prop := {
  sd_id : pe_docId e' = pe_docId e;
  sd_text : pe_text e' = pe_text e;
  sd_embedding : pe_embedding e' = pe_embedding e;
  sd_event : pe_eventId e' = pe_eventId e;
  sd_sources : sources e ⊆ sources e'
}.

Lemma same_doc_refl e : same_doc e e.
Proof. by constructor. Qed.
Lemma same_doc_trans e1 e2 e3 : same_doc e1 e2 -> same_doc e2 e3 -> same_doc e1 e3.
Proof. intros [] []. constructor; try congruence. set_solver. Qed.

(** [p'] keeps the documents of [p] and has at most [n] more, all of the corpus. *)
Record grows (corpus : ProductionCorpus) (n : Z) (p p' : Pool) : Prop := {
  gr_ids : NoDup p.*1 -> NoDup p'.*1;
  gr_size : Z.of_nat (length p) <= Z.of_nat (length p') <= Z.of_nat (length p) + n;
  gr_keep : forall id e, jsmap_get id p = Some e -> exists e', jsmap_get id p' = Some e' /\ same_doc e e';
  gr_new : forall id e', jsmap_get id p' = Some e' -> is_Some (jsmap_get id p) \/ pe_docId e' = id /\ truth_of corpus e'
}.

Section Growth.
Context (corpus : ProductionCorpus).
Abbreviation grows := (grows corpus).

Lemma grows_refl p : grows 0 p p.
Proof. constructor; [done|lia|intros id e He; exists e; by split; [|apply same_doc_refl]|]. intros id e He. left. by rewrite He. Qed.

Lemma grows_trans n m p1 p2 p3 : grows n p1 p2 -> grows m p2 p3 -> grows (n + m) p1 p3.
Proof.
  intros [A1 A2 A3 A4] [B1 B2 B3 B4]. constructor; [auto|lia| |].
  - intros id e He. destruct (A3 id e He) as (e2 & H2 & S2). destruct (B3 id e2 H2) as (e3 & H3 & S3). exists e3. split; [done|]. by eapply same_doc_trans.
  - intros id e3 H3. destruct (B4 id e3 H3) as [[e2 H2]|]; [|by right]. destruct (A4 id e2 H2) as [|[E (ev & td & G1 & G2 & G3 & G4 & G5 & G6)]]; [by left|right].
    destruct (B3 id e2 H2) as (e3' & H3' & [S1 S2 S3 S4 S5]). rewrite H3 in H3'. injection H3' as <-. split; [congruence|]. exists ev, td. split_and!; congruence.
Qed.

Lemma grows_le n m p p' : n <= m -> grows n p p' -> grows m p p'.
Proof. intros H [A1 A2 A3 A4]. constructor; try done. lia. Qed.

Lemma grows_nonneg n p p' : grows n p p' -> 0 <= n.
Proof. intros [_ H _ _]. lia. Qed.

Lemma grows_tag id e e' p : jsmap_get id p = Some e -> same_doc e e' -> grows 0 p (jsmap_set id e' p).
Proof.
  intros He S. assert (Hin : id ∈ p.*1) by (apply jsmap_get_in in He; apply list_elem_of_fmap; by exists (id, e)). constructor.
  - by apply jsmap_set_NoDup.
  - rewrite <- (length_fmap fst (jsmap_set _ _ _)), jsmap_set_keys, decide_True, length_fmap by done. lia.
  - intros id0 e0 H0. rewrite jsmap_get_set. case_decide as E; [|exists e0; by split; [|apply same_doc_refl]]. subst id0. rewrite He in H0. injection H0 as <-. by exists e'.
  - intros id0 e0. rewrite jsmap_get_set. case_decide as E; [|intros ->; by left]. subst id0. rewrite He. by left.
Qed.

Lemma grows_enter id e p : jsmap_get id p = None -> pe_docId e = id -> truth_of corpus e -> grows 1 p (jsmap_set id e p).
Proof.
  intros Hn Hi He. assert (Hni : id ∉ p.*1) by (by apply jsmap_get_None). rewrite jsmap_set_fresh by done. constructor.
  - intros H. rewrite fmap_app. apply NoDup_app. split; [done|]. split; [set_solver|]. apply NoDup_singleton.
  - rewrite length_app. cbn. lia.
  - intros id0 e0 H0. rewrite <- (jsmap_set_fresh id e p) by done. rewrite jsmap_get_set, decide_False by congruence. exists e0. by split; [|apply same_doc_refl].
  - intros id0 e0. rewrite <- (jsmap_set_fresh id e p) by done. rewrite jsmap_get_set. case_decide as E; [intros [= <-]; subst id0; by right|intros ->; by left].
Qed.

Lemma grows_fold {B} n (f : Pool -> B -> Pool) (l : list B) p : (forall q b, b ∈ l -> grows (n b) q (f q b)) -> grows (foldr (fun b s => n b + s) 0 l) p (fold_left f l p).
Proof.
  revert p. induction l as [|b l IH]; intros p H; [apply grows_refl|]. cbn [fold_left foldr]. eapply grows_trans; [apply H; by left|]. apply IH. intros q b' Hb. apply H. by right.
Qed.

Lemma addSource_same src e : same_doc e (addSource src e).
Proof. constructor; try done. cbn. intros x Hx. apply elem_of_jsset_add. by right. Qed.

Definition is_entered (a : Admission) : Z := match a with entered => 1 | _ => 0 end.

Lemma admit_doc_grows ev slot labelled src p td : ev ∈ events corpus -> td ∈ truthDocuments ev ->
  grows (is_entered (admit_doc ev slot labelled src p td).2) p (admit_doc ev slot labelled src p td).1.
Proof.
  intros He Ht. unfold admit_doc. destruct (jsmap_get (td_id td) p) as [e|] eqn:Ep; [by eapply grows_tag, addSource_same|].
  destruct (jsmap_get (td_id td) (perTruth _)) as [emb|] eqn:Em; [|apply grows_refl]. apply grows_enter; [done|done|]. by exists ev, td.
Qed.

Lemma is_entered_le a : 0 <= is_entered a <= 1.
Proof. destruct a; cbn; lia. Qed.

Lemma foldr_ones {B} (l : list B) : foldr (fun _ s => 1 + s) 0 l = Z.of_nat (length l).
Proof. induction l as [|b l IH]; [done|]. cbn [foldr length]. lia. Qed.

Lemma admit_all_grows slot labelled src ev p : ev ∈ events corpus -> grows (Z.of_nat (length (truthDocuments ev))) p (admit_all slot labelled src ev p).
Proof.
  intros He. unfold admit_all. rewrite <- foldr_ones. apply grows_fold. intros q td Ht. eapply grows_le; [|by apply admit_doc_grows]. apply is_entered_le.
Qed.

Lemma add_atom_docs_grows ev src cap tds p added : ev ∈ events corpus -> tds ⊆ truthDocuments ev -> Z.of_nat (length added) <= Z.max 0 cap ->
  let r := add_atom_docs ev src cap tds p added in
  grows (Z.of_nat (length r.2) - Z.of_nat (length added)) p r.1 /\ Z.of_nat (length r.2) <= Z.max 0 cap.
Proof.
  intros He. revert p added. induction tds as [|td tds IH]; intros p added Hs Hl; cbn [add_atom_docs].
  - cbv zeta. cbn [fst snd]. split; [rewrite Z.sub_diag; apply grows_refl|done].
  - destruct (Z.leb_spec cap (Z.of_nat (length added))); [cbv zeta; cbn [fst snd]; split; [rewrite Z.sub_diag; apply grows_refl|done]|].
    pose proof (admit_doc_grows ev None false src p td He ltac:(set_solver)) as G. destruct (admit_doc ev None false src p td) as [p' a]. cbn [fst snd] in G.
    set (added' := match a with absent_embedding => added | _ => _ end).
    assert (Hl' : Z.of_nat (length added) + is_entered a <= Z.of_nat (length added') <= Z.of_nat (length added) + 1) by (unfold added'; destruct a; cbn [is_entered]; rewrite ?length_app; cbn [length]; lia).
    specialize (IH p' added' ltac:(set_solver) ltac:(lia)). cbv zeta in IH |- *. destruct IH as [G' B]. split; [|done]. eapply grows_le; [|by eapply grows_trans]. lia.
Qed.

Lemma addAtomEventDocs_grows ev src cap p : ev ∈ events corpus ->
  let r := addAtomEventDocs ev src cap p in grows (Z.of_nat (length r.2)) p r.1 /\ Z.of_nat (length r.2) <= Z.max 0 cap.
Proof.
  intros He. pose proof (add_atom_docs_grows ev src cap (truthDocuments ev) p [] He ltac:(done) ltac:(cbn; lia)) as H. cbn [length] in H. by rewrite Z.sub_0_r in H.
Qed.

Lemma scan_grows eligible src evs s : Forall (.∈ events corpus) evs -> 0 <= remaining s ->
  let s' := scan_events_loop eligible src evs s in grows (remaining s - remaining s') (scan_pool s) (scan_pool s') /\ 0 <= remaining s'.
Proof.
  intros H. revert s. induction H as [|ev evs Hev H IH]; intros s Hr; cbn [scan_events_loop]; [cbv zeta; rewrite Z.sub_diag; split; [apply grows_refl|done]|].
  destruct (Z.leb_spec (remaining s) 0); [cbv zeta; rewrite Z.sub_diag; split; [apply grows_refl|done]|]. destruct (negb (eligible ev)); [by apply IH|].
  pose proof (addAtomEventDocs_grows ev src (remaining s) (scan_pool s) Hev) as [G B]. destruct (addAtomEventDocs _ _ _ _) as [p docs]. cbn [fst snd] in G, B.
  match goal with |- context [scan_events_loop _ _ evs ?s1] => specialize (IH s1 ltac:(cbn; lia)); cbn [scan_pool remaining] in IH end.
  cbv zeta in IH |- *. destruct IH as [G' R]. split; [|done]. eapply grows_le; [|by eapply grows_trans]. lia.
Qed.

Lemma scan_bound eligible src evs p n : Forall (.∈ events corpus) evs -> 0 <= n -> grows n p (scan_pool (scan_events_loop eligible src evs (mkScan p [] n))).
Proof.
  intros H Hn. pose proof (scan_grows eligible src evs (mkScan p [] n) H Hn) as [G R]. eapply grows_le; [|exact G]. cbn [remaining] in *. lia.
Qed.

(** ** Where events come from *)
Lemma indexed_in {K} `{EqDecision K} (key : ProductionCorpusEvent -> K) k ev :
  jsmap_get k (fold_left (fun m e => jsmap_set (key e) e m) (events corpus) []) = Some ev -> ev ∈ events corpus.
Proof.
  set (m := fold_left _ _ _). assert (H : Forall (fun e => e.2 ∈ events corpus) m).
  { unfold m. apply fold_left_in; [|constructor]. intros m' e He Hm. by apply jsmap_set_Forall. }
  intros G%jsmap_get_in. rewrite Forall_forall in H. exact (H _ G).
Qed.

Lemma motif_sort_in (m : list (string * list ProductionCorpusEvent)) k : Forall (fun e => Forall (.∈ events corpus) e.2) m ->
  Forall (.∈ events corpus) (default [] (jsmap_get k (map (fun e => (e.1, stableSort e.2 event_id_cmp)) m))).
Proof.
  intros H. rewrite (jsmap_get_map (fun l => stableSort l event_id_cmp)). destruct (jsmap_get k m) as [l|] eqn:E; [|constructor]. apply jsmap_get_in in E. rewrite Forall_forall in H. specialize (H _ E). cbn [fmap option_fmap option_map default snd] in *.
  by rewrite stableSort_perm.
Qed.

Lemma motif_default_in (m : list (string * list ProductionCorpusEvent)) k : Forall (fun e => Forall (.∈ events corpus) e.2) m -> Forall (.∈ events corpus) (default [] (jsmap_get k m)).
Proof. intros H. destruct (jsmap_get k m) as [l|] eqn:E; [|constructor]. apply jsmap_get_in in E. rewrite Forall_forall in H. exact (H _ E). Qed.

Lemma motif_set_in (m : list (string * list ProductionCorpusEvent)) k ev : ev ∈ events corpus -> Forall (fun e => Forall (.∈ events corpus) e.2) m ->
  Forall (fun e => Forall (.∈ events corpus) e.2) (jsmap_set k (default [] (jsmap_get k m) ++ [ev]) m).
Proof. intros He H. apply jsmap_set_Forall; [done|]. cbn. apply Forall_app. split; [by apply motif_default_in|by constructor]. Qed.

Lemma validity_motif_in k : Forall (.∈ events corpus) (default [] (jsmap_get k (getOrBuildValidityMotifIndex corpus))).
Proof.
  apply motif_sort_in. apply fold_left_in; [|constructor]. intros m ev He Hm. destruct (negb _); [done|]. cbv zeta.
  destruct (prop "subjectEntityId" _); try done. destruct (prop "attribute" _); try done. destruct (_ || _); [done|]. by apply motif_set_in.
Qed.

Lemma conflict_motif_in k : Forall (.∈ events corpus) (default [] (jsmap_get k (getOrBuildConflictMotifIndex corpus))).
Proof.
  apply motif_sort_in. apply fold_left_in; [|constructor]. intros m ev He Hm. destruct (_ || _); [done|]. cbv zeta.
  apply fold_left_in; [|done]. intros m1 subject _ H1. apply fold_left_in; [|done]. intros m2 v _ H2. destruct (normalizeScopeClass v); [|done].
  apply fold_left_in; [|done]. intros m3 suffix _ H3. unfold add_conflict. destruct (_ || _); [done|]. cbv zeta.
  destruct (jsmap_get _ m3) as [l|] eqn:E; [|apply jsmap_set_Forall; [done|]; by repeat constructor]. destruct (existsb _ _); [done|].
  replace l with (default [] (jsmap_get (motif_key subject suffix) m3)) by (by rewrite E). by apply motif_set_in.
Qed.

Context {HK : Hasher} (o : ScoringOptions) (decoded : DecodedSubstrate) (query : ProductionCorpusEvent).
Context (indexed : byId corpus = index_events (events corpus)).

Lemma corpus_event_in id ev : corpusEventById corpus id = Some ev -> ev ∈ events corpus.
Proof. unfold corpusEventById, corpusByCorpusId. rewrite indexed. apply indexed_in. Qed.

Lemma anchor_in slot ev : (slot, ev) ∈ anchorSlotToEvent decoded corpus -> ev ∈ events corpus.
Proof.
  unfold anchorSlotToEvent. intros ([k s] & _ & H)%list_elem_of_omap. cbn [fst snd] in H. destruct (jsmap_get (recordId s) (corpusByRecordId corpus)) as [e|] eqn:E; [|done].
  injection H as _ <-. by apply indexed_in in E.
Qed.
Lemma anchor_get_in slot ev : jsmap_get slot (anchorSlotToEvent decoded corpus) = Some ev -> ev ∈ events corpus.
Proof. intros H%jsmap_get_in. by apply anchor_in in H. Qed.
Lemma routing_in slot ev : (slot, ev) ∈ routingSlotToEvent o decoded query corpus -> ev ∈ events corpus.
Proof. unfold routingSlotToEvent. destruct (not_false _); [|by intros ?%not_elem_of_nil]. intros [_ H]%list_elem_of_filter. by apply anchor_in in H. Qed.
Lemma anchor_events_in slots : Forall (.∈ events corpus) (anchor_events decoded corpus slots).
Proof. apply Forall_forall. intros ev (s & _ & H)%list_elem_of_omap. by apply anchor_get_in in H. Qed.

(** ** The stages *)
Lemma entities_grow p : grows 256 p (scan_pool (admit_entities o decoded query corpus p)).
Proof.
  unfold admit_entities. destruct (_ && _); [|by eapply grows_le, grows_refl]. eapply grows_le; [|apply scan_bound; [apply anchor_events_in|lia]]. lia.
Qed.
Lemma scopes_grow p : grows 256 p (scan_pool (admit_scopes o decoded query corpus p)).
Proof.
  unfold admit_scopes. destruct (_ && _); [|by eapply grows_le, grows_refl]. eapply grows_le; [|apply scan_bound; [apply anchor_events_in|lia]]. lia.
Qed.

Definition truth_count (ev : ProductionCorpusEvent) : Z := Z.of_nat (length (truthDocuments ev)).

(** The documents an admitted policy atom can bring. *)
Definition atom_truths (atom : PolicyAtom) : Z :=
  match jsmap_get (atom_targetSlot atom) (anchorSlotToEvent decoded corpus) with
  | Some anchor => truth_count anchor + foldr (fun rel s => from_option truth_count 0 (corpusEventById corpus (other_id rel)) + s) 0 (event_relations anchor)
  | None => 0
  end.

Lemma truth_count_pos ev : 0 <= truth_count ev.
Proof. unfold truth_count. lia. Qed.

Lemma from_option_pos x : 0 <= from_option truth_count 0 x.
Proof. destruct x; cbn; [apply truth_count_pos|done]. Qed.

Lemma foldr_filter_le (f : RelationAnnotation -> Z) (P : RelationAnnotation -> Prop) `{forall x, Decision (P x)} l : (forall x, 0 <= f x) ->
  foldr (fun x s => f x + s) 0 (filter P l) <= foldr (fun x s => f x + s) 0 l.
Proof. intros Hf. induction l as [|x l IH]; [done|]. rewrite filter_cons. specialize (Hf x). case_decide; cbn [foldr]; lia. Qed.

Lemma foldr_pos {B} (f : B -> Z) l : (forall x, 0 <= f x) -> 0 <= foldr (fun x s => f x + s) 0 l.
Proof. intros Hf. induction l as [|x l IH]; [done|]. cbn [foldr]. specialize (Hf x). lia. Qed.

Lemma policy_atom_grows conflict s atom : grows (atom_truths atom) (pa_pool s) (pa_pool (admit_policy_atom o decoded query corpus conflict s atom)).
Proof.
  unfold admit_policy_atom, atom_truths. destruct (jsmap_get _ (anchorSlotToEvent _ _)) as [eA|] eqn:E; [|apply grows_refl]. cbv zeta.
  pose proof (truth_count_pos eA). pose proof (foldr_pos (fun rel => from_option truth_count 0 (corpusEventById corpus (other_id rel))) (event_relations eA) ltac:(intros; apply from_option_pos)).
  destruct (negb (anchors_subject _ _ _)); [eapply grows_le, grows_refl; cbn beta in *; lia|]. destruct (_ && _); [eapply grows_le, grows_refl; cbn beta in *; lia|]. cbn [pa_pool].
  pose proof (admit_all_grows None true "policyAdmitted" eA (pa_pool s) (anchor_get_in _ _ E)) as G. destruct (_ && _); [|eapply grows_le, G; fold (truth_count eA); cbn beta in *; lia].
  eapply grows_trans; [exact G|]. set (l := filter _ _). eapply grows_le; [|apply (grows_fold (fun rel => from_option truth_count 0 (corpusEventById corpus (other_id rel))))].
  - apply foldr_filter_le. intros. apply from_option_pos.
  - intros q rel _. destruct (corpusEventById corpus _) as [tgt|] eqn:Et; [|apply grows_refl]. apply admit_all_grows. by apply corpus_event_in in Et.
Qed.

Definition policy_truths : Z := foldr (fun a s => atom_truths a + s) 0 (evidence_atoms o decoded) + foldr (fun a s => atom_truths a + s) 0 (conflict_atoms o decoded).

Lemma atom_truths_pos a : 0 <= atom_truths a.
Proof.
  unfold atom_truths. destruct (jsmap_get _ _) as [eA|]; [|done]. pose proof (truth_count_pos eA).
  pose proof (foldr_pos (fun rel => from_option truth_count 0 (corpusEventById corpus (other_id rel))) (event_relations eA) ltac:(intros; apply from_option_pos)). cbn beta in *. lia.
Qed.

Lemma policy_atoms_grow conflict atoms s : grows (foldr (fun a s => atom_truths a + s) 0 atoms) (pa_pool s) (pa_pool (fold_left (admit_policy_atom o decoded query corpus conflict) atoms s)).
Proof.
  revert s. induction atoms as [|a atoms IH]; intros s; [apply grows_refl|]. cbn [fold_left foldr]. eapply grows_trans; [apply policy_atom_grows|]. apply IH.
Qed.

Lemma policy_grows p : grows policy_truths p (pa_pool (admit_policy o decoded query corpus p)).
Proof.
  unfold policy_truths. pose proof (foldr_pos atom_truths (evidence_atoms o decoded) atom_truths_pos). pose proof (foldr_pos atom_truths (conflict_atoms o decoded) atom_truths_pos).
  unfold admit_policy. cbv zeta. destruct (_ && _); [|eapply grows_le, grows_refl; lia]. destruct (_ && _); [|eapply grows_le, grows_refl; lia].
  pose proof (policy_atoms_grow false (evidence_atoms o decoded) (mkPolicyAdmit p [])) as G. destruct (_ && _); [eapply grows_le, G; lia|].
  eapply grows_trans; [exact G|]. apply policy_atoms_grow.
Qed.

Definition anchor_truths : Z := foldr (fun e s => truth_count e.2 + s) 0 (routingSlotToEvent o decoded query corpus).
Lemma anchors_grow p : grows anchor_truths p (admit_anchors o decoded query corpus p).
Proof. apply grows_fold. intros q [slot ev] H. cbn [fst snd]. apply admit_all_grows. by apply routing_in in H. Qed.

(** Every anchor is visited before the search begins, so the search from anchor to anchor adds nothing. *)
Definition seen_all (s : AnchorBfs) : Prop := forall slot, jsmap_get slot (routingSlotToEvent o decoded query corpus) <> None -> slot ∈ ab_visited s.

Lemma visit_anchors_idle l s : seen_all s -> seen_all (visit_anchors o decoded query corpus l s) /\ ab_expansion (visit_anchors o decoded query corpus l s) = ab_expansion s.
Proof.
  revert s. induction l as [|nbr l IH]; intros s H; [done|]. cbn [visit_anchors]. case_bool_decide as Hv; [by apply IH|].
  destruct (jsmap_get nbr _) as [ev|] eqn:E; [exfalso; apply Hv, H; by rewrite E|]. apply (IH (mkAnchorBfs _ _ _)). intros slot Hs. cbn [ab_visited]. apply elem_of_jsset_add. right. by apply H.
Qed.

Lemma anchor_level_idle l s : seen_all s -> seen_all (anchor_level o decoded query corpus l s) /\ ab_expansion (anchor_level o decoded query corpus l s) = ab_expansion s.
Proof.
  revert s. induction l as [|slot l IH]; intros s H; [done|]. cbn [anchor_level]. destruct (visit_anchors_idle (default [] (jsmap_get slot (relAdj o decoded))) s H) as [H1 E1].
  destruct (exhausted _ _); [done|]. destruct (IH _ H1) as [H2 E2]. split; [done|congruence].
Qed.

Lemma anchor_hops_idle n l s : seen_all s -> ab_expansion (anchor_hops o decoded query corpus n l s) = ab_expansion s.
Proof.
  revert l s. induction n as [|n IH]; intros l s H; [done|]. cbn [anchor_hops]. destruct (exhausted _ _); [done|].
  destruct (anchor_level_idle l (mkAnchorBfs (ab_expansion s) (ab_visited s) []) H) as [H1 E1]. by rewrite IH.
Qed.

Lemma anchor_bfs_idle p : anchor_bfs o decoded query corpus p = mkExpansion p 0.
Proof.
  unfold anchor_bfs. rewrite anchor_hops_idle; [done|]. intros slot Hs. cbn [ab_visited]. destruct (jsmap_get slot _) as [ev|] eqn:E; [|done]. apply jsmap_get_in in E.
  change (slot ∈ fst <$> routingSlotToEvent o decoded query corpus). apply list_elem_of_fmap. by exists (slot, ev).
Qed.

(** An expansion that has not used up its budget stays within it. *)
Definition expanded (budget : Z) (s s' : Expansion) : Prop := grows (ex_added s' - ex_added s) (ex_pool s) (ex_pool s') /\ ex_added s' <= Z.max (ex_added s) budget.

Lemma expanded_refl budget s : expanded budget s s.
Proof. split; [rewrite Z.sub_diag; apply grows_refl|lia]. Qed.
Lemma expanded_trans budget s1 s2 s3 : expanded budget s1 s2 -> expanded budget s2 s3 -> expanded budget s1 s3.
Proof.
  intros [G1 B1] [G2 B2]. pose proof (grows_nonneg _ _ _ G1). split; [|lia]. eapply grows_le; [|by eapply grows_trans]. lia.
Qed.

Lemma expand_docs_ok budget slot labelled ev tds s : ev ∈ events corpus -> tds ⊆ truthDocuments ev -> ex_added s < budget -> expanded budget s (expand_docs budget slot labelled ev tds s).
Proof.
  intros He. revert s. induction tds as [|td tds IH]; intros s Hs Hb; cbn [expand_docs]; [apply expanded_refl|].
  pose proof (admit_doc_grows ev slot labelled "anchorBFS" (ex_pool s) td He ltac:(set_solver)) as G. destruct (admit_doc ev slot labelled _ (ex_pool s) td) as [p a]. cbn [fst snd] in G.
  assert (H : expanded budget s (mkExpansion p (ex_added s + is_entered a))).
  { split; cbn [ex_pool ex_added]; [eapply grows_le, G; lia|]. destruct a; cbn [is_entered]; lia. }
  assert (Hi : forall s1, expanded budget s s1 -> ex_added s1 < budget -> expanded budget s (expand_docs budget slot labelled ev tds s1)).
  { intros s1 E1 L1. eapply expanded_trans; [exact E1|]. apply IH; [set_solver|done]. }
  destruct a; cbn [is_entered] in H; rewrite ?Z.add_0_r in H; try (by apply Hi). cbn [ex_added].
  destruct (Z.leb_spec budget (ex_added s + 1)); [done|]. by apply Hi.
Qed.

Lemma follow_relations_ok edgeTypes rels s : expanded (relationBudget o) s (follow_relations o corpus edgeTypes rels s).
Proof.
  revert s. induction rels as [|rel rels IH]; intros s; cbn [follow_relations]; [apply expanded_refl|]. destruct (Z.leb_spec (relationBudget o) (ex_added s)); [apply expanded_refl|].
  eapply expanded_trans; [|apply IH]. case_bool_decide; [|apply expanded_refl]. destruct (corpusEventById _ _) as [tgt|] eqn:E; [|apply expanded_refl].
  apply expand_docs_ok; [by apply corpus_event_in in E|done|done].
Qed.

Lemma follow_anchors_ok anchors s : expanded (relationBudget o) s (follow_anchors o decoded corpus anchors s).
Proof.
  revert s. induction anchors as [|a anchors IH]; intros s; cbn [follow_anchors]; [apply expanded_refl|]. destruct (relationBudget o <=? ex_added s); [apply expanded_refl|].
  eapply expanded_trans; [|apply IH]. destruct (jsmap_get _ _); [|apply expanded_refl]. apply follow_relations_ok.
Qed.

Lemma relations_grow p : grows (Z.max 0 (relationBudget o)) p (ex_pool (expand_relations o decoded query corpus (anchor_bfs o decoded query corpus p))).
Proof.
  rewrite anchor_bfs_idle. unfold expand_relations. destruct (not_false _); [|eapply grows_le, grows_refl; lia].
  destruct (follow_anchors_ok (routingSlotToEvent o decoded query corpus) (mkExpansion p 0)) as [G B]. cbn [ex_added ex_pool] in *. eapply grows_le, G. lia.
Qed.

Lemma foldr_zeros {B} (l : list B) : foldr (fun _ s => 0 + s) 0 l = 0.
Proof. by induction l. Qed.

Lemma tags_grow p : grows 0 p (tag_anchors o decoded query corpus p).
Proof.
  unfold tag_anchors. rewrite <- (foldr_zeros (routingSlotToEvent o decoded query corpus)). apply grows_fold. intros q [slot ev] _. cbn [fst snd].
  rewrite <- (foldr_zeros (truthDocuments ev)). apply grows_fold. intros q' td _. unfold tag_doc.
  destruct (jsmap_get _ _) as [e|] eqn:E; [|apply grows_refl]. destruct (pe_memorySlot e); [apply grows_refl|]. by eapply grows_tag.
Qed.

(** ** Category lenses *)
Lemma add_truths_grow ev w cap tds s : ev ∈ events corpus -> tds ⊆ truthDocuments ev -> 0 <= pool_added s ->
  let s' := fold_left (add_truth_to_pool ev w cap) tds s in grows (pool_added s' - pool_added s) (pool s) (pool s') /\ pool_added s' <= Z.max (pool_added s) cap.
Proof.
  intros He. revert s. induction tds as [|td tds IH]; intros s Hs H0; cbn [fold_left]; [cbv zeta; rewrite Z.sub_diag; split; [apply grows_refl|lia]|].
  assert (H : grows (pool_added (add_truth_to_pool ev w cap s td) - pool_added s) (pool s) (pool (add_truth_to_pool ev w cap s td))
    /\ pool_added s <= pool_added (add_truth_to_pool ev w cap s td) <= Z.max (pool_added s) cap).
  { unfold add_truth_to_pool. destruct (jsmap_get (td_id td) (pool s)) as [e|] eqn:Ep; cbn [pool pool_added].
    - rewrite Z.sub_diag. split; [by eapply grows_tag, addSource_same|lia].
    - destruct (Z.leb_spec cap (pool_added s)); [rewrite Z.sub_diag; split; [apply grows_refl|lia]|].
      destruct (jsmap_get (td_id td) (perTruth _)) as [emb|] eqn:Em; cbn [pool pool_added]; [|rewrite Z.sub_diag; split; [apply grows_refl|lia]].
      split; [|lia]. eapply grows_le; [|apply grows_enter; [done|done|]]; [lia|]. exists ev, td. split_and!; try done. set_solver. }
  destruct H as [G B]. destruct (IH (add_truth_to_pool ev w cap s td) ltac:(set_solver) ltac:(lia)) as [G' B']. cbv zeta in *. split; [|lia].
  eapply grows_le; [|by eapply grows_trans]. lia.
Qed.

Definition lens_grown (s s' : LensBfs) : Prop := grows (lb_added s' - lb_added s) (lb_pool s) (lb_pool s') /\ lb_added s' <= Z.max (lb_added s) (categoryLensBudget o).
Lemma lens_grown_refl s : lens_grown s s.
Proof. split; [rewrite Z.sub_diag; apply grows_refl|lia]. Qed.
Lemma lens_grown_trans s1 s2 s3 : lens_grown s1 s2 -> lens_grown s2 s3 -> lens_grown s1 s3.
Proof.
  intros [G1 B1] [G2 B2]. pose proof (grows_nonneg _ _ _ G1). split; [|lia]. eapply grows_le; [|by eapply grows_trans]. lia.
Qed.

Lemma lens_edges_grow eventId edges s : lens_grown s (lens_edges o decoded query corpus eventId edges s).
Proof.
  revert s. induction edges as [|[t tgtId] edges IH]; intros s; cbn [lens_edges]; [apply lens_grown_refl|].
  destruct (jsmap_get t _) as [w|]; [|apply IH]. destruct (corpusEventById corpus tgtId) as [tgt|] eqn:E; [|apply IH].
  match goal with |- context [lens_edge ?a ?b ?c ?d ?e ?f] => assert (H : lens_grown s (lens_edge a b c d e f)) end.
  { unfold lens_edge, lens_grown, addEventTruthsToPool. cbn [lb_pool lb_added].
    destruct (add_truths_grow tgt (ddiv (of_Z w) (of_Z 65535)) (categoryLensBudget o - lb_added s) (truthDocuments tgt) (mkPool (lb_pool s) (lb_weights s) 0)) as [G B]; [by apply corpus_event_in in E|done|done|].
    cbn [pool pool_added] in G, B. cbv zeta in G, B. split; [eapply grows_le, G; lia|lia]. }
  destruct (_ <=? _); [done|]. eapply lens_grown_trans; [exact H|]. apply IH.
Qed.

Lemma lens_level_grown frontier s : lens_grown s (lens_level o decoded query corpus frontier s).
Proof.
  revert s. induction frontier as [|eventId frontier IH]; intros s; cbn [lens_level]; [apply lens_grown_refl|]. destruct (_ <=? _); [apply lens_grown_refl|].
  eapply lens_grown_trans; [|apply IH]. destruct (corpusEventById _ _) as [source|]; [|apply lens_grown_refl]. eapply lens_grown_trans; apply lens_edges_grow.
Qed.

Lemma lens_hops_grown n frontier s : lens_grown s (lens_hops o decoded query corpus n frontier s).
Proof.
  revert frontier s. induction n as [|n IH]; intros frontier s; cbn [lens_hops]; [apply lens_grown_refl|]. destruct (_ <=? _); [apply lens_grown_refl|]. cbv zeta.
  eapply lens_grown_trans; [|apply IH]. apply (lens_level_grown frontier (mkLensBfs _ _ _ _ _ _)).
Qed.

Lemma lens_grow stage1 p : grows (Z.max 0 (categoryLensBudget o)) p (lb_pool (lens_bfs o decoded query corpus stage1 p)).
Proof.
  unfold lens_bfs. cbv zeta. destruct (_ || _); [eapply grows_le, grows_refl; lia|].
  match goal with |- context [lens_hops _ _ _ _ ?n ?f ?s] => destruct (lens_hops_grown n f s) as [G B] end. cbn [lb_added lb_pool] in *. eapply grows_le, G. lia.
Qed.

(** ** Motifs *)
Lemma motif_cap : 0 <= motifAdmissionMaxDocs o <= 64.
Proof. unfold motifAdmissionMaxDocs. lia. Qed.

Lemma temporal_motif_grows p : grows 64 p (scan_pool (admit_temporal_motif o decoded query corpus p)).
Proof.
  pose proof motif_cap. assert (R : grows 64 p (scan_pool (mkScan p [] (motifAdmissionMaxDocs o)))) by (eapply grows_le, grows_refl; lia).
  unfold admit_temporal_motif. cbv zeta. destruct (_ && _); [|exact R]. destruct (intent_attribute _) as [attribute|]; [|exact R]. destruct (intent_subject _) as [subject|]; [|exact R].
  case_bool_decide; [|exact R]. eapply grows_le; [|apply scan_bound; [|lia]]; [lia|]. rewrite stableSort_perm. apply validity_motif_in.
Qed.

Lemma validity_atoms_grow p : grows 4 p (admit_validity_atoms o decoded query corpus p).
Proof.
  unfold admit_validity_atoms. destruct (_ && _); [|by eapply grows_le, grows_refl]. apply scan_bound; [|lia]. apply Forall_forall. intros ev (id & _ & H)%list_elem_of_omap.
  destruct (temporalRecordAppliesToQuery _ _ _ id); [|done]. destruct (corpusEventById corpus id) as [e|] eqn:E; [|done]. destruct (_ && _); [|done]. injection H as <-. by apply corpus_event_in in E.
Qed.

Lemma conflict_motif_grows p : grows 64 p (scan_pool (admit_conflict_motif o decoded query corpus p)).
Proof.
  pose proof motif_cap. assert (R : grows 64 p (scan_pool (mkScan p [] (motifAdmissionMaxDocs o)))) by (eapply grows_le, grows_refl; lia).
  unfold admit_conflict_motif. cbv zeta. destruct (_ && _); [|exact R]. destruct (conflictScopeClassForQuery _) as [scopeClass|]; [|exact R]. destruct (nonempty_text _) as [subject|]; [|exact R].
  destruct (existsb _ _); [|exact R]. eapply grows_le; [|apply scan_bound; [|lia]]; [lia|]. rewrite stableSort_perm. apply conflict_motif_in.
Qed.

Definition motif_grown (s s' : MotifDocs) : Prop := grows (md_left s - md_left s') (md_pool s) (md_pool s') /\ (0 <= md_left s -> 0 <= md_left s').
Lemma motif_grown_refl s : motif_grown s s.
Proof. split; [rewrite Z.sub_diag; apply grows_refl|done]. Qed.
Lemma motif_grown_trans s1 s2 s3 : motif_grown s1 s2 -> motif_grown s2 s3 -> motif_grown s1 s3.
Proof. intros [G1 B1] [G2 B2]. split; [|auto]. eapply grows_le; [|by eapply grows_trans]. lia. Qed.

Lemma follow_motif_grown rels s : motif_grown s (follow_motif query corpus rels s).
Proof.
  revert s. induction rels as [|rel rels IH]; intros s; cbn [follow_motif]; [apply motif_grown_refl|]. destruct (Z.leb_spec (md_left s) 0); [apply motif_grown_refl|].
  eapply motif_grown_trans; [|apply IH]. case_bool_decide; [|apply motif_grown_refl]. destruct (corpusEventById _ _) as [target|] eqn:E; [|apply motif_grown_refl].
  pose proof (addAtomEventDocs_grows target "evidenceMotif" (md_left s) (md_pool s) ltac:(by apply corpus_event_in in E)) as [G B].
  destruct (addAtomEventDocs _ _ _ _) as [p docs]. cbn [fst snd] in G, B. split; cbn [md_left md_pool]; [eapply grows_le, G; lia|lia].
Qed.

Lemma motif_seeds_grown seeds s : motif_grown s (motif_seeds query corpus seeds s).
Proof.
  revert s. induction seeds as [|id seeds IH]; intros s; cbn [motif_seeds]; [apply motif_grown_refl|]. destruct (_ <=? _); [apply motif_grown_refl|].
  eapply motif_grown_trans; [|apply IH]. destruct (corpusEventById _ _); [apply follow_motif_grown|apply motif_grown_refl].
Qed.

Lemma evidence_motif_grows stage1 p : grows 64 p (md_pool (admit_evidence_motif o decoded query corpus stage1 p)).
Proof.
  pose proof motif_cap. assert (R : grows 64 p (md_pool (mkMotifDocs p [] (motifAdmissionMaxDocs o)))) by (eapply grows_le, grows_refl; lia).
  unfold admit_evidence_motif. cbv zeta. destruct (_ && _); [|exact R]. destruct (existsb _ _); [|exact R].
  match goal with |- context [motif_seeds _ _ ?l ?s] => destruct (motif_seeds_grown l s) as [G B] end. cbn [md_left md_pool] in *. eapply grows_le, G. lia.
Qed.

(** Everything the substrate may add to the documents of stage 1. *)
Definition admission_bound : Z :=
  256 + 256 + policy_truths + anchor_truths + Z.max 0 (relationBudget o) + Z.max 0 (categoryLensBudget o) + 64 + 4 + 64 + 64.

Lemma gather_grows stage1 : grows admission_bound (stage1_pool corpus stage1) (cd_pool (gather o decoded query corpus stage1)).
Proof.
  unfold gather. cbv zeta. cbn [cd_pool]. set (p1 := scan_pool (admit_entities _ _ _ _ _)). set (p2 := scan_pool (admit_scopes _ _ _ _ p1)). set (p3 := pa_pool (admit_policy _ _ _ _ p2)).
  set (p4 := admit_anchors _ _ _ _ p3). set (p5 := ex_pool (expand_relations _ _ _ _ (anchor_bfs _ _ _ _ p4))). set (p6 := tag_anchors _ _ _ _ p5). set (p7 := lb_pool (lens_bfs _ _ _ _ stage1 p6)).
  set (p8 := scan_pool (admit_temporal_motif _ _ _ _ p7)). set (p9 := admit_validity_atoms _ _ _ _ p8). set (p10 := scan_pool (admit_conflict_motif _ _ _ _ p9)).
  eapply grows_le; cycle 1.
  - do 10 (eapply grows_trans; [|first [apply evidence_motif_grows | apply conflict_motif_grows | apply validity_atoms_grow | apply temporal_motif_grows | apply lens_grow | apply tags_grow
      | apply relations_grow | apply anchors_grow | apply policy_grows | apply scopes_grow]]). apply entities_grow.
  - unfold admission_bound. lia.
Qed.
End Growth.

(** ** Stage 1 in the pool *)
Definition from_stage1 (corpus : ProductionCorpus) (stage1 : list PublicCorpusDoc) (e : PoolEntry) : Prop :=
  exists d, d ∈ stage1 /\ pe_docId e = pd_id d /\ pe_embedding e = pd_embedding d /\ pe_eventId e = pd_eventId d
    /\ jsmap_get (pd_id d) (getOrBuildDocTextIndex corpus) = Some (pe_text e) /\ "stage1"%string ∈ sources e.

Lemma from_stage1_same corpus stage1 e e' : same_doc e e' -> from_stage1 corpus stage1 e -> from_stage1 corpus stage1 e'.
Proof. intros [S1 S2 S3 S4 S5] (d & H1 & H2 & H3 & H4 & H5 & H6). exists d. split_and!; [done|congruence|congruence|congruence|congruence|by apply S5]. Qed.

Record stage1_ok (corpus : ProductionCorpus) (stage1 : list PublicCorpusDoc) (p : Pool) : Prop := {
  s1_ids : NoDup p.*1;
  s1_from : Forall (fun e => pe_docId e.2 = e.1 /\ from_stage1 corpus stage1 e.2 /\ pe_memorySlot e.2 = None /\ sources e.2 = ["stage1"%string]) p
}.

Lemma stage1_pool_ok corpus stage1 : stage1_ok corpus stage1 (stage1_pool corpus stage1).
Proof.
  unfold stage1_pool. apply fold_left_in; [|split; constructor]. intros p d Hd [H1 H2]. destruct (jsmap_get _ _) as [[|c txt]|] eqn:E; [done| |done].
  split; [by apply jsmap_set_NoDup|]. apply jsmap_set_Forall; [done|]. cbn [fst snd]. split; [done|]. split; [|done]. exists d. split_and!; try done. by apply list_elem_of_singleton.
Qed.

Lemma stage1_pool_size corpus stage1 : (length (stage1_pool corpus stage1) <= length stage1)%nat.
Proof.
  unfold stage1_pool. assert (H : forall p : Pool, (length (fold_left (fun p d => match jsmap_get (pd_id d) (getOrBuildDocTextIndex corpus) with
    | None | Some EmptyString => p | Some txt => jsmap_set (pd_id d) (stage1_record d txt) p end) stage1 p) <= length p + length stage1)%nat); [|apply (H [])].
  induction stage1 as [|d stage1 IH]; intros p; cbn [fold_left length]; [lia|]. etrans; [apply IH|].
  assert (forall e, length (jsmap_set (pd_id d) e p) <= S (length p))%nat; [|destruct (jsmap_get _ _) as [[|c txt]|]; [lia| |lia]; specialize (H (stage1_record d (String c txt))); lia].
  intros e. rewrite <- (length_fmap fst (jsmap_set _ _ _)), jsmap_set_keys. case_decide; rewrite ?length_app, length_fmap; cbn; lia.
Qed.

Lemma stage1_pool_has corpus stage1 d c txt : d ∈ stage1 -> jsmap_get (pd_id d) (getOrBuildDocTextIndex corpus) = Some (String c txt) -> is_Some (jsmap_get (pd_id d) (stage1_pool corpus stage1)).
Proof.
  unfold stage1_pool. generalize ([] : Pool). induction stage1 as [|d' stage1 IH]; intros p Hd E; [by apply not_elem_of_nil in Hd|]. cbn [fold_left]. apply elem_of_cons in Hd as [<-|Hd]; [|by apply IH].
  rewrite E. apply fold_left_in; [|rewrite jsmap_get_set, decide_True by done; by eexists]. intros q d' _ Hq. destruct (jsmap_get (pd_id d') _) as [[|c' txt']|]; [done| |done].
  rewrite jsmap_get_set. case_decide; [by eexists|done].
Qed.

Section Gather.
Context {HK : Hasher} (o : ScoringOptions) (decoded : DecodedSubstrate) (query : ProductionCorpusEvent) (corpus : ProductionCorpus).
Context (indexed : byId corpus = index_events (events corpus)).

Abbreviation gathered stage1 := (cd_pool (gather o decoded query corpus stage1)).

Lemma gather_NoDup stage1 : NoDup (gathered stage1).*1.
Proof. destruct (gather_grows corpus o decoded query indexed stage1) as [G _ _ _]. apply G, stage1_pool_ok. Qed.

(** What the first stage found stays in the pool. *)
Lemma gather_keeps stage1 id e : jsmap_get id (stage1_pool corpus stage1) = Some e ->
  exists e', jsmap_get id (gathered stage1) = Some e' /\ pe_docId e' = id /\ from_stage1 corpus stage1 e'.
Proof.
  intros He. destruct (gather_grows corpus o decoded query indexed stage1) as [_ _ G _]. destruct (stage1_pool_ok corpus stage1) as [_ S]. rewrite Forall_forall in S.
  destruct (G id e He) as (e' & H' & D). destruct (S (id, e) (jsmap_get_in _ _ _ He)) as (E1 & E2 & _ & _). exists e'. split; [done|]. split; [destruct D; cbn in *; congruence|]. by eapply from_stage1_same.
Qed.

Lemma gather_entries stage1 id e : (id, e) ∈ gathered stage1 -> pe_docId e = id /\ (from_stage1 corpus stage1 e \/ truth_of corpus e).
Proof.
  intros He. apply jsmap_get_elem in He; [|apply gather_NoDup]. destruct (gather_grows corpus o decoded query indexed stage1) as [_ _ _ G].
  destruct (G id e He) as [[e0 H0]|[E T]]; [|split; [done|by right]]. destruct (gather_keeps stage1 id e0 H0) as (e' & H' & E' & F'). rewrite He in H'. injection H' as <-. split; [done|by left].
Qed.

(** C17. The pool of a query holds every document once, each under its own id and with its own text and embedding: what the first stage found, and besides
    only documents of the corpus. Nothing that the first stage found is lost, whatever the substrate says. *)
Theorem gather_sound stage1 : let p := cd_pool (gather o decoded query corpus stage1) in
  NoDup (map fst p)
  /\ (forall id e, (id, e) ∈ p -> pe_docId e = id /\ (from_stage1 corpus stage1 e \/ truth_of corpus e))
  /\ (forall d c txt, d ∈ stage1 -> jsmap_get (pd_id d) (getOrBuildDocTextIndex corpus) = Some (String c txt) ->
        exists e, (pd_id d, e) ∈ p /\ from_stage1 corpus stage1 e).
Proof.
  cbv zeta. split; [exact (gather_NoDup stage1)|]. split; [apply gather_entries|]. intros d c txt Hd Ht. destruct (stage1_pool_has corpus stage1 d c txt Hd Ht) as [e0 H0].
  destruct (gather_keeps stage1 _ _ H0) as (e' & H' & _ & F'). exists e'. split; [by apply jsmap_get_in|done].
Qed.

(** What the substrate adds to the first stage is bounded by the options' budgets, the documents of its anchors and those of the policy atoms that admit;
    the search from anchor to anchor adds nothing. *)
Theorem gather_bounded stage1 :
  Z.of_nat (length (cd_pool (gather o decoded query corpus stage1))) <= Z.of_nat (length stage1) + admission_bound corpus o decoded query
  /\ forall p, anchor_bfs o decoded query corpus p = mkExpansion p 0.
Proof.
  split; [|intros p; apply anchor_bfs_idle]. destruct (gather_grows corpus o decoded query indexed stage1) as [_ G _ _]. pose proof (stage1_pool_size corpus stage1). lia.
Qed.

(** A substrate without records. *)
Record blank : Prop := {
  bl_memory : Forall (fun s => s = None) (memoryIndex decoded);
  bl_keys : Forall (fun k => k = None) (retrievalKeys decoded);
  bl_relations : relations decoded = [];
  bl_lenses : categoryLenses decoded = [];
  bl_temporal : dec_temporal decoded = [];
  bl_evidence : evidenceBundleAtoms decoded = [];
  bl_conflict : conflictLifecycleAtoms decoded = [];
  bl_abstention : abstentionAtoms decoded = []
}.

Lemma blank_slots : blank -> live_slots decoded = [].
Proof.
  intros [H _ _ _ _ _ _ _]. unfold live_slots.
  assert (E : forall k l, Forall (fun s : option MemoryIndexSlot => s = None) l -> omap (fun e : nat * option MemoryIndexSlot => match e.2 with Some slot => if revoked slot then None else Some (Z.of_nat e.1, slot) | None => None end)
    (imap (fun i => pair (k + i)%nat) l) = []); [|apply (E 0%nat _ H)].
  intros k l Hl. revert k. induction Hl as [|x l -> Hl IH]; intros k; [done|]. cbn. rewrite (imap_ext _ (fun i => pair (S k + i)%nat)); [apply IH|]. intros i y _. unfold compose. by rewrite Nat.add_succ_r.
Qed.

Lemma blank_anchors : blank -> anchorSlotToEvent decoded corpus = [] /\ policyAnchorSlots decoded = [] /\ routingSlotToEvent o decoded query corpus = [].
Proof.
  intros B. unfold routingSlotToEvent, anchorSlotToEvent, policyAnchorSlots. rewrite (blank_slots B). split_and!; try done. by destruct (not_false _).
Qed.

Lemma gather_blank stage1 : blank -> cd_pool (gather o decoded query corpus stage1) = stage1_pool corpus stage1.
Proof.
  intros B. destruct (blank_anchors B) as (A1 & A2 & A3). destruct B as [_ _ B1 B2 B3 B4 B5 _]. unfold gather. cbv zeta. cbn [cd_pool].
  assert (E1 : forall p, scan_pool (admit_entities o decoded query corpus p) = p) by (intros p; unfold admit_entities, anchor_events, atomAnchorSlots; rewrite A2; by destruct (_ && _)).
  assert (E2 : forall p, scan_pool (admit_scopes o decoded query corpus p) = p) by (intros p; unfold admit_scopes, anchor_events, atomAnchorSlots; rewrite A2; by destruct (_ && _)).
  assert (E3 : forall p, pa_pool (admit_policy o decoded query corpus p) = p).
  { intros p. assert (V : evidence_atoms o decoded = []) by (unfold evidence_atoms; rewrite B4; by destruct (not_false _)).
    assert (C : conflict_atoms o decoded = []) by (unfold conflict_atoms; rewrite B5; by destruct (not_false _)).
    unfold admit_policy. cbv zeta. rewrite V, C. destruct (_ && bool_decide _); [|done]. destruct (_ && _); [|done]. cbn [fold_left]. by destruct (_ && _). }
  assert (E4 : forall p, admit_anchors o decoded query corpus p = p) by (intros p; unfold admit_anchors; by rewrite A3).
  assert (E5 : forall p, ex_pool (expand_relations o decoded query corpus (anchor_bfs o decoded query corpus p)) = p) by (intros p; rewrite anchor_bfs_idle; unfold expand_relations; rewrite A3; by destruct (not_false _)).
  assert (E6 : forall p, tag_anchors o decoded query corpus p = p) by (intros p; unfold tag_anchors; by rewrite A3).
  assert (E7 : forall p, lb_pool (lens_bfs o decoded query corpus stage1 p) = p).
  { intros p. unfold lens_bfs. cbv zeta. assert (L : lensesByEdgeType o decoded query = []) by (unfold lensesByEdgeType; by rewrite B2). by rewrite L. }
  assert (T : temporal_sets decoded corpus = ([], [])) by (unfold temporal_sets; by rewrite B3).
  assert (E8 : forall p, scan_pool (admit_temporal_motif o decoded query corpus p) = p).
  { intros p. unfold admit_temporal_motif. cbv zeta. destruct (_ && _); [|done]. destruct (intent_attribute _); [|done]. destruct (intent_subject _); [|done].
    unfold temporalMotifAttributes, temporalBoostEventIds, temporalSuppressEventIds. rewrite T. cbn. done. }
  assert (E9 : forall p, admit_validity_atoms o decoded query corpus p = p).
  { intros p. unfold admit_validity_atoms, temporalBoostEventIds, temporalSuppressEventIds. rewrite T. by destruct (_ && _). }
  assert (E10 : forall p, scan_pool (admit_conflict_motif o decoded query corpus p) = p).
  { intros p. unfold admit_conflict_motif. cbv zeta. rewrite B5. destruct (_ && _); [|done]. destruct (conflictScopeClassForQuery _); [|done]. by destruct (nonempty_text _). }
  assert (E11 : forall p, md_pool (admit_evidence_motif o decoded query corpus stage1 p) = p).
  { intros p. unfold admit_evidence_motif. cbv zeta. rewrite B4. by destruct (_ && _). }
  by rewrite E1, E2, E3, E4, E5, E6, E7, E8, E9, E10, E11.
Qed.

Lemma blank_scans stage1 : blank ->
  let cd := gather o decoded query corpus stage1 in
  scan_admitted (cd_entities cd) = [] /\ scan_admitted (cd_scopes cd) = [] /\ scan_admitted (cd_conflict cd) = [] /\ md_docs (cd_evidence cd) = [] /\ lensPeerEvents (cd_lens cd) = [].
Proof.
  intros B. destruct (blank_anchors B) as (_ & A2 & _). destruct B as [_ _ _ B2 _ B4 B5 _]. unfold gather. cbv zeta. cbn [cd_entities cd_scopes cd_conflict cd_evidence cd_lens]. split_and!.
  - unfold admit_entities, anchor_events, atomAnchorSlots. rewrite A2. by destruct (_ && _).
  - unfold admit_scopes, anchor_events, atomAnchorSlots. rewrite A2. by destruct (_ && _).
  - unfold admit_conflict_motif. cbv zeta. rewrite B5. destruct (_ && _); [|done]. destruct (conflictScopeClassForQuery _); [|done]. by destruct (nonempty_text _).
  - unfold admit_evidence_motif. cbv zeta. rewrite B4. by destruct (_ && _).
  - unfold lens_bfs, lensesByEdgeType. cbv zeta. by rewrite B2.
Qed.
End Gather.

(** ** Witnesses *)
Definition weights_w : CompositeWeights := mkWeights (of_frac 70 100) (of_frac 5 100) (of_frac 5 100) (of_frac 15 100) (of_frac 5 100).
Definition stage_w : StageOptions := mkStage 2 None None None false 2.
Definition routing_w : RoutingOptions := mkRouting None None false 2 2 None false None None false false false None None.
Definition bonus_w : BonusOptions := mkBonus 1 float0 float0 float0 float0 None None None None false false false false None.
Definition policy_w : PolicyOptions := mkPolicy None None None None false false None None None None None None None None false None None true None false false false.
Definition options_w (weights : CompositeWeights) (layout : Decoder.RetrievalKeyLayout) (pin : option string) (atoms : bool) : ScoringOptions :=
  mkScoring weights layout "0x00000000" (of_frac 1 2) 10 pin atoms None false stage_w routing_w bonus_w policy_w (mkRender false false false None) None None.
Definition opts_1 : ScoringOptions := options_w weights_w (Decoder.mkLayout 1 4 int8) None true.

(** Two events; the record id of either one is that of the second under a constant hash. *)
Definition docs_2 : list (string * string * bytes) := [("d", "a grey wolf", scale_1 250)]%string.
Definition corpus_2 : ProductionCorpus :=
  let evs := [event_1 "e" docs_1; event_1 "f" docs_2] in mkCorpus evs (index_events evs) None None "0x00" 0 "r" "m" (layout_1 "int8") "r" "m".
Definition query_2 : ProductionCorpusEvent :=
  CorpusRoot.mkEvent "q" "temporal" "general" eval_hidden "red fox" [mkTruth "d" "a grey wolf" true None] [] [mkQrel "d" float1] false "0x00" [] (mkEmbedding "m" "r" (layout_1 "int8") (scale_1 1) [] []) [].
(** A substrate whose only record anchors the second event; one without records. *)
Definition decoded_of (slots : list (option MemoryIndexSlot)) : DecodedSubstrate := mkDecoded slots [] [] [] [] [] 0 0 0 None 0 [] [] [] 0.
Definition anchored : DecodedSubstrate := decoded_of [None; Some (mkSlot 1 (stableRecordIdFor (HK:=const_hasher) "f") multi_hop_relation 0 true false false false 0 0)].
Definition stage1_2 : list PublicCorpusDoc := [mkDoc "a" "e" (scale_1 3) "the fox ran"; mkDoc "b" "e" (scale_1 5) "the red fox"].

Lemma gather_sound_witness : byId corpus_2 = index_events (events corpus_2)
  /\ map fst (cd_pool (gather (HK:=const_hasher) opts_1 anchored query_2 corpus_2 stage1_2)) = ["a"; "b"; "d"]%string
  /\ exists e, ("a"%string, e) ∈ cd_pool (gather (HK:=const_hasher) opts_1 anchored query_2 corpus_2 stage1_2) /\ from_stage1 corpus_2 stage1_2 e.
Proof.
  split; [reflexivity|]. split; [vm_compute; reflexivity|]. destruct (gather_sound (HK:=const_hasher) opts_1 anchored query_2 corpus_2 eq_refl stage1_2) as (_ & _ & H).
  apply (H (mkDoc "a" "e" (scale_1 3) "the fox ran") "t"%char "he fox ran"%string); [by left|vm_compute; reflexivity].
Defined.

Lemma gather_bounded_witness : byId corpus_2 = index_events (events corpus_2)
  /\ Z.of_nat (length (cd_pool (gather (HK:=const_hasher) opts_1 anchored query_2 corpus_2 stage1_2))) <= 2 + admission_bound (HK:=const_hasher) corpus_2 opts_1 anchored query_2.
Proof. split; [reflexivity|]. apply (gather_bounded (HK:=const_hasher) opts_1 anchored query_2 corpus_2 eq_refl stage1_2). Defined.
