(* ===== verification/QueryRanking.v ===== *)
(** * Ranking the candidates of a query (eval/retrieval-benchmark.ts, eval/memory-ir-render.ts)

    The second half of [scoreSubstrateAgainstQuery]: the bonuses of a
    candidate, the cap on the reranker's input, the text the reranker reads,
    inherited scores, policy nudges and the final order. The first half is
    [CandidatePool].

    The reranker is a parameter: a list of (query, document) pairs to a list of
    scores, checked as the source checks it. Telemetry, full dumps and the
    free-text members of traces are left out; times are not modelled.

    Theorems: the reranker sees at most the cap, each document once, and the
    substrate's documents first; the result is the pool in sorted order; the
    labels of the query do not move it; an empty substrate leaves the order to
    the reranker. *)
From Stdlib Require Import Ascii Sorted.
From stdpp Require Import pretty.
From S2P Require Import Prelude JsSort StateTypes Float Codec Keccak Merkle Decoder Substrate SeedDerivation CanonicalJson CorpusRoot CorpusDelta HiddenPack FirstStage Metrics QueryIntent CandidatePool.
#[local] Open Scope Z_scope.

(** ** The Memory-IR grammar *)
Definition unless_none (o : option string) : option string := match o with Some "none"%string | Some EmptyString => None | x => x end.
Definition field_text (k : string) (o : option string) : list string := match o with Some v => [(k +:+ "=" +:+ v)%string] | None => [] end.

Definition renderMemoryIRHeader (ir : MemoryIR) : option string :=
  let path := stableSort (fold_left (fun s x => jsset_add x s) (filter (fun p => p <> EmptyString) (relation_path ir)) []) string_cmp in
  let parts := field_text "lifecycle" (unless_none (ir_lifecycle ir))
    ++ field_text "role" (unless_none (evidence_role ir))
    ++ field_text "path" (match path with [] => None | _ => Some (join_with "," path) end)
    ++ field_text "conflict" (unless_none (conflict_state ir))
    ++ field_text "scope" ((fun b : bool => if b then "match" else "differs") <$> scope_match ir)%string
    ++ field_text "evidence" (if has_public_evidence_path ir then Some "true"%string else None)
    ++ field_text "density" (match answer_density ir with Some n => if 0 <? n then Some (pretty n) else None | None => None end) in
  match parts with [] => None | _ => Some ("[memory_ir " +:+ join_with "; " parts +:+ "]")%string end.

Definition renderMemoryIRDoc (ir : MemoryIR) (candidateText : string) : string :=
  match renderMemoryIRHeader ir with Some header => (header +:+ newline +:+ candidateText)%string | None => candidateText end.

(** ** Candidates *)
Record Candidate := mkCandidate {
  record : PoolEntry;
  admissionBonus : number;
  finalBonus : number;
  biCosine : number;
  preRankScore : number;
  lensBonus : number;
  anchorBonus : number;
  categoryLensBonus : number;
  temporalBonus : number
}.
Definition cand_id (c : Candidate) : string := pe_docId (record c).
Definition cand_event (c : Candidate) : string := pe_eventId (record c).
Definition has_source (src : string) (c : Candidate) : bool := bool_decide (src ∈ sources (record c)).

Definition POLICY_HIGH_DENSITY : Z := 5.

(** The best cosine with one of the vectors, at least 0. *)
Definition max_cosine (docVec : list number) (vecs : list (list number)) : outcome number :=
  cs ← mapM (cosineSimilarity docVec) vecs;
  Returns (fold_left (fun m c => if dlt m c then c else m) cs float0).

Section Rank.
Context {HK : Hasher} (math_log : number -> number) (sha256_hex : string -> string).
Context (rerank : list (string * string) -> outcome (list number)).
Context (o : ScoringOptions) (decoded : DecodedSubstrate) (query : ProductionCorpusEvent) (corpus : ProductionCorpus).

Definition activeLensVecs : outcome (list (list number)) :=
  let keys := omap (fun k => match k with Some key => if String.eqb (toLowerCase (modelIdHash key)) (toLowerCase (biEncoderHash o)) then Some key else None | None => None end) (retrievalKeys decoded) in
  mapM (fun key => dequantize (quantizedBytes key) (layout_of (so_layout o))) (take (Z.to_nat (Z.max 1 (lensTopK (so_bonus o)))) keys).

(** The embedding of an anchor: its current truth, or else its first. *)
Definition anchor_embedding (ev : ProductionCorpusEvent) : option bytes :=
  t ← match filter (fun t => isCurrent t = true) (truthDocuments ev) with t :: _ => Some t | [] => head (truthDocuments ev) end;
  jsmap_get (td_id t) (perTruth (embeddings ev)).
Definition anchorTruthVecs : outcome (list (list number)) :=
  mapM (fun emb => dequantize emb (layout_of (so_layout o))) (omap (fun e => anchor_embedding e.2) (routingSlotToEvent o decoded query corpus)).

(** Documents of the query's own truth, when temporal records are scoped to it. *)
Definition ownTemporalTruthIds : option (list string) :=
  if temporalOracleScopePerQuery (so_bonus o) && isTemporalQuery o query then Some (map td_id (truthDocuments query)) else None.

Definition contributionBoostByEventId : list (string * number) :=
  if evidencePolicyEnabled (so_bonus o) then
    let inDeg := getOrBuildSupportsInDegree corpus in
    fold_left (fun m a =>
        let k := Z.land (payload a) 0xffff in
        let w := math_max float0 (math_min float1 (ddiv (of_Z (Z.land (Z.shiftr (payload a) 16) 0xffffffff)) (of_Z 1000000))) in
        if (k <=? 0) || dle w float0 then m
        else fold_left (fun m e => if k <=? e.2 then if dlt (default float0 (jsmap_get e.1 m)) w then jsmap_set e.1 w m else m else m) inDeg m)
      (filter (fun a => cb_valid a = true /\ cb_code a = POLICY_HIGH_DENSITY) (omap id (codebook decoded))) []
  else [].

Definition aspectIntent : option string :=
  if so_policyAtomsMode o && enableAspectConstraintAtoms (so_bonus o) && policyAspectIntentAdmission (so_policy o) then parseQueryAspectIntent (queryText query) else None.
Definition aspectBoost : number := default float0 (policyAspectBoost (so_bonus o)).
Definition aspect_bonus (docId : string) : number :=
  match aspectIntent with
  | Some intent =>
    if dlt float0 aspectBoost then
      let maps := getPublicAspectMaps corpus (policyGenericEntityIds o) in
      let subjects := resolveQuerySubjects (Some (queryText query)) (string_member "subjectEntityId" query) (policyEntityRegistry o) (policyGenericEntityIds o) POLICY_MAX_SELECTOR_FANOUT in
      match jsmap_get docId maps.1, jsmap_get docId maps.2 with
      | Some tags, Some subj => if bool_decide (intent ∈ tags) && negb (String.eqb subj "") && bool_decide (subj ∈ subjects) then aspectBoost else float0
      | _, _ => float0
      end
    else float0
  | None => float0
  end.

Definition temporal_bonus (roles : list (string * Lifecycle)) (e : PoolEntry) : number :=
  let own := match ownTemporalTruthIds with None => true | Some ids => bool_decide (pe_docId e ∈ ids) end in
  if isTemporalQuery o query && own then
    match temporalLifecycleForQueryEvent o decoded query corpus roles (pe_eventId e) with
    | lc_superseded => SFopp (temporalStaleSuppression (so_bonus o))
    | lc_current => temporalCurrentBoost (so_bonus o)
    | lc_none => float0
    end
  else float0.

Definition categoryLensAdmissionScale : number := default (lensWeight (so_bonus o)) (categoryLensBonusWeight (so_bonus o)).
Definition categoryLensFinalScale : number := default categoryLensAdmissionScale (categoryLensFinalBonusWeight (so_bonus o)).
Definition lens_scaled (scale w : number) : number := if default true (opt_categoryLensBonusEnabled (so_bonus o)) then dmul scale w else float0.

Definition make_candidate (queryVec : list number) (lensVecs anchorVecs : list (list number)) (cd : Candidates) (e : PoolEntry) : outcome Candidate :=
  docVec ← dequantize (pe_embedding e) (layout_of (so_layout o));
  lensMaxCos ← max_cosine docVec lensVecs;
  anchorMaxCos ← max_cosine docVec anchorVecs;
  let lensB := match lensVecs with [] => float0 | _ => dmul (lensWeight (so_bonus o)) lensMaxCos end in
  let anchorB := match anchorVecs with [] => float0 | _ => dmul (anchorWeight (so_bonus o)) anchorMaxCos end in
  let temporalB := temporal_bonus (cd_roles cd) e in
  let w := default float0 (jsmap_get (pe_docId e) (lb_weights (cd_lens cd))) in
  let lensAdmission := lens_scaled categoryLensAdmissionScale w in
  let evidenceB := default float0 (jsmap_get (pe_eventId e) contributionBoostByEventId) in
  let routed := dadd (dadd lensB anchorB) temporalB in
  let admission := dadd (dadd routed lensAdmission) evidenceB in
  let final := dadd (dadd routed (lens_scaled categoryLensFinalScale w)) (aspect_bonus (pe_docId e)) in
  cos ← cosineSimilarity docVec queryVec;
  Returns (mkCandidate e admission final cos (dadd cos admission) lensB anchorB lensAdmission temporalB).

(** ** The cap on the reranker's input *)
Definition pre_rank_cmp (a b : Candidate) : Z :=
  if negb (deq (preRankScore b) (preRankScore a)) then sub_sign (preRankScore b) (preRankScore a) else string_cmp (cand_id a) (cand_id b).
Definition mandatory_cmp (a b : Candidate) : Z :=
  let sa := default 0 (pe_memorySlot (record a)) in
  let sb := default 0 (pe_memorySlot (record b)) in
  if sa =? sb then if string_lt (cand_id a) (cand_id b) then -1 else 1 else sa - sb.

Definition MANDATORY_SOURCES : list string :=
  ["anchorBFS"; "policyAdmitted"; "entityResolution"; "scopeAtom"; "temporalRecord"; "temporalMotif"; "conflictMotif"; "evidenceMotif"]%string.
Definition is_mandatory (c : Candidate) : bool := bool_decide (is_Some (pe_memorySlot (record c))) || existsb (fun src => has_source src c) MANDATORY_SOURCES.

Definition rerankerInputCap : Z := Z.max 1 (rerankerInputTopK (so_stage o)).
(** [candidates] are in pre-rank order. *)
Definition anchorMandatory (candidates : list Candidate) : list Candidate :=
  take (Z.to_nat rerankerInputCap) (stableSort (filter (fun c => is_mandatory c = true) candidates) mandatory_cmp).
Definition preRankFill (candidates : list Candidate) : list Candidate :=
  filter (fun c => cand_id c ∉ map cand_id (anchorMandatory candidates)) candidates.
Definition rerankerCandidates (candidates : list Candidate) : list Candidate :=
  anchorMandatory candidates ++ take (Z.to_nat (rerankerInputCap - Z.of_nat (length (anchorMandatory candidates)))) (preRankFill candidates).

(** ** What the reranker reads *)
Definition evidenceBundle (peers : list (string * list string)) : bool := categoryLensEvidenceBundle (so_bonus o) && negb (bool_decide (peers = [])).

(** The text of the document of an event that is most similar to the query. *)
Definition bestPeerTextByEvent (candidates : list Candidate) : list (string * string) :=
  map (fun e => (e.1, e.2.1)) (fold_left (fun m c =>
    match jsmap_get (cand_event c) m with
    | Some cur => if dlt cur.2 (biCosine c) then jsmap_set (cand_event c) (pe_text (record c), biCosine c) m else m
    | None => jsmap_set (cand_event c) (pe_text (record c), biCosine c) m
    end) candidates []).

(** The peer whose first candidate is the most similar, and its text. *)
Definition best_bridge (candidates : list Candidate) (peers : list string) : option string :=
  let texts := bestPeerTextByEvent candidates in
  (fold_left (fun best ev =>
    match jsmap_get ev texts with
    | None => best
    | Some t =>
      let bc := match filter (fun c => cand_event c = ev) candidates with c :: _ => biCosine c | [] => S754_infinity true end in
      if dlt best.1 bc then (bc, Some t) else best
    end) peers (S754_infinity true, None)).2.

Definition bundleDoc (candidates : list Candidate) (peers : list (string * list string)) (c : Candidate) : string :=
  if negb (evidenceBundle peers) || negb (has_source "categoryLensBFS" c) then pe_text (record c)
  else match best_bridge candidates (default [] (jsmap_get (cand_event c) peers)) with
  | Some (String _ _ as bridgeText) => ("Bridge evidence:" +:+ newline +:+ bridgeText +:+ newline +:+ "Candidate answer:" +:+ newline +:+ pe_text (record c))%string
  | _ => pe_text (record c)
  end.

Definition lifecycle_name (l : Lifecycle) : option string := match l with lc_current => Some "current"%string | lc_superseded => Some "superseded"%string | lc_none => None end.
Definition query_lifecycle (cd : Candidates) : string -> Lifecycle := temporalLifecycleForQueryEvent o decoded query corpus (cd_roles cd).

Definition atomMemoryIR (cd : Candidates) (c : Candidate) : option MemoryIR :=
  match corpusEventById corpus (cand_event c) with
  | None => None
  | Some ev =>
    let lifecycle := lifecycle_name (query_lifecycle cd (cand_event c)) in
    let answers := bool_decide (cand_id c ∈ scan_docs (cd_entities cd)) in
    let scoped := atomHasScopeIntent query && bool_decide (is_Some (atomQueryScope query)) && about_subject o query (entityIds ev) in
    if negb (isMemoryDocumentEventId (ev_id ev)) || negb (bool_decide (is_Some lifecycle) || answers || scoped) then None
    else Some (mkIR lifecycle (if answers then Some "answer"%string else None) (if answers then ["coreference_of"%string] else []) None
                 (if answers && bool_decide (is_Some (atomQueryScope query)) || scoped then Some (scopeMatches (event_scope ev) (atomQueryScope query)) else None) false None)
  end.

Definition atomMemoryIRActive (cd : Candidates) : bool :=
  so_policyAtomsMode o && (enableEntityResolutionAtoms (so_policy o) || enableScopeAtoms (so_policy o))
  && (negb (bool_decide (scan_docs (cd_entities cd) = [])) || negb (bool_decide (scan_docs (cd_scopes cd) = []))).
Definition temporalMemoryIRActive (cd : Candidates) : bool :=
  negb (bool_decide (temporalBoostEventIds decoded corpus = [])) || negb (bool_decide (temporalSuppressEventIds decoded corpus = [])) || negb (bool_decide (cd_roles cd = [])).

Definition looked_up_ir (eventId : string) : option MemoryIR := lookup ← rerankerMemoryIRLookup (so_render o); lookup (ev_id query) eventId.
Definition resolved_ir (cd : Candidates) (c : Candidate) : option MemoryIR :=
  if memoryIR_full (so_render o) then
    match looked_up_ir (cand_event c) with
    | Some ir => Some ir
    | None => if atomMemoryIRActive cd || temporalMemoryIRActive cd then atomMemoryIR cd c else None
    end
  else None.

(** The header of the earlier format. *)
Definition f2_lifecycle (cd : Candidates) (c : Candidate) : Lifecycle :=
  if memoryIR_resolved (so_render o) then query_lifecycle cd (cand_event c) else default lc_none (jsmap_get (cand_event c) (getOrBuildLifecycleIndex corpus)).
Definition header_subject (eventId : string) : string :=
  match filter (fun e => e ∉ generic_ids o) (match corpusEventById corpus eventId with Some ev => entityIds ev | None => [] end) with e :: _ => e | [] => "?" end.

Definition mirDoc (candidates : list Candidate) (cd : Candidates) (c : Candidate) : string :=
  match resolved_ir cd c with
  | Some ir => renderMemoryIRDoc ir (pe_text (record c))
  | None =>
    let base := bundleDoc candidates (lensPeerEvents (cd_lens cd)) c in
    if negb (memoryIR_F2 (so_render o)) then base
    else match lifecycle_name (f2_lifecycle cd c) with
    | None => base
    | Some lc => ("[lifecycle=" +:+ lc +:+ " | subject=" +:+ header_subject (cand_event c) +:+ "] " +:+ base)%string
    end
  end.

(** ** Calling the reranker *)
Definition scored_pairs (pairs : list (string * string)) : outcome (list number) :=
  scores ← match pairs with [] => Returns [] | _ => rerank pairs end;
  throw_when negb (length scores =? length pairs)%nat with GenericError "reranker returned another number of scores" ;;
  throw_when negb (forallb is_finite scores) with GenericError "reranker score is non-finite" ;;
  Returns scores.

Definition score_map (capped : list Candidate) (scores : list number) : list (string * number) :=
  fold_left (fun m e => jsmap_set (cand_id e.1) e.2 m) (zip capped scores) [].
Definition raw_score (m : list (string * number)) (id : string) : number := default float0 (jsmap_get id m).

Definition docs_by_event (candidates : list Candidate) : list (string * list string) :=
  fold_left (fun m c => jsmap_set (cand_event c) (default [] (jsmap_get (cand_event c) m) ++ [cand_id c]) m) candidates [].
Definition docs_at (candidates : list Candidate) (ev : string) : list string := default [] (jsmap_get ev (docs_by_event candidates)).

(** A target of a lens edge inherits a share of its best peer's score. *)
Definition inheritAlpha : number := default float0 (categoryLensScoreInheritance (so_bonus o)).
Definition peer_max (candidates : list Candidate) (peers : list (string * list string)) (m : list (string * number)) (c : Candidate) : number :=
  fold_left (fun best id => let ps := raw_score m id in if dlt best ps then ps else best)
    (flat_map (docs_at candidates) (default [] (jsmap_get (cand_event c) peers))) float0.
Definition effRerank (candidates : list Candidate) (peers : list (string * list string)) (m : list (string * number)) (c : Candidate) : number :=
  let own := raw_score m (cand_id c) in
  if dlt float0 inheritAlpha && negb (bool_decide (peers = [])) then
    let inherited := dmul inheritAlpha (peer_max candidates peers m c) in
    if dlt own inherited then inherited else own
  else own.

(** ** Policy nudges *)
Record PolicyAtomTrace := mkTrace { atomId : string; tr_family : string; tr_action : string; anchorEvent : option string; docsMoved : Z; evidencePath : list string; tr_beta : number }.
Record Nudges := mkNudges { policyBonusByDocId : list (string * number); policyTraces_rev : list PolicyAtomTrace; policyAbstain : bool }.
Definition policy_bonus (n : Nudges) (id : string) : number := default float0 (jsmap_get id (policyBonusByDocId n)).

Definition addBonus (delta : number) (n : Nudges) (id : string) : Nudges :=
  mkNudges (jsmap_set id (dadd (policy_bonus n id) delta) (policyBonusByDocId n)) (policyTraces_rev n) (policyAbstain n).
Definition add_bonuses (delta : number) (ids : list string) (n : Nudges) : Nudges := fold_left (addBonus delta) ids n.
Definition emit (t : PolicyAtomTrace) (n : Nudges) : Nudges :=
  if policyEmitTraces (so_policy o) then mkNudges (policyBonusByDocId n) (t :: policyTraces_rev n) (policyAbstain n) else n.

Definition as_beta (budget : Z) : number := ddiv (of_Z budget) (of_Z 1000).
Definition sign (a : PolicyAction) : number := if bool_decide (a = suppress) then of_Z (-1) else float1.
Definition sorted_ids (l : list string) : list string := stableSort l string_cmp.
Definition event_ids (s : Scan) : list string := fold_left (fun l ev => jsset_add (ev_id ev) l) (scan_events s) [].
Definition count (l : list string) : Z := Z.of_nat (length l).

(** The spread of the reranker's scores over its input. *)
Definition policy_unit (rsVals : list number) : number :=
  match rsVals with [] => float0 | _ => dsub (fold_left math_max rsVals (S754_infinity true)) (fold_left math_min rsVals (S754_infinity false)) end.

Definition eventsInStage1 (candidates : list Candidate) : list string :=
  map cand_event (take (Z.to_nat (default 24 (policyQueryLocalTopK (so_policy o))))
    (stableSort (filter (fun c => has_source "stage1" c = true) candidates) (fun a b => sub_sign (biCosine b) (biCosine a)))).
Definition policyFires (candidates : list Candidate) (cd : Candidates) (evId : string) : bool :=
  if policyQueryConditionedAdmission (so_policy o) then bool_decide (evId ∈ cd_matched cd) else bool_decide (evId ∈ eventsInStage1 candidates).

Definition nudge_entities (unit : number) (cd : Candidates) (n : Nudges) : Nudges :=
  let docs := scan_docs (cd_entities cd) in
  if enableEntityResolutionAtoms (so_policy o) && negb (bool_decide (docs = [])) then
    let beta := as_beta (Z.min (default 300 (policyMaxBudgetEntity (so_policy o))) 0xffff) in
    emit (mkTrace "er#implicit" "entity_resolution_atom" "prefer" (head (event_ids (cd_entities cd))) (count docs) [] beta) (add_bonuses (dmul beta unit) docs n)
  else n.

(** At most [maxSuppress] documents about the subject whose scope differs, in the order of their ids. *)
Definition scope_suppressible (admitted : list string) (c : Candidate) : bool :=
  negb (bool_decide (cand_id c ∈ admitted))
  && match corpusEventById corpus (cand_event c) with
     | Some ev => isMemoryDocumentEventId (ev_id ev) && about_subject o query (entityIds ev) && scopeDiffers (event_scope ev) (atomQueryScope query)
     | None => false
     end.
Definition scope_suppressed (candidates : list Candidate) (admitted : list string) : list string :=
  take (Z.to_nat (Z.max 0 (Z.min (default 4 (policyScopeMaxSuppress (so_policy o))) 256)))
    (map cand_id (filter (fun c => scope_suppressible admitted c = true) (stableSort candidates (fun a b => string_cmp (cand_id a) (cand_id b))))).
Definition nudge_scopes (unit : number) (candidates : list Candidate) (cd : Candidates) (n : Nudges) : Nudges :=
  let docs := scan_docs (cd_scopes cd) in
  if enableScopeAtoms (so_policy o) && negb (bool_decide (docs = [])) && atomHasScopeIntent query && bool_decide (is_Some (atomQueryScope query)) && has_subject o query then
    let beta := as_beta (Z.min (default 300 (policyMaxBudgetScope (so_policy o))) 0xffff) in
    let suppressed := scope_suppressed candidates docs in
    emit (mkTrace "scope#implicit" "scope_atom" "constrain" (head (event_ids (cd_scopes cd))) (count docs + count suppressed) [] beta)
      (add_bonuses (dmul (SFopp beta) unit) suppressed (add_bonuses (dmul beta unit) docs n))
  else n.

(** The documents an evidence atom moves, with the edges that reach them. *)
Definition evidence_reach (candidates : list Candidate) (anchor : ProductionCorpusEvent) : list (string * list string) :=
  omap (fun rel => if edgeAdmissible o query (edgeType rel) then
      match corpusEventById corpus (other_id rel) with
      | Some tgt => match docs_at candidates (ev_id tgt) with [] => None | ds => Some ((edgeType rel +:+ "->" +:+ ev_id tgt)%string, ds) end
      | None => None
      end else None) (event_relations anchor).
Definition moves_own (atom : PolicyAtom) : bool := noise_atom atom || bool_decide (action atom = bundle) || bool_decide (action atom = include).
Definition nudge_evidence (unit : number) (candidates : list Candidate) (cd : Candidates) (n : Nudges) (atom : PolicyAtom) : Nudges :=
  match jsmap_get (atom_targetSlot atom) (anchorSlotToEvent decoded corpus) with
  | Some anchor =>
    if negb (evidenceActionAllowed o (action atom)) || negb (policyFires candidates cd (ev_id anchor)) then n
    else
      let beta := as_beta (Z.min (budget atom) (default (budget atom) (policyMaxBudgetEvidence (so_policy o)))) in
      let reach := evidence_reach candidates anchor in
      let target := fold_left (fun l d => jsset_add d l) (flat_map snd reach ++ (if moves_own atom then docs_at candidates (ev_id anchor) else [])) [] in
      match target with
      | [] => n
      | _ => emit (mkTrace ("eb#" +:+ pretty (atomIndex atom))%string "evidence_bundle" (action_name (action atom)) (Some (ev_id anchor)) (count target) (map fst reach) beta)
               (add_bonuses (dmul (dmul (sign (action atom)) beta) unit) target n)
      end
  | None => n
  end.

Definition nudge_conflict (unit : number) (candidates : list Candidate) (cd : Candidates) (n : Nudges) (atom : PolicyAtom) : Nudges :=
  match jsmap_get (atom_targetSlot atom) (anchorSlotToEvent decoded corpus) with
  | Some anchor =>
    if negb (policyFires candidates cd (ev_id anchor)) then n
    else
      let beta := as_beta (Z.min (budget atom) (default (budget atom) (policyMaxBudgetConflict (so_policy o)))) in
      match docs_at candidates (ev_id anchor) with
      | [] => n
      | ownDocs => emit (mkTrace ("cl#" +:+ pretty (atomIndex atom))%string "conflict_lifecycle" (action_name (action atom)) (Some (ev_id anchor)) (count ownDocs) [] beta)
                     (add_bonuses (dmul (dmul (sign (action atom)) beta) unit) ownDocs n)
      end
  | None => n
  end.

Definition nudge_conflict_motif (unit : number) (cd : Candidates) (n : Nudges) : Nudges :=
  let docs := conflictMotifDocIds (cd_conflict cd) in
  if conflictMotifAdmission (so_routing o) && negb (bool_decide (docs = [])) then
    let beta := as_beta (Z.min (default 300 (policyMaxBudgetConflict (so_policy o))) 0xffff) in
    let evs := sorted_ids (event_ids (cd_conflict cd)) in
    emit (mkTrace "cl#motif" "conflict_lifecycle" "boost" (head evs) (count docs) (map (fun id => "scope_motif->" +:+ id)%string evs) beta) (add_bonuses (dmul beta unit) docs n)
  else n.
Definition trace_evidence_motif (cd : Candidates) (n : Nudges) : Nudges :=
  if evidenceMotifAdmission (so_routing o) && negb (bool_decide (md_docs (cd_evidence cd) = [])) then
    emit (mkTrace "eb#motif" "evidence_bundle" "include" None (count (md_docs (cd_evidence cd))) (map (fun t => "relation_motif:" +:+ t)%string (sorted_ids (relationIntents query))) float0) n
  else n.

(** Abstaining: an atom asks for it and the scores show no clear winner. *)
Definition under_bound (x : number) (bound : option number) : bool := match bound with Some b => dlt x b | None => true end.
Definition hasPublicEvidencePath (candidates : list Candidate) : bool :=
  existsb (fun c => bool_decide (is_Some (pe_memorySlot (record c))) || has_source "anchorBFS" c || has_source "categoryLensBFS" c) candidates.
Definition abstains (rsVals : list number) (candidates : list Candidate) (atom : PolicyAtom) : bool :=
  let sortedR := stableSort rsVals (fun a b => sub_sign b a) in
  let maxRerank := default float0 (sortedR !! 0%nat) in
  let margin := dsub maxRerank (default float0 (sortedR !! 1%nat)) in
  (selector atom =? SELECTOR_MISSING_EVIDENCE) && (negb (Z.testbit (flags atom) 0) || negb (hasPublicEvidencePath candidates))
  && under_bound maxRerank (policyAbstentionTop1Threshold (so_policy o)) && under_bound margin (policyAbstentionMarginThreshold (so_policy o)).
Definition nudge_abstention (rsVals : list number) (candidates : list Candidate) (n : Nudges) : Nudges :=
  if not_false (enableAbstentionAtoms (so_policy o)) then
    match filter (fun a => abstains rsVals candidates a = true) (abstentionAtoms decoded) with
    | atom :: _ =>
      let n' := emit (mkTrace ("ab#" +:+ pretty (atomIndex atom))%string "abstention" "abstain" None 0 [] float0) n in
      mkNudges (policyBonusByDocId n') (policyTraces_rev n') true
    | [] => n
    end
  else n.

Definition policy_nudges (candidates capped : list Candidate) (cd : Candidates) (m : list (string * number)) : Nudges :=
  let n0 := mkNudges [] [] false in
  if so_policyAtomsMode o then
    let rsVals := map (fun c => raw_score m (cand_id c)) capped in
    let unit := policy_unit rsVals in
    let n1 := nudge_scopes unit candidates cd (nudge_entities unit cd n0) in
    let n2 := if not_false (enableEvidenceBundleAtoms (so_policy o)) then fold_left (nudge_evidence unit candidates cd) (evidenceBundleAtoms decoded) n1 else n1 in
    let n3 := if not_false (enableConflictLifecycleAtoms (so_policy o)) then fold_left (nudge_conflict unit candidates cd) (conflictLifecycleAtoms decoded) n2 else n2 in
    nudge_abstention rsVals candidates (trace_evidence_motif cd (nudge_conflict_motif unit cd n3))
  else n0.

(** ** The final order *)
Record Ranking := mkRanking { rk_documentId : string; rk_memorySlot : option Z; rerankerScore : number; finalReorderingScore : number; rk_relevance : number }.
Definition final_cmp (a b : Ranking) : Z :=
  if negb (deq (finalReorderingScore b) (finalReorderingScore a)) then sub_sign (finalReorderingScore b) (finalReorderingScore a)
  else if negb (deq (rerankerScore b) (rerankerScore a)) then sub_sign (rerankerScore b) (rerankerScore a)
  else string_cmp (rk_documentId a) (rk_documentId b).

Definition qrelById : list (string * number) := fold_left (fun m q => jsmap_set (documentId q) (relevance q) m) (qrels query) [].
Definition rank_one (candidates : list Candidate) (cd : Candidates) (m : list (string * number)) (n : Nudges) (c : Candidate) : Ranking :=
  mkRanking (cand_id c) (pe_memorySlot (record c)) (raw_score m (cand_id c))
    (dadd (dadd (effRerank candidates (lensPeerEvents (cd_lens cd)) m c) (finalBonus c)) (policy_bonus n (cand_id c)))
    (default float0 (jsmap_get (cand_id c) qrelById)).
Definition final_order (candidates : list Candidate) (cd : Candidates) (m : list (string * number)) (n : Nudges) : list Ranking :=
  stableSort (map (rank_one candidates cd m n) candidates) final_cmp.

(** What the pack scorer uses of the scoring of one query, and what it reports. *)
Record ScoredCandidate := mkScored { sc_ranked : RankedCandidate; sc_memorySlot : option Z; sc_rerankerScore : number }.
Record FinalRank := mkFinalRank { fr_rank : Z; fr_relevance : number; fr_sources : list string }.
Record QueryScore := mkQueryScore {
  ranked : list ScoredCandidate;
  qs_top1Score : number;
  cappedDocIds : list string;
  cappedDocSources : list (list string);
  finalRankingTop20 : list FinalRank;
  qs_answerInCap : bool;
  policyTraces : list PolicyAtomTrace;
  qs_policyAbstain : bool;
  temporalRecordDriven : bool;
  memoryIRDriven : bool;
  policyTraceDriven : bool
}.
Definition no_candidates : QueryScore := mkQueryScore [] float0 [] [] [] false [] false false false false.

Definition as_scored (r : Ranking) : ScoredCandidate := mkScored (mkRanked (rk_documentId r) (rk_relevance r)) (rk_memorySlot r) (rerankerScore r).
Definition top20 (candidates : list Candidate) (l : list Ranking) : list FinalRank :=
  imap (fun idx r => mkFinalRank (Z.of_nat idx + 1) (rk_relevance r) (match filter (fun c => cand_id c = rk_documentId r) candidates with c :: _ => sources (record c) | [] => [] end)) (take 20 l).
Definition is_memory_ir (document : string) : bool := includes "[memory_ir" document || startsWith "[lifecycle=" document.
Definition records_driven (cd : Candidates) : bool :=
  existsb (temporalRecordAppliesToQuery o query corpus) (temporalBoostEventIds decoded corpus ++ temporalSuppressEventIds decoded corpus) || negb (bool_decide (cd_roles cd = [])).

(** From the candidates in pre-rank order and their reranker scores. *)
Definition assemble (candidates : list Candidate) (cd : Candidates) (pairs : list (string * string)) (scores : list number) : QueryScore :=
  let capped := rerankerCandidates candidates in
  let m := score_map capped scores in
  let n := policy_nudges candidates capped cd m in
  let order := final_order candidates cd m n in
  let ids := map cand_id capped in
  mkQueryScore (map as_scored order) (match order with r :: _ => rerankerScore r | [] => float0 end) ids (map (fun c => sources (record c)) capped) (top20 candidates order)
    (existsb (fun q => dlt float0 (relevance q) && bool_decide (documentId q ∈ ids)) (qrels query))
    (rev (policyTraces_rev n)) (policyAbstain n) (records_driven cd) (existsb (fun p => is_memory_ir p.2) pairs) (negb (bool_decide (policyTraces_rev n = []))).

Definition rerank_pairs (candidates : list Candidate) (cd : Candidates) : list (string * string) :=
  map (fun c => (queryText query, mirDoc candidates cd c)) (rerankerCandidates candidates).

Definition rank_candidates (candidates : list Candidate) (cd : Candidates) : outcome QueryScore :=
  match candidates with
  | [] => Returns no_candidates
  | _ =>
    let pairs := rerank_pairs candidates cd in
    scores ← scored_pairs pairs;
    Returns (assemble candidates cd pairs scores)
  end.

(** The candidates of a query, in pre-rank order. *)
Definition query_candidates : outcome (list Candidate * Candidates) :=
  queryVec ← dequantize (CorpusRoot.query (embeddings query)) (layout_of (so_layout o));
  publicIndex ← buildPublicCorpusIndex math_log sha256_hex corpus;
  stage1 ← stage1Docs math_log o query corpus queryVec publicIndex;
  let cd := gather o decoded query corpus stage1 in
  lensVecs ← activeLensVecs;
  anchorVecs ← anchorTruthVecs;
  cs ← mapM (make_candidate queryVec lensVecs anchorVecs cd) (map snd (cd_pool cd));
  Returns (stableSort cs pre_rank_cmp, cd).

Definition scoreSubstrateAgainstQuery : outcome QueryScore :=
  cs ← query_candidates;
  rank_candidates cs.1 cs.2.
End Rank.

(** ** The cap on the reranker's input *)
Lemma NoDup_map_inj {A B} (f : A -> B) l x y : NoDup (map f l) -> x ∈ l -> y ∈ l -> f x = f y -> x = y.
Proof.
  induction l as [|z l IH]; cbn [map]; [by intros _ ?%not_elem_of_nil|]. intros [Hz Hl]%NoDup_cons Hx Hy E. apply elem_of_cons in Hx as [->|Hx], Hy as [->|Hy].
  - done.
  - exfalso. apply Hz. rewrite E. by apply list_elem_of_fmap_2.
  - exfalso. apply Hz. rewrite <- E. by apply list_elem_of_fmap_2.
  - by apply IH.
Qed.

Lemma NoDup_map_sub {A B} (f : A -> B) l k : l ⊆+ k -> NoDup (map f k) -> NoDup (map f l).
Proof. intros [r Hr]%submseteq_Permutation N. rewrite (Permutation_map f Hr), map_app in N. by apply NoDup_app in N as [? _]. Qed.

(** What a prefix takes, it takes with everything before it. *)
Lemma take_before {A} (k : nat) (a b : list A) c d : NoDup (a ++ c :: b) -> d ∈ b -> d ∈ take k (a ++ c :: b) -> c ∈ take k (a ++ c :: b).
Proof.
  intros N Hd Ht. rewrite take_app in *. apply NoDup_app in N as (_ & N1 & _). apply elem_of_app. right. destruct (k - length a)%nat as [|n] eqn:E; [|cbn [take]; by left].
  exfalso. cbn [take] in Ht. rewrite app_nil_r in Ht. apply elem_of_take in Ht as (i & Hi & _). apply list_elem_of_lookup_2 in Hi. apply (N1 d Hi). by right.
Qed.

Section Cap.
Context (o : ScoringOptions) (l : list Candidate) (ids : NoDup (map cand_id l)).
Abbreviation cap := (rerankerInputCap o).
Abbreviation mand := (anchorMandatory o l).
Abbreviation wanted := (filter (fun c => is_mandatory c = true) l).

Lemma cap_pos : 1 <= cap.
Proof. unfold rerankerInputCap. lia. Qed.

Lemma mand_sub : mand ⊆+ wanted.
Proof. unfold anchorMandatory. etrans; [apply sublist_submseteq, sublist_take|]. by rewrite stableSort_perm. Qed.

Lemma mand_in c : c ∈ mand -> c ∈ l /\ is_mandatory c = true.
Proof. intros H. pose proof (elem_of_submseteq _ _ _ H mand_sub) as [? ?]%list_elem_of_filter. done. Qed.

Lemma mand_length : length mand = Nat.min (Z.to_nat cap) (length wanted).
Proof. unfold anchorMandatory. by rewrite length_take, (Permutation_length (stableSort_perm _ _)). Qed.

Lemma mand_ids c : c ∈ l -> cand_id c ∈ map cand_id mand <-> c ∈ mand.
Proof.
  intros Hc. split; [|apply list_elem_of_fmap_2]. intros (c' & E & H)%list_elem_of_fmap. replace c with c'; [done|]. symmetry. eapply (NoDup_map_inj cand_id l); [done|done|by apply mand_in|done].
Qed.
Lemma mand_or c : c ∈ l -> c ∈ mand \/ c ∉ mand.
Proof. intros H. rewrite <- mand_ids by done. destruct (decide (cand_id c ∈ map cand_id mand)); tauto. Qed.

Lemma fill_in c : c ∈ preRankFill o l <-> c ∈ l /\ c ∉ mand.
Proof. unfold preRankFill. rewrite list_elem_of_filter. split; intros [H1 H2]; [rewrite mand_ids in H1 by done|rewrite mand_ids by done]; done. Qed.

Lemma split_perm : mand ++ preRankFill o l ≡ₚ l.
Proof.
  apply NoDup_Permutation.
  - apply NoDup_app. split; [eapply (NoDup_fmap_1 cand_id), (NoDup_map_sub cand_id mand wanted), (NoDup_map_sub cand_id wanted l); [apply mand_sub|apply sublist_submseteq, sublist_filter|done]|].
    split; [intros c H1 [_ H2]%fill_in; done|]. unfold preRankFill. apply NoDup_filter. by apply (NoDup_fmap_1 cand_id).
  - by apply (NoDup_fmap_1 cand_id).
  - intros c. rewrite elem_of_app, fill_in. split; [intros [H|[H _]]; [by apply mand_in|done]|]. intros H. destruct (mand_or c H); tauto.
Qed.

Lemma capped_sub : rerankerCandidates o l ⊆+ l.
Proof. trans (mand ++ preRankFill o l); [|by rewrite split_perm]. unfold rerankerCandidates. apply submseteq_app; [done|]. apply sublist_submseteq, sublist_take. Qed.

Lemma capped_length : length (rerankerCandidates o l) = Nat.min (Z.to_nat cap) (length l).
Proof.
  pose proof mand_length as Hm. pose proof (Permutation_length split_perm) as Hp. rewrite length_app in Hp. pose proof cap_pos. unfold rerankerCandidates. rewrite length_app, length_take. lia.
Qed.
Lemma capped_NoDup : NoDup (map cand_id (rerankerCandidates o l)).
Proof. eapply NoDup_map_sub; [apply capped_sub|done]. Qed.

(** C19. The reranker reads as many documents as the cap allows and no document twice. If the documents the substrate routed fit under the cap it reads all of them,
    and otherwise only those; among the others it never passes over a candidate for one that stands lower before the reranking. *)
Theorem cap_contract : let capped := rerankerCandidates o l in
  length capped = Nat.min (Z.to_nat (rerankerInputCap o)) (length l) /\ NoDup (map cand_id capped) /\ capped ⊆ l
  /\ (Z.of_nat (length (filter (fun c => is_mandatory c = true) l)) <= rerankerInputCap o -> forall c, c ∈ l -> is_mandatory c = true -> c ∈ capped)
  /\ (rerankerInputCap o <= Z.of_nat (length (filter (fun c => is_mandatory c = true) l)) -> Forall (fun c => is_mandatory c = true) capped)
  /\ (forall l1 c l2 d, l = l1 ++ c :: l2 -> d ∈ l2 -> d ∈ capped -> is_mandatory d = false -> c ∈ capped).
Proof.
  pose proof cap_pos as Hc. pose proof mand_length as Hm. pose proof (Permutation_length split_perm) as Hp. rewrite length_app in Hp. cbv zeta. split_and!.
  - apply capped_length.
  - apply capped_NoDup.
  - intros c H. by eapply elem_of_submseteq, capped_sub.
  - intros Hw c Hl Hi. unfold rerankerCandidates. apply elem_of_app. left. unfold anchorMandatory. rewrite take_ge by (rewrite (Permutation_length (stableSort_perm _ _)); lia).
    rewrite stableSort_perm. by apply list_elem_of_filter.
  - intros Hw. unfold rerankerCandidates. rewrite Hm. replace (Z.to_nat _) with 0%nat by lia. rewrite take_0, app_nil_r. apply Forall_forall. intros c H. by apply mand_in.
  - intros l1 c l2 d El Hd Hin Hn. unfold rerankerCandidates in *. apply elem_of_app. apply elem_of_app in Hin as [Hin|Hin]; [apply mand_in in Hin as [_ Hin]; congruence|].
    destruct (mand_or c ltac:(rewrite El; set_solver)) as [|Hcm]; [by left|right]. assert (Nl : NoDup l) by (by apply (NoDup_fmap_1 cand_id)).
    assert (Ef : preRankFill o l = filter (fun c => cand_id c ∉ map cand_id mand) l1 ++ c :: filter (fun c => cand_id c ∉ map cand_id mand) l2).
    { unfold preRankFill. trans (filter (fun c => cand_id c ∉ map cand_id mand) (l1 ++ c :: l2)); [by rewrite <- El|]. rewrite filter_app, filter_cons_True; [done|]. assert (H : c ∈ preRankFill o l) by (apply fill_in; split; [rewrite El; set_solver|done]).
      unfold preRankFill in H. by apply list_elem_of_filter in H as [? _]. }
    assert (Hdf : d ∈ preRankFill o l) by (by apply elem_of_take in Hin as (i & Hi & _); apply list_elem_of_lookup_2 in Hi).
    unfold preRankFill in Hdf. apply list_elem_of_filter in Hdf as [Hdp _]. rewrite Ef in Hin |- *. eapply take_before; [rewrite <- Ef; by apply NoDup_filter| |exact Hin].
    by apply list_elem_of_filter.
Qed.
End Cap.

(** ** The final order *)
(** A sort whose comparator is a total preorder on the elements it meets. *)
Lemma stableSort_sorted_in {T} (P : T -> Prop) (cmp : T -> T -> Z) (le : T -> T -> Prop) (l : list T) : Forall P l ->
  (forall a b c, P a -> P b -> P c -> le a b -> le b c -> le a c) -> (forall a b, P a -> P b -> cmp a b <= 0 -> le a b) -> (forall a b, P a -> P b -> 0 < cmp a b -> le b a) ->
  StronglySorted le (stableSort l cmp).
Proof.
  intros HP Ht Hle Hgt'. induction HP as [|x l Hx HP IH]; cbn [stableSort foldr]; [constructor|].
  change (foldr (sort_insert cmp) [] l) with (stableSort l cmp). assert (HP' : Forall P (stableSort l cmp)) by (by rewrite stableSort_perm).
  induction IH as [|y m IH IH' Hy]; cbn [sort_insert]; [repeat constructor|]. apply Forall_cons in HP' as [Py HP'].
  destruct (Z.leb_spec (cmp x y) 0) as [Hxy|Hgt].
  - constructor; [by constructor|]. constructor; [by apply Hle|]. rewrite Forall_forall in Hy, HP'. apply Forall_forall. intros z Hz. eapply (Ht x y z); auto.
  - constructor; [by apply IH'|]. rewrite sort_insert_perm. constructor; [by apply Hgt'|done].
Qed.

(** The documented order: the final score, then the reranker's, then the id. *)
Definition outranks (a b : Ranking) : Prop :=
  dlt (finalReorderingScore b) (finalReorderingScore a) = true
  \/ deq (finalReorderingScore b) (finalReorderingScore a) = true
     /\ (dlt (rerankerScore b) (rerankerScore a) = true \/ deq (rerankerScore b) (rerankerScore a) = true /\ string_lt (rk_documentId b) (rk_documentId a) = false).
Definition are_numbers (r : Ranking) : Prop := is_NaN (finalReorderingScore r) = false /\ is_NaN (rerankerScore r) = false.

Lemma key_lt_trans a b c : key_lt a b -> key_lt b c -> key_lt a c.
Proof. unfold key_lt. lia. Qed.
Lemma key_lt_irrefl a : ~ key_lt a a.
Proof. unfold key_lt. lia. Qed.

Definition outranks_key (a b : Ranking) : Prop :=
  key_lt (order_key (finalReorderingScore b)) (order_key (finalReorderingScore a))
  \/ order_key (finalReorderingScore b) = order_key (finalReorderingScore a)
     /\ (key_lt (order_key (rerankerScore b)) (order_key (rerankerScore a))
         \/ order_key (rerankerScore b) = order_key (rerankerScore a) /\ string_cmp (rk_documentId a) (rk_documentId b) <= 0).

Lemma outranks_iff a b : are_numbers a -> are_numbers b -> outranks a b <-> outranks_key a b.
Proof. intros [Fa Ra] [Fb Rb]. unfold outranks, outranks_key. by rewrite !dlt_key, !deq_key, string_cmp_le. Qed.

Lemma outranks_trans a b c : are_numbers a -> are_numbers b -> are_numbers c -> outranks a b -> outranks b c -> outranks a c.
Proof.
  intros Ha Hb Hc. rewrite !outranks_iff by done. unfold outranks_key. intros [K1|[E1 K1]] [K2|[E2 K2]]; [left; by eapply key_lt_trans|left; by rewrite E2|left; by rewrite <- E1|].
  right. split; [congruence|]. destruct K1 as [K1|[F1 K1]], K2 as [K2|[F2 K2]]; [left; by eapply key_lt_trans|left; by rewrite F2|left; by rewrite <- F1|]. right. split; [congruence|]. by eapply cmp_trans.
Qed.

Lemma final_cmp_cases a b : are_numbers a -> are_numbers b -> (final_cmp a b <= 0 -> outranks a b) /\ (0 < final_cmp a b -> outranks b a).
Proof.
  intros Ha Hb. rewrite !outranks_iff by done. destruct Ha as [Fa Ra], Hb as [Fb Rb]. unfold final_cmp, outranks_key.
  pose proof (deq_key (finalReorderingScore b) (finalReorderingScore a) Fb Fa) as D. destruct (sub_sign_key _ _ Fb Fa) as [[-> K]|[[-> K]|[_ K]]].
  - destruct (deq _ _); cbn [negb]; [destruct D as [D _]; rewrite D in K by done; by apply key_lt_irrefl in K|]. split; [by left|lia].
  - destruct (deq _ _); cbn [negb]; [destruct D as [D _]; rewrite D in K by done; by apply key_lt_irrefl in K|]. split; [lia|by left].
  - rewrite (proj2 D) by done. cbn [negb]. pose proof (deq_key (rerankerScore b) (rerankerScore a) Rb Ra) as D'. destruct (sub_sign_key _ _ Rb Ra) as [[-> K']|[[-> K']|[_ K']]].
    + destruct (deq (rerankerScore b) (rerankerScore a)); cbn [negb]; [destruct D' as [D' _]; rewrite D' in K' by done; by apply key_lt_irrefl in K'|]. split; [right; split; [done|by left]|lia].
    + destruct (deq (rerankerScore b) (rerankerScore a)); cbn [negb]; [destruct D' as [D' _]; rewrite D' in K' by done; by apply key_lt_irrefl in K'|]. split; [lia|right; split; [congruence|by left]].
    + rewrite (proj2 D') by done. cbn [negb]. split; intros H; right; (split; [congruence|]); right; (split; [congruence|]); [done|]. destruct (cmp_total (cmp := string_cmp) (rk_documentId b) (rk_documentId a)); lia.
Qed.

Lemma finite_number x : is_finite x = true -> is_NaN x = false.
Proof. by destruct x. Qed.

(** ** Reranker scores *)
Lemma score_map_get (capped : list Candidate) (scores : list number) id : NoDup (map cand_id capped) -> length scores = length capped ->
  forall m : list (string * number), (forall c, c ∈ capped -> cand_id c ∉ m.*1) ->
  (forall i c x, capped !! i = Some c -> scores !! i = Some x -> jsmap_get (cand_id c) (fold_left (fun m e => jsmap_set (cand_id e.1) e.2 m) (zip capped scores) m) = Some x)
  /\ (id ∉ map cand_id capped -> jsmap_get id (fold_left (fun m e => jsmap_set (cand_id e.1) e.2 m) (zip capped scores) m) = jsmap_get id m).
Proof.
  revert scores. induction capped as [|c capped IH]; intros [|x scores] N L m Hm; try done. cbn [map] in N. apply NoDup_cons in N as [Nc N]. cbn [zip zip_with fold_left fst snd].
  assert (Hm' : forall c0, c0 ∈ capped -> cand_id c0 ∉ (jsmap_set (cand_id c) x m).*1).
  { intros c0 H0 Hin. assert (Ho : cand_id c0 <> cand_id c) by (intros E; apply Nc; rewrite <- E; by apply list_elem_of_fmap_2).
    rewrite jsmap_set_keys in Hin. specialize (Hm c0 ltac:(by right)). case_decide; [done|]. apply elem_of_app in Hin as [?|?%list_elem_of_singleton]; done. }
  injection L as L. destruct (IH scores N L (jsmap_set (cand_id c) x m) Hm') as [IH1 IH2]. split.
  - intros [|i] c0 x0 H1 H2; [|by apply (IH1 i)]. injection H1 as <-. injection H2 as <-.
    assert (G : forall l m0, cand_id c ∉ map cand_id (map fst l) -> jsmap_get (cand_id c) (fold_left (fun (m : list (string * number)) (e : Candidate * number) => jsmap_set (cand_id e.1) e.2 m) l m0) = jsmap_get (cand_id c) m0).
    { induction l as [|e l IHl]; intros m0 H; [done|]. cbn [map] in H. apply not_elem_of_cons in H as [H1 H2]. cbn [fold_left]. rewrite IHl by done. by rewrite jsmap_get_set, decide_False. }
    rewrite G; [by rewrite jsmap_get_set, decide_True|]. intros H. apply Nc. apply list_elem_of_fmap in H as (c1 & E & H). rewrite E. apply list_elem_of_fmap_2. apply list_elem_of_fmap in H as ([c2 y] & -> & H).
    by apply elem_of_zip_l in H.
  - cbn [map]. intros [H1 H2]%not_elem_of_cons. rewrite IH2 by done. by rewrite jsmap_get_set, decide_False.
Qed.

Lemma raw_scores (capped : list Candidate) (scores : list number) : NoDup (map cand_id capped) -> length scores = length capped ->
  (forall i c x, capped !! i = Some c -> scores !! i = Some x -> raw_score (score_map capped scores) (cand_id c) = x)
  /\ (forall id, id ∉ map cand_id capped -> raw_score (score_map capped scores) id = float0).
Proof.
  intros N L. unfold raw_score, score_map. split.
  - intros i c x H1 H2. destruct (score_map_get capped scores "" N L [] ltac:(by intros c0 _ ?%not_elem_of_nil)) as [G _]. by rewrite (G i c x).
  - intros id Hid. destruct (score_map_get capped scores id N L [] ltac:(by intros c0 _ ?%not_elem_of_nil)) as [_ G]. by rewrite (G Hid).
Qed.

Lemma raw_finite capped scores id : NoDup (map cand_id capped) -> length scores = length capped -> Forall (fun x => is_finite x = true) scores -> is_finite (raw_score (score_map capped scores) id) = true.
Proof.
  intros N L F. destruct (raw_scores capped scores N L) as [R1 R2]. destruct (decide (id ∈ map cand_id capped)) as [(c & -> & [i Hi]%list_elem_of_lookup)%list_elem_of_fmap|H]; [|by rewrite R2].
  destruct (lookup_lt_is_Some_2 scores i) as [x Hx]; [rewrite L; by eapply lookup_lt_Some|]. rewrite (R1 i c x Hi Hx). rewrite Forall_forall in F. by eapply F, list_elem_of_lookup_2.
Qed.

Section Reranker.
Context (rerank : list (string * string) -> outcome (list number)).

Lemma scored_pairs_spec pairs scores : scored_pairs rerank pairs = Returns scores <->
  (if bool_decide (pairs = []) then scores = [] else rerank pairs = Returns scores) /\ length scores = length pairs /\ Forall (fun x => is_finite x = true) scores.
Proof.
  unfold scored_pairs. assert (E : forall x, (throw_when negb (length x =? length pairs)%nat with GenericError "reranker returned another number of scores" ;;
      throw_when negb (forallb is_finite x) with GenericError "reranker score is non-finite" ;; Returns x) = Returns scores <-> x = scores /\ length x = length pairs /\ Forall (fun x => is_finite x = true) x).
  { intros x. rewrite !throw_when_Returns, !negb_false_iff, Nat.eqb_eq, forallb_forall, <- List.Forall_forall. split; [intros (H1 & H2 & [= H3])|intros (-> & H1 & H2)]; done. }
  rewrite bind_Returns. destruct pairs as [|p pairs]; cbn [bool_decide].
  - split; [intros (x & [= <-] & (-> & H)%E); done|]. intros (-> & H). exists []. split; [done|]. by apply E.
  - split; [intros (x & H & (-> & H')%E); done|]. intros (H & H'). exists scores. split; [done|]. by apply E.
Qed.
End Reranker.

(** * The scoring of one query *)
Definition sc_id (c : ScoredCandidate) : string := rc_documentId (sc_ranked c).

Section Scored.
Context {HK : Hasher} (math_log : number -> number) (sha256_hex : string -> string) (rerank : list (string * string) -> outcome (list number)).
Context (o : ScoringOptions) (decoded : DecodedSubstrate) (query : ProductionCorpusEvent) (corpus : ProductionCorpus).
Abbreviation candidates_of_query := (query_candidates math_log sha256_hex o decoded query corpus).
Abbreviation rank_them := (rank_candidates rerank o decoded query corpus).

Lemma make_candidate_record queryVec lensVecs anchorVecs cd e c : make_candidate o decoded query corpus queryVec lensVecs anchorVecs cd e = Returns c -> record c = e.
Proof.
  unfold make_candidate. intros H. repeat (apply bind_Returns in H as (? & _ & H)). cbv zeta in H. by injection H as <-.
Qed.

Lemma query_candidates_spec cs cd : candidates_of_query = Returns (cs, cd) ->
  exists stage1, cd = gather o decoded query corpus stage1 /\ map record cs ≡ₚ map snd (cd_pool cd).
Proof.
  unfold query_candidates. intros (queryVec & _ & H)%bind_Returns. apply bind_Returns in H as (publicIndex & _ & H). apply bind_Returns in H as (stage1 & _ & H). cbv zeta in H.
  apply bind_Returns in H as (lensVecs & _ & H). apply bind_Returns in H as (anchorVecs & _ & H). apply bind_Returns in H as (l & Hl & [= <- <-]). exists stage1. split; [done|].
  rewrite (Permutation_map record (stableSort_perm _ pre_rank_cmp)). apply mapM_Returns in Hl. replace (map record l) with (map snd (cd_pool (gather o decoded query corpus stage1))); [done|].
  induction Hl as [|e c es k He Hl IH]; [done|]. cbn [map]. rewrite <- IH. by rewrite (make_candidate_record _ _ _ _ _ _ He).
Qed.

Lemma candidate_ids cs cd : byId corpus = index_events (events corpus) -> candidates_of_query = Returns (cs, cd) -> map cand_id cs ≡ₚ map fst (cd_pool cd) /\ NoDup (map cand_id cs).
Proof.
  intros Hi H. apply query_candidates_spec in H as (stage1 & -> & Hp). set (p := cd_pool _) in *. pose proof (gather_NoDup o decoded query corpus Hi stage1) as N. fold p in N.
  assert (E : map cand_id cs ≡ₚ map fst p); [|split; [done|]; by rewrite E].
  change (map cand_id cs) with (map (fun c => pe_docId (record c)) cs). rewrite <- (map_map record pe_docId), Hp. rewrite map_map.
  assert (G : Forall (fun e => pe_docId e.2 = e.1) p) by (apply Forall_forall; intros [id e] He; by apply (gather_entries o decoded query corpus Hi) in He as [? _]).
  clearbody p. clear -G. induction G as [|e p He G IH]; [done|]. cbn [map]. by rewrite He, IH.
Qed.

Lemma order_perm cs cd m n : final_order o query cs cd m n ≡ₚ map (rank_one o query cs cd m n) cs.
Proof. apply stableSort_perm. Qed.

(** The members of the result, from the scores of the reranker. *)
Lemma rank_candidates_spec cs cd s : rank_them cs cd = Returns s ->
  cs = [] /\ s = no_candidates
  \/ cs <> [] /\ exists scores, scored_pairs rerank (rerank_pairs o decoded query corpus cs cd) = Returns scores /\ length scores = length (rerankerCandidates o cs)
     /\ Forall (fun x => is_finite x = true) scores /\ s = assemble o decoded query corpus cs cd (rerank_pairs o decoded query corpus cs cd) scores.
Proof.
  unfold rank_candidates. destruct cs as [|c cs']; [intros [= <-]; by left|]. set (cs := c :: cs'). cbv zeta. intros (scores & H & [= <-])%bind_Returns. right. split; [done|].
  exists scores. split; [done|]. apply scored_pairs_spec in H as (_ & L & F). unfold rerank_pairs in L. rewrite length_map in L. done.
Qed.

(** C18. The result ranks every candidate once. Its order is that of the final scores, then of the reranker's, then of the ids, whenever the final scores are
    numbers; a final score is the reranker's score, perhaps inherited along a lens edge, plus the candidate's bonus and its policy nudges. *)
Theorem ranking_sorted cs cd s : rank_them cs cd = Returns s -> NoDup (map cand_id cs) -> cs <> [] ->
  exists scores n order, scored_pairs rerank (rerank_pairs o decoded query corpus cs cd) = Returns scores
    /\ n = policy_nudges o decoded query corpus cs (rerankerCandidates o cs) cd (score_map (rerankerCandidates o cs) scores)
    /\ order ≡ₚ map (rank_one o query cs cd (score_map (rerankerCandidates o cs) scores) n) cs
    /\ ranked s = map as_scored order
    /\ (Forall (fun r => is_NaN (finalReorderingScore r) = false) order -> StronglySorted outranks order).
Proof.
  intros H N Hc. apply rank_candidates_spec in H as [[-> _]|(_ & scores & Hs & L & F & ->)]; [done|]. eexists scores, _, _. split; [exact Hs|]. split; [reflexivity|]. split; [apply order_perm|]. split; [reflexivity|].
  intros Hn. unfold final_order in *. rewrite stableSort_perm in Hn. apply (stableSort_sorted_in are_numbers).
  - apply Forall_forall. intros r Hr. rewrite Forall_forall in Hn. split; [by apply Hn|]. apply list_elem_of_fmap in Hr as (c & -> & _). cbn [rank_one rerankerScore]. apply finite_number, raw_finite; [by apply capped_NoDup|done|done].
  - apply outranks_trans.
  - intros a b Ha Hb. by apply final_cmp_cases.
  - intros a b Ha Hb. by apply final_cmp_cases.
Qed.

Lemma ranked_ids cs cd m n : map sc_id (map as_scored (final_order o query cs cd m n)) ≡ₚ map cand_id cs.
Proof. rewrite (Permutation_map _ (Permutation_map _ (order_perm cs cd m n))). by rewrite !map_map. Qed.

(** C16. Scoring a query ranks exactly the pool of its candidates, each document once. The reranker's scores are finite, a document outside the cap has the score 0,
    the cap is full or holds all, the top score is that of the first document, and an answer is in the cap when a relevant document is. *)
Theorem query_score_sound s : byId corpus = index_events (events corpus) -> scoreSubstrateAgainstQuery math_log sha256_hex rerank o decoded query corpus = Returns s ->
  (exists stage1, map sc_id (ranked s) ≡ₚ map fst (cd_pool (gather o decoded query corpus stage1))) /\ NoDup (map sc_id (ranked s))
  /\ (forall r, r ∈ ranked s -> is_finite (sc_rerankerScore r) = true /\ (sc_id r ∉ cappedDocIds s -> sc_rerankerScore r = float0))
  /\ length (cappedDocIds s) = Nat.min (Z.to_nat (rerankerInputCap o)) (length (ranked s)) /\ NoDup (cappedDocIds s) /\ cappedDocIds s ⊆ map sc_id (ranked s)
  /\ qs_top1Score s = (match ranked s with r :: _ => sc_rerankerScore r | [] => float0 end)
  /\ (qs_answerInCap s = true <-> exists q, q ∈ qrels query /\ dlt float0 (relevance q) = true /\ documentId q ∈ cappedDocIds s).
Proof.
  intros Hi H. unfold scoreSubstrateAgainstQuery in H. apply bind_Returns in H as ([cs cd] & Hq & H). cbn [fst snd] in H. destruct (candidate_ids cs cd Hi Hq) as [P N].
  apply query_candidates_spec in Hq as (stage1 & Hcd & _). rewrite Hcd in P. apply rank_candidates_spec in H as [[-> ->]|(Hc & scores & _ & L & F & ->)].
  - split; [by exists stage1|]. cbn. split_and!; try done; try apply NoDup_nil_2; [by intros r ?%not_elem_of_nil|by rewrite Nat.min_0_r|]. split; [done|by intros (q & _ & _ & ?%not_elem_of_nil)].
  - set (m := score_map (rerankerCandidates o cs) scores). set (n := policy_nudges o decoded query corpus cs (rerankerCandidates o cs) cd m).
    unfold assemble. cbv zeta. fold m n. cbn [ranked cappedDocIds qs_top1Score qs_answerInCap]. pose proof (ranked_ids cs cd m n) as R. pose proof (capped_NoDup o cs N) as Nc. split_and!.
    + exists stage1. by rewrite R.
    + by rewrite R.
    + intros r Hr. apply list_elem_of_fmap in Hr as (r0 & -> & Hr). rewrite order_perm in Hr. apply list_elem_of_fmap in Hr as (c & -> & Hc'). cbn. split; [by apply raw_finite|].
      intros Hn. destruct (raw_scores _ _ Nc L) as [_ G]. by apply G.
    + rewrite !length_map, (capped_length o cs N), (Permutation_length (order_perm cs cd m n)). by rewrite length_map.
    + exact Nc.
    + intros x (c & -> & Hx)%list_elem_of_fmap. rewrite R. apply list_elem_of_fmap_2. eapply elem_of_submseteq; [exact Hx|by apply capped_sub].
    + by destruct (final_order o query cs cd m n).
    + rewrite existsb_exists. setoid_rewrite andb_true_iff. setoid_rewrite bool_decide_eq_true. by setoid_rewrite list_elem_of_In.
Qed.

Lemma capped_nonempty c cs : rerankerCandidates o (c :: cs) <> [].
Proof.
  unfold rerankerCandidates. pose proof (cap_pos o). destruct (anchorMandatory o (c :: cs)) as [|m l] eqn:E; [|done]. cbn [app length]. unfold preRankFill. rewrite E. cbn [map].
  rewrite filter_cons_True by apply not_elem_of_nil. destruct (Z.to_nat _) eqn:E'; [lia|done].
Qed.

(** With candidates to rank, the scoring succeeds exactly when the reranker answers with one finite score for every document it was given. *)
Theorem reranker_checked cs cd : cs <> [] ->
  ((exists s, rank_them cs cd = Returns s) <-> exists scores, rerank (rerank_pairs o decoded query corpus cs cd) = Returns scores
     /\ length scores = length (rerankerCandidates o cs) /\ Forall (fun x => is_finite x = true) scores).
Proof.
  intros Hc. destruct cs as [|c cs']; [done|]. set (cs := c :: cs'). assert (Hp : rerank_pairs o decoded query corpus cs cd <> []).
  { unfold rerank_pairs. intros E%map_eq_nil. by apply capped_nonempty in E. }
  assert (E : forall scores, scored_pairs rerank (rerank_pairs o decoded query corpus cs cd) = Returns scores <-> rerank (rerank_pairs o decoded query corpus cs cd) = Returns scores
     /\ length scores = length (rerankerCandidates o cs) /\ Forall (fun x => is_finite x = true) scores).
  { intros scores. rewrite scored_pairs_spec, bool_decide_false by done. unfold rerank_pairs at 2. by rewrite length_map. }
  split.
  - intros (s & H). apply rank_candidates_spec in H as [[? _]|(_ & scores & Hs & _)]; [done|]. exists scores. by apply E.
  - intros (scores & Hs). apply E in Hs. exists (assemble o decoded query corpus cs cd (rerank_pairs o decoded query corpus cs cd) scores). unfold rank_candidates. cbv zeta. unfold cs in *. by rewrite Hs.
Qed.
End Scored.

(** * Labels *)
(** The query with other labels: its truth documents and its relevance judgements. *)
Definition relabel (ts : list TruthDocument) (qs : list QrelEntry) (q : ProductionCorpusEvent) : ProductionCorpusEvent :=
  mkEvent (ev_id q) (family q) (domain q) (split q) (queryText q) ts (hardNegatives q) qs (protected q) (sourceHash q) (provenance_more q) (embeddings q) (ev_more q).

Lemma stableSort_map {T} (f : T -> T) (cmp : T -> T -> Z) l : (forall a b, cmp (f a) (f b) = cmp a b) -> map f (stableSort l cmp) = stableSort (map f l) cmp.
Proof.
  intros H. induction l as [|x l IH]; [done|]. change (map f (sort_insert cmp x (stableSort l cmp)) = sort_insert cmp (f x) (stableSort (map f l) cmp)). rewrite <- IH. clear IH.
  induction (stableSort l cmp) as [|y k IHk]; [done|]. cbn [sort_insert map]. rewrite H. destruct (cmp x y <=? 0); [reflexivity|]. cbn [map]. by rewrite IHk.
Qed.

Lemma mapM_ext {A B} (f g : A -> outcome B) l : (forall x, f x = g x) -> mapM f l = mapM g l.
Proof. intros H. induction l as [|x l IH]; [done|]. cbn [mapM]. by rewrite H, IH. Qed.

Section Labels.
Context {HK : Hasher} (math_log : number -> number) (sha256_hex : string -> string) (rerank : list (string * string) -> outcome (list number)).
Context (o : ScoringOptions) (decoded : DecodedSubstrate) (query : ProductionCorpusEvent) (corpus : ProductionCorpus) (ts : list TruthDocument) (qs : list QrelEntry).
Abbreviation query' := (relabel ts qs query).

Lemma stage1_relabel v index : stage1Docs math_log o query' corpus v index = stage1Docs math_log o query corpus v index.
Proof. reflexivity. Qed.
Lemma about_relabel ids : about_subject o query' ids = about_subject o query ids.
Proof. reflexivity. Qed.
Lemma routing_relabel : routingSlotToEvent o decoded query' corpus = routingSlotToEvent o decoded query corpus.
Proof. reflexivity. Qed.
Lemma scope_relabel : atomQueryScope query' = atomQueryScope query.
Proof. reflexivity. Qed.
Lemma entities_relabel p : admit_entities o decoded query' corpus p = admit_entities o decoded query corpus p.
Proof. reflexivity. Qed.
Lemma scopes_relabel p : admit_scopes o decoded query' corpus p = admit_scopes o decoded query corpus p.
Proof. reflexivity. Qed.
Lemma policy_relabel p : admit_policy o decoded query' corpus p = admit_policy o decoded query corpus p.
Proof. reflexivity. Qed.
Lemma anchors_relabel p : admit_anchors o decoded query' corpus p = admit_anchors o decoded query corpus p.
Proof. reflexivity. Qed.
Lemma bfs_relabel p : anchor_bfs o decoded query' corpus p = anchor_bfs o decoded query corpus p.
Proof. by rewrite !anchor_bfs_idle. Qed.
Lemma relations_relabel s : expand_relations o decoded query' corpus s = expand_relations o decoded query corpus s.
Proof. reflexivity. Qed.
Lemma tags_relabel p : tag_anchors o decoded query' corpus p = tag_anchors o decoded query corpus p.
Proof. reflexivity. Qed.
Lemma lenses_relabel : lensesByEdgeType o decoded query' = lensesByEdgeType o decoded query.
Proof. reflexivity. Qed.
Lemma lens_relabel stage1 p : lens_bfs o decoded query' corpus stage1 p = lens_bfs o decoded query corpus stage1 p.
Proof. reflexivity. Qed.
Lemma motif_relabel p : admit_temporal_motif o decoded query' corpus p = admit_temporal_motif o decoded query corpus p.
Proof. reflexivity. Qed.
Lemma validity_relabel p : admit_validity_atoms o decoded query' corpus p = admit_validity_atoms o decoded query corpus p.
Proof. reflexivity. Qed.
Lemma conflict_relabel p : admit_conflict_motif o decoded query' corpus p = admit_conflict_motif o decoded query corpus p.
Proof. reflexivity. Qed.
Lemma evidence_relabel stage1 p : admit_evidence_motif o decoded query' corpus stage1 p = admit_evidence_motif o decoded query corpus stage1 p.
Proof. reflexivity. Qed.

Lemma gather_relabel stage1 : gather o decoded query' corpus stage1 = gather o decoded query corpus stage1.
Proof.
  unfold gather. cbv zeta. rewrite entities_relabel, scopes_relabel, policy_relabel, anchors_relabel, bfs_relabel, relations_relabel, tags_relabel, lens_relabel, motif_relabel, validity_relabel, conflict_relabel, evidence_relabel. reflexivity.
Qed.

Lemma lifecycle_relabel roles id : temporalLifecycleForQueryEvent o decoded query' corpus roles id = temporalLifecycleForQueryEvent o decoded query corpus roles id.
Proof. reflexivity. Qed.
Lemma mirDoc_relabel cs cd c : mirDoc o decoded query' corpus cs cd c = mirDoc o decoded query corpus cs cd c.
Proof. reflexivity. Qed.
Lemma pairs_relabel cs cd : rerank_pairs o decoded query' corpus cs cd = rerank_pairs o decoded query corpus cs cd.
Proof. reflexivity. Qed.
Lemma nudges_relabel cs capped cd m : policy_nudges o decoded query' corpus cs capped cd m = policy_nudges o decoded query corpus cs capped cd m.
Proof. reflexivity. Qed.
Lemma driven_relabel cd : records_driven o decoded query' corpus cd = records_driven o decoded query corpus cd.
Proof. reflexivity. Qed.

Context (scoped : temporalOracleScopePerQuery (so_bonus o) = false).

Lemma temporal_bonus_relabel roles e : temporal_bonus o decoded query' corpus roles e = temporal_bonus o decoded query corpus roles e.
Proof. unfold temporal_bonus, ownTemporalTruthIds. rewrite scoped. reflexivity. Qed.
Lemma make_candidate_relabel v ls anchors cd e : make_candidate o decoded query' corpus v ls anchors cd e = make_candidate o decoded query corpus v ls anchors cd e.
Proof. unfold make_candidate. rewrite temporal_bonus_relabel. reflexivity. Qed.
Lemma anchor_vecs_relabel : anchorTruthVecs o decoded query' corpus = anchorTruthVecs o decoded query corpus.
Proof. unfold anchorTruthVecs. by rewrite routing_relabel. Qed.
Lemma candidates_relabel : query_candidates math_log sha256_hex o decoded query' corpus = query_candidates math_log sha256_hex o decoded query corpus.
Proof.
  unfold query_candidates. cbv zeta. change (CorpusRoot.query (embeddings query')) with (CorpusRoot.query (embeddings query)).
  destruct (dequantize _ _) as [v|]; cbn [mbind outcome_bind]; [|reflexivity]. destruct (buildPublicCorpusIndex _ _ _) as [index|]; cbn [mbind outcome_bind]; [|reflexivity].
  rewrite stage1_relabel. destruct (stage1Docs _ _ _ _ _ _) as [stage1|]; cbn [mbind outcome_bind]; [|reflexivity]. rewrite gather_relabel, anchor_vecs_relabel.
  destruct (activeLensVecs _ _) as [ls|]; cbn [mbind outcome_bind]; [|reflexivity]. destruct (anchorTruthVecs _ _ _ _) as [anchors|]; cbn [mbind outcome_bind]; [|reflexivity].
  by rewrite (mapM_ext _ _ _ (make_candidate_relabel v ls anchors _)).
Qed.

(** A ranking without its relevances. *)
Definition unlabelled (r : Ranking) : Ranking := mkRanking (rk_documentId r) (rk_memorySlot r) (rerankerScore r) (finalReorderingScore r) float0.
Lemma order_relabel cs cd m n : map unlabelled (final_order o query' cs cd m n) = map unlabelled (final_order o query cs cd m n).
Proof. unfold final_order. rewrite !(stableSort_map unlabelled final_cmp) by done. f_equal. rewrite !map_map. reflexivity. Qed.
End Labels.

(** What a result says apart from relevances. *)
Definition blind (s : QueryScore) : list (string * option Z * number) * number * list (string) * list (list string) * list PolicyAtomTrace * bool * (bool * bool * bool) :=
  (map (fun c => (sc_id c, sc_memorySlot c, sc_rerankerScore c)) (ranked s), qs_top1Score s, cappedDocIds s, cappedDocSources s, policyTraces s, qs_policyAbstain s,
   (temporalRecordDriven s, memoryIRDriven s, policyTraceDriven s)).

Lemma blind_order (l l' : list Ranking) : map unlabelled l = map unlabelled l' ->
  map (fun c => (sc_id c, sc_memorySlot c, sc_rerankerScore c)) (map as_scored l) = map (fun c => (sc_id c, sc_memorySlot c, sc_rerankerScore c)) (map as_scored l')
  /\ match l with r :: _ => rerankerScore r | [] => float0 end = match l' with r :: _ => rerankerScore r | [] => float0 end.
Proof.
  intros E. split.
  - pose proof (f_equal (map (fun r => (rk_documentId r, rk_memorySlot r, rerankerScore r))) E) as E'. rewrite !map_map in E'. rewrite !map_map. exact E'.
  - destruct l as [|r l], l' as [|r' l']; try done. by injection E.
Qed.

Lemma assemble_relabel {HK : Hasher} o decoded query corpus ts qs cs cd pairs scores :
  blind (assemble o decoded (relabel ts qs query) corpus cs cd pairs scores) = blind (assemble o decoded query corpus cs cd pairs scores).
Proof.
  unfold assemble, blind. cbv zeta. cbn [ranked qs_top1Score cappedDocIds cappedDocSources policyTraces qs_policyAbstain temporalRecordDriven memoryIRDriven policyTraceDriven].
  rewrite nudges_relabel, driven_relabel. set (n := policy_nudges _ _ _ _ _ _ _ _). set (m := score_map _ _).
  destruct (blind_order _ _ (order_relabel o query ts qs cs cd m n)) as [-> ->]. reflexivity.
Qed.

(** C20. The labels of a query do not move its ranking: with other truth documents and other relevance judgements the same documents come in the same order with
    the same scores, the reranker reads the same documents, and the same atoms fire, unless temporal records are scoped to the query's own truth. *)
Theorem labels_do_not_rank {HK : Hasher} math_log sha256_hex rerank o decoded query corpus ts qs : temporalOracleScopePerQuery (so_bonus o) = false ->
  (s ← scoreSubstrateAgainstQuery math_log sha256_hex rerank o decoded (relabel ts qs query) corpus; Returns (blind s))
  = (s ← scoreSubstrateAgainstQuery math_log sha256_hex rerank o decoded query corpus; Returns (blind s)).
Proof.
  intros H. unfold scoreSubstrateAgainstQuery. rewrite candidates_relabel by done. destruct (query_candidates math_log sha256_hex o decoded query corpus) as [[cs cd]|e]; cbn [mbind outcome_bind fst snd]; [|reflexivity].
  unfold rank_candidates. destruct cs as [|c cs']; [reflexivity|]. generalize (c :: cs'). intros l. cbv zeta. rewrite pairs_relabel.
  generalize (rerank_pairs o decoded query corpus l cd). intros pairs. destruct (scored_pairs rerank pairs) as [scores|e]; cbn [mbind outcome_bind]; [|reflexivity]. by rewrite assemble_relabel.
Qed.

(** * Without substrate *)
Section Blank.
Context {HK : Hasher} (math_log : number -> number) (sha256_hex : string -> string) (rerank : list (string * string) -> outcome (list number)).
Context (o : ScoringOptions) (decoded : DecodedSubstrate) (query : ProductionCorpusEvent) (corpus : ProductionCorpus).

Lemma no_docs p s : scan_admitted s = [] -> docs_with p s = [].
Proof. unfold docs_with. by intros ->. Qed.

Lemma nudges_blank cs capped stage1 m : blank decoded -> policy_nudges o decoded query corpus cs capped (gather o decoded query corpus stage1) m = mkNudges [] [] false.
Proof.
  intros B. destruct (blank_scans o decoded query corpus stage1 B) as (S1 & S2 & S3 & S4 & _). destruct B as [_ _ _ _ _ B4 B5 B6]. unfold policy_nudges. cbv zeta. rewrite B4, B5. destruct (so_policyAtomsMode o); [|done].
  assert (E1 : forall u n, nudge_entities o u (gather o decoded query corpus stage1) n = n) by (intros u n; unfold nudge_entities, scan_docs; cbv zeta; rewrite no_docs by done; by rewrite andb_false_r).
  assert (E2 : forall u n, nudge_scopes o query corpus u cs (gather o decoded query corpus stage1) n = n).
  { intros u n. unfold nudge_scopes, scan_docs. cbv zeta. rewrite (no_docs every_event (cd_scopes _)) by done. by rewrite andb_false_r. }
  assert (E3 : forall u n, nudge_conflict_motif o u (gather o decoded query corpus stage1) n = n) by (intros u n; unfold nudge_conflict_motif, conflictMotifDocIds; cbv zeta; rewrite no_docs by done; by rewrite andb_false_r).
  assert (E4 : forall n, trace_evidence_motif o query (gather o decoded query corpus stage1) n = n) by (intros n; unfold trace_evidence_motif; rewrite S4; by rewrite andb_false_r).
  rewrite E1, E2. cbn [fold_left]. unfold nudge_abstention. rewrite B6.
  destruct (not_false (enableEvidenceBundleAtoms _)), (not_false (enableConflictLifecycleAtoms _)), (not_false (enableAbstentionAtoms _)); by rewrite E3, E4.
Qed.

Lemma filter_none {A} (f : A -> bool) (l : list A) : Forall (fun x => f x = false) l -> filter (fun x => f x = true) l = [].
Proof. induction 1 as [|x l Hx Hl IH]; [done|]. by rewrite filter_cons_False by congruence. Qed.

(** C21. A substrate without records leaves a query to the first stage and the reranker: the pool is what the first stage found, the reranker reads the best of it by
    similarity and bonus, no atom fires, nothing is inherited and the system does not abstain. *)
Theorem blank_substrate_neutral cs cd s : blank decoded -> query_candidates math_log sha256_hex o decoded query corpus = Returns (cs, cd) ->
  rank_candidates rerank o decoded query corpus cs cd = Returns s ->
  cd_pool cd = stage1_pool corpus (cd_stage1 cd)
  /\ cappedDocIds s = take (Z.to_nat (rerankerInputCap o)) (map cand_id cs)
  /\ policyTraces s = [] /\ qs_policyAbstain s = false
  /\ (forall m c, policy_bonus (policy_nudges o decoded query corpus cs (rerankerCandidates o cs) cd m) (cand_id c) = float0)
  /\ (forall m c, effRerank o cs (lensPeerEvents (cd_lens cd)) m c = raw_score m (cand_id c)).
Proof.
  intros B Hq H. apply query_candidates_spec in Hq as (stage1 & -> & P). rewrite gather_blank in P |- * by done.
  assert (S : Forall (fun c => is_mandatory c = false) cs).
  { destruct (stage1_pool_ok corpus stage1) as [_ S]. apply Forall_forall. intros c Hc. assert (Hr : record c ∈ map snd (stage1_pool corpus stage1)) by (rewrite <- P; by apply list_elem_of_fmap_2).
    apply list_elem_of_fmap in Hr as ([id e] & E & He). rewrite Forall_forall in S. specialize (S _ He) as (_ & _ & M & Hs). cbn [snd] in *. unfold is_mandatory, has_source. rewrite E, M, Hs. reflexivity. }
  assert (C : rerankerCandidates o cs = take (Z.to_nat (rerankerInputCap o)) cs).
  { unfold rerankerCandidates, preRankFill, anchorMandatory. rewrite filter_none by done. cbn [stableSort foldr]. rewrite take_nil. cbn [app length map]. rewrite Z.sub_0_r. f_equal.
    clear. induction cs as [|c cs IH]; [done|]. rewrite filter_cons_True by apply not_elem_of_nil. by rewrite IH. }
  split; [done|]. assert (N : forall m, policy_nudges o decoded query corpus cs (rerankerCandidates o cs) (gather o decoded query corpus stage1) m = mkNudges [] [] false) by (intros m; by apply nudges_blank).
  assert (I : forall m c, effRerank o cs (lensPeerEvents (cd_lens (gather o decoded query corpus stage1))) m c = raw_score m (cand_id c)).
  { intros m c. destruct (blank_scans o decoded query corpus stage1 B) as (_ & _ & _ & _ & L). unfold effRerank. cbv zeta. rewrite L. by rewrite andb_false_r. }
  apply rank_candidates_spec in H as [[-> ->]|(_ & scores & _ & _ & _ & ->)].
  - cbn. rewrite take_nil. split_and!; try done. intros m c. by rewrite N.
  - unfold assemble. cbv zeta. cbn [cappedDocIds policyTraces qs_policyAbstain]. rewrite N. split_and!; [|done|done|intros m c; by rewrite N|done]. by rewrite C, firstn_map.
Qed.
End Blank.

(** ** Witnesses *)
(** A reranker that prefers long documents. *)
Definition by_length (pairs : list (string * string)) : outcome (list number) := Returns (map (fun p => of_Z (Z.of_nat (String.length p.2))) pairs).
Abbreviation candidates_2 := (query_candidates (HK:=const_hasher) no_log no_sha opts_1 anchored query_2 corpus_2).
Abbreviation score_2 := (scoreSubstrateAgainstQuery (HK:=const_hasher) no_log no_sha by_length opts_1 anchored query_2 corpus_2).
Definition found_2 : list Candidate * Candidates := Eval vm_compute in match candidates_2 with Returns r => r | _ => ([], gather (HK:=const_hasher) opts_1 anchored query_2 corpus_2 []) end.
Definition result_2 : QueryScore := Eval vm_compute in match score_2 with Returns s => s | _ => no_candidates end.
Lemma found_2_spec : candidates_2 = Returns found_2.
Proof. vm_compute. reflexivity. Qed.
Lemma result_2_spec : score_2 = Returns result_2.
Proof. vm_compute. reflexivity. Qed.
Lemma found_2_ids : NoDup (map cand_id found_2.1) /\ found_2.1 <> [].
Proof. split; [|discriminate]. repeat constructor; set_solver. Qed.

(** The anchored document takes a place under the cap, the best of the first stage the other. *)
Lemma cap_contract_witness : NoDup (map cand_id found_2.1) /\ map cand_id (rerankerCandidates opts_1 found_2.1) = ["d"; "a"]%string /\ length (rerankerCandidates opts_1 found_2.1) = 2%nat.
Proof. split; [apply found_2_ids|]. split; [reflexivity|]. destruct (cap_contract opts_1 found_2.1 (proj1 found_2_ids)) as [H _]. exact H. Defined.

Lemma ranking_sorted_witness : map sc_id (ranked result_2) = ["a"; "d"; "b"]%string /\ exists order, ranked result_2 = map as_scored order /\ StronglySorted outranks order.
Proof.
  split; [reflexivity|]. destruct (ranking_sorted (HK:=const_hasher) by_length opts_1 anchored query_2 corpus_2 found_2.1 found_2.2 result_2) as (scores & n & order & Hs & -> & Hp & Hr & Hsort); [vm_compute; reflexivity|apply found_2_ids|apply found_2_ids|].
  exists order. split; [exact Hr|]. apply Hsort. rewrite Hp. assert (E : scored_pairs by_length (rerank_pairs (HK:=const_hasher) opts_1 anchored query_2 corpus_2 found_2.1 found_2.2) = Returns [of_Z 11; of_Z 11]) by (vm_compute; reflexivity).
  rewrite E in Hs. injection Hs as <-. vm_compute. repeat constructor.
Defined.

Lemma query_score_sound_witness : score_2 = Returns result_2 /\ NoDup (map sc_id (ranked result_2)) /\ length (cappedDocIds result_2) = 2%nat.
Proof.
  split; [apply result_2_spec|]. destruct (query_score_sound (HK:=const_hasher) no_log no_sha by_length opts_1 anchored query_2 corpus_2 result_2 eq_refl result_2_spec) as (_ & H1 & _ & H2 & _). split; [exact H1|exact H2].
Defined.

(** One score for two documents: the scoring fails. *)
Definition one_score (pairs : list (string * string)) : outcome (list number) := Returns [float1].
Lemma reranker_checked_witness : ~ exists s, rank_candidates (HK:=const_hasher) one_score opts_1 anchored query_2 corpus_2 found_2.1 found_2.2 = Returns s.
Proof.
  intros H. apply (reranker_checked (HK:=const_hasher) one_score opts_1 anchored query_2 corpus_2 found_2.1 found_2.2 (proj2 found_2_ids)) in H as (scores & H1 & H2 & _). injection H1 as <-. discriminate H2.
Defined.

Lemma labels_do_not_rank_witness : let other := relabel [] [mkQrel "a" float1] query_2 in
  temporalOracleScopePerQuery (so_bonus opts_1) = false
  /\ (s ← scoreSubstrateAgainstQuery (HK:=const_hasher) no_log no_sha by_length opts_1 anchored other corpus_2; Returns (blind s)) = Returns (blind result_2).
Proof.
  intros other. split; [reflexivity|]. pose proof (labels_do_not_rank (HK:=const_hasher) no_log no_sha by_length opts_1 anchored query_2 corpus_2 [] [mkQrel "a" float1] eq_refl) as H.
  rewrite result_2_spec in H. exact H.
Defined.

Definition blank_2 : DecodedSubstrate := decoded_of [None; None].
Definition found_blank : list Candidate * Candidates := Eval vm_compute in
  match query_candidates (HK:=const_hasher) no_log no_sha opts_1 blank_2 query_2 corpus_2 with Returns r => r | _ => ([], gather (HK:=const_hasher) opts_1 blank_2 query_2 corpus_2 []) end.
Definition result_blank : QueryScore := Eval vm_compute in match scoreSubstrateAgainstQuery (HK:=const_hasher) no_log no_sha by_length opts_1 blank_2 query_2 corpus_2 with Returns s => s | _ => no_candidates end.
Lemma blank_substrate_neutral_witness : cappedDocIds result_blank = ["a"; "b"]%string /\ cappedDocIds result_blank = take 2 (map cand_id found_blank.1) /\ policyTraces result_blank = [].
Proof.
  split; [reflexivity|]. destruct (blank_substrate_neutral (HK:=const_hasher) no_log no_sha by_length opts_1 blank_2 query_2 corpus_2 found_blank.1 found_blank.2 result_blank) as (_ & H1 & H2 & _);
    [constructor; repeat constructor|vm_compute; reflexivity|vm_compute; reflexivity|]. split; [exact H1|exact H2].
Defined.

(** The documents outside the cap count as 0, so below a reranker that answers with negative scores they come first. *)
Definition negative (pairs : list (string * string)) : outcome (list number) := Returns (map (fun _ => of_Z (-1)) pairs).
Example uncapped_above_reranked :
  match scoreSubstrateAgainstQuery (HK:=const_hasher) no_log no_sha negative opts_1 anchored query_2 corpus_2 with
  | Returns s => (map sc_id (ranked s), cappedDocIds s)
  | Throws _ => ([], [])
  end = (["b"; "a"; "d"], ["d"; "a"])%string.
Proof. vm_compute. reflexivity. Qed.

(** The current truth of an anchor lifts a candidate: with the anchor's labels turned the bonuses change. *)
Definition bonus_anchor : BonusOptions := mkBonus 1 float0 float1 float0 float0 None None None None false false false false None.
Definition opts_anchor : ScoringOptions := mkScoring weights_w (Decoder.mkLayout 1 4 int8) "0x00000000" (of_frac 1 2) 10 None true None false stage_w routing_w bonus_anchor policy_w (mkRender false false false None) None None.
Definition labelled_corpus (first : bool) : ProductionCorpus :=
  let e := event_1 "f" [("p", "up", scale_1 5); ("n", "down", scale_1 250)]%string in
  let evs := [event_1 "e" docs_1; relabel [mkTruth "p" "up" first None; mkTruth "n" "down" (negb first) None] [] e] in
  mkCorpus evs (index_events evs) None None "0x00" 0 "r" "m" (layout_1 "int8") "r" "m".
Definition anchor_bonuses (first : bool) : list (string * number) :=
  match query_candidates (HK:=const_hasher) no_log no_sha opts_anchor anchored query_2 (labelled_corpus first) with
  | Returns r => map (fun c => (cand_id c, anchorBonus c)) r.1
  | Throws _ => []
  end.
Example anchor_labels_score : jsmap_get "a"%string (anchor_bonuses true) = Some float1 /\ jsmap_get "a"%string (anchor_bonuses false) = Some float0.
Proof. vm_compute. split; reflexivity. Qed.
