(* ===== verification/Benchmark.v ===== *)
(** * Scoring a pack and judging a patch (eval/retrieval-benchmark.ts, rewards/baseline.ts)

    What surrounds the scoring of one query: the profile checks, the composite
    score of a pack, the acceptance rule for a patch and the baseline. The
    scorer is a parameter, from the decoded substrate and a query to a
    ranking; [QueryRanking.scoreSubstrateAgainstQuery] is the program's, and the
    last example runs a pack through it.

    Numbers are IEEE doubles, an optional number that is missing reads as NaN
    in arithmetic. Diagnostic members that are only passed through are left out
    of the per-query record.

    Theorems: a patch is accepted exactly when it applies and its scores pass
    every gate; an accepted patch raises the composite; scoring a pack gives a
    record per query and a composite between 0 and 1 unless it is NaN. *)
From Stdlib Require Import Ascii.
From S2P Require Import Prelude JsSort StateTypes Float Codec Keccak Merkle Decoder Substrate Validate Patch SeedDerivation CanonicalJson CorpusRoot CorpusDelta HiddenPack FirstStage Metrics QueryIntent CandidatePool QueryRanking.
#[local] Open Scope Z_scope.

(** ** Profile checks *)
Definition DEFAULT_COMPOSITE_WEIGHTS : CompositeWeights := mkWeights (of_frac 75 100) (of_frac 8 100) (of_frac 7 100) (of_frac 5 100) (of_frac 5 100).

Definition CORETEX_PIPELINE_VERSION_THIS_BINARY : string := "coretex-retrieval-v2-lens-r4".
Definition CORETEX_PIPELINE_VERSION_R5 : string := "coretex-retrieval-v2-policy-r5".
Definition CORETEX_PIPELINE_VERSIONS_SUPPORTED : list string := [CORETEX_PIPELINE_VERSION_THIS_BINARY; CORETEX_PIPELINE_VERSION_R5].

Definition assertPipelineVersionMatches (bundlePin : option string) : outcome unit :=
  match bundlePin with
  | None => Returns tt
  | Some pin => throw_if (negb (String.eqb pin "") && bool_decide (pin ∉ CORETEX_PIPELINE_VERSIONS_SUPPORTED)) (GenericError "pipelineVersion mismatch")
  end.

Definition assertValidWeights (w : CompositeWeights) : outcome unit :=
  let sum := dadd (dadd (dadd (dadd (w_retrieval w) (w_temporal w)) (w_relation_recall w)) (w_abstention w)) (w_structural_sanity w) in
  let nano := of_frac 1 1000000000 in
  throw_when dlt (of_frac 1 1000000) (SFabs (dsub sum (of_Z 1))) with GenericError "composite weights must sum to 1.0" ;;
  throw_when dlt (w_retrieval w) (dsub (of_frac 7 10) nano) with GenericError "w_retrieval must be >= 0.70" ;;
  throw_when dlt (dadd (of_frac 10 100) nano) (w_structural_sanity w) with GenericError "w_structural_sanity must be <= 0.10" ;;
  throw_when dle (w_temporal w) (of_Z 0) || dle (w_relation_recall w) (of_Z 0) || dle (w_abstention w) (of_Z 0) with GenericError "w_temporal, w_relation_recall, w_abstention must be > 0" ;;
  Returns tt.

Inductive VarianceSource := rotating_pack | broad_sampling | unavailable.
Record ThresholdProfile := mkThreshold {
  tp_minImprovementPpm : number;
  tp_replayTolerancePpm : number;
  tp_baselineVariancePpm : option number;
  tp_baselineVarianceSource : option VarianceSource
}.
Definition computeAcceptanceThresholdPpm (profile : ThresholdProfile) : number :=
  let productionVariancePpm := match default unavailable (tp_baselineVarianceSource profile) with
    | rotating_pack | broad_sampling => default (of_Z 0) (tp_baselineVariancePpm profile)
    | unavailable => of_Z 0
    end in
  dadd (dadd (tp_minImprovementPpm profile) (tp_replayTolerancePpm profile)) productionVariancePpm.


(** ** Scoring a pack *)
Record PerQueryBreakdown := mkBreakdown {
  pq_recordId : string;
  pq_family : string;
  nDCG10 : number;
  mrr10 : number;
  recall10 : option number;
  temporalHit : option bool;
  multiHopHit : option bool;
  categoryLensRelationHit : option bool;
  pq_abstentionHit : option bool;
  pq_top1Score : number;
  answerInCap : option bool;
  temporalContrastRecall : option number;
  policyFalseAbstain : option bool
}.

Record CompositeScore := mkComposite {
  composite : number;
  cs_nDCG10 : number;
  cs_mrr10 : number;
  cs_recall10 : number;
  cs_temporal : number;
  cs_multiHopRecall10 : number;
  cs_categoryLensRelationHit10 : number;
  cs_abstention : number;
  cs_structuralValidity : number;
  perQuery : list PerQueryBreakdown
}.

Definition clamp01 (v : number) : number := math_max (of_Z 0) (math_min (of_Z 1) v).
Definition sum_numbers (l : list number) : number := fold_left dadd l (of_Z 0).
Definition mean_of (l : list number) : number := match l with [] => of_Z 0 | _ => ddiv (sum_numbers l) (of_Z (Z.of_nat (length l))) end.

Definition with_registry (corpus : ProductionCorpus) (o : ScoringOptions) : ScoringOptions :=
  let needsPolicyEntityRegistry := scopeRoutingAnchorsToQuerySubject (so_routing o)
    || so_policyAtomsMode o && (policyQueryConditionedAdmission (so_policy o) || policyAspectIntentAdmission (so_policy o) || enableEntityResolutionAtoms (so_policy o) || enableScopeAtoms (so_policy o)) in
  match needsPolicyEntityRegistry, policyEntityRegistry o, entities corpus with
  | true, None, Some (_ :: _) =>
    let derived := buildPolicyEntityRegistry corpus in
    mkScoring (so_weights o) (so_layout o) (biEncoderHash o) (so_abstentionThreshold o) (rerankerTopK o) (pipelineVersion o) (so_policyAtomsMode o)
      (so_lensDiversityFloor o) (temporalStaleContrast o) (so_stage o) (so_routing o) (so_bonus o) (so_policy o) (so_render o)
      (Some derived.1) (match policyGenericEntityIds o with Some ids => Some ids | None => Some derived.2 end)
  | _, _, _ => o
  end.

Definition decoder_options (o : ScoringOptions) : DecoderOptions :=
  mkOpts (so_policyAtomsMode o) (Some (biEncoderHash o)) (Some (Decoder.headerBytes (so_layout o))) (so_lensDiversityFloor o)
    (match so_lensDiversityFloor o with Some _ => Some (so_layout o) | None => None end).

Definition relation_graph (o : ScoringOptions) (decoded : DecodedSubstrate) : list (Z * list Z) :=
  fold_left (fun g e => jsmap_set (sourceSlot e) (default [] (jsmap_get (sourceSlot e) g) ++ [targetSlot e]) g)
    (if bool_decide (enableRelationAnchorEdges (so_routing o) = Some false) then [] else relations decoded) [].

Section PackScore.
Context {HK : Hasher} (math_pow : number -> number -> number) (math_log2 : number -> number).
Context (scorer : DecodedSubstrate -> ProductionCorpusEvent -> ProductionCorpus -> ScoringOptions -> outcome QueryScore).

Definition temporal_ndcg (o : ScoringOptions) (query : ProductionCorpusEvent) (r : list RankedCandidate) : number * option number :=
  if temporalStaleContrast o && String.eqb (family query) "temporal" then
    let staleIds := fold_left (fun s x => jsset_add x s) (map td_id (filter (fun d => isCurrent d = false) (truthDocuments query))) [] in
    let stale id := bool_decide (id ∈ staleIds) in
    let rankedC := map (fun c => if stale (rc_documentId c) then mkRanked (rc_documentId c) (of_Z 0) else c) r in
    let idealC := map (fun q => if stale (documentId q) then of_Z 0 else relevance q) (qrels query) in
    let inTopK := length (filter (fun c => stale (rc_documentId c) = true) (first_k r (rerankerTopK o))) in
    (ndcgAtK math_pow math_log2 rankedC idealC (rerankerTopK o),
     match staleIds with [] => None | _ => Some (ddiv (of_Z (Z.of_nat inTopK)) (of_Z (Z.of_nat (length staleIds)))) end)
  else (ndcgAtK math_pow math_log2 r (map relevance (qrels query)) (rerankerTopK o), None).

Definition temporal_hit (query : ProductionCorpusEvent) (r : list RankedCandidate) : option bool :=
  match String.eqb (family query) "temporal", ev_member "temporal" query with
  | true, JObject _ =>
    temporalCurrentStaleHit r (td_id <$> head (filter (fun d => isCurrent d = true) (truthDocuments query)))
      (map td_id (filter (fun d => isCurrent d = false) (truthDocuments query)))
  | _, _ => None
  end.

(** The memory slots whose record is one of the query's relation targets, or the query itself. *)
Definition answer_slots (decoded : DecodedSubstrate) (query : ProductionCorpusEvent) : list Z :=
  let ids := match event_relations query with [] => [ev_id query] | rels => fold_left (fun s x => jsset_add x s) (map other_id rels) [] end in
  fold_left (fun s e => match e.2 with
      | None => s
      | Some slot => fold_left (fun s id => if recordId slot =? stableRecordIdFor id then jsset_add (Z.of_nat e.1) s else s) ids s
      end) (imap pair (memoryIndex decoded)) [].

Definition multi_hop_hit (o : ScoringOptions) (decoded : DecodedSubstrate) (query : ProductionCorpusEvent) (r : list ScoredCandidate) : option bool :=
  if String.eqb (family query) "multi_hop_relation" then
    let candidateSlots := omap sc_memorySlot (take (Z.to_nat (rerankerTopK o)) r) in
    Some (multiHopRelationHit (answer_slots decoded query) (relation_graph o decoded) candidateSlots (relationHopBudget (so_routing o)))
  else None.

Definition category_lens_hit (o : ScoringOptions) (query : ProductionCorpusEvent) (f : list FinalRank) : option bool :=
  if String.eqb (family query) "multi_hop_relation" then
    Some (existsb (fun r => (fr_rank r <=? rerankerTopK o) && dlt (of_Z 0) (fr_relevance r) && bool_decide ("categoryLensBFS"%string ∈ fr_sources r)) f)
  else None.

Definition score_query (o : ScoringOptions) (decoded : DecodedSubstrate) (corpus : ProductionCorpus) (query : ProductionCorpusEvent) : outcome PerQueryBreakdown :=
  s ← scorer decoded query corpus o;
  let isAbstentionProbe := bool_decide (truthDocuments query = []) in
  let r := map sc_ranked (ranked s) in
  let totalRel := Z.of_nat (length (filter (fun q => dlt (of_Z 0) (relevance q) = true) (qrels query))) in
  let '(ndcg, contrast) := temporal_ndcg o query r in
  let r5Abstention := so_policyAtomsMode o && negb (bool_decide (enableAbstentionAtoms (so_policy o) = Some false)) && negb (bool_decide (abstentionAtoms decoded = [])) in
  let abstHit := if isAbstentionProbe then Some (if r5Abstention then qs_policyAbstain s else abstentionHit (qs_top1Score s) (so_abstentionThreshold o)) else None in
  Returns (mkBreakdown (ev_id query) (family query) ndcg (mrrAtK r (rerankerTopK o)) (recallAtK r totalRel (rerankerTopK o))
    (temporal_hit query r) (multi_hop_hit o decoded query (ranked s)) (category_lens_hit o query (finalRankingTop20 s)) abstHit (qs_top1Score s)
    (if isAbstentionProbe then None else Some (qs_answerInCap s)) contrast
    (if so_policyAtomsMode o then Some (r5Abstention && negb isAbstentionProbe && qs_policyAbstain s) else None)).

(** The weighted sum of the means over the queries. *)
Definition composite_score (w : CompositeWeights) (sv : number) (l : list PerQueryBreakdown) : CompositeScore :=
  let meanNdcg := mean_of (map nDCG10 l) in
  let tempAcc := temporalCurrentStaleAccuracy (map temporalHit l) in
  let multiAcc := multiHopRelationRecallAtK (map multiHopHit l) in
  let abstAcc := abstentionAccuracy (map pq_abstentionHit l) in
  let c := dadd (dadd (dadd (dadd (dmul (w_retrieval w) meanNdcg) (dmul (w_temporal w) tempAcc)) (dmul (w_relation_recall w) multiAcc)) (dmul (w_abstention w) abstAcc)) (dmul (w_structural_sanity w) sv) in
  mkComposite (clamp01 c) meanNdcg (mean_of (map mrr10 l)) (mean_of (omap recall10 l)) tempAcc multiAcc (multiHopRelationRecallAtK (map categoryLensRelationHit l)) abstAcc sv l.

Definition evaluateRetrievalBenchmarkState (state : CortexState) (corpus : ProductionCorpus) (pack : QueryPack) (opts : ScoringOptions) : outcome CompositeScore :=
  _ ← assertValidWeights (so_weights opts);
  _ ← assertPipelineVersionMatches (pipelineVersion opts);
  let o := with_registry corpus opts in
  let decoded := decodeSubstrate state (decoder_options o) in
  l ← mapM (score_query o decoded corpus) (qp_events pack);
  Returns (composite_score (so_weights o) (structuralValidity decoded) l).

(** ** Judging a patch *)
Record PatchAcceptanceFloors := mkFloors { minImprovementPpm : number; structuralFloor : number; protectedRegressionFloor : number; familyCatastrophicFloor : number; acceptanceThresholdPpm : option number }.
Inductive RejectReason :=
  | apply_failed (c : PatchErrorCode)
  | structural_validity_below_floor
  | protected_regression (recordId : string)
  | family_catastrophic (fam : string)
  | no_retrieval_improvement.
Record PatchEvalResult := mkEval { accepted : bool; reason : option RejectReason; before : CompositeScore; after : CompositeScore; deltaPpm : number; pe_perFamilyDelta : list (string * number) }.

(** [Math.round] as a number: a result of zero keeps the sign, NaN and the infinities stay. *)
Definition js_round (x : number) : number :=
  match math_round x with
  | Some 0 => match x with S754_zero s | S754_finite s _ _ => S754_zero s | _ => x end
  | Some n => of_Z n
  | None => x
  end.
Definition delta_ppm (b a : CompositeScore) : number := js_round (dmul (dsub (composite a) (composite b)) (of_Z 1000000)).

Definition perFamilyMean (score : CompositeScore) : list (string * number) :=
  let buckets := fold_left (fun m q => jsmap_set (pq_family q) (default [] (jsmap_get (pq_family q) m) ++ [nDCG10 q]) m) (perQuery score) [] in
  map (fun e => (e.1, mean_of e.2)) buckets.

Definition perFamilyDelta (b a : CompositeScore) : list (string * number) :=
  let mb := perFamilyMean b in
  let ma := perFamilyMean a in
  let get k m := default (of_Z 0) (jsmap_get k m) in
  map (fun k => (k, dsub (get k ma) (get k mb))) (fold_left (fun s k => jsset_add k s) (mb.*1 ++ ma.*1) []).

(** The gates on a candidate's scores, in order; the protected queries and the families are visited in turn. *)
Definition protected_gate (corpus : ProductionCorpus) (f : PatchAcceptanceFloors) (b a : CompositeScore) : option string :=
  let beforeById := fold_left (fun m q => jsmap_set (pq_recordId q) q m) (perQuery b) [] in
  head (omap (fun q => match jsmap_get (pq_recordId q) (corpusByCorpusId corpus), jsmap_get (pq_recordId q) beforeById with
    | Some ev, Some prev => if protected ev && dlt (protectedRegressionFloor f) (dsub (nDCG10 prev) (nDCG10 q)) then Some (pq_recordId q) else None
    | _, _ => None
    end) (perQuery a)).

Definition family_gate (f : PatchAcceptanceFloors) (b a : CompositeScore) : option string :=
  let familyAfter := perFamilyMean a in
  head (omap (fun e => if dlt (of_Z 0) e.2 && dlt (default (of_Z 0) (jsmap_get e.1 familyAfter)) (dmul (familyCatastrophicFloor f) e.2) then Some e.1 else None) (perFamilyMean b)).

Definition judge (corpus : ProductionCorpus) (f : PatchAcceptanceFloors) (b a : CompositeScore) : option RejectReason :=
  if dlt (cs_structuralValidity a) (structuralFloor f) then Some structural_validity_below_floor
  else match protected_gate corpus f b a with
  | Some id => Some (protected_regression id)
  | None =>
    match family_gate f b a with
    | Some fam => Some (family_catastrophic fam)
    | None => if dlt (delta_ppm b a) (default (minImprovementPpm f) (acceptanceThresholdPpm f)) then Some no_retrieval_improvement else None
    end
  end.

Definition evaluateRetrievalBenchmarkPatch (parentState : CortexState) (patch : Patch) (corpus : ProductionCorpus) (pack : QueryPack) (opts : ScoringOptions)
    (floors : PatchAcceptanceFloors) (precomputedBefore : option CompositeScore) : outcome PatchEvalResult :=
  b ← match precomputedBefore with Some b => Returns b | None => evaluateRetrievalBenchmarkState parentState corpus pack opts end;
  applied ← applyPatch parentState patch (so_policyAtomsMode opts);
  match applied with
  | PatchFailure err => Returns (mkEval false (Some (apply_failed (code err))) b b (of_Z 0) [])
  | PatchSuccess state =>
    a ← evaluateRetrievalBenchmarkState state corpus pack opts;
    let why := judge corpus floors b a in
    Returns (mkEval (bool_decide (why = None)) why b a (delta_ppm b a) (perFamilyDelta b a))
  end.

(** ** The baseline (rewards/baseline.ts) *)
Record BaselineScores := mkBaseline { parentScorePpm : number; variancePpm : number; bs_samples : Z; bs_corpusRoot : string; bs_epochId : Z; compositeScore : CompositeScore }.

Fixpoint sample_scores (n : nat) (parentSubstrate : CortexState) (corpus : ProductionCorpus) (pack : QueryPack) (scoringOpts : ScoringOptions) : outcome (list CompositeScore) :=
  match n with
  | O => Returns []
  | S n' =>
    cs ← evaluateRetrievalBenchmarkState parentSubstrate corpus pack scoringOpts;
    l ← sample_scores n' parentSubstrate corpus pack scoringOpts;
    Returns (cs :: l)
  end.

(** [samples]: an integer count; at least one. *)
Definition evaluateBaseline (parentSubstrate : CortexState) (corpus : ProductionCorpus) (pack : QueryPack) (scoringOpts : ScoringOptions) (opt_samples : option Z) : outcome BaselineScores :=
  let samples := Z.max 1 (default 1 opt_samples) in
  l ← sample_scores (Z.to_nat samples) parentSubstrate corpus pack scoringOpts;
  let ppmSamples := map (fun cs => js_round (dmul (composite cs) (of_Z 1000000))) l in
  let mean := ddiv (sum_numbers ppmSamples) (of_Z samples) in
  let square v := math_pow (dsub v mean) (of_Z 2) in
  let variance := if 1 <? samples then dsqrt (ddiv (fold_left (fun s v => dadd s (square v)) ppmSamples (of_Z 0)) (of_Z samples)) else of_Z 0 in
  match l with
  | [] => Throws (TypeError "compositeScores[0]")
  | cs :: _ => Returns (mkBaseline (js_round mean) (js_round variance) samples (qp_corpusRoot pack) (qp_epochId pack) cs)
  end.

Definition isMajorDelta (newEvalHiddenCount prevEvalHiddenCount majorDeltaThreshold : Z) : bool := majorDeltaThreshold <=? newEvalHiddenCount - prevEvalHiddenCount.
End PackScore.

(** ** Groups *)
Lemma group_get {A V} (key : A -> string) (val : A -> V) l k m :
  jsmap_get k (fold_left (fun m q => jsmap_set (key q) (default [] (jsmap_get (key q) m) ++ [val q]) m) l m)
  = match map val (filter (fun q => key q = k) l) with [] => jsmap_get k m | vs => Some (default [] (jsmap_get k m) ++ vs) end.
Proof.
  revert m. induction l as [|q l IH]; intros m; [done|]. cbn [fold_left]. rewrite IH, filter_cons, jsmap_get_set.
  destruct (decide (key q = k)) as [<-|Hk]; [rewrite decide_True by done|by rewrite decide_False by congruence].
  cbn [map default]. destruct (map val (filter _ l)) as [|v vs]; [done|]. cbn. by rewrite <- (app_assoc _ [val q] (v :: vs)).
Qed.

Lemma last_get {A} (key : A -> string) (l : list A) k m :
  jsmap_get k (fold_left (fun m q => jsmap_set (key q) q m) l m) = match last (filter (fun q => key q = k) l) with Some q => Some q | None => jsmap_get k m end.
Proof.
  revert m. induction l as [|q l IH]; intros m; [done|]. cbn [fold_left]. rewrite IH, filter_cons, jsmap_get_set.
  destruct (decide (key q = k)) as [<-|Hk]; [rewrite decide_True by done|by rewrite decide_False by congruence].
  rewrite last_cons. by destruct (last (filter _ l)).
Qed.

Lemma head_omap_None {A B} (f : A -> option B) l : head (omap f l) = None <-> forall x, x ∈ l -> f x = None.
Proof.
  induction l as [|x l IH]; [split; [intros _ x Hx; by apply not_elem_of_nil in Hx|done]|]. cbn. destruct (f x) as [y|] eqn:E.
  - split; [done|]. intros H. rewrite (H x) in E by (by left). done.
  - rewrite IH. split; [intros H y [-> |Hy]%elem_of_cons; auto|]. intros H y Hy. apply H. by right.
Qed.

(** The nDCG of the queries of a family, in order. *)
Definition family_scores (fam : string) (s : CompositeScore) : list number := map nDCG10 (filter (fun q => pq_family q = fam) (perQuery s)).

Lemma perFamilyMean_get s fam : jsmap_get fam (perFamilyMean s) = match family_scores fam s with [] => None | vs => Some (mean_of vs) end.
Proof.
  unfold perFamilyMean. rewrite jsmap_get_map, group_get. unfold family_scores. by destruct (map nDCG10 _).
Qed.

Lemma family_default s fam : default (of_Z 0) (jsmap_get fam (perFamilyMean s)) = mean_of (family_scores fam s).
Proof. rewrite perFamilyMean_get. by destruct (family_scores fam s). Qed.

Lemma group_NoDup {A V} (key : A -> string) (val : A -> V) l m : NoDup m.*1 ->
  NoDup (fold_left (fun m q => jsmap_set (key q) (default [] (jsmap_get (key q) m) ++ [val q]) m) l m).*1.
Proof. revert m. induction l as [|q l IH]; intros m H; [done|]. by apply IH, jsmap_set_NoDup. Qed.

Lemma perFamilyMean_elem s fam v : (fam, v) ∈ perFamilyMean s <-> family_scores fam s <> [] /\ v = mean_of (family_scores fam s).
Proof.
  rewrite jsmap_get_elem.
  - rewrite perFamilyMean_get. destruct (family_scores fam s); [naive_solver|]. split; [intros [= <-]; done|intros [_ ->]; done].
  - unfold perFamilyMean. set (m := fold_left _ _ _). rewrite <- list_fmap_compose. change (NoDup (map fst m)). by apply group_NoDup, NoDup_nil_2.
Qed.

(** ** The gates *)
(** No protected query loses more than the floor, measured against its last earlier score. *)
Definition protected_kept (corpus : ProductionCorpus) (f : PatchAcceptanceFloors) (b a : CompositeScore) : Prop :=
  forall q ev prev, q ∈ perQuery a -> jsmap_get (pq_recordId q) (byId corpus) = Some ev -> protected ev = true ->
    last (filter (fun p => pq_recordId p = pq_recordId q) (perQuery b)) = Some prev -> dlt (protectedRegressionFloor f) (dsub (nDCG10 prev) (nDCG10 q)) = false.

(** No family that scored falls under its share of its earlier mean. *)
Definition families_kept (f : PatchAcceptanceFloors) (b a : CompositeScore) : Prop :=
  forall fam, family_scores fam b <> [] -> dlt (of_Z 0) (mean_of (family_scores fam b)) = true ->
    dlt (mean_of (family_scores fam a)) (dmul (familyCatastrophicFloor f) (mean_of (family_scores fam b))) = false.

Lemma protected_gate_spec corpus f b a : protected_gate corpus f b a = None <-> protected_kept corpus f b a.
Proof.
  unfold protected_gate, protected_kept, corpusByCorpusId. cbv zeta. rewrite head_omap_None. split.
  - intros H q ev prev Hq He Hp Hl. specialize (H q Hq). cbv beta in H. rewrite He, last_get, Hl, Hp in H. by destruct (dlt _ _).
  - intros H q Hq. destruct (jsmap_get _ (byId corpus)) as [ev|] eqn:He; [|done]. rewrite last_get. destruct (last _) as [prev|] eqn:Hl; [|done].
    destruct (protected ev) eqn:Hp; [|done]. by rewrite (H q ev prev).
Qed.

Lemma family_gate_spec f b a : family_gate f b a = None <-> families_kept f b a.
Proof.
  unfold family_gate, families_kept. rewrite head_omap_None. split.
  - intros H fam Hn Hp. specialize (H (fam, mean_of (family_scores fam b))). cbn [fst snd] in H. rewrite perFamilyMean_elem, Hp, family_default in H. specialize (H (conj Hn eq_refl)). by destruct (dlt _ _).
  - intros H [fam v] [Hn ->]%perFamilyMean_elem. cbn [fst snd]. rewrite family_default. destruct (dlt (of_Z 0) _) eqn:Hp; [|done]. by rewrite H.
Qed.

Definition threshold (f : PatchAcceptanceFloors) : number := default (minImprovementPpm f) (acceptanceThresholdPpm f).

Lemma judge_spec corpus f b a : judge corpus f b a = None <->
  dlt (cs_structuralValidity a) (structuralFloor f) = false /\ protected_kept corpus f b a /\ families_kept f b a /\ dlt (delta_ppm b a) (threshold f) = false.
Proof.
  rewrite <- protected_gate_spec, <- family_gate_spec. unfold judge, threshold.
  destruct (dlt (cs_structuralValidity a) _), (protected_gate corpus f b a), (family_gate f b a), (dlt (delta_ppm b a) _); intuition congruence.
Qed.

Section Results.
Context {HK : Hasher} (math_pow : number -> number -> number) (math_log2 : number -> number).
Context (score : DecodedSubstrate -> ProductionCorpusEvent -> ProductionCorpus -> ScoringOptions -> outcome QueryScore).
Abbreviation evaluate := (evaluateRetrievalBenchmarkState math_pow math_log2 score).
Abbreviation evaluate_patch := (evaluateRetrievalBenchmarkPatch math_pow math_log2 score).

(** C15. A patch is accepted exactly when it applies and the scores of the resulting state pass every gate: the structural floor, no protected query
    losing more than the floor, no scoring family collapsing, and an improvement that reaches the threshold. *)
Theorem patch_accepted_iff parent patch corpus pack opts floors pre r : evaluate_patch parent patch corpus pack opts floors pre = Returns r ->
  (match pre with Some b => before r = b | None => evaluate parent corpus pack opts = Returns (before r) end)
  /\ (accepted r = true <-> reason r = None)
  /\ (accepted r = true <-> exists state, applyPatch parent patch (so_policyAtomsMode opts) = Returns (PatchSuccess state) /\ evaluate state corpus pack opts = Returns (after r)
      /\ deltaPpm r = delta_ppm (before r) (after r)
      /\ dlt (cs_structuralValidity (after r)) (structuralFloor floors) = false /\ protected_kept corpus floors (before r) (after r)
      /\ families_kept floors (before r) (after r) /\ dlt (deltaPpm r) (threshold floors) = false).
Proof.
  unfold evaluateRetrievalBenchmarkPatch. intros (b & Hb & H)%bind_Returns. apply bind_Returns in H as (applied & Ha & H). destruct applied as [state|err].
  - apply bind_Returns in H as (a & He & [= <-]). cbn [before after accepted reason deltaPpm]. split; [destruct pre; congruence|]. rewrite bool_decide_eq_true. split; [done|].
    rewrite judge_spec. split; [intros (G1 & G2 & G3 & G4); exists state; done|]. intros (s & Hs & Es & _ & G). done.
  - injection H as <-. cbn [before after accepted reason deltaPpm]. split; [destruct pre; congruence|]. split; [done|]. split; [done|]. intros (s & Hs & _). congruence.
Qed.

Lemma clamp01_range v : is_NaN (clamp01 v) = true \/ dle (of_Z 0) (clamp01 v) = true /\ dle (clamp01 v) (of_Z 1) = true.
Proof.
  unfold clamp01, math_max, math_min. change (is_NaN (of_Z 1)) with false. change (is_NaN (of_Z 0)) with false. cbn [orb]. destruct (is_NaN v) eqn:Hv; [by left|right].
  destruct (dlt v (of_Z 1)) eqn:H1; [rewrite Hv|by cbn]. destruct (dlt (of_Z 0) v) eqn:H0; [|by cbn]. unfold dlt, dle, SFltb, SFleb in *.
  destruct (SFcompare (of_Z 0) v) as [[]|], (SFcompare v (of_Z 1)) as [[]|]; done.
Qed.
End Results.

(** ** Numbers that are not above zero *)
Definition nonpos (x : number) : Prop := is_NaN x = false /\ dlt (of_Z 0) x = false.

Lemma nonpos_lt x t : nonpos x -> dlt (of_Z 0) t = true -> dlt x t = true.
Proof.
  intros [Hx H0] Ht. destruct x as [sx|[]| |[] mx ex]; try done; destruct t as [st|[]| |[] mt et]; done.
Qed.

Lemma shr_fexp_nonneg m e l : 0 <= m -> 0 <= shr_m (shr_fexp prec emax m e l).1.
Proof.
  intros Hm. assert (Hr : 0 <= shr_m (shr_record_of_loc m l)) by (destruct l as [|[]]; exact Hm). unfold shr_fexp, shr. destruct (_ - e) as [|p|p]; cbn [fst]; [done| |done].
  rewrite shr_iter by done. apply Z.div_pos; lia.
Qed.

(** Rounding keeps the sign. *)
Lemma round_aux_sign s m e : binary_round_aux prec emax s (Zpos m) e loc_Exact ∈ [S754_zero s; S754_infinity s]
  \/ exists m' e', binary_round_aux prec emax s (Zpos m) e loc_Exact = S754_finite s m' e'.
Proof.
  unfold binary_round_aux. pose proof (shr_fexp_nonneg (Zpos m) e loc_Exact ltac:(lia)) as H1. destruct (shr_fexp prec emax (Zpos m) e loc_Exact) as [mrs e1]. cbn [fst] in H1.
  set (mx := round_nearest_even _ _). assert (Hmx : 0 <= mx) by (unfold mx, round_nearest_even; destruct (loc_of_shr_record mrs) as [|[]]; try destruct (Z.even _); lia).
  pose proof (shr_fexp_nonneg mx e1 loc_Exact Hmx) as H2. destruct (shr_fexp prec emax mx e1 loc_Exact) as [mrs2 e2]. cbn [fst] in H2.
  destruct (shr_m mrs2) as [|p|p]; [left; set_solver| |lia]. destruct (_ <=? _); [right; by eexists _, _|left; set_solver].
Qed.

Lemma nonpos_dmul x : nonpos x -> nonpos (dmul x (of_Z 1000000)).
Proof.
  intros [Hx H0]. remember (of_Z 1000000) as k eqn:Ek. vm_compute in Ek. subst k.
  destruct x as [[]|[]| |[] mx ex]; try done. cbn [dmul SFmul xorb]. unfold dmul. cbn [SFmul xorb].
  destruct (round_aux_sign true (mx * 8589934592000000) (ex + -33)) as [H|(m' & e' & ->)]; [|done].
  apply elem_of_cons in H as [-> |H%list_elem_of_singleton]; [done|by rewrite H].
Qed.

Lemma of_Z_nonpos n : n < 0 -> nonpos (of_Z n).
Proof.
  intros Hn. pose proof (number_sign_normalize n 0 ltac:(lia)) as H. fold (of_Z n) in H. change (binary_normalize prec emax n 0 false) with (of_Z n) in H. rewrite Z.sgn_neg in H by done.
  unfold number_sign in H. destruct (of_Z n) as [|[]| |[]]; done.
Qed.

Lemma js_round_nonpos x : nonpos x -> nonpos (js_round x).
Proof.
  intros [Hx H0]. unfold js_round. destruct (math_round x) as [n|] eqn:E; [|done]. assert (Hn : n <= 0).
  { destruct x as [|[]| |[] m e]; try done; cbn in E; [injection E as <-; done|]. injection E as <-. unfold floor_dyadic. destruct (Z.leb_spec 0 e).
    - replace (_ + _) with (2 * Zneg m) by lia. destruct (Z.leb_spec 0 (e - 1)); [nia|]. apply Z.div_le_upper_bound; [lia|]. lia.
    - destruct (Z.leb_spec 0 (e - 1)); [lia|]. assert (0 < 2 ^ (- e)) by lia. apply Z.lt_succ_r, Z.div_lt_upper_bound; [lia|].
      replace (- (e - 1)) with (Z.succ (- e)) by lia. rewrite Z.pow_succ_r by lia. lia. }
  destruct n as [|n|n]; [by destruct x|lia|by apply of_Z_nonpos].
Qed.

Lemma dsub_nonpos x y : valid_binary prec emax x = true -> valid_binary prec emax y = true -> is_finite x = true -> is_finite y = true -> dlt y x = false -> nonpos (dsub x y).
Proof.
  intros Vx Vy Fx Fy H. destruct (deq x y) eqn:Eq.
  - apply deq_key in Eq; [|by destruct x|by destruct y]. destruct x as [sx| | |sx mx ex], y as [sy| | |sy my ey]; try done; try (by destruct sx); try (by destruct sy); [by destruct sx, sy|].
    assert (sx = sy /\ mx = my /\ ex = ey) as (-> & -> & ->) by (destruct sx, sy; cbn in Eq; injection Eq; intros; try done; split_and!; congruence || lia).
    unfold dsub, SFsub. rewrite Z.sub_diag. done.
  - pose proof (sub_sign_dsub x y Vx Vy Eq) as S. unfold sub_sign in S. rewrite H in S. destruct (dlt x y) eqn:L.
    + unfold number_sign in S. destruct (dsub x y) as [|[]| |[]]; done.
    + exfalso. destruct x as [sx| | |sx mx ex], y as [sy| | |sy my ey]; try done; try (by destruct sx); try (by destruct sy).
      pose proof (deq_key (S754_finite sx mx ex) (S754_finite sy my ey) eq_refl eq_refl) as K. pose proof (dlt_key (S754_finite sx mx ex) (S754_finite sy my ey) eq_refl eq_refl) as K1.
      pose proof (dlt_key (S754_finite sy my ey) (S754_finite sx mx ex) eq_refl eq_refl) as K2. rewrite L in K1. rewrite H in K2. rewrite Eq in K. unfold key_lt in K1, K2. cbn [order_key fst snd] in *.
      assert (N : order_key (S754_finite sx mx ex) <> order_key (S754_finite sy my ey)) by (intros Ek; by apply K in Ek). cbn [order_key] in N.
      destruct (decide (cond_Zopp sx 1 = cond_Zopp sy 1)), (decide (cond_Zopp sx ex = cond_Zopp sy ey)), (decide (cond_Zopp sx (Zpos mx) = cond_Zopp sy (Zpos my))); first [congruence|lia].
Qed.

(** With finite composites: a delta that reaches a positive threshold means that the composite rose. *)
Lemma delta_improves b a t : valid_binary prec emax (composite b) = true -> valid_binary prec emax (composite a) = true -> is_finite (composite b) = true -> is_finite (composite a) = true ->
  dlt (of_Z 0) t = true -> dlt (delta_ppm b a) t = false -> dlt (composite b) (composite a) = true.
Proof.
  intros Vb Va Fb Fa Ht Hd. destruct (dlt (composite b) (composite a)) eqn:L; [done|]. assert (H : dlt (delta_ppm b a) t = true); [|congruence].
  apply nonpos_lt; [|done]. by apply js_round_nonpos, nonpos_dmul, dsub_nonpos.
Qed.

Section Contracts.
Context {HK : Hasher} (math_pow : number -> number -> number) (math_log2 : number -> number).
Context (score : DecodedSubstrate -> ProductionCorpusEvent -> ProductionCorpus -> ScoringOptions -> outcome QueryScore).
Abbreviation evaluate := (evaluateRetrievalBenchmarkState math_pow math_log2 score).
Abbreviation evaluate_patch := (evaluateRetrievalBenchmarkPatch math_pow math_log2 score).

(** An accepted patch raises the composite: with finite composites and a positive threshold, the score after is above the score before. *)
Theorem accepted_patch_improves parent patch corpus pack opts floors pre r : evaluate_patch parent patch corpus pack opts floors pre = Returns r ->
  valid_binary prec emax (composite (before r)) = true -> valid_binary prec emax (composite (after r)) = true ->
  is_finite (composite (before r)) = true -> is_finite (composite (after r)) = true -> dlt (of_Z 0) (threshold floors) = true ->
  accepted r = true -> dlt (composite (before r)) (composite (after r)) = true.
Proof.
  unfold evaluateRetrievalBenchmarkPatch. intros (b & Hb & H)%bind_Returns. apply bind_Returns in H as (applied & Ha & H). destruct applied as [state|err]; [|by injection H as <-].
  apply bind_Returns in H as (a & He & [= <-]). cbn [before after accepted]. intros Vb Va Fb Fa Ht Hj%bool_decide_eq_true. apply judge_spec in Hj as (_ & _ & _ & Hd). by eapply delta_improves.
Qed.

(** What a query's record says of the query. *)
Record scored_as (ev : ProductionCorpusEvent) (q : PerQueryBreakdown) : Prop := {
  as_id : pq_recordId q = ev_id ev /\ pq_family q = family ev;
  as_probe : is_Some (pq_abstentionHit q) <-> truthDocuments ev = [];
  as_answerable : is_Some (answerInCap q) <-> truthDocuments ev <> [];
  as_hop : is_Some (multiHopHit q) <-> family ev = "multi_hop_relation"%string;
  as_temporal : is_Some (temporalHit q) -> family ev = "temporal"%string /\ exists d, d ∈ truthDocuments ev /\ isCurrent d = true;
  as_false_abstain : policyFalseAbstain q = Some true -> truthDocuments ev <> []
}.

Lemma score_query_as o decoded corpus ev q : score_query math_pow math_log2 score o decoded corpus ev = Returns q -> scored_as ev q.
Proof.
  unfold score_query. intros (s & _ & H)%bind_Returns. destruct (temporal_ndcg _ _ _ _ _) as [ndcg contrast]. injection H as <-.
  constructor; cbn [pq_recordId pq_family pq_abstentionHit answerInCap multiHopHit temporalHit policyFalseAbstain].
  - done.
  - case_bool_decide; split; naive_solver.
  - case_bool_decide; split; naive_solver.
  - unfold multi_hop_hit. destruct (String.eqb_spec (family ev) "multi_hop_relation"); split; naive_solver.
  - unfold temporal_hit. destruct (String.eqb_spec (family ev) "temporal") as [E|]; [|by intros [? [=]]]. destruct (ev_member "temporal" ev); try by intros [? [=]].
    intros [x Hx]. split; [done|]. destruct (head _) as [d|] eqn:Eh; [|by destruct (map sc_ranked _)]. exists d. apply head_Some_elem_of, list_elem_of_filter in Eh. tauto.
  - destruct (so_policyAtomsMode o); [|done]. destruct (bool_decide_reflect (truthDocuments ev = [])); [|done]. cbn [negb]. rewrite andb_false_r. done.
Qed.

(** Scoring a pack gives one record per query, in order, each saying of its query what it should; the composite is NaN or lies between 0 and 1;
    nothing is scored with weights that fail the check or under a pipeline version this program does not support. *)
Theorem state_score_contract state corpus pack opts cs : evaluate state corpus pack opts = Returns cs ->
  Forall2 scored_as (qp_events pack) (perQuery cs)
  /\ (is_NaN (composite cs) = true \/ dle (of_Z 0) (composite cs) = true /\ dle (composite cs) (of_Z 1) = true)
  /\ cs_structuralValidity cs = structuralValidity (decodeSubstrate state (decoder_options (with_registry corpus opts)))
  /\ assertValidWeights (so_weights opts) = Returns tt
  /\ (forall v, pipelineVersion opts = Some v -> v = ""%string \/ v ∈ CORETEX_PIPELINE_VERSIONS_SUPPORTED).
Proof.
  unfold evaluateRetrievalBenchmarkState. intros ([] & Hw & H)%bind_Returns. apply bind_Returns in H as ([] & Hv & H). cbv zeta in H. apply bind_Returns in H as (l & Hl & [= <-]).
  split; [|split; [apply clamp01_range|split; [done|split; [done|]]]].
  - apply mapM_Returns in Hl. eapply Forall2_impl; [exact Hl|]. intros ev q. cbn. apply score_query_as.
  - intros v E. unfold assertPipelineVersionMatches in Hv. rewrite E in Hv. apply throw_if_Returns, andb_false_iff in Hv as [Hv|Hv].
    + apply negb_false_iff, String.eqb_eq in Hv. by left.
    + right. apply bool_decide_eq_false in Hv. by apply dec_stable.
Qed.

Lemma be_fold_bound l v n : Forall byte_ok l -> 0 <= v < 2 ^ (8 * n) -> 0 <= n -> 0 <= fold_left (fun v b => Z.lor (Z.shiftl v 8) b) l v < 2 ^ (8 * (n + Z.of_nat (length l))).
Proof.
  revert v n. induction l as [|b l IH]; intros v n Hl Hv Hn; cbn [fold_left length]; [by rewrite Z.add_0_r|]. apply Forall_cons in Hl as [Hb Hl]. unfold byte_ok in Hb.
  replace (n + Z.of_nat (S (length l))) with ((n + 1) + Z.of_nat (length l)) by lia. apply IH; [done| |lia].
  rewrite Z.shiftl_mul_pow2 by lia. assert (E : Z.lor (v * 2 ^ 8) b = v * 2 ^ 8 + b).
  { symmetry. rewrite <- Z.lxor_lor, <- Z.add_nocarry_lxor; [done| |]; apply Z.bits_inj'; intros i Hi; rewrite Z.land_spec, Z.bits_0;
      (destruct (Z.ltb_spec i 8); [rewrite Z.mul_pow2_bits_low by lia; done|]; replace b with (b mod 2 ^ 8) by (apply Z.mod_small; lia); rewrite Z.mod_pow2_bits_high by lia; by rewrite andb_false_r). }
  rewrite E. replace (8 * (n + 1)) with (8 * n + 8) by lia. rewrite Z.pow_add_r by lia. lia.
Qed.

(** A record id fits the 128-bit field of a memory slot. *)
Lemma stableRecordIdFor_bound id : 0 <= stableRecordIdFor id < 2 ^ 128.
Proof.
  unfold stableRecordIdFor. set (data := text_encode _). pose proof (be_fold_bound (take 16 (keccak256 data)) 0 0) as H. rewrite length_take, length_keccak256 in H.
  apply H; [apply Forall_take, keccak256_ok|lia|lia].
Qed.
End Contracts.

(** ** Witnesses *)
Definition opts_w : ScoringOptions := options_w weights_w (Decoder.mkLayout 2 4 int8) (Some CORETEX_PIPELINE_VERSION_R5) false.
(** A scorer that finds a confident answer as long as nothing is decoded. *)
Definition answers_w (decoded : DecodedSubstrate) (_ : ProductionCorpusEvent) (_ : ProductionCorpus) (_ : ScoringOptions) : outcome QueryScore :=
  Returns (mkQueryScore [] (if decodeAttempts decoded =? 0 then of_Z 1 else of_Z 0) [] [] [] false [] false false false false).
Definition corpus_b : ProductionCorpus := mkCorpus [] [] None None "0xABCD" 5 "" "" HiddenPack.layout_w "" "".
Definition pack_b : QueryPack := mkPack 5 "" "0xABCD" [query_w "q" "abstention" []].
Definition floors_w : PatchAcceptanceFloors := mkFloors (of_Z 1000) (of_Z 0) (of_Z 1) (of_frac 1 2) None.
Definition pow_w (x y : number) : number := x.
Definition log2_w (x : number) : number := x.
Abbreviation patch_run_w := (evaluateRetrievalBenchmarkPatch (HK:=const_hasher) pow_w log2_w answers_w zero_state patch_w corpus_b pack_b opts_w floors_w None).
Definition result_w : option PatchEvalResult := Eval vm_compute in match patch_run_w with Returns r => Some r | _ => None end.

Lemma patch_run_w_spec : exists r, result_w = Some r /\ patch_run_w = Returns r.
Proof. eexists. split; [reflexivity|]. vm_compute. reflexivity. Qed.

Lemma patch_accepted_iff_witness : exists r, result_w = Some r /\ accepted r = true /\ reason r = None.
Proof.
  destruct patch_run_w_spec as (r & Hr & E). exists r. split; [exact Hr|].
  destruct (patch_accepted_iff (HK:=const_hasher) pow_w log2_w answers_w zero_state patch_w corpus_b pack_b opts_w floors_w None r E) as (_ & H & _).
  assert (A : accepted r = true) by (injection Hr as <-; reflexivity). split; [exact A|]. apply H. exact A.
Defined.

Lemma accepted_patch_improves_witness : exists r, result_w = Some r /\ dlt (composite (before r)) (composite (after r)) = true.
Proof.
  destruct patch_run_w_spec as (r & Hr & E). exists r. split; [exact Hr|].
  apply (accepted_patch_improves (HK:=const_hasher) pow_w log2_w answers_w zero_state patch_w corpus_b pack_b opts_w floors_w None r E); injection Hr as <-; reflexivity.
Defined.

Lemma state_score_contract_witness : exists cs, evaluateRetrievalBenchmarkState (HK:=const_hasher) pow_w log2_w answers_w zero_state corpus_b pack_b opts_w = Returns cs
  /\ Forall2 scored_as (qp_events pack_b) (perQuery cs).
Proof.
  eexists. assert (E : evaluateRetrievalBenchmarkState (HK:=const_hasher) pow_w log2_w answers_w zero_state corpus_b pack_b opts_w = Returns _) by (vm_compute; reflexivity). split; [exact E|].
  exact (proj1 (state_score_contract (HK:=const_hasher) pow_w log2_w answers_w zero_state corpus_b pack_b opts_w _ E)).
Defined.

(** A weight that is missing reads as NaN and passes every comparison of the weight check. *)
Example missing_weight_passes : assertValidWeights (mkWeights S754_nan (of_frac 8 100) (of_frac 7 100) (of_frac 5 100) (of_frac 5 100)) = Returns tt.
Proof. reflexivity. Qed.

(** With it the composite is NaN, and the patch is accepted whatever the threshold. *)
Definition nan_opts_w : ScoringOptions := options_w (mkWeights S754_nan (of_frac 8 100) (of_frac 7 100) (of_frac 5 100) (of_frac 5 100)) (Decoder.mkLayout 2 4 int8) None false.
Example nan_composite_accepted :
  match evaluateRetrievalBenchmarkPatch (HK:=const_hasher) pow_w log2_w answers_w zero_state patch_w corpus_b pack_b nan_opts_w (mkFloors (of_Z 1000000) (of_Z 0) (of_Z 1) (of_frac 1 2) None) None with
  | Returns r => (accepted r, deltaPpm r)
  | Throws _ => (false, of_Z 0)
  end = (true, S754_nan).
Proof. vm_compute. reflexivity. Qed.

(** The program's scorer. *)
Definition retrieval_scorer {HK : Hasher} (math_log : number -> number) (sha256_hex : string -> string) (rerank : list (string * string) -> outcome (list number))
    (decoded : DecodedSubstrate) (query : ProductionCorpusEvent) (corpus : ProductionCorpus) (o : ScoringOptions) : outcome QueryScore :=
  scoreSubstrateAgainstQuery math_log sha256_hex rerank o decoded query corpus.

(** [x ** y] for an exponent 0 or 1. *)
Definition pow_01 (x y : number) : number := if deq y float0 then float1 else x.
(** An empty substrate over two events: the query's own document lies beyond the first stage, so its query scores nothing. *)
Example pack_scored :
  match evaluateRetrievalBenchmarkState (HK:=const_hasher) pow_01 log2_w (retrieval_scorer (HK:=const_hasher) no_log no_sha by_length) zero_state corpus_2
    (mkPack 5 "" "0x00" [query_2]) (options_w weights_w (Decoder.mkLayout 1 4 int8) None false) with
  | Returns cs => (map (fun q => (pq_recordId q, nDCG10 q, answerInCap q)) (perQuery cs), dlt (composite cs) (of_frac 1 2))
  | Throws _ => ([], false)
  end = ([("q"%string, float0, Some false)], true).
Proof. vm_compute. reflexivity. Qed.
