(* ===== verification/SafeInteger.v ===== *)
(** * Safe integers as doubles

    JavaScript keeps block numbers, epochs, counters and thresholds in
    doubles, and the code guards them with [Number.isSafeInteger]. Inside
    that range a double and the integer it denotes are interchangeable: the
    integer comes back ([math_floor_of_Z]), it passes the guard
    ([of_Z_safe]), the order is the order of the integers ([dlt_of_Z],
    [dle_of_Z]) and sums are exact ([dadd_of_Z]). *)
From Stdlib Require Import SpecFloat.
From S2P Require Import Prelude Float CanonicalJson.

Definition safe_Z (z : Z) : Prop := Z.abs z < 2 ^ 53.

#[export] Instance safe_Z_dec z : Decision (safe_Z z).
Proof. unfold safe_Z. apply _. Defined.

(** Shifting out zeros loses nothing. *)
Lemma shr_1_even z : 0 <= z -> shr_1 {| shr_m := 2 * z; shr_r := false; shr_s := false |} = {| shr_m := z; shr_r := false; shr_s := false |}.
Proof. by destruct z. Qed.

Lemma shr_iter_exact k z : 0 <= z -> SpecFloat.iter_pos shr_1 k {| shr_m := z * 2 ^ Zpos k; shr_r := false; shr_s := false |} = {| shr_m := z; shr_r := false; shr_s := false |}.
Proof.
  revert z. induction k as [k IH|k IH|]; intros z Hz; cbn [SpecFloat.iter_pos].
  - replace (z * 2 ^ Zpos k~1) with (2 * (z * 2 ^ Zpos k * 2 ^ Zpos k)) by (rewrite (Pos2Z.inj_xI k), <- Z.mul_assoc, <- Z.pow_add_r by lia; replace (2 * Zpos k + 1) with (Z.succ (Zpos k + Zpos k)) by lia; rewrite Z.pow_succ_r by lia; lia).
    assert (0 <= z * 2 ^ Zpos k) by nia. rewrite shr_1_even by nia. rewrite IH by done. by apply IH.
  - replace (z * 2 ^ Zpos k~0) with (z * 2 ^ Zpos k * 2 ^ Zpos k) by (rewrite (Pos2Z.inj_xO k), <- Z.mul_assoc, <- Z.pow_add_r by lia; f_equal; f_equal; lia).
    rewrite IH by nia. by apply IH.
  - replace (z * 2 ^ 1) with (2 * z) by lia. by apply shr_1_even.
Qed.

Lemma digits2_unique m d : 2 ^ (d - 1) <= Zpos m < 2 ^ d -> Zpos (digits2_pos m) = d.
Proof.
  intros H. pose proof (digits2_bound m) as [D1 D2]. destruct (Z.lt_trichotomy (Zpos (digits2_pos m)) d) as [L|[L|L]]; [|done|].
  - assert (2 ^ Zpos (digits2_pos m) <= 2 ^ (d - 1)) by (apply Z.pow_le_mono_r; lia). lia.
  - assert (2 ^ d <= 2 ^ (Zpos (digits2_pos m) - 1)) by (apply Z.pow_le_mono_r; lia). lia.
Qed.

(** A positive integer below 2^53 at any exponent rounds to itself, its mantissa shifted to 53 digits. *)
Lemma round_exact p m e : Zpos p < 2 ^ 53 -> e <= 0 -> Zpos m = Zpos p * 2 ^ (- e) ->
  exists M, let e0 := Zpos (digits2_pos p) - 53 in binary_round prec emax false m e = S754_finite false M e0 /\ Zpos M = Zpos p * 2 ^ (- e0) /\ e0 <= 0
  /\ bounded prec emax M e0 = true.
Proof.
  intros Hp He Hm. pose proof (digits2_bound p) as [D1 D2]. set (d := Zpos (digits2_pos p)) in *.
  assert (Hd : d <= 53). { destruct (Z.le_gt_cases d 53); [done|]. assert (2 ^ 53 <= 2 ^ (d - 1)) by (apply Z.pow_le_mono_r; lia). lia. }
  assert (Hd1 : 1 <= d) by (unfold d; lia).
  assert (Dm : Zpos (digits2_pos m) = d - e).
  { apply digits2_unique. rewrite Hm. replace (2 ^ (d - e - 1)) with (2 ^ (d - 1) * 2 ^ (- e)) by (rewrite <- Z.pow_add_r by lia; f_equal; lia).
    replace (2 ^ (d - e)) with (2 ^ d * 2 ^ (- e)) by (rewrite <- Z.pow_add_r by lia; f_equal; lia). assert (0 < 2 ^ (- e)) by lia. nia. }
  destruct (Z.of_nat (Z.to_nat (Zpos p * 2 ^ (53 - d)))) as [|M|M] eqn:EM; rewrite Z2Nat.id in EM by nia; [exfalso; assert (0 < 2 ^ (53 - d)) by lia; nia| |lia].
  assert (Hb : 2 ^ 52 <= Zpos M < 2 ^ 53).
  { rewrite <- EM. replace (2 ^ 52) with (2 ^ (d - 1) * 2 ^ (53 - d)) by (rewrite <- Z.pow_add_r by lia; f_equal; lia).
    replace (2 ^ 53) with (2 ^ d * 2 ^ (53 - d)) by (rewrite <- Z.pow_add_r by lia; f_equal; lia). assert (0 < 2 ^ (53 - d)) by lia. nia. }
  assert (DM : Zpos (digits2_pos M) = 53) by by apply digits2_unique.
  assert (Hf : forall n x, n + x = d -> fexp prec emax (n + x) = d - 53) by (intros n x ->; unfold fexp, emin, prec, emax; lia).
  assert (Hshr : shr_fexp prec emax (Zpos M) (d - 53) loc_Exact = (shr_record_of_loc (Zpos M) loc_Exact, d - 53)).
  { unfold shr_fexp, Zdigits2. rewrite DM, Hf, Z.sub_diag by lia. done. }
  assert (Haux : forall z x, shr_fexp prec emax z x loc_Exact = (shr_record_of_loc (Zpos M) loc_Exact, d - 53) -> binary_round_aux prec emax false z x loc_Exact = S754_finite false M (d - 53)).
  { intros z x E. unfold binary_round_aux. rewrite E. cbn [shr_record_of_loc shr_m loc_of_shr_record round_nearest_even]. rewrite Hshr. cbn [shr_record_of_loc shr_m].
    by rewrite (proj2 (Z.leb_le (d - 53) (emax - prec))) by (unfold emax, prec; lia). }
  exists M. cbv zeta. split; [|split; [rewrite <- EM; f_equal; f_equal; lia|split; [lia|]]].
  2: { unfold bounded, canonical_mantissa. rewrite DM, Hf, Z.eqb_refl by lia. cbn [andb]. apply Z.leb_le. unfold emax, prec. lia. }
  unfold binary_round. rewrite Dm, Hf by lia. destruct (Z.le_gt_cases (d - 53) e) as [L|L].
  - destruct (shl_align_spec m e (d - 53) L) as [Ha Hx]. destruct (shl_align m e (d - 53)) as [z x]. cbn [fst snd] in Ha, Hx. subst x. apply Haux.
    assert (Zpos z = Zpos M) as ->; [|done]. rewrite Ha, Hm, <- EM, <- Z.mul_assoc, <- Z.pow_add_r by lia. f_equal. f_equal. lia.
  - unfold shl_align. destruct (d - 53 - e) as [|k|k] eqn:Ek; [lia| |lia]. apply Haux. unfold shr_fexp, Zdigits2. rewrite Dm, Hf, Ek by lia. unfold shr.
    assert (E : Zpos m = Zpos M * 2 ^ Zpos k) by (rewrite Hm, <- EM, <- Ek, <- Z.mul_assoc, <- Z.pow_add_r by lia; f_equal; f_equal; lia).
    cbn [shr_record_of_loc]. rewrite E, shr_iter_exact by done. f_equal. lia.
Qed.

(** [of_Z] of a positive integer below 2^53. *)
Lemma of_Z_pos p : Zpos p < 2 ^ 53 -> exists m e, of_Z (Zpos p) = S754_finite false m e /\ Zpos m = Zpos p * 2 ^ (- e) /\ e <= 0
  /\ bounded prec emax m e = true.
Proof. intros Hp. destruct (round_exact p p 0 Hp) as (M & H); [done|lia|]. exists M. eexists. exact H. Qed.

Lemma of_Z_neg p : of_Z (Zneg p) = match of_Z (Zpos p) with S754_finite _ m e => S754_finite true m e | S754_infinity _ => S754_infinity true | S754_zero _ => S754_zero true | S754_nan => S754_nan end.
Proof.
  unfold of_Z, of_dyadic. cbn [binary_normalize]. unfold binary_round. destruct (shl_align p 0 _) as [m e]. unfold binary_round_aux.
  destruct (shr_fexp prec emax (Zpos m) e loc_Exact) as [mrs e1]. destruct (shr_fexp prec emax (round_nearest_even _ _) e1 loc_Exact) as [mrs2 e2].
  destruct (shr_m mrs2); [done| |done]. by destruct (_ <=? _).
Qed.

(** The integer a double was made of comes back. *)
Lemma math_floor_of_Z z : safe_Z z -> math_floor (of_Z z) = Some z.
Proof.
  unfold safe_Z. intros H. assert (Hd : forall p m e, Zpos m = Zpos p * 2 ^ (- e) -> e <= 0 -> floor_dyadic (Zpos m) e = Zpos p /\ floor_dyadic (Zneg m) e = Zneg p).
  { intros p m e Hm He. unfold floor_dyadic. change (Zneg m) with (- Zpos m). rewrite Hm. destruct (Z.leb_spec 0 e).
    - assert (e = 0) as -> by lia. cbn. lia.
    - rewrite <- Z.mul_opp_l, !Z.div_mul by lia. done. }
  destruct z as [|p|p]; [done| |].
  - destruct (of_Z_pos p) as (m & e & -> & Hm & He & _); [lia|]. cbn [math_floor cond_Zopp]. f_equal. by apply Hd.
  - rewrite of_Z_neg. destruct (of_Z_pos p) as (m & e & -> & Hm & He & _); [lia|]. cbn [math_floor cond_Zopp]. f_equal. by apply Hd.
Qed.

Lemma deq_refl x : is_NaN x = false -> deq x x = true.
Proof. intros H. by apply deq_key. Qed.

Lemma of_Z_not_NaN z : safe_Z z -> is_NaN (of_Z z) = false.
Proof. intros H. apply math_floor_of_Z in H. by destruct (of_Z z). Qed.

Lemma of_Z_safe z : safe_Z z -> is_safe_integer (of_Z z) = true.
Proof.
  intros H. unfold is_safe_integer. rewrite math_floor_of_Z by done. rewrite deq_refl by by apply of_Z_not_NaN.
  cbn [andb]. by apply Z.ltb_lt.
Qed.

(** What the guard says: the double is the integer, up to the sign of zero. *)
Lemma safe_integer_inv n : is_safe_integer n = true -> exists z, math_floor n = Some z /\ safe_Z z /\ (n = of_Z z \/ z = 0 /\ n = S754_zero true).
Proof.
  unfold is_safe_integer. destruct (math_floor n) as [z|] eqn:E; [|done]. intros [Hd Hz%Z.ltb_lt]%andb_true_iff. exists z. split; [done|]. split; [done|].
  destruct n as [[]|s| |s m e]; cbn [math_floor] in E; try done.
  - injection E as <-. right. done.
  - injection E as <-. left. done.
  - left. apply deq_key in Hd; [|by apply of_Z_not_NaN|done]. assert (N := of_Z_not_NaN z Hz). destruct (of_Z z) as [[]|[]| |[] m' e']; cbn in Hd; destruct s; try done; injection Hd; intros; f_equal; lia.
Qed.

(** The order of safe integers is the order of their doubles. *)
Lemma dlt_of_Z a b : 0 <= a -> 0 <= b -> safe_Z a -> safe_Z b -> dlt (of_Z a) (of_Z b) = (a <? b).
Proof.
  unfold safe_Z. intros Ha Hb Sa Sb. destruct a as [|p|p], b as [|q|q]; try lia; [done| | |].
  - destruct (of_Z_pos q) as (m & e & -> & _); [lia|]. done.
  - destruct (of_Z_pos p) as (m & e & -> & _); [lia|]. done.
  - destruct (of_Z_pos p) as (m1 & e1 & -> & M1 & E1 & B1); [lia|]. destruct (of_Z_pos q) as (m2 & e2 & -> & M2 & E2 & B2); [lia|].
    pose proof (bounded_sgn _ _ _ _ B1 B2) as S. set (ez := Z.min e1 e2) in *. assert (P : forall p' e', e' <= 0 -> ez <= e' -> Zpos p' * 2 ^ (- e') * 2 ^ (e' - ez) = Zpos p' * 2 ^ (- ez)).
    { intros p' e' H1 H2. rewrite <- Z.mul_assoc, <- Z.pow_add_r by lia. f_equal. f_equal. lia. }
    rewrite M1, M2, !P in S by (unfold ez; lia). rewrite <- Z.mul_sub_distr_r, Z.sgn_mul in S. replace (Z.sgn (2 ^ (- ez))) with 1 in S by (symmetry; apply Z.sgn_pos_iff; unfold ez; lia).
    rewrite Z.mul_1_r in S. unfold dlt, SFltb. cbn [SFcompare]. change (Pos.compare_cont Eq m1 m2) with (Pos.compare m1 m2).
    destruct (Z.compare e1 e2); cbn in S |- *; [destruct (Pos.compare m1 m2); cbn in S |- *|..]; symmetry; (apply Z.ltb_lt; lia) || (apply Z.ltb_ge; lia).
Qed.

Lemma dle_not_dlt x y : is_NaN x = false -> is_NaN y = false -> dle x y = negb (dlt y x).
Proof.
  intros Hx Hy. unfold dle, dlt, SFleb, SFltb. destruct x as [[]|[]| |[] mx ex], y as [[]|[]| |[] my ey]; try done; cbn;
    rewrite (Z.compare_antisym ex ey); destruct (Z.compare ex ey); cbn; try done;
    change (Pos.compare_cont Eq ?a ?b) with (Pos.compare a b); rewrite (Pos.compare_antisym mx my); by destruct (Pos.compare mx my).
Qed.

Lemma dle_of_Z a b : 0 <= a -> 0 <= b -> safe_Z a -> safe_Z b -> dle (of_Z a) (of_Z b) = (a <=? b).
Proof. intros. rewrite dle_not_dlt by by apply of_Z_not_NaN. rewrite dlt_of_Z by done. by rewrite <- Z.leb_antisym. Qed.

(** Sums that stay in range are exact. *)
Lemma dadd_of_Z a b : 0 <= a -> 0 <= b -> safe_Z (a + b) -> dadd (of_Z a) (of_Z b) = of_Z (a + b).
Proof.
  unfold safe_Z. intros Ha Hb Hs. destruct a as [|p|p]; [|destruct b as [|q|q]; [| |lia]|lia].
  - destruct b as [|q|q]; [done| |lia]. destruct (of_Z_pos q) as (m & e & E & _); [lia|]. cbn [Z.add]. by rewrite E.
  - destruct (of_Z_pos p) as (m & e & E & _); [lia|]. cbn [Z.add]. by rewrite E.
  - destruct (round_exact p p 0) as (M1 & E1 & H1 & L1 & _); [lia|done|lia|]. destruct (round_exact q q 0) as (M2 & E2 & H2 & L2 & _); [lia|done|lia|].
    change (of_Z (Zpos p)) with (binary_round prec emax false p 0). change (of_Z (Zpos q)) with (binary_round prec emax false q 0). rewrite E1, E2.
    set (e1 := Zpos (digits2_pos p) - 53) in *. set (e2 := Zpos (digits2_pos q) - 53) in *. unfold dadd. cbn [SFadd cond_Zopp].
    destruct (shl_align_spec M1 e1 (Z.min e1 e2)) as [A1 _]; [lia|]. destruct (shl_align_spec M2 e2 (Z.min e1 e2)) as [A2 _]; [lia|].
    rewrite A1, A2, H1, H2, <- !Z.mul_assoc, <- !Z.pow_add_r by lia. replace (- e1 + (e1 - Z.min e1 e2)) with (- Z.min e1 e2) by lia. replace (- e2 + (e2 - Z.min e1 e2)) with (- Z.min e1 e2) by lia.
    rewrite <- Z.mul_add_distr_r. change (Zpos p + Zpos q) with (Zpos (p + q)) in *. destruct (Zpos (p + q) * 2 ^ (- Z.min e1 e2)) as [|m|m] eqn:Em; [exfalso; assert (0 < 2 ^ (- Z.min e1 e2)) by lia; nia| |exfalso; assert (0 < 2 ^ (- Z.min e1 e2)) by lia; nia].
    change (of_Z (Zpos (p + q))) with (binary_round prec emax false (p + q) 0). cbn [binary_normalize].
    destruct (round_exact (p + q) m (Z.min e1 e2)) as (M & -> & HM & _); [lia|lia|done|]. destruct (round_exact (p + q) (p + q) 0) as (M' & -> & HM' & _); [lia|done|lia|].
    f_equal. apply Pos2Z.inj. congruence.
Qed.
