(* ===== verification/EvalReport.v ===== *)
(** * Published eval reports (replay/eval-report-artifact.ts)

    The artifact of an accepted evaluation is the JSON document whose hash
    goes on chain. It is fetched from an untrusted host, so its verifier works
    on a JavaScript value ([jsval]) and checks every field's type itself.

    Theorems: what a verified artifact has passed ([artifact_sound]); its hash
    binds the document ([artifact_hash_binds]); an artifact that claims block 0
    is not replayed at all ([block_zero_unreplayed]). That the artifact of an
    honest evaluator verifies is in [EvaluatorArtifact]. *)
From Stdlib Require Import Ascii.
From stdpp Require Import pretty.
From S2P Require Import Prelude JsSort Float StateTypes Codec Keccak Merkle Decoder Substrate Validate Patch SeedDerivation PerPatch CanonicalJson EvalHarness SafeInteger.

(** ** Reading a JavaScript value *)
(** [v.k] of an object; anything else has no such property. *)
Definition prop (v : jsval) (k : string) : jsval :=
  match v with JObject fields => default JUndefined (jsmap_get k fields) | _ => JUndefined end.

(** [Boolean(v)] *)
Definition truthy (v : jsval) : bool :=
  match v with
  | JUndefined | JNull => false
  | JBool b => b
  | JNumber n => negb (is_NaN n || deq n (of_Z 0))
  | JString s => negb (String.eqb s "")
  | JBigInt z => negb (z =? 0)
  | _ => true
  end.

(** [v && typeof v === 'object'] *)
Definition is_object (v : jsval) : bool := match v with JObject _ | JArray _ | JMap _ | JBytes _ => true | _ => false end.

(** The value of a field that was checked to be a string, an integer, a number. *)
Definition str (v : jsval) : string := match v with JString s => s | _ => "" end.
Definition num (v : jsval) : number := match v with JNumber n => n | _ => of_Z 0 end.
Definition int (v : jsval) : Z := default 0 (math_floor (num v)).

Definition is_str (v : jsval) (s : string) : bool := match v with JString s' => String.eqb s' s | _ => false end.
(** [Number.isSafeInteger(v) && v >= 0] *)
Definition safe_field (v : jsval) : bool := match v with JNumber n => is_safe_integer n && negb (dlt n (of_Z 0)) | _ => false end.
(** The module's [isBytes32] and [isAddress]. *)
Definition bytes32_field (v : jsval) : bool := match v with JString s => BYTES32_RE s | _ => false end.
Definition address_field (v : jsval) : bool := match v with JString s => ADDR_RE s | _ => false end.
(** [/^0x[0-9a-fA-F]*$/.test(s)] *)
Definition HEX_RE (s : string) : bool :=
  match s with
  | String "0" (String "x" s') => forallb is_hex_char (String.list_ascii_of_string s')
  | _ => false
  end.
Definition hex_field (v : jsval) : bool := match v with JString s => HEX_RE s && Nat.even (String.length s - 2) | _ => false end.
(** The module's [hexEq] on unknown values. *)
Definition hexEq_field (a b : jsval) : bool := match a, b with JString x, JString y => hexEq x y | _, _ => false end.

(** A chain of [if (c) return reason;]. *)
Definition fault (c : bool) (reason : string) : option string := if c then Some reason else None.
Fixpoint first_fault (l : list (option string)) : option string :=
  match l with
  | [] => None
  | Some reason :: _ => Some reason
  | None :: rest => first_fault rest
  end.

(** [{ ...v }] *)
Definition spread (v : jsval) : list (string * jsval) :=
  match v with
  | JObject fields => fields
  | JArray elems => imap (fun i x => (pretty (Z.of_nat i), x)) elems
  | JBytes bs => imap (fun i b => (pretty (Z.of_nat i), JNumber (of_Z b))) bs
  | JString s => imap (fun i c => (pretty (Z.of_nat i), JString (String c ""))) (String.list_ascii_of_string s)
  | _ => []
  end.

(** ** Layout *)
Definition EVAL_REPORT_ARTIFACT_DIR : string := "eval-reports".
Definition evalReportArtifactRelativePath (artifactHash : string) : outcome string :=
  throw_when negb (BYTES32_RE artifactHash) with GenericError "artifactHash must be bytes32" ;;
  Returns (EVAL_REPORT_ARTIFACT_DIR +:+ "/" +:+ toLowerCase artifactHash +:+ ".json")%string.

(** [baseUrl.replace(/\/+$/, '')] *)
Definition strip_slashes (s : string) : string :=
  let fix drop_head (l : list ascii) := match l with c :: r => if Ascii.eqb c "/" then drop_head r else l | [] => [] end in
  String.string_of_list_ascii (rev (drop_head (rev (String.list_ascii_of_string s)))).
Definition evalReportArtifactUrl (baseUrl artifactHash : string) : outcome string :=
  p ← evalReportArtifactRelativePath artifactHash;
  Returns (strip_slashes baseUrl +:+ "/" +:+ p)%string.

(** ** Verification *)
Definition validateArtifactShape (artifact : jsval) : option string :=
  let seed := prop artifact "seedDerivation" in
  let ctx := prop artifact "context" in
  let receipt := prop artifact "receipt" in
  first_fault (
    [ fault (negb (is_object artifact)) "artifact must be an object";
      fault (negb (is_str (prop artifact "version") "coretex-post-reveal-eval-report-v1")) "version mismatch";
      fault (negb (bytes32_field (prop artifact "evalReportHash"))) "evalReportHash must be bytes32";
      fault (negb (bytes32_field (prop artifact "artifactHash"))) "artifactHash must be bytes32";
      fault (negb (safe_field (prop artifact "epochId"))) "epochId invalid";
      fault (negb (address_field (prop artifact "minerAddress"))) "minerAddress invalid";
      fault (negb (is_str (prop artifact "outcome") "SCREENER_PASS") && negb (is_str (prop artifact "outcome") "STATE_ADVANCE")) "outcome invalid";
      fault (negb (hex_field (prop artifact "compactPatchBytesHex"))) "compactPatchBytesHex invalid";
      fault (negb (safe_field (prop artifact "thresholdPpm"))) "thresholdPpm invalid";
      fault (negb (is_object seed)) "seedDerivation missing";
      fault (negb (is_str (prop seed "mode") "future_blockhash_dual_pack")) "seedDerivation.mode invalid" ]%string
    ++ map (fun key => fault (negb (safe_field (prop seed key))) ("seedDerivation." +:+ key +:+ " invalid"))%string
         ["epochId"; "receivedAtBlock"; "targetBlock"; "targetBlockOffset"]%string
    ++ map (fun key => fault (negb (bytes32_field (prop seed key))) ("seedDerivation." +:+ key +:+ " must be bytes32"))%string
         ["blockhash"; "patchHash"; "parentStateRoot"; "corpusRoot"; "bundleHash"]%string
    ++ [ fault (negb (is_object ctx)) "context missing" ]%string
    ++ map (fun key => fault (negb (bytes32_field (prop ctx key))) ("context." +:+ key +:+ " must be bytes32"))%string
         ["parentStateRoot"; "corpusRoot"; "coreVersionHash"; "hiddenSeedCommit"]%string
    ++ [ fault (negb (safe_field (prop ctx "replayTolerancePpm"))) "context.replayTolerancePpm invalid";
         fault (negb (is_object receipt)) "receipt missing";
         fault (negb (safe_field (prop receipt "epochId"))) "receipt.epochId invalid";
         fault (negb (bytes32_field (prop receipt "parentRoot"))) "receipt.parentRoot must be bytes32";
         fault (negb (address_field (prop receipt "minerAddress"))) "receipt.minerAddress invalid" ]%string
    ++ map (fun key => fault (negb (safe_field (prop receipt key))) ("receipt." +:+ key +:+ " invalid"))%string
         ["gateScorePpm"; "confirmScorePpm"; "receivedAtBlock"; "targetBlock"]%string
    ++ map (fun key => fault (negb (bytes32_field (prop receipt key))) ("receipt." +:+ key +:+ " must be bytes32"))%string
         ["blockhash"; "patchHash"; "gateSeed"; "confirmSeed"]%string
    ++ [ fault (negb (Z.eqb (int (prop receipt "epochId")) (int (prop artifact "epochId")))) "receipt epoch mismatch";
         fault (negb (hexEq (str (prop receipt "parentRoot")) (str (prop ctx "parentStateRoot")))) "receipt parent mismatch";
         fault (negb (hexEq (str (prop receipt "minerAddress")) (str (prop artifact "minerAddress")))) "receipt miner mismatch" ]%string).

(** All integers here are safe, so the sum of blocks is exact where it can equal a safe one. *)
Definition validateSeedDerivationBinding (artifact : jsval) : option string :=
  let seed := prop artifact "seedDerivation" in
  let ctx := prop artifact "context" in
  let receipt := prop artifact "receipt" in
  first_fault
    [ fault (negb (Z.eqb (int (prop seed "epochId")) (int (prop artifact "epochId")))) "seedDerivation.epochId";
      fault (negb (Z.eqb (int (prop seed "receivedAtBlock")) (int (prop receipt "receivedAtBlock")))) "seedDerivation.receivedAtBlock";
      fault (negb (Z.eqb (int (prop seed "targetBlock")) (int (prop receipt "targetBlock")))) "seedDerivation.targetBlock";
      fault (negb (Z.eqb (int (prop seed "receivedAtBlock") + int (prop seed "targetBlockOffset"))%Z (int (prop seed "targetBlock")))) "targetBlock";
      fault (negb (hexEq_field (prop seed "blockhash") (prop receipt "blockhash"))) "seedDerivation.blockhash != receipt blockhash";
      fault (negb (hexEq_field (prop seed "patchHash") (prop receipt "patchHash"))) "seedDerivation.patchHash != receipt patchHash";
      fault (negb (hexEq_field (prop seed "parentStateRoot") (prop receipt "parentRoot"))) "seedDerivation.parentStateRoot != receipt parentRoot";
      fault (negb (hexEq_field (prop seed "parentStateRoot") (prop ctx "parentStateRoot"))) "seedDerivation.parentStateRoot != context";
      fault (negb (hexEq_field (prop seed "corpusRoot") (prop ctx "corpusRoot"))) "seedDerivation.corpusRoot != context corpusRoot";
      fault (negb (hexEq_field (prop seed "bundleHash") (prop ctx "coreVersionHash"))) "seedDerivation.bundleHash != context coreVersionHash" ]%string.

Inductive ArtifactFault :=
  | EVAL_ARTIFACT_MALFORMED (detail : string)
  | EVAL_ARTIFACT_HASH_MISMATCH
  | EVAL_REPORT_HASH_MISMATCH
  | EVAL_ARTIFACT_SEED_INPUTS_MISMATCH (detail : string)
  | EVAL_ARTIFACT_THRESHOLD_VIOLATION
  | EPOCH_SECRET_COMMIT_MISMATCH
  | EVAL_ARTIFACT_REPLAY (code : PerPatchVerificationFailureCode).
Inductive PostRevealEvalArtifactVerificationResult :=
  | ArtifactVerified (artifactHash : string) (gateDeltaPpm confirmDeltaPpm : number)
  | ArtifactRefused (code : ArtifactFault).

(** What the verifier brings: the chain, the scorer and the revealed secret. *)
Record ArtifactDeps := mkArtifactDeps { ad_rpcClient : BaseRpcClient; ad_scorer : PerPatchScorer; ad_epochSecret : string }.

Section WithHasher.
Context {HK : Hasher}.
(** [String(n)] for a finite number. *)
Context (NumberToString : number -> string).

Definition artifact_payload (artifact : jsval) : jsval :=
  JObject (filter (fun e => e.1 <> "artifactHash" /\ e.1 <> "evalReportHash") (spread artifact))%string.

(** The hash excludes both self-referential fields. *)
Definition hashPostRevealEvalReportArtifact (artifact : jsval) : outcome string :=
  txt ← canonicalJson NumberToString finite (artifact_payload artifact);
  Returns (toLowerCase (bytesToHex (keccak256 (text_encode txt)))).

(** [{ ...artifact, artifactHash: hash, evalReportHash: hash }] *)
Definition buildPostRevealEvalReportArtifact (artifact : jsval) : outcome jsval :=
  hash ← hashPostRevealEvalReportArtifact artifact;
  Returns (JObject (jsmap_set "evalReportHash" (JString hash) (jsmap_set "artifactHash" (JString hash) (spread artifact))))%string.

(** The fields [verifyPerPatchReceipt] reads of a receipt; it never reads the rejection reasons. *)
Definition receipt_of (receipt : jsval) (dedupKey : string) : PerPatchReceipt :=
  mkReceipt (str (prop receipt "patchHash")) dedupKey (str (prop receipt "parentRoot")) (str (prop receipt "minerAddress"))
    (int (prop receipt "epochId"))
    (mkSeedContext (int (prop receipt "receivedAtBlock")) (int (prop receipt "targetBlock")) (str (prop receipt "blockhash")))
    (str (prop receipt "gateSeed")) (str (prop receipt "confirmSeed")) (num (prop receipt "gateScorePpm")) (num (prop receipt "confirmScorePpm"))
    (truthy (prop receipt "accepted")) None None.

(** [verifyPerPatchReceipt] on a receipt whose [dedupKey] may not be a string: comparing it then throws. *)
Definition verify_receipt_field (receipt : jsval) (deps : PerPatchVerificationDeps) : outcome PerPatchVerificationResult :=
  match prop receipt "dedupKey" with
  | JString dedupKey => verifyPerPatchReceipt (receipt_of receipt dedupKey) deps
  | _ =>
    if negb (hexEq (computePatchHash (v_patchBytes deps)) (str (prop receipt "patchHash"))) then Returns (NotVerified PATCH_HASH_MISMATCH)
    else _ ← computeDedupKey (str (prop receipt "parentRoot")) (v_patchBytes deps); Throws (TypeError "receipt.dedupKey")
  end.

(** What the receipt is replayed with. *)
Definition replay_deps (artifact : jsval) (deps : ArtifactDeps) (patch : bytes) : PerPatchVerificationDeps :=
  let ctx := prop artifact "context" in
  mkVerifyDeps (ad_rpcClient deps) (num (prop ctx "replayTolerancePpm")) (ad_scorer deps) (ad_epochSecret deps)
    (str (prop ctx "corpusRoot")) (str (prop ctx "coreVersionHash")) patch.

Definition verifyPostRevealEvalReportArtifact (artifact : jsval) (deps : ArtifactDeps) : outcome PostRevealEvalArtifactVerificationResult :=
  match validateArtifactShape artifact with
  | Some detail => Returns (ArtifactRefused (EVAL_ARTIFACT_MALFORMED detail))
  | None =>
    let receipt := prop artifact "receipt" in
    hash ← hashPostRevealEvalReportArtifact artifact;
    if negb (String.eqb hash (toLowerCase (str (prop artifact "artifactHash")))) then Returns (ArtifactRefused EVAL_ARTIFACT_HASH_MISMATCH)
    else if negb (hexEq (str (prop artifact "evalReportHash")) (str (prop artifact "artifactHash"))) then Returns (ArtifactRefused EVAL_REPORT_HASH_MISMATCH)
    else match validateSeedDerivationBinding artifact with
    | Some detail => Returns (ArtifactRefused (EVAL_ARTIFACT_SEED_INPUTS_MISMATCH detail))
    | None =>
      if negb (truthy (prop receipt "accepted")) then Returns (ArtifactRefused EVAL_ARTIFACT_THRESHOLD_VIOLATION)
      else if dlt (math_min (num (prop receipt "gateScorePpm")) (num (prop receipt "confirmScorePpm"))) (num (prop artifact "thresholdPpm"))
      then Returns (ArtifactRefused EVAL_ARTIFACT_THRESHOLD_VIOLATION)
      else
      secret ← hexToBytes_checked (ad_epochSecret deps);
      let secretCommit := toLowerCase (bytesToHex (keccak256 secret)) in
      if negb (String.eqb secretCommit (toLowerCase (str (prop (prop artifact "context") "hiddenSeedCommit")))) then Returns (ArtifactRefused EPOCH_SECRET_COMMIT_MISMATCH)
      else
      patch ← hexToBytes_checked (str (prop artifact "compactPatchBytesHex"));
      replay ← verify_receipt_field receipt (replay_deps artifact deps patch);
      Returns match replay with
        | NotVerified code => ArtifactRefused (EVAL_ARTIFACT_REPLAY code)
        | Verified g c => ArtifactVerified hash g c
        end
    end
  end.
End WithHasher.

(** ** Facts *)
Lemma first_fault_None l : first_fault l = None <-> Forall (fun o => o = None) l.
Proof. induction l as [|[r|] l IH]; cbn [first_fault]; [done| |]; rewrite Forall_cons; [|by rewrite IH; split; [|intros [_ ?]]]. split; [done|by intros [? _]]. Qed.

Lemma fault_None c r : fault c r = None <-> c = false.
Proof. unfold fault. by destruct c. Qed.

Lemma safe_field_inv v : safe_field v = true -> exists z, int v = z /\ 0 <= z /\ safe_Z z /\ is_NaN (num v) = false.
Proof.
  destruct v as [| | |n| | | | | | |]; try done. cbn [safe_field]. intros [H1 H2%negb_true_iff]%andb_true_iff. unfold int. cbn [num].
  destruct (safe_integer_inv n H1) as (z & -> & Hz & Hn). exists z. split; [done|]. destruct Hn as [->|[-> ->]]; [|done].
  split; [|by auto using of_Z_not_NaN]. destruct z as [|p|p]; [done..|]. exfalso. unfold safe_Z in Hz. rewrite of_Z_neg in H2.
  destruct (of_Z_pos p) as (m & e & E & _); [lia|]. rewrite E in H2. done.
Qed.

(** The minimum of two doubles clears a threshold when both do. *)
Lemma min_clears x y t : is_NaN x = false -> is_NaN y = false -> is_NaN t = false ->
  dlt (math_min x y) t = false -> dle t x = true /\ dle t y = true.
Proof.
  intros Hx Hy Ht. unfold math_min. rewrite Hx, Hy. cbn [orb]. rewrite !dle_not_dlt, !negb_true_iff by done.
  assert (K : forall a b c, is_NaN a = false -> is_NaN b = false -> is_NaN c = false -> dlt a b = true -> dlt a c = false -> dlt b c = false).
  { intros a b c Ha Hb Hc H1 H2. apply not_true_is_false. intros H3. apply not_true_iff_false in H2. apply H2.
    rewrite dlt_key in * by done. unfold key_lt in *. lia. }
  destruct (dlt y x) eqn:E; intros H; split; try done; [exact (K y x t Hy Hx Ht E H)|].
  apply not_true_is_false. intros H3. rewrite dlt_key in H3 by done. apply not_true_iff_false in E, H. rewrite dlt_key in E, H by done. unfold key_lt in *. lia.
Qed.

(** ** The hex of a byte string passes the module's formats *)
Lemma hex_digit_is_hex b : byte_ok b -> is_hex_char (hex_digit (b / 16)) = true /\ is_hex_char (hex_digit (b mod 16)) = true.
Proof.
  intros Hb. assert (H : forallb (fun b => is_hex_char (hex_digit (b / 16)) && is_hex_char (hex_digit (b mod 16))) (seqZ 0 256) = true) by (vm_compute; reflexivity).
  rewrite forallb_forall in H. specialize (H b). rewrite andb_true_iff in H. apply H. apply list_elem_of_In, elem_of_seqZ. unfold byte_ok in Hb. lia.
Qed.

Lemma bareHex_chars bs : bytes_ok bs -> forallb is_hex_char (String.list_ascii_of_string (bytesToBareHex bs)) = true
  /\ length (String.list_ascii_of_string (bytesToBareHex bs)) = (2 * length bs)%nat.
Proof.
  unfold bytesToBareHex. rewrite String.list_ascii_of_string_of_list_ascii. induction 1 as [|b bs Hb _ [IH1 IH2]]; [done|].
  rewrite bind_cons, forallb_app, length_app, IH1, IH2. destruct (hex_digit_is_hex b Hb) as [H1 H2]. cbn [byte_hex forallb length]. rewrite H1, H2. split; [done|]. lia.
Qed.

Lemma string_length s : String.length s = length (String.list_ascii_of_string s).
Proof. induction s as [|c s IH]; [done|]. cbn. by rewrite IH. Qed.

Lemma hex_re_hex n bs : bytes_ok bs -> length bs = n -> hex_re (2 * n) (bytesToHex bs) = true.
Proof.
  intros Hok <-. destruct (bareHex_chars bs Hok) as [H1 H2]. unfold hex_re, bytesToHex. change (String.append "0x" ?x) with (String "0" (String "x" x)).
  lazy beta iota. by rewrite string_length, H1, H2, Nat.eqb_refl.
Qed.

Lemma hex_field_hex bs : bytes_ok bs -> hex_field (JString (bytesToHex bs)) = true.
Proof.
  intros Hok. destruct (bareHex_chars bs Hok) as [H1 H2]. unfold hex_field, HEX_RE, bytesToHex. change (String.append "0x" ?x) with (String "0" (String "x" x)).
  lazy beta iota. rewrite H1. cbn [String.length Nat.sub]. rewrite Nat.sub_0_r, string_length, H2, Nat.even_mul. done.
Qed.

Lemma hex_char_value c : is_hex_char c = true -> exists d, hex_value c = Some d /\ 0 <= d < 16
  /\ is_js_space c = false /\ Ascii.eqb c "-" = false /\ Ascii.eqb c "+" = false /\ Ascii.eqb c "x" = false /\ Ascii.eqb c "X" = false.
Proof. destruct c as [[] [] [] [] [] [] [] []]; intros H; try discriminate H; (eexists; split; [reflexivity|]; split; [vm_compute; split; [discriminate|reflexivity]|by split_and!]). Qed.

Lemma parseInt16_hex a b : is_hex_char a = true -> is_hex_char b = true -> byte_ok (default 0 (parseInt16 a b)).
Proof.
  intros (d & Ea & Hd & H1 & H2 & H3 & _ & _)%hex_char_value (e & Eb & He & _ & _ & _ & Hx & HX)%hex_char_value.
  unfold parseInt16. rewrite H1, H2, H3, Hx, HX. cbn [orb]. rewrite andb_false_r, Ea, Eb. cbn [default from_option id]. unfold byte_ok. lia.
Qed.

Lemma hexToBytes_checked_hex bs : bytes_ok bs -> hexToBytes_checked (bytesToHex bs) = Returns bs.
Proof.
  intros Hok. destruct (bareHex_chars bs Hok) as [H1 H2]. pose proof (hexToBytes_bytesToHex bs Hok) as H. unfold hexToBytes_checked, hexToBytes, bytesToHex in *.
  change (String.append "0x" ?x) with (String "0" (String "x" x)) in *. unfold strip_0x, clean_hex in *. lazy beta iota in H |- *. rewrite H1, H2, Nat.even_mul. change (Nat.even 2) with true. cbn [negb orb throw_if mbind outcome_bind].
  destruct (hex_pairs _) as [ps|] eqn:E; [|done]. apply Returns_inj in H. f_equal. etransitivity; [|exact H]. apply map_ext_in. intros [a b] Hin.
  assert (G : Forall (fun e => byte_ok (default 0 (parseInt16 e.1 e.2))) ps).
  { clear -Hok E H1. revert E H1. generalize (String.list_ascii_of_string (bytesToBareHex bs)) as l. intros l. revert ps.
    induction l as [l IH] using (well_founded_induction (well_founded_ltof _ (@length ascii))). intros ps E H1.
    destruct l as [|a [|b l]]; cbn in E; [injection E as <-; constructor|done|]. destruct (hex_pairs l) as [ps'|] eqn:E'; [|done]. cbn in E. injection E as <-.
    cbn [forallb] in H1. apply andb_true_iff in H1 as [Ha H1]. apply andb_true_iff in H1 as [Hb H1].
    constructor; [|apply (IH l); [unfold ltof; cbn; lia|done|done]]. by apply parseInt16_hex. }
  rewrite Forall_forall in G. apply list_elem_of_In, G in Hin. cbn [fst snd] in Hin. unfold byte_ok in Hin. by rewrite Z.mod_small.
Qed.

(** Destructs a list of checks that all passed. *)
Ltac split_faults H :=
  match type of H with
  | Forall _ [] => clear H
  | Forall _ (_ :: _) => let H1 := fresh "F" in apply Forall_cons in H as [H1 H]; rewrite fault_None in H1; split_faults H
  end.

(** The bytes a document is hashed as. *)
Definition doc_bytes (j : json) : bytes := text_encode (String.string_of_list_ascii (print j)).

Section Theorems.
Context {HK : Hasher} (NS : number -> string).

Lemma canonical_text_doc pol v s : canonicalJson NS pol v = Returns s -> exists j, normalize NS pol v = Returns j /\ s = String.string_of_list_ascii (print j).
Proof.
  unfold canonicalJson. intros H. apply bind_Returns in H as (u & _ & H). rewrite serialize_normalize in H.
  destruct (normalize NS pol v) as [j|]; [|done]. cbn [mbind outcome_bind] in H. injection H as <-. eauto.
Qed.

(** The checks of [verifyPostRevealEvalReportArtifact] in order, for an artifact it accepts. *)
Lemma verify_artifact_inv artifact deps h a b :
  verifyPostRevealEvalReportArtifact NS artifact deps = Returns (ArtifactVerified h a b) ->
  let receipt := prop artifact "receipt" in
  validateArtifactShape artifact = None /\ hashPostRevealEvalReportArtifact NS artifact = Returns h
  /\ h = toLowerCase (str (prop artifact "artifactHash")) /\ hexEq (str (prop artifact "evalReportHash")) (str (prop artifact "artifactHash")) = true
  /\ validateSeedDerivationBinding artifact = None /\ truthy (prop receipt "accepted") = true
  /\ dlt (math_min (num (prop receipt "gateScorePpm")) (num (prop receipt "confirmScorePpm"))) (num (prop artifact "thresholdPpm")) = false
  /\ (exists secret, hexToBytes_checked (ad_epochSecret deps) = Returns secret
      /\ hexEq (bytesToHex (keccak256 secret)) (str (prop (prop artifact "context") "hiddenSeedCommit")) = true)
  /\ exists patch dk, hexToBytes_checked (str (prop artifact "compactPatchBytesHex")) = Returns patch
     /\ prop receipt "dedupKey" = JString dk /\ verifyPerPatchReceipt (receipt_of receipt dk) (replay_deps artifact deps patch) = Returns (Verified a b).
Proof.
  unfold verifyPostRevealEvalReportArtifact. cbv zeta. intros H. destruct (validateArtifactShape artifact); [done|]. split; [done|].
  apply bind_Returns in H as (h' & Hh & H). destruct (String.eqb_spec h' (toLowerCase (str (prop artifact "artifactHash")))) as [E1|]; [|done]. cbn [negb] in H.
  destruct (hexEq (str (prop artifact "evalReportHash")) _) eqn:E2; [|done]. cbn [negb] in H.
  destruct (validateSeedDerivationBinding artifact); [done|]. destruct (truthy _); [|done]. cbn [negb] in H. destruct (dlt _ _) eqn:E3; [done|].
  apply bind_Returns in H as (secret & Hs & H). destruct (String.eqb (toLowerCase (bytesToHex (keccak256 secret))) _) eqn:E4; [|done]. cbn [negb] in H.
  apply bind_Returns in H as (patch & Hp & H). apply bind_Returns in H as (replay & Hr & [= H]). destruct replay as [g c|]; [|done]. injection H as <- <- <-.
  split; [done|]. split; [done|]. split; [done|]. split; [done|]. split; [done|]. split; [done|]. split; [by exists secret|].
  unfold verify_receipt_field in Hr. destruct (prop (prop artifact "receipt") "dedupKey") as [| | | |dk| | | | | |] eqn:Ed;
    try (destruct (hexEq _ (str (prop (prop artifact "receipt") "patchHash"))); cbn [negb] in Hr; [by apply bind_Returns in Hr as (? & _ & ?)|discriminate Hr]).
  by exists patch, dk.
Qed.

(** An artifact that passes every check verifies. *)
Lemma verify_artifact_complete artifact deps h a b secret patch dk :
  let receipt := prop artifact "receipt" in
  validateArtifactShape artifact = None -> hashPostRevealEvalReportArtifact NS artifact = Returns h ->
  prop artifact "artifactHash" = JString h -> prop artifact "evalReportHash" = JString h -> toLowerCase h = h ->
  validateSeedDerivationBinding artifact = None -> truthy (prop receipt "accepted") = true ->
  dlt (math_min (num (prop receipt "gateScorePpm")) (num (prop receipt "confirmScorePpm"))) (num (prop artifact "thresholdPpm")) = false ->
  hexToBytes_checked (ad_epochSecret deps) = Returns secret -> hexEq (bytesToHex (keccak256 secret)) (str (prop (prop artifact "context") "hiddenSeedCommit")) = true ->
  hexToBytes_checked (str (prop artifact "compactPatchBytesHex")) = Returns patch ->
  prop receipt "dedupKey" = JString dk -> verifyPerPatchReceipt (receipt_of receipt dk) (replay_deps artifact deps patch) = Returns (Verified a b) ->
  verifyPostRevealEvalReportArtifact NS artifact deps = Returns (ArtifactVerified h a b).
Proof.
  intros receipt Hs Hh Ea Ee El Hb Hacc Hmin Hsec Hc Hp Hdk Hv. unfold verifyPostRevealEvalReportArtifact. fold receipt. rewrite Hs, Hh. cbn [mbind outcome_bind].
  rewrite Ea, Ee. cbn [str]. rewrite El, String.eqb_refl, hexEq_refl, Hb, Hacc, Hmin, Hsec. cbn [negb mbind outcome_bind]. unfold hexEq in Hc. rewrite Hc, Hp. cbn [negb mbind outcome_bind].
  unfold verify_receipt_field. by rewrite Hdk, Hv.
Qed.

Record artifact_bound (artifact : jsval) (h : string) (secret patch : bytes) : Prop := {
  ab_hash : hashPostRevealEvalReportArtifact NS artifact = Returns h;
  ab_artifactHash : hexEq (str (prop artifact "artifactHash")) h = true;
  ab_evalReportHash : hexEq (str (prop artifact "evalReportHash")) h = true;
  ab_secret : hexEq (bytesToHex (keccak256 secret)) (str (prop (prop artifact "context") "hiddenSeedCommit")) = true;
  ab_patch : hexToBytes_checked (str (prop artifact "compactPatchBytesHex")) = Returns patch;
  ab_patchHash : hexEq (computePatchHash patch) (str (prop (prop artifact "seedDerivation") "patchHash")) = true;
  ab_parent : hexEq (str (prop (prop artifact "seedDerivation") "parentStateRoot")) (str (prop (prop artifact "context") "parentStateRoot")) = true;
  ab_corpus : hexEq (str (prop (prop artifact "seedDerivation") "corpusRoot")) (str (prop (prop artifact "context") "corpusRoot")) = true;
  ab_bundle : hexEq (str (prop (prop artifact "seedDerivation") "bundleHash")) (str (prop (prop artifact "context") "coreVersionHash")) = true;
  ab_window : int (prop (prop artifact "seedDerivation") "targetBlock")
    = int (prop (prop artifact "seedDerivation") "receivedAtBlock") + int (prop (prop artifact "seedDerivation") "targetBlockOffset")
}.

(** The receipt of an artifact was re-derived from the chain and the secret, and re-scored. *)
Definition receipt_replayed (artifact : jsval) (deps : ArtifactDeps) (patch : bytes) : Prop :=
  let seed := prop artifact "seedDerivation" in
  let receipt := prop artifact "receipt" in
  let v := replay_deps artifact deps patch in
  let i := mkSeedInput (ad_epochSecret deps) (str (prop receipt "blockhash")) (int (prop artifact "epochId")) (str (prop receipt "patchHash"))
    (str (prop receipt "parentRoot")) (v_corpusRoot v) (v_bundleHash v) in
  exists bh gs cs g c, getBlockHash (ad_rpcClient deps) (int (prop seed "targetBlock")) = Returns bh /\ hexEq bh (str (prop seed "blockhash")) = true
  /\ deriveGateEvalSeed i = Returns gs /\ hexEq gs (str (prop receipt "gateSeed")) = true
  /\ deriveConfirmEvalSeed i = Returns cs /\ hexEq cs (str (prop receipt "confirmSeed")) = true
  /\ ad_scorer deps patch (str (prop receipt "parentRoot")) (str (prop receipt "gateSeed")) gate = Returns g
  /\ ad_scorer deps patch (str (prop receipt "parentRoot")) (str (prop receipt "confirmSeed")) confirm = Returns c
  /\ dlt (replayTolerancePpm v) (score_delta (scorePpm g) (num (prop receipt "gateScorePpm"))) = false
  /\ dlt (replayTolerancePpm v) (score_delta (scorePpm c) (num (prop receipt "confirmScorePpm"))) = false.

Lemma hexEq_eq x y : hexEq x y = true <-> toLowerCase x = toLowerCase y.
Proof. apply String.eqb_eq. Qed.

Lemma hexEq_field_str a b : hexEq_field a b = true -> hexEq (str a) (str b) = true.
Proof. by destruct a, b. Qed.

(** What a verified artifact has passed: its hash is the one it claims under both names, the revealed secret is
    the one committed to, the patch bytes are the ones the seeds were derived for, the block window is consistent,
    both packs clear the committed threshold; and unless it claims block 0, the chain has the block hash, both seeds
    follow from the secret, and both scores are reproduced within the tolerance. *)
Theorem artifact_sound (artifact : jsval) (deps : ArtifactDeps) (h : string) (a b : number) :
  verifyPostRevealEvalReportArtifact NS artifact deps = Returns (ArtifactVerified h a b) ->
  exists secret patch, hexToBytes_checked (ad_epochSecret deps) = Returns secret /\ artifact_bound artifact h secret patch
  /\ truthy (prop (prop artifact "receipt") "accepted") = true
  /\ dle (num (prop artifact "thresholdPpm")) (num (prop (prop artifact "receipt") "gateScorePpm")) = true
  /\ dle (num (prop artifact "thresholdPpm")) (num (prop (prop artifact "receipt") "confirmScorePpm")) = true
  /\ (int (prop (prop artifact "seedDerivation") "receivedAtBlock") <> 0 -> receipt_replayed artifact deps patch).
Proof.
  intros H. apply verify_artifact_inv in H as (Hs & Hh & Ea & Ee & Hb & Hacc & Hmin & (secret & Hsec & Ec) & patch & dk & Hp & Hdk & Hv).
  unfold validateArtifactShape in Hs. rewrite first_fault_None in Hs. cbn [map app] in Hs. split_faults Hs.
  unfold validateSeedDerivationBinding in Hb. rewrite first_fault_None in Hb. split_faults Hb.
  repeat match goal with F : negb _ = false |- _ => apply negb_false_iff in F end.
  repeat match goal with F : (_ =? _) = true |- _ => apply Z.eqb_eq in F | F : hexEq_field _ _ = true |- _ => apply hexEq_field_str in F end.
  apply verify_inv in Hv as (dk' & P1 & _ & _ & R). cbn [receipt_of rc_patchHash rc_context receivedAtBlock targetBlock sc_blockhash rc_epochId rc_parentRoot gateSeed confirmSeed] in P1, R.
  exists secret, patch. split; [done|]. rewrite !hexEq_eq in *. cbn [replay_deps v_patchBytes] in P1.
  split; [constructor; rewrite ?hexEq_eq; subst h; rewrite ?toLowerCase_idem; congruence|]. split; [done|].
  repeat match goal with F : safe_field _ = true |- _ => apply safe_field_inv in F as (? & ? & ? & ? & ?) end.
  apply min_clears in Hmin as [Hg Hc]; [|eassumption..]. split; [exact Hg|]. split; [exact Hc|].
  intros Hr. destruct R as (bh & gs & cs & g & c & R1 & R2 & R3 & R4 & R5 & R6 & R7 & R8 & R9 & R10); [congruence|].
  assert (Ei : int (prop artifact "epochId") = int (prop (prop artifact "receipt") "epochId")) by congruence. unfold receipt_replayed. cbv zeta. rewrite Ei.
  exists bh, gs, cs, g, c. cbn [replay_deps v_rpcClient v_scorer v_epochSecret v_patchBytes sc_blockhash] in *. unfold seed_input in R3, R5. rewrite !hexEq_eq in *.
  split_and!; first [done|congruence].
Qed.

(** The hash on chain binds the document: two artifacts that verify under one hash, whoever served them and
    whatever watcher checked them, are the same canonical document apart from the hash fields, or the hash collides. *)
Theorem artifact_hash_binds (a1 a2 : jsval) (d1 d2 : ArtifactDeps) (h : string) (x1 y1 x2 y2 : number) :
  (forall n, is_finite n = true -> number_text (NS n)) ->
  verifyPostRevealEvalReportArtifact NS a1 d1 = Returns (ArtifactVerified h x1 y1) ->
  verifyPostRevealEvalReportArtifact NS a2 d2 = Returns (ArtifactVerified h x2 y2) ->
  exists j1 j2, normalize NS finite (artifact_payload a1) = Returns j1 /\ normalize NS finite (artifact_payload a2) = Returns j2
  /\ (j1 = j2 \/ collision (doc_bytes j1) (doc_bytes j2)).
Proof.
  intros HNS H1 H2. apply verify_artifact_inv in H1 as (_ & H1 & _). apply verify_artifact_inv in H2 as (_ & H2 & _).
  unfold hashPostRevealEvalReportArtifact in H1, H2. apply bind_Returns in H1 as (t1 & T1 & E1%Returns_inj). apply bind_Returns in H2 as (t2 & T2 & E2%Returns_inj).
  rewrite toLowerCase_hex in E1, E2. rewrite <- E2 in E1. apply canonical_text_doc in T1 as (j1 & N1 & ->), T2 as (j2 & N2 & ->).
  exists j1, j2. split; [done|]. split; [done|]. apply hash_hex_eq in E1 as [E|C]; [|by right]. left.
  apply text_encode_inj in E. apply (f_equal String.list_ascii_of_string) in E. rewrite !String.list_ascii_of_string_of_list_ascii in E.
  apply (normalize_ok NS HNS) in N1, N2. apply (print_inj j1 N1 j2 [] []); [done..|]. by rewrite !app_nil_r.
Qed.

(** An artifact that claims to have been received at block 0 is not replayed: once it verifies, it verifies with
    any chain and any scorer, whatever scores it claims, so only the committed secret and the hashes bind it. *)
Theorem block_zero_unreplayed (artifact : jsval) (deps deps' : ArtifactDeps) (h : string) (a b : number) :
  verifyPostRevealEvalReportArtifact NS artifact deps = Returns (ArtifactVerified h a b) ->
  int (prop (prop artifact "receipt") "receivedAtBlock") = 0 -> ad_epochSecret deps' = ad_epochSecret deps ->
  verifyPostRevealEvalReportArtifact NS artifact deps' = Returns (ArtifactVerified h (of_Z 0) (of_Z 0)).
Proof.
  intros H H0 Es. apply verify_artifact_inv in H as (Hs & Hh & -> & Ee & Hb & Hacc & Hmin & (secret & Hsec & Ec) & patch & dk & Hp & Hdk & Hv).
  unfold verifyPostRevealEvalReportArtifact. cbv zeta. rewrite Hs, Hh. cbn [mbind outcome_bind]. rewrite String.eqb_refl, Ee, Hb, Hacc, Hmin, Es, Hsec. cbn [negb mbind outcome_bind].
  apply hexEq_eq in Ec. rewrite Ec, String.eqb_refl, Hp. cbn [negb mbind outcome_bind]. unfold verify_receipt_field. rewrite Hdk.
  apply verify_inv in Hv as (dk' & P1 & P2 & P3 & _). cbn [receipt_of rc_patchHash rc_parentRoot rc_dedupKey replay_deps v_patchBytes] in P1, P2, P3.
  unfold verifyPerPatchReceipt. cbn [receipt_of rc_patchHash rc_parentRoot rc_dedupKey rc_context receivedAtBlock replay_deps v_patchBytes].
  rewrite P1, P2. cbn [negb mbind outcome_bind]. rewrite P3, H0. done.
Qed.
End Theorems.

(** ** Witnesses *)
Definition zero_hash_w : string := bytesToHex (zeros 32).
Definition addr_w : string := ("0x" +:+ String.string_of_list_ascii (replicate 40 "a"%char))%string.
(** An artifact received at a block, before its hash is filled in. *)
Definition literal_w (block : Z) : jsval :=
  JObject [("version", JString "coretex-post-reveal-eval-report-v1"); ("epochId", JNumber (of_Z 12)); ("minerAddress", JString addr_w);
    ("outcome", JString "SCREENER_PASS"); ("compactPatchBytesHex", JString "0x0701"); ("thresholdPpm", JNumber (of_Z 2500));
    ("seedDerivation", JObject [("mode", JString "future_blockhash_dual_pack"); ("epochId", JNumber (of_Z 12)); ("receivedAtBlock", JNumber (of_Z block));
      ("targetBlock", JNumber (of_Z (block + 15))); ("targetBlockOffset", JNumber (of_Z 15)); ("blockhash", JString (hex64 "1")); ("patchHash", JString zero_hash_w);
      ("parentStateRoot", JString (hex64 "c")); ("corpusRoot", JString (hex64 "3")); ("bundleHash", JString (hex64 "4"))]);
    ("receipt", JObject [("patchHash", JString zero_hash_w); ("dedupKey", JString zero_hash_w); ("parentRoot", JString (hex64 "c")); ("minerAddress", JString addr_w);
      ("epochId", JNumber (of_Z 12)); ("receivedAtBlock", JNumber (of_Z block)); ("targetBlock", JNumber (of_Z (block + 15))); ("blockhash", JString (hex64 "1"));
      ("gateSeed", JString zero_hash_w); ("confirmSeed", JString zero_hash_w); ("gateScorePpm", JNumber (of_Z 5000)); ("confirmScorePpm", JNumber (of_Z 6000)); ("accepted", JBool true)]);
    ("context", JObject [("parentStateRoot", JString (hex64 "c")); ("corpusRoot", JString (hex64 "3")); ("coreVersionHash", JString (hex64 "4"));
      ("hiddenSeedCommit", JString zero_hash_w); ("replayTolerancePpm", JNumber (of_Z 10))])]%string.
Definition artifact_w (block : Z) : jsval := match buildPostRevealEvalReportArtifact (HK:=const_hasher) int_printer (literal_w block) with Returns a => a | Throws _ => JUndefined end.
Definition watch_w : ArtifactDeps :=
  mkArtifactDeps rpc_w (fun _ _ _ which => Returns (mkScore (of_Z (match which with gate => 5005 | confirm => 5995 end)) true None)) (hex64 "a").

Lemma verified_w : verifyPostRevealEvalReportArtifact (HK:=const_hasher) int_printer (artifact_w 100) watch_w = Returns (ArtifactVerified zero_hash_w (of_Z 5) (of_Z 5)).
Proof. vm_compute. reflexivity. Qed.

Lemma artifact_sound_witness : exists secret patch, artifact_bound (HK:=const_hasher) int_printer (artifact_w 100) zero_hash_w secret patch
  /\ receipt_replayed (HK:=const_hasher) (artifact_w 100) watch_w patch.
Proof.
  destruct (artifact_sound (HK:=const_hasher) int_printer (artifact_w 100) watch_w _ _ _ verified_w) as (secret & patch & _ & Hb & _ & _ & _ & Hr).
  exists secret, patch. split; [exact Hb|]. apply Hr. vm_compute. discriminate.
Defined.

Lemma block_zero_unreplayed_witness : verifyPostRevealEvalReportArtifact (HK:=const_hasher) int_printer (artifact_w 0)
  (mkArtifactDeps (mkRpc (Throws (GenericError "unused")) (fun _ _ => Throws (GenericError "unused")) (fun _ => Throws (GenericError "unused"))) (fun _ _ _ _ => Throws (GenericError "unused")) (hex64 "a"))
  = Returns (ArtifactVerified zero_hash_w (of_Z 0) (of_Z 0)).
Proof.
  apply (block_zero_unreplayed (HK:=const_hasher) int_printer (artifact_w 0) watch_w _ zero_hash_w (of_Z 0) (of_Z 0)); [vm_compute; reflexivity|vm_compute; reflexivity|reflexivity].
Defined.

Lemma artifact_hash_binds_witness : exists j1 j2, normalize int_printer finite (artifact_payload (artifact_w 100)) = Returns j1 /\ normalize int_printer finite (artifact_payload (artifact_w 0)) = Returns j2
  /\ (j1 = j2 \/ collision (HK:=const_hasher) (doc_bytes j1) (doc_bytes j2)).
Proof.
  apply (artifact_hash_binds (HK:=const_hasher) int_printer (artifact_w 100) (artifact_w 0) watch_w watch_w zero_hash_w (of_Z 5) (of_Z 5) (of_Z 0) (of_Z 0) int_printer_ok verified_w).
  vm_compute. reflexivity.
Defined.
