(* ===== verification/PatchNotice.v ===== *)
(** * Notices of received patches (coordinator/patch-received-notice.ts)

    Before it evaluates a patch the coordinator publishes the block at which
    it received it, under a domain-separated hash; a watcher cross-checks
    every receipt against the notice. Block numbers and timestamps are
    doubles, as in the code.

    Theorems: the verdict of the cross-check, branch by branch
    ([notice_verdict]); a notice hash binds patch, block, time and signer
    ([notice_binds]); a block number of 2^64 or more is published as its
    remainder ([notice_block_wraps]). *)
From Stdlib Require Import Ascii.
From S2P Require Import Prelude JsSort Float StateTypes Codec Keccak Merkle Decoder Substrate Validate Patch SeedDerivation PerPatch CanonicalJson SafeInteger.

Definition PATCH_RECEIVED_NOTICE_DOMAIN_PREFIX : string := "coretex-patch-received-notice-v1".

Record PatchReceivedNotice := mkNotice {
  pn_patchHash : string;
  pn_receivedAtBlock : number;
  pn_receivedAtTimestamp : number;
  pn_coordinatorAddress : string
}.

Definition assertAddressHex (value : string) : outcome unit :=
  let clean := String.list_ascii_of_string (clean_hex value) in
  _ ← throw_if (negb (length clean =? 40)%nat) (GenericError "must be 20 bytes hex");
  throw_if (negb (forallb is_hex_char clean)) (GenericError "non-hex characters").

(** [BigInt(v)] of a number that was checked to be an integer. *)
Definition bigint_of (v : number) : Z := default 0 (math_floor v).

Section WithHasher.
Context {HK : Hasher}.

Definition canonicalNoticeBytes (notice : PatchReceivedNotice) : outcome bytes :=
  _ ← assertBytes32Hex (pn_patchHash notice);
  _ ← assertAddressHex (pn_coordinatorAddress notice);
  throw_when negb (is_integer (pn_receivedAtBlock notice)) || dlt (pn_receivedAtBlock notice) (of_Z 0)
    with GenericError "receivedAtBlock must be a non-negative integer" ;;
  throw_when negb (is_integer (pn_receivedAtTimestamp notice)) || dlt (pn_receivedAtTimestamp notice) (of_Z 0)
    with GenericError "receivedAtTimestamp must be a non-negative integer" ;;
  ph ← hexToBytes_strict (pn_patchHash notice);
  ca ← hexToBytes_strict (pn_coordinatorAddress notice);
  Returns (concatU8 [text_encode PATCH_RECEIVED_NOTICE_DOMAIN_PREFIX; ph; u64BE (bigint_of (pn_receivedAtBlock notice));
    u64BE (bigint_of (pn_receivedAtTimestamp notice)); ca]).

Definition computePatchReceivedNoticeHash (notice : PatchReceivedNotice) : outcome string :=
  bs ← canonicalNoticeBytes notice; Returns (bytesToHex (keccak256 bs)).

Inductive NoticeVerificationFailureCode := NOTICE_MISSING | NOTICE_PATCH_HASH_MISMATCH | RECEIVED_AT_BLOCK_MISMATCH | NOTICE_HASH_MISMATCH.
Inductive NoticeVerificationResult := NoticeOk | NoticeFailed (code : NoticeVerificationFailureCode).

Record NoticeVerificationInput := mkNoticeInput {
  ni_notice : option PatchReceivedNotice;
  storedNoticeHash : string;
  receiptPatchHash : string;
  receiptReceivedAtBlock : number
}.

Definition verifyPatchReceivedNotice (input : NoticeVerificationInput) : outcome NoticeVerificationResult :=
  match ni_notice input with
  | None => Returns (NoticeFailed NOTICE_MISSING)
  | Some notice =>
    if negb (hexEq (pn_patchHash notice) (receiptPatchHash input)) then Returns (NoticeFailed NOTICE_PATCH_HASH_MISMATCH)
    else if negb (deq (pn_receivedAtBlock notice) (receiptReceivedAtBlock input)) then Returns (NoticeFailed RECEIVED_AT_BLOCK_MISMATCH)
    else
    recomputed ← computePatchReceivedNoticeHash notice;
    if negb (hexEq recomputed (storedNoticeHash input)) then Returns (NoticeFailed NOTICE_HASH_MISMATCH)
    else Returns NoticeOk
  end.

(** ** Facts *)
Lemma address_length s bs : assertAddressHex s = Returns tt -> hexToBytes_strict s = Returns bs -> length bs = 20%nat.
Proof.
  intros Ha Hb. unfold assertAddressHex in Ha. apply bind_Returns in Ha as (? & Hl & _).
  apply throw_if_Returns, negb_false_iff, Nat.eqb_eq in Hl. unfold hexToBytes_strict in Hb.
  destruct (hex_pairs _) as [ps|] eqn:E; [|done]. apply hex_pairs_length in E.
  destruct (mapM _ ps) as [vs|] eqn:Em; [|done]. injection Hb as <-. apply length_mapM in Em. rewrite length_map. lia.
Qed.

Lemma canonicalNotice_inv n bs : canonicalNoticeBytes n = Returns bs -> exists ph ca,
  hexToBytes_strict (pn_patchHash n) = Returns ph /\ length ph = 32%nat /\ hexToBytes_strict (pn_coordinatorAddress n) = Returns ca /\ length ca = 20%nat
  /\ is_integer (pn_receivedAtBlock n) = true /\ dlt (pn_receivedAtBlock n) (of_Z 0) = false
  /\ bs = text_encode PATCH_RECEIVED_NOTICE_DOMAIN_PREFIX ++ ph ++ be_bytes 8 (bigint_of (pn_receivedAtBlock n)) ++ be_bytes 8 (bigint_of (pn_receivedAtTimestamp n)) ++ ca.
Proof.
  unfold canonicalNoticeBytes. intros H. apply bind_Returns in H as ([] & Hp & H). apply bind_Returns in H as ([] & Ha & H).
  apply throw_when_Returns in H as [[Hi%negb_false_iff Hn]%orb_false_iff H]. apply throw_when_Returns in H as [_ H].
  apply bind_Returns in H as (ph & Eph & H). apply bind_Returns in H as (ca & Eca & [= <-]). exists ph, ca.
  do 2 (split; [done|]; split; [by eauto using bytes32_length, address_length|]). rewrite concatU8_concat, !u64BE_spec. cbn [concat]. rewrite app_nil_r. by split_and!.
Qed.

(** The cross-check of a receipt against its notice, branch by branch: no notice, another patch, another block,
    another hash, and otherwise the notice is the published one for this patch and block. It throws only on a notice
    that is malformed. *)
Theorem notice_verdict (input : NoticeVerificationInput) :
  match ni_notice input with
  | None => verifyPatchReceivedNotice input = Returns (NoticeFailed NOTICE_MISSING)
  | Some n =>
    let samePatch := hexEq (pn_patchHash n) (receiptPatchHash input) in
    let sameBlock := deq (pn_receivedAtBlock n) (receiptReceivedAtBlock input) in
    (samePatch = false -> verifyPatchReceivedNotice input = Returns (NoticeFailed NOTICE_PATCH_HASH_MISMATCH))
    /\ (samePatch = true -> sameBlock = false -> verifyPatchReceivedNotice input = Returns (NoticeFailed RECEIVED_AT_BLOCK_MISMATCH))
    /\ (samePatch = true -> sameBlock = true -> forall bs, canonicalNoticeBytes n = Returns bs ->
        verifyPatchReceivedNotice input = Returns (if hexEq (bytesToHex (keccak256 bs)) (storedNoticeHash input) then NoticeOk else NoticeFailed NOTICE_HASH_MISMATCH))
    /\ (verifyPatchReceivedNotice input = Returns NoticeOk <-> samePatch = true /\ sameBlock = true
        /\ exists bs, canonicalNoticeBytes n = Returns bs /\ hexEq (bytesToHex (keccak256 bs)) (storedNoticeHash input) = true)
  end.
Proof.
  unfold verifyPatchReceivedNotice, computePatchReceivedNoticeHash. destruct (ni_notice input) as [n|]; [|done]. cbv zeta.
  destruct (hexEq (pn_patchHash n) _); cbn [negb]; [|split_and!; [done..|by split; [|intros [? _]]]].
  destruct (deq _ _); cbn [negb]; [|split_and!; [done..|by split; [|intros (_ & ? & _)]]].
  split; [done|]. split; [done|]. split; [|split].
  - intros _ _ bs ->. cbn [mbind outcome_bind]. by destruct (hexEq _ _).
  - destruct (canonicalNoticeBytes n) as [bs|e]; cbn [mbind outcome_bind]; [|done]. destruct (hexEq (bytesToHex _) _) eqn:E; [|done]. intros _. do 2 (split; [done|]). by exists bs.
  - intros (_ & _ & bs & -> & E). cbn [mbind outcome_bind]. by rewrite E.
Qed.

(** A notice is a commitment: two notices that pass under one published hash are for the same patch and signer
    and, below 2^64, the same block and time, or the hash collides on their two encodings. *)
Theorem notice_binds (i1 i2 : NoticeVerificationInput) (n1 n2 : PatchReceivedNotice) :
  ni_notice i1 = Some n1 -> ni_notice i2 = Some n2 -> hexEq (storedNoticeHash i1) (storedNoticeHash i2) = true ->
  verifyPatchReceivedNotice i1 = Returns NoticeOk -> verifyPatchReceivedNotice i2 = Returns NoticeOk ->
  exists b1 b2, canonicalNoticeBytes n1 = Returns b1 /\ canonicalNoticeBytes n2 = Returns b2 /\ (collision b1 b2 \/ b1 = b2
    /\ hexToBytes_strict (pn_patchHash n1) = hexToBytes_strict (pn_patchHash n2)
    /\ hexToBytes_strict (pn_coordinatorAddress n1) = hexToBytes_strict (pn_coordinatorAddress n2)
    /\ bigint_of (pn_receivedAtBlock n1) mod 2 ^ 64 = bigint_of (pn_receivedAtBlock n2) mod 2 ^ 64
    /\ bigint_of (pn_receivedAtTimestamp n1) mod 2 ^ 64 = bigint_of (pn_receivedAtTimestamp n2) mod 2 ^ 64).
Proof.
  intros E1 E2 Hst H1 H2. unfold verifyPatchReceivedNotice, computePatchReceivedNoticeHash in *. rewrite E1 in H1. rewrite E2 in H2.
  destruct (hexEq (pn_patchHash n1) _), (hexEq (pn_patchHash n2) _); try done. cbn [negb] in *. destruct (deq (pn_receivedAtBlock n1) _), (deq (pn_receivedAtBlock n2) _); try done. cbn [negb] in *.
  destruct (canonicalNoticeBytes n1) as [b1|] eqn:C1; [|done]. destruct (canonicalNoticeBytes n2) as [b2|] eqn:C2; [|done]. cbn [mbind outcome_bind] in *.
  destruct (hexEq (bytesToHex (keccak256 b1)) _) eqn:K1; [|done]. destruct (hexEq (bytesToHex (keccak256 b2)) _) eqn:K2; [|done].
  exists b1, b2. split; [done|]. split; [done|]. unfold hexEq in *. apply String.eqb_eq in K1, K2, Hst. rewrite !toLowerCase_hex in *.
  assert (E : bytesToHex (keccak256 b1) = bytesToHex (keccak256 b2)) by congruence. apply hash_hex_eq in E as [E|C]; [right|by left]. split; [done|].
  apply canonicalNotice_inv in C1 as (p1 & a1 & -> & Lp1 & -> & La1 & _ & _ & B1), C2 as (p2 & a2 & -> & Lp2 & -> & La2 & _ & _ & B2). rewrite B1, B2 in E.
  apply app_inv_head in E. apply app_inj_1 in E as [-> E]; [|congruence]. apply app_inj_1 in E as [Eb E]; [|by rewrite !length_be_bytes].
  apply app_inj_1 in E as [Et ->]; [|by rewrite !length_be_bytes]. do 2 (split; [done|]).
  split; [apply (f_equal be_value) in Eb|apply (f_equal be_value) in Et]; by rewrite !be_value_be_bytes in *.
Qed.
End WithHasher.

(** ** Witnesses *)
Definition notice_w (block : Z) : PatchReceivedNotice := mkNotice (hex64 "7") (of_Z block) (of_Z 1700000000) ("0x" +:+ String.string_of_list_ascii (replicate 40 "a"%char)).
Definition input_w (block : Z) : NoticeVerificationInput := mkNoticeInput (Some (notice_w block)) (bytesToHex (zeros 32)) (hex64 "7") (of_Z block).

Lemma notice_binds_witness : exists b1 b2, canonicalNoticeBytes (notice_w 500) = Returns b1 /\ canonicalNoticeBytes (notice_w 500) = Returns b2.
Proof.
  destruct (notice_binds (HK:=const_hasher) (input_w 500) (input_w 500) (notice_w 500) (notice_w 500)) as (b1 & b2 & H1 & H2 & _);
    [reflexivity|reflexivity|vm_compute; reflexivity|vm_compute; reflexivity|vm_compute; reflexivity|]. exists b1, b2. split; [exact H1|exact H2].
Defined.

(** A block number of 2^64 passes the guard and is published as block 0: the two notices have the same bytes. *)
Example notice_block_wraps : canonicalNoticeBytes (notice_w (2 ^ 64)) = canonicalNoticeBytes (notice_w 0)
  /\ exists bs, canonicalNoticeBytes (notice_w 0) = Returns bs.
Proof. split; [vm_compute; reflexivity|eexists; vm_compute; reflexivity]. Qed.
