(* ===== verification/DedupStore.v ===== *)
(** * The evaluation store (coordinator/production-evaluator.ts)

    Seeds are drawn from a future block, so a patch that is evaluated twice
    would be scored on two packs. The store remembers, per (epoch, parent
    root, patch), the seed that was drawn, the miner it was charged to and the
    outcome. [CoreTexEvalDedupStore] is what the evaluator is given, with the
    laws its documentation promises; [in_memory_store] is the store of the
    module, and it satisfies them. *)
From Stdlib Require Import Ascii.
From stdpp Require Import pretty.
From S2P Require Import Prelude JsSort Float StateTypes SeedDerivation PerPatch.

Record CoreTexEvalDedupKey := mkDedupKey { dk_epochId : Z; dk_parentStateRoot : string; dk_patchHash : string }.
Inductive DedupOutcome := out_reject | out_screener_pass | out_state_advance.
Inductive AttemptState := att_drawn | att_rejected | att_accepted.

Record CoreTexEvalDedupRecord := mkDedupRecord { dr_key : CoreTexEvalDedupKey; dr_outcome : DedupOutcome; dr_code : option string }.
Record CoreTexEvalAttemptRecord := mkAttempt {
  ar_key : CoreTexEvalDedupKey;
  ar_state : AttemptState;
  ar_seedContext : PerPatchSeedContext;
  ar_minerAddress : string;
  ar_admissionCharged : bool;
  ar_outcome : option DedupOutcome;
  ar_code : option string
}.

#[export] Instance dedup_key_eq_dec : EqDecision CoreTexEvalDedupKey.
Proof. solve_decision. Defined.

Definition recordKey (k : CoreTexEvalDedupKey) : string :=
  (pretty (dk_epochId k) +:+ "|" +:+ toLowerCase (dk_parentStateRoot k) +:+ "|" +:+ toLowerCase (dk_patchHash k))%string.
Definition normalizeKey (k : CoreTexEvalDedupKey) : CoreTexEvalDedupKey :=
  mkDedupKey (dk_epochId k) (toLowerCase (dk_parentStateRoot k)) (toLowerCase (dk_patchHash k)).

(** The row of a first draw: the seed pinned and the admission charged together. *)
Definition drawn_row (k : CoreTexEvalDedupKey) (ctx : PerPatchSeedContext) (miner : string) : CoreTexEvalAttemptRecord :=
  mkAttempt (normalizeKey k) att_drawn (mkSeedContext (receivedAtBlock ctx) (targetBlock ctx) (toLowerCase (sc_blockhash ctx))) (toLowerCase miner) true None None.
(** [{ ...prior, state, outcome, ...(code ? { code } : {}) }] *)
Definition upgraded_row (a : CoreTexEvalAttemptRecord) (st : AttemptState) (o : DedupOutcome) (code : option string) : CoreTexEvalAttemptRecord :=
  mkAttempt (ar_key a) st (ar_seedContext a) (ar_minerAddress a) (ar_admissionCharged a) (Some o)
    (match code with None | Some EmptyString => ar_code a | Some c => Some c end).

(** ** The interface *)
Class CoreTexEvalDedupStore (St : Type) := {
  ds_get : St -> CoreTexEvalDedupKey -> option CoreTexEvalDedupRecord;
  ds_put : St -> CoreTexEvalDedupRecord -> St;
  ds_minerAdmissions : St -> Z -> string -> Z;
  ds_getAttempt : St -> CoreTexEvalDedupKey -> option CoreTexEvalAttemptRecord;
  ds_recordSeedDrawnAndAdmission : St -> CoreTexEvalDedupKey -> PerPatchSeedContext -> string -> St;
  ds_recordAttemptOutcome : St -> CoreTexEvalDedupKey -> AttemptState -> DedupOutcome -> option string -> outcome St
}.

(** What the documentation of the interface promises: rows are found under their key, a draw is atomic with its
    charge and idempotent on the key, an outcome keeps the pinned seed and the charge. *)
Class DedupStoreLaws (St : Type) `{CoreTexEvalDedupStore St} (ds_ok : St -> Prop) := {
  ok_put s r : ds_ok s -> ds_ok (ds_put s r);
  ok_draw s k ctx m : ds_ok s -> ds_ok (ds_recordSeedDrawnAndAdmission s k ctx m);
  ok_outcome s k st o c s' : ds_ok s -> ds_recordAttemptOutcome s k st o c = Returns s' -> ds_ok s';
  get_key s k k' : recordKey k = recordKey k' -> ds_get s k = ds_get s k';
  attempt_key s k k' : recordKey k = recordKey k' -> ds_getAttempt s k = ds_getAttempt s k';
  get_put s r k : ds_get (ds_put s r) k = if decide (recordKey k = recordKey (dr_key r)) then Some r else ds_get s k;
  get_draw s k ctx m k' : ds_get (ds_recordSeedDrawnAndAdmission s k ctx m) k' = ds_get s k';
  get_outcome s k st o c s' k' : ds_recordAttemptOutcome s k st o c = Returns s' -> ds_get s' k' = ds_get s k';
  attempt_put s r k : ds_getAttempt (ds_put s r) k = ds_getAttempt s k;
  attempt_draw s k ctx m k' : ds_getAttempt (ds_recordSeedDrawnAndAdmission s k ctx m) k'
    = if decide (recordKey k' = recordKey k) then Some (default (drawn_row k ctx m) (ds_getAttempt s k)) else ds_getAttempt s k';
  outcome_needs_attempt s k st o c : is_Some (ds_getAttempt s k) <-> exists s', ds_recordAttemptOutcome s k st o c = Returns s';
  attempt_outcome s k st o c s' k' : ds_recordAttemptOutcome s k st o c = Returns s' ->
    ds_getAttempt s' k' = if decide (recordKey k' = recordKey k) then (fun a => upgraded_row a st o c) <$> ds_getAttempt s k else ds_getAttempt s k';
  admissions_case s e m m' : toLowerCase m = toLowerCase m' -> ds_minerAdmissions s e m = ds_minerAdmissions s e m';
  admissions_put s r e m : ds_minerAdmissions (ds_put s r) e m = ds_minerAdmissions s e m;
  admissions_outcome s k st o c s' e m : ds_ok s -> ds_recordAttemptOutcome s k st o c = Returns s' ->
    ds_minerAdmissions s' e m = ds_minerAdmissions s e m;
  admissions_draw s k ctx m e m' : ds_ok s -> ds_minerAdmissions (ds_recordSeedDrawnAndAdmission s k ctx m) e m'
    = ds_minerAdmissions s e m' + (match ds_getAttempt s k with Some _ => 0 | None => if decide (e = dk_epochId k /\ toLowerCase m' = toLowerCase m) then 1 else 0 end);
  admissions_nonneg s e m : 0 <= ds_minerAdmissions s e m
}.

(** ** The in-memory store *)
Record MemoryStore := mkStore { records : list (string * CoreTexEvalDedupRecord); attempts : list (string * CoreTexEvalAttemptRecord) }.

Definition createInMemoryDedupStore : MemoryStore := mkStore [] [].

Definition charged_to (e : Z) (miner : string) (a : string * CoreTexEvalAttemptRecord) : Prop :=
  dk_epochId (ar_key a.2) = e /\ ar_admissionCharged a.2 = true /\ ar_minerAddress a.2 = miner.
#[export] Instance charged_to_dec e m a : Decision (charged_to e m a).
Proof. unfold charged_to. apply _. Defined.

Definition mem_get (s : MemoryStore) (k : CoreTexEvalDedupKey) : option CoreTexEvalDedupRecord := jsmap_get (recordKey k) (records s).
Definition mem_put (s : MemoryStore) (r : CoreTexEvalDedupRecord) : MemoryStore := mkStore (jsmap_set (recordKey (dr_key r)) r (records s)) (attempts s).
Definition mem_minerAdmissions (s : MemoryStore) (epochId : Z) (minerAddress : string) : Z :=
  let miner := toLowerCase minerAddress in
  fold_left (fun count a => if decide (charged_to epochId miner a) then count + 1 else count) (attempts s) 0.
Definition mem_getAttempt (s : MemoryStore) (k : CoreTexEvalDedupKey) : option CoreTexEvalAttemptRecord := jsmap_get (recordKey k) (attempts s).
Definition mem_recordSeedDrawnAndAdmission (s : MemoryStore) (k : CoreTexEvalDedupKey) (ctx : PerPatchSeedContext) (miner : string) : MemoryStore :=
  match jsmap_get (recordKey k) (attempts s) with
  | Some _ => s
  | None => mkStore (records s) (jsmap_set (recordKey k) (drawn_row k ctx miner) (attempts s))
  end.
Definition mem_recordAttemptOutcome (s : MemoryStore) (k : CoreTexEvalDedupKey) (st : AttemptState) (o : DedupOutcome) (code : option string) : outcome MemoryStore :=
  match jsmap_get (recordKey k) (attempts s) with
  | None => Throws (GenericError "recordAttemptOutcome called before recordSeedDrawnAndAdmission")
  | Some prior => Returns (mkStore (records s) (jsmap_set (recordKey k) (upgraded_row prior st o code) (attempts s)))
  end.

#[export] Instance in_memory_store : CoreTexEvalDedupStore MemoryStore := {|
  ds_get := mem_get;
  ds_put := mem_put;
  ds_minerAdmissions := mem_minerAdmissions;
  ds_getAttempt := mem_getAttempt;
  ds_recordSeedDrawnAndAdmission := mem_recordSeedDrawnAndAdmission;
  ds_recordAttemptOutcome := mem_recordAttemptOutcome
|}.

(** ** The in-memory store keeps the laws *)
Definition mem_ok (s : MemoryStore) : Prop := NoDup (attempts s).*1.

Lemma count_filter e m l n : fold_left (fun count a => if decide (charged_to e m a) then count + 1 else count) l n
  = n + Z.of_nat (length (filter (charged_to e m) l)).
Proof.
  revert n. induction l as [|a l IH]; intros n; cbn [fold_left]; [cbn; lia|]. rewrite IH, filter_cons. case_decide; cbn [length]; lia.
Qed.

Lemma admissions_count s e m : mem_minerAdmissions s e m = Z.of_nat (length (filter (charged_to e (toLowerCase m)) (attempts s))).
Proof. apply count_filter. Qed.

(** Replacing a row by one charged alike keeps the count. *)
Lemma count_replace e m k a a' l : jsmap_get k l = Some a -> (charged_to e m (k, a) <-> charged_to e m (k, a')) ->
  length (filter (charged_to e m) (jsmap_set k a' l)) = length (filter (charged_to e m) l).
Proof.
  intros Ha He. destruct (jsmap_get_split _ _ _ Ha) as (l1 & l2 & -> & _ & E). rewrite E, !filter_app, !length_app, !filter_cons.
  destruct (decide (charged_to e m (k, a))), (decide (charged_to e m (k, a'))); tauto || done.
Qed.

#[export] Instance in_memory_laws : DedupStoreLaws MemoryStore mem_ok.
Proof.
  constructor; cbn [ds_get ds_put ds_minerAdmissions ds_getAttempt ds_recordSeedDrawnAndAdmission ds_recordAttemptOutcome in_memory_store].
  - done.
  - intros s k ctx m H. unfold mem_recordSeedDrawnAndAdmission. destruct (jsmap_get _ _); [done|]. by apply jsmap_set_NoDup.
  - intros s k st o c s' H E. unfold mem_recordAttemptOutcome in E. destruct (jsmap_get _ _); [|done]. injection E as <-. by apply jsmap_set_NoDup.
  - intros s k k' E. unfold mem_get. by rewrite E.
  - intros s k k' E. unfold mem_getAttempt. by rewrite E.
  - intros s r k. apply jsmap_get_set.
  - intros s k ctx m k'. unfold mem_get, mem_recordSeedDrawnAndAdmission. by destruct (jsmap_get (recordKey k) (attempts s)).
  - intros s k st o c s' k' E. unfold mem_recordAttemptOutcome in E. destruct (jsmap_get _ _); [|done]. by injection E as <-.
  - done.
  - intros s k ctx m k'. unfold mem_getAttempt, mem_recordSeedDrawnAndAdmission. destruct (jsmap_get (recordKey k) (attempts s)) as [a|] eqn:E; cbn [default].
    + case_decide as D; [|done]. by rewrite D, E.
    + cbn [attempts]. by rewrite jsmap_get_set.
  - intros s k st o c. unfold mem_getAttempt, mem_recordAttemptOutcome. destruct (jsmap_get _ _); [by split; [eauto|by eexists]|].
    split; [by intros [? ?]|by intros [? ?]].
  - intros s k st o c s' k' E. unfold mem_recordAttemptOutcome, mem_getAttempt in *. destruct (jsmap_get (recordKey k) (attempts s)) as [a|] eqn:Ea; [|done].
    injection E as <-. cbn [attempts]. by rewrite jsmap_get_set.
  - intros s e m m' E. rewrite !admissions_count. by rewrite E.
  - done.
  - intros s k st o c s' e m Hok E. rewrite !admissions_count. unfold mem_recordAttemptOutcome in E. destruct (jsmap_get (recordKey k) (attempts s)) as [a|] eqn:Ea; [|done].
    injection E as <-. cbn [attempts]. f_equal. by apply (count_replace _ _ _ a).
  - intros s k ctx m e m' Hok. rewrite !admissions_count. unfold mem_getAttempt, mem_recordSeedDrawnAndAdmission. destruct (jsmap_get (recordKey k) (attempts s)) as [a|] eqn:Ea; [lia|].
    cbn [attempts]. apply jsmap_get_None in Ea. rewrite jsmap_set_fresh by done. rewrite filter_app, length_app, filter_cons. unfold charged_to at 2. cbn [fst snd ar_key ar_admissionCharged ar_minerAddress drawn_row normalizeKey dk_epochId].
    rewrite filter_nil. repeat case_decide; cbn [length]; try lia; destruct_and?; lazymatch goal with N : ~ _ |- _ => exfalso; apply N; by split_and! end.
  - intros s e m. rewrite admissions_count. lia.
Qed.
