(* ===== verification/ProductionEvaluator.v ===== *)
(** * The production evaluator (coordinator/production-evaluator.ts)

    [scorePatch] is what the coordinator calls with a prepared patch: it looks
    the patch up in the evaluation store, pins or reuses its seed, runs the
    dual-pack evaluation of [PerPatch] on the scorer of [Benchmark], builds and
    publishes the artifact of [EvalReport], records the outcome and returns the
    result. What it does to its surroundings, in order, is the list of
    [eval_event]s it returns; the store after any prefix of them is the store
    a crash at that point leaves behind.

    Theorems, against the store interface: over any sequence of evaluations
    and crashes a seed is drawn once per patch and every later score is on it
    ([seed_never_redrawn]); a miner is never charged past its cap
    ([admissions_capped]); an outcome is credited once and to one miner
    ([credited_once]); and what a credited result has passed
    ([scorePatch_sound]). [EvaluatorArtifact] takes the result to the watchers
    and to the coordinator. Store calls are synchronous here: two evaluations
    of one process that interleave at an await are not modelled. *)
From Stdlib Require Import Ascii SpecFloat.
From stdpp Require Import pretty.
From S2P Require Import Prelude JsSort Float StateTypes Codec Keccak Merkle Decoder Substrate Validate Patch SeedDerivation PerPatch CanonicalJson WorkUnits.
From S2P Require Import EvalHarness CorpusRoot CorpusDelta HiddenPack FirstStage Metrics QueryIntent CandidatePool QueryRanking Benchmark SafeInteger EvalReport DedupStore.
#[local] Open Scope Z_scope.

(** ** Resolving the reranker *)
Record ProductionRerankerPin := mkPin { pin_modelId : string; pin_revision : string }.
Inductive reranker_mode := qwen3_streaming | qwen3_per_batch.
Record ProductionRerankerPlan := mkPlan { plan_mode : reranker_mode; plan_modelId : string; plan_revision : string; plan_instruction : string }.

Definition QWEN_RERANKER_DEFAULT_INSTRUCTION : string := "Given a web search query, retrieve relevant passages that answer the query".
Definition resolveQwenRerankerInstruction (env : string -> option string) : string :=
  default QWEN_RERANKER_DEFAULT_INSTRUCTION (env "CORETEX_RERANKER_INSTRUCTION"%string).

Definition is_empty (s : string) : bool := String.eqb s "".
(** [env[name] !== undefined && env[name] !== v] *)
Definition conflicts (o : option string) (v : string) : bool := match o with Some x => negb (String.eqb x v) | None => false end.

Definition resolveProductionRerankerPlan (pin : ProductionRerankerPin) (env : string -> option string) : outcome ProductionRerankerPlan :=
  let refuse := GenericError "production CoreTex evaluator refuses to construct" in
  throw_when is_empty (pin_modelId pin) || is_empty (pin_revision pin) with GenericError "production CoreTex evaluator requires a bundle reranker pin" ;;
  throw_when negb (bool_decide (env "CORTEX_REAL_EVAL"%string = Some "1"%string)) with refuse ;;
  throw_when negb (bool_decide (env "CORETEX_RERANKER_PRODUCTION"%string = Some "1"%string)) with refuse ;;
  throw_when negb (bool_decide (env "CORETEX_RERANKER"%string = Some "qwen3"%string)) with refuse ;;
  throw_when bool_decide (env "CORETEX_ALLOW_DETERMINISTIC_RERANKER"%string = Some "1"%string) with refuse ;;
  throw_when conflicts (env "CORETEX_RERANKER_MODEL_ID"%string) (pin_modelId pin) with GenericError "conflicts with bundle reranker pin" ;;
  throw_when conflicts (env "CORETEX_RERANKER_REVISION"%string) (pin_revision pin) with GenericError "conflicts with bundle reranker pin revision" ;;
  mode ← match env "CORETEX_RERANKER_MODE"%string with
    | None => Returns qwen3_streaming
    | Some m =>
      if String.eqb m "per-batch" || String.eqb m "per_batch" then
        throw_when negb (bool_decide (env "CORETEX_ALLOW_PER_BATCH_RERANKER"%string = Some "dev-only-i-understand"%string)) with refuse ;;
        Returns qwen3_per_batch
      else if String.eqb m "streaming" then Returns qwen3_streaming
      else Throws (GenericError "unknown CORETEX_RERANKER_MODE")
    end;
  Returns (mkPlan mode (pin_modelId pin) (pin_revision pin) (resolveQwenRerankerInstruction env)).

Definition assertResolvedRerankerMatchesPin (model : string) (plan : ProductionRerankerPlan) : outcome unit :=
  throw_if (negb (String.eqb model (plan_modelId plan +:+ "@" +:+ plan_revision plan)%string)) (GenericError "resolved reranker does not report the pin").

(** ** The evaluator *)
Definition MAX_SAFE_INTEGER : number := of_Z (2 ^ 53 - 1).
Definition validatePerMinerCap (cap : option number) : outcome unit :=
  throw_if (match cap with
    | None => true
    | Some c => negb (is_safe_integer c) || dle c (of_Z 0) || dle MAX_SAFE_INTEGER c
    end) (GenericError "production CoreTex evaluator requires a finite perMinerCap").

(** [Math.max(0, Math.min(1_000_000, Math.round(value * 1_000_000)))] *)
Definition ppm (value : number) : number := math_max (of_Z 0) (math_min (of_Z 1000000) (js_round (dmul value (of_Z 1000000)))).

(** The reason of a patch score, as the source spells it. *)
Definition reason_text (r : RejectReason) : string :=
  match r with
  | apply_failed c => "apply_failed:" +:+ code_text c
  | structural_validity_below_floor => "structural_validity_below_floor"
  | protected_regression id => "protected_regression:" +:+ id
  | family_catastrophic fam => "family_catastrophic:" +:+ fam
  | no_retrieval_improvement => "no_retrieval_improvement"
  end.

Definition rejection_text (r : PerPatchRejection) : string :=
  match r with
  | r_cached => "cached"
  | r_structurally_invalid => "structurally-invalid"
  | r_duplicate_key_collapsed => "duplicate-key-collapsed"
  | r_per_miner_cap_reached => "per-miner-cap-reached"
  | r_gate_below_threshold => "gate-below-threshold"
  | r_confirm_below_threshold => "confirm-below-threshold"
  | r_gate_acceptance_floor => "gate-acceptance-floor"
  | r_confirm_acceptance_floor => "confirm-acceptance-floor"
  | r_admit_malformed_input => "admit-malformed-input"
  end.

Record ProductionCoreTexEvaluatorCoreDeps := mkCoreDeps {
  cd_epochId : Z;
  cd_epochSecret : option string;
  cd_hiddenSeedCommit : option string;
  cd_corpusRoot : string;
  cd_bundleHash : string;
  stateThresholdPpm : number;
  screenerThresholdPpm : number;
  cd_replayTolerancePpm : number;
  cd_targetBlockOffset : Z;
  cd_perMinerCap : number;
  cd_rpcClient : BaseRpcClient;
  parentStateLoader : string -> outcome CortexState;
  seedScorer : CortexState -> bytes -> string -> number -> outcome PatchEvalResult;
  publishArtifact : option (jsval -> outcome unit)
}.

Record ScorePatchInput := mkScoreInput {
  si_patchBytesHex : string;
  si_parentStateRoot : string;
  si_miner : string;
  si_parentState : option CortexState;
  si_screenerThresholdPpm : option number;
  si_seedContext : option PerPatchSeedContext;
  si_injectedSeeds : option (string * string);
  si_targetBlockOffset : option Z
}.

(** An accepted evaluation: delta, the hash that is both report hash and artifact hash, proof and artifact. *)
Record AcceptedEval := mkAcceptedEval { ae_delta : number; ae_hash : string; ae_proof : PerPatchDualPackEvaluationProof; ae_artifact : jsval }.
Inductive ProductionEvalResult :=
  | ProdReject (code : string) (innerRejectionReason : option string)
  | ProdScreenerPass (a : AcceptedEval)
  | ProdStateAdvance (a : AcceptedEval) (scoreBeforePpm scoreAfterPpm : number) (rewrittenPatchBytesHex : string).

Definition is_credited (r : ProductionEvalResult) : bool := match r with ProdReject _ _ => false | _ => true end.

(** What an evaluation does to its surroundings. *)
Inductive eval_event :=
  | Host (e : effect)
  | DrawSeed (k : CoreTexEvalDedupKey) (ctx : PerPatchSeedContext) (miner : string)
  | Publish (artifact : jsval)
  | RecordOutcome (k : CoreTexEvalDedupKey) (st : AttemptState) (o : DedupOutcome) (code : option string)
  | PutRecord (r : CoreTexEvalDedupRecord).

(** The durable record of a context is a draw in the store. *)
Definition eval_event_of (k : CoreTexEvalDedupKey) (miner : string) (e : effect) : eval_event :=
  match e with RecordSeed ctx => DrawSeed k ctx miner | _ => Host e end.

Section Store.
Context {St : Type} `{CoreTexEvalDedupStore St}.

Definition store_event (s : St) (e : eval_event) : St :=
  match e with
  | DrawSeed k ctx m => ds_recordSeedDrawnAndAdmission s k ctx m
  | RecordOutcome k st o c => match ds_recordAttemptOutcome s k st o c with Returns s' => s' | Throws _ => s end
  | PutRecord r => ds_put s r
  | _ => s
  end.
Definition store_after (s : St) (t : list eval_event) : St := fold_left store_event t s.
End Store.

(** [/^0x[0-9a-fA-F]*$/.test(value)] and an even length, then merkle.ts's [hexToBytes]. *)
Definition parseHex (value : string) : outcome bytes :=
  throw_when negb (HEX_RE value) || Nat.odd (String.length value) with GenericError "must be hex" ;;
  hexToBytes value.

Section WithHasher.
Context {HK : Hasher} (NumberToString : number -> string).

(** The commitment the evaluator is built with. *)
Definition resolve_hiddenSeedCommit (deps : ProductionCoreTexEvaluatorCoreDeps) : outcome string :=
  match cd_epochSecret deps with
  | Some (String _ _ as secret) =>
    bs ← parseHex secret;
    let derived := toLowerCase (bytesToHex (keccak256 bs)) in
    throw_when match cd_hiddenSeedCommit deps with Some (String _ _ as c) => negb (String.eqb (toLowerCase c) derived) | _ => false end
      with GenericError "hiddenSeedCommit != keccak256(epochSecret)" ;;
    Returns derived
  | _ =>
    match cd_hiddenSeedCommit deps with
    | Some c => throw_when negb (BYTES32_RE c) with GenericError "requires epochSecret OR a bytes32 hiddenSeedCommit" ;; Returns (toLowerCase c)
    | None => Throws (GenericError "requires epochSecret OR a bytes32 hiddenSeedCommit")
    end
  end.

(** ** Preparing a job *)
Record EvalJob := mkEvalJob {
  ej_bytes : bytes;
  ej_patch : Patch;
  ej_root : string;
  ej_patchHash : string;
  ej_threshold : number;
  ej_miner : string;
  ej_parent : CortexState
}.
Definition ej_key (deps : ProductionCoreTexEvaluatorCoreDeps) (j : EvalJob) : CoreTexEvalDedupKey := mkDedupKey (cd_epochId deps) (ej_root j) (ej_patchHash j).

Definition prepare_job (deps : ProductionCoreTexEvaluatorCoreDeps) (input : ScorePatchInput) : outcome EvalJob :=
  bs ← parseHex (si_patchBytesHex input);
  patch ← decodePatch bs;
  let threshold := default (screenerThresholdPpm deps) (si_screenerThresholdPpm input) in
  throw_when negb (is_safe_integer threshold) || dlt threshold (of_Z 0) with GenericError "screenerThresholdPpm override must be a non-negative integer" ;;
  parent ← match si_parentState input with Some p => Returns p | None => parentStateLoader deps (si_parentStateRoot input) end;
  Returns (mkEvalJob bs patch (toLowerCase (si_parentStateRoot input)) (toLowerCase (computePatchHash bs)) threshold (toLowerCase (si_miner input)) parent).

Definition score_result (r : PatchEvalResult) : PerPatchScoreResult := mkScore (deltaPpm r) (accepted r) (reason_text <$> reason r).

(** The scorer handed to the dual-pack evaluation. *)
Definition job_scorer (deps : ProductionCoreTexEvaluatorCoreDeps) (j : EvalJob) : PerPatchScorer := fun bs _ seed _ =>
  r ← seedScorer deps (ej_parent j) bs seed (ej_threshold j); Returns (score_result r).

(** The [perSeed] map its calls left behind. *)
Definition per_seed (deps : ProductionCoreTexEvaluatorCoreDeps) (j : EvalJob) (t : list effect) : list (string * PatchEvalResult) :=
  fold_left (fun m e => match e with
    | Score _ seed => match seedScorer deps (ej_parent j) (ej_bytes j) seed (ej_threshold j) with Returns r => jsmap_set (toLowerCase seed) r m | Throws _ => m end
    | _ => m end) t [].

Definition chooseStateAdvanceScore (receipt : PerPatchReceipt) (perSeed : list (string * PatchEvalResult)) : outcome PatchEvalResult :=
  let gate := jsmap_get (toLowerCase (gateSeed receipt)) perSeed in
  let confirm := jsmap_get (toLowerCase (confirmSeed receipt)) perSeed in
  match (if dle (gateScorePpm receipt) (confirmScorePpm receipt) then gate else confirm) with
  | Some r => Returns r
  | None => Throws (GenericError "missing dual-pack score")
  end.

(** ** Where the seed comes from *)
Inductive SeedSource :=
  | Pinned (ctx : PerPatchSeedContext)
  | Reused (ctx : PerPatchSeedContext)
  | FreshDraw (admissions : Z).

Definition lower_context (ctx : PerPatchSeedContext) : PerPatchSeedContext := mkSeedContext (receivedAtBlock ctx) (targetBlock ctx) (toLowerCase (sc_blockhash ctx)).

(** The seed of a job, or its rejection: pinned by the coordinator, reused from the miner's own attempt, or to be
    drawn under the miner's admission count. *)
Definition seed_source {St} `{CoreTexEvalDedupStore St} (deps : ProductionCoreTexEvaluatorCoreDeps) (s : St) (input : ScorePatchInput) (j : EvalJob)
  : ProductionEvalResult + SeedSource :=
  match si_seedContext input with
  | Some ctx => inr (Pinned (lower_context ctx))
  | None =>
    match ds_get s (ej_key deps j) with
    | Some _ => inl (ProdReject "duplicate_submission" None)
    | None =>
      match ds_getAttempt s (ej_key deps j) with
      | Some a => if negb (String.eqb (ar_minerAddress a) (ej_miner j)) then inl (ProdReject "duplicate_in_flight" None) else inr (Reused (ar_seedContext a))
      | None => inr (FreshDraw (ds_minerAdmissions s (cd_epochId deps) (ej_miner j)))
      end
    end
  end.

Definition nonempty (o : option string) : option string := match o with Some EmptyString => None | _ => o end.

(** The dependencies of the dual-pack evaluation of a job. *)
Definition job_deps (deps : ProductionCoreTexEvaluatorCoreDeps) (input : ScorePatchInput) (j : EvalJob) (src : SeedSource) (offset : Z) : PerPatchEvaluatorDeps :=
  mkDeps (cd_rpcClient deps) (job_scorer deps j) offset (ej_threshold j) (cd_perMinerCap deps) (nonempty (cd_epochSecret deps)) (cd_corpusRoot deps) (cd_bundleHash deps)
    [] [(ej_miner j, of_Z (match src with FreshDraw n => n | _ => 0 end))] None
    (match src with Pinned ctx | Reused ctx => Some ctx | FreshDraw _ => None end)
    (match src with FreshDraw _ => Some (fun _ => Returns tt) | _ => None end)
    (si_injectedSeeds input).
Definition job_request (deps : ProductionCoreTexEvaluatorCoreDeps) (j : EvalJob) : PerPatchRequest :=
  mkRequest (ej_bytes j) (ej_root j) (ej_miner j) (cd_epochId deps) true.

(** ** The artifact *)
(** A receipt as the JSON object [runPerPatchEvaluation] returns. *)
Definition receipt_value (r : PerPatchReceipt) : jsval :=
  JObject ([("patchHash", JString (rc_patchHash r)); ("dedupKey", JString (rc_dedupKey r)); ("parentRoot", JString (rc_parentRoot r));
    ("minerAddress", JString (rc_minerAddress r)); ("epochId", JNumber (of_Z (rc_epochId r)));
    ("receivedAtBlock", JNumber (of_Z (receivedAtBlock (rc_context r)))); ("targetBlock", JNumber (of_Z (targetBlock (rc_context r))));
    ("blockhash", JString (sc_blockhash (rc_context r))); ("gateSeed", JString (gateSeed r)); ("confirmSeed", JString (confirmSeed r));
    ("gateScorePpm", JNumber (gateScorePpm r)); ("confirmScorePpm", JNumber (confirmScorePpm r)); ("accepted", JBool (rc_accepted r))]%string
    ++ match rc_rejectionReason r with Some c => [("rejectionReason", JString (rejection_text c))]%string | None => [] end
    ++ match innerRejectionReason r with Some c => [("innerRejectionReason", JString c)]%string | None => [] end).

(** The literal [scorePatch] hands to the builder. *)
Definition artifact_literal (deps : ProductionCoreTexEvaluatorCoreDeps) (j : EvalJob) (dual : PerPatchReceipt) (offset : Z) (stateAdvance : bool) (commit : string) : jsval :=
  let ctx := rc_context dual in
  JObject [("version", JString "coretex-post-reveal-eval-report-v1"); ("epochId", JNumber (of_Z (cd_epochId deps)));
    ("minerAddress", JString (ej_miner j)); ("outcome", JString (if stateAdvance then "STATE_ADVANCE" else "SCREENER_PASS"));
    ("compactPatchBytesHex", JString (toLowerCase (bytesToHex (ej_bytes j)))); ("thresholdPpm", JNumber (ej_threshold j));
    ("seedDerivation", JObject [("mode", JString "future_blockhash_dual_pack"); ("epochId", JNumber (of_Z (cd_epochId deps)));
       ("receivedAtBlock", JNumber (of_Z (receivedAtBlock ctx))); ("targetBlock", JNumber (of_Z (targetBlock ctx)));
       ("targetBlockOffset", JNumber (of_Z offset)); ("blockhash", JString (toLowerCase (sc_blockhash ctx))); ("patchHash", JString (ej_patchHash j));
       ("parentStateRoot", JString (ej_root j)); ("corpusRoot", JString (toLowerCase (cd_corpusRoot deps))); ("bundleHash", JString (toLowerCase (cd_bundleHash deps)))]);
    ("receipt", receipt_value dual);
    ("context", JObject [("parentStateRoot", JString (ej_root j)); ("corpusRoot", JString (toLowerCase (cd_corpusRoot deps)));
       ("coreVersionHash", JString (toLowerCase (cd_bundleHash deps))); ("hiddenSeedCommit", JString commit); ("replayTolerancePpm", JNumber (cd_replayTolerancePpm deps))])]%string.

(** ** One evaluation *)
Definition prog_of (A : Type) : Type := (list eval_event * outcome A)%type.

(** [record(outcome, code)]: on the coordinator-pinned path the store is not written. *)
Definition record_outcome {St} `{CoreTexEvalDedupStore St} (s : St) (k : CoreTexEvalDedupKey) (pinned : bool) (o : DedupOutcome) (code : option string) : prog_of unit :=
  if pinned then ([], Returns tt)
  else
    let st := match o with out_reject => att_rejected | _ => att_accepted end in
    match ds_recordAttemptOutcome s k st o code with
    | Throws e => ([], Throws e)
    | Returns _ => ([RecordOutcome k st o code; PutRecord (mkDedupRecord k o (nonempty code))], Returns tt)
    end.

Definition then_return {A} (t : list eval_event) (w : prog_of unit) (r : A) : prog_of A :=
  (t ++ w.1, match w.2 with Returns _ => Returns r | Throws e => Throws e end).

Definition is_pinned (src : SeedSource) : bool := match src with Pinned _ => true | _ => false end.

(** The check that the receipt was drawn at the offset the artifact will name. *)
Definition offset_matches (ctx : PerPatchSeedContext) (offset : Z) : bool :=
  let actual := targetBlock ctx - receivedAtBlock ctx in bool_decide (safe_Z actual) && (0 <? actual) && (actual =? offset).

(** The deciding pack of an accepted receipt, whether it advances the state, and the artifact. *)
Definition credit_artifact (deps : ProductionCoreTexEvaluatorCoreDeps) (commit : string) (j : EvalJob) (offset : Z) (t0 : list effect) (dual : PerPatchReceipt)
  : outcome (PatchEvalResult * bool * jsval) :=
  chosen ← chooseStateAdvanceScore dual (per_seed deps j t0);
  let advance := dle (stateThresholdPpm deps) (math_min (gateScorePpm dual) (confirmScorePpm dual)) && accepted chosen in
  artifact ← buildPostRevealEvalReportArtifact NumberToString (artifact_literal deps j dual offset advance commit);
  Returns (chosen, advance, artifact).

(** The proof and the result. *)
Definition credit_result (deps : ProductionCoreTexEvaluatorCoreDeps) (commit : string) (j : EvalJob) (offset : Z) (dual : PerPatchReceipt) (chosen : PatchEvalResult) (advance : bool) (artifact : jsval)
  : outcome (DedupOutcome * ProductionEvalResult) :=
  let minDualDelta := math_min (gateScorePpm dual) (confirmScorePpm dual) in
  proof ← dualPackProofFromPerPatchReceipt dual (cd_corpusRoot deps) (cd_bundleHash deps) commit offset;
  let a := mkAcceptedEval minDualDelta (str (prop artifact "artifactHash")) proof artifact in
  if advance then
    let scoreBeforePpm := ppm (composite (before chosen)) in
    throw_when negb (is_integer minDualDelta) with RangeError "BigInt" ;;
    rewritten ← encodePatch (with_scoreDelta (ej_patch j) (int (JNumber minDualDelta)));
    Returns (out_state_advance, ProdStateAdvance a scoreBeforePpm (dadd scoreBeforePpm minDualDelta) (bytesToHex rewritten))
  else Returns (out_screener_pass, ProdScreenerPass a).

(** The publication hook; a failure ends the evaluation. *)
Definition publish (deps : ProductionCoreTexEvaluatorCoreDeps) (artifact : jsval) : prog_of unit :=
  match publishArtifact deps with Some hook => ([Publish artifact], hook artifact) | None => ([], Returns tt) end.

(** What follows an accepted dual evaluation, after the events [t]. *)
Definition credit_accepted {St} `{CoreTexEvalDedupStore St} (deps : ProductionCoreTexEvaluatorCoreDeps) (commit : string) (s : St) (j : EvalJob) (src : SeedSource) (offset : Z)
    (t0 : list effect) (t : list eval_event) (dual : PerPatchReceipt) : prog_of ProductionEvalResult :=
  match credit_artifact deps commit j offset t0 dual with
  | Throws e => (t, Throws e)
  | Returns (chosen, advance, artifact) =>
    let t := t ++ (publish deps artifact).1 in
    match (publish deps artifact).2 with
    | Throws e => (t, Throws e)
    | Returns _ =>
      match credit_result deps commit j offset dual chosen advance artifact with
      | Throws e => (t, Throws e)
      | Returns (o, result) => then_return t (record_outcome (store_after s t) (ej_key deps j) (is_pinned src) o None) result
      end
    end
  end.

Definition evaluate_job {St} `{CoreTexEvalDedupStore St} (deps : ProductionCoreTexEvaluatorCoreDeps) (commit : string) (s : St) (input : ScorePatchInput) (j : EvalJob) (src : SeedSource) (offset : Z)
  : prog_of ProductionEvalResult :=
  let k := ej_key deps j in
  let run := runPerPatchEvaluation (job_request deps j) (job_deps deps input j src offset) in
  let t := map (eval_event_of k (ej_miner j)) run.1 in
  match run.2 with
  | Throws e => (t, Throws e)
  | Returns dual =>
    let drewPacks := 0 <? receivedAtBlock (rc_context dual) in
    if drewPacks && negb (offset_matches (rc_context dual) offset) then (t, Throws (GenericError "targetBlockOffset mismatch"))
    else if rc_accepted dual then credit_accepted deps commit s j src offset run.1 t dual
    else
      let code := match rc_rejectionReason dual with Some r => rejection_text r | None => "no_retrieval_improvement"%string end in
      let w := if drewPacks then record_outcome (store_after s t) k (is_pinned src) out_reject (Some code) else ([], Returns tt) in
      then_return t w (ProdReject code (nonempty (innerRejectionReason dual)))
  end.

Definition scorePatch {St} `{CoreTexEvalDedupStore St} (deps : ProductionCoreTexEvaluatorCoreDeps) (commit : string) (s : St) (input : ScorePatchInput) : prog_of ProductionEvalResult :=
  match prepare_job deps input with
  | Throws e => ([], Throws e)
  | Returns j =>
    match seed_source deps s input j with
    | inl r => ([], Returns r)
    | inr src =>
      let offset := default (cd_targetBlockOffset deps) (si_targetBlockOffset input) in
      if negb (bool_decide (safe_Z offset)) || (offset <=? 0) then ([], Throws (GenericError "targetBlockOffset must be a positive integer"))
      else evaluate_job deps commit s input j src offset
    end
  end.

(** The score of a patch on the pack of a seed: the scorer production binds. *)
Definition scoreAgainstSeed (math_pow : number -> number -> number) (math_log2 : number -> number)
    (scorer : DecodedSubstrate -> ProductionCorpusEvent -> ProductionCorpus -> ScoringOptions -> outcome QueryScore)
    (epochId : Z) (parent : CortexState) (patch : Patch) (corpus : ProductionCorpus) (hiddenPack : HiddenPackProfile) (floors : PatchAcceptanceFloors)
    (scoringOpts : ScoringOptions) (evalSeed : string) (thresholdPpm : number) : outcome PatchEvalResult :=
  pack ← deriveQueryPack epochId evalSeed corpus hiddenPack;
  evaluateRetrievalBenchmarkPatch math_pow math_log2 scorer parent patch corpus pack scoringOpts
    (mkFloors (minImprovementPpm floors) (structuralFloor floors) (protectedRegressionFloor floors) (familyCatastrophicFloor floors) (Some thresholdPpm)) None.

(** [createCoreTexEvaluatorCore]: the checks of the construction, and the commitment the evaluator keeps. *)
Definition createCoreTexEvaluatorCore (deps : ProductionCoreTexEvaluatorCoreDeps) : outcome string :=
  _ ← validatePerMinerCap (Some (cd_perMinerCap deps)); resolve_hiddenSeedCommit deps.
End WithHasher.

(** ** The trace of a dual-pack evaluation *)
Definition is_record (e : effect) : bool := match e with RecordSeed _ => true | _ => false end.

Section Traces.
Context {HK : Hasher}.

Lemma draw_no_record deps : forallb (fun e => negb (is_record e)) (draw_context deps).1 = true.
Proof.
  unfold draw_context. destruct (seedContext deps); [done|]. unfold mbind, prog_bind, ask. cbn [fst snd].
  destruct (getLatestBlockNumber _); cbn [fst snd]; [|done]. destruct (waitForBlock _ _ _); done.
Qed.

(** An evaluation draws, records at most once, and then scores on seeds of the context; it does any of this only when
    the submission is admitted. *)
Lemma run_trace rq deps : let t := (runPerPatchEvaluation rq deps).1 in
  t = [] \/ exists dk, computeDedupKey (rq_parentRoot rq) (normalizedPatchBytes rq) = Returns dk /\ decision rq deps dk = Admit
  /\ exists d rest, t = d ++ rest /\ forallb (fun e => negb (is_score e)) d = true /\ forallb (fun e => negb (is_record e)) d = true
  /\ (rest = [] \/ exists ctx, drawn deps ctx /\ exists l, rest = (match onSeedDerived deps with Some _ => [RecordSeed ctx] | None => [] end) ++ l
      /\ (l = [] \/ exists g c, derive_seeds rq deps (computePatchHash (normalizedPatchBytes rq)) ctx = Returns (g, c)
            /\ (l = [Score gate g] \/ l = [Score gate g; Score confirm c]))).
Proof.
  unfold runPerPatchEvaluation. cbv zeta. rewrite lift_bind. destruct (computeDedupKey _ _) as [dk|e] eqn:Edk; [|by left].
  destruct (jsmap_get dk (dedupCache deps)); [by left|]. destruct (liveEvalAdmissionDecision _) eqn:Ed; [|by left].
  right. exists dk. split; [done|]. split; [exact Ed|].
  pose proof (draw_no_score deps) as Hns. pose proof (draw_no_record deps) as Hnr. destruct (draw_context deps) as [d od] eqn:E1. cbn [fst] in Hns, Hnr.
  unfold mbind at 1, prog_bind at 1. cbn [fst snd]. destruct od as [ctx|e]; [|exists d, []; rewrite app_nil_r; auto].
  apply draw_inv in E1 as [Hdr _]. exists d. eexists. split; [reflexivity|]. split; [done|]. split; [done|]. right. exists ctx. split; [done|].
  unfold record_context. set (l := match onSeedDerived deps with Some _ => [RecordSeed ctx] | None => [] end).
  assert (Er : match onSeedDerived deps with Some hook => ask (RecordSeed ctx) (hook ctx) | None => mret tt end
    = (l, match onSeedDerived deps with Some hook => hook ctx | None => Returns tt end)) by (unfold l; by destruct (onSeedDerived deps)).
  rewrite Er. unfold mbind at 1, prog_bind at 1. cbn [fst snd]. destruct (match onSeedDerived deps with Some hook => hook ctx | None => Returns tt end) as [u|e].
  2: { exists []. rewrite app_nil_r. auto. }
  rewrite lift_bind. destruct (derive_seeds _ _ _ _) as [[g c]|e] eqn:Es; cbn [fst snd]; [|exists []; auto].
  eexists. split; [reflexivity|]. right. exists g, c. split; [done|]. rewrite ask_bind.
  destruct (scorer deps _ _ g gate) as [gr|e]; cbn [fst]; [|by left]. destruct (negb (pack_pass deps gr)); [by left|].
  rewrite ask_bind. destruct (scorer _ _ _ _ _); by right.
Qed.

(** The scores of an evaluation are on the two seeds of a context that was drawn. *)
Lemma score_in_trace rq deps w seed : Score w seed ∈ (runPerPatchEvaluation rq deps).1 ->
  exists ctx g c, drawn deps ctx /\ derive_seeds rq deps (computePatchHash (normalizedPatchBytes rq)) ctx = Returns (g, c)
  /\ match w with gate => seed = g | confirm => seed = c end
  /\ (is_Some (onSeedDerived deps) -> RecordSeed ctx ∈ (runPerPatchEvaluation rq deps).1).
Proof.
  intros H. destruct (run_trace rq deps) as [E|(dk & _ & _ & d & rest & E & Hd & _ & Hr)]; [rewrite E in H; by apply not_elem_of_nil in H|].
  rewrite E in H |- *. apply elem_of_app in H as [H|H].
  { rewrite forallb_forall in Hd. apply list_elem_of_In, Hd in H. done. }
  destruct Hr as [->|(ctx & Hdr & l & -> & Hl)]; [by apply not_elem_of_nil in H|].
  apply elem_of_app in H as [H|H]; [destruct (onSeedDerived deps); [apply list_elem_of_singleton in H; done|by apply not_elem_of_nil in H]|].
  destruct Hl as [->|(g & c & Hs & Hl)]; [by apply not_elem_of_nil in H|]. exists ctx, g, c. split; [done|]. split; [done|].
  split; [destruct Hl as [->| ->]; repeat (apply elem_of_cons in H as [[= -> ->]|H]; [done|]); by apply not_elem_of_nil in H|].
  intros [hook ->]. apply elem_of_app. right. apply elem_of_app. left. apply list_elem_of_here.
Qed.

(** A context is recorded at most once, for an admitted submission. *)
Lemma record_in_trace rq deps : (runPerPatchEvaluation rq deps).1 = [] \/
  exists pre post, (runPerPatchEvaluation rq deps).1 = pre ++ post /\ forallb (fun e => negb (is_record e)) pre = true
  /\ (forallb (fun e => negb (is_record e)) post = true \/ exists ctx post' dk, post = RecordSeed ctx :: post' /\ forallb (fun e => negb (is_record e)) post' = true
      /\ is_Some (onSeedDerived deps) /\ computeDedupKey (rq_parentRoot rq) (normalizedPatchBytes rq) = Returns dk /\ decision rq deps dk = Admit).
Proof.
  destruct (run_trace rq deps) as [E|(dk & Hdk & Had & d & rest & E & _ & Hd & Hr)]; [by left|right].
  exists d, rest. split; [done|]. split; [done|]. destruct Hr as [->|(ctx & _ & l & -> & Hl)]; [by left|].
  assert (Hn : forallb (fun e => negb (is_record e)) l = true) by (destruct Hl as [->|(g & c & _ & [->| ->])]; done).
  destruct (onSeedDerived deps) as [hook|] eqn:Eh; [|by left]. right. exists ctx, l, dk. split_and!; done.
Qed.
End Traces.

(** ** Sequences of evaluations and crashes *)
Section Evolution.
Context {HK : Hasher} (NS : number -> string) {St : Type} `{!CoreTexEvalDedupStore St} (ds_ok : St -> Prop) `{!DedupStoreLaws St ds_ok}.
(** The configurations the evaluator is started with. *)
Context (admissible : ProductionCoreTexEvaluatorCoreDeps -> Prop).

(** Evaluations one after the other, each run to its end or cut off by a crash after some of its events; the evaluator
    may be restarted with another configuration. *)
Inductive evolves : St -> St -> Prop :=
  | evolves_done s : evolves s s
  | evolves_eval s deps commit input t1 t2 o s' : admissible deps -> scorePatch NS deps commit s input = (t1 ++ t2, o) ->
      evolves (store_after s t1) s' -> evolves s s'.

Lemma event_keeps_attempt s e k a : ds_getAttempt s k = Some a ->
  exists a', ds_getAttempt (store_event s e) k = Some a' /\ ar_seedContext a' = ar_seedContext a /\ ar_minerAddress a' = ar_minerAddress a.
Proof.
  intros Ha. destruct e as [e|k' ctx m|v|k' st o c|r]; cbn [store_event]; [by exists a| |by exists a| |].
  - rewrite attempt_draw. case_decide as E; [|by exists a]. rewrite <- (attempt_key s k k' E), Ha. by exists a.
  - destruct (ds_recordAttemptOutcome s k' st o c) as [s'|] eqn:Ho; [|by exists a]. rewrite (attempt_outcome _ _ _ _ _ _ _ Ho).
    case_decide as E; [|by exists a]. rewrite <- (attempt_key s k k' E), Ha. by exists (upgraded_row a st o c).
  - rewrite attempt_put. by exists a.
Qed.

Lemma store_keeps_attempt t s k a : ds_getAttempt s k = Some a ->
  exists a', ds_getAttempt (store_after s t) k = Some a' /\ ar_seedContext a' = ar_seedContext a /\ ar_minerAddress a' = ar_minerAddress a.
Proof.
  revert s a. induction t as [|e t IH]; intros s a Ha; [by exists a|]. destruct (event_keeps_attempt s e k a Ha) as (a1 & H1 & E1 & E2).
  destruct (IH _ _ H1) as (a2 & H2 & E3 & E4). exists a2. split; [exact H2|]. split; congruence.
Qed.

Lemma evolves_keeps_attempt s s' k a : evolves s s' -> ds_getAttempt s k = Some a ->
  exists a', ds_getAttempt s' k = Some a' /\ ar_seedContext a' = ar_seedContext a /\ ar_minerAddress a' = ar_minerAddress a.
Proof.
  intros H. revert a. induction H as [s|s deps commit input t1 t2 o s' _ _ _ IH]; intros a Ha; [by exists a|].
  destruct (store_keeps_attempt t1 s k a Ha) as (a1 & H1 & E1 & E2). destruct (IH _ H1) as (a2 & H2 & E3 & E4). exists a2. split; [exact H2|]. split; congruence.
Qed.

Lemma event_keeps_record s e k : is_Some (ds_get s k) -> is_Some (ds_get (store_event s e) k).
Proof.
  intros Hr. destruct e as [e|k' ctx m|v|k' st o c|r]; cbn [store_event]; [done| |done| |].
  - by rewrite get_draw.
  - destruct (ds_recordAttemptOutcome s k' st o c) as [s'|] eqn:Ho; [|done]. by rewrite (get_outcome _ _ _ _ _ _ _ Ho).
  - rewrite get_put. by case_decide.
Qed.

Lemma evolves_keeps_record s s' k : evolves s s' -> is_Some (ds_get s k) -> is_Some (ds_get s' k).
Proof.
  induction 1 as [s|s deps commit input t1 t2 o s' _ _ _ IH]; intros Hr; [done|]. apply IH. clear IH.
  unfold store_after. revert s Hr. induction t1 as [|e t1 IH]; intros s Hr; cbn [fold_left]; [done|]. by apply IH, event_keeps_record.
Qed.

Lemma evolves_trans s1 s2 s3 : evolves s1 s2 -> evolves s2 s3 -> evolves s1 s3.
Proof. induction 1; [done|]. intros. econstructor; eauto. Qed.

(** ** The events of one evaluation *)
(** The events after the dual-pack evaluation concern the job's own key. *)
Definition closing (k : CoreTexEvalDedupKey) (e : eval_event) : Prop :=
  match e with
  | Publish _ => True
  | RecordOutcome k' _ _ _ => k' = k
  | PutRecord r => dr_key r = k
  | _ => False
  end.

Lemma record_closing (s : St) k pinned o code : Forall (closing k) (record_outcome s k pinned o code).1.
Proof. unfold record_outcome. destruct pinned; [constructor|]. destruct (ds_recordAttemptOutcome _ _ _ _ _); repeat constructor. Qed.

Lemma evaluate_events deps commit (s : St) input j src offset :
  let run := runPerPatchEvaluation (job_request deps j) (job_deps deps input j src offset) in
  exists post, (evaluate_job NS deps commit s input j src offset).1 = map (eval_event_of (ej_key deps j) (ej_miner j)) run.1 ++ post
  /\ Forall (closing (ej_key deps j)) post.
Proof.
  cbv zeta. unfold evaluate_job. set (run := runPerPatchEvaluation _ _). set (t := map _ run.1). destruct run.2 as [dual|e]; [|exists []; by rewrite app_nil_r].
  destruct (_ && negb (offset_matches _ _)); [exists []; by rewrite app_nil_r|].
  destruct (rc_accepted dual).
  - unfold credit_accepted. destruct (credit_artifact _ _ _ _ _ _ _) as [[[chosen advance] artifact]|e]; [|exists []; by rewrite app_nil_r].
    assert (Hp : Forall (closing (ej_key deps j)) (publish deps artifact).1) by (unfold publish; destruct (publishArtifact deps); repeat constructor).
    destruct (publish deps artifact).2 as [u|e]; [|by eexists].
    destruct (credit_result _ _ _ _ _ _ _ _) as [[o r]|e]; [|by eexists].
    eexists. unfold then_return. cbn [fst]. rewrite <- app_assoc. split; [reflexivity|]. apply Forall_app. split; [done|apply record_closing].
  - unfold then_return. cbn [fst]. eexists. split; [reflexivity|]. destruct (0 <? _); [apply record_closing|constructor].
Qed.

(** What an evaluation that had any event was given. *)
Lemma score_events deps commit s input t o : scorePatch NS deps commit s input = (t, o) -> t <> [] ->
  exists j src, prepare_job deps input = Returns j /\ seed_source deps s input j = inr src
  /\ let offset := default (cd_targetBlockOffset deps) (si_targetBlockOffset input) in
     safe_Z offset /\ 0 < offset /\ evaluate_job NS deps commit s input j src offset = (t, o).
Proof.
  unfold scorePatch. intros H Hne. destruct (prepare_job deps input) as [j|e]; [|congruence]. destruct (seed_source deps s input j) as [r|src] eqn:Es; [congruence|].
  exists j, src. split; [done|]. split; [done|]. cbv zeta in *. destruct (_ || _) eqn:E; [congruence|]. apply orb_false_iff in E as [E1%negb_false_iff%bool_decide_eq_true E2%Z.leb_gt]. by split_and!.
Qed.

Lemma host_event k m e t post : Forall (closing k) post -> Host e ∈ map (eval_event_of k m) t ++ post -> e ∈ t.
Proof.
  intros Hp H. apply elem_of_app in H as [H|H].
  - apply list_elem_of_fmap in H as (e' & E & H). destruct e'; cbn in E; try discriminate E; by injection E as ->.
  - rewrite Forall_forall in Hp. by apply Hp in H.
Qed.

Lemma draw_event k m k' ctx m' t post : Forall (closing k) post -> DrawSeed k' ctx m' ∈ map (eval_event_of k m) t ++ post -> RecordSeed ctx ∈ t.
Proof.
  intros Hp H. apply elem_of_app in H as [H|H].
  - apply list_elem_of_fmap in H as (e' & E & H). destruct e'; cbn in E; try discriminate E. by injection E as _ <- _.
  - rewrite Forall_forall in Hp. by apply Hp in H.
Qed.

(** Without a hook no context is recorded. *)
Lemma no_hook_no_record rq deps ctx : onSeedDerived deps = None -> RecordSeed ctx ∉ (runPerPatchEvaluation rq deps).1.
Proof.
  intros Hh H. assert (F : forall l, forallb (fun e => negb (is_record e)) l = true -> RecordSeed ctx ∉ l).
  { intros l Hl Hin. rewrite forallb_forall in Hl. apply list_elem_of_In, Hl in Hin. done. }
  destruct (record_in_trace rq deps) as [E|(pre & post & E & Hpre & Hpost)]; rewrite E in H; [by apply not_elem_of_nil in H|].
  apply elem_of_app in H as [H|H]; [by eapply F|]. destruct Hpost as [Hpost|(? & ? & ? & _ & _ & [hook Hs] & _)]; [by eapply F|congruence].
Qed.

(** C22. A seed is drawn once: when the store holds an attempt for a patch, then however many evaluations and crashes
    follow, an evaluation of that patch that scores anything is by the miner of the attempt, draws no seed, and scores
    on seeds derived from the context pinned at the first draw. *)
Theorem seed_never_redrawn (s s' : St) (deps : ProductionCoreTexEvaluatorCoreDeps) (commit : string) (input : ScorePatchInput) (j : EvalJob)
    (k : CoreTexEvalDedupKey) (a : CoreTexEvalAttemptRecord) (t : list eval_event) (o : outcome ProductionEvalResult) (w : pack) (seed : string) :
  ds_getAttempt s k = Some a -> evolves s s' -> scorePatch NS deps commit s' input = (t, o) ->
  prepare_job deps input = Returns j -> recordKey (ej_key deps j) = recordKey k -> si_seedContext input = None -> Host (Score w seed) ∈ t ->
  ej_miner j = ar_minerAddress a /\ (forall k' ctx m, DrawSeed k' ctx m ∉ t)
  /\ exists g c, derive_seeds (job_request deps j)
        (job_deps deps input j (Reused (ar_seedContext a)) (default (cd_targetBlockOffset deps) (si_targetBlockOffset input)))
        (computePatchHash (ej_bytes j)) (ar_seedContext a) = Returns (g, c)
     /\ seed = match w with gate => g | confirm => c end.
Proof.
  intros Ha Hev Hsc Hj Hk Hl Hin. destruct (evolves_keeps_attempt _ _ _ _ Hev Ha) as (a' & Ha' & E1 & E2).
  destruct (score_events _ _ _ _ _ _ Hsc) as (j' & src & Hj' & Hsrc & _ & _ & He); [by intros ->; apply not_elem_of_nil in Hin|].
  rewrite Hj in Hj'. apply Returns_inj in Hj' as <-. unfold seed_source in Hsrc. rewrite Hl, (attempt_key s' _ _ Hk), Ha' in Hsrc.
  destruct (ds_get s' _); [done|]. destruct (String.eqb_spec (ar_minerAddress a') (ej_miner j)) as [Em|]; [|done]. cbn [negb] in Hsrc. injection Hsrc as <-. rewrite E1 in *.
  split; [congruence|]. set (offset := default _ _) in *. pose proof (evaluate_events deps commit s' input j (Reused (ar_seedContext a)) offset) as (post & Et & Hp).
  cbv zeta in Et. rewrite He in Et. cbn [fst] in Et. subst t. split.
  - intros k' ctx m H. apply draw_event in H; [|done]. by apply no_hook_no_record in H.
  - apply host_event in Hin; [|done]. apply score_in_trace in Hin as (ctx & g & c & Hd & Hs & E & _). cbn in Hd. subst ctx. exists g, c. split; [exact Hs|]. by destruct w.
Qed.

(** ** Admissions *)
Definition no_draw (e : eval_event) : bool := match e with DrawSeed _ _ _ => false | _ => true end.

Lemma store_event_ok s e : ds_ok s -> ds_ok (store_event s e).
Proof.
  intros H. destruct e as [e|k ctx m|v|k st o c|r]; cbn [store_event]; [done|by apply ok_draw|done| |by apply ok_put].
  destruct (ds_recordAttemptOutcome s k st o c) as [s'|] eqn:E; [|done]. by eapply ok_outcome.
Qed.

Lemma store_ok t s : ds_ok s -> ds_ok (store_after s t).
Proof. revert s. induction t as [|e t IH]; intros s H; [done|]. by apply IH, store_event_ok. Qed.

Lemma no_draw_admissions t s e m : ds_ok s -> forallb no_draw t = true -> ds_minerAdmissions (store_after s t) e m = ds_minerAdmissions s e m.
Proof.
  revert s. induction t as [|ev t IH]; intros s Hs H; [done|]. cbn [forallb] in H. apply andb_true_iff in H as [H1 H2].
  change (store_after s (ev :: t)) with (store_after (store_event s ev) t). rewrite IH; [|by apply store_event_ok|done].
  destruct ev as [h|k ctx m'|v|k st o c|r]; cbn [store_event]; try done; [|by apply admissions_put].
  destruct (ds_recordAttemptOutcome s k st o c) as [s'|] eqn:E; [|done]. by eapply admissions_outcome.
Qed.

Lemma store_after_app s t1 t2 : store_after s (t1 ++ t2) = store_after (store_after s t1) t2.
Proof. apply fold_left_app. Qed.

Lemma forallb_app_l {A} (f : A -> bool) l1 l2 : forallb f (l1 ++ l2) = true -> forallb f l1 = true.
Proof. rewrite forallb_app. by intros [? _]%andb_true_iff. Qed.

(** A prefix of a list with one marked element either stops before it or contains it. *)
Lemma prefix_split {A} (a b t1 t2 : list A) x : t1 ++ t2 = a ++ x :: b -> (exists r, a = t1 ++ r) \/ exists b1 b2, t1 = a ++ x :: b1 /\ b = b1 ++ b2.
Proof.
  revert a. induction t1 as [|y t1 IH]; intros [|z a] E; cbn [app] in E.
  - left. by exists [].
  - left. by exists (z :: a).
  - injection E as -> <-. right. by exists t1, t2.
  - injection E as -> E. destruct (IH a E) as [[r ->]|(b1 & b2 & -> & ->)]; [left; by exists r|right; by exists b1, b2].
Qed.

(** The draws of an evaluation: at most one, by the job's miner, when the store had none of its attempts and the miner
    was below the cap. *)
Lemma score_draws deps commit s input t o : scorePatch NS deps commit s input = (t, o) ->
  forallb no_draw t = true \/ exists j a b ctx, t = a ++ DrawSeed (ej_key deps j) ctx (ej_miner j) :: b /\ forallb no_draw a = true /\ forallb no_draw b = true
    /\ toLowerCase (ej_miner j) = ej_miner j /\ dle (cd_perMinerCap deps) (of_Z (ds_minerAdmissions s (cd_epochId deps) (ej_miner j))) = false.
Proof.
  intros H. destruct (decide (t = [])) as [->|Hne]; [by left|]. destruct (score_events _ _ _ _ _ _ H Hne) as (j & src & Hj & Hsrc & _ & _ & He).
  set (offset := default _ _) in *. destruct (evaluate_events deps commit s input j src offset) as (post & Et & Hp). rewrite He in Et. cbn [fst] in Et. subst t.
  set (f := eval_event_of (ej_key deps j) (ej_miner j)) in *.
  assert (Hf : forall l, forallb (fun e => negb (is_record e)) l = true -> forallb no_draw (map f l) = true).
  { intros l. induction l as [|e l IH]; [done|]. cbn [map forallb]. intros [H1 H2]%andb_true_iff. rewrite IH by done. by destruct e. }
  assert (Hpost : forallb no_draw post = true) by (apply forallb_forall; intros e Hin; rewrite Forall_forall in Hp; apply list_elem_of_In, Hp in Hin; by destruct e).
  destruct (record_in_trace (job_request deps j) (job_deps deps input j src offset)) as [E|(pre & tail & E & Hpre & Htail)]; rewrite E.
  { left. exact Hpost. }
  rewrite map_app, <- app_assoc. destruct Htail as [Htail|(ctx & tail' & dk & -> & Htail & [hook Hh] & _ & Had)].
  { left. by rewrite !forallb_app, Hf, Hf, Hpost. }
  right. exists j, (map f pre), (map f tail' ++ post), ctx. split; [done|]. split; [by apply Hf|]. split; [by rewrite forallb_app, Hf, Hpost|].
  assert (Hl : toLowerCase (ej_miner j) = ej_miner j).
  { unfold prepare_job in Hj. apply bind_Returns in Hj as (? & _ & Hj). apply bind_Returns in Hj as (? & _ & Hj). apply throw_when_Returns in Hj as [_ Hj].
    apply bind_Returns in Hj as (? & _ & Hj). injection Hj as <-. cbn [ej_miner]. apply toLowerCase_idem. }
  split; [done|]. unfold decision in Had. apply admit_inv in Had as (_ & _ & Had & _). cbn [ai_perMinerCap minerAdmissionsThisEpoch job_request job_deps rq_minerAddress minerAdmissions perMinerCap] in Had.
  rewrite Hl in Had. cbn [jsmap_get] in Had. rewrite decide_True in Had by done. cbn [default] in Had.
  assert (Es : src = FreshDraw (ds_minerAdmissions s (cd_epochId deps) (ej_miner j))); [|by rewrite Es in Had].
  unfold seed_source in Hsrc. destruct (si_seedContext input); [injection Hsrc as <-; done|]. destruct (ds_get s _); [done|]. destruct (ds_getAttempt s _).
  - destruct (negb _); [done|]. by injection Hsrc as <-.
  - by injection Hsrc as <-.
Qed.

Lemma cap_bound cap C n : validatePerMinerCap (Some cap) = Returns tt -> math_floor cap = Some C -> 0 <= n <= C -> dle cap (of_Z n) = false -> n < C.
Proof.
  unfold validatePerMinerCap. intros H Hf Hn Hd. apply throw_if_Returns in H. apply orb_false_iff in H as [H _]. apply orb_false_iff in H as [H Hp]. apply negb_false_iff in H.
  destruct (safe_integer_inv _ H) as (z & Hz & Hs & [->|[-> ->]]); [|done]. rewrite Hf in Hz. injection Hz as <-.
  assert (Hsn : safe_Z n) by (unfold safe_Z in *; lia). rewrite dle_of_Z in Hd by (done || lia). lia.
Qed.

(** The per-miner cap holds across crashes and restarts: when every configuration has the same valid cap and no
    miner of any epoch is charged past it, no sequence of evaluations and crashes charges one past it. *)
Theorem admissions_capped (s s' : St) (C : Z) :
  (forall deps, admissible deps -> validatePerMinerCap (Some (cd_perMinerCap deps)) = Returns tt /\ math_floor (cd_perMinerCap deps) = Some C) ->
  ds_ok s -> (forall e m, ds_minerAdmissions s e m <= C) -> evolves s s' -> forall e m, ds_minerAdmissions s' e m <= C.
Proof.
  intros Hadm Hok Hs Hev. induction Hev as [s|s deps commit input t1 t2 o s' Ha Hsc _ IH]; [done|]. apply IH; [by apply store_ok|]. clear IH.
  destruct (Hadm deps Ha) as [Hv HC]. intros e m. destruct (score_draws _ _ _ _ _ _ Hsc) as [Hn|(j & a & b & ctx & E & Hna & Hnb & Hl & Hd)].
  { rewrite no_draw_admissions; [apply Hs|done|by apply forallb_app_l in Hn]. }
  destruct (prefix_split _ _ _ _ _ E) as [[r ->]|(b1 & b2 & -> & ->)].
  { rewrite no_draw_admissions; [apply Hs|done|by apply forallb_app_l in Hna]. }
  apply forallb_app_l in Hnb. rewrite store_after_app. change (store_after ?x (?y :: ?z)) with (store_after (store_event x y) z).
  assert (Hok1 : ds_ok (store_after s a)) by by apply store_ok. rewrite no_draw_admissions by (try done; by apply store_event_ok). cbn [store_event].
  rewrite admissions_draw by done. rewrite (no_draw_admissions a) by done. destruct (ds_getAttempt _ _); [specialize (Hs e m); lia|].
  case_decide as D; [|specialize (Hs e m); lia]. destruct D as [-> D]. cbn [dk_epochId ej_key]. rewrite (admissions_case s _ m (ej_miner j) D).
  pose proof (cap_bound _ C _ Hv HC (conj (admissions_nonneg s _ _) (Hs _ _)) Hd). lia.
Qed.

(** ** Crediting *)
Lemma record_outcome_puts (s : St) k pinned o code u : (record_outcome s k pinned o code).2 = Returns u -> pinned = false ->
  exists r, dr_key r = k /\ PutRecord r ∈ (record_outcome s k pinned o code).1.
Proof.
  unfold record_outcome. intros H ->. destruct (ds_recordAttemptOutcome _ _ _ _ _); [|done]. cbn [fst]. eexists (mkDedupRecord k o (nonempty code)). split; [done|]. set_solver.
Qed.

Lemma credited_puts deps commit s input t r : scorePatch NS deps commit s input = (t, Returns r) -> is_credited r = true -> si_seedContext input = None ->
  exists j rec, prepare_job deps input = Returns j /\ dr_key rec = ej_key deps j /\ PutRecord rec ∈ t.
Proof.
  intros H Hr Hl. unfold scorePatch in H. destruct (prepare_job deps input) as [j|]; [|done]. destruct (seed_source deps s input j) as [r'|src] eqn:Hsrc.
  { exfalso. injection H as _ <-. unfold seed_source in Hsrc. rewrite Hl in Hsrc. destruct (ds_get s _); [by injection Hsrc as <-|].
    destruct (ds_getAttempt s _); [|done]. destruct (negb _); [by injection Hsrc as <-|done]. }
  assert (Hp : is_pinned src = false).
  { unfold seed_source in Hsrc. rewrite Hl in Hsrc. destruct (ds_get s _); [done|]. destruct (ds_getAttempt s _); [destruct (negb _); [done|]|]; by injection Hsrc as <-. }
  exists j. destruct (_ || _); [done|]. unfold evaluate_job in H. destruct (runPerPatchEvaluation _ _) as [t0 [dual|e]]; cbn [fst snd] in H; [|done].
  destruct (_ && negb _); [done|]. destruct (rc_accepted dual).
  - unfold credit_accepted in H. destruct (credit_artifact _ _ _ _ _ _ _) as [[[chosen advance] artifact]|]; [|done]. destruct (publish deps artifact).2; [|done].
    destruct (credit_result _ _ _ _ _ _ _ _) as [[o r']|]; [|done]. unfold then_return in H. destruct (record_outcome _ _ _ _ _).2 as [u|] eqn:Eo; [|done].
    destruct (record_outcome_puts _ _ _ _ _ _ Eo Hp) as (rec & Hk & Hin). exists rec. split; [done|]. split; [done|]. injection H as <- _. set_solver.
  - exfalso. unfold then_return in H. destruct (snd _) in H; [|done]. by injection H as _ <-.
Qed.

Lemma put_in_store t rec s : PutRecord rec ∈ t -> is_Some (ds_get (store_after s t) (dr_key rec)).
Proof.
  revert s. induction t as [|e t IH]; intros s H; [by apply not_elem_of_nil in H|]. change (store_after s (e :: t)) with (store_after (store_event s e) t).
  apply elem_of_cons in H as [<-|H]; [|by apply IH]. assert (G : is_Some (ds_get (store_event s (PutRecord rec)) (dr_key rec))) by (cbn [store_event]; rewrite get_put, decide_True by done; done).
  clear IH. revert G. generalize (store_event s (PutRecord rec)) as s1. induction t as [|e t IH]; intros s1 G; [done|]. by apply IH, event_keeps_record.
Qed.

(** An outcome is final: once an evaluation was credited, or recorded a rejection, every later submission of the
    same patch on the same parent in the same epoch, by anyone and after any evaluations and crashes, is refused as a
    duplicate without drawing, scoring or writing anything. *)
Theorem credited_once (s s' : St) (deps deps' : ProductionCoreTexEvaluatorCoreDeps) (commit commit' : string) (input input' : ScorePatchInput) (j j' : EvalJob)
    (t : list eval_event) (r : ProductionEvalResult) :
  scorePatch NS deps commit s input = (t, Returns r) -> prepare_job deps input = Returns j -> si_seedContext input = None ->
  is_credited r = true \/ (exists rec, dr_key rec = ej_key deps j /\ PutRecord rec ∈ t) ->
  evolves (store_after s t) s' -> prepare_job deps' input' = Returns j' -> si_seedContext input' = None -> recordKey (ej_key deps' j') = recordKey (ej_key deps j) ->
  scorePatch NS deps' commit' s' input' = ([], Returns (ProdReject "duplicate_submission" None)).
Proof.
  intros H Hj Hl Hr Hev Hj' Hl' Hk.
  assert (G : exists rec, dr_key rec = ej_key deps j /\ PutRecord rec ∈ t).
  { destruct Hr as [Hr|Hr]; [|done]. destruct (credited_puts _ _ _ _ _ _ H Hr Hl) as (j1 & rec & Hj1 & E & Hin). rewrite Hj in Hj1. apply Returns_inj in Hj1 as <-. by exists rec. }
  destruct G as (rec & E & Hin). apply (put_in_store t rec s), (evolves_keeps_record _ _ _ Hev) in Hin. rewrite E, <- (get_key s' _ _ Hk) in Hin. destruct Hin as [x Hx].
  unfold scorePatch, seed_source. by rewrite Hj', Hl', Hx.
Qed.
End Evolution.

(** ** What a credited result has passed *)
Definition credited_parts (r : ProductionEvalResult) : option (AcceptedEval * option (number * number * string)) :=
  match r with
  | ProdReject _ _ => None
  | ProdScreenerPass a => Some (a, None)
  | ProdStateAdvance a b e w => Some (a, Some (b, e, w))
  end.

Section Credited.
Context {HK : Hasher} (NS : number -> string) {St : Type} `{!CoreTexEvalDedupStore St}.

(** The run behind a credited result. *)
Lemma credited_inv deps commit (s : St) input t r a adv : scorePatch NS deps commit s input = (t, Returns r) -> credited_parts r = Some (a, adv) ->
  exists j src tr dual chosen advance artifact o,
  let offset := default (cd_targetBlockOffset deps) (si_targetBlockOffset input) in
  prepare_job deps input = Returns j /\ seed_source deps s input j = inr src /\ safe_Z offset /\ 0 < offset
  /\ runPerPatchEvaluation (job_request deps j) (job_deps deps input j src offset) = (tr, Returns dual) /\ rc_accepted dual = true
  /\ (0 < receivedAtBlock (rc_context dual) -> offset_matches (rc_context dual) offset = true)
  /\ credit_artifact NS deps commit j offset tr dual = Returns (chosen, advance, artifact)
  /\ credit_result deps commit j offset dual chosen advance artifact = Returns (o, r)
  /\ t = (map (eval_event_of (ej_key deps j) (ej_miner j)) tr ++ (publish deps artifact).1)
         ++ (record_outcome (store_after s (map (eval_event_of (ej_key deps j) (ej_miner j)) tr ++ (publish deps artifact).1)) (ej_key deps j) (is_pinned src) o None).1.
Proof.
  intros H Hr. unfold scorePatch in H. destruct (prepare_job deps input) as [j|] eqn:Ej; [|done]. destruct (seed_source deps s input j) as [r'|src] eqn:Hsrc.
  { exfalso. injection H as _ <-. unfold seed_source in Hsrc. destruct (si_seedContext input); [done|]. destruct (ds_get s _); [by injection Hsrc as <-|].
    destruct (ds_getAttempt s _); [|done]. destruct (negb _); [by injection Hsrc as <-|done]. }
  set (offset := default _ _) in *. destruct (_ || _) eqn:Eo; [done|]. apply orb_false_iff in Eo as [E1%negb_false_iff%bool_decide_eq_true E2%Z.leb_gt].
  unfold evaluate_job in H. destruct (runPerPatchEvaluation _ _) as [tr [dual|e]] eqn:Erun; cbn [fst snd] in H; [|done].
  destruct (_ && negb _) eqn:Ew; [done|]. destruct (rc_accepted dual) eqn:Eacc.
  2: { exfalso. unfold then_return in H. destruct (snd _) in H; [|done]. injection H as _ <-. done. }
  unfold credit_accepted in H. destruct (credit_artifact _ _ _ _ _ _ _) as [[[chosen advance] artifact]|] eqn:Ec; [|done]. destruct (publish deps artifact).2; [|done].
  destruct (credit_result _ _ _ _ _ _ _ _) as [[o r']|] eqn:Er; [|done]. unfold then_return in H. destruct (record_outcome _ _ _ _ _).2 as [u'|] eqn:Eout; [|done].
  injection H as <- <-. exists j, src, tr, dual, chosen, advance, artifact, o. split_and!; try done.
  intros Hpos. apply Z.ltb_lt in Hpos. rewrite Hpos in Ew. cbn [andb] in Ew. by apply negb_false_iff.
Qed.

(** Both packs of the receipt of a credited result, as the scorer gave them. *)
Lemma credited_packs deps input j src offset tr dual :
  runPerPatchEvaluation (job_request deps j) (job_deps deps input j src offset) = (tr, Returns dual) -> rc_accepted dual = true ->
  drawn (job_deps deps input j src offset) (rc_context dual)
  /\ derive_seeds (job_request deps j) (job_deps deps input j src offset) (computePatchHash (ej_bytes j)) (rc_context dual) = Returns (gateSeed dual, confirmSeed dual)
  /\ rc_patchHash dual = computePatchHash (ej_bytes j) /\ computeDedupKey (ej_root j) (ej_bytes j) = Returns (rc_dedupKey dual)
  /\ rc_parentRoot dual = ej_root j /\ rc_minerAddress dual = toLowerCase (ej_miner j) /\ ADDR_RE (rc_minerAddress dual) = true /\ rc_epochId dual = cd_epochId deps
  /\ exists g c, seedScorer deps (ej_parent j) (ej_bytes j) (gateSeed dual) (ej_threshold j) = Returns g
     /\ seedScorer deps (ej_parent j) (ej_bytes j) (confirmSeed dual) (ej_threshold j) = Returns c
     /\ gateScorePpm dual = deltaPpm g /\ confirmScorePpm dual = deltaPpm c
     /\ Forall (fun p => dle (ej_threshold j) (deltaPpm p) = true /\ accepted p = true) [g; c]
     /\ exists ctx_events, tr = ctx_events ++ [Score gate (gateSeed dual); Score confirm (confirmSeed dual)] /\ forallb (fun e => negb (is_score e)) ctx_events = true.
Proof.
  intros H Hacc. destruct (run_cases _ _ _ _ H) as (dk & Hdk & Hcase). cbn [job_request rq_parentRoot normalizedPatchBytes rq_minerAddress rq_epochId job_deps dedupCache jsmap_get] in Hdk, Hcase.
  destruct (decision _ _ dk) eqn:Hd; [|destruct Hcase as [_ ->]; done].
  destruct (run_scored _ _ _ _ _ H Hdk eq_refl Hd) as (ctx & g & <- & Hdr & Hs & Hg & Eg & Ep & Ek & Epr & Em & Ee & Hpass).
  destruct (pack_pass _ g) eqn:Pg; [|destruct Hpass as [E _]; congruence]. destruct Hpass as (c & Hsc & Ec & Ea & _ & Et). rewrite Hacc in Ea. symmetry in Ea.
  cbn [job_request job_deps rq_parentRoot normalizedPatchBytes rq_minerAddress rq_epochId scorer thresholdPpm] in *.
  unfold job_scorer in Hg, Hsc. apply bind_Returns in Hg as (g' & Hg & [= <-]), Hsc as (c' & Hsc & [= <-]). cbn [score_result scorePpm] in Eg, Ec.
  split; [done|]. split; [done|]. split; [done|]. split; [by rewrite Ek|]. split; [done|]. split; [done|].
  unfold decision in Hd. apply admit_inv in Hd as (Ha & _). cbn [ai_minerAddress job_request rq_minerAddress] in Ha. split; [by rewrite Em|]. split; [done|].
  exists g', c'. split; [done|]. split; [done|]. split; [done|]. split; [done|]. apply andb_true_iff in Pg, Ea. split; [constructor; [done|]; constructor; [done|constructor]|].
  eexists. split; [exact Et|]. unfold draw_trace. cbn [seedContext onSeedDerived]. by destruct src.
Qed.

(** What a credited evaluation returned, and what it was computed from. *)
Lemma credited_output deps commit (s : St) input t r a adv : scorePatch NS deps commit s input = (t, Returns r) -> credited_parts r = Some (a, adv) ->
  exists j src tr dual chosen,
  let offset := default (cd_targetBlockOffset deps) (si_targetBlockOffset input) in
  let advance := dle (stateThresholdPpm deps) (math_min (gateScorePpm dual) (confirmScorePpm dual)) && accepted chosen in
  prepare_job deps input = Returns j /\ seed_source deps s input j = inr src /\ safe_Z offset /\ 0 < offset
  /\ runPerPatchEvaluation (job_request deps j) (job_deps deps input j src offset) = (tr, Returns dual) /\ rc_accepted dual = true
  /\ (0 < receivedAtBlock (rc_context dual) -> offset_matches (rc_context dual) offset = true)
  /\ (forall e, e ∈ tr -> eval_event_of (ej_key deps j) (ej_miner j) e ∈ t)
  /\ chooseStateAdvanceScore dual (per_seed deps j tr) = Returns chosen
  /\ buildPostRevealEvalReportArtifact NS (artifact_literal deps j dual offset advance commit) = Returns (ae_artifact a)
  /\ dualPackProofFromPerPatchReceipt dual (cd_corpusRoot deps) (cd_bundleHash deps) commit offset = Returns (ae_proof a)
  /\ ae_delta a = math_min (gateScorePpm dual) (confirmScorePpm dual) /\ ae_hash a = str (prop (ae_artifact a) "artifactHash")
  /\ match adv with
     | None => True
     | Some (b, e, w) => advance = true /\ b = ppm (composite (before chosen)) /\ e = dadd b (ae_delta a) /\ is_integer (ae_delta a) = true
       /\ exists bs, encodePatch (with_scoreDelta (ej_patch j) (int (JNumber (ae_delta a)))) = Returns bs /\ w = bytesToHex bs
     end.
Proof.
  intros H Hr. destruct (credited_inv _ _ _ _ _ _ _ _ H Hr) as (j & src & tr & dual & chosen & advance & A & o & Hj & Hsrc & H1 & H2 & Hrun & Hacc & Hoff & Hart & Hres & ->).
  exists j, src, tr, dual, chosen. cbv zeta. unfold credit_artifact in Hart. apply bind_Returns in Hart as (ch & Hch & Hart). apply bind_Returns in Hart as (A' & HA & Hart). apply Returns_inj in Hart. injection Hart as -> <- ->.
  unfold credit_result in Hres. apply bind_Returns in Hres as (proof & Hproof & Hres).
  assert (Ht : forall e, e ∈ tr -> eval_event_of (ej_key deps j) (ej_miner j) e ∈ (map (eval_event_of (ej_key deps j) (ej_miner j)) tr ++ (publish deps A).1)
    ++ (record_outcome (store_after s (map (eval_event_of (ej_key deps j) (ej_miner j)) tr ++ (publish deps A).1)) (ej_key deps j) (is_pinned src) o None).1).
  { intros e He. apply elem_of_app. left. apply elem_of_app. left. by apply list_elem_of_fmap_2. }
  destruct (dle (stateThresholdPpm deps) _ && accepted chosen) eqn:Ead.
  - apply throw_when_Returns in Hres as [Hint%negb_false_iff Hres]. apply bind_Returns in Hres as (bs & Hbs & [= _ <-]). cbn [credited_parts] in Hr. injection Hr as <- <-.
    cbn [ae_artifact ae_proof ae_delta ae_hash]. split_and!; try done. by exists bs.
  - injection Hres as _ <-. cbn [credited_parts] in Hr. injection Hr as <- <-. cbn [ae_artifact ae_proof ae_delta ae_hash]. split_and!; done.
Qed.

(** The deciding score is one of the two. *)
Lemma chosen_scored deps j dual pre g c ch :
  seedScorer deps (ej_parent j) (ej_bytes j) (gateSeed dual) (ej_threshold j) = Returns g -> seedScorer deps (ej_parent j) (ej_bytes j) (confirmSeed dual) (ej_threshold j) = Returns c ->
  chooseStateAdvanceScore dual (per_seed deps j (pre ++ [Score gate (gateSeed dual); Score confirm (confirmSeed dual)])) = Returns ch -> ch = g \/ ch = c.
Proof.
  intros Hg Hc. unfold chooseStateAdvanceScore, per_seed. rewrite fold_left_app. cbn [fold_left]. rewrite Hg, Hc. cbv zeta. rewrite !jsmap_get_set.
  destruct (dle (gateScorePpm dual) (confirmScorePpm dual)); [|rewrite decide_True by done; intros [= <-]; by right].
  destruct (decide (toLowerCase (gateSeed dual) = toLowerCase (confirmSeed dual))); [intros [= <-]; by right|]. rewrite decide_True by done. intros [= <-]. by left.
Qed.

(** C25. What a credited result has passed: it comes from an accepted dual-pack evaluation, both packs were scored on
    the job and accepted at the job's threshold, the credited delta is the lower of the two, its hash is the hash of its
    artifact; a state advance reached the state threshold, its deciding pack was accepted, and its rewritten bytes decode
    to the submitted patch with that delta. *)
Theorem scorePatch_sound (deps : ProductionCoreTexEvaluatorCoreDeps) (commit : string) (s : St) (input : ScorePatchInput) (t : list eval_event)
    (r : ProductionEvalResult) (a : AcceptedEval) (adv : option (number * number * string)) :
  scorePatch NS deps commit s input = (t, Returns r) -> credited_parts r = Some (a, adv) ->
  exists j (tr : list effect) dual g c, prepare_job deps input = Returns j
  /\ rc_accepted dual = true /\ Score gate (gateSeed dual) ∈ tr /\ Score confirm (confirmSeed dual) ∈ tr
  /\ (forall e, e ∈ tr -> eval_event_of (ej_key deps j) (ej_miner j) e ∈ t)
  /\ seedScorer deps (ej_parent j) (ej_bytes j) (gateSeed dual) (ej_threshold j) = Returns g
  /\ seedScorer deps (ej_parent j) (ej_bytes j) (confirmSeed dual) (ej_threshold j) = Returns c
  /\ Forall (fun p => dle (ej_threshold j) (deltaPpm p) = true /\ accepted p = true) [g; c]
  /\ ae_delta a = math_min (deltaPpm g) (deltaPpm c)
  /\ hashPostRevealEvalReportArtifact NS (ae_artifact a) = Returns (ae_hash a)
  /\ prop (ae_artifact a) "receipt" = receipt_value dual
  /\ match adv with
     | None => True
     | Some (b, e, w) => dle (stateThresholdPpm deps) (ae_delta a) = true /\ (b = ppm (composite (before g)) \/ b = ppm (composite (before c))) /\ e = dadd b (ae_delta a)
       /\ exists bs d, math_floor (ae_delta a) = Some d /\ w = bytesToHex bs /\ encodePatch (with_scoreDelta (ej_patch j) d) = Returns bs
     end.
Proof.
  intros H Hr. destruct (credited_output _ _ _ _ _ _ _ _ H Hr) as (j & src & tr & dual & chosen & Hj & _ & _ & _ & Hrun & Hacc & _ & Hev & Hch & Hb & _ & Ed & Eh & Hadv).
  destruct (credited_packs _ _ _ _ _ _ _ Hrun Hacc) as (_ & _ & _ & _ & _ & _ & _ & _ & g & c & Hg & Hc & Eg & Ec & Hp & pre & -> & _).
  exists j, (pre ++ [Score gate (gateSeed dual); Score confirm (confirmSeed dual)]), dual, g, c. do 2 (split; [done|]). do 2 (split; [set_solver|]). do 4 (split; [done|]).
  split; [congruence|]. unfold buildPostRevealEvalReportArtifact in Hb. apply bind_Returns in Hb as (h & Hh & Hb). apply Returns_inj in Hb.
  split. { rewrite Eh. by rewrite <- Hb. } split. { by rewrite <- Hb. }
  destruct adv as [[[b e] w]|]; [|done]. destruct Hadv as (Ead & -> & -> & Hint & bs & Hbs & ->). apply andb_true_iff in Ead as [Ead _]. split; [congruence|].
  split. { destruct (chosen_scored _ _ _ _ _ _ _ Hg Hc Hch) as [->| ->]; auto. } split; [done|].
  unfold is_integer in Hint. unfold int in Hbs. cbn [num] in Hbs. destruct (math_floor _) as [d|] eqn:Efl; [|done]. cbn [default] in Hbs. by exists bs, d.
Qed.
End Credited.

(** ** Witnesses *)
Definition composite_w : CompositeScore := mkComposite (ddiv (of_Z 1) (of_Z 2)) (of_Z 0) (of_Z 0) (of_Z 0) (of_Z 0) (of_Z 0) (of_Z 0) (of_Z 0) (of_Z 1) [].
Definition scorer_w : CortexState -> bytes -> string -> number -> outcome PatchEvalResult := fun _ _ _ _ => Returns (mkEval true None composite_w composite_w (of_Z 5000) []).
Definition evaluator_w : ProductionCoreTexEvaluatorCoreDeps :=
  mkCoreDeps 12 (Some (hex64 "a")) None (hex64 "3") (hex64 "4") (of_Z 4000) (of_Z 2500) (of_Z 10) 15 (of_Z 1) rpc_w (fun _ => Returns zero_state) scorer_w (Some (fun _ => Returns tt)).
Definition miner_w (c : ascii) : string := ("0x" +:+ String.string_of_list_ascii (replicate 40 c))%string.
Definition patch_hex_w : string := match encodePatch patch_w with Returns bs => bytesToHex bs | Throws _ => "" end.
Definition submit_w (c : ascii) : ScorePatchInput := mkScoreInput patch_hex_w (hex64 "C") (miner_w c) None None None None None.
Definition commit_w : string := bytesToHex (zeros 32).
Definition empty_w : MemoryStore := createInMemoryDedupStore.
Definition ran_w : prog_of ProductionEvalResult := scorePatch (HK:=const_hasher) int_printer evaluator_w commit_w empty_w (submit_w "a").
Definition trace_of_w : list eval_event := Eval vm_compute in (scorePatch (HK:=const_hasher) int_printer evaluator_w commit_w empty_w (submit_w "a")).1.
Definition job_w : EvalJob := match prepare_job (HK:=const_hasher) evaluator_w (submit_w "a") with Returns j => j | Throws _ => mkEvalJob [] patch_w "" "" (of_Z 0) "" zero_state end.

Lemma ran_w_trace : exists r, scorePatch (HK:=const_hasher) int_printer evaluator_w commit_w empty_w (submit_w "a") = (trace_of_w, Returns r) /\ is_credited r = true.
Proof. eexists. split; vm_compute; reflexivity. Qed.

Definition context_w : PerPatchSeedContext := mkSeedContext 100 115 (hex64 "1").
(** The store a crash right after the first score leaves: the seed is pinned, nothing else. *)
Definition crashed_w : MemoryStore := Eval vm_compute in store_after empty_w (take 4 trace_of_w).
Definition rerun_w : list eval_event := Eval vm_compute in (scorePatch (HK:=const_hasher) int_printer evaluator_w commit_w crashed_w (submit_w "a")).1.
Definition rerun_outcome_w : outcome ProductionEvalResult := (scorePatch (HK:=const_hasher) int_printer evaluator_w commit_w crashed_w (submit_w "a")).2.

Lemma seed_never_redrawn_witness : exists g c, ej_miner job_w = miner_w "a" /\ (forall k' ctx m, DrawSeed k' ctx m ∉ rerun_w) /\ bytesToHex (zeros 32) = g
  /\ derive_seeds (HK:=const_hasher) (job_request evaluator_w job_w) (job_deps evaluator_w (submit_w "a") job_w (Reused context_w) 15) (computePatchHash (HK:=const_hasher) (ej_bytes job_w)) context_w = Returns (g, c).
Proof.
  assert (H : scorePatch (HK:=const_hasher) int_printer evaluator_w commit_w crashed_w (submit_w "a") = (rerun_w, rerun_outcome_w)) by (vm_compute; reflexivity).
  destruct (seed_never_redrawn (HK:=const_hasher) int_printer mem_ok (fun _ => True) crashed_w crashed_w evaluator_w commit_w (submit_w "a") job_w (ej_key evaluator_w job_w)
    (drawn_row (ej_key evaluator_w job_w) context_w (miner_w "a")) rerun_w rerun_outcome_w gate (bytesToHex (zeros 32))) as (H1 & H2 & g & c & H3 & H4).
  - vm_compute. reflexivity.
  - apply evolves_done.
  - exact H.
  - vm_compute. reflexivity.
  - reflexivity.
  - reflexivity.
  - vm_compute. repeat constructor.
  - exists g, c. split; [exact H1|]. split; [exact H2|]. split; [exact H4|exact H3].
Defined.

Lemma admissions_capped_witness : ds_minerAdmissions (store_after empty_w (take 4 trace_of_w)) 12 (miner_w "a") <= 1.
Proof.
  apply (admissions_capped (HK:=const_hasher) int_printer mem_ok (fun deps => deps = evaluator_w) empty_w (store_after empty_w (take 4 trace_of_w)) 1).
  - intros deps ->. split; vm_compute; reflexivity.
  - apply NoDup_nil_2.
  - intros e m. vm_compute. discriminate.
  - destruct ran_w_trace as (r & H & _). rewrite <- (take_drop 4 trace_of_w) in H at 1.
    eapply (evolves_eval int_printer (fun deps => deps = evaluator_w)); [reflexivity|exact H|apply evolves_done].
Defined.

(** Another miner submits the credited patch. *)
Lemma credited_once_witness : scorePatch (HK:=const_hasher) int_printer evaluator_w commit_w (store_after empty_w trace_of_w) (submit_w "b") = ([], Returns (ProdReject "duplicate_submission" None)).
Proof.
  destruct ran_w_trace as (r & H & Hr).
  apply (credited_once (HK:=const_hasher) int_printer mem_ok (fun _ => True) empty_w _ evaluator_w evaluator_w commit_w commit_w (submit_w "a") (submit_w "b") job_w
    (mkEvalJob (ej_bytes job_w) (ej_patch job_w) (ej_root job_w) (ej_patchHash job_w) (ej_threshold job_w) (miner_w "b") (ej_parent job_w)) trace_of_w r H);
    first [left; exact Hr | apply evolves_done | vm_compute; reflexivity].
Defined.

Lemma scorePatch_sound_witness : exists a b e w j (tr : list effect) dual, scorePatch (HK:=const_hasher) int_printer evaluator_w commit_w empty_w (submit_w "a") = (trace_of_w, Returns (ProdStateAdvance a b e w))
  /\ prepare_job (HK:=const_hasher) evaluator_w (submit_w "a") = Returns j /\ rc_accepted dual = true /\ Score gate (gateSeed dual) ∈ tr /\ e = dadd b (ae_delta a).
Proof.
  assert (H : exists a b e w, scorePatch (HK:=const_hasher) int_printer evaluator_w commit_w empty_w (submit_w "a") = (trace_of_w, Returns (ProdStateAdvance a b e w))) by (do 4 eexists; vm_compute; reflexivity).
  destruct H as (a & b & e & w & H). exists a, b, e, w.
  destruct (scorePatch_sound (HK:=const_hasher) int_printer evaluator_w commit_w empty_w (submit_w "a") trace_of_w _ a (Some (b, e, w)) H eq_refl)
    as (j & tr & dual & _ & _ & Hj & Hacc & Hin & _ & _ & _ & _ & _ & _ & _ & _ & _ & _ & He & _). exists j, tr, dual. split_and!; done.
Defined.
