(* ===== verification/Eligibility.v ===== *)
(** * Eligibility ledger (packages/coretex/src/reducer/eligibility.ts)

    The epoch's credit ledger, deduplicated by (epoch, miner, patch hash)
    case-insensitively. Theorems: no triple is credited twice, every
    screener pass is credited, every accrual belongs to a credited triple,
    at most once, and no event is lost. *)
From stdpp Require Import pretty.
From S2P Require Import Prelude.
#[local] Open Scope Z_scope.

(** [ScreenerPassedEvent] and [PatchMergedEvent] have the same fields. *)
Record Event := mkEvent { ev_epoch : Z; ev_miner : string; ev_patchHash : string }.

Record CreditIssuance := mkIssuance { ci_epoch : Z; ci_miner : string; ci_patchHash : string; tierCredits : Z }.
Record MultiplierAccrual := mkAccrual { ma_epoch : Z; ma_miner : string; ma_patchHash : string }.
Inductive EventKind := screener | merger.
Record Duplicate := mkDuplicate { dup_event : EventKind; dup_of : Event }.

Record EpochEligibility := mkEligibility {
  creditIssuances : list CreditIssuance;
  multiplierAccruals : list MultiplierAccrual;
  duplicatesSkipped : list Duplicate
}.

(** [`${epoch.toString()}:${miner.toLowerCase()}:${patchHash.toLowerCase()}`] *)
Definition eligibilityKey (epoch : Z) (miner patchHash : string) : string :=
  (pretty epoch +:+ ":" +:+ toLowerCase miner +:+ ":" +:+ toLowerCase patchHash)%string.

Definition ev_key (ev : Event) : string := eligibilityKey (ev_epoch ev) (ev_miner ev) (ev_patchHash ev).

(** The screener loop, with [seenScreener]. *)
Fixpoint screener_loop (tierCreditsFor : string -> Z) (evs : list Event) (seen : list string)
    (issued : list CreditIssuance) (dups : list Duplicate) : list string * list CreditIssuance * list Duplicate :=
  match evs with
  | [] => (seen, issued, dups)
  | ev :: evs' =>
    let key := ev_key ev in
    if bool_decide (key ∈ seen) then screener_loop tierCreditsFor evs' seen issued (dups ++ [mkDuplicate screener ev])
    else screener_loop tierCreditsFor evs' (jsset_add key seen)
           (issued ++ [mkIssuance (ev_epoch ev) (ev_miner ev) (ev_patchHash ev) (tierCreditsFor (ev_miner ev))]) dups
  end.

Fixpoint merger_loop (seenScreener : list string) (evs : list Event) (seen : list string)
    (accruals : list MultiplierAccrual) (dups : list Duplicate) : list MultiplierAccrual * list Duplicate :=
  match evs with
  | [] => (accruals, dups)
  | ev :: evs' =>
    let key := ev_key ev in
    if negb (bool_decide (key ∈ seenScreener)) then merger_loop seenScreener evs' seen accruals (dups ++ [mkDuplicate merger ev])
    else if bool_decide (key ∈ seen) then merger_loop seenScreener evs' seen accruals (dups ++ [mkDuplicate merger ev])
    else merger_loop seenScreener evs' (jsset_add key seen)
           (accruals ++ [mkAccrual (ev_epoch ev) (ev_miner ev) (ev_patchHash ev)]) dups
  end.

Definition buildEpochEligibility (screenerEvents mergedEvents : list Event) (tierCreditsFor : string -> Z) : EpochEligibility :=
  let '(seenScreener, issued, dups) := screener_loop tierCreditsFor screenerEvents [] [] [] in
  let '(accruals, dups) := merger_loop seenScreener mergedEvents [] [] dups in
  mkEligibility issued accruals dups.

Definition minerScreenerCredits (eligibility : EpochEligibility) (miner : string) : Z :=
  let m := toLowerCase miner in
  fold_left (fun total ci => if String.eqb (toLowerCase (ci_miner ci)) m then total + tierCredits ci else total)
    (creditIssuances eligibility) 0.

Definition minerHasMerge (eligibility : EpochEligibility) (miner : string) : bool :=
  let m := toLowerCase miner in
  existsb (fun a => String.eqb (toLowerCase (ma_miner a)) m) (multiplierAccruals eligibility).

(** ** Facts *)
Definition ci_key (c : CreditIssuance) : string := eligibilityKey (ci_epoch c) (ci_miner c) (ci_patchHash c).
Definition ma_key (a : MultiplierAccrual) : string := eligibilityKey (ma_epoch a) (ma_miner a) (ma_patchHash a).

Lemma screener_loop_spec f evs seen issued dups seen' issued' dups' :
  screener_loop f evs seen issued dups = (seen', issued', dups') ->
  map ci_key issued ≡ₚ seen -> NoDup seen -> Forall (fun c => tierCredits c = f (ci_miner c)) issued ->
  map ci_key issued' ≡ₚ seen' /\ NoDup seen' /\ Forall (fun c => tierCredits c = f (ci_miner c)) issued'
  /\ (forall k, k ∈ seen' <-> k ∈ seen \/ exists ev, ev ∈ evs /\ ev_key ev = k)
  /\ (length issued' + length dups' = length issued + length dups + length evs)%nat.
Proof.
  revert seen issued dups. induction evs as [|ev evs IH]; intros seen issued dups H Hp Hnd Hf; cbn [screener_loop] in H.
  { injection H as <- <- <-. split; [done|]. split; [done|]. split; [done|]. split; [|cbn; lia].
    intros k. split; [by left|]. intros [?|(ev & Hin & _)]; [done|]. by apply not_elem_of_nil in Hin. }
  case_bool_decide as Hin.
  - apply IH in H as (H1 & H2 & H3 & H4 & H5); [|done..]. split; [done|]. split; [done|]. split; [done|].
    split; [|rewrite length_app in H5; cbn in *; lia].
    intros k. rewrite H4. split.
    + intros [?|(e & He & Hk)]; [by left|]. right. exists e. split; [by apply list_elem_of_further|done].
    + intros [?|(e & [->|He]%elem_of_cons & Hk)]; [by left|left; by subst k|right; by exists e].
  - apply IH in H as (H1 & H2 & H3 & H4 & H5).
    + split; [done|]. split; [done|]. split; [done|]. split; [|rewrite length_app in H5; cbn in *; lia].
      intros k. rewrite H4, elem_of_jsset_add. split.
      * intros [[->|?]|(e & He & Hk)]; [right; exists ev; split; [apply list_elem_of_here|done]|by left|].
        right. exists e. split; [by apply list_elem_of_further|done].
      * intros [?|(e & [->|He]%elem_of_cons & Hk)]; [by left; right|left; left; by subst k|right; by exists e].
    + unfold jsset_add. rewrite decide_False by done. rewrite map_app, Hp. done.
    + by apply jsset_add_NoDup.
    + apply Forall_app. split; [done|]. by repeat constructor.
Qed.

Lemma merger_loop_spec ss evs seen acc dups acc' dups' :
  merger_loop ss evs seen acc dups = (acc', dups') ->
  map ma_key acc ≡ₚ seen -> NoDup seen -> (forall k, k ∈ seen -> k ∈ ss) ->
  NoDup (map ma_key acc') /\ (forall k, k ∈ map ma_key acc' -> k ∈ ss)
  /\ (forall ev, ev ∈ evs -> ev_key ev ∈ ss -> ev_key ev ∈ map ma_key acc')
  /\ (forall k, k ∈ seen -> k ∈ map ma_key acc')
  /\ (length acc' + length dups' = length acc + length dups + length evs)%nat.
Proof.
  revert seen acc dups. induction evs as [|ev evs IH]; intros seen acc dups H Hp Hnd Hs; cbn [merger_loop] in H.
  { injection H as <- <-. split; [by rewrite Hp|]. split; [intros k; rewrite Hp; apply Hs|].
    split; [intros ev Hin; by apply not_elem_of_nil in Hin|]. split; [intros k; by rewrite Hp|cbn; lia]. }
  case_bool_decide as Hss; cbn [negb] in H.
  - case_bool_decide as Hseen.
    + apply IH in H as (H1 & H2 & H3 & H4 & H5); [|done..]. split; [done|]. split; [done|].
      split; [|split; [done|rewrite length_app in H5; cbn in *; lia]].
      intros e [->|He]%elem_of_cons Hk; [by apply H4|by apply H3].
    + apply IH in H as (H1 & H2 & H3 & H4 & H5).
      * split; [done|]. split; [done|]. split; [|split; [intros k Hk; apply H4, elem_of_jsset_add; by right|rewrite length_app in H5; cbn in *; lia]].
        intros e [->|He]%elem_of_cons Hk; [apply H4, elem_of_jsset_add; by left|by apply H3].
      * unfold jsset_add. rewrite decide_False by done. rewrite map_app, Hp. done.
      * by apply jsset_add_NoDup.
      * intros k [->|Hk]%elem_of_jsset_add; [done|by apply Hs].
  - apply IH in H as (H1 & H2 & H3 & H4 & H5); [|done..]. split; [done|]. split; [done|].
    split; [|split; [done|rewrite length_app in H5; cbn in *; lia]].
    intros e [->|He]%elem_of_cons Hk; [done|by apply H3].
Qed.

(** The no-double-credit invariant: issuances (and accruals) have distinct
    keys, every screener pass has an issuance with its key, every accrual's
    key was credited, every merge of a credited key accrued, the credited
    amount is the miner's tier, and issued, accrued and skipped events add up. *)
Theorem eligibility_no_double_credit (screeners mergers : list Event) (tier : string -> Z) :
  let e := buildEpochEligibility screeners mergers tier in
  NoDup (map ci_key (creditIssuances e))
  /\ (forall k, k ∈ map ci_key (creditIssuances e) <-> exists ev, ev ∈ screeners /\ ev_key ev = k)
  /\ Forall (fun c => tierCredits c = tier (ci_miner c)) (creditIssuances e)
  /\ NoDup (map ma_key (multiplierAccruals e))
  /\ (forall k, k ∈ map ma_key (multiplierAccruals e) -> k ∈ map ci_key (creditIssuances e))
  /\ (forall ev, ev ∈ mergers -> ev_key ev ∈ map ci_key (creditIssuances e) -> ev_key ev ∈ map ma_key (multiplierAccruals e))
  /\ (length (creditIssuances e) + length (multiplierAccruals e) + length (duplicatesSkipped e)
      = length screeners + length mergers)%nat.
Proof.
  intros e. subst e. unfold buildEpochEligibility.
  destruct (screener_loop tier screeners [] [] []) as [[seen issued] dups] eqn:E1.
  destruct (merger_loop seen mergers [] [] dups) as [acc dups'] eqn:E2. cbn [creditIssuances multiplierAccruals duplicatesSkipped].
  apply screener_loop_spec in E1 as (H1 & H2 & H3 & H4 & H5); [|done|constructor|constructor].
  apply merger_loop_spec in E2 as (M1 & M2 & M3 & _ & M5); [|done|constructor|by intros k Hk%not_elem_of_nil].
  split; [by rewrite H1|]. split; [intros k; rewrite H1, H4; split; [intros [Hk|?]; [by apply not_elem_of_nil in Hk|done]|by right]|].
  split; [done|]. split; [done|]. split; [intros k; rewrite H1; apply M2|]. split; [intros ev; rewrite H1; apply M3|].
  cbn in H5, M5. lia.
Qed.

(** Equal triples (case-insensitively) have equal keys, so distinct keys
    credit distinct triples. *)
Lemma ev_key_case e1 e2 : ev_epoch e1 = ev_epoch e2 -> toLowerCase (ev_miner e1) = toLowerCase (ev_miner e2) ->
  toLowerCase (ev_patchHash e1) = toLowerCase (ev_patchHash e2) -> ev_key e1 = ev_key e2.
Proof. intros E1 E2 E3. unfold ev_key, eligibilityKey. by rewrite E1, E2, E3. Qed.

Example eligibility_example :
  let e := buildEpochEligibility [mkEvent 1 "0xA" "0xF"; mkEvent 1 "0xa" "0xf"; mkEvent 2 "0xa" "0xf"]
             [mkEvent 1 "0xA" "0xf"; mkEvent 3 "0xa" "0xf"; mkEvent 1 "0xa" "0xF"] (fun _ => 10) in
  length (creditIssuances e) = 2%nat /\ length (multiplierAccruals e) = 1%nat /\ minerScreenerCredits e "0xA" = 20.
Proof. vm_compute. repeat split. Qed.
