(* ===== verification/MultiplierCap.v ===== *)
(** * Merge-bonus leaves (packages/coretex/src/reducer/multiplier-cap.ts)

    One bonus leaf per miner with an accrual and a claim base. The sort's
    [localeCompare] is the host's collation and is a parameter. Theorems:
    the leaves are exactly the non-zero bonuses of the accrued miners, one
    per miner, and with a collation that is a total order the leaf array
    does not depend on the order of the accruals. *)
From S2P Require Import Prelude JsSort Eligibility.
#[local] Open Scope Z_scope.

Definition MERGE_MULTIPLIER_BPS : Z := 10000.
Definition BPS_DIVISOR : Z := 10000.

Record MinerBonusLeaf := mkLeaf { leaf_miner : string; bonusBotcoin : Z; capBotcoin : Z }.
Record MinerClaimBase := mkClaimBase { cb_miner : string; claimBase : Z }.

(** BigInt [/] truncates towards zero. *)
Definition computeMinerBonus (miner : string) (claimBase multiplierBps : Z) : outcome MinerBonusLeaf :=
  throw_when claimBase <? 0 with RangeError "computeMinerBonus: claimBase must be non-negative" ;;
  let upliftBps := multiplierBps - BPS_DIVISOR in
  let bonusBotcoin := Z.quot (upliftBps * claimBase) BPS_DIVISOR in
  Returns (mkLeaf (toLowerCase miner) bonusBotcoin bonusBotcoin).

(** [claimBaseMap]: the last claim base of a (lower-cased) miner wins. *)
Definition claimBaseMap (claimBases : list MinerClaimBase) : list (string * Z) :=
  fold_left (fun m cb => jsmap_set (toLowerCase (cb_miner cb)) (claimBase cb) m) claimBases [].

(** The loop over the accruals, with [seenMiners] and [leaves]. *)
Fixpoint leaves_loop (bases : list (string * Z)) (multiplierBps : Z) (accruals : list MultiplierAccrual)
    (seenMiners : list string) (leaves : list MinerBonusLeaf) : outcome (list MinerBonusLeaf) :=
  match accruals with
  | [] => Returns leaves
  | accrual :: accruals' =>
    let miner := toLowerCase (ma_miner accrual) in
    if bool_decide (miner ∈ seenMiners) then leaves_loop bases multiplierBps accruals' seenMiners leaves
    else
      let seenMiners := jsset_add miner seenMiners in
      let claimBase := default 0 (jsmap_get miner bases) in
      if claimBase =? 0 then leaves_loop bases multiplierBps accruals' seenMiners leaves
      else
        leaf ← computeMinerBonus miner claimBase multiplierBps;
        if bonusBotcoin leaf =? 0 then leaves_loop bases multiplierBps accruals' seenMiners leaves
        else leaves_loop bases multiplierBps accruals' seenMiners (leaves ++ [leaf])
  end.

Definition buildEpochBonusLeaves (localeCompare : string -> string -> Z) (eligibility : EpochEligibility)
    (claimBases : list MinerClaimBase) (multiplierBps : Z) : outcome (list MinerBonusLeaf) :=
  leaves ← leaves_loop (claimBaseMap claimBases) multiplierBps (multiplierAccruals eligibility) [] [];
  Returns (stableSort leaves (fun a b => localeCompare (leaf_miner a) (leaf_miner b))).

Definition computeEpochTotalBonus (leaves : list MinerBonusLeaf) : Z :=
  fold_left (fun sum leaf => sum + bonusBotcoin leaf) leaves 0.

Definition assertBonusWithinCap (leaf : MinerBonusLeaf) : outcome unit :=
  throw_if (capBotcoin leaf <? bonusBotcoin leaf) (GenericError "multiplier cap violation").

(** ** Specification: the leaf a miner gets. *)
Definition uplift (bps base : Z) : Z := Z.quot ((bps - 10000) * base) 10000.

Definition leaf_for (bases : list (string * Z)) (bps : Z) (miner : string) : option MinerBonusLeaf :=
  let b := uplift bps (default 0 (jsmap_get miner bases)) in
  if b =? 0 then None else Some (mkLeaf miner b b).

Definition miners_of (e : EpochEligibility) : list string := map (fun a => toLowerCase (ma_miner a)) (multiplierAccruals e).

Lemma uplift_0 bps : uplift bps 0 = 0.
Proof. unfold uplift. by rewrite Z.mul_0_r, Z.quot_0_l. Qed.

Lemma leaf_for_spec bases bps m : (forall b, jsmap_get m bases = Some b -> 0 <= b) -> toLowerCase m = m ->
  (let claimBase := default 0 (jsmap_get m bases) in
   if claimBase =? 0 then Returns None
   else leaf ← computeMinerBonus m claimBase bps;
        if bonusBotcoin leaf =? 0 then Returns None else Returns (Some leaf)) = Returns (leaf_for bases bps m).
Proof.
  intros Hb Hm. unfold leaf_for. set (b := default 0 (jsmap_get m bases)).
  assert (0 <= b). { subst b. destruct (jsmap_get m bases) eqn:E; cbn; [by apply Hb|lia]. }
  cbn zeta. destruct (Z.eqb_spec b 0) as [->|Hne]; [by rewrite uplift_0|].
  unfold computeMinerBonus. destruct (Z.ltb_spec b 0); [lia|]. cbn [throw_if mbind outcome_bind bonusBotcoin].
  fold (uplift bps b). unfold BPS_DIVISOR. fold (uplift bps b). rewrite Hm. by destruct (_ =? _).
Qed.

(** The miners of [l] not yet in [seen], first occurrences in order. *)
Fixpoint fresh (seen l : list string) : list string :=
  match l with
  | [] => []
  | m :: l' => if bool_decide (m ∈ seen) then fresh seen l' else m :: fresh (jsset_add m seen) l'
  end.

Lemma fresh_spec seen l : NoDup (fresh seen l) /\ (forall m, m ∈ fresh seen l <-> m ∈ l /\ m ∉ seen).
Proof.
  revert seen. induction l as [|x l IH]; intros seen; cbn [fresh].
  { split; [constructor|]. intros m. split; [|intros [H _]]; intros; by apply not_elem_of_nil in H || done. }
  case_bool_decide as Hx; [destruct (IH seen) as [H1 H2]|destruct (IH (jsset_add x seen)) as [H1 H2]].
  - split; [done|]. intros m. rewrite H2, elem_of_cons. naive_solver.
  - split; [apply NoDup_cons; split; [rewrite H2, elem_of_jsset_add; naive_solver|done]|].
    intros m. rewrite !elem_of_cons, H2, elem_of_jsset_add. destruct (decide (m = x)); naive_solver.
Qed.

Definition bases_ok (bases : list (string * Z)) : Prop := forall m b, jsmap_get m bases = Some b -> 0 <= b.

Lemma leaves_loop_spec bases bps l seen acc : bases_ok bases ->
  leaves_loop bases bps l seen acc
  = Returns (acc ++ omap (leaf_for bases bps) (fresh seen (map (fun a => toLowerCase (ma_miner a)) l))).
Proof.
  intros Hb. revert seen acc. induction l as [|a l IH]; intros seen acc; cbn [leaves_loop map fresh].
  { by rewrite app_nil_r. }
  case_bool_decide; [by rewrite IH|]. set (m := toLowerCase (ma_miner a)) in *.
  pose proof (leaf_for_spec bases bps m (Hb m) (toLowerCase_idem _)) as HL. cbn zeta in HL.
  change (omap ?f (m :: ?r)) with (match f m with Some y => y :: omap f r | None => omap f r end).
  destruct (default 0 (jsmap_get m bases) =? 0).
  { injection HL as <-. by rewrite IH. }
  destruct (computeMinerBonus m _ bps) as [leaf|]; cbn [mbind outcome_bind] in *; [|done].
  destruct (bonusBotcoin leaf =? 0); injection HL as <-; rewrite IH; [done|]. by rewrite <- app_assoc.
Qed.

Lemma claimBaseMap_ok cbs : Forall (fun cb => 0 <= claimBase cb) cbs -> bases_ok (claimBaseMap cbs).
Proof.
  intros H. unfold claimBaseMap. assert (G : bases_ok []) by (intros m b; done). revert G.
  generalize (@nil (string * Z)). induction H as [|cb cbs Hc _ IH]; intros m0 H0; cbn; [done|].
  apply IH. intros m b. rewrite jsmap_get_set. case_decide; [by intros [= <-]|apply H0].
Qed.

Lemma omap_NoDup_miner bases bps l : NoDup l -> NoDup (map leaf_miner (omap (leaf_for bases bps) l)).
Proof.
  intros H. assert (Hin : forall m l, m ∈ map leaf_miner (omap (leaf_for bases bps) l) -> m ∈ l).
  { intros m l' (x & -> & Hx)%list_elem_of_fmap. apply list_elem_of_omap in Hx as (y & Hy & E).
    unfold leaf_for in E. destruct (_ =? _); [done|]. by injection E as <-. }
  induction H as [|x l Hx H IH]; [constructor|].
  change (omap ?f (x :: ?r)) with (match f x with Some y => y :: omap f r | None => omap f r end).
  destruct (leaf_for bases bps x) as [y|] eqn:E; [|done]. cbn [map]. apply NoDup_cons. split; [|done].
  unfold leaf_for in E. destruct (_ =? _); [done|]. injection E as <-. cbn [leaf_miner]. intros Hm. by apply Hx, (Hin x).
Qed.

Lemma fold_sum (l : list MinerBonusLeaf) a : fold_left (fun s x => s + bonusBotcoin x) l a = a + foldr (fun x s => bonusBotcoin x + s) 0 l.
Proof. revert a. induction l as [|x l IH]; intros a; cbn; [lia|]. rewrite IH. lia. Qed.

#[export] Instance total_bonus_Permutation : Proper (Permutation ==> eq) computeEpochTotalBonus.
Proof.
  intros l1 l2 H. unfold computeEpochTotalBonus. rewrite !fold_sum. induction H; cbn in *; lia.
Qed.

(** With non-negative claim bases the leaves are built, whatever the
    collation: exactly one leaf for each miner that accrued a merge and
    whose uplift of its (last) claim base is not zero, carrying that uplift
    as bonus and as cap; the funding total is the sum of the uplifts; and
    at the default multiplier there are no leaves. *)
Theorem bonusLeaves_spec (lc : string -> string -> Z) (e : EpochEligibility) (cbs : list MinerClaimBase) (bps : Z) :
  Forall (fun cb => 0 <= claimBase cb) cbs ->
  exists leaves, buildEpochBonusLeaves lc e cbs bps = Returns leaves
  /\ NoDup (map leaf_miner leaves)
  /\ (forall leaf, leaf ∈ leaves <->
        leaf_miner leaf ∈ miners_of e
        /\ bonusBotcoin leaf = uplift bps (default 0 (jsmap_get (leaf_miner leaf) (claimBaseMap cbs)))
        /\ bonusBotcoin leaf <> 0 /\ capBotcoin leaf = bonusBotcoin leaf)
  /\ Forall (fun leaf => assertBonusWithinCap leaf = Returns tt) leaves
  /\ (bps = MERGE_MULTIPLIER_BPS -> leaves = [])
  /\ (10000 <= bps -> 0 <= computeEpochTotalBonus leaves).
Proof.
  intros Hc. pose proof (claimBaseMap_ok _ Hc) as Hb. unfold buildEpochBonusLeaves. rewrite leaves_loop_spec by done.
  cbn [mbind outcome_bind app]. eexists. split; [reflexivity|]. set (bases := claimBaseMap cbs) in *.
  destruct (fresh_spec [] (miners_of e)) as [F1 F2]. fold (miners_of e).
  set (ls := omap (leaf_for bases bps) (fresh [] (miners_of e))) in *.
  assert (Hin : forall leaf, leaf ∈ ls <-> leaf_miner leaf ∈ miners_of e
    /\ bonusBotcoin leaf = uplift bps (default 0 (jsmap_get (leaf_miner leaf) bases))
    /\ bonusBotcoin leaf <> 0 /\ capBotcoin leaf = bonusBotcoin leaf).
  { intros leaf. subst ls. rewrite list_elem_of_omap. split.
    - intros (m & Hm%F2 & E). unfold leaf_for in E. destruct (Z.eqb_spec (uplift bps (default 0 (jsmap_get m bases))) 0); [done|].
      injection E as <-. cbn [leaf_miner bonusBotcoin capBotcoin]. tauto.
    - intros (H1 & H2 & H3 & H4). exists (leaf_miner leaf). split; [apply F2; split; [done|apply not_elem_of_nil]|].
      unfold leaf_for. rewrite <- H2. destruct (Z.eqb_spec (bonusBotcoin leaf) 0); [done|]. destruct leaf; cbn in *. by subst. }
  split; [rewrite stableSort_perm; by apply omap_NoDup_miner|]. split; [intros leaf; rewrite stableSort_perm; apply Hin|].
  split. { apply Forall_forall. intros leaf. rewrite stableSort_perm, Hin. intros (_ & _ & _ & E).
    unfold assertBonusWithinCap. by rewrite E, Z.ltb_irrefl. }
  split.
  - intros ->. replace ls with (@nil MinerBonusLeaf); [done|]. destruct ls as [|x l] eqn:E; [done|]. exfalso.
    destruct (proj1 (Hin x)) as (_ & H2 & H3 & _); [apply list_elem_of_here|]. apply H3. rewrite H2. unfold uplift, MERGE_MULTIPLIER_BPS.
    by rewrite Z.sub_diag, Z.mul_0_l, Z.quot_0_l.
  - intros Hge. rewrite stableSort_perm. unfold computeEpochTotalBonus. rewrite fold_sum.
    assert (Hp : Forall (fun x => 0 <= bonusBotcoin x) ls).
    { apply Forall_forall. intros x (_ & -> & _)%Hin. unfold uplift. apply Z.quot_pos; [|lia]. apply Z.mul_nonneg_nonneg; [lia|].
      destruct (jsmap_get _ bases) eqn:E; cbn; [by apply (Hb _ _ E)|lia]. }
    clear Hin. induction Hp; cbn in *; lia.
Qed.

(** The leaf array (and with it the Merkle root and the claim indices) is a
    function of the set of accrued miners: with a collation that is a total
    order on strings, accruals in any other order, or repeated, give the
    same array. *)
Theorem bonusLeaves_order_independent (lc : string -> string -> Z) (e1 e2 : EpochEligibility) (cbs : list MinerClaimBase) (bps : Z) :
  CmpPreorder lc -> (forall a b, lc a b <= 0 -> lc b a <= 0 -> a = b) ->
  Forall (fun cb => 0 <= claimBase cb) cbs ->
  (forall m, m ∈ miners_of e1 <-> m ∈ miners_of e2) ->
  buildEpochBonusLeaves lc e1 cbs bps = buildEpochBonusLeaves lc e2 cbs bps.
Proof.
  intros Hlc Ha Hc Hm. pose proof (claimBaseMap_ok _ Hc) as Hb. unfold buildEpochBonusLeaves.
  rewrite !leaves_loop_spec by done. cbn [mbind outcome_bind app]. f_equal. fold (miners_of e1) (miners_of e2).
  assert (Hp : fresh [] (miners_of e1) ≡ₚ fresh [] (miners_of e2)).
  { destruct (fresh_spec [] (miners_of e1)) as [N1 F1], (fresh_spec [] (miners_of e2)) as [N2 F2].
    apply NoDup_Permutation; [done..|]. intros m. by rewrite F1, F2, Hm. }
  apply stableSort_unique; [|by rewrite Hp|].
  - constructor; [intros a b; apply cmp_total|intros a b c; apply cmp_trans].
  - intros a b (m & _ & Ea)%list_elem_of_omap (m' & _ & Eb)%list_elem_of_omap H1 H2. pose proof (Ha _ _ H1 H2) as E.
    unfold leaf_for in Ea, Eb. destruct (uplift _ _ =? 0); [done|]. injection Ea as <-.
    destruct (uplift bps (default 0 (jsmap_get m' _)) =? 0); [done|]. injection Eb as <-. cbn in E. by subst m'.
Qed.

(** ** Witnesses *)
Definition bonus_e : EpochEligibility :=
  mkEligibility [] [mkAccrual 1 "0xB" "0x1"; mkAccrual 1 "0xa" "0x2"; mkAccrual 1 "0xA" "0x3"] [].
Definition bonus_e' : EpochEligibility := mkEligibility [] [mkAccrual 1 "0xa" "0x2"; mkAccrual 1 "0xb" "0x1"] [].
Definition bonus_cbs : list MinerClaimBase := [mkClaimBase "0xA" 100; mkClaimBase "0xB" 7; mkClaimBase "0xC" 9].

Lemma bonusLeaves_spec_witness :
  exists leaves, buildEpochBonusLeaves string_cmp bonus_e bonus_cbs 12000 = Returns leaves
  /\ leaves = [mkLeaf "0xa" 20 20; mkLeaf "0xb" 1 1] /\ NoDup (map leaf_miner leaves).
Proof.
  destruct (bonusLeaves_spec string_cmp bonus_e bonus_cbs 12000) as (l & E & Hn & _); [repeat constructor; cbn; lia|].
  exists l. split; [exact E|]. split; [|exact Hn]. apply Returns_inj. rewrite <- E. vm_compute. reflexivity.
Defined.

Lemma bonusLeaves_order_independent_witness :
  buildEpochBonusLeaves string_cmp bonus_e bonus_cbs 12000 = buildEpochBonusLeaves string_cmp bonus_e' bonus_cbs 12000.
Proof.
  apply bonusLeaves_order_independent.
  - exact string_cmp_preorder.
  - exact string_cmp_antisym.
  - repeat constructor; cbn; lia.
  - intros m. change (miners_of bonus_e) with ["0xb"; "0xa"; "0xa"]%string. change (miners_of bonus_e') with ["0xa"; "0xb"]%string.
    rewrite !elem_of_cons. tauto.
Defined.
