(* ===== verification/FundingTx.v ===== *)
(** * Bonus funding and claim proofs (packages/coretex/src/reducer/funding-tx.ts)

    The sorted-pair binary Merkle tree over the bonus leaves, the
    [fundEpoch] calldata and the per-miner claim proofs. Theorems: every
    listed miner's proof verifies against the funded root, a proof of
    32-byte siblings that verifies is for a listed leaf (or exhibits a hash
    collision), and the calldata is the ABI layout of its three arguments. *)
From Stdlib Require Import Ascii.
From S2P Require Import Prelude StateTypes Codec Keccak Merkle Decoder Substrate SlotPolicy Validate Patch SeedDerivation Eligibility MultiplierCap.
#[local] Open Scope Z_scope.

Definition encodeUint256 (value : Z) : bytes := write_be_loop 32 (zeros 32) 0 (asUintN 256 value).
Definition encodeUint64 (value : Z) : bytes := encodeUint256 (asUintN 64 value).

Definition encodeBytes32 (value : bytes) : outcome bytes :=
  throw_when negb (Z.of_nat (length value) =? 32) with RangeError "encodeBytes32: expected 32 bytes" ;;
  Returns value.

(** [concat(...parts)] is the loop of [concatU8]. *)
Definition concat_parts (parts : list bytes) : bytes := concatU8 parts.

(** The loop runs over [a]; a missing byte of [b] reads as 0. *)
Fixpoint bytesLessOrEq (a b : bytes) : bool :=
  match a with
  | [] => true
  | av :: a' =>
    let bv := match b with [] => 0 | y :: _ => y end in
    if negb (av =? bv) then av <? bv else bytesLessOrEq a' (tail b)
  end.

Record MinerClaimProof := mkProof {
  pf_miner : string; pf_bonusBotcoin : Z; pf_capBotcoin : Z; proof : list string; leafIndex : Z
}.

Record FundEpochCalldata := mkCalldata {
  calldata : bytes; calldataHex : string; merkleRoot : bytes; merkleRootHex : string; totalBonus : Z
}.

Section WithHasher.
Context {HK : Hasher}.

Definition hashPair (a b : bytes) : bytes :=
  let '(lo, hi) := if bytesLessOrEq a b then (a, b) else (b, a) in
  keccak256 (concat_parts [lo; hi]).

(** [leaf.miner.startsWith('0x') ? leaf.miner : `0x${leaf.miner}`] *)
Definition with_0x (s : string) : string :=
  match s with
  | String "0"%char (String "x"%char _) => s
  | _ => String "0"%char (String "x"%char s)
  end.

Definition computeLeafHash (leaf : MinerBonusLeaf) : outcome bytes :=
  addrBytes ← hexToBytes (with_0x (leaf_miner leaf));
  throw_when negb (Z.of_nat (length addrBytes) =? 20) with RangeError "computeLeafHash: address must be 20 bytes" ;;
  let bonusBytes := encodeUint256 (bonusBotcoin leaf) in
  let capBytes := encodeUint256 (capBotcoin leaf) in
  Returns (keccak256 (concat_parts [addrBytes; bonusBytes; capBytes])).

(** The inner loop of [buildLevels]: pairs are hashed, an unpaired tail carries up. *)
Fixpoint pair_up (cur : list bytes) : list bytes :=
  match cur with
  | [] => []
  | [x] => [x]
  | a :: b :: rest => hashPair a b :: pair_up rest
  end.

(** The loop [while (levels[levels.length - 1].length > 1)]. *)
Fixpoint levels_loop (fuel : nat) (cur : list bytes) : list (list bytes) :=
  match fuel with
  | O => [cur]
  | S fuel => if (1 <? length cur)%nat then cur :: levels_loop fuel (pair_up cur) else [cur]
  end.

Definition buildLevels (leafHashes : list bytes) : list (list bytes) :=
  if (length leafHashes =? 0)%nat then [[keccak256 []]] else levels_loop (length leafHashes) leafHashes.

(** [levels[levels.length - 1]![0]!] *)
Definition top (levels : list (list bytes)) : bytes := default [] (last levels ≫= head).

Definition computeBonusMerkleRoot (leaves : list MinerBonusLeaf) : outcome bytes :=
  leafHashes ← mapM computeLeafHash leaves;
  Returns (top (buildLevels leafHashes)).

Definition buildFundEpochCalldata (epoch : Z) (leaves : list MinerBonusLeaf) : outcome FundEpochCalldata :=
  merkleRoot ← computeBonusMerkleRoot leaves;
  let totalBonus := fold_left (fun sum l => sum + bonusBotcoin l) leaves 0 in
  let selectorFull := keccak256 (text_encode "fundEpoch(uint64,bytes32,uint256)") in
  let selector := take 4 selectorFull in
  rootBytes ← encodeBytes32 merkleRoot;
  let calldata := concat_parts [selector; encodeUint64 epoch; rootBytes; encodeUint256 totalBonus] in
  Returns (mkCalldata calldata (bytesToHex calldata) merkleRoot (bytesToHex merkleRoot) totalBonus).

(** The loop over all levels but the top, with [pos]. *)
Fixpoint proof_loop (levels : list (list bytes)) (pos : nat) : list string :=
  match levels with
  | [] | [_] => []
  | level :: rest =>
    if (pos =? length level - 1)%nat && (pos mod 2 =? 0)%nat then proof_loop rest (pos / 2)
    else
      let sibling := if (pos mod 2 =? 0)%nat then node level (pos + 1) else node level (pos - 1) in
      bytesToHex sibling :: proof_loop rest (pos / 2)
  end.

(** [leaves.findIndex(...)] *)
Definition find_miner (leaves : list MinerBonusLeaf) (miner : string) : option (nat * MinerBonusLeaf) :=
  list_find (fun l => toLowerCase (leaf_miner l) = toLowerCase miner) leaves.

Definition buildMinerClaimProof (leaves : list MinerBonusLeaf) (miner : string) : outcome (option MinerClaimProof) :=
  match find_miner leaves miner with
  | None => Returns None
  | Some (idx, leaf) =>
    leafHashes ← mapM computeLeafHash leaves;
    let levels := buildLevels leafHashes in
    Returns (Some (mkProof (toLowerCase (leaf_miner leaf)) (bonusBotcoin leaf) (capBotcoin leaf)
      (proof_loop levels idx) (Z.of_nat idx)))
  end.

(** [for (const sib of proof)] *)
Fixpoint process_proof (computed : bytes) (proof : list string) : outcome bytes :=
  match proof with
  | [] => Returns computed
  | sib :: proof' => sibling ← hexToBytes sib; process_proof (hashPair computed sibling) proof'
  end.

Definition verifyMinerClaimProof (leaf : MinerBonusLeaf) (proof : list string) (root : bytes) : outcome bool :=
  leafHash ← computeLeafHash leaf;
  computed ← process_proof leafHash proof;
  Returns (list_Zeqb computed root).
End WithHasher.

(** ** The sorted pair *)
Lemma bytesLessOrEq_total a b : length a = length b -> bytesLessOrEq a b = false -> bytesLessOrEq b a = true.
Proof.
  revert b. induction a as [|x a IH]; intros [|y b] Hl; try discriminate Hl; [done|]. cbn.
  injection Hl as Hl. destruct (Z.eqb_spec x y) as [->|Hne]; cbn [negb].
  - rewrite Z.eqb_refl. cbn [negb]. by apply IH.
  - destruct (Z.eqb_spec y x); [congruence|]. cbn [negb]. intros ?%Z.ltb_ge. apply Z.ltb_lt. lia.
Qed.

Lemma bytesLessOrEq_antisym a b : length a = length b -> bytesLessOrEq a b = true -> bytesLessOrEq b a = true -> a = b.
Proof.
  revert b. induction a as [|x a IH]; intros [|y b] Hl; try discriminate Hl; [done|]. cbn.
  injection Hl as Hl. destruct (Z.eqb_spec x y) as [->|Hne]; cbn [negb].
  - rewrite Z.eqb_refl. cbn [negb]. intros. f_equal. by apply IH.
  - destruct (Z.eqb_spec y x); [congruence|]. cbn [negb]. intros ?%Z.ltb_lt ?%Z.ltb_lt. lia.
Qed.

Section Tree.
Context {HK : Hasher}.

(** The bytes hashed for a pair. *)
Definition pair_input (a b : bytes) : bytes := if bytesLessOrEq a b then a ++ b else b ++ a.

Lemma hashPair_alt a b : hashPair a b = keccak256 (pair_input a b).
Proof.
  unfold hashPair, concat_parts, pair_input. destruct (bytesLessOrEq a b); rewrite concatU8_concat; cbn [concat]; by rewrite app_nil_r.
Qed.

Lemma hashPair_comm a b : length a = length b -> hashPair a b = hashPair b a.
Proof.
  intros Hl. rewrite !hashPair_alt. f_equal. unfold pair_input. destruct (bytesLessOrEq a b) eqn:E1, (bytesLessOrEq b a) eqn:E2; [|done..|].
  - by rewrite (bytesLessOrEq_antisym a b).
  - apply bytesLessOrEq_total in E1; [congruence|done].
Qed.

(** Equal pair inputs: the same two siblings. *)
Lemma pair_input_inj a b c s : length a = 32%nat -> length b = 32%nat -> length c = 32%nat -> length s = 32%nat ->
  pair_input c s = pair_input a b -> c = a \/ c = b.
Proof.
  intros Ha Hb Hc Hs Eq. unfold pair_input in Eq.
  destruct (bytesLessOrEq c s), (bytesLessOrEq a b); apply app_inj_1 in Eq; naive_solver congruence.
Qed.

Lemma length_pair_input (a b : bytes) : length a = 32%nat -> length b = 32%nat -> length (pair_input a b) = 64%nat.
Proof. intros Ha Hb. unfold pair_input. destruct (bytesLessOrEq a b); rewrite length_app; lia. Qed.

Abbreviation node32 := (fun h : bytes => length h = 32%nat /\ bytes_ok h).

Lemma hashPair_node32 a b : node32 (hashPair a b).
Proof. rewrite hashPair_alt. split; [apply length_keccak256|apply keccak256_ok]. Qed.

Lemma pairs_ind (P : list bytes -> Prop) : P [] -> (forall x, P [x]) -> (forall a b l, P l -> P (a :: b :: l)) -> forall l, P l.
Proof.
  intros H0 H1 H2 l. assert (G : P l /\ forall x, P (x :: l)); [|apply G].
  induction l as [|y l [IH1 IH2]]; [done|]. split; [apply IH2|]. intros x. apply H2, IH1.
Qed.

Lemma pair_up_node32 l : Forall node32 l -> Forall node32 (pair_up l).
Proof.
  induction l as [|x|a b l IH] using pairs_ind; intros H; [constructor|done|]. cbn [pair_up].
  rewrite !Forall_cons in H. destruct H as (_ & _ & H). constructor; [apply hashPair_node32|by apply IH].
Qed.

Lemma length_pair_up_le l : (length (pair_up l) <= length l)%nat /\ ((0 < length l)%nat -> (0 < length (pair_up l))%nat).
Proof. induction l as [|x|a b l IH] using pairs_ind; cbn [pair_up length] in *; lia. Qed.

Lemma length_pair_up l : (1 < length l)%nat -> (0 < length (pair_up l) < length l)%nat.
Proof.
  destruct l as [|a [|b l]]; cbn [length pair_up]; [lia..|]. pose proof (length_pair_up_le l). lia.
Qed.

(** The sibling the proof takes at one level. *)
Definition sibling_of (level : list bytes) (pos : nat) : bytes :=
  if (pos mod 2 =? 0)%nat then node level (pos + 1) else node level (pos - 1).

(** One level of the tree: the parent of [level[pos]] is itself when it is
    the unpaired tail, the hash of it and its sibling otherwise. *)
Lemma pair_up_parent level pos x : Forall node32 level -> level !! pos = Some x ->
  if (pos =? length level - 1)%nat && (pos mod 2 =? 0)%nat then pair_up level !! (pos / 2)%nat = Some x
  else sibling_of level pos ∈ level /\ pair_up level !! (pos / 2)%nat = Some (hashPair x (sibling_of level pos)).
Proof.
  unfold sibling_of. revert pos. induction level as [|y|a b l IH] using pairs_ind; intros pos Hn Hx; [done| |].
  { destruct pos as [|pos]; [|done]. injection Hx as <-. done. }
  rewrite !Forall_cons in Hn. destruct Hn as (Ha' & Hb' & Hn). pose proof (proj1 Ha') as Ha. pose proof (proj1 Hb') as Hb. destruct pos as [|[|pos]].
  - injection Hx as <-. cbn. split; [apply list_elem_of_further, list_elem_of_here|done].
  - injection Hx as <-. change (1 mod 2 =? 0)%nat with false. rewrite andb_false_r. cbn. split; [apply list_elem_of_here|]. f_equal. apply hashPair_comm. congruence.
  - cbn [lookup list_lookup] in Hx. specialize (IH pos Hn Hx).
    assert (0 < length l)%nat by (apply lookup_lt_Some in Hx; lia).
    assert (E1 : (S (S pos) =? length (a :: b :: l) - 1)%nat = (pos =? length l - 1)%nat).
    { cbn [length]. destruct (Nat.eqb_spec pos (length l - 1)), (Nat.eqb_spec (S (S pos)) (S (S (length l)) - 1)); lia. }
    replace (S (S pos)) with (pos + 1 * 2)%nat in * by lia. rewrite E1, Nat.Div0.mod_add, Nat.div_add by lia.
    replace (pos / 2 + 1)%nat with (S (pos / 2)) by lia. cbn [pair_up lookup list_lookup]. destruct (_ && _) eqn:Et; [done|].
    destruct (Nat.eqb_spec (pos mod 2) 0) as [Ee|Eo].
    + unfold node in *. replace (pos + 1 * 2 + 1)%nat with (S (S (pos + 1))) by lia. cbn [lookup list_lookup].
      split; [apply list_elem_of_further, list_elem_of_further|]; apply IH.
    + assert (pos <> 0)%nat by (intros ->; done). unfold node in *.
      replace (pos + 1 * 2 - 1)%nat with (S (S (pos - 1))) by lia. cbn [lookup list_lookup].
      split; [apply list_elem_of_further, list_elem_of_further|]; apply IH.
Qed.

Lemma levels_loop_shape fuel cur : exists rest, levels_loop fuel cur = cur :: rest.
Proof. destruct fuel; cbn [levels_loop]; [eexists; reflexivity|]. destruct (1 <? length cur)%nat; eexists; reflexivity. Qed.

Lemma top_cons cur rest : rest <> [] -> top (cur :: rest) = top rest.
Proof. destruct rest; done. Qed.

(** Folding the siblings of [cur[pos]] reproduces the top of the tree. *)
Lemma proof_loop_complete fuel cur pos x : Forall node32 cur -> (length cur <= fuel)%nat -> cur !! pos = Some x ->
  process_proof x (proof_loop (levels_loop fuel cur) pos) = Returns (top (levels_loop fuel cur)).
Proof.
  revert cur pos x. induction fuel as [|fuel IH]; intros cur pos x Hn Hf Hx.
  { apply lookup_lt_Some in Hx. lia. }
  cbn [levels_loop]. destruct (Nat.ltb_spec 1 (length cur)) as [Hlt|Hge].
  - pose proof (pair_up_parent cur pos x Hn Hx) as Hp. pose proof (length_pair_up cur Hlt).
    destruct (levels_loop_shape fuel (pair_up cur)) as [rest E].
    rewrite top_cons by (rewrite E; done).
    assert (Hp' : forall x', pair_up cur !! (pos / 2)%nat = Some x' ->
      process_proof x' (proof_loop (levels_loop fuel (pair_up cur)) (pos / 2)) = Returns (top (levels_loop fuel (pair_up cur)))).
    { intros x' Hx'. apply IH; [by apply pair_up_node32|lia|done]. }
    rewrite E in *. cbn [proof_loop]. destruct (_ && _); [by apply Hp'|]. fold (sibling_of cur pos).
    destruct Hp as [Hs Hp]. cbn [process_proof]. rewrite hexToBytes_bytesToHex.
    + cbn [mbind outcome_bind]. by apply Hp'.
    + rewrite Forall_forall in Hn. destruct (Hn _ Hs). done.
  - apply lookup_lt_Some in Hx as Hlt. destruct cur as [|y [|]]; cbn [length] in *; [lia| |lia].
    destruct pos; [|lia]. injection Hx as <-. done.
Qed.

(** ** Leaves *)
Definition leaf_bytes (addr : bytes) (leaf : MinerBonusLeaf) : bytes :=
  addr ++ be_bytes 32 (bonusBotcoin leaf) ++ be_bytes 32 (capBotcoin leaf).

Lemma encodeUint256_spec v : encodeUint256 v = be_bytes 32 v.
Proof.
  unfold encodeUint256. rewrite write_be_loop_spec by (cbn; lia).
  rewrite asUintN_be_bytes. unfold u8_set. rewrite length_be_bytes, Nat.add_0_l, drop_ge by (cbn; lia).
  by rewrite app_nil_r.
Qed.

Lemma computeLeafHash_spec leaf h : computeLeafHash leaf = Returns h <->
  exists addr, hexToBytes (with_0x (leaf_miner leaf)) = Returns addr /\ length addr = 20%nat /\ h = keccak256 (leaf_bytes addr leaf).
Proof.
  unfold computeLeafHash. split.
  - intros H. apply bind_Returns in H as (addr & Ha & H). apply bind_Returns in H as (u & Hl & H).
    apply throw_if_Returns in Hl. bool_hyps. exists addr. split; [done|]. split; [lia|]. apply Returns_inj in H. rewrite <- H.
    unfold concat_parts. rewrite concatU8_concat. cbn [concat]. by rewrite app_nil_r, !encodeUint256_spec.
  - intros (addr & -> & Hl & ->). cbn [mbind outcome_bind]. rewrite Hl. change (negb (Z.of_nat 20 =? 32)) with true.
    change (negb (Z.of_nat 20 =? 20)) with false. cbn [throw_if mbind outcome_bind]. unfold concat_parts. rewrite concatU8_concat.
    cbn [concat]. by rewrite app_nil_r, !encodeUint256_spec.
Qed.

Lemma length_leaf_bytes addr leaf : length addr = 20%nat -> length (leaf_bytes addr leaf) = 84%nat.
Proof. intros H. unfold leaf_bytes. rewrite !length_app, H, !length_be_bytes. done. Qed.

Lemma leafHashes_node32 leaves hs : mapM computeLeafHash leaves = Returns hs -> Forall node32 hs /\ length hs = length leaves.
Proof.
  rewrite mapM_Returns. intros H. split; [|symmetry; by eapply Forall2_length].
  induction H as [|l h ls hs Hh _ IH]; constructor; [|done].
  apply computeLeafHash_spec in Hh as (addr & _ & _ & ->). split; [apply length_keccak256|apply keccak256_ok].
Qed.

Lemma buildLevels_nonempty hs : hs <> [] -> buildLevels hs = levels_loop (length hs) hs.
Proof. destruct hs; done. Qed.

Lemma top_node32 fuel cur : Forall node32 cur -> (0 < length cur <= fuel)%nat -> node32 (top (levels_loop fuel cur)).
Proof.
  revert cur. induction fuel as [|fuel IH]; intros cur Hn Hl; [lia|]. cbn [levels_loop].
  destruct (Nat.ltb_spec 1 (length cur)) as [Hlt|Hge].
  - pose proof (length_pair_up cur Hlt). destruct (levels_loop_shape fuel (pair_up cur)) as [rest E].
    rewrite top_cons by (rewrite E; done). apply IH; [by apply pair_up_node32|lia].
  - destruct cur as [|y [|]]; cbn [length] in *; [lia| |lia]. by inversion Hn.
Qed.

Lemma buildLevels_top_node32 hs : Forall node32 hs -> node32 (top (buildLevels hs)).
Proof.
  intros Hn. destruct hs as [|h hs].
  - split; [apply length_keccak256|apply keccak256_ok].
  - rewrite buildLevels_nonempty by done. apply top_node32; [done|cbn [length]; lia].
Qed.

(** ** Soundness: chains of sibling hashes *)

(** The pair inputs hashed when a verifier folds [sibs] onto [x], and the
    ones hashed when a level is paired up. *)
Fixpoint chain_inputs (x : bytes) (sibs : list bytes) : list bytes :=
  match sibs with
  | [] => []
  | s :: sibs' => pair_input x s :: chain_inputs (hashPair x s) sibs'
  end.

Fixpoint level_pairs (cur : list bytes) : list bytes :=
  match cur with
  | a :: b :: rest => pair_input a b :: level_pairs rest
  | _ => []
  end.

Lemma chain_inputs_app x l1 l2 : chain_inputs x (l1 ++ l2) = chain_inputs x l1 ++ chain_inputs (fold_left hashPair l1 x) l2.
Proof. revert x. induction l1 as [|s l1 IH]; intros x; cbn; [done|]. by rewrite IH. Qed.

Section Chains.
(** [A]: what the verifier hashed, [B]: what the funder hashed. *)
Context (A B : list bytes) (x d : bytes) (Hx : x = keccak256 d) (Hd : length d = 84%nat) (HdA : d ∈ A).

Definition leads_to (v : bytes) : Prop := exists sibs,
  Forall (fun s => length s = 32%nat) sibs /\ fold_left hashPair sibs x = v /\ (forall y, y ∈ chain_inputs x sibs -> y ∈ A).

Lemma hashed_apart a b : a ∈ A -> b ∈ B -> length a <> length b -> keccak256 a = keccak256 b -> collides A B.
Proof. intros Ha Hb Hl E. exists a, b. split; [done|]. split; [done|]. split; [congruence|done]. Qed.

Lemma length_x : length x = 32%nat.
Proof. rewrite Hx. apply length_keccak256. Qed.

(** The last step of a chain from a leaf: none, or a pair of 32-byte nodes. *)
Lemma leads_to_last v : leads_to v ->
  x = v \/ exists c s, leads_to c /\ length c = 32%nat /\ length s = 32%nat /\ v = hashPair c s /\ pair_input c s ∈ A.
Proof.
  intros (sibs & Hs & <- & HA). destruct sibs as [|s sibs _] using rev_ind; [by left|].
  right. apply Forall_app in Hs as [Hs H1]. rewrite chain_inputs_app in HA. exists (fold_left hashPair sibs x), s.
  split. { exists sibs. split; [done|]. split; [done|]. intros y Hy. apply HA, elem_of_app. by left. }
  split.
  - clear H1 HA. destruct sibs as [|s' sibs _] using rev_ind; [apply length_x|]. rewrite fold_left_app. apply hashPair_node32.
  - rewrite fold_left_app. split; [by inversion H1|]. split; [reflexivity|]. apply HA, elem_of_app. right. apply list_elem_of_here.
Qed.

(** A chain cannot end in the hash of a funder's input that is neither a
    leaf's nor a pair's. *)
Lemma leads_to_apart b : b ∈ B -> length b <> 84%nat -> length b <> 64%nat -> leads_to (keccak256 b) -> collides A B.
Proof.
  intros Hb H1 H2 Hc. apply leads_to_last in Hc as [Hc|(c & s & _ & Lc & Ls & E & Hp)].
  - rewrite Hx in Hc. apply (hashed_apart d b); [done..|congruence|done].
  - rewrite hashPair_alt in E. apply (hashed_apart (pair_input c s) b); [done..| |done]. rewrite length_pair_input by done. congruence.
Qed.

(** A chain that ends in a node reaches one of its children, or collides. *)
Lemma leads_to_child v cur : Forall node32 cur -> (forall y, y ∈ level_pairs cur -> y ∈ B) ->
  leads_to v -> v ∈ pair_up cur -> (exists v', v' ∈ cur /\ leads_to v') \/ collides A B.
Proof.
  intros Hn HB Hc. induction cur as [|y|a b l IH] using pairs_ind; intros Hv; [by apply not_elem_of_nil in Hv|left; by exists v|].
  rewrite !Forall_cons in Hn. destruct Hn as (Ha & Hb & Hn). cbn [pair_up level_pairs] in *.
  assert (Hpb : pair_input a b ∈ B) by apply HB, list_elem_of_here. apply elem_of_cons in Hv as [Hv|Hv].
  - apply leads_to_last in Hc as [Hc|(c & s & Hc & Lc & Ls & E & Hp)].
    + right. rewrite Hx, Hv, hashPair_alt in Hc. apply (hashed_apart d (pair_input a b)); [done..| |done].
      rewrite Hd, length_pair_input; [done|apply Ha|apply Hb].
    + rewrite Hv, !hashPair_alt in E. destruct (decide (pair_input c s = pair_input a b)) as [Eq|Hne].
      * left. apply pair_input_inj in Eq as [->| ->]; [| |apply Ha|apply Hb|done|done].
        -- exists a. split; [apply list_elem_of_here|done].
        -- exists b. split; [apply list_elem_of_further, list_elem_of_here|done].
      * right. by exists (pair_input c s), (pair_input a b).
  - destruct IH as [(v' & Hv' & H')|]; [done|intros y Hy; by apply HB, list_elem_of_further|done|left|by right].
    exists v'. split; [by apply list_elem_of_further, list_elem_of_further|done].
Qed.

Lemma leads_to_leaf fuel cur : Forall node32 cur -> (0 < length cur)%nat -> (length cur <= fuel)%nat ->
  (forall y, y ∈ concat (map level_pairs (levels_loop fuel cur)) -> y ∈ B) ->
  leads_to (top (levels_loop fuel cur)) -> (exists v', v' ∈ cur /\ leads_to v') \/ collides A B.
Proof.
  revert cur. induction fuel as [|fuel IH]; intros cur Hn H0 Hf HB Hc; [lia|].
  cbn [levels_loop] in Hc, HB. destruct (Nat.ltb_spec 1 (length cur)) as [Hlt|Hge].
  - pose proof (length_pair_up cur Hlt). destruct (levels_loop_shape fuel (pair_up cur)) as [rest E].
    rewrite top_cons in Hc by (rewrite E; done). cbn [map concat] in HB.
    apply IH in Hc as [(v & Hv & Hc)|]; [|by right|by apply pair_up_node32|lia|lia|intros y Hy; apply HB, elem_of_app; by right].
    eapply leads_to_child; [done|intros y Hy; apply HB, elem_of_app; by left|done|done].
  - left. destruct cur as [|y [|]]; cbn [length] in *; [lia| |lia]. exists y. split; [apply list_elem_of_here|done].
Qed.
End Chains.

Lemma process_proof_fold x pf sibs v : process_proof x pf = Returns v ->
  Forall2 (fun s b => hexToBytes s = Returns b /\ length b = 32%nat) pf sibs -> fold_left hashPair sibs x = v.
Proof.
  intros H Hp. revert x H. induction Hp as [|s b pf sibs [Hb Lb] _ IH]; intros x H; cbn [process_proof] in H.
  - by apply Returns_inj in H as ->.
  - rewrite Hb in H. cbn [mbind outcome_bind] in H. by apply IH in H.
Qed.

(** Everything hashed to verify a claim, and to build the funded root. *)
Definition leaf_input (leaf : MinerBonusLeaf) : bytes :=
  match hexToBytes (with_0x (leaf_miner leaf)) with Returns addr => leaf_bytes addr leaf | Throws _ => [] end.

Definition verify_inputs (leaf : MinerBonusLeaf) (sibs : list bytes) : list bytes :=
  leaf_input leaf :: chain_inputs (keccak256 (leaf_input leaf)) sibs.

Definition funding_inputs (leaves : list MinerBonusLeaf) : list bytes :=
  match leaves with
  | [] => [[]]
  | _ => map leaf_input leaves ++ concat (map level_pairs (buildLevels (map (fun l => keccak256 (leaf_input l)) leaves)))
  end.

Lemma leaf_hashes_input leaves hs : mapM computeLeafHash leaves = Returns hs -> hs = map (fun l => keccak256 (leaf_input l)) leaves.
Proof.
  rewrite mapM_Returns. induction 1 as [|l h ls hs Hh _ IH]; [done|]. cbn [map]. f_equal; [|done].
  apply computeLeafHash_spec in Hh as (addr & Ha & _ & ->). unfold leaf_input. by rewrite Ha.
Qed.

Lemma be_bytes_32_mod v w : be_bytes 32 v = be_bytes 32 w -> asUintN 256 v = asUintN 256 w.
Proof. intros E. apply (f_equal be_value) in E. by rewrite !be_value_be_bytes in E. Qed.

Lemma bonus_leaf_bytes_inj a1 l1 a2 l2 : length a1 = length a2 -> leaf_bytes a1 l1 = leaf_bytes a2 l2 ->
  a1 = a2 /\ asUintN 256 (bonusBotcoin l1) = asUintN 256 (bonusBotcoin l2) /\ asUintN 256 (capBotcoin l1) = asUintN 256 (capBotcoin l2).
Proof.
  intros Hl E. unfold leaf_bytes in E. apply app_inj_1 in E as [-> E]; [|done]. apply app_inj_1 in E as [E1 E2]; [|by rewrite !length_be_bytes].
  split; [done|]. split; by apply be_bytes_32_mod.
Qed.
End Tree.

(** ** Properties *)
Section Properties.
Context {HK : Hasher}.

(** A leaf is listed: same address, same amounts as 256-bit words. *)
Definition listed (leaf : MinerBonusLeaf) (leaves : list MinerBonusLeaf) : Prop :=
  exists l, l ∈ leaves /\ hexToBytes (with_0x (leaf_miner l)) = hexToBytes (with_0x (leaf_miner leaf))
  /\ asUintN 256 (bonusBotcoin l) = asUintN 256 (bonusBotcoin leaf) /\ asUintN 256 (capBotcoin l) = asUintN 256 (capBotcoin leaf).

(** Completeness of the claim path: when every leaf has a 20-byte address,
    a miner of the list gets a proof for its (first) leaf, and that proof
    verifies against the root that is funded for the same leaves. *)
Theorem claimProof_verifies (leaves : list MinerBonusLeaf) (hs : list bytes) (miner : string) (idx : nat) (leaf : MinerBonusLeaf) :
  mapM computeLeafHash leaves = Returns hs -> find_miner leaves miner = Some (idx, leaf) ->
  exists root pf, computeBonusMerkleRoot leaves = Returns root /\ length root = 32%nat
  /\ buildMinerClaimProof leaves miner = Returns (Some pf)
  /\ pf_bonusBotcoin pf = bonusBotcoin leaf /\ pf_capBotcoin pf = capBotcoin leaf /\ pf_miner pf = toLowerCase miner
  /\ leaves !! Z.to_nat (leafIndex pf) = Some leaf
  /\ verifyMinerClaimProof leaf (proof pf) root = Returns true.
Proof.
  intros Hhs Hf. destruct (leafHashes_node32 _ _ Hhs) as [Hn Hlen].
  apply list_find_Some in Hf as Hf'. destruct Hf' as (Hidx & Hm & _).
  unfold computeBonusMerkleRoot, buildMinerClaimProof. rewrite Hf, Hhs. cbn [mbind outcome_bind].
  eexists _, _. split; [reflexivity|]. split; [by apply buildLevels_top_node32|]. split; [reflexivity|].
  cbn [pf_bonusBotcoin pf_capBotcoin pf_miner leafIndex proof]. rewrite Nat2Z.id. do 2 (split; [done|]). do 2 (split; [done|]).
  apply mapM_Returns in Hhs. destruct (Forall2_lookup_l _ _ _ _ _ Hhs Hidx) as (h & Hh & Hlh).
  unfold verifyMinerClaimProof. rewrite Hlh. cbn [mbind outcome_bind].
  rewrite buildLevels_nonempty by (by intros ->). rewrite (proof_loop_complete _ _ _ h Hn) by done. cbn [mbind outcome_bind].
  by rewrite list_Zeqb_refl.
Qed.

(** Soundness of the claim path: a proof made of 32-byte siblings (the
    [bytes32[]] the contract takes) that verifies against the funded root
    is for a listed leaf, or the hash collides on a byte string hashed by the
    verifier and one hashed while funding. Leaf inputs are 84 bytes and pair
    inputs 64, so an inner node cannot pass for a leaf. *)
Theorem claimProof_sound (leaves : list MinerBonusLeaf) (root : bytes) (leaf : MinerBonusLeaf) (pf : list string) (sibs : list bytes) :
  computeBonusMerkleRoot leaves = Returns root ->
  Forall2 (fun s b => hexToBytes s = Returns b /\ length b = 32%nat) pf sibs ->
  verifyMinerClaimProof leaf pf root = Returns true ->
  listed leaf leaves \/ collides (verify_inputs leaf sibs) (funding_inputs leaves).
Proof.
  unfold computeBonusMerkleRoot, verifyMinerClaimProof. intros Hr Hp Hv.
  apply bind_Returns in Hr as (hs & Hhs & [= <-]). apply bind_Returns in Hv as (x & Hx & Hv).
  apply bind_Returns in Hv as (v & Hv & E). apply Returns_inj, list_Zeqb_spec in E as ->.
  apply process_proof_fold with (sibs := sibs) in Hv; [|done]. apply computeLeafHash_spec in Hx as (addr & Ha & La & Hx).
  destruct (leafHashes_node32 _ _ Hhs) as [Hn Hlen]. pose proof (length_leaf_bytes addr leaf La) as Ld.
  assert (Hin : leaf_input leaf = leaf_bytes addr leaf) by (unfold leaf_input; by rewrite Ha).
  assert (Hv' : leads_to (verify_inputs leaf sibs) x (top (buildLevels hs))).
  { exists sibs. split; [|split; [done|]].
    - apply Forall_forall. intros b Hb. apply list_elem_of_lookup in Hb as [i Hi].
      destruct (Forall2_lookup_r _ _ _ _ _ Hp Hi) as (? & _ & _ & Hl). done.
    - intros y Hy. unfold verify_inputs. rewrite Hin, <- Hx. by apply list_elem_of_further. }
  rewrite <- Hin in *. assert (HdA : leaf_input leaf ∈ verify_inputs leaf sibs) by apply list_elem_of_here.
  destruct leaves as [|l0 ls].
  { apply mapM_Returns, Forall2_nil_inv_l in Hhs as ->. right. change (top (buildLevels [])) with (keccak256 []) in Hv'.
    eapply (leads_to_apart _ (funding_inputs []) x (leaf_input leaf) Hx Ld HdA []); [apply list_elem_of_here|done..]. }
  set (leaves := l0 :: ls) in *. assert (Hne : (0 < length hs)%nat) by (rewrite Hlen; cbn; lia).
  pose proof (leaf_hashes_input _ _ Hhs) as Hmap.
  assert (HB : funding_inputs leaves = map leaf_input leaves ++ concat (map level_pairs (buildLevels hs))) by (rewrite Hmap; done).
  rewrite buildLevels_nonempty in Hv', HB by (by destruct hs).
  eapply (leads_to_leaf _ (funding_inputs leaves) x (leaf_input leaf) Hx Ld HdA) in Hv' as [(v & Hv1 & Hv2)|];
    [|by right|done|done|lia|intros y Hy; rewrite HB; apply elem_of_app; by right].
  apply list_elem_of_lookup in Hv1 as [i Hi]. apply mapM_Returns in Hhs.
  destruct (Forall2_lookup_r _ _ _ _ _ Hhs Hi) as (l & Hl & Hlh). apply computeLeafHash_spec in Hlh as (addr' & Ha' & La' & ->).
  pose proof (length_leaf_bytes addr' l La') as Ld'.
  assert (Hin' : leaf_input l = leaf_bytes addr' l) by (unfold leaf_input; by rewrite Ha').
  assert (HlB : leaf_bytes addr' l ∈ funding_inputs leaves).
  { rewrite HB, <- Hin'. apply elem_of_app. left. apply list_elem_of_fmap. exists l. split; [done|by eapply list_elem_of_lookup_2]. }
  eapply leads_to_last in Hv2 as [E|(c & s & _ & Lc & Ls & E & Hpi)]; [| |exact Hx].
  - rewrite Hx in E. destruct (decide (leaf_input leaf = leaf_bytes addr' l)) as [Eb|Hb]; [left|right; by exists (leaf_input leaf), (leaf_bytes addr' l)].
    rewrite Hin in Eb. apply bonus_leaf_bytes_inj in Eb as (-> & E1 & E2); [|congruence]. exists l. split; [by eapply list_elem_of_lookup_2|].
    by rewrite Ha, Ha', E1, E2.
  - right. rewrite hashPair_alt in E. apply (hashed_apart _ _ (pair_input c s) (leaf_bytes addr' l)); [done..| |done].
    by rewrite Ld', length_pair_input.
Qed.

(** The funding call: 100 bytes, the 4-byte selector and three 32-byte
    arguments, the epoch modulo 2^64, the Merkle root of the leaves, and
    the sum of the bonuses modulo 2^256; the reported total is the sum. *)
Theorem fundEpoch_calldata (epoch : Z) (leaves : list MinerBonusLeaf) (hs : list bytes) :
  mapM computeLeafHash leaves = Returns hs ->
  exists o root, buildFundEpochCalldata epoch leaves = Returns o /\ computeBonusMerkleRoot leaves = Returns root
  /\ calldata o = take 4 (keccak256 (text_encode "fundEpoch(uint64,bytes32,uint256)"))
                  ++ be_bytes 32 (epoch mod 2 ^ 64) ++ root ++ be_bytes 32 (totalBonus o)
  /\ length (calldata o) = 100%nat /\ totalBonus o = computeEpochTotalBonus leaves /\ merkleRoot o = root
  /\ hexToBytes (calldataHex o) = Returns (calldata o) /\ hexToBytes (merkleRootHex o) = Returns root.
Proof.
  intros Hhs. destruct (leafHashes_node32 _ _ Hhs) as [Hn Hlen].
  destruct (buildLevels_top_node32 hs Hn) as [L32 Hok]. unfold buildFundEpochCalldata.
  assert (Hr : computeBonusMerkleRoot leaves = Returns (top (buildLevels hs))) by (unfold computeBonusMerkleRoot; by rewrite Hhs).
  rewrite Hr. unfold encodeBytes32. cbn [mbind outcome_bind]. rewrite L32. change (negb (Z.of_nat 32 =? 32)) with false.
  cbn [throw_if mbind outcome_bind]. eexists _, _. split; [reflexivity|]. split; [reflexivity|].
  cbn [calldata calldataHex merkleRoot merkleRootHex totalBonus]. unfold concat_parts, encodeUint64.
  rewrite concatU8_concat, !encodeUint256_spec. cbn [concat]. rewrite app_nil_r.
  split; [done|]. pose proof (length_keccak256 (text_encode "fundEpoch(uint64,bytes32,uint256)")) as Lk.
  split; [rewrite !length_app, !length_be_bytes, length_take, Lk, L32; done|]. split; [done|]. split; [done|].
  rewrite !hexToBytes_bytesToHex; [done|done|]. rewrite !Forall_app.
  split; [apply Forall_take, keccak256_ok|]. split; [apply be_bytes_ok|]. split; [done|apply be_bytes_ok].
Qed.
End Properties.

(** ** Witnesses *)
Definition claim_leaves : list MinerBonusLeaf :=
  [mkLeaf "0x00000000000000000000000000000000000000aa" 20 20; mkLeaf "0x00000000000000000000000000000000000000bb" 1 1;
   mkLeaf "0x00000000000000000000000000000000000000cc" 5 5].
Definition leaf_cc : MinerBonusLeaf := mkLeaf "0x00000000000000000000000000000000000000cc" 5 5.
Definition leaf_bb : MinerBonusLeaf := mkLeaf "0x00000000000000000000000000000000000000bb" 1 1.

Lemma claim_leaves_hash `{Hasher} : exists hs, mapM computeLeafHash claim_leaves = Returns hs.
Proof. eexists. reflexivity. Defined.

Lemma claimProof_verifies_witness : exists root pf,
  computeBonusMerkleRoot (HK:=keccak_hasher) claim_leaves = Returns root
  /\ buildMinerClaimProof (HK:=keccak_hasher) claim_leaves "0x00000000000000000000000000000000000000BB" = Returns (Some pf)
  /\ verifyMinerClaimProof (HK:=keccak_hasher) leaf_bb (proof pf) root = Returns true.
Proof.
  destruct (claim_leaves_hash (H:=keccak_hasher)) as [hs Hhs].
  destruct (claimProof_verifies (HK:=keccak_hasher) claim_leaves hs "0x00000000000000000000000000000000000000BB" 1 leaf_bb Hhs)
    as (root & pf & H1 & _ & H2 & _ & _ & _ & _ & H3); [vm_compute; reflexivity|].
  exists root, pf. split; [exact H1|]. split; [exact H2|exact H3].
Defined.

Lemma claimProof_sound_witness :
  listed leaf_cc [leaf_cc] \/ collides (HK:=keccak_hasher) (verify_inputs (HK:=keccak_hasher) leaf_cc []) (funding_inputs (HK:=keccak_hasher) [leaf_cc]).
Proof.
  assert (E : computeBonusMerkleRoot (HK:=keccak_hasher) [leaf_cc] ≫= verifyMinerClaimProof (HK:=keccak_hasher) leaf_cc [] = Returns true).
  { vm_compute. reflexivity. }
  apply bind_Returns in E as (root & Hr & Hv).
  apply (claimProof_sound (HK:=keccak_hasher) [leaf_cc] root leaf_cc [] []); [exact Hr|constructor|exact Hv].
Defined.

Lemma fundEpoch_calldata_witness : exists o, buildFundEpochCalldata (HK:=keccak_hasher) 7 claim_leaves = Returns o
  /\ length (calldata o) = 100%nat /\ totalBonus o = 26.
Proof.
  destruct (claim_leaves_hash (H:=keccak_hasher)) as [hs Hhs].
  destruct (fundEpoch_calldata (HK:=keccak_hasher) 7 claim_leaves hs Hhs) as (o & root & H1 & _ & _ & H2 & H3 & _).
  exists o. split; [exact H1|]. split; [exact H2|]. rewrite H3. vm_compute. reflexivity.
Defined.

(** A multiplier below 10000 bps (no guard excludes it) makes a negative
    bonus, which the leaf encodes as the two's complement word: a claim of
    almost 2^256 at a total that is negative. *)
Theorem multiplier_below_par_wraps :
  computeMinerBonus "0xAA" 10000 9999 = Returns (mkLeaf "0xaa" (-1) (-1))
  /\ encodeUint256 (-1) = encodeUint256 (2 ^ 256 - 1)
  /\ computeEpochTotalBonus [mkLeaf "0xaa" (-1) (-1)] = -1.
Proof. vm_compute. repeat split. Qed.
