(* ===== verification/Coordinator.v ===== *)
(** * Coordinator: the confirmed state (coordinator/coretex-coordinator-core.ts)

    The coordinator keeps the chain-confirmed state of one epoch. [boot]
    checks the deployment and replays the log, [tickInner] follows it behind a
    confirmation depth, rolls back to a canonical snapshot after a reorg and
    gates signing on parity with the registry; pending receipts are
    confirmed, staled or expired on the way. [CoordinatorWatch] proves that
    the log is followed, [CoordinatorSubmit] models the issue of receipts.

    The class is a record of its fields, in groups; a method is an operation
    of a monad ([core_op]) that threads the record and keeps it when it
    throws. What the chain client answers during one operation is a parameter
    ([ChainClient]). Operations that hold the mutex are single steps, and so
    are the short ones that do not wait. Event and configuration strings are
    ASCII; counts, limits, times and scores in ppm are integers.

    [chain_inv] is what every operation keeps: the live state is the Merkle
    preimage of the live root, reached from the parent by accepted patches,
    the snapshots are consecutive, and every state served has its root. *)
From Stdlib Require Import Ascii Sorted.
From stdpp Require Import sorting.
From S2P Require Import Prelude JsSort StateTypes Float Codec Keccak Merkle Decoder Substrate Validate Patch SeedDerivation SlotPolicy PerPatch WorkUnits CanonicalJson.
#[local] Open Scope Z_scope.

(** ** What the chain answers *)
Record CoreTexStateAdvancedEvent := mkEvent {
  ev_blockNumber : Z;
  ev_blockHash : string;
  ev_logIndex : Z;
  ev_epoch : Z;
  ev_transitionIndex : Z;
  ev_miner : string;
  ev_parent : string;
  ev_newRoot : string;
  ev_patchHash : string;
  ev_evalReportHash : string;
  coreV : string;
  corpus : string;
  frontier : string;
  credits : Z;
  ev_wordCount : Z;
  ev_compactPatchBytes : string
}.

Record RegistryEpochPins := mkEpochPins {
  pin_parentStateRoot : string;
  pin_coreVersionHash : string;
  pin_corpusRoot : string;
  pin_activeFrontierRoot : string;
  pin_baselineManifestHash : string;
  pin_hiddenSeedCommit : string
}.

Record CoreTexMinerCounters := mkCounters { screenersThisEpoch : Z; nextIndex : Z; lastReceiptHash : string }.

(** The answers of the client during one operation; [getBlockHashAt], which an operation may call several times, is
    also given the number of the call. *)
Record ChainClient := mkChain {
  getBlockNumber : outcome Z;
  getBlockHashAt : nat -> Z -> outcome (option string);
  getStateAdvancedEvents : Z -> Z -> outcome (list CoreTexStateAdvancedEvent);
  getRegistryEpoch : Z -> outcome (string * Z);
  getRegistryEpochPins : Z -> outcome RegistryEpochPins;
  getV4CurrentEpoch : outcome Z;
  getV4EpochCommit : Z -> outcome string;
  getV4CoordinatorSigner : outcome string;
  getV4CoreTexRegistry : outcome string;
  getChainId : outcome Z;
  getMinerCoreTexCounters : Z -> string -> outcome CoreTexMinerCounters;
  getQualifiedScreenerPassesSinceLastStateAdvance : Z -> outcome Z
}.

Inductive BaselineVarianceSource := rotating_pack | broad_sampling | unavailable.

(** The fields the operations read; counts, limits and scores in ppm are integers. *)
Record CoreTexCoordinatorConfig := mkConfig {
  cf_epoch : Z;
  expectedChainId : Z;
  cf_miningContractAddress : option string;
  v4Address : option string;
  registryAddress : string;
  expectedCoordinatorSigner : string;
  expectedEpochPins : RegistryEpochPins;
  confirmationDepth : Z;
  cf_replayFromBlock : option Z;
  receiptTtlSec : Z;
  perMinerScreenerCap : option Z;
  cf_screenerThresholdPpm : option Z;
  cf_minImprovementPpm : option Z;
  cf_replayTolerancePpm : option Z;
  maxPatchBytes : option Z;
  maxQueuedSubmits : option Z;
  maxQueuedSubmitsPerMiner : option Z;
  cf_baselineScorePpm : option Z;
  cf_baselineParentScorePpm : option Z;
  baselineVariancePpm : option Z;
  baselineVarianceSource : option BaselineVarianceSource;
  fixedPackRepeatabilityPpm : option Z;
  cf_recentNoiseFloorPpm : option Z;
  cf_targetBlockOffset : option Z;
  cf_rulesVersion : option Z;
  workPolicyHash : option string;
  workPolicy : option CoreTexWorkPolicy
}.

(** ** The fields of the class *)
Record Snapshot := mkSnapshot {
  sn_transitionIndex : Z;
  sn_blockNumber : Z;
  sn_blockHash : string;
  sn_parent : string;
  sn_root : string;
  sn_patchHash : string;
  sn_state : CortexState
}.

Inductive PendingState := pending | confirmed | stale | expired.
#[export] Instance PendingState_eq : EqDecision PendingState.
Proof. solve_decision. Defined.

Record PendingReceipt := mkPending {
  originalPatchHash : string;
  signedPatchHash : string;
  p_parentRoot : string;
  expectedNewRoot : string;
  p_compactPatchBytes : string;
  p_miner : string;
  p_issuedAt : Z;
  p_expiresAt : Z;
  p_scoreAfterPpm : option Z;
  p_state : PendingState
}.

Record Transaction := mkTransaction { tx_to : string; tx_chainId : Z; tx_value : string; tx_data : string }.

(** The envelope handed to the miner; the receipt inside is opaque once signed. *)
Record ReceiptEnvelope := mkEnvelope {
  isStateAdvance : bool;
  env_patchHash : string;
  env_evalReportHash : string;
  env_workUnitsBps : Z;
  env_newStateRoot : string;
  perMinerScreenerCount : Z;
  perMinerScreenerRemaining : Z;
  env_receipt : jsval;
  transaction : Transaction;
  env_issuedAt : Z;
  env_expiresAt : Z
}.

Record Reservation := mkReservation { rv_nextIndex : Z; rv_lastReceiptHash : option string; rv_expiresAt : Z }.

(** Why signing is off; the messages name these facts. *)
Inductive Reason :=
  | StartupReplayPending
  | AwaitingFinality (coord chain : Z)
  | ParityCount (coord chain : Z)
  | ParityRoot (chain coord : string)
  | ReorgReconciling
  | ReorgUnrecoverable
  | EpochMismatch (v4 configured : Z)
  | EpochCheckFailed
  | WatcherFault
  | Forced (reason : string).

Record Confirmed := mkConfirmed {
  liveState : CortexState;
  liveRoot : string;
  parentState : CortexState;
  parentRoot : string;
  lastTransitionIndex : Z;
  stateByRoot : list (string * CortexState);
  snapshots : list Snapshot;
  lastScannedBlock : Z;
  replayFromBlock : Z
}.

Record Health := mkHealth {
  signingEnabled : bool;
  unhealthyReason : option Reason;
  chainLiveRoot : string;
  chainTransitionCount : Z;
  finalityLagBlocks : Z;
  lastEpochMismatch : option Z;
  transientChainFailureSinceMs : option Z
}.

Record Freeze := mkFreeze { frozen : bool; frozenReason : option string; freezeGeneration : Z }.
Record Baselines := mkBaselines { baselineByRoot : list (string * Z); currentBaselineVariancePpm : option Z }.

Record Receipts := mkReceipts {
  minerChainReservations : list (string * Reservation);
  pendingByPatchHash : list (string * PendingReceipt);
  receiptCache : list (string * ReceiptEnvelope);
  expiredReceiptTombstones : list (string * Z);
  submitDedup : list (string * Z)
}.

Record Metrics := mkMetrics {
  reorgRollbackCount : Z;
  parityMismatchCount : Z;
  epochMismatchCount : Z;
  receiptExpiryCount : Z;
  staleReceiptCount : Z;
  evalFailureCount : Z;
  signerFailureCount : Z;
  watcherFaultCount : Z;
  submitRejectedByCode : list (string * Z)
}.

Record Core := mkCore {
  conf : Confirmed;
  health : Health;
  freezing : Freeze;
  baselines : Baselines;
  receipts : Receipts;
  metrics : Metrics
}.

(** Updates of one group. *)
Definition on_conf (f : Confirmed -> Confirmed) (c : Core) : Core := mkCore (f (conf c)) (health c) (freezing c) (baselines c) (receipts c) (metrics c).
Definition on_health (f : Health -> Health) (c : Core) : Core := mkCore (conf c) (f (health c)) (freezing c) (baselines c) (receipts c) (metrics c).
Definition on_freezing (f : Freeze -> Freeze) (c : Core) : Core := mkCore (conf c) (health c) (f (freezing c)) (baselines c) (receipts c) (metrics c).
Definition on_baselines (f : Baselines -> Baselines) (c : Core) : Core := mkCore (conf c) (health c) (freezing c) (f (baselines c)) (receipts c) (metrics c).
Definition on_receipts (f : Receipts -> Receipts) (c : Core) : Core := mkCore (conf c) (health c) (freezing c) (baselines c) (f (receipts c)) (metrics c).
Definition on_metrics (f : Metrics -> Metrics) (c : Core) : Core := mkCore (conf c) (health c) (freezing c) (baselines c) (receipts c) (f (metrics c)).

Definition set_signing (b : bool) (r : option Reason) (h : Health) : Health :=
  mkHealth b r (chainLiveRoot h) (chainTransitionCount h) (finalityLagBlocks h) (lastEpochMismatch h) (transientChainFailureSinceMs h).
Definition set_chain (root : string) (count : Z) (h : Health) : Health :=
  mkHealth (signingEnabled h) (unhealthyReason h) root count (finalityLagBlocks h) (lastEpochMismatch h) (transientChainFailureSinceMs h).
Definition set_lag (lag : Z) (h : Health) : Health :=
  mkHealth (signingEnabled h) (unhealthyReason h) (chainLiveRoot h) (chainTransitionCount h) lag (lastEpochMismatch h) (transientChainFailureSinceMs h).
Definition set_epochMismatch (e : option Z) (h : Health) : Health :=
  mkHealth (signingEnabled h) (unhealthyReason h) (chainLiveRoot h) (chainTransitionCount h) (finalityLagBlocks h) e (transientChainFailureSinceMs h).
Definition set_transient (t : option Z) (h : Health) : Health :=
  mkHealth (signingEnabled h) (unhealthyReason h) (chainLiveRoot h) (chainTransitionCount h) (finalityLagBlocks h) (lastEpochMismatch h) t.

Definition set_pendings (m : list (string * PendingReceipt)) (r : Receipts) : Receipts :=
  mkReceipts (minerChainReservations r) m (receiptCache r) (expiredReceiptTombstones r) (submitDedup r).
Definition set_cache (m : list (string * ReceiptEnvelope)) (r : Receipts) : Receipts :=
  mkReceipts (minerChainReservations r) (pendingByPatchHash r) m (expiredReceiptTombstones r) (submitDedup r).
Definition set_tombstones (m : list (string * Z)) (r : Receipts) : Receipts :=
  mkReceipts (minerChainReservations r) (pendingByPatchHash r) (receiptCache r) m (submitDedup r).
Definition set_dedup (m : list (string * Z)) (r : Receipts) : Receipts :=
  mkReceipts (minerChainReservations r) (pendingByPatchHash r) (receiptCache r) (expiredReceiptTombstones r) m.
Definition set_reservations (m : list (string * Reservation)) (r : Receipts) : Receipts :=
  mkReceipts m (pendingByPatchHash r) (receiptCache r) (expiredReceiptTombstones r) (submitDedup r).

Definition add_reorg (m : Metrics) : Metrics := mkMetrics (reorgRollbackCount m + 1) (parityMismatchCount m) (epochMismatchCount m) (receiptExpiryCount m)
  (staleReceiptCount m) (evalFailureCount m) (signerFailureCount m) (watcherFaultCount m) (submitRejectedByCode m).
Definition add_parity (m : Metrics) : Metrics := mkMetrics (reorgRollbackCount m) (parityMismatchCount m + 1) (epochMismatchCount m) (receiptExpiryCount m)
  (staleReceiptCount m) (evalFailureCount m) (signerFailureCount m) (watcherFaultCount m) (submitRejectedByCode m).
Definition add_epoch (m : Metrics) : Metrics := mkMetrics (reorgRollbackCount m) (parityMismatchCount m) (epochMismatchCount m + 1) (receiptExpiryCount m)
  (staleReceiptCount m) (evalFailureCount m) (signerFailureCount m) (watcherFaultCount m) (submitRejectedByCode m).
Definition add_expiry (m : Metrics) : Metrics := mkMetrics (reorgRollbackCount m) (parityMismatchCount m) (epochMismatchCount m) (receiptExpiryCount m + 1)
  (staleReceiptCount m) (evalFailureCount m) (signerFailureCount m) (watcherFaultCount m) (submitRejectedByCode m).
Definition add_stale (n : Z) (m : Metrics) : Metrics := mkMetrics (reorgRollbackCount m) (parityMismatchCount m) (epochMismatchCount m) (receiptExpiryCount m)
  (staleReceiptCount m + n) (evalFailureCount m) (signerFailureCount m) (watcherFaultCount m) (submitRejectedByCode m).
Definition add_evalFailure (m : Metrics) : Metrics := mkMetrics (reorgRollbackCount m) (parityMismatchCount m) (epochMismatchCount m) (receiptExpiryCount m)
  (staleReceiptCount m) (evalFailureCount m + 1) (signerFailureCount m) (watcherFaultCount m) (submitRejectedByCode m).
Definition add_signerFailure (m : Metrics) : Metrics := mkMetrics (reorgRollbackCount m) (parityMismatchCount m) (epochMismatchCount m) (receiptExpiryCount m)
  (staleReceiptCount m) (evalFailureCount m) (signerFailureCount m + 1) (watcherFaultCount m) (submitRejectedByCode m).
Definition add_watcherFault (m : Metrics) : Metrics := mkMetrics (reorgRollbackCount m) (parityMismatchCount m) (epochMismatchCount m) (receiptExpiryCount m)
  (staleReceiptCount m) (evalFailureCount m) (signerFailureCount m) (watcherFaultCount m + 1) (submitRejectedByCode m).
Definition add_rejected (code : string) (m : Metrics) : Metrics := mkMetrics (reorgRollbackCount m) (parityMismatchCount m) (epochMismatchCount m) (receiptExpiryCount m)
  (staleReceiptCount m) (evalFailureCount m) (signerFailureCount m) (watcherFaultCount m)
  (jsmap_set code (default 0 (jsmap_get code (submitRejectedByCode m)) + 1) (submitRejectedByCode m)).

(** ** Operations: the record is threaded, and kept when an exception is thrown. *)
Definition core_op (A : Type) : Type := Core -> Core * outcome A.
#[export] Instance core_ret : MRet core_op := fun A a c => (c, Returns a).
#[export] Instance core_bind : MBind core_op := fun A B f m c =>
  match m c with
  | (c', Returns a) => f a c'
  | (c', Throws e) => (c', Throws e)
  end.
Definition get_core : core_op Core := fun c => (c, Returns c).
Definition modify (f : Core -> Core) : core_op unit := fun c => (f c, Returns tt).
Definition run_outcome {A} (m : outcome A) : core_op A := fun c => (c, m).
Definition try_catch {A} (m : core_op A) (h : js_error -> core_op A) : core_op A := fun c =>
  match m c with
  | (c', Throws e) => h e c'
  | r => r
  end.
Definition throw_op (b : bool) (tag : string) : core_op unit := run_outcome (throw_if b (GenericError tag)).

(** ** Helpers *)
(** This module's [hexToBytes]: an odd number of digits is padded with a zero, and pairs that are not hexadecimal read as NaN, stored as 0. *)
Definition hexToBytes_padded (h : string) : bytes :=
  let s := strip_0x h in
  let padded := if Nat.odd (String.length s) then String "0" s else s in
  match hex_pairs (String.list_ascii_of_string padded) with
  | Some ps => map (fun '(a, b) => default 0 (parseInt16 a b) mod 256) ps
  | None => []
  end.

Definition isAddress : string -> bool := hex_re 40.
Definition isBytes32 : string -> bool := hex_re 64.

(** [a.toLowerCase() !== b.toLowerCase()] *)
Definition hexNe (a b : string) : bool := negb (String.eqb (toLowerCase a) (toLowerCase b)).

Definition ZERO_HASH : string := bytesToHex (zeros 32).
Definition MAX_SNAPSHOTS : nat := 64.
Definition TRANSIENT_CHAIN_FAILURE_GRACE_MS : Z := 60000.

Definition miningContractAddress (cfg : CoreTexCoordinatorConfig) : string :=
  match cf_miningContractAddress cfg with Some a => a | None => default ""%string (v4Address cfg) end.

Definition launchBaselinePpm (cfg : CoreTexCoordinatorConfig) : outcome Z :=
  match (match cf_baselineParentScorePpm cfg with Some b => Some b | None => cf_baselineScorePpm cfg end) with
  | Some b => if negb (isSafeInteger b) || (b <? 0) then Throws (GenericError "coord: launch baselineParentScorePpm must be configured") else Returns b
  | None => Throws (GenericError "coord: launch baselineParentScorePpm must be configured")
  end.

(** [v !== undefined && v < lo] *)
Definition below (v : option Z) (lo : Z) : bool := match v with Some x => x <? lo | None => false end.

Definition validateStaticConfig (cfg : CoreTexCoordinatorConfig) : outcome unit :=
  throw_when negb (isAddress (miningContractAddress cfg)) with GenericError "coord: miningContractAddress must be a configured address" ;;
  throw_when negb (isAddress (registryAddress cfg)) with GenericError "coord: registryAddress must be a configured address" ;;
  throw_when confirmationDepth cfg <? 0 with GenericError "coord: confirmationDepth must be a non-negative integer" ;;
  throw_when receiptTtlSec cfg <=? 0 with GenericError "coord: receiptTtlSec must be a positive integer" ;;
  throw_when default 0 (cf_rulesVersion cfg) <=? 0 with GenericError "coord: rulesVersion must be configured" ;;
  throw_when negb (isBytes32 (default ""%string (workPolicyHash cfg))) with GenericError "coord: workPolicyHash bytes32 must be configured" ;;
  throw_when below (perMinerScreenerCap cfg) 1 with GenericError "coord: perMinerScreenerCap must be positive when configured" ;;
  throw_when below (maxPatchBytes cfg) 42 with GenericError "coord: maxPatchBytes must be at least the minimum patch size" ;;
  throw_when below (cf_targetBlockOffset cfg) 1 with GenericError "coord: targetBlockOffset must be a positive integer" ;;
  _ ← launchBaselinePpm cfg;
  throw_when below (cf_screenerThresholdPpm cfg) 0 with GenericError "coord: screenerThresholdPpm floor must be non-negative when configured" ;;
  throw_when below (baselineVariancePpm cfg) 0 with GenericError "coord: baselineVariancePpm must be non-negative when configured" ;;
  throw_when below (fixedPackRepeatabilityPpm cfg) 0 with GenericError "coord: fixedPackRepeatabilityPpm must be non-negative when configured" ;;
  Returns tt.

(** The constructor. *)
Definition new_core (cfg : CoreTexCoordinatorConfig) : Core :=
  let variance := match default unavailable (baselineVarianceSource cfg) with unavailable => None | _ => baselineVariancePpm cfg end in
  mkCore (mkConfirmed (mkState []) "" (mkState []) "" (-1) [] [] 0 0)
    (mkHealth false (Some StartupReplayPending) "" 0 0 None None)
    (mkFreeze false None 0) (mkBaselines [] variance) (mkReceipts [] [] [] [] []) (mkMetrics 0 0 0 0 0 0 0 0 []).

Definition effectiveBaselinePpm (c : Core) : option Z := jsmap_get (toLowerCase (liveRoot (conf c))) (baselineByRoot (baselines c)).

Section WithHasher.
Context {HK : Hasher}.

(** ** Chain events *)
(** The checks of [applyChainEvent]: nothing for an event of an earlier epoch, or the next state and root. *)
Definition verify_event (cfg : CoreTexCoordinatorConfig) (c : Confirmed) (ev : CoreTexStateAdvancedEvent) : outcome (option (CortexState * string)) :=
  if ev_epoch ev <? cf_epoch cfg then Returns None
  else
    throw_when negb (ev_epoch ev =? cf_epoch cfg) with GenericError "watcher: event epoch" ;;
    throw_when negb (ev_transitionIndex ev =? lastTransitionIndex c + 1) with GenericError "watcher: non-contiguous transitionIndex" ;;
    throw_when hexNe (ev_parent ev) (liveRoot c) with GenericError "watcher: event parent" ;;
    throw_when hexNe (coreV ev) (pin_coreVersionHash (expectedEpochPins cfg)) with GenericError "watcher: event coreVersionHash" ;;
    throw_when hexNe (corpus ev) (pin_corpusRoot (expectedEpochPins cfg)) with GenericError "watcher: event corpusRoot" ;;
    throw_when hexNe (frontier ev) (pin_activeFrontierRoot (expectedEpochPins cfg)) with GenericError "watcher: event activeFrontierRoot" ;;
    let recomputedPatchHash := computePatchHash (hexToBytes_padded (ev_compactPatchBytes ev)) in
    throw_when hexNe recomputedPatchHash (ev_patchHash ev) with GenericError "watcher: patchHash mismatch" ;;
    decoded ← decodePatch (hexToBytes_padded (ev_compactPatchBytes ev));
    next ← applyPatch (liveState c) decoded true;
    match next with
    | PatchFailure _ => Throws (GenericError "watcher: applyPatch failed")
    | PatchSuccess state =>
      throw_when negb (ev_wordCount ev =? wordCount decoded) with GenericError "watcher: event wordCount" ;;
      root ← merkleizeState state;
      let newRoot := toLowerCase (bytesToHex root) in
      throw_when negb (String.eqb newRoot (toLowerCase (ev_newRoot ev))) with GenericError "watcher: newStateRoot mismatch" ;;
      Returns (Some (state, newRoot))
    end.

(** [push] and, past the limit, [shift]. *)
Definition push_snapshot (s : Snapshot) (l : list Snapshot) : list Snapshot :=
  let l' := l ++ [s] in if (MAX_SNAPSHOTS <? length l')%nat then tail l' else l'.

Definition set_state (st : PendingState) (p : PendingReceipt) : PendingReceipt :=
  mkPending (originalPatchHash p) (signedPatchHash p) (p_parentRoot p) (expectedNewRoot p) (p_compactPatchBytes p) (p_miner p) (p_issuedAt p) (p_expiresAt p)
    (p_scoreAfterPpm p) st.

Definition hexEqb (a b : string) : bool := String.eqb (toLowerCase a) (toLowerCase b).

(** The pending loop of [applyChainEvent] on one receipt: its new state. *)
Definition book_state (ev : CoreTexStateAdvancedEvent) (p : PendingReceipt) : PendingState :=
  match p_state p with
  | pending =>
    if hexEqb (p_parentRoot p) (ev_parent ev) && hexEqb (signedPatchHash p) (ev_patchHash ev) then confirmed
    else if hexEqb (p_parentRoot p) (ev_parent ev) then stale
    else pending
  | st => st
  end.
Definition just (was now : PendingState) (p p' : PendingReceipt) : bool := bool_decide (p_state p = was) && bool_decide (p_state p' = now).

Definition book_one (ev : CoreTexStateAdvancedEvent) (newRoot : string) (c : Core) (e : string * PendingReceipt) : Core :=
  let p := e.2 in
  let p' := set_state (book_state ev p) p in
  let c := on_receipts (fun r => set_pendings (jsmap_set e.1 p' (pendingByPatchHash r)) r) c in
  let c := if just pending confirmed p p' then
      match p_scoreAfterPpm p with
      | Some score => on_baselines (fun b => mkBaselines (jsmap_set newRoot score (baselineByRoot b)) (currentBaselineVariancePpm b)) c
      | None => c
      end else c in
  if just pending stale p p' then on_metrics (add_stale 1) c else c.

Definition commit_event (ev : CoreTexStateAdvancedEvent) (state : CortexState) (newRoot : string) (c : Core) : Core :=
  let c := on_conf (fun f => mkConfirmed state newRoot (parentState f) (parentRoot f) (ev_transitionIndex ev) (jsmap_set newRoot state (stateByRoot f))
    (push_snapshot (mkSnapshot (ev_transitionIndex ev) (ev_blockNumber ev) (ev_blockHash ev) (toLowerCase (ev_parent ev)) newRoot
                      (toLowerCase (ev_patchHash ev)) state) (snapshots f))
    (lastScannedBlock f) (replayFromBlock f)) c in
  fold_left (book_one ev newRoot) (pendingByPatchHash (receipts c)) c.

Definition applyChainEvent (cfg : CoreTexCoordinatorConfig) (ev : CoreTexStateAdvancedEvent) : core_op unit :=
  c ← get_core;
  r ← run_outcome (verify_event cfg (conf c) ev);
  match r with
  | None => mret tt
  | Some (state, newRoot) => modify (commit_event ev state newRoot)
  end.

Fixpoint applyChainEvents (cfg : CoreTexCoordinatorConfig) (evs : list CoreTexStateAdvancedEvent) : core_op unit :=
  match evs with
  | [] => mret tt
  | ev :: evs' => _ ← applyChainEvent cfg ev; applyChainEvents cfg evs'
  end.

Definition event_cmp (a b : CoreTexStateAdvancedEvent) : Z :=
  let db := ev_blockNumber a - ev_blockNumber b in if negb (db =? 0) then db else ev_logIndex a - ev_logIndex b.

(** ** Pending receipts *)
Definition markExpiredReceiptHash (cfg : CoreTexCoordinatorConfig) (hash : string) (nowSec : Z) (r : Receipts) : Receipts :=
  set_tombstones (jsmap_set (toLowerCase hash) (nowSec + receiptTtlSec cfg) (expiredReceiptTombstones r)) r.

Definition dedup_key (parent hash : string) : string := (parent +:+ "|" +:+ hash)%string.

Definition drop_cached (p : PendingReceipt) (r : Receipts) : Receipts :=
  set_cache (jsmap_delete (toLowerCase (originalPatchHash p)) (jsmap_delete (toLowerCase (signedPatchHash p)) (receiptCache r))) r.
Definition entomb (cfg : CoreTexCoordinatorConfig) (p : PendingReceipt) (nowSec : Z) (r : Receipts) : Receipts :=
  markExpiredReceiptHash cfg (originalPatchHash p) nowSec (markExpiredReceiptHash cfg (signedPatchHash p) nowSec r).

Definition gc_pending_one (cfg : CoreTexCoordinatorConfig) (nowSec : Z) (c : Core) (e : string * PendingReceipt) : Core :=
  let p := e.2 in
  if bool_decide (p_state p = pending) && (p_expiresAt p <=? nowSec) then
    let c := on_receipts (fun r => set_pendings (jsmap_set e.1 (set_state expired p) (pendingByPatchHash r)) r) c in
    let c := on_metrics add_expiry c in
    on_receipts (fun r =>
      let r := set_dedup (jsmap_delete (dedup_key (toLowerCase (p_parentRoot p)) (toLowerCase (originalPatchHash p))) (submitDedup r)) r in
      let r := drop_cached p (entomb cfg p nowSec r) in
      set_pendings (jsmap_delete (toLowerCase (signedPatchHash p)) (pendingByPatchHash r)) r) c
  else c.

Definition gc_cache_one (cfg : CoreTexCoordinatorConfig) (nowSec : Z) (c : Core) (e : string * ReceiptEnvelope) : Core :=
  match jsmap_get (toLowerCase (env_patchHash e.2)) (pendingByPatchHash (receipts c)) with
  | Some p =>
    if bool_decide (p_state p = expired) then on_receipts (fun r => drop_cached p (entomb cfg p nowSec r)) c else c
  | None =>
    if env_expiresAt e.2 <=? nowSec then
      on_metrics add_expiry (on_receipts (fun r => markExpiredReceiptHash cfg e.1 nowSec (set_cache (jsmap_delete e.1 (receiptCache r)) r)) c)
    else c
  end.

(** The entries that have not run out. *)
Definition unexpired {V} (until : V -> Z) (nowSec : Z) (m : list (string * V)) : list (string * V) := filter (fun e => nowSec < until e.2) m.

Definition gcPending (cfg : CoreTexCoordinatorConfig) (nowSec : Z) (c : Core) : Core :=
  let c := fold_left (gc_pending_one cfg nowSec) (pendingByPatchHash (receipts c)) c in
  let c := fold_left (gc_cache_one cfg nowSec) (receiptCache (receipts c)) c in
  let c := on_receipts (fun r => set_dedup (unexpired id nowSec (submitDedup r)) r) c in
  let c := on_receipts (fun r => set_tombstones (unexpired id nowSec (expiredReceiptTombstones r)) r) c in
  on_receipts (fun r => set_reservations (unexpired rv_expiresAt nowSec (minerChainReservations r)) r) c.

Definition audit_one (c : Core) (e : string * PendingReceipt) : Core :=
  let p := e.2 in
  if bool_decide (p_state p = pending) then
    match jsmap_get (toLowerCase (p_parentRoot p)) (stateByRoot (conf c)) with
    | Some _ => c
    | None => on_metrics (add_stale 1) (on_receipts (fun r => set_pendings (jsmap_set e.1 (set_state stale p) (pendingByPatchHash r)) r) c)
    end
  else c.
Definition auditReceiptCacheAgainstCanonicalRoots (c : Core) : Core := fold_left audit_one (pendingByPatchHash (receipts c)) c.

Definition reconcile_state (snaps : list Snapshot) (p : PendingReceipt) : PendingState :=
  fold_left (fun st snap =>
      match st with
      | pending =>
        if negb (hexEqb (p_parentRoot p) (sn_parent snap)) then pending
        else if hexEqb (signedPatchHash p) (sn_patchHash snap) then confirmed else stale
      | st => st
      end)
    snaps (match p_state p with expired => expired | _ => pending end).

Definition reconcilePendingFromCanonicalSnapshots (c : Core) : Core :=
  on_receipts (fun r => set_pendings (map (fun e => (e.1, set_state (reconcile_state (snapshots (conf c)) e.2) e.2)) (pendingByPatchHash r)) r) c.

(** ** Reorgs *)
(** [canonical && canonical.toLowerCase() === hash.toLowerCase()] *)
Definition canonical_is (canonical : option string) (hash : string) : bool :=
  match canonical with
  | None | Some EmptyString => false
  | Some h => hexEqb h hash
  end.

(** The index of the deepest snapshot whose block is canonical, from [i - 1] down; [call] counts the questions. *)
Fixpoint find_canonical (hashAt : nat -> Z -> outcome (option string)) (snaps : list Snapshot) (i call : nat) : outcome (option nat) :=
  match i with
  | O => Returns None
  | S j =>
    match snaps !! j with
    | None => Returns None
    | Some snap =>
      canonical ← hashAt call (sn_blockNumber snap);
      if canonical_is canonical (sn_blockHash snap) then Returns (Some j) else find_canonical hashAt snaps j (S call)
    end
  end.

Definition rollback (keep : option nat) (f : Confirmed) : Confirmed :=
  let kept := match keep with Some k => take (S k) (snapshots f) | None => [] end in
  let roots := map (fun s => toLowerCase (sn_root s)) kept ++ [toLowerCase (parentRoot f)] in
  let byRoot := filter (fun e => e.1 ∈ roots) (stateByRoot f) in
  match keep ≫= (fun k => snapshots f !! k) with
  | Some snap =>
    mkConfirmed (sn_state snap) (toLowerCase (sn_root snap)) (parentState f) (parentRoot f) (sn_transitionIndex snap) byRoot kept
      (sn_blockNumber snap) (replayFromBlock f)
  | None =>
    mkConfirmed (parentState f) (toLowerCase (parentRoot f)) (parentState f) (parentRoot f) (-1) byRoot kept
      (Z.max 0 (replayFromBlock f - 1)) (replayFromBlock f)
  end.

Definition handleReorg (hashAt : nat -> Z -> outcome (option string)) : core_op bool :=
  c ← get_core;
  keep ← run_outcome (find_canonical hashAt (snapshots (conf c)) (length (snapshots (conf c))) 1);
  _ ← modify (on_conf (rollback keep));
  _ ← modify reconcilePendingFromCanonicalSnapshots;
  _ ← modify auditReceiptCacheAgainstCanonicalRoots;
  _ ← modify (on_health (set_signing false (Some ReorgReconciling)));
  _ ← modify (on_metrics add_reorg);
  mret true.

(** ** Parity and epoch gates *)
Definition parityCheck (cfg : CoreTexCoordinatorConfig) (chain : ChainClient) : core_op bool :=
  reg ← run_outcome (getRegistryEpoch chain (cf_epoch cfg));
  _ ← modify (on_health (set_chain (toLowerCase reg.1) reg.2));
  c ← get_core;
  let coordCount := lastTransitionIndex (conf c) + 1 in
  if reg.2 <? coordCount then
    _ ← modify (on_health (set_signing false (Some (ParityCount coordCount reg.2))));
    _ ← modify (on_metrics add_parity);
    mret false
  else if coordCount <? reg.2 then
    _ ← modify (on_health (set_signing false (Some (AwaitingFinality coordCount reg.2))));
    mret false
  else if hexNe reg.1 (liveRoot (conf c)) then
    _ ← modify (on_health (set_signing false (Some (ParityRoot reg.1 (liveRoot (conf c))))));
    _ ← modify (on_metrics add_parity);
    mret false
  else mret true.

Definition checkEpochStillCurrent (cfg : CoreTexCoordinatorConfig) (chain : ChainClient) : core_op bool :=
  v4Epoch ← run_outcome (getV4CurrentEpoch chain);
  if v4Epoch =? cf_epoch cfg then
    _ ← modify (on_health (set_epochMismatch None));
    mret true
  else
    _ ← modify (on_health (set_signing false (Some (EpochMismatch v4Epoch (cf_epoch cfg)))));
    c ← get_core;
    _ ← (if bool_decide (lastEpochMismatch (health c) = Some v4Epoch) then mret tt
         else
           _ ← modify (on_metrics add_epoch);
           modify (on_health (set_epochMismatch (Some v4Epoch))));
    mret false.

Definition isAwaitingFinality (c : Core) : bool :=
  match unhealthyReason (health c) with
  | Some (AwaitingFinality _ _) => true
  | Some (Forced r) => String.prefix "CoordAwaitingFinality" r
  | _ => false
  end.

Definition error_message (e : js_error) : string := match e with TypeError t | RangeError t | GenericError t => t end.

(** The [code] property that clients put on their errors. *)
Context (error_code : js_error -> string).

Definition isTransientChainReadError (err : js_error) : bool :=
  let code := error_code err in
  let message := error_message err in
  String.eqb code "TIMEOUT" || String.eqb code "RPC_BUSY" || includes "RPC timeout after" message || includes "RPC queue wait exceeded" message
  || includes "RPC queue full" message || includes "request timeout" message.

Definition withinTransientChainGrace (nowMs : Z) : core_op bool :=
  c ← get_core;
  _ ← match transientChainFailureSinceMs (health c) with None => modify (on_health (set_transient (Some nowMs))) | Some _ => mret tt end;
  c ← get_core;
  mret (nowMs - default 0 (transientChainFailureSinceMs (health c)) <? TRANSIENT_CHAIN_FAILURE_GRACE_MS).

Definition set_scanned (b : Z) (f : Confirmed) : Confirmed :=
  mkConfirmed (liveState f) (liveRoot f) (parentState f) (parentRoot f) (lastTransitionIndex f) (stateByRoot f) (snapshots f) b (replayFromBlock f).

(** ** The watcher *)
Definition nowSec (nowMs : Z) : Z := nowMs / 1000.

(** The deepest snapshot is re-checked; [false] stops the tick. *)
Definition detect_reorg (chain : ChainClient) : core_op bool :=
  c ← get_core;
  match last (snapshots (conf c)) with
  | None => mret true
  | Some deepest =>
    canonical ← run_outcome (getBlockHashAt chain 0%nat (sn_blockNumber deepest));
    match canonical with
    | None | Some EmptyString => mret true
    | Some h =>
      if hexNe h (sn_blockHash deepest) then
        ok ← handleReorg (getBlockHashAt chain);
        if negb ok then
          _ ← modify (on_health (set_signing false (Some ReorgUnrecoverable)));
          mret false
        else mret true
      else mret true
    end
  end.

Definition scan_new (cfg : CoreTexCoordinatorConfig) (chain : ChainClient) (safeHead : Z) : core_op unit :=
  c ← get_core;
  if lastScannedBlock (conf c) <? safeHead then
    events ← run_outcome (getStateAdvancedEvents chain (lastScannedBlock (conf c) + 1) safeHead);
    _ ← applyChainEvents cfg (stableSort events event_cmp);
    modify (on_conf (set_scanned safeHead))
  else mret tt.

(** The body of the [try]. *)
Definition tick_body (cfg : CoreTexCoordinatorConfig) (chain : ChainClient) (nowMs : Z) : core_op unit :=
  current ← checkEpochStillCurrent cfg chain;
  if negb current then modify (gcPending cfg (nowSec nowMs))
  else
    head ← run_outcome (getBlockNumber chain);
    let safeHead := head - confirmationDepth cfg in
    c ← get_core;
    _ ← modify (on_health (set_lag (head - lastScannedBlock (conf c))));
    go_on ← detect_reorg chain;
    if negb go_on then mret tt
    else
      _ ← scan_new cfg chain safeHead;
      available ← parityCheck cfg chain;
      _ ← (if available : bool then
             _ ← modify auditReceiptCacheAgainstCanonicalRoots;
             modify (on_health (set_signing true None))
           else mret tt);
      _ ← modify (on_health (set_transient None));
      modify (gcPending cfg (nowSec nowMs)).

Definition tick_catch (nowMs : Z) (e : js_error) : core_op unit :=
  _ ← modify (on_metrics add_watcherFault);
  c ← get_core;
  grace ← (if isTransientChainReadError e && signingEnabled (health c) then withinTransientChainGrace nowMs else mret false);
  if grace : bool then mret tt
  else modify (on_health (set_signing false (Some WatcherFault))).

Definition tickInner (cfg : CoreTexCoordinatorConfig) (chain : ChainClient) (nowMs : Z) : core_op unit :=
  c ← get_core;
  if frozen (freezing c) then mret tt
  else try_catch (tick_body cfg chain nowMs) (tick_catch nowMs).

(** ** Boot *)
Definition pins_of (p : RegistryEpochPins) : list string :=
  [pin_parentStateRoot p; pin_coreVersionHash p; pin_corpusRoot p; pin_activeFrontierRoot p; pin_baselineManifestHash p; pin_hiddenSeedCommit p].

Fixpoint check_pins (onChain expected : list string) : outcome unit :=
  match onChain, expected with
  | a :: onChain', b :: expected' => throw_when hexNe a b with GenericError "coord: registry pin" ;; check_pins onChain' expected'
  | _, _ => Returns tt
  end.

(** From the comment on the startup replay on. *)
Definition startup_replay (cfg : CoreTexCoordinatorConfig) (chain : ChainClient) : core_op unit :=
  let from := Z.max 0 (default 0 (cf_replayFromBlock cfg)) in
  _ ← modify (on_conf (fun f => mkConfirmed (liveState f) (liveRoot f) (parentState f) (parentRoot f) (lastTransitionIndex f) (stateByRoot f) (snapshots f)
                        (lastScannedBlock f) from));
  replayHead ← run_outcome (getBlockNumber chain);
  let safeHead := Z.max from (replayHead - confirmationDepth cfg) in
  events ← run_outcome (getStateAdvancedEvents chain from safeHead);
  _ ← applyChainEvents cfg (stableSort events event_cmp);
  _ ← modify (on_conf (set_scanned safeHead));
  available ← parityCheck cfg chain;
  c ← get_core;
  _ ← throw_op (negb available && negb (isAwaitingFinality c)) "coord: HARD-FAIL post-replay parity";
  if available : bool then modify (on_health (set_signing true None)) else mret tt.

Definition boot (cfg : CoreTexCoordinatorConfig) (chain : ChainClient) (parentLoader : string -> outcome CortexState) : core_op unit :=
  _ ← run_outcome (validateStaticConfig cfg);
  onChainChain ← run_outcome (getChainId chain);
  _ ← throw_op (negb (onChainChain =? expectedChainId cfg)) "coord: chainId";
  v4Epoch ← run_outcome (getV4CurrentEpoch chain);
  _ ← throw_op (negb (v4Epoch =? cf_epoch cfg)) "coord: V4.currentEpoch";
  epochCommit ← run_outcome (getV4EpochCommit chain (cf_epoch cfg));
  _ ← throw_op (String.eqb epochCommit ZERO_HASH) "coord: V4.epochCommit is zero";
  onChainSigner ← run_outcome (getV4CoordinatorSigner chain);
  _ ← throw_op (hexNe onChainSigner (expectedCoordinatorSigner cfg)) "coord: V4.coordinatorSigner";
  onChainRegistry ← run_outcome (getV4CoreTexRegistry chain);
  _ ← throw_op (hexNe onChainRegistry (registryAddress cfg)) "coord: V4.coreTexRegistry";
  onChainPins ← run_outcome (getRegistryEpochPins chain (cf_epoch cfg));
  _ ← run_outcome (check_pins (pins_of onChainPins) (pins_of (expectedEpochPins cfg)));
  parent ← run_outcome (parentLoader (pin_parentStateRoot onChainPins));
  recomputed ← run_outcome (merkleizeState parent);
  _ ← throw_op (hexNe (bytesToHex recomputed) (pin_parentStateRoot onChainPins)) "coord: parent substrate";
  let root := toLowerCase (pin_parentStateRoot onChainPins) in
  _ ← modify (on_conf (fun f => mkConfirmed parent root parent root (lastTransitionIndex f) (jsmap_set root parent (stateByRoot f)) (snapshots f)
                        (lastScannedBlock f) (replayFromBlock f)));
  baseline ← run_outcome (launchBaselinePpm cfg);
  _ ← modify (on_baselines (fun b => mkBaselines (jsmap_set root baseline (baselineByRoot b)) (currentBaselineVariancePpm b)));
  startup_replay cfg chain.

(** ** Serving a state *)
Definition statePackedHex (state : CortexState) : string :=
  bytesToHex (fold_left (fun u i => write_be_loop 32 u (i * 32) (default 0 (words state !! i))) (seq 0 WORD_COUNT_NAT) (zeros PACKED_SIZE_NAT)).

Record Substrate_ := mkSubstrate { sub_stateRoot : string; sub_wordCount : Z; sub_packedBytes : Z; packedHex : string }.

Definition getSubstrate (c : Core) (stateRoot : string) : option Substrate_ :=
  cached ← jsmap_get (toLowerCase stateRoot) (stateByRoot (conf c));
  Some (mkSubstrate (toLowerCase stateRoot) 1024 32768 (statePackedHex cached)).
End WithHasher.

(** ** Which groups an operation touches *)
Definition keeps {A} (P : Core -> Prop) (m : core_op A) : Prop := forall c, P c -> P (m c).1.

Lemma keeps_ret {A} P (a : A) : keeps P (mret a).
Proof. by intros c Hc. Qed.
Lemma keeps_get P : keeps P get_core.
Proof. by intros c Hc. Qed.
Lemma keeps_run {A} P (m : outcome A) : keeps P (run_outcome m).
Proof. by intros c Hc. Qed.
Lemma keeps_throw P b t : keeps P (throw_op b t).
Proof. by intros c Hc. Qed.
Lemma keeps_modify P f : (forall c, P c -> P (f c)) -> keeps P (modify f).
Proof. intros H c Hc. by apply H. Qed.
Lemma keeps_bind {A B} P (m : core_op A) (f : A -> core_op B) : keeps P m -> (forall a, keeps P (f a)) -> keeps P (m ≫= f).
Proof.
  intros Hm Hf c Hc. unfold mbind, core_bind. specialize (Hm c Hc). destruct (m c) as [c' [a|e]]; cbn in *; [by apply Hf|done].
Qed.
Lemma keeps_try {A} P (m : core_op A) h : keeps P m -> (forall e, keeps P (h e)) -> keeps P (try_catch m h).
Proof. intros Hm Hh c Hc. unfold try_catch. specialize (Hm c Hc). destruct (m c) as [c' [a|e]]; cbn in *; [done|by apply Hh]. Qed.

(** Steps of an operation. *)
Lemma step_run {A B} (m : outcome A) a (f : A -> core_op B) c : m = Returns a -> (run_outcome m ≫= f) c = f a c.
Proof. by intros ->. Qed.
Lemma step_get {B} (f : Core -> core_op B) c : (get_core ≫= f) c = f c c.
Proof. done. Qed.
Lemma step_modify {B} g (f : unit -> core_op B) c : (modify g ≫= f) c = f tt (g c).
Proof. done. Qed.
Lemma step_op {A B} (m : core_op A) a (f : A -> core_op B) c c' : m c = (c', Returns a) -> (m ≫= f) c = f a c'.
Proof. unfold mbind, core_bind. by intros ->. Qed.

Create HintDb core.
#[export] Hint Resolve keeps_ret keeps_get keeps_run keeps_throw : core.

(** Walk an operation down to its updates. *)
Ltac keeps_walk :=
  repeat match goal with
  | |- keeps _ (mbind _ _) => apply keeps_bind; [|intros ?]
  | |- keeps _ (if ?b then _ else _) => destruct b
  | |- keeps _ (match ?x with _ => _ end) => destruct x
  end; try solve [auto with core].

(** The confirmed group is untouched. *)
Definition conf_fixed (f : Core -> Core) : Prop := forall c, conf (f c) = conf c.

(** A fold that leaves a projection alone at each step. *)
Lemma fold_proj {X E} (g : Core -> X) (f : Core -> E -> Core) l : (forall c e, g (f c e) = g c) -> forall c, g (fold_left f l c) = g c.
Proof. intros H. induction l as [|e l IH]; intros c; [done|]. cbn [fold_left]. by rewrite IH, H. Qed.

Lemma fold_conf {E} (f : Core -> E -> Core) l : (forall c e, conf (f c e) = conf c) -> conf_fixed (fun c => fold_left f l c).
Proof. intros H c. by apply fold_proj. Qed.

Section Groups.
Context {HK : Hasher}.

Lemma book_one_conf ev r c e : conf (book_one ev r c e) = conf c.
Proof. unfold book_one. repeat case_match; reflexivity. Qed.

Lemma gcPending_conf cfg now : conf_fixed (gcPending cfg now).
Proof.
  intros c. unfold gcPending. cbn [conf on_receipts].
  rewrite (fold_conf (gc_cache_one cfg now)) by (intros ? ?; unfold gc_cache_one; repeat case_match; reflexivity).
  apply (fold_conf (gc_pending_one cfg now)). intros ? ?. unfold gc_pending_one. by case_match.
Qed.

Lemma audit_conf : conf_fixed auditReceiptCacheAgainstCanonicalRoots.
Proof. intros c. apply (fold_conf audit_one). intros ? ?. unfold audit_one. by repeat case_match. Qed.

Lemma commit_health ev s r c : health (commit_event ev s r c) = health c.
Proof. unfold commit_event. rewrite (fold_proj health); [done|]. intros c1 e. unfold book_one. by repeat case_match. Qed.

Lemma commit_freezing ev s r c : freezing (commit_event ev s r c) = freezing c.
Proof. unfold commit_event. rewrite (fold_proj freezing); [done|]. intros c1 e. unfold book_one. by repeat case_match. Qed.

Lemma gcPending_health cfg now c : health (gcPending cfg now c) = health c /\ freezing (gcPending cfg now c) = freezing c.
Proof.
  unfold gcPending. cbn [health freezing on_receipts]. split.
  - rewrite (fold_proj health) by (intros ? ?; unfold gc_cache_one; by repeat case_match). apply (fold_proj health). intros ? ?. unfold gc_pending_one. by case_match.
  - rewrite (fold_proj freezing) by (intros ? ?; unfold gc_cache_one; by repeat case_match). apply (fold_proj freezing). intros ? ?. unfold gc_pending_one. by case_match.
Qed.

Lemma audit_health c : health (auditReceiptCacheAgainstCanonicalRoots c) = health c /\ freezing (auditReceiptCacheAgainstCanonicalRoots c) = freezing c.
Proof.
  unfold auditReceiptCacheAgainstCanonicalRoots. split; [apply (fold_proj health)|apply (fold_proj freezing)]; intros ? ?; unfold audit_one; by repeat case_match.
Qed.

(** A property of the confirmed group. *)
Lemma keeps_conf (Q : Confirmed -> Prop) f : conf_fixed f -> keeps (fun c => Q (conf c)) (modify f).
Proof. intros H. apply keeps_modify. intros c. by rewrite H. Qed.

Lemma on_health_fixed f : conf_fixed (on_health f).
Proof. by intros c. Qed.
Lemma on_metrics_fixed f : conf_fixed (on_metrics f).
Proof. by intros c. Qed.
Lemma on_receipts_fixed f : conf_fixed (on_receipts f).
Proof. by intros c. Qed.
Lemma on_baselines_fixed f : conf_fixed (on_baselines f).
Proof. by intros c. Qed.
Lemma on_freezing_fixed f : conf_fixed (on_freezing f).
Proof. by intros c. Qed.
Lemma reconcile_fixed : conf_fixed reconcilePendingFromCanonicalSnapshots.
Proof. by intros c. Qed.
End Groups.
#[export] Hint Resolve keeps_conf gcPending_conf audit_conf on_health_fixed on_metrics_fixed on_receipts_fixed on_baselines_fixed on_freezing_fixed reconcile_fixed : core.

(** ** What the coordinator knows *)
Section Invariant.
Context {HK : Hasher}.

Definition root_hex (s : CortexState) : string := bytesToHex (root (cache_of s)).

(** A state under its root, reached from the parent by accepted patches. *)
Record known (parent : CortexState) (r : string) (s : CortexState) : Prop := {
  kn_ok : state_ok s;
  kn_root : r = root_hex s;
  kn_reach : reach true parent s
}.

(** Snapshots of consecutive transitions. *)
Fixpoint linked (snaps : list Snapshot) : Prop :=
  match snaps with
  | a :: (b :: _) as rest => sn_parent b = sn_root a /\ sn_transitionIndex b = sn_transitionIndex a + 1 /\ linked rest
  | _ => True
  end.

Record chain_inv (f : Confirmed) : Prop := {
  ci_parent : state_ok (parentState f) /\ parentRoot f = root_hex (parentState f);
  ci_byRoot : Forall (fun e => known (parentState f) e.1 e.2) (stateByRoot f);
  ci_snaps : Forall (fun s => known (parentState f) (sn_root s) (sn_state s)) (snapshots f);
  ci_linked : linked (snapshots f);
  ci_live : match last (snapshots f) with
    | Some s => liveState f = sn_state s /\ liveRoot f = sn_root s /\ lastTransitionIndex f = sn_transitionIndex s
    | None => liveState f = parentState f /\ liveRoot f = parentRoot f /\ lastTransitionIndex f = -1
    end;
  ci_served : forall r, r ∈ parentRoot f :: map sn_root (snapshots f) -> is_Some (jsmap_get r (stateByRoot f))
}.

Lemma known_parent f : chain_inv f -> known (parentState f) (parentRoot f) (parentState f).
Proof. intros [[H1 H2] _ _ _ _ _]. constructor; [done|done|constructor]. Qed.

Lemma known_live f : chain_inv f -> known (parentState f) (liveRoot f) (liveState f).
Proof.
  intros Hf. pose proof (known_parent f Hf) as Hp. destruct Hf as [_ _ Hs _ Hl _]. destruct (last (snapshots f)) as [s|] eqn:E; destruct Hl as (-> & -> & _); [|done].
  rewrite Forall_forall in Hs. apply Hs. by apply last_Some_elem_of.
Qed.

Lemma toLower_root_hex s : toLowerCase (root_hex s) = root_hex s.
Proof. apply toLowerCase_hex. Qed.

(** ** What the checks of an event establish *)
Lemma hexNe_false a b : hexNe a b = false <-> toLowerCase a = toLowerCase b.
Proof. unfold hexNe. by rewrite negb_false_iff, String.eqb_eq. Qed.

Lemma hexToBytes_padded_ok h : bytes_ok (hexToBytes_padded h).
Proof.
  unfold hexToBytes_padded. destruct (hex_pairs _) as [ps|]; [|constructor]. apply Forall_forall. intros x ((a & b) & -> & _)%list_elem_of_fmap.
  unfold byte_ok. apply Z.mod_pos_bound. lia.
Qed.

(** The event describes an accepted patch on [s], the [i]-th of its epoch, with the pins of the configuration. *)
Record event_ok (cfg : CoreTexCoordinatorConfig) (s : CortexState) (i : Z) (ev : CoreTexStateAdvancedEvent) (s' : CortexState) : Prop := {
  eo_epoch : ev_epoch ev = cf_epoch cfg;
  eo_index : ev_transitionIndex ev = i;
  eo_parent : toLowerCase (ev_parent ev) = root_hex s;
  eo_core : toLowerCase (coreV ev) = toLowerCase (pin_coreVersionHash (expectedEpochPins cfg));
  eo_corpus : toLowerCase (corpus ev) = toLowerCase (pin_corpusRoot (expectedEpochPins cfg));
  eo_frontier : toLowerCase (frontier ev) = toLowerCase (pin_activeFrontierRoot (expectedEpochPins cfg));
  eo_hash : toLowerCase (ev_patchHash ev) = computePatchHash (hexToBytes_padded (ev_compactPatchBytes ev));
  eo_patch : exists p, wire_ok p /\ hexToBytes_padded (ev_compactPatchBytes ev) = patch_wire p
    /\ applyPatch s p true = Returns (PatchSuccess s') /\ ev_wordCount ev = wordCount p;
  eo_root : toLowerCase (ev_newRoot ev) = root_hex s'
}.

Lemma verify_event_spec cfg f ev s' r : state_ok (liveState f) -> liveRoot f = root_hex (liveState f) ->
  verify_event cfg f ev = Returns (Some (s', r)) <-> event_ok cfg (liveState f) (lastTransitionIndex f + 1) ev s' /\ r = root_hex s'.
Proof.
  intros Hs Hr. unfold verify_event. split.
  - destruct (Z.ltb_spec (ev_epoch ev) (cf_epoch cfg)); [done|]. intros Hv.
    repeat (apply bind_Returns in Hv as ([] & Ht & Hv); apply throw_if_Returns in Ht; revert Ht). intros H7 H6 H5 H4 H3 H2 H1.
    apply bind_Returns in Hv as (p & Hd & Hv). apply bind_Returns in Hv as (res & Ha & Hv). destruct res as [s1|e]; [|done].
    apply bind_Returns in Hv as ([] & H8 & Hv). apply throw_if_Returns in H8. apply bind_Returns in Hv as (rt & Hm & Hv).
    apply bind_Returns in Hv as ([] & H9 & Hv). apply throw_if_Returns in H9. apply Returns_inj, (inj Some), pair_equal_spec in Hv as [-> <-].
    destruct (decodePatch_inv _ _ (hexToBytes_padded_ok _) Hd) as [Hw Hb]. pose proof (applyPatch_state_ok _ _ _ _ Hs Hw Ha) as Hs'.
    rewrite merkleizeState_returns in Hm by apply Hs'. apply Returns_inj in Hm as <-. rewrite toLowerCase_hex in H9.
    apply negb_false_iff in H1, H2, H8, H9. apply Z.eqb_eq in H1, H2, H8. apply String.eqb_eq in H9. apply hexNe_false in H3, H4, H5, H6, H7.
    split; [|apply toLowerCase_hex]. constructor; [done|done| |done|done|done| | |].
    + rewrite H3, Hr. apply toLowerCase_hex.
    + rewrite <- H7. apply toLowerCase_hex.
    + by exists p.
    + by rewrite <- H9.
  - intros [[E1 E2 E3 E4 E5 E6 E7 (p & Hw & Hb & Ha & Hc) E9] ->]. rewrite (proj2 (Z.ltb_ge _ _)) by lia.
    rewrite (proj2 (Z.eqb_eq _ _) E1), (proj2 (Z.eqb_eq _ _) E2). cbn [negb throw_if mbind outcome_bind].
    rewrite (proj2 (hexNe_false (ev_parent ev) _)) by (rewrite E3, Hr; symmetry; apply toLowerCase_hex).
    rewrite (proj2 (hexNe_false (coreV ev) _) E4), (proj2 (hexNe_false (corpus ev) _) E5), (proj2 (hexNe_false (frontier ev) _) E6).
    rewrite (proj2 (hexNe_false (computePatchHash _) _)) by (rewrite E7; apply toLowerCase_hex). cbn [throw_if mbind outcome_bind].
    rewrite Hb, decodePatch_wire by done. cbn [mbind outcome_bind]. rewrite Ha. cbn [mbind outcome_bind]. rewrite (proj2 (Z.eqb_eq _ _) Hc). cbn [negb throw_if mbind outcome_bind].
    rewrite merkleizeState_returns by (eapply applyPatch_state_ok; done). cbn [mbind outcome_bind].
    rewrite toLowerCase_hex, E9. unfold root_hex. rewrite String.eqb_refl. reflexivity.
Qed.

(** ** Commits and rollbacks keep it *)
Definition snapshot_of (ev : CoreTexStateAdvancedEvent) (state : CortexState) (r : string) : Snapshot :=
  mkSnapshot (ev_transitionIndex ev) (ev_blockNumber ev) (ev_blockHash ev) (toLowerCase (ev_parent ev)) r (toLowerCase (ev_patchHash ev)) state.

Definition committed (ev : CoreTexStateAdvancedEvent) (state : CortexState) (r : string) (f : Confirmed) : Confirmed :=
  mkConfirmed state r (parentState f) (parentRoot f) (ev_transitionIndex ev) (jsmap_set r state (stateByRoot f))
    (push_snapshot (snapshot_of ev state r) (snapshots f)) (lastScannedBlock f) (replayFromBlock f).

Lemma commit_conf ev s r c : conf (commit_event ev s r c) = committed ev s r (conf c).
Proof. unfold commit_event. rewrite (fold_conf (book_one ev r)) by (intros; apply book_one_conf). reflexivity. Qed.

Lemma linked_snoc l s : linked l -> (forall x, last l = Some x -> sn_parent s = sn_root x /\ sn_transitionIndex s = sn_transitionIndex x + 1) -> linked (l ++ [s]).
Proof.
  induction l as [|a l IH]; intros Hl Hx; [done|]. destruct l as [|b l]; [destruct (Hx a eq_refl); done|].
  destruct Hl as (H1 & H2 & Hl). cbn [app linked] in *. split; [done|]. split; [done|]. apply IH; [done|]. intros x E. apply Hx. by rewrite last_cons_cons.
Qed.

Lemma linked_tail l : linked l -> linked (tail l).
Proof. destruct l as [|a [|b l]]; [done|done|]. by intros (_ & _ & H). Qed.

Lemma linked_app_l l k : linked (l ++ k) -> linked l.
Proof.
  induction l as [|a l IH]; [done|]. destruct l as [|b l]; [done|]. intros (H1 & H2 & H3). split; [done|]. split; [done|]. by apply IH.
Qed.

Lemma push_snapshot_cases s l : push_snapshot s l = l ++ [s] \/ exists a l', l = a :: l' /\ push_snapshot s l = l' ++ [s].
Proof. unfold push_snapshot. destruct (Nat.ltb_spec MAX_SNAPSHOTS (length (l ++ [s]))) as [H|]; [|by left]. right. destruct l as [|a l']; [cbn in H; unfold MAX_SNAPSHOTS in H; lia|]. by exists a, l'. Qed.

Lemma push_snapshot_Forall (P : Snapshot -> Prop) s l : P s -> Forall P l -> Forall P (push_snapshot s l).
Proof.
  intros Hs Hl. destruct (push_snapshot_cases s l) as [->|(a & l' & -> & ->)]; [by apply Forall_app; split; [|apply Forall_singleton]|].
  apply Forall_cons in Hl as [_ Hl]. by apply Forall_app; split; [|apply Forall_singleton].
Qed.

Lemma push_snapshot_last s l : last (push_snapshot s l) = Some s.
Proof. destruct (push_snapshot_cases s l) as [->|(a & l' & -> & ->)]; apply last_snoc. Qed.

Lemma known_step cfg f ev s' : chain_inv f -> event_ok cfg (liveState f) (lastTransitionIndex f + 1) ev s' -> known (parentState f) (root_hex s') s'.
Proof.
  intros Hf [_ _ _ _ _ _ _ (p & Hw & _ & Ha & _) _]. destruct (known_live f Hf) as [Hok _ Hr]. constructor; [by eapply applyPatch_state_ok|done|by eapply reach_step].
Qed.

Lemma chain_inv_commit cfg f ev s' : chain_inv f -> event_ok cfg (liveState f) (lastTransitionIndex f + 1) ev s' -> chain_inv (committed ev s' (root_hex s') f).
Proof.
  intros Hf He. pose proof (known_step cfg f ev s' Hf He) as Hk. destruct (known_live f Hf) as [_ Hlr _].
  destruct Hf as [Hp Hb Hs Hl Hlive Hserved]. constructor; cbn [committed parentState parentRoot stateByRoot snapshots liveState liveRoot lastTransitionIndex].
  - done.
  - by apply jsmap_set_Forall.
  - by apply push_snapshot_Forall.
  - assert (Hsn : linked (snapshots f ++ [snapshot_of ev s' (root_hex s')])).
    { apply linked_snoc; [done|]. intros x Hx. rewrite Hx in Hlive. destruct Hlive as (_ & Hr & Hi). cbn. rewrite (eo_parent _ _ _ _ _ He), (eo_index _ _ _ _ _ He), <- Hlr, Hr, Hi. done. }
    destruct (push_snapshot_cases (snapshot_of ev s' (root_hex s')) (snapshots f)) as [->|(a & l' & E & ->)]; [done|]. rewrite E in Hsn. by apply linked_tail in Hsn.
  - rewrite push_snapshot_last. done.
  - intros r Hr. rewrite jsmap_get_set. case_decide as E; [by eexists|]. apply Hserved. apply elem_of_cons in Hr as [->|Hr]; [by left|right].
    apply list_elem_of_fmap in Hr as (x & -> & Hx). destruct (push_snapshot_cases (snapshot_of ev s' (root_hex s')) (snapshots f)) as [Ep|(a & l' & El & Ep)]; rewrite Ep in Hx.
    all: apply elem_of_app in Hx as [Hx|Hx%list_elem_of_singleton]; [apply (list_elem_of_fmap_2 sn_root); rewrite ?El; by try right|by subst x].
Qed.

Lemma jsmap_get_filter {V} (P : string -> Prop) `{forall e : string * V, Decision (P e.1)} (m : list (string * V)) k : P k ->
  jsmap_get k (filter (fun e => P e.1) m) = jsmap_get k m.
Proof.
  intros Hk. induction m as [|[k1 v1] m IH]; [done|]. rewrite filter_cons. cbn [fst]. case_decide as HP; cbn [jsmap_get]; [by rewrite IH|].
  rewrite decide_False by congruence. exact IH.
Qed.

Lemma chain_inv_rollback f keep : (forall k, keep = Some k -> is_Some (snapshots f !! k)) -> chain_inv f -> chain_inv (rollback keep f).
Proof.
  intros Hkeep Hf. pose proof Hf as [Hp Hb Hs Hl _ Hserved].
  set (kept := match keep with Some k => take (S k) (snapshots f) | None => [] end).
  assert (Hkept : Forall (fun s => known (parentState f) (sn_root s) (sn_state s)) kept) by (unfold kept; destruct keep; [by apply Forall_take|constructor]).
  assert (Hlow : forall s, known (parentState f) (sn_root s) (sn_state s) -> toLowerCase (sn_root s) = sn_root s) by (intros s [_ -> _]; apply toLowerCase_hex).
  assert (Hplow : toLowerCase (parentRoot f) = parentRoot f) by (rewrite (proj2 Hp); apply toLowerCase_hex).
  set (roots := map (fun s => toLowerCase (sn_root s)) kept ++ [toLowerCase (parentRoot f)]).
  set (byRoot := filter (fun e => e.1 ∈ roots) (stateByRoot f)).
  assert (Hb' : Forall (fun e => known (parentState f) e.1 e.2) byRoot) by (apply Forall_forall; intros e [_ He]%list_elem_of_filter; rewrite Forall_forall in Hb; by apply Hb).
  assert (Hlinked : linked kept) by (unfold kept; destruct keep as [k|]; [|done]; eapply linked_app_l; by rewrite take_drop).
  assert (Hserved' : forall r, r ∈ parentRoot f :: map sn_root kept -> is_Some (jsmap_get r byRoot)).
  { intros r Hr. assert (jsmap_get r byRoot = jsmap_get r (stateByRoot f)) as ->; [apply (jsmap_get_filter (fun k => k ∈ roots))|].
    - unfold roots. apply elem_of_app. apply elem_of_cons in Hr as [->|Hr]; [right; apply list_elem_of_singleton; done|left].
      apply list_elem_of_fmap in Hr as (s & -> & Hin). rewrite Forall_forall in Hkept. rewrite <- (Hlow s) by by apply Hkept. by apply (list_elem_of_fmap_2 (fun s => toLowerCase (sn_root s))).
    - apply Hserved. apply elem_of_cons in Hr as [->|Hr]; [by left|]. right.
      apply list_elem_of_fmap in Hr as (s & -> & Hin). apply (list_elem_of_fmap_2 sn_root). unfold kept in Hin. destruct keep; [|by apply not_elem_of_nil in Hin].
      by eapply elem_of_take in Hin as (? & ?%list_elem_of_lookup_2 & ?). }
  unfold rollback. fold kept roots byRoot. destruct (keep ≫= _) as [snap|] eqn:E.
  - destruct keep as [k|]; [|done]. cbn [mbind option_bind] in E. assert (Elast : last kept = Some snap).
    { unfold kept. rewrite (take_S_r _ _ _ E). apply last_snoc. }
    constructor; cbn [liveState liveRoot parentState parentRoot lastTransitionIndex stateByRoot snapshots]; try done.
    rewrite Elast. split; [done|]. split; [|done]. apply Hlow. rewrite Forall_forall in Hs. apply Hs. by eapply list_elem_of_lookup_2.
  - destruct keep as [k|]; [destruct (Hkeep k eq_refl) as [x Hx]; cbn in E; congruence|].
    by constructor; cbn [liveState liveRoot parentState parentRoot lastTransitionIndex stateByRoot snapshots].
Qed.

(** ** Every operation keeps it *)
Abbreviation conf_inv := (fun c => chain_inv (conf c)).

Lemma applyChainEvent_run cfg ev c : applyChainEvent cfg ev c =
  match verify_event cfg (conf c) ev with
  | Returns None => (c, Returns tt)
  | Returns (Some (s, r)) => (commit_event ev s r c, Returns tt)
  | Throws e => (c, Throws e)
  end.
Proof. unfold applyChainEvent, mbind, core_bind, get_core, run_outcome. by destruct (verify_event cfg (conf c) ev) as [[[s r]|]|e]. Qed.

Lemma applyChainEvent_keeps cfg ev : keeps conf_inv (applyChainEvent cfg ev).
Proof.
  intros c Hc. rewrite applyChainEvent_run. destruct (verify_event _ _ _) as [[[s r]|]|e] eqn:E; [|done|done]. cbn [fst].
  destruct (known_live _ Hc) as [H1 H2 _]. apply verify_event_spec in E as [He ->]; [|done|done]. rewrite commit_conf. by eapply chain_inv_commit.
Qed.

Lemma applyChainEvents_keeps cfg evs : keeps conf_inv (applyChainEvents cfg evs).
Proof. induction evs as [|ev evs IH]; [apply keeps_ret|]. cbn [applyChainEvents]. apply keeps_bind; [apply applyChainEvent_keeps|done]. Qed.

Lemma find_canonical_some hashAt snaps i call k : (i <= length snaps)%nat -> find_canonical hashAt snaps i call = Returns (Some k) -> (k < i)%nat.
Proof.
  revert call. induction i as [|i IH]; intros call Hi H; [done|]. cbn [find_canonical] in H. destruct (lookup_lt_is_Some_2 snaps i ltac:(lia)) as [s Hs]. rewrite Hs in H.
  apply bind_Returns in H as (h & _ & H). destruct (canonical_is _ _); [injection H as <-; lia|]. apply IH in H; lia.
Qed.

(** What a rollback does to the record. *)
Definition reorged (keep : option nat) (c : Core) : Core :=
  on_metrics add_reorg (on_health (set_signing false (Some ReorgReconciling))
    (auditReceiptCacheAgainstCanonicalRoots (reconcilePendingFromCanonicalSnapshots (on_conf (rollback keep) c)))).

Lemma handleReorg_run hashAt c : handleReorg hashAt c =
  match find_canonical hashAt (snapshots (conf c)) (length (snapshots (conf c))) 1 with
  | Returns keep => (reorged keep c, Returns true)
  | Throws e => (c, Throws e)
  end.
Proof. unfold handleReorg, mbind, core_bind, get_core, run_outcome. by destruct (find_canonical _ _ _ _). Qed.

Lemma reorged_conf keep c : conf (reorged keep c) = rollback keep (conf c).
Proof. unfold reorged. cbn [conf on_metrics on_health]. by rewrite audit_conf. Qed.

Lemma handleReorg_keeps hashAt : keeps conf_inv (handleReorg hashAt).
Proof.
  intros c Hc. rewrite handleReorg_run. destruct (find_canonical _ _ _ _) as [keep|] eqn:E; [|done]. cbn [fst]. rewrite reorged_conf. apply chain_inv_rollback; [|done].
  intros k ->. apply find_canonical_some in E; [|lia]. by apply lookup_lt_is_Some.
Qed.

Lemma chain_inv_set_scanned b f : chain_inv f -> chain_inv (set_scanned b f).
Proof. intros [H1 H2 H3 H4 H5 H6]. by constructor. Qed.

Lemma keeps_set_scanned b : keeps conf_inv (modify (on_conf (set_scanned b))).
Proof. apply keeps_modify. intros c Hc. by apply chain_inv_set_scanned. Qed.

#[local] Hint Resolve applyChainEvents_keeps handleReorg_keeps keeps_set_scanned : core.

Lemma keeps_update (f : Core -> Core) : conf_fixed f -> keeps conf_inv (modify f).
Proof. intros H. by apply (keeps_conf chain_inv). Qed.
#[local] Hint Resolve keeps_update : core.

Lemma parityCheck_keeps cfg chain : keeps conf_inv (parityCheck cfg chain).
Proof. unfold parityCheck. keeps_walk. Qed.
Lemma checkEpoch_keeps cfg chain : keeps conf_inv (checkEpochStillCurrent cfg chain).
Proof. unfold checkEpochStillCurrent. keeps_walk. Qed.
Lemma detect_reorg_keeps chain : keeps conf_inv (detect_reorg chain).
Proof. unfold detect_reorg. keeps_walk. Qed.
Lemma scan_new_keeps cfg chain h : keeps conf_inv (scan_new cfg chain h).
Proof. unfold scan_new. keeps_walk. Qed.
#[local] Hint Resolve parityCheck_keeps checkEpoch_keeps detect_reorg_keeps scan_new_keeps : core.

Context (error_code : js_error -> string).
Lemma tickInner_keeps cfg chain t : keeps conf_inv (tickInner error_code cfg chain t).
Proof.
  unfold tickInner. apply keeps_bind; [apply keeps_get|]. intros c0. destruct (frozen _); [apply keeps_ret|]. apply keeps_try.
  - unfold tick_body. keeps_walk.
  - intros e. unfold tick_catch, withinTransientChainGrace. keeps_walk.
Qed.

(** A tick never throws. *)
Lemma tick_catch_returns t e c : exists c', tick_catch error_code t e c = (c', Returns tt).
Proof.
  unfold tick_catch, withinTransientChainGrace, mbind, core_bind, modify, get_core, mret, core_ret. destruct (_ && _); [|by eexists].
  destruct (transientChainFailureSinceMs _); cbv beta iota; destruct (_ <? _); by eexists.
Qed.

Lemma tickInner_returns cfg chain t c : exists c', tickInner error_code cfg chain t c = (c', Returns tt).
Proof.
  unfold tickInner, mbind at 1, core_bind at 1, get_core. destruct (frozen _); [by eexists|]. unfold try_catch.
  destruct (tick_body cfg chain t c) as [c' [[]|e]]; [by eexists|apply tick_catch_returns].
Qed.

(** ** Boot *)
Lemma core_bind_Returns {A B} (m : core_op A) (f : A -> core_op B) c c' b :
  (m ≫= f) c = (c', Returns b) -> exists c1 a, m c = (c1, Returns a) /\ f a c1 = (c', Returns b).
Proof. unfold mbind, core_bind. destruct (m c) as [c1 [a|e]]; [eauto|done]. Qed.
Lemma run_Returns {A} (m : outcome A) c c1 a : run_outcome m c = (c1, Returns a) -> c1 = c /\ m = Returns a.
Proof. unfold run_outcome. by intros [= <- ->]. Qed.
Lemma throw_Returns b t c c1 u : throw_op b t c = (c1, Returns u) -> c1 = c /\ b = false.
Proof. unfold throw_op, run_outcome. destruct b; [done|by intros [= <-]]. Qed.
Lemma modify_Returns f c c1 u : modify f c = (c1, Returns u) -> c1 = f c.
Proof. unfold modify. by intros [= <-]. Qed.

(** Split a run that returned at its first operation. *)
Ltac core_inv H :=
  let E := fresh "Hr" in
  match type of H with
  | (run_outcome _ ≫= _) _ = _ => apply core_bind_Returns in H as (? & ? & E & H); apply run_Returns in E as [-> E]
  | (throw_op _ _ ≫= _) _ = _ => apply core_bind_Returns in H as (? & [] & E & H); apply throw_Returns in E as [-> E]
  | (modify _ ≫= _) _ = _ => apply core_bind_Returns in H as (? & [] & E & H); apply modify_Returns in E as ->
  | (get_core ≫= _) _ = _ => apply core_bind_Returns in H as (? & ? & E & H); injection E as <- <-
  end; cbv beta in H.

(** The record once the parent is loaded. *)
Definition started (cfg : CoreTexCoordinatorConfig) (parent : CortexState) (baseline : Z) : Core :=
  on_baselines (fun b => mkBaselines (jsmap_set (root_hex parent) baseline []) (currentBaselineVariancePpm b))
    (on_conf (fun _ => mkConfirmed parent (root_hex parent) parent (root_hex parent) (-1) [(root_hex parent, parent)] [] 0 0) (new_core cfg)).

Definition loads_states (loader : string -> outcome CortexState) : Prop := forall r s, loader r = Returns s -> state_ok s.

(** The gates of [boot]. *)
Record gates_open (cfg : CoreTexCoordinatorConfig) (chain : ChainClient) (loader : string -> outcome CortexState) (parent : CortexState) (baseline : Z) : Prop := {
  go_config : validateStaticConfig cfg = Returns tt;
  go_chainId : getChainId chain = Returns (expectedChainId cfg);
  go_epoch : getV4CurrentEpoch chain = Returns (cf_epoch cfg);
  go_commit : exists commit, getV4EpochCommit chain (cf_epoch cfg) = Returns commit /\ commit <> ZERO_HASH;
  go_signer : exists a, getV4CoordinatorSigner chain = Returns a /\ toLowerCase a = toLowerCase (expectedCoordinatorSigner cfg);
  go_registry : exists a, getV4CoreTexRegistry chain = Returns a /\ toLowerCase a = toLowerCase (registryAddress cfg);
  go_pins : exists pins, getRegistryEpochPins chain (cf_epoch cfg) = Returns pins
    /\ map toLowerCase (pins_of pins) = map toLowerCase (pins_of (expectedEpochPins cfg))
    /\ loader (pin_parentStateRoot pins) = Returns parent /\ toLowerCase (pin_parentStateRoot pins) = root_hex parent;
  go_baseline : launchBaselinePpm cfg = Returns baseline
}.

Lemma check_pins_spec a b : length a = length b -> check_pins a b = Returns tt <-> map toLowerCase a = map toLowerCase b.
Proof.
  revert b. induction a as [|x a IH]; intros [|y b] Hl; try done. cbn [check_pins map]. injection Hl as Hl. destruct (hexNe x y) eqn:E; cbn [throw_if mbind outcome_bind].
  - split; [done|]. intros [= Hxy _]. apply hexNe_false in Hxy. congruence.
  - rewrite IH by done. apply hexNe_false in E. split; [by intros ->; rewrite E|by intros [= _ ->]].
Qed.

(** [boot] is its gates, then the startup replay. *)
Lemma boot_opens cfg chain loader parent baseline : state_ok parent -> gates_open cfg chain loader parent baseline ->
  boot cfg chain loader (new_core cfg) = startup_replay cfg chain (started cfg parent baseline).
Proof.
  intros Hok [G1 G2 G3 (x & G4 & G4') (y & G5 & G5') (z & G6 & G6') (p & G7 & G7' & G8 & G8') G9]. unfold boot, throw_op, mbind, core_bind, run_outcome.
  rewrite G1, G2, Z.eqb_refl. cbn [negb throw_if]. rewrite G3, Z.eqb_refl. cbn [negb throw_if]. rewrite G4, (proj2 (String.eqb_neq _ _) G4'). cbn [throw_if].
  rewrite G5, (proj2 (hexNe_false _ _) G5'), G6, (proj2 (hexNe_false _ _) G6'), G7, (proj2 (check_pins_spec (pins_of p) (pins_of (expectedEpochPins cfg)) eq_refl) G7'), G8. cbn [throw_if].
  rewrite merkleizeState_returns by apply Hok. rewrite (proj2 (hexNe_false (bytesToHex (root (cache_of parent))) _)) by (rewrite G8'; apply toLowerCase_hex). cbn [throw_if].
  unfold modify. rewrite G9, G8'. reflexivity.
Qed.

Lemma boot_gates cfg chain loader c' : loads_states loader -> boot cfg chain loader (new_core cfg) = (c', Returns tt) ->
  exists parent baseline, state_ok parent /\ gates_open cfg chain loader parent baseline.
Proof.
  unfold boot. intros Hl H. repeat core_inv H. clear H.
  repeat match goal with
  | H : negb (_ =? _) = false |- _ => apply negb_false_iff, Z.eqb_eq in H
  | H : hexNe _ _ = false |- _ => apply hexNe_false in H
  | x : unit |- _ => destruct x
  end. subst.
  match goal with H : loader (pin_parentStateRoot ?p) = Returns ?s, B : launchBaselinePpm _ = Returns ?b |- _ => exists s, b; pose proof (Hl _ _ H) as Hok end. split; [done|].
  match goal with H : merkleizeState _ = Returns _ |- _ => rewrite merkleizeState_returns in H by apply Hok; apply Returns_inj in H; subst end.
  constructor; try done.
  - eexists. split; [done|]. by apply String.eqb_neq.
  - eexists. by split.
  - eexists. by split.
  - eexists. split; [done|]. split; [by apply check_pins_spec|]. split; [done|]. rewrite <- toLower_root_hex. done.
Qed.

Lemma chain_inv_started cfg parent baseline : state_ok parent -> chain_inv (conf (started cfg parent baseline)).
Proof.
  intros Hok. constructor; cbn [started conf on_baselines on_conf parentState parentRoot stateByRoot snapshots]; try done.
  - apply Forall_singleton. constructor; [done|done|constructor].
  - intros r Hr. apply list_elem_of_singleton in Hr as ->. cbn [jsmap_get]. rewrite decide_True by done. by eexists.
Qed.

Lemma startup_replay_keeps cfg chain : keeps conf_inv (startup_replay cfg chain).
Proof. unfold startup_replay. keeps_walk. apply keeps_modify. intros c [H1 H2 H3 H4 H5 H6]. by constructor. Qed.

Lemma boot_booted cfg chain loader c' : loads_states loader -> boot cfg chain loader (new_core cfg) = (c', Returns tt) -> chain_inv (conf c').
Proof.
  intros Hl H. destruct (boot_gates _ _ _ _ Hl H) as (parent & baseline & Hok & Hg). rewrite (boot_opens _ _ _ parent baseline) in H by done.
  pose proof (startup_replay_keeps cfg chain _ (chain_inv_started cfg parent baseline Hok)) as Hk. cbv beta in Hk. by rewrite H in Hk.
Qed.
End Invariant.

(** ** A concrete coordinator *)
Definition pins_w : RegistryEpochPins := mkEpochPins (bytesToHex (be_bytes 32 64)) (bytesToHex (be_bytes 32 4)) (bytesToHex (be_bytes 32 5)) (bytesToHex (be_bytes 32 6))
  (bytesToHex (be_bytes 32 8)) (bytesToHex (be_bytes 32 9)).
Definition address_w : string := bytesToHex (be_bytes 20 77).
Definition config_w : CoreTexCoordinatorConfig := mkConfig 7 8453 (Some address_w) None address_w address_w pins_w 2 (Some 3) 600 None None None None None None None
  (Some 1000) None None None None None None (Some 0xC0) (Some (bytesToHex (be_bytes 32 12))) None.

(** The event of a one-word patch on slot word [i]. *)
Definition patch_w (i w : Z) : Patch := mkPatch PATCH_TYPE.SLOT_REPLACE 1 0 (be_bytes 32 64) [i] [w].
Definition event_w (block index : Z) (hash : string) (p : Patch) : CoreTexStateAdvancedEvent :=
  mkEvent block hash 0 7 index address_w (bytesToHex (be_bytes 32 64)) (bytesToHex (be_bytes 32 64)) (computePatchHash (HK:=length_hasher) (patch_wire p))
    (bytesToHex (zeros 32)) (bytesToHex (be_bytes 32 4)) (bytesToHex (be_bytes 32 5)) (bytesToHex (be_bytes 32 6)) 0 1 (bytesToHex (patch_wire p)).

(** A chain that serves the log [H]. *)
Definition chain_w (H : list CoreTexStateAdvancedEvent) (head : Z) (hashes : Z -> option string) (reg : string * Z) : ChainClient :=
  mkChain (Returns head) (fun _ b => Returns (hashes b)) (fun a b => Returns (filter (fun e => a <= ev_blockNumber e <= b) H)) (fun _ => Returns reg) (fun _ => Returns pins_w)
    (Returns 7) (fun _ => Returns (bytesToHex (be_bytes 32 1))) (Returns address_w) (Returns address_w) (Returns 8453)
    (fun _ _ => Returns (mkCounters 0 0 (bytesToHex (zeros 32)))) (fun _ => Returns 0).

Definition started_w : Core := started (HK:=length_hasher) config_w zero_state 1000.

Lemma event_w_valid block hash i w : i ∈ [32; 33] -> w ∈ [5; 6] ->
  event_ok (HK:=length_hasher) config_w zero_state 0 (event_w block 0 hash (patch_w i w)) (patched zero_state (patch_w i w)).
Proof.
  intros Hi Hw. destruct (verify_event_spec (HK:=length_hasher) config_w (conf started_w) (event_w block 0 hash (patch_w i w)) (patched zero_state (patch_w i w))
    (root_hex (HK:=length_hasher) (patched zero_state (patch_w i w))) zero_state_ok eq_refl) as [H _].
  apply H. set_unfold in Hi. set_unfold in Hw. destruct Hi as [->|[->|[]]], Hw as [->|[->|[]]]; vm_compute; reflexivity.
Qed.
