(* ===== verification/CoordinatorWatch.v ===== *)
(** * Coordinator: following the chain (coordinator/coretex-coordinator-core.ts)

    The canonical log is a list of events in chain order; [history] says what
    it does to the parent state, independently of the watcher. [synced] says
    that the confirmed group is what the log up to the last scanned block
    makes of the parent. A tick on a chain that serves a valid log, the old
    one or a fork of it, ends [synced] with that log, behind the head by the
    confirmation depth at most, and signs exactly in parity with the registry
    ([tick_follows_chain]); so does [boot]. Whatever the chain answers,
    signing stays on only in parity or during the grace for transient faults
    ([signing_gate]), and what is served hashes to its root
    ([getSubstrate_spec]). *)
From Stdlib Require Import Ascii Sorted.
From stdpp Require Import sorting.
From S2P Require Import Prelude JsSort StateTypes Codec Keccak Merkle Decoder Validate Patch Coordinator.
#[local] Open Scope Z_scope.

Section Watch.
Context {HK : Hasher} (error_code : js_error -> string).

(** ** The canonical log *)
Lemma event_cmp_le a b : event_cmp a b <= 0 <-> ev_blockNumber a < ev_blockNumber b \/ ev_blockNumber a = ev_blockNumber b /\ ev_logIndex a <= ev_logIndex b.
Proof. unfold event_cmp. destruct (Z.eqb_spec (ev_blockNumber a - ev_blockNumber b) 0); cbn [negb]; lia. Qed.

#[export] Instance event_cmp_preorder : CmpPreorder event_cmp.
Proof. constructor; intros *; rewrite !event_cmp_le; lia. Qed.

(** Events in the order of the chain. *)
Definition chain_ordered (H : list CoreTexStateAdvancedEvent) : Prop := StronglySorted (fun a b => 0 < event_cmp b a) H.

Definition upto (b : Z) (H : list CoreTexStateAdvancedEvent) : list CoreTexStateAdvancedEvent := filter (fun e => ev_blockNumber e <= b) H.
Definition between (a b : Z) (H : list CoreTexStateAdvancedEvent) : list CoreTexStateAdvancedEvent := filter (fun e => a <= ev_blockNumber e <= b) H.

Lemma filter_drops {A} (P : A -> Prop) `{forall x, Decision (P x)} (l : list A) : (forall x, x ∈ l -> ~ P x) -> filter P l = [].
Proof. induction l as [|x l IH]; intros Hl; [done|]. rewrite filter_cons, decide_False by (apply Hl; by left). apply IH. intros y Hy. apply Hl. by right. Qed.

Lemma upto_between a b H : chain_ordered H -> a <= b -> upto b H = upto a H ++ between (a + 1) b H.
Proof.
  intros Hs Hab. induction Hs as [|e H Hs IH He]; [done|]. unfold upto, between in *. rewrite !filter_cons.
  destruct (decide (ev_blockNumber e <= a)).
  - rewrite (decide_True (P := ev_blockNumber e <= b)), (decide_False (P := a + 1 <= _ <= b)) by lia. cbn [app]. by rewrite IH.
  - assert (filter (fun x => ev_blockNumber x <= a) H = []) as Hn.
    { apply filter_drops. intros x Hin. rewrite Forall_forall in He. specialize (He _ Hin). apply Z.lt_nge in He. rewrite event_cmp_le in He. lia. }
    rewrite Hn in *. destruct (decide (ev_blockNumber e <= b)); [rewrite (decide_True (P := a + 1 <= _ <= b)) by lia|rewrite (decide_False (P := a + 1 <= _ <= b)) by lia];
    cbn [app] in *; congruence.
Qed.

Lemma after_split b H : chain_ordered H -> H = upto b H ++ filter (fun e => b < ev_blockNumber e) H.
Proof.
  induction 1 as [|e H Hs IH He]; [done|]. unfold upto in *. rewrite !filter_cons. destruct (decide (ev_blockNumber e <= b)).
  - rewrite (decide_False (P := b < _)) by lia. cbn [app]. by rewrite <- IH.
  - rewrite (decide_True (P := b < _)) by lia. rewrite Forall_forall in He. rewrite filter_drops; [cbn [app]; f_equal; symmetry; apply filter_keeps|]; intros x Hx; specialize (He _ Hx);
      apply Z.lt_nge in He; rewrite event_cmp_le in He; lia.
Qed.

Lemma between_from a b H : Forall (fun e => a <= ev_blockNumber e) H -> between a b H = upto b H.
Proof.
  unfold between, upto. induction 1 as [|e H He _ IH]; [done|]. rewrite !filter_cons, IH.
  destruct (decide (ev_blockNumber e <= b)); [rewrite decide_True by lia|rewrite decide_False by lia]; done.
Qed.

Lemma chain_ordered_filter (P : CoreTexStateAdvancedEvent -> Prop) `{Hd : forall e, Decision (P e)} H : chain_ordered H -> chain_ordered (filter P H).
Proof. apply StronglySorted_sublist, sublist_filter. Qed.

Lemma chain_ordered_antisym H a b : chain_ordered H -> a ∈ H -> b ∈ H -> event_cmp a b <= 0 -> event_cmp b a <= 0 -> a = b.
Proof.
  induction 1 as [|e H Hs IH He]; intros Ha Hb H1 H2; [by apply not_elem_of_nil in Ha|]. rewrite Forall_forall in He.
  apply elem_of_cons in Ha as [->|Ha], Hb as [->|Hb]; [done| | |by apply IH].
  - specialize (He _ Hb). lia.
  - specialize (He _ Ha). lia.
Qed.

(** Any answer with the right events is sorted into the order of the chain. *)
Lemma sort_served H l : chain_ordered H -> l ≡ₚ H -> stableSort l event_cmp = H.
Proof.
  intros Hs Hl. rewrite (stableSort_unique event_cmp l H Hl); [|intros a b; rewrite Hl; by apply chain_ordered_antisym].
  apply stableSort_id. clear Hl. induction Hs as [|e H Hs IH He]; constructor; [done|]. eapply Forall_impl; [exact He|]. intros b Hx%Z.lt_nge. rewrite event_cmp_le in Hx |- *. lia.
Qed.

(** ** What a log does to a state *)
Section History.
Context (cfg : CoreTexCoordinatorConfig).

(** [history s i evs l]: from the state [s], with [i] transitions before it, the events apply and leave the snapshots [l]. *)
Inductive history : CortexState -> Z -> list CoreTexStateAdvancedEvent -> list Snapshot -> Prop :=
| history_nil s i : history s i [] []
| history_earlier s i ev evs l : ev_epoch ev < cf_epoch cfg -> history s i evs l -> history s i (ev :: evs) l
| history_advance s i ev s' evs l : event_ok cfg s i ev s' -> history s' (i + 1) evs l -> history s i (ev :: evs) (snapshot_of ev s' (root_hex s') :: l).

Definition state_after (s : CortexState) (l : list Snapshot) : CortexState := match last l with Some x => sn_state x | None => s end.

Lemma state_after_cons s x l : state_after s (x :: l) = state_after (sn_state x) l.
Proof. unfold state_after. destruct l as [|y l]; [done|]. rewrite last_cons_cons. destruct (last (y :: l)) eqn:E; [done|]. by apply last_None in E. Qed.

(** The patch of an event decides the next state. *)
Lemma event_ok_fun s i i' ev s1 s2 : event_ok cfg s i ev s1 -> event_ok cfg s i' ev s2 -> s1 = s2.
Proof.
  intros [_ _ _ _ _ _ _ (p & Hp & Ep & Ap & _) _] [_ _ _ _ _ _ _ (q & Hq & Eq & Aq & _) _].
  assert (Returns p = Returns q) as [= ->] by (rewrite <- (decodePatch_wire p), <- (decodePatch_wire q) by done; congruence). congruence.
Qed.

Lemma history_fun s i evs l l' : history s i evs l -> history s i evs l' -> l = l'.
Proof.
  intros H. revert l'. induction H as [s i|s i ev evs l He _ IH|s i ev s' evs l He _ IH]; intros l' H'; inversion H'; subst; try done.
  - by apply IH.
  - exfalso. match goal with E : event_ok _ _ _ _ _ |- _ => apply eo_epoch in E end. lia.
  - exfalso. apply eo_epoch in He. lia.
  - match goal with E : event_ok _ _ _ _ ?t |- _ => pose proof (event_ok_fun _ _ _ _ _ _ He E) as -> end. f_equal. by apply IH.
Qed.

Lemma history_app s i a b l : history s i (a ++ b) l <->
  exists la lb, l = la ++ lb /\ history s i a la /\ history (state_after s la) (i + Z.of_nat (length la)) b lb.
Proof.
  revert s i l. induction a as [|ev a IH]; intros s i l; cbn [app].
  - split; [intros H; exists [], l; by rewrite Z.add_0_r; repeat constructor|]. intros (la & lb & -> & Ha & Hb). inversion Ha; subst. by rewrite Z.add_0_r in Hb.
  - split.
    + intros H. inversion H; subst.
      * match goal with E : history _ _ _ _ |- _ => apply IH in E as (la & lb & -> & Ha & Hb) end. exists la, lb. split; [done|]. split; [by constructor|done].
      * match goal with E : history _ _ _ _ |- _ => apply IH in E as (la & lb & -> & Ha & Hb) end. eexists (_ :: la), lb. split; [done|]. split; [by constructor|].
        rewrite state_after_cons. cbn [length sn_state snapshot_of]. by replace (i + Z.of_nat (S (length la))) with (i + 1 + Z.of_nat (length la)) by lia.
    + intros (la & lb & -> & Ha & Hb). inversion Ha; subst.
      * constructor; [done|]. apply IH. by exists la, lb.
      * cbn [app]. constructor; [done|]. apply IH. eexists _, lb. split; [done|]. split; [done|].
        rewrite state_after_cons in Hb. cbn [length sn_state snapshot_of] in Hb. match goal with |- history _ ?j _ _ => replace j with (i + Z.of_nat (S (length l))) by lia end. exact Hb.
Qed.

(** Every snapshot comes from an event of the log. *)
Lemma history_snapshots s i evs l x : history s i evs l -> x ∈ l -> exists ev, ev ∈ evs /\ sn_blockNumber x = ev_blockNumber ev /\ sn_blockHash x = ev_blockHash ev.
Proof.
  induction 1 as [s i|s i ev evs l He _ IH|s i ev s' evs l He _ IH]; intros Hx; [by apply not_elem_of_nil in Hx| |].
  - destruct (IH Hx) as (e & ? & ?). exists e. split; [by right|done].
  - apply elem_of_cons in Hx as [->|Hx]; [exists ev; split; [by left|done]|]. destruct (IH Hx) as (e & ? & ?). exists e. split; [by right|done].
Qed.

Lemma history_blocks s i evs l j x y : chain_ordered evs -> history s i evs l -> l !! j = Some x -> l !! S j = Some y -> sn_blockNumber x <= sn_blockNumber y.
Proof.
  intros Ho Hh. revert j. induction Hh as [s i|s i ev evs l He Hh IH|s i ev s' evs l He Hh IH]; intros j Hx Hy; [done| |]; apply StronglySorted_inv in Ho as [Ho Hev]; [by eapply IH|].
  destruct j as [|j]; [|by eapply IH]. injection Hx as <-. cbn in Hy. destruct (history_snapshots _ _ _ _ _ Hh (list_elem_of_lookup_2 _ _ _ Hy)) as (e & Hin & -> & _).
  rewrite Forall_forall in Hev. specialize (Hev _ Hin). apply Z.lt_nge in Hev. rewrite event_cmp_le in Hev. cbn [snapshot_of sn_blockNumber]. lia.
Qed.

(** Cut at the block of a snapshot whose successor is in a later block. *)
Lemma history_cut s i evs l k x : chain_ordered evs -> history s i evs l -> l !! k = Some x ->
  (forall y, l !! S k = Some y -> sn_blockNumber x <> sn_blockNumber y) -> history s i (upto (sn_blockNumber x) evs) (take (S k) l).
Proof.
  intros Ho Hh Hx Hnext. pose proof (after_split (sn_blockNumber x) evs Ho) as E. rewrite E in Hh. apply history_app in Hh as (la & lb & -> & Ha & Hb).
  assert (Hla : forall y, y ∈ la -> sn_blockNumber y <= sn_blockNumber x).
  { intros y Hy. destruct (history_snapshots _ _ _ _ _ Ha Hy) as (e & He & -> & _). by apply list_elem_of_filter in He as [He _]. }
  assert (Hlb : forall y, y ∈ lb -> sn_blockNumber x < sn_blockNumber y).
  { intros y Hy. destruct (history_snapshots _ _ _ _ _ Hb Hy) as (e & He & -> & _). by apply list_elem_of_filter in He as [He _]. }
  assert (length la = S k) as Hk.
  { destruct (Nat.lt_trichotomy (length la) (S k)) as [H|[H|H]]; [exfalso|done|exfalso].
    - rewrite lookup_app_r in Hx by lia. apply list_elem_of_lookup_2 in Hx. specialize (Hlb _ Hx). lia.
    - destruct (lookup_lt_is_Some_2 la (S k) H) as [y Hy]. pose proof (history_blocks s i (upto (sn_blockNumber x) evs) la k x y) as Hm. rewrite lookup_app_l in Hx by lia.
      specialize (Hm (chain_ordered_filter _ _ Ho) Ha Hx Hy). specialize (Hnext y). rewrite lookup_app_l in Hnext by done. specialize (Hnext Hy).
      apply list_elem_of_lookup_2 in Hy. specialize (Hla _ Hy). lia. }
  rewrite <- Hk, take_app_length. exact Ha.
Qed.
End History.

(** The snapshots kept are the latest of all, and not none when there was one. *)
Definition recent (kept all : list Snapshot) : Prop := exists dropped, all = dropped ++ kept /\ (kept = [] -> dropped = []).

Lemma recent_refl l : recent l l.
Proof. by exists []. Qed.

Lemma recent_push x kept all : recent kept all -> recent (push_snapshot x kept) (all ++ [x]).
Proof.
  intros (d & -> & Hd). destruct (push_snapshot_cases x kept) as [->|(a & l' & -> & ->)].
  - exists d. split; [by rewrite app_assoc|]. by intros [? ?]%app_eq_nil.
  - exists (d ++ [a]). split; [by rewrite <- !app_assoc|]. by intros [? ?]%app_eq_nil.
Qed.

Lemma recent_pushes l kept all : recent kept all -> recent (fold_left (fun k x => push_snapshot x k) l kept) (all ++ l).
Proof.
  revert kept all. induction l as [|x l IH]; intros kept all Hr; [by rewrite app_nil_r|]. cbn [fold_left].
  replace (all ++ x :: l) with ((all ++ [x]) ++ l) by (by rewrite <- app_assoc). by apply IH, recent_push.
Qed.

Lemma recent_last kept all : recent kept all -> last all = last kept.
Proof. intros (d & -> & Hd). destruct kept as [|x kept]; [by rewrite Hd|]. by rewrite last_app_cons. Qed.

(** ** Applying a log *)
(** A log that applies to the live state is followed to its end. *)
Lemma applyChainEvents_history cfg c evs l : chain_inv (conf c) -> history cfg (liveState (conf c)) (lastTransitionIndex (conf c) + 1) evs l ->
  exists c', applyChainEvents cfg evs c = (c', Returns tt) /\ chain_inv (conf c')
    /\ snapshots (conf c') = fold_left (fun k x => push_snapshot x k) l (snapshots (conf c))
    /\ parentState (conf c') = parentState (conf c) /\ lastScannedBlock (conf c') = lastScannedBlock (conf c)
    /\ replayFromBlock (conf c') = replayFromBlock (conf c) /\ health c' = health c /\ freezing c' = freezing c.
Proof.
  revert c l. induction evs as [|ev evs IH]; intros c l Hc Hh; inversion Hh; subst.
  - by exists c.
  - match goal with E : ev_epoch ev < _, F : history _ _ _ _ _ |- _ => rename E into He; destruct (IH _ _ Hc F) as (c' & Hr & Hrest) end. exists c'. split; [|exact Hrest].
    cbn [applyChainEvents]. unfold mbind, core_bind. rewrite applyChainEvent_run. unfold verify_event. by rewrite (proj2 (Z.ltb_lt _ _) He).
  - match goal with E : event_ok _ _ _ _ ?s1, F : history _ _ _ _ _ |- _ => rename E into He, F into Hn, s1 into s' end.
    destruct (known_live _ Hc) as [Hok Hroot _]. assert (Hv : verify_event cfg (conf c) ev = Returns (Some (s', root_hex s'))) by (by apply verify_event_spec).
    destruct (IH (commit_event ev s' (root_hex s') c) l0) as (c' & Hr & Hi & Hs & Hp & Hb & Hf & Hhe & Hfr); rewrite ?commit_conf.
    + by eapply chain_inv_commit.
    + cbn [committed liveState lastTransitionIndex]. by rewrite (eo_index _ _ _ _ _ He).
    + exists c'. rewrite commit_conf in *. rewrite commit_health, commit_freezing in *. cbn [applyChainEvents]. unfold mbind, core_bind. by rewrite applyChainEvent_run, Hv.
Qed.

(** ** Following the chain *)
Section Follow.
Context (cfg : CoreTexCoordinatorConfig).

(** The log of a chain from the configured block on: ordered, after the genesis block, and valid from the parent state. *)
Record log_ok (from : Z) (parent : CortexState) (H : list CoreTexStateAdvancedEvent) : Prop := {
  lo_order : chain_ordered H;
  lo_from : Forall (fun e => Z.max 1 from <= ev_blockNumber e) H;
  lo_history : exists l, history cfg parent 0 H l
}.

(** The confirmed group is what the log [H] up to the last scanned block makes of the parent. *)
Record synced (H : list CoreTexStateAdvancedEvent) (f : Confirmed) : Prop := {
  sy_inv : chain_inv f;
  sy_log : log_ok (replayFromBlock f) (parentState f) H;
  sy_history : exists l, history cfg (parentState f) 0 (upto (lastScannedBlock f) H) l /\ recent (snapshots f) l
}.

(** A chain with the log [H] during an operation. *)
Record serves (chain : ChainClient) (H : list CoreTexStateAdvancedEvent) (head : Z) (hashes : Z -> option string) (reg : string * Z) : Prop := {
  sv_epoch : getV4CurrentEpoch chain = Returns (cf_epoch cfg);
  sv_head : getBlockNumber chain = Returns head;
  sv_hash : forall n b, getBlockHashAt chain n b = Returns (hashes b);
  sv_events : forall a b, exists l, getStateAdvancedEvents chain a b = Returns l /\ l ≡ₚ between a b H;
  sv_registry : getRegistryEpoch chain (cf_epoch cfg) = Returns reg
}.

Lemma log_history from parent H b : log_ok from parent H -> exists l, history cfg parent 0 (upto b H) l.
Proof.
  intros [Ho _ [l Hl]]. rewrite (after_split b H Ho) in Hl. apply history_app in Hl as (la & lb & _ & Ha & _). by exists la.
Qed.

Lemma upto_upto a b H : a <= b -> upto a (upto b H) = upto a H.
Proof. intros Hab. unfold upto. rewrite list_filter_filter_l; [done|]. intros x. lia. Qed.

Lemma history_index s i evs l x : history cfg s i evs l -> last l = Some x -> sn_transitionIndex x = i + Z.of_nat (length l) - 1.
Proof.
  induction 1 as [s i|s i ev evs l He _ IH|s i ev s' evs l He _ IH]; intros Hx; [done|by apply IH|]. cbn [length]. destruct l as [|y l].
  - injection Hx as <-. cbn [snapshot_of sn_transitionIndex length]. rewrite (eo_index _ _ _ _ _ He). lia.
  - rewrite last_cons_cons in Hx. rewrite (IH Hx). lia.
Qed.

Lemma live_after f evs l : chain_inv f -> history cfg (parentState f) 0 evs l -> recent (snapshots f) l ->
  liveState f = state_after (parentState f) l /\ lastTransitionIndex f + 1 = Z.of_nat (length l).
Proof.
  intros Hf Hh Hr. pose proof (recent_last _ _ Hr) as Hl. pose proof (ci_live f Hf) as Hlive. rewrite <- Hl in Hlive. unfold state_after. destruct (last l) as [x|] eqn:E.
  - destruct Hlive as (-> & _ & ->). split; [done|]. rewrite (history_index _ _ _ _ _ Hh E). lia.
  - destruct Hlive as (-> & _ & ->). apply last_None in E as ->. done.
Qed.

(** The log decides the live state: two coordinators at the same block agree. *)
Lemma synced_agree H f g : synced H f -> synced H g -> parentState f = parentState g -> lastScannedBlock f = lastScannedBlock g ->
  liveState f = liveState g /\ liveRoot f = liveRoot g /\ lastTransitionIndex f = lastTransitionIndex g.
Proof.
  intros [If _ (l & Hl & Rl)] [Ig _ (k & Hk & Rk)] Ep Eb. rewrite <- Ep, <- Eb in Hk. pose proof (history_fun _ _ _ _ _ _ Hl Hk) as <-.
  destruct (live_after f _ l If Hl Rl) as [E1 E2]. rewrite Ep, Eb in Hl. destruct (live_after g _ l Ig Hl Rk) as [E3 E4]. rewrite Ep in E1.
  split; [congruence|]. split; [|lia]. rewrite (kn_root _ _ _ (known_live f If)), (kn_root _ _ _ (known_live g Ig)). congruence.
Qed.

Lemma log_from_parent from parent H : log_ok from parent H -> upto (Z.max 0 (from - 1)) H = [].
Proof. intros [_ Hf _]. apply filter_drops. intros x Hx. rewrite Forall_forall in Hf. specialize (Hf _ Hx). cbv beta in Hf. lia. Qed.

(** Applying the events of [(lastScannedBlock, b]]. *)
Lemma catch_up c H b evs : synced H (conf c) -> lastScannedBlock (conf c) <= b -> evs ≡ₚ between (lastScannedBlock (conf c) + 1) b H ->
  exists c', applyChainEvents cfg (stableSort evs event_cmp) c = (c', Returns tt) /\ synced H (set_scanned b (conf c')) /\ health c' = health c /\ freezing c' = freezing c
    /\ parentState (conf c') = parentState (conf c) /\ replayFromBlock (conf c') = replayFromBlock (conf c).
Proof.
  intros [Hi Hl (l & Hh & Hr)] Hb Hp. rewrite (sort_served _ _ (chain_ordered_filter _ _ (lo_order _ _ _ Hl)) Hp).
  destruct (log_history _ _ _ b Hl) as [k Hk]. rewrite (upto_between _ _ _ (lo_order _ _ _ Hl) Hb) in Hk. apply history_app in Hk as (la & lb & -> & Ha & Hbt).
  pose proof (history_fun _ _ _ _ _ _ Hh Ha) as <-. destruct (live_after _ _ _ Hi Hh Hr) as [E1 E2]. rewrite <- E1 in Hbt. rewrite Z.add_0_l, <- E2 in Hbt.
  destruct (applyChainEvents_history cfg c _ lb Hi Hbt) as (c' & Ha' & Hi' & Hs & Hp' & Hb' & Hf' & Hhe & Hfr). exists c'. split; [exact Ha'|]. split; [|by repeat split].
  constructor; cbn [set_scanned parentState replayFromBlock lastScannedBlock snapshots]; [by apply chain_inv_set_scanned|by rewrite Hp', Hf'|].
  exists (l ++ lb). split; [|rewrite Hs; by apply recent_pushes]. rewrite Hp', (upto_between _ _ _ (lo_order _ _ _ Hl) Hb). apply history_app. exists l, lb.
  rewrite <- E1, Z.add_0_l, <- E2. by repeat split.
Qed.

Lemma scan_new_follows chain c H head hashes reg b : synced H (conf c) -> serves chain H head hashes reg ->
  exists c', scan_new cfg chain b c = (c', Returns tt) /\ synced H (conf c') /\ b <= lastScannedBlock (conf c') /\ health c' = health c /\ freezing c' = freezing c.
Proof.
  intros Hs Hv. unfold scan_new, mbind at 1, core_bind at 1, get_core. destruct (Z.ltb_spec (lastScannedBlock (conf c)) b); [|by exists c].
  destruct (sv_events _ _ _ _ _ Hv (lastScannedBlock (conf c) + 1) b) as (evs & He & Hp). unfold mbind, core_bind, run_outcome. rewrite He.
  destruct (catch_up c H b evs Hs ltac:(lia) Hp) as (c' & -> & Hs' & Hhe & Hfr & _). eexists. split; [reflexivity|]. split; [done|]. split; [apply Z.le_refl|done].
Qed.

(** How a chain with the log [H1] relates to the one with [H0]: a block hash names the block and all before it. *)
Record forks (H0 H1 : list CoreTexStateAdvancedEvent) (hashes : Z -> option string) : Prop := {
  fk_block : forall a b, a ∈ H0 -> b ∈ H0 -> ev_blockNumber a = ev_blockNumber b -> ev_blockHash a = ev_blockHash b;
  fk_prefix : forall e, e ∈ H0 -> canonical_is (hashes (ev_blockNumber e)) (ev_blockHash e) = true -> upto (ev_blockNumber e) H0 = upto (ev_blockNumber e) H1
}.

(** The deepest snapshot shows a reorg. *)
Definition reorg_seen (hashes : Z -> option string) (f : Confirmed) : bool :=
  match last (snapshots f) with
  | None => false
  | Some s => match hashes (sn_blockNumber s) with
    | None | Some EmptyString => false
    | Some h => hexNe h (sn_blockHash s)
    end
  end.

Lemma find_canonical_spec hashAt (hashes : Z -> option string) snaps i call r : (forall n b, hashAt n b = Returns (hashes b)) -> (i <= length snaps)%nat ->
  find_canonical hashAt snaps i call = Returns r ->
  (forall j s, (match r with Some k => k | None => 0 end <= j < i)%nat -> snaps !! j = Some s -> r <> Some j -> canonical_is (hashes (sn_blockNumber s)) (sn_blockHash s) = false)
  /\ forall k, r = Some k -> exists s, snaps !! k = Some s /\ canonical_is (hashes (sn_blockNumber s)) (sn_blockHash s) = true.
Proof.
  intros Hh. revert call. induction i as [|i IH]; intros call Hi E; cbn [find_canonical] in E.
  - apply Returns_inj in E as <-. split; [lia|done].
  - destruct (lookup_lt_is_Some_2 snaps i ltac:(lia)) as [x Hx]. rewrite Hx, Hh in E. cbn [mbind outcome_bind] in E.
    destruct (canonical_is _ _) eqn:Ec.
    + apply Returns_inj in E as <-. split; [|intros k [= <-]; by exists x]. intros j s Hj Hs Hne. assert (j = i) as -> by lia. done.
    + destruct (IH (S call) ltac:(lia) E) as [H1 H2]. split; [|done]. intros j s Hj Hs Hne. destruct (decide (j = i)) as [->|Hji]; [congruence|]. apply (H1 j s); [lia|done|done].
Qed.

Lemma find_canonical_total hashAt (hashes : Z -> option string) snaps i call : (forall n b, hashAt n b = Returns (hashes b)) ->
  exists r, find_canonical hashAt snaps i call = Returns r.
Proof.
  intros Hh. revert call. induction i as [|i IH]; intros call; cbn [find_canonical]; [by eexists|]. destruct (snaps !! i); [|by eexists].
  rewrite Hh. cbn [mbind outcome_bind]. destruct (canonical_is _ _); [by eexists|apply IH].
Qed.

(** After the rollback the confirmed group follows the new chain. *)
Lemma rollback_follows H0 H1 hashes f keep : synced H0 f -> log_ok (replayFromBlock f) (parentState f) H1 -> forks H0 H1 hashes ->
  (forall j s, (match keep with Some k => k | None => 0 end <= j < length (snapshots f))%nat -> snapshots f !! j = Some s -> keep <> Some j ->
     canonical_is (hashes (sn_blockNumber s)) (sn_blockHash s) = false) ->
  (forall k, keep = Some k -> exists s, snapshots f !! k = Some s /\ canonical_is (hashes (sn_blockNumber s)) (sn_blockHash s) = true) ->
  synced H1 (rollback keep f).
Proof.
  intros [Hi Hl (l & Hh & d & El & Hd)] Hl1 [Hblock Hprefix] Hnot Hcan.
  assert (Hi' : chain_inv (rollback keep f)) by (apply chain_inv_rollback; [intros k Hk; destruct (Hcan k Hk) as (s & Hs & _); by exists s|done]).
  destruct keep as [k|].
  - destruct (Hcan k eq_refl) as (x & Hx & Hc). assert (Hxl : l !! (length d + k)%nat = Some x) by (rewrite El, lookup_app_r by lia; by replace (length d + k - length d)%nat with k by lia).
    destruct (history_snapshots _ _ _ _ _ _ Hh (list_elem_of_lookup_2 _ _ _ Hxl)) as (e & He & Eb & Eh). pose proof He as [Heb HeH]%list_elem_of_filter.
    rewrite Eb, Eh in Hc. pose proof (Hprefix e HeH Hc) as Hpre.
    assert (Hcut : history cfg (parentState f) 0 (upto (sn_blockNumber x) (upto (lastScannedBlock f) H0)) (take (S (length d + k)) l)).
    { apply history_cut with (1 := chain_ordered_filter _ _ (lo_order _ _ _ Hl)) (2 := Hh) (3 := Hxl). intros y Hy.
      rewrite El, lookup_app_r in Hy by lia. replace (S (length d + k) - length d)%nat with (S k) in Hy by lia. pose proof (lookup_lt_Some _ _ _ Hy) as Hlt.
      pose proof (Hnot (S k) y ltac:(lia) Hy ltac:(intros [=]; lia)) as Hny.
      assert (Hyl : l !! (length d + S k)%nat = Some y) by (rewrite El, lookup_app_r by lia; by replace (length d + S k - length d)%nat with (S k) by lia).
      destruct (history_snapshots _ _ _ _ _ _ Hh (list_elem_of_lookup_2 _ _ _ Hyl)) as (e' & He' & Eb' & Eh'). pose proof He' as [_ HeH']%list_elem_of_filter.
      intros Exy. rewrite Eb', Eh', <- Eb', <- Exy, Eb, <- (Hblock e e' HeH HeH') in Hny by congruence. congruence. }
    pose proof (history_snapshots cfg) as _. rewrite upto_upto, Eb, Hpre in Hcut by (rewrite Eb; exact Heb).
    assert (Er : rollback (Some k) f = mkConfirmed (sn_state x) (toLowerCase (sn_root x)) (parentState f) (parentRoot f) (sn_transitionIndex x)
      (stateByRoot (rollback (Some k) f)) (take (S k) (snapshots f)) (ev_blockNumber e) (replayFromBlock f)) by (unfold rollback; cbn [mbind option_bind]; by rewrite Hx, Eb).
    rewrite Er in Hi' |- *. constructor; [done|done|]. cbn [parentState lastScannedBlock snapshots]. eexists. split; [exact Hcut|]. exists d.
    rewrite El, take_app, (take_ge d) by lia. replace (S (length d + k) - length d)%nat with (S k) by lia. split; [done|].
    intros Hn. apply lookup_lt_Some in Hx. destruct (snapshots f); [cbn in Hx; lia|done].
  - constructor; [done|done|]. cbn [rollback parentState lastScannedBlock snapshots mbind option_bind]. rewrite (log_from_parent _ _ _ Hl1). exists []. split; [constructor|apply recent_refl].
Qed.

Lemma canonical_is_hexNe h s : h <> EmptyString -> canonical_is (Some h) s = negb (hexNe h s).
Proof. unfold canonical_is, hexNe. destruct h; [done|]. by rewrite negb_involutive. Qed.

Lemma detect_reorg_follows chain c H0 H1 head hashes reg : synced H0 (conf c) -> log_ok (replayFromBlock (conf c)) (parentState (conf c)) H1 -> forks H0 H1 hashes ->
  serves chain H1 head hashes reg -> (reorg_seen hashes (conf c) = false -> upto (lastScannedBlock (conf c)) H0 = upto (lastScannedBlock (conf c)) H1) ->
  exists c', detect_reorg chain c = (c', Returns true) /\ synced H1 (conf c') /\ freezing c' = freezing c.
Proof.
  intros Hs Hl Hf Hv Hsettled. assert (Hkeep : reorg_seen hashes (conf c) = false -> synced H1 (conf c)).
  { intros E. destruct Hs as [Hi _ (l & Hh & Hr)]. constructor; [done|done|]. exists l. by rewrite <- Hsettled. }
  unfold detect_reorg, mbind at 1, core_bind at 1, get_core. unfold reorg_seen in Hkeep. destruct (last (snapshots (conf c))) as [x|] eqn:Ex; [|by exists c; auto].
  unfold mbind at 1, core_bind at 1, run_outcome. rewrite (sv_hash _ _ _ _ _ Hv). destruct (hashes (sn_blockNumber x)) as [[|a h]|] eqn:Eh; [by exists c; auto| |by exists c; auto].
  destruct (hexNe (String a h) (sn_blockHash x)) eqn:En; [|by exists c; auto]. unfold mbind at 1, core_bind at 1. rewrite handleReorg_run.
  destruct (find_canonical_total (getBlockHashAt chain) hashes (snapshots (conf c)) (length (snapshots (conf c))) 1 (sv_hash _ _ _ _ _ Hv)) as [keep Ek]. rewrite Ek. cbn [negb].
  destruct (find_canonical_spec _ _ _ _ _ _ (sv_hash _ _ _ _ _ Hv) (le_n _) Ek) as [Hn Hc]. exists (reorged keep c). split; [done|]. split; [|].
  - rewrite reorged_conf. by eapply rollback_follows.
  - unfold reorged. cbn [freezing on_metrics on_health]. unfold auditReceiptCacheAgainstCanonicalRoots. rewrite (fold_proj freezing); [done|]. intros c1 e. unfold audit_one. by repeat case_match.
Qed.

(** ** Parity *)
Definition in_parity (reg : string * Z) (f : Confirmed) : bool := (reg.2 =? lastTransitionIndex f + 1) && hexEqb reg.1 (liveRoot f).

Lemma parityCheck_run chain c reg : getRegistryEpoch chain (cf_epoch cfg) = Returns reg ->
  exists c', parityCheck cfg chain c = (c', Returns (in_parity reg (conf c))) /\ conf c' = conf c /\ freezing c' = freezing c
    /\ (in_parity reg (conf c) = false -> signingEnabled (health c') = false /\ isAwaitingFinality c' = (lastTransitionIndex (conf c) + 1 <? reg.2)).
Proof.
  intros Hr. unfold parityCheck, mbind, core_bind, run_outcome, modify, get_core, mret, core_ret, in_parity. rewrite Hr. cbn [conf on_health].
  destruct (Z.ltb_spec reg.2 (lastTransitionIndex (conf c) + 1)); [rewrite (proj2 (Z.eqb_neq _ _)), (proj2 (Z.ltb_ge (lastTransitionIndex _ + 1) _)) by lia; by eexists|].
  destruct (Z.ltb_spec (lastTransitionIndex (conf c) + 1) reg.2); [rewrite (proj2 (Z.eqb_neq _ _)) by lia; by eexists|].
  rewrite (proj2 (Z.eqb_eq _ _)) by lia. unfold hexNe, hexEqb. destruct (String.eqb _ _); cbn [negb andb]; by eexists.
Qed.

Lemma checkEpoch_current chain c : getV4CurrentEpoch chain = Returns (cf_epoch cfg) ->
  checkEpochStillCurrent cfg chain c = (on_health (set_epochMismatch None) c, Returns true).
Proof. intros E. unfold checkEpochStillCurrent. rewrite (step_run _ _ _ _ E), Z.eqb_refl. done. Qed.

(** C8. A tick on a chain that serves [H1], a fork of the log followed so far. *)
Theorem tick_follows_chain c chain t H0 H1 head hashes reg :
  frozen (freezing c) = false -> synced H0 (conf c) -> log_ok (replayFromBlock (conf c)) (parentState (conf c)) H1 ->
  serves chain H1 head hashes reg -> forks H0 H1 hashes ->
  (reorg_seen hashes (conf c) = false -> upto (lastScannedBlock (conf c)) H0 = upto (lastScannedBlock (conf c)) H1) ->
  exists c', tickInner error_code cfg chain t c = (c', Returns tt) /\ synced H1 (conf c') /\ head - confirmationDepth cfg <= lastScannedBlock (conf c')
    /\ frozen (freezing c') = false /\ (signingEnabled (health c') = true <-> reg.2 = lastTransitionIndex (conf c') + 1 /\ toLowerCase reg.1 = liveRoot (conf c')).
Proof.
  intros Hfr Hs Hl Hv Hf Hsettled. unfold tickInner. rewrite step_get, Hfr. unfold try_catch, tick_body.
  rewrite (step_op _ _ _ _ _ (checkEpoch_current chain c (sv_epoch _ _ _ _ _ Hv))). cbn [negb]. rewrite (step_run _ _ _ _ (sv_head _ _ _ _ _ Hv)). cbv zeta. rewrite step_get, step_modify.
  set (c1 := on_health _ _). destruct (detect_reorg_follows chain c1 H0 H1 head hashes reg Hs Hl Hf Hv Hsettled) as (c2 & E2 & Hs2 & Hf2).
  rewrite (step_op _ _ _ _ _ E2). cbn [negb].
  destruct (scan_new_follows chain c2 H1 head hashes reg (head - confirmationDepth cfg) Hs2 Hv) as (c3 & E3 & Hs3 & Hb3 & _ & Hf3).
  rewrite (step_op _ _ _ _ _ E3). destruct (parityCheck_run chain c3 reg (sv_registry _ _ _ _ _ Hv)) as (c4 & E4 & Hc4 & Hf4 & Hoff). rewrite (step_op _ _ _ _ _ E4).
  assert (Hpar : in_parity reg (conf c3) = true <-> reg.2 = lastTransitionIndex (conf c3) + 1 /\ toLowerCase reg.1 = liveRoot (conf c3)).
  { unfold in_parity, hexEqb. rewrite andb_true_iff, Z.eqb_eq, String.eqb_eq.
    rewrite (kn_root _ _ _ (known_live _ (sy_inv _ _ Hs3))) at 1. by rewrite toLower_root_hex, <- (kn_root _ _ _ (known_live _ (sy_inv _ _ Hs3))). }
  assert (Hfz : frozen (freezing c4) = false) by (rewrite Hf4, Hf3, Hf2; exact Hfr).
  destruct (in_parity reg (conf c3)) eqn:Ep; unfold mbind, core_bind, modify; eexists; (split; [reflexivity|]);
    rewrite gcPending_conf, (proj1 (gcPending_health _ _ _)), (proj2 (gcPending_health _ _ _)); cbn [conf health freezing on_health signingEnabled set_transient set_signing];
    rewrite ?audit_conf, ?(proj2 (audit_health _)), ?Hc4; (split; [exact Hs3|]); (split; [exact Hb3|]); (split; [exact Hfz|]); rewrite <- Hpar; [done|].
  rewrite (proj1 (Hoff eq_refl)). done.
Qed.

(** Boot catches up with the chain; it refuses when the registry contradicts the replay and is not just ahead of it. *)
Theorem boot_follows_chain chain loader parent baseline H head hashes reg : state_ok parent -> gates_open cfg chain loader parent baseline ->
  log_ok (Z.max 0 (default 0 (cf_replayFromBlock cfg))) parent H -> serves chain H head hashes reg ->
  exists c', (boot cfg chain loader (new_core cfg)).1 = c' /\ synced H (conf c') /\ parentState (conf c') = parent
    /\ lastScannedBlock (conf c') = Z.max (Z.max 0 (default 0 (cf_replayFromBlock cfg))) (head - confirmationDepth cfg)
    /\ ((boot cfg chain loader (new_core cfg)).2 = Returns tt <-> in_parity reg (conf c') = true \/ lastTransitionIndex (conf c') + 1 < reg.2)
    /\ signingEnabled (health c') = in_parity reg (conf c').
Proof.
  intros Hok Hg Hl Hv. rewrite (boot_opens _ _ _ parent baseline) by done. set (from := Z.max 0 _) in *. set (b := Z.max from _).
  unfold startup_replay. fold from. rewrite step_modify. set (c0 := on_conf _ _). rewrite (step_run _ _ _ _ (sv_head _ _ _ _ _ Hv)). cbv zeta. fold b.
  destruct (sv_events _ _ _ _ _ Hv from b) as (evs & He & Hp). rewrite (step_run _ _ _ _ He).
  assert (Hs0 : synced H (conf c0)).
  { pose proof (chain_inv_started cfg parent baseline Hok) as [I1 I2 I3 I4 I5 I6]. constructor; [by constructor|exact Hl|]. exists []. split; [|apply recent_refl].
    replace (upto (lastScannedBlock (conf c0)) H) with (@nil CoreTexStateAdvancedEvent); [constructor|]. symmetry. apply filter_drops. intros x Hx.
    pose proof (lo_from _ _ _ Hl) as Hf. rewrite Forall_forall in Hf. specialize (Hf _ Hx). cbn in Hf |- *. lia. }
  assert (Hev : evs ≡ₚ between (lastScannedBlock (conf c0) + 1) b H).
  { pose proof (lo_from _ _ _ Hl) as Hf. rewrite Hp, !between_from; [done| |]; (eapply Forall_impl; [exact Hf|]); cbn; lia. }
  destruct (catch_up c0 H b evs Hs0 ltac:(cbn; lia) Hev) as (c1 & E1 & Hs1 & Hh1 & _ & Hp1 & _). rewrite (step_op _ _ _ _ _ E1), step_modify. set (c2 := on_conf _ c1).
  destruct (parityCheck_run chain c2 reg (sv_registry _ _ _ _ _ Hv)) as (c3 & E3 & Hc3 & _ & Hoff). rewrite (step_op _ _ _ _ _ E3), step_get.
  assert (Hsync : synced H (conf c3)) by (by rewrite Hc3). assert (Hpar : parentState (conf c3) = parent) by (rewrite Hc3; exact Hp1).
  assert (Hb : lastScannedBlock (conf c3) = b) by (by rewrite Hc3).
  rewrite <- Hc3 in *. destruct (in_parity reg (conf c3)) eqn:Ep.
  - cbn [negb andb]. unfold throw_op. rewrite (step_run _ tt) by done. eexists. split; [reflexivity|]. cbn [fst snd conf health on_health signingEnabled set_signing modify].
    rewrite Ep. split; [done|]. split; [done|]. split; [done|]. split; [|done]. split; [by left|done].
  - destruct (Hoff eq_refl) as [Hso Haw]. exists c3. rewrite Ep, Haw. cbn [negb andb]. unfold throw_op.
    destruct (Z.ltb_spec (lastTransitionIndex (conf c3) + 1) reg.2) as [Hlt|Hge]; cbn [negb].
    + rewrite (step_run _ tt) by done. split; [done|]. repeat (split; [done|]). split; [|done]. split; [by right|done].
    + cbn [throw_if]. unfold mbind, core_bind, run_outcome. repeat (split; [done|]). split; [|done]. split; [done|]. intros [?|?]; [done|lia].
Qed.

(** ** When signing is on *)
Abbreviation signing_off := (fun c => signingEnabled (health c) = false).

Lemma keeps_off_health f : (forall h, signingEnabled h = false -> signingEnabled (f h) = false) -> keeps signing_off (modify (on_health f)).
Proof. intros H. apply keeps_modify. intros c. apply H. Qed.
Lemma keeps_off_same f : (forall c, health (f c) = health c) -> keeps signing_off (modify f).
Proof. intros H. apply keeps_modify. intros c. by rewrite H. Qed.
#[local] Hint Resolve keeps_off_health keeps_off_same : core.

Lemma checkEpoch_off chain : keeps signing_off (checkEpochStillCurrent cfg chain).
Proof. unfold checkEpochStillCurrent. keeps_walk. Qed.
Lemma parityCheck_off chain : keeps signing_off (parityCheck cfg chain).
Proof. unfold parityCheck. keeps_walk. Qed.
Lemma handleReorg_off hashAt : keeps signing_off (handleReorg hashAt).
Proof. intros c Hc. rewrite handleReorg_run. by destruct (find_canonical _ _ _ _). Qed.
Lemma detect_reorg_off chain : keeps signing_off (detect_reorg chain).
Proof. pose proof handleReorg_off. unfold detect_reorg. keeps_walk. Qed.
Lemma applyChainEvents_off evs : keeps signing_off (applyChainEvents cfg evs).
Proof.
  induction evs as [|ev evs IH]; [apply keeps_ret|]. cbn [applyChainEvents]. apply keeps_bind; [|done]. intros c Hc. rewrite applyChainEvent_run.
  destruct (verify_event _ _ _) as [[[s r]|]|e]; [|done|done]. cbn [fst]. by rewrite commit_health.
Qed.
Lemma scan_new_off chain b : keeps signing_off (scan_new cfg chain b).
Proof. pose proof applyChainEvents_off. unfold scan_new. keeps_walk. Qed.

Lemma step_cases {A B} (m : core_op A) (f : A -> core_op B) c c' r : (m ≫= f) c = (c', r) ->
  (exists e, m c = (c', Throws e) /\ r = Throws e) \/ exists c1 a, m c = (c1, Returns a) /\ f a c1 = (c', r).
Proof. unfold mbind, core_bind. destruct (m c) as [c1 [a|e]]; [by right; exists c1, a|]. intros [= <- <-]. left. by exists e. Qed.

Lemma checkEpoch_answer chain c c' b : checkEpochStillCurrent cfg chain c = (c', Returns b) ->
  if b then getV4CurrentEpoch chain = Returns (cf_epoch cfg) else signingEnabled (health c') = false.
Proof.
  intros H. unfold checkEpochStillCurrent in H. apply core_bind_Returns in H as (c1 & e & E & H). apply run_Returns in E as [-> E].
  destruct (Z.eqb_spec e (cf_epoch cfg)) as [->|_].
  - rewrite step_modify in H. by injection H as <- <-.
  - rewrite step_modify, step_get in H. case_bool_decide; cbn in H; injection H as <- <-; done.
Qed.

Lemma detect_reorg_answer chain c c' b : detect_reorg chain c = (c', Returns b) -> b = true.
Proof.
  unfold detect_reorg. rewrite step_get. destruct (last _) as [s|]; [|by intros [=]]. intros H. apply core_bind_Returns in H as (c1 & h & E & H). apply run_Returns in E as [-> E].
  destruct h as [[|a h]|]; [by injection H| |by injection H]. destruct (hexNe _ _); [|by injection H]. apply core_bind_Returns in H as (c1 & ok & E1 & H). rewrite handleReorg_run in E1.
  destruct (find_canonical _ _ _ _); [|done]. injection E1 as <- <-. by injection H.
Qed.

(** Which way the body of a tick went. *)
Lemma tick_body_signing chain t c c' r : tick_body cfg chain t c = (c', r) ->
  match r with
  | Throws _ => signingEnabled (health c) = false -> signingEnabled (health c') = false
  | Returns _ => signingEnabled (health c') = true ->
      getV4CurrentEpoch chain = Returns (cf_epoch cfg) /\ exists reg, getRegistryEpoch chain (cf_epoch cfg) = Returns reg /\ in_parity reg (conf c') = true
  end.
Proof.
  intros H. unfold tick_body in H. apply step_cases in H as [(e & E & ->)|(c1 & cur & E1 & H)].
  { intros Hc. pose proof (checkEpoch_off chain c Hc) as Hx. by rewrite E in Hx. }
  pose proof (checkEpoch_answer _ _ _ _ E1) as Hcur. assert (O1 : signingEnabled (health c) = false -> signingEnabled (health c1) = false).
  { intros Hc. pose proof (checkEpoch_off chain c Hc) as Hx. by rewrite E1 in Hx. }
  destruct cur; cbn [negb] in H; [|injection H as <- <-; rewrite (proj1 (gcPending_health _ _ _)); congruence].
  apply step_cases in H as [(e & [= <- _] & ->)|(c2 & head & E2 & H)]; [done|]. apply run_Returns in E2 as [-> _]. rewrite step_get, step_modify in H.
  apply step_cases in H as [(e & E & ->)|(c3 & go_on & E3 & H)].
  { intros Hc. pose proof (detect_reorg_off chain (on_health (set_lag (head - lastScannedBlock (conf c1))) c1) (O1 Hc)) as Hx. by rewrite E in Hx. }
  assert (O3 : signingEnabled (health c) = false -> signingEnabled (health c3) = false).
  { intros Hc. pose proof (detect_reorg_off chain (on_health (set_lag (head - lastScannedBlock (conf c1))) c1) (O1 Hc)) as Hx. by rewrite E3 in Hx. }
  rewrite (detect_reorg_answer _ _ _ _ E3) in H. cbn [negb] in H. apply step_cases in H as [(e & E & ->)|(c4 & u & E4 & H)].
  { intros Hc. pose proof (scan_new_off chain (head - confirmationDepth cfg) c3 (O3 Hc)) as Hx. by rewrite E in Hx. }
  assert (O4 : signingEnabled (health c) = false -> signingEnabled (health c4) = false).
  { intros Hc. pose proof (scan_new_off chain (head - confirmationDepth cfg) c3 (O3 Hc)) as Hx. by rewrite E4 in Hx. }
  apply step_cases in H as [(e & E & ->)|(c5 & available & E5 & H)].
  { intros Hc. pose proof (parityCheck_off chain c4 (O4 Hc)) as Hx. by rewrite E in Hx. }
  destruct (getRegistryEpoch chain (cf_epoch cfg)) as [reg|e] eqn:Er; [|unfold parityCheck, mbind, core_bind, run_outcome in E5; by rewrite Er in E5].
  destruct (parityCheck_run chain c4 reg Er) as (c6 & E6 & Hc6 & _ & Hoff). rewrite E6 in E5. injection E5 as <- <-. destruct (in_parity reg (conf c4)) eqn:Ep.
  - change ((modify (on_health (set_transient None)) ≫= λ _, modify (gcPending cfg (nowSec t))) (on_health (set_signing true None) (auditReceiptCacheAgainstCanonicalRoots c6)) = (c', r)) in H.
    rewrite step_modify in H. injection H as <- <-. intros _. split; [done|]. exists reg. split; [done|]. rewrite gcPending_conf. cbn [conf on_health]. by rewrite audit_conf, Hc6.
  - change ((modify (on_health (set_transient None)) ≫= λ _, modify (gcPending cfg (nowSec t))) c6 = (c', r)) in H. rewrite step_modify in H. injection H as <- <-.
    rewrite (proj1 (gcPending_health _ _ _)). cbn. rewrite (proj1 (Hoff eq_refl)). done.
Qed.

(** C31. What signing means, whatever the chain answers. *)
Theorem signing_gate chain t c c' : tickInner error_code cfg chain t c = (c', Returns tt) -> signingEnabled (health c') = true ->
  frozen (freezing c) = true /\ c' = c
  \/ getV4CurrentEpoch chain = Returns (cf_epoch cfg) /\ (exists reg, getRegistryEpoch chain (cf_epoch cfg) = Returns reg /\ in_parity reg (conf c') = true)
  \/ signingEnabled (health c) = true /\ (exists e c1, tick_body cfg chain t c = (c1, Throws e) /\ isTransientChainReadError error_code e = true)
     /\ exists since, transientChainFailureSinceMs (health c') = Some since /\ t - since < TRANSIENT_CHAIN_FAILURE_GRACE_MS.
Proof.
  unfold tickInner. rewrite step_get. destruct (frozen _) eqn:Ef; [by intros [= <-]; left|]. unfold try_catch. destruct (tick_body cfg chain t c) as [c1 [[]|e]] eqn:Eb.
  { intros [= <-] Hs. right. left. exact (tick_body_signing _ _ _ _ _ Eb Hs). }
  pose proof (tick_body_signing _ _ _ _ _ Eb) as Hoff. cbn [conf] in Hoff. intros H Hs. right. right. unfold tick_catch in H. rewrite step_modify, step_get in H.
  destruct (isTransientChainReadError error_code e) eqn:Et; [|injection H as <-; done]. cbn [andb] in H. cbn [health on_metrics] in H.
  destruct (signingEnabled (health c1)) eqn:E1; [|injection H as <-; done].
  split; [destruct (signingEnabled (health c)); [done|by specialize (Hoff eq_refl)]|]. split; [by exists e, c1|].
  unfold withinTransientChainGrace, mbind, core_bind, modify, get_core, mret, core_ret in H. cbn [health on_metrics on_health transientChainFailureSinceMs set_transient] in H.
  destruct (transientChainFailureSinceMs (health c1)) as [since|] eqn:Es.
  - cbn [health on_metrics] in H. rewrite Es in H. cbn [default from_option] in H. unfold id in H. destruct (Z.ltb_spec (t - since) TRANSIENT_CHAIN_FAILURE_GRACE_MS) in H; cbn [fst snd] in H; injection H as <-; [|done]. by exists since.
  - cbn [default from_option health on_metrics on_health transientChainFailureSinceMs set_transient] in H. unfold id in H. destruct (Z.ltb_spec (t - t) TRANSIENT_CHAIN_FAILURE_GRACE_MS) in H; cbn [fst snd] in H; injection H as <-; [|done]. by exists t.
Qed.
End Follow.

(** ** Served states *)
Lemma fold_left_ext {A B} (f g : A -> B -> A) l : (forall a b, f a b = g a b) -> forall a, fold_left f l a = fold_left g l a.
Proof. intros H. induction l as [|b l IH]; intros a; [done|]. cbn [fold_left]. by rewrite H. Qed.

Lemma statePackedHex_spec s : state_ok s -> statePackedHex s = bytesToHex (pack_spec (words s)).
Proof.
  intros [Hl Hw]. unfold statePackedHex. apply (f_equal bytesToHex). rewrite PACKED_SIZE_words, <- Hl.
  transitivity (fold_left (fun out i => writeBigEndian32 out (i * 32) (default 0 (words s !! i))) (seq 0 (length (words s))) (zeros (32 * length (words s)))).
  - apply fold_left_ext. intros out i. unfold writeBigEndian32. apply (f_equal (write_be_loop 32 out (i * 32))). destruct (words s !! i) as [w|] eqn:E; [|done]. cbn [default]. rewrite Forall_forall in Hw.
    apply list_elem_of_lookup_2, Hw in E. unfold asUintN. symmetry. by apply Z.mod_small.
  - rewrite pack_loop by lia. rewrite Nat.sub_diag, Nat.mul_0_r, take_ge by lia. by rewrite app_nil_r.
Qed.

Theorem getSubstrate_spec c r : chain_inv (conf c) ->
  (r ∈ parentRoot (conf c) :: liveRoot (conf c) :: map sn_root (snapshots (conf c)) -> is_Some (getSubstrate c r))
  /\ forall s, getSubstrate c r = Some s -> sub_stateRoot s = toLowerCase r /\ exists st rt, hexToBytes (packedHex s) ≫= unpack = Returns st
       /\ merkleizeState st = Returns rt /\ bytesToHex rt = toLowerCase r /\ reach true (parentState (conf c)) st.
Proof.
  intros Hc. unfold getSubstrate. split.
  - intros Hr. assert (Hr' : r ∈ parentRoot (conf c) :: map sn_root (snapshots (conf c))).
    { apply elem_of_cons in Hr as [->|[->|Hr]%elem_of_cons]; [by left| |by right]. pose proof (ci_live _ Hc) as Hl.
      destruct (last _) as [s|] eqn:E; destruct Hl as (_ & -> & _); [|by left]. right. by apply (list_elem_of_fmap_2 sn_root), last_Some_elem_of. }
    assert (toLowerCase r = r) as ->.
    { apply elem_of_cons in Hr' as [->|(s & -> & Hs)%list_elem_of_fmap]; [rewrite (proj2 (ci_parent _ Hc)); apply toLower_root_hex|].
      pose proof (ci_snaps _ Hc) as Hk. rewrite Forall_forall in Hk. rewrite (kn_root _ _ _ (Hk _ Hs)). apply toLower_root_hex. }
    destruct (ci_served _ Hc r Hr') as [st ->]. by eexists.
  - intros s. destruct (jsmap_get (toLowerCase r) _) as [st|] eqn:E; [|done]. intros [= <-]. split; [done|].
    pose proof (ci_byRoot _ Hc) as Hb. rewrite Forall_forall in Hb. destruct (jsmap_get_split _ _ _ E) as (a & b & Em & _).
    destruct (Hb (toLowerCase r, st)) as [Hok Hr Hre]; [rewrite Em; set_solver|]. cbn [fst snd] in *.
    exists st, (root (cache_of st)). cbn [packedHex]. rewrite statePackedHex_spec, hexToBytes_bytesToHex by (done || apply pack_spec_ok).
    cbn [mbind outcome_bind]. split; [destruct st, Hok; by apply unpack_pack_spec|]. split; [by apply merkleizeState_returns, Hok|]. split; [by rewrite Hr|done].
Qed.
End Watch.

(** ** Witnesses *)
Abbreviation log_a := [event_w 5 0 "0xaa" (patch_w 32 5)].
Abbreviation log_b := [event_w 6 0 "0xbb" (patch_w 33 6)].

Lemma log_w_ok from block hash i w : i ∈ [32; 33] -> w ∈ [5; 6] -> Z.max 1 from <= block ->
  log_ok (HK:=length_hasher) config_w from zero_state [event_w block 0 hash (patch_w i w)].
Proof.
  intros Hi Hw Hb. constructor; [repeat constructor|by repeat constructor|]. eexists. eapply history_advance; [by apply event_w_valid|constructor].
Qed.

(** The coordinator that followed [log_a]. *)
Definition core_a : Core := on_conf (set_scanned 6) (applyChainEvents (HK:=length_hasher) config_w log_a started_w).1.

Lemma core_a_synced : synced (HK:=length_hasher) config_w log_a (conf core_a) /\ parentState (conf core_a) = zero_state
  /\ replayFromBlock (conf core_a) = 0 /\ frozen (freezing core_a) = false.
Proof.
  assert (Hs : synced (HK:=length_hasher) config_w log_a (conf started_w)).
  { constructor; [apply chain_inv_started, zero_state_ok|apply log_w_ok; [set_solver|set_solver|cbn; lia]|]. exists []. split; [constructor|apply recent_refl]. }
  destruct (catch_up (HK:=length_hasher) config_w started_w log_a 6 log_a Hs) as (c & E & H1 & _ & H2 & H3 & H4); [cbn; lia|reflexivity|].
  change (stableSort log_a event_cmp) with log_a in E. unfold core_a. rewrite E. cbn [fst conf freezing on_conf parentState replayFromBlock set_scanned]. rewrite H3, H4, H2. split; [exact H1|]. split; [reflexivity|]. split; reflexivity.
Qed.

Definition hashes_b (b : Z) : option string := if b =? 5 then Some "0xcc"%string else if b =? 6 then Some "0xbb"%string else None.
Abbreviation reg_b := (bytesToHex (be_bytes 32 64), 1).
Abbreviation chain_b := (chain_w log_b 8 hashes_b reg_b).
Lemma chain_w_serves H head hashes reg : serves config_w (chain_w H head hashes reg) H head hashes reg.
Proof. constructor; try done. intros a b. by eexists. Qed.

Lemma tick_follows_chain_witness : exists c', tickInner (HK:=length_hasher) (fun _ => EmptyString) config_w chain_b 0 core_a = (c', Returns tt)
  /\ synced (HK:=length_hasher) config_w log_b (conf c') /\ 6 <= lastScannedBlock (conf c').
Proof.
  destruct core_a_synced as (Hs & Hp & Hr & Hf).
  destruct (tick_follows_chain (HK:=length_hasher) (fun _ => EmptyString) config_w core_a chain_b 0 log_a log_b 8 hashes_b reg_b Hf Hs) as (c' & H1 & H2 & H3 & _).
  - rewrite Hp, Hr. clear. apply log_w_ok; [set_solver|set_solver|cbn; lia].
  - apply chain_w_serves.
  - constructor.
    + intros a b Ha Hb _. apply list_elem_of_singleton in Ha as ->. apply list_elem_of_singleton in Hb as ->. reflexivity.
    + intros e He Hc. apply list_elem_of_singleton in He as ->. vm_compute in Hc. discriminate Hc.
  - intros H. vm_compute in H. discriminate H.
  - exists c'. split; [exact H1|]. split; [exact H2|exact H3].
Defined.

Lemma boot_follows_chain_witness : exists c', (boot (HK:=length_hasher) config_w chain_b (fun _ => Returns zero_state) (new_core config_w)).1 = c'
  /\ synced (HK:=length_hasher) config_w log_b (conf c').
Proof.
  destruct (boot_follows_chain (HK:=length_hasher) config_w chain_b (fun _ => Returns zero_state) zero_state 1000 log_b 8
    hashes_b reg_b zero_state_ok) as (c' & H1 & H2 & _).
  - constructor; try (vm_compute; reflexivity).
    + eexists. split; [reflexivity|]. vm_compute. discriminate.
    + eexists. split; reflexivity.
    + eexists. split; reflexivity.
    + eexists. split; [reflexivity|]. split; [reflexivity|]. split; [reflexivity|]. vm_compute. reflexivity.
  - apply log_w_ok; [set_solver|set_solver|cbn; lia].
  - apply chain_w_serves.
  - exists c'. split; [exact H1|exact H2].
Defined.

Lemma signing_gate_witness : exists c', tickInner (HK:=length_hasher) (fun _ => EmptyString) config_w (chain_w [] 8 (fun _ => None) (bytesToHex (be_bytes 32 64), 0)) 0 started_w = (c', Returns tt)
  /\ exists reg, getRegistryEpoch (chain_w [] 8 (fun _ => None) (bytesToHex (be_bytes 32 64), 0)) 7 = Returns reg /\ in_parity reg (conf c') = true.
Proof.
  destruct (tickInner_returns (HK:=length_hasher) (fun _ => EmptyString) config_w (chain_w [] 8 (fun _ => None) (bytesToHex (be_bytes 32 64), 0)) 0 started_w) as [c' Hc].
  exists c'. split; [exact Hc|]. assert (Hs : signingEnabled (health c') = true).
  { assert (E : signingEnabled (health (tickInner (HK:=length_hasher) (fun _ => EmptyString) config_w (chain_w [] 8 (fun _ => None) (bytesToHex (be_bytes 32 64), 0)) 0 started_w).1) = true)
      by (vm_compute; reflexivity). by rewrite Hc in E. }
  destruct (signing_gate (HK:=length_hasher) (fun _ => EmptyString) config_w _ 0 started_w c' Hc Hs) as [[Hf _]|[(_ & H)|(H & _)]]; [vm_compute in Hf; discriminate Hf|exact H|vm_compute in H; discriminate H].
Defined.

Lemma getSubstrate_spec_witness : is_Some (getSubstrate started_w (liveRoot (conf started_w))).
Proof. apply (getSubstrate_spec (HK:=length_hasher) started_w); [apply chain_inv_started, zero_state_ok|]. by right; left. Defined.
