(* ===== verification/CoordinatorSubmit.v ===== *)
(** * Coordinator: issuing receipts (coordinator/coretex-coordinator-core.ts)

    [submit] runs in two critical sections around the evaluator:
    [prepareSubmitEvaluation] checks the body, the live context and the
    structure of the patch; [finishSubmitAfterEvaluation] re-checks the
    context, gates the evaluation and signs. Anything may happen in between.
    The evaluator's numbers are [option Z]: an integer, or a number that is
    none. Answers carry their code, not their text. The signer is a parameter.

    Theorems: what a signed receipt has passed and says ([finish_sound]); a
    signed state advance is one the watcher accepts when its event comes next,
    and then the receipt is confirmed and its score is the baseline
    ([advance_lands]); the receipts of a miner chain ([receipts_chain]); the
    confirmed state and the pending receipts stay sound whatever is called in
    whatever order ([coordinator_invariant]), and only a tick moves the
    confirmed state ([step_conf]); the queue counters ([queue_bounds]). *)
From Stdlib Require Import Ascii.
From stdpp Require Import pretty.
From S2P Require Import Prelude JsSort StateTypes Float Codec Keccak Merkle Decoder Substrate Validate Patch SeedDerivation SlotPolicy PerPatch WorkUnits CanonicalJson Coordinator.
#[local] Open Scope Z_scope.

(** ** Evaluations *)
(** A pack of the proof; [pk_scorePpm] is [None] for a number that is not an integer. *)
Record DualPack := mkDualPack { pk_domain : string; pk_seedCommit : string; pk_accepted : bool; pk_scorePpm : option Z }.

Record CoreTexDualPackEvaluationProof := mkDualProof {
  ep_kind : string;
  ep_mode : string;
  ep_epochId : option Z;
  ep_receivedAtBlock : option Z;
  ep_targetBlock : option Z;
  ep_targetBlockOffset : option Z;
  ep_blockhash : string;
  ep_patchHash : string;
  ep_parentStateRoot : string;
  ep_corpusRoot : string;
  ep_coreVersionHash : string;
  ep_hiddenSeedCommit : string;
  ep_epochSecretCommit : string;
  ep_gate : option DualPack;
  ep_confirm : option DualPack
}.

(** What an accepted evaluation carries. *)
Record Accepted := mkAccepted {
  deterministicDeltaPpm : option Z;
  ev_reportHash : string;
  artifactHash : string;
  evaluationProof : option CoreTexDualPackEvaluationProof
}.
Inductive EvalResult :=
  | EvalReject (code : string)
  | ScreenerPass (a : Accepted)
  | StateAdvance_ (a : Accepted) (scoreBefore scoreAfter : option Z) (rewrittenPatchBytesHex : string).

(** [Number.isSafeInteger(x) && x >= 0], and its value. *)
Definition safe_nonneg (x : option Z) : option Z :=
  match x with
  | Some n => if isSafeInteger n && (0 <=? n) then Some n else None
  | None => None
  end.

Definition validateAccepted (a : Accepted) : option string :=
  match safe_nonneg (deterministicDeltaPpm a) with
  | None => Some "EVAL_DELTA_INVALID"%string
  | Some _ => if negb (isBytes32 (ev_reportHash a)) || negb (isBytes32 (artifactHash a)) then Some "EVAL_HASH_INVALID"%string else None
  end.

(** The code of the fault, or [None]. *)
Definition validateAcceptedEvalResult (result : EvalResult) : option string :=
  match result with
  | EvalReject _ => None
  | ScreenerPass a => validateAccepted a
  | StateAdvance_ a before after _ =>
    match validateAccepted a with
    | Some c => Some c
    | None =>
      match safe_nonneg before, safe_nonneg after with
      | Some b, Some e =>
        let scoreDelta := e - b in
        if scoreDelta <=? 0 then Some "EVAL_SCORE_INVALID"%string
        else if negb (bool_decide (deterministicDeltaPpm a = Some scoreDelta)) then Some "EVAL_DELTA_INVALID"%string
        else None
      | _, _ => Some "EVAL_SCORE_INVALID"%string
      end
    end
  end.

Record DualPackExpectation := mkExpectation {
  x_epoch : Z;
  x_targetBlockOffset : option Z;
  x_patchHash : string;
  x_parentStateRoot : string;
  x_corpusRoot : string;
  x_coreVersionHash : string;
  x_hiddenSeedCommit : string;
  x_minDualPackScorePpm : option Z
}.

(** [isBytes32(s) && s.toLowerCase() === expected.toLowerCase()] *)
Definition same_hash (s expected : string) : bool := isBytes32 s && hexEqb s expected.

Definition pack_valid (pk : DualPack) (minScore : option Z) : bool :=
  isBytes32 (pk_seedCommit pk) && negb (String.eqb (toLowerCase (pk_seedCommit pk)) ZERO_HASH)
  && pk_accepted pk
  && match safe_nonneg (pk_scorePpm pk) with
     | Some score => (score <=? 1000000) && negb (match minScore with Some m => score <? m | None => false end)
     | None => false
     end.

Definition window_valid (proof : CoreTexDualPackEvaluationProof) (offset : option Z) : bool :=
  match safe_nonneg (ep_receivedAtBlock proof), ep_targetBlock proof, ep_targetBlockOffset proof with
  | Some received, Some target, Some off =>
    isSafeInteger target && (received <? target) && isSafeInteger off && (0 <? off) && (target =? received + off)
    && match offset with Some o => off =? o | None => true end
  | _, _, _ => false
  end.

(** [true] where the source returns [null]: every check passed. *)
Definition validateDualPackProof (result : Accepted) (expected : DualPackExpectation) : bool :=
  match evaluationProof result with
  | None => false
  | Some proof =>
    String.eqb (ep_kind proof) "coretex-dual-pack-v1"
    && String.eqb (ep_mode proof) "future_blockhash_dual_pack"
    && bool_decide (ep_epochId proof = Some (x_epoch expected))
    && window_valid proof (x_targetBlockOffset expected)
    && isBytes32 (ep_blockhash proof) && negb (String.eqb (toLowerCase (ep_blockhash proof)) ZERO_HASH)
    && same_hash (ep_patchHash proof) (x_patchHash expected)
    && same_hash (ep_parentStateRoot proof) (x_parentStateRoot expected)
    && same_hash (ep_corpusRoot proof) (x_corpusRoot expected)
    && same_hash (ep_coreVersionHash proof) (x_coreVersionHash expected)
    && same_hash (ep_hiddenSeedCommit proof) (x_hiddenSeedCommit expected)
    && same_hash (ep_epochSecretCommit proof) (x_hiddenSeedCommit expected)
    && match ep_gate proof, ep_confirm proof with
       | Some g, Some c =>
         String.eqb (pk_domain g) "gate" && String.eqb (pk_domain c) "confirm"
         && pack_valid g (x_minDualPackScorePpm expected) && pack_valid c (x_minDualPackScorePpm expected)
         && hexNe (pk_seedCommit g) (pk_seedCommit c)
       | _, _ => false
       end
  end.

(** ** The body *)
Definition isHex (value : string) : bool :=
  match value with
  | String a (String b rest) => Ascii.eqb a "0" && Ascii.eqb b "x" && forallb is_hex_char (String.list_ascii_of_string rest)
  | _ => false
  end.

Definition normalizeHexBytes (value : jsval) : option (string * bytes) :=
  match value with
  | JString s =>
    if negb (isHex s) then None
    else let hex := toLowerCase s in
         if Nat.odd (String.length hex) then None else Some (hex, hexToBytes_padded hex)
  | _ => None
  end.

Record ParsedSubmitOk := mkParsed { patchBytesHex : string; patchBytes : bytes; ps_parentStateRoot : string; ps_miner : string }.

(** The own keys of a truthy value of type object. *)
Definition body_fields (body : jsval) : option (list (string * jsval)) :=
  match body with
  | JObject fields => Some fields
  | JArray elems => Some (imap (fun i v => (pretty i, v)) elems)
  | JBytes bs => Some (imap (fun i b => (pretty i, JNumber (of_Z b))) bs)
  | JMap _ => Some []
  | _ => None
  end.

Definition submit_key (k : string) : bool := String.eqb k "patchBytesHex" || String.eqb k "parentStateRoot" || String.eqb k "minerAddress".

Definition parseSubmitBody (body : jsval) (maxPatchBytes : Z) : string + ParsedSubmitOk :=
  match body_fields body with
  | None => inl "BODY"%string
  | Some r =>
    let field k := default JUndefined (jsmap_get k r) in
    if existsb (fun e => negb (submit_key e.1)) r then inl "BODY_UNKNOWN_KEY"%string
    else match normalizeHexBytes (field "patchBytesHex"%string) with
    | None => inl "BODY"%string
    | Some (hex, bs) =>
      if (length bs =? 0)%nat then inl "BODY"%string
      else if maxPatchBytes <? Z.of_nat (length bs) then inl "PATCH_TOO_LARGE"%string
      else match field "parentStateRoot"%string, field "minerAddress"%string with
      | JString root, JString miner =>
        if negb (isBytes32 root) then inl "BODY"%string
        else if negb (isAddress miner) then inl "BODY"%string
        else inr (mkParsed hex bs (toLowerCase root) (toLowerCase miner))
      | _, _ => inl "BODY"%string
      end
    end
  end.

(** ** Receipts *)
Record CoreTexReceiptPayload := mkPayload {
  r_epochId : Z;
  solveIndex : Z;
  prevReceiptHash : string;
  r_outcome : Z;
  challengeId : string;
  r_parentStateRoot : string;
  r_newStateRoot : string;
  r_corpusRoot : string;
  r_activeFrontierRoot : string;
  r_coreVersionHash : string;
  r_evalReportHash : string;
  r_patchHash : string;
  r_artifactHash : string;
  r_worldSeed : Z;
  r_rulesVersion : Z;
  r_workPolicyHash : string;
  r_workUnitsBps : Z;
  difficultyCountSnapshot : Z;
  stateWordCount : Z;
  r_scoreBeforePpm : Z;
  r_scoreAfterPpm : Z;
  r_issuedAt : Z;
  r_expiresAt : Z;
  r_compactPatchBytes : string
}.

Record CoreTexSignedReceipt := mkSigned { signature : string; transactionData : string; sg_receipt : option jsval; sg_receiptHash : option string }.
Abbreviation CoreTexReceiptSigner := (string -> CoreTexReceiptPayload -> outcome CoreTexSignedReceipt).

Record PreparedSubmit := mkPrepared {
  pr_now : Z;
  pr_parsed : ParsedSubmitOk;
  pr_decoded : Patch;
  canonicalHex : string;
  pr_originalPatchHash : string;
  dedupKey : string;
  screenerThresholdPpm : Z;
  rootAtEvaluation : string;
  parentStateSnapshot : CortexState;
  pr_freezeGeneration : Z
}.

Inductive SubmitResponse := Rejected (code : string) | Signed (env : ReceiptEnvelope).

Definition rejectSubmission (code : string) : core_op SubmitResponse :=
  _ ← modify (on_metrics (add_rejected code)); mret (Rejected code).

Definition error_code_name (c : PatchErrorCode) : string :=
  match c with E01 => "E01" | E02 => "E02" | E03 => "E03" | E04 => "E04" | E05 => "E05" end%string.

Section WithHasher.
Context {HK : Hasher}.

(** [[...parts].join('|')], hashed. *)
Definition hashText (parts : list string) : string := toLowerCase (bytesToHex (keccak256 (text_encode (String.concat "|" parts)))).

(** [BigInt('0x' + h.slice(2, 34))]: the first 16 bytes of the hash. *)
Definition worldSeed (miner : string) (index : Z) (patchHash : string) : Z :=
  be_value (take 16 (hexToBytes_padded (hashText ["coretex-world-v1"%string; toLowerCase miner; pretty index; toLowerCase patchHash]))).

Definition num (n : Z) : jsval := JNumber (of_Z n).
Definition dec (n : Z) : jsval := JString (pretty n).

Definition serializeReceipt (r : CoreTexReceiptPayload) (signature : string) : jsval :=
  JObject [
    ("epochId", dec (r_epochId r)); ("solveIndex", dec (solveIndex r)); ("prevReceiptHash", JString (prevReceiptHash r)); ("outcome", num (r_outcome r));
    ("challengeId", JString (challengeId r)); ("parentStateRoot", JString (r_parentStateRoot r)); ("newStateRoot", JString (r_newStateRoot r));
    ("corpusRoot", JString (r_corpusRoot r)); ("activeFrontierRoot", JString (r_activeFrontierRoot r)); ("coreVersionHash", JString (r_coreVersionHash r));
    ("evalReportHash", JString (r_evalReportHash r)); ("patchHash", JString (r_patchHash r)); ("artifactHash", JString (r_artifactHash r));
    ("worldSeed", dec (r_worldSeed r)); ("rulesVersion", num (r_rulesVersion r)); ("workPolicyHash", JString (r_workPolicyHash r));
    ("workUnitsBps", dec (r_workUnitsBps r)); ("difficultyCountSnapshot", dec (difficultyCountSnapshot r)); ("stateWordCount", num (stateWordCount r));
    ("issuedAt", num (r_issuedAt r)); ("expiresAt", num (r_expiresAt r)); ("compactPatchBytes", JString (r_compactPatchBytes r));
    ("signature", JString (toLowerCase signature))]%string.

(** ** Live thresholds *)
Definition default_minImprovementPpm : Z :=
  match toBigInt (minDeterministicDeltaPpm (stateAdvance DEFAULT_CORETEX_WORK_POLICY)) with Returns v => v | Throws _ => 0 end.

Definition effectiveStateAdvanceThresholdPpm (cfg : CoreTexCoordinatorConfig) (c : Core) : Z :=
  default default_minImprovementPpm (cf_minImprovementPpm cfg) + default 0 (cf_replayTolerancePpm cfg) + default 0 (currentBaselineVariancePpm (baselines c)).

Definition effectiveScreenerThresholdPpm (cfg : CoreTexCoordinatorConfig) (c : Core) (baselinePpm : Z) : outcome Z :=
  computed ← computeCoreTexScreenerThresholdPpm
    (mkThresholdInput (Some (NNum baselinePpm)) (Some (NNum (default 0 (cf_recentNoiseFloorPpm cfg)))) None None None None
       (Some (NNum (effectiveStateAdvanceThresholdPpm cfg c))))
    (workPolicy cfg);
  Returns (Z.max (default 0 (cf_screenerThresholdPpm cfg)) computed).

Definition isAcceptingSubmissions (c : Core) : bool :=
  signingEnabled (health c) && negb (frozen (freezing c)) && match effectiveBaselinePpm c with Some _ => true | None => false end.

(** ** Before the evaluation *)
Abbreviation prepared_or_rejected := (SubmitResponse + PreparedSubmit)%type.
Definition reject (code : string) : core_op prepared_or_rejected := r ← rejectSubmission code; mret (inl r).

(** The epoch gate; [None] when the check itself failed. *)
Definition epoch_gate (cfg : CoreTexCoordinatorConfig) (chain : ChainClient) : core_op (option bool) :=
  try_catch (b ← checkEpochStillCurrent cfg chain; mret (Some b)) (fun _ =>
    _ ← modify (on_health (set_signing false (Some EpochCheckFailed))); mret None).

(** From the parsed body on. *)
Definition prepare_patch (cfg : CoreTexCoordinatorConfig) (now threshold : Z) (parsed : ParsedSubmitOk) : core_op prepared_or_rejected :=
  c ← get_core;
  if negb (String.eqb (ps_parentStateRoot parsed) (toLowerCase (liveRoot (conf c)))) then reject "E01"
  else match decodePatch (patchBytes parsed) with
  | Throws _ => reject "DECODE"
  | Returns decoded =>
    if negb (String.eqb (toLowerCase (bytesToHex (parentStateRoot decoded))) (ps_parentStateRoot parsed)) then reject "E01"
    else
    preApplied ← run_outcome (applyPatch (liveState (conf c)) decoded true);
    match preApplied with
    | PatchFailure err => reject (error_code_name (code err))
    | PatchSuccess _ =>
      canonicalBytes ← run_outcome (encodePatch (with_scoreDelta decoded 0));
      let canonical := toLowerCase (bytesToHex canonicalBytes) in
      let originalHash := toLowerCase (computePatchHash canonicalBytes) in
      let key := dedup_key (ps_parentStateRoot parsed) originalHash in
      match jsmap_get key (submitDedup (receipts c)) with
      | Some _ => reject "DuplicateCoreTexPatch"
      | None =>
        mret (inr (mkPrepared now parsed decoded canonical originalHash key threshold (toLowerCase (liveRoot (conf c)))
                     (liveState (conf c)) (freezeGeneration (freezing c))))
      end
    end
  end.

Definition prepareSubmitEvaluation (cfg : CoreTexCoordinatorConfig) (chain : ChainClient) (signer : option CoreTexReceiptSigner) (nowMs : Z) (body : jsval)
  : core_op prepared_or_rejected :=
  let now := nowSec nowMs in
  _ ← modify (gcPending cfg now);
  c ← get_core;
  if frozen (freezing c) then reject "epoch_cutover_in_progress"
  else
  epochCurrent ← epoch_gate cfg chain;
  match epochCurrent with
  | None => reject "CoordUnhealthy"
  | Some false => reject "CoordEpochMismatch"
  | Some true =>
    c ← get_core;
    if negb (signingEnabled (health c)) then reject (if isAwaitingFinality c then "CoordAwaitingFinality" else "CoordUnhealthy")%string
    else match signer, effectiveBaselinePpm c with
    | None, _ => reject "CoordSignerUnavailable"
    | Some _, None => reject "awaiting_baseline_recompute"
    | Some _, Some baselinePpm =>
      threshold ← run_outcome (effectiveScreenerThresholdPpm cfg c baselinePpm);
      match parseSubmitBody body (default 256 (maxPatchBytes cfg)) with
      | inl code => reject code
      | inr parsed => prepare_patch cfg now threshold parsed
      end
    end
  end.

(** ** After the evaluation *)
Definition patchSemanticsMatchExceptScoreDelta (a b : Patch) : bool :=
  (patchType a =? patchType b) && (wordCount a =? wordCount b)
  && String.eqb (toLowerCase (bytesToHex (parentStateRoot a))) (toLowerCase (bytesToHex (parentStateRoot b)))
  && list_Zeqb (indices a) (indices b) && (length (newWords a) =? length (newWords b))%nat
  && list_Zeqb (take (length (indices a)) (newWords a)) (take (length (indices a)) (newWords b)).

Definition expectation (cfg : CoreTexCoordinatorConfig) (p : PreparedSubmit) (minScore : Z) : DualPackExpectation :=
  mkExpectation (cf_epoch cfg) (cf_targetBlockOffset cfg) (pr_originalPatchHash p) (ps_parentStateRoot (pr_parsed p)) (pin_corpusRoot (expectedEpochPins cfg))
    (pin_coreVersionHash (expectedEpochPins cfg)) (pin_hiddenSeedCommit (expectedEpochPins cfg)) (Some minScore).

(** What a receipt says of the patch: its bytes, hash, new root, word count and scores. *)
Record SignedPatch := mkSignedPatch { sp_bytes : string; sp_hash : string; sp_newRoot : string; sp_wordCount : Z; sp_before : Z; sp_after : Z }.

(** The rewrite of a state advance, or the code of a rejection. *)
Definition rewrite_advance (cfg : CoreTexCoordinatorConfig) (c : Core) (p : PreparedSubmit) (a : Accepted) (before after : Z) (rewritten : string) (liveThreshold : Z)
  : outcome (string + SignedPatch) :=
  let scoreDelta := after - before in
  let minStateAdvanceDelta := Z.max (effectiveStateAdvanceThresholdPpm cfg c) liveThreshold in
  if scoreDelta <? minStateAdvanceDelta then Returns (inl "W03_DETERMINISTIC_DELTA_TOO_LOW"%string)
  else if negb (validateDualPackProof a (expectation cfg p minStateAdvanceDelta)) then Returns (inl "DUAL_PACK_PROOF_INVALID"%string)
  else match normalizeHexBytes (JString rewritten) with
  | None => Returns (inl "EVAL_REWRITE_INVALID"%string)
  | Some (_, bs) =>
    if default 256 (maxPatchBytes cfg) <? Z.of_nat (length bs) then Returns (inl "EVAL_REWRITE_INVALID"%string)
    else match decodePatch bs with
    | Throws _ => Returns (inl "EVAL_REWRITE_INVALID"%string)
    | Returns rewrittenDecoded =>
      if negb (patchSemanticsMatchExceptScoreDelta (pr_decoded p) rewrittenDecoded) then Returns (inl "EVAL_REWRITE_INVALID"%string)
      else
      encoded ← encodePatch (with_scoreDelta (pr_decoded p) scoreDelta);
      let compact := toLowerCase (bytesToHex encoded) in
      finalDecoded ← decodePatch (hexToBytes_padded compact);
      finalApplied ← applyPatch (parentStateSnapshot p) finalDecoded true;
      match finalApplied with
      | PatchFailure err => Returns (inl (error_code_name (code err)))
      | PatchSuccess state =>
        root ← merkleizeState state;
        Returns (inr (mkSignedPatch compact (toLowerCase (computePatchHash (hexToBytes_padded compact))) (toLowerCase (bytesToHex root)) (wordCount finalDecoded) before after))
      end
    end
  end.

(** The chain position of the next receipt: index, previous hash, receipts in flight; [None] when it must wait. *)
Definition chain_position (counters : CoreTexMinerCounters) (reservation : option Reservation) : option (Z * string * Z) :=
  let fresh := (nextIndex counters, toLowerCase (lastReceiptHash counters)) in
  match reservation with
  | None => Some (fresh, 0)
  | Some r =>
    let inFlight := Z.max 0 (rv_nextIndex r - nextIndex counters) in
    if rv_nextIndex r <=? nextIndex counters then Some (fresh, inFlight)
    else match rv_lastReceiptHash r with
    | None | Some EmptyString => None
    | Some h => Some ((rv_nextIndex r, h), inFlight)
    end
  end.

(** A reservation that the chain has reached is dropped. *)
Definition drop_landed (miner : string) (counters : CoreTexMinerCounters) (r : Receipts) : Receipts :=
  match jsmap_get miner (minerChainReservations r) with
  | Some v => if rv_nextIndex v <=? nextIndex counters then set_reservations (jsmap_delete miner (minerChainReservations r)) r else r
  | None => r
  end.

Definition isLowerBytes32 (s : string) : bool := isBytes32 s && String.eqb (toLowerCase s) s.

Definition cacheReceipt (envelope : ReceiptEnvelope) (originalPatchHash : string) (r : Receipts) : Receipts :=
  let signed := toLowerCase (env_patchHash envelope) in
  let r := set_cache (jsmap_set signed envelope (receiptCache r)) r in
  if String.eqb (toLowerCase originalPatchHash) signed then r
  else set_cache (jsmap_set (toLowerCase originalPatchHash) envelope (receiptCache r)) r.

(** The payload to sign. *)
Definition payload (cfg : CoreTexCoordinatorConfig) (p : PreparedSubmit) (a : Accepted) (out : Z) (index : Z) (prevHash : string) (sp : SignedPatch)
  (workPolicyHash : string) (workUnitsBps difficultyCount : Z) : CoreTexReceiptPayload :=
  let pins := expectedEpochPins cfg in
  let parsed := pr_parsed p in
  mkPayload (cf_epoch cfg) index prevHash out
    (hashText ["coretex-challenge-v1"%string; pretty (cf_epoch cfg); ps_parentStateRoot parsed; sp_hash sp])
    (ps_parentStateRoot parsed) (sp_newRoot sp) (toLowerCase (pin_corpusRoot pins)) (toLowerCase (pin_activeFrontierRoot pins))
    (toLowerCase (pin_coreVersionHash pins)) (toLowerCase (ev_reportHash a)) (sp_hash sp) (toLowerCase (artifactHash a))
    (worldSeed (ps_miner parsed) index (sp_hash sp)) (default CORTEX_RULES_VERSION (cf_rulesVersion cfg)) (toLowerCase workPolicyHash) workUnitsBps difficultyCount
    (sp_wordCount sp) (sp_before sp) (sp_after sp) (pr_now p) (pr_now p + receiptTtlSec cfg) (sp_bytes sp).

Definition signed_ok (s : CoreTexSignedReceipt) : bool :=
  isHex (signature s) && isHex (transactionData s) && match sg_receiptHash s with Some h => isBytes32 h | None => true end.

Definition public_receipt (r : CoreTexReceiptPayload) (s : CoreTexSignedReceipt) : jsval :=
  match sg_receipt s with
  | None | Some JNull | Some JUndefined => serializeReceipt r (signature s)
  | Some v => v
  end.

Definition envelope_of (cfg : CoreTexCoordinatorConfig) (r : CoreTexReceiptPayload) (s : CoreTexSignedReceipt) (screeners : Z) : ReceiptEnvelope :=
  let out := r_outcome r in
  let cap := default 50 (perMinerScreenerCap cfg) in
  let count := if out =? OUTCOME_CORETEX_SCREENER_PASS then screeners + 1 else screeners in
  mkEnvelope (out =? OUTCOME_CORETEX_STATE_ADVANCE) (r_patchHash r) (r_evalReportHash r) (r_workUnitsBps r) (r_newStateRoot r) count (Z.max 0 (cap - count))
    (public_receipt r s) (mkTransaction (toLowerCase (miningContractAddress cfg)) (expectedChainId cfg) "0" (toLowerCase (transactionData s)))
    (r_issuedAt r) (r_expiresAt r).

(** The bookkeeping of a signed receipt. *)
Definition record_receipt (p : PreparedSubmit) (r : CoreTexReceiptPayload) (s : CoreTexSignedReceipt) (env : ReceiptEnvelope) (rs : Receipts) : Receipts :=
  let rs := set_reservations (jsmap_set (ps_miner (pr_parsed p)) (mkReservation (solveIndex r + 1) (toLowerCase <$> sg_receiptHash s) (r_expiresAt r))
                                (minerChainReservations rs)) rs in
  let rs := set_dedup (jsmap_set (dedupKey p) (r_expiresAt r) (submitDedup rs)) rs in
  let rs := if r_outcome r =? OUTCOME_CORETEX_STATE_ADVANCE
    then set_pendings (jsmap_set (r_patchHash r) (mkPending (pr_originalPatchHash p) (r_patchHash r) (ps_parentStateRoot (pr_parsed p)) (r_newStateRoot r)
                                    (r_compactPatchBytes r) (ps_miner (pr_parsed p)) (r_issuedAt r) (r_expiresAt r) (Some (r_scoreAfterPpm r)) pending) (pendingByPatchHash rs)) rs
    else rs in
  cacheReceipt env (pr_originalPatchHash p) rs.

Definition sign_and_record (cfg : CoreTexCoordinatorConfig) (signer : option CoreTexReceiptSigner) (p : PreparedSubmit) (r : CoreTexReceiptPayload) (screeners : Z)
  : core_op SubmitResponse :=
  if negb (isLowerBytes32 (r_evalReportHash r)) || negb (isLowerBytes32 (r_artifactHash r)) then rejectSubmission "EVAL_HASH_INVALID"
  else match signer with
  | None => rejectSubmission "CoordSignerUnavailable"
  | Some sign =>
    match sign (ps_miner (pr_parsed p)) r with
    | Throws _ => _ ← modify (on_metrics add_signerFailure); rejectSubmission "SignerFailure"
    | Returns s =>
      if negb (signed_ok s) then rejectSubmission "SIGNER_INVALID"
      else
        let env := envelope_of cfg r s screeners in
        _ ← modify (on_receipts (record_receipt p r s env));
        mret (Signed env)
    end
  end.

(** From the gates on the evaluation to the signature. *)
Definition gate_and_sign (cfg : CoreTexCoordinatorConfig) (chain : ChainClient) (signer : option CoreTexReceiptSigner) (p : PreparedSubmit) (a : Accepted)
  (advance : option (Z * Z * string)) (delta baselinePpm : Z) : core_op SubmitResponse :=
  let out := match advance with Some _ => OUTCOME_CORETEX_STATE_ADVANCE | None => OUTCOME_CORETEX_SCREENER_PASS end in
  let miner := ps_miner (pr_parsed p) in
  counters ← run_outcome (getMinerCoreTexCounters chain (cf_epoch cfg) miner);
  c ← get_core;
  let reservation := jsmap_get miner (minerChainReservations (receipts c)) in
  _ ← modify (on_receipts (drop_landed miner counters));
  match chain_position counters reservation with
  | None => rejectSubmission "MinerReceiptChainBusy"
  | Some ((index, prevHash), inFlight) =>
    let cap := default 50 (perMinerScreenerCap cfg) in
    let screeners := screenersThisEpoch counters + inFlight in
    if (out =? OUTCOME_CORETEX_SCREENER_PASS) && (cap <=? screeners) then rejectSubmission "CoreTexScreenerCapExceeded"
    else
    liveThreshold ← run_outcome (effectiveScreenerThresholdPpm cfg c baselinePpm);
    if delta <? liveThreshold then rejectSubmission "W03_DETERMINISTIC_DELTA_TOO_LOW"
    else
    rewrite ← match advance with
      | None => mret (inr (mkSignedPatch (canonicalHex p) (pr_originalPatchHash p) (ps_parentStateRoot (pr_parsed p)) 0 0 0))
      | Some (before, after, rewritten) => run_outcome (rewrite_advance cfg c p a before after rewritten liveThreshold)
      end;
    match rewrite with
    | inl code => rejectSubmission code
    | inr sp =>
      difficultyCount ← run_outcome (getQualifiedScreenerPassesSinceLastStateAdvance chain (cf_epoch cfg));
      workUnitsBps ← run_outcome (computeCoreTexWorkUnitsBps out (Some (NNum difficultyCount)) (workPolicy cfg));
      match workPolicyHash cfg with
      | None => run_outcome (Throws (TypeError "workPolicyHash is undefined"))
      | Some hash => sign_and_record cfg signer p (payload cfg p a out index prevHash sp hash workUnitsBps difficultyCount) screeners
      end
    end
  end.

(** The mutable context, checked again. *)
Definition recheck_and_sign (cfg : CoreTexCoordinatorConfig) (chain : ChainClient) (signer : option CoreTexReceiptSigner) (p : PreparedSubmit) (a : Accepted)
  (advance : option (Z * Z * string)) (delta : Z) : core_op SubmitResponse :=
  c ← get_core;
  match jsmap_get (dedupKey p) (submitDedup (receipts c)) with
  | Some _ => rejectSubmission "DuplicateCoreTexPatch"
  | None =>
    if frozen (freezing c) || negb (freezeGeneration (freezing c) =? pr_freezeGeneration p) then rejectSubmission "epoch_cutover_in_progress"
    else if negb (String.eqb (toLowerCase (liveRoot (conf c))) (rootAtEvaluation p)) then rejectSubmission "W02_STALE_PARENT_AT_SIGNING"
    else match effectiveBaselinePpm c with
    | None => rejectSubmission "awaiting_baseline_recompute"
    | Some baselinePpm =>
      match getV4CurrentEpoch chain with
      | Throws _ => _ ← modify (on_health (set_signing false (Some EpochCheckFailed))); rejectSubmission "CoordUnhealthy"
      | Returns e =>
        if negb (e =? cf_epoch cfg) then rejectSubmission "CoordEpochMismatch"
        else gate_and_sign cfg chain signer p a advance delta baselinePpm
      end
    end
  end.

Definition finishSubmitAfterEvaluation (cfg : CoreTexCoordinatorConfig) (chain : ChainClient) (signer : option CoreTexReceiptSigner) (p : PreparedSubmit) (evalResult : EvalResult)
  : core_op SubmitResponse :=
  match validateAcceptedEvalResult evalResult with
  | Some code => rejectSubmission code
  | None =>
    let go a advance :=
      if negb (validateDualPackProof a (expectation cfg p (screenerThresholdPpm p))) then rejectSubmission "DUAL_PACK_PROOF_INVALID"
      else recheck_and_sign cfg chain signer p a advance (default 0 (deterministicDeltaPpm a)) in
    match evalResult with
    | EvalReject code => rejectSubmission code
    | ScreenerPass a => go a None
    | StateAdvance_ a before after rewritten => go a (Some (default 0 before, default 0 after, rewritten))
    end
  end.

(** ** The whole of a submission, without anything in between *)
Definition evaluation_failed : core_op SubmitResponse :=
  _ ← modify (on_metrics add_evalFailure); rejectSubmission "EvalFailure".

Definition processSubmit (cfg : CoreTexCoordinatorConfig) (chain1 chain2 : ChainClient) (signer : option CoreTexReceiptSigner)
  (evaluator : PreparedSubmit -> outcome EvalResult) (nowMs : Z) (body : jsval) : core_op SubmitResponse :=
  prepared ← prepareSubmitEvaluation cfg chain1 signer nowMs body;
  match prepared with
  | inl response => mret response
  | inr p =>
    match evaluator p with
    | Throws _ => evaluation_failed
    | Returns r => finishSubmitAfterEvaluation cfg chain2 signer p r
    end
  end.
End WithHasher.

(** ** The orchestrator's operations *)
Definition freeze (reason : string) : core_op unit :=
  modify (on_freezing (fun f => mkFreeze true (Some reason) (freezeGeneration f + 1))).
Definition unfreeze : core_op unit := modify (on_freezing (fun f => mkFreeze false None (freezeGeneration f))).

Definition setRecomputedBaseline (stateRoot : string) (baselineParentScorePpm : option Z) (baselineVariancePpm : option (option Z)) : core_op unit :=
  _ ← throw_op (negb (isBytes32 stateRoot)) "coord: setRecomputedBaseline stateRoot must be bytes32";
  match safe_nonneg baselineParentScorePpm with
  | None => run_outcome (Throws (GenericError "coord: setRecomputedBaseline baselineParentScorePpm must be a non-negative integer"))
  | Some score =>
    _ ← modify (on_baselines (fun b => mkBaselines (jsmap_set (toLowerCase stateRoot) score (baselineByRoot b)) (currentBaselineVariancePpm b)));
    match baselineVariancePpm with
    | None => mret tt
    | Some v =>
      match safe_nonneg v with
      | None => run_outcome (Throws (GenericError "coord: setRecomputedBaseline baselineVariancePpm must be non-negative"))
      | Some variance => modify (on_baselines (fun b => mkBaselines (baselineByRoot b) (Some variance)))
      end
    end
  end.

Definition invalidateBaselines : core_op unit := modify (on_baselines (fun _ => mkBaselines [] None)).

Definition registerPending (p : PendingReceipt) (envelope : ReceiptEnvelope) : core_op unit :=
  modify (on_receipts (fun r =>
    let r := set_pendings (jsmap_set (toLowerCase (signedPatchHash p)) p (pendingByPatchHash r)) r in
    let r := cacheReceipt envelope (originalPatchHash p) r in
    set_dedup (jsmap_set (dedup_key (toLowerCase (p_parentRoot p)) (toLowerCase (originalPatchHash p))) (p_expiresAt p) (submitDedup r)) r)).

Definition forceUnhealthy (reason : string) : core_op unit := modify (on_health (set_signing false (Some (Forced reason)))).

(** ** Looking a receipt up *)
Inductive ReceiptAnswer :=
  | ReceiptExpired
  | ReceiptUnknown
  | PendingReceiptStale (patchHash : string)
  | ReceiptFound (env : ReceiptEnvelope) (pendingState : option PendingState).

Definition receipt_status (a : ReceiptAnswer) : Z :=
  match a with ReceiptExpired | ReceiptUnknown => 404 | PendingReceiptStale _ => 409 | ReceiptFound _ _ => 200 end.

Definition getReceiptByHash (cfg : CoreTexCoordinatorConfig) (nowMs : Z) (hash : string) : core_op ReceiptAnswer :=
  let now := nowSec nowMs in
  _ ← modify (gcPending cfg now);
  c ← get_core;
  let normalizedHash := toLowerCase hash in
  match jsmap_get normalizedHash (receiptCache (receipts c)) with
  | None =>
    match jsmap_get normalizedHash (expiredReceiptTombstones (receipts c)) with
    | Some until => mret (if negb (until =? 0) && (now <? until) then ReceiptExpired else ReceiptUnknown)
    | None => mret ReceiptUnknown
    end
  | Some cached =>
    match jsmap_get (toLowerCase (env_patchHash cached)) (pendingByPatchHash (receipts c)) with
    | Some p =>
      match p_state p with
      | stale => mret (PendingReceiptStale (env_patchHash cached))
      | expired => _ ← modify (on_receipts (drop_cached p)); mret ReceiptExpired
      | st => mret (ReceiptFound cached (Some st))
      end
    | None =>
      if env_expiresAt cached <=? now then
        _ ← modify (on_receipts (fun r => markExpiredReceiptHash cfg normalizedHash now (set_cache (jsmap_delete normalizedHash (receiptCache r)) r)));
        mret ReceiptExpired
      else mret (ReceiptFound cached None)
    end
  end.

(** ** The submit queue *)
Record SubmitQueue := mkQueue { submitQueueDepth : Z; pendingSubmitsByMiner : list (string * Z) }.

(** [body?.minerAddress], lower-cased, when it is a string that is not empty. *)
Definition queue_miner (body : jsval) : option string :=
  match body_fields body with
  | Some fields =>
    match jsmap_get "minerAddress"%string fields with
    | Some (JString s) => match s with EmptyString => None | _ => Some (toLowerCase s) end
    | _ => None
    end
  | None => None
  end.

Definition queued (q : SubmitQueue) (miner : string) : Z := default 0 (jsmap_get miner (pendingSubmitsByMiner q)).

(** Intake: a rejection code, or the queue with the submission in it. *)
Definition submit_enter (cfg : CoreTexCoordinatorConfig) (q : SubmitQueue) (body : jsval) : string + SubmitQueue :=
  if default 16 (maxQueuedSubmits cfg) <=? submitQueueDepth q then inl "QueueFull"%string
  else match queue_miner body with
  | Some miner =>
    if default 4 (maxQueuedSubmitsPerMiner cfg) <=? queued q miner then inl "MinerQueueFull"%string
    else inr (mkQueue (submitQueueDepth q + 1) (jsmap_set miner (queued q miner + 1) (pendingSubmitsByMiner q)))
  | None => inr (mkQueue (submitQueueDepth q + 1) (pendingSubmitsByMiner q))
  end.

(** The [finally] block. *)
Definition submit_leave (q : SubmitQueue) (body : jsval) : SubmitQueue :=
  match queue_miner body with
  | Some miner =>
    let left := default 1 (jsmap_get miner (pendingSubmitsByMiner q)) - 1 in
    mkQueue (submitQueueDepth q - 1)
      (if left <=? 0 then jsmap_delete miner (pendingSubmitsByMiner q) else jsmap_set miner left (pendingSubmitsByMiner q))
  | None => mkQueue (submitQueueDepth q - 1) (pendingSubmitsByMiner q)
  end.

(** ** The confirmed state is not touched *)
Section Untouched.
Context {HK : Hasher}.
Context (f0 : Confirmed).
Abbreviation same_conf := (fun c => conf c = f0).

Lemma keeps_same g : conf_fixed g -> keeps same_conf (modify g).
Proof. intros H. apply keeps_modify. intros c <-. apply H. Qed.
#[local] Hint Resolve keeps_same : core.

Lemma rejectSubmission_same code : keeps same_conf (rejectSubmission code).
Proof. unfold rejectSubmission. keeps_walk. Qed.
#[local] Hint Resolve rejectSubmission_same : core.
Lemma reject_same code : keeps same_conf (reject code).
Proof. unfold reject. keeps_walk. Qed.
Lemma checkEpoch_same cfg chain : keeps same_conf (checkEpochStillCurrent cfg chain).
Proof. unfold checkEpochStillCurrent. keeps_walk. Qed.
#[local] Hint Resolve reject_same checkEpoch_same : core.
Lemma epoch_gate_same cfg chain : keeps same_conf (epoch_gate cfg chain).
Proof. unfold epoch_gate. apply keeps_try; [keeps_walk|]. intros e. keeps_walk. Qed.
Lemma prepare_patch_same cfg now threshold parsed : keeps same_conf (prepare_patch cfg now threshold parsed).
Proof. unfold prepare_patch. keeps_walk. Qed.
#[local] Hint Resolve epoch_gate_same prepare_patch_same : core.
Lemma prepare_same cfg chain signer now body : keeps same_conf (prepareSubmitEvaluation cfg chain signer now body).
Proof. unfold prepareSubmitEvaluation. keeps_walk. Qed.
Lemma sign_same cfg signer p r n : keeps same_conf (sign_and_record cfg signer p r n).
Proof. unfold sign_and_record. keeps_walk. Qed.
#[local] Hint Resolve sign_same : core.
Lemma gate_and_sign_same cfg chain signer p a adv d b : keeps same_conf (gate_and_sign cfg chain signer p a adv d b).
Proof. unfold gate_and_sign. keeps_walk. Qed.
#[local] Hint Resolve gate_and_sign_same : core.
Lemma recheck_same cfg chain signer p a adv d : keeps same_conf (recheck_and_sign cfg chain signer p a adv d).
Proof. unfold recheck_and_sign. keeps_walk. Qed.
#[local] Hint Resolve recheck_same : core.
Lemma finish_same cfg chain signer p r : keeps same_conf (finishSubmitAfterEvaluation cfg chain signer p r).
Proof. unfold finishSubmitAfterEvaluation. keeps_walk. Qed.
Lemma evaluation_failed_same : keeps same_conf evaluation_failed.
Proof. unfold evaluation_failed. keeps_walk. Qed.
Lemma getReceipt_same cfg now h : keeps same_conf (getReceiptByHash cfg now h).
Proof. unfold getReceiptByHash. keeps_walk. Qed.
Lemma setBaseline_same r s v : keeps same_conf (setRecomputedBaseline r s v).
Proof. unfold setRecomputedBaseline. keeps_walk. Qed.
End Untouched.


(** ** What a prepared submission is *)
Section Sound.
Context {HK : Hasher}.

Lemma hex_pairs_even l ps : hex_pairs l = Some ps -> Nat.odd (length l) = false.
Proof.
  revert ps. induction l as [l IH] using (induction_ltof1 _ (@length ascii)); unfold ltof in IH. intros ps. destruct l as [|a [|b l]]; [done|done|]. cbn [hex_pairs length].
  destruct (hex_pairs l) as [qs|] eqn:E; [|done]. intros _. exact (IH l ltac:(cbn; lia) qs E).
Qed.

Lemma length_list_ascii s : length (String.list_ascii_of_string s) = String.length s.
Proof. induction s as [|a s IH]; [done|]. cbn. by rewrite IH. Qed.

Lemma hexToBytes_padded_hex bs : bytes_ok bs -> hexToBytes_padded (bytesToHex bs) = bs.
Proof.
  intros Hok. pose proof (hexToBytes_bytesToHex bs Hok) as H. unfold hexToBytes in H. unfold hexToBytes_padded. destruct (hex_pairs _) as [ps|] eqn:E; [|done].
  pose proof (hex_pairs_even _ _ E) as Hodd. rewrite length_list_ascii in Hodd. rewrite Hodd, E. by apply Returns_inj in H.
Qed.

Lemma toLower_patchHash bs : toLowerCase (computePatchHash bs) = computePatchHash bs.
Proof. apply toLowerCase_hex. Qed.

Lemma wire_ok_rescore p d : wire_ok p -> 0 <= d <= MAX_WIRE_SCORE_DELTA -> wire_ok (with_scoreDelta p d).
Proof. intros (H1 & H2 & H3 & H4 & _ & H6) Hd. unfold wire_ok, with_scoreDelta. cbn. tauto. Qed.

Record prepared_ok (s : CortexState) (p : PreparedSubmit) : Prop := {
  po_snapshot : parentStateSnapshot p = s;
  po_wire : wire_ok (pr_decoded p);
  po_bytes : patchBytes (pr_parsed p) = patch_wire (pr_decoded p);
  po_parent : ps_parentStateRoot (pr_parsed p) = root_hex s;
  po_root : rootAtEvaluation p = root_hex s;
  po_applies : exists s', applyPatch s (pr_decoded p) true = Returns (PatchSuccess s');
  po_canonical : canonicalHex p = bytesToHex (patch_wire (with_scoreDelta (pr_decoded p) 0));
  po_hash : pr_originalPatchHash p = computePatchHash (patch_wire (with_scoreDelta (pr_decoded p) 0));
  po_key : dedupKey p = dedup_key (root_hex s) (pr_originalPatchHash p)
}.

Lemma reject_not_prepared code c c1 p : reject code c = (c1, Returns (inr p)) -> False.
Proof. unfold reject, rejectSubmission, mbind, core_bind, modify, mret, core_ret. by intros [=]. Qed.

Lemma prepared_is (p q : PreparedSubmit) c c1 : mret (M:=core_op) (inr p : SubmitResponse + PreparedSubmit) c = (c1, Returns (inr q)) -> c1 = c /\ q = p.
Proof. by intros [= <- <-]. Qed.

Lemma normalizeHexBytes_ok v hex bs : normalizeHexBytes v = Some (hex, bs) -> bytes_ok bs.
Proof. unfold normalizeHexBytes. destruct v; try done. destruct (negb _); [done|]. destruct (Nat.odd _); [done|]. intros [= <- <-]. apply hexToBytes_padded_ok. Qed.

Lemma parseSubmitBody_ok body m parsed : parseSubmitBody body m = inr parsed -> bytes_ok (patchBytes parsed) /\ Z.of_nat (length (patchBytes parsed)) <= m.
Proof.
  unfold parseSubmitBody. destruct (body_fields body) as [r|]; [|done]. cbv zeta. destruct (existsb _ _); [done|]. destruct (normalizeHexBytes _) as [[hex bs]|] eqn:E; [|done].
  destruct (_ =? _)%nat; [done|]. destruct (Z.ltb_spec m (Z.of_nat (length bs))) as [|Hm]; [done|]. destruct (default JUndefined (jsmap_get "parentStateRoot"%string r)); try done.
  destruct (default JUndefined (jsmap_get "minerAddress"%string r)); try done.
  destruct (negb _); [done|]. destruct (negb _); [done|]. intros [= <-]. cbn [patchBytes]. split; [by eapply normalizeHexBytes_ok|done].
Qed.

Lemma prepare_patch_ok cfg now threshold parsed c c1 p : chain_inv (conf c) -> bytes_ok (patchBytes parsed) ->
  prepare_patch cfg now threshold parsed c = (c1, Returns (inr p)) ->
  c1 = c /\ prepared_ok (liveState (conf c)) p /\ screenerThresholdPpm p = threshold /\ pr_parsed p = parsed /\ pr_now p = now
  /\ pr_freezeGeneration p = freezeGeneration (freezing c) /\ jsmap_get (dedupKey p) (submitDedup (receipts c)) = None.
Proof.
  intros Hc Hb. destruct (known_live _ Hc) as [Hok Hroot _]. unfold prepare_patch. rewrite step_get.
  destruct (String.eqb_spec (ps_parentStateRoot parsed) (toLowerCase (liveRoot (conf c)))) as [Hp|]; cbn [negb]; [|by intros ?%reject_not_prepared].
  destruct (decodePatch _) as [decoded|e] eqn:Hd; [|by intros ?%reject_not_prepared]. destruct (decodePatch_inv _ _ Hb Hd) as [Hw Hbytes].
  destruct (String.eqb_spec (toLowerCase (bytesToHex (parentStateRoot decoded))) (ps_parentStateRoot parsed)); cbn [negb]; [|by intros ?%reject_not_prepared].
  intros H. apply core_bind_Returns in H as (c2 & pre & E & H). apply run_Returns in E as [-> E]. destruct pre as [s'|err]; [|by apply reject_not_prepared in H].
  apply core_bind_Returns in H as (c2 & bs & E2 & H). apply run_Returns in E2 as [-> E2].
  assert (Hw0 : wire_ok (with_scoreDelta decoded 0)) by (apply wire_ok_rescore; [done|split; vm_compute; congruence]). rewrite encodePatch_wire in E2 by done. apply Returns_inj in E2 as <-.
  rewrite Hroot, toLower_root_hex in *. destruct (jsmap_get _ _) as [t|] eqn:Ek; [by apply reject_not_prepared in H|]. apply prepared_is in H as [-> ->].
  split; [done|]. split; [|by repeat split]. constructor; cbn [parentStateSnapshot pr_decoded pr_parsed rootAtEvaluation canonicalHex pr_originalPatchHash dedupKey]; try done.
  - by exists s'.
  - apply toLowerCase_hex.
  - apply toLower_patchHash.
  - by rewrite Hp.
Qed.

(** A submission is prepared only by a coordinator that signs: not frozen, healthy, on the current epoch, with a baseline. *)
Lemma prepare_inv cfg chain signer nowMs body c c1 p : chain_inv (conf c) -> prepareSubmitEvaluation cfg chain signer nowMs body c = (c1, Returns (inr p)) ->
  conf c1 = conf c /\ prepared_ok (liveState (conf c)) p /\ pr_now p = nowSec nowMs /\ pr_freezeGeneration p = freezeGeneration (freezing c1)
  /\ frozen (freezing c) = false /\ signingEnabled (health c1) = true /\ getV4CurrentEpoch chain = Returns (cf_epoch cfg) /\ is_Some signer
  /\ jsmap_get (dedupKey p) (submitDedup (receipts c1)) = None
  /\ exists baseline, effectiveBaselinePpm c1 = Some baseline /\ effectiveScreenerThresholdPpm cfg c1 baseline = Returns (screenerThresholdPpm p).
Proof.
  intros Hc H. assert (Hconf : conf c1 = conf c) by (pose proof (prepare_same (conf c) cfg chain signer nowMs body c eq_refl) as Hx; cbv beta in Hx; by rewrite H in Hx).
  unfold prepareSubmitEvaluation in H. cbv zeta in H. rewrite step_modify, step_get in H. set (c2 := gcPending cfg (nowSec nowMs) c) in *.
  assert (Hc2 : conf c2 = conf c) by apply gcPending_conf.
  destruct (frozen (freezing c2)) eqn:Hf; [by apply reject_not_prepared in H|]. apply core_bind_Returns in H as (c3 & ec & E3 & H).
  destruct ec as [[]|]; [|by apply reject_not_prepared in H..]. rewrite step_get in H.
  assert (Hep : getV4CurrentEpoch chain = Returns (cf_epoch cfg) /\ conf c3 = conf c2).
  { split.
    - unfold epoch_gate, try_catch in E3. destruct ((b ← checkEpochStillCurrent cfg chain; mret (Some b)) c2) as [c4 [ob|e]] eqn:E4; [|done].
      injection E3 as <- ->. apply core_bind_Returns in E4 as (c5 & b & E5 & E4). injection E4 as <- ->.
      unfold checkEpochStillCurrent in E5. apply core_bind_Returns in E5 as (c6 & e & E6 & E5). apply run_Returns in E6 as [-> E6]. destruct (Z.eqb_spec e (cf_epoch cfg)) as [->|]; [done|].
      rewrite step_modify, step_get in E5. case_bool_decide; by injection E5.
    - pose proof (epoch_gate_same (conf c2) cfg chain c2 eq_refl) as Hx. cbv beta in Hx. by rewrite E3 in Hx. }
  destruct Hep as [Hep Hc3]. destruct (signingEnabled (health c3)) eqn:Hs; cbn [negb] in H; [|by apply reject_not_prepared in H].
  destruct signer as [sign|]; [|by apply reject_not_prepared in H]. destruct (effectiveBaselinePpm c3) as [baseline|] eqn:Hb; [|by apply reject_not_prepared in H].
  apply core_bind_Returns in H as (c4 & threshold & Et & H). apply run_Returns in Et as [-> Et]. destruct (parseSubmitBody _ _) as [code|parsed] eqn:Ep; [by apply reject_not_prepared in H|].
  apply prepare_patch_ok in H as (-> & Hp & Ht & _ & Hn & Hg & Hk); [|by rewrite Hc3, Hc2|by eapply parseSubmitBody_ok].
  split; [done|]. split; [by rewrite Hc3, Hc2 in Hp|]. split; [done|]. split; [done|]. split; [by rewrite <- (proj2 (gcPending_health cfg (nowSec nowMs) c))|].
  split; [done|]. split; [done|]. split; [done|]. split; [done|]. exists baseline. by rewrite Ht.
Qed.

(** ** What a signed receipt has passed *)
Lemma rejection_not_signed code c c1 env : rejectSubmission code c = (c1, Returns (Signed env)) -> False.
Proof. unfold rejectSubmission, mbind, core_bind, modify, mret, core_ret. by intros [=]. Qed.

(** The signer signed [r], and the bookkeeping is done. *)
Record signed_by (cfg : CoreTexCoordinatorConfig) (signer : option CoreTexReceiptSigner) (p : PreparedSubmit) (r : CoreTexReceiptPayload) (screeners : Z) (env : ReceiptEnvelope)
  (c c1 : Core) : Prop := {
  sb_hashes : isLowerBytes32 (r_evalReportHash r) = true /\ isLowerBytes32 (r_artifactHash r) = true;
  sb_signed : exists sign sg, signer = Some sign /\ sign (ps_miner (pr_parsed p)) r = Returns sg /\ signed_ok sg = true
    /\ env = envelope_of cfg r sg screeners /\ c1 = on_receipts (record_receipt p r sg env) c
}.

Lemma sign_and_record_inv cfg signer p r n c c1 env : sign_and_record cfg signer p r n c = (c1, Returns (Signed env)) -> signed_by cfg signer p r n env c c1.
Proof.
  unfold sign_and_record. destruct (isLowerBytes32 (r_evalReportHash r)) eqn:E1, (isLowerBytes32 (r_artifactHash r)) eqn:E2; cbn [negb orb]; try by intros ?%rejection_not_signed.
  destruct signer as [sign|]; [|by intros ?%rejection_not_signed]. destruct (sign _ r) as [sg|e] eqn:Es.
  - destruct (signed_ok sg) eqn:Eo; cbn [negb]; [|by intros ?%rejection_not_signed]. rewrite step_modify. intros [= <- <-]. constructor; [done|]. by exists sign, sg.
  - rewrite step_modify. by intros ?%rejection_not_signed.
Qed.

(** What an evaluation says, once validated: the advance of a state advance, and the delta. *)
Definition accepted_as (e : EvalResult) (a : Accepted) (advance : option (Z * Z * string)) : Prop :=
  match e, advance with
  | ScreenerPass a', None => a = a'
  | StateAdvance_ a' before after rewritten, Some (b, e, w) => a = a' /\ before = Some b /\ after = Some e /\ rewritten = w
  | _, _ => False
  end.

Lemma safe_nonneg_Some x n : safe_nonneg x = Some n -> x = Some n /\ 0 <= n /\ isSafeInteger n = true.
Proof. unfold safe_nonneg. destruct x as [m|]; [|done]. destruct (isSafeInteger m) eqn:E; cbn [andb]; [|done]. destruct (Z.leb_spec 0 m); [|done]. by intros [= <-]. Qed.

(** The context at the moment of signing. *)
Record live_context (cfg : CoreTexCoordinatorConfig) (chain : ChainClient) (p : PreparedSubmit) (c : Core) (baseline threshold : Z) : Prop := {
  lc_running : frozen (freezing c) = false;
  lc_generation : freezeGeneration (freezing c) = pr_freezeGeneration p;
  lc_root : toLowerCase (liveRoot (conf c)) = rootAtEvaluation p;
  lc_epoch : getV4CurrentEpoch chain = Returns (cf_epoch cfg);
  lc_fresh : jsmap_get (dedupKey p) (submitDedup (receipts c)) = None;
  lc_baseline : effectiveBaselinePpm c = Some baseline;
  lc_threshold : effectiveScreenerThresholdPpm cfg c baseline = Returns threshold
}.

(** The evaluation passed its gates. *)
Record gates_passed (cfg : CoreTexCoordinatorConfig) (p : PreparedSubmit) (c : Core) (e : EvalResult) (a : Accepted) (advance : option (Z * Z * string)) (threshold delta : Z) : Prop := {
  gp_accepted : accepted_as e a advance;
  gp_valid : validateAcceptedEvalResult e = None;
  gp_proof : validateDualPackProof a (expectation cfg p (screenerThresholdPpm p)) = true;
  gp_delta : deterministicDeltaPpm a = Some delta /\ threshold <= delta;
  gp_advance : match advance with
    | None => True
    | Some (before, after, _) => delta = after - before /\ 0 < delta /\ effectiveStateAdvanceThresholdPpm cfg c <= delta
        /\ validateDualPackProof a (expectation cfg p (Z.max (effectiveStateAdvanceThresholdPpm cfg c) threshold)) = true
    end
}.

(** The patch of the receipt. *)
Definition patch_signed (cfg : CoreTexCoordinatorConfig) (c : Core) (p : PreparedSubmit) (a : Accepted) (advance : option (Z * Z * string)) (threshold : Z) (sp : SignedPatch) : Prop :=
  match advance with
  | None => sp = mkSignedPatch (canonicalHex p) (pr_originalPatchHash p) (ps_parentStateRoot (pr_parsed p)) 0 0 0
  | Some (before, after, rewritten) => rewrite_advance cfg c p a before after rewritten threshold = Returns (inr sp)
  end.

Definition outcome_of (advance : option (Z * Z * string)) : Z := match advance with Some _ => OUTCOME_CORETEX_STATE_ADVANCE | None => OUTCOME_CORETEX_SCREENER_PASS end.

(** The receipt of a submission. *)
Record receipt_for (cfg : CoreTexCoordinatorConfig) (chain : ChainClient) (p : PreparedSubmit) (c : Core) (a : Accepted) (advance : option (Z * Z * string)) (sp : SignedPatch)
  (screeners : Z) (r : CoreTexReceiptPayload) : Prop := {
  rf_counters : exists counters index prev inFlight, getMinerCoreTexCounters chain (cf_epoch cfg) (ps_miner (pr_parsed p)) = Returns counters
    /\ chain_position counters (jsmap_get (ps_miner (pr_parsed p)) (minerChainReservations (receipts c))) = Some ((index, prev), inFlight)
    /\ screeners = screenersThisEpoch counters + inFlight /\ (advance = None -> screeners < default 50 (perMinerScreenerCap cfg))
    /\ exists count units hash, getQualifiedScreenerPassesSinceLastStateAdvance chain (cf_epoch cfg) = Returns count
         /\ computeCoreTexWorkUnitsBps (outcome_of advance) (Some (NNum count)) (workPolicy cfg) = Returns units /\ workPolicyHash cfg = Some hash
         /\ r = payload cfg p a (outcome_of advance) index prev sp hash units count
}.

Lemma rewrite_advance_gates cfg c p a before after rewritten threshold sp : rewrite_advance cfg c p a before after rewritten threshold = Returns (inr sp) ->
  Z.max (effectiveStateAdvanceThresholdPpm cfg c) threshold <= after - before
  /\ validateDualPackProof a (expectation cfg p (Z.max (effectiveStateAdvanceThresholdPpm cfg c) threshold)) = true.
Proof.
  unfold rewrite_advance. destruct (Z.ltb_spec (after - before) (Z.max (effectiveStateAdvanceThresholdPpm cfg c) threshold)); [done|]. destruct (validateDualPackProof _ _); done.
Qed.

Lemma gate_and_sign_inv cfg chain signer p a advance delta baseline c c1 env : gate_and_sign cfg chain signer p a advance delta baseline c = (c1, Returns (Signed env)) ->
  exists threshold sp screeners r c2, effectiveScreenerThresholdPpm cfg c baseline = Returns threshold /\ threshold <= delta /\ patch_signed cfg c p a advance threshold sp
  /\ receipt_for cfg chain p c a advance sp screeners r /\ signed_by cfg signer p r screeners env c2 c1
  /\ exists counters, c2 = on_receipts (drop_landed (ps_miner (pr_parsed p)) counters) c.
Proof.
  unfold gate_and_sign. fold (outcome_of advance). intros H. apply core_bind_Returns in H as (c2 & counters & E & H). apply run_Returns in E as [-> Ec]. rewrite step_get, step_modify in H.
  destruct (chain_position _ _) as [[[index prev] inFlight]|] eqn:Epos; [|by apply rejection_not_signed in H].
  destruct (_ && _) eqn:Ecap; [by apply rejection_not_signed in H|]. apply core_bind_Returns in H as (c3 & threshold & E & H). apply run_Returns in E as [-> Et].
  destruct (Z.ltb_spec delta threshold) as [|Hd]; [by apply rejection_not_signed in H|]. apply core_bind_Returns in H as (c4 & rw & E & H).
  assert (Hrw : c4 = on_receipts (drop_landed (ps_miner (pr_parsed p)) counters) c /\ match rw with inl _ => True | inr sp => patch_signed cfg c p a advance threshold sp end).
  { destruct advance as [[[before after] rewritten]|]; [apply run_Returns in E as [-> E]; split; [done|]; by destruct rw|]. unfold mret, core_ret in E.
    destruct rw; [by injection E|]. split; [by injection E|]. unfold patch_signed. injection E as _ E. done. }
  destruct Hrw as [-> Hsp]. destruct rw as [code|sp]; [by apply rejection_not_signed in H|].
  apply core_bind_Returns in H as (c5 & count & E1 & H). apply run_Returns in E1 as [-> E1]. apply core_bind_Returns in H as (c6 & units & E2 & H). apply run_Returns in E2 as [-> E2].
  destruct (workPolicyHash cfg) as [hash|] eqn:Eh; [|done]. apply sign_and_record_inv in H. exists threshold, sp, (screenersThisEpoch counters + inFlight). eexists _, _.
  split; [done|]. split; [done|]. split; [done|]. split; [|split; [exact H|by exists counters]]. constructor. exists counters, index, prev, inFlight. split; [done|]. split; [done|].
  split; [done|]. split; [|by exists count, units, hash]. intros ->. cbn [outcome_of] in Ecap. change (1 =? 1) with true in Ecap. cbn [andb] in Ecap. by apply Z.leb_gt.
Qed.

Lemma recheck_inv cfg chain signer p a advance delta c c1 env : recheck_and_sign cfg chain signer p a advance delta c = (c1, Returns (Signed env)) ->
  exists baseline threshold sp screeners r c2, live_context cfg chain p c baseline threshold /\ threshold <= delta /\ patch_signed cfg c p a advance threshold sp
  /\ receipt_for cfg chain p c a advance sp screeners r /\ signed_by cfg signer p r screeners env c2 c1
  /\ exists counters, c2 = on_receipts (drop_landed (ps_miner (pr_parsed p)) counters) c.
Proof.
  unfold recheck_and_sign. rewrite step_get. destruct (jsmap_get _ _) eqn:Ek; [by intros ?%rejection_not_signed|]. destruct (frozen (freezing c)) eqn:Ef; cbn [orb]; [by intros ?%rejection_not_signed|].
  destruct (Z.eqb_spec (freezeGeneration (freezing c)) (pr_freezeGeneration p)) as [Eg|]; cbn [negb]; [|by intros ?%rejection_not_signed].
  destruct (String.eqb_spec (toLowerCase (liveRoot (conf c))) (rootAtEvaluation p)) as [Er|]; cbn [negb]; [|by intros ?%rejection_not_signed].
  destruct (effectiveBaselinePpm c) as [baseline|] eqn:Eb; [|by intros ?%rejection_not_signed]. destruct (getV4CurrentEpoch chain) as [e|e] eqn:Ee.
  - destruct (Z.eqb_spec e (cf_epoch cfg)) as [->|]; cbn [negb]; [|by intros ?%rejection_not_signed]. intros H.
    apply gate_and_sign_inv in H as (threshold & sp & n & r & c2 & Ht & Hrest). exists baseline, threshold, sp, n, r, c2. split; [by constructor|exact Hrest].
  - rewrite step_modify. by intros ?%rejection_not_signed.
Qed.

Lemma finish_inv cfg chain signer p e c c1 env : finishSubmitAfterEvaluation cfg chain signer p e c = (c1, Returns (Signed env)) ->
  exists a advance delta baseline threshold sp screeners r c2, live_context cfg chain p c baseline threshold /\ gates_passed cfg p c e a advance threshold delta
  /\ patch_signed cfg c p a advance threshold sp /\ receipt_for cfg chain p c a advance sp screeners r /\ signed_by cfg signer p r screeners env c2 c1
  /\ exists counters, c2 = on_receipts (drop_landed (ps_miner (pr_parsed p)) counters) c.
Proof.
  unfold finishSubmitAfterEvaluation. destruct (validateAcceptedEvalResult e) as [code|] eqn:Ev; [by intros ?%rejection_not_signed|].
  assert (Hdelta : forall a, validateAccepted a = None -> exists d, deterministicDeltaPpm a = Some d /\ 0 <= d).
  { intros a. unfold validateAccepted. destruct (safe_nonneg _) as [d|] eqn:Ed; [|done]. apply safe_nonneg_Some in Ed as (-> & ? & _). intros _. by exists d. }
  destruct e as [code|a|a before after rewritten]; [by intros ?%rejection_not_signed| |]; cbv zeta.
  - destruct (validateDualPackProof _ _) eqn:Ep; cbn [negb]; [|by intros ?%rejection_not_signed]. intros H. destruct (Hdelta a Ev) as (d & Ed & _). rewrite Ed in H. cbn [default] in H.
    apply recheck_inv in H as (baseline & threshold & sp & n & r & c2 & Hl & Hd & Hs & Hr & Hsig). exists a, None, d, baseline, threshold, sp, n, r, c2.
    split; [done|]. split; [|by split]. by constructor.
  - destruct (validateDualPackProof a (expectation cfg p (screenerThresholdPpm p))) eqn:Ep; cbn [negb]; [|by intros ?%rejection_not_signed]. intros H. pose proof Ev as Ev'. cbn [validateAcceptedEvalResult] in Ev'.
    destruct (validateAccepted a) as [?|] eqn:Ea; [done|]. destruct (Hdelta a Ea) as (d & Ed & _). destruct (safe_nonneg before) as [b|] eqn:Eb; [|done]. destruct (safe_nonneg after) as [f|] eqn:Ef; [|done].
    apply safe_nonneg_Some in Eb as (-> & _ & _). apply safe_nonneg_Some in Ef as (-> & _ & _). destruct (Z.leb_spec (f - b) 0); [done|].
    destruct (bool_decide_reflect (deterministicDeltaPpm a = Some (f - b))) as [Ed'|]; cbn [negb] in Ev'; [|done]. rewrite Ed in Ed'. injection Ed' as ->. rewrite Ed in H. cbn [default] in H.
    apply recheck_inv in H as (baseline & threshold & sp & n & r & c2 & Hl & Hd & Hs & Hr & Hsig). exists a, (Some (b, f, rewritten)), (f - b), baseline, threshold, sp, n, r, c2.
    split; [done|]. split; [|by split]. destruct (rewrite_advance_gates _ _ _ _ _ _ _ _ _ Hs) as [H1 H2]. constructor; [by repeat split|done|done|by split|]. split; [done|]. split; [lia|]. split; [exact (Z.le_trans _ _ _ (Z.le_max_l _ _) H1)|exact H2].
Qed.

(** The patch of a receipt: the submitted one with its score rewritten; it applies to the evaluated state. *)
Record wires (s : CortexState) (p : PreparedSubmit) (advance : option (Z * Z * string)) (sp : SignedPatch) (q : Patch) : Prop := {
  wi_patch : q = with_scoreDelta (pr_decoded p) (match advance with Some (before, after, _) => after - before | None => 0 end);
  wi_wire : wire_ok q;
  wi_bytes : sp_bytes sp = bytesToHex (patch_wire q);
  wi_hash : sp_hash sp = computePatchHash (patch_wire q);
  wi_state : exists s', applyPatch s q true = Returns (PatchSuccess s') /\ state_ok s'
    /\ match advance with
       | Some (before, after, _) => sp_newRoot sp = root_hex s' /\ sp_wordCount sp = wordCount q /\ sp_before sp = before /\ sp_after sp = after
       | None => sp_newRoot sp = root_hex s
       end
}.

(** The score is no part of what a patch does. *)
Lemma applyPatch_rescore s p d : applyPatch s (with_scoreDelta p d) true = applyPatch s p true.
Proof.
  assert (E : forall ks ws, write_loop (with_scoreDelta p d) ks ws = write_loop p ks ws) by (induction ks as [|k ks IH]; intros ws; [done|]; cbn [write_loop]; change (indices (with_scoreDelta p d)) with (indices p); change (newWords (with_scoreDelta p d)) with (newWords p); destruct (js_get _ _); [|done]; repeat (case_match; [done|]); done).
  unfold applyPatch, apply_words. rewrite E. reflexivity.
Qed.

Lemma patch_signed_wires cfg c p a advance threshold sp s : state_ok s -> prepared_ok s p -> patch_signed cfg c p a advance threshold sp -> exists q, wires s p advance sp q.
Proof.
  intros Hs Hp. destruct advance as [[[before after] rewritten]|]; cbn [patch_signed].
  - unfold rewrite_advance. destruct (_ <? _); [done|]. destruct (negb _); [done|]. destruct (normalizeHexBytes _) as [[hex bs]|]; [|done]. destruct (_ <? _); [done|].
    destruct (decodePatch bs) as [rw|]; [|done]. destruct (negb _); [done|]. intros H. apply bind_Returns in H as (enc & He & H).
    pose proof (po_wire _ _ Hp) as (W1 & W2 & W3 & W4 & _ & W6). pose proof (encodePatch_inv _ _ He) as (_ & _ & _ & _ & Hd & _).
    set (q := with_scoreDelta (pr_decoded p) (after - before)) in *. assert (Hw : wire_ok q) by (apply wire_ok_rescore; [apply Hp|exact Hd]).
    rewrite encodePatch_wire in He by done. apply Returns_inj in He as <-. rewrite toLowerCase_hex, hexToBytes_padded_hex in H by (by apply patch_wire_bytes_ok).
    rewrite decodePatch_wire in H by done. apply bind_Returns in H as (q' & Eq & H). apply Returns_inj in Eq as <-. rewrite (po_snapshot _ _ Hp) in H.
    apply bind_Returns in H as (res & Ha & H). destruct res as [s'|err]; [|done]. pose proof (applyPatch_state_ok _ _ _ _ Hs Hw Ha) as Hs'.
    apply bind_Returns in H as (rt & Hm & H). rewrite merkleizeState_returns in Hm by apply Hs'. apply Returns_inj in Hm as <-. exists q. apply Returns_inj, (inj inr) in H as <-.
    constructor; cbn [sp_bytes sp_hash sp_newRoot sp_wordCount sp_before sp_after]; [done|done|done|apply toLower_patchHash|]. exists s'. split; [done|]. split; [done|].
    split; [apply toLower_root_hex|done].
  - intros ->. exists (with_scoreDelta (pr_decoded p) 0). assert (Hw : wire_ok (with_scoreDelta (pr_decoded p) 0)) by (apply wire_ok_rescore; [apply Hp|split; vm_compute; congruence]).
    destruct (po_applies _ _ Hp) as [s' Ha]. constructor; cbn [sp_bytes sp_hash sp_newRoot]; [done|done|apply Hp|apply Hp|]. exists s'. rewrite applyPatch_rescore. split; [done|].
    split; [by eapply applyPatch_state_ok; [| apply Hp|]|apply Hp].
Qed.

(** ** Pending receipts *)
(** A pending receipt is filed under its signed hash, in lower case. *)
Definition filed (e : string * PendingReceipt) : Prop := e.1 = toLowerCase (signedPatchHash e.2).
Definition pendings_ok (c : Core) : Prop := NoDup (pendingByPatchHash (receipts c)).*1 /\ Forall filed (pendingByPatchHash (receipts c)).

Lemma fold_keeps {E} (P : Core -> Prop) (Q : E -> Prop) f l : (forall c e, Q e -> P c -> P (f c e)) -> Forall Q l -> forall c, P c -> P (fold_left f l c).
Proof. intros H Hl. induction Hl as [|e l He Hl IH]; intros c Hc; [done|]. cbn [fold_left]. apply IH. by apply H. Qed.

(** Replacing, dropping and leaving entries. *)
Lemma pendings_same c c' : pendingByPatchHash (receipts c') = pendingByPatchHash (receipts c) -> pendings_ok c -> pendings_ok c'.
Proof. unfold pendings_ok. by intros ->. Qed.

Lemma pendings_set c c' k p : pendingByPatchHash (receipts c') = jsmap_set k p (pendingByPatchHash (receipts c)) -> filed (k, p) -> pendings_ok c -> pendings_ok c'.
Proof. unfold pendings_ok. intros -> Hp [H1 H2]. split; [by apply jsmap_set_NoDup|by apply jsmap_set_Forall]. Qed.

Lemma jsmap_delete_sublist {V} k (m : list (string * V)) : jsmap_delete k m `sublist_of` m.
Proof. unfold jsmap_delete. apply sublist_filter. Qed.

Lemma pendings_delete c c' k : pendingByPatchHash (receipts c') = jsmap_delete k (pendingByPatchHash (receipts c)) -> pendings_ok c -> pendings_ok c'.
Proof.
  unfold pendings_ok. intros -> [H1 H2]. pose proof (jsmap_delete_sublist k (pendingByPatchHash (receipts c))) as Hs. split.
  - eapply sublist_NoDup; [exact H1|]. by apply (sublist_map fst).
  - apply Forall_forall. intros e He. rewrite Forall_forall in H2. apply H2. by eapply elem_of_sublist.
Qed.

#[local] Hint Resolve keeps_ret keeps_get keeps_run keeps_throw : core.

Lemma keeps_pendings f : (forall c, pendingByPatchHash (receipts (f c)) = pendingByPatchHash (receipts c)) -> keeps pendings_ok (modify f).
Proof. intros H. apply keeps_modify. intros c. by apply pendings_same. Qed.
#[local] Hint Resolve keeps_pendings : core.

Lemma set_state_filed st e : filed e -> filed (e.1, set_state st e.2).
Proof. done. Qed.

Lemma gcPending_pendings cfg now c : pendings_ok c -> pendings_ok (gcPending cfg now c).
Proof.
  intros Hc. unfold gcPending. match goal with |- pendings_ok (on_receipts _ (on_receipts _ (on_receipts _ ?c1))) => apply (pendings_same c1); [done|] end.
  set (c1 := fold_left (gc_pending_one cfg now) _ c). assert (H1 : pendings_ok c1).
  { apply (fold_keeps pendings_ok filed); [|apply Hc|done]. intros c2 e He H2. unfold gc_pending_one. destruct (_ && _); [|done].
    eapply pendings_delete; [reflexivity|]. eapply pendings_set; [reflexivity|by apply (set_state_filed expired)|done]. }
  apply (fold_keeps pendings_ok (fun _ => True)); [|by apply Forall_true|done]. intros c2 e _ H2. apply (pendings_same c2); [|done]. unfold gc_cache_one. by repeat case_match.
Qed.

Lemma audit_pendings c : pendings_ok c -> pendings_ok (auditReceiptCacheAgainstCanonicalRoots c).
Proof.
  intros Hc. apply (fold_keeps pendings_ok filed); [|apply Hc|done]. intros c2 e He H2. unfold audit_one. case_bool_decide; [|done]. destruct (jsmap_get _ _); [done|].
  eapply pendings_set; [reflexivity|by apply (set_state_filed stale)|done].
Qed.

Lemma map_fst_keep {V W} (g : string * V -> W) (l : list (string * V)) : (map (fun e => (e.1, g e)) l).*1 = l.*1.
Proof. induction l as [|e l IH]; [done|]. csimpl. by rewrite IH. Qed.

Lemma reconcile_pendings c : pendings_ok c -> pendings_ok (reconcilePendingFromCanonicalSnapshots c).
Proof.
  intros [H1 H2]. unfold pendings_ok, reconcilePendingFromCanonicalSnapshots. cbn [receipts on_receipts set_pendings pendingByPatchHash]. split.
  - rewrite map_fst_keep. exact H1.
  - apply Forall_map. eapply Forall_impl; [exact H2|]. intros e. apply set_state_filed.
Qed.

Lemma commit_pendings ev s r c : pendings_ok c -> pendings_ok (commit_event ev s r c).
Proof.
  intros Hc. unfold commit_event. set (c1 := on_conf _ c). assert (H1 : pendings_ok c1) by done. apply (fold_keeps pendings_ok filed); [|apply H1|done].
  intros c2 e He H2. unfold book_one. set (c3 := on_receipts _ c2). assert (H3 : pendings_ok c3) by (eapply pendings_set; [reflexivity|by apply (set_state_filed (book_state ev e.2))|done]).
  apply (pendings_same c3); [|done]. by repeat case_match.
Qed.

#[local] Hint Extern 1 (keeps pendings_ok (modify _)) =>
  apply keeps_modify; intros ? ?; first [by apply gcPending_pendings|by apply audit_pendings|by apply reconcile_pendings|by apply commit_pendings] : core.

Lemma handleReorg_pendings hashAt : keeps pendings_ok (handleReorg hashAt).
Proof. unfold handleReorg. keeps_walk. Qed.
Lemma applyChainEvents_pendings cfg evs : keeps pendings_ok (applyChainEvents cfg evs).
Proof. induction evs as [|ev evs IH]; [apply keeps_ret|]. cbn [applyChainEvents]. apply keeps_bind; [|done]. unfold applyChainEvent. keeps_walk. Qed.
Lemma checkEpoch_pendings cfg chain : keeps pendings_ok (checkEpochStillCurrent cfg chain).
Proof. unfold checkEpochStillCurrent. keeps_walk. Qed.
#[local] Hint Resolve handleReorg_pendings applyChainEvents_pendings checkEpoch_pendings : core.

Lemma tick_pendings error_code cfg chain t : keeps pendings_ok (tickInner error_code cfg chain t).
Proof.
  assert (Hd : keeps pendings_ok (detect_reorg chain)) by (unfold detect_reorg; keeps_walk).
  assert (Hs : forall b, keeps pendings_ok (scan_new cfg chain b)) by (intros b; unfold scan_new; keeps_walk).
  assert (Hp : keeps pendings_ok (parityCheck cfg chain)) by (unfold parityCheck; keeps_walk).
  unfold tickInner. apply keeps_bind; [apply keeps_get|]. intros c0. destruct (frozen _); [apply keeps_ret|]. apply keeps_try.
  - unfold tick_body. keeps_walk.
  - intros e. unfold tick_catch, withinTransientChainGrace. keeps_walk.
Qed.

Lemma rejectSubmission_pendings code : keeps pendings_ok (rejectSubmission code).
Proof. unfold rejectSubmission. keeps_walk. Qed.
#[local] Hint Resolve rejectSubmission_pendings : core.

Lemma prepare_pendings cfg chain signer now body : keeps pendings_ok (prepareSubmitEvaluation cfg chain signer now body).
Proof.
  assert (Hr : forall code, keeps pendings_ok (reject code)) by (intros code; unfold reject; keeps_walk).
  assert (He : keeps pendings_ok (epoch_gate cfg chain)) by (unfold epoch_gate; apply keeps_try; [keeps_walk|intros e; keeps_walk]).
  unfold prepareSubmitEvaluation, prepare_patch. keeps_walk.
Qed.

Lemma cacheReceipt_pendings env h r : pendingByPatchHash (cacheReceipt env h r) = pendingByPatchHash r.
Proof. unfold cacheReceipt. by case_match. Qed.

Lemma sign_pendings cfg signer p r n : (r_outcome r = OUTCOME_CORETEX_STATE_ADVANCE -> toLowerCase (r_patchHash r) = r_patchHash r) -> keeps pendings_ok (sign_and_record cfg signer p r n).
Proof.
  intros Hlow. unfold sign_and_record. keeps_walk. apply keeps_modify. intros c Hc. destruct (Z.eqb_spec (r_outcome r) OUTCOME_CORETEX_STATE_ADVANCE) as [E|E].
  - eapply pendings_set; [cbn [receipts on_receipts]; unfold record_receipt; rewrite cacheReceipt_pendings, (proj2 (Z.eqb_eq _ _) E); reflexivity| |exact Hc]. unfold filed. cbn. symmetry. by apply Hlow.
  - apply (pendings_same c); [|done]. cbn [receipts on_receipts]. unfold record_receipt. by rewrite cacheReceipt_pendings, (proj2 (Z.eqb_neq _ _) E).
Qed.

Lemma drop_landed_pendings m k r : pendingByPatchHash (drop_landed m k r) = pendingByPatchHash r.
Proof. unfold drop_landed. by repeat case_match. Qed.

Lemma keeps_bind_val {A B} P (m : core_op A) (f : A -> core_op B) : keeps P m -> (forall a, (exists c c', m c = (c', Returns a)) -> keeps P (f a)) -> keeps P (m ≫= f).
Proof.
  intros Hm Hf c Hc. unfold mbind, core_bind. specialize (Hm c Hc). destruct (m c) as [c' [a|e]] eqn:E; cbn in *; [|done]. apply Hf; [by exists c, c'|done].
Qed.

Lemma rewrite_advance_lower cfg c p a before after w t sp : rewrite_advance cfg c p a before after w t = Returns (inr sp) -> toLowerCase (sp_hash sp) = sp_hash sp.
Proof.
  unfold rewrite_advance. destruct (_ <? _); [done|]. destruct (negb _); [done|]. destruct (normalizeHexBytes _) as [[hex bs]|]; [|done]. destruct (_ <? _); [done|].
  destruct (decodePatch bs) as [rw|]; [|done]. destruct (negb _); [done|]. intros H. apply bind_Returns in H as (enc & _ & H). apply bind_Returns in H as (q' & _ & H).
  apply bind_Returns in H as (res & _ & H). destruct res as [s'|err]; [|done]. apply bind_Returns in H as (rt & _ & H). apply Returns_inj, (inj inr) in H as <-. apply toLowerCase_idem.
Qed.

Lemma finish_pendings cfg chain signer p e : keeps pendings_ok (finishSubmitAfterEvaluation cfg chain signer p e).
Proof.
  assert (Hg : forall a advance d b, keeps pendings_ok (gate_and_sign cfg chain signer p a advance d b)).
  { intros a advance d b. unfold gate_and_sign. apply keeps_bind; [apply keeps_run|]. intros counters. apply keeps_bind; [apply keeps_get|]. intros c0.
    apply keeps_bind; [apply keeps_pendings; intros c; apply drop_landed_pendings|]. intros _. destruct (chain_position _ _) as [[[index prev] inFlight]|]; [|auto with core].
    destruct (_ && _); [auto with core|]. apply keeps_bind; [apply keeps_run|]. intros t. destruct (d <? t); [auto with core|].
    apply keeps_bind_val; [destruct advance as [[[b1 b2] w]|]; [apply keeps_run|apply keeps_ret]|]. intros [code|sp] Hrw; [auto with core|]. keeps_walk. apply sign_pendings. cbn [r_patchHash payload r_outcome].
    destruct advance as [[[b1 b2] w]|]; [|done]. intros _. destruct Hrw as (c1 & c2 & [_ Hrw]%run_Returns). by eapply rewrite_advance_lower. }
  unfold finishSubmitAfterEvaluation, recheck_and_sign. keeps_walk.
Qed.

Lemma getReceipt_pendings cfg now h : keeps pendings_ok (getReceiptByHash cfg now h).
Proof. unfold getReceiptByHash. keeps_walk. Qed.

(** ** A signed advance lands *)
Lemma book_one_other ev nr k c e : e.1 <> k -> jsmap_get k (pendingByPatchHash (receipts (book_one ev nr c e))) = jsmap_get k (pendingByPatchHash (receipts c)).
Proof.
  intros Hk. transitivity (jsmap_get k (jsmap_set e.1 (set_state (book_state ev e.2) e.2) (pendingByPatchHash (receipts c)))).
  - apply (f_equal (jsmap_get k)). unfold book_one. by repeat case_match.
  - rewrite jsmap_get_set. by rewrite decide_False.
Qed.

Lemma book_one_quiet ev nr c e : book_state ev e.2 <> confirmed \/ p_state e.2 <> pending -> baselines (book_one ev nr c e) = baselines c.
Proof.
  intros H. assert (just pending confirmed e.2 (set_state (book_state ev e.2) e.2) = false) as E.
  { unfold just. cbn [p_state set_state]. destruct H as [H|H]; [rewrite (bool_decide_eq_false_2 (book_state _ _ = _)) by done; by rewrite andb_false_r|by rewrite bool_decide_eq_false_2]. }
  unfold book_one. rewrite E. by case_match.
Qed.

(** The pending receipt an event confirms, when it is the only one. *)
Lemma book_confirms ev nr l c k p score : NoDup l.*1 -> jsmap_get k l = Some p -> p_state p = pending -> book_state ev p = confirmed -> p_scoreAfterPpm p = Some score ->
  (forall e, e ∈ l -> e.1 <> k -> book_state ev e.2 <> confirmed \/ p_state e.2 <> pending) ->
  let c' := fold_left (book_one ev nr) l c in
  jsmap_get k (pendingByPatchHash (receipts c')) = Some (set_state confirmed p) /\ jsmap_get nr (baselineByRoot (baselines c')) = Some score.
Proof.
  intros Hnd Hk Hpend Hconf Hscore Hother. destruct (jsmap_get_split _ _ _ Hk) as (a & b & -> & Ha & _). cbv zeta. rewrite fold_left_app. cbn [fold_left].
  set (ca := fold_left (book_one ev nr) a c). rewrite fmap_app, fmap_cons in Hnd. apply NoDup_app in Hnd as (_ & _ & Hnd). apply NoDup_cons in Hnd as [Hb _].
  apply (fold_keeps (fun c' => jsmap_get k (pendingByPatchHash (receipts c')) = Some (set_state confirmed p) /\ jsmap_get nr (baselineByRoot (baselines c')) = Some score)
    (fun e => e.1 <> k /\ (book_state ev e.2 <> confirmed \/ p_state e.2 <> pending))).
  - intros c' e [He Hq] [H1 H2]. by rewrite book_one_other, book_one_quiet.
  - apply Forall_forall. intros e He. assert (Hek : e.1 <> k) by (intros Ek; apply Hb; cbn [fst]; rewrite <- Ek; by apply (list_elem_of_fmap_2 fst)). split; [done|]. apply Hother; [set_solver|done].
  - assert (Hj : just pending confirmed p (set_state (book_state ev p) p) = true) by (unfold just; cbn [p_state set_state]; by rewrite Hpend, Hconf).
    unfold book_one. cbn [fst snd]. rewrite Hj, Hscore, Hconf. unfold just. cbn [p_state set_state]. rewrite (bool_decide_eq_false_2 (confirmed = stale)), andb_false_r by done.
    cbn [receipts baselines on_receipts on_baselines pendingByPatchHash set_pendings baselineByRoot]. rewrite !jsmap_get_set, !decide_True by done. done.
Qed.

(** The event of a receipt, as the [i]-th transition. *)
Record lands (i : Z) (r : CoreTexReceiptPayload) (ev : CoreTexStateAdvancedEvent) : Prop := {
  la_epoch : ev_epoch ev = r_epochId r;
  la_index : ev_transitionIndex ev = i;
  la_parent : toLowerCase (ev_parent ev) = r_parentStateRoot r;
  la_root : toLowerCase (ev_newRoot ev) = r_newStateRoot r;
  la_core : toLowerCase (coreV ev) = r_coreVersionHash r;
  la_corpus : toLowerCase (corpus ev) = r_corpusRoot r;
  la_frontier : toLowerCase (frontier ev) = r_activeFrontierRoot r;
  la_hash : toLowerCase (ev_patchHash ev) = r_patchHash r;
  la_words : ev_wordCount ev = stateWordCount r;
  la_bytes : hexToBytes_padded (ev_compactPatchBytes ev) = hexToBytes_padded (r_compactPatchBytes r)
}.

Lemma lands_event_ok cfg i s p a before after w sp r ev index prev hash units count : lands i r ev -> prepared_ok s p ->
  (exists q, wires s p (Some (before, after, w)) sp q) -> r = payload cfg p a OUTCOME_CORETEX_STATE_ADVANCE index prev sp hash units count ->
  exists s', event_ok cfg s i ev s' /\ sp_newRoot sp = root_hex s'.
Proof.
  intros [L1 L2 L3 L4 L5 L6 L7 L8 L9 L10] Hp (q & [W1 W2 W3 W4 (s' & Ha & Hok & W5 & W6 & _)]) ->. exists s'. split; [|done].
  cbn [payload r_epochId r_parentStateRoot r_newStateRoot r_coreVersionHash r_corpusRoot r_activeFrontierRoot r_patchHash stateWordCount r_compactPatchBytes] in *.
  rewrite W3, hexToBytes_padded_hex in L10 by (by apply patch_wire_bytes_ok). constructor; try done.
  - rewrite L3. apply Hp.
  - by rewrite L8, W4, L10.
  - exists q. split; [done|]. split; [done|]. split; [done|]. by rewrite L9, W6.
  - by rewrite L4, W5.
Qed.

(** C7. From the signature to the confirmation. *)
Theorem advance_lands cfg chain signer p e c c1 env : chain_inv (conf c) -> pendings_ok c -> prepared_ok (liveState (conf c)) p ->
  finishSubmitAfterEvaluation cfg chain signer p e c = (c1, Returns (Signed env)) -> isStateAdvance env = true ->
  exists sign sg r, signer = Some sign /\ sign (ps_miner (pr_parsed p)) r = Returns sg /\ env_newStateRoot env = r_newStateRoot r /\ env_patchHash env = r_patchHash r
  /\ forall ev, lands (lastTransitionIndex (conf c) + 1) r ev -> exists c2 q, applyChainEvent cfg ev c1 = (c2, Returns tt) /\ chain_inv (conf c2)
       /\ liveRoot (conf c2) = env_newStateRoot env /\ jsmap_get (env_patchHash env) (pendingByPatchHash (receipts c2)) = Some q /\ p_state q = confirmed
       /\ effectiveBaselinePpm c2 = Some (r_scoreAfterPpm r).
Proof.
  intros Hc Hpo Hp H Hadv. pose proof (finish_pendings cfg chain signer p e c Hpo) as Hpo1. rewrite H in Hpo1. cbn [fst] in Hpo1.
  assert (Hconf : conf c1 = conf c) by (pose proof (finish_same (conf c) cfg chain signer p e c eq_refl) as Hx; cbv beta in Hx; by rewrite H in Hx).
  destruct (finish_inv _ _ _ _ _ _ _ _ H) as (a & advance & delta & baseline & threshold & sp & n & r & c2 & _ & Hg & Hsp & Hr & [_ (sign & sg & -> & Hsign & _ & -> & ->)] & _).
  destruct Hr as [(counters & index & prev & inFlight & _ & _ & _ & _ & count & units & hash & _ & _ & _ & Er)]. cbn [isStateAdvance envelope_of] in Hadv.
  destruct advance as [[[before after] w]|]; [|rewrite Er in Hadv; done]. exists sign, sg, r. split; [done|]. split; [done|]. split; [done|]. split; [done|]. intros ev Hl.
  destruct (known_live _ Hc) as [Hok Hroot _]. pose proof (patch_signed_wires _ _ _ _ _ _ _ _ Hok Hp Hsp) as Hw.
  destruct (lands_event_ok _ _ _ _ _ _ _ _ _ _ _ _ _ _ _ _ Hl Hp Hw Er) as (s' & Hev & Hnew).
  set (pe := mkPending (pr_originalPatchHash p) (r_patchHash r) (ps_parentStateRoot (pr_parsed p)) (r_newStateRoot r) (r_compactPatchBytes r) (ps_miner (pr_parsed p)) (r_issuedAt r) (r_expiresAt r)
    (Some (r_scoreAfterPpm r)) pending).
  set (c1 := on_receipts _ _) in *.
  assert (Hout : r_outcome r = OUTCOME_CORETEX_STATE_ADVANCE) by (by rewrite Er).
  assert (Hlow : toLowerCase (r_patchHash r) = r_patchHash r) by (rewrite Er; by eapply rewrite_advance_lower).
  assert (Hget : jsmap_get (r_patchHash r) (pendingByPatchHash (receipts c1)) = Some pe).
  { subst c1. cbn [receipts on_receipts]. unfold record_receipt. rewrite cacheReceipt_pendings, Hout, Z.eqb_refl. cbn [pendingByPatchHash set_pendings]. by rewrite jsmap_get_set, decide_True. }
  assert (Hv : verify_event cfg (conf c1) ev = Returns (Some (s', root_hex s'))) by (rewrite Hconf; by apply verify_event_spec).
  assert (Hparent : toLowerCase (ev_parent ev) = toLowerCase (ps_parentStateRoot (pr_parsed p))) by (rewrite (po_parent _ _ Hp), toLower_root_hex; apply Hev).
  assert (Hhash : toLowerCase (ev_patchHash ev) = r_patchHash r) by apply Hl.
  destruct (book_confirms ev (root_hex s') (pendingByPatchHash (receipts c1)) (on_conf (committed ev s' (root_hex s')) c1) (r_patchHash r) pe (r_scoreAfterPpm r)) as [B1 B2].
  { apply Hpo1. } { exact Hget. } { done. } { unfold book_state, hexEqb, pe. cbn [p_state p_parentRoot signedPatchHash]. rewrite Hparent, Hhash, Hlow, !String.eqb_refl. done. } { done. }
  { intros e' He' Hne. destruct (decide (p_state e'.2 = pending)) as [Ep|]; [left|by right]. intros Hbook. apply Hne. destruct Hpo1 as [_ Hfiled]. rewrite Forall_forall in Hfiled.
    rewrite (Hfiled _ He'), <- Hhash. unfold book_state in Hbook. rewrite Ep in Hbook. destruct (hexEqb (p_parentRoot e'.2) _); [|done]. cbn [andb] in Hbook.
    destruct (hexEqb (signedPatchHash e'.2) _) eqn:Eh; [by apply String.eqb_eq in Eh|done]. }
  exists (commit_event ev s' (root_hex s') c1), (set_state confirmed pe). rewrite applyChainEvent_run, Hv, commit_conf. split; [reflexivity|].
  split; [rewrite Hconf; by eapply chain_inv_commit|]. split; [cbn [env_newStateRoot envelope_of committed liveRoot]; by rewrite <- Hnew, Er|].
  split; [exact B1|]. split; [done|]. unfold effectiveBaselinePpm. rewrite commit_conf. cbn [committed liveRoot]. rewrite toLower_root_hex. exact B2.
Qed.

(** C30. What a signed receipt has passed, and what it says. It is signed only on the live root, freeze generation and epoch
    the submission was prepared on, when the dedup record holds no entry for its key; its evaluation reaches the live
    screener threshold with a valid proof, and for a state advance also the live state-advance threshold. Its bytes are the
    submitted patch with another score and apply to the live state: a state advance carries the measured score and the root
    they lead to, a screener pass score zero and the live root. *)
Theorem finish_sound cfg chain signer p e c c1 env s : chain_inv (conf c) -> state_ok s -> prepared_ok s p ->
  finishSubmitAfterEvaluation cfg chain signer p e c = (c1, Returns (Signed env)) ->
  (liveRoot (conf c) = root_hex s /\ frozen (freezing c) = false /\ freezeGeneration (freezing c) = pr_freezeGeneration p
     /\ getV4CurrentEpoch chain = Returns (cf_epoch cfg) /\ jsmap_get (dedupKey p) (submitDedup (receipts c)) = None)
  /\ jsmap_get (dedupKey p) (submitDedup (receipts c1)) = Some (env_expiresAt env)
  /\ exists a advance delta baseline threshold, effectiveBaselinePpm c = Some baseline /\ effectiveScreenerThresholdPpm cfg c baseline = Returns threshold
     /\ gates_passed cfg p c e a advance threshold delta
     /\ exists sign sg r q s', signer = Some sign /\ sign (ps_miner (pr_parsed p)) r = Returns sg /\ signed_ok sg = true
        /\ (r_epochId r = cf_epoch cfg /\ r_outcome r = outcome_of advance /\ r_parentStateRoot r = liveRoot (conf c) /\ r_expiresAt r = pr_now p + receiptTtlSec cfg)
        /\ r_compactPatchBytes r = bytesToHex (patch_wire q) /\ r_patchHash r = computePatchHash (patch_wire q)
        /\ patchBytes (pr_parsed p) = patch_wire (with_scoreDelta q (scoreDelta (pr_decoded p)))
        /\ applyPatch s q true = Returns (PatchSuccess s')
        /\ match advance with
           | Some (before, after, _) => scoreDelta q = after - before /\ r_scoreBeforePpm r = before /\ r_scoreAfterPpm r = after /\ r_newStateRoot r = root_hex s'
           | None => scoreDelta q = 0 /\ r_newStateRoot r = liveRoot (conf c)
           end.
Proof.
  intros Hc Hs Hp H. destruct (finish_inv _ _ _ _ _ _ _ _ H) as (a & advance & delta & baseline & threshold & sp & n & r & c2 & [C1 C2 C3 C4 C5 C6 C7] & Hg & Hsp & Hr & [_ (sign & sg & -> & Hsign & Hok & -> & ->)] & _).
  destruct (known_live _ Hc) as [_ Hroot _]. rewrite (po_root _ _ Hp), Hroot, toLower_root_hex in C3. rewrite C3 in Hroot.
  split; [by repeat split|]. split.
  { cbn [receipts on_receipts env_expiresAt envelope_of]. unfold record_receipt. assert (Hd : forall env h rs, submitDedup (cacheReceipt env h rs) = submitDedup rs) by (intros; unfold cacheReceipt; by case_match).
    rewrite Hd. destruct (r_outcome r =? _); cbn [submitDedup set_pendings set_dedup]; by rewrite jsmap_get_set, decide_True. }
  exists a, advance, delta, baseline, threshold. split; [done|]. split; [done|]. split; [done|].
  destruct (patch_signed_wires _ _ _ _ _ _ _ _ Hs Hp Hsp) as (q & [W1 W2 W3 W4 (s' & Ha & Hs' & W5)]). destruct Hr as [(counters & index & prev & inFlight & _ & _ & _ & _ & count & units & hash & _ & _ & _ & ->)].
  exists sign, sg. eexists. exists q, s'. split; [done|]. split; [exact Hsign|]. split; [done|]. split; [split; [done|]; split; [done|]; split; [|done]; cbn [payload r_parentStateRoot]; by rewrite (po_parent _ _ Hp)|].
  cbn [payload r_compactPatchBytes r_patchHash r_scoreBeforePpm r_scoreAfterPpm r_newStateRoot]. split; [done|]. split; [done|]. split; [|split; [exact Ha|]].
  - rewrite (po_bytes _ _ Hp), W1. by destruct (pr_decoded p).
  - destruct advance as [[[before after] w]|]; rewrite W1; cbn [scoreDelta with_scoreDelta]; [|split; [done|by rewrite W5]]. destruct W5 as (-> & _ & -> & ->). done.
Qed.

(** ** The receipts of a miner form a chain *)
(** The receipt signed for a submission. *)
Definition signs (signer : option CoreTexReceiptSigner) (p : PreparedSubmit) (env : ReceiptEnvelope) (r : CoreTexReceiptPayload) (sg : CoreTexSignedReceipt) : Prop :=
  exists sign, signer = Some sign /\ sign (ps_miner (pr_parsed p)) r = Returns sg /\ env_patchHash env = r_patchHash r /\ env_issuedAt env = r_issuedAt r.

Lemma finish_reserves cfg chain signer p e c c1 env : finishSubmitAfterEvaluation cfg chain signer p e c = (c1, Returns (Signed env)) ->
  exists r sg, signs signer p env r sg
  /\ jsmap_get (ps_miner (pr_parsed p)) (minerChainReservations (receipts c1)) = Some (mkReservation (solveIndex r + 1) (toLowerCase <$> sg_receiptHash sg) (r_expiresAt r))
  /\ match sg_receiptHash sg with Some h => isBytes32 h = true | None => True end
  /\ exists counters inFlight, getMinerCoreTexCounters chain (cf_epoch cfg) (ps_miner (pr_parsed p)) = Returns counters
      /\ chain_position counters (jsmap_get (ps_miner (pr_parsed p)) (minerChainReservations (receipts c))) = Some ((solveIndex r, prevReceiptHash r), inFlight).
Proof.
  intros H. destruct (finish_inv _ _ _ _ _ _ _ _ H) as (a & advance & delta & baseline & threshold & sp & n & r & c2 & _ & _ & _ & [Hr] & [_ (sign & sg & -> & Hsign & Hok & -> & ->)] & _).
  destruct Hr as (counters & index & prev & inFlight & Hk & Hpos & _ & _ & count & units & hash & _ & _ & _ & Er). exists r, sg. split; [by exists sign|]. split.
  - cbn [receipts on_receipts]. unfold record_receipt. assert (Hd : forall env h rs, minerChainReservations (cacheReceipt env h rs) = minerChainReservations rs) by (intros; unfold cacheReceipt; by case_match).
    rewrite Hd. destruct (r_outcome r =? _); cbn [minerChainReservations set_pendings set_dedup set_reservations]; by rewrite jsmap_get_set, decide_True.
  - split; [|exists counters, inFlight; split; [done|]; by rewrite Er]. unfold signed_ok in Hok. destruct (sg_receiptHash sg); [|done]. by apply andb_true_iff in Hok as [_ ?].
Qed.

(** While the first receipt has not landed, the next one of the miner takes the next index and names the first, and needs its hash. *)
Theorem receipts_chain cfg chain1 chain2 signer1 signer2 p1 p2 e1 e2 c c1 c' c2 env1 env2 k :
  finishSubmitAfterEvaluation cfg chain1 signer1 p1 e1 c = (c1, Returns (Signed env1)) ->
  ps_miner (pr_parsed p2) = ps_miner (pr_parsed p1) ->
  jsmap_get (ps_miner (pr_parsed p1)) (minerChainReservations (receipts c')) = jsmap_get (ps_miner (pr_parsed p1)) (minerChainReservations (receipts c1)) ->
  getMinerCoreTexCounters chain2 (cf_epoch cfg) (ps_miner (pr_parsed p2)) = Returns k ->
  finishSubmitAfterEvaluation cfg chain2 signer2 p2 e2 c' = (c2, Returns (Signed env2)) ->
  exists r1 r2 sg1 sg2, signs signer1 p1 env1 r1 sg1 /\ signs signer2 p2 env2 r2 sg2
  /\ (nextIndex k <= solveIndex r1 -> solveIndex r2 = solveIndex r1 + 1 /\ exists h, sg_receiptHash sg1 = Some h /\ prevReceiptHash r2 = toLowerCase h)
  /\ (solveIndex r1 < nextIndex k -> solveIndex r2 = nextIndex k /\ prevReceiptHash r2 = toLowerCase (lastReceiptHash k)).
Proof.
  intros H1 Em Eres Ek H2. destruct (finish_reserves _ _ _ _ _ _ _ _ H1) as (r1 & sg1 & S1 & R1 & Hh & _). destruct (finish_reserves _ _ _ _ _ _ _ _ H2) as (r2 & sg2 & S2 & _ & _ & counters & inFlight & Hk & Hpos).
  rewrite Ek in Hk. apply Returns_inj in Hk as <-. rewrite Em, Eres, R1 in Hpos. exists r1, r2, sg1, sg2. split; [done|]. split; [done|]. unfold chain_position in Hpos. cbn [rv_nextIndex rv_lastReceiptHash] in Hpos.
  destruct (Z.leb_spec (solveIndex r1 + 1) (nextIndex k)).
  - split; [lia|]. intros _. by injection Hpos as <- <- _.
  - split; [|lia]. intros _. destruct (sg_receiptHash sg1) as [h|]; [|done]. cbn [fmap option_fmap option_map] in Hpos. destruct (toLowerCase h) eqn:El; [done|]. injection Hpos as <- <- _. split; [done|]. exists h. by rewrite El.
Qed.
End Sound.
(** ** Every step of a running coordinator *)
Inductive coordinator_step :=
  | Tick (chain : ChainClient) (nowMs : Z)
  | Prepare (chain : ChainClient) (signer : option CoreTexReceiptSigner) (nowMs : Z) (body : jsval)
  | Finish (chain : ChainClient) (signer : option CoreTexReceiptSigner) (p : PreparedSubmit) (r : EvalResult)
  | EvaluatorThrew
  | StatusCheck (chain : ChainClient)
  | LookUp (nowMs : Z) (hash : string)
  | Freeze_ (reason : string)
  | Unfreeze
  | SetBaseline (root : string) (score : option Z) (variance : option (option Z))
  | InvalidateBaselines
  | ForceUnhealthy (reason : string).

Section Steps.
Context {HK : Hasher} (error_code : js_error -> string).

Definition step (cfg : CoreTexCoordinatorConfig) (c : Core) (s : coordinator_step) : Core :=
  match s with
  | Tick chain now => (tickInner error_code cfg chain now c).1
  | Prepare chain signer now body => (prepareSubmitEvaluation cfg chain signer now body c).1
  | Finish chain signer p r => (finishSubmitAfterEvaluation cfg chain signer p r c).1
  | EvaluatorThrew => (evaluation_failed c).1
  | StatusCheck chain => (checkEpochStillCurrent cfg chain c).1
  | LookUp now hash => (getReceiptByHash cfg now hash c).1
  | Freeze_ reason => (freeze reason c).1
  | Unfreeze => (unfreeze c).1
  | SetBaseline root score variance => (setRecomputedBaseline root score variance c).1
  | InvalidateBaselines => (invalidateBaselines c).1
  | ForceUnhealthy reason => (forceUnhealthy reason c).1
  end.

(** Only a tick moves the confirmed state. *)
Lemma step_conf cfg c s : (forall chain now, s <> Tick chain now) -> conf (step cfg c s) = conf c.
Proof.
  intros H. destruct s; cbn [step]; try done; try by destruct (H chain nowMs).
  all: first [by apply (prepare_same (conf c))|by apply (finish_same (conf c))|by apply (evaluation_failed_same (conf c))|by apply (checkEpoch_same (conf c))
    |by apply (getReceipt_same (conf c))|by apply (setBaseline_same (conf c))].
Qed.

Lemma step_chain_inv cfg c s : chain_inv (conf c) -> chain_inv (conf (step cfg c s)).
Proof.
  intros Hc. destruct s as [chain now| | | | | | | | | |]; [by apply tickInner_keeps| | | | | | | | | |]; by rewrite step_conf.
Qed.

Lemma step_pendings cfg c s : pendings_ok c -> pendings_ok (step cfg c s).
Proof.
  intros Hc. destruct s; cbn [step]; first [by apply tick_pendings|by apply prepare_pendings|by apply finish_pendings|by apply checkEpoch_pendings|by apply getReceipt_pendings
    |by apply (pendings_same c)|idtac].
  assert (Hk : keeps pendings_ok (setRecomputedBaseline root score variance)); [|by apply Hk].
  unfold setRecomputedBaseline. keeps_walk; by apply keeps_pendings.
Qed.

Lemma boot_pendings cfg chain loader c0 : loads_states loader -> boot cfg chain loader (new_core cfg) = (c0, Returns tt) -> pendings_ok c0.
Proof.
  intros Hl H. destruct (boot_gates _ _ _ _ Hl H) as (parent & baseline & Hok & Hg). rewrite (boot_opens _ _ _ parent baseline) in H by done.
  assert (Hk : keeps pendings_ok (startup_replay cfg chain)).
  { pose proof (applyChainEvents_pendings cfg). assert (keeps pendings_ok (parityCheck cfg chain)) by (unfold parityCheck; keeps_walk; by apply keeps_pendings).
    unfold startup_replay. keeps_walk; by apply keeps_pendings. }
  specialize (Hk (started cfg parent baseline)). rewrite H in Hk. apply Hk. split; constructor.
Qed.

(** C9. Whatever the chain, the miners, the evaluator, the signer and the orchestrator do, from a boot on: the confirmed state is sound, the pending receipts are filed. *)
Theorem coordinator_invariant cfg chain loader c0 steps : loads_states loader -> boot cfg chain loader (new_core cfg) = (c0, Returns tt) ->
  let c := fold_left (step cfg) steps c0 in let f := conf c in
  merkleizeState (liveState f) = Returns (root (cache_of (liveState f))) /\ liveRoot f = root_hex (liveState f) /\ reach true (parentState f) (liveState f)
  /\ Forall (fun e => e.1 = root_hex e.2 /\ reach true (parentState f) e.2) (stateByRoot f)
  /\ linked (snapshots f) /\ (forall s, last (snapshots f) = Some s -> sn_transitionIndex s = lastTransitionIndex f /\ sn_root s = liveRoot f)
  /\ pendings_ok c.
Proof.
  intros Hl Hb c f. assert (Hf : chain_inv f /\ pendings_ok c).
  { subst f c. pose proof (boot_booted cfg chain loader c0 Hl Hb) as H0. pose proof (boot_pendings cfg chain loader c0 Hl Hb) as P0. clear Hb. revert c0 H0 P0.
    induction steps as [|s steps IH]; intros c Hc Hp; [done|]. cbn [fold_left]. apply IH; [by apply step_chain_inv|by apply step_pendings]. }
  destruct Hf as [Hf Hp]. destruct (known_live f Hf) as [Hok Hr Hre]. split; [by apply merkleizeState_returns, Hok|]. split; [exact Hr|]. split; [exact Hre|].
  split; [eapply Forall_impl; [exact (ci_byRoot f Hf)|]; by intros e [_ ? ?]|]. split; [apply Hf|]. split; [|exact Hp].
  intros s Hs. pose proof (ci_live f Hf) as Hlive. rewrite Hs in Hlive. destruct Hlive as (_ & -> & ->). done.
Qed.
End Steps.

(** ** The queue bounds *)
Section Queue.
Context (cfg : CoreTexCoordinatorConfig).

(** The submissions in the queue or running, and the counters. *)
Inductive queue_of : list jsval -> SubmitQueue -> Prop :=
  | queue_empty : queue_of [] (mkQueue 0 [])
  | queue_enter l q b q' : queue_of l q -> submit_enter cfg q b = inr q' -> queue_of (b :: l) q'
  | queue_leave l q b l' : queue_of l q -> l ≡ₚ b :: l' -> queue_of l' (submit_leave q b).

Definition of_miner (m : string) (b : jsval) : Prop := queue_miner b = Some m.
#[local] Instance of_miner_dec m b : Decision (of_miner m b).
Proof. unfold of_miner. apply _. Defined.
Definition in_queue (m : string) (l : list jsval) : Z := Z.of_nat (length (filter (of_miner m) l)).

Lemma in_queue_cons m b l : in_queue m (b :: l) = in_queue m l + (if decide (of_miner m b) then 1 else 0).
Proof. unfold in_queue. rewrite filter_cons. destruct (decide _); cbn [length]; lia. Qed.

Lemma in_queue_perm m l l' : l ≡ₚ l' -> in_queue m l = in_queue m l'.
Proof. intros H. unfold in_queue. by rewrite H. Qed.

Lemma queued_set d m miner v ps : queued (mkQueue d (jsmap_set miner v ps)) m = if decide (m = miner) then v else queued (mkQueue d ps) m.
Proof. unfold queued. cbn [pendingSubmitsByMiner]. rewrite jsmap_get_set. by destruct (decide _). Qed.

Lemma queued_delete d m miner ps : queued (mkQueue d (jsmap_delete miner ps)) m = if decide (m = miner) then 0 else queued (mkQueue d ps) m.
Proof. unfold queued. cbn [pendingSubmitsByMiner]. rewrite jsmap_get_delete. by destruct (decide _). Qed.

Lemma of_miner_decide m miner b : queue_miner b = Some miner -> (if decide (of_miner m b) then 1 else 0) = if decide (m = miner) then 1 else 0.
Proof. intros E. destruct (decide (of_miner m b)) as [H|H]; destruct (decide (m = miner)); unfold of_miner in H; congruence. Qed.

(** C35. The counters of the queue. *)
Theorem queue_bounds l q : queue_of l q ->
  submitQueueDepth q = Z.of_nat (length l) /\ submitQueueDepth q <= Z.max 0 (default 16 (maxQueuedSubmits cfg))
  /\ (forall m, queued q m = in_queue m l /\ queued q m <= Z.max 0 (default 4 (maxQueuedSubmitsPerMiner cfg)))
  /\ Forall (fun e => 0 < e.2) (pendingSubmitsByMiner q).
Proof.
  induction 1 as [|l q b q' Hq (D1 & D2 & D3 & D4) He|l q b l' Hq (D1 & D2 & D3 & D4) Hp].
  - split; [done|]. split; [apply Z.le_max_l|]. split; [intros m; split; [done|apply Z.le_max_l]|constructor].
  - unfold submit_enter in He. destruct (Z.leb_spec (default 16 (maxQueuedSubmits cfg)) (submitQueueDepth q)); [done|]. destruct (queue_miner b) as [miner|] eqn:Em.
    + destruct (Z.leb_spec (default 4 (maxQueuedSubmitsPerMiner cfg)) (queued q miner)); [done|]. injection He as <-. cbn [submitQueueDepth pendingSubmitsByMiner length].
      split; [lia|]. split; [lia|]. split.
      * intros m. destruct (D3 m) as [E ?]. rewrite in_queue_cons, (of_miner_decide m miner), <- E by done. rewrite queued_set.
        change (queued (mkQueue _ (pendingSubmitsByMiner q)) m) with (queued q m). destruct (decide (m = miner)) as [->|]; lia.
      * apply jsmap_set_Forall; [done|]. cbn [snd]. rewrite (proj1 (D3 miner)). unfold in_queue. lia.
    + injection He as <-. cbn [submitQueueDepth pendingSubmitsByMiner length]. split; [lia|]. split; [lia|]. split; [|done]. intros m. rewrite in_queue_cons, decide_False by (unfold of_miner; congruence).
      destruct (D3 m) as [E ?]. unfold queued in *. cbn [pendingSubmitsByMiner]. lia.
  - assert (Hlen : length l = S (length l')) by (by rewrite Hp). unfold submit_leave. destruct (queue_miner b) as [miner|] eqn:Em; cbn [submitQueueDepth pendingSubmitsByMiner].
    + split; [lia|]. split; [lia|]. destruct (D3 miner) as [E Hcap]. rewrite (in_queue_perm _ _ _ Hp), in_queue_cons, decide_True in E by done.
      assert (Hget : jsmap_get miner (pendingSubmitsByMiner q) = Some (in_queue miner l' + 1)).
      { unfold queued in E. destruct (jsmap_get miner _) as [v|]; cbn [default] in E; unfold id in E; [by f_equal|]. unfold in_queue in E. lia. }
      rewrite Hget. change (default 1 (Some (in_queue miner l' + 1))) with (in_queue miner l' + 1). replace (in_queue miner l' + 1 - 1) with (in_queue miner l') by lia. split.
      * intros m. destruct (D3 m) as [Em' ?]. rewrite (in_queue_perm _ _ _ Hp), in_queue_cons, (of_miner_decide m miner) in Em' by done.
        destruct (Z.leb_spec (in_queue miner l') 0); rewrite ?queued_set, ?queued_delete; change (queued (mkQueue _ (pendingSubmitsByMiner q)) m) with (queued q m);
          revert Em'; destruct (decide (m = miner)) as [->|]; unfold in_queue in *; lia.
      * destruct (Z.leb_spec (in_queue miner l') 0) as [H0|H0]; [|by apply jsmap_set_Forall]. apply Forall_forall. intros e He. rewrite Forall_forall in D4. apply D4.
        by eapply elem_of_sublist; [|apply (jsmap_delete_sublist miner)].
    + split; [lia|]. split; [lia|]. split; [|done]. intros m. destruct (D3 m) as [E ?]. rewrite (in_queue_perm _ _ _ Hp), in_queue_cons, decide_False in E by (unfold of_miner; congruence).
      unfold queued in *. cbn [pendingSubmitsByMiner]. lia.
Qed.
End Queue.

(** ** Witnesses *)
Definition core_w : Core := on_health (set_signing true None) started_w.
(** A signer that signs lower-case receipts. *)
Definition canonical (s : string) : bool := String.eqb (toLowerCase s) s.
Definition signer_w : option CoreTexReceiptSigner := Some (fun _ r =>
  if forallb canonical [r_parentStateRoot r; r_newStateRoot r; r_coreVersionHash r; r_corpusRoot r; r_activeFrontierRoot r; r_patchHash r]
  then Returns (mkSigned "0xaa" "0xbb" None (Some (bytesToHex (be_bytes 32 3)))) else Throws (GenericError "receipt is not canonical")).
Definition body_of (patch : Patch) : jsval := JObject [("patchBytesHex", JString (bytesToHex (patch_wire patch))); ("parentStateRoot", JString (bytesToHex (be_bytes 32 64)));
  ("minerAddress", JString address_w)]%string.
Definition pair_w : Patch := mkPatch PATCH_TYPE.SLOT_REPLACE 2 0 (be_bytes 32 64) [32; 33] [5; 6].
Abbreviation quiet_w := (chain_w [] 8 (fun _ => None) (bytesToHex (be_bytes 32 64), 0)).
Definition prepared_w (body : jsval) (c : Core) : PreparedSubmit :=
  match (prepareSubmitEvaluation (HK:=length_hasher) config_w quiet_w signer_w 5000 body c).2 with
  | Returns (inr p) => p
  | _ => mkPrepared 0 (mkParsed "" [] "" "") pair_w "" "" "" 0 "" zero_state 0
  end.

Definition pack_w (domain : string) (seed : Z) : DualPack := mkDualPack domain (bytesToHex (be_bytes 32 seed)) true (Some 900000).
Definition accepted_w (patchHash : string) : Accepted := mkAccepted (Some 500000) (bytesToHex (be_bytes 32 1)) (bytesToHex (be_bytes 32 2))
  (Some (mkDualProof "coretex-dual-pack-v1" "future_blockhash_dual_pack" (Some 7) (Some 100) (Some 130) (Some 30) (bytesToHex (be_bytes 32 11)) patchHash
     (bytesToHex (be_bytes 32 64)) (bytesToHex (be_bytes 32 5)) (bytesToHex (be_bytes 32 4)) (bytesToHex (be_bytes 32 9)) (bytesToHex (be_bytes 32 9))
     (Some (pack_w "gate" 21)) (Some (pack_w "confirm" 22)))).
Definition result_w (p : PreparedSubmit) : EvalResult :=
  StateAdvance_ (accepted_w (pr_originalPatchHash p)) (Some 1000) (Some 501000) (bytesToHex (patch_wire (with_scoreDelta (pr_decoded p) 77))).
Definition signed_w (body : jsval) (c : Core) : Core * outcome SubmitResponse :=
  let p := prepared_w body c in finishSubmitAfterEvaluation (HK:=length_hasher) config_w quiet_w signer_w p (result_w p) c.
Definition env_of (r : outcome SubmitResponse) : option ReceiptEnvelope := match r with Returns (Signed env) => Some env | _ => None end.

Lemma core_w_inv : chain_inv (HK:=length_hasher) (conf core_w).
Proof. apply chain_inv_started, zero_state_ok. Qed.

Lemma is_prepared_w body c : match (prepareSubmitEvaluation (HK:=length_hasher) config_w quiet_w signer_w 5000 body c).2 with Returns (inr _) => true | _ => false end = true ->
  exists c1, prepareSubmitEvaluation (HK:=length_hasher) config_w quiet_w signer_w 5000 body c = (c1, Returns (inr (prepared_w body c))).
Proof. unfold prepared_w. destruct (prepareSubmitEvaluation _ _ _ _ _ _) as [c1 [[r|p]|e]]; cbn [snd]; try discriminate. intros _. by exists c1. Qed.

Lemma prepared_w_ok : prepared_ok (HK:=length_hasher) zero_state (prepared_w (body_of (patch_w 32 5)) core_w).
Proof.
  destruct (is_prepared_w (body_of (patch_w 32 5)) core_w) as [c1 H]; [vm_compute; reflexivity|].
  destruct (prepare_inv _ _ _ _ _ _ _ _ core_w_inv H) as (_ & Hp & _). exact Hp.
Qed.

Lemma is_signed_w body c (P : ReceiptEnvelope -> bool) : match env_of (signed_w body c).2 with Some env => P env | None => false end = true ->
  exists env, finishSubmitAfterEvaluation (HK:=length_hasher) config_w quiet_w signer_w (prepared_w body c) (result_w (prepared_w body c)) c = ((signed_w body c).1, Returns (Signed env))
    /\ P env = true.
Proof.
  change (finishSubmitAfterEvaluation (HK:=length_hasher) config_w quiet_w signer_w (prepared_w body c) (result_w (prepared_w body c)) c) with (signed_w body c).
  destruct (signed_w body c) as [c1 [[code|env]|e]]; cbn [env_of fst snd]; try discriminate. intros H. by exists env.
Qed.

Abbreviation body_a := (body_of (patch_w 32 5)).
Abbreviation body_b := (body_of pair_w).
Definition core_s : Core := (signed_w body_a core_w).1.

(** The event of a receipt. *)
Definition event_of (r : CoreTexReceiptPayload) : CoreTexStateAdvancedEvent :=
  mkEvent 9 "0xdd" 0 (r_epochId r) 0 address_w (r_parentStateRoot r) (r_newStateRoot r) (r_patchHash r) "" (r_coreVersionHash r) (r_corpusRoot r) (r_activeFrontierRoot r)
    0 (stateWordCount r) (r_compactPatchBytes r).

Lemma signer_lands m r sg : (exists sign, signer_w = Some sign /\ sign m r = Returns sg) -> lands 0 r (event_of r).
Proof.
  intros (sign & Es & Hs). apply (inj Some) in Es as <-. cbv beta iota in Hs. destruct (forallb canonical [_; _; _; _; _; _]) eqn:Hc; [|discriminate Hs].
  cbn [forallb] in Hc. unfold canonical in Hc. repeat match type of Hc with _ && _ = true => let H := fresh "Hx" in apply andb_true_iff in Hc as [H Hc]; apply String.eqb_eq in H end.
  constructor; first [reflexivity|assumption].
Qed.

Lemma advance_lands_witness : exists env r c2 q, signed_w body_a core_w = (core_s, Returns (Signed env)) /\ applyChainEvent (HK:=length_hasher) config_w (event_of r) core_s = (c2, Returns tt)
  /\ liveRoot (conf c2) = env_newStateRoot env /\ jsmap_get (env_patchHash env) (pendingByPatchHash (receipts c2)) = Some q /\ p_state q = confirmed.
Proof.
  destruct (is_signed_w body_a core_w isStateAdvance) as (env & H & Hadv); [vm_compute; reflexivity|].
  destruct (advance_lands (HK:=length_hasher) config_w quiet_w signer_w (prepared_w body_a core_w) (result_w (prepared_w body_a core_w)) core_w core_s env
    core_w_inv ltac:(split; constructor) prepared_w_ok H Hadv) as (sign & sg & r & Es & Hs & Er & Eh & Hland).
  destruct (Hland (event_of r) (signer_lands _ r sg (ex_intro _ sign (conj Es Hs)))) as (c2 & q & H1 & _ & H2 & H3 & H4 & _).
  exists env, r, c2, q. split; [exact H|]. split; [exact H1|]. split; [exact H2|]. split; [exact H3|exact H4].
Defined.

Lemma finish_sound_witness : exists env s' q, signed_w body_a core_w = (core_s, Returns (Signed env)) /\ scoreDelta q = 500000 /\ applyPatch (H:=length_hasher) zero_state q true = Returns (PatchSuccess s').
Proof.
  destruct (is_signed_w body_a core_w isStateAdvance) as (env & H & _); [vm_compute; reflexivity|].
  destruct (finish_sound (HK:=length_hasher) config_w quiet_w signer_w (prepared_w body_a core_w) (result_w (prepared_w body_a core_w)) core_w core_s env zero_state
    core_w_inv zero_state_ok prepared_w_ok H) as (_ & _ & a & advance & delta & baseline & threshold & _ & _ & Hg & sign & sg & r & q & s' & _ & _ & _ & _ & _ & _ & _ & Ha & Hm).
  exists env, s', q. split; [exact H|]. split; [|exact Ha].
  pose proof (gp_accepted _ _ _ _ _ _ _ _ Hg) as Hacc. destruct advance as [[[before after] w]|]; [|destruct Hacc]. destruct Hacc as (_ & E1 & E2 & _).
  apply (inj Some) in E1 as <-. apply (inj Some) in E2 as <-. exact (proj1 Hm).
Defined.

Lemma receipts_chain_witness : exists env1 env2 r1 r2 sg1 sg2, signs signer_w (prepared_w body_a core_w) env1 r1 sg1 /\ signs signer_w (prepared_w body_b core_s) env2 r2 sg2
  /\ (0 <= solveIndex r1 -> solveIndex r2 = solveIndex r1 + 1).
Proof.
  destruct (is_signed_w body_a core_w isStateAdvance) as (env1 & H1 & _); [vm_compute; reflexivity|].
  destruct (is_signed_w body_b core_s (fun _ => true)) as (env2 & H2 & _); [vm_compute; reflexivity|].
  destruct (receipts_chain (HK:=length_hasher) config_w quiet_w quiet_w signer_w signer_w (prepared_w body_a core_w) (prepared_w body_b core_s)
    (result_w (prepared_w body_a core_w)) (result_w (prepared_w body_b core_s)) core_w core_s core_s (signed_w body_b core_s).1 env1 env2 (mkCounters 0 0 (bytesToHex (zeros 32)))
    H1 ltac:(vm_compute; reflexivity) eq_refl eq_refl H2) as (r1 & r2 & sg1 & sg2 & S1 & S2 & Hn & _).
  exists env1, env2, r1, r2, sg1, sg2. split; [exact S1|]. split; [exact S2|]. intros Hr. exact (proj1 (Hn Hr)).
Defined.

Definition steps_w : list coordinator_step := [Prepare quiet_w signer_w 5000 body_a; Freeze_ "operator"; Tick quiet_w 6000; Unfreeze; Tick quiet_w 7000].

Lemma coordinator_invariant_witness : exists c0, boot (HK:=length_hasher) config_w quiet_w (fun _ => Returns zero_state) (new_core config_w) = (c0, Returns tt)
  /\ liveRoot (conf (fold_left (step (HK:=length_hasher) (fun _ => EmptyString) config_w) steps_w c0)) = root_hex (HK:=length_hasher)
       (liveState (conf (fold_left (step (HK:=length_hasher) (fun _ => EmptyString) config_w) steps_w c0))).
Proof.
  assert (Hb : match (boot (HK:=length_hasher) config_w quiet_w (fun _ => Returns zero_state) (new_core config_w)).2 with Returns tt => true | Throws _ => false end = true)
    by (vm_compute; reflexivity).
  destruct (boot _ _ _ _) as [c0 [[]|err]] eqn:E; [|discriminate Hb]. exists c0. split; [reflexivity|].
  exact (proj1 (proj2 (coordinator_invariant (HK:=length_hasher) (fun _ => EmptyString) config_w quiet_w (fun _ => Returns zero_state) c0 steps_w
    ltac:(intros root s Hs; apply Returns_inj in Hs as <-; exact zero_state_ok) E))).
Defined.

Lemma queue_bounds_witness : exists q, submit_enter config_w (mkQueue 0 []) body_a = inr q /\ submitQueueDepth (submit_leave q body_a) = 0.
Proof.
  eexists. split; [vm_compute; reflexivity|]. refine (proj1 (queue_bounds config_w [] _ _)). eapply (queue_leave config_w [body_a]); [|reflexivity].
  eapply queue_enter; [apply queue_empty|vm_compute; reflexivity].
Defined.
