(* ===== verification/EvaluatorArtifact.v ===== *)
(** * What the evaluator hands to the others
      (coordinator/production-evaluator.ts, replay/eval-report-artifact.ts,
       coordinator/coretex-coordinator-core.ts)

    A credited evaluation of [ProductionEvaluator] leaves in two directions.
    Its artifact is published and audited by [EvalReport]:
    [accepted_artifact_verifies] says an honest watcher accepts it. Its result
    goes back to the coordinator of [CoordinatorSubmit]:
    [evaluation_passes_gates] says that, when the two are configured alike, a
    submission the coordinator prepared and the evaluator credited passes the
    coordinator's gates, and that a state advance is rewritten to exactly the
    bytes the evaluator returned. *)
From Stdlib Require Import Ascii SpecFloat.
From S2P Require Import Prelude JsSort Float StateTypes Codec Keccak Merkle Decoder Substrate Validate Patch SeedDerivation SlotPolicy PerPatch WorkUnits CanonicalJson.
From S2P Require Import EvalHarness HiddenPack Benchmark Coordinator CoordinatorSubmit SafeInteger EvalReport DedupStore ProductionEvaluator.
#[local] Open Scope Z_scope.

(** ** The artifact of a credited result *)
Section Published.
Context {HK : Hasher} (NS : number -> string) {St : Type} `{!CoreTexEvalDedupStore St}.

(** The evaluator's pins and the job's context are in the formats the artifact is checked for. *)
Record publishable (deps : ProductionCoreTexEvaluatorCoreDeps) (j : EvalJob) (dual : PerPatchReceipt) (commit : string) : Prop := {
  pb_epoch : 0 <= cd_epochId deps /\ safe_Z (cd_epochId deps);
  pb_corpus : BYTES32_RE (cd_corpusRoot deps) = true /\ toLowerCase (cd_corpusRoot deps) = cd_corpusRoot deps;
  pb_bundle : BYTES32_RE (cd_bundleHash deps) = true /\ toLowerCase (cd_bundleHash deps) = cd_bundleHash deps;
  pb_root : BYTES32_RE (ej_root j) = true;
  pb_bytes : bytes_ok (ej_bytes j);
  pb_received : 0 < receivedAtBlock (rc_context dual) /\ safe_Z (receivedAtBlock (rc_context dual));
  pb_target : 0 <= targetBlock (rc_context dual) /\ safe_Z (targetBlock (rc_context dual));
  pb_blockhash : BYTES32_RE (sc_blockhash (rc_context dual)) = true;
  pb_commit : BYTES32_RE commit = true;
  pb_tolerance : safe_field (JNumber (cd_replayTolerancePpm deps)) = true;
  pb_scores : safe_field (JNumber (gateScorePpm dual)) = true /\ safe_field (JNumber (confirmScorePpm dual)) = true
}.



Lemma safe_of_Z z : 0 <= z -> safe_Z z -> safe_field (JNumber (of_Z z)) = true.
Proof. intros H1 H2. cbn [safe_field]. rewrite of_Z_safe by done. change (of_Z 0) with (of_Z 0). rewrite dlt_of_Z by done. cbn [andb]. by rewrite (proj2 (Z.ltb_ge z 0)). Qed.




Lemma BYTES32_hash x : BYTES32_RE (bytesToHex (keccak256 x)) = true.
Proof. apply (hex_re_hex 32); [apply keccak256_ok|apply length_keccak256]. Qed.

Lemma BYTES32_lower s : BYTES32_RE s = true -> BYTES32_RE (toLowerCase s) = true.
Proof.
  unfold BYTES32_RE, hex_re. destruct s as [|a [|b s]]; intros H; [done|by destruct (ascii_dec a "0") as [->|N]; [|revert H; destruct a as [[] [] [] [] [] [] [] []]]|].
  assert (E : a = "0"%char) by (revert H; destruct a as [[] [] [] [] [] [] [] []]; done). subst a.
  assert (E : b = "x"%char) by (revert H; destruct b as [[] [] [] [] [] [] [] []]; done). subst b.
  change (toLowerCase (String "0" (String "x" s))) with (String "0" (String "x" (toLowerCase s))). lazy beta iota in H |- *.
  rewrite length_lower, list_ascii_lower. apply andb_true_iff in H as [-> H]. cbn [andb]. rewrite forallb_forall in H. apply forallb_forall. intros c Hc. apply in_map_iff in Hc as (c' & <- & Hc%H).
  clear -Hc. destruct c' as [[] [] [] [] [] [] [] []]; solve [discriminate Hc|reflexivity].
Qed.



(** The members of the artifact that was built. *)
Lemma built_members deps j dual offset advance commit A : buildPostRevealEvalReportArtifact NS (artifact_literal deps j dual offset advance commit) = Returns A ->
  exists h, hashPostRevealEvalReportArtifact NS A = Returns h /\ toLowerCase h = h /\ exists fields, A = JObject fields
  /\ (prop A "artifactHash" = JString h /\ prop A "evalReportHash" = JString h /\ BYTES32_RE h = true
  /\ prop A "version" = JString "coretex-post-reveal-eval-report-v1" /\ prop A "epochId" = JNumber (of_Z (cd_epochId deps)) /\ prop A "minerAddress" = JString (ej_miner j)
  /\ prop A "outcome" = JString (if advance then "STATE_ADVANCE" else "SCREENER_PASS") /\ prop A "compactPatchBytesHex" = JString (toLowerCase (bytesToHex (ej_bytes j)))
  /\ prop A "thresholdPpm" = JNumber (ej_threshold j) /\ prop A "receipt" = receipt_value dual
  /\ is_object (prop A "seedDerivation") = true /\ is_object (prop A "context") = true)%string.
Proof.
  unfold buildPostRevealEvalReportArtifact. intros H. apply bind_Returns in H as (h & Hh & H). apply Returns_inj in H as <-. exists h. split; [exact Hh|].
  unfold hashPostRevealEvalReportArtifact in Hh. apply bind_Returns in Hh as (txt & _ & Hh). apply Returns_inj in Hh. rewrite toLowerCase_hex in Hh.
  split; [rewrite <- Hh; apply toLowerCase_hex|]. eexists. split; [reflexivity|]. split_and!; try reflexivity. rewrite <- Hh. apply BYTES32_hash.
Qed.


End Published.

(** ** A credited artifact verifies *)
Section Accepted.
Context {HK : Hasher} (NS : number -> string) {St : Type} `{!CoreTexEvalDedupStore St}.





Lemma offset_matches_inv ctx offset : offset_matches ctx offset = true -> receivedAtBlock ctx + offset = targetBlock ctx.
Proof. unfold offset_matches. intros [_ H%Z.eqb_eq]%andb_true_iff. lia. Qed.


End Accepted.

(** ** The coordinator accepts a credited result *)
(** What the coordinator hands to the evaluator. *)
Definition submit_input (p : PreparedSubmit) : ScorePatchInput :=
  mkScoreInput (canonicalHex p) (ps_parentStateRoot (pr_parsed p)) (ps_miner (pr_parsed p)) (Some (parentStateSnapshot p)) (Some (of_Z (CoordinatorSubmit.screenerThresholdPpm p))) None None None.

(** A number as the coordinator's checks read it: an integer, or none. *)
Definition wire_int (n : number) : option Z := if is_integer n then math_floor n else None.

(** The proof and the result as the objects the coordinator receives. *)
Definition wire_pack (domain : string) (p : PackProof) : DualPack := mkDualPack domain (pp_seedCommit p) (pp_accepted p) (wire_int (pp_scorePpm p)).
Definition wire_proof (p : PerPatchDualPackEvaluationProof) : CoreTexDualPackEvaluationProof :=
  mkDualProof "coretex-dual-pack-v1" "future_blockhash_dual_pack" (Some (pf_epochId p)) (Some (receivedAtBlock (pf_context p))) (Some (targetBlock (pf_context p)))
    (Some (pf_targetBlockOffset p)) (sc_blockhash (pf_context p)) (pf_patchHash p) (pf_parentStateRoot p) (pf_corpusRoot p) (pf_coreVersionHash p)
    (pf_hiddenSeedCommit p) (pf_epochSecretCommit p) (Some (wire_pack "gate" (pf_gate p))) (Some (wire_pack "confirm" (pf_confirm p))).
Definition wire_accepted (a : AcceptedEval) : Accepted := mkAccepted (wire_int (ae_delta a)) (ae_hash a) (ae_hash a) (Some (wire_proof (ae_proof a))).
Definition wire_result (r : ProductionEvalResult) : EvalResult :=
  match r with
  | ProdReject code _ => EvalReject code
  | ProdScreenerPass a => ScreenerPass (wire_accepted a)
  | ProdStateAdvance a before after rewritten => StateAdvance_ (wire_accepted a) (wire_int before) (wire_int after) rewritten
  end.

(** *** Integers among the doubles *)
Lemma dle_neg_zero x : dle (S754_zero true) x = dle (of_Z 0) x /\ dle x (S754_zero true) = dle x (of_Z 0).
Proof. by destruct x as [[]|[]| |[] ? ?]. Qed.

(** A safe non-negative number is its integer, up to the sign of zero. *)
Lemma safe_number n : safe_field (JNumber n) = true -> exists z, wire_int n = Some z /\ 0 <= z /\ safe_Z z /\ (n = of_Z z \/ z = 0 /\ n = S754_zero true).
Proof.
  intros H. pose proof (safe_field_inv _ H) as (z & Hz & H0 & Hs & _). cbn [safe_field] in H. apply andb_true_iff in H as [H _]. exists z.
  unfold int in Hz. cbn [num] in Hz. destruct (safe_integer_inv n H) as (z' & E & _ & Hn). rewrite E in Hz. cbn [default from_option id] in Hz. subst z'.
  split; [|done]. unfold wire_int, is_integer. rewrite E. destruct Hn as [->|[-> ->]]; [|done]. by rewrite deq_refl by by apply of_Z_not_NaN.
Qed.

Lemma dle_safe x y a b : safe_field (JNumber x) = true -> safe_field (JNumber y) = true -> wire_int x = Some a -> wire_int y = Some b -> dle x y = (a <=? b).
Proof.
  intros (za & Ea & Ha & Sa & Na)%safe_number (zb & Eb & Hb & Sb & Nb)%safe_number E1 E2. rewrite E1 in Ea. rewrite E2 in Eb. injection Ea as <-. injection Eb as <-.
  assert (G : forall z n, n = of_Z z \/ z = 0 /\ n = S754_zero true -> (forall x, dle n x = dle (of_Z z) x /\ dle x n = dle x (of_Z z))).
  { intros z n [->|[-> ->]] x'; [done|]. by destruct (dle_neg_zero x'). }
  rewrite (proj1 (G _ _ Na _)), (proj2 (G _ _ Nb _)). by apply dle_of_Z.
Qed.

Lemma min_safe x y a b : safe_field (JNumber x) = true -> safe_field (JNumber y) = true -> wire_int x = Some a -> wire_int y = Some b ->
  safe_field (JNumber (math_min x y)) = true /\ wire_int (math_min x y) = Some (Z.min a b).
Proof.
  intros Hx Hy Ea Eb. pose proof (safe_field_inv _ Hx) as (_ & _ & _ & _ & Nx). pose proof (safe_field_inv _ Hy) as (_ & _ & _ & _ & Ny). cbn [num] in *.
  pose proof (dle_safe _ _ _ _ Hx Hy Ea Eb) as L. rewrite dle_not_dlt in L by done. unfold math_min. rewrite Nx, Ny. cbn [orb]. destruct (dlt y x).
  - cbn [negb] in L. symmetry in L. apply Z.leb_gt in L. rewrite Z.min_r by lia. done.
  - cbn [negb] in L. symmetry in L. apply Z.leb_le in L. rewrite Z.min_l by lia. done.
Qed.

Lemma sum_safe x y a b : safe_field (JNumber x) = true -> safe_field (JNumber y) = true -> wire_int x = Some a -> wire_int y = Some b -> safe_Z (a + b) ->
  wire_int (dadd x y) = Some (a + b).
Proof.
  intros (za & Ea & Ha & Sa & Na)%safe_number (zb & Eb & Hb & Sb & Nb)%safe_number E1 E2 Hs. rewrite E1 in Ea. rewrite E2 in Eb. injection Ea as <-. injection Eb as <-.
  assert (W : forall z, 0 <= z -> safe_Z z -> wire_int (of_Z z) = Some z).
  { intros z Hz Hsz. destruct (safe_number (of_Z z)) as (z' & E & _); [by apply safe_of_Z|]. rewrite E. unfold wire_int in E. rewrite math_floor_of_Z in E by done. by destruct (is_integer _). }
  destruct Na as [->|[-> ->]], Nb as [->|[-> ->]]; [rewrite dadd_of_Z by done; apply W; lia || done| | |done].
  - rewrite Z.add_0_r in *. destruct a as [|p|p]; [done| |lia]. destruct (of_Z_pos p) as (m & e & E & _); [unfold safe_Z in Sa; lia|]. rewrite <- (W (Zpos p)) by done. by rewrite E.
  - rewrite Z.add_0_l in *. destruct b as [|p|p]; [done| |lia]. destruct (of_Z_pos p) as (m & e & E & _); [unfold safe_Z in Sb; lia|]. rewrite <- (W (Zpos p)) by done. by rewrite E.
Qed.

Lemma safe_nonneg_safe z : 0 <= z -> safe_Z z -> safe_nonneg (Some z) = Some z.
Proof. intros H Hs. unfold safe_nonneg, isSafeInteger. unfold safe_Z in Hs. repeat rewrite (proj2 (Z.leb_le _ _)) by lia. done. Qed.

(** *** The gates *)
Section Gates.
Context {HK : Hasher} (NS : number -> string) {St : Type} `{!CoreTexEvalDedupStore St}.

(** The coordinator and its evaluator are configured alike. *)
Record wired (cfg : CoreTexCoordinatorConfig) (deps : ProductionCoreTexEvaluatorCoreDeps) (commit : string) : Prop := {
  wi_epoch : cf_epoch cfg = cd_epochId deps;
  wi_offset : cf_targetBlockOffset cfg = None \/ cf_targetBlockOffset cfg = Some (cd_targetBlockOffset deps);
  wi_corpus : toLowerCase (pin_corpusRoot (expectedEpochPins cfg)) = toLowerCase (cd_corpusRoot deps);
  wi_bundle : toLowerCase (pin_coreVersionHash (expectedEpochPins cfg)) = toLowerCase (cd_bundleHash deps);
  wi_commit : toLowerCase (pin_hiddenSeedCommit (expectedEpochPins cfg)) = toLowerCase commit
}.

(** No hash is zero by accident, the two seeds have different commitments, and scores are at most a whole. *)
Record usable_packs (dual : PerPatchReceipt) : Prop := {
  up_block : toLowerCase (sc_blockhash (rc_context dual)) <> ZERO_HASH;
  up_seeds : forall g c, seedCommit (gateSeed dual) = Returns g -> seedCommit (confirmSeed dual) = Returns c -> g <> ZERO_HASH /\ c <> ZERO_HASH /\ g <> c;
  up_scores : forall s z, s = gateScorePpm dual \/ s = confirmScorePpm dual -> wire_int s = Some z -> z <= 1000000
}.

Lemma seedCommit_bytes32 s c : seedCommit s = Returns c -> BYTES32_RE c = true /\ toLowerCase c = c.
Proof. unfold seedCommit. intros (bs & _ & H)%bind_Returns. apply Returns_inj in H as <-. rewrite toLowerCase_idem, toLowerCase_hex. split; [apply BYTES32_hash|done]. Qed.

Lemma same_hash_ok s e : BYTES32_RE s = true -> toLowerCase s = toLowerCase e -> same_hash s e = true.
Proof. intros H E. unfold same_hash, isBytes32, hexEqb. unfold BYTES32_RE in H. rewrite H, E. apply String.eqb_refl. Qed.

Lemma pack_proof_ok domain c score z min : BYTES32_RE c = true -> toLowerCase c = c -> c <> ZERO_HASH -> wire_int score = Some z -> 0 <= z <= 1000000 -> min <= z ->
  pack_valid (wire_pack domain (mkPackProof c true score)) (Some min) = true.
Proof.
  intros Hc Hl Hz Ez Hb Hm. unfold pack_valid, wire_pack. cbn [pk_seedCommit pk_accepted pk_scorePpm pp_seedCommit pp_accepted pp_scorePpm]. rewrite Ez, safe_nonneg_safe by (unfold safe_Z; lia).
  unfold isBytes32. unfold BYTES32_RE in Hc. rewrite Hc, Hl, (proj2 (String.eqb_neq _ _) Hz), (proj2 (Z.leb_le _ _)), (proj2 (Z.ltb_ge _ _)) by lia. done.
Qed.

Lemma proof_valid cfg deps commit input j src tr dual offset proof p min a zg zc :
  wired cfg deps commit -> publishable deps j dual commit -> usable_packs dual ->
  runPerPatchEvaluation (job_request deps j) (job_deps deps input j src offset) = (tr, Returns dual) -> rc_accepted dual = true ->
  safe_Z offset -> 0 < offset -> offset_matches (rc_context dual) offset = true -> offset = cd_targetBlockOffset deps ->
  dualPackProofFromPerPatchReceipt dual (cd_corpusRoot deps) (cd_bundleHash deps) commit offset = Returns proof -> evaluationProof a = Some (wire_proof proof) ->
  toLowerCase (pr_originalPatchHash p) = computePatchHash (ej_bytes j) -> toLowerCase (ps_parentStateRoot (pr_parsed p)) = toLowerCase (ej_root j) ->
  wire_int (gateScorePpm dual) = Some zg -> wire_int (confirmScorePpm dual) = Some zc -> 0 <= zg -> 0 <= zc -> min <= Z.min zg zc ->
  validateDualPackProof a (expectation cfg p min) = true.
Proof.
  intros Hw Hp Hu Hrun Hacc Ho1 Ho2 Hoff Eo Hpr Ha Eph Epr Eg Ec Hg Hc Hmin. destruct (credited_packs _ _ _ _ _ _ _ Hrun Hacc) as (_ & _ & Q1 & _ & Q3 & _ & _ & Q6 & _).
  unfold dualPackProofFromPerPatchReceipt in Hpr. apply throw_when_Returns in Hpr as [_ Hpr]. cbv zeta in Hpr. apply bind_Returns in Hpr as (g & Sg & Hpr). apply bind_Returns in Hpr as (c & Sc & [= <-]).
  destruct Hw as [W1 W2 W3 W4 W5], Hp as [_ [B1 _] [B2 _] B3 _ [R1 R2] [T1 T2] B4 B5 _ _], Hu as [U1 U2 U3]. destruct (U2 g c Sg Sc) as (U4 & U5 & U6).
  destruct (seedCommit_bytes32 _ _ Sg) as [G1 G2], (seedCommit_bytes32 _ _ Sc) as [C1 C2]. apply offset_matches_inv in Hoff.
  unfold validateDualPackProof. rewrite Ha. unfold wire_proof, expectation. cbn [ep_kind ep_mode ep_epochId ep_blockhash ep_patchHash ep_parentStateRoot ep_corpusRoot ep_coreVersionHash ep_hiddenSeedCommit ep_epochSecretCommit ep_gate ep_confirm
    pf_epochId pf_context pf_targetBlockOffset pf_patchHash pf_parentStateRoot pf_corpusRoot pf_coreVersionHash pf_hiddenSeedCommit pf_epochSecretCommit pf_gate pf_confirm
    x_epoch x_targetBlockOffset x_patchHash x_parentStateRoot x_corpusRoot x_coreVersionHash x_hiddenSeedCommit x_minDualPackScorePpm receivedAtBlock targetBlock sc_blockhash].
  rewrite Q1, Q3, Q6, toLower_patchHash, !andb_true_iff. split_and!; try reflexivity.
  - apply bool_decide_eq_true. congruence.
  - unfold window_valid. cbn [ep_receivedAtBlock ep_targetBlock ep_targetBlockOffset]. rewrite safe_nonneg_safe by (lia || done). unfold isSafeInteger. unfold safe_Z in *.
    repeat rewrite (proj2 (Z.leb_le _ _)) by lia. rewrite !(proj2 (Z.ltb_lt _ _)) by lia. rewrite (proj2 (Z.eqb_eq _ _)) by lia. cbn [andb]. destruct W2 as [->| ->]; [done|]. apply Z.eqb_eq. congruence.
  - by apply BYTES32_lower.
  - rewrite toLowerCase_idem. apply negb_true_iff. by apply String.eqb_neq.
  - apply same_hash_ok; [apply BYTES32_hash|]. by rewrite toLower_patchHash.
  - apply same_hash_ok; [by apply BYTES32_lower|]. by rewrite toLowerCase_idem.
  - apply same_hash_ok; [by apply BYTES32_lower|]. by rewrite toLowerCase_idem.
  - apply same_hash_ok; [by apply BYTES32_lower|]. by rewrite toLowerCase_idem.
  - apply same_hash_ok; [by apply BYTES32_lower|]. by rewrite toLowerCase_idem.
  - apply same_hash_ok; [by apply BYTES32_lower|]. by rewrite toLowerCase_idem.
  - apply (pack_proof_ok _ g _ zg); try done; [split; [done|by apply (U3 (gateScorePpm dual)); auto]|lia].
  - apply (pack_proof_ok _ c _ zc); try done; [split; [done|by apply (U3 (confirmScorePpm dual)); auto]|lia].
  - unfold hexNe. cbn [wire_pack pk_seedCommit pp_seedCommit]. rewrite G2, C2. apply negb_true_iff. by apply String.eqb_neq.
Qed.
End Gates.

Section Passes.
Context {HK : Hasher} (NS : number -> string) {St : Type} `{!CoreTexEvalDedupStore St}.

Lemma ppm_whole v z : safe_field (JNumber (ppm v)) = true -> wire_int (ppm v) = Some z -> z <= 1000000.
Proof.
  unfold ppm. set (y := js_round _). set (m := math_min (of_Z 1000000) y). intros Hs Hz. unfold math_max in *.
  destruct (is_NaN (of_Z 0) || is_NaN m) eqn:N; [done|]. destruct (dlt (of_Z 0) m); [|vm_compute in Hz; injection Hz as <-; lia].
  unfold m, math_min in *. destruct (is_NaN (of_Z 1000000) || is_NaN y) eqn:N2; [done|]. destruct (dlt y (of_Z 1000000)) eqn:E; [|vm_compute in Hz; injection Hz as <-; lia].
  apply orb_false_iff in N2 as [_ N2]. assert (L : dle (of_Z 1000000) y = false) by (by rewrite dle_not_dlt, E).
  rewrite (dle_safe (of_Z 1000000) y 1000000 z) in L by (reflexivity || done). lia.
Qed.

Lemma parseHex_hex bs : bytes_ok bs -> parseHex (bytesToHex bs) = Returns bs.
Proof.
  intros H. pose proof (hex_field_hex bs H) as Hf. cbn [hex_field] in Hf. apply andb_true_iff in Hf as [H1 H2]. unfold parseHex. rewrite H1. cbn [negb orb].
  replace (Nat.odd (String.length (bytesToHex bs))) with false; [by apply hexToBytes_bytesToHex|].
  unfold Nat.odd. unfold bytesToHex in *. change (String.append "0x" ?x) with (String "0" (String "x" x)) in *. cbn [String.length Nat.sub] in *. rewrite Nat.sub_0_r in H2. by rewrite Nat.even_succ_succ, H2.
Qed.

(** The job of a prepared submission. *)
Lemma prepared_job snap p deps j : prepared_ok snap p -> prepare_job deps (submit_input p) = Returns j ->
  ej_bytes j = patch_wire (with_scoreDelta (pr_decoded p) 0) /\ ej_patch j = with_scoreDelta (pr_decoded p) 0
  /\ ej_root j = toLowerCase (ps_parentStateRoot (pr_parsed p)) /\ ej_threshold j = of_Z (CoordinatorSubmit.screenerThresholdPpm p).
Proof.
  intros Hp Hj. assert (Hw : wire_ok (with_scoreDelta (pr_decoded p) 0)) by (apply wire_ok_rescore; [apply Hp|done]).
  unfold prepare_job, submit_input in Hj. cbn [si_patchBytesHex si_screenerThresholdPpm si_parentState si_parentStateRoot] in Hj. rewrite (po_canonical _ _ Hp), parseHex_hex in Hj by by apply patch_wire_bytes_ok.
  cbn [mbind outcome_bind] in Hj. rewrite decodePatch_wire in Hj by done. cbn [mbind outcome_bind default] in Hj. apply throw_when_Returns in Hj as [_ Hj]. injection Hj as <-. done.
Qed.

(** The coordinator's minimum for a state advance, and a parent score that is a number. *)
Record advance_ready (cfg : CoreTexCoordinatorConfig) (deps : ProductionCoreTexEvaluatorCoreDeps) (j : EvalJob) (p : PreparedSubmit) (T : Z) : Prop := {
  ar_threshold : safe_field (JNumber (stateThresholdPpm deps)) = true /\ wire_int (stateThresholdPpm deps) = Some T /\ 0 < T;
  ar_before : forall seed r, seedScorer deps (ej_parent j) (ej_bytes j) seed (ej_threshold j) = Returns r -> safe_field (JNumber (ppm (composite (before r)))) = true;
  ar_size : Z.of_nat (length (patch_wire (pr_decoded p))) <= default 256 (maxPatchBytes cfg)
}.

(** The coordinator rewrites the patch to the bytes the evaluator returned. *)
Lemma rewrite_agrees cfg c snap p a min before d w bs s' root : prepared_ok snap p -> 0 <= d -> w = bytesToHex bs ->
  encodePatch (with_scoreDelta (with_scoreDelta (pr_decoded p) 0) d) = Returns bs -> Z.of_nat (length (patch_wire (pr_decoded p))) <= default 256 (maxPatchBytes cfg) ->
  Z.max (effectiveStateAdvanceThresholdPpm cfg c) min <= d ->
  validateDualPackProof a (expectation cfg p (Z.max (effectiveStateAdvanceThresholdPpm cfg c) min)) = true ->
  applyPatch snap (pr_decoded p) true = Returns (PatchSuccess s') -> merkleizeState s' = Returns root ->
  exists sp, rewrite_advance cfg c p a before (before + d) w min = Returns (inr sp) /\ sp_bytes sp = w /\ sp_hash sp = computePatchHash bs /\ sp_newRoot sp = bytesToHex root
    /\ sp_before sp = before /\ sp_after sp = before + d.
Proof.
  intros Hp Hd -> Henc Hsz Hmin Hv Happ Hroot. change (with_scoreDelta (with_scoreDelta (pr_decoded p) 0) d) with (with_scoreDelta (pr_decoded p) d) in Henc.
  destruct (encodePatch_inv _ _ Henc) as (_ & _ & _ & _ & Hwd & _). assert (Hw : wire_ok (with_scoreDelta (pr_decoded p) d)) by (apply wire_ok_rescore; [apply Hp|exact Hwd]).
  pose proof Henc as Henc'. rewrite encodePatch_wire in Henc' by done. apply Returns_inj in Henc' as <-. set (bs := patch_wire (with_scoreDelta (pr_decoded p) d)) in *.
  assert (Hok : bytes_ok bs) by by apply patch_wire_bytes_ok.
  unfold rewrite_advance. replace (before + d - before) with d by lia. rewrite (proj2 (Z.ltb_ge _ _)) by lia. rewrite Hv. cbn [negb].
  assert (En : normalizeHexBytes (JString (bytesToHex bs)) = Some (bytesToHex bs, bs)).
  { destruct (bareHex_chars bs Hok) as [H1 H2]. unfold normalizeHexBytes. rewrite toLowerCase_hex. rewrite hexToBytes_padded_hex by done.
    unfold bytesToHex. change (String.append "0x" ?x) with (String "0" (String "x" x)). unfold isHex. rewrite H1. cbn [Ascii.eqb andb negb].
    rewrite string_length. cbn [String.list_ascii_of_string length]. rewrite H2. rewrite Nat.odd_succ_succ, Nat.odd_mul. done. }
  rewrite En. assert (Elen : length bs = length (patch_wire (pr_decoded p))) by (unfold bs, patch_wire; rewrite !length_app; reflexivity).
  rewrite Elen, (proj2 (Z.ltb_ge _ _)) by lia. assert (Hdec : decodePatch bs = Returns (with_scoreDelta (pr_decoded p) d)) by by apply decodePatch_wire. rewrite Hdec.
  assert (Es : patchSemanticsMatchExceptScoreDelta (pr_decoded p) (with_scoreDelta (pr_decoded p) d) = true).
  { unfold patchSemanticsMatchExceptScoreDelta. cbn [with_scoreDelta patchType wordCount parentStateRoot indices newWords]. rewrite !Z.eqb_refl, String.eqb_refl, Nat.eqb_refl, !list_Zeqb_refl. done. }
  rewrite Es. cbn [negb]. rewrite Henc. cbn [mbind outcome_bind]. rewrite toLowerCase_hex, hexToBytes_padded_hex by done. rewrite Hdec. cbn [mbind outcome_bind].
  rewrite (po_snapshot _ _ Hp), applyPatch_rescore, Happ. cbn [mbind outcome_bind]. rewrite Hroot. cbn [mbind outcome_bind]. eexists. split; [reflexivity|].
  cbn [sp_bytes sp_hash sp_newRoot sp_before sp_after]. rewrite toLower_patchHash, toLowerCase_hex. done.
Qed.
End Passes.

Section Composition.
Context {HK : Hasher} (NS : number -> string) {St : Type} `{!CoreTexEvalDedupStore St}.

(** C37. The coordinator accepts what its evaluator credits: for a submission it prepared, with the two configured
    alike, a credited result passes the checks of the evaluation and of its proof at the submission's threshold; and a
    state advance that the evaluator's threshold admits is rewritten, whatever has happened to the core since, to
    exactly the bytes the evaluator returned, with its scores and the root of the patched state. *)
Theorem evaluation_passes_gates (cfg : CoreTexCoordinatorConfig) (deps : ProductionCoreTexEvaluatorCoreDeps) (commit : string) (s : St) (snap : CortexState) (p : PreparedSubmit)
    (t : list eval_event) (r : ProductionEvalResult) (a : AcceptedEval) (adv : option (number * number * string)) (j : EvalJob) (src : SeedSource) (tr : list effect) (dual : PerPatchReceipt) :
  prepared_ok snap p -> wired cfg deps commit -> 0 <= CoordinatorSubmit.screenerThresholdPpm p -> safe_Z (CoordinatorSubmit.screenerThresholdPpm p) ->
  scorePatch NS deps commit s (submit_input p) = (t, Returns r) -> credited_parts r = Some (a, adv) ->
  prepare_job deps (submit_input p) = Returns j -> seed_source deps s (submit_input p) j = inr src ->
  runPerPatchEvaluation (job_request deps j) (job_deps deps (submit_input p) j src (cd_targetBlockOffset deps)) = (tr, Returns dual) ->
  publishable deps j dual commit -> usable_packs dual -> (adv <> None -> exists T, advance_ready cfg deps j p T) ->
  validateAcceptedEvalResult (wire_result r) = None
  /\ validateDualPackProof (wire_accepted a) (expectation cfg p (CoordinatorSubmit.screenerThresholdPpm p)) = true
  /\ match adv with
     | None => True
     | Some (b, e, w) => exists before d, wire_int b = Some before /\ wire_int e = Some (before + d) /\ wire_int (ae_delta a) = Some d
       /\ forall c min T s' root, wire_int (stateThresholdPpm deps) = Some T -> Z.max (effectiveStateAdvanceThresholdPpm cfg c) min <= T ->
          applyPatch snap (pr_decoded p) true = Returns (PatchSuccess s') -> merkleizeState s' = Returns root ->
          exists sp, rewrite_advance cfg c p (wire_accepted a) before (before + d) w min = Returns (inr sp) /\ sp_bytes sp = w /\ sp_newRoot sp = bytesToHex root
          /\ sp_before sp = before /\ sp_after sp = before + d
     end.
Proof.
  intros Hp Hw Ht0 Hts H Hr Hj Hsrc Hrun Hpub Hus Hready.
  destruct (credited_output NS _ _ _ _ _ _ _ _ H Hr) as (j' & src' & tr' & dual' & chosen & Hj' & Hsrc' & Ho1 & Ho2 & Hrun' & Hacc & Hoff & _ & Hch & HA & Hproof & Ed & Eh & Hadv).
  rewrite Hj in Hj'. apply Returns_inj in Hj' as <-. rewrite Hsrc in Hsrc'. injection Hsrc' as <-. cbn [submit_input si_targetBlockOffset default] in *. rewrite Hrun in Hrun'. injection Hrun' as <- <-.
  assert (Hm : offset_matches (rc_context dual) (cd_targetBlockOffset deps) = true) by (apply Hoff; apply Hpub).
  destruct (prepared_job _ _ _ _ Hp Hj) as (Jb & Jp & Jr & Jt). destruct (credited_packs _ _ _ _ _ _ _ Hrun Hacc) as (_ & _ & _ & _ & _ & _ & _ & _ & g & c & Hg & Hc & Eg & Ec & Hclear & pre & -> & _).
  destruct (built_members NS _ _ _ _ _ _ _ HA) as (h & _ & El & _ & _ & M1 & _ & MB & _). rewrite M1 in Eh. cbn [str] in Eh.
  apply chosen_scored with (g:=g) (c:=c) in Hch as Hchosen; [|done..].
  destruct (safe_number _ (proj1 (pb_scores _ _ _ _ Hpub))) as (zg & Wg & Zg & Sg & _), (safe_number _ (proj2 (pb_scores _ _ _ _ Hpub))) as (zc & Wc & Zc & Sc & _).
  destruct (min_safe _ _ _ _ (proj1 (pb_scores _ _ _ _ Hpub)) (proj2 (pb_scores _ _ _ _ Hpub)) Wg Wc) as [Smin Wmin].
  assert (Ld : Z.min zg zc <= 1000000) by (pose proof (up_scores _ Hus (gateScorePpm dual) zg (or_introl eq_refl) Wg); lia).
  assert (Lt : CoordinatorSubmit.screenerThresholdPpm p <= Z.min zg zc).
  { apply Forall_cons in Hclear as [[C1 _] [[C2 _] _]%Forall_cons]. rewrite <- Eg, Jt in C1. rewrite <- Ec, Jt in C2.
    destruct (safe_number (of_Z (CoordinatorSubmit.screenerThresholdPpm p))) as (z & Wz & _); [by apply safe_of_Z|]. assert (z = CoordinatorSubmit.screenerThresholdPpm p) as ->.
    { unfold wire_int in Wz. rewrite math_floor_of_Z in Wz by done. destruct (is_integer (of_Z (CoordinatorSubmit.screenerThresholdPpm p))); [by injection Wz|done]. }
    rewrite (dle_safe _ _ _ _ (safe_of_Z _ Ht0 Hts) (proj1 (pb_scores _ _ _ _ Hpub)) Wz Wg) in C1. rewrite (dle_safe _ _ _ _ (safe_of_Z _ Ht0 Hts) (proj2 (pb_scores _ _ _ _ Hpub)) Wz Wc) in C2. lia. }
  assert (Hv : forall min, min <= Z.min zg zc -> validateDualPackProof (wire_accepted a) (expectation cfg p min) = true).
  { intros min Hmin. eapply proof_valid; try done; [by rewrite Jb, (po_hash _ _ Hp); apply toLower_patchHash|by rewrite Jr, toLowerCase_idem]. }
  assert (Ha : validateAccepted (wire_accepted a) = None).
  { unfold validateAccepted. cbn [wire_accepted deterministicDeltaPpm ev_reportHash artifactHash]. rewrite Ed, Wmin, Eh. rewrite safe_nonneg_safe by (lia || (unfold safe_Z in *; lia)).
    unfold isBytes32. unfold BYTES32_RE in MB. by rewrite MB. }
  destruct r as [code inner|a'|a' b e w]; cbn [credited_parts] in Hr; [done|injection Hr as <- <-; by auto|]. injection Hr as <- <-. destruct Hadv as (Ead & -> & -> & Hint & bs & Hbs & ->).
  destruct (Hready ltac:(done)) as (T & [[ST [WT HT]] Hbef Hsz]). apply andb_true_iff in Ead as [Ead _]. rewrite (dle_safe _ _ _ _ ST Smin WT Wmin) in Ead. apply Z.leb_le in Ead. rewrite Ed in *.
  assert (Sb : safe_field (JNumber (ppm (composite (before chosen)))) = true) by (destruct Hchosen as [->| ->]; eauto). destruct (safe_number _ Sb) as (zb & Wb & Zb & _). pose proof (ppm_whole _ _ Sb Wb) as Lb.
  assert (Wa : wire_int (dadd (ppm (composite (before chosen))) (math_min (gateScorePpm dual) (confirmScorePpm dual))) = Some (zb + Z.min zg zc)) by (apply sum_safe; try done; unfold safe_Z; lia).
  split; [|split].
  - cbn [wire_result validateAcceptedEvalResult]. rewrite Ha. rewrite Wb, Wa, !safe_nonneg_safe by (lia || (unfold safe_Z in *; lia)). replace (zb + Z.min zg zc - zb) with (Z.min zg zc) by lia.
    rewrite (proj2 (Z.leb_gt _ _)) by lia. cbn [wire_accepted deterministicDeltaPpm]. rewrite Ed, Wmin. by rewrite bool_decide_true.
  - by apply Hv.
  - exists zb, (Z.min zg zc). do 3 (split; [done|]). intros c' min T' s' root WT' Hmin Happ Hroot. rewrite WT in WT'. injection WT' as <-.
    assert (Ei : int (JNumber (math_min (gateScorePpm dual) (confirmScorePpm dual))) = Z.min zg zc).
    { unfold int. cbn [num]. unfold wire_int in Wmin. destruct (is_integer (math_min _ _)); [|done]. by rewrite Wmin. }
    rewrite Ei, Jp in Hbs. destruct (rewrite_agrees cfg c' snap p (wire_accepted a') min zb (Z.min zg zc) (bytesToHex bs) bs s' root) as (sp & E1 & E2 & _ & E3); try done; [lia|lia|apply Hv; lia|].
    by exists sp.
Qed.
End Composition.


(** A hash that tells the short inputs of the witness apart. *)
Definition sum_hasher : Hasher.
Proof.
  refine {| keccak256 := fun x => be_bytes 32 (fold_left (fun h b => Z.land (h * 257 + b + 1) 0xFFFFFF) x 7) |}; intros data.
  - apply length_be_bytes.
  - apply be_bytes_ok.
Defined.
Definition root_z : string := Eval vm_compute in root_hex (HK:=sum_hasher) zero_state.
Definition patch_z : Patch := Eval vm_compute in mkPatch PATCH_TYPE.SLOT_REPLACE 1 0 (root (cache_of (HK:=sum_hasher) zero_state)) [32] [5].
Definition prepared_z : PreparedSubmit := Eval vm_compute in
  mkPrepared 5 (mkParsed (bytesToHex (patch_wire patch_z)) (patch_wire patch_z) root_z (miner_w "a")) patch_z (bytesToHex (patch_wire patch_z))
    (computePatchHash (HK:=sum_hasher) (patch_wire patch_z)) (dedup_key root_z (computePatchHash (HK:=sum_hasher) (patch_wire patch_z))) 2500 root_z zero_state 0.
Definition config_z : CoreTexCoordinatorConfig := mkConfig 12 8453 (Some addr_w) None addr_w addr_w (mkEpochPins root_z (hex64 "4") (hex64 "3") (hex64 "6") (hex64 "8") (hex64 "9")) 2 (Some 3) 600
  None None None None None None None (Some 1000) None None None None None (Some 15) (Some 0xC0) (Some (hex64 "5")) None.
Definition credited_z : prog_of ProductionEvalResult := scorePatch (HK:=sum_hasher) int_printer evaluator_w (hex64 "9") empty_w (submit_input prepared_z).
Lemma prepared_z_ok : prepared_ok (HK:=sum_hasher) zero_state prepared_z.
Proof.
  constructor; [reflexivity|apply (bool_decide_unpack _)|reflexivity|..|eexists| | |]; vm_compute; reflexivity.
Qed.

Lemma evaluation_passes_gates_witness : exists t a b e w, scorePatch (HK:=sum_hasher) int_printer evaluator_w (hex64 "9") empty_w (submit_input prepared_z) = (t, Returns (ProdStateAdvance a b e w))
  /\ validateAcceptedEvalResult (wire_result (ProdStateAdvance a b e w)) = None /\ validateDualPackProof (wire_accepted a) (expectation config_z prepared_z 2500) = true.
Proof.
  assert (H : exists t a b e w, scorePatch (HK:=sum_hasher) int_printer evaluator_w (hex64 "9") empty_w (submit_input prepared_z) = (t, Returns (ProdStateAdvance a b e w))) by (do 5 eexists; vm_compute; reflexivity).
  assert (J : exists j, prepare_job (HK:=sum_hasher) evaluator_w (submit_input prepared_z) = Returns j) by (eexists; vm_compute; reflexivity).
  destruct J as [j J]. assert (Ej : Returns j = prepare_job (HK:=sum_hasher) evaluator_w (submit_input prepared_z)) by by rewrite J.
  assert (R : exists tr dual, runPerPatchEvaluation (HK:=sum_hasher) (job_request evaluator_w j) (job_deps evaluator_w (submit_input prepared_z) j (FreshDraw 0) 15) = (tr, Returns dual)
    /\ rc_context dual = context_w /\ gateScorePpm dual = of_Z 5000 /\ confirmScorePpm dual = of_Z 5000
    /\ (forall g c, seedCommit (HK:=sum_hasher) (gateSeed dual) = Returns g -> seedCommit (HK:=sum_hasher) (confirmSeed dual) = Returns c -> g <> ZERO_HASH /\ c <> ZERO_HASH /\ g <> c)).
  { vm_compute in Ej. injection Ej as ->. do 2 eexists. split; [vm_compute; reflexivity|]. split_and!; try reflexivity. vm_compute. intros g c [= <-] [= <-]. by split_and!. }
  destruct H as (t & a & b & e & w & H). destruct R as (tr & dual & R & Ec & Eg & Es & Eu). exists t, a, b, e, w.
  destruct (evaluation_passes_gates (HK:=sum_hasher) int_printer config_z evaluator_w (hex64 "9") empty_w zero_state prepared_z t (ProdStateAdvance a b e w) a (Some (b, e, w)) j (FreshDraw 0) tr dual prepared_z_ok) as (V1 & V2 & _).
  - constructor; try (vm_compute; reflexivity). right. reflexivity.
  - vm_compute. discriminate.
  - vm_compute. reflexivity.
  - exact H.
  - reflexivity.
  - exact J.
  - vm_compute in Ej. injection Ej as ->. vm_compute. reflexivity.
  - exact R.
  - vm_compute in Ej. injection Ej as ->. constructor; rewrite ?Ec, ?Eg, ?Es; try (vm_compute; by split_and!); try (vm_compute; reflexivity). vm_compute. repeat constructor; discriminate.
  - constructor; rewrite ?Ec, ?Eg, ?Es; [vm_compute; discriminate|exact Eu|]. assert (E5 : wire_int (of_Z 5000) = Some 5000) by (vm_compute; reflexivity). intros s z [->| ->]; rewrite ?Eg, ?Es, E5; intros [= <-]; discriminate.
  - intros _. exists 4000. constructor; [vm_compute; by split_and!| |vm_compute; discriminate]. intros seed r Hr. vm_compute in Hr. injection Hr as <-. vm_compute. reflexivity.
  - split; [exact H|]. split; [exact V1|exact V2].
Defined.
