(* ===== verification/RemoteScorer.v ===== *)
(** * The remote scorer
      (scorer-server-cli.ts, coordinator/remote-scorer-verify.ts)

    A keyless GPU host scores patches for the coordinator. [handleScoreJob] is
    its side: it checks the job, verifies the parent state shipped with it,
    injects the seeds the coordinator derived and runs the production
    evaluator. [verifyScorerResult] is the coordinator's side: what must hold
    of an answer before it is used. Both read a JSON value they did not make.
    The job queue, the tokens and the HTTP server of the host are left out.

    Theorem: what a result that passes has passed ([scorer_result_sound]). *)
From Stdlib Require Import Ascii SpecFloat.
From S2P Require Import Prelude JsSort Float StateTypes Codec Keccak Merkle Decoder Substrate Validate Patch SeedDerivation PerPatch CanonicalJson.
From S2P Require Import EvalHarness HiddenPack Metrics Benchmark SafeInteger EvalReport DedupStore ProductionEvaluator EvaluatorArtifact.
#[local] Open Scope Z_scope.

(** ** Comparing untrusted values *)
(** [a === b] of two values of different documents: objects are never the same. *)
Definition strict_eq (a b : jsval) : bool :=
  match a, b with
  | JUndefined, JUndefined | JNull, JNull => true
  | JBool x, JBool y => Bool.eqb x y
  | JNumber x, JNumber y => deq x y
  | JString x, JString y => String.eqb x y
  | JBigInt x, JBigInt y => x =? y
  | _, _ => false
  end.
Definition safe_int_field (v : jsval) : bool := match v with JNumber n => is_safe_integer n | _ => false end.
Definition is_string (v : jsval) : bool := match v with JString _ => true | _ => false end.
Definition is_bool (v : jsval) : bool := match v with JBool _ => true | _ => false end.

(** [(typeof want === 'string' ? same up to case : want === got)] for every key of the expectation. *)
Definition code_field_differs (actual : jsval) (e : string * jsval) : bool :=
  match e.2 with
  | JString want => negb (hexEq_field (prop actual e.1) (JString want))
  | want => negb (strict_eq want (prop actual e.1))
  end.
(** The key that differs. *)
Definition compareScorerCodeHealth (expected : option (list (string * jsval))) (actual : jsval) : option string :=
  match expected with
  | None => None
  | Some keys => if negb (is_object actual) then Some "missing"%string else fst <$> List.find (code_field_differs actual) keys
  end.

(** ** The coordinator's side *)
Record RemoteScorerActiveContext := mkActive {
  ac_epochId : Z;
  ac_parentStateRoot : string;
  ac_corpusRoot : string;
  ac_bundleHash : string;
  ac_coreVersionHash : string;
  ac_workPolicyHash : string;
  ac_thresholdPpm : number
}.
Record RemoteScorerExpectedHealth := mkExpectedHealth { eh_modelId : string; eh_revision : string; eh_promptTemplateHash : string; eh_code : option (list (string * jsval)) }.

Inductive VerifyScorerResult :=
  | ScorerOk (evalResult artifact : jsval)
  | ScorerRefused (code : string).

Definition validateResultSchema (result : jsval) : option string :=
  first_fault [
    fault (negb (is_bool (prop result "accepted"))) "accepted must be boolean";
    fault (match prop result "deltaPpm" with JNumber n => negb (is_finite n) | _ => true end) "deltaPpm invalid";
    fault (negb (safe_int_field (prop result "gateScorePpm")) || negb (safe_int_field (prop result "confirmScorePpm"))) "gate/confirm score invalid";
    fault (negb (safe_field (prop result "thresholdPpmUsed"))) "thresholdPpmUsed invalid";
    fault (negb (bytes32_field (prop result "policyHash"))) "policyHash must be bytes32";
    fault (negb (is_string (prop result "pairTraceHash")) || negb (is_string (prop result "scoreArrayHash"))) "trace hashes missing";
    fault (negb (is_object (prop result "scorerHealth"))) "scorerHealth missing";
    fault (truthy (prop result "accepted") && negb (bytes32_field (prop result "evalReportHash"))) "accepted result missing evalReportHash";
    fault (truthy (prop result "accepted") && negb (bytes32_field (prop result "artifactHash"))) "accepted result missing artifactHash";
    fault (truthy (prop result "accepted") && truthy (prop result "evaluationProof") && negb (is_str (prop (prop result "evaluationProof") "kind") "coretex-dual-pack-v1"))
      "evaluationProof kind invalid" ]%string.

(** §8 seed echo: [None] when the artifact is on the pinned seed. *)
Definition checkArtifactSeedEcho (artifact : jsval) (pinned : PerPatchSeedContext) (expectedSeeds : option (string * string)) : option string :=
  if negb (truthy artifact) then None else
  let sd := prop artifact "seedDerivation" in
  let receipt := prop artifact "receipt" in
  first_fault ([
    fault (negb (is_object sd)) "artifact seedDerivation missing";
    fault (negb (strict_eq (prop sd "receivedAtBlock") (JNumber (of_Z (receivedAtBlock pinned))))) "seedDerivation.receivedAtBlock";
    fault (negb (strict_eq (prop sd "targetBlock") (JNumber (of_Z (targetBlock pinned))))) "seedDerivation.targetBlock";
    fault (negb (hexEq_field (prop sd "blockhash") (JString (sc_blockhash pinned)))) "seedDerivation.blockhash" ]%string
  ++ match expectedSeeds with
     | None => []
     | Some (g, c) => [
       fault (negb (is_object receipt)) "artifact receipt missing";
       fault (negb (hexEq_field (prop receipt "gateSeed") (JString g))) "receipt.gateSeed";
       fault (negb (hexEq_field (prop receipt "confirmSeed") (JString c))) "receipt.confirmSeed" ]%string
     end).

Section WithHasher.
Context {HK : Hasher} (NumberToString : number -> string).

(** The module's [seedCommit]: [None] unless the seed is bytes32. *)
Definition job_seedCommit (seed : jsval) : option string :=
  match seed with
  | JString s => if BYTES32_RE s then match seedCommit s with Returns c => Some c | Throws _ => None end else None
  | _ => None
  end.

(** Check (6): the pins, seed commitments and scores of the proof. *)
Definition proof_fault (result job : jsval) (active : RemoteScorerActiveContext) : option string :=
  let p := prop result "evaluationProof" in
  if negb (truthy p) then None else
  let ctx := prop job "publicEvalContext" in
  let gateCommit := job_seedCommit (prop ctx "gateSeed") in
  let confirmCommit := job_seedCommit (prop ctx "confirmSeed") in
  first_fault [
    fault (negb (hexEq_field (prop p "corpusRoot") (JString (ac_corpusRoot active)))) "SCORER_PIN_MISMATCH";
    fault (negb (hexEq_field (prop p "coreVersionHash") (JString (ac_coreVersionHash active)))) "SCORER_PIN_MISMATCH";
    fault (negb (hexEq_field (prop p "parentStateRoot") (JString (ac_parentStateRoot active)))) "SCORER_PIN_MISMATCH";
    fault (negb (match gateCommit, confirmCommit with Some _, Some _ => true | _, _ => false end)) "SCORER_SEED_COMMIT_MISMATCH";
    fault (negb (hexEq_field (prop (prop p "gate") "seedCommit") (JString (default "" gateCommit)))) "SCORER_SEED_COMMIT_MISMATCH";
    fault (negb (hexEq_field (prop (prop p "confirm") "seedCommit") (JString (default "" confirmCommit)))) "SCORER_SEED_COMMIT_MISMATCH";
    fault (negb (strict_eq (prop (prop p "gate") "scorePpm") (prop result "gateScorePpm")) || negb (strict_eq (prop (prop p "confirm") "scorePpm") (prop result "confirmScorePpm")))
      "SCORER_SCORE_PROOF_MISMATCH" ]%string.

(** Checks (2) and (5): the live context and the fingerprint of the scorer. *)
Definition context_faults (result job : jsval) (active : RemoteScorerActiveContext) (expected : RemoteScorerExpectedHealth) : list (option string) :=
  let h := prop result "scorerHealth" in
  [ fault (negb (strict_eq (prop job "epochId") (JNumber (of_Z (ac_epochId active))))) "SCORER_STALE_CONTEXT";
    fault (negb (hexEq_field (prop job "parentStateRoot") (JString (ac_parentStateRoot active)))) "SCORER_STALE_CONTEXT";
    fault (negb (hexEq_field (prop job "corpusRoot") (JString (ac_corpusRoot active)))) "SCORER_STALE_CONTEXT";
    fault (negb (hexEq_field (prop job "bundleHash") (JString (ac_bundleHash active)))) "SCORER_STALE_CONTEXT";
    fault (negb (hexEq_field (prop job "coreVersionHash") (JString (ac_coreVersionHash active)))) "SCORER_STALE_CONTEXT";
    fault (negb (hexEq_field (prop job "policyHash") (JString (ac_workPolicyHash active)))) "SCORER_STALE_CONTEXT";
    fault (negb (is_str (prop h "modelId") (eh_modelId expected))) "SCORER_HEALTH_MISMATCH";
    fault (negb (is_str (prop h "revision") (eh_revision expected))) "SCORER_HEALTH_MISMATCH";
    fault (negb (hexEq_field (prop h "promptTemplateHash") (JString (eh_promptTemplateHash expected)))) "SCORER_HEALTH_MISMATCH";
    fault (negb (is_str (prop h "dtype") "fp32")) "SCORER_HEALTH_MISMATCH";
    fault (negb (strict_eq (prop h "tf32") (JBool false))) "SCORER_HEALTH_MISMATCH";
    fault (negb (strict_eq (prop h "cuda") (JBool true))) "SCORER_HEALTH_MISMATCH";
    fault (match compareScorerCodeHealth (eh_code expected) (prop h "code") with Some _ => true | None => false end) "SCORER_CODE_HASH_MISMATCH" ]%string.

(** Checks (7) and (4): the echoes and the coordinator's own threshold. *)
Definition decision_faults (result job : jsval) (active : RemoteScorerActiveContext) : list (option string) :=
  [ fault (negb (strict_eq (prop result "thresholdPpmUsed") (prop job "thresholdPpm"))) "SCORER_THRESHOLD_ECHO_MISMATCH";
    fault (negb (hexEq_field (prop result "policyHash") (prop job "policyHash"))) "SCORER_POLICY_ECHO_MISMATCH";
    fault (negb (truthy (prop result "accepted"))) "SCORER_REJECTED";
    fault (dlt (math_min (num (prop result "gateScorePpm")) (num (prop result "confirmScorePpm"))) (ac_thresholdPpm active)) "SCORER_BELOW_THRESHOLD";
    fault (negb (is_object (prop result "artifact"))) "SCORER_ARTIFACT_MISSING" ]%string.

Definition artifact_context_faults (artifact : jsval) (active : RemoteScorerActiveContext) : list (option string) :=
  let ctx := prop artifact "context" in
  [ fault (negb (is_object ctx)) "SCORER_ARTIFACT_CONTEXT_MISMATCH";
    fault (negb (hexEq_field (prop ctx "parentStateRoot") (JString (ac_parentStateRoot active)))) "SCORER_ARTIFACT_CONTEXT_MISMATCH";
    fault (negb (hexEq_field (prop ctx "corpusRoot") (JString (ac_corpusRoot active)))) "SCORER_ARTIFACT_CONTEXT_MISMATCH";
    fault (negb (hexEq_field (prop ctx "coreVersionHash") (JString (ac_coreVersionHash active)))) "SCORER_ARTIFACT_CONTEXT_MISMATCH" ]%string.

(** The [EvalResult] the coordinator core consumes. *)
Definition remote_evalResult (result : jsval) : jsval :=
  let proof := if truthy (prop result "evaluationProof") then [("evaluationProof", prop result "evaluationProof")]%string else [] in
  if negb (strict_eq (prop result "scoreBeforePpm") JNull) && negb (strict_eq (prop result "scoreAfterPpm") JNull) && is_string (prop result "rewrittenPatchBytesHex") then
    JObject ([("outcome", JString "state_advance"); ("deterministicDeltaPpm", prop result "deltaPpm"); ("evalReportHash", prop result "evalReportHash"); ("artifactHash", prop result "artifactHash");
      ("scoreBeforePpm", prop result "scoreBeforePpm"); ("scoreAfterPpm", prop result "scoreAfterPpm"); ("rewrittenPatchBytesHex", prop result "rewrittenPatchBytesHex")]%string ++ proof)
  else
    JObject ([("outcome", JString "screener_pass"); ("deterministicDeltaPpm", prop result "deltaPpm"); ("evalReportHash", prop result "evalReportHash"); ("artifactHash", prop result "artifactHash")]%string ++ proof).

(** [verifyScorerResult]; of the reasons only the code is kept. *)
Definition verifyScorerResult (result job : jsval) (outstandingJobIds : list string) (active : RemoteScorerActiveContext) (expectedHealth : RemoteScorerExpectedHealth)
  : VerifyScorerResult :=
  if negb (is_object result) then ScorerRefused "SCORER_RESULT_MALFORMED"
  else if negb (strict_eq (prop result "jobId") (prop job "jobId")) then ScorerRefused "SCORER_JOB_ID_MISMATCH"
  else if negb (match prop job "jobId" with JString i => bool_decide (i ∈ outstandingJobIds) | _ => false end) then ScorerRefused "SCORER_JOB_NOT_OUTSTANDING"
  else match validateResultSchema result with Some _ => ScorerRefused "SCORER_RESULT_MALFORMED" | None =>
  match first_fault (context_faults result job active expectedHealth) with Some code => ScorerRefused code | None =>
  match proof_fault result job active with Some code => ScorerRefused code | None =>
  match first_fault (decision_faults result job active) with Some code => ScorerRefused code | None =>
  let artifact := prop result "artifact" in
  match hashPostRevealEvalReportArtifact NumberToString artifact with
  | Throws _ => ScorerRefused "SCORER_ARTIFACT_MALFORMED"
  | Returns recomputed =>
    if negb (hexEq_field (JString recomputed) (prop result "artifactHash")) || negb (hexEq_field (JString recomputed) (prop result "evalReportHash"))
    then ScorerRefused "SCORER_ARTIFACT_HASH_MISMATCH"
    else match first_fault (artifact_context_faults artifact active) with Some code => ScorerRefused code | None =>
    ScorerOk (remote_evalResult result) artifact
    end
  end
  end
  end
  end
  end%string.
End WithHasher.

(** ** The scorer's side *)
Record ScorerLoadedPins := mkLoaded {
  lp_modelId : string;
  lp_revision : string;
  lp_promptTemplateHash : string;
  lp_bundleHash : string;
  lp_corpusRoot : string;
  lp_coreVersionHash : string;
  lp_hiddenSeedCommit : option string;
  lp_code : jsval
}.

(** [{...}] as its own entries; [None] for a falsy value. *)
Definition code_entries (v : jsval) : option (list (string * jsval)) := if truthy v then Some (spread v) else None.

Definition checkScorerJobPins (job : jsval) (loaded : ScorerLoadedPins) : option string :=
  let p := prop job "expectedScorerPins" in
  let jobCommit := prop (prop job "publicEvalContext") "hiddenSeedCommit" in
  first_fault [
    fault (negb (is_object p)) "expectedScorerPins missing";
    fault (negb (is_str (prop p "modelId") (lp_modelId loaded))) "expectedScorerPins.modelId";
    fault (negb (is_str (prop p "revision") (lp_revision loaded))) "expectedScorerPins.revision";
    fault (negb (hexEq_field (prop p "promptTemplateHash") (JString (lp_promptTemplateHash loaded)))) "expectedScorerPins.promptTemplateHash";
    fault (negb (hexEq_field (prop p "bundleHash") (JString (lp_bundleHash loaded)))) "expectedScorerPins.bundleHash";
    fault (negb (hexEq_field (prop p "corpusRoot") (JString (lp_corpusRoot loaded)))) "expectedScorerPins.corpusRoot";
    fault (match compareScorerCodeHealth (code_entries (prop p "code")) (lp_code loaded) with Some _ => true | None => false end) "expectedScorerPins.code";
    fault (negb (hexEq_field (prop job "corpusRoot") (JString (lp_corpusRoot loaded)))) "job.corpusRoot";
    fault (negb (hexEq_field (prop job "bundleHash") (JString (lp_bundleHash loaded)))) "job.bundleHash";
    fault (negb (hexEq_field (prop job "coreVersionHash") (JString (lp_coreVersionHash loaded)))) "job.coreVersionHash";
    fault (match lp_hiddenSeedCommit loaded with
      | Some c => negb (strict_eq jobCommit JUndefined) && negb (hexEq_field jobCommit (JString c))
      | None => false
      end) "publicEvalContext.hiddenSeedCommit" ]%string.

(** [Number.isSafeInteger(v) && v > 0] *)
Definition positive_field (v : jsval) : bool := match v with JNumber n => is_safe_integer n && negb (dle n (of_Z 0)) | _ => false end.

Definition seedContext_faults (ctx : jsval) : list (option string) :=
  [ fault (negb (truthy ctx)) "publicEvalContext is required";
    fault (negb (positive_field (prop ctx "receivedAtBlock"))) "receivedAtBlock";
    fault (negb (positive_field (prop ctx "targetBlock"))) "targetBlock";
    fault (negb (positive_field (prop ctx "targetBlockOffset"))) "targetBlockOffset";
    fault (negb (int (prop ctx "targetBlock") =? int (prop ctx "receivedAtBlock") + int (prop ctx "targetBlockOffset"))%Z) "targetBlock != receivedAtBlock + targetBlockOffset";
    fault (negb (bytes32_field (prop ctx "blockhash"))) "blockhash must be bytes32";
    fault (negb (bytes32_field (prop ctx "gateSeed"))) "gateSeed must be bytes32";
    fault (negb (bytes32_field (prop ctx "confirmSeed"))) "confirmSeed must be bytes32" ]%string.

Definition resolveJobSeedContext (job : jsval) : string + PerPatchSeedContext * (string * string) :=
  let ctx := prop job "publicEvalContext" in
  match first_fault (seedContext_faults ctx) with
  | Some e => inl e
  | None => inr (mkSeedContext (int (prop ctx "receivedAtBlock")) (int (prop ctx "targetBlock")) (toLowerCase (str (prop ctx "blockhash"))),
      (toLowerCase (str (prop ctx "gateSeed")), toLowerCase (str (prop ctx "confirmSeed"))))
  end%string.

(** [/^0x[0-9a-fA-F]*$/.test(v)] of a string. *)
Definition hex_string_field (v : jsval) : bool := match v with JString s => HEX_RE s | _ => false end.

Definition validateJobShape (job : jsval) : option string :=
  first_fault ([
    fault (negb (is_object job)) "job must be an object";
    fault (negb (is_string (prop job "jobId") && truthy (prop job "jobId"))) "jobId required";
    fault (negb (safe_int_field (prop job "epochId"))) "epochId must be an integer" ]%string
  ++ map (fun key => fault (negb (bytes32_field (prop job key))) (key +:+ " must be bytes32")%string)
       ["parentStateRoot"; "patchHash"; "corpusRoot"; "bundleHash"; "coreVersionHash"]%string
  ++ [ fault (negb (hex_string_field (prop job "compactPatchBytesHex"))) "compactPatchBytesHex must be hex";
       fault (negb (hex_string_field (prop job "packedParentStateHex"))) "packedParentStateHex must be hex";
       fault (negb (Z.of_nat (String.length (str (prop job "packedParentStateHex"))) - 2 =? 2 * PACKED_SIZE)%Z) "packedParentStateHex length";
       fault (negb (address_field (prop job "miner"))) "miner must be an address";
       fault (negb (safe_field (prop job "thresholdPpm"))) "thresholdPpm must be a non-negative integer";
       fault (negb (bytes32_field (prop job "policyHash"))) "policyHash must be bytes32";
       fault (negb (is_object (prop job "expectedScorerPins"))) "expectedScorerPins required" ]%string).

(** The literal of [dualPackProofFromPerPatchReceipt]. *)
Definition pack_value (domain : string) (p : PackProof) : jsval :=
  JObject [("domain", JString domain); ("seedCommit", JString (pp_seedCommit p)); ("accepted", JBool (pp_accepted p)); ("scorePpm", JNumber (pp_scorePpm p))]%string.
Definition proof_value (p : PerPatchDualPackEvaluationProof) : jsval :=
  JObject [("kind", JString "coretex-dual-pack-v1"); ("mode", JString "future_blockhash_dual_pack"); ("epochId", JNumber (of_Z (pf_epochId p)));
    ("receivedAtBlock", JNumber (of_Z (receivedAtBlock (pf_context p)))); ("targetBlock", JNumber (of_Z (targetBlock (pf_context p))));
    ("targetBlockOffset", JNumber (of_Z (pf_targetBlockOffset p))); ("blockhash", JString (sc_blockhash (pf_context p))); ("patchHash", JString (pf_patchHash p));
    ("parentStateRoot", JString (pf_parentStateRoot p)); ("corpusRoot", JString (pf_corpusRoot p)); ("coreVersionHash", JString (pf_coreVersionHash p));
    ("hiddenSeedCommit", JString (pf_hiddenSeedCommit p)); ("epochSecretCommit", JString (pf_epochSecretCommit p));
    ("gate", pack_value "gate" (pf_gate p)); ("confirm", pack_value "confirm" (pf_confirm p))]%string.

(** What the handler is given: the evaluator, the trace of the reranker, its pins and fingerprint. *)
Record ScorerJobHandlerDeps := mkHandlerDeps {
  hd_scorePatch : ScorePatchInput -> outcome ProductionEvalResult;
  hd_pairTraceHash : string;
  hd_scoreArrayHash : string;
  hd_totalScoredPairCount : number;
  hd_wallMs : number;
  hd_telemetry : jsval;
  hd_loadedPins : ScorerLoadedPins;
  hd_scorerHealth : jsval
}.
Record ScorerJobResponse := mkResponse { sj_status : Z; sj_body : jsval }.

Definition refuse_job (status : Z) (error reason : string) : ScorerJobResponse := mkResponse status (JObject [("error", JString error); ("reason", JString reason)]%string).

Definition result_base (job : jsval) (deps : ScorerJobHandlerDeps) : list (string * jsval) :=
  [("jobId", prop job "jobId"); ("thresholdPpmUsed", prop job "thresholdPpm"); ("policyHash", JString (toLowerCase (str (prop job "policyHash"))));
   ("pairTraceHash", JString (hd_pairTraceHash deps)); ("scoreArrayHash", JString (hd_scoreArrayHash deps)); ("totalScoredPairCount", JNumber (hd_totalScoredPairCount deps));
   ("wallMs", JNumber (hd_wallMs deps)); ("telemetry", hd_telemetry deps); ("scorerHealth", hd_scorerHealth deps)]%string.

Definition rejected_body (code : string) (inner : option string) : list (string * jsval) :=
  [("accepted", JBool false); ("rejectionReason", JString code)]%string ++ match nonempty inner with Some i => [("innerRejectionReason", JString i)]%string | None => [] end
   ++ [("scoreBeforePpm", JNull); ("scoreAfterPpm", JNull); ("deltaPpm", JNumber (of_Z 0)); ("gateScorePpm", JNumber (of_Z 0)); ("confirmScorePpm", JNumber (of_Z 0))]%string.

Definition accepted_body (a : AcceptedEval) (advance : option (number * number * string)) : list (string * jsval) :=
  [("accepted", JBool true);
    ("scoreBeforePpm", match advance with Some (b, _, _) => JNumber b | None => JNull end);
    ("scoreAfterPpm", match advance with Some (_, e, _) => JNumber e | None => JNull end);
    ("deltaPpm", JNumber (ae_delta a)); ("gateScorePpm", JNumber (pp_scorePpm (pf_gate (ae_proof a)))); ("confirmScorePpm", JNumber (pp_scorePpm (pf_confirm (ae_proof a))));
    ("evalReportHash", JString (ae_hash a)); ("artifactHash", JString (ae_hash a)); ("artifact", ae_artifact a); ("evaluationProof", proof_value (ae_proof a))]%string
   ++ match advance with Some (_, _, w) => [("rewrittenPatchBytesHex", JString w)]%string | None => [] end.

Definition eval_body (r : ProductionEvalResult) : list (string * jsval) :=
  match r with
  | ProdReject code inner => rejected_body code inner
  | ProdScreenerPass a => accepted_body a None
  | ProdStateAdvance a b e w => accepted_body a (Some (b, e, w))
  end.

Section Handler.
Context {HK : Hasher}.

(** The parent state shipped with a job, if it has the root the job names. *)
Definition verifyJobParentState (job : jsval) : outcome (option CortexState) :=
  match (bs ← hexToBytes (str (prop job "packedParentStateHex")); unpack bs) with
  | Throws _ => Returns None
  | Returns state =>
    root ← merkleizeState state;
    Returns (if String.eqb (toLowerCase (bytesToHex root)) (toLowerCase (str (prop job "parentStateRoot"))) then Some state else None)
  end.

(** The input the job's evaluation runs on. *)
Definition job_input (job : jsval) (state : CortexState) (seedContext : PerPatchSeedContext) (injectedSeeds : string * string) : ScorePatchInput :=
  mkScoreInput (str (prop job "compactPatchBytesHex")) (str (prop job "parentStateRoot")) (str (prop job "miner")) (Some state) (Some (num (prop job "thresholdPpm")))
    (Some seedContext) (Some injectedSeeds) (Some (int (prop (prop job "publicEvalContext") "targetBlockOffset"))).

Definition handleScoreJob (job : jsval) (deps : ScorerJobHandlerDeps) : outcome ScorerJobResponse :=
  match validateJobShape job with
  | Some shape => Returns (refuse_job 400 "invalid-job" shape)
  | None =>
    match checkScorerJobPins job (hd_loadedPins deps) with
    | Some pinMismatch => Returns (refuse_job 409 "pin-mismatch" pinMismatch)
    | None =>
      parent ← verifyJobParentState job;
      match parent with
      | None => Returns (refuse_job 422 "SCORER_PARENT_STATE_MISMATCH" "parent")
      | Some state =>
        match resolveJobSeedContext job with
        | inl e => Returns (refuse_job 422 "SCORER_SEED_CONTEXT_INVALID" e)
        | inr (seedContext, injectedSeeds) =>
          match hd_scorePatch deps (job_input job state seedContext injectedSeeds) with
          | Throws _ => Returns (refuse_job 500 "eval-failure" "scorePatch threw")
          | Returns r => Returns (mkResponse 200 (JObject (result_base job deps ++ eval_body r)))
          end
        end
      end
    end
  end%string.
End Handler.

(** ** What an accepted result has passed *)
Section Sound.
Context {HK : Hasher} (NS : number -> string).

Record result_checked (result job : jsval) (outstandingJobIds : list string) (active : RemoteScorerActiveContext) (expected : RemoteScorerExpectedHealth) : Prop := {
  rk_job : exists i, prop result "jobId" = JString i /\ prop job "jobId" = JString i /\ i ∈ outstandingJobIds;
  rk_fresh : strict_eq (prop job "epochId") (JNumber (of_Z (ac_epochId active))) = true
    /\ Forall (fun '(k, pin) => hexEq (str (prop job k)) pin = true)
         [("parentStateRoot", ac_parentStateRoot active); ("corpusRoot", ac_corpusRoot active); ("bundleHash", ac_bundleHash active);
          ("coreVersionHash", ac_coreVersionHash active); ("policyHash", ac_workPolicyHash active)]%string;
  rk_health : let h := prop result "scorerHealth" in
    prop h "modelId" = JString (eh_modelId expected) /\ prop h "revision" = JString (eh_revision expected) /\ hexEq (str (prop h "promptTemplateHash")) (eh_promptTemplateHash expected) = true
    /\ prop h "dtype" = JString "fp32" /\ prop h "tf32" = JBool false /\ prop h "cuda" = JBool true /\ compareScorerCodeHealth (eh_code expected) (prop h "code") = None;
  rk_echo : strict_eq (prop result "thresholdPpmUsed") (prop job "thresholdPpm") = true /\ hexEq (str (prop result "policyHash")) (str (prop job "policyHash")) = true;
  rk_scores : prop result "accepted" = JBool true
    /\ Forall (fun k => exists n, prop result k = JNumber n /\ is_safe_integer n = true /\ (is_NaN (ac_thresholdPpm active) = false -> dle (ac_thresholdPpm active) n = true))
         ["gateScorePpm"; "confirmScorePpm"]%string;
  rk_artifact : exists h, hashPostRevealEvalReportArtifact NS (prop result "artifact") = Returns h
    /\ hexEq (str (prop result "artifactHash")) h = true /\ hexEq (str (prop result "evalReportHash")) h = true;
  rk_context : Forall (fun '(k, pin) => hexEq (str (prop (prop (prop result "artifact") "context") k)) pin = true)
    [("parentStateRoot", ac_parentStateRoot active); ("corpusRoot", ac_corpusRoot active); ("coreVersionHash", ac_coreVersionHash active)]%string;
  rk_proof : truthy (prop result "evaluationProof") = true ->
    let p := prop result "evaluationProof" in let ctx := prop job "publicEvalContext" in
    prop p "kind" = JString "coretex-dual-pack-v1"
    /\ Forall (fun '(pack, seed, score) => exists s bs, prop ctx seed = JString s /\ hexToBytes_checked s = Returns bs
         /\ hexEq (str (prop (prop p pack) "seedCommit")) (bytesToHex (keccak256 bs)) = true
         /\ strict_eq (prop (prop p pack) "scorePpm") (prop result score) = true)
       [("gate", "gateSeed", "gateScorePpm"); ("confirm", "confirmSeed", "confirmScorePpm")]%string
}.

Lemma hexEq_field_JString v s : hexEq_field v (JString s) = true -> hexEq (str v) s = true.
Proof. by destruct v. Qed.
Lemma is_str_eq v s : is_str v s = true -> v = JString s.
Proof. destruct v; try done. cbn [is_str]. by intros ->%String.eqb_eq. Qed.
Lemma strict_bool v b : strict_eq v (JBool b) = true -> v = JBool b.
Proof. destruct v; try done. cbn [strict_eq]. by intros ->%Bool.eqb_prop. Qed.
Lemma hexEq_sym x y : hexEq x y = hexEq y x.
Proof. apply String.eqb_sym. Qed.

Lemma job_seedCommit_Some v c : job_seedCommit v = Some c -> exists s bs, v = JString s /\ hexToBytes_checked s = Returns bs /\ c = bytesToHex (keccak256 bs).
Proof.
  unfold job_seedCommit. destruct v as [| | | |s| | | | | |]; try done. destruct (BYTES32_RE s); [|done]. unfold seedCommit. destruct (hexToBytes_checked s) as [bs|] eqn:E; [|done].
  cbn [mbind outcome_bind]. rewrite toLowerCase_hex. intros [= <-]. by exists s, bs.
Qed.

(** The checks of [verifyScorerResult] in order, for a result it passes. *)
Lemma verify_scorer_inv result job ids active expected ev art : verifyScorerResult NS result job ids active expected = ScorerOk ev art ->
  is_object result = true /\ strict_eq (prop result "jobId") (prop job "jobId") = true /\ (exists i, prop job "jobId" = JString i /\ i ∈ ids)
  /\ validateResultSchema result = None /\ first_fault (context_faults result job active expected) = None /\ proof_fault result job active = None
  /\ first_fault (decision_faults result job active) = None /\ first_fault (artifact_context_faults (prop result "artifact") active) = None
  /\ ev = remote_evalResult result /\ art = prop result "artifact"
  /\ exists h, hashPostRevealEvalReportArtifact NS (prop result "artifact") = Returns h
     /\ hexEq_field (JString h) (prop result "artifactHash") = true /\ hexEq_field (JString h) (prop result "evalReportHash") = true.
Proof.
  unfold verifyScorerResult. cbv zeta. destruct (is_object result); [|done]. cbn [negb]. destruct (strict_eq _ _) eqn:E1; [|done]. cbn [negb].
  destruct (negb _) eqn:E2; [done|]. destruct (validateResultSchema result); [done|]. destruct (first_fault (context_faults _ _ _ _)); [done|]. destruct (proof_fault _ _ _); [done|].
  destruct (first_fault (decision_faults _ _ _)); [done|]. destruct (hashPostRevealEvalReportArtifact _ _) as [h|] eqn:Eh; [|done]. destruct (negb _ || negb _) eqn:E3; [done|].
  apply orb_false_iff in E3 as [E3%negb_false_iff E4%negb_false_iff]. destruct (first_fault (artifact_context_faults _ _)); [done|]. intros [= <- <-]. split_and!; try done; [|by exists h].
  apply negb_false_iff in E2. destruct (prop job "jobId") as [| | | |i| | | | | |]; try done. exists i. split; [done|]. by apply bool_decide_eq_true in E2.
Qed.

(** What a remote result has passed before its evaluation is used: it answers an outstanding job of the live
    context, from a scorer with the expected fingerprint; it is accepted and both scores clear the coordinator's own
    threshold; its artifact has the hash it names under both names and the live pins; and its proof, when there is one,
    commits to the seeds the coordinator shipped and carries the same scores. *)
Theorem scorer_result_sound (result job : jsval) (outstandingJobIds : list string) (active : RemoteScorerActiveContext) (expected : RemoteScorerExpectedHealth) (ev art : jsval) :
  verifyScorerResult NS result job outstandingJobIds active expected = ScorerOk ev art ->
  ev = remote_evalResult result /\ art = prop result "artifact" /\ result_checked result job outstandingJobIds active expected.
Proof.
  intros H. apply verify_scorer_inv in H as (_ & Hid & (i & Hi & Hin) & Hs & Hc & Hp & Hd & Ha & -> & -> & h & Hh & H1 & H2). split; [done|]. split; [done|].
  unfold validateResultSchema in Hs. rewrite first_fault_None in Hs. split_faults Hs. rewrite first_fault_None in Hc. unfold context_faults in Hc. cbv zeta in Hc. split_faults Hc.
  rewrite first_fault_None in Hd. unfold decision_faults in Hd. split_faults Hd. rewrite first_fault_None in Ha. unfold artifact_context_faults in Ha. cbv zeta in Ha. split_faults Ha.
  repeat match goal with F : negb _ = false |- _ => apply negb_false_iff in F | F : hexEq_field _ (JString _) = true |- _ => apply hexEq_field_JString in F | F : is_str _ _ = true |- _ => apply is_str_eq in F
    | F : strict_eq _ (JBool _) = true |- _ => apply strict_bool in F end.
  assert (HM : forall g c, is_safe_integer g = true -> is_safe_integer c = true -> dlt (math_min g c) (ac_thresholdPpm active) = false -> is_NaN (ac_thresholdPpm active) = false ->
    dle (ac_thresholdPpm active) g = true /\ dle (ac_thresholdPpm active) c = true).
  { intros g c Hg Hc Hm Hn. apply min_clears; try done; [destruct (safe_integer_inv _ Hg) as (z & _ & Hz & [->|[_ ->]])|destruct (safe_integer_inv _ Hc) as (z & _ & Hz & [->|[_ ->]])]; done || by apply of_Z_not_NaN. }
  constructor.
  - exists i. rewrite Hi in Hid. destruct (prop result "jobId") as [| | | |i'| | | | | |]; try done. cbn [strict_eq] in Hid. apply String.eqb_eq in Hid as ->. done.
  - split; [done|]. by repeat constructor.
  - cbv zeta. split_and!; try done. by destruct (compareScorerCodeHealth _ _).
  - split; [done|]. by apply hexEq_field_str.
  - destruct (prop result "accepted") as [| |b| | | | | | | |]; try done. destruct b; [|done]. split; [done|].
    match goal with F : negb (safe_int_field _) || negb (safe_int_field _) = false |- _ => apply orb_false_iff in F as [Sg%negb_false_iff Sc%negb_false_iff] end.
    match goal with F : dlt (math_min _ _) _ = false |- _ => rename F into Hm end.
    destruct (prop result "gateScorePpm") as [| | |g| | | | | | |] eqn:Eg; try done. destruct (prop result "confirmScorePpm") as [| | |c| | | | | | |] eqn:Ec; try done. cbn [safe_int_field num] in *.
    apply Forall_cons; split; [exists g|apply Forall_singleton; exists c]; (split; [done|]); (split; [done|]); intros Hn; by destruct (HM g c Sg Sc Hm Hn).
  - exists h. split; [done|]. split; rewrite hexEq_sym; by apply hexEq_field_str in H1, H2.
  - by repeat constructor.
  - intros Ht. cbv zeta. assert (Acc : truthy (prop result "accepted") = true) by done. rewrite Acc, Ht in *. cbn [andb] in *. match goal with F : negb (is_str (prop _ "kind") _) = false |- _ => apply negb_false_iff, is_str_eq in F; rename F into Hk end.
    unfold proof_fault in Hp. rewrite Ht in Hp. cbn [negb] in Hp. cbv zeta in Hp. rewrite first_fault_None in Hp. split_faults Hp.
    repeat match goal with F : negb _ = false |- _ => apply negb_false_iff in F | F : hexEq_field _ (JString _) = true |- _ => apply hexEq_field_JString in F end.
    destruct (job_seedCommit (prop _ "gateSeed")) as [gc|] eqn:Eg; [|done]. destruct (job_seedCommit (prop _ "confirmSeed")) as [cc|] eqn:Ec; [|done]. cbn [default] in *.
    match goal with F : negb _ || negb _ = false |- context [strict_eq] => apply orb_false_iff in F as [Sg%negb_false_iff Sc%negb_false_iff] end.
    destruct (job_seedCommit_Some _ _ Eg) as (gs & gb & G1 & G2 & ->), (job_seedCommit_Some _ _ Ec) as (cs & cb & C1 & C2 & ->). split; [done|].
    apply Forall_cons; split; [exists gs, gb|apply Forall_singleton; exists cs, cb]; by split_and!.
Qed.
End Sound.
